(* ===== verification/_CoqProject ===== *)
-Q . S2P
Prelude.v
GF256.v
GFPoly.v
Sha256.v
Shamir.v
KeyProvider.v
GoStr.v
AuditHash.v
AuditCheckpoint.v
AuditRecords.v
AuditDB.v
AuditPages.v
AuditResult.v
AuditWalk.v
AuditVerify.v
AuditTrail.v
AuditStore.v
AuditOnline.v
AuditMigrate.v
AuditFlusher.v
Rbac.v
RoleCache.v
Authz.v
SecretTree.v
AuthzBatch.v
AuthzTables.v
KeyFS.v
KeySet.v
KeySetSpec.v
KeyRotation.v
KeyRotationSpec.v
KeyCrash.v
KeyExample.v
DirFS.v
Restore.v
RestorePaths.v
RestoreSteps.v
RestoreInstall.v
RestoreRun.v
RestoreGood.v
RestoreSafe.v
RestoreCommit.v
RestoreAtomic.v
RestoreExample.v
TxDB.v
Catalog.v
CatalogSafe.v
CatalogRestore.v
AuthLimiter.v
AuthLimiterTrack.v
AuthBudget.v
AuthBudgetSafe.v
LoginLockout.v
LockoutSafe.v
DepGraph.v
DepImpact.v
DepOrder.v
DepStore.v
RotationRun.v
RotationPlan.v
SecretRow.v
SecretTemplate.v
SecretRead.v
AdminGuard.v
AdminSafe.v
AdminVerdict.v
SoD.v
SoDGrant.v
SoDScan.v
SoDGate.v
SoDSafe.v
SoDExact.v
SoDExample.v
