(* ===== verification/Prelude.v ===== *)
(** Keyorix: a verification library.

    Keyorix is a secrets manager: a server keeps secrets, encrypted under a key
    hierarchy, in a SQL database; decides who may do what with each of them; and
    writes an audit trail that can be verified without it.  This library models
    the parts of the Go sources that carry those promises and proves them.  It is
    a shallow embedding: a Go function is a Rocq function of the same name where
    the name is free, a fallible one returns a [res] ([Ok] or the error), a
    stateful one takes and returns its state, concurrent ones are step relations.

    * The parts, the files and the sources

    Key custody.
    - [GF256], [GFPoly], [Shamir]: internal/crypto/shamir.go, the field, Split
      and Combine, and the framing of a key encryption key with its commitment
      (shamir_provider.go); [Sha256] is the hash, executable, with its HMAC.
    - [KeyProvider]: the chain of key providers and its downgrade check
      (provider_tier.go, multi_provider.go).
    - [KeyFS], [KeySet], [KeySetSpec]: the key files, with writes, renames and
      directory syncs that fail in three ways and are lost at a power cut, and
      the key-set manifest over them (internal/keyfiles, internal/securefiles).
    - [KeyRotation], [KeyRotationSpec], [KeyCrash], [KeyExample]: rotation of the
      passphrase and of the data key, and the recovery at boot
      (internal/encryption/keymanager_*.go, service_rotation.go).
    - [Restore]: `admin restore --overwrite-existing` and `--recover`: staged
      files, the journal, the commit point on PostgreSQL and on SQLite, the install
      (server/admin/restore_commit.go, restore.go, internal/restorejournal).
    - [DirFS], [RestorePaths], [RestoreSteps], [RestoreInstall], [RestoreRun],
      [RestoreGood], [RestoreSafe], [RestoreCommit], [RestoreAtomic],
      [RestoreExample]: invariants that speak of one directory at a time, the names a
      restore uses, what each step leaves, the states between commands, histories of
      commands, and a configuration with examples.

    Audit trail.
    - [GoStr], [AuditHash], [AuditCheckpoint], [AuditRecords]: the encodings that
      are hashed and signed, checkpoints, the witness file, retention anchors,
      seals, key transitions, the state row (internal/auditverify).
    - [AuditDB], [AuditPages], [AuditResult], [AuditWalk], [AuditVerify],
      [AuditTrail]: the offline verifier, from its queries to its exit code.
    - [AuditStore], [AuditOnline], [AuditMigrate], [AuditFlusher]: the server's
      side: the batched append, its own verification, the re-encoding of old
      rows, the hand-over between the goroutines that write
      (internal/storage/store/local_audit_chain*.go).

    Authorization.
    - [Rbac], [RoleCache]: which roles a principal holds at a scope, from the
      grant tables, and the cache of role permissions (local_rbac.go,
      local_principal_permission.go, role_permission_cache.go).
    - [Authz]: the decisions on scopes and secrets, token restrictions, access
      lists, shares and their elevations (internal/core/authz.go, share_authz.go,
      secret_acl.go, permissions.go).
    - [SecretTree]: folders, moves and the ancestor walk the access lists inherit
      through (secret_move.go, GetSecretAncestors).
    - [AuthzBatch], [AuthzTables]: the decision of a whole page
      (authz_secret_batch.go) against an interface of its reads, and the tables
      that implement both kinds of reads.

    Catalog.
    - [TxDB]: transactions under READ COMMITTED as programs of SQL statements,
      their interleavings, and a rely-guarantee rule for invariants of the
      committed state.
    - [Catalog], [CatalogSafe], [CatalogRestore]: projects, environments and
      secrets: creation, deletion with its cascade, restoration, suspension
      (local_secrets.go, local_parent_liveness.go, internal/core/catalog.go,
      secrets.go, secret_suspend.go).

    Login.
    - [AuthLimiter], [AuthLimiterTrack]: the bounded in-memory limiter behind the
      authentication budgets, its list of entries, its indexes and its eviction,
      and the specification it implements (internal/core/auth_budget.go).
    - [AuthBudget], [AuthBudgetSafe]: the budgets of logins, password resets and
      single sign-on over the login_attempts table, with statements that fail or
      lose their acknowledgement (auth_budget.go, rate_limit.go,
      local_login_attempts.go).
    - [LoginLockout], [LockoutSafe]: the failures of an account on its row and in
      memory, the checks before a session, the completion of a login and the
      unlock (login_lockout.go, local_users.go).

    Dependencies and rotation.
    - [DepGraph], [DepImpact], [DepOrder]: the graph of which secret depends on
      which: its search for cycles, the impact views with what they disclose, the
      order and the waves of a rotation (internal/core/secret_dependencies.go,
      blast_radius.go, secret_impact_preview.go, rotation_planner.go).
    - [DepStore]: the edges as rows, and the transactions that add, remove and
      purge them (local_secret_dependencies.go).
    - [RotationPlan], [RotationRun]: the plan of a project and of the install, and
      a run of automatic rotation with its failures and deferrals
      (rotation_planner.go, rotation_executor.go).

    Reading secrets.
    - [SecretRow]: the columns of a secret's row and the one statement that owns
      each: the read counter under its cap, the status with its marker, the
      rotation settings (local_secrets.go, secret_suspend.go, versions.go,
      rotation_executor.go SetSecretAutoRotate).
    - [SecretTemplate]: templates with secret references, their parser, limits and
      substitution (internal/secrettemplate/render.go).
    - [SecretRead]: the guards of a value read (expiry and clock, suspension,
      restricted secrets, schedule), the read, and the rendering of a template with
      its staging and commit (versions.go, classification_gate.go,
      secret_schedule.go, secret_render.go).

    Administrators.
    - [AdminGuard]: the guards that refuse to remove the last administrator, and
      the operations they stand in front of: suspending, deactivating and deleting
      users, also by the identity provider, taking roles from users and groups,
      removing members (also several at once by the identity provider), deleting groups;
      with what grants, restores, creates and
      sweeps (last_admin_fence.go, authz.go, scim.go, scim_groups.go, account_state.go, users.go,
      groups.go, rbac_management.go, local_rbac.go, local_users.go).
    - [AdminSafe], [AdminVerdict]: an administrator always remains; what each guard
      answers.
    - [SoD]: policies of two permissions no principal may hold together, the scan
      for principals that do, and the checks in front of grants
      (internal/core/sod.go, local_sod.go).
    - [SoDGrant]: the grants themselves, with the granter's ceiling, the scope of a
      role, the fences and the writes: roles to users, groups and machines, joins,
      new accounts, break-glass, removals (rbac_management.go, jit_access.go,
      groups.go, machine_token.go, users.go, role_scope_guard.go,
      named_lock_fence.go, authz.go, local_rbac.go, local_users.go).
    - [SoDScan], [SoDGate], [SoDSafe], [SoDExact], [SoDExample]: what the scan
      reports when statements fail, what each check answers, what a history of
      grants can lead to, the checks against the scan, examples.

    This file holds what they share: results, bytes, integers of a width, lists,
    sorting, and the hint database [kx].

    * How the parts interact

    The audit verifier is written against a record of queries ([AuditDB]), which
    the table-backed handle implements; the server's walk and the offline walk
    are compared through it.  The role decision is written against
    [UserRoleReads] and [AuthzStore]; [RoleResolution] states what role
    resolution promises a decision and [Rbac] discharges it; [BatchOf] states
    what the page reads promise and [AuthzTables] discharges it.  The key
    rotation runs over [KeyFS] through the key-set operations of [KeySet], whose
    specifications are proved once and used in every crash argument; the restore
    runs over [KeyFS] too, in several directories, through the rules of [DirFS].  The catalog
    programs, the edges of the dependency graph, the columns of a secret and the
    operations on administrators run in the transaction system of [TxDB]; a named
    lock is a row there that is only ever locked.  The grants of [SoDGrant] are rows of
    [Rbac] and ask [Authz] for the granter's authority; each of their transactions is one
    step, on a state other than the one checked before it.  Plans and runs use the waves of [DepOrder] and
    nothing else of the graph.  The budgets and the lockout share one world (table,
    limiters, clock, faults to come) and one limiter, which they use through its
    specification only.  A render gives the parser of [SecretTemplate] a resolver with
    its own state; what it asks of other components is the class [Lookups].

    * What the theorems show

    Shamir: shares of a secret recombine to it and fewer reveal nothing; the
    framed key survives the round trip and a changed commitment is refused.
    Providers: a chain without a static downgrade never answers from a lower
    tier.  Key files: a rotation that starts without a leftover redo marker, and
    that failures, kills and power cuts interrupt, leaves a key set that a boot left
    alone opens to what the database holds; for the data key, as long as no power is
    lost once the marker is cleared.  Restore: through failures, kills and power cuts,
    each command starting on what is on disk, key files and database are of one point in
    time whenever no journal is left, a restore that reports success is durable, and
    when nothing failed [--recover] always completes.
    Audit: a trail that is not found broken is unhashed rows and one chain, up to
    what seals declare lost; an accepted checkpoint pins every hashed row of the table
    up to the one it certifies, or two rows collide; the verifier always returns, with the same verdict at every page size;
    encodings are injective and message kinds never coincide; the witness never
    goes back; the server keeps one chain, appends what it reports as written, exactly
    that when no acknowledgement is lost, and isolates a bad event; its chain verifies
    offline, as its own walk says where both judge the first row alike; re-encoding is safe, no writer is left waiting.
    Authorization: resolution in one statement, composed or from the cache gives
    the answer of the tables; a cached answer was true at some moment of the call;
    an allowed action rests on a role, an access-list row or a recorded share; a
    restricted token only narrows; a page decision is its per-secret decisions, up to
    10000 shares of a secret.  Folders: in every interleaving a parent that is there is a
    folder of the same scope, and only a purge takes it away; moves alone keep the tree
    a forest.  Catalog: no committed state has a live child
    under a deleted project; deleting and restoring a project gives back what the
    deletion took, with its role grants and without the shares, access lists, approved
    requests and dynamic configurations.  Login: whatever statements fail, a budget
    (within the bounds of its memory) or an account check that admits has seen fewer
    attempts than its limit;
    a lock ends by itself; an unlock is never unrecorded; the limiter's memory is
    bounded.  Dependencies: in every interleaving the committed graph of a project has
    no cycle, so its rotation order always exists and is the greedy one; the impact of
    a secret is exact up to its bounds, its three views agree, and none names a secret
    its caller may not read.  Rotation: a plan lists every secret that needs it once,
    after its dependencies and by urgency; a run stores a secret only after what it
    depends on, where the dependencies were listed and have no cycle, and accounts for every secret; one project's failure leaves the
    install-wide plan of the others as it is.  Reads: however requests interleave, a
    value is handed out only with the counter raised below the cap the read loaded; a
    suspension marker stands until it is
    resumed; a binding to an upstream account is set and cleared under admin authority
    over the secret's project.  A secret that has expired stays closed wherever the
    clock is set; a render answers every user as if the secrets refused to them did not
    exist, puts in place of each reference the value of the secret it names, counted and
    audited once, and counts and audits nothing before the template is resolved.  The
    template parser reads its grammar, rejects at the first wrong placeholder, and no
    value with a line break, one of [`;|&<>] or a [$(] is substituted.
    Administrators: in every interleaving an account that can log in keeps an
    administrator's role, as long as no such grant has an end date, members are removed
    one to a request and the named lock holds; run alone, each
    guard refuses exactly the request after which there would be none.  Separation of
    duties: the scan lists every principal that violates a policy or names it as
    unread; a check refuses exactly the grant after which the scan would report
    something new, an administrator's role apart; over any history of grants, where
    grants to groups and new accounts were checked against the rules they run under, only
    the exempt ones (an administrator's role, break-glass, a join on
    behalf of the system) lead to a new violation.

    Where the code does not do what it says, the library has an example that
    shows it and the statement excludes it: a key promotion whose pending file
    was lost, a redo marker that outlives its rotation, a failed rename after which
    recovery refuses for good, a recovery that trusts a journal not yet on the disk, a
    restored project that
    bypasses the environment guard, cycles of folders by a deep move, by two
    racing moves and by a restoration, counted attempts displaced by mirrored ones,
    a cooldown that overflows, a policy's rotation state that a later success
    overwrites, a secret of unknown risk that is planned as one without risk, a render
    whose commit fails half-way and leaves the first references charged, two values that
    open a command substitution together, a grant that runs out counted as the last
    administrator's, the fence of the guards without the named lock, a machine exempt for
    the name of a role, a project administrator's role that exempts a whole join, a group
    grant that does not see a new policy, two administrators removed by one provisioning
    request, a batch written twice after a lost acknowledgement, a purged folder that rows
    still point to, a rotation without order when the dependencies cannot be listed, accounts past the last page of the scan.

    * Parameters, bounds and fuel

    Cryptography outside SHA-256 (AEAD, key derivation, random bytes), JSON
    decoding, RFC 3161 receipts and the clock are arguments; collision resistance
    appears as the hypothesis that two given strings with one digest are equal.
    Integers that can overflow are kept at their width, identifiers are [Z].
    Loops run on the structure of their input where they can; the others carry
    fuel equal to a bound the code has (20 rounds of the ancestor walk, the
    attempts of a retry) or a measure the input decreases (rows left, bits of the
    number printed, secrets not yet placed or visited: the impact search stops at
    2000 secrets or depth 10), and the totality theorems show it is never exhausted.
    Listings without ORDER BY are taken in id order.  The limiter's statements hold
    for fewer than 2^62 operations of a process (its identifiers do not wrap) and,
    for a key, while fewer than 10000 other keys and four times its limit of
    attempts came after it: what the code keeps.  The scan for violations is
    stated for up to five million accounts, the pages the store gives out; its fuel is
    one page more than the accounts fill.  A history of restores starts each
    command on what the disk has; its names are ASCII and apart.  A COMMIT of the audit
    writer may lose its acknowledgement; the named lock of the administrators' guards is
    not lost before its request ends.  A role read parked for a machine by an earlier
    statement of its request is an argument, current when it is used.

    * Not modelled

    Transports and clients (HTTP, gRPC, command line, web, operator, migration
    tool), configuration, schema migration, the AEAD data path, KMS and TPM
    calls, the archive format of backups, dynamic secrets and rotation in external
    systems, the fence against a second writer, delivery and reports are I/O, third-party
    protocols or glue.  Credentials, sessions, second factors
    and federation rest on cryptography and protocols outside the sources.
    Access requests and reviews, the activation of break-glass, the replacement of a
    role set, sharing administration and the purge jobs are decisions
    over the same tables that this library does not cover; where another part relies
    on one (an approval, a ceiling, a share) it is a lookup with the answer as argument. *)
From stdpp Require Import base tactics countable sets list list_numbers numbers.
From Stdlib Require Import ZArith Lia Strings.Byte.
From Stdlib Require Strings.String.

(** * Results of fallible Go functions

    A Go function returning [(T, error)] is modelled as a [res E T]: the error
    value, or the result.  [let?] is the [if err != nil { return err }] idiom. *)

Inductive res (E A : Type) : Type :=
| Ok (a : A)
| Err (e : E).
Arguments Ok {E A} _.
Arguments Err {E A} _.

Definition res_bind {E A B : Type} (m : res E A) (f : A -> res E B) : res E B :=
  match m with Ok a => f a | Err e => Err e end.

Definition res_ok {E A : Type} (m : res E A) : bool :=
  match m with Ok _ => true | Err _ => false end.

Declare Scope go_scope.
Delimit Scope go_scope with go.
Notation "'let?' x ':=' m 'in' k" := (res_bind m (fun x => k))
  (at level 10, x pattern, m at level 100, k at level 200,
   format "'let?'  x  ':='  m  'in' '//' k") : go_scope.
Notation "'guard?' b 'else' e 'in' k" := (if b then k else Err e)
  (at level 10, b at level 100, e at level 100, k at level 200,
   format "'guard?'  b  'else'  e  'in' '//' k") : go_scope.
Open Scope go_scope.
Open Scope Z_scope.

(** * Automation

    [kx] collects the rewriting and resolution facts of the library; [kx_crush]
    is the closing tactic the components share. *)

Create HintDb kx discriminated.

Ltac destr_match :=
  match goal with
  | |- context [match ?x with _ => _ end] =>
      match x with context [match _ with _ => _ end] => fail 1 | _ => destruct x eqn:? end
  end.

Ltac destr_match_in H :=
  match type of H with
  | context [match ?x with _ => _ end] =>
      match x with context [match _ with _ => _ end] => fail 1 | _ => destruct x eqn:? end
  end.

(** Boolean tests of the code to the propositions they decide. *)
Ltac breflect :=
  repeat match goal with
  | H : andb _ _ = true |- _ => apply andb_prop in H as [? ?]
  | H : orb _ _ = false |- _ => apply Bool.orb_false_elim in H as [? ?]
  | H : negb _ = true |- _ => apply Bool.negb_true_iff in H
  | H : negb _ = false |- _ => apply Bool.negb_false_iff in H
  | H : (_ =? _)%Z = true |- _ => apply Z.eqb_eq in H
  | H : (_ =? _)%Z = false |- _ => apply Z.eqb_neq in H
  | H : (_ <? _)%Z = true |- _ => apply Z.ltb_lt in H
  | H : (_ <? _)%Z = false |- _ => apply Z.ltb_ge in H
  | H : (_ <=? _)%Z = true |- _ => apply Z.leb_le in H
  | H : (_ <=? _)%Z = false |- _ => apply Z.leb_gt in H
  | H : bool_decide _ = true |- _ => apply bool_decide_eq_true in H
  | H : bool_decide _ = false |- _ => apply bool_decide_eq_false in H
  end.

Ltac kx_crush := repeat (destr_match; simplify_eq/=; breflect); eauto with kx; try done; try lia.

(** Decide a closed proposition by evaluation. *)
Ltac vm_decide :=
  match goal with |- ?P => apply (bool_decide_eq_true_1 P); vm_compute; reflexivity end.

(** * Machine integers

    Go's sized integers are [Z] with the wrap-around written out. *)

Definition u8 (z : Z) : Z := z mod 2 ^ 8.
Definition u64 (z : Z) : Z := z mod 2 ^ 64.
Definition s64 (z : Z) : Z := (z + 2 ^ 63) mod 2 ^ 64 - 2 ^ 63.

Definition is_u64 (z : Z) : Prop := 0 <= z < 2 ^ 64.
Definition is_s64 (z : Z) : Prop := - 2 ^ 63 <= z < 2 ^ 63.

Lemma u64_id z : is_u64 z -> u64 z = z.
Proof. intros. by apply Z.mod_small. Qed.
Lemma s64_id z : is_s64 z -> s64 z = z.
Proof. unfold is_s64, s64. intros. rewrite Z.mod_small; lia. Qed.
Lemma u64_range z : is_u64 (u64 z).
Proof. apply Z.mod_pos_bound. lia. Qed.
Lemma s64_range z : is_s64 (s64 z).
Proof. unfold is_s64, s64. pose proof (Z.mod_pos_bound (z + 2 ^ 63) (2 ^ 64)). lia. Qed.

#[export] Hint Resolve u64_range s64_range : kx.

(** * Bytes *)

Abbreviation bytes := (list Byte.byte).

#[export] Instance byte_eq_decision : EqDecision Byte.byte := Byte.byte_eq_dec.
#[export] Instance byte_countable : Countable Byte.byte.
Proof. refine (inj_countable' Byte.to_N (fun n => default Byte.x00 (Byte.of_N n)) _). intros b. by rewrite Byte.of_to_N. Defined.

(** A Go string literal: a Go [string] is its bytes. *)
Export String.StringSyntax.
Definition go (s : String.string) : bytes := String.list_byte_of_string s.
Arguments go s%_string_scope.

Definition Zb (b : Byte.byte) : Z := Z.of_N (Byte.to_N b).
Definition bZ (z : Z) : Byte.byte :=
  match Byte.of_N (Z.to_N (u8 z)) with Some b => b | None => Byte.x00 end.

Definition all_bytes : list Byte.byte := map (fun n => bZ (Z.of_nat n)) (seq 0 256).

Lemma Zb_range b : 0 <= Zb b < 256.
Proof. unfold Zb. pose proof (Byte.to_N_bounded b). lia. Qed.

Lemma bZ_Zb b : bZ (Zb b) = b.
Proof. destruct b; reflexivity. Qed.

Lemma Zb_inj a b : Zb a = Zb b -> a = b.
Proof. intros H. by rewrite <- (bZ_Zb a), H, bZ_Zb. Qed.

Lemma Zb_bZ z : 0 <= z < 256 -> Zb (bZ z) = z.
Proof.
  intros H. unfold bZ, Zb, u8. rewrite Z.mod_small by lia.
  destruct (Byte.of_N (Z.to_N z)) eqn:E.
  - apply Byte.to_of_N in E. rewrite E. lia.
  - apply Byte.of_N_None_iff in E. lia.
Qed.

Lemma all_bytes_complete b : b ∈ all_bytes.
Proof. destruct b; vm_compute; repeat (apply list_elem_of_here || apply list_elem_of_further). Qed.

(** A boolean property of one, or two, bytes holds everywhere when it evaluates
    to [true] on all of them. *)
Lemma forall_byte (P : Byte.byte -> bool) :
  forallb P all_bytes = true -> forall b, P b = true.
Proof.
  intros H b. rewrite forallb_forall in H. apply H, list_elem_of_In, all_bytes_complete.
Qed.

Lemma forall_byte2 (P : Byte.byte -> Byte.byte -> bool) :
  forallb (fun a => forallb (P a) all_bytes) all_bytes = true -> forall a b, P a b = true.
Proof. intros H a. apply forall_byte, (forall_byte _ H a). Qed.

(** * Lists *)

Lemma app_inj_length {A} (a b c d : list A) :
  length a = length c -> a ++ b = c ++ d -> a = c /\ b = d.
Proof.
  revert c; induction a as [|x a IH]; intros [|y c]; simpl; intros; simplify_eq; auto.
  destruct (IH c) as [-> ->]; auto.
Qed.

(** Splitting at the first occurrence of a separator is deterministic. *)
Lemma app_sep_inj {A} (s : A) (a b c d : list A) :
  s ∉ a -> s ∉ c -> a ++ s :: b = c ++ s :: d -> a = c /\ b = d.
Proof.
  revert c; induction a as [|x a IH]; intros [|y c]; simpl; intros Ha Hc E; simplify_eq; auto.
  - exfalso. apply Hc. left.
  - exfalso. apply Ha. left.
  - destruct (IH c) as [-> ->]; auto; intros ?; [apply Ha | apply Hc]; by right.
Qed.

Lemma fold_left_ext_in {A B} (f g : A -> B -> A) l a :
  (forall b acc, b ∈ l -> f acc b = g acc b) -> fold_left f l a = fold_left g l a.
Proof.
  revert a; induction l as [|b l IH]; intros a H; simpl; [done|].
  rewrite (H b) by (left). apply IH. intros. apply H. by right.
Qed.

(** A boolean conjunction over a list distributes as expected. *)
Lemma forallb_Forall {A} (f : A -> bool) l : forallb f l = true <-> Forall (fun x => f x = true) l.
Proof. by rewrite forallb_forall, List.Forall_forall. Qed.

Lemma lookup_map {A B} (f : A -> B) l i : map f l !! i = f <$> l !! i.
Proof. revert i; induction l as [|x l IH]; intros [|i]; simpl; auto. Qed.

Lemma elem_of_map {A B} (f : A -> B) l y : y ∈ map f l <-> exists x, y = f x /\ x ∈ l.
Proof. rewrite list_elem_of_In, in_map_iff. setoid_rewrite list_elem_of_In. naive_solver. Qed.

Lemma NoDup_rev_iff {A} (l : list A) : NoDup (rev l) <-> NoDup l.
Proof.
  rewrite !NoDup_ListNoDup. split; intros H; [rewrite <- (rev_involutive l)|]; by apply List.NoDup_rev.
Qed.

(** * Sorting by an integer key

    The order SQL's [ORDER BY] and Go's [slices.SortFunc] give, with equal keys
    kept in their original order. *)

Section sort_by.
Context {A : Type} (key : A -> Z).

Fixpoint insert_by (x : A) (l : list A) : list A :=
  match l with
  | [] => [x]
  | y :: l => if key x <=? key y then x :: y :: l else y :: insert_by x l
  end.
Definition sort_by (l : list A) : list A := foldr insert_by [] l.

Definition sorted_by (l : list A) : Prop := forall i j x y,
  l !! i = Some x -> l !! j = Some y -> (i <= j)%nat -> key x <= key y.

Lemma insert_by_perm x l : insert_by x l ≡ₚ x :: l.
Proof.
  induction l as [|y l IH]; simpl; [done|]. destruct (_ <=? _); [done|]. rewrite IH. apply Permutation_swap.
Qed.
Lemma sort_by_perm l : sort_by l ≡ₚ l.
Proof. induction l as [|x l IH]; simpl; [done|]. by rewrite insert_by_perm, IH. Qed.

Lemma sorted_by_nil : sorted_by [].
Proof. intros i j x y H. by rewrite lookup_nil in H. Qed.

Lemma sorted_by_cons x l : sorted_by (x :: l) <-> (forall y, y ∈ l -> key x <= key y) /\ sorted_by l.
Proof.
  split.
  - intros H. split.
    + intros y [j Hj]%list_elem_of_lookup. by apply (H O (S j) x y); [..|lia].
    + intros i j a b Ha Hb Hij. by apply (H (S i) (S j) a b); [..|lia].
  - intros [Hx Hl] [|i] [|j] a b Ha Hb Hij; simpl in *; simplify_eq; [lia| |lia|].
    + apply Hx, list_elem_of_lookup. eauto.
    + apply (Hl i j); [done..|lia].
Qed.

Lemma insert_by_sorted x l : sorted_by l -> sorted_by (insert_by x l).
Proof.
  induction l as [|y l IH]; intros H; simpl.
  - apply sorted_by_cons. split; [|apply sorted_by_nil]. intros y Hy. by apply elem_of_nil in Hy.
  - pose proof H as [Hy Hl]%sorted_by_cons. destruct (Z.leb_spec (key x) (key y)).
    + apply sorted_by_cons. split; [|done]. intros z [-> |Hz]%elem_of_cons; [done|]. specialize (Hy z Hz). lia.
    + apply sorted_by_cons. split; [|by apply IH]. intros z Hz. rewrite insert_by_perm in Hz.
      apply elem_of_cons in Hz as [-> |Hz]; [lia|by apply Hy].
Qed.
Lemma sort_by_sorted l : sorted_by (sort_by l).
Proof. induction l as [|x l IH]; simpl; [apply sorted_by_nil|]. by apply insert_by_sorted. Qed.

(** Sorting commutes with filtering. *)
Lemma filter_insert_by (P : A -> bool) x l : sorted_by l ->
  List.filter P (insert_by x l) = if P x then insert_by x (List.filter P l) else List.filter P l.
Proof.
  induction l as [|y l IH]; intros H; simpl; [done|]. apply sorted_by_cons in H as [Hy Hl].
  destruct (Z.leb_spec (key x) (key y)) as [Hxy|Hxy]; simpl.
  - destruct (P x); [|done]. destruct (P y); simpl.
    + by rewrite (proj2 (Z.leb_le _ _)).
    + assert (forall z, z ∈ List.filter P l -> key x <= key z) as Hz.
      { intros z Hz. apply list_elem_of_In, filter_In in Hz as [Hz _]. apply list_elem_of_In in Hz.
        specialize (Hy z Hz). lia. }
      destruct (List.filter P l) as [|z l']; [done|]. simpl. rewrite (proj2 (Z.leb_le _ _)); [done|]. apply Hz. left.
  - rewrite (IH Hl). destruct (P y), (P x); simpl; try done. by rewrite (proj2 (Z.leb_gt _ _)).
Qed.
Lemma filter_sort_by (P : A -> bool) l : List.filter P (sort_by l) = sort_by (List.filter P l).
Proof.
  induction l as [|x l IH]; simpl; [done|]. rewrite filter_insert_by by apply sort_by_sorted.
  rewrite IH. by destruct (P x).
Qed.
End sort_by.

(** ** Boolean filters *)

Lemma filter_ext_bool {A} (P Q : A -> bool) l :
  (forall x, P x = Q x) -> List.filter P l = List.filter Q l.
Proof. intros H. induction l as [|x l IH]; simpl; [done|]. by rewrite H, IH. Qed.

Lemma filter_filter_and {A} (P Q : A -> bool) l :
  List.filter P (List.filter Q l) = List.filter (fun x => Q x && P x) l.
Proof. induction l as [|x l IH]; simpl; [done|]. destruct (Q x); simpl; [|done]. by rewrite IH. Qed.

Lemma elem_of_filter_bool {A} (P : A -> bool) l x : x ∈ List.filter P l <-> x ∈ l /\ P x = true.
Proof. rewrite !list_elem_of_In. apply filter_In. Qed.

Lemma NoDup_map_filter {A B} (f : A -> B) (P : A -> bool) l : NoDup (map f l) -> NoDup (map f (List.filter P l)).
Proof.
  induction l as [|x l IH]; simpl; intros H; [done|]. apply list_relations.list.NoDup_cons in H as [Hx Hl].
  destruct (P x); simpl; [|auto]. apply list_relations.list.NoDup_cons. split; [|auto].
  intros (y & Hy & [Hin _]%elem_of_filter_bool)%elem_of_map. apply Hx, elem_of_map. eauto.
Qed.

Definition is_none {A} (o : option A) : bool := match o with None => true | Some _ => false end.

(** [asc l]: strictly ascending. *)
Definition asc (l : list Z) : Prop := forall i j x y, l !! i = Some x -> l !! j = Some y -> (i < j)%nat -> x < y.

Lemma asc_cons x l : asc (x :: l) <-> (forall y, y ∈ l -> x < y) /\ asc l.
Proof.
  split.
  - intros H. split.
    + intros y [j Hj]%list_elem_of_lookup. by apply (H O (S j) x y); [..|lia].
    + intros i j a b Ha Hb Hij. by apply (H (S i) (S j) a b); [..|lia].
  - intros [Hx Hl] [|i] [|j] a b Ha Hb Hij; simpl in *; simplify_eq; [lia| |lia|].
    + apply Hx, list_elem_of_lookup. eauto.
    + apply (Hl i j); [done..|lia].
Qed.

Lemma asc_app a b : asc (a ++ b) <-> asc a /\ asc b /\ (forall x y, x ∈ a -> y ∈ b -> x < y).
Proof.
  induction a as [|x a IH]; cbn [app].
  - split; [intros H; split_and!; [by intros ? ?|done|set_solver]|by intros (_ & ? & _)].
  - rewrite !asc_cons, IH. set_solver.
Qed.

Lemma NoDup_asc l : asc l -> NoDup l.
Proof.
  intros H. apply NoDup_alt. intros i j x Hi Hj. destruct (Nat.lt_trichotomy i j) as [Hlt|[?|Hlt]]; [|done|].
  - pose proof (H i j x x Hi Hj Hlt). lia.
  - pose proof (H j i x x Hj Hi Hlt). lia.
Qed.
