(* ===== verification/GF256.v ===== *)
(** GF(2^8) arithmetic of [internal/crypto/shamir.go]: the Russian-peasant
    product reduced by 0x11b, square-and-multiply powers and inverses, Horner
    evaluation; and the proof that these operations make the bytes a field, on
    which the Shamir file builds. *)
From Stdlib Require Import ZArith Lia Ring Field.
From stdpp Require Import base tactics list.
From S2P Require Import Prelude.

(** * The operations, as the Go code writes them *)

(** [a ^ b] on bytes. *)
Definition bxor (a b : Byte.byte) : Byte.byte := bZ (Z.lxor (Zb a) (Zb b)).

(** One iteration of [gfMul]'s loop on [(p, a, b)]. *)
Definition gfMul_step (s : Byte.byte * Byte.byte * Byte.byte) : Byte.byte * Byte.byte * Byte.byte :=
  let '(p, a, b) := s in
  let p := if Z.land (Zb b) 1 =? 0 then p else bxor p a in
  let hi := Z.land (Zb a) 0x80 in
  let a := bZ (Z.shiftl (Zb a) 1) in
  let a := if hi =? 0 then a else bxor a (bZ 0x1b) in
  (p, a, bZ (Z.shiftr (Zb b) 1)).

Definition gfMul (a b : Byte.byte) : Byte.byte :=
  fst (fst (Nat.iter 8 gfMul_step (bZ 0, a, b))).

(** The loop of [gfPow] halves [e] until it is zero: the bits of the exponent
    bound the number of iterations. *)
Fixpoint gfPow_loop (fuel : nat) (r base : Byte.byte) (e : Z) : Byte.byte :=
  match fuel with
  | O => r
  | S fuel =>
      if e <=? 0 then r
      else gfPow_loop fuel (if Z.land e 1 =? 1 then gfMul r base else r)
             (gfMul base base) (Z.shiftr e 1)
  end.

Definition gfPow (a : Byte.byte) (e : Z) : Byte.byte :=
  gfPow_loop (S (Z.to_nat (Z.log2 e))) (bZ 1) a e.

Definition gfInv (a : Byte.byte) : Byte.byte := gfPow a 254.

(** [for _, coeff := range slices.Backward(coeffs) { r = gfMul(r, x) ^ coeff }] *)
Definition gfEval (coeffs : list Byte.byte) (x : Byte.byte) : Byte.byte :=
  fold_left (fun r coeff => bxor (gfMul r x) coeff) (rev coeffs) (bZ 0).

(** * Field structure *)

Declare Scope gf_scope.
Delimit Scope gf_scope with gf.
Abbreviation gf0 := Byte.x00.
Abbreviation gf1 := Byte.x01.
Notation "a + b" := (bxor a b) : gf_scope.
Notation "a * b" := (gfMul a b) : gf_scope.
Notation "a - b" := (bxor a b) : gf_scope.
Definition gfDiv (a b : Byte.byte) : Byte.byte := gfMul a (gfInv b).
Definition gfOpp (a : Byte.byte) : Byte.byte := a.
Local Open Scope gf_scope.

Definition beqb (a b : Byte.byte) : bool := Byte.eqb a b.

Lemma beqb_eq a b : beqb a b = true -> a = b.
Proof. apply Byte.byte_dec_bl. Qed.

(** Decide an equation of one, or two, byte variables by evaluation. *)
Ltac byte1 a := revert a; intros a; apply beqb_eq; revert a; apply forall_byte; vm_compute; reflexivity.

Lemma byte2 (f g : Byte.byte -> Byte.byte -> Byte.byte) :
  forallb (fun a => forallb (fun b => beqb (f a b) (g a b)) all_bytes) all_bytes = true ->
  forall a b, f a b = g a b.
Proof. intros H a b. apply beqb_eq. revert a b. by apply forall_byte2. Qed.

Lemma bxor_Zb a b : Zb (a + b) = Z.lxor (Zb a) (Zb b).
Proof.
  assert (forall a b, Z.eqb (Zb (a + b)) (Z.lxor (Zb a) (Zb b)) = true) as H.
  { apply forall_byte2. vm_compute. reflexivity. }
  apply Z.eqb_eq, H.
Qed.

Lemma bxor_comm a b : a + b = b + a.
Proof. apply Zb_inj. rewrite !bxor_Zb. apply Z.lxor_comm. Qed.
Lemma bxor_assoc a b c : a + (b + c) = a + b + c.
Proof. apply Zb_inj. rewrite !bxor_Zb. symmetry. apply Z.lxor_assoc. Qed.
Lemma bxor_0_l a : gf0 + a = a.
Proof. apply Zb_inj. rewrite !bxor_Zb. apply Z.lxor_0_l. Qed.
Lemma bxor_0_r a : a + gf0 = a.
Proof. rewrite bxor_comm. apply bxor_0_l. Qed.
Lemma bxor_self a : a + a = gf0.
Proof. apply Zb_inj. rewrite bxor_Zb. apply Z.lxor_nilpotent. Qed.
Lemma bxor_eq_0 a b : a + b = gf0 -> a = b.
Proof.
  intros H. rewrite <- (bxor_0_r a), <- (bxor_self b), bxor_assoc, H. apply bxor_0_l.
Qed.

(** ** Bilinearity

    The loop state is additive in the multiplier and in the multiplicand, so the
    product is; two additive maps that agree on the eight powers of two agree. *)

Definition xtime (a : Byte.byte) : Byte.byte :=
  if Z.land (Zb a) 0x80 =? 0 then bZ (Z.shiftl (Zb a) 1)
  else bxor (bZ (Z.shiftl (Zb a) 1)) (bZ 0x1b).
Definition bhalf (b : Byte.byte) : Byte.byte := bZ (Z.shiftr (Zb b) 1).
Definition low (b v : Byte.byte) : Byte.byte := if Z.land (Zb b) 1 =? 0 then gf0 else v.

Lemma gfMul_step_eq p a b : gfMul_step (p, a, b) = (p + low b a, xtime a, bhalf b).
Proof.
  unfold gfMul_step, low, xtime, bhalf.
  destruct (Z.land (Zb b) 1 =? 0), (Z.land (Zb a) 128 =? 0); by rewrite ?bxor_0_r.
Qed.

Lemma xtime_xor a b : xtime (a + b) = xtime a + xtime b.
Proof. apply (byte2 (fun a b => xtime (bxor a b)) (fun a b => bxor (xtime a) (xtime b))). vm_compute. reflexivity. Qed.
Lemma bhalf_xor a b : bhalf (a + b) = bhalf a + bhalf b.
Proof. apply (byte2 (fun a b => bhalf (bxor a b)) (fun a b => bxor (bhalf a) (bhalf b))). vm_compute. reflexivity. Qed.

Lemma low_xor_r b v w : low b (v + w) = low b v + low b w.
Proof. unfold low. destruct (_ =? _); by rewrite ?bxor_0_r. Qed.
Lemma low_bit b v : low b v = if Z.testbit (Zb b) 0 then v else gf0.
Proof.
  unfold low. change 1%Z with (Z.ones 1). rewrite Z.land_ones by lia.
  change (2 ^ 1)%Z with 2%Z. rewrite <- Z.bit0_mod. by destruct (Z.testbit (Zb b) 0).
Qed.
Lemma low_xor_l b c v : low (b + c) v = low b v + low c v.
Proof.
  rewrite !low_bit, bxor_Zb, Z.lxor_spec.
  destruct (Z.testbit (Zb b) 0), (Z.testbit (Zb c) 0); simpl;
    by rewrite ?bxor_0_l, ?bxor_0_r, ?bxor_self.
Qed.

Lemma bxor_swap a b c d : (a + b) + (c + d) = (a + c) + (b + d).
Proof. rewrite <- !bxor_assoc. f_equal. rewrite !bxor_assoc. f_equal. apply bxor_comm. Qed.

Lemma gfMul_iter_xor_r n p q a b c :
  fst (fst (Nat.iter n gfMul_step (p + q, a, b + c)))
  = fst (fst (Nat.iter n gfMul_step (p, a, b))) + fst (fst (Nat.iter n gfMul_step (q, a, c))).
Proof.
  revert p q a b c. induction n as [|n IH]; intros; [done|].
  rewrite !Nat.iter_succ_r, !gfMul_step_eq, <- IH, low_xor_l, bhalf_xor. by rewrite bxor_swap.
Qed.

Lemma gfMul_iter_xor_l n p q a b c :
  fst (fst (Nat.iter n gfMul_step (p + q, a + b, c)))
  = fst (fst (Nat.iter n gfMul_step (p, a, c))) + fst (fst (Nat.iter n gfMul_step (q, b, c))).
Proof.
  revert p q a b c. induction n as [|n IH]; intros; [done|].
  rewrite !Nat.iter_succ_r, !gfMul_step_eq, <- IH, low_xor_r, xtime_xor. by rewrite bxor_swap.
Qed.

Definition additive (f : Byte.byte -> Byte.byte) : Prop := forall x y, f (x + y) = f x + f y.

Lemma gfMul_xor_r a b c : a * (b + c) = a * b + a * c.
Proof. apply (gfMul_iter_xor_r 8 gf0 gf0). Qed.
Lemma gfMul_xor_l a b c : (a + b) * c = a * c + b * c.
Proof. apply (gfMul_iter_xor_l 8 gf0 gf0). Qed.

Definition gf_basis : list Byte.byte := map (fun i => bZ (Z.shiftl 1 (Z.of_nat i))) (seq 0 8).

(** A byte is the sum of the powers of two of its set bits. *)
Definition bit_sum (f : Byte.byte -> Byte.byte) (b : Byte.byte) : Byte.byte :=
  fold_right bxor gf0
    (map (fun i => if Z.testbit (Zb b) (Z.of_nat i) then f (bZ (Z.shiftl 1 (Z.of_nat i))) else gf0)
       (seq 0 8)).

Lemma bit_sum_id b : bit_sum (fun x => x) b = b.
Proof. byte1 b. Qed.

Lemma additive_0 f : additive f -> f gf0 = gf0.
Proof. intros H. specialize (H gf0 gf0). rewrite bxor_0_l in H. rewrite H at 1. apply bxor_self. Qed.

Lemma additive_bits f b : additive f -> f b = bit_sum f b.
Proof.
  intros Hf. transitivity (f (bit_sum (fun x => x) b)); [by rewrite bit_sum_id|].
  unfold bit_sum. generalize (seq 0 8) as l.
  induction l as [|i l IH]; simpl; [by apply additive_0|].
  rewrite Hf, IH. f_equal. destruct (Z.testbit _ _); [done|by apply additive_0].
Qed.

(** Additive maps that agree on the basis agree. *)
Lemma additive_ext f g b :
  additive f -> additive g -> Forall (fun x => f x = g x) gf_basis -> f b = g b.
Proof.
  intros Hf Hg H. rewrite (additive_bits f), (additive_bits g) by done. unfold bit_sum.
  f_equal. apply map_ext_in. intros i Hi.
  rewrite List.Forall_forall in H. destruct (Z.testbit _ _); [|done].
  apply H. unfold gf_basis. apply in_map_iff. by exists i.
Qed.

Lemma gfMul_comm_basis :
  forallb (fun a => forallb (fun b => beqb (a * b) (b * a)) gf_basis) gf_basis = true.
Proof. vm_compute. reflexivity. Qed.

Lemma gfMul_comm a b : a * b = b * a.
Proof.
  pose proof gfMul_comm_basis as H. rewrite forallb_forall in H.
  apply (additive_ext (fun a => a * b) (fun a => b * a)).
  { intros x y. apply gfMul_xor_l. } { intros x y. apply gfMul_xor_r. }
  apply List.Forall_forall. intros x Hx. specialize (H x Hx). rewrite forallb_forall in H.
  apply (additive_ext (fun b => x * b) (fun b => b * x)).
  { intros y z. apply gfMul_xor_r. } { intros y z. apply gfMul_xor_l. }
  apply List.Forall_forall. intros y Hy. by apply beqb_eq, H.
Qed.

Lemma gfMul_1_l a : gf1 * a = a.
Proof. byte1 a. Qed.
Lemma gfMul_0_r a : a * gf0 = gf0.
Proof. apply (additive_0 (fun b => a * b)). intros x y. apply gfMul_xor_r. Qed.
Lemma gfMul_0_l a : gf0 * a = gf0.
Proof. rewrite gfMul_comm. apply gfMul_0_r. Qed.

Lemma gfMul_assoc_basis :
  forallb (fun a => forallb (fun b => forallb (fun c =>
    beqb (a * (b * c)) (a * b * c)) gf_basis) gf_basis) gf_basis = true.
Proof. vm_compute. reflexivity. Qed.

Lemma gfMul_assoc a b c : a * (b * c) = a * b * c.
Proof.
  pose proof gfMul_assoc_basis as H. rewrite forallb_forall in H.
  apply (additive_ext (fun a => a * (b * c)) (fun a => a * b * c)).
  { intros x y. apply gfMul_xor_l. }
  { intros x y. by rewrite !gfMul_xor_l. }
  apply List.Forall_forall. intros x Hx. specialize (H x Hx). rewrite forallb_forall in H.
  apply (additive_ext (fun b => x * (b * c)) (fun b => x * b * c)).
  { intros y z. by rewrite gfMul_xor_l, gfMul_xor_r. }
  { intros y z. by rewrite gfMul_xor_r, gfMul_xor_l. }
  apply List.Forall_forall. intros y Hy. specialize (H y Hy). rewrite forallb_forall in H.
  apply (additive_ext (fun c => x * (y * c)) (fun c => x * y * c)).
  { intros z w. by rewrite !gfMul_xor_r. }
  { intros z w. by rewrite !gfMul_xor_r. }
  apply List.Forall_forall. intros z Hz. by apply beqb_eq, H.
Qed.

Lemma gfInv_l_b : forallb (fun a => beqb a gf0 || beqb (gfInv a * a) gf1) all_bytes = true.
Proof. vm_compute. reflexivity. Qed.

Lemma gfInv_l a : a <> gf0 -> gfInv a * a = gf1.
Proof.
  intros H. pose proof (forall_byte _ gfInv_l_b a) as E. apply orb_prop in E as [E|E].
  - by apply beqb_eq in E.
  - by apply beqb_eq.
Qed.

Lemma gf_ring : ring_theory gf0 gf1 bxor gfMul bxor gfOpp eq.
Proof.
  constructor; intros.
  - apply bxor_0_l. - apply bxor_comm. - apply bxor_assoc. - apply gfMul_1_l.
  - apply gfMul_comm. - apply gfMul_assoc. - apply gfMul_xor_l. - reflexivity.
  - apply bxor_self.
Qed.

Lemma gf_field : field_theory gf0 gf1 bxor gfMul bxor gfOpp gfDiv gfInv eq.
Proof.
  constructor; [apply gf_ring | discriminate | reflexivity | apply gfInv_l].
Qed.

(** Coefficients in the prime field, so that [ring] knows [1 + 1 = 0]. *)
Definition gf_of_bool (b : bool) : Byte.byte := if b then gf1 else gf0.

Lemma gf_morph :
  ring_morph gf0 gf1 bxor gfMul bxor gfOpp eq false true xorb andb xorb id Bool.eqb gf_of_bool.
Proof.
  constructor; try done; try (intros [] []; reflexivity).
  intros x y H. by apply Bool.eqb_prop in H as ->.
Qed.

Add Field gf_field_tac : gf_field (morphism gf_morph).

Lemma gfMul_integral a b : a * b = gf0 -> a = gf0 \/ b = gf0.
Proof.
  intros H. destruct (decide (a = gf0)) as [->|Ha]; [by left|right].
  transitivity (gfInv a * (a * b)); [|by rewrite H, gfMul_0_r].
  rewrite gfMul_assoc, gfInv_l by done. by rewrite gfMul_1_l.
Qed.

(** Clients reason with the field laws; evaluation by [vm_compute] is unaffected. *)
#[global] Opaque gfMul bxor gfInv gfPow.
