(* ===== verification/GFPoly.v ===== *)
(** Polynomials over GF(2^8) as coefficient lists (constant term first), the
    form [gfEval] evaluates: arithmetic, synthetic division, the bound on the
    number of roots, existence of an interpolating polynomial and the Lagrange
    identity.  Used by the Shamir file only through [lagrange_at] and
    [interpolant_exists]. *)
From Stdlib Require Import ZArith Lia Ring Field.
From stdpp Require Import base tactics list.
From S2P Require Import Prelude GF256.
Local Open Scope gf_scope.

Abbreviation gf := Byte.byte.

(** * Evaluation and arithmetic *)

Fixpoint ev (p : list gf) (x : gf) : gf :=
  match p with [] => gf0 | c :: p => c + x * ev p x end.

Lemma gfEval_ev p x : gfEval p x = ev p x.
Proof.
  unfold gfEval. change (bZ 0) with gf0. rewrite <- fold_left_rev_right, rev_involutive.
  induction p as [|c p IH]; simpl; [done|]. rewrite IH. ring.
Qed.

Fixpoint padd (p q : list gf) : list gf :=
  match p, q with
  | [], q => q
  | p, [] => p
  | a :: p, b :: q => (a + b) :: padd p q
  end.
Definition pscale (c : gf) (p : list gf) : list gf := map (gfMul c) p.
(** [(X + r) * p] *)
Definition plin (r : gf) (p : list gf) : list gf := padd (pscale r p) (gf0 :: p).
(** The product of [X + r] over [rs]. *)
Definition plins (rs : list gf) : list gf := fold_right plin [gf1] rs.
Definition gprod (l : list gf) : gf := fold_right gfMul gf1 l.
Definition gsum (l : list gf) : gf := fold_right bxor gf0 l.

Lemma ev_padd p q x : ev (padd p q) x = ev p x + ev q x.
Proof. revert q; induction p as [|a p IH]; intros [|b q]; simpl; [ring..|]. rewrite IH. ring. Qed.
Lemma length_padd p q : length (padd p q) = Nat.max (length p) (length q).
Proof. revert q; induction p as [|a p IH]; intros [|b q]; simpl; [done..|]. by rewrite IH. Qed.
Lemma ev_pscale c p x : ev (pscale c p) x = c * ev p x.
Proof. induction p as [|a p IH]; simpl; [by rewrite gfMul_0_r|]. rewrite IH. ring. Qed.
Lemma length_pscale c p : length (pscale c p) = length p.
Proof. apply length_map. Qed.
Lemma ev_plin r p x : ev (plin r p) x = (x + r) * ev p x.
Proof. unfold plin. rewrite ev_padd, ev_pscale. simpl. ring. Qed.
Lemma length_plin r p : length (plin r p) = S (length p).
Proof. unfold plin. rewrite length_padd, length_pscale. simpl. lia. Qed.
Lemma ev_plins rs x : ev (plins rs) x = gprod (map (bxor x) rs).
Proof. induction rs as [|r rs IH]; simpl; [ring|]. by rewrite ev_plin, IH. Qed.
Lemma length_plins rs : length (plins rs) = S (length rs).
Proof. induction rs as [|r rs IH]; simpl; [done|]. by rewrite length_plin, IH. Qed.

Lemma ev_nil_at_0 p : ev p gf0 = nth 0 p gf0.
Proof. destruct p as [|c p]; simpl; [done|]. rewrite gfMul_0_l. apply bxor_0_r. Qed.

Lemma gprod_zero l : gf0 ∈ l -> gprod l = gf0.
Proof.
  induction l as [|y l IH]; simpl; [by intros ?%not_elem_of_nil|].
  intros [<-|H]%elem_of_cons; [apply gfMul_0_l|]. by rewrite IH, gfMul_0_r.
Qed.
Lemma gprod_nonzero l : gf0 ∉ l -> gprod l <> gf0.
Proof.
  induction l as [|y l IH]; simpl; [done|]. intros H E.
  apply not_elem_of_cons in H as [H1 H2].
  apply gfMul_integral in E as [E|E]; [by subst|by apply IH].
Qed.
Lemma gprod_diff_nonzero x rs : x ∉ rs -> gprod (map (bxor x) rs) <> gf0.
Proof.
  intros H. apply gprod_nonzero. intros E. apply list_elem_of_fmap in E as (r & E & Hr).
  symmetry in E. apply bxor_eq_0 in E. by subst.
Qed.

(** * Roots *)

(** Synthetic division by [X + r]. *)
Lemma ev_divide p r :
  exists q, length q = Nat.pred (length p) /\ forall x, ev p x = ev p r + (x + r) * ev q x.
Proof.
  induction p as [|c p (q & Hl & Hq)]; [exists []; split; [done|]; intros; simpl; ring|].
  exists (padd p (pscale r q)). split.
  - rewrite length_padd, length_pscale, Hl. simpl. lia.
  - intros x. simpl. rewrite ev_padd, ev_pscale.
    rewrite (Hq x) at 1. rewrite (Hq x). ring.
Qed.

(** A polynomial with at least as many distinct roots as coefficients vanishes
    everywhere. *)
Lemma roots_zero xs p :
  NoDup xs -> (length p <= length xs)%nat -> Forall (fun x => ev p x = gf0) xs ->
  forall x, ev p x = gf0.
Proof.
  revert p; induction xs as [|r xs IH]; intros p Hnd Hl Hr x; simpl in Hl.
  { destruct p; simpl in *; [done|lia]. }
  apply NoDup_cons in Hnd as [Hnin Hnd]. apply Forall_cons in Hr as [Hr0 Hr].
  destruct (ev_divide p r) as (q & Hlq & Hq).
  assert (forall y, ev q y = gf0) as Hq0.
  { apply IH; [done|lia|]. apply Forall_forall. intros y Hy.
    rewrite Forall_forall in Hr. specialize (Hr y Hy). rewrite Hq, Hr0, bxor_0_l in Hr.
    apply gfMul_integral in Hr as [E|E]; [|done]. apply bxor_eq_0 in E. by subst. }
  rewrite Hq, Hr0, Hq0, gfMul_0_r. done.
Qed.

(** Two polynomials of at most [n] coefficients agreeing on [n] points agree. *)
Lemma poly_unique xs p q :
  NoDup xs -> (length p <= length xs)%nat -> (length q <= length xs)%nat ->
  Forall (fun x => ev p x = ev q x) xs -> forall x, ev p x = ev q x.
Proof.
  intros Hnd Hp Hq H x. apply bxor_eq_0. rewrite <- ev_padd.
  apply (roots_zero xs); [done|rewrite length_padd; lia|].
  eapply Forall_impl; [exact H|]. simpl. intros y E. rewrite ev_padd, E. apply bxor_self.
Qed.

(** * Interpolation *)

(** Through any points with distinct abscissae passes a polynomial with as many
    coefficients as points. *)
Lemma interpolant_exists (pts : list (gf * gf)) :
  NoDup pts.*1 ->
  exists p, length p = length pts /\ Forall (fun '(x, y) => ev p x = y) pts.
Proof.
  induction pts as [|[x y] pts IH]; simpl; [by exists []|].
  intros [Hnin Hnd]%NoDup_cons. destruct IH as (p & Hl & Hp); [done|].
  set (d := gprod (map (bxor x) pts.*1)).
  assert (d <> gf0) as Hd by by apply gprod_diff_nonzero.
  exists (padd p (pscale ((y + ev p x) * gfInv d) (plins pts.*1))). split.
  { rewrite length_padd, length_pscale, length_plins, length_fmap. lia. }
  apply Forall_cons. split.
  - rewrite ev_padd, ev_pscale, ev_plins. fold d.
    transitivity (ev p x + (y + ev p x) * (gfInv d * d)); [ring|]. rewrite gfInv_l by done. ring.
  - rewrite Forall_forall in Hp |- *. intros [x' y'] Hin. specialize (Hp _ Hin). simpl in Hp.
    rewrite ev_padd, ev_pscale, ev_plins, Hp.
    rewrite gprod_zero; [by rewrite gfMul_0_r, bxor_0_r|].
    rewrite <- (bxor_self x'). apply list_elem_of_fmap_2. by apply (list_elem_of_fmap_2 fst _ (x', y')).
Qed.

(** [xs] without position [i]: the factors Lagrange's [i]-th term uses. *)
Definition skip {A} (i : nat) (xs : list A) : list A := take i xs ++ drop (S i) xs.

Definition lag_den (xs : list gf) (i : nat) : gf :=
  gprod (map (bxor (nth i xs gf0)) (skip i xs)).
Definition lag_poly (xs : list gf) (c : nat -> gf) : list gf :=
  fold_right padd [] (map (fun i => pscale (c i) (plins (skip i xs))) (seq 0 (length xs))).

Lemma length_skip {A} i (xs : list A) : (i < length xs)%nat -> S (length (skip i xs)) = length xs.
Proof. intros. unfold skip. rewrite length_app, length_take, length_drop. lia. Qed.

Lemma skip_elem xs i k x :
  NoDup xs -> xs !! k = Some x -> x ∈ skip (A := gf) i xs <-> i <> k.
Proof.
  intros Hnd Hk. unfold skip. rewrite elem_of_app. split.
  - intros [H|H] ->; apply list_elem_of_lookup in H as [j Hj].
    + apply lookup_take_Some in Hj as [Hj ?].
      pose proof (NoDup_lookup _ _ _ _ Hnd Hk Hj). lia.
    + rewrite lookup_drop in Hj. pose proof (NoDup_lookup _ _ _ _ Hnd Hk Hj). lia.
  - intros Hne. destruct (Nat.lt_ge_cases k i).
    + left. apply list_elem_of_lookup. exists k. by rewrite lookup_take_lt by lia.
    + right. apply list_elem_of_lookup. exists (k - S i)%nat. rewrite lookup_drop.
      by replace (S i + (k - S i))%nat with k by lia.
Qed.

Lemma ev_sum {A} (f : A -> list gf) l x :
  ev (fold_right padd [] (map f l)) x = gsum (map (fun i => ev (f i) x) l).
Proof. induction l as [|i l IH]; simpl; [done|]. by rewrite ev_padd, IH. Qed.

Lemma gsum_single (f : nat -> gf) l k :
  NoDup l -> k ∈ l -> (forall i, i ∈ l -> i <> k -> f i = gf0) -> gsum (map f l) = f k.
Proof.
  induction l as [|i l IH]; simpl; [by intros _ ?%not_elem_of_nil|].
  intros [Hi Hnd]%NoDup_cons Hk H. apply elem_of_cons in Hk as [->|Hk].
  - replace (gsum (map f l)) with gf0; [apply bxor_0_r|].
    assert (forall j, j ∈ l -> f j = gf0) as Hz.
    { intros j Hj. apply H; [by right|]. by intros ->. }
    clear -Hz. induction l as [|j l IHl]; simpl; [done|].
    rewrite (Hz j) by (left). rewrite bxor_0_l. apply IHl. intros m Hm. apply Hz. by right.
  - rewrite (H i), bxor_0_l by ((by left) || (by intros ->)). apply IH; auto.
    intros j Hj. apply H. by right.
Qed.

Lemma lag_poly_length xs c : (length (lag_poly xs c) <= length xs)%nat.
Proof.
  unfold lag_poly.
  assert (forall l, (forall i, i ∈ l -> i < length xs)%nat ->
    length (fold_right padd [] (map (fun i => pscale (c i) (plins (skip i xs))) l)) <= length xs)%nat as H.
  { induction l as [|i l IH]; intros Hl; simpl; [lia|].
    rewrite length_padd, length_pscale, length_plins, length_skip by (apply Hl; left).
    specialize (IH ltac:(intros; apply Hl; by right)). lia. }
  apply H. intros i Hi. apply elem_of_seq in Hi. lia.
Qed.

Lemma lag_den_nonzero xs i : NoDup xs -> (i < length xs)%nat -> lag_den xs i <> gf0.
Proof.
  intros Hnd Hi. destruct (lookup_lt_is_Some_2 xs i Hi) as [x Hx].
  unfold lag_den. rewrite (nth_lookup_Some _ _ _ _ Hx). apply gprod_diff_nonzero.
  rewrite (skip_elem _ _ i) by done. by intros [].
Qed.

(** Lagrange's identity: the weighted sum of the samples of a polynomial with at
    most as many coefficients as samples is its value at any point. *)
Lemma lagrange_at xs p z :
  NoDup xs -> (length p <= length xs)%nat ->
  gsum (map (fun i => ev p (nth i xs gf0) * (gprod (map (bxor z) (skip i xs)) * gfInv (lag_den xs i)))
            (seq 0 (length xs))) = ev p z.
Proof.
  intros Hnd Hl.
  set (c := fun i => ev p (nth i xs gf0) * gfInv (lag_den xs i)).
  transitivity (ev (lag_poly xs c) z).
  { unfold lag_poly. rewrite ev_sum. f_equal. apply map_ext. intros i.
    rewrite ev_pscale, ev_plins. unfold c. ring. }
  apply (poly_unique xs); [done|apply lag_poly_length|done|].
  apply Forall_lookup. intros k x Hk. pose proof (lookup_lt_Some _ _ _ Hk).
  unfold lag_poly. rewrite ev_sum, (gsum_single _ _ k).
  - rewrite ev_pscale, ev_plins. unfold c. rewrite (nth_lookup_Some _ _ _ _ Hk).
    replace (gprod (map (bxor x) (skip k xs))) with (lag_den xs k)
      by (unfold lag_den; by rewrite (nth_lookup_Some _ _ _ _ Hk)).
    rewrite <- gfMul_assoc, gfInv_l by by apply lag_den_nonzero. ring.
  - apply NoDup_ListNoDup, seq_NoDup.
  - apply elem_of_seq. lia.
  - intros i Hi Hne. rewrite ev_pscale, ev_plins, gprod_zero; [by rewrite gfMul_0_r|].
    rewrite <- (bxor_self x). apply list_elem_of_fmap_2. by apply (skip_elem _ _ k).
Qed.
