(* ===== verification/Sha256.v ===== *)
(** The parts of Go's [crypto/sha256], [crypto/hmac], [encoding/hex] and
    [encoding/binary] the audit chain and the key providers call, executable,
    with the facts the clients rely on: digest length, injectivity of the
    encodings.  Nothing is assumed about the hash function: theorems that need
    collision resistance conclude "or here is a collision". *)
From Stdlib Require Import ZArith Lia.
From stdpp Require Import base tactics list.
From S2P Require Import Prelude.

(** * Big-endian integers ([binary.BigEndian.PutUint64]) *)

Fixpoint be_bytes (n : nat) (z : Z) : bytes :=
  match n with O => [] | S n => be_bytes n (z / 256) ++ [bZ z] end.
Definition put_uint64 (z : Z) : bytes := be_bytes 8 z.

Definition be_Z (l : bytes) : Z := fold_left (fun acc b => acc * 256 + Zb b) l 0.

Lemma length_be_bytes n z : length (be_bytes n z) = n.
Proof. revert z; induction n as [|n IH]; intros; simpl; [done|]. rewrite length_app, IH. simpl. lia. Qed.

Lemma bZ_mod z : Zb (bZ z) = z mod 256.
Proof.
  unfold bZ, u8. change (2 ^ 8) with 256. pose proof (Z.mod_pos_bound z 256 ltac:(lia)).
  rewrite <- (Zb_bZ (z mod 256)) at 2 by done. unfold bZ, u8. change (2 ^ 8) with 256.
  by rewrite Zmod_mod.
Qed.

Lemma be_Z_be_bytes n z : 0 <= z < 256 ^ Z.of_nat n -> be_Z (be_bytes n z) = z.
Proof.
  revert z; induction n as [|n IH]; intros z H.
  - change (256 ^ Z.of_nat 0) with 1 in H. cbn. lia.
  - unfold be_Z in *. simpl be_bytes. rewrite fold_left_app. simpl.
    rewrite Nat2Z.inj_succ, Z.pow_succ_r in H by lia.
    rewrite IH by (split; [apply Z.div_pos; lia|apply Z.div_lt_upper_bound; lia]).
    rewrite bZ_mod. pose proof (Z.div_mod z 256 ltac:(lia)). lia.
Qed.

Lemma put_uint64_inj a b : is_u64 a -> is_u64 b -> put_uint64 a = put_uint64 b -> a = b.
Proof.
  unfold is_u64, put_uint64. intros Ha Hb E.
  rewrite <- (be_Z_be_bytes 8 a), <- (be_Z_be_bytes 8 b), E by (simpl; lia). done.
Qed.

(** * SHA-256 (FIPS 180-4) *)

Module sha.
Definition w32 (z : Z) : Z := z mod 2 ^ 32.
Definition rotr (n x : Z) : Z := w32 (Z.lor (Z.shiftr x n) (Z.shiftl x (32 - n))).
Definition shr (n x : Z) : Z := Z.shiftr x n.
Definition ch (x y z : Z) : Z := Z.lxor (Z.land x y) (Z.land (Z.lxor x (2 ^ 32 - 1)) z).
Definition maj (x y z : Z) : Z := Z.lxor (Z.lxor (Z.land x y) (Z.land x z)) (Z.land y z).
Definition S0 (x : Z) : Z := Z.lxor (Z.lxor (rotr 2 x) (rotr 13 x)) (rotr 22 x).
Definition S1 (x : Z) : Z := Z.lxor (Z.lxor (rotr 6 x) (rotr 11 x)) (rotr 25 x).
Definition s0 (x : Z) : Z := Z.lxor (Z.lxor (rotr 7 x) (rotr 18 x)) (shr 3 x).
Definition s1 (x : Z) : Z := Z.lxor (Z.lxor (rotr 17 x) (rotr 19 x)) (shr 10 x).

(** The constants are the first 32 bits of the fractional parts of the cube
    roots of the first 64 primes, and of the square roots of the first 8. *)
Definition is_prime (n : nat) : bool :=
  forallb (fun d => negb (n mod d =? 0)%nat) (seq 2 (n - 2)).
Definition primes : list Z := map Z.of_nat (List.filter is_prime (seq 2 310)).

(** Integer cube root, from the highest of [bits] bits down. *)
Fixpoint icbrt (bits : nat) (acc n : Z) : Z :=
  match bits with
  | O => acc
  | S k => let t := acc + 2 ^ Z.of_nat k in icbrt k (if t * t * t <=? n then t else acc) n
  end.

Definition K : list Z := Eval vm_compute in map (fun p => w32 (icbrt 36 0 (p * 2 ^ 96))) (take 64 primes).
Definition H0 : list Z := Eval vm_compute in map (fun p => w32 (Z.sqrt (p * 2 ^ 64))) (take 8 primes).

(** The message schedule, newest word first. *)
Fixpoint sched (n : nat) (rev_w : list Z) : list Z :=
  match n with
  | O => rev_w
  | S n =>
      let at' i := nth i rev_w 0 in
      sched n (w32 (s1 (at' 1%nat) + at' 6%nat + s0 (at' 14%nat) + at' 15%nat) :: rev_w)
  end.

Definition round (st : list Z) (kw : Z * Z) : list Z :=
  match st with
  | [a; b; c; d; e; f; g; h] =>
      let t1 := h + S1 e + ch e f g + fst kw + snd kw in
      let t2 := S0 a + maj a b c in
      [w32 (t1 + t2); a; b; c; w32 (d + t1); e; f; g]
  | _ => st
  end.

Fixpoint words (n : nat) (l : bytes) : list Z :=
  match n with O => [] | S n => be_Z (take 4 l) :: words n (drop 4 l) end.

Definition compress (h : list Z) (block : bytes) : list Z :=
  let w := rev (sched 48 (rev (words 16 block))) in
  zip_with (fun a b => w32 (a + b)) h (fold_left round (combine K w) h).

Fixpoint blocks (n : nat) (h : list Z) (l : bytes) : list Z :=
  match n with O => h | S n => blocks n (compress h (take 64 l)) (drop 64 l) end.

Definition pad (l : bytes) : bytes :=
  let n := length l in
  let z := Z.to_nat ((55 - Z.of_nat n) mod 64) in
  l ++ bZ 0x80 :: replicate z (bZ 0) ++ put_uint64 (8 * Z.of_nat n).
End sha.

(** [sha256.Sum256] *)
Definition sha256 (l : bytes) : bytes :=
  let p := sha.pad l in
  concat (map (be_bytes 4) (sha.blocks (length p / 64) sha.H0 p)).

(** [hmac.New(sha256.New, key)], written and summed. *)
Definition hmac_sha256 (key msg : bytes) : bytes :=
  let k := if (64 <? Z.of_nat (length key)) then sha256 key else key in
  let k := k ++ replicate (64 - length k) (bZ 0) in
  let xk c := map (fun b => bZ (Z.lxor (Zb b) c)) k in
  sha256 (xk 0x5c ++ sha256 (xk 0x36 ++ msg)).

(** * [hex.EncodeToString] *)

Definition hex_digit (z : Z) : Byte.byte := if z <? 10 then bZ (48 + z) else bZ (87 + z).
Definition hex_byte (b : Byte.byte) : bytes := [hex_digit (Zb b / 16); hex_digit (Zb b mod 16)].
Definition hex_encode (l : bytes) : bytes := concat (map hex_byte l).

Lemma hex_byte_inj a b : hex_byte a = hex_byte b -> a = b.
Proof.
  intros H.
  assert (forall a, Zb a = (let v c := if Zb c <? 58 then Zb c - 48 else Zb c - 87 in
                            v (nth 0 (hex_byte a) a) * 16 + v (nth 1 (hex_byte a) a))) as D.
  { intros c. apply Z.eqb_eq. revert c. apply forall_byte. vm_compute. reflexivity. }
  apply Zb_inj. rewrite (D a), (D b), H. done.
Qed.

Lemma hex_encode_inj a b : hex_encode a = hex_encode b -> a = b.
Proof.
  revert b; induction a as [|x a IH]; intros [|y b]; simpl; try done.
  intros E. assert (hex_byte x = hex_byte y /\ hex_encode a = hex_encode b) as [Hx Ha].
  { unfold hex_byte in *. simplify_eq/=. split; [congruence|done]. }
  apply hex_byte_inj in Hx as ->. by rewrite (IH b).
Qed.

Lemma length_hex_encode a : length (hex_encode a) = (2 * length a)%nat.
Proof. induction a as [|x a IH]; [done|]. change (hex_encode (x :: a)) with (hex_byte x ++ hex_encode a). rewrite length_app, IH. simpl. lia. Qed.

Definition is_hex_digit (b : Byte.byte) : bool :=
  ((48 <=? Zb b) && (Zb b <=? 57)) || ((97 <=? Zb b) && (Zb b <=? 102)).

Lemma hex_encode_digits a : Forall (fun b => is_hex_digit b = true) (hex_encode a).
Proof.
  assert (forall b, forallb is_hex_digit (hex_byte b) = true) as H.
  { apply forall_byte. vm_compute. reflexivity. }
  induction a as [|x a IH]; simpl; [constructor|].
  apply Forall_app. split; [|done]. apply List.Forall_forall, forallb_forall, H.
Qed.

(** * Digest length *)

Lemma length_round st kw : length (sha.round st kw) = length st.
Proof. destruct st as [|?[|?[|?[|?[|?[|?[|?[|?[|]]]]]]]]]; reflexivity. Qed.

Lemma length_compress h b : length h = 8%nat -> length (sha.compress h b) = 8%nat.
Proof.
  intros H. unfold sha.compress. rewrite length_zip_with.
  assert (forall kws st, length (fold_left sha.round kws st) = length st) as F.
  { induction kws; intros; simpl; [done|]. by rewrite IHkws, length_round. }
  rewrite F. lia.
Qed.

Lemma length_sha256 l : length (sha256 l) = 32%nat.
Proof.
  unfold sha256.
  assert (forall n h p, length h = 8%nat -> length (sha.blocks n h p) = 8%nat) as B.
  { induction n; intros; simpl; [done|]. apply IHn. by apply length_compress. }
  specialize (B (length (sha.pad l) / 64)%nat sha.H0 (sha.pad l) eq_refl).
  destruct (sha.blocks _ _ _) as [|?[|?[|?[|?[|?[|?[|?[|?[|]]]]]]]]]; try done.
Qed.

Lemma length_hmac_sha256 k m : length (hmac_sha256 k m) = 32%nat.
Proof. apply length_sha256. Qed.

(** Test vectors: FIPS 180-4 "abc", and RFC 4231 case 2. *)
Example sha256_abc :
  hex_encode (sha256 (go "abc"))
  = go "ba7816bf8f01cfea414140de5dae2223b00361a396177a9cb410ff61f20015ad".
Proof. vm_compute. reflexivity. Qed.
Example hmac_rfc4231_2 :
  hex_encode (hmac_sha256 (go "Jefe") (go "what do ya want for nothing?"))
  = go "5bdcc146bf60754e6a042426089575c75a003f089d2739839dec58b964ec3843".
Proof. vm_compute. reflexivity. Qed.

#[global] Opaque sha256 hmac_sha256.
