(* ===== verification/Shamir.v ===== *)
(** [internal/crypto/shamir.go] and the KEK framing of
    [internal/crypto/shamir_provider.go]: K-of-N splitting of the key-encryption
    key.  [Split] and [Combine] are translated loop by loop; the theorems are
    reconstruction from any threshold-many shares in any order, perfect secrecy
    below the threshold, the error branches, the framed KEK round trip and the
    share-forgery attack the framing magic does not stop (and the commitment
    does). *)
From Stdlib Require Import ZArith Lia.
From stdpp Require Import base tactics list.
From S2P Require Import Prelude GF256 GFPoly Sha256.

(** * Split *)

Inductive shamir_err :=
| ErrEmptySecret
| ErrThresholdTooSmall (threshold : Z)
| ErrPartsBelowThreshold (parts threshold : Z)
| ErrTooManyParts (parts : Z)
| ErrReadRandomness
| ErrTooFewShares (got : nat)
| ErrShareTooShort
| ErrMismatchedLengths
| ErrZeroX
| ErrDuplicateX (x : Byte.byte)
| ErrKEKLength (got : nat)
| ErrThresholdRange (threshold : Z)
| ErrIntegrityCheck
| ErrBelowThreshold (got : nat) (threshold : Z)
| ErrKEKAllZero
| ErrCommitmentMismatch.

(** [crypto/rand.Read] on its [k]-th call: it fails, or fills the slice from an
    arbitrary stream. *)
Definition rand_source := nat -> option (nat -> Byte.byte).

(** [shares[i]]: [len(secret)] zero bytes and the x-coordinate [byte(i+1)]. *)
Definition Split_init (secretLen : nat) (parts : Z) : list bytes :=
  map (fun i => replicate secretLen (bZ 0) ++ [bZ (Z.of_nat i + 1)]) (seq 0 (Z.to_nat parts)).

(** [for _, s := range shares { s[bi] = gfEval(coeffs, s[len(secret)]) }] *)
Definition Split_eval (secretLen bi : nat) (coeffs : list Byte.byte) (shares : list bytes) : list bytes :=
  map (fun s => <[bi := gfEval coeffs (nth secretLen s (bZ 0))]> s) shares.

Fixpoint Split_loop (rnd : rand_source) (secretLen : nat) (threshold : Z) (bi : nat)
    (secret : bytes) (shares : list bytes) : res shamir_err (list bytes) :=
  match secret with
  | [] => Ok shares
  | sb :: secret =>
      match rnd bi with
      | None => Err ErrReadRandomness
      | Some r =>
          let coeffs := sb :: map r (seq 0 (Z.to_nat threshold - 1)) in
          Split_loop rnd secretLen threshold (S bi) secret (Split_eval secretLen bi coeffs shares)
      end
  end.

Definition Split (rnd : rand_source) (secret : bytes) (parts threshold : Z) : res shamir_err (list bytes) :=
  if (length secret =? 0)%nat then Err ErrEmptySecret
  else if threshold <? 2 then Err (ErrThresholdTooSmall threshold)
  else if parts <? threshold then Err (ErrPartsBelowThreshold parts threshold)
  else if 255 <? parts then Err (ErrTooManyParts parts)
  else Split_loop rnd (length secret) threshold 0 secret (Split_init (length secret) parts).

(** * Combine *)

(** The inner loop of [interpolateAtZero] over [j] for one [i]: [(num, den)]. *)
Definition interp_term (xs : list Byte.byte) (i : nat) : Byte.byte * Byte.byte :=
  fold_left (fun '(num, den) j =>
      if (i =? j)%nat then (num, den)
      else (gfMul num (nth j xs (bZ 0)), gfMul den (bxor (nth i xs (bZ 0)) (nth j xs (bZ 0)))))
    (seq 0 (length xs)) (bZ 1, bZ 1).

Definition interpolateAtZero (xs ys : list Byte.byte) : Byte.byte :=
  fold_left (fun result i =>
      let '(num, den) := interp_term xs i in
      bxor result (gfMul (nth i ys (bZ 0)) (gfMul num (gfInv den))))
    (seq 0 (length xs)) (bZ 0).

(** The validation loop of [Combine]: collects the x-coordinates ([seen] is the
    reversed list of those accepted so far). *)
Fixpoint Combine_xs (shareLen : nat) (seen : list Byte.byte) (shares : list bytes)
    : res shamir_err (list Byte.byte) :=
  match shares with
  | [] => Ok (rev seen)
  | s :: shares =>
      if negb (length s =? shareLen)%nat then Err ErrMismatchedLengths
      else
        let x := nth (shareLen - 1) s (bZ 0) in
        if bool_decide (x = bZ 0) then Err ErrZeroX
        else if bool_decide (x ∈ seen) then Err (ErrDuplicateX x)
        else Combine_xs shareLen (x :: seen) shares
  end.

Definition Combine (shares : list bytes) : res shamir_err bytes :=
  if (length shares <? 2)%nat then Err (ErrTooFewShares (length shares))
  else
    let shareLen := length (nth 0 shares []) in
    if (shareLen <? 2)%nat then Err ErrShareTooShort
    else
      let? xs := Combine_xs shareLen [] shares in
      Ok (map (fun bi => interpolateAtZero xs (map (fun s => nth bi s (bZ 0)) shares))
              (seq 0 (shareLen - 1))).

(** * The framed KEK *)

Definition KEKSize : nat := 32.
Definition kekShareMagic : bytes := go "KXK1".
Definition kekFrameLen : nat := (length kekShareMagic + 1 + KEKSize)%nat.
Definition kekCommitmentContext : bytes := go "keyorix-shamir-kek-commitment-v1".

Definition CommitKEK (kek : bytes) : bytes := hmac_sha256 kekCommitmentContext kek.

Definition validateKEK (key : bytes) : res shamir_err bytes :=
  if negb (length key =? KEKSize)%nat then Err (ErrKEKLength (length key))
  else if fold_left (fun anySet b => Z.lor anySet (Zb b)) key 0 =? 0 then Err ErrKEKAllZero
  else Ok key.

Definition kekFrame (kek : bytes) (threshold : Z) : bytes :=
  kekShareMagic ++ bZ threshold :: kek.

Definition SplitKEK (rnd : rand_source) (kek : bytes) (parts threshold : Z) : res shamir_err (list bytes) :=
  if negb (length kek =? KEKSize)%nat then Err (ErrKEKLength (length kek))
  else if (threshold <? 2) || (255 <? threshold) then Err (ErrThresholdRange threshold)
  else Split rnd (kekFrame kek threshold) parts threshold.

Definition combineKEK (shares : list bytes) (commitment : bytes) : res shamir_err bytes :=
  let? payload := Combine shares in
  if negb (length payload =? kekFrameLen)%nat
     || negb (bool_decide (take (length kekShareMagic) payload = kekShareMagic))
  then Err ErrIntegrityCheck
  else
    let threshold := Zb (nth (length kekShareMagic) payload (bZ 0)) in
    if Z.of_nat (length shares) <? threshold then Err (ErrBelowThreshold (length shares) threshold)
    else
      let? kek := validateKEK (drop (length kekShareMagic + 1) payload) in
      if (0 <? length commitment)%nat
      then if bool_decide (CommitKEK kek = commitment) then Ok kek else Err ErrCommitmentMismatch
      else Ok kek.

(** * Interpolation is Lagrange's formula *)

Lemma fold_skip {B} (f : B -> Byte.byte -> B) (xs : list Byte.byte) i (b : B) :
  fold_left (fun acc j => if (i =? j)%nat then acc else f acc (nth j xs (bZ 0))) (seq 0 (length xs)) b
  = fold_left f (skip i xs) b.
Proof.
  assert (forall ys o, fold_left (fun acc j => if (i =? j)%nat then acc else f acc (nth (j - o) ys (bZ 0)))
      (seq o (length ys)) b
    = fold_left f (if (i <? o)%nat then ys else skip (i - o) ys) b) as H.
  { intros ys o. revert o b. induction ys as [|y ys IH]; intros o b; simpl.
    - destruct (i <? o)%nat; [done|]. unfold skip. by rewrite take_nil, drop_nil.
    - rewrite Nat.sub_diag.
      etransitivity; [apply fold_left_ext_in|etransitivity; [apply (IH (S o))|]].
      2: { destruct (Nat.eqb_spec i o); subst.
        * rewrite Nat.ltb_irrefl, Nat.sub_diag. rewrite (proj2 (Nat.ltb_lt o (S o))) by lia. done.
        * destruct (Nat.ltb_spec i o), (Nat.ltb_spec i (S o)); try lia; [done|].
          replace (i - o)%nat with (S (i - S o)) by lia. done. }
      intros j acc Hj. apply elem_of_seq in Hj. cbv beta. destruct (i =? j)%nat; [done|].
        by replace (j - o)%nat with (S (j - S o)) by lia. }
  specialize (H xs 0%nat). rewrite Nat.sub_0_r in H.
  change (i <? 0)%nat with false in H. rewrite <- H.
  apply fold_left_ext_in. intros j acc _. by rewrite Nat.sub_0_r.
Qed.

Lemma interp_term_eq xs i :
  interp_term xs i = (gprod (skip i xs), gprod (map (bxor (nth i xs (bZ 0))) (skip i xs))).
Proof.
  unfold interp_term.
  rewrite (fold_left_ext_in _ (fun acc j => if (i =? j)%nat then acc
    else (fun '(num, den) x => (gfMul num x, gfMul den (bxor (nth i xs (bZ 0)) x))) acc (nth j xs (bZ 0))))
    by (intros j [num den] _; done).
  rewrite (fold_skip (fun '(num, den) x => (gfMul num x, gfMul den (bxor (nth i xs (bZ 0)) x)))).
  assert (forall ys n d, fold_left (fun '(num, den) x => (gfMul num x, gfMul den (bxor (nth i xs (bZ 0)) x))) ys (n, d)
    = (gfMul n (gprod ys), gfMul d (gprod (map (bxor (nth i xs (bZ 0))) ys)))) as H.
  { induction ys as [|y ys IH]; intros n d; simpl; [by rewrite !(gfMul_comm _ gf1), !gfMul_1_l|].
    by rewrite IH, !gfMul_assoc. }
  rewrite H. change (bZ 1) with gf1. by rewrite !gfMul_1_l.
Qed.

(** The Go loop computes Lagrange's formula at 0, so it recovers the constant
    term of any polynomial short enough for the number of samples. *)
Lemma interpolateAtZero_ev xs p :
  NoDup xs -> (length p <= length xs)%nat ->
  interpolateAtZero xs (map (ev p) xs) = nth 0 p gf0.
Proof.
  intros Hnd Hl. rewrite <- ev_nil_at_0, <- (lagrange_at xs p gf0 Hnd Hl).
  unfold interpolateAtZero.
  assert (forall l b, (forall i, i ∈ l -> i < length xs)%nat ->
    fold_left (fun result i => let '(num, den) := interp_term xs i in
      bxor result (gfMul (nth i (map (ev p) xs) (bZ 0)) (gfMul num (gfInv den)))) l b
    = bxor b (gsum (map (fun i => gfMul (ev p (nth i xs gf0))
        (gfMul (gprod (map (bxor gf0) (skip i xs))) (gfInv (lag_den xs i)))) l))) as H.
  { induction l as [|i l IH]; intros b Hlt; simpl; [by rewrite bxor_0_r|].
    rewrite IH by (intros; apply Hlt; by right). rewrite interp_term_eq, <- bxor_assoc.
    apply (f_equal2 bxor); [done|]. apply (f_equal2 bxor); [|done].
    rewrite (nth_indep _ (bZ 0) (ev p gf0)), map_nth by (rewrite length_map; apply Hlt; left).
    unfold lag_den. rewrite (map_ext (bxor gf0) id), map_id by apply bxor_0_l. done. }
  rewrite H by (intros i Hi; apply elem_of_seq in Hi; lia). change (bZ 0) with gf0. apply bxor_0_l.
Qed.

(** * What Split produces *)

(** The share at [x] of the polynomials [cs], one per secret byte. *)
Definition share_at (cs : list (list Byte.byte)) (x : Byte.byte) : bytes :=
  map (fun c => gfEval c x) cs ++ [x].

(** [c] has [t] coefficients and constant term [sb]. *)
Definition poly_for (t : nat) (c : list Byte.byte) (sb : Byte.byte) : Prop :=
  length c = t /\ nth 0 c gf0 = sb.

Definition xcoords (parts : Z) : list Byte.byte :=
  map (fun i => bZ (Z.of_nat i + 1)) (seq 0 (Z.to_nat parts)).

Definition rand_poly (rnd : rand_source) (threshold : Z) (bi : nat) (sb : Byte.byte) : option (list Byte.byte) :=
  match rnd bi with
  | Some r => Some (sb :: map r (seq 0 (Z.to_nat threshold - 1)))
  | None => None
  end.

Lemma Split_loop_ok rnd t secret done xs :
  (forall bi, (bi < length done + length secret)%nat -> is_Some (rnd bi)) ->
  exists cs, Forall2 (fun c bi_sb => rand_poly rnd t (fst bi_sb) (snd bi_sb) = Some c) cs
               (zip (seq (length done) (length secret)) secret) /\
  Split_loop rnd (length done + length secret) t (length done) secret
    (map (fun x => map (fun c => gfEval c x) done ++ replicate (length secret) (bZ 0) ++ [x]) xs)
  = Ok (map (share_at (done ++ cs)) xs).
Proof.
  revert done; induction secret as [|sb secret IH]; intros done Hr; simpl.
  - exists []. split; [constructor|]. f_equal. apply map_ext. intros x.
    unfold share_at. by rewrite app_nil_r.
  - destruct (Hr (length done)) as [r Er]; [simpl; lia|]. rewrite Er.
    set (c := sb :: _).
    destruct (IH (done ++ [c])) as (cs & Hcs & Hrun).
    { intros bi Hbi. apply Hr. rewrite length_app in Hbi. simpl in *. lia. }
    rewrite length_app in Hcs, Hrun. simpl in Hcs, Hrun.
    replace (length done + 1)%nat with (S (length done)) in * by lia.
    exists (c :: cs). split.
    { constructor; [|done]. unfold rand_poly. simpl. by rewrite Er. }
    replace (length done + S (length secret))%nat with (S (length done) + length secret)%nat by lia.
    rewrite <- app_assoc in Hrun. simpl app in Hrun. rewrite <- Hrun. f_equal.
    unfold Split_eval. rewrite map_map. apply map_ext. intros x.
    rewrite map_app, <- app_assoc. simpl.
    rewrite insert_app_r_alt by (rewrite length_map; lia).
    rewrite length_map, Nat.sub_diag. simpl. do 3 f_equal.
    rewrite app_nth2, length_map by (rewrite length_map; lia).
    replace (S (length done + length secret) - length done)%nat with (S (length secret)) by lia.
    simpl. rewrite app_nth2, length_replicate, Nat.sub_diag by (rewrite length_replicate; lia). done.
Qed.

Lemma Split_valid_guards secret parts threshold :
  secret <> [] -> 2 <= threshold <= parts -> parts <= 255 ->
  forall rnd, Split rnd secret parts threshold
    = Split_loop rnd (length secret) threshold 0 secret (Split_init (length secret) parts).
Proof.
  intros Hne Ht Hp rnd. unfold Split.
  rewrite (proj2 (Z.ltb_ge threshold 2)), (proj2 (Z.ltb_ge parts threshold)),
    (proj2 (Z.ltb_ge 255 parts)) by lia.
  by destruct secret.
Qed.

(** [Split] succeeds on valid arguments and its shares are the evaluations of
    one degree-bounded polynomial per secret byte. *)
Lemma Split_shape rnd secret parts threshold :
  secret <> [] -> 2 <= threshold <= parts -> parts <= 255 ->
  (forall bi, (bi < length secret)%nat -> is_Some (rnd bi)) ->
  exists cs, Forall2 (fun c bi_sb => rand_poly rnd threshold (fst bi_sb) (snd bi_sb) = Some c) cs
               (zip (seq 0 (length secret)) secret) /\
  Split rnd secret parts threshold = Ok (map (share_at cs) (xcoords parts)).
Proof.
  intros Hne Ht Hp Hr. rewrite Split_valid_guards by done.
  destruct (Split_loop_ok rnd threshold secret [] (xcoords parts)) as (cs & Hcs & E); [done|].
  exists cs. split; [done|]. simpl in E. rewrite <- E. f_equal.
  unfold Split_init, xcoords. rewrite map_map. done.
Qed.

Lemma rand_poly_for rnd threshold secret cs o :
  1 <= threshold ->
  Forall2 (fun c bi_sb => rand_poly rnd threshold (fst bi_sb) (snd bi_sb) = Some c) cs
    (zip (seq o (length secret)) secret) ->
  Forall2 (poly_for (Z.to_nat threshold)) cs secret.
Proof.
  intros Ht. revert cs o; induction secret as [|sb secret IH]; intros cs o H; simpl in H.
  - apply Forall2_nil_inv_r in H as ->. constructor.
  - apply Forall2_cons_inv_r in H as (c & cs' & Hc & H & ->). constructor; [|by eapply IH].
    unfold rand_poly in Hc. simpl in Hc. destruct (rnd o); simplify_eq. split; [|done].
    simpl. rewrite length_map, length_seq. lia.
Qed.

(** Whatever [Split] returns on success has that shape. *)
Lemma Split_Ok_shape rnd secret parts threshold shares :
  Split rnd secret parts threshold = Ok shares ->
  secret <> [] /\ 2 <= threshold <= parts /\ parts <= 255 /\
  exists cs, Forall2 (poly_for (Z.to_nat threshold)) cs secret /\ shares = map (share_at cs) (xcoords parts).
Proof.
  intros E. pose proof E as E'. unfold Split in E.
  destruct (Nat.eqb_spec (length secret) 0); [done|].
  destruct (Z.ltb_spec threshold 2); [done|]. destruct (Z.ltb_spec parts threshold); [done|].
  destruct (Z.ltb_spec 255 parts); [done|].
  assert (secret <> []) by (by intros ->). split_and!; [done|lia|lia|lia|].
  assert (forall bi, (bi < length secret)%nat -> is_Some (rnd bi)) as Hr.
  { assert (forall sec o sh r, Split_loop rnd (length secret) threshold o sec sh = Ok r ->
      forall bi, (o <= bi < o + length sec)%nat -> is_Some (rnd bi)) as L.
    { induction sec as [|sb sec IH]; intros o sh r Hl bi Hbi; simpl in *; [lia|].
      destruct (rnd o) eqn:Eo; [|done].
      destruct (decide (bi = o)) as [->|]; [by eexists|]. eapply IH; [exact Hl|lia]. }
    intros bi Hbi. eapply L; [exact E|lia]. }
  destruct (Split_shape rnd secret parts threshold) as (cs & Hcs & Es); [done|lia|lia|done|].
  exists cs. split; [eapply rand_poly_for, Hcs; lia|]. congruence.
Qed.

(** * Combine on well-formed shares *)

Lemma length_share_at cs x : length (share_at cs x) = S (length cs).
Proof. unfold share_at. rewrite length_app, length_map. simpl. lia. Qed.

Lemma share_at_x cs x : nth (length cs) (share_at cs x) (bZ 0) = x.
Proof. unfold share_at. rewrite app_nth2; rewrite length_map; [by rewrite Nat.sub_diag|lia]. Qed.

Lemma share_at_byte cs x bi c : cs !! bi = Some c -> nth bi (share_at cs x) (bZ 0) = gfEval c x.
Proof.
  intros H. pose proof (lookup_lt_Some _ _ _ H). unfold share_at.
  rewrite app_nth1 by (by rewrite length_map).
  apply nth_lookup_Some. by rewrite lookup_map, H.
Qed.

Lemma Combine_xs_ok cs xs seen :
  NoDup (rev xs ++ seen) -> gf0 ∉ xs ->
  Combine_xs (S (length cs)) seen (map (share_at cs) xs) = Ok (rev seen ++ xs).
Proof.
  revert seen; induction xs as [|x xs IH]; intros seen Hnd Hz; simpl; [by rewrite app_nil_r|].
  rewrite length_share_at, Nat.eqb_refl. simpl. rewrite Nat.sub_0_r, share_at_x.
  apply not_elem_of_cons in Hz as [Hx Hz]. simpl in Hnd. rewrite <- app_assoc in Hnd. simpl in Hnd.
  rewrite !bool_decide_eq_false_2.
  - rewrite IH; [|done|done]. simpl. by rewrite <- app_assoc.
  - apply NoDup_app in Hnd as (_ & _ & Hnd). by apply NoDup_cons in Hnd as [].
  - by intros ->.
Qed.

(** Any list of at least [t] shares at distinct nonzero points recovers the
    constant terms. *)
Lemma Combine_shares t cs secret xs :
  Forall2 (poly_for t) cs secret -> secret <> [] ->
  NoDup xs -> gf0 ∉ xs -> (t <= length xs)%nat -> (2 <= length xs)%nat ->
  Combine (map (share_at cs) xs) = Ok secret.
Proof.
  intros Hcs Hne Hnd Hz Ht H2. pose proof (Forall2_length _ _ _ Hcs) as Hlen.
  unfold Combine. rewrite length_map.
  rewrite (proj2 (Nat.ltb_ge _ _)) by done.
  destruct xs as [|x0 xs0] eqn:Exs; [simpl in H2; lia|]. rewrite <- Exs in *.
  replace (length (nth 0 (map (share_at cs) xs) [])) with (S (length cs))
    by (rewrite Exs; simpl; by rewrite length_share_at).
  destruct secret as [|sb0 secret0] eqn:Es; [done|]. rewrite <- Es in *.
  assert (0 < length secret)%nat by (rewrite Es; simpl; lia).
  rewrite (proj2 (Nat.ltb_ge _ _)) by lia.
  rewrite Combine_xs_ok; [|rewrite app_nil_r; by apply NoDup_rev_iff|done].
  simpl. f_equal. rewrite Nat.sub_0_r, Hlen. apply list_eq. intros bi.
  rewrite lookup_map.
  destruct (secret !! bi) as [sb|] eqn:Ebi.
  - pose proof (lookup_lt_Some _ _ _ Ebi) as Hbi.
    rewrite lookup_seq_lt by done. simpl. f_equal.
    destruct (Forall2_lookup_r _ _ _ _ _ Hcs Ebi) as (c & Ec & Hc & Hsb).
    rewrite map_map. rewrite (map_ext _ (ev c)).
    + rewrite interpolateAtZero_ev; [done|done|lia].
    + intros x. by rewrite (share_at_byte _ _ _ c), gfEval_ev.
  - apply lookup_ge_None in Ebi. by rewrite lookup_seq_ge.
Qed.

(** ** Points and selections *)

Lemma xcoords_elem parts x :
  parts <= 255 -> x ∈ xcoords parts -> x <> gf0.
Proof.
  intros Hp H. unfold xcoords in H. apply elem_of_map in H as (i & -> & Hi).
  apply elem_of_seq in Hi. intros E. apply (f_equal Zb) in E.
  rewrite Zb_bZ in E by lia. change (Zb gf0) with 0 in E. lia.
Qed.

Lemma xcoords_NoDup parts : parts <= 255 -> NoDup (xcoords parts).
Proof.
  intros Hp. unfold xcoords. apply NoDup_ListNoDup, List.NoDup_map_NoDup_ForallPairs, seq_NoDup.
  intros i j Hi%in_seq Hj%in_seq E. apply (f_equal Zb) in E. rewrite !Zb_bZ in E by lia. lia.
Qed.

Lemma selection_shape {A B} (f : A -> B) (xs : list A) sel :
  (forall s, s ∈ sel -> s ∈ map f xs) ->
  exists ys, sel = map f ys /\ forall y, y ∈ ys -> y ∈ xs.
Proof.
  induction sel as [|s sel IH]; intros H.
  - exists []. split; [done|]. by intros ? ?%not_elem_of_nil.
  - destruct IH as (ys & -> & Hys); [intros; apply H; by right|].
    destruct (proj1 (elem_of_map f xs s) ltac:(apply H; left)) as (y & -> & Hy).
    exists (y :: ys). split; [done|]. intros z [->|Hz]%elem_of_cons; auto.
Qed.

(** A selection of shares is given by distinct, nonzero points. *)
Lemma selection_points cs parts sel :
  parts <= 255 -> NoDup sel -> (forall s, s ∈ sel -> s ∈ map (share_at cs) (xcoords parts)) ->
  exists xs, sel = map (share_at cs) xs /\ NoDup xs /\ (gf0 ∉ xs) /\ (forall x, x ∈ xs -> x ∈ xcoords parts).
Proof.
  intros Hp Hnd H. destruct (selection_shape _ _ _ H) as (xs & -> & Hxs).
  exists xs. split_and!; [done| | |done].
  - eapply NoDup_ListNoDup, NoDup_map_inv, NoDup_ListNoDup, Hnd.
  - intros Hz. by eapply xcoords_elem; [| apply Hxs, Hz |].
Qed.

(** * Theorems *)

(** C2. Reconstruction: any selection of at least threshold-many distinct shares
    of a split, in any order, combines to the secret. *)
Theorem Split_Combine rnd secret parts threshold shares sel :
  Split rnd secret parts threshold = Ok shares ->
  NoDup sel -> (forall s, s ∈ sel -> s ∈ shares) -> threshold <= Z.of_nat (length sel) ->
  Combine sel = Ok secret.
Proof.
  intros HS Hnd Hsub Ht. apply Split_Ok_shape in HS as (Hne & Htp & Hp & cs & Hcs & ->).
  destruct (selection_points _ _ _ Hp Hnd Hsub) as (xs & -> & Hx & Hz & _).
  rewrite length_map in Ht.
  apply (Combine_shares (Z.to_nat threshold)); try done; lia.
Qed.

(** Splitting terminates successfully on every valid argument (2 <=
    threshold <= parts <= 255, non-empty secret, randomness available), with
    [parts] distinct shares one byte longer than the secret. *)
Theorem Split_total rnd secret parts threshold :
  secret <> [] -> 2 <= threshold <= parts -> parts <= 255 ->
  (forall bi, (bi < length secret)%nat -> is_Some (rnd bi)) ->
  exists shares, Split rnd secret parts threshold = Ok shares /\
    Z.of_nat (length shares) = parts /\ NoDup shares /\
    Forall (fun s => length s = S (length secret)) shares.
Proof.
  intros Hne Ht Hp Hr. destruct (Split_shape rnd secret parts threshold Hne Ht Hp Hr) as (cs & Hcs & E).
  apply rand_poly_for in Hcs; [|lia]. pose proof (Forall2_length _ _ _ Hcs) as Hl.
  eexists. split_and!; [exact E| | |].
  - unfold xcoords. rewrite !length_map, length_seq. lia.
  - apply NoDup_ListNoDup, List.NoDup_map_NoDup_ForallPairs; [|by apply NoDup_ListNoDup, xcoords_NoDup].
    intros x y _ _ Exy. rewrite <- (share_at_x cs x), <- (share_at_x cs y), Exy. done.
  - apply Forall_forall. intros s (x & -> & _)%elem_of_map. by rewrite length_share_at, Hl.
Qed.

Lemma pad_poly t p :
  (length p <= t)%nat -> exists q, length q = t /\ forall x, ev q x = ev p x.
Proof.
  intros H. exists (p ++ replicate (t - length p) gf0).
  split; [rewrite length_app, length_replicate; lia|]. intros x.
  assert (forall n, ev (replicate n gf0) x = gf0) as Z0.
  { induction n as [|n IH]; simpl; [done|]. by rewrite IH, gfMul_0_r, bxor_0_l. }
  generalize (t - length p)%nat as n. clear H.
  induction p as [|c p IH]; intros n; simpl in *; [apply Z0|]. by rewrite IH.
Qed.

(** A polynomial of [t] coefficients with a chosen constant term through fewer
    than [t] given points away from zero. *)
Lemma poly_through t sb (pts : list (Byte.byte * Byte.byte)) :
  NoDup pts.*1 -> gf0 ∉ pts.*1 -> (length pts < t)%nat ->
  exists c, poly_for t c sb /\ Forall (fun '(x, y) => gfEval c x = y) pts.
Proof.
  intros Hnd Hz Hl.
  destruct (interpolant_exists ((gf0, sb) :: pts)) as (p & Hlp & Hp).
  { simpl. by apply NoDup_cons. }
  destruct (pad_poly t p) as (c & Hc & Hev); [simpl in Hlp; lia|].
  apply Forall_cons in Hp as [H0 Hp].
  exists c. split; [split; [done|by rewrite <- ev_nil_at_0, Hev]|].
  eapply Forall_impl; [exact Hp|]. intros [x y] E. by rewrite gfEval_ev, Hev.
Qed.

(** The coefficients a random source must deliver to realise chosen polynomials. *)
Definition rand_of (cs : list (list Byte.byte)) : rand_source :=
  fun bi => Some (fun k => nth (S k) (nth bi cs []) gf0).

Lemma rand_poly_rand_of t cs secret :
  (1 <= Z.to_nat t)%nat -> Forall2 (poly_for (Z.to_nat t)) cs secret ->
  Forall2 (fun c bi_sb => rand_poly (rand_of cs) t (fst bi_sb) (snd bi_sb) = Some c) cs
    (zip (seq 0 (length secret)) secret).
Proof.
  intros Ht H. apply Forall2_same_length_lookup_2.
  { rewrite length_zip, length_seq. apply Forall2_length in H. lia. }
  intros i c [bi sb] Hc Hz. apply lookup_zip_with_Some in Hz as (bi' & sb' & E & Hs & Hb). simplify_eq.
  apply lookup_seq in Hs as [-> _]. simpl. unfold rand_poly, rand_of.
  destruct (Forall2_lookup_lr _ _ _ _ _ _ H Hc Hb) as [Hl H0].
  rewrite (nth_lookup_Some _ _ _ _ Hc). f_equal.
  destruct c as [|c0 c]; simpl in *; [lia|]. simplify_eq/=. f_equal.
  apply list_eq. intros k. rewrite lookup_map.
  destruct (c !! k) as [v|] eqn:Ek.
  - pose proof (lookup_lt_Some _ _ _ Ek). rewrite lookup_seq_lt by lia. simpl. f_equal.
    by apply nth_lookup_Some.
  - apply lookup_ge_None in Ek. by rewrite lookup_seq_ge by lia.
Qed.

(** Polynomials for another secret that agree with [cs] on fewer than [t] points. *)
Lemma consistent_polys t (xs : list Byte.byte) cs secret' :
  NoDup xs -> gf0 ∉ xs -> (length xs < t)%nat -> length cs = length secret' ->
  exists cs', Forall2 (poly_for t) cs' secret' /\
    forall x, x ∈ xs -> map (fun c => gfEval c x) cs' = map (fun c => gfEval c x) cs.
Proof.
  intros Hxs Hz Hlx. revert secret'; induction cs as [|c cs IH]; intros [|sb' secret'] Hl; try done.
  { exists []. split; [constructor|done]. }
  destruct (IH secret') as (cs' & H1 & H2); [simpl in Hl; lia|].
  assert ((map (fun x => (x, gfEval c x)) xs).*1 = xs) as Hfst.
  { clear. induction xs as [|x xs IH]; [done|]. simpl. f_equal. exact IH. }
  destruct (poly_through t sb' (map (fun x => (x, gfEval c x)) xs)) as (c' & Hc' & Hpt).
  { by rewrite Hfst. } { by rewrite Hfst. } { by rewrite length_map. }
  exists (c' :: cs'). split; [by constructor|]. intros x Hx. simpl. f_equal; [|by apply H2].
  rewrite Forall_forall in Hpt. apply (Hpt (x, gfEval c x)), elem_of_map. by exists x.
Qed.

(** Choosing the randomness chooses the polynomials. *)
Lemma Split_rand_of cs secret parts threshold :
  secret <> [] -> 2 <= threshold <= parts -> parts <= 255 ->
  Forall2 (poly_for (Z.to_nat threshold)) cs secret ->
  Split (rand_of cs) secret parts threshold = Ok (map (share_at cs) (xcoords parts)).
Proof.
  intros Hne Ht Hp H.
  destruct (Split_shape (rand_of cs) secret parts threshold) as (cs2 & Hcs2 & E); [done..|].
  rewrite E. do 3 f_equal.
  pose proof (rand_poly_rand_of threshold cs secret ltac:(lia) H) as R.
  generalize dependent (rand_of cs). intros rnd Hcs2 _ R. clear H.
  revert cs R; induction Hcs2 as [|c b cs2 l H Hcs2 IH]; intros cs' R.
  - by apply Forall2_nil_inv_r in R.
  - apply Forall2_cons_inv_r in R as (c' & cs'' & H' & R & ->). f_equal; [congruence|by apply IH].
Qed.

Definition xs_at (parts : Z) (held : list nat) : list Byte.byte :=
  map (fun i => bZ (Z.of_nat i + 1)) (List.filter (fun i => (i <? Z.to_nat parts)%nat) held).

Lemma xs_at_spec parts held :
  parts <= 255 -> NoDup held ->
  NoDup (xs_at parts held) /\ (gf0 ∉ xs_at parts held) /\ (length (xs_at parts held) <= length held)%nat.
Proof.
  intros Hp Hnd.
  assert (forall i, In i (List.filter (fun i => (i <? Z.to_nat parts)%nat) held) -> Z.of_nat i < parts) as Hpos.
  { intros i [_ H]%filter_In. apply Nat.ltb_lt in H. lia. }
  split_and!.
  - apply NoDup_ListNoDup, List.NoDup_map_NoDup_ForallPairs.
    + intros i j Hi%Hpos Hj%Hpos E. apply (f_equal Zb) in E. rewrite !Zb_bZ in E by lia. lia.
    + apply List.NoDup_filter. by apply NoDup_ListNoDup.
  - intros (i & E & Hi%list_elem_of_In%Hpos)%elem_of_map.
    apply (f_equal Zb) in E. rewrite Zb_bZ in E by lia. change (Zb gf0) with 0 in E. lia.
  - unfold xs_at. rewrite length_map. apply List.filter_length_le.
Qed.

(** C25. Perfect secrecy below the threshold: whatever fewer than threshold-many
    shares show is consistent with every secret of that length; there is a draw
    of the polynomial coefficients with which splitting the other secret yields
    exactly the same shares at those positions. *)
Theorem Split_secrecy rnd secret secret' parts threshold shares (held : list nat) :
  Split rnd secret parts threshold = Ok shares -> length secret' = length secret ->
  NoDup held -> Z.of_nat (length held) < threshold ->
  exists rnd' shares', Split rnd' secret' parts threshold = Ok shares' /\
    forall i, i ∈ held -> shares' !! i = shares !! i.
Proof.
  intros HS Hlen Hnd Hheld. apply Split_Ok_shape in HS as (Hne & Ht & Hp & cs & Hcs & ->).
  destruct (xs_at_spec parts held Hp Hnd) as (Hxs & Hz & Hlx).
  destruct (consistent_polys (Z.to_nat threshold) (xs_at parts held) cs secret') as (cs' & Hcs' & Hev);
    [done|done|lia|by rewrite Hlen; apply Forall2_length in Hcs|].
  exists (rand_of cs'), (map (share_at cs') (xcoords parts)). split.
  { apply Split_rand_of; [by intros ->; destruct secret|done..]. }
  intros i Hi. rewrite !lookup_map. unfold xcoords. rewrite !lookup_map.
  destruct (decide (i < Z.to_nat parts)%nat) as [Hlt|Hge]; [|by rewrite lookup_seq_ge by lia].
  rewrite lookup_seq_lt by done. simpl. f_equal. unfold share_at. f_equal. apply Hev.
  apply elem_of_map. exists i. split; [done|]. apply list_elem_of_In, filter_In.
  split; [by apply list_elem_of_In|by apply Nat.ltb_lt].
Qed.

(** * Acceptance of Combine *)

Definition xcoord (n : nat) (s : bytes) : Byte.byte := nth (n - 1) s (bZ 0).

Lemma Combine_xs_accepts n seen shares :
  NoDup seen ->
  res_ok (Combine_xs n seen shares) = true <->
  Forall (fun s => length s = n /\ xcoord n s <> gf0) shares /\
  NoDup (rev (map (xcoord n) shares) ++ seen).
Proof.
  revert seen; induction shares as [|s shares IH]; intros seen Hseen; simpl; [naive_solver|].
  rewrite Forall_cons, <- app_assoc. simpl. change (nth (n - 1) s (bZ 0)) with (xcoord n s).
  destruct (Nat.eqb_spec (length s) n) as [Hl|Hl]; simpl; [|naive_solver].
  change (bZ 0) with gf0. case_bool_decide as Hx; [naive_solver|].
  case_bool_decide as Hs.
  - split; [done|]. intros [_ (_ & _ & H)%NoDup_app]. by apply NoDup_cons in H as [].
  - rewrite IH by by apply NoDup_cons. naive_solver.
Qed.

(** [Combine] accepts exactly the share lists with at least two shares, of
    one common length of at least two bytes, with non-zero and pairwise distinct
    x-coordinates; every other input is an error, never a wrong secret. *)
Theorem Combine_accepts shares :
  res_ok (Combine shares) = true <->
  (2 <= length shares)%nat /\
  exists n, (2 <= n)%nat /\ Forall (fun s => length s = n /\ xcoord n s <> gf0) shares /\
    NoDup (map (xcoord n) shares).
Proof.
  unfold Combine. destruct (Nat.ltb_spec (length shares) 2); [split; [done|lia]|].
  destruct shares as [|s0 shares]; [simpl in *; lia|]. simpl nth.
  assert (forall n, Forall (fun s => length s = n /\ xcoord n s <> gf0) (s0 :: shares) -> length s0 = n) as Hn
    by (intros n Hf; by apply Forall_cons in Hf as [[-> _] _]).
  destruct (Nat.ltb_spec (length s0) 2).
  { split; [done|]. intros (_ & n & ? & Hf%Hn & _). lia. }
  pose proof (Combine_xs_accepts (length s0) [] (s0 :: shares) (NoDup_nil_2)) as A.
  rewrite app_nil_r, NoDup_rev_iff in A.
  destruct (Combine_xs (length s0) [] (s0 :: shares)); simpl in *.
  - split; [intros _|done]. split; [lia|]. exists (length s0). naive_solver.
  - split; [done|]. intros (_ & n & _ & Hf & Hd). pose proof (Hn n Hf). subst n. naive_solver.
Qed.

(** * The framed KEK *)

Definition all_zero (kek : bytes) : Prop := Forall (fun b => b = gf0) kek.

Lemma or_fold_zero key acc :
  0 <= acc ->
  (fold_left (fun anySet b => Z.lor anySet (Zb b)) key acc =? 0) = true <-> acc = 0 /\ all_zero key.
Proof.
  unfold all_zero. revert acc; induction key as [|b key IH]; intros acc Ha; simpl.
  { rewrite Z.eqb_eq, Forall_nil. naive_solver. }
  pose proof (Zb_range b). rewrite IH by (apply Z.lor_nonneg; lia).
  rewrite Z.lor_eq_0_iff, Forall_cons. split.
  - intros [[-> Hb] H2]. split_and!; [done| |done]. by apply Zb_inj.
  - intros (-> & -> & H2). done.
Qed.

Lemma validateKEK_ok key : length key = KEKSize -> ~ all_zero key -> validateKEK key = Ok key.
Proof.
  intros Hl Hz. unfold validateKEK. rewrite Hl, Nat.eqb_refl. simpl.
  destruct (_ =? 0) eqn:E; [|done]. apply or_fold_zero in E as [_ ?]; [done|lia].
Qed.

Lemma combineKEK_frame shares kek t :
  Combine shares = Ok (kekFrame kek t) -> length kek = KEKSize -> ~ all_zero kek ->
  0 <= t < 256 -> t <= Z.of_nat (length shares) ->
  forall commitment, commitment = [] \/ commitment = CommitKEK kek -> combineKEK shares commitment = Ok kek.
Proof.
  intros HC Hl Hz Ht Hn commitment Hc. unfold combineKEK. rewrite HC. cbn [res_bind].
  assert (length (kekFrame kek t) = kekFrameLen) as Hfl by (unfold kekFrame; rewrite length_app; simpl; rewrite Hl; done).
  rewrite Hfl, Nat.eqb_refl. cbn [negb orb].
  replace (take (length kekShareMagic) (kekFrame kek t)) with kekShareMagic by done.
  rewrite bool_decide_eq_true_2 by done. cbn [negb].
  replace (nth (length kekShareMagic) (kekFrame kek t) (bZ 0)) with (bZ t) by done.
  rewrite Zb_bZ by lia. rewrite (proj2 (Z.ltb_ge _ _)) by lia.
  change (drop (length kekShareMagic + 1) (kekFrame kek t)) with kek.
  rewrite validateKEK_ok by done. simpl.
  destruct Hc as [->| ->]; [done|]. rewrite bool_decide_eq_true_2 by done. by destruct (0 <? _)%nat.
Qed.

Lemma SplitKEK_Ok rnd kek parts threshold shares :
  SplitKEK rnd kek parts threshold = Ok shares ->
  length kek = KEKSize /\ 2 <= threshold <= 255 /\
  Split rnd (kekFrame kek threshold) parts threshold = Ok shares.
Proof.
  unfold SplitKEK. destruct (Nat.eqb_spec (length kek) KEKSize); [|done]. simpl.
  destruct (_ || _) eqn:E; [done|]. breflect. intros ->. split_and!; done || lia.
Qed.

(** Unsealing: any threshold-many distinct shares of a split KEK reconstruct
    it, with the commitment configured or without. *)
Theorem SplitKEK_combineKEK rnd kek parts threshold shares sel commitment :
  SplitKEK rnd kek parts threshold = Ok shares -> ~ all_zero kek ->
  NoDup sel -> (forall s, s ∈ sel -> s ∈ shares) -> threshold <= Z.of_nat (length sel) ->
  commitment = [] \/ commitment = CommitKEK kek ->
  combineKEK sel commitment = Ok kek.
Proof.
  intros (Hl & Ht & HS)%SplitKEK_Ok Hz Hnd Hsub Hsel.
  pose proof HS as (Hne & Htp & Hp & cs & Hcs & ->)%Split_Ok_shape.
  destruct (selection_points _ _ _ Hp Hnd Hsub) as (xs & -> & Hx & Hxz & _).
  rewrite length_map in Hsel.
  eapply (combineKEK_frame _ _ threshold); [|done|done|lia|rewrite length_map; lia].
  apply (Combine_shares (Z.to_nat threshold)); try done; lia.
Qed.

(** With a commitment configured, whatever shares are supplied, the unsealed
    key is the one committed to, or the supplied shares exhibit two different
    HMAC-SHA256 inputs with one digest. *)
Theorem combineKEK_commitment_binds shares kek kek' :
  combineKEK shares (CommitKEK kek) = Ok kek' ->
  kek' = kek \/ (kek' <> kek /\ hmac_sha256 kekCommitmentContext kek' = hmac_sha256 kekCommitmentContext kek).
Proof.
  intros H. destruct (decide (kek' = kek)) as [|Hne]; [by left|right]. split; [done|].
  unfold combineKEK in H. destruct (Combine shares) as [payload|]; [|done]. cbn [res_bind] in H.
  destruct (_ || _); [done|]. destruct (_ <? _); [done|].
  destruct (validateKEK _) as [k|]; [|done]. cbn [res_bind] in H.
  unfold CommitKEK in H at 1. rewrite length_hmac_sha256 in H. simpl in H.
  case_bool_decide as E; [|done]. simplify_eq. exact E.
Qed.

(** The framing magic alone does not authenticate shares: from any
    threshold-1 distinct genuine shares and any unused non-zero x-coordinate
    there is one forged share with which the unseal without a commitment
    returns any non-zero key of the attacker's choice. *)
Theorem combineKEK_magic_forgeable rnd kek parts threshold shares held x kek' :
  SplitKEK rnd kek parts threshold = Ok shares ->
  NoDup held -> (forall s, s ∈ held -> s ∈ shares) -> Z.of_nat (length held) = threshold - 1 ->
  x <> gf0 -> (forall s, s ∈ held -> xcoord (kekFrameLen + 1) s <> x) ->
  length kek' = KEKSize -> ~ all_zero kek' ->
  exists forged, xcoord (kekFrameLen + 1) forged = x /\ combineKEK (held ++ [forged]) [] = Ok kek'.
Proof.
  intros (Hl & Ht & HS)%SplitKEK_Ok Hnd Hsub Hheld Hx Hfresh Hl' Hz'.
  pose proof HS as (Hne & Htp & Hp & cs & Hcs & ->)%Split_Ok_shape.
  destruct (selection_points _ _ _ Hp Hnd Hsub) as (xs & -> & Hxs & Hxz & _).
  rewrite length_map in Hheld.
  assert (length cs = kekFrameLen) as Hlc.
  { rewrite (Forall2_length _ _ _ Hcs). unfold kekFrame. rewrite length_app. simpl. by rewrite Hl. }
  assert (x ∉ xs) as Hxn.
  { intros Hin. apply (Hfresh (share_at cs x)); [apply elem_of_map; by exists x|].
    unfold xcoord. rewrite Nat.add_sub, <- Hlc. apply share_at_x. }
  destruct (consistent_polys (Z.to_nat threshold) xs cs (kekFrame kek' threshold)) as (cs' & Hcs' & Hev);
    [done|done|lia|rewrite Hlc; unfold kekFrame; rewrite length_app; simpl; by rewrite Hl'|].
  assert (length cs' = kekFrameLen) as Hlc'.
  { rewrite (Forall2_length _ _ _ Hcs'). unfold kekFrame. rewrite length_app. simpl. by rewrite Hl'. }
  exists (share_at cs' x). split.
  { unfold xcoord. rewrite Nat.add_sub, <- Hlc'. apply share_at_x. }
  replace (map (share_at cs) xs ++ [share_at cs' x]) with (map (share_at cs') (xs ++ [x])).
  2: { rewrite map_app. simpl. f_equal. apply map_ext_in. intros z Hz. unfold share_at.
       f_equal. apply Hev. by apply list_elem_of_In. }
  eapply (combineKEK_frame _ _ threshold); [|done|done|lia|rewrite length_map, length_app; simpl; lia|by left].
  apply (Combine_shares (Z.to_nat threshold)); try done; rewrite ?length_app; simpl; try lia.
  - apply NoDup_app. split_and!; [done| |apply NoDup_singleton]. by intros z Hz ->%list_elem_of_singleton.
  - rewrite elem_of_app, list_elem_of_singleton. by intros [?|?].
Qed.

(** * Witnesses: a 2-of-3 split evaluated *)

Definition w_rnd : rand_source := fun bi => Some (fun k => bZ (Z.of_nat (7 * bi + k) + 11)).
Definition w_kek : bytes := map (fun i => bZ (Z.of_nat i + 1)) (seq 0 32).
Definition res_get {E A} (d : A) (r : res E A) : A := match r with Ok a => a | Err _ => d end.
Definition w_shares : list bytes := res_get [] (Split w_rnd (go "key") 3 2).
Definition w_sel : list bytes := [nth 2 w_shares []; nth 0 w_shares []].
Definition w_kshares : list bytes := res_get [] (SplitKEK w_rnd w_kek 3 2).

Ltac solve_sub :=
  apply Forall_forall; vm_decide.

Lemma w_kek_nonzero (kek : bytes) b l : kek = b :: l -> b <> gf0 -> ~ all_zero kek.
Proof. intros -> Hb H. by apply Forall_cons in H as [? _]. Qed.

Lemma Split_Combine_witness : Combine w_sel = Ok (go "key").
Proof.
  apply (Split_Combine w_rnd (go "key") 3 2 w_shares w_sel).
  - vm_compute. reflexivity.
  - vm_decide.
  - solve_sub.
  - vm_compute. discriminate.
Defined.

Lemma Split_total_witness :
  exists shares, Split w_rnd (go "key") 3 2 = Ok shares /\ Z.of_nat (length shares) = 3 /\
    NoDup shares /\ Forall (fun s => length s = 4%nat) shares.
Proof.
  apply (Split_total w_rnd (go "key") 3 2); [discriminate|lia|lia|].
  intros bi _. eexists. reflexivity.
Defined.

Lemma Split_secrecy_witness :
  exists rnd' shares', Split rnd' (go "abc") 3 2 = Ok shares' /\
    forall i, i ∈ [1%nat] -> shares' !! i = w_shares !! i.
Proof.
  apply (Split_secrecy w_rnd (go "key") (go "abc") 3 2 w_shares [1%nat]).
  - vm_compute. reflexivity.
  - reflexivity.
  - apply NoDup_singleton.
  - simpl. lia.
Defined.

Lemma SplitKEK_combineKEK_witness :
  combineKEK [nth 1 w_kshares []; nth 2 w_kshares []] (CommitKEK w_kek) = Ok w_kek.
Proof.
  apply (SplitKEK_combineKEK w_rnd w_kek 3 2 w_kshares).
  - vm_compute. reflexivity.
  - eapply w_kek_nonzero; [reflexivity|discriminate].
  - vm_decide.
  - solve_sub.
  - simpl. lia.
  - right. reflexivity.
Defined.

Lemma combineKEK_commitment_binds_witness :
  w_kek = w_kek \/
  (w_kek <> w_kek /\ hmac_sha256 kekCommitmentContext w_kek = hmac_sha256 kekCommitmentContext w_kek).
Proof.
  apply (combineKEK_commitment_binds [nth 1 w_kshares []; nth 2 w_kshares []]).
  vm_compute. reflexivity.
Defined.

Lemma combineKEK_magic_forgeable_witness :
  exists forged, xcoord (kekFrameLen + 1) forged = bZ 9 /\
    combineKEK ([nth 0 w_kshares []] ++ [forged]) [] = Ok (replicate 32 (bZ 0x41)).
Proof.
  apply (combineKEK_magic_forgeable w_rnd w_kek 3 2 w_kshares).
  - vm_compute. reflexivity.
  - apply NoDup_singleton.
  - solve_sub.
  - reflexivity.
  - discriminate.
  - intros s ->%list_elem_of_singleton. vm_compute. discriminate.
  - reflexivity.
  - eapply w_kek_nonzero; [reflexivity|discriminate].
Defined.
