(* ===== verification/KeyProvider.v ===== *)
(** The key-provider fallback chain: [internal/crypto/provider_tier.go] and
    [internal/crypto/multi_provider.go].  A provider is its name and the outcome
    of its [KEK()] call; the chain's [KEK()] returns the key, or the errors, and
    the downgrade event it reports. *)
From Stdlib Require Import ZArith Lia.
From stdpp Require Import base tactics list.
From S2P Require Import Prelude.

(** * Tiers *)

Inductive ProviderTier := TierUnknown | TierSoftware | TierDistributed | TierHardware.

(** The iota order of the Go constants. *)
Definition tier_rank (t : ProviderTier) : nat :=
  match t with TierUnknown => 0 | TierSoftware => 1 | TierDistributed => 2 | TierHardware => 3 end.
Definition tier_lt (a b : ProviderTier) : bool := (tier_rank a <? tier_rank b)%nat.

Definition providerTiers : list (bytes * ProviderTier) :=
  [(go "password", TierSoftware); (go "file", TierSoftware); (go "env", TierSoftware);
   (go "exec", TierSoftware); (go "shamir", TierDistributed); (go "tpm", TierHardware);
   (go "aws-kms", TierHardware); (go "gcp-kms", TierHardware); (go "azure-kms", TierHardware)].

Definition ProviderTierOf (name : bytes) : ProviderTier :=
  match find (fun e => bool_decide (fst e = name)) providerTiers with
  | Some e => snd e
  | None => TierUnknown
  end.

(** * Providers *)

Inductive provider_err :=
| ErrKMSContextFallbackNotNeeded
| ErrUnavailable (why : bytes).

Record KeyProvider := mkProvider { Name : bytes; KEK : res provider_err bytes }.

Record FallbackDowngrade := mkDowngrade {
  d_Index : nat; d_Provider : bytes; d_FromTier : ProviderTier; d_ToTier : ProviderTier }.

(** The scan of [DetectFallbackDowngrade] from position [i]. *)
Fixpoint detect_loop (i : nat) (maxTier : ProviderTier) (ps : list KeyProvider) : option FallbackDowngrade :=
  match ps with
  | [] => None
  | p :: ps =>
      let t := ProviderTierOf (Name p) in
      if tier_lt t maxTier then Some (mkDowngrade i (Name p) maxTier t)
      else detect_loop (S i) (if tier_lt maxTier t then t else maxTier) ps
  end.

Definition DetectFallbackDowngrade (ps : list KeyProvider) : option FallbackDowngrade :=
  if (length ps <? 2)%nat then None
  else match ps with
       | [] => None
       | p0 :: rest => detect_loop 1 (ProviderTierOf (Name p0)) rest
       end.

Inductive multi_err :=
| MultiRefused                                   (* the configuration refusal, returned as is *)
| MultiAllFailed (errs : list (bytes * provider_err)).

(** [KEK()]'s loop: the first key, with the downgrade reported for it. *)
Fixpoint multi_loop (i : nat) (maxTier : ProviderTier) (errs : list (bytes * provider_err))
    (ps : list KeyProvider) : res multi_err (bytes * option FallbackDowngrade) :=
  match ps with
  | [] => Err (MultiAllFailed errs)
  | p :: ps =>
      match KEK p with
      | Ok key =>
          let tier := ProviderTierOf (Name p) in
          Ok (key, if (0 <? i)%nat && tier_lt tier maxTier
                   then Some (mkDowngrade i (Name p) maxTier tier) else None)
      | Err ErrKMSContextFallbackNotNeeded => Err MultiRefused
      | Err e =>
          let t := ProviderTierOf (Name p) in
          multi_loop (S i) (if tier_lt maxTier t then t else maxTier) (errs ++ [(Name p, e)]) ps
      end
  end.

(** [NewMultiKeyProvider] refuses an empty list, so [KEK()] has a first provider. *)
Definition MultiKEK (p0 : KeyProvider) (rest : list KeyProvider) : res multi_err (bytes * option FallbackDowngrade) :=
  multi_loop 0 (ProviderTierOf (Name p0)) [] (p0 :: rest).

(** * Properties *)

Definition ordinary_failure (p : KeyProvider) : Prop := exists w, KEK p = Err (ErrUnavailable w).

Definition max_tier (t : ProviderTier) (ps : list KeyProvider) : ProviderTier :=
  fold_left (fun m p => let t := ProviderTierOf (Name p) in if tier_lt m t then t else m) ps t.

Lemma multi_loop_Ok i m errs ps key d :
  multi_loop i m errs ps = Ok (key, d) ->
  exists pre p post, ps = pre ++ p :: post /\ Forall ordinary_failure pre /\ KEK p = Ok key /\
    d = (let t := ProviderTierOf (Name p) in
         if (0 <? i + length pre)%nat && tier_lt t (max_tier m pre)
         then Some (mkDowngrade (i + length pre) (Name p) (max_tier m pre) t) else None).
Proof.
  revert i m errs; induction ps as [|p ps IH]; intros i m errs H; simpl in H; [done|].
  destruct (KEK p) as [k|[|w]] eqn:E; simplify_eq.
  - exists [], p, ps. simpl. rewrite Nat.add_0_r. done.
  - apply IH in H as (pre & q & post & -> & Hf & Hq & Hd).
    exists (p :: pre), q, post. split_and!; [done| |done|].
    + constructor; [by exists w|done].
    + simpl. rewrite <- Nat.add_succ_comm in *. exact Hd.
Qed.

Lemma detect_loop_None i m ps pre p post :
  detect_loop i m ps = None -> ps = pre ++ p :: post ->
  tier_lt (ProviderTierOf (Name p)) (max_tier m pre) = false.
Proof.
  revert i m ps; induction pre as [|q pre IH]; intros i m ps H ->; simpl in H |- *.
  - by destruct (tier_lt _ _).
  - destruct (tier_lt _ _) eqn:E; [done|]. by eapply IH.
Qed.

(** The chain returns the key of the first provider that succeeds, every
    provider before it having failed with an ordinary error; a provider that
    refuses on configuration ends the chain and is never fallen through. *)
Theorem MultiKEK_first_success p0 rest key d :
  MultiKEK p0 rest = Ok (key, d) ->
  exists pre p post, p0 :: rest = pre ++ p :: post /\ Forall ordinary_failure pre /\ KEK p = Ok key.
Proof. intros (pre & p & post & E & H & HK & _)%multi_loop_Ok. by exists pre, p, post. Qed.

(** The start-up check covers the run-time downgrade: a provider chain in
    which [DetectFallbackDowngrade] finds nothing never reports a downgrade when
    [KEK()] falls back, whichever providers fail. *)
Theorem no_static_downgrade_no_runtime_downgrade p0 rest key d :
  DetectFallbackDowngrade (p0 :: rest) = None -> MultiKEK p0 rest = Ok (key, d) -> d = None.
Proof.
  intros HD HM. apply multi_loop_Ok in HM as (pre & p & post & E & _ & _ & ->). simpl.
  destruct pre as [|q pre]; [done|]. simplify_eq/=.
  unfold DetectFallbackDowngrade in HD. rewrite (proj2 (Nat.ltb_ge _ _)) in HD
    by (simpl; rewrite length_app; simpl; lia).
  pose proof (detect_loop_None _ _ _ _ _ _ HD eq_refl) as Hlt.
  destruct (tier_lt (ProviderTierOf (Name q)) (ProviderTierOf (Name q))); by rewrite Hlt.
Qed.

(** ** Witnesses *)

Definition w_tpm : KeyProvider := mkProvider (go "tpm") (Err (ErrUnavailable (go "no TPM"))).
Definition w_kms : KeyProvider := mkProvider (go "aws-kms") (Ok (go "kek")).
Definition w_pw : KeyProvider := mkProvider (go "password") (Ok (go "pw")).

Lemma MultiKEK_first_success_witness :
  exists pre p post, [w_tpm; w_pw] = pre ++ p :: post /\ Forall ordinary_failure pre /\ KEK p = Ok (go "pw").
Proof.
  apply (MultiKEK_first_success w_tpm [w_pw] (go "pw") (Some (mkDowngrade 1 (go "password") TierHardware TierSoftware))).
  vm_compute. reflexivity.
Defined.

Lemma no_static_downgrade_no_runtime_downgrade_witness : None = @None FallbackDowngrade.
Proof.
  apply (no_static_downgrade_no_runtime_downgrade w_tpm [w_kms] (go "kek")); vm_compute; reflexivity.
Defined.
