(* ===== verification/GoStr.v ===== *)
(** The parts of Go's [strconv], [strings], [encoding/base64] and [regexp] the
    audit records are encoded with: decimal formatting and parsing, splitting and
    joining, substring search, raw-URL base64 decoding; with their round trips. *)
From Stdlib Require Import ZArith Lia.
From stdpp Require Import base tactics list.
From S2P Require Import Prelude.

(** * Decimal integers *)

Definition digit (z : Z) : Byte.byte := bZ (48 + z).

Fixpoint dec_loop (fuel : nat) (z : Z) : bytes :=
  match fuel with
  | O => []
  | S fuel => if z <? 10 then [digit z] else dec_loop fuel (z / 10) ++ [digit (z mod 10)]
  end.

(** [strconv.FormatUint(z, 10)]; the bit length bounds the number of digits. *)
Definition FormatUint (z : Z) : bytes := dec_loop (S (Z.to_nat (Z.log2 z))) z.
(** [strconv.FormatInt(z, 10)], and [%d]. *)
Definition FormatInt (z : Z) : bytes := if z <? 0 then bZ 45 :: FormatUint (- z) else FormatUint z.
Definition FormatBool (b : bool) : bytes := if b then go "true" else go "false".

Definition digit_val (b : Byte.byte) : option Z :=
  if (48 <=? Zb b) && (Zb b <=? 57) then Some (Zb b - 48) else None.

Fixpoint parse_digits (acc : Z) (s : bytes) : option Z :=
  match s with
  | [] => Some acc
  | b :: s => match digit_val b with Some d => parse_digits (acc * 10 + d) s | None => None end
  end.

(** [strconv.ParseUint(s, 10, 64)] *)
Definition ParseUint (s : bytes) : option Z :=
  match s with
  | [] => None
  | _ => match parse_digits 0 s with
         | Some n => if n <? 2 ^ 64 then Some n else None
         | None => None
         end
  end.

(** [strconv.ParseInt(s, 10, 64)], and [strconv.Atoi] on a 64-bit platform. *)
Definition ParseInt (s : bytes) : option Z :=
  match s with
  | [] => None
  | b :: rest =>
      let neg := Zb b =? 45 in
      let body := if (Zb b =? 43) || neg then rest else s in
      match ParseUint body with
      | Some n => if neg then (if n <=? 2 ^ 63 then Some (- n) else None)
                  else (if n <? 2 ^ 63 then Some n else None)
      | None => None
      end
  end.

Lemma parse_digits_nonneg s : forall acc z, 0 <= acc -> parse_digits acc s = Some z -> 0 <= z.
Proof.
  induction s as [|b s IH]; intros acc z Ha H; simpl in H; [by simplify_eq|].
  unfold digit_val in H. destruct ((48 <=? Zb b) && (Zb b <=? 57)) eqn:E; [|done].
  breflect. apply IH in H; lia.
Qed.

Lemma ParseUint_range s z : ParseUint s = Some z -> is_u64 z.
Proof.
  unfold ParseUint, is_u64. intros H. destruct s; [done|].
  destruct (parse_digits 0 _) eqn:E; [|done]. apply parse_digits_nonneg in E; [|lia].
  destruct (Z.ltb_spec z0 (2 ^ 64)); simplify_eq. lia.
Qed.

Lemma ParseInt_range s z : ParseInt s = Some z -> is_s64 z.
Proof.
  unfold ParseInt. intros H. destruct s; [done|]. cbv zeta in H.
  destruct (ParseUint _) as [n|] eqn:E; [|done]. apply ParseUint_range in E. unfold is_u64, is_s64 in *.
  repeat (destr_match_in H; simplify_eq; breflect); lia.
Qed.

Definition is_digit (b : Byte.byte) : Prop := 48 <= Zb b <= 57.

Lemma digit_Zb z : 0 <= z < 10 -> Zb (digit z) = 48 + z.
Proof. intros. unfold digit. apply Zb_bZ. lia. Qed.

Lemma digit_val_digit z : 0 <= z < 10 -> digit_val (digit z) = Some z.
Proof.
  intros H. unfold digit_val. rewrite digit_Zb by done.
  rewrite (proj2 (Z.leb_le _ _)), (proj2 (Z.leb_le _ _)) by lia. simpl. f_equal. lia.
Qed.

Lemma dec_fuel z fuel : 0 <= z -> (Z.to_nat (Z.log2 z) < fuel)%nat -> 10 <= z ->
  (Z.to_nat (Z.log2 (z / 10)) < Nat.pred fuel)%nat.
Proof.
  intros H0 Hf Hz. pose proof (Z.log2_nonneg (z / 10)).
  assert (Z.log2 (z / 10) < Z.log2 z).
  { apply Z.log2_lt_pow2; [apply Z.div_str_pos; lia|].
    pose proof (Z.log2_spec z ltac:(lia)) as [_ Hl]. rewrite Z.pow_succ_r in Hl by apply Z.log2_nonneg.
    apply Z.div_lt_upper_bound; lia. }
  lia.
Qed.

Lemma parse_digits_dec fuel z acc :
  0 <= z -> (Z.to_nat (Z.log2 z) < fuel)%nat ->
  exists k, 0 < k /\ parse_digits acc (dec_loop fuel z) = Some (acc * k + z) /\
  forall acc', parse_digits acc' (dec_loop fuel z) = Some (acc' * k + z).
Proof.
  revert z acc; induction fuel as [|fuel IH]; intros z acc Hz Hf; [lia|]. simpl.
  destruct (Z.ltb_spec z 10) as [H|H].
  - exists 10. simpl. rewrite digit_val_digit by lia. split_and!; [lia|done|done].
  - pose proof (dec_fuel z (S fuel) Hz Hf H) as Hf'. simpl in Hf'.
    pose proof (Z.mod_pos_bound z 10 ltac:(lia)). pose proof (Z.div_mod z 10 ltac:(lia)).
    destruct (IH (z / 10) 0) as (k & Hk & _ & Hp); [apply Z.div_pos; lia|done|].
    assert (forall l b a, parse_digits a (l ++ [b]) =
      match parse_digits a l with Some n => parse_digits n [b] | None => None end) as App.
    { induction l as [|c l IHl]; intros b a; [done|]. simpl. destruct (digit_val c); [apply IHl|done]. }
    assert (forall a, parse_digits a (dec_loop fuel (z / 10) ++ [digit (z mod 10)]) = Some (a * (k * 10) + z)) as E.
    { intros a. rewrite App, Hp. simpl. rewrite digit_val_digit by lia. f_equal. nia. }
    exists (k * 10). split_and!; [lia|apply E|apply E].
Qed.

Lemma FormatUint_nonempty z : FormatUint z <> [].
Proof. unfold FormatUint. simpl. destruct (z <? 10); [done|]. by destruct (dec_loop _ _). Qed.

Lemma parse_FormatUint z : 0 <= z -> parse_digits 0 (FormatUint z) = Some z.
Proof.
  intros. unfold FormatUint.
  destruct (parse_digits_dec (S (Z.to_nat (Z.log2 z))) z 0) as (k & _ & E & _); [done|lia|].
  rewrite E. f_equal.
Qed.

Lemma ParseUint_FormatUint z : is_u64 z -> ParseUint (FormatUint z) = Some z.
Proof.
  intros [H1 H2]. unfold ParseUint. pose proof (FormatUint_nonempty z).
  destruct (FormatUint z) eqn:E; [done|]. rewrite <- E, parse_FormatUint by done.
  by rewrite (proj2 (Z.ltb_lt _ _)).
Qed.

Lemma FormatUint_inj a b : 0 <= a -> 0 <= b -> FormatUint a = FormatUint b -> a = b.
Proof.
  intros Ha Hb E. apply parse_FormatUint in Ha, Hb. rewrite E in Ha. congruence.
Qed.

Lemma dec_loop_digits fuel z : 0 <= z -> Forall is_digit (dec_loop fuel z).
Proof.
  revert z; induction fuel as [|fuel IH]; intros z Hz; simpl; [constructor|].
  destruct (Z.ltb_spec z 10).
  - repeat constructor; rewrite digit_Zb; lia.
  - apply Forall_app. split; [apply IH, Z.div_pos; lia|].
    pose proof (Z.mod_pos_bound z 10 ltac:(lia)). repeat constructor; rewrite digit_Zb; lia.
Qed.

Lemma FormatUint_digits z : 0 <= z -> Forall is_digit (FormatUint z).
Proof. apply dec_loop_digits. Qed.

(** The first byte of a decimal is a digit, so the sign is recognised. *)
Lemma FormatUint_head z : 0 <= z -> exists b l, FormatUint z = b :: l /\ is_digit b.
Proof.
  intros Hz. pose proof (FormatUint_nonempty z). pose proof (FormatUint_digits z Hz) as Hd.
  destruct (FormatUint z) as [|b l]; [done|]. apply Forall_cons in Hd as [? _]. eauto.
Qed.

Lemma ParseInt_FormatInt z : is_s64 z -> ParseInt (FormatInt z) = Some z.
Proof.
  unfold is_s64. intros H. unfold FormatInt. destruct (Z.ltb_spec z 0).
  - unfold ParseInt. change (Zb (bZ 45)) with 45. simpl orb. cbv iota.
    rewrite ParseUint_FormatUint by (unfold is_u64; lia).
    rewrite Z.eqb_refl, (proj2 (Z.leb_le _ _)) by lia. f_equal. lia.
  - destruct (FormatUint_head z) as (b & l & E & Hb); [lia|]. unfold is_digit in Hb.
    unfold ParseInt. rewrite E. rewrite (proj2 (Z.eqb_neq (Zb b) 43)), (proj2 (Z.eqb_neq (Zb b) 45)) by lia.
    simpl orb. cbv iota. rewrite <- E, ParseUint_FormatUint by (unfold is_u64; lia).
    by rewrite (proj2 (Z.ltb_lt _ _)) by lia.
Qed.

Lemma FormatInt_inj a b : FormatInt a = FormatInt b -> a = b.
Proof.
  unfold FormatInt. destruct (Z.ltb_spec a 0), (Z.ltb_spec b 0); intros E.
  - simplify_eq. enough (- a = - b) by lia. apply FormatUint_inj; [lia|lia|done].
  - destruct (FormatUint_head b) as (c & l & Ec & Hc); [lia|]. rewrite Ec in E. simplify_eq.
    unfold is_digit in Hc. change (Zb (bZ 45)) with 45 in Hc. lia.
  - destruct (FormatUint_head a) as (c & l & Ec & Hc); [lia|]. rewrite Ec in E. simplify_eq.
    unfold is_digit in Hc. change (Zb (bZ 45)) with 45 in Hc. lia.
  - by apply FormatUint_inj.
Qed.

(** Bytes a decimal can contain: digits and the minus sign. *)
Lemma FormatInt_chars z : Forall (fun b => is_digit b \/ Zb b = 45) (FormatInt z).
Proof.
  unfold FormatInt. destruct (Z.ltb_spec z 0).
  - constructor; [by right|]. eapply Forall_impl; [apply FormatUint_digits; lia|]. by left.
  - eapply Forall_impl; [apply FormatUint_digits; lia|]. by left.
Qed.

Lemma FormatInt_no_sep (s : Byte.byte) z : Zb s < 45 -> s ∉ FormatInt z.
Proof.
  intros Hs Hin. pose proof (FormatInt_chars z) as H. rewrite Forall_forall in H.
  unfold is_digit in H. destruct (H s Hin); lia.
Qed.
Lemma FormatUint_no_sep (s : Byte.byte) z : 0 <= z -> Zb s < 48 -> s ∉ FormatUint z.
Proof.
  intros Hz Hs Hin. pose proof (FormatUint_digits z Hz) as H. rewrite Forall_forall in H.
  specialize (H s Hin). unfold is_digit in H. lia.
Qed.

(** * [strings.Split] and [strings.Join] on a one-byte separator *)

Fixpoint Split_sep (sep : Byte.byte) (s : bytes) : list bytes :=
  match s with
  | [] => [[]]
  | b :: s =>
      if bool_decide (b = sep) then [] :: Split_sep sep s
      else match Split_sep sep s with h :: t => (b :: h) :: t | [] => [[b]] end
  end.

Fixpoint Join_sep (sep : Byte.byte) (parts : list bytes) : bytes :=
  match parts with
  | [] => []
  | [p] => p
  | p :: rest => p ++ sep :: Join_sep sep rest
  end.

Lemma Split_sep_nonempty sep s : Split_sep sep s <> [].
Proof. destruct s as [|b s]; simpl; [done|]. case_bool_decide; [done|]. by destruct (Split_sep sep s). Qed.

Lemma Split_sep_none sep s : sep ∉ s -> Split_sep sep s = [s].
Proof.
  induction s as [|b s IH]; intros H; simpl; [done|].
  apply not_elem_of_cons in H as [Hb Hs]. rewrite bool_decide_eq_false_2 by done.
  by rewrite IH.
Qed.

Lemma Split_sep_app sep p s : sep ∉ p -> Split_sep sep (p ++ sep :: s) = p :: Split_sep sep s.
Proof.
  induction p as [|b p IH]; intros H; simpl; [by rewrite bool_decide_eq_true_2|].
  apply not_elem_of_cons in H as [Hb Hs]. rewrite bool_decide_eq_false_2 by done.
  by rewrite IH.
Qed.

Lemma Split_Join sep parts :
  parts <> [] -> Forall (fun p => sep ∉ p) parts -> Split_sep sep (Join_sep sep parts) = parts.
Proof.
  induction parts as [|p parts IH]; [done|]. intros _ [Hp H]%Forall_cons.
  destruct parts as [|q parts]; simpl; [by apply Split_sep_none|].
  rewrite Split_sep_app by done. f_equal. by apply IH.
Qed.

(** * Substrings *)

Fixpoint HasPrefix (s p : bytes) {struct p} : bool :=
  match p, s with
  | [], _ => true
  | b :: p, c :: s => bool_decide (b = c) && HasPrefix s p
  | _ :: _, [] => false
  end.

(** [strings.Contains] *)
Fixpoint Contains (s p : bytes) : bool :=
  HasPrefix s p || match s with [] => false | _ :: s => Contains s p end.

Definition TrimSuffix_byte (s : bytes) (b : Byte.byte) : bytes :=
  match rev s with c :: r => if bool_decide (c = b) then rev r else s | [] => s end.

Definition HasSuffix (s p : bytes) : bool := HasPrefix (rev s) (rev p).

(** * [strings.TrimSpace] *)

(** The encodings of the characters that count as space. *)
Definition spaces : list bytes :=
  map (fun z => [bZ z]) [9; 10; 11; 12; 13; 32] ++
  map (map bZ) ([[194; 133]; [194; 160]; [225; 154; 128]; [226; 128; 168]; [226; 128; 169]; [226; 128; 175]; [226; 129; 159]; [227; 128; 128]] ++
                map (fun z => [226; 128; z]) [128; 129; 130; 131; 132; 133; 134; 135; 136; 137; 138]).
Definition leading (sp : list bytes) (s : bytes) : option nat := length <$> List.find (HasPrefix s) sp.
Fixpoint trim_left (fuel : nat) (sp : list bytes) (s : bytes) : bytes :=
  match fuel, leading sp s with
  | S fuel, Some n => trim_left fuel sp (drop n s)
  | _, _ => s
  end.
Definition TrimSpace (s : bytes) : bytes :=
  let s := trim_left (length s) spaces s in rev (trim_left (length s) (map (@rev _) spaces) (rev s)).

Lemma HasPrefix_spec s p : HasPrefix s p = true <-> exists t, s = p ++ t.
Proof.
  revert s; induction p as [|b p IH]; intros s; simpl.
  - split; [by exists s|]. done.
  - destruct s as [|c s]; [split; [done|intros [? ?]; done]|].
    rewrite andb_true_iff, bool_decide_eq_true, IH. split.
    + intros [-> [t ->]]. by exists t.
    + intros [t E]. simplify_eq. split; [done|by exists t].
Qed.

(** * [base64.RawURLEncoding.DecodeString]

    The alphabet is A-Z a-z 0-9 - _ ; there is no padding; carriage returns and
    newlines are skipped; the bits beyond the last byte are ignored (the
    non-strict decoding). *)
Definition b64_val (b : Byte.byte) : option Z :=
  let z := Zb b in
  if (65 <=? z) && (z <=? 90) then Some (z - 65)
  else if (97 <=? z) && (z <=? 122) then Some (z - 71)
  else if (48 <=? z) && (z <=? 57) then Some (z + 4)
  else if z =? 45 then Some 62
  else if z =? 95 then Some 63
  else None.

Fixpoint b64_vals (s : bytes) : option (list Z) :=
  match s with
  | [] => Some []
  | b :: s =>
      if (Zb b =? 10) || (Zb b =? 13) then b64_vals s
      else match b64_val b, b64_vals s with
           | Some v, Some l => Some (v :: l)
           | _, _ => None
           end
  end.

Fixpoint b64_quanta (l : list Z) : option bytes :=
  match l with
  | [] => Some []
  | [_] => None
  | [a; b] => Some [bZ (a * 4 + b / 16)]
  | [a; b; c] => Some [bZ (a * 4 + b / 16); bZ (b * 16 + c / 4)]
  | a :: b :: c :: d :: l =>
      match b64_quanta l with
      | Some r => Some (bZ (a * 4 + b / 16) :: bZ (b * 16 + c / 4) :: bZ (c * 64 + d) :: r)
      | None => None
      end
  end.

Definition b64_raw_url_decode (s : bytes) : option bytes :=
  match b64_vals s with Some l => b64_quanta l | None => None end.

Example b64_hello : b64_raw_url_decode (go "aGVsbG8") = Some (go "hello").
Proof. vm_compute. reflexivity. Qed.
