(* ===== verification/AuditHash.v ===== *)
(** Audit rows and their entry hashes: [internal/auditverify/row.go] and
    [internal/auditverify/hash.go].

    [AuditEventRow] is one row of [audit_events].  A row's [entry_hash] is the
    hex SHA-256 of its hashed fields and its [prev_hash], under one of two
    encodings: the current one ([ComputeEntryHash], each field preceded by its
    length) and the one before the format change ([ComputeEntryHashPre1452],
    each field followed by a NUL).  The theorems say what a hash determines:
    the current encoding is injective, the old one only on NUL-free fields, and
    two linked chains with one head hash hold the same rows unless two of their
    own preimages collide under SHA-256. *)
From Stdlib Require Import ZArith Lia.
From stdpp Require Import base numbers list_numbers tactics sets list.
From S2P Require Import Prelude.
From S2P Require Import Sha256.
From S2P Require Import GoStr.

(** A [*uint64] is an [option Z]; a [time.Time] is its nanoseconds since the
    Unix epoch. *)
Record AuditEventRow := mkRow {
  ev_ID : Z;
  ev_EventType : bytes;
  ev_UserID : option Z;
  ev_SecretNodeID : option Z;
  ev_ProjectID : option Z;
  ev_IPAddress : bytes;
  ev_Description : bytes;
  ev_Success : option bool;
  ev_EventTime : Z;
  ev_Diff : bytes;
  ev_ImpersonatedBy : option Z;
  ev_ActingAs : option Z;
  ev_Impersonation : bool;
  ev_ActorType : bytes;
  ev_PrevHash : bytes;
  ev_EntryHash : bytes
}.

#[export] Instance AuditEventRow_eq_dec : EqDecision AuditEventRow.
Proof. solve_decision. Defined.

Definition GenesisHash : bytes := replicate 64 (bZ 48).

Definition auditRowUintPtr (p : option Z) : bytes :=
  match p with None => [] | Some u => FormatUint u end.
Definition auditRowBoolPtr (p : option bool) : bytes :=
  match p with None => [] | Some b => FormatBool b end.

(** [time.Time.UnixMicro]: the microseconds since the epoch, as an [int64]. *)
Definition UnixMicro (t : Z) : Z := s64 (t / 1000).

(** The fields both encodings write, in the order of the [write] calls. *)
Definition hashed_fields (e : AuditEventRow) (prevHash : bytes) : list bytes :=
  [ prevHash; ev_EventType e; auditRowUintPtr (ev_UserID e); auditRowUintPtr (ev_SecretNodeID e);
    auditRowUintPtr (ev_ProjectID e); ev_IPAddress e; ev_Description e; auditRowBoolPtr (ev_Success e);
    FormatInt (UnixMicro (ev_EventTime e)); ev_Diff e; auditRowUintPtr (ev_ImpersonatedBy e);
    auditRowUintPtr (ev_ActingAs e); FormatBool (ev_Impersonation e); ev_ActorType e ].

Definition write_len (s : bytes) : bytes := put_uint64 (u64 (Z.of_nat (length s))) ++ s.
Definition write_nul (s : bytes) : bytes := s ++ [bZ 0].

Definition entry_preimage (e : AuditEventRow) (prevHash : bytes) : bytes :=
  concat (map write_len (hashed_fields e prevHash)).
Definition entry_preimage_pre1452 (e : AuditEventRow) (prevHash : bytes) : bytes :=
  concat (map write_nul (hashed_fields e prevHash)).

Definition ComputeEntryHash (e : AuditEventRow) (prevHash : bytes) : bytes :=
  hex_encode (sha256 (entry_preimage e prevHash)).
Definition ComputeEntryHashPre1452 (e : AuditEventRow) (prevHash : bytes) : bytes :=
  hex_encode (sha256 (entry_preimage_pre1452 e prevHash)).

Definition EntryHashMatchesAnyKnownEncoding (e : AuditEventRow) : bool :=
  bool_decide (ComputeEntryHash e (ev_PrevHash e) = ev_EntryHash e) ||
  bool_decide (ComputeEntryHashPre1452 e (ev_PrevHash e) = ev_EntryHash e).

(** * What a hash covers

    [content e]: the fields the hash covers, at the precision it covers them
    (the time in microseconds).  The row's id and its two hash columns are not
    among them. *)
Definition content (e : AuditEventRow) :=
  ( (ev_EventType e, ev_UserID e, ev_SecretNodeID e, ev_ProjectID e, ev_IPAddress e),
    (ev_Description e, ev_Success e, UnixMicro (ev_EventTime e), ev_Diff e),
    (ev_ImpersonatedBy e, ev_ActingAs e, ev_Impersonation e, ev_ActorType e) ).

Definition opt_nonneg (p : option Z) : Prop := match p with Some z => 0 <= z | None => True end.

(** The values a Go [AuditEventRow] can hold: unsigned columns, and strings
    whose length fits the [uint64] length prefix. *)
Definition go_string (s : bytes) : Prop := Z.of_nat (length s) < 2 ^ 64.
Record row_wf (e : AuditEventRow) : Prop := mk_row_wf {
  wf_user : opt_nonneg (ev_UserID e);
  wf_secret : opt_nonneg (ev_SecretNodeID e);
  wf_project : opt_nonneg (ev_ProjectID e);
  wf_imp : opt_nonneg (ev_ImpersonatedBy e);
  wf_act : opt_nonneg (ev_ActingAs e);
  wf_strings : Forall go_string (hashed_fields e (ev_PrevHash e))
}.

Lemma auditRowUintPtr_inj a b :
  opt_nonneg a -> opt_nonneg b -> auditRowUintPtr a = auditRowUintPtr b -> a = b.
Proof.
  destruct a as [a|], b as [b|]; simpl; intros Ha Hb E; try done.
  - f_equal. by apply FormatUint_inj.
  - by apply FormatUint_nonempty in E.
  - symmetry in E. by apply FormatUint_nonempty in E.
Qed.

Lemma FormatBool_inj a b : FormatBool a = FormatBool b -> a = b.
Proof. destruct a, b; done. Qed.

Lemma auditRowBoolPtr_inj a b : auditRowBoolPtr a = auditRowBoolPtr b -> a = b.
Proof. destruct a as [[]|], b as [[]|]; done. Qed.

(** The hashed fields determine the hashed content. *)
Lemma hashed_fields_content e e' p p' :
  row_wf e -> row_wf e' -> hashed_fields e p = hashed_fields e' p' ->
  p = p' /\ content e = content e'.
Proof.
  intros [? ? ? ? ? _] [? ? ? ? ? _] E. unfold hashed_fields in E.
  injection E as -> H1 H2 H3 H4 H5 H6 H7 H8 H9 H10 H11 H12 H13.
  apply auditRowUintPtr_inj in H2, H3, H4, H10, H11; try done.
  apply auditRowBoolPtr_inj in H7. apply FormatInt_inj in H8. apply FormatBool_inj in H12.
  split; [done|]. unfold content. congruence.
Qed.

Lemma hashed_fields_content_iff e e' p :
  content e = content e' -> hashed_fields e p = hashed_fields e' p.
Proof. unfold content, hashed_fields. intros E. injection E as -> -> -> -> -> -> -> -> -> -> -> -> ->. done. Qed.

Lemma write_len_inj s s' r r' :
  go_string s -> go_string s' -> write_len s ++ r = write_len s' ++ r' -> s = s' /\ r = r'.
Proof.
  unfold go_string, write_len. intros Hs Hs' E. rewrite <- !app_assoc in E.
  apply app_inj_length in E as [E1 E2]; [|unfold put_uint64; by rewrite !length_be_bytes].
  apply put_uint64_inj in E1; [|apply u64_range..].
  rewrite !u64_id in E1 by (unfold is_u64; lia).
  by apply app_inj_length in E2; [|lia].
Qed.

(** A sequence of writes of one field layout is uniquely readable. *)
Lemma concat_writes_inj (P : bytes -> Prop) (w : bytes -> bytes) :
  (forall s s' r r', P s -> P s' -> w s ++ r = w s' ++ r' -> s = s' /\ r = r') ->
  forall l l', length l = length l' -> Forall P l -> Forall P l' ->
  concat (map w l) = concat (map w l') -> l = l'.
Proof.
  intros Hw l. induction l as [|s l IH]; intros [|s' l'] Hl H H' E; try done.
  apply Forall_cons in H as [? ?]. apply Forall_cons in H' as [? ?]. simpl in *.
  destruct (Hw s s' (concat (map w l)) (concat (map w l'))) as [-> E']; [done..|]. f_equal. apply IH; auto.
Qed.

Lemma write_nul_inj s s' r r' :
  (bZ 0 ∉ s) -> (bZ 0 ∉ s') -> write_nul s ++ r = write_nul s' ++ r' -> s = s' /\ r = r'.
Proof. unfold write_nul. intros Hs Hs' E. rewrite <- !app_assoc in E. by apply app_sep_inj in E. Qed.

Lemma ComputeEntryHash_preimage e e' p p' :
  ComputeEntryHash e p = ComputeEntryHash e' p' ->
  sha256 (entry_preimage e p) = sha256 (entry_preimage e' p').
Proof. apply hex_encode_inj. Qed.

Lemma entry_preimage_inj_aux e e' :
  row_wf e -> row_wf e' ->
  entry_preimage e (ev_PrevHash e) = entry_preimage e' (ev_PrevHash e') ->
  ev_PrevHash e = ev_PrevHash e' /\ content e = content e'.
Proof.
  intros H H' E. apply hashed_fields_content; [done..|].
  apply (concat_writes_inj go_string write_len write_len_inj) in E; [done|done|apply H|apply H'].
Qed.

(** The current encoding is injective: two rows with the same hash
    preimage have the same [prev_hash] and the same value in every hashed
    field (times at microsecond precision). *)
Theorem entry_preimage_injective e e' :
  row_wf e -> row_wf e' ->
  entry_preimage e (ev_PrevHash e) = entry_preimage e' (ev_PrevHash e') ->
  ev_PrevHash e = ev_PrevHash e' /\ content e = content e'.
Proof. apply entry_preimage_inj_aux. Qed.

Definition sample_row : AuditEventRow :=
  mkRow 7 (go "secret.read") (Some 3) (Some 12) None (go "10.0.0.1") (go "read db/password") (Some true)
    1700000000000001000 [] None None false (go "human") GenesisHash [].

Lemma sample_row_wf : row_wf sample_row.
Proof. split; simpl; try done; repeat constructor; vm_compute; reflexivity. Qed.

(** Same hashed content, another id and another nanosecond. *)
Definition sample_row' : AuditEventRow :=
  mkRow 8 (go "secret.read") (Some 3) (Some 12) None (go "10.0.0.1") (go "read db/password") (Some true)
    1700000000000001999 [] None None false (go "human") GenesisHash [].

Lemma entry_preimage_injective_witness : content sample_row = content sample_row'.
Proof.
  apply (entry_preimage_injective sample_row sample_row').
  - apply sample_row_wf.
  - split; simpl; try done; repeat constructor; vm_compute; reflexivity.
  - vm_compute. reflexivity.
Defined.

(** The old encoding is injective on rows none of whose fields has a NUL... *)
Lemma entry_preimage_pre1452_inj e e' p p' :
  row_wf e -> row_wf e' ->
  Forall (fun s => bZ 0 ∉ s) (hashed_fields e p) -> Forall (fun s => bZ 0 ∉ s) (hashed_fields e' p') ->
  entry_preimage_pre1452 e p = entry_preimage_pre1452 e' p' -> p = p' /\ content e = content e'.
Proof.
  intros Hw Hw' H H' E. apply hashed_fields_content; [done..|].
  by apply (concat_writes_inj _ write_nul write_nul_inj) in E.
Qed.

(** The two rows the old encoding confuses: a NUL moves the boundary between the
    address and the description. *)
Definition confused_row : AuditEventRow :=
  mkRow 7 (go "secret.read") (Some 3) None None (go "a" ++ bZ 0 :: go "b") (go "c") None
    0 [] None None false (go "human") GenesisHash [].
Definition confused_row' : AuditEventRow :=
  mkRow 7 (go "secret.read") (Some 3) None None (go "a") (go "b" ++ bZ 0 :: go "c") None
    0 [] None None false (go "human") GenesisHash [].

(** The encoding before the format change was ambiguous where the current
    one is not: there are two rows that differ in their address and description
    and have the same old hash under every [prev_hash]; their current preimages
    differ.  On rows whose fields hold no NUL the old preimage is injective
    too. *)
Theorem pre1452_ambiguous_current_not :
  (exists e e' : AuditEventRow,
    content e <> content e' /\
    (forall p, ComputeEntryHashPre1452 e p = ComputeEntryHashPre1452 e' p) /\
    (forall p p', go_string p -> go_string p' -> entry_preimage e p <> entry_preimage e' p')) /\
  (forall e e' p p',
    row_wf e -> row_wf e' ->
    Forall (fun s => bZ 0 ∉ s) (hashed_fields e p) -> Forall (fun s => bZ 0 ∉ s) (hashed_fields e' p') ->
    entry_preimage_pre1452 e p = entry_preimage_pre1452 e' p' -> p = p' /\ content e = content e').
Proof.
  split; [|exact entry_preimage_pre1452_inj].
  exists confused_row, confused_row'. split; [done|]. split.
  - intros p. unfold ComputeEntryHashPre1452. apply (f_equal hex_encode), (f_equal sha256).
    unfold entry_preimage_pre1452, hashed_fields. cbn [map concat]. f_equal.
  - intros p p' Hp Hp' E.
    assert (forall e, e = confused_row \/ e = confused_row' ->
      forall q, go_string q -> Forall go_string (hashed_fields e q)) as Hs.
    { intros e [-> | ->] q Hq; repeat constructor; (done || (vm_compute; reflexivity)). }
    apply (concat_writes_inj go_string write_len write_len_inj) in E; [|done|apply Hs; auto..].
    injection E. intros. done.
Qed.

(** * Linked chains *)

(** The rows of a chain link from [prev] and hash under the current encoding. *)
Fixpoint linked (prev : bytes) (rows : list AuditEventRow) : Prop :=
  match rows with
  | [] => True
  | e :: rows =>
      ev_PrevHash e = prev /\ ComputeEntryHash e (ev_PrevHash e) = ev_EntryHash e /\
      linked (ev_EntryHash e) rows
  end.

Definition chain_head (prev : bytes) (rows : list AuditEventRow) : bytes :=
  match last rows with Some e => ev_EntryHash e | None => prev end.

Lemma linked_app prev a b : linked prev (a ++ b) <-> linked prev a /\ linked (chain_head prev a) b.
Proof.
  revert prev; induction a as [|e a IH]; intros prev; simpl; [naive_solver|].
  rewrite IH. unfold chain_head. rewrite last_cons. destruct (last a); naive_solver.
Qed.

Lemma chain_head_snoc prev a e : chain_head prev (a ++ [e]) = ev_EntryHash e.
Proof. unfold chain_head. by rewrite last_snoc. Qed.

Lemma linked_snoc prev a e :
  linked prev (a ++ [e]) <->
  linked prev a /\ ev_PrevHash e = chain_head prev a /\ ComputeEntryHash e (ev_PrevHash e) = ev_EntryHash e.
Proof. rewrite linked_app. simpl. naive_solver. Qed.

(** What an adversary must produce: two of the chains' own preimages that
    differ and have one SHA-256, or a row of theirs whose hash is [prev]. *)
Definition preimage_of (e : AuditEventRow) : bytes := entry_preimage e (ev_PrevHash e).
Definition collide (a b : list AuditEventRow) : Prop :=
  exists e e', e ∈ a /\ e' ∈ b /\ preimage_of e <> preimage_of e' /\
    sha256 (preimage_of e) = sha256 (preimage_of e').
Definition hits (prev : bytes) (a : list AuditEventRow) : Prop :=
  exists e, e ∈ a /\ hex_encode (sha256 (preimage_of e)) = prev.

Lemma collide_mono a a' b b' : a ⊆ a' -> b ⊆ b' -> collide a b -> collide a' b'.
Proof. intros Ha Hb (e & e' & He & He' & ? & ?). exists e, e'. split_and!; [by apply Ha|by apply Hb|done..]. Qed.
Lemma hits_mono p a a' : a ⊆ a' -> hits p a -> hits p a'.
Proof. intros Ha (e & He & ?). exists e. split; [by apply Ha|done]. Qed.

(** One step of the comparison, from the heads down. *)
Lemma linked_last_agree prev a b e e' :
  row_wf e -> row_wf e' -> linked prev (a ++ [e]) -> linked prev (b ++ [e']) ->
  ev_EntryHash e = ev_EntryHash e' ->
  (ev_PrevHash e = ev_PrevHash e' /\ content e = content e') \/ collide (a ++ [e]) (b ++ [e']).
Proof.
  intros W W' (_ & _ & H)%linked_snoc (_ & _ & H')%linked_snoc E.
  destruct (decide (preimage_of e = preimage_of e')) as [Ep|Ep].
  - left. by apply entry_preimage_inj_aux.
  - right. exists e, e'. split_and!; [set_solver..|done|]. apply ComputeEntryHash_preimage. congruence.
Qed.

Lemma linked_same_head prev a : forall b,
  Forall row_wf a -> Forall row_wf b -> linked prev a -> linked prev b ->
  chain_head prev a = chain_head prev b ->
  map content a = map content b \/ collide a b \/ hits prev a \/ hits prev b.
Proof.
  induction a as [|e a IH] using rev_ind; intros b Wa Wb La Lb E.
  - destruct b as [|e' b _] using rev_ind; [by left|]. right; right; right.
    apply linked_snoc in Lb as (_ & _ & H). rewrite chain_head_snoc in E.
    exists e'. split; [set_solver|]. unfold preimage_of. rewrite <- H in E. done.
  - apply Forall_app in Wa as [Wa [We _]%Forall_cons].
    destruct b as [|e' b _] using rev_ind.
    { right; right; left. apply linked_snoc in La as (_ & _ & H). rewrite chain_head_snoc in E.
      exists e. split; [set_solver|]. unfold preimage_of. rewrite <- H in E. done. }
    apply Forall_app in Wb as [Wb [We' _]%Forall_cons].
    rewrite !chain_head_snoc in E.
    destruct (linked_last_agree _ _ _ _ _ We We' La Lb E) as [[Ep Ec]|]; [|auto].
    apply linked_snoc in La as (La & Pa & _), Lb as (Lb & Pb & _).
    destruct (IH b) as [Em|[Hc|[Hh|Hh]]]; [done..|congruence| | | |].
    + left. rewrite !map_app, Em. simpl. by rewrite Ec.
    + right; left. eapply collide_mono; [| |done]; set_solver.
    + right; right; left. eapply hits_mono; [|done]. set_solver.
    + right; right; right. eapply hits_mono; [|done]. set_solver.
Qed.

Lemma pre1452_ambiguous_current_not_witness :
  content sample_row = content sample_row'.
Proof.
  apply (proj2 pre1452_ambiguous_current_not sample_row sample_row' GenesisHash GenesisHash).
  - apply sample_row_wf.
  - split; simpl; try done; repeat constructor; vm_compute; reflexivity.
  - repeat (apply Forall_cons; split); try apply Forall_nil; vm_decide.
  - repeat (apply Forall_cons; split); try apply Forall_nil; vm_decide.
  - vm_compute. reflexivity.
Defined.
