(* ===== verification/AuditCheckpoint.v ===== *)
(** Signed audit checkpoints, the high-water mark, the retention anchor and the
    host-local witness file: [internal/auditverify/checkpoint.go],
    [retention.go] and [witness.go].

    A checkpoint is an HMAC over a canonical byte string; the high-water mark
    and the retention anchor are stored as separator-joined strings with their
    own MACs.  The theorems: the canonical strings are injective and the kinds
    of message signed under the one key never coincide; the stored forms parse
    back to what was encoded; the witness file only ever moves up. *)
From Stdlib Require Import ZArith Lia.
From stdpp Require Import base numbers tactics sets list.
From S2P Require Import Prelude.
From S2P Require Import Sha256.
From S2P Require Import GoStr.

Definition NUL : Byte.byte := bZ 0.
Definition US : Byte.byte := bZ 31.

(** * Checkpoints *)

Record Checkpoint := mkCheckpoint {
  cp_ID : Z;
  cp_ChainedEvents : Z;
  cp_HeadID : Z;
  cp_HeadHash : bytes;
  cp_KeyVersion : bytes;
  cp_Signature : bytes;
  cp_AnchorToken : bytes;
  cp_AnchoredAt : option Z;
  cp_AnchorProvider : bytes;
  cp_Seals : Z;
  cp_SealDigest : bytes
}.

Record sealBinding := mkBinding { sb_N : Z; sb_Digest : bytes }.

(** [fmt.Sprintf] of NUL-separated fields: [Join_sep NUL]. *)
Definition checkpointCanonical (cp : Checkpoint) : bytes :=
  if negb (cp_Seals cp =? 0) then
    Join_sep NUL [go "v2"; FormatInt (cp_Seals cp); cp_SealDigest cp; FormatInt (cp_ChainedEvents cp);
                  FormatUint (cp_HeadID cp); cp_HeadHash cp; cp_KeyVersion cp]
  else
    Join_sep NUL [go "v1"; FormatInt (cp_ChainedEvents cp); FormatUint (cp_HeadID cp); cp_HeadHash cp;
                  cp_KeyVersion cp].

Definition bound (cp : Checkpoint) (b : sealBinding) : Checkpoint :=
  mkCheckpoint (cp_ID cp) (cp_ChainedEvents cp) (cp_HeadID cp) (cp_HeadHash cp) (cp_KeyVersion cp)
    (cp_Signature cp) (cp_AnchorToken cp) (cp_AnchoredAt cp) (cp_AnchorProvider cp) (sb_N b) (sb_Digest b).

Definition SignCheckpoint (cp : Checkpoint) (key : bytes) : bytes :=
  hex_encode (hmac_sha256 key (checkpointCanonical cp)).
Definition CheckpointSignatureValid (cp : Checkpoint) (key : bytes) : bool :=
  bool_decide (SignCheckpoint cp key = cp_Signature cp).

(** * The high-water mark *)

Definition auditHighWaterSep : Byte.byte := US.

Definition EncodeHighWater (cp : Checkpoint) (sig : bytes) : bytes :=
  if 0 <? cp_Seals cp then
    Join_sep auditHighWaterSep
      [go "v2"; FormatInt (cp_Seals cp); cp_SealDigest cp; FormatInt (cp_ChainedEvents cp);
       FormatUint (cp_HeadID cp); cp_HeadHash cp; cp_KeyVersion cp; sig]
  else
    Join_sep auditHighWaterSep
      [go "v1"; FormatInt (cp_ChainedEvents cp); FormatUint (cp_HeadID cp); cp_HeadHash cp;
       cp_KeyVersion cp; sig].

(** The v2 prefix: the seal count and digest, and the rest as v1 parts. *)
Definition parse_v2_prefix (parts : list bytes) : option (Z * bytes * list bytes) :=
  match parts with
  | p0 :: p1 :: p2 :: rest =>
      if (length parts =? 8)%nat && bool_decide (p0 = go "v2") then
        match ParseInt p1 with
        | Some n => if (n <? 1) || bool_decide (p2 = []) then None else Some (n, p2, go "v1" :: rest)
        | None => None
        end
      else Some (0, [], parts)
  | _ => Some (0, [], parts)
  end.

Definition ParseHighWater (val : bytes) : option (Checkpoint * bytes) :=
  match parse_v2_prefix (Split_sep auditHighWaterSep val) with
  | Some (seals, digest, [p0; p1; p2; p3; p4; p5]) =>
      if bool_decide (p0 = go "v1") then
        match ParseInt p1, ParseUint p2 with
        | Some chained, Some headID =>
            Some (mkCheckpoint 0 chained headID p3 p4 [] [] None [] seals digest, p5)
        | _, _ => None
        end
      else None
  | _ => None
  end.

Definition cmpZ (a b : Z) : Z := if a <? b then -1 else if b <? a then 1 else 0.
Definition HighWaterOrder (a b : Checkpoint) : Z :=
  if negb (cp_Seals a =? cp_Seals b) then cmpZ (cp_Seals a) (cp_Seals b)
  else cmpZ (cp_ChainedEvents a) (cp_ChainedEvents b).

Definition HighWaterSigMatches (cp : Checkpoint) (sig key : bytes) : bool :=
  bool_decide (SignCheckpoint cp key = sig).

(** * The retention anchor *)

Record RetentionAnchor := mkAnchor {
  ra_RowID : Z; ra_PrevHash : bytes; ra_EntryHash : bytes; ra_PurgedEvents : Z }.

Definition auditRetentionAnchorSep : Byte.byte := US.

Definition retentionAnchorCanonical (rowID : Z) (prevHash entryHash keyVersion : bytes) : bytes :=
  Join_sep NUL [go "retanchor-v1"; FormatUint rowID; prevHash; entryHash; keyVersion].
Definition retentionAnchorCanonicalV2 (rowID : Z) (prevHash entryHash : bytes) (purged : Z) (keyVersion : bytes) : bytes :=
  Join_sep NUL [go "retanchor-v2"; FormatUint rowID; prevHash; entryHash; FormatInt purged; keyVersion].

Definition SignRetentionAnchorV2 rowID prevHash entryHash purged keyVersion (key : bytes) : bytes :=
  hex_encode (hmac_sha256 key (retentionAnchorCanonicalV2 rowID prevHash entryHash purged keyVersion)).
Definition SignRetentionAnchor rowID prevHash entryHash keyVersion (key : bytes) : bytes :=
  hex_encode (hmac_sha256 key (retentionAnchorCanonical rowID prevHash entryHash keyVersion)).

(** [Layout] is the string "v1" or "v2". *)
Record StoredRetentionAnchor := mkStored {
  sa_Layout : bytes; sa_RowID : Z; sa_PrevHash : bytes; sa_EntryHash : bytes;
  sa_PurgedEvents : Z; sa_KeyVersion : bytes; sa_Signature : bytes }.

Definition ParseRetentionAnchor (val : bytes) : option (Z * bytes * bytes * bytes * bytes) :=
  match Split_sep auditRetentionAnchorSep val with
  | [p0; p1; p2; p3; p4; p5] =>
      if bool_decide (p0 = go "v1") then
        match ParseUint p1 with
        | Some id => if id =? 0 then None else Some (id, p2, p3, p4, p5)
        | None => None
        end
      else None
  | _ => None
  end.

Definition ParseRetentionAnchorValue (val : bytes) : option StoredRetentionAnchor :=
  match Split_sep auditRetentionAnchorSep val with
  | [p0; p1; p2; p3; p4; p5; p6] =>
      if bool_decide (p0 = go "v2") then
        match ParseUint p1 with
        | Some id =>
            if id =? 0 then None
            else match ParseInt p4 with
                 | Some purged =>
                     if purged <? 0 then None else Some (mkStored (go "v2") id p2 p3 purged p5 p6)
                 | None => None
                 end
        | None => None
        end
      else None
  | [p0; _; _; _; _; _] =>
      if bool_decide (p0 = go "v1") then
        match ParseRetentionAnchor val with
        | Some (rowID, prevHash, entryHash, keyVersion, sig) =>
            Some (mkStored (go "v1") rowID prevHash entryHash 0 keyVersion sig)
        | None => None
        end
      else None
  | _ => None
  end.

Definition RetentionAnchorSigMatches rowID prevHash entryHash keyVersion (sig key : bytes) : bool :=
  bool_decide (SignRetentionAnchor rowID prevHash entryHash keyVersion key = sig).

Definition SigMatches (a : StoredRetentionAnchor) (key : bytes) : bool :=
  if bool_decide (sa_Layout a = go "v1") then
    RetentionAnchorSigMatches (sa_RowID a) (sa_PrevHash a) (sa_EntryHash a) (sa_KeyVersion a) (sa_Signature a) key
  else
    bool_decide (SignRetentionAnchorV2 (sa_RowID a) (sa_PrevHash a) (sa_EntryHash a) (sa_PurgedEvents a)
                   (sa_KeyVersion a) key = sa_Signature a).

(** * Canonical strings are injective *)

(** Separator-joined fields are uniquely readable when all but the last field
    are free of the separator. *)
Lemma Join_sep_inj sep l : forall l',
  length l = length l' ->
  Forall (fun p => sep ∉ p) (removelast l) -> Forall (fun p => sep ∉ p) (removelast l') ->
  Join_sep sep l = Join_sep sep l' -> l = l'.
Proof.
  induction l as [|a [|b l] IH]; intros [|a' [|b' l']] Hl H H' E; try done; [simpl in *; congruence|].
  cbn [removelast] in H, H'. apply Forall_cons in H as [Ha H], H' as [Ha' H'].
  change (a ++ sep :: Join_sep sep (b :: l) = a' ++ sep :: Join_sep sep (b' :: l')) in E.
  apply app_sep_inj in E as [-> E]; [|done..]. f_equal. apply IH; auto.
Qed.

Lemma NUL_FormatInt z : NUL ∉ FormatInt z.
Proof. by apply FormatInt_no_sep. Qed.
Lemma NUL_FormatUint z : 0 <= z -> NUL ∉ FormatUint z.
Proof. intros. by apply FormatUint_no_sep. Qed.
Lemma US_FormatInt z : US ∉ FormatInt z.
Proof. by apply FormatInt_no_sep. Qed.
Lemma US_FormatUint z : 0 <= z -> US ∉ FormatUint z.
Proof. intros. by apply FormatUint_no_sep. Qed.
#[export] Hint Resolve NUL_FormatInt NUL_FormatUint US_FormatInt US_FormatUint : kx.

Ltac nosep := repeat (apply Forall_cons; split); try apply Forall_nil; eauto with kx;
  try (vm_decide).

(** Fields a checkpoint row can hold. *)
Record cp_wf (cp : Checkpoint) : Prop := mk_cp_wf {
  cpw_head : is_u64 (cp_HeadID cp);
  cpw_hash : NUL ∉ cp_HeadHash cp;
  cpw_digest : NUL ∉ cp_SealDigest cp
}.

(** What a checkpoint signature covers. *)
Definition cp_signed (cp : Checkpoint) :=
  (cp_Seals cp, if cp_Seals cp =? 0 then [] else cp_SealDigest cp, cp_ChainedEvents cp, cp_HeadID cp,
   cp_HeadHash cp, cp_KeyVersion cp).

Lemma checkpointCanonical_inj cp cp' :
  cp_wf cp -> cp_wf cp' -> checkpointCanonical cp = checkpointCanonical cp' -> cp_signed cp = cp_signed cp'.
Proof.
  intros [[Hu _] Hh Hd] [[Hu' _] Hh' Hd'] E. unfold checkpointCanonical, cp_signed in *.
  destruct (Z.eqb_spec (cp_Seals cp) 0) as [Hs|Hs], (Z.eqb_spec (cp_Seals cp') 0) as [Hs'|Hs'];
    cbn [negb] in E; try discriminate E.
  - apply Join_sep_inj in E; [|done|cbn [removelast]; nosep..].
    injection E as H1 H2 -> ->. apply FormatInt_inj in H1. apply FormatUint_inj in H2; [|done..]. congruence.
  - apply Join_sep_inj in E; [|done|cbn [removelast]; nosep..].
    injection E as H0 -> H1 H2 -> ->. apply FormatInt_inj in H0, H1. apply FormatUint_inj in H2; [|done..].
    congruence.
Qed.

(** Same for a stored retention anchor. *)
Definition sa_canonical (a : StoredRetentionAnchor) : bytes :=
  if bool_decide (sa_Layout a = go "v1")
  then retentionAnchorCanonical (sa_RowID a) (sa_PrevHash a) (sa_EntryHash a) (sa_KeyVersion a)
  else retentionAnchorCanonicalV2 (sa_RowID a) (sa_PrevHash a) (sa_EntryHash a) (sa_PurgedEvents a) (sa_KeyVersion a).

Definition sa_signed (a : StoredRetentionAnchor) :=
  (bool_decide (sa_Layout a = go "v1"), sa_RowID a, sa_PrevHash a, sa_EntryHash a,
   if bool_decide (sa_Layout a = go "v1") then 0 else sa_PurgedEvents a, sa_KeyVersion a).

Record sa_wf (a : StoredRetentionAnchor) : Prop := mk_sa_wf {
  saw_row : is_u64 (sa_RowID a);
  saw_prev : NUL ∉ sa_PrevHash a;
  saw_entry : NUL ∉ sa_EntryHash a
}.

Lemma sa_canonical_inj a a' : sa_wf a -> sa_wf a' -> sa_canonical a = sa_canonical a' -> sa_signed a = sa_signed a'.
Proof.
  intros [[Hu _] Hp He] [[Hu' _] Hp' He'] E. unfold sa_canonical, sa_signed in *.
  destruct (bool_decide (sa_Layout a = _)), (bool_decide (sa_Layout a' = _)); try discriminate E.
  - apply Join_sep_inj in E; [|done|cbn [removelast]; nosep..].
    injection E as H1 -> -> ->. apply FormatUint_inj in H1; [|done..]. congruence.
  - apply Join_sep_inj in E; [|done|cbn [removelast]; nosep..].
    injection E as H1 -> -> H2 ->. apply FormatUint_inj in H1; [|done..]. apply FormatInt_inj in H2. congruence.
Qed.

Lemma SigMatches_mac a key :
  SigMatches a key = bool_decide (hex_encode (hmac_sha256 key (sa_canonical a)) = sa_Signature a).
Proof. unfold SigMatches, sa_canonical. by destruct (bool_decide (sa_Layout a = _)). Qed.

(** * Round trips of the stored forms *)

Lemma Split_sep_no_sep sep s : Forall (fun p => sep ∉ p) (Split_sep sep s).
Proof.
  induction s as [|b s IH]; simpl; [by apply Forall_singleton, not_elem_of_nil|].
  case_bool_decide as Hb; [apply Forall_cons; split; [apply not_elem_of_nil|done]|].
  destruct (Split_sep sep s) as [|p ps]; [by apply Forall_singleton; set_solver|].
  apply Forall_cons in IH as [? ?]. apply Forall_cons; split; [set_solver|done].
Qed.

(** What a mark carries: the other columns of a checkpoint are not stored. *)
Definition mark_of (cp : Checkpoint) : Checkpoint :=
  mkCheckpoint 0 (cp_ChainedEvents cp) (cp_HeadID cp) (cp_HeadHash cp) (cp_KeyVersion cp) [] [] None []
    (cp_Seals cp) (cp_SealDigest cp).

(** A mark [EncodeHighWater] represents: no separator in a field, machine-width
    numbers, a digest exactly when there are seals. *)
Record mark_wf (cp : Checkpoint) (sig : bytes) : Prop := mk_mark_wf {
  mw_chained : is_s64 (cp_ChainedEvents cp);
  mw_head : is_u64 (cp_HeadID cp);
  mw_seals : 0 <= cp_Seals cp < 2 ^ 63;
  mw_digest : if cp_Seals cp =? 0 then cp_SealDigest cp = [] else cp_SealDigest cp <> [];
  mw_sep : Forall (fun p => US ∉ p) [cp_SealDigest cp; cp_HeadHash cp; cp_KeyVersion cp; sig]
}.

Lemma ParseHighWater_Encode cp sig :
  mark_wf cp sig -> ParseHighWater (EncodeHighWater cp sig) = Some (mark_of cp, sig).
Proof.
  intros [Hc Hh Hs Hd Hsep]. unfold ParseHighWater, EncodeHighWater, auditHighWaterSep.
  repeat (apply Forall_cons in Hsep as [? Hsep]).
  destruct (Z.eqb_spec (cp_Seals cp) 0) as [E0|E0].
  - rewrite (proj2 (Z.ltb_ge 0 (cp_Seals cp))) by lia.
    rewrite Split_Join; [|done|destruct Hh; nosep].
    cbn [parse_v2_prefix length]. simpl (_ =? _)%nat. cbn [andb]. rewrite bool_decide_eq_true_2 by done.
    rewrite ParseInt_FormatInt, ParseUint_FormatUint by done. unfold mark_of. by rewrite E0, Hd.
  - rewrite (proj2 (Z.ltb_lt 0 (cp_Seals cp))) by lia.
    rewrite Split_Join; [|done|destruct Hh; nosep].
    cbn [parse_v2_prefix length]. simpl (_ =? _)%nat. rewrite bool_decide_eq_true_2 by done. cbn [andb].
    rewrite ParseInt_FormatInt by (unfold is_s64; lia). rewrite (proj2 (Z.ltb_ge _ 1)) by lia.
    rewrite bool_decide_eq_false_2 by done. cbn [orb]. rewrite bool_decide_eq_true_2 by done.
    by rewrite ParseInt_FormatInt, ParseUint_FormatUint.
Qed.

(** Everything the parser accepts is a well-formed mark. *)
Lemma ParseHighWater_wf val cp sig :
  ParseHighWater val = Some (cp, sig) -> mark_wf cp sig /\ mark_of cp = cp.
Proof.
  unfold ParseHighWater, auditHighWaterSep. pose proof (Split_sep_no_sep US val) as Hsep.
  destruct (parse_v2_prefix (Split_sep US val)) as [[[seals digest] ps]|] eqn:Ep; [|done].
  assert (0 <= seals < 2 ^ 63 /\ (if seals =? 0 then digest = [] else digest <> []) /\
          (US ∉ digest) /\ Forall (fun p => US ∉ p) ps) as (Hs & Hd & Hsd & Hps).
  { unfold parse_v2_prefix in Ep. revert Hsep Ep. generalize (Split_sep US val) as parts. intros parts Hsep Ep.
    assert (US ∉ ([] : bytes)) by apply not_elem_of_nil.
    destruct parts as [|p0 [|p1 [|p2 rest]]]; [injection Ep as <- <- <-; split_and!; [lia|lia|done..]..|].
    destruct ((length _ =? 8)%nat && _); [|injection Ep as <- <- <-; split_and!; [lia|lia|done..]].
    destruct (ParseInt p1) as [n|] eqn:En; [|done]. apply ParseInt_range in En.
    destruct (Z.ltb_spec n 1); [done|]. case_bool_decide; [done|]. cbn [orb] in Ep. simplify_eq.
    repeat (apply Forall_cons in Hsep as [? Hsep]). unfold is_s64 in En.
    split_and!; [lia|lia|by rewrite (proj2 (Z.eqb_neq _ _)) by lia|done|].
    apply Forall_cons; split; [vm_decide|done]. }
  destruct ps as [|p0 [|p1 [|p2 [|p3 [|p4 [|p5 [|]]]]]]]; try done.
  case_bool_decide; [|done]. destruct (ParseInt p1) eqn:E1, (ParseUint p2) eqn:E2; intros [=]; subst.
  repeat (apply Forall_cons in Hps as [? Hps]).
  apply ParseInt_range in E1. apply ParseUint_range in E2.
  split; [|done]. split; simpl; auto.
Qed.

(** The high-water mark survives its stored form: a well-formed mark parses
    back to itself, with and without accepted-loss seals; and whatever the
    parser accepts, re-encoded, parses to the same mark and signature. *)
Theorem HighWater_roundtrip :
  (forall cp sig, mark_wf cp sig -> ParseHighWater (EncodeHighWater cp sig) = Some (mark_of cp, sig)) /\
  (forall val cp sig, ParseHighWater val = Some (cp, sig) ->
     ParseHighWater (EncodeHighWater cp sig) = Some (cp, sig)).
Proof.
  split; [apply ParseHighWater_Encode|]. intros val cp sig H.
  apply ParseHighWater_wf in H as [Hw Hm]. rewrite <- Hm at 2. by apply ParseHighWater_Encode.
Qed.

Definition sample_mark : Checkpoint :=
  mkCheckpoint 9 120 456 (go "ab12") (go "kv-3") (go "sig") [] None [] 2 (go "d1").

Lemma HighWater_roundtrip_witness :
  ParseHighWater (EncodeHighWater sample_mark (go "mac")) = Some (mark_of sample_mark, go "mac").
Proof.
  apply HighWater_roundtrip. split; [vm_compute; split; discriminate || reflexivity..|done|].
  repeat (apply Forall_cons; split); try apply Forall_nil; vm_decide.
Defined.

(** * The order of marks *)

Lemma HighWaterOrder_le a b :
  HighWaterOrder a b <= 0 <->
  cp_Seals a < cp_Seals b \/ (cp_Seals a = cp_Seals b /\ cp_ChainedEvents a <= cp_ChainedEvents b).
Proof. unfold HighWaterOrder, cmpZ. kx_crush. Qed.

Lemma HighWaterOrder_ge a b :
  0 <= HighWaterOrder a b <->
  cp_Seals b < cp_Seals a \/ (cp_Seals a = cp_Seals b /\ cp_ChainedEvents b <= cp_ChainedEvents a).
Proof. unfold HighWaterOrder, cmpZ. kx_crush. Qed.

Lemma HighWaterOrder_trans a b c :
  HighWaterOrder a b <= 0 -> HighWaterOrder b c <= 0 -> HighWaterOrder a c <= 0.
Proof. rewrite !HighWaterOrder_le. lia. Qed.

(** * The witness file

    What is at the witness path, and the system calls of a write; [E] is an
    operating-system error.  A fault oracle says which calls fail. *)
Section witness.
Context {E : Type}.

Inductive witness_file := WAbsent | WNotRegular | WUnreadable (e : E) | WFile (data : bytes).
Inductive fs_op := OpMkdirAll | OpCreateTemp | OpWriteString | OpSync | OpClose | OpChmod | OpRename.
Inductive witness_err :=
| WErrNotRegular | WErrRead (e : E) | WErrMalformed | WErrValue (v : bytes) | WErrStep (op : fs_op) (e : E).

Definition readRegularFile (w : witness_file) : res (option witness_err) bytes :=
  match w with
  | WAbsent => Err None
  | WUnreadable e => Err (Some (WErrRead e))
  | WNotRegular => Err (Some WErrNotRegular)
  | WFile data => Ok data
  end.

(** [found = false] is [None]. *)
Definition ReadWitness (w : witness_file) : res witness_err (option (Checkpoint * bytes)) :=
  match readRegularFile w with
  | Err None => Ok None
  | Err (Some e) => Err e
  | Ok data => match ParseHighWater data with
               | Some p => Ok (Some p)
               | None => Err WErrMalformed
               end
  end.

Definition fs_call (faults : fs_op -> option E) (op : fs_op) : res witness_err unit :=
  match faults op with Some e => Err (WErrStep op e) | None => Ok tt end.

(** The calls before the rename touch only the temporary file, removed on every
    early return; the rename replaces the witness in one step. *)
Definition witness_replace (faults : fs_op -> option E) (w : witness_file) (v : bytes)
  : witness_file * res witness_err bool :=
  match (let? _ := fs_call faults OpMkdirAll in
         let? _ := fs_call faults OpCreateTemp in
         let? _ := fs_call faults OpWriteString in
         let? _ := fs_call faults OpSync in
         let? _ := fs_call faults OpClose in
         let? _ := fs_call faults OpChmod in
         fs_call faults OpRename) with
  | Err e => (w, Err e)
  | Ok _ => (WFile v, Ok true)
  end.

Definition WriteWitnessIfHigher (faults : fs_op -> option E) (w : witness_file) (encodedValue : bytes)
  : witness_file * res witness_err bool :=
  match ParseHighWater encodedValue with
  | None => (w, Err (WErrValue encodedValue))
  | Some (newCP, _) =>
      match ReadWitness w with
      | Err e => (w, Err e)
      | Ok (Some (existingCP, _)) =>
          if 0 <=? HighWaterOrder existingCP newCP then (w, Ok false) else witness_replace faults w encodedValue
      | Ok None => witness_replace faults w encodedValue
      end
  end.

(** A history of calls, each with its own faults: the final file and what each
    call returned. *)
Fixpoint witness_run (w : witness_file) (calls : list ((fs_op -> option E) * bytes))
  : witness_file * list (bytes * res witness_err bool) :=
  match calls with
  | [] => (w, [])
  | (f, v) :: calls =>
      let '(w1, r) := WriteWitnessIfHigher f w v in
      let '(w2, rs) := witness_run w1 calls in (w2, (v, r) :: rs)
  end.

Definition witness_at_least (w : witness_file) (m : Checkpoint) : Prop :=
  exists m' sig, ReadWitness w = Ok (Some (m', sig)) /\ HighWaterOrder m m' <= 0.

Lemma witness_replace_cases faults w v :
  (exists e, witness_replace faults w v = (w, Err e)) \/ witness_replace faults w v = (WFile v, Ok true).
Proof. unfold witness_replace. destruct (res_bind _ _); eauto. Qed.

Lemma ReadWitness_file v cp sig :
  ParseHighWater v = Some (cp, sig) -> ReadWitness (WFile v) = Ok (Some (cp, sig)).
Proof. unfold ReadWitness. simpl. by intros ->. Qed.

(** One call keeps every lower bound the file has. *)
Lemma WriteWitness_keeps faults w v m :
  witness_at_least w m -> witness_at_least (fst (WriteWitnessIfHigher faults w v)) m.
Proof.
  intros (m' & sig & Hr & Ho). unfold WriteWitnessIfHigher.
  destruct (ParseHighWater v) as [[new nsig]|] eqn:Ep; [|by exists m', sig].
  rewrite Hr. destruct (Z.leb_spec 0 (HighWaterOrder m' new)); [by exists m', sig|].
  destruct (witness_replace_cases faults w v) as [[e ->]| ->]; [by exists m', sig|].
  exists new, nsig. split; [by apply ReadWitness_file|]. eapply HighWaterOrder_trans; [done|lia].
Qed.

(** A call that returns without an error leaves at least its value. *)
Lemma WriteWitness_ok faults w v b cp sig :
  snd (WriteWitnessIfHigher faults w v) = Ok b -> ParseHighWater v = Some (cp, sig) ->
  witness_at_least (fst (WriteWitnessIfHigher faults w v)) cp.
Proof.
  unfold WriteWitnessIfHigher. intros H Hp. rewrite Hp in *.
  assert (HighWaterOrder cp cp <= 0) by (apply HighWaterOrder_le; lia).
  destruct (ReadWitness w) as [[[old osig]|]|e] eqn:Hr; [| |done].
  - destruct (Z.leb_spec 0 (HighWaterOrder old cp)) as [Ho|Ho].
    + exists old, osig. split; [done|]. apply HighWaterOrder_le. apply HighWaterOrder_ge in Ho. lia.
    + destruct (witness_replace_cases faults w v) as [[e E']|E']; rewrite E' in *; [done|].
      exists cp, sig. split; [by apply ReadWitness_file|done].
  - destruct (witness_replace_cases faults w v) as [[e E']|E']; rewrite E' in *; [done|].
    exists cp, sig. split; [by apply ReadWitness_file|done].
Qed.

Lemma witness_run_keeps calls : forall w m,
  witness_at_least w m -> witness_at_least (fst (witness_run w calls)) m.
Proof.
  induction calls as [|[f v] calls IH]; intros w m H; simpl; [done|].
  pose proof (WriteWitness_keeps f w v m H) as H1.
  destruct (WriteWitnessIfHigher f w v) as [w1 r]. specialize (IH w1 m H1).
  by destruct (witness_run w1 calls).
Qed.

(** The witness never regresses: over any history of writes, with any
    system call of any of them failing, the recorded mark is at least the one
    recorded before (when there was one), and at least every value a call of
    the history accepted without an error, in the order where more seals
    outrank any count. *)
Theorem witness_never_regresses w calls :
  (forall m sig, ReadWitness w = Ok (Some (m, sig)) -> witness_at_least (fst (witness_run w calls)) m) /\
  (forall v b cp sig, (v, Ok b) ∈ snd (witness_run w calls) -> ParseHighWater v = Some (cp, sig) ->
     witness_at_least (fst (witness_run w calls)) cp).
Proof.
  split.
  - intros m sig H. apply witness_run_keeps. exists m, sig. split; [done|]. apply HighWaterOrder_le. lia.
  - intros v b cp sig. revert w. induction calls as [|[f v'] calls IH]; intros w H Hp; simpl in *; [set_solver|].
    pose proof (WriteWitness_ok f w v' b cp sig) as H1.
    destruct (WriteWitnessIfHigher f w v') as [w1 r]. specialize (IH w1).
    pose proof (witness_run_keeps calls w1 cp) as H2.
    destruct (witness_run w1 calls) as [w2 rs]. simpl in *.
    apply elem_of_cons in H as [[= <- <-]|H]; auto.
Qed.
End witness.

Lemma witness_never_regresses_witness :
  let w := @WFile unit (EncodeHighWater sample_mark (go "mac")) in
  let low := mkCheckpoint 0 900 456 (go "ab12") (go "kv-3") [] [] None [] 1 (go "d0") in
  let high := mkCheckpoint 0 3 456 (go "ab12") (go "kv-3") [] [] None [] 3 (go "d2") in
  let calls := [(fun _ => None, EncodeHighWater low (go "m")); (fun _ => None, EncodeHighWater high (go "m"));
                (fun op => match op with OpRename => Some tt | _ => None end, EncodeHighWater high (go "m"))] in
  snd (witness_run w calls) = [(EncodeHighWater low (go "m"), Ok false); (EncodeHighWater high (go "m"), Ok true);
                               (EncodeHighWater high (go "m"), Ok false)] /\
  witness_at_least (fst (witness_run w calls)) sample_mark /\ witness_at_least (fst (witness_run w calls)) high.
Proof.
  intros w low high calls. split; [vm_compute; reflexivity|]. split.
  - eapply (proj1 (witness_never_regresses w calls) (mark_of sample_mark) (go "mac")). vm_compute. reflexivity.
  - eapply (proj2 (witness_never_regresses w calls) (EncodeHighWater high (go "m")) true _ (go "m")).
    + right. left.
    + vm_compute. reflexivity.
Defined.
