(* ===== verification/AuditRecords.v ===== *)
(** The signed side records of the audit trail: accepted-loss seals
    ([internal/auditverify/seal.go]), checkpoint-key transitions
    ([keytransition.go]) and the server's verification state row
    ([verifystate.go]): their data, parsers and MACs.

    [encoding/json] appears only as three decoding functions, the class
    [JSON]; nothing is assumed of them, so every statement holds whatever a
    payload decodes to.  The theorem of this file is domain separation: the six
    kinds of message signed under the one checkpoint key never coincide, and
    within a kind the message determines what it signs. *)
From Stdlib Require Import ZArith Lia.
From stdpp Require Import base numbers tactics sets list.
From S2P Require Import Prelude.
From S2P Require Import Sha256.
From S2P Require Import GoStr.
From S2P Require Import AuditCheckpoint.

(** * Accepted losses *)

Record SealGap := mkGap { sg_LastGoodID : Z; sg_LastGoodHash : bytes; sg_ResumeID : Z; sg_ResumeHash : bytes }.
Record SealTruncation := mkTrunc { st_CertifiedHeadID : Z; st_CertifiedHeadHash : bytes; st_SurvivingHeadID : Z }.
Record SealSpan := mkSpan { sp_FromID : Z; sp_ThroughID : Z }.
Record SealCount := mkCount { sc_Events : Z; sc_HeadID : Z; sc_HeadHash : bytes; sc_Source : bytes }.
Record SealAnchor := mkSealAnchor {
  sn_Digest : bytes; sn_Verified : bool; sn_ChainedEvents : Z; sn_HeadID : Z; sn_HeadHash : bytes }.

Record Seal := mkSeal {
  sl_V : Z; sl_Seq : Z; sl_Prev : bytes; sl_At : Z; sl_Operator : bytes; sl_OSUser : bytes;
  sl_Reason : bytes; sl_Evidence : bytes; sl_Gaps : list SealGap; sl_Truncation : option SealTruncation;
  sl_Before : option SealCount; sl_After : SealCount; sl_LostEvents : Z; sl_Anchor : option SealAnchor;
  sl_Unpinned : list SealSpan; sl_payload : bytes; sl_kid : bytes; sl_mac : bytes }.

Definition seal_set_raw (s : Seal) (payload kid mac : bytes) : Seal :=
  mkSeal (sl_V s) (sl_Seq s) (sl_Prev s) (sl_At s) (sl_Operator s) (sl_OSUser s) (sl_Reason s) (sl_Evidence s)
    (sl_Gaps s) (sl_Truncation s) (sl_Before s) (sl_After s) (sl_LostEvents s) (sl_Anchor s) (sl_Unpinned s)
    payload kid mac.

(** * Key transitions *)

Record KeyTransition := mkTransition {
  kt_V : Z; kt_Seq : Z; kt_OldKID : bytes; kt_NewKID : bytes; kt_HeadID : Z; kt_HeadHash : bytes;
  kt_CheckpointID : Z; kt_Checkpoint : bytes; kt_State : bytes; kt_Prev : bytes;
  kt_payload : bytes; kt_macOld : bytes; kt_macNew : bytes }.

Definition kt_set_raw (k : KeyTransition) (payload macOld macNew : bytes) : KeyTransition :=
  mkTransition (kt_V k) (kt_Seq k) (kt_OldKID k) (kt_NewKID k) (kt_HeadID k) (kt_HeadHash k) (kt_CheckpointID k)
    (kt_Checkpoint k) (kt_State k) (kt_Prev k) payload macOld macNew.

(** * The verification state row *)

Record vsPin := mkPin { pin_HeadID : Z; pin_HeadHash : bytes }.
Record vsLastCheck := mkLastCheck { lc_ThroughID : Z; lc_Valid : bool; lc_HeadHash : bytes }.
Record vsCycle := mkCycle { cy_TargetID : Z; cy_SeedID : Z }.
Record vsDiscontinuity := mkDisc { di_Kind : bytes; di_Reason : bytes }.
Record verifyStateRow := mkVerifyState {
  vs_AuditHead : Z; vs_Placed : bool; vs_Pin : option vsPin; vs_LastCheck : option vsLastCheck;
  vs_LastFull : option Z; vs_Cycle : option vsCycle; vs_Discontinuity : option vsDiscontinuity }.

(** [json.Unmarshal] into each of the three types; [None] is an error. *)
Class JSON := {
  Unmarshal_Seal : bytes -> option Seal;
  Unmarshal_KeyTransition : bytes -> option KeyTransition;
  Unmarshal_verifyStateRow : bytes -> option verifyStateRow }.

Definition auditSealsKey : bytes := go "audit_seals".
Definition auditSealEvent : bytes := go "system.audit_loss_accepted".
Definition auditSealDomain : bytes := go "auditseal-v1" ++ [NUL].
Definition auditKeyTransitionsKey : bytes := go "audit_key_transitions".
Definition auditKeyTransitionEvent : bytes := go "system.audit_key_transition".
Definition auditKeyTransitionDomain : bytes := go "auditkeytrans-v1" ++ [NUL].
Definition auditVerifyStateKey : bytes := go "audit_verification_state".
Definition auditVerifyStateMarkerEvent : bytes := go "system.audit_verification_state_initialized".
Definition auditVerifyStateDiscontinuityEvent : bytes := go "system.audit_verification_state_discontinuity".
Definition auditVerifyStateDomain : bytes := go "auditverify-state-v1" ++ [NUL].

Definition hex_sha256 (b : bytes) : bytes := hex_encode (sha256 b).
Definition hex_hmac (key msg : bytes) : bytes := hex_encode (hmac_sha256 key msg).

Definition Seal_Digest (s : Seal) : bytes := hex_sha256 (sl_payload s).
Definition seal_message (s : Seal) : bytes := auditSealDomain ++ sl_kid s ++ [NUL] ++ sl_payload s.
Definition MACValid (s : Seal) (key : bytes) : bool :=
  bool_decide (hex_hmac key (seal_message s) = sl_mac s).

Definition KT_Digest (k : KeyTransition) : bytes := hex_sha256 (kt_payload k).
Definition transition_message (dir payload macOld : bytes) : bytes :=
  (auditKeyTransitionDomain ++ dir ++ [NUL]) ++ payload ++
  (if bool_decide (dir = go "new") then NUL :: macOld else []).
Definition keyTransitionMAC (key dir payload macOld : bytes) : bytes :=
  hex_hmac key (transition_message dir payload macOld).
Definition NewMACValid (k : KeyTransition) (key : bytes) : bool :=
  bool_decide (keyTransitionMAC key (go "new") (kt_payload k) (kt_macOld k) = kt_macNew k).
Definition OldMACValid (k : KeyTransition) (key : bytes) : bool :=
  bool_decide (keyTransitionMAC key (go "old") (kt_payload k) [] = kt_macOld k).

Definition verifyStateMACValid (payload sig key : bytes) : bool :=
  bool_decide (hex_hmac key (auditVerifyStateDomain ++ payload) = sig).

(** ** Parsers *)

Definition LF : Byte.byte := bZ 10.

Fixpoint seal_gaps_valid (first : bool) (prev : Z) (gaps : list SealGap) : bool :=
  match gaps with
  | [] => true
  | g :: gaps =>
      if (sg_ResumeID g =? 0) || (sg_ResumeID g <=? sg_LastGoodID g) || bool_decide (sg_ResumeHash g = []) ||
         (negb first && (sg_LastGoodID g <? prev))
      then false
      else seal_gaps_valid false (sg_ResumeID g) gaps
  end.

Definition sealShapeValid (r : Seal) : bool :=
  if bool_decide (sl_Gaps r = []) && is_none (sl_Truncation r) then false
  else seal_gaps_valid true 0 (sl_Gaps r).

Inductive record_err := Malformed | DoesNotFollow (seq : Z).

Section parsers.
Context `{JSON}.

(** One line of the row, given the records before it. *)
Definition parse_seal_line (recs : list Seal) (line : bytes) : res record_err Seal :=
  match Split_sep US line with
  | [p0; p1; p2; p3] =>
      if negb (bool_decide (p0 = go "aseal-v1")) || bool_decide (p2 = []) then Err Malformed
      else match b64_raw_url_decode p1 with
      | None => Err Malformed
      | Some payload =>
          match Unmarshal_Seal payload with
          | None => Err Malformed
          | Some r =>
              if negb (sl_V r =? 1) || negb (sealShapeValid r) then Err Malformed
              else
                let r := seal_set_raw r payload p2 p3 in
                if negb (sl_Seq r =? Z.of_nat (length recs) + 1) ||
                   match last recs with
                   | None => negb (bool_decide (sl_Prev r = []))
                   | Some l => negb (bool_decide (sl_Prev r = Seal_Digest l))
                   end
                then Err (DoesNotFollow (sl_Seq r))
                else Ok r
          end
      end
  | _ => Err Malformed
  end.

Fixpoint parse_seal_lines (recs : list Seal) (lines : list bytes) : res record_err (list Seal) :=
  match lines with
  | [] => Ok recs
  | l :: lines => let? r := parse_seal_line recs l in parse_seal_lines (recs ++ [r]) lines
  end.
Definition ParseSeals (val : bytes) : res record_err (list Seal) := parse_seal_lines [] (Split_sep LF val).

Definition parse_transition_line (recs : list KeyTransition) (line : bytes) : res record_err KeyTransition :=
  match Split_sep US line with
  | [p0; p1; p2; p3] =>
      if negb (bool_decide (p0 = go "akt-v1")) then Err Malformed
      else match b64_raw_url_decode p1 with
      | None => Err Malformed
      | Some payload =>
          match Unmarshal_KeyTransition payload with
          | None => Err Malformed
          | Some r =>
              if negb (kt_V r =? 1) || bool_decide (kt_OldKID r = []) || bool_decide (kt_NewKID r = []) ||
                 bool_decide (kt_OldKID r = kt_NewKID r)
              then Err Malformed
              else
                let r := kt_set_raw r payload p2 p3 in
                if negb (kt_Seq r =? Z.of_nat (length recs) + 1) ||
                   match last recs with
                   | None => negb (bool_decide (kt_Prev r = []))
                   | Some l => negb (bool_decide (kt_Prev r = KT_Digest l)) || negb (bool_decide (kt_OldKID r = kt_NewKID l))
                   end
                then Err (DoesNotFollow (kt_Seq r))
                else Ok r
          end
      end
  | _ => Err Malformed
  end.

Fixpoint parse_transition_lines (recs : list KeyTransition) (lines : list bytes) : res record_err (list KeyTransition) :=
  match lines with
  | [] => Ok recs
  | l :: lines => let? r := parse_transition_line recs l in parse_transition_lines (recs ++ [r]) lines
  end.
Definition ParseKeyTransitions (val : bytes) : res record_err (list KeyTransition) :=
  parse_transition_lines [] (Split_sep LF val).
End parsers.

Definition decodeVerifyState (val : bytes) : option (bytes * bytes) :=
  match Split_sep US val with
  | [p0; p1; p2] =>
      if bool_decide (p0 = go "avs-v1") then
        match b64_raw_url_decode p1 with Some payload => Some (payload, p2) | None => None end
      else None
  | _ => None
  end.

(** ** Readings of the records *)

Definition claimedThrough (s : verifyStateRow) : Z :=
  let n := vs_AuditHead s in
  let n := match vs_Pin s with Some p => Z.max n (pin_HeadID p) | None => n end in
  let n := match vs_LastCheck s with Some c => Z.max n (lc_ThroughID c) | None => n end in
  let n := match vs_LastFull s with Some t => Z.max n t | None => n end in
  match vs_Cycle s with Some c => Z.max (Z.max n (cy_TargetID c)) (cy_SeedID c) | None => n end.

Definition sealBindingOf (recs : list Seal) : sealBinding :=
  match last recs with
  | None => mkBinding 0 []
  | Some r => mkBinding (Z.of_nat (length recs)) (Seal_Digest r)
  end.

Record sealedGap := mkSealedGap { gp : SealGap; gp_seq : Z }.

(** [slices.SortFunc] by resume id (its order of equal keys is unspecified;
    [sort_by] keeps theirs). *)
Definition sealedGaps (recs : list Seal) : list sealedGap :=
  sort_by (fun g => sg_ResumeID (gp g))
    (concat (map (fun r => map (fun g => mkSealedGap g (sl_Seq r)) (sl_Gaps r)) recs)).

(** [sealEventDigestRE], the leftmost match of [\(record ([0-9a-f]{64})\)]. *)
Definition seal_digest_here (s : bytes) : option bytes :=
  if HasPrefix s (go "(record ") then
    let d := take 64 (drop 8 s) in
    if (length d =? 64)%nat && forallb is_hex_digit d && HasPrefix (drop 72 s) (go ")") then Some d else None
  else None.
Fixpoint sealEventDigest (s : bytes) : option bytes :=
  match seal_digest_here s with
  | Some d => Some d
  | None => match s with [] => None | _ :: s => sealEventDigest s end
  end.

Definition sealsCover (recs : list Seal) (k : nat) (id : Z) : bool :=
  existsb (fun r =>
    existsb (fun g => (sg_LastGoodID g <? id) && (id <? sg_ResumeID g)) (sl_Gaps r) ||
    match sl_Truncation r with
    | Some t => (st_SurvivingHeadID t <? id) && (id <=? st_CertifiedHeadID t)
    | None => false
    end) (drop k recs).

Definition sealAnchorCovers (r : Seal) (headID : Z) : bool :=
  existsb (fun g => sg_LastGoodID g <? headID) (sl_Gaps r) ||
  match sl_Truncation r with Some t => st_SurvivingHeadID t <? headID | None => false end.

Definition keyTransitionNamed (recs : list KeyTransition) (description : bytes) : bool :=
  existsb (fun r => Contains description (KT_Digest r)) recs.

(** * What the parsers guarantee *)

Section parser_lemmas.
Context `{JSON}.

(** The records of a stored row, in order: numbered from 1 and linked by the
    digest of the record before. *)
Definition seals_linked (recs : list Seal) : Prop :=
  forall i r, recs !! i = Some r ->
    sl_Seq r = Z.of_nat i + 1 /\ sl_V r = 1 /\ sealShapeValid r = true /\
    sl_Prev r = match i with O => [] | S j => match recs !! j with Some p => Seal_Digest p | None => [] end end.

Lemma lookup_last_snoc {A} (l : list A) x i y :
  (l ++ [x]) !! i = Some y -> l !! i = Some y \/ (i = length l /\ y = x).
Proof. intros Hl. apply lookup_app_Some in Hl as [?|[Hi Hx]]; [by left|]. apply list_lookup_singleton_Some in Hx as [? ?]. right. split; [lia|done]. Qed.

Lemma seals_linked_snoc recs r :
  seals_linked recs ->
  sl_Seq r = Z.of_nat (length recs) + 1 -> sl_V r = 1 -> sealShapeValid r = true ->
  sl_Prev r = match last recs with None => [] | Some l => Seal_Digest l end ->
  seals_linked (recs ++ [r]).
Proof.
  intros Hl Hs Hv Hsh Hp i x Hi. apply lookup_last_snoc in Hi as [Hi|[-> ->]].
  - destruct (Hl i x Hi) as (? & ? & ? & Hprev). split_and!; [done..|]. rewrite Hprev.
    destruct i as [|j]; [done|]. apply lookup_lt_Some in Hi. rewrite lookup_app_l; [done|lia].
  - split_and!; [done..|]. rewrite Hp, last_lookup. destruct recs as [|a recs]; [done|]. simpl length.
    cbn [Nat.pred]. rewrite lookup_app_l; [done|simpl; lia].
Qed.

Lemma parse_seal_line_ok recs line r :
  parse_seal_line recs line = Ok r ->
  sl_Seq r = Z.of_nat (length recs) + 1 /\ sl_V r = 1 /\ sealShapeValid r = true /\
  sl_Prev r = match last recs with None => [] | Some l => Seal_Digest l end.
Proof.
  unfold parse_seal_line. intros E.
  destruct (Split_sep US line) as [|p0 [|p1 [|p2 [|p3 [|]]]]]; try discriminate E.
  destruct (negb _ || _); [discriminate E|]. destruct (b64_raw_url_decode p1) as [payload|]; [|discriminate E].
  destruct (Unmarshal_Seal payload) as [s|]; [|discriminate E].
  destruct (negb (sl_V s =? 1) || _) eqn:E1; [discriminate E|]. cbv zeta in E.
  destruct (negb (sl_Seq _ =? _) || _) eqn:E2; [discriminate E|]. injection E as <-.
  breflect. split_and!; [done..|]. destruct (last recs); breflect; done.
Qed.

Lemma parse_seal_lines_linked lines : forall recs out,
  seals_linked recs -> parse_seal_lines recs lines = Ok out ->
  seals_linked out /\ length out = (length recs + length lines)%nat.
Proof.
  induction lines as [|l lines IH]; intros recs out Hl E; simpl in E; [injection E as <-; split; [done|simpl; lia]|].
  destruct (parse_seal_line recs l) as [r|] eqn:Er; [|discriminate E]. simpl in E.
  apply parse_seal_line_ok in Er as (? & ? & ? & ?).
  apply IH in E as [? ->]; [|by apply seals_linked_snoc]. rewrite length_app. simpl. split; [done|lia].
Qed.

Lemma ParseSeals_linked val recs : ParseSeals val = Ok recs -> seals_linked recs /\ recs <> [].
Proof.
  unfold ParseSeals. intros E. apply parse_seal_lines_linked in E as [? Hlen]; [|by intros ? ?].
  split; [done|]. intros ->. pose proof (Split_sep_nonempty LF val). by destruct (Split_sep LF val).
Qed.

Lemma ParseKeyTransitions_nonempty val recs : ParseKeyTransitions val = Ok recs -> recs <> [].
Proof.
  unfold ParseKeyTransitions. pose proof (Split_sep_nonempty LF val) as Hne.
  assert (forall lines recs out, parse_transition_lines recs lines = Ok out ->
            length out = (length recs + length lines)%nat) as Hlen.
  { intros lines. induction lines as [|l lines IH]; intros rs out E; simpl in E; [injection E as <-; simpl; lia|].
    destruct (parse_transition_line rs l) as [r|]; [|discriminate E]. apply IH in E as ->.
    rewrite length_app. simpl. lia. }
  intros E%Hlen ->. by destruct (Split_sep LF val).
Qed.
End parser_lemmas.

(** * Domain separation *)

(** Everything signed with the checkpoint key. *)
Inductive signed :=
| SCheckpoint (cp : Checkpoint)
| SAnchor (a : StoredRetentionAnchor)
| SSeal (s : Seal)
| SOldMAC (k : KeyTransition)
| SNewMAC (k : KeyTransition)
| SState (payload : bytes).

(** The message each signature check hands to the MAC. *)
Definition message (m : signed) : bytes :=
  match m with
  | SCheckpoint cp => checkpointCanonical cp
  | SAnchor a => sa_canonical a
  | SSeal s => seal_message s
  | SOldMAC k => transition_message (go "old") (kt_payload k) []
  | SNewMAC k => transition_message (go "new") (kt_payload k) (kt_macOld k)
  | SState p => auditVerifyStateDomain ++ p
  end.

Definition signature_valid (m : signed) (sig key : bytes) : bool :=
  bool_decide (hex_hmac key (message m) = sig).

(** Every check of the verifier is a [signature_valid] of its message. *)
Lemma checks_are_signature_valid key :
  (forall cp, CheckpointSignatureValid cp key = signature_valid (SCheckpoint cp) (cp_Signature cp) key) /\
  (forall cp sig, HighWaterSigMatches cp sig key = signature_valid (SCheckpoint cp) sig key) /\
  (forall a, SigMatches a key = signature_valid (SAnchor a) (sa_Signature a) key) /\
  (forall s, MACValid s key = signature_valid (SSeal s) (sl_mac s) key) /\
  (forall k, OldMACValid k key = signature_valid (SOldMAC k) (kt_macOld k) key) /\
  (forall k, NewMACValid k key = signature_valid (SNewMAC k) (kt_macNew k) key) /\
  (forall p sig, verifyStateMACValid p sig key = signature_valid (SState p) sig key).
Proof. split_and!; intros; try done. apply SigMatches_mac. Qed.

Definition signed_wf (m : signed) : Prop :=
  match m with
  | SCheckpoint cp => cp_wf cp
  | SAnchor a => sa_wf a
  | SSeal s => NUL ∉ sl_kid s
  | SOldMAC _ | SState _ => True
  | SNewMAC k => NUL ∉ kt_payload k
  end.

(** Two signed things are the same as far as their signature goes. *)
Definition same_signed (a b : signed) : Prop :=
  match a, b with
  | SCheckpoint c, SCheckpoint c' => cp_signed c = cp_signed c'
  | SAnchor x, SAnchor y => sa_signed x = sa_signed y
  | SSeal s, SSeal t => sl_kid s = sl_kid t /\ sl_payload s = sl_payload t
  | SOldMAC k, SOldMAC l => kt_payload k = kt_payload l
  | SNewMAC k, SNewMAC l => kt_payload k = kt_payload l /\ kt_macOld k = kt_macOld l
  | SState p, SState q => p = q
  | _, _ => False
  end.

(** The first three bytes tell the checkpoint and the retention anchor apart
    from the rest, whose domains differ from the sixth byte on. *)
Definition tag (m : bytes) : bytes := take 14 m.

Lemma checkpointCanonical_tag cp : take 1 (checkpointCanonical cp) = go "v".
Proof. unfold checkpointCanonical. by destruct (negb _). Qed.
Lemma sa_canonical_tag a : take 1 (sa_canonical a) = go "r".
Proof. unfold sa_canonical. by destruct (bool_decide _). Qed.

Lemma take_eq {A} n (l l' : list A) : l = l' -> take n l = take n l'.
Proof. by intros ->. Qed.

Lemma message_tags :
  (forall s, take 6 (message (SSeal s)) = go "audits") /\
  (forall k, take 21 (message (SOldMAC k)) = go "auditkeytrans-v1" ++ NUL :: go "old" ++ [NUL]) /\
  (forall k, take 21 (message (SNewMAC k)) = go "auditkeytrans-v1" ++ NUL :: go "new" ++ [NUL]) /\
  (forall p, take 6 (message (SState p)) = go "auditv").
Proof. split_and!; intros; reflexivity. Qed.

Lemma kind_of_message a b : message a = message b ->
  match a, b with
  | SCheckpoint _, SCheckpoint _ | SAnchor _, SAnchor _ | SSeal _, SSeal _
  | SOldMAC _, SOldMAC _ | SNewMAC _, SNewMAC _ | SState _, SState _ => True
  | _, _ => False
  end.
Proof.
  intros E. pose proof (take_eq 1 _ _ E) as E1. pose proof (take_eq 6 _ _ E) as E6.
  pose proof (take_eq 21 _ _ E) as E21. destruct message_tags as (T1 & T2 & T3 & T4).
  destruct a, b; try exact I; exfalso; cbn [message] in E1;
    rewrite ?checkpointCanonical_tag, ?sa_canonical_tag in E1; try discriminate E1;
    try discriminate E6; rewrite ?T2, ?T3 in E21; discriminate E21.
Qed.

(** Domain separation under the one checkpoint key: if the messages of two
    signature checks coincide, the two are of the same kind (checkpoint or
    high-water mark, retention anchor, seal, old-key or new-key transition MAC,
    verification state) and agree on everything the kind signs.  So no record
    of one kind can be passed off as another, and no two different records of
    one kind share a message. *)
Theorem signed_messages_separate a b :
  signed_wf a -> signed_wf b -> message a = message b -> same_signed a b.
Proof.
  intros Wa Wb E. pose proof (kind_of_message a b E) as K.
  destruct a, b; try (exact (False_ind _ K)); cbn [message signed_wf same_signed] in *.
  - by apply checkpointCanonical_inj.
  - by apply sa_canonical_inj.
  - apply app_inv_head in E. change (sl_kid s ++ NUL :: sl_payload s = sl_kid s0 ++ NUL :: sl_payload s0) in E.
    by apply app_sep_inj in E.
  - apply app_inv_head in E. by rewrite bool_decide_eq_false_2, !app_nil_r in E.
  - apply app_inv_head in E. rewrite bool_decide_eq_true_2 in E by done. by apply app_sep_inj in E.
  - by apply app_inv_head in E.
Qed.

Lemma signed_messages_separate_witness :
  let cp := mkCheckpoint 9 120 456 (go "ab12") (go "kv-3") (go "sig") [] None [] 2 (go "d1") in
  let cp' := mkCheckpoint 4 120 456 (go "ab12") (go "kv-3") (go "other") [bZ 1] (Some 3) [] 2 (go "d1") in
  message (SCheckpoint cp) = message (SCheckpoint cp') /\ same_signed (SCheckpoint cp) (SCheckpoint cp').
Proof.
  intros cp cp'. split; [vm_compute; reflexivity|].
  apply signed_messages_separate; [split; simpl; [split; vm_compute; [discriminate|reflexivity]|vm_decide..]..|].
  vm_compute. reflexivity.
Defined.
