(* ===== verification/AuditDB.v ===== *)
(** The verifier's read-only database handle: [internal/auditverify/db.go] and
    the query of [owed_break_glass.go].

    [DB] is the interface the verification code uses, every method fallible.
    [table_db] is its implementation over the tables: what each [SELECT] returns
    and how a row is decoded.  A column is nullable where the schema cannot be
    trusted (an audited file may have been edited); [scanAuditEventRow] turns a
    NULL or negative value it cannot hold into an error.  [EventTable] states
    what a healthy handle promises the walk, and [table_db_EventTable] proves it
    of [table_db]. *)
From Stdlib Require Import ZArith Lia.
From stdpp Require Import base numbers tactics sets list.
From S2P Require Import Prelude.
From S2P Require Import GoStr.
From S2P Require Import AuditHash.
From S2P Require Import AuditCheckpoint.

Record DB (E : Type) := mkDB {
  StreamAuditEvents : Z -> Z -> res E (list AuditEventRow);
  CountAuditEventsThrough : Z -> res E Z;
  LatestCheckpoint : res E (option Checkpoint);
  CheckpointByID : Z -> res E (option Checkpoint);
  AuditEntryHashByID : Z -> res E (option bytes);
  GetSystemMetadata : bytes -> res E (option bytes);
  (** [None]: the table is empty; else the first and last id and time *)
  EventRange : res E (option (Z * Z * Z * Z));
  UnsettledBreakGlassActivationIDs : res E (list Z)
}.
Arguments StreamAuditEvents {E}. Arguments CountAuditEventsThrough {E}. Arguments LatestCheckpoint {E}.
Arguments CheckpointByID {E}. Arguments AuditEntryHashByID {E}. Arguments GetSystemMetadata {E}.
Arguments EventRange {E}. Arguments UnsettledBreakGlassActivationIDs {E}.

(** * The tables *)

(** A row of [audit_events] as stored: NULL is [None]. *)
Record raw_event := mkRaw {
  raw_id : option Z; raw_event_type : option bytes; raw_user_id : option Z; raw_secret_node_id : option Z;
  raw_project_id : option Z; raw_ip_address : option bytes; raw_description : option bytes;
  raw_success : option bool; raw_event_time : option Z; raw_diff : option bytes; raw_impersonated_by : option Z;
  raw_acting_as : option Z; raw_impersonation : option bool; raw_actor_type : option bytes;
  raw_prev_hash : option bytes; raw_entry_hash : option bytes }.

(** A row of [audit_checkpoints]: the anchor columns are nullable. *)
Record raw_checkpoint := mkRawCp {
  rc_id : Z; rc_chained_events : Z; rc_head_id : Z; rc_head_hash : bytes; rc_key_version : bytes;
  rc_signature : bytes; rc_anchor_token : option bytes; rc_anchored_at : option Z; rc_anchor_provider : option bytes }.

Record raw_activation := mkAct { act_id : Z; act_degraded : bool; act_settled_at : option Z }.

Record tables := mkTables {
  t_events : list raw_event;
  t_checkpoints : list raw_checkpoint;
  t_metadata : list (bytes * bytes);
  (** [None]: the table or one of its columns does not exist, or may not be read *)
  t_activations : option (list raw_activation) }.

Inductive db_err :=
| ScanNull (column : bytes)
| ScanNegative (column : bytes) (v : Z)
| QueryFailed (table : bytes).

(** * Decoding *)

(** [Scan] into a Go value that cannot hold NULL. *)
Definition scan_notnull {A} (column : bytes) (v : option A) : res db_err A :=
  match v with Some a => Ok a | None => Err (ScanNull column) end.

Definition nonNegativeUint64 (v : option Z) (column : bytes) : res db_err (option Z) :=
  match v with
  | None => Ok None
  | Some z => if z <? 0 then Err (ScanNegative column z) else Ok (Some z)
  end.

Definition scanAuditEventRow (r : raw_event) : res db_err AuditEventRow :=
  let? id := scan_notnull (go "id") (raw_id r) in
  guard? (0 <=? id) else ScanNegative (go "id") id in
  let? event_type := scan_notnull (go "event_type") (raw_event_type r) in
  let? ip := scan_notnull (go "ip_address") (raw_ip_address r) in
  let? description := scan_notnull (go "description") (raw_description r) in
  let? event_time := scan_notnull (go "event_time") (raw_event_time r) in
  let? diff := scan_notnull (go "diff") (raw_diff r) in
  let? impersonation := scan_notnull (go "impersonation") (raw_impersonation r) in
  let? actor_type := scan_notnull (go "actor_type") (raw_actor_type r) in
  let? prev_hash := scan_notnull (go "prev_hash") (raw_prev_hash r) in
  let? entry_hash := scan_notnull (go "entry_hash") (raw_entry_hash r) in
  let? userID := nonNegativeUint64 (raw_user_id r) (go "user_id") in
  let? secretNodeID := nonNegativeUint64 (raw_secret_node_id r) (go "secret_node_id") in
  let? projectID := nonNegativeUint64 (raw_project_id r) (go "project_id") in
  let? impersonatedBy := nonNegativeUint64 (raw_impersonated_by r) (go "impersonated_by") in
  let? actingAs := nonNegativeUint64 (raw_acting_as r) (go "acting_as") in
  Ok (mkRow id event_type userID secretNodeID projectID ip description (raw_success r) event_time diff
        impersonatedBy actingAs impersonation actor_type prev_hash entry_hash).

Fixpoint scan_all (l : list raw_event) : res db_err (list AuditEventRow) :=
  match l with
  | [] => Ok []
  | r :: l => let? e := scanAuditEventRow r in let? es := scan_all l in Ok (e :: es)
  end.

Definition scanCheckpoint (r : option raw_checkpoint) : res db_err (option Checkpoint) :=
  match r with
  | None => Ok None
  | Some r =>
      guard? (0 <=? rc_id r) else ScanNegative (go "id") (rc_id r) in
      guard? (0 <=? rc_head_id r) else ScanNegative (go "head_id") (rc_head_id r) in
      Ok (Some (mkCheckpoint (rc_id r) (rc_chained_events r) (rc_head_id r) (rc_head_hash r) (rc_key_version r)
                  (rc_signature r) (default [] (rc_anchor_token r)) (rc_anchored_at r)
                  (default [] (rc_anchor_provider r)) 0 []))
  end.

(** * The queries *)

(** A comparison with a NULL id is not true. *)
Definition id_above (afterID : Z) (r : raw_event) : bool :=
  match raw_id r with Some id => afterID <? id | None => false end.
(** [ORDER BY id]: NULLs first. *)
Definition id_key (r : raw_event) : Z := match raw_id r with Some id => id | None => - 2 ^ 63 - 1 end.

Definition q_stream (t : tables) (afterID limit : Z) : res db_err (list AuditEventRow) :=
  scan_all (take (Z.to_nat limit) (sort_by id_key (List.filter (id_above afterID) (t_events t)))).

Definition q_count_through (t : tables) (throughID : Z) : res db_err Z :=
  Ok (Z.of_nat (length (List.filter
    (fun r => match raw_id r with None => true | Some id => id <=? throughID end) (t_events t)))).

Definition q_latest_checkpoint (t : tables) : res db_err (option Checkpoint) :=
  scanCheckpoint (last (sort_by rc_id (t_checkpoints t))).
Definition q_checkpoint_by_id (t : tables) (id : Z) : res db_err (option Checkpoint) :=
  scanCheckpoint (List.find (fun r => rc_id r =? id) (t_checkpoints t)).

Definition q_entry_hash_by_id (t : tables) (id : Z) : res db_err (option bytes) :=
  match List.find (fun r => bool_decide (raw_id r = Some id)) (t_events t) with
  | None => Ok None
  | Some r => let? h := scan_notnull (go "entry_hash") (raw_entry_hash r) in Ok (Some h)
  end.

Definition q_metadata (t : tables) (key : bytes) : res db_err (option bytes) :=
  Ok (snd <$> List.find (fun kv => bool_decide (fst kv = key)) (t_metadata t)).

Definition q_event_range (t : tables) : res db_err (option (Z * Z * Z * Z)) :=
  let sorted := sort_by id_key (t_events t) in
  let ids := omap raw_id sorted in
  match head ids, last ids with
  | Some minID, Some maxID =>
      let? fromTime := match head sorted with
                       | Some r => scan_notnull (go "event_time") (raw_event_time r)
                       | None => Err (QueryFailed (go "audit_events")) end in
      let? toTime := match last sorted with
                     | Some r => scan_notnull (go "event_time") (raw_event_time r)
                     | None => Err (QueryFailed (go "audit_events")) end in
      guard? (0 <=? minID) else ScanNegative (go "id") minID in
      guard? (0 <=? maxID) else ScanNegative (go "id") maxID in
      Ok (Some (minID, maxID, fromTime, toTime))
  | _, _ => Ok None
  end.

Definition q_unsettled (t : tables) : res db_err (list Z) :=
  match t_activations t with
  | None => Err (QueryFailed (go "break_glass_activations"))
  | Some acts =>
      let ids := map act_id (sort_by act_id (List.filter (fun a => act_degraded a && is_none (act_settled_at a)) acts)) in
      match List.find (fun id => id <? 0) ids with
      | Some id => Err (ScanNegative (go "id") id)
      | None => Ok ids
      end
  end.

Definition table_db (t : tables) : DB db_err :=
  mkDB db_err (q_stream t) (q_count_through t) (q_latest_checkpoint t) (q_checkpoint_by_id t)
    (q_entry_hash_by_id t) (q_metadata t) (q_event_range t) (q_unsettled t).

(** * What a healthy handle promises the walk

    [rows]: the decodable rows, ascending; [outside]: how many rows the
    keyset-paginated query can never return (a NULL or a negative id). *)
Class EventTable {E} (db : DB E) (rows : list AuditEventRow) (outside : Z) : Prop := {
  et_stream afterID limit : 0 <= afterID ->
    StreamAuditEvents db afterID limit =
    Ok (take (Z.to_nat limit) (List.filter (fun e => afterID <? ev_ID e) rows));
  et_count throughID : 0 <= throughID ->
    CountAuditEventsThrough db throughID =
    Ok (outside + Z.of_nat (length (List.filter (fun e => ev_ID e <=? throughID) rows)));
  et_hash id h : 0 < id -> AuditEntryHashByID db id = Ok (Some h) ->
    exists e, e ∈ rows /\ ev_ID e = id /\ ev_EntryHash e = h;
  et_sorted : sorted_by ev_ID rows;
  et_nonneg : Forall (fun e => 0 <= ev_ID e) rows;
  et_outside : 0 <= outside
}.

Lemma scanAuditEventRow_id r e : scanAuditEventRow r = Ok e -> raw_id r = Some (ev_ID e) /\ 0 <= ev_ID e.
Proof.
  unfold scanAuditEventRow. destruct (raw_id r) as [id|]; [|done]. cbn [scan_notnull res_bind].
  destruct (Z.leb_spec 0 id); [|done].
  intros E. repeat match type of E with
  | res_bind ?m _ = Ok _ => destruct m eqn:?; [cbn [res_bind] in E|discriminate E]
  end.
  injection E as <-. done.
Qed.

Lemma scanAuditEventRow_hash r e : scanAuditEventRow r = Ok e -> raw_entry_hash r = Some (ev_EntryHash e).
Proof.
  unfold scanAuditEventRow. intros E. destruct (scan_notnull (go "id") (raw_id r)); [cbn [res_bind] in E|discriminate E].
  destruct (0 <=? _); [|discriminate E]. destruct (raw_entry_hash r).
  - repeat match type of E with
    | res_bind ?m _ = Ok _ => destruct m eqn:?; [cbn [res_bind] in E|discriminate E]
    end. injection E as <-. cbn [scan_notnull] in *. simplify_eq. done.
  - repeat match type of E with
    | res_bind ?m _ = Ok _ => destruct m eqn:?; [cbn [res_bind] in E|discriminate E]
    end. done.
Qed.

Lemma scan_all_Forall2 l es : scan_all l = Ok es <-> Forall2 (fun r e => scanAuditEventRow r = Ok e) l es.
Proof.
  revert es; induction l as [|r l IH]; intros es; simpl.
  - split; [intros [= <-]; constructor|]. by intros ->%Forall2_nil_inv_l.
  - split.
    + destruct (scanAuditEventRow r) as [e|] eqn:Er; [|done]. cbn [res_bind].
      destruct (scan_all l) as [es'|]; [|done]. intros [= <-]. constructor; [done|]. by apply IH.
    + intros (e & es' & He & Hes & ->)%Forall2_cons_inv_l. rewrite He. cbn [res_bind].
      apply IH in Hes. by rewrite Hes.
Qed.

Lemma scan_all_filter a l es :
  scan_all l = Ok es -> scan_all (List.filter (id_above a) l) = Ok (List.filter (fun e => a <? ev_ID e) es).
Proof.
  rewrite !scan_all_Forall2. induction 1 as [|r e l es Hr _ IH]; simpl; [constructor|].
  pose proof (scanAuditEventRow_id _ _ Hr) as [Hid _]. unfold id_above at 1. rewrite Hid.
  destruct (_ <? _); [by constructor|done].
Qed.
Lemma scan_all_take n l es : scan_all l = Ok es -> scan_all (take n l) = Ok (take n es).
Proof. rewrite !scan_all_Forall2. apply Forall2_take. Qed.

Lemma filter_filter_sub {A} (P Q : A -> bool) l :
  (forall x, P x = true -> Q x = true) -> List.filter P (List.filter Q l) = List.filter P l.
Proof.
  intros H. induction l as [|x l IH]; simpl; [done|]. specialize (H x).
  destruct (Q x), (P x) eqn:E; simpl; rewrite ?E, ?IH; try done. by discriminate H.
Qed.

Lemma filter_partition_length {A} (P Q : A -> bool) l :
  (forall x, x ∈ l -> P x = true -> Q x = true -> False) ->
  length (List.filter (fun x => P x || Q x) l) = (length (List.filter P l) + length (List.filter Q l))%nat.
Proof.
  induction l as [|x l IH]; intros H; simpl; [done|].
  specialize (IH (fun y Hy => H y (list_elem_of_further _ _ _ Hy))).
  specialize (H x (list_elem_of_here _ _)).
  destruct (P x), (Q x); simpl; rewrite ?IH; [by destruct H|lia..].
Qed.

Lemma length_filter_perm {A} (P : A -> bool) l l' :
  l ≡ₚ l' -> length (List.filter P l) = length (List.filter P l').
Proof.
  induction 1 as [|x l l' _ IH|x y l|l l' l'' _ IH1 _ IH2]; simpl; [done|by destruct (P x); simpl; rewrite IH| |congruence].
  by destruct (P x), (P y).
Qed.

(** The rows no keyset query reaches. *)
Definition unreachable (r : raw_event) : bool := match raw_id r with None => true | Some id => id <? 0 end.

Lemma sorted_by_Forall2 {A B} (k : A -> Z) (k' : B -> Z) l l' :
  Forall2 (fun a b => k a = k' b) l l' -> sorted_by k l -> sorted_by k' l'.
Proof.
  intros H Hs i j x y Hx Hy Hij.
  destruct (Forall2_lookup_r _ _ _ _ _ H Hx) as (a & Ha & Ea).
  destruct (Forall2_lookup_r _ _ _ _ _ H Hy) as (b & Hb & Eb).
  rewrite <- Ea, <- Eb. by apply (Hs i j).
Qed.

Lemma filter_length_Forall2 {A B} (R : A -> B -> Prop) (P : A -> bool) (Q : B -> bool) l l' :
  Forall2 R l l' -> (forall a b, R a b -> P a = Q b) ->
  length (List.filter P l) = length (List.filter Q l').
Proof.
  intros H HR. induction H as [|a b l l' Hab _ IH]; simpl; [done|].
  rewrite (HR a b Hab). destruct (Q b); simpl; by rewrite IH.
Qed.

(** A table whose reachable rows all decode gives the walk what it needs. *)
Lemma table_db_EventTable t rows :
  scan_all (sort_by id_key (List.filter (id_above (-1)) (t_events t))) = Ok rows ->
  EventTable (table_db t) rows (Z.of_nat (length (List.filter unreachable (t_events t)))).
Proof.
  intros H. pose proof (proj1 (scan_all_Forall2 _ _) H) as H2. split.
  - intros a n Ha. cbn [table_db StreamAuditEvents]. unfold q_stream. apply scan_all_take.
    rewrite <- (filter_filter_sub (id_above a) (id_above (-1))).
    + rewrite <- filter_sort_by. by apply scan_all_filter.
    + intros r. unfold id_above. destruct (raw_id r); [|done]. rewrite !Z.ltb_lt. lia.
  - intros id Hid. cbn [table_db CountAuditEventsThrough]. unfold q_count_through. f_equal.
    rewrite <- (filter_length_Forall2 _ (fun r => negb (id_above id r)) _ _ _ H2).
    + rewrite (length_filter_perm _ _ _ (sort_by_perm _ _)), filter_filter_and.
      rewrite <- Nat2Z.inj_add, <- filter_partition_length.
      * f_equal. apply (f_equal length), filter_ext_bool. intros r. unfold unreachable, id_above.
        destruct (raw_id r) as [i|]; [|done]. destruct (Z.ltb_spec i 0), (Z.ltb_spec (-1) i), (Z.leb_spec i id), (Z.ltb_spec id i); simpl; lia || done.
      * intros r _. unfold unreachable, id_above. destruct (raw_id r); [|done].
        rewrite andb_true_iff, !Z.ltb_lt. lia.
    + intros r e [Hr _]%scanAuditEventRow_id. unfold id_above. rewrite Hr. by rewrite <- Z.leb_antisym.
  - intros id h Hid. cbn [table_db AuditEntryHashByID]. unfold q_entry_hash_by_id.
    destruct (List.find _ _) as [r|] eqn:Ef; [|done]. apply List.find_some in Ef as [Hin Hr%bool_decide_eq_true].
    destruct (raw_entry_hash r) as [h'|] eqn:Eh; [|done]. cbn [scan_notnull res_bind]. intros [= <-].
    assert (r ∈ sort_by id_key (List.filter (id_above (-1)) (t_events t))) as Hr'.
    { rewrite (sort_by_perm id_key). apply list_elem_of_In, filter_In. split; [done|].
      unfold id_above. rewrite Hr. apply Z.ltb_lt. lia. }
    apply list_elem_of_lookup in Hr' as [i Hi]. destruct (Forall2_lookup_l _ _ _ _ _ H2 Hi) as (e & He & Hs).
    exists e. pose proof (scanAuditEventRow_id _ _ Hs) as [E1 _]. pose proof (scanAuditEventRow_hash _ _ Hs) as E2.
    split; [apply list_elem_of_lookup; eauto|]. split; congruence.
  - eapply (sorted_by_Forall2 id_key); [|apply sort_by_sorted].
    eapply Forall2_impl; [done|]. intros r e [Hr _]%scanAuditEventRow_id. unfold id_key. by rewrite Hr.
  - apply Forall_forall. intros e He. apply list_elem_of_lookup in He as [i Hi].
    destruct (Forall2_lookup_r _ _ _ _ _ H2 Hi) as (r & _ & Hr). by apply scanAuditEventRow_id in Hr as [_ ?].
  - lia.
Qed.
