(* ===== verification/AuditPages.v ===== *)
(** Walking a table in keyset-paginated pages.

    The offline verifier, the server's own verifier and the chain re-encoding
    all read [audit_events] in pages of rows with an id above the last one seen
    and feed the rows to a loop body.  [page_loop] is that loop over any body;
    [page_loop_visited] says which rows the body sees, whatever the page size:
    all rows above the start when ids are distinct, and never a row twice. *)
From Stdlib Require Import ZArith Lia.
From stdpp Require Import base numbers tactics sets list.
From S2P Require Import Prelude.
From S2P Require Import AuditHash.
From S2P Require Import AuditDB.

(** The loop goes on with a state, or returns early. *)
Inductive step (S R : Type) := Next (s : S) | Stop (r : R).
Arguments Next {S R}. Arguments Stop {S R}.

Definition step_bind {S T R} (s : step S R) (f : S -> step T R) : step T R :=
  match s with Next x => f x | Stop r => Stop r end.

Inductive page_err (E : Type) := PageDB (e : E) | PageOutOfFuel.
Arguments PageDB {E}. Arguments PageOutOfFuel {E}.

Definition lift {E A} (m : res E A) : res (page_err E) A :=
  match m with Ok a => Ok a | Err e => Err (PageDB e) end.

Section loop.
Context {E S R : Type}.
Context (fetch : Z -> res E (list AuditEventRow)) (pageSize : Z).
(** what the first page is used for, and the body of the row loop *)
Context (first : list AuditEventRow -> S -> step S R) (body : S -> AuditEventRow -> step S R).

Fixpoint page_rows (s : S) (l : list AuditEventRow) : step S R :=
  match l with
  | [] => Next s
  | e :: l => step_bind (body s e) (fun s => page_rows s l)
  end.

(** [inl]: the end of the table was reached, with the last id seen; [inr]: an
    early return. *)
Fixpoint page_loop (fuel : nat) (firstPage : bool) (lastID : Z) (s : S) : res (page_err E) ((Z * S) + R) :=
  match fuel with
  | O => Err PageOutOfFuel
  | Datatypes.S fuel =>
      let? page := lift (fetch lastID) in
      match last page with
      | None => Ok (inl (lastID, s))
      | Some lst =>
          match step_bind (if firstPage then first page s else Next s) (fun s => page_rows s page) with
          | Stop r => Ok (inr r)
          | Next s =>
              if Z.of_nat (length page) <? pageSize then Ok (inl (ev_ID lst, s))
              else page_loop fuel false (ev_ID lst) s
          end
      end
  end.

Lemma page_rows_app s a b : page_rows s (a ++ b) = step_bind (page_rows s a) (fun s => page_rows s b).
Proof.
  revert s; induction a as [|e a IH]; intros s; simpl; [done|].
  destruct (body s e); simpl; [apply IH|done].
Qed.
End loop.

Definition last_id (a : Z) (l : list AuditEventRow) : Z := match last l with Some e => ev_ID e | None => a end.

Definition above (a : Z) (l : list AuditEventRow) : list AuditEventRow := List.filter (fun e => a <? ev_ID e) l.

Lemma sorted_by_filter {A} (k : A -> Z) (P : A -> bool) l : sorted_by k l -> sorted_by k (List.filter P l).
Proof.
  induction l as [|x l IH]; intros H; simpl; [done|]. apply sorted_by_cons in H as [Hx Hl].
  destruct (P x); [|auto]. apply sorted_by_cons. split; [|auto].
  intros y [Hy _]%elem_of_filter_bool. auto.
Qed.

Lemma filter_none {A} (P : A -> bool) l : (forall x, x ∈ l -> P x = false) -> List.filter P l = [].
Proof.
  induction l as [|x l IH]; intros H; simpl; [done|]. rewrite H by left. apply IH. intros. apply H. by right.
Qed.
Lemma filter_all {A} (P : A -> bool) l : (forall x, x ∈ l -> P x = true) -> List.filter P l = l.
Proof.
  induction l as [|x l IH]; intros H; simpl; [done|]. rewrite H by left. f_equal. apply IH. intros. apply H. by right.
Qed.
Lemma filter_sublist {A} (P : A -> bool) (l : list A) : List.filter P l `sublist_of` l.
Proof. induction l as [|x l IH]; simpl; [done|]. destruct (P x); by constructor. Qed.

Lemma above_above a b l : a <= b -> above b (above a l) = above b l.
Proof. intros. apply filter_filter_sub. intros e. rewrite !Z.ltb_lt. lia. Qed.

Lemma sorted_by_app {A} (k : A -> Z) a b : sorted_by k (a ++ b) ->
  sorted_by k a /\ sorted_by k b /\ (forall x y, x ∈ a -> y ∈ b -> k x <= k y).
Proof.
  induction a as [|x a IH]; simpl; intros H.
  - split_and!; [apply sorted_by_nil|done|]. intros x y Hx. by apply elem_of_nil in Hx.
  - apply sorted_by_cons in H as [Hx Hl]. destruct (IH Hl) as (Ha & Hb & Hab). split_and!; [|done|].
    + apply sorted_by_cons. split; [|done]. intros y Hy. apply Hx, elem_of_app. by left.
    + intros y z [-> |Hy]%elem_of_cons Hz; [apply Hx, elem_of_app; by right|auto].
Qed.

Lemma last_take_sorted a n rows lst :
  sorted_by ev_ID rows -> last (take n (above a rows)) = Some lst ->
  a < ev_ID lst /\ above (ev_ID lst) rows = above (ev_ID lst) (drop n (above a rows)) /\
  (NoDup (map ev_ID rows) -> above (ev_ID lst) rows = drop n (above a rows)).
Proof.
  intros Hs Hl. pose proof (sorted_by_filter ev_ID (fun e => a <? ev_ID e) _ Hs) as HF.
  fold (above a rows) in HF. apply last_Some in Hl as [pre Hpre].
  assert (lst ∈ above a rows) as Hin.
  { rewrite <- (take_drop n (above a rows)), Hpre. set_solver. }
  apply elem_of_filter_bool in Hin as [_ Ha%Z.ltb_lt].
  assert (forall e, e ∈ take n (above a rows) -> ev_ID e <= ev_ID lst) as Hle.
  { rewrite <- (take_drop n (above a rows)) in HF. apply sorted_by_app in HF as (HF & _ & _).
    rewrite Hpre in *. apply sorted_by_app in HF as (_ & _ & HF).
    intros e [He|He]%elem_of_app; [apply HF; set_solver|]. apply list_elem_of_singleton in He as ->. lia. }
  assert (above (ev_ID lst) rows = above (ev_ID lst) (drop n (above a rows))) as E.
  { rewrite <- (above_above a (ev_ID lst)) by lia. rewrite <- (take_drop n (above a rows)) at 1.
    unfold above at 1. rewrite List.filter_app, filter_none; [done|].
    intros e He. apply Z.ltb_ge. auto. }
  split_and!; [done|done|]. intros Hnd. rewrite E. apply filter_all. intros e He. apply Z.ltb_lt.
  pose proof (NoDup_map_filter ev_ID (fun e => a <? ev_ID e) _ Hnd) as Hnd'. fold (above a rows) in Hnd'.
  rewrite <- (take_drop n (above a rows)) in HF, Hnd'. apply sorted_by_app in HF as (_ & _ & HF).
  rewrite map_app in Hnd'. apply NoDup_app in Hnd' as (_ & Hnd' & _).
  assert (lst ∈ take n (above a rows)) by (rewrite Hpre; set_solver).
  specialize (HF lst e). specialize (Hnd' (ev_ID lst)).
  assert (ev_ID lst <> ev_ID e); [|specialize (HF ltac:(done) He); lia].
  intros Eq. apply Hnd'; apply elem_of_map; [by exists lst|exists e; by rewrite Eq].
Qed.

(** The first page of the rows above [a], and what the loop makes of a list of
    rows it saw. *)
Definition page_of (pageSize a : Z) (rows : list AuditEventRow) : list AuditEventRow :=
  take (Z.to_nat pageSize) (above a rows).

Definition page_from {S R} (first : list AuditEventRow -> S -> step S R) (body : S -> AuditEventRow -> step S R)
    (firstPage : bool) (page : list AuditEventRow) (s : S) (l : list AuditEventRow) : step S R :=
  step_bind (if firstPage && negb (bool_decide (l = [])) then first page s else Next s) (fun s => page_rows body s l).

Section pagination.
Context {E S R : Type} (fetch : Z -> res E (list AuditEventRow)) (rows : list AuditEventRow).
Context (pageSize : Z) (Hb : 0 < pageSize) (Hsorted : sorted_by ev_ID rows).
Context (Hfetch : forall a, 0 <= a -> fetch a = Ok (page_of pageSize a rows)).
Context (first : list AuditEventRow -> S -> step S R) (body : S -> AuditEventRow -> step S R).

(** Nothing above [a]: the loop ends where it is. *)
Lemma page_of_nil a : last (page_of pageSize a rows) = None -> above a rows = [].
Proof.
  unfold page_of. intros El%last_None. destruct (above a rows); [done|].
  by destruct (Z.to_nat pageSize) eqn:En; [lia|].
Qed.

Lemma above_nil_le a : above a rows = [] -> forall e, e ∈ rows -> ev_ID e <= a.
Proof.
  intros HF e He. destruct (Z.ltb_spec a (ev_ID e)) as [Hlt|]; [|lia].
  assert (e ∈ above a rows) as Hin by (apply elem_of_filter_bool; split; [done|by apply Z.ltb_lt]).
  rewrite HF in Hin. set_solver.
Qed.

(** A short page is the last one. *)
Lemma page_short a lst :
  last (page_of pageSize a rows) = Some lst -> Z.of_nat (length (page_of pageSize a rows)) < pageSize ->
  page_of pageSize a rows = above a rows /\ above (ev_ID lst) rows = [].
Proof.
  intros El Hsh. destruct (last_take_sorted a (Z.to_nat pageSize) rows lst Hsorted El) as (_ & Eab & _).
  unfold page_of in *. rewrite length_take in Hsh. split; [apply take_ge; lia|].
  rewrite Eab, drop_ge by lia. done.
Qed.

Lemma last_id_ge a V : V `sublist_of` above a rows -> a <= last_id a V.
Proof.
  intros HV. unfold last_id. destruct (last V) as [x|] eqn:Ex; [|lia]. apply last_Some in Ex as [V' ->].
  assert (x ∈ above a rows) as Hx by (eapply sublist_subseteq; [done|set_solver]).
  apply elem_of_filter_bool in Hx as [_ Hx%Z.ltb_lt]. lia.
Qed.

Lemma page_from_next firstPage page s l : l <> [] ->
  page_from first body firstPage page s l = step_bind (if firstPage then first page s else Next s) (fun s => page_rows body s l).
Proof. intros Hl. unfold page_from. rewrite bool_decide_eq_false_2 by done. by rewrite andb_true_r. Qed.

(** The loop from a given id is the loop body over some rows above it: all of
    them when ids are distinct; when it ends, nothing is left above its last
    id. *)
Lemma page_loop_visited fuel : forall firstPage a s,
  0 <= a -> (length (above a rows) < fuel)%nat ->
  exists V, V `sublist_of` above a rows /\ (NoDup (map ev_ID rows) -> V = above a rows) /\
    head V = head (page_of pageSize a rows) /\
    match page_from first body firstPage (page_of pageSize a rows) s V with
    | Stop r => page_loop fetch pageSize first body fuel firstPage a s = Ok (inr r)
    | Next s' => page_loop fetch pageSize first body fuel firstPage a s = Ok (inl (last_id a V, s')) /\
                 (forall e, e ∈ rows -> ev_ID e <= last_id a V)
    end.
Proof.
  induction fuel as [|fuel IH]; intros fp a s Ha Hf; [lia|].
  cbn [page_loop]. rewrite Hfetch by done. cbn [lift res_bind].
  destruct (last (page_of pageSize a rows)) as [lst|] eqn:El.
  2:{ apply page_of_nil in El. exists []. rewrite El. unfold page_from. rewrite andb_false_r. cbn.
      assert (page_of pageSize a rows = []) as -> by (unfold page_of; by rewrite El, take_nil).
      split_and!; [done..|]. by apply above_nil_le. }
  destruct (last_take_sorted a (Z.to_nat pageSize) rows lst Hsorted El) as (Hlst & Eab & End).
  set (P := page_of pageSize a rows) in *.
  assert (P <> []) as HP by (by intros E0; rewrite E0 in El).
  assert (above a rows = P ++ drop (Z.to_nat pageSize) (above a rows)) as Esplit by (unfold P, page_of; by rewrite take_drop).
  assert (above (ev_ID lst) rows `sublist_of` drop (Z.to_nat pageSize) (above a rows)) as Hsub by (rewrite Eab; apply filter_sublist).
  destruct (step_bind (if fp then first P s else Next s) (fun s => page_rows body s P)) as [s1|r] eqn:Ew.
  - destruct (Z.ltb_spec (Z.of_nat (length P)) pageSize) as [Hsh|Hsh].
    + destruct (page_short a lst El Hsh) as [EP Hnil]. exists P. rewrite page_from_next, Ew by done.
      assert (last_id a P = ev_ID lst) as -> by (unfold last_id; by rewrite El).
      fold P in EP. rewrite <- EP. split_and!; [done..|]. by apply above_nil_le.
    + assert (length P = Z.to_nat pageSize) as HlP by (unfold P, page_of in *; rewrite length_take in *; lia).
      destruct (IH false (ev_ID lst) s1) as (V & HV & HVnd & _ & HW); [lia| |].
      { apply sublist_length in Hsub. rewrite length_drop in Hsub. apply (f_equal length) in Esplit.
        rewrite length_app, length_drop in Esplit. lia. }
      exists (P ++ V). rewrite page_from_next by (by destruct P).
      assert (last_id a (P ++ V) = last_id (ev_ID lst) V) as ->.
      { unfold last_id. rewrite last_app. destruct (last V); [done|]. by rewrite El. }
      split_and!.
      * rewrite Esplit at 1. apply sublist_app; [done|]. by etrans.
      * intros Hnd. rewrite (HVnd Hnd), (End Hnd). symmetry. exact Esplit.
      * by destruct P.
      * destruct (if fp then first P s else Next s) as [s0|]; [|discriminate Ew]. cbn [step_bind] in *.
        rewrite page_rows_app, Ew. cbn [step_bind]. unfold page_from in HW. cbn [andb step_bind] in HW. exact HW.
  - exists (P ++ above (ev_ID lst) rows). split_and!.
    + rewrite Esplit at 1. by apply sublist_app.
    + intros Hnd. rewrite (End Hnd). symmetry. exact Esplit.
    + by destruct P.
    + rewrite page_from_next by (by destruct P).
      destruct (if fp then first P s else Next s) as [s0|]; cbn [step_bind] in *; [|by simplify_eq].
      by rewrite page_rows_app, Ew.
Qed.
End pagination.
