(* ===== verification/AuditResult.v ===== *)
(** The result of an offline verification run: the types of
    [internal/auditverify/verify.go], [seal.go], [keytransition.go] and
    [owed_break_glass.go] a run fills in, [escalate] and [ExitCode].

    The report's sentences are constructors: [reason] for the reason of a
    verdict, [not_proven] for the list of what a run does not establish, each
    carrying the values its sentence prints. *)
From Stdlib Require Import ZArith Lia.
From stdpp Require Import base numbers tactics sets list.
From S2P Require Import Prelude.
From S2P Require Import GoStr.
From S2P Require Import AuditCheckpoint.
From S2P Require Import AuditRecords.

Inductive verdict := VerdictValid | VerdictSealed | VerdictIndeterminate | VerdictBroken.
#[export] Instance verdict_eq_dec : EqDecision verdict.
Proof. solve_decision. Defined.

Definition verdictRank (v : verdict) : Z :=
  match v with VerdictValid => 0 | VerdictSealed => 1 | VerdictIndeterminate => 2 | VerdictBroken => 3 end.

(** Why the seal records cannot be trusted ([loadedSeals.problem]). *)
Inductive seal_problem :=
| SealsMalformed (e : record_err)
| SealsNoKey
| SealMACFails (seq : Z) (kid : bytes).

Inductive reason :=
| RNone
(* the walk *)
| RAnchorMismatch (id : Z)
| RGapUnauthenticated (id : Z)
| RResumeMissing (resume seq : Z)
| RGapRows (seq lastGood resume : Z)
| RNoEntryHash (id : Z)
| RNotLinked (id : Z)
| ROldEncoding (id : Z)
| RContentsChanged (id : Z)
| RRowsOutside (held last walked : Z)
(* seals *)
| RSealUntrusted (p : seal_problem)
| RAlso (r : reason) (p : seal_problem)
| RSealEventUnknown (id : Z)
| RSealNoEvent (seq : Z)
| RSealed (n : Z)
(* checkpoint and high-water mark *)
| RMarkSeals (mark recorded : Z)
| RMarkSignature (keyVersion : bytes)
| RMarkMissing
| RBelowMark (floor chained purged : Z)
| RCpSignature (id : Z)
| RBelowCheckpoint (id certified chained purged : Z)
| RCpHeadMissing (head id : Z)
| RCpHeadRewritten (head id : Z)
| RCpAnchorFails (id : Z)
(* key transitions *)
| RTransitionsMissing (event : Z)
| RTransitionsMalformed (e : record_err)
| RTransitionNewMAC (seq : Z) (epoch : bytes)
| RTransitionOldMAC (seq : Z) (epoch : bytes)
| RTransitionEpoch (seq : Z) (old new epoch : bytes)
| RTransitionEvent (event : Z)
| RTransitionHead (head seq : Z)
| RTransitionForged (seq cp : Z)
| RTransitionCheckpoint (cp seq : Z)
(* verification state *)
| RStateDeleted (event : Z)
| RStateSignature
| RStateDiscontinuity (kind why : bytes)
| RStatePastHead (claimed head : Z)
| RStateRolledBack (head event : Z)
| RStateHeadRewritten (id : Z)
| RStateHeadMissing (id : Z)
(* external anchor *)
| RExtToken
| RBelowExternal (certified chained purged : Z)
| RExtHeadMissing (head : Z)
| RExtHeadRewritten (head : Z)
| RExtNoBefore (certified head seq : Z)
| RExtBeyondSeal (certified seq before : Z)
| RExtHeadOutside (head : Z)
(* break glass *)
| ROwed (n : Z) (ids : list Z).

Record EventRangeT := mkRange { rg_FromID : Z; rg_ToID : Z; rg_FromTime : Z; rg_ToTime : Z }.
Record CheckpointStatus := mkCpStatus {
  cs_Present : bool; cs_Authenticated : bool; cs_KeyVersion : bytes; cs_ChainedEventsCertified : Z }.
Record RetentionGapStatus := mkGapStatus {
  rgs_Present : bool; rgs_RowID : Z; rgs_Authenticated : bool; rgs_Sanctioned : bool }.
Record AnchorStatus := mkAnchorStatus {
  as_Present : bool; as_Verified : bool; as_Provider : bytes; as_AnchoredAt : Z }.
Record ExternalAnchorStatus := mkExtStatus { xs_Supplied : bool; xs_Authenticated : bool; xs_SHA256 : bytes }.
Record OwedBreakGlassStatus := mkOwed {
  ob_Checked : bool; ob_Unsettled : Z; ob_ActivationIDs : list Z; ob_Error : bool }.
Record KeyTransitionStatus := mkKtStatus {
  ks_Present : bool; ks_Records : Z; ks_Authenticated : bool; ks_OldKeyVerified : Z }.
Record keyTransitionEvent := mkKtEvent { kte_id : Z; kte_description : bytes }.
Record sealEvent := mkSealEvent { se_id : Z; se_digest : bytes }.

Inductive anchor_check := SealAnchorNotSupplied | SealAnchorDiffers | SealAnchorUnauthenticated
                        | SealAnchorNotCovering | SealAnchorMatches.
#[export] Instance anchor_check_eq_dec : EqDecision anchor_check.
Proof. solve_decision. Defined.
Record SealAnchorCheck := mkAnchorCheck {
  ac_Digest : bytes; ac_VerifiedAtAcceptance : bool; ac_Check : anchor_check }.
Record SealSummary := mkSummary {
  ss_Seq : Z; ss_At : Z; ss_Operator : bytes; ss_Reason : bytes; ss_Evidence : bytes; ss_Gaps : list SealGap;
  ss_Truncated : bool; ss_LostEvents : Z; ss_Digest : bytes; ss_Anchor : option SealAnchorCheck;
  ss_Unpinned : list SealSpan }.
Record SealStatus := mkSealStatus {
  sst_Present : bool; sst_Records : Z; sst_Authenticated : bool; sst_Seals : list SealSummary }.

(** The sentences of [buildNotProven]. *)
Inductive not_proven :=
| NPHostAdmin
| NPNoKey
| NPRetentionGap (row : Z)
| NPAnchorNotVerified (rootsSupplied : bool)
| NPBreakGlassUnread
| NPSettledRows
| NPOldKeySignatures (unchecked records : Z)
| NPLostEvents (lost : option Z) (seq at_ : Z) (operator why : bytes)
| NPUnpinned (from through seq : Z)
| NPSealAnchor (seq : Z) (digest : bytes) (check : anchor_check)
| NPExternalAnchor
| NPNoCheckpoint.

(** [Result]; [r_AnchorSource], set by the command that prints the report, is
    left out. *)
Record Result := mkResult {
  r_Verdict : verdict;
  r_Reason : reason;
  r_Range : option EventRangeT;
  r_ChainedEvents : Z;
  r_PurgedEvents : Z;
  r_UnchainedLegacyEvents : Z;
  r_FirstBrokenID : option Z;
  r_Checkpoint : CheckpointStatus;
  r_RetentionGap : RetentionGapStatus;
  r_Anchor : AnchorStatus;
  r_ExternalAnchor : ExternalAnchorStatus;
  r_OwedBreakGlass : OwedBreakGlassStatus;
  r_KeyTransition : KeyTransitionStatus;
  r_Seal : SealStatus;
  r_NotProven : list not_proven;
  r_GeneratedAt : Z;
  r_VerifierVersion : bytes;
  r_keyTransitionEvents : list keyTransitionEvent;
  r_sealEvents : list sealEvent;
  r_stateEventID : Z;
  r_discontinuityEventID : Z;
  r_retentionAnchorRowID : Z;
  r_activeTransition : option KeyTransition;
  r_seals : sealBinding;
  r_sealRecs : list Seal }.

(** Assignment to one field of the result. *)
Definition set_Verdict (x : verdict) (r : Result) : Result :=
  mkResult x (r_Reason r) (r_Range r) (r_ChainedEvents r) (r_PurgedEvents r) (r_UnchainedLegacyEvents r)
    (r_FirstBrokenID r) (r_Checkpoint r) (r_RetentionGap r) (r_Anchor r) (r_ExternalAnchor r) (r_OwedBreakGlass r)
    (r_KeyTransition r) (r_Seal r) (r_NotProven r) (r_GeneratedAt r) (r_VerifierVersion r)
    (r_keyTransitionEvents r) (r_sealEvents r) (r_stateEventID r) (r_discontinuityEventID r)
    (r_retentionAnchorRowID r) (r_activeTransition r) (r_seals r) (r_sealRecs r).
Definition set_Reason (x : reason) (r : Result) : Result :=
  mkResult (r_Verdict r) x (r_Range r) (r_ChainedEvents r) (r_PurgedEvents r) (r_UnchainedLegacyEvents r)
    (r_FirstBrokenID r) (r_Checkpoint r) (r_RetentionGap r) (r_Anchor r) (r_ExternalAnchor r) (r_OwedBreakGlass r)
    (r_KeyTransition r) (r_Seal r) (r_NotProven r) (r_GeneratedAt r) (r_VerifierVersion r)
    (r_keyTransitionEvents r) (r_sealEvents r) (r_stateEventID r) (r_discontinuityEventID r)
    (r_retentionAnchorRowID r) (r_activeTransition r) (r_seals r) (r_sealRecs r).
Definition set_Range (x : option EventRangeT) (r : Result) : Result :=
  mkResult (r_Verdict r) (r_Reason r) x (r_ChainedEvents r) (r_PurgedEvents r) (r_UnchainedLegacyEvents r)
    (r_FirstBrokenID r) (r_Checkpoint r) (r_RetentionGap r) (r_Anchor r) (r_ExternalAnchor r) (r_OwedBreakGlass r)
    (r_KeyTransition r) (r_Seal r) (r_NotProven r) (r_GeneratedAt r) (r_VerifierVersion r)
    (r_keyTransitionEvents r) (r_sealEvents r) (r_stateEventID r) (r_discontinuityEventID r)
    (r_retentionAnchorRowID r) (r_activeTransition r) (r_seals r) (r_sealRecs r).
Definition set_ChainedEvents (x : Z) (r : Result) : Result :=
  mkResult (r_Verdict r) (r_Reason r) (r_Range r) x (r_PurgedEvents r) (r_UnchainedLegacyEvents r)
    (r_FirstBrokenID r) (r_Checkpoint r) (r_RetentionGap r) (r_Anchor r) (r_ExternalAnchor r) (r_OwedBreakGlass r)
    (r_KeyTransition r) (r_Seal r) (r_NotProven r) (r_GeneratedAt r) (r_VerifierVersion r)
    (r_keyTransitionEvents r) (r_sealEvents r) (r_stateEventID r) (r_discontinuityEventID r)
    (r_retentionAnchorRowID r) (r_activeTransition r) (r_seals r) (r_sealRecs r).
Definition set_PurgedEvents (x : Z) (r : Result) : Result :=
  mkResult (r_Verdict r) (r_Reason r) (r_Range r) (r_ChainedEvents r) x (r_UnchainedLegacyEvents r)
    (r_FirstBrokenID r) (r_Checkpoint r) (r_RetentionGap r) (r_Anchor r) (r_ExternalAnchor r) (r_OwedBreakGlass r)
    (r_KeyTransition r) (r_Seal r) (r_NotProven r) (r_GeneratedAt r) (r_VerifierVersion r)
    (r_keyTransitionEvents r) (r_sealEvents r) (r_stateEventID r) (r_discontinuityEventID r)
    (r_retentionAnchorRowID r) (r_activeTransition r) (r_seals r) (r_sealRecs r).
Definition set_UnchainedLegacyEvents (x : Z) (r : Result) : Result :=
  mkResult (r_Verdict r) (r_Reason r) (r_Range r) (r_ChainedEvents r) (r_PurgedEvents r) x (r_FirstBrokenID r)
    (r_Checkpoint r) (r_RetentionGap r) (r_Anchor r) (r_ExternalAnchor r) (r_OwedBreakGlass r) (r_KeyTransition r)
    (r_Seal r) (r_NotProven r) (r_GeneratedAt r) (r_VerifierVersion r) (r_keyTransitionEvents r) (r_sealEvents r)
    (r_stateEventID r) (r_discontinuityEventID r) (r_retentionAnchorRowID r) (r_activeTransition r) (r_seals r)
    (r_sealRecs r).
Definition set_FirstBrokenID (x : option Z) (r : Result) : Result :=
  mkResult (r_Verdict r) (r_Reason r) (r_Range r) (r_ChainedEvents r) (r_PurgedEvents r)
    (r_UnchainedLegacyEvents r) x (r_Checkpoint r) (r_RetentionGap r) (r_Anchor r) (r_ExternalAnchor r)
    (r_OwedBreakGlass r) (r_KeyTransition r) (r_Seal r) (r_NotProven r) (r_GeneratedAt r) (r_VerifierVersion r)
    (r_keyTransitionEvents r) (r_sealEvents r) (r_stateEventID r) (r_discontinuityEventID r)
    (r_retentionAnchorRowID r) (r_activeTransition r) (r_seals r) (r_sealRecs r).
Definition set_Checkpoint (x : CheckpointStatus) (r : Result) : Result :=
  mkResult (r_Verdict r) (r_Reason r) (r_Range r) (r_ChainedEvents r) (r_PurgedEvents r)
    (r_UnchainedLegacyEvents r) (r_FirstBrokenID r) x (r_RetentionGap r) (r_Anchor r) (r_ExternalAnchor r)
    (r_OwedBreakGlass r) (r_KeyTransition r) (r_Seal r) (r_NotProven r) (r_GeneratedAt r) (r_VerifierVersion r)
    (r_keyTransitionEvents r) (r_sealEvents r) (r_stateEventID r) (r_discontinuityEventID r)
    (r_retentionAnchorRowID r) (r_activeTransition r) (r_seals r) (r_sealRecs r).
Definition set_RetentionGap (x : RetentionGapStatus) (r : Result) : Result :=
  mkResult (r_Verdict r) (r_Reason r) (r_Range r) (r_ChainedEvents r) (r_PurgedEvents r)
    (r_UnchainedLegacyEvents r) (r_FirstBrokenID r) (r_Checkpoint r) x (r_Anchor r) (r_ExternalAnchor r)
    (r_OwedBreakGlass r) (r_KeyTransition r) (r_Seal r) (r_NotProven r) (r_GeneratedAt r) (r_VerifierVersion r)
    (r_keyTransitionEvents r) (r_sealEvents r) (r_stateEventID r) (r_discontinuityEventID r)
    (r_retentionAnchorRowID r) (r_activeTransition r) (r_seals r) (r_sealRecs r).
Definition set_Anchor (x : AnchorStatus) (r : Result) : Result :=
  mkResult (r_Verdict r) (r_Reason r) (r_Range r) (r_ChainedEvents r) (r_PurgedEvents r)
    (r_UnchainedLegacyEvents r) (r_FirstBrokenID r) (r_Checkpoint r) (r_RetentionGap r) x (r_ExternalAnchor r)
    (r_OwedBreakGlass r) (r_KeyTransition r) (r_Seal r) (r_NotProven r) (r_GeneratedAt r) (r_VerifierVersion r)
    (r_keyTransitionEvents r) (r_sealEvents r) (r_stateEventID r) (r_discontinuityEventID r)
    (r_retentionAnchorRowID r) (r_activeTransition r) (r_seals r) (r_sealRecs r).
Definition set_ExternalAnchor (x : ExternalAnchorStatus) (r : Result) : Result :=
  mkResult (r_Verdict r) (r_Reason r) (r_Range r) (r_ChainedEvents r) (r_PurgedEvents r)
    (r_UnchainedLegacyEvents r) (r_FirstBrokenID r) (r_Checkpoint r) (r_RetentionGap r) (r_Anchor r) x
    (r_OwedBreakGlass r) (r_KeyTransition r) (r_Seal r) (r_NotProven r) (r_GeneratedAt r) (r_VerifierVersion r)
    (r_keyTransitionEvents r) (r_sealEvents r) (r_stateEventID r) (r_discontinuityEventID r)
    (r_retentionAnchorRowID r) (r_activeTransition r) (r_seals r) (r_sealRecs r).
Definition set_OwedBreakGlass (x : OwedBreakGlassStatus) (r : Result) : Result :=
  mkResult (r_Verdict r) (r_Reason r) (r_Range r) (r_ChainedEvents r) (r_PurgedEvents r)
    (r_UnchainedLegacyEvents r) (r_FirstBrokenID r) (r_Checkpoint r) (r_RetentionGap r) (r_Anchor r)
    (r_ExternalAnchor r) x (r_KeyTransition r) (r_Seal r) (r_NotProven r) (r_GeneratedAt r) (r_VerifierVersion r)
    (r_keyTransitionEvents r) (r_sealEvents r) (r_stateEventID r) (r_discontinuityEventID r)
    (r_retentionAnchorRowID r) (r_activeTransition r) (r_seals r) (r_sealRecs r).
Definition set_KeyTransition (x : KeyTransitionStatus) (r : Result) : Result :=
  mkResult (r_Verdict r) (r_Reason r) (r_Range r) (r_ChainedEvents r) (r_PurgedEvents r)
    (r_UnchainedLegacyEvents r) (r_FirstBrokenID r) (r_Checkpoint r) (r_RetentionGap r) (r_Anchor r)
    (r_ExternalAnchor r) (r_OwedBreakGlass r) x (r_Seal r) (r_NotProven r) (r_GeneratedAt r) (r_VerifierVersion r)
    (r_keyTransitionEvents r) (r_sealEvents r) (r_stateEventID r) (r_discontinuityEventID r)
    (r_retentionAnchorRowID r) (r_activeTransition r) (r_seals r) (r_sealRecs r).
Definition set_Seal (x : SealStatus) (r : Result) : Result :=
  mkResult (r_Verdict r) (r_Reason r) (r_Range r) (r_ChainedEvents r) (r_PurgedEvents r)
    (r_UnchainedLegacyEvents r) (r_FirstBrokenID r) (r_Checkpoint r) (r_RetentionGap r) (r_Anchor r)
    (r_ExternalAnchor r) (r_OwedBreakGlass r) (r_KeyTransition r) x (r_NotProven r) (r_GeneratedAt r)
    (r_VerifierVersion r) (r_keyTransitionEvents r) (r_sealEvents r) (r_stateEventID r) (r_discontinuityEventID r)
    (r_retentionAnchorRowID r) (r_activeTransition r) (r_seals r) (r_sealRecs r).
Definition set_NotProven (x : list not_proven) (r : Result) : Result :=
  mkResult (r_Verdict r) (r_Reason r) (r_Range r) (r_ChainedEvents r) (r_PurgedEvents r)
    (r_UnchainedLegacyEvents r) (r_FirstBrokenID r) (r_Checkpoint r) (r_RetentionGap r) (r_Anchor r)
    (r_ExternalAnchor r) (r_OwedBreakGlass r) (r_KeyTransition r) (r_Seal r) x (r_GeneratedAt r)
    (r_VerifierVersion r) (r_keyTransitionEvents r) (r_sealEvents r) (r_stateEventID r) (r_discontinuityEventID r)
    (r_retentionAnchorRowID r) (r_activeTransition r) (r_seals r) (r_sealRecs r).
Definition set_keyTransitionEvents (x : list keyTransitionEvent) (r : Result) : Result :=
  mkResult (r_Verdict r) (r_Reason r) (r_Range r) (r_ChainedEvents r) (r_PurgedEvents r)
    (r_UnchainedLegacyEvents r) (r_FirstBrokenID r) (r_Checkpoint r) (r_RetentionGap r) (r_Anchor r)
    (r_ExternalAnchor r) (r_OwedBreakGlass r) (r_KeyTransition r) (r_Seal r) (r_NotProven r) (r_GeneratedAt r)
    (r_VerifierVersion r) x (r_sealEvents r) (r_stateEventID r) (r_discontinuityEventID r)
    (r_retentionAnchorRowID r) (r_activeTransition r) (r_seals r) (r_sealRecs r).
Definition set_sealEvents (x : list sealEvent) (r : Result) : Result :=
  mkResult (r_Verdict r) (r_Reason r) (r_Range r) (r_ChainedEvents r) (r_PurgedEvents r)
    (r_UnchainedLegacyEvents r) (r_FirstBrokenID r) (r_Checkpoint r) (r_RetentionGap r) (r_Anchor r)
    (r_ExternalAnchor r) (r_OwedBreakGlass r) (r_KeyTransition r) (r_Seal r) (r_NotProven r) (r_GeneratedAt r)
    (r_VerifierVersion r) (r_keyTransitionEvents r) x (r_stateEventID r) (r_discontinuityEventID r)
    (r_retentionAnchorRowID r) (r_activeTransition r) (r_seals r) (r_sealRecs r).
Definition set_stateEventID (x : Z) (r : Result) : Result :=
  mkResult (r_Verdict r) (r_Reason r) (r_Range r) (r_ChainedEvents r) (r_PurgedEvents r)
    (r_UnchainedLegacyEvents r) (r_FirstBrokenID r) (r_Checkpoint r) (r_RetentionGap r) (r_Anchor r)
    (r_ExternalAnchor r) (r_OwedBreakGlass r) (r_KeyTransition r) (r_Seal r) (r_NotProven r) (r_GeneratedAt r)
    (r_VerifierVersion r) (r_keyTransitionEvents r) (r_sealEvents r) x (r_discontinuityEventID r)
    (r_retentionAnchorRowID r) (r_activeTransition r) (r_seals r) (r_sealRecs r).
Definition set_discontinuityEventID (x : Z) (r : Result) : Result :=
  mkResult (r_Verdict r) (r_Reason r) (r_Range r) (r_ChainedEvents r) (r_PurgedEvents r)
    (r_UnchainedLegacyEvents r) (r_FirstBrokenID r) (r_Checkpoint r) (r_RetentionGap r) (r_Anchor r)
    (r_ExternalAnchor r) (r_OwedBreakGlass r) (r_KeyTransition r) (r_Seal r) (r_NotProven r) (r_GeneratedAt r)
    (r_VerifierVersion r) (r_keyTransitionEvents r) (r_sealEvents r) (r_stateEventID r) x
    (r_retentionAnchorRowID r) (r_activeTransition r) (r_seals r) (r_sealRecs r).
Definition set_retentionAnchorRowID (x : Z) (r : Result) : Result :=
  mkResult (r_Verdict r) (r_Reason r) (r_Range r) (r_ChainedEvents r) (r_PurgedEvents r)
    (r_UnchainedLegacyEvents r) (r_FirstBrokenID r) (r_Checkpoint r) (r_RetentionGap r) (r_Anchor r)
    (r_ExternalAnchor r) (r_OwedBreakGlass r) (r_KeyTransition r) (r_Seal r) (r_NotProven r) (r_GeneratedAt r)
    (r_VerifierVersion r) (r_keyTransitionEvents r) (r_sealEvents r) (r_stateEventID r) (r_discontinuityEventID r)
    x (r_activeTransition r) (r_seals r) (r_sealRecs r).
Definition set_activeTransition (x : option KeyTransition) (r : Result) : Result :=
  mkResult (r_Verdict r) (r_Reason r) (r_Range r) (r_ChainedEvents r) (r_PurgedEvents r)
    (r_UnchainedLegacyEvents r) (r_FirstBrokenID r) (r_Checkpoint r) (r_RetentionGap r) (r_Anchor r)
    (r_ExternalAnchor r) (r_OwedBreakGlass r) (r_KeyTransition r) (r_Seal r) (r_NotProven r) (r_GeneratedAt r)
    (r_VerifierVersion r) (r_keyTransitionEvents r) (r_sealEvents r) (r_stateEventID r) (r_discontinuityEventID r)
    (r_retentionAnchorRowID r) x (r_seals r) (r_sealRecs r).
Definition set_seals (x : sealBinding) (r : Result) : Result :=
  mkResult (r_Verdict r) (r_Reason r) (r_Range r) (r_ChainedEvents r) (r_PurgedEvents r)
    (r_UnchainedLegacyEvents r) (r_FirstBrokenID r) (r_Checkpoint r) (r_RetentionGap r) (r_Anchor r)
    (r_ExternalAnchor r) (r_OwedBreakGlass r) (r_KeyTransition r) (r_Seal r) (r_NotProven r) (r_GeneratedAt r)
    (r_VerifierVersion r) (r_keyTransitionEvents r) (r_sealEvents r) (r_stateEventID r) (r_discontinuityEventID r)
    (r_retentionAnchorRowID r) (r_activeTransition r) x (r_sealRecs r).
Definition set_sealRecs (x : list Seal) (r : Result) : Result :=
  mkResult (r_Verdict r) (r_Reason r) (r_Range r) (r_ChainedEvents r) (r_PurgedEvents r)
    (r_UnchainedLegacyEvents r) (r_FirstBrokenID r) (r_Checkpoint r) (r_RetentionGap r) (r_Anchor r)
    (r_ExternalAnchor r) (r_OwedBreakGlass r) (r_KeyTransition r) (r_Seal r) (r_NotProven r) (r_GeneratedAt r)
    (r_VerifierVersion r) (r_keyTransitionEvents r) (r_sealEvents r) (r_stateEventID r) (r_discontinuityEventID r)
    (r_retentionAnchorRowID r) (r_activeTransition r) (r_seals r) x.

Definition escalate (v : verdict) (why : reason) (r : Result) : Result :=
  if verdictRank (r_Verdict r) <? verdictRank v then set_Reason why (set_Verdict v r) else r.

Definition ExitCode (r : Result) : Z :=
  match r_Verdict r with VerdictValid => 0 | VerdictBroken => 1 | VerdictIndeterminate => 2 | VerdictSealed => 4 end.

(** A Go zero value of the nested statuses. *)
Definition no_checkpoint : CheckpointStatus := mkCpStatus false false [] 0.
Definition no_gap : RetentionGapStatus := mkGapStatus false 0 false false.
Definition zero_time : Z := -62135596800 * 1000000000.
Definition empty_result (generatedAt : Z) (version : bytes) : Result :=
  mkResult VerdictValid RNone None 0 0 0 None no_checkpoint no_gap (mkAnchorStatus false false [] zero_time)
    (mkExtStatus false false []) (mkOwed false 0 [] false) (mkKtStatus false 0 false 0)
    (mkSealStatus false 0 false []) [] generatedAt version [] [] 0 0 0 None (mkBinding 0 []) [].

(** * The verdict only rises *)

Lemma verdictRank_inj v w : verdictRank v = verdictRank w -> v = w.
Proof. by destruct v, w. Qed.

Lemma escalate_rank v why r : verdictRank (r_Verdict (escalate v why r)) = Z.max (verdictRank (r_Verdict r)) (verdictRank v).
Proof. unfold escalate. destruct (Z.ltb_spec (verdictRank (r_Verdict r)) (verdictRank v)); simpl; lia. Qed.

Lemma escalate_broken why r : r_Verdict (escalate VerdictBroken why r) = VerdictBroken.
Proof. apply verdictRank_inj. rewrite escalate_rank. by destruct (r_Verdict r). Qed.

Lemma broken_escalate v why r : r_Verdict r = VerdictBroken -> escalate v why r = r.
Proof. unfold escalate. intros ->. by destruct v. Qed.

(** What the checks after the walk leave alone: the walk's findings, the purge
    credit and the seals; and, with [k], the checkpoint status. *)
Definition frame (k : bool) (r : Result) :=
  (r_ChainedEvents r, r_UnchainedLegacyEvents r, r_PurgedEvents r, r_RetentionGap r, r_seals r, r_sealRecs r,
   if k then Some (r_Checkpoint r) else None).

(** [r'] follows from [r] by checks that can only raise the verdict. *)
Definition raises (k : bool) (r r' : Result) : Prop :=
  verdictRank (r_Verdict r) <= verdictRank (r_Verdict r') /\ frame k r' = frame k r.
#[export] Instance raises_preorder k : PreOrder (raises k).
Proof.
  split; [intros r; split; [lia|done]|]. intros r s t [? E1] [? E2]. split; [lia|]. by rewrite E2, E1.
Qed.
Lemma escalate_frame k v why r : frame k (escalate v why r) = frame k r.
Proof. unfold escalate. by destruct (_ <? _). Qed.
Lemma escalate_raises k v why r : raises k r (escalate v why r).
Proof. split; [rewrite escalate_rank; lia|apply escalate_frame]. Qed.
Lemma raises_broken k r r' : raises k r r' -> r_Verdict r = VerdictBroken -> r_Verdict r' = VerdictBroken.
Proof. intros [Hr _] E. rewrite E in Hr. by destruct (r_Verdict r'). Qed.
Lemma raises_not_broken k r r' : raises k r r' -> r_Verdict r' <> VerdictBroken -> r_Verdict r <> VerdictBroken.
Proof. intros Hr Hn E. by apply Hn, (raises_broken k r). Qed.
Lemma raises_weaken k r r' : raises k r r' -> raises false r r'.
Proof. intros [? E]. split; [done|]. unfold frame in *. congruence. Qed.
#[export] Hint Resolve escalate_raises : kx.
#[export] Hint Extern 0 (raises _ ?r ?r) => reflexivity : kx.
