(* ===== verification/AuditWalk.v ===== *)
(** The walk over the hash chain: [walkChain] of
    [internal/auditverify/verify.go].

    The rows are fetched in keyset-paginated batches; [walk_row] is the body of
    the row loop, [walk_head] the check of the first row against the retention
    anchor, [walk_loop] the batch loop, an instance of [page_loop].  The loop
    has fuel: every batch but the last consumes at least one row, so the number
    of rows plus one is enough ([walkChain_visited]). *)
From Stdlib Require Import ZArith Lia.
From stdpp Require Import base numbers tactics sets list.
From S2P Require Import Prelude.
From S2P Require Import Sha256.
From S2P Require Import GoStr.
From S2P Require Import AuditHash.
From S2P Require Import AuditCheckpoint.
From S2P Require Import AuditRecords.
From S2P Require Import AuditDB.
From S2P Require Import AuditPages.
From S2P Require Import AuditResult.

(** The local variables of [walkChain]. *)
Record walk := mkWalk {
  w_prevHash : bytes; w_started : bool; w_lastChained : Z; w_chained : Z; w_unchained : Z;
  w_gaps : list sealedGap; w_res : Result }.

Definition with_counts (w : walk) (r : Result) : Result :=
  set_UnchainedLegacyEvents (w_unchained w) (set_ChainedEvents (w_chained w) r).

(** The [broken] closure, and the same four assignments where they are inline. *)
Definition broken (w : walk) (id : Z) (why : reason) : Result :=
  with_counts w (escalate VerdictBroken why (set_FirstBrokenID (Some id) (w_res w))).

Definition sealedGapAt (gaps : list sealedGap) (id : Z) : option sealedGap :=
  List.find (fun g => sg_ResumeID (gp g) =? id) gaps.

(** The first batch: does the earliest surviving row start the chain? *)
Definition walk_head (anchor : option RetentionAnchor) (anchorAuthenticated : bool) (head : AuditEventRow) (w : walk) : step walk Result :=
  if negb (bool_decide (ev_EntryHash head = [])) && negb (bool_decide (ev_PrevHash head = GenesisHash)) then
    let gap := mkGapStatus true (ev_ID head) false false in
    match anchor with
    | Some a =>
        if anchorAuthenticated then
          if (ev_ID head =? ra_RowID a) && bool_decide (ev_PrevHash head = ra_PrevHash a) &&
             bool_decide (ev_EntryHash head = ra_EntryHash a)
          then Next (mkWalk (ra_PrevHash a) true (w_lastChained w) (w_chained w) (w_unchained w) (w_gaps w)
                       (set_RetentionGap (mkGapStatus true (ev_ID head) true true) (w_res w)))
          else Stop (broken (mkWalk (w_prevHash w) (w_started w) (w_lastChained w) (w_chained w) (w_unchained w)
                               (w_gaps w) (set_RetentionGap gap (w_res w)))
                       (ev_ID head) (RAnchorMismatch (ev_ID head)))
        else Next (mkWalk (ev_PrevHash head) true (w_lastChained w) (w_chained w) (w_unchained w) (w_gaps w)
                     (escalate VerdictIndeterminate (RGapUnauthenticated (ev_ID head)) (set_RetentionGap gap (w_res w))))
    | None =>
        match sealedGapAt (w_gaps w) (ev_ID head) with
        | Some _ => Next (mkWalk (w_prevHash w) (w_started w) (w_lastChained w) (w_chained w) (w_unchained w)
                            (w_gaps w) (set_RetentionGap no_gap (w_res w)))
        | None => Next (mkWalk (ev_PrevHash head) true (w_lastChained w) (w_chained w) (w_unchained w) (w_gaps w)
                          (escalate VerdictIndeterminate (RGapUnauthenticated (ev_ID head)) (set_RetentionGap gap (w_res w))))
        end
    end
  else Next w.

(** Gaps resuming before this row: dropped while nothing is chained yet,
    otherwise the first one's resume row is missing. *)
Fixpoint drop_gaps (chained id : Z) (gaps : list sealedGap) : list sealedGap + sealedGap :=
  match gaps with
  | g :: gaps' =>
      if sg_ResumeID (gp g) <? id then
        if chained =? 0 then drop_gaps chained id gaps' else inr g
      else inl gaps
  | [] => inl []
  end.

(** A row that resumes a sealed gap: the rows around it must be the recorded
    ones, and the link the seal names is accepted. *)
Definition walk_gap (w : walk) (e : AuditEventRow) : step walk Result :=
  match w_gaps w with
  | g :: gaps =>
      if (sg_ResumeID (gp g) =? ev_ID e) && negb (bool_decide (ev_EntryHash e = [])) then
        let sanctioned := (w_chained w =? 0) && rgs_Sanctioned (r_RetentionGap (w_res w)) in
        let lastGoodID := if sanctioned then w_lastChained w else sg_LastGoodID (gp g) in
        let lastGoodHash := if sanctioned then w_prevHash w else sg_LastGoodHash (gp g) in
        if negb (w_lastChained w =? lastGoodID) ||
           (negb (lastGoodID =? 0) && negb (bool_decide (w_prevHash w = lastGoodHash))) ||
           negb (bool_decide (ev_EntryHash e = sg_ResumeHash (gp g)))
        then Stop (broken w (ev_ID e) (RGapRows (gp_seq g) lastGoodID (sg_ResumeID (gp g))))
        else Next (mkWalk (ev_PrevHash e) true (w_lastChained w) (w_chained w) (w_unchained w) gaps (w_res w))
      else Next w
  | [] => Next w
  end.

(** The in-chain events later checks read. *)
Definition note_event (e : AuditEventRow) (r : Result) : Result :=
  if bool_decide (ev_EventType e = auditKeyTransitionEvent) then
    set_keyTransitionEvents (r_keyTransitionEvents r ++ [mkKtEvent (ev_ID e) (ev_Description e)]) r
  else if bool_decide (ev_EventType e = auditSealEvent) then
    set_sealEvents (r_sealEvents r ++ [mkSealEvent (ev_ID e) (default [] (sealEventDigest (ev_Description e)))]) r
  else if bool_decide (ev_EventType e = auditVerifyStateMarkerEvent) then set_stateEventID (ev_ID e) r
  else if bool_decide (ev_EventType e = auditVerifyStateDiscontinuityEvent) then
    set_discontinuityEventID (ev_ID e) (set_stateEventID (ev_ID e) r)
  else r.

(** The link and content checks of one row. *)
Definition walk_link (w : walk) (e : AuditEventRow) : step walk Result :=
  if negb (w_started w) && bool_decide (ev_EntryHash e = []) then
    Next (mkWalk (w_prevHash w) false (w_lastChained w) (w_chained w) (w_unchained w + 1) (w_gaps w) (w_res w))
  else if bool_decide (ev_EntryHash e = []) then Stop (broken w (ev_ID e) (RNoEntryHash (ev_ID e)))
  else if negb (bool_decide (ev_PrevHash e = w_prevHash w)) then Stop (broken w (ev_ID e) (RNotLinked (ev_ID e)))
  else if negb (bool_decide (ComputeEntryHash e (ev_PrevHash e) = ev_EntryHash e)) then
    Stop (broken w (ev_ID e)
      (if bool_decide (ComputeEntryHashPre1452 e (ev_PrevHash e) = ev_EntryHash e)
       then ROldEncoding (ev_ID e) else RContentsChanged (ev_ID e)))
  else Next (mkWalk (ev_EntryHash e) true (ev_ID e) (w_chained w + 1) (w_unchained w) (w_gaps w)
               (note_event e (w_res w))).

Definition walk_row (w : walk) (e : AuditEventRow) : step walk Result :=
  match drop_gaps (w_chained w) (ev_ID e) (w_gaps w) with
  | inr g => Stop (broken w (sg_ResumeID (gp g)) (RResumeMissing (sg_ResumeID (gp g)) (gp_seq g)))
  | inl gaps =>
      let w := mkWalk (w_prevHash w) (w_started w) (w_lastChained w) (w_chained w) (w_unchained w) gaps (w_res w) in
      step_bind (walk_gap w e) (fun w => walk_link w e)
  end.

Definition walk_rows (w : walk) (l : list AuditEventRow) : step walk Result := page_rows walk_row w l.

Section loop.
Context {E : Type} (db : DB E) (batchSize : Z) (anchor : option RetentionAnchor) (anchorAuthenticated : bool).

Definition walk_loop (fuel : nat) (firstBatch : bool) (lastID : Z) (w : walk) : res (page_err E) ((Z * walk) + Result) :=
  page_loop (fun lastID => StreamAuditEvents db lastID batchSize) batchSize
    (fun batch w => match head batch with Some hd => walk_head anchor anchorAuthenticated hd w | None => Next w end)
    walk_row fuel firstBatch lastID w.

(** After the loop: a gap whose resume row never came, the counts, and the
    count of rows the walk cannot have visited. *)
Definition walk_finish (lastID : Z) (w : walk) : res (page_err E) Result :=
  match w_gaps w with
  | g :: _ => Ok (broken w (sg_ResumeID (gp g)) (RResumeMissing (sg_ResumeID (gp g)) (gp_seq g)))
  | [] =>
      let r := with_counts w (w_res w) in
      let? held := lift (CountAuditEventsThrough db lastID) in
      let walked := w_chained w + w_unchained w in
      Ok (if negb (held =? walked) then escalate VerdictBroken (RRowsOutside held lastID walked) r else r)
  end.

Definition walkChain (fuel : nat) (result : Result) (gaps : list sealedGap) : res (page_err E) Result :=
  let? out := walk_loop fuel true 0 (mkWalk GenesisHash false 0 0 0 gaps result) in
  match out with
  | inr r => Ok r
  | inl (lastID, w) => walk_finish lastID w
  end.
End loop.

(** * Pagination *)

Lemma walk_rows_app w a b : walk_rows w (a ++ b) = step_bind (walk_rows w a) (fun w => walk_rows w b).
Proof. apply page_rows_app. Qed.

(** The whole walk over a list of rows: the first-row check, then the rows. *)
Definition walk_from (anchor : option RetentionAnchor) (auth : bool) (w : walk) (l : list AuditEventRow) : step walk Result :=
  match l with
  | [] => Next w
  | hd :: _ => step_bind (walk_head anchor auth hd w) (fun w => walk_rows w l)
  end.

(** What the whole walk computes, with no batches in sight. *)
Definition walk_table {E} (db : DB E) anchor auth result gaps (rows : list AuditEventRow) : res (page_err E) Result :=
  match walk_from anchor auth (mkWalk GenesisHash false 0 0 0 gaps result) rows with
  | Stop r => Ok r
  | Next w => walk_finish db (last_id 0 rows) w
  end.

Lemma walkChain_visited {E} (db : DB E) rows outside `{!EventTable db rows outside} b anchor auth fuel result gaps :
  0 < b -> (length rows < fuel)%nat ->
  exists V, V `sublist_of` above 0 rows /\ (NoDup (map ev_ID rows) -> V = above 0 rows) /\
    walkChain db b anchor auth fuel result gaps = walk_table db anchor auth result gaps V /\
    (forall w', walk_from anchor auth (mkWalk GenesisHash false 0 0 0 gaps result) V = Next w' ->
       forall e, e ∈ rows -> ev_ID e <= last_id 0 V).
Proof.
  intros Hb Hf. set (w := mkWalk GenesisHash false 0 0 0 gaps result).
  set (first := fun batch w => match head batch with Some hd => walk_head anchor auth hd w | None => Next w end).
  destruct (page_loop_visited (fun a => StreamAuditEvents db a b) rows b Hb et_sorted (fun a Ha => et_stream a b Ha)
              first walk_row fuel true 0 w) as (V & HV & Hnd & Hhd & HW); [done| |].
  { pose proof (sublist_length _ _ (filter_sublist (fun e => 0 <? ev_ID e) rows)). unfold above. lia. }
  exists V. split; [done|]. split; [done|]. unfold walkChain, walk_table, walk_loop. fold w first.
  assert (page_from first walk_row true (page_of b 0 rows) w V = walk_from anchor auth w V) as Efrom.
  { unfold page_from, walk_from, first. rewrite <- Hhd. destruct V as [|hd V]; [done|].
    rewrite bool_decide_eq_false_2 by done. done. }
  rewrite Efrom in HW. destruct (walk_from anchor auth w V) as [w'|r].
  - destruct HW as [-> HW2]. cbn [res_bind]. split; [done|]. intros w0 [= <-]. done.
  - rewrite HW. cbn [res_bind]. split; [done|]. by intros ? ?.
Qed.

(** The walk of a healthy table always returns a result. *)
Lemma walk_table_total {E} (db : DB E) rows outside `{!EventTable db rows outside} anchor auth result gaps V :
  V `sublist_of` above 0 rows -> exists r, walk_table db anchor auth result gaps V = Ok r.
Proof.
  intros HV. unfold walk_table. destruct (walk_from _ _ _ _) as [w|r]; [|eauto].
  unfold walk_finish. destruct (w_gaps w); [|eauto]. rewrite et_count.
  - cbn [lift res_bind]. eauto.
  - unfold last_id. destruct (last V) as [e|] eqn:Ee; [|lia]. apply last_Some in Ee as [V' ->].
    assert (e ∈ above 0 rows) as He by (eapply sublist_subseteq; [done|set_solver]).
    apply elem_of_filter_bool in He as [_ He%Z.ltb_lt]. lia.
Qed.

(** The walk terminates and its outcome does not depend on how the table is
    paged: over a table with distinct ids, any two positive batch sizes, with
    fuel for one batch per row, return the same result, and a result is
    returned. *)
Theorem walkChain_batch_independent {E} (db : DB E) rows outside b b' anchor auth fuel fuel' result gaps :
  EventTable db rows outside -> NoDup (map ev_ID rows) ->
  0 < b -> 0 < b' -> (length rows < fuel)%nat -> (length rows < fuel')%nat ->
  exists r, walkChain db b anchor auth fuel result gaps = Ok r /\
            walkChain db b' anchor auth fuel' result gaps = Ok r.
Proof.
  intros HT Hnd Hb Hb' Hf Hf'.
  destruct (walkChain_visited db rows outside b anchor auth fuel result gaps Hb Hf) as (V & HV & EV & -> & _).
  destruct (walkChain_visited db rows outside b' anchor auth fuel' result gaps Hb' Hf') as (V' & _ & EV' & -> & _).
  rewrite (EV' Hnd), <- (EV Hnd). destruct (walk_table_total db rows outside anchor auth result gaps V HV) as [r ->].
  eauto.
Qed.

(** * What an accepted walk establishes *)

Definition gap_joins (gaps : list sealedGap) (last : Z) (prev : bytes) (e : AuditEventRow) : Prop :=
  exists g, g ∈ gaps /\ sg_ResumeID (gp g) = ev_ID e /\ sg_ResumeHash (gp g) = ev_EntryHash e /\
    sg_LastGoodID (gp g) = last /\ (last <> 0 -> sg_LastGoodHash (gp g) = prev).

(** A hash chain from [prev] (the hash of row [last]) in which a row links to
    the one before it, or resumes a sealed gap that names both sides. *)
Fixpoint chained (gaps : list sealedGap) (last : Z) (prev : bytes) (rows : list AuditEventRow) : Prop :=
  match rows with
  | [] => True
  | e :: rows =>
      (ev_PrevHash e = prev \/ gap_joins gaps last prev e) /\
      ComputeEntryHash e (ev_PrevHash e) = ev_EntryHash e /\ ev_EntryHash e <> [] /\
      chained gaps (ev_ID e) (ev_EntryHash e) rows
  end.

Lemma chained_no_gaps last prev rows : chained [] last prev rows -> linked prev rows.
Proof.
  revert last prev; induction rows as [|e rows IH]; intros last prev; simpl; [done|].
  intros ([?|(g & Hg & _)] & ? & ? & ?); [|set_solver]. split_and!; [done..|]. by eapply IH.
Qed.

Lemma chained_mono gaps gaps' last prev rows :
  gaps ⊆ gaps' -> chained gaps last prev rows -> chained gaps' last prev rows.
Proof.
  intros Hs. revert last prev; induction rows as [|e rows IH]; intros last prev; simpl; [done|].
  intros (Hj & ? & ? & Hr). split_and!; [|done..|by apply IH].
  destruct Hj as [?|(g & Hg & ?)]; [by left|right; exists g; split; [by apply Hs|done]].
Qed.

Lemma chained_app gaps last prev a b :
  chained gaps last prev a -> chained gaps (last_id last a) (chain_head prev a) b -> chained gaps last prev (a ++ b).
Proof.
  revert last prev; induction a as [|e a IH]; intros last prev Ha Hb; simpl in *; [done|].
  destruct Ha as (? & ? & ? & Ha). split_and!; [done..|]. apply IH; [done|].
  unfold last_id, chain_head in *. rewrite last_cons in Hb. by destruct (list.last a).
Qed.

(** The sanctioned shortcut at a gap applies to the first row only. *)
Definition shortcut_off (w : walk) : Prop :=
  w_chained w = 0 -> rgs_Sanctioned (r_RetentionGap (w_res w)) = false.

Lemma note_event_fields e r :
  r_Verdict (note_event e r) = r_Verdict r /\ r_RetentionGap (note_event e r) = r_RetentionGap r /\
  r_FirstBrokenID (note_event e r) = r_FirstBrokenID r.
Proof. unfold note_event. repeat case_bool_decide; done. Qed.

Lemma drop_gaps_suffix c id gaps gaps' : drop_gaps c id gaps = inl gaps' -> gaps' `suffix_of` gaps.
Proof.
  induction gaps as [|g gaps IH]; simpl; [by intros [= <-]|].
  destruct (_ <? _); [|by intros [= <-]]. destruct (c =? 0); [|done].
  intros H%IH. by apply suffix_cons_r.
Qed.

(** One row: either a legacy row is counted, or a row is chained. *)
Inductive row_outcome (w : walk) (e : AuditEventRow) (w' : walk) : Prop :=
| row_legacy :
    ev_EntryHash e = [] -> w_started w = false -> w_started w' = false ->
    w_prevHash w' = w_prevHash w -> w_lastChained w' = w_lastChained w ->
    w_chained w' = w_chained w -> w_unchained w' = w_unchained w + 1 -> w_res w' = w_res w ->
    row_outcome w e w'
| row_chained :
    chained (w_gaps w) (w_lastChained w) (w_prevHash w) [e] -> w_started w' = true ->
    w_prevHash w' = ev_EntryHash e -> w_lastChained w' = ev_ID e ->
    w_chained w' = w_chained w + 1 -> w_unchained w' = w_unchained w ->
    w_res w' = note_event e (w_res w) -> row_outcome w e w'.

Lemma walk_link_outcome w e w' :
  walk_link w e = Next w' ->
  w_gaps w' = w_gaps w /\
  ((ev_EntryHash e = [] /\ w_started w = false /\
    w' = mkWalk (w_prevHash w) false (w_lastChained w) (w_chained w) (w_unchained w + 1) (w_gaps w) (w_res w)) \/
   (ev_EntryHash e <> [] /\ ev_PrevHash e = w_prevHash w /\ ComputeEntryHash e (ev_PrevHash e) = ev_EntryHash e /\
    w' = mkWalk (ev_EntryHash e) true (ev_ID e) (w_chained w + 1) (w_unchained w) (w_gaps w) (note_event e (w_res w)))).
Proof.
  unfold walk_link. repeat case_bool_decide; destruct (w_started w) eqn:Es; cbn [negb andb]; intros [=]; subst w';
    (split; [done|]); naive_solver.
Qed.

Lemma walk_row_outcome w e w' :
  shortcut_off w \/ ev_PrevHash e = w_prevHash w -> walk_row w e = Next w' ->
  row_outcome w e w' /\ w_gaps w' `suffix_of` w_gaps w.
Proof.
  intros Hoff. unfold walk_row. destruct (drop_gaps _ _ _) as [gaps|] eqn:Ed; [|done].
  apply drop_gaps_suffix in Ed. set (w0 := mkWalk _ _ _ _ _ gaps _).
  destruct (walk_gap w0 e) as [w1|] eqn:Eg; [|done]. cbn [step_bind].
  assert (w_gaps w1 `suffix_of` gaps /\
    ((w1 = w0) \/ (ev_EntryHash e <> [] /\
       (ev_PrevHash e = w_prevHash w \/ gap_joins gaps (w_lastChained w) (w_prevHash w) e) /\
       exists gaps1, w1 = mkWalk (ev_PrevHash e) true (w_lastChained w) (w_chained w) (w_unchained w) gaps1 (w_res w))))
    as [Hsuf Hw1].
  { unfold walk_gap in Eg. subst w0. cbn [w_gaps w_prevHash w_lastChained w_chained w_unchained w_res] in Eg.
    destruct gaps as [|g gaps]; [injection Eg as <-; split; [done|by left]|].
    destruct ((_ =? _) && negb _) eqn:Er; [|injection Eg as <-; split; [done|by left]].
    breflect. cbv zeta in Eg. destruct ((w_chained w =? 0) && _) eqn:Es.
    - breflect. match type of Eg with (if ?c then _ else _) = _ => destruct c eqn:Ec end; [discriminate Eg|].
      injection Eg as <-. cbn [w_gaps].
      split; [by apply suffix_cons_r|]. right. split_and!; [done| |by eexists]. left.
      destruct Hoff as [Ho|Ho]; [|done]. rewrite Ho in * by done. done.
    - match type of Eg with (if ?c then _ else _) = _ => destruct c eqn:Ec end; [discriminate Eg|].
      injection Eg as <-. cbn [w_gaps].
      split; [by apply suffix_cons_r|]. right. split_and!; [done| |by eexists]. right. exists g.
      apply orb_false_iff in Ec as [Ec1 Ec3]. apply orb_false_iff in Ec1 as [Ec1 Ec2]. breflect.
      split_and!; [by left|done|done|done|]. intros Hnz. apply andb_false_iff in Ec2 as [Ec2|Ec2]; breflect; [|done].
      congruence. }
  intros Hl. apply walk_link_outcome in Hl as [Hg Hl]. split; [|rewrite Hg; by etrans].
  destruct Hw1 as [-> | (Hne & Hj & gaps1 & ->)]; destruct Hl as [(He & Hs & ->)|(He & Hp & Hc & ->)].
  - by apply row_legacy.
  - apply row_chained; try done. cbn [chained]. split_and!; [by left|done..].
  - done.
  - apply row_chained; try done. cbn [chained]. split_and!; [|done..].
    destruct Hj as [?|(g & Hin & ?)]; [by left|right]. exists g. split; [|done].
    destruct Ed as [k ->]. set_solver.
Qed.

(** Several rows: legacy rows, then chained ones. *)
Definition rows_outcome (w : walk) (l : list AuditEventRow) (w' : walk) : Prop :=
  exists legacy chain, l = legacy ++ chain /\ Forall (fun e => ev_EntryHash e = []) legacy /\
    (w_started w = true -> legacy = []) /\
    chained (w_gaps w) (w_lastChained w) (w_prevHash w) chain /\
    w_started w' = w_started w || negb (bool_decide (chain = [])) /\
    w_prevHash w' = chain_head (w_prevHash w) chain /\ w_lastChained w' = last_id (w_lastChained w) chain /\
    w_chained w' = w_chained w + Z.of_nat (length chain) /\ w_unchained w' = w_unchained w + Z.of_nat (length legacy) /\
    w_res w' = fold_left (fun r e => note_event e r) chain (w_res w).

(** At the first row of a sanctioned chain the shortcut changes nothing. *)
Definition shortcut_harmless (w : walk) (l : list AuditEventRow) : Prop :=
  shortcut_off w \/ exists e l', l = e :: l' /\ ev_PrevHash e = w_prevHash w /\ ev_EntryHash e <> [].

Lemma shortcut_off_row w e l w' :
  0 <= w_chained w -> row_outcome w e w' -> shortcut_harmless w (e :: l) -> shortcut_off w'.
Proof.
  unfold shortcut_off, shortcut_harmless. intros H0 [] [Hoff|(e' & l' & [= <- <-] & _ & ?)]; try (done || lia).
  intros ?. match goal with H : w_res w' = _ |- _ => rewrite H end. apply Hoff. congruence.
Qed.

Lemma walk_rows_outcome l : forall w w',
  0 <= w_chained w -> shortcut_harmless w l -> walk_rows w l = Next w' ->
  rows_outcome w l w' /\ w_gaps w' `suffix_of` w_gaps w.
Proof.
  induction l as [|e l IH]; intros w w' H0 Hoff Hw; cbn [walk_rows page_rows] in Hw.
  { injection Hw as <-. split; [|done]. exists [], []. rewrite bool_decide_eq_true_2 by done.
    cbn [negb]. rewrite orb_false_r. split_and!; try done; simpl; lia. }
  destruct (walk_row w e) as [w1|] eqn:Er; [|discriminate Hw]. cbn [step_bind] in Hw.
  apply walk_row_outcome in Er as [Hr Hs]; [|by destruct Hoff as [?|(? & ? & [= <- <-] & ? & _)]; [left|right]].
  pose proof (shortcut_off_row _ _ _ _ H0 Hr Hoff) as Hoff1.
  apply IH in Hw as [(lg & ch & -> & Hlg & Hst & Hch & Hst' & Hp & Hl & Hc & Hu & Hre) Hs']; [|by destruct Hr; lia|by left].
  split; [|by etrans]. destruct Hr as [He Hs0 Hs1 Hp1 Hl1 Hc1 Hu1 Hr1 | He Hs1 Hp1 Hl1 Hc1 Hu1 Hr1].
  - exists (e :: lg), ch. rewrite Hp1, Hl1 in *. rewrite Hs0, Hs1, Hr1 in *. split_and!; try done.
    + by constructor.
    + eapply chained_mono; [|done]. destruct Hs as [k ->]. set_solver.
    + cbn [length]. lia.
    + cbn [length]. lia.
  - rewrite (Hst Hs1) in *. exists [], (e :: ch). destruct He as (Hj & Hcm & Hne & _).
    split_and!; try done.
    + cbn [chained]. split_and!; [done..|]. rewrite Hp1, Hl1 in Hch. eapply chained_mono; [|done].
      destruct Hs as [k ->]. set_solver.
    + rewrite Hst', Hs1, (bool_decide_eq_false_2 (e :: ch = [])) by done. by destruct (w_started w).
    + rewrite Hp, Hp1. unfold chain_head. rewrite last_cons. by destruct (last ch).
    + rewrite Hl, Hl1. unfold last_id. rewrite last_cons. by destruct (last ch).
    + cbn [length]. lia.
    + cbn [length] in *. lia.
    + rewrite Hre, Hr1. done.
Qed.

Lemma fold_note_event l : forall r,
  r_Verdict (fold_left (fun r e => note_event e r) l r) = r_Verdict r /\
  r_RetentionGap (fold_left (fun r e => note_event e r) l r) = r_RetentionGap r /\
  r_FirstBrokenID (fold_left (fun r e => note_event e r) l r) = r_FirstBrokenID r.
Proof.
  induction l as [|e l IH]; intros r; simpl; [done|]. destruct (IH (note_event e r)) as (-> & -> & ->).
  apply note_event_fields.
Qed.

(** Where the chain of an accepted walk starts: at the genesis hash; at the
    authenticated retention anchor; or, INDETERMINATE, where its first row
    claims to. *)
Inductive chain_start (anchor : option RetentionAnchor) (auth : bool) (legacy chain : list AuditEventRow)
    (v0 : verdict) (r : Result) : bytes -> Prop :=
| start_genesis :
    r_Verdict r = v0 -> r_RetentionGap r = no_gap -> chain_start anchor auth legacy chain v0 r GenesisHash
| start_anchor a hd tl :
    anchor = Some a -> auth = true -> legacy = [] -> chain = hd :: tl ->
    ev_ID hd = ra_RowID a -> ev_PrevHash hd = ra_PrevHash a -> ev_EntryHash hd = ra_EntryHash a ->
    r_Verdict r = v0 -> r_RetentionGap r = mkGapStatus true (ev_ID hd) true true ->
    chain_start anchor auth legacy chain v0 r (ra_PrevHash a)
| start_claimed hd tl :
    legacy = [] -> chain = hd :: tl -> ev_PrevHash hd <> GenesisHash ->
    verdictRank VerdictIndeterminate <= verdictRank (r_Verdict r) ->
    r_RetentionGap r = mkGapStatus true (ev_ID hd) false false ->
    chain_start anchor auth legacy chain v0 r (ev_PrevHash hd).

(** What the walk of rows [V] has established when it did not stop. *)
Definition walked (anchor : option RetentionAnchor) (auth : bool) (gaps : list sealedGap) (v0 : verdict)
    (V : list AuditEventRow) (legacy chain : list AuditEventRow) (start : bytes) (w : walk) : Prop :=
  V = legacy ++ chain /\ Forall (fun e => ev_EntryHash e = []) legacy /\ chained gaps 0 start chain /\
  chain_start anchor auth legacy chain v0 (w_res w) start /\
  w_chained w = Z.of_nat (length chain) /\ w_unchained w = Z.of_nat (length legacy).

Lemma rows_outcome_walked anchor auth gaps v0 V w1 w :
  w_chained w1 = 0 -> w_unchained w1 = 0 -> w_lastChained w1 = 0 -> w_gaps w1 = gaps ->
  shortcut_harmless w1 V -> walk_rows w1 V = Next w ->
  (forall legacy chain r', (w_started w1 = true -> legacy = []) -> V = legacy ++ chain ->
     r_Verdict r' = r_Verdict (w_res w1) -> r_RetentionGap r' = r_RetentionGap (w_res w1) ->
     chain_start anchor auth legacy chain v0 r' (w_prevHash w1)) ->
  exists legacy chain, walked anchor auth gaps v0 V legacy chain (w_prevHash w1) w.
Proof.
  intros Hc Hu Hl Hg Hoff Hw Hstart. apply walk_rows_outcome in Hw as [Hw _]; [|lia|done].
  destruct Hw as (lg & ch & -> & Hlg & Hst & Hch & _ & _ & _ & Hc' & Hu' & Hre).
  exists lg, ch. rewrite Hg, Hl in Hch. unfold walked. split_and!; [done|done|done| |lia|lia].
  destruct (fold_note_event ch (w_res w1)) as (E1 & E2 & _). rewrite <- Hre in E1, E2. by apply Hstart.
Qed.

Lemma walk_from_walked anchor auth gaps result V w :
  r_RetentionGap result = no_gap ->
  walk_from anchor auth (mkWalk GenesisHash false 0 0 0 gaps result) V = Next w ->
  exists legacy chain start, walked anchor auth gaps (r_Verdict result) V legacy chain start w.
Proof.
  intros Hng. unfold walk_from. destruct V as [|hd tl].
  { intros [= <-]. exists [], [], GenesisHash. unfold walked. split_and!; try done. by apply start_genesis. }
  set (w0 := mkWalk _ _ _ _ _ _ _).
  assert (forall w1, w_chained w1 = 0 -> w_unchained w1 = 0 -> w_lastChained w1 = 0 -> w_gaps w1 = gaps ->
    shortcut_harmless w1 (hd :: tl) -> walk_rows w1 (hd :: tl) = Next w ->
    (forall legacy chain r', (w_started w1 = true -> legacy = []) -> hd :: tl = legacy ++ chain ->
     r_Verdict r' = r_Verdict (w_res w1) -> r_RetentionGap r' = r_RetentionGap (w_res w1) ->
     chain_start anchor auth legacy chain (r_Verdict result) r' (w_prevHash w1)) ->
    exists legacy chain start, walked anchor auth gaps (r_Verdict result) (hd :: tl) legacy chain start w) as Go.
  { intros w1 ? ? ? ? ? ? ?.
    edestruct (rows_outcome_walked anchor auth gaps (r_Verdict result) (hd :: tl) w1 w) as (lg & ch & ?); eauto. }
  unfold walk_head. destruct (negb (bool_decide (ev_EntryHash hd = [])) && _) eqn:Eh.
  2:{ cbn [step_bind]. intros Hw. lazymatch type of Hw with walk_rows ?w1 _ = _ => refine (Go w1 eq_refl eq_refl eq_refl eq_refl _ Hw _) end.
      - left. intros _. subst w0. cbn [w_res]. by rewrite Hng.
      - intros lg ch r' _ _ E1 E2. apply start_genesis; [done|]. by rewrite E2. }
  breflect.
  assert (step_bind (Next (mkWalk (ev_PrevHash hd) true (w_lastChained w0) (w_chained w0) (w_unchained w0) (w_gaps w0)
      (escalate VerdictIndeterminate (RGapUnauthenticated (ev_ID hd))
         (set_RetentionGap (mkGapStatus true (ev_ID hd) false false) (w_res w0)))))
      (fun w => walk_rows w (hd :: tl)) = Next w ->
    exists legacy chain start, walked anchor auth gaps (r_Verdict result) (hd :: tl) legacy chain start w) as Claimed.
  { cbn [step_bind]. intros Hw. lazymatch type of Hw with walk_rows ?w1 _ = _ => refine (Go w1 eq_refl eq_refl eq_refl eq_refl _ Hw _) end.
    - left. intros _. unfold escalate. by destruct (_ <? _).
    - cbn [w_started w_res w_prevHash]. intros lg ch r' -> [= <-] E1 E2; [|done].
      eapply start_claimed; try done.
      + rewrite E1, escalate_rank. simpl. lia.
      + rewrite E2. unfold escalate. by destruct (_ <? _). }
  destruct anchor as [a|].
  - destruct auth; [|exact Claimed].
    destruct ((ev_ID hd =? ra_RowID a) && _ && _) eqn:Em; [|done]. breflect. cbn [step_bind]. intros Hw.
    lazymatch type of Hw with walk_rows ?w1 _ = _ => refine (Go w1 eq_refl eq_refl eq_refl eq_refl _ Hw _) end.
    + right. exists hd, tl. done.
    + cbn [w_started w_res w_prevHash]. intros lg ch r' -> [= <-] E1 E2; [|done].
      eapply start_anchor; done.
  - destruct (sealedGapAt _ _); [|exact Claimed]. cbn [step_bind]. intros Hw.
    lazymatch type of Hw with walk_rows ?w1 _ = _ => refine (Go w1 eq_refl eq_refl eq_refl eq_refl _ Hw _) end.
    + left. intros _. done.
    + cbn [w_started w_res w_prevHash]. intros lg ch r' _ _ E1 E2. apply start_genesis; [done|]. by rewrite E2.
Qed.

(** ** Every early return is BROKEN *)

Lemma broken_verdict w id why : r_Verdict (broken w id why) = VerdictBroken.
Proof. unfold broken, with_counts. simpl. apply escalate_broken. Qed.

Lemma walk_row_stop w e r : walk_row w e = Stop r -> r_Verdict r = VerdictBroken.
Proof.
  unfold walk_row. destruct (drop_gaps _ _ _); [|intros [= <-]; apply broken_verdict].
  unfold walk_gap, walk_link. intros H.
  repeat (destr_match_in H || (injection H as <-; apply broken_verdict) || discriminate H || cbn [step_bind] in H);
    injection H as <-; apply broken_verdict.
Qed.

Lemma walk_rows_stop l : forall w r, walk_rows w l = Stop r -> r_Verdict r = VerdictBroken.
Proof.
  induction l as [|e l IH]; intros w r H; cbn [walk_rows page_rows] in H; [done|].
  destruct (walk_row w e) eqn:Er; cbn [step_bind] in H; [eauto|]. injection H as <-. by eapply walk_row_stop.
Qed.

Lemma walk_from_stop anchor auth w l r :
  walk_from anchor auth w l = Stop r -> r_Verdict r = VerdictBroken.
Proof.
  unfold walk_from. destruct l as [|hd tl]; [done|].
  destruct (walk_head anchor auth hd w) as [w1|r1] eqn:Eh; cbn [step_bind].
  - apply walk_rows_stop.
  - intros [= <-]. unfold walk_head in Eh.
    repeat (destr_match_in Eh; try discriminate Eh). injection Eh as <-. apply broken_verdict.
Qed.

(** ** Soundness of the walk *)

Lemma chain_start_same anchor auth lg ch v0 r r' s :
  r_Verdict r' = r_Verdict r -> r_RetentionGap r' = r_RetentionGap r ->
  chain_start anchor auth lg ch v0 r s -> chain_start anchor auth lg ch v0 r' s.
Proof.
  intros E1 E2 [].
  - apply start_genesis; congruence.
  - eapply start_anchor; try done; congruence.
  - eapply start_claimed; try done; congruence.
Qed.

(** What a walk that is not BROKEN says of the table. *)
Record table_verified (anchor : option RetentionAnchor) (auth : bool) (gaps : list sealedGap) (v0 : verdict)
    (rows : list AuditEventRow) (outside : Z) (r : Result) (legacy chain : list AuditEventRow) (start : bytes) : Prop :=
  mk_table_verified {
  tv_reachable : outside = 0;
  tv_rows : rows = legacy ++ chain;
  tv_ids : Forall (fun e => 0 < ev_ID e) rows;
  tv_legacy : Forall (fun e => ev_EntryHash e = []) legacy;
  tv_chain : chained gaps 0 start chain;
  tv_start : chain_start anchor auth legacy chain v0 r start;
  tv_chained_count : r_ChainedEvents r = Z.of_nat (length chain);
  tv_legacy_count : r_UnchainedLegacyEvents r = Z.of_nat (length legacy)
}.

Lemma sublist_same_length {A} (l l' : list A) : l `sublist_of` l' -> (length l' <= length l)%nat -> l = l'.
Proof.
  induction 1 as [|x l l' H IH|x l l' H IH]; simpl; intros Hl; [done|f_equal; apply IH; lia|].
  apply sublist_length in H. lia.
Qed.

Lemma walkChain_verified {E} (db : DB E) rows outside b anchor auth fuel result gaps r :
  EventTable db rows outside -> 0 < b -> (length rows < fuel)%nat -> r_RetentionGap result = no_gap ->
  walkChain db b anchor auth fuel result gaps = Ok r -> r_Verdict r <> VerdictBroken ->
  exists legacy chain start, table_verified anchor auth gaps (r_Verdict result) rows outside r legacy chain start.
Proof.
  intros HT Hb Hf Hng Hw Hv.
  destruct (walkChain_visited db rows outside b anchor auth fuel result gaps Hb Hf) as (V & HV & _ & EV & Hall).
  rewrite EV in Hw. unfold walk_table in Hw. destruct (walk_from _ _ _ V) as [w|r'] eqn:Ew.
  2:{ injection Hw as <-. by apply walk_from_stop in Ew. }
  specialize (Hall w eq_refl). unfold walk_finish in Hw.
  destruct (w_gaps w); [|injection Hw as <-; by rewrite broken_verdict in Hv].
  assert (0 <= last_id 0 V) as Hl.
  { unfold last_id. destruct (last V) as [e|] eqn:Ee; [|lia]. apply last_Some in Ee as [V' ->].
    assert (e ∈ above 0 rows) as He by (eapply sublist_subseteq; [done|set_solver]).
    apply elem_of_filter_bool in He as [_ He%Z.ltb_lt]. lia. }
  rewrite et_count in Hw by done. cbn [lift res_bind] in Hw.
  rewrite filter_all in Hw; [|intros e He; apply Z.leb_le; specialize (Hall e He); lia].
  destruct (Z.eqb_spec (outside + Z.of_nat (length rows)) (w_chained w + w_unchained w)) as [Eh|Eh];
    cbn [negb] in Hw; injection Hw as <-; [|by rewrite escalate_broken in Hv].
  destruct (walk_from_walked _ _ _ _ _ _ Hng Ew) as (lg & ch & start & -> & Hlg & Hch & Hst & Hc & Hu).
  pose proof et_outside as Hout. assert (lg ++ ch = rows) as Erows.
  { apply sublist_same_length; [etrans; [done|apply filter_sublist]|]. rewrite length_app. lia. }
  exists lg, ch, start. split; try done.
  - apply (f_equal length) in Erows. rewrite length_app in Erows. lia.
  - apply Forall_forall. intros e He. rewrite <- Erows in He.
    assert (e ∈ above 0 rows) as He' by (eapply sublist_subseteq; done).
    by apply elem_of_filter_bool in He' as [_ He'%Z.ltb_lt].
  - eapply chain_start_same; [..|done]; done.
Qed.

(** Soundness of the walk: when it does not report BROKEN, no row of the
    table is out of its reach (NULL, zero or negative id, a second row under an
    id); the rows are unhashed legacy rows followed by a hash chain every row
    of which carries its own hash and links to the row before it, or resumes a
    sealed gap that names both sides; and the chain starts at the genesis hash,
    at the authenticated retention anchor, or the verdict is at least
    INDETERMINATE.  The counts are exact. *)
Theorem walkChain_sound {E} (db : DB E) rows outside b anchor auth fuel result gaps r :
  EventTable db rows outside -> 0 < b -> (length rows < fuel)%nat -> r_RetentionGap result = no_gap ->
  walkChain db b anchor auth fuel result gaps = Ok r -> r_Verdict r <> VerdictBroken ->
  exists legacy chain start, table_verified anchor auth gaps (r_Verdict result) rows outside r legacy chain start.
Proof. apply walkChain_verified. Qed.

(** * Completeness: an honest chain is accepted *)

Lemma walk_rows_legacy l : forall w,
  w_gaps w = [] -> w_started w = false -> Forall (fun e => ev_EntryHash e = []) l ->
  walk_rows w l = Next (mkWalk (w_prevHash w) false (w_lastChained w) (w_chained w)
                          (w_unchained w + Z.of_nat (length l)) [] (w_res w)).
Proof.
  induction l as [|e l IH]; intros [ph st lc ch un gs re] Hg Hs Hl; cbn in Hg, Hs; subst; cbn [walk_rows page_rows].
  - cbn [length]. by rewrite Z.add_0_r.
  - apply Forall_cons in Hl as [He Hl]. unfold walk_row.
    cbn [w_chained w_gaps drop_gaps walk_gap step_bind w_prevHash w_started w_lastChained w_unchained w_res].
    unfold walk_link. cbn [w_chained w_gaps w_prevHash w_started w_lastChained w_unchained w_res].
    rewrite bool_decide_eq_true_2 by done. cbn [negb andb step_bind]. rewrite IH by done.
    cbn [w_chained w_gaps w_prevHash w_started w_lastChained w_unchained w_res length]. do 2 f_equal. lia.
Qed.

Lemma walk_rows_chain l : forall w,
  w_gaps w = [] -> linked (w_prevHash w) l -> Forall (fun e => ev_EntryHash e <> []) l ->
  walk_rows w l = Next (mkWalk (chain_head (w_prevHash w) l) (w_started w || negb (bool_decide (l = [])))
                          (last_id (w_lastChained w) l) (w_chained w + Z.of_nat (length l)) (w_unchained w) []
                          (fold_left (fun r e => note_event e r) l (w_res w))).
Proof.
  induction l as [|e l IH]; intros [ph st lc ch un gs re] Hg Hl Hne; cbn [w_gaps w_prevHash] in Hg, Hl; subst; cbn [walk_rows page_rows].
  - cbn. by rewrite orb_false_r, Z.add_0_r.
  - destruct Hl as (Hp & Hh & Hl). apply Forall_cons in Hne as [He Hne]. unfold walk_row.
    cbn [w_chained w_gaps drop_gaps walk_gap step_bind w_prevHash w_started w_lastChained w_unchained w_res].
    unfold walk_link. cbn [w_chained w_gaps w_prevHash w_started w_lastChained w_unchained w_res].
    rewrite (bool_decide_eq_false_2 (ev_EntryHash e = [])) by done. rewrite andb_false_r.
    rewrite (bool_decide_eq_true_2 (ev_PrevHash e = ph)) by done.
    rewrite (bool_decide_eq_true_2 (ComputeEntryHash e (ev_PrevHash e) = ev_EntryHash e)) by done.
    cbn [negb step_bind]. rewrite IH by done. cbn [w_chained w_gaps w_prevHash w_started w_lastChained w_unchained w_res].
    rewrite (bool_decide_eq_false_2 (e :: l = [])) by done. cbn [negb length]. rewrite orb_true_r.
    f_equal. f_equal; [unfold chain_head|unfold last_id|lia]; rewrite last_cons; by destruct (last l).
Qed.

Lemma hex_sha256_nonempty l : hex_encode (sha256 l) <> [].
Proof. intros E. apply (f_equal length) in E. rewrite length_hex_encode, length_sha256 in E. done. Qed.

Lemma linked_nonempty prev l : linked prev l -> Forall (fun e => ev_EntryHash e <> []) l.
Proof.
  revert prev; induction l as [|e l IH]; intros prev; simpl; [constructor|].
  intros (_ & H & Hl). constructor; [|by eapply IH]. rewrite <- H. apply hex_sha256_nonempty.
Qed.

(** Completeness of the walk: unhashed legacy rows followed by a chain that
    links from the genesis hash, under distinct positive ids, are accepted at
    every batch size, whatever retention anchor is stored: the verdict stays
    what it was, no row is reported broken, and both counts are exact. *)
Theorem walkChain_complete {E} (db : DB E) legacy chain b anchor auth fuel result :
  EventTable db (legacy ++ chain) 0 -> NoDup (map ev_ID (legacy ++ chain)) ->
  Forall (fun e => 0 < ev_ID e) (legacy ++ chain) ->
  Forall (fun e => ev_EntryHash e = []) legacy -> linked GenesisHash chain ->
  0 < b -> (length (legacy ++ chain) < fuel)%nat ->
  exists r, walkChain db b anchor auth fuel result [] = Ok r /\ r_Verdict r = r_Verdict result /\
    r_FirstBrokenID r = r_FirstBrokenID result /\
    r_ChainedEvents r = Z.of_nat (length chain) /\ r_UnchainedLegacyEvents r = Z.of_nat (length legacy).
Proof.
  intros HT Hnd Hpos Hlg Hch Hb Hf. set (rows := legacy ++ chain) in *.
  destruct (walkChain_visited db rows 0 b anchor auth fuel result [] Hb Hf) as (V & _ & HV & -> & Hall).
  specialize (HV Hnd). unfold above in HV. rewrite filter_all in HV.
  2:{ intros e He. apply Z.ltb_lt. rewrite Forall_forall in Hpos. auto. }
  subst V. unfold walk_table. set (w0 := mkWalk _ _ _ _ _ _ _) in *.
  assert (walk_from anchor auth w0 rows = walk_rows w0 rows) as Ew.
  { unfold walk_from, rows. destruct legacy as [|hd lg]; [destruct chain as [|hd ch]; [done|]|]; cbn [app].
    - unfold walk_head. destruct Hch as (Hp & _). rewrite (bool_decide_eq_true_2 (ev_PrevHash hd = _)) by done.
      by rewrite andb_false_r.
    - unfold walk_head. apply Forall_cons in Hlg as [He _]. by rewrite (bool_decide_eq_true_2 (ev_EntryHash hd = _)). }
  assert (exists w, walk_rows w0 rows = Next w /\ w_gaps w = [] /\ w_chained w = Z.of_nat (length chain) /\
     w_unchained w = Z.of_nat (length legacy) /\ w_res w = fold_left (fun r e => note_event e r) chain result)
    as (w & Hw & Hg & Hc & Hu & Hr).
  { unfold rows. rewrite walk_rows_app, walk_rows_legacy by done. cbn [step_bind].
    rewrite walk_rows_chain; [|done|done|by eapply linked_nonempty]. eexists. split; [done|]. done. }
  rewrite Ew, Hw. rewrite Ew, Hw in Hall. specialize (Hall w eq_refl). unfold walk_finish. rewrite Hg, et_count.
  2:{ unfold last_id. destruct (last rows) as [e|] eqn:El; [|lia]. apply last_Some in El as [V' EV].
      rewrite Forall_forall in Hpos. specialize (Hpos e). rewrite EV in Hpos. specialize (Hpos ltac:(set_solver)). lia. }
  cbn [lift res_bind]. rewrite filter_all.
  2:{ intros e He. apply Z.leb_le. specialize (Hall e He). rewrite Forall_forall in Hpos. specialize (Hpos e He). lia. }
  rewrite Hc, Hu. rewrite (proj2 (Z.eqb_eq _ _)) by (unfold rows; rewrite length_app; lia). cbn [negb].
  eexists. split; [done|]. rewrite Hr. unfold with_counts. cbn. destruct (fold_note_event chain result) as (-> & _ & ->). done.
Qed.

(** * A concrete table *)

Definition with_hashes (e : AuditEventRow) (prev hash : bytes) : AuditEventRow :=
  mkRow (ev_ID e) (ev_EventType e) (ev_UserID e) (ev_SecretNodeID e) (ev_ProjectID e) (ev_IPAddress e)
    (ev_Description e) (ev_Success e) (ev_EventTime e) (ev_Diff e) (ev_ImpersonatedBy e) (ev_ActingAs e)
    (ev_Impersonation e) (ev_ActorType e) prev hash.

Fixpoint link_rows (prev : bytes) (l : list AuditEventRow) : list AuditEventRow :=
  match l with
  | [] => []
  | e :: l => let h := ComputeEntryHash e prev in with_hashes e prev h :: link_rows h l
  end.

Definition to_raw (e : AuditEventRow) : raw_event :=
  mkRaw (Some (ev_ID e)) (Some (ev_EventType e)) (ev_UserID e) (ev_SecretNodeID e) (ev_ProjectID e)
    (Some (ev_IPAddress e)) (Some (ev_Description e)) (ev_Success e) (Some (ev_EventTime e)) (Some (ev_Diff e))
    (ev_ImpersonatedBy e) (ev_ActingAs e) (Some (ev_Impersonation e)) (Some (ev_ActorType e))
    (Some (ev_PrevHash e)) (Some (ev_EntryHash e)).

Definition ex_event (id : Z) (what : bytes) : AuditEventRow :=
  mkRow id what (Some 3) None (Some 1) (go "10.0.0.1") (go "d") (Some true) (id * 1000) [] None None false (go "human") [] [].

Definition ex_legacy : list AuditEventRow := [ex_event 1 (go "user.login")].
Definition ex_chain : list AuditEventRow :=
  Eval vm_compute in link_rows GenesisHash
    [ex_event 2 (go "secret.create"); ex_event 5 (go "secret.read"); ex_event 6 (go "user.logout")].
Definition ex_tables : tables := mkTables (map to_raw (rev (ex_legacy ++ ex_chain))) [] [] (Some []).
Definition ex_result : Result := empty_result 0 (go "auditverify/v1").

Lemma ex_table : EventTable (table_db ex_tables) (ex_legacy ++ ex_chain) 0.
Proof. apply (table_db_EventTable ex_tables (ex_legacy ++ ex_chain)). vm_compute. reflexivity. Qed.

Lemma ex_distinct : NoDup (map ev_ID (ex_legacy ++ ex_chain)).
Proof. vm_decide. Qed.

Lemma ex_linked : linked GenesisHash ex_chain.
Proof. repeat split; vm_compute; reflexivity. Qed.

Lemma ex_positive : Forall (fun e => 0 < ev_ID e) (ex_legacy ++ ex_chain).
Proof. repeat constructor. Qed.

Lemma walkChain_batch_independent_witness :
  exists r, walkChain (table_db ex_tables) 1 None false 5 ex_result [] = Ok r /\
            walkChain (table_db ex_tables) 1000 None false 9 ex_result [] = Ok r.
Proof.
  apply (walkChain_batch_independent (table_db ex_tables) (ex_legacy ++ ex_chain) 0 1 1000);
    [exact ex_table|exact ex_distinct|lia|lia|vm_compute; lia|vm_compute; lia].
Defined.

Lemma walkChain_complete_witness :
  exists r, walkChain (table_db ex_tables) 2 None false 5 ex_result [] = Ok r /\ r_Verdict r = VerdictValid /\
    r_FirstBrokenID r = None /\ r_ChainedEvents r = 3 /\ r_UnchainedLegacyEvents r = 1.
Proof.
  apply (walkChain_complete (table_db ex_tables) ex_legacy ex_chain 2 None false 5 ex_result);
    [exact ex_table|exact ex_distinct|exact ex_positive|repeat constructor|exact ex_linked|lia|vm_compute; lia].
Defined.

Lemma walkChain_sound_witness :
  exists r legacy chain start,
    walkChain (table_db ex_tables) 2 None false 5 ex_result [] = Ok r /\
    table_verified None false [] VerdictValid (ex_legacy ++ ex_chain) 0 r legacy chain start.
Proof.
  destruct (walkChain (table_db ex_tables) 2 None false 5 ex_result []) as [r|] eqn:E.
  2:{ exfalso. revert E. vm_compute. discriminate. }
  exists r. destruct (walkChain_sound (table_db ex_tables) (ex_legacy ++ ex_chain) 0 2 None false 5 ex_result [] r)
    as (lg & ch & st & H); [exact ex_table|lia|vm_compute; lia|reflexivity|exact E| |eauto].
  intros Hb. revert E. revert Hb.
  assert (match walkChain (table_db ex_tables) 2 None false 5 ex_result [] with
          | Ok r => bool_decide (r_Verdict r = VerdictValid) | Err _ => false end = true) as Hok
    by (vm_compute; reflexivity).
  intros Hb E. rewrite E in Hok. rewrite Hb in Hok. discriminate Hok.
Defined.
