(* ===== verification/AuditVerify.v ===== *)
(** The offline verification run: [Verify] of
    [internal/auditverify/verify.go] and the checks it composes
    ([seal.go], [keytransition.go], [verifystate.go], [anchor_bundle.go],
    [owed_break_glass.go], [checkpoint_key_len.go]).

    A run reads a database through [DB], walks the chain and then only ever
    raises its verdict.  [VerifyReceipt], the RFC 3161 check of
    [internal/notary] over third-party ASN.1 and PKCS#7 code, is a parameter,
    as is the JSON decoding of the record payloads. *)
From Stdlib Require Import ZArith Lia.
From stdpp Require Import base numbers tactics sets list.
From S2P Require Import Prelude.
From S2P Require Import Sha256.
From S2P Require Import GoStr.
From S2P Require Import AuditHash.
From S2P Require Import AuditCheckpoint.
From S2P Require Import AuditRecords.
From S2P Require Import AuditDB.
From S2P Require Import AuditPages.
From S2P Require Import AuditResult.
From S2P Require Import AuditWalk.

Definition auditHighWaterKey : bytes := go "audit_checkpoint_highwater".
Definition auditRetentionAnchorKey : bytes := go "audit_retention_anchor".
Definition DefaultBatchSize : Z := 1000.
Definition MinKEKLen : Z := 14.
Definition Version : bytes := go "auditverify/v1".

Record ExternalAnchorBundle := mkBundle {
  xb_ChainedEvents : Z; xb_HeadID : Z; xb_HeadHash : bytes; xb_KeyVersion : bytes; xb_Signature : bytes;
  xb_AnchorToken : bytes; xb_AnchorProvider : bytes }.

Record Options (Roots : Type) := mkOptions {
  o_CheckpointKey : bytes; o_PreviousCheckpointKeys : list bytes; o_TSARoots : option Roots;
  o_ExternalAnchor : option ExternalAnchorBundle; o_ExternalAnchorSHA256 : bytes; o_BatchSize : Z; o_Now : Z }.
Arguments o_CheckpointKey {Roots}. Arguments o_PreviousCheckpointKeys {Roots}. Arguments o_TSARoots {Roots}.
Arguments o_ExternalAnchor {Roots}. Arguments o_ExternalAnchorSHA256 {Roots}. Arguments o_BatchSize {Roots}.
Arguments o_Now {Roots}.

(** [loadedSeals] *)
Record loadedSeals := mkLoaded { ld_recs : list Seal; ld_authenticated : bool; ld_problem : option seal_problem }.

(** [strings.ToLower] on ASCII, which the compared hex digests are. *)
Definition lower_byte (b : Byte.byte) : Byte.byte := if (65 <=? Zb b) && (Zb b <=? 90) then bZ (Zb b + 32) else b.
Definition ToLower (s : bytes) : bytes := map lower_byte s.

(** Sum of two [int64] counts. *)
Definition total_events (r : Result) : Z := s64 (r_ChainedEvents r + r_PurgedEvents r).

Definition checkpointFromAnchorBundle (b : ExternalAnchorBundle) : Checkpoint :=
  mkCheckpoint 0 (xb_ChainedEvents b) (xb_HeadID b) (xb_HeadHash b) (xb_KeyVersion b) (xb_Signature b) [] None [] 0 [].

Inductive verify_err (E : Type) := VerifyDB (e : E) | VerifyKeyTooShort (which : option nat) (len : Z) | VerifyOutOfFuel.
Arguments VerifyDB {E}. Arguments VerifyKeyTooShort {E}. Arguments VerifyOutOfFuel {E}.

Definition broken_now (r : Result) : bool := bool_decide (r_Verdict r = VerdictBroken).

Section Verify.
Context `{JSON} {E Roots : Type}.
Context (VerifyReceipt : Roots -> bytes -> bytes -> bool).
Context (fips_enforced : bool).
Context (db : DB E) (opts : Options Roots).

Definition has_key : bool := negb (bool_decide (o_CheckpointKey opts = [])).

(** ** checkpoint_key_len.go *)

Definition key_too_short (key : bytes) : bool :=
  (0 <? Z.of_nat (length key)) && (Z.of_nat (length key) <? MinKEKLen).
Fixpoint check_previous_lens (i : nat) (keys : list bytes) : res (verify_err E) unit :=
  match keys with
  | [] => Ok tt
  | k :: keys => if key_too_short k then Err (VerifyKeyTooShort (Some i) (Z.of_nat (length k)))
                 else check_previous_lens (S i) keys
  end.
Definition checkCheckpointKeyLens : res (verify_err E) unit :=
  if negb fips_enforced then Ok tt
  else if key_too_short (o_CheckpointKey opts)
       then Err (VerifyKeyTooShort None (Z.of_nat (length (o_CheckpointKey opts))))
       else check_previous_lens 1 (o_PreviousCheckpointKeys opts).

(** ** seal.go *)

Definition first_bad_mac (recs : list Seal) : option Seal :=
  List.find (fun r => negb (MACValid r (o_CheckpointKey opts))) recs.

Definition loadSeals : res E loadedSeals :=
  let? found := GetSystemMetadata db auditSealsKey in
  match found with
  | None => Ok (mkLoaded [] false None)
  | Some val =>
      match ParseSeals val with
      | Err perr => Ok (mkLoaded [] false (Some (SealsMalformed perr)))
      | Ok recs =>
          if negb has_key then Ok (mkLoaded recs false (Some SealsNoKey))
          else match first_bad_mac recs with
               | Some r => Ok (mkLoaded recs false (Some (SealMACFails (sl_Seq r) (sl_kid r))))
               | None => Ok (mkLoaded recs true None)
               end
      end
  end.

(** The first in-chain seal event no record of the row answers to. *)
Definition seal_event_unknown (recs : list Seal) (e : sealEvent) : bool :=
  bool_decide (se_digest e = []) || negb (existsb (fun r => bool_decide (Seal_Digest r = se_digest e)) recs).
Definition seal_unnamed (r : Result) (s : Seal) : bool :=
  negb (existsb (fun e => bool_decide (se_digest e = Seal_Digest s)) (r_sealEvents r)) &&
  negb (rgs_Sanctioned (r_RetentionGap r) && (u64 (sc_HeadID (sl_After s) + 1) <? rgs_RowID (r_RetentionGap r))).
Definition checkSealEvents (result : Result) (recs : list Seal) : Result :=
  match List.find (seal_event_unknown recs) (r_sealEvents result) with
  | Some e => escalate VerdictBroken (RSealEventUnknown (se_id e)) result
  | None =>
      match List.find (seal_unnamed result) recs with
      | Some s => escalate VerdictBroken (RSealNoEvent (sl_Seq s)) result
      | None => result
      end
  end.

Definition checkSealAnchor (r : Seal) (result : Result) : option SealAnchorCheck :=
  match sl_Anchor r with
  | None => None
  | Some a =>
      let digest := ToLower (sn_Digest a) in
      let got := ToLower (o_ExternalAnchorSHA256 opts) in
      let check :=
        match o_ExternalAnchor opts with
        | None => SealAnchorNotSupplied
        | Some b =>
            if bool_decide (got = []) then SealAnchorNotSupplied
            else if negb (bool_decide (got = digest)) then SealAnchorDiffers
            else if negb (xs_Authenticated (r_ExternalAnchor result)) then SealAnchorUnauthenticated
            else if negb (sealAnchorCovers r (xb_HeadID b)) then SealAnchorNotCovering
            else SealAnchorMatches
        end in
      Some (mkAnchorCheck digest (sn_Verified a) check)
  end.

Definition summarizeSeals (recs : list Seal) (result : Result) : list SealSummary :=
  map (fun r => mkSummary (sl_Seq r) (sl_At r) (sl_Operator r) (sl_Reason r) (sl_Evidence r) (sl_Gaps r)
                  (negb (is_none (sl_Truncation r))) (sl_LostEvents r) (Seal_Digest r) (checkSealAnchor r result)
                  (sl_Unpinned r)) recs.

(** ** enforceCheckpoint *)

Definition note_checkpoint (cp : Checkpoint) (r : Result) : Result :=
  set_Checkpoint (mkCpStatus true (cs_Authenticated (r_Checkpoint r)) (cp_KeyVersion cp) (cp_ChainedEvents cp)) r.

Definition note_anchor_token (cp : Checkpoint) (r : Result) : Result :=
  if bool_decide (cp_AnchorToken cp = []) then r
  else set_Anchor (mkAnchorStatus true (as_Verified (r_Anchor r)) (cp_AnchorProvider cp)
                     (default (as_AnchoredAt (r_Anchor r)) (cp_AnchoredAt cp))) r.

(** The high-water mark: whether it authenticated, and the floor it sets. *)
Definition check_mark (hw : option bytes) (r : Result) : Result * bool * Z :=
  match hw with
  | None => (r, false, 0)
  | Some val =>
      match ParseHighWater val with
      | None => (r, false, 0)
      | Some (hwCP, hwSig) =>
          if negb (cp_Seals hwCP =? sb_N (r_seals r)) || negb (bool_decide (cp_SealDigest hwCP = sb_Digest (r_seals r))) then
            (escalate VerdictBroken (RMarkSeals (cp_Seals hwCP) (sb_N (r_seals r))) r, false, 0)
          else if HighWaterSigMatches hwCP hwSig (o_CheckpointKey opts) then (r, true, cp_ChainedEvents hwCP)
          else (escalate VerdictBroken (RMarkSignature (cp_KeyVersion hwCP)) r, false, 0)
      end
  end.

(** The certified head row must be present with its hash. *)
Definition check_cp_head (cp : Checkpoint) (r : Result) : res E Result :=
  if cp_HeadID cp =? 0 then Ok r
  else
    let? found := AuditEntryHashByID db (cp_HeadID cp) in
    match found with
    | None => Ok (escalate VerdictBroken (RCpHeadMissing (cp_HeadID cp) (cp_ID cp)) r)
    | Some hash => if bool_decide (hash = cp_HeadHash cp) then Ok r
                   else Ok (escalate VerdictBroken (RCpHeadRewritten (cp_HeadID cp) (cp_ID cp)) r)
    end.

Definition check_cp_token (cp : Checkpoint) (r : Result) : Result :=
  match o_TSARoots opts with
  | Some roots =>
      if as_Present (r_Anchor r) then
        let localCP := bound (mkCheckpoint 0 (cp_ChainedEvents cp) (cp_HeadID cp) (cp_HeadHash cp) (cp_KeyVersion cp)
                                [] [] None [] 0 []) (r_seals r) in
        if VerifyReceipt roots (checkpointCanonical localCP) (cp_AnchorToken cp)
        then set_Anchor (mkAnchorStatus true true (as_Provider (r_Anchor r)) (as_AnchoredAt (r_Anchor r))) r
        else escalate VerdictBroken (RCpAnchorFails (cp_ID cp)) r
      else r
  | None => r
  end.

(** The signed checkpoint itself, once the mark passed. *)
Definition check_checkpoint (cp : Checkpoint) (r : Result) : res E Result :=
  if negb (CheckpointSignatureValid (bound cp (r_seals r)) (o_CheckpointKey opts)) then
    Ok (escalate VerdictBroken (RCpSignature (cp_ID cp)) r)
  else
    let r := set_Checkpoint (mkCpStatus (cs_Present (r_Checkpoint r)) true (cs_KeyVersion (r_Checkpoint r))
                               (cs_ChainedEventsCertified (r_Checkpoint r))) r in
    if total_events r <? cp_ChainedEvents cp then
      Ok (escalate VerdictBroken (RBelowCheckpoint (cp_ID cp) (cp_ChainedEvents cp) (r_ChainedEvents r) (r_PurgedEvents r)) r)
    else
      let? r' := check_cp_head cp r in
      if broken_now r' then Ok r' else Ok (check_cp_token cp r').

Definition enforceCheckpoint (result : Result) : res E Result :=
  let? cp := LatestCheckpoint db in
  let r := match cp with Some cp => note_anchor_token cp (note_checkpoint cp result) | None => result end in
  if negb has_key then Ok r
  else
    let? hw := GetSystemMetadata db auditHighWaterKey in
    let '(r, markAuthenticated, floor) := check_mark hw r in
    let r := if negb markAuthenticated && negb (broken_now r) && negb (is_none cp)
             then escalate VerdictBroken RMarkMissing r else r in
    let r := if negb (broken_now r) && (total_events r <? floor)
             then escalate VerdictBroken (RBelowMark floor (r_ChainedEvents r) (r_PurgedEvents r)) r else r in
    match cp with
    | None => Ok r
    | Some cp => if broken_now r then Ok r else check_checkpoint cp r
    end.

(** ** keytransition.go *)

(** [true]: the head row the record certified is gone and the result says so. *)
Definition keyTransitionHeadGone (r : Result) (k : KeyTransition) : res E (Result * bool) :=
  if kt_HeadID k =? 0 then Ok (r, false)
  else
    let? found := AuditEntryHashByID db (kt_HeadID k) in
    let gone := (escalate VerdictBroken (RTransitionHead (kt_HeadID k) (kt_Seq k)) r, true) in
    match found with
    | Some hash => if bool_decide (hash = kt_HeadHash k) then Ok (r, false) else Ok gone
    | None => if rgs_Sanctioned (r_RetentionGap r) && (kt_HeadID k <? rgs_RowID (r_RetentionGap r))
              then Ok (r, false) else Ok gone
    end.

(** One record under the previous keys: [inr] is the early return of a
    failing record. *)
Fixpoint old_key_loop (k : KeyTransition) (cp : option Checkpoint) (keys : list bytes) (r : Result) : Result + Result :=
  match keys with
  | [] => inl r
  | pk :: keys =>
      let verified := set_KeyTransition (mkKtStatus (ks_Present (r_KeyTransition r)) (ks_Records (r_KeyTransition r))
                        (ks_Authenticated (r_KeyTransition r)) (ks_OldKeyVerified (r_KeyTransition r) + 1)) r in
      let other := if OldMACValid k pk then inl verified else old_key_loop k cp keys r in
      match cp with
      | Some cp =>
          if bool_decide (cp_KeyVersion cp = kt_OldKID k) && CheckpointSignatureValid cp pk then
            if negb (OldMACValid k pk) then inr (escalate VerdictBroken (RTransitionForged (kt_Seq k) (cp_ID cp)) r)
            else if negb (bool_decide (hex_sha256 (checkpointCanonical cp ++ NUL :: cp_Signature cp) = kt_Checkpoint k))
                 then inr (escalate VerdictBroken (RTransitionCheckpoint (cp_ID cp) (kt_Seq k)) r)
                 else inl verified
          else other
      | None => other
      end
  end.

Fixpoint checkKeyTransitionsOldKeys (recs : list KeyTransition) (r : Result) : res E Result :=
  match recs with
  | [] => Ok r
  | k :: recs =>
      let? cp := if kt_CheckpointID k =? 0 then Ok None else CheckpointByID db (kt_CheckpointID k) in
      match old_key_loop k cp (o_PreviousCheckpointKeys opts) r with
      | inr r => Ok r
      | inl r => checkKeyTransitionsOldKeys recs r
      end
  end.

(** The part after the record of the current epoch authenticated. *)
Definition kt_finish (recs : list KeyTransition) (r : Result) : res E Result :=
  let r := set_KeyTransition (mkKtStatus (ks_Present (r_KeyTransition r)) (ks_Records (r_KeyTransition r)) true
                                (ks_OldKeyVerified (r_KeyTransition r))) r in
  match List.find (fun e => negb (keyTransitionNamed recs (kte_description e))) (r_keyTransitionEvents r) with
  | Some e => Ok (escalate VerdictBroken (RTransitionEvent (kte_id e)) r)
  | None => checkKeyTransitionsOldKeys recs r
  end.

(** The record for the current epoch; [last] is [recs[len(recs)-1]], the one
    before it [recs[n-2]]. *)
Definition check_transition_records (recs : list KeyTransition) (epoch : bytes) (r : Result) : res E Result :=
  match last recs with
  | None => Ok r
  | Some lst =>
      if bool_decide (kt_NewKID lst = epoch) then
        if negb (NewMACValid lst (o_CheckpointKey opts)) then
          Ok (escalate VerdictBroken (RTransitionNewMAC (kt_Seq lst) epoch) r)
        else
          let? p := keyTransitionHeadGone r lst in
          if snd p then Ok (fst p) else kt_finish recs (set_activeTransition (Some lst) (fst p))
      else if bool_decide (kt_OldKID lst = epoch) then
        if negb (OldMACValid lst (o_CheckpointKey opts)) then
          Ok (escalate VerdictBroken (RTransitionOldMAC (kt_Seq lst) epoch) r)
        else
          match recs !! (length recs - 2)%nat with
          | Some p =>
              if (1 <? Z.of_nat (length recs)) && negb (NewMACValid p (o_CheckpointKey opts))
              then Ok (escalate VerdictBroken (RTransitionNewMAC (kt_Seq p) epoch) r)
              else kt_finish recs r
          | None => kt_finish recs r
          end
      else Ok (escalate VerdictBroken (RTransitionEpoch (kt_Seq lst) (kt_OldKID lst) (kt_NewKID lst) epoch) r)
  end.

Definition checkKeyTransitions (r : Result) : res E Result :=
  if negb has_key || negb (cs_Authenticated (r_Checkpoint r)) || broken_now r then Ok r
  else
    let epoch := cs_KeyVersion (r_Checkpoint r) in
    let? found := GetSystemMetadata db auditKeyTransitionsKey in
    match found with
    | None =>
        match r_keyTransitionEvents r with
        | e :: _ => Ok (escalate VerdictBroken (RTransitionsMissing (kte_id e)) r)
        | [] => Ok r
        end
    | Some val =>
        match ParseKeyTransitions val with
        | Err e => Ok (escalate VerdictBroken (RTransitionsMalformed e) r)
        | Ok recs =>
            let r := set_KeyTransition (mkKtStatus true (Z.of_nat (length recs)) false 0) r in
            check_transition_records recs epoch r
        end
    end.

(** ** verifystate.go *)

Definition carriedByKeyTransition (r : Result) (val : bytes) : bool :=
  match r_activeTransition r with
  | None => false
  | Some t =>
      if bool_decide (kt_State t = []) then false
      else if negb (bool_decide (hex_sha256 val = kt_State t)) then false
      else negb (existsb (fun e => Contains (kte_description e) (KT_Digest t)) (r_keyTransitionEvents r))
  end.

Definition checkVerifyStateHead (row : verifyStateRow) (r : Result) : res E Result :=
  let target :=
    match vs_Pin row with
    | Some p => if negb (pin_HeadID p =? 0) then Some (pin_HeadID p, pin_HeadHash p) else None
    | None => None
    end in
  let target :=
    match target with
    | Some t => Some t
    | None => match vs_LastCheck row with
              | Some c => if lc_Valid c && negb (lc_ThroughID c =? 0) then Some (lc_ThroughID c, lc_HeadHash c) else None
              | None => None
              end
    end in
  match target with
  | None => Ok r
  | Some (id, hash) =>
      let? found := AuditEntryHashByID db id in
      match found with
      | Some got => if bool_decide (got = hash) then Ok r else Ok (escalate VerdictBroken (RStateHeadRewritten id) r)
      | None => if id <? r_retentionAnchorRowID r then Ok r
                else Ok (escalate VerdictBroken (RStateHeadMissing id) r)
      end
  end.

(** The rules on an authentic, decoded row. *)
Definition check_state_row (row : verifyStateRow) (r : Result) : res E Result :=
  match vs_Discontinuity row with
  | Some d => Ok (escalate VerdictBroken (RStateDiscontinuity (di_Kind d) (di_Reason d)) r)
  | None =>
      let? range := EventRange db in
      let head := match range with Some (_, toID, _, _) => toID | None => 0 end in
      if head <? claimedThrough row then Ok (escalate VerdictBroken (RStatePastHead (claimedThrough row) head) r)
      else if vs_Placed row && (vs_AuditHead row <? r_discontinuityEventID r) then
        Ok (escalate VerdictBroken (RStateRolledBack (vs_AuditHead row) (r_discontinuityEventID r)) r)
      else checkVerifyStateHead row r
  end.

Definition checkVerifyState (r : Result) : res E Result :=
  if broken_now r then Ok r
  else
    let? found := GetSystemMetadata db auditVerifyStateKey in
    match found with
    | None => if negb (r_stateEventID r =? 0)
              then Ok (escalate VerdictBroken (RStateDeleted (r_stateEventID r)) r) else Ok r
    | Some val =>
        if negb has_key then Ok r
        else
          match decodeVerifyState val with
          | Some (payload, sig) =>
              if verifyStateMACValid payload sig (o_CheckpointKey opts) || carriedByKeyTransition r val then
                match Unmarshal_verifyStateRow payload with
                | Some row => check_state_row row r
                | None => Ok (escalate VerdictBroken RStateSignature r)
                end
              else Ok (escalate VerdictBroken RStateSignature r)
          | None => Ok (escalate VerdictBroken RStateSignature r)
          end
    end.

(** ** anchor_bundle.go *)

Definition crossCheckPreSealAnchor (r : Result) (b : ExternalAnchorBundle) (k : nat) : res E Result :=
  match r_sealRecs r !! k with
  | None => Ok r (* [k < len(sealRecs)] at the one call *)
  | Some next =>
      match sl_Before next with
      | None => Ok (escalate VerdictIndeterminate (RExtNoBefore (xb_ChainedEvents b) (xb_HeadID b) (sl_Seq next)) r)
      | Some before =>
          if sc_Events before <? xb_ChainedEvents b then
            Ok (escalate VerdictBroken (RExtBeyondSeal (xb_ChainedEvents b) (sl_Seq next) (sc_Events before)) r)
          else if xb_HeadID b =? 0 then Ok r
          else
            let? found := AuditEntryHashByID db (xb_HeadID b) in
            match found with
            | Some hash => if bool_decide (hash = xb_HeadHash b) then Ok r
                           else Ok (escalate VerdictBroken (RExtHeadRewritten (xb_HeadID b)) r)
            | None => if negb (sealsCover (r_sealRecs r) k (xb_HeadID b)) &&
                         negb (rgs_Sanctioned (r_RetentionGap r) && (xb_HeadID b <? rgs_RowID (r_RetentionGap r)))
                      then Ok (escalate VerdictBroken (RExtHeadOutside (xb_HeadID b)) r) else Ok r
            end
      end
  end.

(** The earlier bindings tried under one key, newest first: how many seals the
    anchor was exported under. *)
Fixpoint try_bindings (b : ExternalAnchorBundle) (recs : list Seal) (key : bytes) (k : nat) : option (Checkpoint * nat) :=
  match k with
  | O => None
  | S j =>
      let c := bound (checkpointFromAnchorBundle b) (sealBindingOf (take j recs)) in
      if CheckpointSignatureValid c key then Some (c, j) else try_bindings b recs key j
  end.

(** The key loop; [None]: no supplied key signs the bundle. *)
Fixpoint try_keys (b : ExternalAnchorBundle) (seals : sealBinding) (recs : list Seal) (keys : list bytes)
  : option (Checkpoint * nat) :=
  match keys with
  | [] => None
  | key :: keys =>
      if bool_decide (key = []) then try_keys b seals recs keys
      else
        let cp := bound (checkpointFromAnchorBundle b) seals in
        if CheckpointSignatureValid cp key then Some (cp, length recs)
        else match try_bindings b recs key (length recs) with
             | Some p => Some p
             | None => try_keys b seals recs keys
             end
  end.

(** An anchor at the current binding, against the live walk. *)
Definition cross_check_current (b : ExternalAnchorBundle) (r : Result) : res E Result :=
  if total_events r <? xb_ChainedEvents b then
    Ok (escalate VerdictBroken (RBelowExternal (xb_ChainedEvents b) (r_ChainedEvents r) (r_PurgedEvents r)) r)
  else if xb_HeadID b =? 0 then Ok r
  else
    let? found := AuditEntryHashByID db (xb_HeadID b) in
    match found with
    | None => Ok (escalate VerdictBroken (RExtHeadMissing (xb_HeadID b)) r)
    | Some hash => if bool_decide (hash = xb_HeadHash b) then Ok r
                   else Ok (escalate VerdictBroken (RExtHeadRewritten (xb_HeadID b)) r)
    end.

Definition crossCheckExternalAnchor (b : ExternalAnchorBundle) (r : Result) : res E Result :=
  let r := set_ExternalAnchor (mkExtStatus true (xs_Authenticated (r_ExternalAnchor r))
                                 (ToLower (o_ExternalAnchorSHA256 opts))) r in
  let recs := r_sealRecs r in
  let found := try_keys b (r_seals r) recs (o_CheckpointKey opts :: o_PreviousCheckpointKeys opts) in
  let '(cp, preSeal) := default (bound (checkpointFromAnchorBundle b) (r_seals r), length recs) found in
  let token :=
    match o_TSARoots opts with
    | Some roots => if bool_decide (xb_AnchorToken b = []) then None
                    else Some (VerifyReceipt roots (checkpointCanonical cp) (xb_AnchorToken b))
    | None => None
    end in
  match token with
  | Some false => Ok (escalate VerdictBroken RExtToken r)
  | _ =>
      if is_none found && is_none token then Ok r
      else
        let r := set_ExternalAnchor (mkExtStatus (xs_Supplied (r_ExternalAnchor r)) true (xs_SHA256 (r_ExternalAnchor r))) r in
        if (preSeal <? length recs)%nat then crossCheckPreSealAnchor r b preSeal
        else cross_check_current b r
  end.

(** ** owed_break_glass.go *)

Definition checkOwedBreakGlass (r : Result) : Result :=
  match UnsettledBreakGlassActivationIDs db with
  | Err _ => set_OwedBreakGlass (mkOwed false 0 [] true) r
  | Ok ids =>
      let r := set_OwedBreakGlass (mkOwed true (Z.of_nat (length ids)) ids false) r in
      if 0 <? Z.of_nat (length ids) then escalate VerdictIndeterminate (ROwed (Z.of_nat (length ids)) ids) r else r
  end.

(** ** buildNotProven *)

Definition np_seal (sl : SealSummary) : list not_proven :=
  [NPLostEvents (if 0 <=? ss_LostEvents sl then Some (ss_LostEvents sl) else None) (ss_Seq sl) (ss_At sl)
     (ss_Operator sl) (ss_Reason sl)] ++
  map (fun u => NPUnpinned (sp_FromID u) (sp_ThroughID u) (ss_Seq sl)) (ss_Unpinned sl) ++
  match ss_Anchor sl with
  | Some a => if negb (ac_VerifiedAtAcceptance a) && negb (bool_decide (ac_Check a = SealAnchorMatches))
              then [NPSealAnchor (ss_Seq sl) (ac_Digest a) (ac_Check a)] else []
  | None => []
  end.

Definition np_if (b : bool) (n : not_proven) : list not_proven := if b then [n] else [].

Definition buildNotProven (r : Result) : list not_proven :=
  [NPHostAdmin] ++
  np_if (negb has_key) NPNoKey ++
  np_if (rgs_Present (r_RetentionGap r) && negb (rgs_Authenticated (r_RetentionGap r)))
    (NPRetentionGap (rgs_RowID (r_RetentionGap r))) ++
  np_if (as_Present (r_Anchor r) && negb (as_Verified (r_Anchor r))) (NPAnchorNotVerified (negb (is_none (o_TSARoots opts)))) ++
  [if ob_Checked (r_OwedBreakGlass r) then NPSettledRows else NPBreakGlassUnread] ++
  np_if (ks_Present (r_KeyTransition r) && (ks_OldKeyVerified (r_KeyTransition r) <? ks_Records (r_KeyTransition r)))
    (NPOldKeySignatures (ks_Records (r_KeyTransition r) - ks_OldKeyVerified (r_KeyTransition r)) (ks_Records (r_KeyTransition r))) ++
  (if sst_Present (r_Seal r) && sst_Authenticated (r_Seal r) then concat (map np_seal (sst_Seals (r_Seal r))) else []) ++
  np_if (xs_Supplied (r_ExternalAnchor r) && negb (xs_Authenticated (r_ExternalAnchor r))) NPExternalAnchor ++
  np_if (has_key && negb (cs_Authenticated (r_Checkpoint r)) && negb (xs_Authenticated (r_ExternalAnchor r))) NPNoCheckpoint.

(** ** Verify *)

(** The retention anchor, when it authenticates under the key. *)
Definition load_anchor : res E (option StoredRetentionAnchor) :=
  let? found := GetSystemMetadata db auditRetentionAnchorKey in
  match found with
  | None => Ok None
  | Some raw =>
      match ParseRetentionAnchorValue raw with
      | Some a => if has_key && SigMatches a (o_CheckpointKey opts) then Ok (Some a) else Ok None
      | None => Ok None
      end
  end.

Definition anchor_of (a : StoredRetentionAnchor) : RetentionAnchor :=
  mkAnchor (sa_RowID a) (sa_PrevHash a) (sa_EntryHash a) (sa_PurgedEvents a).

(** The result before the walk: the range, the anchor's purge credit, the seals. *)
Definition initial_result (range : option (Z * Z * Z * Z)) (a : option StoredRetentionAnchor) (s : loadedSeals) : Result :=
  let r := empty_result (o_Now opts) Version in
  let r := match range with Some (f, t, ft, lt) => set_Range (Some (mkRange f t ft lt)) r | None => r end in
  let r := match a with
           | Some a => set_PurgedEvents (sa_PurgedEvents a) (set_retentionAnchorRowID (sa_RowID a) r)
           | None => r end in
  let r := if ld_authenticated s then set_sealRecs (ld_recs s) (set_seals (sealBindingOf (ld_recs s)) r) else r in
  if negb (bool_decide (length (ld_recs s) = O)) || negb (is_none (ld_problem s))
  then set_Seal (mkSealStatus true (Z.of_nat (length (ld_recs s))) false []) r else r.

(** The seal findings after the walk. *)
Definition after_walk_seals (s : loadedSeals) (r : Result) : Result :=
  match ld_problem s with
  | Some p =>
      let r := if broken_now r then set_Reason (RAlso (r_Reason r) p) r else r in
      escalate VerdictBroken (RSealUntrusted p) r
  | None => if ld_authenticated s && negb (broken_now r) then checkSealEvents r (ld_recs s) else r
  end.

Definition lift_v {A} (m : res E A) : res (verify_err E) A :=
  match m with Ok a => Ok a | Err e => Err (VerifyDB e) end.
Definition lift_w {A} (m : res (page_err E) A) : res (verify_err E) A :=
  match m with Ok a => Ok a | Err (PageDB e) => Err (VerifyDB e) | Err PageOutOfFuel => Err VerifyOutOfFuel end.

(** The checks a clean walk is followed by; after a broken one only the
    checkpoint's presence is noted. *)
Definition after_walk (r : Result) : res E Result :=
  if negb (broken_now r) then
    let? r := enforceCheckpoint r in
    let? r := checkKeyTransitions r in
    checkVerifyState r
  else
    match LatestCheckpoint db with
    | Ok (Some cp) => Ok (note_checkpoint cp r)
    | _ => Ok r
    end.

Definition finish_seals (s : loadedSeals) (r : Result) : Result :=
  if ld_authenticated s && negb (bool_decide (length (ld_recs s) = O)) then
    let r := set_Seal (mkSealStatus (sst_Present (r_Seal r)) (sst_Records (r_Seal r)) (negb (broken_now r))
                         (summarizeSeals (ld_recs s) r)) r in
    escalate VerdictSealed (RSealed (Z.of_nat (length (ld_recs s)))) r
  else r.

Definition batch_size : Z := if o_BatchSize opts <=? 0 then DefaultBatchSize else o_BatchSize opts.

Definition Verify (fuel : nat) : res (verify_err E) Result :=
  let? _ := checkCheckpointKeyLens in
  let? range := lift_v (EventRange db) in
  let? anchor := lift_v load_anchor in
  let? seals := lift_v loadSeals in
  let gaps := if ld_authenticated seals then sealedGaps (ld_recs seals) else [] in
  let? r := lift_w (walkChain db batch_size (anchor_of <$> anchor) (negb (is_none anchor)) fuel
                      (initial_result range anchor seals) gaps) in
  let r := after_walk_seals seals r in
  let? r := lift_v (after_walk r) in
  let? r := match o_ExternalAnchor opts with
            | Some b => if negb (broken_now r) then lift_v (crossCheckExternalAnchor b r) else Ok r
            | None => Ok r
            end in
  let r := checkOwedBreakGlass r in
  let r := finish_seals seals r in
  Ok (set_NotProven (buildNotProven r) r).
End Verify.
