(* ===== verification/AuditTrail.v ===== *)
(** What a verification run establishes: the theorems about [Verify].

    Every check only raises the verdict ([raises]), so a final verdict
    bounds every stage.  From that: what a run that is not BROKEN, and one that
    exits 0, says of the table; what an accepted checkpoint pins; that a run
    over a healthy database always ends in a verdict; and that an honest
    deployment is reported VALID. *)
From Stdlib Require Import ZArith Lia.
From stdpp Require Import base numbers tactics sets list.
From S2P Require Import Prelude.
From S2P Require Import Sha256.
From S2P Require Import GoStr.
From S2P Require Import AuditHash.
From S2P Require Import AuditCheckpoint.
From S2P Require Import AuditRecords.
From S2P Require Import AuditDB.
From S2P Require Import AuditPages.
From S2P Require Import AuditResult.
From S2P Require Import AuditWalk.
From S2P Require Import AuditVerify.

Section Trail.
Context `{JSON} {E Roots : Type}.
Context (VerifyReceipt : Roots -> bytes -> bytes -> bool) (fips : bool).
Context (db : DB E) (opts : Options Roots).

(** * The verdict only rises *)

Ltac nb := split; [rewrite ?escalate_rank; cbn; rewrite ?escalate_rank; cbn; lia|rewrite ?escalate_frame; reflexivity].
#[local] Hint Extern 5 (raises _ _ _) => nb : kx.
(** Split the cases of [H : check r = Ok r'] down to explicit results. *)
Ltac nb_cases H :=
  lazymatch type of H with
  | Err _ = Ok _ => discriminate H
  | Ok _ = Ok _ => injection H as <-
  | res_bind ?m _ = Ok _ => destruct m eqn:?; [cbn [res_bind] in H; nb_cases H|discriminate H]
  | _ => tryif destr_match_in H then nb_cases H else idtac
  end.

Lemma if_escalate_nb k (c : bool) v why r : raises k r (if c then escalate v why r else r).
Proof. destruct c; auto with kx. Qed.

Lemma checkSealEvents_nb k r recs : raises k r (checkSealEvents r recs).
Proof. unfold checkSealEvents. destruct (List.find _ _); [|destruct (List.find _ _)]; auto with kx. Qed.

Lemma check_mark_nb k hw r : raises k r (fst (fst (check_mark opts hw r))).
Proof. unfold check_mark. repeat destr_match; simpl; auto with kx. Qed.

Lemma check_cp_head_nb k cp r r' : check_cp_head db cp r = Ok r' -> raises k r r'.
Proof. unfold check_cp_head. intros Hx. nb_cases Hx; auto with kx. Qed.

Lemma check_cp_token_nb k cp r : raises k r (check_cp_token VerifyReceipt opts cp r).
Proof. unfold check_cp_token. repeat destr_match; auto with kx. Qed.

Lemma check_checkpoint_nb cp r r' : check_checkpoint VerifyReceipt db opts cp r = Ok r' -> raises false r r'.
Proof.
  unfold check_checkpoint. cbv zeta. intros Hx.
  destruct (negb _); [injection Hx as <-; auto with kx|]. set (r0 := set_Checkpoint _ r) in *.
  assert (raises false r r0) as H0 by nb. transitivity r0; [exact H0|].
  destruct (_ <? _); [injection Hx as <-; auto with kx|].
  destruct (check_cp_head db cp r0) as [r1|] eqn:E1; [cbn [res_bind] in Hx|discriminate Hx].
  apply (check_cp_head_nb false) in E1. transitivity r1; [exact E1|].
  destruct (broken_now r1); injection Hx as <-; [reflexivity|]. apply check_cp_token_nb.
Qed.

Lemma enforceCheckpoint_nb r r' : enforceCheckpoint VerifyReceipt db opts r = Ok r' -> raises false r r'.
Proof.
  unfold enforceCheckpoint. destruct (LatestCheckpoint db) as [cp|]; [cbn [res_bind]|done]. cbv zeta.
  set (r0 := match cp with Some _ => _ | None => _ end).
  assert (raises false r r0) as H0
    by (subst r0; destruct cp; [unfold note_anchor_token, note_checkpoint; destr_match|]; nb).
  destruct (negb (has_key opts)); [by intros [= <-]|].
  destruct (GetSystemMetadata db auditHighWaterKey) as [hw|]; [cbn [res_bind]|done].
  pose proof (check_mark_nb false hw r0) as H1. destruct (check_mark opts hw r0) as [[r1 auth] floor]. cbn [fst] in H1.
  set (r2 := if _ && _ && _ then _ else r1). assert (raises false r1 r2) as H2 by apply if_escalate_nb.
  set (r3 := if _ && _ then _ else r2). assert (raises false r2 r3) as H3 by apply if_escalate_nb.
  assert (raises false r r3) as H4 by (do 3 (etrans; [done|]); done).
  destruct cp as [cp|]; [|by intros [= <-]]. destruct (broken_now r3); [by intros [= <-]|].
  intros Hx. apply check_checkpoint_nb in Hx. by etrans.
Qed.

Lemma keyTransitionHeadGone_nb k r t p : keyTransitionHeadGone db r t = Ok p -> raises k r (fst p).
Proof. unfold keyTransitionHeadGone. cbv zeta. intros Hx. nb_cases Hx; simpl; auto with kx. Qed.

Lemma old_key_loop_nb k t cp keys : forall r,
  match old_key_loop t cp keys r with inl r' | inr r' => raises k r r' end.
Proof.
  induction keys as [|pk keys IH]; intros r; cbn [old_key_loop]; [auto with kx|]. cbv zeta. specialize (IH r).
  destruct cp as [cp|]; [destruct (_ && _); [destruct (negb _); [|destruct (negb _)]|]|];
    try destruct (OldMACValid t pk); auto with kx; nb.
Qed.

Lemma checkKeyTransitionsOldKeys_nb k recs : forall r r',
  checkKeyTransitionsOldKeys db opts recs r = Ok r' -> raises k r r'.
Proof.
  induction recs as [|t recs IH]; intros r r' Hx; cbn [checkKeyTransitionsOldKeys] in Hx; [injection Hx as <-; auto with kx|].
  destruct (if kt_CheckpointID t =? 0 then Ok None else CheckpointByID db (kt_CheckpointID t)) as [cp|];
    [cbn [res_bind] in Hx|discriminate Hx].
  pose proof (old_key_loop_nb k t cp (o_PreviousCheckpointKeys opts) r) as H1.
  destruct (old_key_loop _ _ _ _) as [r1|r1]; [apply IH in Hx; by etrans|by injection Hx as <-].
Qed.

Lemma kt_finish_nb k recs r r' : kt_finish db opts recs r = Ok r' -> raises k r r'.
Proof.
  unfold kt_finish. cbv zeta. destruct (List.find _ _); [intros [= <-]; nb|].
  intros Hx. apply (checkKeyTransitionsOldKeys_nb k) in Hx. exact Hx.
Qed.

Lemma check_transition_records_nb k recs epoch r r' :
  check_transition_records db opts recs epoch r = Ok r' -> raises k r r'.
Proof.
  unfold check_transition_records. destruct (last recs) as [lst|]; [|intros [= <-]; auto with kx].
  destruct (bool_decide (kt_NewKID lst = epoch)).
  - destruct (negb _); [intros [= <-]; auto with kx|].
    destruct (keyTransitionHeadGone db r lst) as [p|] eqn:Ep; [cbn [res_bind]|done].
    apply (keyTransitionHeadGone_nb k) in Ep. destruct (snd p); [by intros [= <-]|].
    intros Hx. apply (kt_finish_nb k) in Hx. etrans; [done|]. exact Hx.
  - destruct (bool_decide _); [|intros [= <-]; auto with kx]. destruct (negb _); [intros [= <-]; auto with kx|].
    destruct (recs !! _); [destruct (_ && _); [intros [= <-]; auto with kx|]|]; apply kt_finish_nb.
Qed.

Lemma checkKeyTransitions_nb k r r' : checkKeyTransitions db opts r = Ok r' -> raises k r r'.
Proof.
  unfold checkKeyTransitions. destruct (_ || _); [intros [= <-]; auto with kx|]. cbv zeta.
  destruct (GetSystemMetadata db auditKeyTransitionsKey) as [[val|]|]; cbn [res_bind]; [| |done].
  - destruct (ParseKeyTransitions val); [|intros [= <-]; auto with kx].
    intros Hx. apply (check_transition_records_nb k) in Hx. exact Hx.
  - destruct (r_keyTransitionEvents r); intros [= <-]; auto with kx.
Qed.

Lemma check_state_row_nb k row r r' : check_state_row db row r = Ok r' -> raises k r r'.
Proof. unfold check_state_row, checkVerifyStateHead. cbv zeta. intros Hx. nb_cases Hx; auto with kx. Qed.

Lemma checkVerifyState_nb k r r' : checkVerifyState db opts r = Ok r' -> raises k r r'.
Proof.
  unfold checkVerifyState. intros Hx.
  nb_cases Hx; auto with kx; by apply (check_state_row_nb k) in Hx.
Qed.

Lemma crossCheck_nb k b r r' : crossCheckExternalAnchor VerifyReceipt db opts b r = Ok r' -> raises k r r'.
Proof.
  unfold crossCheckExternalAnchor. cbv zeta. destruct (default _ _) as [cp preSeal].
  set (r0 := set_ExternalAnchor _ r). set (r1 := set_ExternalAnchor _ r0).
  assert (raises k r r0 /\ raises k r r1) as [H0 H1] by (split; nb).
  assert (forall r2, (if (preSeal <? length (r_sealRecs r0))%nat then crossCheckPreSealAnchor db r1 b preSeal
                      else cross_check_current db b r1) = Ok r2 -> raises k r r2) as Htail.
  { intros r2. destruct (_ <? _)%nat.
    - unfold crossCheckPreSealAnchor. intros Hx. nb_cases Hx; try exact H1; (transitivity r1; [exact H1|auto with kx]).
    - unfold cross_check_current. intros Hx. nb_cases Hx; try exact H1; (transitivity r1; [exact H1|auto with kx]). }
  destruct (match o_TSARoots opts with Some _ => _ | None => _ end) as [[]|].
  - destruct (_ && _); [by intros [= <-]|apply Htail].
  - intros [= <-]. transitivity r0; [exact H0|auto with kx].
  - destruct (_ && _); [by intros [= <-]|apply Htail].
Qed.

Lemma checkOwedBreakGlass_nb k r : raises k r (checkOwedBreakGlass db r).
Proof. unfold checkOwedBreakGlass. destruct (UnsettledBreakGlassActivationIDs db); [destruct (_ <? _)|]; nb. Qed.

Lemma finish_seals_nb k s r : raises k r (finish_seals opts s r).
Proof. unfold finish_seals. destruct (_ && _); nb. Qed.

Lemma after_walk_seals_nb k s r : raises k r (after_walk_seals s r).
Proof.
  unfold after_walk_seals. destruct (ld_problem s); [destruct (broken_now r); nb|].
  destruct (_ && _); [apply checkSealEvents_nb|auto with kx].
Qed.

Lemma after_walk_nb r r' : after_walk VerifyReceipt db opts r = Ok r' -> raises false r r'.
Proof.
  unfold after_walk. destruct (negb (broken_now r)).
  - destruct (enforceCheckpoint _ _ _ r) as [r1|] eqn:E1; [cbn [res_bind]|done]. apply enforceCheckpoint_nb in E1.
    destruct (checkKeyTransitions _ _ r1) as [r2|] eqn:E2; [cbn [res_bind]|done]. apply (checkKeyTransitions_nb false) in E2.
    intros E3. apply (checkVerifyState_nb false) in E3. etrans; [done|]. by etrans.
  - intros Hx. nb_cases Hx; auto with kx; nb.
Qed.

(** * The stages of a run *)

Lemma batch_size_pos : 0 < batch_size opts.
Proof. unfold batch_size. destruct (Z.leb_spec (o_BatchSize opts) 0); [done|lia]. Qed.

Lemma initial_result_fields range a s :
  r_Verdict (initial_result opts range a s) = VerdictValid /\
  r_RetentionGap (initial_result opts range a s) = no_gap.
Proof. unfold initial_result. destruct range as [[[[? ?] ?] ?]|], a; cbv zeta; repeat destr_match; done. Qed.

Definition walk_of (fuel : nat) range anchor seals : res (page_err E) Result :=
  walkChain db (batch_size opts) (anchor_of <$> anchor) (negb (is_none anchor)) fuel
    (initial_result opts range anchor seals) (if ld_authenticated seals then sealedGaps (ld_recs seals) else []).

Record stages (fuel : nat) (r : Result) range anchor seals r0 r1 r2 : Prop := mk_stages {
  sg_range : EventRange db = Ok range;
  sg_anchor : load_anchor db opts = Ok anchor;
  sg_seals : loadSeals db opts = Ok seals;
  sg_walk : walk_of fuel range anchor seals = Ok r0;
  sg_after : after_walk VerifyReceipt db opts (after_walk_seals seals r0) = Ok r1;
  sg_ext : raises true r1 r2;
  sg_last : r = set_NotProven (buildNotProven opts (finish_seals opts seals (checkOwedBreakGlass db r2)))
                  (finish_seals opts seals (checkOwedBreakGlass db r2))
}.

Lemma Verify_stages fuel r :
  Verify VerifyReceipt fips db opts fuel = Ok r -> exists range anchor seals r0 r1 r2, stages fuel r range anchor seals r0 r1 r2.
Proof.
  unfold Verify. destruct (checkCheckpointKeyLens fips opts); [cbn [res_bind]|done].
  destruct (EventRange db) as [range|] eqn:E1; [cbn [lift_v res_bind]|done].
  destruct (load_anchor db opts) as [anchor|] eqn:E2; [cbn [lift_v res_bind]|done].
  destruct (loadSeals db opts) as [seals|] eqn:E3; [cbn [lift_v res_bind]|done]. cbv zeta.
  destruct (walkChain _ _ _ _ _ _ _) as [r0|[e|]] eqn:E4; cbn [lift_w res_bind]; [|done..].
  destruct (after_walk _ _ _ _) as [r1|] eqn:E5; [cbn [lift_v res_bind]|done].
  set (ext := match o_ExternalAnchor opts with Some _ => _ | None => _ end).
  destruct ext as [r2|] eqn:E6; [cbn [res_bind]|done]. intros [= <-].
  exists range, anchor, seals, r0, r1, r2. split; try done. subst ext.
  destruct (o_ExternalAnchor opts) as [b|]; [|by injection E6 as <-].
  destruct (negb (broken_now r1)); [|by injection E6 as <-].
  destruct (crossCheckExternalAnchor _ _ _ b r1) as [r3|] eqn:E7; [|done]. cbn [lift_v] in E6. injection E6 as <-.
  by eapply crossCheck_nb.
Qed.

Lemma set_NotProven_raises k n r : raises k r (set_NotProven n r).
Proof. nb. Qed.

(** From the walk on, and from the checks on, the verdict only rises. *)
Lemma stages_raises fuel r range anchor seals r0 r1 r2 :
  stages fuel r range anchor seals r0 r1 r2 ->
  raises false r0 r /\ raises false (after_walk_seals seals r0) r /\ raises true r1 r.
Proof.
  intros [_ _ _ _ Ha Hx ->]. apply after_walk_nb in Ha.
  assert (raises true r1 (set_NotProven (buildNotProven opts (finish_seals opts seals (checkOwedBreakGlass db r2)))
                  (finish_seals opts seals (checkOwedBreakGlass db r2)))) as H1.
  { etrans; [exact Hx|]. etrans; [apply checkOwedBreakGlass_nb|]. etrans; [apply finish_seals_nb|].
    apply set_NotProven_raises. }
  pose proof (raises_weaken _ _ _ H1) as H1'. pose proof (after_walk_seals_nb false seals r0) as H0.
  split_and!; [etrans; [exact H0|]; by etrans|by etrans|done].
Qed.

(** * Seals *)

Lemma loadSeals_cases s :
  loadSeals db opts = Ok s ->
  (GetSystemMetadata db auditSealsKey = Ok None /\ s = mkLoaded [] false None) \/
  (exists val, GetSystemMetadata db auditSealsKey = Ok (Some val) /\
     ((exists p, ld_problem s = Some p /\ ld_authenticated s = false) \/
      (ParseSeals val = Ok (ld_recs s) /\ ld_authenticated s = true /\ ld_problem s = None /\
       has_key opts = true /\ Forall (fun r => MACValid r (o_CheckpointKey opts) = true) (ld_recs s)))).
Proof.
  unfold loadSeals. destruct (GetSystemMetadata db auditSealsKey) as [[val|]|]; cbn [res_bind]; [| |done].
  2:{ intros [= <-]. by left. }
  intros Hs. right. exists val. split; [done|].
  destruct (ParseSeals val) as [recs|]; [|injection Hs as <-; left; eauto].
  destruct (has_key opts); cbn [negb] in Hs; [|injection Hs as <-; left; eauto].
  destruct (first_bad_mac opts recs) eqn:Ef; injection Hs as <-; [left; eauto|]. right. split_and!; try done.
  apply Forall_forall. intros r Hr. apply list_elem_of_In in Hr.
  eapply List.find_none in Ef; [|done]. by apply negb_false_iff in Ef.
Qed.

Lemma finish_seals_sealed s r :
  ld_authenticated s = true -> ld_recs s <> [] -> verdictRank VerdictSealed <= verdictRank (r_Verdict (finish_seals opts s r)).
Proof.
  intros Ha Hr. unfold finish_seals. rewrite Ha. destruct (ld_recs s) as [|x l]; [done|]. cbn [length].
  rewrite bool_decide_eq_false_2 by done. cbn [negb andb]. rewrite escalate_rank. lia.
Qed.

Lemma seals_not_valid fuel r val :
  Verify VerifyReceipt fips db opts fuel = Ok r -> GetSystemMetadata db auditSealsKey = Ok (Some val) ->
  r_Verdict r <> VerdictValid.
Proof.
  intros Hv Hm. apply Verify_stages in Hv as (range & anchor & seals & r0 & r1 & r2 & Hs).
  pose proof (stages_raises _ _ _ _ _ _ _ _ Hs) as (_ & [H1 _] & _). destruct Hs as [_ _ Hl _ _ _ ->].
  apply loadSeals_cases in Hl as [[Hl _]|(v & _ & [(p & Hp & _)|(Hps & Ha & _)])]; [congruence| |].
  - unfold after_walk_seals in H1. rewrite Hp, escalate_rank in H1. intros Hx. rewrite Hx in H1. cbn in H1. lia.
  - apply ParseSeals_linked in Hps as [_ Hne]. intros Hx.
    pose proof (finish_seals_sealed _ (checkOwedBreakGlass db r2) Ha Hne) as Hf.
    cbn [set_NotProven r_Verdict] in Hx. rewrite Hx in Hf. cbn in Hf. lia.
Qed.

(** A run never reports a chain with accepted losses as whole: if the
    database holds an [audit_seals] row, in any state, the verdict is not
    VALID and the process does not exit 0. *)
Theorem Verify_seals_never_valid fuel r val :
  Verify VerifyReceipt fips db opts fuel = Ok r -> GetSystemMetadata db auditSealsKey = Ok (Some val) ->
  r_Verdict r <> VerdictValid /\ ExitCode r <> 0.
Proof.
  intros Hv Hm. pose proof (seals_not_valid fuel r val Hv Hm) as Hn.
  split; [done|]. unfold ExitCode. by destruct (r_Verdict r).
Qed.

(** * The checkpoint *)

Lemma frame_total k r r' : frame k r' = frame k r -> total_events r' = total_events r /\ r_seals r' = r_seals r.
Proof. unfold frame, total_events. intros [=]. split; congruence. Qed.

(** The high-water mark of the database authenticates under the key, was
    written under the seals the run authenticated, and lies within the trail. *)
Definition mark_certified (r : Result) : Prop :=
  exists val hw sig, GetSystemMetadata db auditHighWaterKey = Ok (Some val) /\ ParseHighWater val = Some (hw, sig) /\
    HighWaterSigMatches hw sig (o_CheckpointKey opts) = true /\
    cp_Seals hw = sb_N (r_seals r) /\ cp_SealDigest hw = sb_Digest (r_seals r) /\
    cp_ChainedEvents hw <= total_events r.

(** The checkpoint authenticates under the key, certifies no more events than
    the trail holds, and its head row is there with the certified hash. *)
Definition checkpoint_certified (cp : Checkpoint) (r : Result) : Prop :=
  CheckpointSignatureValid (bound cp (r_seals r)) (o_CheckpointKey opts) = true /\
  cp_ChainedEvents cp <= total_events r /\
  (cp_HeadID cp <> 0 -> AuditEntryHashByID db (cp_HeadID cp) = Ok (Some (cp_HeadHash cp))) /\
  cs_Authenticated (r_Checkpoint r) = true /\ cs_KeyVersion (r_Checkpoint r) = cp_KeyVersion cp.

Lemma broken_now_false r : broken_now r = false <-> r_Verdict r <> VerdictBroken.
Proof. unfold broken_now. apply bool_decide_eq_false. Qed.

Lemma check_checkpoint_certified cp r r' :
  check_checkpoint VerifyReceipt db opts cp r = Ok r' -> r_Verdict r' <> VerdictBroken ->
  cs_KeyVersion (r_Checkpoint r) = cp_KeyVersion cp -> checkpoint_certified cp r'.
Proof.
  intros Hx Hn Hk. pose proof (check_checkpoint_nb _ _ _ Hx) as [_ Hf]. apply frame_total in Hf as [Ht Hse].
  unfold check_checkpoint in Hx. cbv zeta in Hx. unfold checkpoint_certified. rewrite Ht, Hse.
  destruct (CheckpointSignatureValid _ _) eqn:Esig; cbn [negb] in Hx; [|injection Hx as <-; by rewrite escalate_broken in Hn].
  set (r0 := set_Checkpoint _ r) in *. change (total_events r0) with (total_events r) in Hx.
  destruct (Z.ltb_spec (total_events r) (cp_ChainedEvents cp)); [injection Hx as <-; by rewrite escalate_broken in Hn|].
  destruct (check_cp_head db cp r0) as [r1|] eqn:E1; [cbn [res_bind] in Hx|discriminate Hx].
  assert (r_Verdict r1 <> VerdictBroken) as Hn1.
  { destruct (broken_now r1) eqn:Eb; injection Hx as <-; [done|by apply broken_now_false]. }
  rewrite (proj2 (broken_now_false r1)) in Hx by done. injection Hx as <-.
  assert (r1 = r0 /\ (cp_HeadID cp <> 0 -> AuditEntryHashByID db (cp_HeadID cp) = Ok (Some (cp_HeadHash cp)))) as [-> Hh].
  { unfold check_cp_head in E1. destruct (Z.eqb_spec (cp_HeadID cp) 0); [injection E1 as <-; split; [done|lia]|].
    destruct (AuditEntryHashByID db (cp_HeadID cp)) as [[h|]|]; cbn [res_bind] in E1; [| |done].
    - case_bool_decide; injection E1 as <-; [split; [done|congruence]|by rewrite escalate_broken in Hn1].
    - injection E1 as <-. by rewrite escalate_broken in Hn1. }
  pose proof (check_cp_token_nb true cp r0) as [_ Hf]. injection Hf as _ _ _ _ _ _ ->.
  split_and!; [done|lia|done|done|done].
Qed.

Lemma check_mark_ok hw r r' auth floor :
  check_mark opts hw r = (r', auth, floor) -> r_Verdict r' <> VerdictBroken -> auth = true ->
  r' = r /\ exists val cp sig, hw = Some val /\ ParseHighWater val = Some (cp, sig) /\
    HighWaterSigMatches cp sig (o_CheckpointKey opts) = true /\
    cp_Seals cp = sb_N (r_seals r) /\ cp_SealDigest cp = sb_Digest (r_seals r) /\ floor = cp_ChainedEvents cp.
Proof.
  unfold check_mark. intros Hx Hn ->. destruct hw as [val|]; [|done].
  destruct (ParseHighWater val) as [[cp sig]|] eqn:Ep; [|done].
  destruct (negb _ || _) eqn:Es; [done|]. breflect.
  destruct (HighWaterSigMatches cp sig _) eqn:Em; [|done]. injection Hx as <- <-. split; [done|].
  exists val, cp, sig. done.
Qed.

Lemma enforceCheckpoint_certified r r' :
  enforceCheckpoint VerifyReceipt db opts r = Ok r' -> r_Verdict r' <> VerdictBroken -> has_key opts = true ->
  exists cp, LatestCheckpoint db = Ok cp /\
    match cp with Some cp => checkpoint_certified cp r' /\ mark_certified r' | None => r_Checkpoint r' = r_Checkpoint r end.
Proof.
  intros Hx Hn Hk. pose proof (enforceCheckpoint_nb _ _ Hx) as [_ Hf]. apply frame_total in Hf as [Ht Hse].
  unfold enforceCheckpoint in Hx. destruct (LatestCheckpoint db) as [cp|] eqn:Ecp; [cbn [res_bind] in Hx|done].
  exists cp. split; [done|]. rewrite Hk in Hx. cbn [negb] in Hx. cbv zeta in Hx.
  destruct (GetSystemMetadata db auditHighWaterKey) as [hw|] eqn:Ehw; [cbn [res_bind] in Hx|done].
  set (r0 := match cp with Some _ => _ | None => r end) in *.
  destruct (check_mark opts hw r0) as [[r1 auth] floor] eqn:Em.
  pose proof (check_mark_nb true hw r0) as H1. rewrite Em in H1. cbn [fst] in H1.
  set (r2 := if _ && _ && _ then _ else r1) in *. set (r3 := if _ && _ then _ else r2) in *.
  assert (raises true r1 r2) as H2 by apply if_escalate_nb.
  assert (raises true r2 r3) as H3 by apply if_escalate_nb.
  destruct cp as [cp|].
  2:{ injection Hx as <-. assert (raises true r0 r3) as [_ Hf] by (etrans; [done|]; by etrans).
      injection Hf as _ _ _ _ _ _ ->. done. }
  assert (r_Verdict r3 <> VerdictBroken) as Hn3.
  { destruct (broken_now r3) eqn:Eb; [by injection Hx as <-|by apply broken_now_false]. }
  rewrite (proj2 (broken_now_false r3)) in Hx by done.
  assert (r_Verdict r2 <> VerdictBroken) as Hn2 by by eapply raises_not_broken.
  assert (r_Verdict r1 <> VerdictBroken) as Hn1 by by eapply raises_not_broken.
  assert (auth = true) as ->.
  { destruct auth; [done|]. subst r2. cbn [negb is_none andb] in Hn2.
    rewrite (proj2 (broken_now_false r1)) in Hn2 by done. cbn [negb andb] in Hn2. by rewrite escalate_broken in Hn2. }
  destruct (check_mark_ok _ _ _ _ _ Em Hn1 eq_refl) as (-> & val & hcp & sig & -> & Hp & Hs & Hs1 & Hs2 & ->).
  subst r2. cbn [negb andb] in *.
  assert (r3 = r0 /\ cp_ChainedEvents hcp <= total_events r0) as [E3 Hfl].
  { subst r3. rewrite (proj2 (broken_now_false r0)) in * by done. cbn [negb andb] in *.
    destruct (Z.ltb_spec (total_events r0) (cp_ChainedEvents hcp)); [by rewrite escalate_broken in Hn3|done]. }
  rewrite E3 in Hx.
  assert (raises false r r0) as [_ Hf0].
  { subst r0. unfold note_anchor_token, note_checkpoint. destr_match; nb. }
  apply frame_total in Hf0 as [Ht0 Hse0].
  split.
  - eapply check_checkpoint_certified; [done|done|].
    subst r0. unfold note_anchor_token, note_checkpoint. by destruct (bool_decide _).
  - exists val, hcp, sig. rewrite Ht, Hse, <- Ht0, <- Hse0. done.
Qed.

Lemma checkpoint_certified_raises cp r r' :
  raises true r r' -> checkpoint_certified cp r -> mark_certified r -> checkpoint_certified cp r' /\ mark_certified r'.
Proof.
  intros [_ Hf] (? & ? & ? & ? & ?) (val & hw & sig & ? & ? & ? & ? & ? & ?).
  pose proof (frame_total true r r' Hf) as [Ht Hs]. injection Hf as _ _ _ _ _ _ Hc.
  split.
  - unfold checkpoint_certified. rewrite Ht, Hs, Hc. done.
  - exists val, hw, sig. rewrite Ht, Hs. done.
Qed.

Lemma after_walk_certified r r' cp :
  after_walk VerifyReceipt db opts r = Ok r' -> r_Verdict r' <> VerdictBroken -> has_key opts = true ->
  LatestCheckpoint db = Ok (Some cp) -> checkpoint_certified cp r' /\ mark_certified r'.
Proof.
  intros Hx Hn Hk Hcp. pose proof (after_walk_nb _ _ Hx) as Hr. unfold after_walk in Hx.
  rewrite (proj2 (broken_now_false r)) in Hx by by eapply raises_not_broken. cbn [negb] in Hx.
  destruct (enforceCheckpoint _ _ _ r) as [r1|] eqn:E1; [cbn [res_bind] in Hx|done].
  destruct (checkKeyTransitions _ _ r1) as [r2|] eqn:E2; [cbn [res_bind] in Hx|done].
  apply (checkKeyTransitions_nb true) in E2. apply (checkVerifyState_nb true) in Hx.
  assert (raises true r1 r') as H1 by by etrans.
  apply enforceCheckpoint_certified in E1 as (cp' & Hcp' & Hc); [|by eapply raises_not_broken|done].
  rewrite Hcp in Hcp'. injection Hcp' as <-. destruct Hc as [Hc Hm]. by eapply checkpoint_certified_raises.
Qed.

Lemma Verify_certified fuel r cp :
  Verify VerifyReceipt fips db opts fuel = Ok r -> r_Verdict r <> VerdictBroken -> has_key opts = true ->
  LatestCheckpoint db = Ok (Some cp) -> checkpoint_certified cp r /\ mark_certified r.
Proof.
  intros Hv Hn Hk Hcp. apply Verify_stages in Hv as (range & anchor & seals & r0 & r1 & r2 & Hs).
  pose proof (stages_raises _ _ _ _ _ _ _ _ Hs) as (_ & _ & H1). destruct Hs as [_ _ _ _ Ha _ _].
  eapply after_walk_certified in Ha as [Hc Hm]; [|by eapply raises_not_broken|done|done].
  by eapply checkpoint_certified_raises.
Qed.

(** With the checkpoint key, a run over a database that holds a checkpoint
    is BROKEN unless the checkpoint and the anti-rollback mark both authenticate
    under the key and the seals in force, neither certifies more events than
    the trail accounts for (rows chained plus rows purged under a signed
    anchor, as a 64-bit sum), and the certified head row is present with the
    certified hash. *)
Theorem Verify_checkpoint_certified fuel r cp :
  Verify VerifyReceipt fips db opts fuel = Ok r -> r_Verdict r <> VerdictBroken -> has_key opts = true ->
  LatestCheckpoint db = Ok (Some cp) -> checkpoint_certified cp r /\ mark_certified r.
Proof. apply Verify_certified. Qed.

(** * The table *)

Lemma load_anchor_some a :
  load_anchor db opts = Ok (Some a) -> has_key opts = true /\ SigMatches a (o_CheckpointKey opts) = true /\
    exists raw, GetSystemMetadata db auditRetentionAnchorKey = Ok (Some raw) /\ ParseRetentionAnchorValue raw = Some a.
Proof.
  unfold load_anchor. destruct (GetSystemMetadata db auditRetentionAnchorKey) as [[raw|]|]; cbn [res_bind]; [|done..].
  destruct (ParseRetentionAnchorValue raw) as [a'|] eqn:Ep; [|done].
  destruct (has_key opts && SigMatches a' _) eqn:Es; [|done]. intros [= ->]. breflect. eauto.
Qed.

(** The gaps a walk may step over come from seals that all authenticate. *)
Definition gaps_authenticated (gaps : list sealedGap) : Prop :=
  gaps = [] \/ exists val recs, GetSystemMetadata db auditSealsKey = Ok (Some val) /\ ParseSeals val = Ok recs /\
    Forall (fun s => MACValid s (o_CheckpointKey opts) = true) recs /\ gaps = sealedGaps recs.

(** Where a chain may start without the verdict saying so. *)
Definition start_authenticated (start : bytes) (legacy chain : list AuditEventRow) : Prop :=
  start = GenesisHash \/
  exists a hd tl, SigMatches a (o_CheckpointKey opts) = true /\ has_key opts = true /\ legacy = [] /\ chain = hd :: tl /\
    ev_ID hd = sa_RowID a /\ ev_EntryHash hd = sa_EntryHash a /\ start = sa_PrevHash a.

(** The whole table is unhashed legacy rows, then one chain. *)
Record trail (rows : list AuditEventRow) (outside : Z) (r : Result) (gaps : list sealedGap)
    (legacy chain : list AuditEventRow) (start : bytes) : Prop := mk_trail {
  tr_reachable : outside = 0;
  tr_rows : rows = legacy ++ chain;
  tr_ids : Forall (fun e => 0 < ev_ID e) rows;
  tr_legacy : Forall (fun e => ev_EntryHash e = []) legacy;
  tr_gaps : gaps_authenticated gaps;
  tr_chain : chained gaps 0 start chain;
  tr_start : start_authenticated start legacy chain \/ verdictRank VerdictIndeterminate <= verdictRank (r_Verdict r);
  tr_counts : r_ChainedEvents r = Z.of_nat (length chain) /\ r_UnchainedLegacyEvents r = Z.of_nat (length legacy)
}.

Lemma Verify_trail fuel r rows outside :
  EventTable db rows outside -> (length rows < fuel)%nat ->
  Verify VerifyReceipt fips db opts fuel = Ok r -> r_Verdict r <> VerdictBroken ->
  exists gaps legacy chain start, trail rows outside r gaps legacy chain start /\
    (r_RetentionGap r = no_gap -> start <> GenesisHash -> verdictRank VerdictIndeterminate <= verdictRank (r_Verdict r)) /\
    (gaps <> [] -> verdictRank VerdictSealed <= verdictRank (r_Verdict r)).
Proof.
  intros HT Hf Hv Hn. apply Verify_stages in Hv as (range & anchor & seals & r0 & r1 & r2 & Hs).
  pose proof (stages_raises _ _ _ _ _ _ _ _ Hs) as (H0 & _ & _). destruct Hs as [_ Hanc Hl Hw _ _ Hlast].
  unfold walk_of in Hw. destruct (initial_result_fields range anchor seals) as [Ev Eg].
  set (gaps := if ld_authenticated seals then _ else []) in *. exists gaps.
  apply (walkChain_verified db rows outside) in Hw as (lg & ch & st & Htv);
    [|done|apply batch_size_pos|done|done|by eapply raises_not_broken].
  destruct Htv as [Hout Hrows Hids Hlg Hch Hst Hc1 Hc2]. destruct H0 as [Hrank Hfr]. injection Hfr as E1 E2 _ E3 _ _.
  exists lg, ch, st. split; [|split].
  - split; try done; [| |split; congruence].
    + unfold gaps_authenticated. subst gaps. destruct (ld_authenticated seals) eqn:Ea; [|by left]. right.
      apply loadSeals_cases in Hl as [[_ ->]|(val & Hm & [(p & _ & Hp)|(Hp & _ & _ & _ & Hmac)])]; [done|congruence|].
      exists val, (ld_recs seals). done.
    + destruct Hst as [|a hd tl Ha Hau Hlg0 Hch0 Hid Hprev Hent _ _|hd tl _ _ _ Hrk _].
      * left. by left.
      * destruct anchor as [a'|]; [|done]. injection Ha as <-. apply load_anchor_some in Hanc as (? & ? & _).
        left. right. exists a', hd, tl. done.
      * right. lia.
  - intros Hgap Hne. rewrite E3 in Hgap.
    destruct Hst as [|a hd tl _ _ _ _ _ _ _ _ Hg|hd tl _ _ _ Hrk _]; [done|rewrite Hg in Hgap; discriminate Hgap|lia].
  - intros Hg. subst gaps. destruct (ld_authenticated seals) eqn:Ea; [|done].
    rewrite Hlast. apply finish_seals_sealed; [done|]. intros Hr. by rewrite Hr in Hg.
Qed.

(** C24. What a run that is not BROKEN establishes, whatever key it was given:
    no row is out of the walk's reach (none has a NULL, zero or negative id);
    the table is unhashed legacy rows followed by one chain; every chained row
    carries the hash of its own contents and links to the row before it, except
    where a seal that authenticates under the key names both sides of a gap;
    the reported counts are exact; and either the chain starts at the genesis
    hash or at a retention anchor that authenticates under the key, or the
    verdict is INDETERMINATE or worse (a purged start that nothing
    authenticates is not BROKEN, and the theorem says nothing about where such
    a chain began). *)
Theorem Verify_not_broken_trail fuel r rows outside :
  EventTable db rows outside -> (length rows < fuel)%nat ->
  Verify VerifyReceipt fips db opts fuel = Ok r -> r_Verdict r <> VerdictBroken ->
  exists gaps legacy chain start, trail rows outside r gaps legacy chain start.
Proof. intros HT Hf Hv Hn. destruct (Verify_trail fuel r rows outside) as (g & l & c & st & Ht & _); eauto 10. Qed.

(** * Exit code 0 *)

Lemma NotProven_unread r2 seals e :
  UnsettledBreakGlassActivationIDs db = Err e ->
  NPBreakGlassUnread ∈ buildNotProven opts (finish_seals opts seals (checkOwedBreakGlass db r2)).
Proof.
  intros He. unfold buildNotProven.
  assert (ob_Checked (r_OwedBreakGlass (finish_seals opts seals (checkOwedBreakGlass db r2))) = false) as ->.
  { unfold finish_seals, checkOwedBreakGlass, escalate. rewrite He. repeat destr_match; done. }
  set_solver.
Qed.

Lemma NotProven_no_key r : has_key opts = false -> NPNoKey ∈ buildNotProven opts r.
Proof. intros Hk. unfold buildNotProven. rewrite Hk. cbn [negb np_if]. set_solver. Qed.

Lemma owed_none r2 seals :
  r_Verdict (finish_seals opts seals (checkOwedBreakGlass db r2)) = VerdictValid ->
  forall ids, UnsettledBreakGlassActivationIDs db = Ok ids -> ids = [].
Proof.
  intros Hv ids He. pose proof (finish_seals_nb true seals (checkOwedBreakGlass db r2)) as [Hr _]. rewrite Hv in Hr.
  unfold checkOwedBreakGlass in Hr. rewrite He in Hr. destruct ids as [|i ids]; [done|].
  cbn [length] in Hr. rewrite (proj2 (Z.ltb_lt _ _)) in Hr by lia. rewrite escalate_rank in Hr. cbn in Hr. lia.
Qed.

(** Exit code 0 means: no accepted loss is recorded; every row of the table
    belongs to one unbroken chain behind the legacy rows, starting at the
    genesis hash or at an authenticated retention anchor; no break-glass
    activation still owes audit rows, or the report says they could not be
    read; with the checkpoint key, a stored checkpoint and the mark are
    certified against the trail; and without the key the report says that
    truncation was not ruled out. *)
Theorem Verify_exit_zero fuel r rows outside :
  EventTable db rows outside -> (length rows < fuel)%nat ->
  Verify VerifyReceipt fips db opts fuel = Ok r -> ExitCode r = 0 ->
  GetSystemMetadata db auditSealsKey = Ok None /\
  (exists legacy chain start, outside = 0 /\ rows = legacy ++ chain /\ Forall (fun e => ev_EntryHash e = []) legacy /\
     linked start chain /\ start_authenticated start legacy chain) /\
  match UnsettledBreakGlassActivationIDs db with Ok ids => ids = [] | Err _ => NPBreakGlassUnread ∈ r_NotProven r end /\
  (if has_key opts
   then forall cp, LatestCheckpoint db = Ok (Some cp) -> checkpoint_certified cp r /\ mark_certified r
   else NPNoKey ∈ r_NotProven r).
Proof.
  intros HT Hf Hv He. assert (r_Verdict r = VerdictValid) as Hval by (unfold ExitCode in He; by destruct (r_Verdict r)).
  assert (r_Verdict r <> VerdictBroken) as Hn by (by rewrite Hval).
  destruct (Verify_trail fuel r rows outside HT Hf Hv Hn) as (gaps & lg & ch & st & [Hout Hr _ Hlg Hga Hch Hst _] & _ & Hsealed).
  pose proof Hv as (range & anchor & seals & r0 & r1 & r2 & Hs)%Verify_stages. destruct Hs as [_ _ Hl _ _ _ Hlast].
  split_and!.
  - apply loadSeals_cases in Hl as [[Hl _]|(val & Hm & _)]; [done|]. by apply (seals_not_valid fuel r val) in Hm.
  - exists lg, ch, st. split_and!; try done.
    + assert (gaps = []) as ->; [|by eapply chained_no_gaps].
      destruct gaps; [done|]. specialize (Hsealed ltac:(done)). rewrite Hval in Hsealed. cbn in Hsealed. lia.
    + destruct Hst as [?|Hi]; [done|]. rewrite Hval in Hi. cbn in Hi. lia.
  - destruct (UnsettledBreakGlassActivationIDs db) as [ids|e] eqn:Eu.
    + eapply owed_none; [|done]. rewrite Hlast in Hval. exact Hval.
    + rewrite Hlast. by eapply NotProven_unread.
  - destruct (has_key opts) eqn:Hk.
    + intros cp Hcp. by eapply Verify_certified.
    + rewrite Hlast. by apply NotProven_no_key.
Qed.

(** * Termination: a healthy database always gets a verdict *)

Class Healthy : Prop := {
  h_meta key : exists v, GetSystemMetadata db key = Ok v;
  h_latest : exists v, LatestCheckpoint db = Ok v;
  h_cp id : exists v, CheckpointByID db id = Ok v;
  h_hash id : exists v, AuditEntryHashByID db id = Ok v;
  h_range : exists v, EventRange db = Ok v }.

Context (HH : Healthy).

Definition succeeds {A} (m : res E A) : Prop := exists a, m = Ok a.
Lemma succeeds_ok {A} (a : A) : succeeds (Ok a). Proof. by exists a. Qed.
Lemma succeeds_bind {A B} (m : res E A) (f : A -> res E B) :
  succeeds m -> (forall a, m = Ok a -> succeeds (f a)) -> succeeds (res_bind m f).
Proof. intros [a Ha] Hf. rewrite Ha. by apply Hf. Qed.
Lemma succeeds_if {A} (c : bool) (m n : res E A) : succeeds m -> succeeds n -> succeeds (if c then m else n).
Proof. by destruct c. Qed.

Ltac tot := repeat first
  [ apply succeeds_ok | apply h_meta | apply h_latest | apply h_cp | apply h_hash | apply h_range
  | apply succeeds_bind; [|intros ? ?] | apply succeeds_if
  | match goal with |- succeeds (match ?x with _ => _ end) => destruct x end
  | progress cbv zeta ].

Lemma old_keys_total recs : forall r, succeeds (checkKeyTransitionsOldKeys db opts recs r).
Proof.
  induction recs as [|t recs IH]; intros r; cbn [checkKeyTransitionsOldKeys]; [apply succeeds_ok|].
  apply succeeds_bind; [tot|]. intros cp _. destruct (old_key_loop _ _ _ _); [apply IH|apply succeeds_ok].
Qed.
Lemma checkKeyTransitions_total r : succeeds (checkKeyTransitions db opts r).
Proof.
  unfold checkKeyTransitions, check_transition_records, kt_finish, keyTransitionHeadGone. tot; apply old_keys_total.
Qed.
Lemma enforceCheckpoint_total r : succeeds (enforceCheckpoint VerifyReceipt db opts r).
Proof. unfold enforceCheckpoint, check_checkpoint, check_cp_head. tot. Qed.
Lemma checkVerifyState_total r : succeeds (checkVerifyState db opts r).
Proof. unfold checkVerifyState, check_state_row, checkVerifyStateHead. tot. Qed.
Lemma crossCheck_total b r : succeeds (crossCheckExternalAnchor VerifyReceipt db opts b r).
Proof. unfold crossCheckExternalAnchor, crossCheckPreSealAnchor, cross_check_current. tot. Qed.
Lemma after_walk_total r : succeeds (after_walk VerifyReceipt db opts r).
Proof.
  unfold after_walk. apply succeeds_if; [|tot].
  apply succeeds_bind; [apply enforceCheckpoint_total|intros r1 _].
  apply succeeds_bind; [apply checkKeyTransitions_total|intros r2 _]. apply checkVerifyState_total.
Qed.

(** C26. A run over a database that answers its queries ends in a verdict: the
    loop over the table needs at most one batch per row, no check diverges or
    fails, and the only refusal left is a key too short for the FIPS mode. *)
Theorem Verify_total fuel rows outside :
  EventTable db rows outside -> (length rows < fuel)%nat -> checkCheckpointKeyLens (E:=E) fips opts = Ok tt ->
  exists r, Verify VerifyReceipt fips db opts fuel = Ok r.
Proof.
  intros HT Hf Hk. unfold Verify. rewrite Hk. cbn [res_bind].
  destruct h_range as [range ->]. cbn [lift_v res_bind].
  assert (succeeds (load_anchor db opts)) as [anchor ->] by (unfold load_anchor; tot). cbn [lift_v res_bind].
  assert (succeeds (loadSeals db opts)) as [seals ->] by (unfold loadSeals; tot). cbn [lift_v res_bind]. cbv zeta.
  destruct (walkChain_visited db rows outside (batch_size opts) (anchor_of <$> anchor) (negb (is_none anchor)) fuel
     (initial_result opts range anchor seals) (if ld_authenticated seals then sealedGaps (ld_recs seals) else [])
     batch_size_pos Hf) as (V & HV & _ & -> & _).
  destruct (walk_table_total db rows outside (anchor_of <$> anchor) (negb (is_none anchor))
     (initial_result opts range anchor seals) (if ld_authenticated seals then sealedGaps (ld_recs seals) else []) V HV) as [r0 ->].
  cbn [lift_w res_bind]. destruct (after_walk_total (after_walk_seals seals r0)) as [r1 ->]. cbn [lift_v res_bind].
  destruct (o_ExternalAnchor opts) as [b|]; [|cbn [res_bind]; eauto].
  destruct (negb (broken_now r1)); [|cbn [res_bind]; eauto].
  destruct (crossCheck_total b r1) as [r2 ->]. cbn [lift_v res_bind]. eauto.
Qed.
End Trail.

(** * What an accepted checkpoint pins *)

Section Pins.
Context `{JSON} {Roots : Type} (VerifyReceipt : Roots -> bytes -> bytes -> bool) (fips : bool).

(** The rows up to the first one that satisfies [P], that one included. *)
Fixpoint through (P : AuditEventRow -> bool) (rows : list AuditEventRow) : list AuditEventRow :=
  match rows with
  | [] => []
  | e :: rows => e :: if P e then [] else through P rows
  end.

Lemma through_split P rows e : e ∈ rows -> P e = true ->
  exists a e' b, rows = a ++ e' :: b /\ P e' = true /\ through P rows = a ++ [e'].
Proof.
  induction rows as [|x rows IH]; intros He HP; [by apply elem_of_nil in He|]. simpl.
  destruct (P x) eqn:Ex; [by exists [], x, rows|].
  apply elem_of_cons in He as [-> |He]; [congruence|].
  destruct (IH He HP) as (a & e' & b & -> & He' & ->). by exists (x :: a), e', b.
Qed.

(** The row a checkpoint certifies, and the history it certifies: every
    hashed row of the table up to that row. *)
Definition certified_by (cp : Checkpoint) (e : AuditEventRow) : bool :=
  (ev_ID e =? cp_HeadID cp) && bool_decide (ev_EntryHash e = cp_HeadHash cp).
Definition hashed (e : AuditEventRow) : bool := negb (bool_decide (ev_EntryHash e = [])).
Definition history (cp : Checkpoint) (rows : list AuditEventRow) : list AuditEventRow :=
  List.filter hashed (through (certified_by cp) rows).

Lemma filter_hashed_legacy legacy : Forall (fun e => ev_EntryHash e = []) legacy -> List.filter hashed legacy = [].
Proof. induction 1 as [|e l He _ IH]; simpl; [done|]. unfold hashed at 1. by rewrite He. Qed.

Lemma filter_hashed_chained gaps prev chain : forall last,
  chained gaps last prev chain -> List.filter hashed chain = chain.
Proof.
  revert prev; induction chain as [|e chain IH]; intros prev last; simpl; [done|].
  intros (_ & _ & He & Hc). unfold hashed at 1. rewrite bool_decide_eq_false_2 by done. cbn [negb]. f_equal. by eapply IH.
Qed.

Lemma filter_app_split {A} (P : A -> bool) (l : list A) : forall legacy chain a b,
  l = legacy ++ chain -> l = a ++ b -> List.filter P legacy = [] -> List.filter P chain = chain ->
  exists c, chain = List.filter P a ++ c.
Proof.
  intros legacy chain a b -> E Hl Hc. exists (List.filter P b).
  by rewrite <- List.filter_app, <- E, List.filter_app, Hl, Hc.
Qed.

Lemma through_sub P rows : through P rows ⊆ rows.
Proof. induction rows as [|e rows IH]; simpl; [done|]. destruct (P e); set_solver. Qed.

Lemma history_Forall (Q : AuditEventRow -> Prop) cp rows : Forall Q rows -> Forall Q (history cp rows).
Proof.
  rewrite !Forall_forall. intros H1 e He. apply H1, (through_sub (certified_by cp)).
  by apply list_elem_of_In, List.filter_In in He as [He%list_elem_of_In _].
Qed.

(** The history of an accepted table is one chain from the genesis hash to
    the certified head. *)
Lemma pinned_history {E} (db : DB E) opts rows outside fuel r cp :
  EventTable db rows outside -> (length rows < fuel)%nat ->
  Verify VerifyReceipt fips db opts fuel = Ok r -> ExitCode r = 0 -> r_RetentionGap r = no_gap -> has_key opts = true ->
  LatestCheckpoint db = Ok (Some cp) -> 0 < cp_HeadID cp -> cp_HeadHash cp <> [] ->
  linked GenesisHash (history cp rows) /\ chain_head GenesisHash (history cp rows) = cp_HeadHash cp /\
  (exists e, last (history cp rows) = Some e /\ certified_by cp e = true).
Proof.
  intros HT Hf Hv He Hg Hk Hcp Hid Hne.
  assert (r_Verdict r = VerdictValid) as Hval by (unfold ExitCode in He; by destruct (r_Verdict r)).
  assert (r_Verdict r <> VerdictBroken) as Hn by (by rewrite Hval).
  destruct (Verify_certified _ _ _ _ _ _ _ Hv Hn Hk Hcp) as [(_ & _ & Hh & _) _].
  destruct (Verify_trail _ _ _ _ _ _ _ _ HT Hf Hv Hn) as (gaps & lg & ch & st & [_ Hr _ Hlg _ Hch _ _] & Hst & Hse).
  rewrite Hval in Hst, Hse. assert (gaps = []) as -> by (destruct gaps; [done|]; cbn in Hse; specialize (Hse ltac:(done)); lia).
  assert (st = GenesisHash) as -> by (destruct (decide (st = GenesisHash)); [done|]; cbn in Hst; specialize (Hst Hg ltac:(done)); lia).
  destruct (et_hash (cp_HeadID cp) (cp_HeadHash cp)) as (e & He1 & He2 & He3); [lia|apply Hh; lia|].
  destruct (through_split (certified_by cp) rows e) as (a & e' & b & Hab & He' & Hth);
    [done|unfold certified_by; rewrite He2, He3, Z.eqb_refl; by rewrite bool_decide_eq_true_2|].
  assert (hashed e' = true) as Hh'.
  { unfold certified_by in He'. breflect. unfold hashed. by rewrite bool_decide_eq_false_2 by congruence. }
  assert (history cp rows = List.filter hashed a ++ [e']) as Hhi.
  { unfold history. rewrite Hth, List.filter_app. simpl. by rewrite Hh'. }
  destruct (filter_app_split hashed rows lg ch (a ++ [e']) b) as [c Hc];
    [done|by rewrite <- app_assoc|by apply filter_hashed_legacy|by eapply filter_hashed_chained|].
  apply chained_no_gaps in Hch. rewrite Hc in Hch. apply linked_app in Hch as [Hch _].
  unfold history in *. rewrite Hth in *. split; [done|]. rewrite Hhi, chain_head_snoc, last_snoc.
  split; [|by exists e']. unfold certified_by in He'. by breflect.
Qed.

(** C1. A checkpoint pins the history before it.  Take two databases, both
    accepted (exit 0) with the checkpoint key and no retention gap, whose
    checkpoints certify the same nonempty head hash at a positive id.  In each
    table the history of the checkpoint, that is every hashed row of the table
    up to the certified row, is one chain: its first row links to the genesis
    hash, each other row to the hash of the row before it, every row carries
    the hash of its contents, and the last row is the certified one.  And the
    two histories have the same length and agree row by row on every hashed
    field, unless two rows of theirs with different SHA-256 preimages have one
    SHA-256, or a row of theirs hashes to the genesis constant.  (The unhashed
    legacy rows before the chain are not pinned, nor are the ids.) *)
Theorem Verify_checkpoint_pins_history {E E'} (db : DB E) (db' : DB E') opts opts'
    rows rows' outside outside' fuel fuel' r r' cp cp' :
  EventTable db rows outside -> EventTable db' rows' outside' ->
  (length rows < fuel)%nat -> (length rows' < fuel')%nat -> Forall row_wf rows -> Forall row_wf rows' ->
  Verify VerifyReceipt fips db opts fuel = Ok r -> Verify VerifyReceipt fips db' opts' fuel' = Ok r' ->
  ExitCode r = 0 -> ExitCode r' = 0 -> r_RetentionGap r = no_gap -> r_RetentionGap r' = no_gap ->
  has_key opts = true -> has_key opts' = true ->
  LatestCheckpoint db = Ok (Some cp) -> LatestCheckpoint db' = Ok (Some cp') ->
  0 < cp_HeadID cp -> 0 < cp_HeadID cp' -> cp_HeadHash cp <> [] -> cp_HeadHash cp = cp_HeadHash cp' ->
  let past := history cp rows in let past' := history cp' rows' in
  (linked GenesisHash past /\ exists e, last past = Some e /\ certified_by cp e = true) /\
  (linked GenesisHash past' /\ exists e, last past' = Some e /\ certified_by cp' e = true) /\
  (map content past = map content past' \/ collide past past' \/ hits GenesisHash past \/ hits GenesisHash past').
Proof.
  intros HT HT' Hf Hf' Hw Hw' Hv Hv' He He' Hg Hg' Hk Hk' Hc Hc' Hi Hi' Hne Hh past past'.
  destruct (pinned_history db opts rows outside fuel r cp) as (Hl & Hd & Hx); try done.
  destruct (pinned_history db' opts' rows' outside' fuel' r' cp') as (Hl' & Hd' & Hx'); try done; [congruence|].
  split_and!; try done. apply linked_same_head; [by apply history_Forall..|done|done|].
  subst past past'. congruence.
Qed.
End Pins.

(** * A concrete deployment *)

#[local] Instance ex_json : JSON := {|
  Unmarshal_Seal := fun _ => None; Unmarshal_KeyTransition := fun _ => None; Unmarshal_verifyStateRow := fun _ => None |}.
Definition ex_receipt (roots : unit) (msg token : bytes) : bool := false.
Definition ex_key : bytes := go "0123456789abcdef0123456789abcdef".
Definition ex_head : bytes := Eval vm_compute in chain_head GenesisHash ex_chain.
Definition ex_cp : Checkpoint := mkCheckpoint 4 3 6 ex_head (go "kv-1") [] [] None [] 0 [].
Definition ex_sig : bytes := Eval vm_compute in SignCheckpoint ex_cp ex_key.
Definition ex_mark : bytes := Eval vm_compute in EncodeHighWater ex_cp ex_sig.
Definition ex_deployment : tables :=
  mkTables (map to_raw (rev (ex_legacy ++ ex_chain))) [mkRawCp 4 3 6 ex_head (go "kv-1") ex_sig None None None]
    [(auditHighWaterKey, ex_mark)] (Some []).
Definition ex_opts : Options unit := mkOptions unit ex_key [] None None [] 2 0.
Definition ex_verify (t : tables) := @Verify ex_json db_err unit ex_receipt false (table_db t) ex_opts 5.

Lemma ex_deployment_table : EventTable (table_db ex_deployment) (ex_legacy ++ ex_chain) 0.
Proof. apply (table_db_EventTable ex_deployment (ex_legacy ++ ex_chain)). vm_compute. reflexivity. Qed.

Lemma ex_latest : LatestCheckpoint (table_db ex_deployment) =
  Ok (Some (mkCheckpoint 4 3 6 ex_head (go "kv-1") ex_sig [] None [] 0 [])).
Proof. vm_compute. reflexivity. Qed.

Lemma ex_run : exists r, ex_verify ex_deployment = Ok r /\ ExitCode r = 0 /\ r_RetentionGap r = no_gap.
Proof.
  assert (match ex_verify ex_deployment with
          | Ok r => bool_decide (ExitCode r = 0) && negb (rgs_Present (r_RetentionGap r)) && (rgs_RowID (r_RetentionGap r) =? 0)
                    && negb (rgs_Authenticated (r_RetentionGap r)) && negb (rgs_Sanctioned (r_RetentionGap r))
          | Err _ => false end = true) as H by (vm_compute; reflexivity).
  destruct (ex_verify ex_deployment) as [r|]; [|discriminate H]. exists r. breflect.
  split; [done|]. split; [done|]. destruct (r_RetentionGap r); simpl in *; by subst.
Qed.

Lemma ex_exit_zero_not_broken r : ExitCode r = 0 -> r_Verdict r <> VerdictBroken.
Proof. unfold ExitCode. by destruct (r_Verdict r). Qed.

Lemma Verify_exit_zero_witness :
  exists r, ExitCode r = 0 /\ UnsettledBreakGlassActivationIDs (table_db ex_deployment) = Ok [] /\
    forall cp, LatestCheckpoint (table_db ex_deployment) = Ok (Some cp) ->
      checkpoint_certified (table_db ex_deployment) ex_opts cp r.
Proof.
  destruct ex_run as (r & Hr & He & _). exists r. split; [exact He|]. split; [reflexivity|].
  intros cp Hcp. apply (@Verify_exit_zero ex_json db_err unit ex_receipt false (table_db ex_deployment) ex_opts 5 r
    (ex_legacy ++ ex_chain) 0 ex_deployment_table ltac:(vm_compute; lia) Hr He). exact Hcp.
Defined.

Lemma Verify_not_broken_trail_witness :
  exists r gaps legacy chain start,
    trail (table_db ex_deployment) ex_opts (ex_legacy ++ ex_chain) 0 r gaps legacy chain start.
Proof.
  destruct ex_run as (r & Hr & He & _). exists r.
  apply (@Verify_not_broken_trail ex_json db_err unit ex_receipt false (table_db ex_deployment) ex_opts 5 r
    (ex_legacy ++ ex_chain) 0); [exact ex_deployment_table|vm_compute; lia|exact Hr|by apply ex_exit_zero_not_broken].
Defined.

Lemma Verify_checkpoint_certified_witness :
  exists r, ex_verify ex_deployment = Ok r /\ mark_certified (table_db ex_deployment) ex_opts r.
Proof.
  destruct ex_run as (r & Hr & He & _). exists r. split; [exact Hr|].
  eapply (@Verify_checkpoint_certified ex_json db_err unit ex_receipt false (table_db ex_deployment) ex_opts 5 r);
    [exact Hr|by apply ex_exit_zero_not_broken|vm_compute; reflexivity|exact ex_latest].
Defined.

Lemma Verify_seals_never_valid_witness :
  let t := mkTables (t_events ex_deployment) (t_checkpoints ex_deployment)
             ((auditSealsKey, go "not a seal") :: t_metadata ex_deployment) (Some []) in
  exists r, ex_verify t = Ok r /\ ExitCode r <> 0.
Proof.
  intros t. destruct (ex_verify t) as [r|] eqn:Hr; [|exfalso; revert Hr; vm_compute; discriminate].
  exists r. split; [reflexivity|].
  apply (@Verify_seals_never_valid ex_json db_err unit ex_receipt false (table_db t) ex_opts 5 r (go "not a seal") Hr).
  vm_compute. reflexivity.
Defined.

Lemma ex_row_wf : Forall row_wf (ex_legacy ++ ex_chain).
Proof. repeat constructor; simpl; try lia; vm_compute; reflexivity. Qed.

Definition ex_stored_cp : Checkpoint := mkCheckpoint 4 3 6 ex_head (go "kv-1") ex_sig [] None [] 0 [].

Lemma Verify_checkpoint_pins_history_witness :
  history ex_stored_cp (ex_legacy ++ ex_chain) = ex_chain /\
  linked GenesisHash (history ex_stored_cp (ex_legacy ++ ex_chain)).
Proof.
  split; [vm_compute; reflexivity|]. destruct ex_run as (r & Hr & He & Hg).
  destruct (@Verify_checkpoint_pins_history ex_json unit ex_receipt false db_err db_err (table_db ex_deployment)
    (table_db ex_deployment) ex_opts ex_opts (ex_legacy ++ ex_chain) (ex_legacy ++ ex_chain) 0 0 5 5 r r
    ex_stored_cp ex_stored_cp
    ex_deployment_table ex_deployment_table ltac:(vm_compute; lia) ltac:(vm_compute; lia) ex_row_wf ex_row_wf Hr Hr He He Hg Hg
    eq_refl eq_refl ex_latest ex_latest eq_refl eq_refl ltac:(discriminate) eq_refl) as ((Hl & _) & _).
  exact Hl.
Defined.

Lemma ex_healthy : Healthy (table_db ex_deployment).
Proof.
  split.
  - intros key. cbn [table_db GetSystemMetadata]. unfold q_metadata. eauto.
  - vm_compute. eauto.
  - intros id. cbn [table_db CheckpointByID]. unfold q_checkpoint_by_id. destruct (List.find _ _) as [x|] eqn:Ef; [|eexists; reflexivity].
    apply List.find_some in Ef as [[<-|[]] _]. vm_compute. eauto.
  - intros id. cbn [table_db AuditEntryHashByID]. unfold q_entry_hash_by_id.
    destruct (List.find _ _) as [x|] eqn:Ef; [|eauto]. apply List.find_some in Ef as [Hin _].
    assert (forall y, In y (t_events ex_deployment) -> raw_entry_hash y <> None) as Hn.
    { intros y Hy. cbn in Hy. repeat destruct Hy as [<-|Hy]; try done. }
    specialize (Hn x Hin). destruct (raw_entry_hash x); [cbn; eauto|done].
  - vm_compute. eauto.
Qed.

Lemma Verify_total_witness : exists r, ex_verify ex_deployment = Ok r.
Proof.
  apply (@Verify_total ex_json db_err unit ex_receipt false (table_db ex_deployment) ex_opts ex_healthy 5 (ex_legacy ++ ex_chain) 0);
    [exact ex_deployment_table|vm_compute; lia|vm_compute; reflexivity].
Defined.
