(* ===== verification/AuditStore.v ===== *)
(** The server's side of the audit chain: appending events in group-committed
    batches ([internal/storage/store/local_audit_chain.go]).

    [chainAuditBatch] links a batch onto the chain head, [commitBatchAttemptTx]
    is one transaction attempt, [commitBatchWithBusyRetry] its retry loop and
    [commitAuditBatch] the bisection that isolates a failing item.  The database
    is an environment that decides, at each attempt, which statement fails or
    which ids the inserted rows get; a failed attempt rolls back.

    The theorems: whatever the environment does, the table stays legacy rows
    followed by one chain, and exactly the items whose error is nil are in it,
    in batch order; a poisoned item fails alone; and what the server writes the
    offline verifier accepts. *)
From Stdlib Require Import ZArith Lia.
From stdpp Require Import base numbers tactics sets list.
From S2P Require Import Prelude.
From S2P Require Import Sha256.
From S2P Require Import GoStr.
From S2P Require Import AuditHash.
From S2P Require Import AuditDB.
From S2P Require Import AuditPages.
From S2P Require Import AuditResult.
From S2P Require Import AuditWalk.

(** [computeAuditEntryHash]: the server's own derivation, with its local
    closures. *)
Definition computeAuditEntryHash (e : AuditEventRow) (prevHash : bytes) : bytes :=
  let write := fun s : bytes => put_uint64 (u64 (Z.of_nat (length s))) ++ s in
  let uptr := fun p : option Z => match p with None => [] | Some u => FormatUint u end in
  let bptr := fun p : option bool => match p with None => [] | Some b => FormatBool b end in
  hex_encode (sha256 (
    write prevHash ++ write (ev_EventType e) ++ write (uptr (ev_UserID e)) ++ write (uptr (ev_SecretNodeID e)) ++
    write (uptr (ev_ProjectID e)) ++ write (ev_IPAddress e) ++ write (ev_Description e) ++ write (bptr (ev_Success e)) ++
    write (FormatInt (UnixMicro (ev_EventTime e))) ++ write (ev_Diff e) ++ write (uptr (ev_ImpersonatedBy e)) ++
    write (uptr (ev_ActingAs e)) ++ write (FormatBool (ev_Impersonation e)) ++ write (ev_ActorType e))).

Lemma computeAuditEntryHash_offline e p : computeAuditEntryHash e p = ComputeEntryHash e p.
Proof.
  unfold computeAuditEntryHash, ComputeEntryHash, entry_preimage, hashed_fields. cbv zeta.
  cbn [map concat]. unfold write_len, auditRowUintPtr, auditRowBoolPtr. by rewrite app_nil_r.
Qed.

Definition auditGenesisHash : bytes := replicate 64 (bZ 48).

(** [time.Time.Truncate(time.Microsecond)] *)
Definition truncate_micro (t : Z) : Z := t / 1000 * 1000.

Definition set_event_defaults (e : AuditEventRow) (t : Z) : AuditEventRow :=
  mkRow (ev_ID e) (ev_EventType e) (ev_UserID e) (ev_SecretNodeID e) (ev_ProjectID e) (ev_IPAddress e)
    (ev_Description e) (match ev_Success e with None => Some true | s => s end) t (ev_Diff e) (ev_ImpersonatedBy e)
    (ev_ActingAs e) (ev_Impersonation e) (if bool_decide (ev_ActorType e = []) then go "user" else ev_ActorType e)
    (ev_PrevHash e) (ev_EntryHash e).

Definition normalizeAuditEventForHash (e : AuditEventRow) : AuditEventRow :=
  set_event_defaults e (truncate_micro (ev_EventTime e)).

(** What an INSERT stores: the columns' defaults ([default:user],
    [default:true]) replace zero values, and the time is kept at the precision
    of the backend ([round_time]). *)
Definition gorm_stored (round_time : Z -> Z) (e : AuditEventRow) : AuditEventRow :=
  set_event_defaults e (round_time (ev_EventTime e)).

(** A queued submission: the event and its optional access-log row. *)
Record accessLog := mkAccess { al_ID : Z; al_body : bytes }.
Record auditBatchItem := mkItem { it_event : AuditEventRow; it_access : option accessLog }.

(** [logAuditEvent] normalises the event before it is queued (the request-id
    stamp is a column outside the hash, and the row record has none). *)
Definition logAuditEvent (e : AuditEventRow) (access : option accessLog) : auditBatchItem :=
  mkItem (normalizeAuditEventForHash e) access.

Definition set_id (e : AuditEventRow) (id : Z) : AuditEventRow :=
  mkRow id (ev_EventType e) (ev_UserID e) (ev_SecretNodeID e) (ev_ProjectID e) (ev_IPAddress e)
    (ev_Description e) (ev_Success e) (ev_EventTime e) (ev_Diff e) (ev_ImpersonatedBy e) (ev_ActingAs e)
    (ev_Impersonation e) (ev_ActorType e) (ev_PrevHash e) (ev_EntryHash e).

Fixpoint chain_items (prev : bytes) (batch : list auditBatchItem) : list AuditEventRow :=
  match batch with
  | [] => []
  | item :: batch =>
      let e := set_id (it_event item) 0 in
      let h := computeAuditEntryHash e prev in
      with_hashes e prev h :: chain_items h batch
  end.

Definition chainAuditBatch (batch : list auditBatchItem) (headHash : bytes) : list AuditEventRow * list accessLog :=
  let prev := if bool_decide (headHash = []) then auditGenesisHash else headHash in
  (chain_items prev batch, omap (fun item => (fun a => mkAccess 0 (al_body a)) <$> it_access item) batch).

(** * One transaction attempt *)

Inductive commit_err :=
| ErrSQLiteWriteContention | ErrDeadlineExceeded | ErrCanceled | ErrIDOrder (row : nat) (id : Z) | ErrDriver (msg : bytes).

Definition isSQLiteBusyErr (e : commit_err) : bool :=
  match e with
  | ErrSQLiteWriteContention => true
  | ErrDriver msg => Contains msg (go "SQLITE_BUSY") || Contains msg (go "database is locked")
  | _ => false
  end.
Definition isBatchGlobalContentionErr (e : commit_err) : bool :=
  match e with ErrSQLiteWriteContention | ErrDeadlineExceeded | ErrCanceled => true | _ => false end.

(** What the database does at one attempt: an error before the INSERT (lock or
    head read), the INSERT's error or the ids it returns in VALUES order, an
    error of the access-log INSERT, and how COMMIT ends: an error of COMMIT may
    mean that nothing was written, or that only the acknowledgement was lost. *)
Inductive commit_end := CommitDone | CommitRolledBack (e : commit_err) | CommitUnacknowledged (e : commit_err).
Record attempt := mkAttempt {
  at_pre : option commit_err; at_insert : res commit_err (nat -> Z); at_access : option commit_err; at_commit : commit_end }.

Record store := mkStore { st_events : list AuditEventRow; st_access : list accessLog }.

Fixpoint checkAuditInsertIDOrder (i : nat) (prev : option Z) (ids : list Z) : res commit_err unit :=
  match ids with
  | [] => Ok tt
  | id :: ids =>
      if (id =? 0) || match prev with Some p => id <=? p | None => false end
      then Err (ErrIDOrder i id) else checkAuditInsertIDOrder (S i) (Some id) ids
  end.

(** The head: [ORDER BY id DESC LIMIT 1]; the table is kept in id order. *)
Definition head_hash (st : store) : bytes := match last (st_events st) with Some e => ev_EntryHash e | None => [] end.

Definition fails (o : option commit_err) : res commit_err unit := match o with Some e => Err e | None => Ok tt end.

Section writer.
Context (round_time : Z -> Z).

Definition assign_ids (ids : nat -> Z) (events : list AuditEventRow) : list AuditEventRow :=
  imap (fun i e => set_id (gorm_stored round_time e) (ids i)) events.

Definition commitBatchAttemptTx (env : attempt) (st : store) (batch : list auditBatchItem) : store * option commit_err :=
  match (let? _ := fails (at_pre env) in
         let '(events, accessLogs) := chainAuditBatch batch (head_hash st) in
         let? ids := at_insert env in
         let? _ := checkAuditInsertIDOrder 0 None (map ids (seq 0 (length events))) in
         let? _ := fails (at_access env) in
         Ok (mkStore (st_events st ++ assign_ids ids events) (st_access st ++ accessLogs))) with
  | Ok st' =>
      match at_commit env with
      | CommitDone => (st', None)
      | CommitRolledBack e => (st, Some e)
      | CommitUnacknowledged e => (st', Some e)
      end
  | Err e => (st, Some e)
  end.

(** The environment decides each attempt from its number, the table and the
    batch. *)
Context (env : nat -> store -> list auditBatchItem -> attempt).

(** [n]: how many attempts the context's deadline leaves room for. *)
Fixpoint commitBatchWithBusyRetry (n : nat) (now : nat) (st : store) (batch : list auditBatchItem)
  : nat * store * option commit_err :=
  let '(st', err) := commitBatchAttemptTx (env now st batch) st batch in
  match err with
  | Some e => if isSQLiteBusyErr e then
                match n with O => (S now, st', err) | S n => commitBatchWithBusyRetry n (S now) st' batch end
              else (S now, st', err)
  | None => (S now, st', err)
  end.

(** The bisection; [fuel] bounds its depth ([length batch] is enough). *)
Context (retries : nat).
Fixpoint commitAuditBatch_loop (fuel : nat) (now : nat) (st : store) (batch : list auditBatchItem)
  : nat * store * list (option commit_err) :=
  let '(now, st, err) := commitBatchWithBusyRetry retries now st batch in
  match err with
  | None => (now, st, replicate (length batch) None)
  | Some e =>
      if (length batch =? 1)%nat then (now, st, [Some e])
      else if isBatchGlobalContentionErr e then (now, st, replicate (length batch) (Some e))
      else match fuel with
      | O => (now, st, replicate (length batch) (Some e))
      | S fuel =>
          let mid := (length batch / 2)%nat in
          let '(now, st, lerrs) := commitAuditBatch_loop fuel now st (take mid batch) in
          let '(now, st, rerrs) := commitAuditBatch_loop fuel now st (drop mid batch) in
          (now, st, lerrs ++ rerrs)
      end
  end.
Definition commitAuditBatch (now : nat) (st : store) (batch : list auditBatchItem) :=
  commitAuditBatch_loop (length batch) now st batch.

(** A history of batches. *)
Fixpoint commit_all (now : nat) (st : store) (batches : list (list auditBatchItem))
  : nat * store * list (list (option commit_err)) :=
  match batches with
  | [] => (now, st, [])
  | b :: batches =>
      let '(now, st, errs) := commitAuditBatch now st b in
      let '(now, st, rest) := commit_all now st batches in (now, st, errs :: rest)
  end.
End writer.

(** * The chain invariant *)

(** The table in id order: legacy rows without a hash, then one chain from the
    genesis hash; ids positive and strictly ascending. *)
Record store_ok (legacy : list AuditEventRow) (st : store) (chain : list AuditEventRow) : Prop := mk_store_ok {
  so_rows : st_events st = legacy ++ chain;
  so_legacy : Forall (fun e => ev_EntryHash e = []) legacy;
  so_linked : linked GenesisHash chain;
  so_ids : forall i j x y, st_events st !! i = Some x -> st_events st !! j = Some y -> (i < j)%nat -> ev_ID x < ev_ID y;
  so_pos : Forall (fun e => 0 < ev_ID e) (st_events st)
}.

Definition normalized (e : AuditEventRow) : Prop := normalizeAuditEventForHash e = e.

Lemma normalize_idempotent e : normalized (normalizeAuditEventForHash e).
Proof.
  unfold normalized, normalizeAuditEventForHash, set_event_defaults, truncate_micro. cbn. f_equal.
  - by destruct (ev_Success e).
  - by rewrite Z.div_mul.
  - repeat case_bool_decide; done.
Qed.

Section writer_proofs.
Context (round_time : Z -> Z) (Hround : forall t, t mod 1000 = 0 -> round_time t = t).

Lemma normalized_fields e : normalized e -> ev_EventTime e mod 1000 = 0 /\ ev_Success e <> None /\ ev_ActorType e <> [].
Proof.
  unfold normalized, normalizeAuditEventForHash, set_event_defaults, truncate_micro. intros E. split_and!.
  - apply (f_equal ev_EventTime) in E. cbn in E. rewrite <- E. apply Z_mod_mult.
  - intros Hs. apply (f_equal ev_Success) in E. cbn in E. rewrite Hs in E. done.
  - intros Ha. apply (f_equal ev_ActorType) in E. cbn in E. rewrite Ha in E. done.
Qed.

(** The stored row is the hashed row. *)
Lemma gorm_stored_normalized e : normalized e -> gorm_stored round_time e = e.
Proof.
  intros (Ht & Hs & Ha)%normalized_fields. unfold gorm_stored, set_event_defaults. rewrite Hround by done.
  rewrite bool_decide_eq_false_2 by done. destruct e; cbn in *. by destruct ev_Success.
Qed.

Lemma normalized_same_columns e id prev h : normalized e -> normalized (with_hashes (set_id e id) prev h).
Proof.
  intros Hn. unfold normalized in *. destruct e. unfold normalizeAuditEventForHash, set_event_defaults, with_hashes, set_id in *.
  cbn in *. congruence.
Qed.

Lemma hash_set_id e id p q h : ComputeEntryHash (set_id (with_hashes e q h) id) p = ComputeEntryHash e p.
Proof. done. Qed.

(** The rows an attempt inserts, with the ids the database returned. *)
Lemma assign_ids_linked batch : forall prev ids,
  Forall (fun i => normalized (it_event i)) batch ->
  linked prev (assign_ids round_time ids (chain_items prev batch)) /\
  map content (assign_ids round_time ids (chain_items prev batch)) = map (fun i => content (it_event i)) batch /\
  map ev_ID (assign_ids round_time ids (chain_items prev batch)) = map ids (seq 0 (length batch)).
Proof.
  induction batch as [|i batch IH]; intros prev ids Hn; [done|]. apply Forall_cons in Hn as [Hi Hn].
  cbn [chain_items]. cbv zeta. set (e := set_id (it_event i) 0). set (h := computeAuditEntryHash e prev).
  unfold assign_ids. rewrite imap_cons. fold (assign_ids round_time (ids ∘ S) (chain_items h batch)).
  change (imap ((fun (i0 : nat) (e0 : AuditEventRow) => set_id (gorm_stored round_time e0) (ids i0)) ∘ S) (chain_items h batch))
    with (assign_ids round_time (ids ∘ S) (chain_items h batch)).
  destruct (IH h (ids ∘ S) Hn) as (Hl & Hc & Hid).
  rewrite gorm_stored_normalized by (apply normalized_same_columns; done).
  split; [|split].
  - cbn [linked]. split; [done|]. split; [|exact Hl]. rewrite hash_set_id. cbn [ev_PrevHash set_id with_hashes ev_EntryHash].
    unfold h. by rewrite computeAuditEntryHash_offline.
  - cbn [map]. rewrite Hc. done.
  - cbn [map length seq]. rewrite Hid, <- seq_shift, map_map. done.
Qed.

Lemma checkAuditInsertIDOrder_asc ids : forall i prev,
  checkAuditInsertIDOrder i prev ids = Ok tt -> asc ids /\ Forall (fun x => x <> 0) ids /\
  match prev with Some p => forall x, x ∈ ids -> p < x | None => True end.
Proof.
  induction ids as [|x ids IH]; intros i prev H; cbn [checkAuditInsertIDOrder] in H.
  { split_and!; [by intros ? ?|constructor|destruct prev; set_solver]. }
  destruct ((x =? 0) || _) eqn:Ex; [done|]. breflect. apply IH in H as (Ha & Hn & Hx).
  split_and!; [by apply asc_cons|by constructor|].
  destruct prev as [p|]; [|done]. breflect. intros y [-> |Hy]%elem_of_cons; [lia|]. specialize (Hx y Hy). lia.
Qed.

(** The database hands out ids above every id in the table. *)
Definition ids_fresh (env : attempt) (st : store) : Prop :=
  forall ids, at_insert env = Ok ids -> forall i, 0 <= ids i /\ forall e, e ∈ st_events st -> ev_ID e < ids i.

Lemma so_asc legacy st chain : store_ok legacy st chain -> asc (map ev_ID (st_events st)).
Proof.
  intros [_ _ _ Hids _] i j x y. rewrite !lookup_map. intros (a & Ha & ->)%fmap_Some (b & Hb & ->)%fmap_Some ?.
  by eapply Hids.
Qed.

Lemma store_ok_intro legacy st chain :
  st_events st = legacy ++ chain -> Forall (fun e => ev_EntryHash e = []) legacy -> linked GenesisHash chain ->
  asc (map ev_ID (st_events st)) -> Forall (fun e => 0 < ev_ID e) (st_events st) -> store_ok legacy st chain.
Proof.
  intros H1 H2 H3 Ha H4. split; try done. intros i j x y Hx Hy Hij.
  apply (Ha i j); [by rewrite lookup_map, Hx|by rewrite lookup_map, Hy|done].
Qed.

Lemma head_hash_chain legacy st chain :
  store_ok legacy st chain ->
  (if bool_decide (head_hash st = []) then auditGenesisHash else head_hash st) = chain_head GenesisHash chain.
Proof.
  intros [Hr Hl Hc _ _]. unfold head_hash, chain_head. rewrite Hr, last_app.
  destruct (last chain) as [e|] eqn:Ee.
  - rewrite bool_decide_eq_false_2; [done|]. apply last_Some in Ee as [pre ->].
    apply linked_nonempty in Hc. by apply Forall_app in Hc as [_ [? _]%Forall_cons].
  - rewrite bool_decide_eq_true_2; [done|]. destruct (last legacy) as [e|] eqn:El; [|done].
    apply last_Some in El as [pre ->]. by apply Forall_app in Hl as [_ [? _]%Forall_cons].
Qed.

(** The items whose error is nil. *)
Definition committed (batch : list auditBatchItem) (errs : list (option commit_err)) : list auditBatchItem :=
  omap (fun p => if is_none (snd p) then Some (fst p) else None) (zip batch errs).

(** What a commit of [batch] with results [errs] does to the table. *)
Definition appended legacy chain (st st' : store) (batch : list auditBatchItem) (errs : list (option commit_err)) : Prop :=
  length errs = length batch /\
  exists new, store_ok legacy st' (chain ++ new) /\ st_events st' = st_events st ++ new /\
    map content new = map (fun i => content (it_event i)) (committed batch errs).

Lemma committed_all batch : committed batch (replicate (length batch) None) = batch.
Proof. unfold committed. induction batch as [|i b IH]; [done|]. cbn. by rewrite IH. Qed.
Lemma committed_none batch e : committed batch (replicate (length batch) (Some e)) = [].
Proof. unfold committed. induction batch as [|i b IH]; [done|]. cbn. by rewrite IH. Qed.
Lemma committed_app a b ea eb : length ea = length a -> committed (a ++ b) (ea ++ eb) = committed a ea ++ committed b eb.
Proof. intros H. unfold committed. rewrite zip_with_app by done. apply omap_app. Qed.

(** No commit loses its acknowledgement. *)
Definition acknowledged (env : attempt) : Prop := forall e, at_commit env <> CommitUnacknowledged e.

(** What a commit may leave when acknowledgements are lost: a longer chain of
    rows of the batch, in which the rows of the items in [kept] occur in order. *)
Definition grown legacy chain (st st' : store) (batch kept : list auditBatchItem) : Prop :=
  exists new, store_ok legacy st' (chain ++ new) /\ st_events st' = st_events st ++ new /\
    map (fun i => content (it_event i)) kept `sublist_of` map content new /\
    (forall e, e ∈ new -> content e ∈ map (fun i => content (it_event i)) batch).

Lemma grown_refl legacy chain st batch : store_ok legacy st chain -> grown legacy chain st st batch [].
Proof. intros Hok. exists []. rewrite !app_nil_r. split_and!; [done..|set_solver]. Qed.
Lemma grown_nothing legacy chain st st' batch kept : grown legacy chain st st' batch kept -> grown legacy chain st st' batch [].
Proof. intros (new & H1 & H2 & _ & H4). exists new. split_and!; [done|done|apply sublist_nil_l|done]. Qed.
Lemma grown_trans legacy chain st st1 st2 a b batch ka kb : a ⊆ batch -> b ⊆ batch ->
  grown legacy chain st st1 a ka -> (forall chain', store_ok legacy st1 chain' -> grown legacy chain' st1 st2 b kb) ->
  grown legacy chain st st2 batch (ka ++ kb).
Proof.
  intros Ha Hb (n1 & Hok & E1 & S1 & C1) H2. destruct (H2 _ Hok) as (n2 & Hok2 & E2 & S2 & C2).
  exists (n1 ++ n2). rewrite app_assoc, !map_app. split_and!; [done|by rewrite E2, E1, app_assoc|by apply sublist_app|].
  intros e [He|He]%elem_of_app; [apply C1 in He|apply C2 in He]; apply elem_of_map in He as (i & Hi & Hin); apply elem_of_map; eauto.
Qed.
Lemma appended_grown legacy chain st st' batch : appended legacy chain st st' batch (replicate (length batch) None) -> grown legacy chain st st' batch batch.
Proof.
  intros [_ (new & H1 & H2 & H3)]. rewrite committed_all in H3. exists new. rewrite H3. split_and!; [done..|].
  intros e He. rewrite <- H3. apply elem_of_map. eauto.
Qed.

Lemma attempt_appends legacy chain env st st' batch err :
  store_ok legacy st chain -> Forall (fun i => normalized (it_event i)) batch -> ids_fresh env st ->
  commitBatchAttemptTx round_time env st batch = (st', err) ->
  st' = st /\ err <> None \/ appended legacy chain st st' batch (replicate (length batch) None) /\ (acknowledged env -> err = None).
Proof.
  intros Hok Hn Hfr. unfold commitBatchAttemptTx, chainAuditBatch.
  rewrite (head_hash_chain _ _ _ Hok). set (prev := chain_head GenesisHash chain).
  destruct (fails (at_pre env)); [cbn [res_bind]|intros [= <- <-]; by left].
  destruct (at_insert env) as [ids|] eqn:Ei; [cbn [res_bind]|intros [= <- <-]; by left].
  destruct (checkAuditInsertIDOrder _ _ _) as [[]|] eqn:Eo; [cbn [res_bind]|intros [= <- <-]; by left].
  destruct (fails (at_access env)); [cbn [res_bind]|intros [= <- <-]; by left].
  set (st1 := mkStore _ _). intros Hend.
  assert (st' = st /\ err <> None \/ st' = st1 /\ (acknowledged env -> err = None)) as [?|[-> Herr]]; [|by left|right; split; [|done]].
  { unfold acknowledged. destruct (at_commit env) as [|e|e]; injection Hend as <- <-; [by right|by left|right; split; [done|]].
    intros Ha. by destruct (Ha e). }
  subst st1.
  destruct (assign_ids_linked batch prev ids Hn) as (Hl & Hc & Hid).
  apply checkAuditInsertIDOrder_asc in Eo as (Ha & Hnz & _).
  assert (length (chain_items prev batch) = length batch) as Elen.
  { apply (f_equal length) in Hid. unfold assign_ids in Hid. by rewrite !length_map, length_imap, length_seq in Hid. }
  rewrite Elen in Ha, Hnz. rewrite <- Hid in Ha, Hnz.
  split; [apply length_replicate|]. exists (assign_ids round_time ids (chain_items prev batch)).
  rewrite committed_all. pose proof (so_asc _ _ _ Hok) as Hasc. destruct Hok as [Hr Hlg Hlk _ Hpos].
  assert (forall e, e ∈ assign_ids round_time ids (chain_items prev batch) -> exists k, ev_ID e = ids k) as Hids.
  { intros e He. assert (ev_ID e ∈ map ids (seq 0 (length batch))) as Hm by (rewrite <- Hid; apply elem_of_map; eauto).
    apply elem_of_map in Hm as (k & ? & _). eauto. }
  split_and!; [|done|done]. apply store_ok_intro; cbn [st_events].
  - by rewrite Hr, app_assoc.
  - done.
  - apply linked_app. done.
  - rewrite map_app. apply asc_app. split_and!; [done|done|].
    intros x y (ea & -> & Hin)%elem_of_map (eb & -> & Hb)%elem_of_map. destruct (Hids eb Hb) as [k ->].
    by apply (proj2 (Hfr ids Ei k)).
  - apply Forall_app. split; [done|]. apply Forall_forall. intros e He. destruct (Hids e He) as [k Hk].
    rewrite Forall_forall in Hnz. assert (ev_ID e <> 0) by (apply Hnz, elem_of_map; eauto).
    destruct (Hfr ids Ei k) as [? _]. lia.
Qed.

Context (env : nat -> store -> list auditBatchItem -> attempt).
Context (Hfresh : forall now st batch, ids_fresh (env now st batch) st).
Context (retries : nat).

(** ** Whatever is lost *)

Lemma attempt_grows legacy chain now st st' batch err :
  store_ok legacy st chain -> Forall (fun i => normalized (it_event i)) batch ->
  commitBatchAttemptTx round_time (env now st batch) st batch = (st', err) ->
  grown legacy chain st st' batch (if is_none err then batch else []).
Proof.
  intros Hok Hn Hc. destruct (attempt_appends _ _ _ _ _ _ _ Hok Hn (Hfresh now st batch) Hc) as [[-> He]|[Ha _]].
  - destruct err; [|done]. by apply grown_refl.
  - apply appended_grown in Ha. destruct err; [by eapply grown_nothing|done].
Qed.

Lemma retry_grows legacy n : forall chain now st batch now' st' err,
  store_ok legacy st chain -> Forall (fun i => normalized (it_event i)) batch ->
  commitBatchWithBusyRetry round_time env n now st batch = (now', st', err) ->
  grown legacy chain st st' batch (if is_none err then batch else []).
Proof.
  induction n as [|n IH]; intros chain now st batch now' st' err Hok Hn; cbn [commitBatchWithBusyRetry];
    destruct (commitBatchAttemptTx round_time (env now st batch) st batch) as [st1 e1] eqn:Ea;
    pose proof (attempt_grows _ _ _ _ _ _ _ Hok Hn Ea) as H1;
    (destruct e1 as [e|]; [|by intros [= _ <- <-]]).
  - destruct (isSQLiteBusyErr e); by intros [= _ <- <-].
  - destruct (isSQLiteBusyErr e); [|by intros [= _ <- <-]]. intros Hr. cbn [is_none] in H1.
    apply (grown_trans legacy chain st st1 st' batch batch batch [] (if is_none err then batch else [])); [done..|].
    intros chain' Hok'. by eapply IH.
Qed.

Lemma committed_one i e : committed [i] [Some e] = []. Proof. done. Qed.
Lemma loop_grows legacy fuel : forall chain now st batch now' st' errs,
  store_ok legacy st chain -> Forall (fun i => normalized (it_event i)) batch ->
  commitAuditBatch_loop round_time env retries fuel now st batch = (now', st', errs) ->
  length errs = length batch /\ grown legacy chain st st' batch (committed batch errs).
Proof.
  induction fuel as [|fuel IH]; intros chain now st batch now' st' errs Hok Hn; cbn [commitAuditBatch_loop];
    destruct (commitBatchWithBusyRetry _ _ _ _ _ _) as [[now1 st1] err] eqn:Er;
    pose proof (retry_grows _ _ _ _ _ _ _ _ _ Hok Hn Er) as H1;
    (destruct err as [e|]; cbn [is_none] in H1; [|intros [= _ <- <-]; rewrite length_replicate, committed_all; done]);
    (destruct (Nat.eqb_spec (length batch) 1) as [El|El];
      [intros [= _ <- <-]; destruct batch as [|i [|]]; try done|]);
    (destruct (isBatchGlobalContentionErr e); [intros [= _ <- <-]; rewrite length_replicate, committed_none; done|]).
  - intros [= _ <- <-]. rewrite length_replicate, committed_none. done.
  - cbv zeta. set (mid := (length batch / 2)%nat).
    destruct (commitAuditBatch_loop _ _ _ fuel now1 st1 (take mid batch)) as [[now2 st2] ea] eqn:Ea.
    destruct (commitAuditBatch_loop _ _ _ fuel now2 st2 (drop mid batch)) as [[now3 st3] eb] eqn:Eb.
    intros [= _ <- <-]. pose proof H1 as (n1 & Hok1 & _).
    destruct (IH _ _ _ _ _ _ _ Hok1 (Forall_take _ _ _ Hn) Ea) as [La (n2 & Hok2 & _)].
    destruct (IH _ _ _ _ _ _ _ Hok2 (Forall_drop _ _ _ Hn) Eb) as [Lb _].
    split; [by rewrite length_app, La, Lb, <- length_app, take_drop|].
    rewrite <- (take_drop mid batch) at 2. rewrite committed_app by done.
    apply (grown_trans legacy chain st st1 st3 batch batch batch [] _); [done..|]. intros chain1 Hk1.
    eapply (grown_trans legacy chain1 st1 st2 st3 (take mid batch) (drop mid batch)); [| |by eapply IH; [|apply Forall_take|]|].
    + intros x Hx. rewrite <- (take_drop mid batch). apply elem_of_app. by left.
    + intros x Hx. rewrite <- (take_drop mid batch). apply elem_of_app. by right.
    + intros chain2 Hk2. eapply IH; [done|by apply Forall_drop|done].
Qed.

Lemma commit_all_grows legacy batches : forall chain now st now' st' errs,
  store_ok legacy st chain -> Forall (Forall (fun i => normalized (it_event i))) batches ->
  commit_all round_time env retries now st batches = (now', st', errs) ->
  grown legacy chain st st' (concat batches) (concat (zip_with committed batches errs)).
Proof.
  induction batches as [|b batches IH]; intros chain now st now' st' errs Hok Hn; cbn [commit_all].
  - intros [= _ <- <-]. by apply grown_refl.
  - apply Forall_cons in Hn as [Hb Hn]. unfold commitAuditBatch.
    destruct (commitAuditBatch_loop _ _ _ _ now st b) as [[now1 st1] e1] eqn:E1.
    destruct (commit_all round_time env retries now1 st1 batches) as [[now2 st2] rest] eqn:E2.
    intros [= _ <- <-]. cbn [zip_with concat]. apply (grown_trans legacy chain st st1 st2 b (concat batches)); [set_solver|set_solver| |].
    + by eapply loop_grows.
    + intros chain' Hok'. by eapply IH.
Qed.

(** ** When every commit is acknowledged *)

Context (Hack : forall now st batch, acknowledged (env now st batch)).

Lemma retry_appends legacy chain n : forall now st batch now' st' err,
  store_ok legacy st chain -> Forall (fun i => normalized (it_event i)) batch ->
  commitBatchWithBusyRetry round_time env n now st batch = (now', st', err) ->
  match err with Some _ => st' = st | None => appended legacy chain st st' batch (replicate (length batch) None) end.
Proof.
  induction n as [|n IH]; intros now st batch now' st' err Hok Hn; cbn [commitBatchWithBusyRetry];
    destruct (commitBatchAttemptTx round_time (env now st batch) st batch) as [st1 e1] eqn:Ea;
    (assert (match e1 with Some _ => st1 = st | None => appended legacy chain st st1 batch (replicate (length batch) None) end) as H1;
      [destruct (attempt_appends _ _ _ _ _ _ _ Hok Hn (Hfresh now st batch) Ea) as [[-> He]|[Ha He]];
         [by destruct e1|by rewrite (He (Hack now st batch))]|]);
    (destruct e1 as [e|]; [|by intros [= _ <- <-]]).
  - destruct (isSQLiteBusyErr e); by intros [= _ <- <-].
  - destruct (isSQLiteBusyErr e); [|by intros [= _ <- <-]]. subst st1. by apply IH.
Qed.

Lemma appended_refl legacy chain st batch e :
  store_ok legacy st chain -> appended legacy chain st st batch (replicate (length batch) (Some e)).
Proof.
  intros Hok. split; [apply length_replicate|]. exists []. rewrite committed_none, !app_nil_r. done.
Qed.

Lemma appended_app legacy chain st st1 st2 a b ea eb :
  appended legacy chain st st1 a ea ->
  (forall chain', store_ok legacy st1 chain' -> appended legacy chain' st1 st2 b eb) ->
  appended legacy chain st st2 (a ++ b) (ea ++ eb).
Proof.
  intros [La (n1 & Hok & E1 & C1)] H2. destruct (H2 _ Hok) as [Lb (n2 & Hok2 & E2 & C2)].
  split; [by rewrite !length_app, La, Lb|]. exists (n1 ++ n2). rewrite app_assoc. split_and!; [done|by rewrite E2, E1, app_assoc|].
  rewrite committed_app by done. by rewrite !map_app, C1, C2.
Qed.

Lemma loop_appends legacy fuel : forall chain now st batch now' st' errs,
  store_ok legacy st chain -> Forall (fun i => normalized (it_event i)) batch ->
  commitAuditBatch_loop round_time env retries fuel now st batch = (now', st', errs) ->
  appended legacy chain st st' batch errs.
Proof.
  induction fuel as [|fuel IH]; intros chain now st batch now' st' errs Hok Hn; cbn [commitAuditBatch_loop];
    destruct (commitBatchWithBusyRetry _ _ _ _ _ _) as [[now1 st1] err] eqn:Er;
    pose proof (retry_appends _ _ _ _ _ _ _ _ _ Hok Hn Er) as H1;
    (destruct err as [e|]; [subst st1|by intros [= _ <- <-]]);
    (destruct (Nat.eqb_spec (length batch) 1) as [El|El];
      [intros [= _ <- <-]; destruct batch as [|i [|]]; try done; apply (appended_refl _ _ _ [i] e); done|]);
    (destruct (isBatchGlobalContentionErr e); [intros [= _ <- <-]; by apply appended_refl|]).
  - intros [= _ <- <-]. by apply appended_refl.
  - cbv zeta. set (mid := (length batch / 2)%nat).
    destruct (commitAuditBatch_loop _ _ _ fuel now1 st (take mid batch)) as [[now2 st2] ea] eqn:Ea.
    destruct (commitAuditBatch_loop _ _ _ fuel now2 st2 (drop mid batch)) as [[now3 st3] eb] eqn:Eb.
    intros [= _ <- <-]. rewrite <- (take_drop mid batch). eapply appended_app.
    + eapply IH; [done|by apply Forall_take|done].
    + intros chain' Hok'. eapply IH; [done|by apply Forall_drop|done].
Qed.

Lemma commit_all_ok legacy batches : forall chain now st now' st' errs,
  store_ok legacy st chain -> Forall (Forall (fun i => normalized (it_event i))) batches ->
  commit_all round_time env retries now st batches = (now', st', errs) ->
  exists new, store_ok legacy st' (chain ++ new) /\
    map content new = map (fun i => content (it_event i)) (concat (zip_with committed batches errs)).
Proof.
  induction batches as [|b batches IH]; intros chain now st now' st' errs Hok Hn; cbn [commit_all].
  - intros [= _ <- <-]. exists []. by rewrite app_nil_r.
  - apply Forall_cons in Hn as [Hb Hn]. unfold commitAuditBatch.
    destruct (commitAuditBatch_loop _ _ _ _ now st b) as [[now1 st1] e1] eqn:E1.
    destruct (loop_appends legacy _ _ _ _ _ _ _ _ Hok Hb E1) as [_ (n1 & Hok1 & _ & C1)].
    destruct (commit_all round_time env retries now1 st1 batches) as [[now2 st2] rest] eqn:E2.
    intros [= _ <- <-]. destruct (IH _ _ _ _ _ _ Hok1 Hn E2) as (n2 & Hok2 & C2).
    exists (n1 ++ n2). rewrite app_assoc. split; [done|]. cbn [zip_with concat]. by rewrite !map_app, C1, C2.
Qed.
End writer_proofs.

(** C27. The group commit keeps the chain whatever the database does.  From a
    table of legacy rows and a chain, commit a batch of submitted events, with
    any statement of any attempt failing, any retries, any ids above the ones in
    the table, and any COMMIT ending well, rolled back, or written with its
    acknowledgement lost.  Then one error per item comes back, the rows that
    were there stay, the table is legacy rows and a longer chain, every new row
    has the contents of an item of the batch, and the items whose error is nil
    are among the new rows in batch order.  If no acknowledgement is lost, the
    new rows are exactly the items whose error is nil, once each; if one is lost,
    an item reported as failed may be written, and a batch that is bisected
    then is written twice ([lost_acknowledgement_duplicates]). *)
Theorem commitAuditBatch_appends round_time env retries legacy chain now st now' st' errs
    (subs : list (AuditEventRow * option accessLog)) :
  (forall t, t mod 1000 = 0 -> round_time t = t) -> (forall now st batch, ids_fresh (env now st batch) st) ->
  store_ok legacy st chain ->
  let batch := map (fun s => logAuditEvent (fst s) (snd s)) subs in
  commitAuditBatch round_time env retries now st batch = (now', st', errs) ->
  (length errs = length batch /\ grown legacy chain st st' batch (committed batch errs)) /\
  ((forall now st batch, acknowledged (env now st batch)) -> appended legacy chain st st' batch errs).
Proof.
  intros Hr Hf Hok batch Hc.
  assert (Forall (fun i => normalized (it_event i)) batch) as Hn by (apply Forall_forall; intros i (s & -> & _)%elem_of_map; apply normalize_idempotent).
  split; [by eapply loop_grows|]. intros Hack. by eapply loop_appends.
Qed.

(** * Isolation of a failing item *)

Section isolation.
Context (round_time : Z -> Z) (env : nat -> store -> list auditBatchItem -> attempt) (retries : nat).
Context (poisoned : auditBatchItem -> bool) (e : commit_err).
Context (Hbusy : isSQLiteBusyErr e = false) (Hglobal : isBatchGlobalContentionErr e = false).
Context (Henv : forall now st batch,
  snd (commitBatchAttemptTx round_time (env now st batch) st batch) = if existsb poisoned batch then Some e else None).

Lemma retry_poisoned n now st batch :
  exists now' st', commitBatchWithBusyRetry round_time env n now st batch =
    (now', st', if existsb poisoned batch then Some e else None).
Proof.
  specialize (Henv now st batch). destruct n; cbn [commitBatchWithBusyRetry];
    destruct (commitBatchAttemptTx round_time (env now st batch) st batch) as [st' err]; cbn [snd] in Henv; rewrite Henv;
    destruct (existsb poisoned batch); rewrite ?Hbusy; eauto.
Qed.

Definition verdicts (batch : list auditBatchItem) : list (option commit_err) :=
  map (fun i => if poisoned i then Some e else None) batch.

Lemma verdicts_clean batch : existsb poisoned batch = false -> verdicts batch = replicate (length batch) None.
Proof.
  unfold verdicts. induction batch as [|i b IH]; intros H; [done|]. cbn in H |- *.
  apply orb_false_iff in H as [-> H]. by rewrite IH.
Qed.

Lemma loop_isolates fuel : forall now st batch, (length batch <= fuel)%nat ->
  snd (commitAuditBatch_loop round_time env retries fuel now st batch) = verdicts batch.
Proof.
  induction fuel as [|fuel IH]; intros now st batch Hl; cbn [commitAuditBatch_loop];
    destruct (retry_poisoned retries now st batch) as (now1 & st1 & ->);
    destruct (existsb poisoned batch) eqn:Ep; try (cbn [snd]; by rewrite verdicts_clean).
  - destruct batch; [done|cbn in Hl; lia].
  - destruct (Nat.eqb_spec (length batch) 1) as [El|El].
    { destruct batch as [|i [|]]; try done. cbn in Ep |- *. by destruct (poisoned i). }
    rewrite Hglobal. cbv zeta. set (mid := (length batch / 2)%nat).
    assert (length batch <> 0)%nat by (by destruct batch).
    assert (1 <= mid < length batch)%nat as Hmid by (unfold mid; pose proof (Nat.div_mod_eq (length batch) 2); pose proof (Nat.mod_upper_bound (length batch) 2); lia).
    pose proof (IH now1 st1 (take mid batch)) as H1.
    destruct (commitAuditBatch_loop _ _ _ fuel now1 st1 (take mid batch)) as [[now2 st2] ea].
    pose proof (IH now2 st2 (drop mid batch)) as H2.
    destruct (commitAuditBatch_loop _ _ _ fuel now2 st2 (drop mid batch)) as [[now3 st3] eb]. cbn [snd] in *.
    rewrite H1, H2 by (rewrite ?length_take, ?length_drop; lia).
    unfold verdicts. rewrite <- map_app. by rewrite take_drop.
Qed.
End isolation.

(** One bad item does not fail its batch: when an attempt fails, with an
    error that is neither contention nor an expired deadline, exactly if its
    batch holds a poisoned item, the bisection reports that error for the
    poisoned items and success for every other item. *)
Theorem commitAuditBatch_isolates round_time env retries poisoned e now st batch :
  isSQLiteBusyErr e = false -> isBatchGlobalContentionErr e = false ->
  (forall now st batch, snd (commitBatchAttemptTx round_time (env now st batch) st batch) =
                        if existsb poisoned batch then Some e else None) ->
  snd (commitAuditBatch round_time env retries now st batch) = map (fun i => if poisoned i then Some e else None) batch.
Proof. intros Hb Hg He. by apply (loop_isolates round_time env retries poisoned e Hb Hg He). Qed.

(** * The verifier accepts what the server writes *)

Definition cols_ok (e : AuditEventRow) : Prop :=
  opt_nonneg (ev_UserID e) /\ opt_nonneg (ev_SecretNodeID e) /\ opt_nonneg (ev_ProjectID e) /\
  opt_nonneg (ev_ImpersonatedBy e) /\ opt_nonneg (ev_ActingAs e).

Lemma cols_ok_content e e' : content e = content e' -> cols_ok e' -> cols_ok e.
Proof.
  unfold content, cols_ok. intros E H. injection E. intros.
  by repeat match goal with Hx : _ e = _ e' |- _ => rewrite ?Hx; clear Hx end.
Qed.

Lemma nonNegative_ok p c : opt_nonneg p -> nonNegativeUint64 p c = Ok p.
Proof. destruct p as [z|]; [|done]. cbn. intros. by rewrite (proj2 (Z.ltb_ge _ _)). Qed.

Lemma scan_to_raw e : cols_ok e -> 0 < ev_ID e -> scanAuditEventRow (to_raw e) = Ok e.
Proof.
  intros (H1 & H2 & H3 & H4 & H5) Hid. unfold scanAuditEventRow, to_raw.
  cbn [raw_id raw_event_type raw_user_id raw_secret_node_id raw_project_id raw_ip_address raw_description raw_success
       raw_event_time raw_diff raw_impersonated_by raw_acting_as raw_impersonation raw_actor_type raw_prev_hash raw_entry_hash
       scan_notnull res_bind].
  rewrite (proj2 (Z.leb_le _ _)) by lia. rewrite !nonNegative_ok by done. cbn [res_bind]. by destruct e.
Qed.

Lemma sort_by_sorted_id {A} (k : A -> Z) l : sorted_by k l -> sort_by k l = l.
Proof.
  induction l as [|x l IH]; intros H; [done|]. apply sorted_by_cons in H as [Hx Hl].
  change (insert_by k x (sort_by k l) = x :: l). rewrite IH by done.
  destruct l as [|y l]; [done|]. cbn. rewrite (proj2 (Z.leb_le _ _)); [done|]. apply Hx. left.
Qed.

Definition store_tables (st : store) : tables := mkTables (map to_raw (st_events st)) [] [] (Some []).

Lemma store_EventTable legacy st chain :
  store_ok legacy st chain -> Forall cols_ok (st_events st) -> EventTable (table_db (store_tables st)) (st_events st) 0.
Proof.
  intros Hok Hcols. pose proof (so_pos _ _ _ Hok) as Hpos.
  assert (Forall (fun e => 0 < ev_ID e /\ cols_ok e) (st_events st)) as Hall by (apply Forall_and; done).
  assert (List.filter unreachable (map to_raw (st_events st)) = []) as Hun.
  { apply filter_none. intros r (e & -> & He)%elem_of_map. rewrite Forall_forall in Hpos. specialize (Hpos e He).
    cbn. apply Z.ltb_ge. lia. }
  change 0 with (Z.of_nat (length (@nil raw_event))). rewrite <- Hun. apply (table_db_EventTable (store_tables st)).
  cbn [store_tables t_events]. rewrite filter_all.
  2:{ intros r (e & -> & He)%elem_of_map. rewrite Forall_forall in Hpos. specialize (Hpos e He). cbn. apply Z.ltb_lt. lia. }
  rewrite sort_by_sorted_id.
  - clear -Hall. induction Hall as [|e l [H1 H2] _ IH]; [done|]. cbn [map scan_all]. rewrite scan_to_raw by done.
    cbn [res_bind]. by rewrite IH.
  - intros i j x y. rewrite !lookup_map. intros (a & Ha & ->)%fmap_Some (b & Hb & ->)%fmap_Some Hij. cbn.
    destruct (decide (i = j)) as [->|]; [simplify_eq; lia|]. pose proof (so_ids _ _ _ Hok i j a b Ha Hb). lia.
Qed.

(** C28. What the server writes, the offline verifier accepts: after any history
    of committed batches over a table of legacy rows, with any database
    failures on the way, lost acknowledgements included, the offline walk of the
    stored table at any batch size keeps its verdict and counts every row that
    was written, at least the items reported committed, and exactly those if no
    acknowledgement was lost. *)
Theorem server_chain_verifies round_time env retries legacy now now' st' errs b fuel result
    (history : list (list (AuditEventRow * option accessLog))) :
  (forall t, t mod 1000 = 0 -> round_time t = t) -> (forall now st batch, ids_fresh (env now st batch) st) ->
  store_ok legacy (mkStore legacy []) [] -> Forall cols_ok legacy ->
  Forall (Forall (fun s => cols_ok (fst s))) history ->
  let batches := map (map (fun s => logAuditEvent (fst s) (snd s))) history in
  commit_all round_time env retries now (mkStore legacy []) batches = (now', st', errs) ->
  0 < b -> (length (st_events st') < fuel)%nat ->
  exists r, walkChain (table_db (store_tables st')) b None false fuel result [] = Ok r /\
    r_Verdict r = r_Verdict result /\ r_FirstBrokenID r = r_FirstBrokenID result /\
    r_ChainedEvents r = Z.of_nat (length (st_events st')) - Z.of_nat (length legacy) /\
    Z.of_nat (length (concat (zip_with committed batches errs))) <= r_ChainedEvents r /\
    ((forall now st batch, acknowledged (env now st batch)) ->
     r_ChainedEvents r = Z.of_nat (length (concat (zip_with committed batches errs)))) /\
    r_UnchainedLegacyEvents r = Z.of_nat (length legacy).
Proof.
  intros Hr Hf Hok Hcl Hch batches Hc Hb Hfu.
  assert (Forall (Forall (fun i => normalized (it_event i) /\ cols_ok (it_event i))) batches) as Hits.
  { apply Forall_forall. intros bt (h & -> & Hh)%elem_of_map. apply Forall_forall. intros i (s & -> & Hs)%elem_of_map.
    split; [apply normalize_idempotent|]. rewrite Forall_forall in Hch. specialize (Hch h Hh). rewrite Forall_forall in Hch.
    exact (Hch s Hs). }
  assert (Forall (Forall (fun i => normalized (it_event i))) batches) as Hnorm.
  { eapply Forall_impl; [exact Hits|]. intros bt Hbt. eapply Forall_impl; [exact Hbt|]. by intros i [? _]. }
  destruct (commit_all_grows round_time Hr env Hf retries legacy batches [] now (mkStore legacy []) now' st' errs) as (new & Hok' & Hev & Hsub & Hcont);
    [done..|]. cbn [app] in Hok'. cbn [st_events] in Hev.
  assert (Forall cols_ok (st_events st')) as Hcols.
  { rewrite Hev. apply Forall_app. split; [done|]. apply Forall_forall. intros e He.
    apply Hcont, elem_of_map in He as (i & Hi & Hin). apply list_elem_of_In, List.in_concat in Hin as (bt & Hbt%list_elem_of_In & Hin%list_elem_of_In). eapply cols_ok_content; [exact Hi|].
    rewrite Forall_forall in Hits. specialize (Hits bt Hbt). rewrite Forall_forall in Hits. by apply Hits. }
  assert ((forall now st batch, acknowledged (env now st batch)) -> length new = length (concat (zip_with committed batches errs))) as Hexact.
  { intros Hack. destruct (commit_all_ok round_time Hr env Hf retries Hack legacy batches [] now (mkStore legacy []) now' st' errs) as (new' & Hok2 & Hcn); [done..|].
    apply (f_equal length) in Hcn. rewrite !length_map in Hcn. rewrite <- Hcn. cbn [app] in Hok2.
    pose proof (so_rows _ _ _ Hok2) as E2. rewrite Hev in E2. by simplify_list_eq. }
  apply sublist_length in Hsub. rewrite !length_map in Hsub.
  pose proof (store_EventTable _ _ _ Hok' Hcols) as HT. pose proof (so_asc _ _ _ Hok') as Hasc.
  destruct Hok' as [Hrows Hlg Hlk Hids Hpos]. rewrite Hrows in *.
  destruct (walkChain_complete (table_db (store_tables st')) legacy new b None false fuel result) as (r & Hw & Hv & Hfb & Hce & Hle); try done; [by apply NoDup_asc|].
  exists r. rewrite length_app, Hce. split_and!; [done..|lia|lia| |done]. intros Hack. by rewrite (Hexact Hack).
Qed.

(** * A concrete environment *)

Definition next_id (st : store) : Z := 1 + foldr Z.max 0 (map ev_ID (st_events st)).
Definition ex_ids (st : store) (i : nat) : Z := next_id st + Z.of_nat i.
Definition ex_poisoned (i : auditBatchItem) : bool := bool_decide (ev_IPAddress (it_event i) = go "bad").
Definition ex_refused : commit_err := ErrDriver (go "CHECK constraint failed").

(** The first attempt finds the database busy. *)
Definition ex_busy_env (now : nat) (st : store) (b : list auditBatchItem) : attempt :=
  mkAttempt (if (now =? 0)%nat then Some (ErrDriver (go "database is locked (5) (SQLITE_BUSY)")) else None)
    (Ok (ex_ids st)) None CommitDone.
(** A row with a certain address violates a constraint. *)
Definition ex_poison_env (now : nat) (st : store) (b : list auditBatchItem) : attempt :=
  mkAttempt None (if existsb ex_poisoned b then Err ex_refused else Ok (ex_ids st)) None CommitDone.

Lemma max_id_ge l x : x ∈ l -> x <= foldr Z.max 0 l.
Proof. induction l as [|y l IH]; [set_solver|]. cbn. intros [-> |H]%elem_of_cons; [lia|]. specialize (IH H). lia. Qed.
Lemma max_id_nonneg l : 0 <= foldr Z.max 0 l.
Proof. induction l; cbn; lia. Qed.

Lemma ex_ids_fresh st i : 0 <= ex_ids st i /\ forall e, e ∈ st_events st -> ev_ID e < ex_ids st i.
Proof.
  unfold ex_ids, next_id. pose proof (max_id_nonneg (map ev_ID (st_events st))). split; [lia|].
  intros e He. pose proof (max_id_ge (map ev_ID (st_events st)) (ev_ID e) ltac:(apply elem_of_map; eauto)). lia.
Qed.

Lemma ex_ids_ordered st n : forall a i prev,
  match prev with Some p => p < ex_ids st a | None => True end ->
  checkAuditInsertIDOrder i prev (map (ex_ids st) (seq a n)) = Ok tt.
Proof.
  induction n as [|n IH]; intros a i prev Hp; [done|]. cbn [seq map checkAuditInsertIDOrder].
  pose proof (max_id_nonneg (map ev_ID (st_events st))). assert (ex_ids st a <> 0) by (unfold ex_ids, next_id; lia).
  rewrite (proj2 (Z.eqb_neq _ _)) by done. destruct prev as [p|]; cbn [orb].
  - rewrite (proj2 (Z.leb_gt _ _)) by done. apply IH. unfold ex_ids. lia.
  - apply IH. unfold ex_ids. lia.
Qed.

Lemma ex_poison_env_spec now st batch :
  snd (commitBatchAttemptTx (fun t => t) (ex_poison_env now st batch) st batch) =
  if existsb ex_poisoned batch then Some ex_refused else None.
Proof.
  unfold commitBatchAttemptTx, ex_poison_env. cbn [at_pre at_insert at_access at_commit fails res_bind].
  destruct (chainAuditBatch batch (head_hash st)) as [evs als].
  destruct (existsb ex_poisoned batch); cbn [res_bind]; [done|]. by rewrite ex_ids_ordered.
Qed.

Definition ex_sub (ip : bytes) : AuditEventRow * option accessLog :=
  (mkRow 0 (go "secret.read") (Some 3) (Some 9) (Some 1) ip (go "d") None 1700000000123456789 [] None None false [] [] [], None).
Definition ex_item (ip : bytes) : auditBatchItem := logAuditEvent (fst (ex_sub ip)) None.

Lemma ex_empty_ok : store_ok ex_legacy (mkStore ex_legacy []) [].
Proof.
  apply store_ok_intro; cbn; try done; [repeat constructor| |repeat constructor].
  intros [|[|]] [|[|]] x y; cbn; intros; simplify_eq; lia.
Qed.

Lemma commitAuditBatch_isolates_witness :
  snd (commitAuditBatch (fun t => t) ex_poison_env 2 0 (mkStore ex_legacy [])
         [ex_item (go "a"); ex_item (go "bad"); ex_item (go "c")]) = [None; Some ex_refused; None].
Proof.
  apply (commitAuditBatch_isolates (fun t => t) ex_poison_env 2 ex_poisoned ex_refused 0 (mkStore ex_legacy [])
           [ex_item (go "a"); ex_item (go "bad"); ex_item (go "c")]);
    [vm_compute; reflexivity|reflexivity|exact ex_poison_env_spec].
Defined.

Lemma commitAuditBatch_appends_witness :
  exists now st errs, commitAuditBatch (fun t => t) ex_busy_env 2 0 (mkStore ex_legacy []) [ex_item (go "a"); ex_item (go "b")] = (now, st, errs) /\
    errs = [None; None] /\ appended ex_legacy [] (mkStore ex_legacy []) st [ex_item (go "a"); ex_item (go "b")] errs.
Proof.
  destruct (commitAuditBatch (fun t => t) ex_busy_env 2 0 (mkStore ex_legacy []) [ex_item (go "a"); ex_item (go "b")])
    as [[now st] errs] eqn:E.
  exists now, st, errs. split; [reflexivity|]. split.
  - apply (f_equal snd) in E. cbn [snd] in E. rewrite <- E. vm_compute. reflexivity.
  - apply (commitAuditBatch_appends (fun t => t) ex_busy_env 2 ex_legacy [] 0 (mkStore ex_legacy []) now st errs
             [ex_sub (go "a"); ex_sub (go "b")]);
      [reflexivity|intros n s b ids [= <-] i; apply ex_ids_fresh|exact ex_empty_ok|exact E|discriminate].
Defined.

(** The first COMMIT is written and its acknowledgement lost: the batch is bisected
    and every item written again.  The table verifies; it has each event twice. *)
Definition ex_lost_env (now : nat) (st : store) (b : list auditBatchItem) : attempt :=
  mkAttempt None (Ok (ex_ids st)) None (if (now =? 0)%nat then CommitUnacknowledged (ErrDriver (go "unexpected EOF")) else CommitDone).
Example lost_acknowledgement_duplicates :
  let '(_, st, errs) := commitAuditBatch (fun t => t) ex_lost_env 2 0 (mkStore ex_legacy []) [ex_item (go "a"); ex_item (go "b")] in
  errs = [None; None] /\ map ev_IPAddress (drop 1 (st_events st)) = [go "a"; go "b"; go "a"; go "b"].
Proof. vm_compute. done. Qed.

Lemma server_chain_verifies_witness :
  exists st r, walkChain (table_db (store_tables st)) 2 None false 9 ex_result [] = Ok r /\
    r_Verdict r = VerdictValid /\ r_ChainedEvents r = 3 /\ r_UnchainedLegacyEvents r = 1.
Proof.
  destruct (commit_all (fun t => t) ex_poison_env 2 0 (mkStore ex_legacy [])
    (map (map (fun s => logAuditEvent (fst s) (snd s)))
       [[ex_sub (go "a"); ex_sub (go "bad"); ex_sub (go "c")]; [ex_sub (go "d")]])) as [[now st] errs] eqn:E.
  assert (errs = [[None; Some ex_refused; None]; [None]] /\ length (st_events st) = 4%nat) as [He Hl].
  { assert (bool_decide (length (st_events (snd (fst (commit_all (fun t => t) ex_poison_env 2 0 (mkStore ex_legacy [])
     (map (map (fun s => logAuditEvent (fst s) (snd s)))
       [[ex_sub (go "a"); ex_sub (go "bad"); ex_sub (go "c")]; [ex_sub (go "d")]]))))) = 4%nat) = true) as Hn
      by (vm_compute; reflexivity).
    rewrite E in Hn. cbn [fst snd] in Hn. split; [|by apply bool_decide_eq_true in Hn].
    apply (f_equal snd) in E. cbn [snd] in E. rewrite <- E. vm_compute. reflexivity. }
  destruct (server_chain_verifies (fun t => t) ex_poison_env 2 ex_legacy 0 now st errs 2 9 ex_result
    [[ex_sub (go "a"); ex_sub (go "bad"); ex_sub (go "c")]; [ex_sub (go "d")]]) as (r & Hr & Hv & _ & _ & _ & Hc & Hu).
  - reflexivity.
  - intros n s b ids Hi i. unfold ex_poison_env in Hi. cbn in Hi. destruct (existsb ex_poisoned b); [done|].
    injection Hi as <-. apply ex_ids_fresh.
  - exact ex_empty_ok.
  - repeat constructor; cbn; lia.
  - repeat constructor; cbn; lia.
  - exact E.
  - lia.
  - rewrite Hl. lia.
  - exists st, r. split; [exact Hr|]. split; [exact Hv|]. split; [|exact Hu]. rewrite Hc, He; [reflexivity|discriminate].
Defined.
