(* ===== verification/AuditMigrate.v ===== *)
(** Re-encoding the chain: [MigrateAuditChainEncoding] and its pre-flight
    [refuseIfAuditChainBroken] ([internal/storage/store/local_audit_chain.go]).

    The chain's rows are re-hashed in place under the current encoding, inside
    one transaction.  The table is the list of its rows in id order; a page is
    read from the table as the updates so far have left it.  The theorems: the
    operation refuses every chain that is not intact under one of the two known
    encodings, changes nothing when it refuses, fails or is a dry run, never
    changes an id or any field a hash covers, and leaves a chain the server's
    verifier accepts. *)
From Stdlib Require Import ZArith Lia.
From stdpp Require Import base numbers tactics sets list.
From S2P Require Import Prelude.
From S2P Require Import Sha256.
From S2P Require Import GoStr.
From S2P Require Import AuditHash.
From S2P Require Import AuditCheckpoint.
From S2P Require Import AuditDB.
From S2P Require Import AuditPages.
From S2P Require Import AuditWalk.
From S2P Require Import AuditStore.
From S2P Require Import AuditOnline.

Inductive refusal := RefNoHash (id : Z) | RefNotLinked (id : Z) | RefModified (id : Z) | RefOutside (held want last : Z).

Inductive migrate_err (E : Type) := MigDB (e : E) | MigRefused (why : refusal) | MigOutOfFuel.
Arguments MigDB {E}. Arguments MigRefused {E}. Arguments MigOutOfFuel {E}.

(** [storage.AuditChainMigrationResult] *)
Record AuditChainMigrationResult := mkMigration {
  mr_RowsMigrated : Z; mr_UnchainedRowsSkipped : Z; mr_HeadID : Z; mr_HeadHash : bytes;
  mr_AnchorRowID : Z; mr_AnchorNewEntryHash : bytes }.

Definition hashed (e : AuditEventRow) : bool := negb (bool_decide (ev_EntryHash e = [])).

(** The first batch of both loops: the first row that starts the chain says
    whether a purge moved its start. *)
Definition anchor_start (anchor : option RetentionAnchor) (batch : list AuditEventRow) : option bytes :=
  match List.find hashed batch, anchor with
  | Some e, Some a => if negb (bool_decide (ev_PrevHash e = auditGenesisHash)) then Some (ra_PrevHash a) else None
  | _, _ => None
  end.

(** The pre-flight's variables and the body of its row loop. *)
Record preflight := mkPre { pf_prev : bytes; pf_started : bool; pf_walked : Z }.

Definition preflight_row (s : preflight) (e : AuditEventRow) : step preflight refusal :=
  if negb (pf_started s) && bool_decide (ev_EntryHash e = []) then Next (mkPre (pf_prev s) false (pf_walked s + 1))
  else if bool_decide (ev_EntryHash e = []) then Stop (RefNoHash (ev_ID e))
  else if negb (bool_decide (ev_PrevHash e = pf_prev s)) then Stop (RefNotLinked (ev_ID e))
  else if negb (auditEntryHashMatchesAnyKnownEncoding e) then Stop (RefModified (ev_ID e))
  else Next (mkPre (ev_EntryHash e) true (pf_walked s + 1)).

Definition preflight_first (anchor : option RetentionAnchor) (batch : list AuditEventRow) (s : preflight)
  : step preflight refusal :=
  Next (match anchor_start anchor batch with Some p => mkPre p (pf_started s) (pf_walked s) | None => s end).

(** The re-encoding's variables. *)
Record migration := mkMig {
  mg_prev : bytes; mg_started : bool; mg_firstID : Z; mg_firstHash : bytes; mg_applies : bool;
  mg_rows : Z; mg_skipped : Z; mg_headID : Z }.

(** One row: the new state, and the new values of its hash columns, if any. *)
Definition migrate_event (s : migration) (e : AuditEventRow) : migration * option (bytes * bytes) :=
  if negb (mg_started s) && bool_decide (ev_EntryHash e = []) then
    (mkMig (mg_prev s) false (mg_firstID s) (mg_firstHash s) (mg_applies s) (mg_rows s) (mg_skipped s + 1) (mg_headID s), None)
  else
    let firstID := if mg_started s then mg_firstID s else ev_ID e in
    let newHash := computeAuditEntryHash e (mg_prev s) in
    let firstHash := if ev_ID e =? firstID then newHash else mg_firstHash s in
    (mkMig newHash true firstID firstHash (mg_applies s) (mg_rows s + 1) (mg_skipped s) (ev_ID e),
     if negb (bool_decide (ev_PrevHash e = mg_prev s)) || negb (bool_decide (ev_EntryHash e = newHash))
     then Some (mg_prev s, newHash) else None).

(** [UPDATE audit_events SET prev_hash = ?, entry_hash = ? WHERE id = ?] *)
Definition update_hashes (id : Z) (p h : bytes) (tbl : list AuditEventRow) : list AuditEventRow :=
  map (fun e => if ev_ID e =? id then with_hashes e p h else e) tbl.

Section migrate.
Context {E : Type}.
(** errors of reading the page after an id, of updating a row, of counting *)
Context (read_err write_err : Z -> option E) (count_err : option E).
(** rows with a NULL or negative id *)
Context (outside : Z).

Definition fails_with {A} (e : option E) (a : A) : res E A := match e with Some e => Err e | None => Ok a end.

Definition fetch (tbl : list AuditEventRow) (lastID : Z) : res E (list AuditEventRow) :=
  fails_with (read_err lastID) (page_of auditChainVerifyBatch lastID tbl).

Definition rows_through (tbl : list AuditEventRow) (lastID : Z) : Z :=
  outside + Z.of_nat (length (List.filter (fun e => ev_ID e <=? lastID) tbl)).

Definition refuseIfAuditRowsOutsideWalk (tbl : list AuditEventRow) (lastID walked : Z) : res (migrate_err E) unit :=
  match count_err with
  | Some e => Err (MigDB e)
  | None => let held := rows_through tbl lastID in
            if held =? walked then Ok tt else Err (MigRefused (RefOutside held walked lastID))
  end.

Definition refuseIfAuditChainBroken (fuel : nat) (anchor : option RetentionAnchor) (tbl : list AuditEventRow)
  : res (migrate_err E) unit :=
  match page_loop (fetch tbl) auditChainVerifyBatch (preflight_first anchor) preflight_row fuel true 0
          (mkPre auditGenesisHash false 0) with
  | Err (PageDB e) => Err (MigDB e)
  | Err PageOutOfFuel => Err MigOutOfFuel
  | Ok (inr why) => Err (MigRefused why)
  | Ok (inl (lastID, s)) => refuseIfAuditRowsOutsideWalk tbl lastID (pf_walked s)
  end.

Definition migrate_row (s : migration) (tbl : list AuditEventRow) (e : AuditEventRow)
  : res (migrate_err E) (migration * list AuditEventRow) :=
  let '(s, upd) := migrate_event s e in
  match upd with
  | None => Ok (s, tbl)
  | Some (p, h) => match write_err (ev_ID e) with
                   | Some err => Err (MigDB err)
                   | None => Ok (s, update_hashes (ev_ID e) p h tbl)
                   end
  end.

Fixpoint migrate_rows (s : migration) (tbl batch : list AuditEventRow) : res (migrate_err E) (migration * list AuditEventRow) :=
  match batch with
  | [] => Ok (s, tbl)
  | e :: batch => let? x := migrate_row s tbl e in migrate_rows x.1 x.2 batch
  end.

Definition migrate_first (anchor : option RetentionAnchor) (batch : list AuditEventRow) (s : migration) : migration :=
  match anchor_start anchor batch with
  | Some p => mkMig p (mg_started s) (mg_firstID s) (mg_firstHash s) true (mg_rows s) (mg_skipped s) (mg_headID s)
  | None => s
  end.

Fixpoint migrate_loop (fuel : nat) (anchor : option RetentionAnchor) (firstBatch : bool) (lastID : Z)
    (s : migration) (tbl : list AuditEventRow) : res (migrate_err E) (migration * list AuditEventRow) :=
  match fuel with
  | O => Err MigOutOfFuel
  | S fuel =>
      match fetch tbl lastID with
      | Err e => Err (MigDB e)
      | Ok batch =>
          match last batch with
          | None => Ok (s, tbl)
          | Some lst =>
              let? x := migrate_rows (if firstBatch then migrate_first anchor batch s else s) tbl batch in
              if Z.of_nat (length batch) <? auditChainVerifyBatch then Ok x
              else migrate_loop fuel anchor false (ev_ID lst) x.1 x.2
          end
      end
  end.

Definition migration_result (s : migration) : AuditChainMigrationResult :=
  let resign := mg_applies s && negb (mg_firstID s =? 0) in
  mkMigration (mg_rows s) (mg_skipped s) (mg_headID s) (mg_prev s)
    (if resign then mg_firstID s else 0) (if resign then mg_firstHash s else []).

Definition fresh_migration : migration := mkMig auditGenesisHash false 0 [] false 0 0 0.

(** The transaction: an error, or a dry run, leaves the table as it was. *)
Definition MigrateAuditChainEncoding (fuel : nat) (dryRun : bool) (anchor : option RetentionAnchor) (tbl : list AuditEventRow)
  : res (migrate_err E) AuditChainMigrationResult * list AuditEventRow :=
  match (let? _ := refuseIfAuditChainBroken fuel anchor tbl in migrate_loop fuel anchor true 0 fresh_migration tbl) with
  | Err e => (Err e, tbl)
  | Ok (s, tbl') => (Ok (migration_result s), if dryRun then tbl else tbl')
  end.
End migrate.

(** * What the pre-flight accepts *)

(** A chain whose rows hash under either known encoding. *)
Fixpoint linked_any (prev : bytes) (rows : list AuditEventRow) : Prop :=
  match rows with
  | [] => True
  | e :: rows => ev_EntryHash e <> [] /\ ev_PrevHash e = prev /\ auditEntryHashMatchesAnyKnownEncoding e = true /\
                 linked_any (ev_EntryHash e) rows
  end.

Definition chain_start (anchor : option RetentionAnchor) (tbl : list AuditEventRow) : bytes :=
  default auditGenesisHash (anchor_start anchor (page_of auditChainVerifyBatch 0 tbl)).

(** Every row is in the walk; the rows are unhashed ones and then a chain. *)
Definition intact_any (anchor : option RetentionAnchor) (outside : Z) (tbl legacy chain : list AuditEventRow) : Prop :=
  tbl = legacy ++ chain /\ Forall (fun e => 0 < ev_ID e) tbl /\ outside = 0 /\
  Forall (fun e => ev_EntryHash e = []) legacy /\ linked_any (chain_start anchor tbl) chain.

Lemma preflight_row_cases s e :
  (pf_started s = false /\ ev_EntryHash e = [] /\ preflight_row s e = Next (mkPre (pf_prev s) false (pf_walked s + 1))) \/
  (ev_EntryHash e <> [] /\ ev_PrevHash e = pf_prev s /\ auditEntryHashMatchesAnyKnownEncoding e = true /\
     preflight_row s e = Next (mkPre (ev_EntryHash e) true (pf_walked s + 1))) \/
  ((pf_started s = true /\ ev_EntryHash e = [] \/ ev_EntryHash e <> [] /\ (ev_PrevHash e <> pf_prev s \/ auditEntryHashMatchesAnyKnownEncoding e = false)) /\
     exists why, preflight_row s e = Stop why).
Proof.
  unfold preflight_row. destruct (bool_decide_reflect (ev_EntryHash e = [])) as [He|He].
  - destruct (pf_started s) eqn:Es; cbn [negb andb]; [|by left]. right; right. split; [by left|eauto].
  - rewrite andb_false_r. right. case_bool_decide as Hp; cbn [negb]; [|right; split; [tauto|eauto]].
    destruct (auditEntryHashMatchesAnyKnownEncoding e) eqn:Ea; cbn [negb]; [by left|right; split; [tauto|eauto]].
Qed.

(** The row loop passes exactly the rows of that shape. *)
Lemma preflight_rows_next l : forall s s', page_rows preflight_row s l = Next s' ->
  exists lg ch, l = lg ++ ch /\ Forall (fun e => ev_EntryHash e = []) lg /\ (pf_started s = true -> lg = []) /\
    linked_any (pf_prev s) ch /\ pf_walked s' = pf_walked s + Z.of_nat (length l).
Proof.
  induction l as [|e l IH]; intros s s'; cbn [page_rows].
  { intros [= <-]. exists [], []. split_and!; try done. cbn. lia. }
  destruct (preflight_row_cases s e) as [(Hs & He & ->)|[(He & Hp & Ha & ->)|(_ & why & ->)]]; cbn [step_bind]; [| |done];
    intros (lg & ch & -> & Hlg & Hst & Hch & Hw)%IH; cbn [pf_started pf_prev pf_walked] in *.
  - exists (e :: lg), ch. split_and!; [done|by constructor|by rewrite Hs|done|]. cbn [length]. lia.
  - rewrite (Hst eq_refl) in *. exists [], (e :: ch). split_and!; [done..|]. cbn [length app] in *. lia.
Qed.

Lemma preflight_rows_pass ch : forall s lg,
  Forall (fun e => ev_EntryHash e = []) lg -> pf_started s = false -> linked_any (pf_prev s) ch ->
  exists s', page_rows preflight_row s (lg ++ ch) = Next s'.
Proof.
  assert (forall l s, linked_any (pf_prev s) l -> exists s', page_rows preflight_row s l = Next s') as Hch.
  { induction l as [|e l IH]; intros s H; cbn [page_rows]; [eauto|]. destruct H as (He & Hp & Ha & H).
    destruct (preflight_row_cases s e) as [(_ & ? & _)|[(_ & _ & _ & ->)|([[_ ?]|[_ [?|?]]] & _)]]; try congruence.
    cbn [step_bind]. by apply IH. }
  intros s lg. revert s. induction lg as [|e lg IH]; intros s Hl Hs H; cbn [app]; [auto|].
  apply Forall_cons in Hl as [He Hl]. cbn [page_rows].
  destruct (preflight_row_cases s e) as [(_ & _ & ->)|[(? & _)|([[? _]|[? _]] & _)]]; try congruence.
  cbn [step_bind]. by apply IH.
Qed.

Lemma page_loop_err_mono {E S R} (f f0 : Z -> res E (list AuditEventRow)) n (first : list AuditEventRow -> S -> step S R) body fuel :
  (forall a p, f a = Ok p -> f0 a = Ok p) ->
  forall fp a s x, page_loop f n first body fuel fp a s = Ok x -> page_loop f0 n first body fuel fp a s = Ok x.
Proof.
  intros Hf. induction fuel as [|fuel IH]; intros fp a s x; cbn [page_loop]; [done|].
  destruct (f a) as [p|] eqn:Ef; cbn [lift res_bind]; [|done]. rewrite (Hf _ _ Ef). cbn [lift res_bind].
  destruct (last p); [|done]. destruct (step_bind _ _); [|done]. destruct (_ <? _); [done|]. apply IH.
Qed.

Section preflight.
Context {E : Type} (read_err : Z -> option E) (count_err : option E) (outside : Z) (Hout : 0 <= outside).
Context (tbl : list AuditEventRow) (Hs : sorted_by ev_ID tbl) (Hnd : NoDup (map ev_ID tbl)).
Context (fuel : nat) (Hfuel : (length tbl < fuel)%nat) (anchor : option RetentionAnchor).

Abbreviation all_read := (fun _ : Z => @None E).
Abbreviation start := (mkPre (chain_start anchor tbl) false 0).

Lemma preflight_loop :
  match page_rows preflight_row start (above 0 tbl) with
  | Stop why => page_loop (fetch all_read tbl) auditChainVerifyBatch (preflight_first anchor) preflight_row fuel true 0
                  (mkPre auditGenesisHash false 0) = Ok (inr why)
  | Next s' => exists s'', page_loop (fetch all_read tbl) auditChainVerifyBatch (preflight_first anchor) preflight_row fuel true 0
                  (mkPre auditGenesisHash false 0) = Ok (inl (last_id 0 (above 0 tbl), s'')) /\ pf_walked s'' = pf_walked s' /\
                  (forall e, e ∈ tbl -> ev_ID e <= last_id 0 (above 0 tbl))
  end.
Proof.
  assert (length (above 0 tbl) < fuel)%nat as Hl.
  { pose proof (sublist_length _ _ (filter_sublist (fun e => 0 <? ev_ID e) tbl)). unfold above. lia. }
  destruct (page_loop_visited (fetch all_read tbl) tbl auditChainVerifyBatch ltac:(done) Hs (fun a _ => eq_refl)
    (preflight_first anchor) preflight_row fuel true 0 (mkPre auditGenesisHash false 0) ltac:(lia) Hl) as (V & _ & HV & _ & HW).
  rewrite (HV Hnd) in HW. unfold page_from in HW. destruct (above 0 tbl) as [|hd l] eqn:Ea.
  - cbn [andb negb page_rows step_bind] in *. rewrite (bool_decide_eq_true_2 ([] = [])) in HW by done.
    destruct HW as [-> HW]. eexists. split; [done|]. done.
  - rewrite bool_decide_eq_false_2 in HW by done. cbn [andb negb step_bind preflight_first] in HW.
    assert (match anchor_start anchor (page_of auditChainVerifyBatch 0 tbl) with
            | Some p => mkPre p false 0 | None => mkPre auditGenesisHash false 0 end = start) as Est.
    { unfold chain_start. by destruct (anchor_start _ _). }
    cbn [pf_started pf_walked] in HW. rewrite Est in HW.
    destruct (page_rows _ _ _); [|done]. destruct HW as [-> HW]. eauto.
Qed.

Lemma rows_through_last : (forall e, e ∈ tbl -> ev_ID e <= last_id 0 (above 0 tbl)) ->
  rows_through outside tbl (last_id 0 (above 0 tbl)) = outside + Z.of_nat (length tbl).
Proof. intros H. unfold rows_through. rewrite filter_all; [done|]. intros e He. apply Z.leb_le. auto. Qed.

(** The pre-flight passes only an intact chain... *)
Lemma preflight_sound : refuseIfAuditChainBroken read_err count_err outside fuel anchor tbl = Ok tt ->
  exists lg ch, intact_any anchor outside tbl lg ch.
Proof.
  unfold refuseIfAuditChainBroken. destruct (page_loop _ _ _ _ _ _ _ _) as [[[lastID s]|why]|[]] eqn:El; try done.
  apply (page_loop_err_mono _ (fetch all_read tbl)) in El.
  2:{ unfold fetch. intros a p. destruct (read_err a); done. }
  pose proof preflight_loop as HL. destruct (page_rows preflight_row start (above 0 tbl)) as [s'|] eqn:Er; [|congruence].
  destruct HL as (s'' & HL & Hw & Hall). rewrite HL in El. injection El as <- <-.
  unfold refuseIfAuditRowsOutsideWalk. destruct count_err; [done|]. rewrite rows_through_last by done.
  destruct (Z.eqb_spec (outside + Z.of_nat (length tbl)) (pf_walked s'')) as [Eq|]; [|done]. intros _.
  apply preflight_rows_next in Er as (lg & ch & EV & Hlg & _ & Hch & Hw'). cbn [pf_walked pf_prev] in *.
  pose proof (sublist_length _ _ (filter_sublist (fun e => 0 <? ev_ID e) tbl)) as Hle. fold (above 0 tbl) in Hle.
  assert (above 0 tbl = tbl) as Eab by (apply sublist_same_length; [apply filter_sublist|lia]).
  exists lg, ch. split_and!; [congruence| |rewrite Eab in *; lia|done|done].
  apply Forall_forall. intros e He. rewrite <- Eab in He. apply elem_of_filter_bool in He as [_ He%Z.ltb_lt]. done.
Qed.

(** ... and, with no database error, every intact chain. *)
Lemma preflight_complete lg ch : intact_any anchor outside tbl lg ch ->
  refuseIfAuditChainBroken all_read None outside fuel anchor tbl = Ok tt.
Proof.
  intros (Et & Hpos & Ho & Hlg & Hch). assert (above 0 tbl = tbl) as Eab.
  { apply filter_all. intros e He. apply Z.ltb_lt. rewrite Forall_forall in Hpos. auto. }
  pose proof preflight_loop as HL.
  destruct (preflight_rows_pass ch start lg Hlg eq_refl Hch) as (s' & Er). rewrite <- Et in Er.
  assert (page_rows preflight_row start (above 0 tbl) = Next s') as Er' by (by rewrite Eab).
  rewrite Er' in HL. destruct HL as (s'' & HL & Hw & Hall).
  unfold refuseIfAuditChainBroken. rewrite HL. unfold refuseIfAuditRowsOutsideWalk. rewrite rows_through_last by done.
  apply preflight_rows_next in Er as (_ & _ & _ & _ & _ & _ & Hw'). cbn [pf_walked] in Hw'.
  by rewrite (proj2 (Z.eqb_eq _ _)) by lia.
Qed.
End preflight.

(** * The re-encoding loop *)

(** What the loop makes of a list of rows, without a table. *)
Fixpoint remade (s : migration) (l : list AuditEventRow) : migration * list AuditEventRow :=
  match l with
  | [] => (s, [])
  | e :: l =>
      let '(s, upd) := migrate_event s e in
      let '(s, l) := remade s l in
      (s, match upd with Some (p, h) => with_hashes e p h | None => e end :: l)
  end.

Lemma remade_app a : forall s b, remade s (a ++ b) =
  let '(s1, a') := remade s a in let '(s2, b') := remade s1 b in (s2, a' ++ b').
Proof.
  induction a as [|e a IH]; intros s b; cbn [app remade]; [by destruct (remade s b)|].
  destruct (migrate_event s e) as [s1 u]. rewrite IH. destruct (remade s1 a) as [s2 a']. by destruct (remade s2 b).
Qed.

Lemma remade_ids l : forall s, map ev_ID (remade s l).2 = map ev_ID l.
Proof.
  induction l as [|e l IH]; intros s; cbn [remade]; [done|]. destruct (migrate_event s e) as [s1 u].
  specialize (IH s1). destruct (remade s1 l) as [s2 l']. cbn in *. rewrite IH. by destruct u as [[]|].
Qed.

Lemma update_hashes_other id p h l : (id ∉ map ev_ID l) -> update_hashes id p h l = l.
Proof.
  unfold update_hashes. induction l as [|e l IH]; intros H; [done|]. cbn [map] in *. apply not_elem_of_cons in H as [Hi H].
  rewrite (proj2 (Z.eqb_neq _ _)) by congruence. f_equal. auto.
Qed.

Section loop.
Context {E : Type} (read_err write_err : Z -> option E).

Lemma migrate_row_remade s P e Q x : NoDup (map ev_ID (P ++ e :: Q)) ->
  migrate_row write_err s (P ++ e :: Q) e = Ok x ->
  x = ((migrate_event s e).1, P ++ match (migrate_event s e).2 with Some (p, h) => with_hashes e p h | None => e end :: Q).
Proof.
  intros Hnd. unfold migrate_row. destruct (migrate_event s e) as [s1 [[p h]|]]; [|by intros [= <-]].
  destruct (write_err _); [done|]. intros [= <-]. cbn [fst snd]. f_equal.
  rewrite map_app in Hnd. cbn [map] in Hnd. apply NoDup_app in Hnd as (_ & HP & HQ). apply NoDup_cons in HQ as [HQ _].
  unfold update_hashes. rewrite map_app. cbn [map]. rewrite Z.eqb_refl.
  fold (update_hashes (ev_ID e) p h P) (update_hashes (ev_ID e) p h Q). rewrite !update_hashes_other; [done|done|].
  intros Hin. apply (HP _ Hin). left.
Qed.

Lemma migrate_rows_remade pg : forall s P Q x, NoDup (map ev_ID (P ++ pg ++ Q)) ->
  migrate_rows write_err s (P ++ pg ++ Q) pg = Ok x -> x = ((remade s pg).1, P ++ (remade s pg).2 ++ Q).
Proof.
  induction pg as [|e pg IH]; intros s P Q x Hnd; cbn [migrate_rows app remade]; [by intros [= <-]|].
  destruct (migrate_row _ _ _ _) as [y|] eqn:Ey; cbn [res_bind]; [|done].
  apply migrate_row_remade in Ey; [|done]. subst y. cbn [fst snd]. destruct (migrate_event s e) as [s1 u] eqn:Em. cbn [fst snd].
  set (e' := match u with Some (p, h) => with_hashes e p h | None => e end).
  assert (ev_ID e' = ev_ID e) as Eid by (unfold e'; by destruct u as [[]|]).
  intros Hx. rewrite (cons_middle e' P), app_assoc in Hx. apply IH in Hx.
  - subst x. destruct (remade s1 pg) as [s2 pg']. cbn. by rewrite <- app_assoc.
  - rewrite map_app, map_app. cbn [map]. rewrite Eid, <- app_assoc. cbn [app]. rewrite map_app in Hnd. exact Hnd.
Qed.

Lemma asc_sorted l : asc (map ev_ID l) -> sorted_by ev_ID l.
Proof.
  induction l as [|e l IH]; intros H; [apply sorted_by_nil|]. cbn [map] in H. apply asc_cons in H as [He H].
  apply sorted_by_cons. split; [|auto]. intros y Hy. apply Z.lt_le_incl, He, elem_of_map. eauto.
Qed.

Lemma page_of_rest a P Q : (forall e, e ∈ P -> ev_ID e <= a) -> (forall e, e ∈ Q -> a < ev_ID e) ->
  page_of auditChainVerifyBatch a (P ++ Q) = take (Z.to_nat auditChainVerifyBatch) Q.
Proof.
  intros HP HQ. unfold page_of, above. rewrite List.filter_app, filter_none, filter_all; [done| |].
  - intros e He. apply Z.ltb_lt. auto.
  - intros e He. apply Z.ltb_ge. auto.
Qed.

(** Where the loop stands after a page. *)
Lemma after_page P pg Q lst s : asc (map ev_ID (P ++ pg ++ Q)) -> last pg = Some lst ->
  let P' := P ++ (remade s pg).2 in
  asc (map ev_ID (P' ++ Q)) /\ (forall e, e ∈ P' -> ev_ID e <= ev_ID lst) /\ (forall e, e ∈ Q -> ev_ID lst < ev_ID e).
Proof.
  intros Ha Hl P'. assert (map ev_ID P' = map ev_ID (P ++ pg)) as EP by (unfold P'; rewrite !map_app; by rewrite remade_ids).
  rewrite map_app, EP. rewrite app_assoc, map_app in Ha. split; [done|]. apply asc_app in Ha as (HP & _ & Hsep).
  apply last_Some in Hl as [pg' ->]. split.
  - intros e He. assert (ev_ID e ∈ map ev_ID P') as Hi by (apply elem_of_map; eauto). rewrite EP in Hi.
    rewrite app_assoc, map_app in HP, Hi. apply asc_app in HP as (_ & _ & HP). cbn [map] in *.
    apply elem_of_app in Hi as [Hi|Hi]; [apply Z.lt_le_incl, HP; [done|left]|]. apply list_elem_of_singleton in Hi as ->. lia.
  - intros e He. apply Hsep; apply elem_of_map; [exists lst; set_solver|eauto].
Qed.

Definition loop_start (anchor : option RetentionAnchor) (fb : bool) (Q : list AuditEventRow) (s : migration) : migration :=
  if fb && negb (bool_decide (Q = [])) then migrate_first anchor (take (Z.to_nat auditChainVerifyBatch) Q) s else s.

Lemma take_last_split (Q : list AuditEventRow) : Q <> [] ->
  exists pg Q' lst, Q = pg ++ Q' /\ take (Z.to_nat auditChainVerifyBatch) Q = pg /\ last pg = Some lst /\
    ((Z.of_nat (length pg) <? auditChainVerifyBatch) = true -> Q' = []) /\ (length Q' < length Q)%nat.
Proof.
  intros HQ. set (n := Z.to_nat auditChainVerifyBatch). assert (0 < n)%nat as Hn by (vm_compute; lia).
  destruct (last (take n Q)) as [lst|] eqn:El.
  2:{ apply last_None in El. destruct Q; [done|]. by destruct n; [lia|]. }
  exists (take n Q), (drop n Q), lst. rewrite take_drop. split_and!; [done..| |].
  - intros Hlt%Z.ltb_lt. rewrite length_take in Hlt. apply drop_ge. subst n. lia.
  - rewrite length_drop. destruct Q; [done|]. cbn [length]. lia.
Qed.

Lemma migrate_loop_remade anchor fuel : forall fb a s P Q x,
  asc (map ev_ID (P ++ Q)) -> (forall e, e ∈ P -> ev_ID e <= a) -> (forall e, e ∈ Q -> a < ev_ID e) ->
  migrate_loop read_err write_err fuel anchor fb a s (P ++ Q) = Ok x ->
  x = ((remade (loop_start anchor fb Q s) Q).1, P ++ (remade (loop_start anchor fb Q s) Q).2).
Proof.
  induction fuel as [|fuel IH]; intros fb a s P Q x Ha HP HQ; cbn [migrate_loop]; [done|].
  unfold fetch. destruct (read_err a); cbn [fails_with]; [done|]. rewrite page_of_rest by done.
  destruct (decide (Q = [])) as [->|Hne].
  { rewrite take_nil. cbn [last]. intros [= <-]. unfold loop_start. by rewrite andb_false_r. }
  destruct (take_last_split Q Hne) as (pg & Q' & lst & EQ & Epg & Hl & Hsh & _). rewrite Epg, Hl.
  assert (loop_start anchor fb Q s = if fb then migrate_first anchor pg s else s) as ->.
  { unfold loop_start. rewrite bool_decide_eq_false_2, Epg by done. by destruct fb. }
  set (s1 := if fb then migrate_first anchor pg s else s). rewrite EQ.
  destruct (migrate_rows _ _ _ _) as [y|] eqn:Ey; cbn [res_bind]; [|done].
  apply migrate_rows_remade in Ey; [|rewrite <- EQ; by apply NoDup_asc]. subst y. cbn [fst snd]. rewrite remade_app.
  destruct (remade s1 pg) as [s2 pg'] eqn:Er. cbn [fst snd].
  destruct (_ <? _) eqn:Elt.
  - rewrite (Hsh eq_refl). cbn [remade]. by intros [= <-].
  - rewrite app_assoc. rewrite EQ in Ha. destruct (after_page P pg Q' lst s1 Ha Hl) as (Ha' & HP' & HQ').
    rewrite Er in Ha', HP'. cbn [snd] in Ha', HP'. intros Hx. apply IH in Hx; [|done..]. unfold loop_start in Hx. cbn [andb] in Hx.
    destruct (remade s2 Q') as [s3 Q'']. cbn [fst snd] in *. by rewrite Hx, app_assoc.
Qed.
End loop.

Lemma migrate_rows_total {E} pg : forall s tbl, exists x, migrate_rows (fun _ => @None E) s tbl pg = Ok x.
Proof.
  induction pg as [|e pg IH]; intros s tbl; cbn [migrate_rows]; [eauto|]. unfold migrate_row.
  destruct (migrate_event s e) as [s1 [[p h]|]]; cbn [res_bind]; apply IH.
Qed.

Lemma migrate_loop_total {E} anchor fuel : forall fb a s P Q,
  asc (map ev_ID (P ++ Q)) -> (forall e, e ∈ P -> ev_ID e <= a) -> (forall e, e ∈ Q -> a < ev_ID e) ->
  (length Q < fuel)%nat ->
  exists x, migrate_loop (fun _ => @None E) (fun _ => None) fuel anchor fb a s (P ++ Q) = Ok x.
Proof.
  induction fuel as [|fuel IH]; intros fb a s P Q Ha HP HQ Hf; cbn [migrate_loop]; [lia|].
  unfold fetch. cbn [fails_with]. rewrite page_of_rest by done. destruct (decide (Q = [])) as [->|Hne].
  { rewrite take_nil. cbn [last]. eauto. }
  destruct (take_last_split Q Hne) as (pg & Q' & lst & EQ & Epg & Hl & Hsh & Hlt). rewrite Epg, Hl.
  set (s1 := if fb then migrate_first anchor pg s else s).
  destruct (@migrate_rows_total E pg s1 (P ++ Q)) as [y Ey]. rewrite Ey. cbn [res_bind]. destruct (_ <? _); [eauto|].
  rewrite EQ in Ey, Ha. apply migrate_rows_remade in Ey; [|by apply NoDup_asc]. subst y. cbn [fst snd]. rewrite app_assoc.
  destruct (after_page P pg Q' lst s1 Ha Hl) as (Ha' & HP' & HQ'). apply IH; [done..|lia].
Qed.

(** * The re-encoded chain *)

(** [link_rows prev l]: the rows re-hashed from [prev] under the current encoding. *)
Lemma reencode_linked l : forall prev, linked prev (link_rows prev l).
Proof. induction l as [|e l IH]; intros prev; cbn [link_rows linked]; [done|]. split; [done|]. split; [done|]. apply IH. Qed.

Lemma reencode_content l : forall prev, map content (link_rows prev l) = map content l.
Proof. induction l as [|e l IH]; intros prev; cbn; [done|]. by rewrite IH. Qed.
Lemma reencode_ids l : forall prev, map ev_ID (link_rows prev l) = map ev_ID l.
Proof. induction l as [|e l IH]; intros prev; cbn; [done|]. by rewrite IH. Qed.

Lemma with_same_hashes e : with_hashes e (ev_PrevHash e) (ev_EntryHash e) = e.
Proof. by destruct e. Qed.

Lemma chain_head_cons p e l : chain_head p (e :: l) = chain_head (ev_EntryHash e) l.
Proof. unfold chain_head. rewrite last_cons. by destruct (last l). Qed.

Definition mig_after (s : migration) (chain : list AuditEventRow) : migration :=
  match chain with
  | [] => s
  | e :: _ =>
      let firstID := if mg_started s then mg_firstID s else ev_ID e in
      mkMig (chain_head (mg_prev s) (link_rows (mg_prev s) chain)) true firstID
        (if ev_ID e =? firstID then ComputeEntryHash e (mg_prev s) else mg_firstHash s) (mg_applies s)
        (mg_rows s + Z.of_nat (length chain)) (mg_skipped s) (last_id 0 chain)
  end.

Lemma migrate_event_chained s e : ev_EntryHash e <> [] ->
  migrate_event s e = (mig_after s [e],
    if negb (bool_decide (ev_PrevHash e = mg_prev s)) || negb (bool_decide (ev_EntryHash e = ComputeEntryHash e (mg_prev s)))
    then Some (mg_prev s, ComputeEntryHash e (mg_prev s)) else None).
Proof.
  intros He. unfold migrate_event. rewrite (bool_decide_eq_false_2 (ev_EntryHash e = [])), andb_false_r by done.
  rewrite computeAuditEntryHash_offline. done.
Qed.

Lemma mig_after_cons s e l : ev_ID e <> 0 -> (forall x, x ∈ l -> ev_ID e < ev_ID x) ->
  (mg_started s = true -> mg_firstID s < ev_ID e) -> mig_after (mig_after s [e]) l = mig_after s (e :: l).
Proof.
  intros Hz Hl Hst. destruct l as [|x l]; [done|]. cbn [mig_after mg_started mg_prev mg_firstID mg_firstHash mg_applies mg_rows mg_skipped].
  specialize (Hl x ltac:(left)). f_equal; [| |cbn [length]; lia].
  - symmetry. apply (chain_head_cons _ (with_hashes e _ _)).
  - destruct (mg_started s).
    + rewrite !(proj2 (Z.eqb_neq _ _)) by (specialize (Hst eq_refl); lia). done.
    + by rewrite Z.eqb_refl, (proj2 (Z.eqb_neq _ _)) by lia.
Qed.

Lemma remade_chain l : forall s, asc (map ev_ID l) -> Forall (fun e => 0 < ev_ID e) l ->
  Forall (fun e => ev_EntryHash e <> []) l ->
  (mg_started s = true -> forall e, e ∈ l -> mg_firstID s < ev_ID e) ->
  remade s l = (mig_after s l, link_rows (mg_prev s) l).
Proof.
  induction l as [|e l IH]; intros s Ha Hpos Hne Hst; cbn [remade link_rows]; [done|].
  cbn [map] in Ha. apply asc_cons in Ha as [He Ha]. apply Forall_cons in Hpos as [Hz Hpos], Hne as [Hn Hne].
  assert (forall x, x ∈ l -> ev_ID e < ev_ID x) as Hlt by (intros x Hx; apply He, elem_of_map; eauto).
  rewrite migrate_event_chained by done. rewrite IH; [|done|done|done|].
  - rewrite mig_after_cons; [|lia|done|intros Hs; apply Hst; [done|left]]. f_equal. apply (f_equal2 cons); [|done].
    destruct (bool_decide_reflect (ev_PrevHash e = mg_prev s)) as [E1|]; [|done].
    destruct (bool_decide_reflect (ev_EntryHash e = ComputeEntryHash e (mg_prev s))) as [E2|]; [|done].
    cbn [negb orb]. rewrite <- E2, <- E1. by rewrite with_same_hashes.
  - cbn [mig_after mg_started mg_firstID]. intros _ x Hx. specialize (Hlt x Hx). destruct (mg_started s); [|done].
    specialize (Hst eq_refl e ltac:(left)). lia.
Qed.

Definition skip (n : Z) (s : migration) : migration :=
  mkMig (mg_prev s) (mg_started s) (mg_firstID s) (mg_firstHash s) (mg_applies s) (mg_rows s) (mg_skipped s + n) (mg_headID s).

Lemma remade_legacy lg : forall s, mg_started s = false -> Forall (fun e => ev_EntryHash e = []) lg ->
  remade s lg = (skip (Z.of_nat (length lg)) s, lg).
Proof.
  induction lg as [|e lg IH]; intros s Hs Hl; cbn [remade].
  { unfold skip. rewrite Z.add_0_r. by destruct s. }
  apply Forall_cons in Hl as [He Hl]. unfold migrate_event at 1. rewrite Hs, (bool_decide_eq_true_2 _ He). cbn [negb andb].
  rewrite IH by done. unfold skip. cbn [mg_prev mg_started mg_firstID mg_firstHash mg_applies mg_rows mg_skipped mg_headID].
  rewrite Hs. f_equal. f_equal. cbn [length]. lia.
Qed.

Lemma linked_any_hashed l : forall prev, linked_any prev l -> Forall (fun e => ev_EntryHash e <> []) l.
Proof. induction l as [|e l IH]; intros prev; [constructor|]. intros (He & _ & _ & H). constructor; [done|eauto]. Qed.

(** The state the re-encoding starts from, and the state it ends in. *)
Definition mig_start (anchor : option RetentionAnchor) (tbl : list AuditEventRow) : migration :=
  mkMig (chain_start anchor tbl) false 0 []
    (negb (is_none (anchor_start anchor (page_of auditChainVerifyBatch 0 tbl)))) 0 0 0.
Definition mig_end (anchor : option RetentionAnchor) (tbl legacy chain : list AuditEventRow) : migration :=
  mig_after (skip (Z.of_nat (length legacy)) (mig_start anchor tbl)) chain.

Lemma loop_start_table anchor tbl : Forall (fun e => 0 < ev_ID e) tbl ->
  loop_start anchor true tbl fresh_migration = mig_start anchor tbl.
Proof.
  intros Hpos. unfold loop_start, mig_start, chain_start, migrate_first.
  assert (page_of auditChainVerifyBatch 0 tbl = take (Z.to_nat auditChainVerifyBatch) tbl) as ->.
  { apply (page_of_rest 0 [] tbl); [intros e He; by apply elem_of_nil in He|]. by apply Forall_forall. }
  destruct tbl as [|e tbl]; [by cbn|]. rewrite bool_decide_eq_false_2 by done. cbn [negb andb].
  by destruct (anchor_start _ _).
Qed.

Lemma remade_table anchor outside tbl lg ch : asc (map ev_ID tbl) -> intact_any anchor outside tbl lg ch ->
  remade (mig_start anchor tbl) tbl = (mig_end anchor tbl lg ch, lg ++ link_rows (chain_start anchor tbl) ch).
Proof.
  intros Ha (Et & Hpos & _ & Hlg & Hch). unfold mig_end. set (s0 := mig_start anchor tbl).
  assert (remade s0 (lg ++ ch) = (mig_after (skip (Z.of_nat (length lg)) s0) ch, lg ++ link_rows (mg_prev s0) ch)) as H.
  { rewrite remade_app, remade_legacy by done. rewrite remade_chain; [done| | |by eapply linked_any_hashed|done].
    - rewrite Et, map_app in Ha. by apply asc_app in Ha as (_ & Ha & _).
    - rewrite Et in Hpos. by apply Forall_app in Hpos as [_ Hpos]. }
  by rewrite <- Et in H.
Qed.

Section theorems.
Context {E : Type} (outside : Z) (tbl : list AuditEventRow) (fuel : nat) (anchor : option RetentionAnchor).
Context (Ha : asc (map ev_ID tbl)) (Hout : 0 <= outside).
Context (Hfuel : (length tbl < fuel)%nat).

Lemma migrate_from_start (read_err write_err : Z -> option E) lg ch x : intact_any anchor outside tbl lg ch ->
  migrate_loop read_err write_err fuel anchor true 0 fresh_migration tbl = Ok x ->
  x = (mig_end anchor tbl lg ch, lg ++ link_rows (chain_start anchor tbl) ch).
Proof.
  intros Hi Hx. pose proof Hi as (_ & Hpos & _).
  apply (migrate_loop_remade read_err write_err anchor fuel true 0 fresh_migration [] tbl) in Hx; cbn [app] in *;
    [|done|intros e He; by apply elem_of_nil in He|by apply Forall_forall].
  rewrite loop_start_table, (remade_table anchor outside tbl lg ch) in Hx by done. exact Hx.
Qed.

Lemma migrate_outcome (read_err write_err : Z -> option E) count_err dryRun out tbl' :
  MigrateAuditChainEncoding read_err write_err count_err outside fuel dryRun anchor tbl = (out, tbl') ->
  match out with
  | Err _ => tbl' = tbl
  | Ok r => exists lg ch, intact_any anchor outside tbl lg ch /\ r = migration_result (mig_end anchor tbl lg ch) /\
              tbl' = (if dryRun then tbl else lg ++ link_rows (chain_start anchor tbl) ch)
  end.
Proof.
  unfold MigrateAuditChainEncoding. destruct (refuseIfAuditChainBroken _ _ _ _ _ _) as [[]|] eqn:Er; cbn [res_bind].
  2:{ by intros [= <- <-]. }
  apply preflight_sound in Er as (lg & ch & Hi); [|done|by apply asc_sorted|by apply NoDup_asc|done].
  destruct (migrate_loop _ _ _ _ _ _ _ _) as [[s t]|] eqn:El; [|by intros [= <- <-]].
  apply (migrate_from_start _ _ lg ch) in El; [|done]. injection El as -> ->. intros [= <- <-]. eauto 10.
Qed.

Lemma preflight_refuses : ~ (exists lg ch, intact_any anchor outside tbl lg ch) ->
  exists why, refuseIfAuditChainBroken (fun _ => @None E) None outside fuel anchor tbl = Err (MigRefused why).
Proof.
  intros Hno. destruct (refuseIfAuditChainBroken (fun _ => @None E) None outside fuel anchor tbl) as [[]|e] eqn:Er.
  { destruct Hno. eapply preflight_sound; [done|by apply asc_sorted|by apply NoDup_asc|done|exact Er]. }
  unfold refuseIfAuditChainBroken in Er.
  pose proof (@preflight_loop E tbl (asc_sorted _ Ha) (NoDup_asc _ Ha) fuel Hfuel anchor) as HL.
  destruct (page_rows _ _ _) as [s'|w].
  - destruct HL as (s'' & HL & _). rewrite HL in Er. unfold refuseIfAuditRowsOutsideWalk in Er.
    destruct (_ =? _); [done|]. injection Er as <-. eauto.
  - rewrite HL in Er. injection Er as <-. eauto.
Qed.

Lemma migrate_decides dryRun :
  (forall lg ch, intact_any anchor outside tbl lg ch ->
     (MigrateAuditChainEncoding (fun _ => @None E) (fun _ => None) None outside fuel dryRun anchor tbl).1 =
       Ok (migration_result (mig_end anchor tbl lg ch))) /\
  (~ (exists lg ch, intact_any anchor outside tbl lg ch) ->
     exists why, MigrateAuditChainEncoding (fun _ => @None E) (fun _ => None) None outside fuel dryRun anchor tbl =
       (Err (MigRefused why), tbl)).
Proof.
  unfold MigrateAuditChainEncoding. split.
  - intros lg ch Hi. erewrite preflight_complete; [|by apply asc_sorted|by apply NoDup_asc|done|done]. cbn [res_bind].
    destruct (@migrate_loop_total E anchor fuel true 0 fresh_migration [] tbl) as [x Hx]; cbn [app] in *; [done| | |done|].
    + intros e He. by apply elem_of_nil in He.
    + by apply Forall_forall, Hi.
    + rewrite Hx. apply (migrate_from_start _ _ lg ch) in Hx; [|done]. by subst x.
  - intros Hno. destruct (preflight_refuses Hno) as [why ->]. cbn [res_bind]. eauto.
Qed.
End theorems.

(** The anchor the caller signs after the operation
    ([internal/core/audit_chain_migrate.go]). *)
Definition resigned_anchor (anchor : option RetentionAnchor) (r : AuditChainMigrationResult) : option RetentionAnchor :=
  match anchor with
  | Some a => if negb (mr_AnchorRowID r =? 0)
              then Some (mkAnchor (mr_AnchorRowID r) (ra_PrevHash a) (mr_AnchorNewEntryHash r) (ra_PurgedEvents a)) else anchor
  | None => None
  end.

Section verifies.
Context {E : Type} (db : chainDB E) (fuel : nat) (anchor : option RetentionAnchor) (lg ch tbl : list AuditEventRow).
Context (Hi : intact_any anchor 0 tbl lg ch) (Ha : asc (map ev_ID tbl)).
Abbreviation tbl' := (lg ++ link_rows (chain_start anchor tbl) ch).
Abbreviation r := (migration_result (mig_end anchor tbl lg ch)).
Abbreviation start_online := (mkOnline auditGenesisHash 0 false 0 fresh_verif).
Context `{!ChainTable db tbl' 0} (Hfuel : (length tbl < fuel)%nat).

Lemma reencoded_ids : map ev_ID tbl' = map ev_ID tbl.
Proof. destruct Hi as (-> & _). by rewrite !map_app, reencode_ids. Qed.

Lemma reencoded_positive : Forall (fun e => 0 < ev_ID e) tbl'.
Proof.
  destruct Hi as (_ & Hpos & _). apply Forall_forall. intros e He. rewrite Forall_forall in Hpos.
  assert (ev_ID e ∈ map ev_ID tbl') as Hm by (apply elem_of_map; eauto). rewrite reencoded_ids in Hm.
  apply elem_of_map in Hm as (e' & -> & He'). auto.
Qed.

Lemma find_legacy l : Forall (fun e => ev_EntryHash e = []) l -> List.find hashed l = None.
Proof.
  induction l as [|e l IH]; intros H; [done|]. apply Forall_cons in H as [He H]. cbn [List.find]. unfold hashed at 1.
  rewrite bool_decide_eq_true_2 by done. cbn [negb]. auto.
Qed.

(** The first batch of the verifier accepts the re-encoded head. *)
Lemma reencoded_first : anchor = None \/ lg = [] -> tbl' <> [] ->
  exists s, online_first (resigned_anchor anchor r) tbl' start_online = Next s /\ on_prev s = chain_start anchor tbl /\
    (on_started s = true -> lg = []) /\ on_res s = fresh_verif /\ on_walked s = 0 /\ on_head s = 0.
Proof.
  intros Hor Hne. pose proof Hi as (Et & Hpos & _ & Hlg & Hch).
  destruct anchor as [a|] eqn:Ean.
  2:{ exists start_online. split_and!; try done. cbn [on_prev]. unfold chain_start, anchor_start. by case_match. }
  destruct Hor as [?|Elg]; [done|]. destruct ch as [|e l].
  { destruct Hne. by rewrite Elg. }
  rewrite Elg in Et. cbn [app] in Et. destruct Hch as (He & Hp & _ & _).
  assert (ev_ID e <> 0) as Hid by (rewrite Et in Hpos; apply Forall_cons in Hpos as [? _]; lia).
  assert (anchor_start (Some a) (page_of auditChainVerifyBatch 0 tbl) =
          if negb (bool_decide (ev_PrevHash e = auditGenesisHash)) then Some (ra_PrevHash a) else None) as Est.
  { unfold anchor_start, page_of, above. rewrite filter_all by (intros x Hx; apply Z.ltb_lt; rewrite Forall_forall in Hpos; auto).
    rewrite Et. destruct (Z.to_nat auditChainVerifyBatch) eqn:En; [by vm_compute in En|]. cbn [take List.find].
    unfold hashed. by rewrite bool_decide_eq_false_2. }
  assert (chain_start (Some a) tbl = if negb (bool_decide (ev_PrevHash e = auditGenesisHash)) then ra_PrevHash a else auditGenesisHash) as Ecs
    by (unfold chain_start; rewrite Est; by destruct (negb _)).
  rewrite Elg. unfold online_first, resigned_anchor, mig_end, mig_start, migration_result. rewrite Est, Ecs in *.
  cbn [app link_rows head mig_after mg_prev mg_applies mg_firstID mg_started mg_firstHash skip mr_AnchorRowID mr_AnchorNewEntryHash].
  rewrite Z.eqb_refl, (proj2 (Z.eqb_neq (ev_ID e) 0)) by done. cbn [ev_PrevHash with_hashes ev_ID].
  destruct (bool_decide_reflect (ev_PrevHash e = auditGenesisHash)) as [Eg|Ng]; cbn [negb is_none andb].
  { change (0 =? 0) with true. cbn [negb]. rewrite bool_decide_eq_true_2 by done. eexists. split; [done|]. done. }
  cbn [negb] in Hp. rewrite (proj2 (Z.eqb_neq (ev_ID e) 0)) by done. cbn [negb ra_RowID ra_PrevHash ra_EntryHash].
  rewrite (bool_decide_eq_false_2 (ra_PrevHash a = _)) by congruence.
  rewrite (bool_decide_eq_false_2 (_ = [])) by apply hex_sha256_nonempty. rewrite Z.eqb_refl, !bool_decide_eq_true_2 by done.
  cbn [negb orb]. eexists. split; [done|]. done.
Qed.

Lemma reencoded_held : tbl' <> [] -> g_held db 0 (last_id 0 tbl') = Ok (Z.of_nat (length tbl')).
Proof.
  intros Hne. eapply (held_from_start db tbl' 0); [by right|by rewrite bounded_zero|done].
Qed.

Lemma migrated_head : mr_HeadHash r = chain_head (chain_start anchor tbl) (link_rows (chain_start anchor tbl) ch) /\
  mr_HeadID r = last_id 0 ch /\ mr_RowsMigrated r = Z.of_nat (length ch) /\ mr_UnchainedRowsSkipped r = Z.of_nat (length lg).
Proof. clear -anchor. unfold migration_result, mig_end, mig_start. destruct ch as [|e l]; cbn [mig_after]; split_and!; cbn; lia || done. Qed.

Lemma migrated_verified : anchor = None \/ lg = [] ->
  exists v, VerifyAuditChain db fuel (resigned_anchor anchor r) = Ok v /\ v_Valid v = true /\
    v_ChainedEvents v = mr_RowsMigrated r /\ v_UnchainedEvents v = mr_UnchainedRowsSkipped r /\
    (ch <> [] -> v_HeadHash v = mr_HeadHash r /\ v_HeadID v = mr_HeadID r).
Proof.
  intros Hor. destruct migrated_head as (-> & -> & -> & ->). pose proof Hi as (Et & _ & _ & Hlg & _).
  assert (NoDup (map ev_ID tbl')) as Hnd by (rewrite reencoded_ids; by apply NoDup_asc).
  assert (length tbl' < fuel)%nat as Hf.
  { rewrite <- (length_map ev_ID tbl'), reencoded_ids, length_map. done. }
  assert (length (link_rows (chain_start anchor tbl) ch) = length ch) as Elen
    by (by rewrite <- (length_map ev_ID), reencode_ids, length_map).
  assert (last_id 0 (link_rows (chain_start anchor tbl) ch) = last_id 0 ch) as Elast.
  { assert (forall l, last_id 0 l = default 0 (last (map ev_ID l))) as Hl.
    { intros l. unfold last_id. destruct l as [|e l _] using rev_ind; [done|]. rewrite map_app. cbn [map]. by rewrite !last_snoc. }
    by rewrite !Hl, reencode_ids. }
  destruct (decide (tbl' = [])) as [Enil|Hne].
  { rewrite (VerifyAuditChain_rows db tbl' 0 Hnd) by done. unfold page_from, auditRowsOutsideWalk.
    rewrite Enil. cbn [above List.filter]. rewrite (bool_decide_eq_true_2 (@nil AuditEventRow = [])) by done.
    cbn [andb negb step_bind page_rows]. rewrite ct_held. apply app_nil in Enil as [El Er].
    assert (ch = []) as Ec by (by destruct ch). rewrite El, Er, Ec. cbn [app List.filter length lift res_bind].
    eexists. split; [reflexivity|]. split; [reflexivity|]. split; [reflexivity|]. split; [reflexivity|]. congruence. }
  unfold VerifyAuditChain.
  rewrite (segment_from_start db tbl' Hnd reencoded_positive fuel Hf); [|done|done|cbn [seg_ThroughID]; by rewrite bounded_zero].
  cbn [seg_ThroughID seg_Anchor]. rewrite bounded_zero. destruct (reencoded_first Hor Hne) as (s & -> & Hp & Hst & Hr & Hw & Hh).
  cbn [step_bind]. rewrite (online_rows_complete tbl' s lg (link_rows (chain_start anchor tbl) ch)).
  2:{ split; [done|]. split; [done|]. split; [done|]. rewrite Hp. apply reencode_linked. }
  rewrite (outside_agrees db (mkSegment 0 [] (resigned_anchor anchor r) 0 0) _ _ _ (reencoded_held Hne)).
  2:{ unfold online_after. cbn [on_walked seg_AfterID]. change (0 <? 0) with false. cbv iota. rewrite Hw. done. }
  cbn [lift]. eexists. split; [done|]. unfold online_after. cbn [v_Valid v_ChainedEvents v_UnchainedEvents v_HeadHash v_HeadID on_res on_prev on_head].
  rewrite Hr, Hp, Hh, Elen. by split_and!.
Qed.
End verifies.

(** * Re-running *)

Lemma find_app_legacy lg ch n : Forall (fun e => ev_EntryHash e = []) lg -> Forall (fun e => ev_EntryHash e <> []) ch ->
  List.find hashed (take n (lg ++ ch)) = head (take (n - length lg) ch).
Proof.
  intros Hl. revert n. induction lg as [|e lg IH]; intros n Hc; cbn [app length].
  { rewrite Nat.sub_0_r. destruct ch as [|e ch], n as [|n]; try done. cbn [take List.find head]. unfold hashed.
    apply Forall_cons in Hc as [He _]. by rewrite bool_decide_eq_false_2. }
  apply Forall_cons in Hl as [He Hl]. destruct n as [|n]; [done|]. cbn [take List.find Nat.sub]. unfold hashed at 1.
  rewrite bool_decide_eq_true_2 by done. cbn [negb]. by apply IH.
Qed.

Lemma reencode_hashed l : forall prev, Forall (fun e => ev_EntryHash e <> []) (link_rows prev l).
Proof. intros prev. eapply linked_nonempty, reencode_linked. Qed.

Lemma linked_to_any l : forall prev, linked prev l -> linked_any prev l.
Proof.
  induction l as [|e l IH]; intros prev; [done|]. intros H. pose proof (linked_nonempty _ _ H) as Hn.
  apply Forall_cons in Hn as [Hn _]. destruct H as (Hp & Hh & H). cbn [linked_any]. split_and!; [done|done| |auto].
  unfold auditEntryHashMatchesAnyKnownEncoding. rewrite computeAuditEntryHash_offline, bool_decide_eq_true_2 by done. done.
Qed.

Lemma reencode_fixed l : forall prev, linked prev l -> link_rows prev l = l.
Proof.
  induction l as [|e l IH]; intros prev H; [done|]. destruct H as (Hp & Hh & H). cbn [link_rows].
  subst prev. by rewrite Hh, (IH _ H), with_same_hashes.
Qed.

Lemma page_of_positive n tbl : Forall (fun e => 0 < ev_ID e) tbl -> page_of n 0 tbl = take (Z.to_nat n) tbl.
Proof.
  intros H. unfold page_of, above. rewrite filter_all; [done|]. intros e He. apply Z.ltb_lt. rewrite Forall_forall in H. auto.
Qed.

Lemma reencoded_start anchor outside tbl lg ch : intact_any anchor outside tbl lg ch ->
  anchor_start anchor (page_of auditChainVerifyBatch 0 (lg ++ link_rows (chain_start anchor tbl) ch)) =
  anchor_start anchor (page_of auditChainVerifyBatch 0 tbl).
Proof.
  intros Hi. pose proof Hi as (Et & Hpos & _ & Hlg & Hch). set (p := chain_start anchor tbl) in *.
  assert (Forall (fun e => 0 < ev_ID e) (lg ++ link_rows p ch)) as Hpos'.
  { apply Forall_forall. intros e He. assert (ev_ID e ∈ map ev_ID (lg ++ link_rows p ch)) as Hm by (apply elem_of_map; eauto).
    rewrite map_app, reencode_ids, <- map_app, <- Et in Hm. apply elem_of_map in Hm as (e' & -> & He').
    rewrite Forall_forall in Hpos. auto. }
  unfold anchor_start. rewrite !page_of_positive by done. rewrite Et. rewrite !find_app_legacy;
    [|done|by eapply linked_any_hashed|done|apply reencode_hashed].
  destruct ch as [|e l]; [done|]. cbn [link_rows]. destruct (_ - _)%nat; [done|]. cbn [take head].
  destruct anchor; [|done]. destruct Hch as (_ & -> & _). done.
Qed.

Lemma reencoded_intact anchor outside tbl lg ch : intact_any anchor outside tbl lg ch ->
  let tbl' := lg ++ link_rows (chain_start anchor tbl) ch in
  chain_start anchor tbl' = chain_start anchor tbl /\ intact_any anchor outside tbl' lg (link_rows (chain_start anchor tbl) ch).
Proof.
  intros Hi tbl'. assert (chain_start anchor tbl' = chain_start anchor tbl) as Ec
    by (unfold chain_start, tbl'; by erewrite reencoded_start).
  split; [done|]. pose proof Hi as (Et & Hpos & Ho & Hlg & Hch). split_and!; [done| |done|done|].
  - apply Forall_forall. intros e He. assert (ev_ID e ∈ map ev_ID tbl') as Hm by (apply elem_of_map; eauto).
    unfold tbl' in Hm. rewrite map_app, reencode_ids, <- map_app, <- Et in Hm. apply elem_of_map in Hm as (e' & -> & He').
    rewrite Forall_forall in Hpos. auto.
  - rewrite Ec. apply linked_to_any, reencode_linked.
Qed.

Lemma intact_any_det anchor outside tbl lg ch lg' ch' :
  intact_any anchor outside tbl lg ch -> intact_any anchor outside tbl lg' ch' -> lg = lg' /\ ch = ch'.
Proof.
  intros (Et & _ & _ & Hl & Hc%linked_any_hashed) (Et' & _ & _ & Hl' & Hc'%linked_any_hashed). rewrite Et in Et'. clear Et.
  revert lg' Hl' Et'. induction Hl as [|e lg He Hl IH]; intros [|e' lg'] Hl' Et'; cbn [app] in Et'; try done.
  - destruct ch; [done|]. injection Et' as -> ->. apply Forall_cons in Hl' as [? _], Hc as [? _]. done.
  - destruct ch'; [done|]. injection Et' as <- <-. apply Forall_cons in Hc' as [? _]. done.
  - injection Et' as <- Et'. apply Forall_cons in Hl' as [_ Hl']. destruct (IH lg' Hl' Et') as [-> ->]. done.
Qed.

(** * The theorems *)

(** The re-encoding never destroys evidence.  Whatever errors the database
    raises, the operation either fails and leaves the table as it was, or the
    chain was intact under a known encoding (every row in the walk, each row
    linked to the one before it and hashing to its recorded hash under one of
    the two encodings); then the table keeps its ids and every field a hash
    covers, and its chained rows are linked under the current encoding from the
    same start.  A dry run leaves the table as it was and reports the same
    result; with no database error an intact chain is always re-encoded and any
    other one refused. *)
Theorem MigrateAuditChainEncoding_safe {E} (read_err write_err : Z -> option E) count_err outside fuel dryRun anchor tbl out tbl' :
  asc (map ev_ID tbl) -> 0 <= outside -> (length tbl < fuel)%nat ->
  MigrateAuditChainEncoding read_err write_err count_err outside fuel dryRun anchor tbl = (out, tbl') ->
  match out with
  | Err _ => tbl' = tbl
  | Ok r => exists lg ch ch', intact_any anchor outside tbl lg ch /\ linked (chain_start anchor tbl) ch' /\
      r = migration_result (mig_end anchor tbl lg ch) /\
      map ev_ID tbl' = map ev_ID tbl /\ map content tbl' = map content tbl /\ tbl' = (if dryRun then tbl else lg ++ ch')
  end /\
  ((forall lg ch, intact_any anchor outside tbl lg ch ->
     (MigrateAuditChainEncoding (fun _ => @None E) (fun _ => None) None outside fuel dryRun anchor tbl).1 =
       Ok (migration_result (mig_end anchor tbl lg ch))) /\
   (~ (exists lg ch, intact_any anchor outside tbl lg ch) ->
     exists why, MigrateAuditChainEncoding (fun _ => @None E) (fun _ => None) None outside fuel dryRun anchor tbl =
       (Err (MigRefused why), tbl))).
Proof.
  intros Ha Ho Hf Hm. split; [|by apply migrate_decides].
  apply migrate_outcome in Hm; [|done..]. destruct out as [r|]; [|done].
  destruct Hm as (lg & ch & Hi & -> & ->). exists lg, ch, (link_rows (chain_start anchor tbl) ch).
  pose proof Hi as (Et & _). split_and!; [done|apply reencode_linked|done|..|done]; destruct dryRun; try done.
  - by rewrite map_app, reencode_ids, <- map_app, <- Et.
  - by rewrite map_app, reencode_content, <- map_app, <- Et.
Qed.

(** A completed re-encoding is what the verifier expects, and re-running it
    is harmless.  If the operation succeeds on a table whose chain starts at
    genesis or whose anchored row is its first row, the server's verifier
    accepts the new table under the anchor the caller then signs, with the
    counts and the head the operation reported; and running the operation again
    with the anchor not yet re-signed reports the same and changes nothing. *)
Theorem MigrateAuditChainEncoding_verifies {E F} (read_err write_err : Z -> option E) count_err fuel anchor tbl r tbl' (db : chainDB F) :
  asc (map ev_ID tbl) -> (length tbl < fuel)%nat ->
  MigrateAuditChainEncoding read_err write_err count_err 0 fuel false anchor tbl = (Ok r, tbl') ->
  anchor = None \/ (forall e, head tbl = Some e -> ev_EntryHash e <> []) -> ChainTable db tbl' 0 ->
  (exists v, VerifyAuditChain db fuel (resigned_anchor anchor r) = Ok v /\ v_Valid v = true /\
    v_ChainedEvents v = mr_RowsMigrated r /\ v_UnchainedEvents v = mr_UnchainedRowsSkipped r /\
    (0 < mr_RowsMigrated r -> v_HeadHash v = mr_HeadHash r /\ v_HeadID v = mr_HeadID r)) /\
  (exists r', MigrateAuditChainEncoding (fun _ => @None E) (fun _ => None) None 0 fuel false anchor tbl' = (Ok r', tbl') /\
    mr_RowsMigrated r' = mr_RowsMigrated r /\ mr_HeadHash r' = mr_HeadHash r).
Proof.
  intros Ha Hf Hm Hor HT. apply migrate_outcome in Hm as (lg & ch & Hi & -> & ->); [|done..].
  pose proof Hi as (Et & _ & _ & Hlg & _). split.
  - destruct (migrated_verified db fuel anchor lg ch tbl Hi Ha Hf) as (v & Hv & Hval & Hc & Hu & Hh).
    { destruct Hor as [?|Hhd]; [by left|right]. destruct lg as [|e lg]; [done|]. apply Forall_cons in Hlg as [He _].
      specialize (Hhd e). rewrite Et in Hhd. by specialize (Hhd eq_refl). }
    exists v. split_and!; try done; destruct (migrated_head anchor lg ch tbl) as (_ & _ & Hr & _);
      rewrite Hr; intros Hpos; apply Hh; by destruct ch.
  - set (tbl' := lg ++ link_rows (chain_start anchor tbl) ch) in *.
    destruct (reencoded_intact anchor 0 tbl lg ch Hi) as [Ec Hi']. fold tbl' in Ec, Hi'.
    assert (map ev_ID tbl' = map ev_ID tbl) as Eid by (unfold tbl'; by rewrite map_app, reencode_ids, <- map_app, <- Et).
    assert (asc (map ev_ID tbl')) as Ha' by (by rewrite Eid).
    assert (length tbl' < fuel)%nat as Hf' by (by rewrite <- (length_map ev_ID), Eid, length_map).
    destruct (@migrate_decides E 0 tbl' fuel anchor Ha' ltac:(lia) Hf' false) as [Hd _]. specialize (Hd _ _ Hi').
    destruct (MigrateAuditChainEncoding _ _ _ _ _ _ _ _) as [out t] eqn:Em. cbn [fst] in Hd. subst out.
    apply migrate_outcome in Em as (lg2 & ch2 & Hi2 & Er & Et2); [|done..].
    destruct (intact_any_det _ _ _ _ _ _ _ Hi2 Hi') as [-> ->].
    rewrite Ec, (reencode_fixed _ _ (reencode_linked _ _)) in Et2. fold tbl' in Et2. subst t. eexists. split; [done|].
    destruct (migrated_head anchor lg ch tbl) as (-> & _ & -> & _).
    destruct (migrated_head anchor lg (link_rows (chain_start anchor tbl) ch) tbl') as (-> & _ & -> & _).
    rewrite Ec, (reencode_fixed _ _ (reencode_linked _ _)). split; [|done]. by rewrite <- (length_map ev_ID), reencode_ids, length_map.
Qed.

(** * A purged chain of the old encoding *)

Fixpoint old_rows (prev : bytes) (l : list AuditEventRow) : list AuditEventRow :=
  match l with
  | [] => []
  | e :: l => let h := ComputeEntryHashPre1452 e prev in with_hashes e prev h :: old_rows h l
  end.

Definition old_start : bytes := Eval vm_compute in hex_encode (sha256 (go "purged")).
Definition old_table : list AuditEventRow :=
  Eval vm_compute in old_rows old_start
    [ex_event 2 (go "secret.create"); ex_event 5 (go "secret.read"); ex_event 6 (go "user.logout")].
Definition old_anchor : option RetentionAnchor := Some (mkAnchor 2 old_start (ev_EntryHash (nth 0 old_table sample_row)) 1).
Definition no_error : Z -> option unit := fun _ => None.
Definition old_migrated := Eval vm_compute in MigrateAuditChainEncoding no_error no_error None 0 4 false old_anchor old_table.

Lemma old_migrated_eq : MigrateAuditChainEncoding no_error no_error None 0 4 false old_anchor old_table = old_migrated.
Proof. vm_compute. reflexivity. Qed.

Lemma old_asc : asc (map ev_ID old_table).
Proof. repeat (apply asc_cons; split; [by apply Forall_forall; repeat constructor|]). intros i j x y Hx. by destruct i. Qed.

(** A tampered copy: the middle row's description changed. *)
Definition tampered_table : list AuditEventRow :=
  Eval vm_compute in imap (fun i e => if Nat.eqb i 1 then with_hashes (ex_event 5 (go "user.login")) (ev_PrevHash e) (ev_EntryHash e) else e) old_table.

Lemma MigrateAuditChainEncoding_safe_witness :
  (exists lg ch ch', intact_any old_anchor 0 old_table lg ch /\ linked (chain_start old_anchor old_table) ch' /\
    map content old_migrated.2 = map content old_table /\ old_migrated.2 = lg ++ ch') /\
  MigrateAuditChainEncoding no_error no_error None 0 4 false old_anchor tampered_table = (Err (MigRefused (RefModified 5)), tampered_table).
Proof.
  split; [|vm_compute; reflexivity].
  destruct (MigrateAuditChainEncoding_safe no_error no_error None 0 4 false old_anchor old_table old_migrated.1 old_migrated.2)
    as [(lg & ch & ch' & H1 & H2 & _ & _ & H3 & H4) _];
    [exact old_asc|lia|vm_compute; lia|rewrite old_migrated_eq; reflexivity|].
  exists lg, ch, ch'. split; [exact H1|]. split; [exact H2|]. split; [exact H3|exact H4].
Defined.

Lemma MigrateAuditChainEncoding_verifies_witness :
  exists r, old_migrated.1 = Ok r /\
  (exists v, VerifyAuditChain (rows_chainDB old_migrated.2 0) 4 (resigned_anchor old_anchor r) = Ok v /\ v_Valid v = true /\
    v_ChainedEvents v = 3).
Proof.
  destruct old_migrated.1 as [r|] eqn:Er; [|vm_compute in Er; discriminate Er]. exists r. split; [reflexivity|].
  destruct (MigrateAuditChainEncoding_verifies no_error no_error None 4 old_anchor old_table r old_migrated.2 (rows_chainDB old_migrated.2 0))
    as [(v & Hv & Hval & Hc & _) _].
  - exact old_asc.
  - vm_compute. lia.
  - rewrite old_migrated_eq. rewrite <- Er. reflexivity.
  - right. intros e He. injection He as <-. vm_compute. discriminate.
  - apply rows_ChainTable; [apply asc_sorted; exact old_asc|repeat constructor; vm_compute; discriminate|lia].
  - exists v. split; [exact Hv|]. split; [exact Hval|]. rewrite Hc. vm_compute in Er. injection Er as <-. reflexivity.
Defined.
