(* ===== verification/AuditFlusher.v ===== *)
(** The hand-over of submissions to the batching flusher:
    [submitAuditBatchItem] and [runAuditFlusher] of
    [internal/storage/store/local_audit_chain.go].

    Submitters register under the mutex, release it, and only then send on the
    channel they read; the flusher goroutine is started on demand and exits when
    idle.  The state is the mutex-guarded fields of [auditFlusherState], every
    channel ever made, the program counter of every submitter and of every
    flusher goroutine; a critical section is one step.  The model is the flusher
    without the PostgreSQL batch pipeline ([newAuditBatchPipeline] returned nil).

    The theorems: every submission that registered can still reach a live
    flusher, items are committed in the order they were sent and each at most
    once, at most one flusher runs, the flusher alone drains whatever was sent;
    and without the [pending] count the idle exit strands a submission. *)
From Stdlib Require Import ZArith Lia.
From stdpp Require Import base numbers tactics relations sets list.
From S2P Require Import Prelude.

(** A submitter: about to take the lock; registered, with the channel it read,
    about to send; its deadline passed before it could send; sent, waiting for
    its result; returned. *)
Inductive submitter := SStart | SSend (ch : nat) | SGiveUp | SWait | SReturned (committed : bool).

(** A flusher goroutine: waiting for an item; its idle timer fired; collecting a
    batch; committing it; gone. *)
Inductive flusher := FWait | FTimeout | FFill (batch : list nat) | FCommit (batch : list nat) | FExit.

#[export] Instance flusher_eq_dec : EqDecision flusher.
Proof. solve_decision. Defined.

(** [auditFlusherState] and the goroutines.  [sent] and [delivered] record, in
    order, what was put on a channel and what was committed. *)
Record auditFlusherState := mkFlusher {
  af_running : bool; af_queue : nat; af_pending : Z;
  chans : nat -> list nat; submitters : list submitter; flushers : list flusher;
  sent : list nat; delivered : list nat }.

Definition set_chan (f : nat -> list nat) (ch : nat) (l : list nat) : nat -> list nat :=
  fun c => if Nat.eqb c ch then l else f c.

Section machine.
(** [auditQueueCapacity], [auditFlusherMaxBatch]; is a linger window set; does
    the idle exit look at [pending]. *)
Context (capacity maxBatch : nat) (linger check_pending : bool).

Abbreviation state := auditFlusherState.

Definition with_sub (s : state) (i : nat) (p : submitter) : state :=
  mkFlusher (af_running s) (af_queue s) (af_pending s) (chans s) (<[i := p]> (submitters s)) (flushers s) (sent s) (delivered s).
Definition with_fl (s : state) (k : nat) (f : flusher) : state :=
  mkFlusher (af_running s) (af_queue s) (af_pending s) (chans s) (submitters s) (<[k := f]> (flushers s)) (sent s) (delivered s).
Definition add_pending (s : state) (d : Z) : state :=
  mkFlusher (af_running s) (af_queue s) (af_pending s + d) (chans s) (submitters s) (flushers s) (sent s) (delivered s).

(** Start a flusher on a fresh channel if none is running. *)
Definition ensure_running (s : state) : state :=
  if af_running s then s
  else mkFlusher true (S (af_queue s)) (af_pending s) (chans s) (submitters s) (flushers s ++ [FWait]) (sent s) (delivered s).

(** The flusher takes the oldest item of the current channel. *)
Definition receive (s : state) (x : nat) (rest : list nat) (k : nat) (f : flusher) : state :=
  mkFlusher (af_running s) (af_queue s) (af_pending s) (set_chan (chans s) (af_queue s) rest) (submitters s)
    (<[k := f]> (flushers s)) (sent s) (delivered s).

(** One step of one submitter. *)
Inductive submit_step (i : nat) : state -> state -> Prop :=
| st_register s : submitters s !! i = Some SStart ->
    submit_step i s (add_pending (with_sub (ensure_running s) i (SSend (af_queue (ensure_running s)))) 1)
| st_send s ch : submitters s !! i = Some (SSend ch) -> (length (chans s ch) < capacity)%nat ->
    submit_step i s (mkFlusher (af_running s) (af_queue s) (af_pending s) (set_chan (chans s) ch (chans s ch ++ [i]))
                       (<[i := SWait]> (submitters s)) (flushers s) (sent s ++ [i]) (delivered s))
| st_send_deadline s ch : submitters s !! i = Some (SSend ch) -> submit_step i s (with_sub s i SGiveUp)
| st_unregister s : submitters s !! i = Some SGiveUp -> submit_step i s (add_pending (with_sub s i (SReturned false)) (-1))
| st_result s : submitters s !! i = Some SWait -> i ∈ delivered s -> submit_step i s (with_sub s i (SReturned true))
| st_wait_deadline s : submitters s !! i = Some SWait -> submit_step i s (with_sub s i (SReturned false)).

(** One step of one flusher goroutine. *)
Inductive flush_step (k : nat) : state -> state -> Prop :=
| fl_take s x rest : flushers s !! k = Some FWait -> chans s (af_queue s) = x :: rest ->
    flush_step k s (receive s x rest k (FFill [x]))
| fl_idle s : flushers s !! k = Some FWait -> flush_step k s (with_fl s k FTimeout)
| fl_late s x rest : flushers s !! k = Some FTimeout -> chans s (af_queue s) = x :: rest ->
    flush_step k s (receive s x rest k (FFill [x]))
| fl_exit s : flushers s !! k = Some FTimeout -> chans s (af_queue s) = [] -> (check_pending = true -> af_pending s = 0) ->
    flush_step k s (mkFlusher false (af_queue s) (af_pending s) (chans s) (submitters s) (<[k := FExit]> (flushers s))
                      (sent s) (delivered s))
| fl_stay s : flushers s !! k = Some FTimeout -> chans s (af_queue s) = [] -> check_pending = true -> af_pending s <> 0 ->
    flush_step k s (with_fl s k FWait)
| fl_more s b x rest : flushers s !! k = Some (FFill b) -> (length b < maxBatch)%nat -> chans s (af_queue s) = x :: rest ->
    flush_step k s (receive s x rest k (FFill (b ++ [x])))
| fl_full s b : flushers s !! k = Some (FFill b) ->
    (length b < maxBatch)%nat -> linger = true \/ chans s (af_queue s) = [] ->
    flush_step k s (add_pending (with_fl s k (FCommit b)) (- Z.of_nat (length b)))
| fl_max s b : flushers s !! k = Some (FFill b) -> (maxBatch <= length b)%nat ->
    flush_step k s (add_pending (with_fl s k (FCommit b)) (- Z.of_nat (length b)))
| fl_commit s b : flushers s !! k = Some (FCommit b) ->
    flush_step k s (mkFlusher (af_running s) (af_queue s) (af_pending s) (chans s) (submitters s) (<[k := FWait]> (flushers s))
                      (sent s) (delivered s ++ b)).

Definition step_any (s s' : state) : Prop := exists n, submit_step n s s' \/ flush_step n s s'.

(** No flusher yet; any number of goroutines about to submit. *)
Definition initial (n : nat) : state := mkFlusher false 0 0 (fun _ => []) (replicate n SStart) [] [] [].

Definition reachable (s : state) : Prop := exists n, rtc step_any (initial n) s.

(** * The invariant *)

Definition registered (p : submitter) : Z := match p with SSend _ | SGiveUp => 1 | _ => 0 end.
Definition collecting (f : flusher) : list nat := match f with FFill b => b | _ => [] end.
Definition in_hand (f : flusher) : list nat := match f with FFill b | FCommit b => b | _ => [] end.
Definition alive (l : list flusher) : list flusher := List.filter (fun f => negb (bool_decide (f = FExit))) l.

Fixpoint registered_count (l : list submitter) : Z :=
  match l with [] => 0 | p :: l => registered p + registered_count l end.

(** has sent, and is waiting or has given up waiting *)
Definition has_sent (p : submitter) : bool := match p with SWait | SReturned _ => true | _ => false end.

Record flusher_inv (s : state) : Prop := mk_inv {
  (** one live flusher exactly while [running] *)
  fi_alive : if af_running s then exists f, alive (flushers s) = [f] else alive (flushers s) = [];
  (** a registered send holds the channel the live flusher reads *)
  fi_send : forall i ch, submitters s !! i = Some (SSend ch) -> ch = af_queue s /\ af_running s = true;
  (** nothing is in any other channel *)
  fi_chans : forall ch, ch <> af_queue s \/ af_running s = false -> chans s ch = [];
  fi_pending : af_pending s = registered_count (submitters s) + Z.of_nat (length (chans s (af_queue s))) +
                 Z.of_nat (length (concat (map collecting (alive (flushers s)))));
  (** everything sent is committed, in a batch, or queued, in that order *)
  fi_order : sent s = delivered s ++ concat (map in_hand (alive (flushers s))) ++ chans s (af_queue s);
  fi_sent : forall i, i ∈ sent s -> exists p, submitters s !! i = Some p /\ has_sent p = true;
  fi_once : NoDup (sent s);
  fi_wait : forall i, submitters s !! i = Some SWait -> i ∈ sent s }.

(** * It holds in every reachable state *)

Lemma registered_count_insert l i p q : l !! i = Some p ->
  registered_count (<[i := q]> l) = registered_count l - registered p + registered q.
Proof.
  revert i; induction l as [|x l IH]; intros [|i] H; try done.
  - injection H as ->. cbn [insert list_insert registered_count]. lia.
  - change (<[S i:=q]> (x :: l)) with (x :: <[i:=q]> l). cbn [registered_count]. rewrite (IH i H). lia.
Qed.

Lemma registered_count_nonneg l : 0 <= registered_count l.
Proof. induction l as [|[] l IH]; cbn; lia. Qed.

Lemma registered_count_zero l i p : registered_count l = 0 -> l !! i = Some p -> registered p = 0.
Proof.
  revert i; induction l as [|x l IH]; intros [|i] H Hi; try done; cbn [registered_count] in H;
    pose proof (registered_count_nonneg l); assert (0 <= registered x) by (destruct x; cbn; lia).
  - injection Hi as ->. lia.
  - apply (IH i); [lia|done].
Qed.

Lemma alive_cons x l : alive (x :: l) = if bool_decide (x = FExit) then alive l else x :: alive l.
Proof. unfold alive. cbn [List.filter]. by destruct (bool_decide (x = FExit)). Qed.

Lemma elem_of_alive l k f : l !! k = Some f -> f <> FExit -> f ∈ alive l.
Proof.
  intros Hk Hf. apply list_elem_of_In, filter_In. split; [apply list_elem_of_In; by eapply list_elem_of_lookup_2|].
  by rewrite bool_decide_eq_false_2.
Qed.

(** A goroutine that is not gone is the live one; it moves on, or goes. *)
Lemma alive_insert l k f g : l !! k = Some f -> f <> FExit -> (exists f0, alive l = [f0]) ->
  alive l = [f] /\ alive (<[k := g]> l) = (if bool_decide (g = FExit) then [] else [g]).
Proof.
  intros Hk Hf [f0 H0]. revert k f0 Hk H0. induction l as [|x l IH]; intros [|k] f0 Hk H0; try done; rewrite alive_cons in H0.
  - injection Hk as ->. change (<[0%nat:=g]> (f :: l)) with (g :: l). rewrite !alive_cons.
    rewrite (bool_decide_eq_false_2 (f = FExit)) in * by done. injection H0 as -> ->. done.
  - change (<[S k:=g]> (x :: l)) with (x :: <[k:=g]> l). change (l !! k = Some f) in Hk. rewrite !alive_cons.
    destruct (bool_decide (x = FExit)); [by eapply IH|].
    injection H0 as -> H0. pose proof (elem_of_alive l k f Hk Hf) as Hin. rewrite H0 in Hin. by apply elem_of_nil in Hin.
Qed.

Lemma alive_running s k f : flusher_inv s -> flushers s !! k = Some f -> f <> FExit -> af_running s = true /\ exists f0, alive (flushers s) = [f0].
Proof.
  intros H Hk Hf. pose proof (fi_alive _ H) as Ha. destruct (af_running s); [done|].
  pose proof (elem_of_alive _ k f Hk Hf) as Hin. rewrite Ha in Hin. by apply elem_of_nil in Hin.
Qed.

Lemma set_chan_same f ch l : set_chan f ch l ch = l.
Proof. unfold set_chan. by rewrite Nat.eqb_refl. Qed.
Lemma set_chan_other f ch l c : c <> ch -> set_chan f ch l c = f c.
Proof. unfold set_chan. intros. by rewrite (proj2 (Nat.eqb_neq _ _)). Qed.

Ltac af_proj := cbn [af_running af_queue af_pending chans submitters flushers sent delivered add_pending with_sub with_fl receive] in *.

(** Starting a flusher keeps the invariant. *)
Lemma ensure_running_inv s : flusher_inv s -> flusher_inv (ensure_running s) /\ af_running (ensure_running s) = true /\
  submitters (ensure_running s) = submitters s.
Proof.
  intros H. unfold ensure_running. destruct (af_running s) eqn:Er; [done|]. split; [|done].
  destruct H as [Ha Hs Hc Hp Ho Hse Hon Hw]. rewrite Er in *.
  assert (forall ch, chans s ch = []) as He by (intros ch; apply Hc; by right).
  assert (alive (flushers s ++ [FWait]) = [FWait]) as Ea by (unfold alive in *; by rewrite List.filter_app, Ha).
  constructor; af_proj; rewrite ?Ea; try done.
  - eauto.
  - intros i ch Hi. by destruct (Hs i ch Hi).
  - rewrite Ha in Hp. rewrite He in *. cbn in *. lia.
  - rewrite Ha in Ho. rewrite He in *. done.
Qed.

(** A submitter moves between states that hold no send. *)
Lemma move_sub s i p q d : flusher_inv s -> submitters s !! i = Some p ->
  (forall ch, q = SSend ch -> ch = af_queue s /\ af_running s = true) -> d = registered q - registered p ->
  (has_sent p = true -> has_sent q = true) -> (q = SWait -> p = SWait) ->
  flusher_inv (add_pending (with_sub s i q) d).
Proof.
  intros [Ha Hs Hc Hp Ho Hse Hon Hw] Hi Hq -> Hsent Hwq.
  assert (i < length (submitters s))%nat as Hlt by (by eapply lookup_lt_Some).
  constructor; af_proj; try done.
  - intros j ch Hj. destruct (decide (j = i)) as [->|]; [|rewrite list_lookup_insert_ne in Hj by done; eauto].
    rewrite list_lookup_insert_eq in Hj by done. injection Hj as ->. auto.
  - rewrite (registered_count_insert _ _ p) by done. lia.
  - intros j Hj. destruct (decide (j = i)) as [->|]; [|rewrite list_lookup_insert_ne by done; eauto].
    rewrite list_lookup_insert_eq by done. destruct (Hse i Hj) as (p' & Hp' & ?). simplify_eq. eauto.
  - intros j Hj. destruct (decide (j = i)) as [->|]; [|rewrite list_lookup_insert_ne in Hj by done; eauto].
    rewrite list_lookup_insert_eq in Hj by done. injection Hj as ->. apply Hw. by rewrite (Hwq eq_refl) in Hi.
Qed.

Lemma add_pending_zero s : add_pending s 0 = s.
Proof. destruct s. unfold add_pending. cbn. by rewrite Z.add_0_r. Qed.

Lemma submit_preserves i s s' : flusher_inv s -> submit_step i s s' -> flusher_inv s'.
Proof.
  intros H Hst. destruct Hst as [s Hi|s ch Hi Hcap|s ch Hi|s Hi|s Hi Hd|s Hi].
  - destruct (ensure_running_inv s H) as (H' & Hr & Hsub). eapply move_sub; [done|by rewrite Hsub|..]; try done.
    by intros ? [= <-].
  - destruct H as [Ha Hs Hc Hp Ho Hse Hon Hw]. destruct (Hs i ch Hi) as [-> Hr].
    assert (i < length (submitters s))%nat as Hlt by (by eapply lookup_lt_Some).
    assert (i ∉ sent s) as Hni by (intros Hin; destruct (Hse i Hin) as (p & Hp' & Hhs); by simplify_eq).
    constructor; af_proj; try done.
    + intros j ch Hj. apply (Hs j). destruct (decide (j = i)) as [->|]; [|by rewrite list_lookup_insert_ne in Hj].
      by rewrite list_lookup_insert_eq in Hj.
    + intros ch [Hne|?]; [rewrite set_chan_other by done; apply Hc; by left|congruence].
    + rewrite (registered_count_insert _ _ _ _ Hi), set_chan_same, length_app. cbn. lia.
    + rewrite set_chan_same, Ho. by rewrite <- !app_assoc.
    + intros j [Hj|Hj]%elem_of_app.
      * destruct (decide (j = i)) as [->|]; [done|]. rewrite list_lookup_insert_ne by done. auto.
      * apply list_elem_of_singleton in Hj as ->. rewrite list_lookup_insert_eq by done. eauto.
    + apply NoDup_app. split_and!; [done| |apply NoDup_singleton]. intros x Hx ->%list_elem_of_singleton. done.
    + intros j Hj. apply elem_of_app. destruct (decide (j = i)) as [->|]; [right; left|left].
      rewrite list_lookup_insert_ne in Hj by done. auto.
  - rewrite <- (add_pending_zero (with_sub _ _ _)). by eapply move_sub.
  - by eapply move_sub.
  - rewrite <- (add_pending_zero (with_sub _ _ _)). by eapply move_sub.
  - rewrite <- (add_pending_zero (with_sub _ _ _)). by eapply move_sub.
Qed.

(** The live flusher moves, holding the same items. *)
Lemma move_flusher s k f g d : flusher_inv s -> flushers s !! k = Some f -> f <> FExit -> g <> FExit ->
  in_hand g = in_hand f -> d = Z.of_nat (length (collecting g)) - Z.of_nat (length (collecting f)) ->
  flusher_inv (add_pending (with_fl s k g) d).
Proof.
  intros H Hk Hf Hg Hh ->. destruct (alive_running s k f H Hk Hf) as [Hr Hal].
  destruct (alive_insert _ _ _ g Hk Hf Hal) as [Ea Eg]. rewrite (bool_decide_eq_false_2 (g = FExit)) in Eg by done.
  destruct H as [Ha Hs Hc Hp Ho Hse Hon Hw]. rewrite Ea in *. constructor; af_proj; rewrite ?Eg; try done.
  - rewrite Hr. eauto.
  - cbn in *. rewrite app_nil_r in *. lia.
  - cbn in *. by rewrite Hh.
Qed.

(** The live flusher takes an item into its batch. *)
Lemma take_item s k f b x rest : flusher_inv s -> flushers s !! k = Some f -> f <> FExit ->
  in_hand f = b -> collecting f = b -> chans s (af_queue s) = x :: rest ->
  flusher_inv (receive s x rest k (FFill (b ++ [x]))).
Proof.
  intros H Hk Hf Hh Hcf Hq. destruct (alive_running s k f H Hk Hf) as [Hr Hal].
  destruct (alive_insert _ _ _ (FFill (b ++ [x])) Hk Hf Hal) as [Ea Eg].
  rewrite (bool_decide_eq_false_2 (FFill (b ++ [x]) = FExit)) in Eg by done.
  destruct H as [Ha Hs Hc Hp Ho Hse Hon Hw]. rewrite Ea in *. constructor; af_proj; rewrite ?Eg, ?set_chan_same; try done.
  - rewrite Hr. eauto.
  - intros ch [Hne|?]; [rewrite set_chan_other by done; apply Hc; by left|congruence].
  - rewrite Hq in Hp. cbn in *. rewrite app_nil_r in *. rewrite Hcf in Hp. rewrite length_app. cbn in *. lia.
  - rewrite Hq in Ho. cbn in *. rewrite app_nil_r in *. rewrite Hh in Ho. by rewrite Ho, <- app_assoc.
Qed.

Lemma flush_preserves k s s' : check_pending = true -> flusher_inv s -> flush_step k s s' -> flusher_inv s'.
Proof.
  intros Hck H Hst. destruct Hst as [s x rest Hk Hq|s Hk|s x rest Hk Hq|s Hk Hq Hz|s Hk Hq _ Hz|s b x rest Hk Hl Hq|s b Hk Hl Hq|s b Hk Hl|s b Hk].
  - by apply (take_item s k FWait []).
  - rewrite <- (add_pending_zero (with_fl _ _ _)). by eapply move_flusher.
  - by apply (take_item s k FTimeout []).
  - destruct (alive_running s k _ H Hk ltac:(done)) as [Hr Hal]. destruct (alive_insert _ _ _ FExit Hk ltac:(done) Hal) as [Ea Eg].
    rewrite bool_decide_eq_true_2 in Eg by done. destruct H as [Ha Hs Hc Hp Ho Hse Hon Hw]. rewrite Ea, Hq, (Hz Hck) in *.
    cbn in Hp. assert (registered_count (submitters s) = 0) as Hreg by lia.
    constructor; af_proj; rewrite ?Eg; try done.
    + intros i ch Hi. by pose proof (registered_count_zero _ _ _ Hreg Hi).
    + intros ch _. destruct (decide (ch = af_queue s)) as [->|]; [done|]. apply Hc. by left.
    + rewrite Hq. cbn. lia.
    + by rewrite Hq.
  - rewrite <- (add_pending_zero (with_fl _ _ _)). by eapply move_flusher.
  - by eapply take_item.
  - eapply move_flusher; [done|done|done|done|done|]. cbn. lia.
  - eapply move_flusher; [done|done|done|done|done|]. cbn. lia.
  - destruct (alive_running s k _ H Hk ltac:(done)) as [Hr Hal]. destruct (alive_insert _ _ _ FWait Hk ltac:(done) Hal) as [Ea Eg].
    rewrite (bool_decide_eq_false_2 (FWait = FExit)) in Eg by done. destruct H as [Ha Hs Hc Hp Ho Hse Hon Hw]. rewrite Ea in *.
    constructor; af_proj; rewrite ?Eg; try done.
    + rewrite Hr. eauto.
    + cbn in *. rewrite app_nil_r in Ho. by rewrite Ho, <- app_assoc.
Qed.

Lemma initial_inv n : flusher_inv (initial n).
Proof.
  assert (forall i p, replicate n SStart !! i = Some p -> p = SStart) as Hr by (intros i p [? _]%lookup_replicate; done).
  constructor; cbn; try done; try (intros i; set_solver).
  - assert (registered_count (replicate n SStart) = 0) as ->; [|done]. clear. by induction n.
  - apply NoDup_nil_2.
Qed.

Lemma reachable_inv s : check_pending = true -> reachable s -> flusher_inv s.
Proof.
  intros Hck [n Hr]. assert (forall a b, rtc step_any a b -> flusher_inv a -> flusher_inv b) as Hind.
  { intros a b. induction 1 as [|a b c [m [Hab|Hab]] _ IH]; [done| |]; intros Ha; apply IH;
      [by eapply submit_preserves|by eapply flush_preserves]. }
  eapply Hind; [done|apply initial_inv].
Qed.
End machine.

(** * The theorems *)

Section drain.
Context (capacity maxBatch : nat) (linger : bool).
Abbreviation flushes := (fun s s' => exists k, flush_step maxBatch linger true k s s').

Definition stage (f : flusher) : nat := match f with FFill _ => 2 | FCommit _ => 1 | _ => 0 end.
Definition work (s : auditFlusherState) : nat :=
  3 * length (chans s (af_queue s)) + match alive (flushers s) with f :: _ => stage f | [] => 0 end.

Lemma alive_member l f : alive l = [f] -> exists k, l !! k = Some f /\ f <> FExit.
Proof.
  intros Ha. assert (f ∈ alive l) as Hin by (rewrite Ha; left). unfold alive in Hin. apply list_elem_of_In, filter_In in Hin as [Hin Hf].
  apply list_elem_of_In in Hin. apply list_elem_of_lookup in Hin as [k Hk]. exists k. split; [done|].
  by case_bool_decide.
Qed.

(** A live flusher with something to do does it. *)
Lemma work_step s : flusher_inv s -> (0 < work s)%nat ->
  exists s', flushes s s' /\ flusher_inv s' /\ submitters s' = submitters s /\ sent s' = sent s /\ (work s' < work s)%nat.
Proof.
  intros H Hw. unfold work in Hw. pose proof (fi_alive _ H) as Ha. destruct (af_running s) eqn:Er.
  2:{ rewrite (fi_chans _ H _ (or_intror Er)), Ha in Hw. cbn in Hw. lia. }
  destruct Ha as [f Ha]. destruct (alive_member _ _ Ha) as (k & Hk & Hf). rewrite Ha in Hw.
  assert (forall g s', flush_step maxBatch linger true k s s' -> flushers s' = <[k := g]> (flushers s) -> g <> FExit ->
    submitters s' = submitters s -> sent s' = sent s ->
    (3 * length (chans s' (af_queue s')) + stage g < 3 * length (chans s (af_queue s)) + stage f)%nat ->
    exists s', flushes s s' /\ flusher_inv s' /\ submitters s' = submitters s /\ sent s' = sent s /\ (work s' < work s)%nat) as Hdo.
  { intros g s' Hst Hfl Hg Hsub Hsent Hlt. exists s'. split; [by exists k|]. split; [eapply flush_preserves; [|exact H|exact Hst]; done|].
    split; [done|]. split; [done|]. destruct (alive_insert _ _ _ g Hk Hf (ex_intro _ f Ha)) as [_ Eg].
    unfold work. rewrite Hfl, Eg, Ha, bool_decide_eq_false_2 by done. done. }
  destruct f as [| |b|b|]; [| | | |done]; cbn [stage] in *.
  - destruct (chans s (af_queue s)) as [|x rest] eqn:Eq; [cbn in Hw; lia|].
    eapply (Hdo (FFill [x])); [by eapply fl_take|done..|]. cbn. rewrite set_chan_same. lia.
  - destruct (chans s (af_queue s)) as [|x rest] eqn:Eq; [cbn in Hw; lia|].
    eapply (Hdo (FFill [x])); [by eapply fl_late|done..|]. cbn. rewrite set_chan_same. lia.
  - destruct (decide (length b < maxBatch)%nat).
    + destruct (chans s (af_queue s)) as [|x rest] eqn:Eq.
      * eapply (Hdo (FCommit b)); [eapply fl_full; [done|done|by right]|done..|]. cbn. rewrite Eq. cbn. lia.
      * eapply (Hdo (FFill (b ++ [x]))); [by eapply fl_more|done..|]. cbn. rewrite set_chan_same. lia.
    + eapply (Hdo (FCommit b)); [eapply fl_max; [done|lia]|done..|]. cbn. lia.
  - eapply (Hdo FWait); [by eapply fl_commit|done..|]. cbn. lia.
Qed.

Lemma work_done s : flusher_inv s -> work s = O -> delivered s = sent s.
Proof.
  intros H Hw. unfold work in Hw. rewrite (fi_order _ H). destruct (chans s (af_queue s)); [|cbn in Hw; lia].
  pose proof (fi_alive _ H) as Ha. destruct (af_running s).
  - destruct Ha as [f Ha]. rewrite Ha in *. destruct f; cbn in *; try lia; by rewrite ?app_nil_r.
  - rewrite Ha. cbn. by rewrite app_nil_r.
Qed.

Lemma drains s : flusher_inv s -> exists s', rtc flushes s s' /\ submitters s' = submitters s /\ delivered s' = sent s.
Proof.
  remember (work s) as n eqn:En. revert s En. induction (lt_wf n) as [n _ IH]. intros s -> H.
  destruct (decide (work s = O)) as [Hz|Hz]; [exists s; split; [done|]; split; [done|by apply work_done]|].
  destruct (work_step s H ltac:(lia)) as (s1 & Hst & H1 & Hsub & Hsent & Hlt).
  destruct (IH _ Hlt s1 eq_refl H1) as (s' & Hr & Hsub' & Hd). exists s'. split; [by eapply rtc_l|]. split; congruence.
Qed.
End drain.


(** * Without the [pending] check *)

Section strand.
Context (capacity maxBatch : nat) (linger check_pending : bool).

(** Item [i] sits in a channel no goroutine will read again. *)
Record stranded (i : nat) (s : auditFlusherState) : Prop := mk_stranded {
  sd_sub : submitters s !! i = Some SWait \/ submitters s !! i = Some (SReturned false);
  sd_chans : forall c, (af_queue s <= c)%nat -> i ∉ chans s c;
  sd_hand : forall f, f ∈ flushers s -> i ∉ in_hand f;
  sd_out : i ∉ delivered s }.

Lemma stranded_fl i s k g : stranded i s -> (i ∉ in_hand g) -> forall f, f ∈ <[k := g]> (flushers s) -> i ∉ in_hand f.
Proof.
  intros H Hg f Hf. apply list_elem_of_lookup in Hf as [j Hj]. apply list_lookup_insert_Some in Hj as [(_ & <- & _)|[_ Hj]]; [done|].
  apply (sd_hand _ _ H). by eapply list_elem_of_lookup_2.
Qed.

Lemma stranded_hand i s k f : stranded i s -> flushers s !! k = Some f -> i ∉ in_hand f.
Proof. intros H Hk. apply (sd_hand _ _ H). by eapply list_elem_of_lookup_2. Qed.

Lemma stranded_receive i s k g x rest : stranded i s -> chans s (af_queue s) = x :: rest -> (i ∉ in_hand g) ->
  stranded i (receive s x rest k g).
Proof.
  intros H Hq Hg. constructor; cbn; [apply H| |by apply stranded_fl|apply H].
  intros c Hc. unfold set_chan. destruct (Nat.eqb_spec c (af_queue s)) as [->|]; [|by apply H].
  pose proof (sd_chans _ _ H (af_queue s) ltac:(lia)) as Hn. rewrite Hq in Hn. set_solver.
Qed.

Lemma stranded_flush i k s s' : stranded i s -> flush_step maxBatch linger check_pending k s s' -> stranded i s'.
Proof.
  intros H Hst. destruct Hst as [s x rest Hk Hq|s Hk|s x rest Hk Hq|s Hk Hq Hz|s Hk Hq _ Hz|s b x rest Hk Hl Hq|s b Hk Hl Hq|s b Hk Hl|s b Hk];
    try (pose proof (stranded_hand _ _ _ _ H Hk) as Hb; cbn [in_hand] in Hb).
  1,3: apply stranded_receive; [done|done|]; pose proof (sd_chans _ _ H (af_queue s) ltac:(lia)) as Hn; rewrite Hq in Hn; cbn; set_solver.
  4: apply stranded_receive; [done|done|]; pose proof (sd_chans _ _ H (af_queue s) ltac:(lia)) as Hn; rewrite Hq in Hn; cbn; set_solver.
  all: constructor; cbn; try apply H; try (apply stranded_fl; [done|]; cbn; set_solver).
  pose proof (sd_out _ _ H). set_solver.
Qed.

Lemma stranded_submit i j s s' : stranded i s -> submit_step capacity j s s' -> stranded i s'.
Proof.
  intros H Hst. pose proof (sd_sub _ _ H) as Hi.
  assert (forall p, submitters s !! j = Some p -> p <> SWait -> p <> SReturned false -> j <> i) as Hne
    by (intros p Hp ? ? ->; destruct Hi; congruence).
  destruct Hst as [s Hj|s ch Hj Hcap|s ch Hj|s Hj|s Hj Hd|s Hj].
  - assert (j <> i) by (by apply (Hne _ Hj)). unfold ensure_running. destruct (af_running s); (constructor; cbn; try apply H).
    + by rewrite !list_lookup_insert_ne.
    + by rewrite !list_lookup_insert_ne.
    + intros c Hc. apply H. lia.
    + intros f [Hf| ->%list_elem_of_singleton]%elem_of_app; [by apply H|]. cbn. set_solver.
  - assert (j <> i) by (by apply (Hne _ Hj)). constructor; cbn; try apply H; [by rewrite !list_lookup_insert_ne|].
    intros c Hc. unfold set_chan. destruct (Nat.eqb_spec c ch) as [->|]; [|by apply H].
    pose proof (sd_chans _ _ H ch Hc). set_solver.
  - assert (j <> i) by (by apply (Hne _ Hj)). constructor; cbn; try apply H. by rewrite !list_lookup_insert_ne.
  - assert (j <> i) by (by apply (Hne _ Hj)). constructor; cbn; try apply H. by rewrite !list_lookup_insert_ne.
  - assert (j <> i) by (intros ->; by apply (sd_out _ _ H)). constructor; cbn; try apply H. by rewrite !list_lookup_insert_ne.
  - constructor; cbn; try apply H. destruct (decide (j = i)) as [->|]; [|by rewrite !list_lookup_insert_ne].
    right. apply list_lookup_insert_eq. by eapply lookup_lt_Some.
Qed.
End strand.

Lemma rtc_submit capacity maxBatch linger check_pending s s' s'' i :
  submit_step capacity i s s' -> rtc (step_any capacity maxBatch linger check_pending) s' s'' ->
  rtc (step_any capacity maxBatch linger check_pending) s s''.
Proof. intros Hst Hr. eapply rtc_l; [exists i; by left|done]. Qed.
Lemma rtc_flush capacity maxBatch linger check_pending s s' s'' k :
  flush_step maxBatch linger check_pending k s s' -> rtc (step_any capacity maxBatch linger check_pending) s' s'' ->
  rtc (step_any capacity maxBatch linger check_pending) s s''.
Proof. intros Hst Hr. eapply rtc_l; [exists k; by right|done]. Qed.

(** Submitter 0 registers, the flusher idles out, submitter 0 sends, submitter 1
    registers and so starts a flusher on another channel. *)
Definition stranded_state : auditFlusherState :=
  mkFlusher true 2 2 (set_chan (fun _ => []) 1%nat [0%nat]) [SWait; SSend 2] [FExit; FWait] [0%nat] [].

Lemma stranded_state_stranded : stranded 0 stranded_state.
Proof.
  constructor; cbn; [by left| | |set_solver].
  - intros c Hc. unfold set_chan. rewrite (proj2 (Nat.eqb_neq c 1)) by lia. set_solver.
  - intros f Hf. repeat (apply elem_of_cons in Hf as [->|Hf]; [cbn; set_solver|]). by apply elem_of_nil in Hf.
Qed.

Lemma strand_trace capacity maxBatch linger : (0 < capacity)%nat -> reachable capacity maxBatch linger false stranded_state.
Proof.
  intros Hcap. exists 2%nat.
  eapply rtc_submit; [by apply (st_register _ 0)|].
  eapply rtc_flush; [by apply (fl_idle _ _ _ 0)|].
  eapply rtc_flush; [by apply (fl_exit _ _ _ 0)|].
  eapply rtc_submit; [apply (st_send _ 0 _ 1); [done|cbn; lia]|].
  eapply rtc_submit; [by apply (st_register _ 1)|].
  done.
Qed.

Lemma stranded_forever capacity maxBatch linger check_pending i s s' :
  rtc (step_any capacity maxBatch linger check_pending) s s' -> stranded i s -> stranded i s'.
Proof.
  induction 1 as [|a b c [m [Hab|Hab]] _ IH]; [done| |]; intros Ha; apply IH;
    [by eapply stranded_submit|by eapply stranded_flush].
Qed.

(** The [pending] count is what prevents a lost submission: if the idle exit
    only looked at the channel, there would be a run after which a submitter has
    sent its item and no continuation whatever commits it, so that its caller
    can only time out. *)
Theorem pending_check_needed capacity maxBatch linger : (0 < capacity)%nat ->
  exists s i, reachable capacity maxBatch linger false s /\ submitters s !! i = Some SWait /\ i ∈ sent s /\
    forall s', rtc (step_any capacity maxBatch linger false) s s' ->
      (i ∉ delivered s') /\ submitters s' !! i <> Some (SReturned true).
Proof.
  intros Hcap. exists stranded_state, 0%nat. split; [by apply strand_trace|]. split; [done|]. split; [left|].
  intros s' Hr. pose proof (stranded_forever _ _ _ _ _ _ _ Hr stranded_state_stranded) as [Hs _ _ Ho].
  split; [done|]. destruct Hs; congruence.
Qed.

Definition auditQueueCapacity : nat := 4096.
Definition auditFlusherMaxBatch : nat := 256.

Lemma pending_check_needed_witness : exists s i,
  reachable auditQueueCapacity auditFlusherMaxBatch false false s /\ submitters s !! i = Some SWait /\
  forall s', rtc (step_any auditQueueCapacity auditFlusherMaxBatch false false) s s' -> i ∉ delivered s'.
Proof.
  destruct (pending_check_needed auditQueueCapacity auditFlusherMaxBatch false) as (s & i & H1 & H2 & _ & H3).
  - unfold auditQueueCapacity. apply Nat.lt_0_succ.
  - exists s, i. split; [exact H1|]. split; [exact H2|]. intros s' Hs. exact (proj1 (H3 s' Hs)).
Defined.

(** One submission on its way when the idle timer fires: the flusher stays. *)
Definition racing_state : auditFlusherState :=
  mkFlusher true 1 1 (set_chan (fun _ => []) 1%nat [0%nat]) [SWait; SStart] [FWait] [0%nat] [].

