(* ===== verification/Rbac.v ===== *)
(** Role resolution: which roles a principal holds at a scope, and whether they
    grant a permission ([internal/storage/store/local_rbac.go],
    [local_principal_permission.go], [role_permission_cache.go],
    [internal/core/storage/principal_permission.go]).

    The RBAC tables are lists of rows; a query is a filter over them, with the
    joins, the liveness tests and the expiry bound of the SQL.  The role set
    answer may come from a cache, so a read threads the cache; any statement may
    fail.  The one-statement resolution and the composed per-statement one are
    both shown to answer the specification [user_answer]; [UserRoleReads] is the
    interface the composed one is written against. *)
From Stdlib Require Import ZArith Lia.
From stdpp Require Import base numbers tactics sets list.
From S2P Require Import Prelude.
From S2P Require Import GoStr.

(** * Tables *)

Record Scope := mkScope { sc_ProjectID : Z; sc_EnvironmentID : Z }.
#[export] Instance Scope_eq_dec : EqDecision Scope.
Proof. solve_decision. Defined.

(** projects, environments, groups: a row and whether it is soft-deleted *)
Record softRow := mkSoft { so_ID : Z; so_deleted : bool }.
Record UserRole := mkUserRole { ur_UserID : Z; ur_RoleID : Z; ur_ProjectID : Z; ur_EnvironmentID : Z; ur_ExpiresAt : option Z }.
Record GroupRole := mkGroupRole { gr_GroupID : Z; gr_RoleID : Z; gr_ProjectID : Z; gr_EnvironmentID : Z; gr_ExpiresAt : option Z }.
Record UserGroup := mkUserGroup { ug_UserID : Z; ug_GroupID : Z; ug_ProjectID : Z }.
Record MachineIdentityRole := mkMachineRole { mr_MachineID : Z; mr_RoleID : Z; mr_ProjectID : Z; mr_EnvironmentID : Z }.
Record Role := mkRole { role_ID : Z; role_Name : bytes; role_Bypasses : bool }.
Record Permission := mkPermission { perm_ID : Z; perm_Name : bytes }.
Record RolePermission := mkRolePermission { rp_RoleID : Z; rp_PermissionID : Z }.

(** The permission grants, and the generation row with the triggers that
    maintain it. *)
Record permTables := mkPermTables {
  pt_permissions : list Permission; pt_role_permissions : list RolePermission;
  pt_generation : option bytes; pt_triggers : bool }.

Record rbacDB := mkRbac {
  rb_projects : list softRow; rb_environments : list softRow; rb_groups : list softRow;
  rb_user_roles : list UserRole; rb_group_roles : list GroupRole; rb_user_groups : list UserGroup;
  rb_machine_roles : list MachineIdentityRole; rb_roles : list Role; rb_perms : permTables }.

(** * Time *)

(** [rbacEffectiveNow]: the effective time and the new watermark. *)
Definition rbacEffectiveNow (watermark now : Z) : Z * Z :=
  if now <? watermark then (watermark, watermark) else (now, now).

(** The effective times of a sequence of clock readings. *)
Fixpoint effective_times (watermark : Z) (clock : list Z) : list Z :=
  match clock with
  | [] => []
  | now :: clock => let '(eff, wm) := rbacEffectiveNow watermark now in eff :: effective_times wm clock
  end.

Definition not_expired (now : Z) (expires : option Z) : bool :=
  match expires with None => true | Some e => now <? e end.

(** * Queries *)

(** [LEFT JOIN t ON t.id = x ... t.id IS NOT NULL AND t.deleted_at IS NULL] *)
Definition live (t : list softRow) (id : Z) : bool := existsb (fun r => (so_ID r =? id) && negb (so_deleted r)) t.

(** A grant's project and environment columns at a scope: 0 is everywhere. *)
Definition applies (db : rbacDB) (project environment : Z) (scope : Scope) : bool :=
  ((project =? 0) || ((project =? sc_ProjectID scope) && live (rb_projects db) project)) &&
  ((environment =? 0) || ((environment =? sc_EnvironmentID scope) && live (rb_environments db) environment)).

(** [dedupeUints], [DISTINCT], [UNION]: first occurrences. *)
Fixpoint dedupe_from (seen : list Z) (l : list Z) : list Z :=
  match l with
  | [] => []
  | x :: l => if bool_decide (x ∈ seen) then dedupe_from seen l else x :: dedupe_from (x :: seen) l
  end.
Definition dedupeUints (l : list Z) : list Z := dedupe_from [] l.

Definition user_role_ids (db : rbacDB) (now userID : Z) (scope : Scope) : list Z :=
  map ur_RoleID (List.filter (fun r => (ur_UserID r =? userID) && applies db (ur_ProjectID r) (ur_EnvironmentID r) scope &&
    not_expired now (ur_ExpiresAt r)) (rb_user_roles db)).

Definition group_role_ids (db : rbacDB) (now userID : Z) (scope : Scope) : list Z :=
  concat (map (fun g =>
    map (fun _ => gr_RoleID g) (List.filter (fun m => (ug_GroupID m =? gr_GroupID g) && (ug_UserID m =? userID) &&
      ((ug_ProjectID m =? 0) || (ug_ProjectID m =? sc_ProjectID scope))) (rb_user_groups db)))
    (List.filter (fun g => live (rb_groups db) (gr_GroupID g) && applies db (gr_ProjectID g) (gr_EnvironmentID g) scope &&
       not_expired now (gr_ExpiresAt g)) (rb_group_roles db))).

Definition machine_role_ids (db : rbacDB) (machineID : Z) (scope : Scope) : list Z :=
  map mr_RoleID (List.filter (fun r => (mr_MachineID r =? machineID) && applies db (mr_ProjectID r) (mr_EnvironmentID r) scope)
    (rb_machine_roles db)).

Definition role_bypasses (db : rbacDB) (id : Z) : bool := existsb (fun r => (role_ID r =? id) && role_Bypasses r) (rb_roles db).

(** The join of [liveRoleSetHasPermission]: is its count positive? *)
Definition set_grants (pt : permTables) (roleIDs : list Z) (permission : bytes) : bool :=
  existsb (fun rp => bool_decide (rp_RoleID rp ∈ roleIDs) &&
    existsb (fun p => (perm_ID p =? rp_PermissionID rp) && bool_decide (perm_Name p = permission)) (pt_permissions pt))
    (pt_role_permissions pt).

(** [rolePermGenerationExpr]: NULL when the triggers are missing, "" when the
    counter was never written. *)
Definition generation (pt : permTables) : option bytes := if pt_triggers pt then Some (default [] (pt_generation pt)) else None.

(** * The role-permission cache *)

Record rolePermCacheEntry := mkEntry { ce_generation : bytes; ce_allowed : bool }.
Definition rolePermissionCache := bytes -> option rolePermCacheEntry.

Definition rolePermKey (roleIDs : list Z) (permission : bytes) : bytes :=
  concat (map (fun id => FormatUint id ++ [bZ 44]) (sort_by (fun x => x) roleIDs)) ++ bZ 124 :: permission.

Definition cache_set (c : rolePermissionCache) (key : bytes) (e : rolePermCacheEntry) : rolePermissionCache :=
  fun k => if bool_decide (k = key) then Some e else c k.

(** * Reads *)

(** The statements of a call that fail. *)
Record faults (E : Type) := mkFaults {
  f_combined : option E; f_direct : option E; f_groups : option E; f_machine : option E; f_bypass : option E;
  f_generation : option E; f_live : option E }.
Arguments f_combined {E}. Arguments f_direct {E}. Arguments f_groups {E}. Arguments f_machine {E}. Arguments f_bypass {E}.
Arguments f_generation {E}. Arguments f_live {E}.

Definition failing {E A} (f : option E) (a : A) : res E A := match f with Some e => Err e | None => Ok a end.

Record PrincipalPermission := mkPP { pp_RoleIDs : list Z; pp_Bypasses : bool; pp_HasPermission : bool }.

(** [storage.UserRoleReads]: what [ComposeUserPermissionAt] reads.  Only the last
    read touches the cache. *)
Record UserRoleReads (E : Type) := mkReads {
  GetUserRoleIDsAt : Z -> Scope -> res E (list Z);
  GetUserGroupRoleIDsAt : Z -> Scope -> res E (list Z);
  GetMachineRoleIDsAt : Z -> Scope -> res E (list Z);
  RoleSetBypassesPermissionChecks : list Z -> res E bool;
  RoleSetHasPermission : list Z -> bytes -> rolePermissionCache -> res E bool * rolePermissionCache }.
Arguments GetUserRoleIDsAt {E}. Arguments GetUserGroupRoleIDsAt {E}. Arguments GetMachineRoleIDsAt {E}.
Arguments RoleSetBypassesPermissionChecks {E}. Arguments RoleSetHasPermission {E}.

Definition is_nil {A} (l : list A) : bool := match l with [] => true | _ => false end.

Definition ComposeUserPermissionAt {E} (s : UserRoleReads E) (userID : Z) (scope : Scope) (permission : bytes)
    (c : rolePermissionCache) : res E PrincipalPermission * rolePermissionCache :=
  match GetUserRoleIDsAt s userID scope with
  | Err e => (Err e, c)
  | Ok direct =>
      match GetUserGroupRoleIDsAt s userID scope with
      | Err e => (Err e, c)
      | Ok viaGroups =>
          let ids := dedupeUints (direct ++ viaGroups) in
          if is_nil ids then (Ok (mkPP [] false false), c)
          else match RoleSetBypassesPermissionChecks s ids with
               | Err e => (Err e, c)
               | Ok true => (Ok (mkPP ids true false), c)
               | Ok false =>
                   match RoleSetHasPermission s ids permission c with
                   | (Err e, c) => (Err e, c)
                   | (Ok has, c) => (Ok (mkPP ids false has), c)
                   end
               end
      end
  end.

Definition ComposeMachinePermissionAt {E} (s : UserRoleReads E) (machineID : Z) (scope : Scope) (permission : bytes)
    (c : rolePermissionCache) : res E PrincipalPermission * rolePermissionCache :=
  match GetMachineRoleIDsAt s machineID scope with
  | Err e => (Err e, c)
  | Ok ids =>
      if is_nil ids then (Ok (mkPP ids false false), c)
      else match RoleSetHasPermission s ids permission c with
           | (Err e, c) => (Err e, c)
           | (Ok has, c) => (Ok (mkPP ids false has), c)
           end
  end.

(** One row of the one-statement query. *)
Record principalPermissionRow := mkPPRow { pr_RoleID : Z; pr_Bypass : Z; pr_Generation : option bytes }.

(** A machine's roles at a scope, read ahead in the statement of the request's node read
    (readpath_prefetch.go). *)
Record PrefetchedPermission := mkPrefetched { pf_MachineID : Z; pf_Scope : Scope; pf_Rows : list principalPermissionRow }.
Definition TakePermission (pf : option PrefetchedPermission) (machineID : Z) (scope : Scope) : option PrefetchedPermission * option PrefetchedPermission :=
  match pf with
  | Some got => if bool_decide (pf_MachineID got = machineID /\ pf_Scope got = scope) then (Some got, None) else (None, pf)
  | None => (None, pf)
  end.

Section store.
Context {E : Type} (db : rbacDB) (now : Z) (f : faults E) (cacheEnabled : bool).

Definition liveRoleSetHasPermission (roleIDs : list Z) (permission : bytes) : res E bool :=
  failing (f_live f) (set_grants (rb_perms db) roleIDs permission).

Definition liveRolePermissionsGeneration : res E (option bytes) := failing (f_generation f) (generation (rb_perms db)).

Definition getCachedRolePermission (c : rolePermissionCache) (key : bytes) : option bool :=
  if cacheEnabled then
    match c key, liveRolePermissionsGeneration with
    | Some cached, Ok (Some gen) => if bool_decide (gen = ce_generation cached) then Some (ce_allowed cached) else None
    | _, _ => None
    end
  else None.

Definition store_RoleSetHasPermission (roleIDs : list Z) (permission : bytes) (c : rolePermissionCache)
  : res E bool * rolePermissionCache :=
  if is_nil roleIDs then (Ok false, c)
  else
    let key := rolePermKey roleIDs permission in
    match getCachedRolePermission c key with
    | Some allowed => (Ok allowed, c)
    | None =>
        if cacheEnabled then
          let gen := liveRolePermissionsGeneration in
          match liveRoleSetHasPermission roleIDs permission with
          | Err e => (Err e, c)
          | Ok allowed =>
              (Ok allowed, match gen with Ok (Some g) => cache_set c key (mkEntry g allowed) | _ => c end)
          end
        else (liveRoleSetHasPermission roleIDs permission, c)
    end.

Definition store_RoleSetBypasses (roleIDs : list Z) : res E bool :=
  if is_nil roleIDs then Ok false else failing (f_bypass f) (existsb (role_bypasses db) roleIDs).

(** The store as an implementation of the reads. *)
Definition local_reads : UserRoleReads E :=
  mkReads E
    (fun u scope => failing (f_direct f) (dedupeUints (user_role_ids db now u scope)))
    (fun u scope => failing (f_groups f) (dedupeUints (group_role_ids db now u scope)))
    (fun m scope => failing (f_machine f) (dedupeUints (machine_role_ids db m scope)))
    store_RoleSetBypasses store_RoleSetHasPermission.

(** [userPrincipalPermissionSQL], [machinePrincipalPermissionSQL] *)
Definition user_rows (userID : Z) (scope : Scope) : list principalPermissionRow :=
  map (fun id => mkPPRow id (if role_bypasses db id then 1 else 0) (generation (rb_perms db)))
    (dedupeUints (user_role_ids db now userID scope ++ group_role_ids db now userID scope)).
Definition machine_rows (machineID : Z) (scope : Scope) : list principalPermissionRow :=
  map (fun id => mkPPRow id 0 (generation (rb_perms db))) (dedupeUints (machine_role_ids db machineID scope)).

Definition roleSetHasPermissionUnderGeneration (roleIDs : list Z) (permission gen : bytes) (c : rolePermissionCache)
  : res E bool * rolePermissionCache :=
  let key := rolePermKey roleIDs permission in
  match (if cacheEnabled then c key else None) with
  | Some cached =>
      if bool_decide (ce_generation cached = gen) then (Ok (ce_allowed cached), c)
      else match liveRoleSetHasPermission roleIDs permission with
           | Err e => (Err e, c)
           | Ok allowed => (Ok allowed, if cacheEnabled then cache_set c key (mkEntry gen allowed) else c)
           end
  | None => match liveRoleSetHasPermission roleIDs permission with
            | Err e => (Err e, c)
            | Ok allowed => (Ok allowed, if cacheEnabled then cache_set c key (mkEntry gen allowed) else c)
            end
  end.

(** The loop over the rows: the distinct role ids, and whether one bypasses. *)
Fixpoint row_loop (userBypass : bool) (seen : list Z) (rows : list principalPermissionRow) : list Z * bool :=
  match rows with
  | [] => ([], false)
  | r :: rows =>
      if bool_decide (pr_RoleID r ∈ seen) then row_loop userBypass seen rows
      else let '(ids, bypass) := row_loop userBypass (pr_RoleID r :: seen) rows in
           (pr_RoleID r :: ids, (userBypass && negb (pr_Bypass r =? 0)) || bypass)
  end.

Definition resolvePrincipalPermission (rows : list principalPermissionRow) (permission : bytes) (userBypass : bool)
    (c : rolePermissionCache) : res E PrincipalPermission * rolePermissionCache :=
  match rows with
  | [] => (Ok (mkPP [] false false), c)
  | row0 :: _ =>
      let '(ids, bypass) := row_loop userBypass [] rows in
      if bypass then (Ok (mkPP ids true false), c)
      else
        match (match pr_Generation row0 with
               | None => (liveRoleSetHasPermission ids permission, c)
               | Some gen => roleSetHasPermissionUnderGeneration ids permission gen c
               end) with
        | (Err e, c) => (Err e, c)
        | (Ok has, c) => (Ok (mkPP ids false has), c)
        end
  end.

Definition ResolveUserPermissionAt (userID : Z) (scope : Scope) (permission : bytes) (c : rolePermissionCache)
  : res E PrincipalPermission * rolePermissionCache :=
  match f_combined f with
  | Some _ => ComposeUserPermissionAt local_reads userID scope permission c
  | None => resolvePrincipalPermission (user_rows userID scope) permission true c
  end.

(** [pf]: the role read that the request's node read has parked on the context, if any;
    it is used, once, by a resolution for its machine at its scope. *)
Definition ResolveMachinePermissionAt (pf : option PrefetchedPermission) (machineID : Z) (scope : Scope) (permission : bytes) (c : rolePermissionCache)
  : res E PrincipalPermission * rolePermissionCache :=
  match (TakePermission pf machineID scope).1 with
  | Some taken => resolvePrincipalPermission (pf_Rows taken) permission false c
  | None =>
      match f_combined f with
      | Some _ => ComposeMachinePermissionAt local_reads machineID scope permission c
      | None => resolvePrincipalPermission (machine_rows machineID scope) permission false c
      end
  end.
End store.

(** What was parked are the rows of the tables. *)
Definition parked (db : rbacDB) (pf : option PrefetchedPermission) : Prop :=
  forall p, pf = Some p -> pf_Rows p = machine_rows db (pf_MachineID p) (pf_Scope p).
Lemma TakePermission_some pf machineID scope taken :
  (TakePermission pf machineID scope).1 = Some taken -> pf = Some taken /\ pf_MachineID taken = machineID /\ pf_Scope taken = scope.
Proof.
  unfold TakePermission. destruct pf as [p|]; [|done]. case_bool_decide as Hp; [|done]. intros [= ->]. done.
Qed.

(** * What the answer should be *)

Definition user_ids (db : rbacDB) (now userID : Z) (scope : Scope) : list Z :=
  user_role_ids db now userID scope ++ group_role_ids db now userID scope.

(** [r] answers for the roles [ids]. *)
Definition answers (db : rbacDB) (ids : list Z) (bypass : bool) (permission : bytes) (r : PrincipalPermission) : Prop :=
  (forall id, id ∈ pp_RoleIDs r <-> id ∈ ids) /\ NoDup (pp_RoleIDs r) /\ pp_Bypasses r = bypass /\
  (bypass = false -> pp_HasPermission r = set_grants (rb_perms db) ids permission).

(** The cache tells the truth about the generation it names. *)
Definition coherent (pt : permTables) (c : rolePermissionCache) : Prop :=
  forall ids permission e, Forall (fun id => 0 <= id) ids -> c (rolePermKey ids permission) = Some e ->
    generation pt = Some (ce_generation e) -> ce_allowed e = set_grants pt ids permission.

(** Role ids are unsigned. *)
Definition rbac_wf (db : rbacDB) : Prop :=
  Forall (fun r => 0 <= ur_RoleID r) (rb_user_roles db) /\ Forall (fun r => 0 <= gr_RoleID r) (rb_group_roles db) /\
  Forall (fun r => 0 <= mr_RoleID r) (rb_machine_roles db).

Lemma elem_of_dedupe_from l : forall seen x, x ∈ dedupe_from seen l <-> x ∈ l /\ x ∉ seen.
Proof.
  induction l as [|y l IH]; intros seen x; cbn [dedupe_from].
  { split; [intros H|intros [H _]]; by apply elem_of_nil in H. }
  case_bool_decide as Hy.
  - rewrite IH, elem_of_cons. split; [tauto|]. intros [[->|?] ?]; tauto.
  - rewrite elem_of_cons, IH. destruct (decide (x = y)) as [->|]; set_solver.
Qed.

Lemma NoDup_dedupe_from l : forall seen, NoDup (dedupe_from seen l).
Proof.
  induction l as [|y l IH]; intros seen; cbn [dedupe_from]; [apply NoDup_nil_2|]. case_bool_decide; [apply IH|].
  apply NoDup_cons. split; [|apply IH]. rewrite elem_of_dedupe_from. set_solver.
Qed.

Lemma elem_of_dedupe l x : x ∈ dedupeUints l <-> x ∈ l.
Proof. unfold dedupeUints. rewrite elem_of_dedupe_from. set_solver. Qed.

Lemma existsb_elem {A} (P : A -> bool) l : existsb P l = true <-> exists x, x ∈ l /\ P x = true.
Proof. rewrite existsb_exists. split; intros (x & Hx & ?); exists x; by rewrite list_elem_of_In in *. Qed.

Lemma existsb_same {A} (P : A -> bool) a b : (forall x, x ∈ a <-> x ∈ b) -> existsb P a = existsb P b.
Proof.
  intros H. apply eq_true_iff_eq. rewrite !existsb_elem. split; intros (x & Hx & ?); exists x; (split; [by apply H|done]).
Qed.

Lemma set_grants_same pt a b permission : (forall x, x ∈ a <-> x ∈ b) -> set_grants pt a permission = set_grants pt b permission.
Proof.
  intros H. unfold set_grants. induction (pt_role_permissions pt) as [|rp l IH]; [done|]. cbn [existsb]. rewrite IH. do 2 f_equal.
  apply bool_decide_ext. apply H.
Qed.

(** The key determines the role set and the permission. *)
Definition id_field (id : Z) : bytes := FormatUint id ++ [bZ 44].

Lemma digit_not_sep b : is_digit b -> b <> bZ 44 /\ b <> bZ 124.
Proof. unfold is_digit. intros H. split; intros ->; rewrite Zb_bZ in H by lia; lia. Qed.

Lemma fields_key_inj a : forall b p q, Forall (fun id => 0 <= id) a -> Forall (fun id => 0 <= id) b ->
  concat (map id_field a) ++ bZ 124 :: p = concat (map id_field b) ++ bZ 124 :: q -> a = b /\ p = q.
Proof.
  assert (forall x l p q, 0 <= x -> bZ 124 :: p <> (id_field x ++ l) ++ bZ 124 :: q) as Hsep.
  { intros x l p q Hx E. destruct (FormatUint_head x Hx) as (b & t & Eb & Hb). unfold id_field in E. rewrite Eb in E.
    cbn [app] in E. injection E as Eh _. destruct (digit_not_sep b Hb) as [_ Hn]. by symmetry in Eh. }
  induction a as [|x a IH]; intros [|y b] p q Ha Hb E; cbn [map concat app] in E.
  - by injection E as ->.
  - apply Forall_cons in Hb as [Hy _]. by apply Hsep in E.
  - apply Forall_cons in Ha as [Hx _]. symmetry in E. by apply Hsep in E.
  - apply Forall_cons in Ha as [Hx Ha], Hb as [Hy Hb]. unfold id_field at 1 3 in E. rewrite <- !app_assoc in E.
    assert (forall z, 0 <= z -> bZ 44 ∉ FormatUint z) as Hns.
    { intros z Hz Hin. pose proof (FormatUint_digits z Hz) as Hd. rewrite Forall_forall in Hd. by destruct (digit_not_sep _ (Hd _ Hin)). }
    apply app_sep_inj in E as [E1 E2]; [|by apply Hns..]. apply FormatUint_inj in E1 as ->; [|done..].
    apply IH in E2 as [-> ->]; [|done..]. done.
Qed.

Lemma rolePermKey_inj a b p q : Forall (fun id => 0 <= id) a -> Forall (fun id => 0 <= id) b ->
  rolePermKey a p = rolePermKey b q -> a ≡ₚ b /\ p = q.
Proof.
  intros Ha Hb E. unfold rolePermKey in E. apply fields_key_inj in E as [Es ->]; [|by rewrite sort_by_perm..].
  split; [|done]. by rewrite <- (sort_by_perm (fun x => x) a), <- (sort_by_perm (fun x => x) b), Es.
Qed.

Lemma set_grants_perm pt a b permission : a ≡ₚ b -> set_grants pt a permission = set_grants pt b permission.
Proof. intros H. apply set_grants_same. intros x. by rewrite H. Qed.

Lemma coherent_set pt c ids permission g : coherent pt c -> Forall (fun id => 0 <= id) ids ->
  coherent pt (cache_set c (rolePermKey ids permission) (mkEntry g (set_grants pt ids permission))).
Proof.
  intros Hc Hids ids' p' e Hids' He Hg. unfold cache_set in He. case_bool_decide as Ek.
  - injection He as <-. apply rolePermKey_inj in Ek as [Hp ->]; [|done..]. cbn. symmetry. by apply set_grants_perm.
  - by eapply Hc.
Qed.

Section correct.
Context {E : Type} (db : rbacDB) (now : Z) (f : faults E) (cacheEnabled : bool) (Hwf : rbac_wf db).

Lemma user_ids_nonneg userID scope : Forall (fun id => 0 <= id) (user_ids db now userID scope).
Proof.
  destruct Hwf as (Hu & Hg & _). rewrite Forall_forall in Hu. rewrite Forall_forall in Hg. apply Forall_forall.
  unfold user_ids, user_role_ids, group_role_ids. intros id [H|H]%elem_of_app.
  - apply elem_of_map in H as (r & -> & [Hr _]%list_elem_of_In%filter_In). apply Hu. by apply list_elem_of_In.
  - apply list_elem_of_In in H. apply in_concat in H as (l & Hl & Hid). apply in_map_iff in Hl as (g & <- & Hg').
    apply filter_In in Hg' as [Hg' _]. apply in_map_iff in Hid as (m & <- & _). apply Hg. by apply list_elem_of_In.
Qed.

Lemma machine_ids_nonneg machineID scope : Forall (fun id => 0 <= id) (machine_role_ids db machineID scope).
Proof.
  destruct Hwf as (_ & _ & Hm). rewrite Forall_forall in Hm. apply Forall_forall. unfold machine_role_ids.
  intros id H. apply elem_of_map in H as (r & -> & [Hr _]%list_elem_of_In%filter_In). apply Hm. by apply list_elem_of_In.
Qed.

Lemma dedupe_nonneg l : Forall (fun id => 0 <= id) l -> Forall (fun id => 0 <= id) (dedupeUints l).
Proof. intros H. apply Forall_forall. intros x Hx. rewrite elem_of_dedupe in Hx. rewrite Forall_forall in H. by apply H. Qed.

Lemma row_loop_map ub (bp : Z -> Z) g l : forall seen,
  row_loop ub seen (map (fun id => mkPPRow id (bp id) g) l) =
  (dedupe_from seen l, existsb (fun id => ub && negb (bp id =? 0)) (dedupe_from seen l)).
Proof.
  induction l as [|x l IH]; intros seen; cbn [map row_loop dedupe_from pr_RoleID pr_Bypass]; [done|].
  case_bool_decide; [apply IH|]. rewrite IH. done.
Qed.

Lemma dedupe_dedupe l : dedupeUints (dedupeUints l) = dedupeUints l.
Proof.
  assert (forall l seen, NoDup l -> (forall x, x ∈ l -> x ∉ seen) -> dedupe_from seen l = l) as Hid.
  { clear. induction l as [|x l IH]; intros seen Hnd Hs; [done|]. cbn [dedupe_from]. apply NoDup_cons in Hnd as [Hx Hnd].
    rewrite bool_decide_eq_false_2 by (apply Hs; left). f_equal. apply IH; [done|]. intros y Hy. specialize (Hs y). set_solver. }
  apply Hid; [apply NoDup_dedupe_from|]. set_solver.
Qed.

Lemma set_grants_nil pt permission : set_grants pt [] permission = false.
Proof. unfold set_grants. induction (pt_role_permissions pt) as [|rp l IH]; [done|]. cbn [existsb]. by rewrite IH. Qed.

(** Under the generation the rows carry, the answer is the live one. *)
Lemma under_generation_live ids permission g c :
  coherent (rb_perms db) c -> Forall (fun id => 0 <= id) ids -> generation (rb_perms db) = Some g -> f_live f = None ->
  exists c', roleSetHasPermissionUnderGeneration db f cacheEnabled ids permission g c =
    (Ok (set_grants (rb_perms db) ids permission), c') /\ coherent (rb_perms db) c'.
Proof.
  intros Hc Hids Hg Hl. unfold roleSetHasPermissionUnderGeneration, liveRoleSetHasPermission. rewrite Hl. cbn [failing].
  assert (coherent (rb_perms db) (if cacheEnabled then cache_set c (rolePermKey ids permission) (mkEntry g (set_grants (rb_perms db) ids permission)) else c))
    as Hset by (destruct cacheEnabled; [by apply coherent_set|done]).
  destruct cacheEnabled; [|eauto]. destruct (c (rolePermKey ids permission)) as [e|] eqn:Ee; [|eauto].
  case_bool_decide as Eg; [|eauto]. exists c. split; [|done]. do 2 f_equal. eapply Hc; [done|done|]. by rewrite Hg, Eg.
Qed.

Lemma RoleSetHasPermission_live ids permission c :
  coherent (rb_perms db) c -> Forall (fun id => 0 <= id) ids -> f_live f = None ->
  exists c', store_RoleSetHasPermission db f cacheEnabled ids permission c =
    (Ok (set_grants (rb_perms db) ids permission), c') /\ coherent (rb_perms db) c'.
Proof.
  intros Hc Hids Hl. unfold store_RoleSetHasPermission. destruct ids as [|i ids]; cbn [is_nil].
  { rewrite set_grants_nil. eauto. }
  set (ids' := i :: ids) in *. unfold getCachedRolePermission, liveRoleSetHasPermission, liveRolePermissionsGeneration. rewrite Hl. cbn [failing].
  assert (coherent (rb_perms db) (match @failing E _ (f_generation f) (generation (rb_perms db)) with
    | Ok (Some g) => cache_set c (rolePermKey ids' permission) (mkEntry g (set_grants (rb_perms db) ids' permission)) | _ => c end)) as Hset.
  { destruct (failing _ _) as [[g|]|]; [by apply coherent_set|done|done]. }
  destruct cacheEnabled; [|eauto]. destruct (c (rolePermKey ids' permission)) as [e|] eqn:Ee; [|eauto].
  destruct (f_generation f) eqn:Ef; cbn [failing] in *; [eauto|]. destruct (generation (rb_perms db)) as [g|] eqn:Eg; [|eauto].
  case_bool_decide as Ege; [|eauto]. exists c. split; [|done]. do 2 f_equal. eapply Hc; [done|done|]. by rewrite Eg, Ege.
Qed.

Lemma answers_intro ids bypass permission l has : (forall id, id ∈ l <-> id ∈ ids) ->
  (bypass = false -> has = set_grants (rb_perms db) ids permission) -> answers db ids bypass permission (mkPP (dedupeUints l) bypass has).
Proof.
  intros Hl Hh. split; [|split; [apply NoDup_dedupe_from|done]]. intros id. cbn [pp_RoleIDs]. rewrite elem_of_dedupe. apply Hl.
Qed.

(** The rows of one statement. *)
Lemma resolve_rows ub (bp : Z -> Z) l permission c :
  coherent (rb_perms db) c -> Forall (fun id => 0 <= id) l -> f_live f = None ->
  exists r c', resolvePrincipalPermission db f cacheEnabled
      (map (fun id => mkPPRow id (bp id) (generation (rb_perms db))) (dedupeUints l)) permission ub c = (Ok r, c') /\
    answers db l (existsb (fun id => ub && negb (bp id =? 0)) l) permission r /\ coherent (rb_perms db) c'.
Proof.
  intros Hc Hl Hf. unfold resolvePrincipalPermission. rewrite row_loop_map. fold (dedupeUints (dedupeUints l)). rewrite dedupe_dedupe.
  rewrite (existsb_same _ (dedupeUints l) l) by apply elem_of_dedupe. set (b := existsb _ l).
  assert (set_grants (rb_perms db) (dedupeUints l) permission = set_grants (rb_perms db) l permission) as Esg
    by (apply set_grants_same, elem_of_dedupe).
  destruct (map _ (dedupeUints l)) as [|row0 rows] eqn:Em.
  { assert (l = []) as ->.
    { destruct (dedupeUints l) eqn:Ed; [|done]. destruct l as [|x l]; [done|]. assert (x ∈ dedupeUints (x :: l)) as Hx by (apply elem_of_dedupe; left).
      rewrite Ed in Hx. by apply elem_of_nil in Hx. }
    eexists _, _. split; [done|]. split; [|done]. subst b. cbn [existsb]. apply (answers_intro [] false permission []); [done|]. by rewrite set_grants_nil. }
  destruct b eqn:Eb.
  { eexists _, _. split; [done|]. split; [|done]. by apply answers_intro. }
  assert (pr_Generation row0 = generation (rb_perms db)) as ->.
  { destruct (dedupeUints l); [done|]. cbn in Em. by injection Em as <- _. }
  destruct (generation (rb_perms db)) as [g|] eqn:Eg.
  - destruct (under_generation_live (dedupeUints l) permission g c Hc (dedupe_nonneg _ Hl) Eg Hf) as (c' & -> & Hc').
    eexists _, _. split; [done|]. split; [|done]. by apply answers_intro.
  - unfold liveRoleSetHasPermission. rewrite Hf. cbn [failing]. eexists _, _. split; [done|]. split; [|done]. by apply answers_intro.
Qed.

(** The composed reads. *)
Lemma compose_user userID scope permission c :
  coherent (rb_perms db) c -> f_live f = None -> f_direct f = None -> f_groups f = None -> f_bypass f = None ->
  let ids := user_ids db now userID scope in
  exists r c', ComposeUserPermissionAt (local_reads db now f cacheEnabled) userID scope permission c = (Ok r, c') /\
    answers db ids (existsb (role_bypasses db) ids) permission r /\ coherent (rb_perms db) c'.
Proof.
  intros Hc Hl Hd Hg Hb ids. unfold ComposeUserPermissionAt, local_reads.
  cbn [GetUserRoleIDsAt GetUserGroupRoleIDsAt RoleSetBypassesPermissionChecks RoleSetHasPermission]. rewrite Hd, Hg. cbn [failing].
  set (l := dedupeUints (user_role_ids db now userID scope) ++ dedupeUints (group_role_ids db now userID scope)).
  assert (forall id, id ∈ l <-> id ∈ ids) as Hsame by (intros id; unfold l, ids, user_ids; rewrite !elem_of_app, !elem_of_dedupe; done).
  assert (Forall (fun id => 0 <= id) (dedupeUints l)) as Hnn.
  { pose proof (user_ids_nonneg userID scope) as H. rewrite Forall_forall in H. apply Forall_forall. intros x Hx. rewrite elem_of_dedupe, Hsame in Hx. by apply H. }
  assert (set_grants (rb_perms db) (dedupeUints l) permission = set_grants (rb_perms db) ids permission) as Esg
    by (apply set_grants_same; intros x; by rewrite elem_of_dedupe).
  assert (existsb (role_bypasses db) (dedupeUints l) = existsb (role_bypasses db) ids) as Ebp
    by (apply existsb_same; intros x; by rewrite elem_of_dedupe).
  destruct (is_nil (dedupeUints l)) eqn:En.
  { assert (dedupeUints l = []) as El by (by destruct (dedupeUints l)). rewrite El in *. cbn [existsb] in Ebp. rewrite <- Ebp.
    eexists _, _. split; [done|]. split; [|done]. apply (answers_intro ids false permission []).
    - intros x. rewrite <- Hsame, <- (elem_of_dedupe l), El. done.
    - intros _. by rewrite <- Esg, set_grants_nil. }
  unfold store_RoleSetBypasses. rewrite En, Hb. cbn [failing]. rewrite Ebp.
  destruct (existsb (role_bypasses db) ids) eqn:Eb.
  { eexists _, _. split; [done|]. split; [|done]. by apply answers_intro. }
  destruct (RoleSetHasPermission_live (dedupeUints l) permission c Hc Hnn Hl) as (c' & -> & Hc').
  eexists _, _. split; [done|]. split; [|done]. by apply answers_intro.
Qed.
End correct.

Lemma ResolvePermission_meets {E} (db : rbacDB) now (f : faults E) cacheEnabled pf userID machineID scope permission c :
  rbac_wf db -> coherent (rb_perms db) c -> f_live f = None -> parked db pf ->
  f_combined f = None \/ (f_direct f = None /\ f_groups f = None /\ f_machine f = None /\ f_bypass f = None) ->
  let ids := user_ids db now userID scope in
  (exists r c', ResolveUserPermissionAt db now f cacheEnabled userID scope permission c = (Ok r, c') /\
     answers db ids (existsb (role_bypasses db) ids) permission r /\ coherent (rb_perms db) c') /\
  (f_direct f = None -> f_groups f = None -> f_bypass f = None ->
   exists r c', ComposeUserPermissionAt (local_reads db now f cacheEnabled) userID scope permission c = (Ok r, c') /\
     answers db ids (existsb (role_bypasses db) ids) permission r /\ coherent (rb_perms db) c') /\
  (exists r c', ResolveMachinePermissionAt db now f cacheEnabled pf machineID scope permission c = (Ok r, c') /\
     answers db (machine_role_ids db machineID scope) false permission r /\ coherent (rb_perms db) c').
Proof.
  intros Hwf Hc Hl Hpf Hor ids.
  assert (exists r c', resolvePrincipalPermission db f cacheEnabled (machine_rows db machineID scope) permission false c = (Ok r, c') /\
     answers db (machine_role_ids db machineID scope) false permission r /\ coherent (rb_perms db) c') as Hrows.
  { destruct (resolve_rows db f cacheEnabled Hwf false (fun _ => 0) (machine_role_ids db machineID scope) permission c Hc
      (machine_ids_nonneg db Hwf machineID scope) Hl) as (r & c' & Hr & Ha & Hc'). exists r, c'. split; [exact Hr|]. split; [|done].
    assert (existsb (fun _ : Z => false && negb (0 =? 0)) (machine_role_ids db machineID scope) = false) as Ef0;
      [|by rewrite Ef0 in Ha]. clear. by induction (machine_role_ids db machineID scope). }
  split; [|split].
  - unfold ResolveUserPermissionAt. destruct (f_combined f) eqn:Ef.
    + destruct Hor as [?|(? & ? & _ & ?)]; [done|]. by apply compose_user.
    + destruct (resolve_rows db f cacheEnabled Hwf true (fun id => if role_bypasses db id then 1 else 0) ids permission c Hc
        (user_ids_nonneg db now Hwf userID scope) Hl) as (r & c' & Hr & Ha & Hc'). exists r, c'. split; [exact Hr|]. split; [|done].
      assert (existsb (role_bypasses db) ids = existsb (fun id => true && negb ((if role_bypasses db id then 1 else 0) =? 0)) ids) as ->;
        [|done]. clear. induction ids as [|x l IH]; [done|]. cbn [existsb]. rewrite IH. f_equal. by destruct (role_bypasses db x).
  - intros. by apply compose_user.
  - unfold ResolveMachinePermissionAt. destruct (TakePermission pf machineID scope).1 as [taken|] eqn:Et.
    { apply TakePermission_some in Et as (Ep & <- & <-). by rewrite (Hpf taken Ep). }
    destruct (f_combined f) eqn:Ef; [|exact Hrows].
    + destruct Hor as [?|(_ & _ & Hm & _)]; [done|]. unfold ComposeMachinePermissionAt. cbn [GetMachineRoleIDsAt RoleSetHasPermission local_reads].
      rewrite Hm. cbn [failing]. set (l := machine_role_ids db machineID scope).
      assert (set_grants (rb_perms db) (dedupeUints l) permission = set_grants (rb_perms db) l permission) as Esg
        by (apply set_grants_same, elem_of_dedupe).
      destruct (is_nil (dedupeUints l)) eqn:En.
      { eexists _, _. split; [done|]. split; [|done]. apply answers_intro; [done|]. intros _. rewrite <- Esg.
        destruct (dedupeUints l); [|done]. by rewrite set_grants_nil. }
      destruct (RoleSetHasPermission_live db f cacheEnabled (dedupeUints l) permission c Hc
        (dedupe_nonneg _ (machine_ids_nonneg db Hwf machineID scope)) Hl) as (c' & -> & Hc').
      eexists _, _. split; [done|]. split; [|done]. by apply answers_intro.
Qed.

(** C31. The one-statement role resolution answers what the per-statement reads
    answer.  With a coherent cache, the live join readable, and a role read parked by the
    request, if there is one, that is current: for a user, the
    one-statement query (or, when it fails, its composed fallback) and the
    composition of the per-statement reads both return, with exactly the role ids
    granted to the user directly or through a live group, unexpired, at a live
    project and environment of the scope, the bypass flag of those roles, and,
    when none bypasses, whether a row of [role_permissions] grants the
    permission; both leave the cache coherent.  A machine's resolution does the
    same and never reports a bypass. *)
Theorem ResolvePermission_correct {E} (db : rbacDB) now (f : faults E) cacheEnabled pf userID machineID scope permission c :
  rbac_wf db -> coherent (rb_perms db) c -> f_live f = None -> parked db pf ->
  f_combined f = None \/ (f_direct f = None /\ f_groups f = None /\ f_machine f = None /\ f_bypass f = None) ->
  let ids := user_ids db now userID scope in
  (exists r c', ResolveUserPermissionAt db now f cacheEnabled userID scope permission c = (Ok r, c') /\
     answers db ids (existsb (role_bypasses db) ids) permission r /\ coherent (rb_perms db) c') /\
  (f_direct f = None -> f_groups f = None -> f_bypass f = None ->
   exists r c', ComposeUserPermissionAt (local_reads db now f cacheEnabled) userID scope permission c = (Ok r, c') /\
     answers db ids (existsb (role_bypasses db) ids) permission r /\ coherent (rb_perms db) c') /\
  (exists r c', ResolveMachinePermissionAt db now f cacheEnabled pf machineID scope permission c = (Ok r, c') /\
     answers db (machine_role_ids db machineID scope) false permission r /\ coherent (rb_perms db) c').
Proof. apply ResolvePermission_meets. Qed.

(** An expired grant never comes back.  The effective times of successive
    resolutions never decrease, whatever the host clock does, and none is behind
    the clock; so once a grant counts as expired, it is expired at every later
    resolution. *)
Theorem rbacEffectiveNow_monotone watermark clock :
  (forall i j a b, effective_times watermark clock !! i = Some a -> effective_times watermark clock !! j = Some b -> (i <= j)%nat -> a <= b) /\
  (forall i now eff, clock !! i = Some now -> effective_times watermark clock !! i = Some eff -> now <= eff) /\
  (forall i j a b expires, effective_times watermark clock !! i = Some a -> effective_times watermark clock !! j = Some b -> (i <= j)%nat ->
     not_expired a expires = false -> not_expired b expires = false).
Proof.
  assert (forall clock wm i a, effective_times wm clock !! i = Some a -> wm <= a) as Hge.
  { clear. induction clock as [|now clock IH]; intros wm i a Hi; [done|]. cbn [effective_times] in Hi. unfold rbacEffectiveNow in Hi.
    destruct (Z.ltb_spec now wm), i as [|i]; cbn in Hi; simplify_eq; try lia; apply IH in Hi; lia. }
  assert (forall clock wm i j a b, effective_times wm clock !! i = Some a -> effective_times wm clock !! j = Some b -> (i <= j)%nat -> a <= b) as Hmono.
  { clear -Hge. induction clock as [|now clock IH]; intros wm i j a b Hi Hj Hij; [done|]. cbn [effective_times] in Hi, Hj.
    unfold rbacEffectiveNow in *. destruct (Z.ltb_spec now wm), i as [|i], j as [|j]; cbn in Hi, Hj; simplify_eq; try lia;
      try (apply Hge in Hj; lia); by eapply IH; [done|done|lia]. }
  split; [apply Hmono|]. split.
  - revert watermark. induction clock as [|now clock IH]; intros wm i x eff Hi He; [done|]. cbn [effective_times] in He.
    unfold rbacEffectiveNow in He. destruct (Z.ltb_spec now wm), i as [|i]; cbn in Hi, He; simplify_eq; try lia; by eapply IH.
  - intros i j a b [e|] Hi Hj Hij; [|done]. cbn. rewrite !Z.ltb_ge. pose proof (Hmono _ _ _ _ _ _ Hi Hj Hij). lia.
Qed.

(** * A concrete database *)

(** Project 1 is live and project 2 deleted; user 7 reads in project 1 through
    group 4, and has an expired admin grant and a grant in the deleted project. *)
Definition ex_rbac : rbacDB :=
  mkRbac [mkSoft 1 false; mkSoft 2 true] [mkSoft 1 false] [mkSoft 4 false]
    [mkUserRole 7 10 0 0 (Some 50); mkUserRole 7 12 2 0 None] [mkGroupRole 4 11 1 0 None] [mkUserGroup 7 4 0]
    [mkMachineRole 9 11 1 1]
    [mkRole 10 (go "admin") true; mkRole 11 (go "reader") false; mkRole 12 (go "writer") false]
    (mkPermTables [mkPermission 1 (go "secrets.read"); mkPermission 2 (go "secrets.write")]
       [mkRolePermission 11 1; mkRolePermission 12 2] (Some (go "3")) true).
Definition no_faults : faults unit := mkFaults unit None None None None None None None.
Definition empty_cache : rolePermissionCache := fun _ => None.

Lemma ResolvePermission_correct_witness :
  exists r, (ResolveUserPermissionAt ex_rbac 100 no_faults true 7 (mkScope 1 1) (go "secrets.read") empty_cache).1 = Ok r /\
    answers ex_rbac [11] false (go "secrets.read") r.
Proof.
  destruct (ResolvePermission_correct ex_rbac 100 no_faults true (Some (mkPrefetched 9 (mkScope 1 1) (machine_rows ex_rbac 9 (mkScope 1 1)))) 7 9 (mkScope 1 1) (go "secrets.read") empty_cache)
    as ((r & c' & Hr & Ha & _) & _).
  - split; [|split]; repeat constructor; vm_compute; discriminate.
  - intros ids p e _ He. discriminate He.
  - reflexivity.
  - intros p [= <-]. reflexivity.
  - left. reflexivity.
  - exists r. rewrite Hr. split; [reflexivity|exact Ha].
Defined.

Lemma rbacEffectiveNow_monotone_witness :
  effective_times 0 [100; 90; 120] = [100; 100; 120] /\ not_expired 100 (Some 95) = false.
Proof.
  split; [vm_compute; reflexivity|].
  apply (proj2 (proj2 (rbacEffectiveNow_monotone 0 [100; 90; 120])) 0%nat 1%nat 100 100 (Some 95));
    [reflexivity|reflexivity|lia|reflexivity].
Defined.
