(* ===== verification/RoleCache.v ===== *)
(** The role-permission cache under concurrency
    ([internal/storage/store/role_permission_cache.go],
    [local_principal_permission.go]; the writers of [local_rbac.go]).

    Any number of resolutions run against one cache while permission grants are
    written.  A resolution reads the role ids and the generation in one
    statement, then looks the role set up, and on a miss runs the live join and
    publishes its answer under the generation it read; each of these is one step,
    and a committed write, which bumps the generation in its own transaction, may
    fall between any two.  The theorem: an answer is always the live answer at
    some version no older than the one the resolution's own statement saw, so a
    revocation committed before a resolution starts is never missed. *)
From Stdlib Require Import ZArith Lia.
From stdpp Require Import base numbers tactics relations sets list.
From S2P Require Import Prelude.
From S2P Require Import GoStr.
From S2P Require Import Rbac.

(** * Writers *)

(** The counter's value: an absent row or a value that is no number casts to 0. *)
Definition counter (pt : permTables) : Z :=
  match pt_generation pt with Some v => default 0 (parse_digits 0 v) | None => 0 end.

Definition set_generation (g : option bytes) (pt : permTables) : permTables :=
  mkPermTables (pt_permissions pt) (pt_role_permissions pt) g (pt_triggers pt).
Definition set_role_permissions (l : list RolePermission) (pt : permTables) : permTables :=
  mkPermTables (pt_permissions pt) l (pt_generation pt) (pt_triggers pt).

(** Seed the row, then increment it in one statement; the triggers do the same. *)
Definition bumpRolePermissionsGeneration (pt : permTables) : permTables :=
  set_generation (Some (FormatUint (counter pt + 1))) pt.
Definition trigger (pt : permTables) : permTables := if pt_triggers pt then bumpRolePermissionsGeneration pt else pt.

Definition same_grant (roleID permissionID : Z) (rp : RolePermission) : bool :=
  (rp_RoleID rp =? roleID) && (rp_PermissionID rp =? permissionID).

Inductive perm_err := ErrDuplicateRolePermission | ErrRolePermissionNotAssigned.

Definition AssignPermissionToRole (roleID permissionID : Z) (pt : permTables) : res perm_err permTables :=
  if existsb (same_grant roleID permissionID) (pt_role_permissions pt) then Err ErrDuplicateRolePermission
  else Ok (bumpRolePermissionsGeneration (trigger
             (set_role_permissions (pt_role_permissions pt ++ [mkRolePermission roleID permissionID]) pt))).

Definition RemovePermissionFromRole (roleID permissionID : Z) (pt : permTables) : res perm_err permTables :=
  if existsb (same_grant roleID permissionID) (pt_role_permissions pt) then
    Ok (bumpRolePermissionsGeneration (trigger
          (set_role_permissions (List.filter (fun rp => negb (same_grant roleID permissionID rp)) (pt_role_permissions pt)) pt)))
  else Err ErrRolePermissionNotAssigned.

(** [DeleteRole]'s cascade on the permission grants. *)
Definition delete_role_permissions (roleID : Z) (pt : permTables) : permTables :=
  bumpRolePermissionsGeneration (trigger
    (set_role_permissions (List.filter (fun rp => negb (rp_RoleID rp =? roleID)) (pt_role_permissions pt)) pt)).

(** * The machine *)

(** A resolution: not started; its statement ran at version [i]; it missed the
    cache; it ran the live join at version [j]; it answered. *)
Inductive resolution :=
| RIdle
| RRead (ids : list Z) (permission gen : bytes) (i : nat)
| RMiss (ids : list Z) (permission gen : bytes) (i : nat)
| RJoined (ids : list Z) (permission gen : bytes) (i j : nat) (allowed : bool)
| RUncached (ids : list Z) (permission : bytes) (i : nat)
| RAnswered (ids : list Z) (permission : bytes) (i : nat) (allowed : bool).

(** [history]: every committed version of the tables, oldest first. *)
Record cacheState := mkCacheState {
  history : list permTables; shared : rolePermissionCache; resolutions : list resolution }.

Definition version (s : cacheState) : nat := pred (length (history s)).
Definition with_res (s : cacheState) (k : nat) (r : resolution) : cacheState :=
  mkCacheState (history s) (shared s) (<[k := r]> (resolutions s)).

(** A resolution's next step, against the current version of the tables. *)
Inductive resolve_step (k : nat) : cacheState -> cacheState -> Prop :=
| rs_read s ids permission pt g : resolutions s !! k = Some RIdle -> Forall (fun id => 0 <= id) ids ->
    history s !! version s = Some pt -> generation pt = Some g ->
    resolve_step k s (with_res s k (RRead ids permission g (version s)))
| rs_untrusted s ids permission pt : resolutions s !! k = Some RIdle -> Forall (fun id => 0 <= id) ids ->
    history s !! version s = Some pt -> generation pt = None ->
    resolve_step k s (with_res s k (RUncached ids permission (version s)))
| rs_hit s ids permission g i e : resolutions s !! k = Some (RRead ids permission g i) ->
    shared s (rolePermKey ids permission) = Some e -> ce_generation e = g ->
    resolve_step k s (with_res s k (RAnswered ids permission i (ce_allowed e)))
| rs_miss s ids permission g i : resolutions s !! k = Some (RRead ids permission g i) ->
    (forall e, shared s (rolePermKey ids permission) = Some e -> ce_generation e <> g) ->
    resolve_step k s (with_res s k (RMiss ids permission g i))
| rs_join s ids permission g i pt : resolutions s !! k = Some (RMiss ids permission g i) -> history s !! version s = Some pt ->
    resolve_step k s (with_res s k (RJoined ids permission g i (version s) (set_grants pt ids permission)))
| rs_publish s ids permission g i j a : resolutions s !! k = Some (RJoined ids permission g i j a) ->
    resolve_step k s (mkCacheState (history s) (cache_set (shared s) (rolePermKey ids permission) (mkEntry g a))
                        (<[k := RAnswered ids permission i a]> (resolutions s)))
| rs_live s ids permission i pt : resolutions s !! k = Some (RUncached ids permission i) -> history s !! version s = Some pt ->
    resolve_step k s (with_res s k (RAnswered ids permission i (set_grants pt ids permission))).

(** A committed write: any change of the permission tables that moves the
    counter up, while the triggers stay in place. *)
Definition counted_write (pt pt' : permTables) : Prop :=
  (exists k, 1 <= k /\ pt_generation pt' = Some (FormatUint (counter pt + k))) /\ pt_triggers pt' = pt_triggers pt.

Inductive write_step : cacheState -> cacheState -> Prop :=
| ws_write s pt pt' : history s !! version s = Some pt -> counted_write pt pt' ->
    write_step s (mkCacheState (history s ++ [pt']) (shared s) (resolutions s)).

Definition cache_step (s s' : cacheState) : Prop := (exists k, resolve_step k s s') \/ write_step s s'.

(** An install whose counter is absent or a number, an empty cache, any number
    of resolutions to come. *)
Definition counted (pt : permTables) : Prop := pt_generation pt = None \/ exists n, 0 <= n /\ pt_generation pt = Some (FormatUint n).
Definition cache_initial (pt : permTables) (n : nat) : cacheState := mkCacheState [pt] (fun _ => None) (replicate n RIdle).
Definition cache_reachable (s : cacheState) : Prop := exists pt n, counted pt /\ rtc cache_step (cache_initial pt n) s.

(** * The writers are counted writes *)

Lemma counter_bump pt : 0 <= counter pt -> counter (bumpRolePermissionsGeneration pt) = counter pt + 1.
Proof. intros H. unfold counter at 1. cbn [bumpRolePermissionsGeneration set_generation pt_generation]. by rewrite parse_FormatUint by lia. Qed.

Lemma counted_nonneg pt : counted pt -> 0 <= counter pt.
Proof. intros [H|(n & Hn & H)]; unfold counter; rewrite H; [lia|]. rewrite parse_FormatUint by done. done. Qed.

Lemma bump_trigger_counted pt l : counted pt -> counted_write pt (bumpRolePermissionsGeneration (trigger (set_role_permissions l pt))).
Proof.
  intros H%counted_nonneg. unfold trigger. cbn [pt_triggers set_role_permissions]. destruct (pt_triggers pt) eqn:Et.
  - split; [|by cbn]. exists 2. split; [lia|]. cbn [bumpRolePermissionsGeneration set_generation pt_generation]. do 2 f_equal.
    rewrite counter_bump; unfold counter at 1; cbn [set_role_permissions pt_generation]; fold (counter pt); lia.
  - split; [|by cbn]. exists 1. split; [lia|]. done.
Qed.

(** Every write of the store moves the counter. *)
Lemma writers_counted pt roleID permissionID : counted pt ->
  (forall pt', AssignPermissionToRole roleID permissionID pt = Ok pt' -> counted_write pt pt') /\
  (forall pt', RemovePermissionFromRole roleID permissionID pt = Ok pt' -> counted_write pt pt') /\
  counted_write pt (delete_role_permissions roleID pt).
Proof.
  intros H. split; [|split; [|by apply bump_trigger_counted]]; intros pt'; unfold AssignPermissionToRole, RemovePermissionFromRole;
    destruct (existsb _ _); try done; intros [= <-]; by apply bump_trigger_counted.
Qed.

(** * The invariant *)

(** [a] is the live answer at a version from [i] on. *)
Definition live_since (h : list permTables) (i : nat) (ids : list Z) (permission : bytes) (a : bool) : Prop :=
  exists j pt, (i <= j)%nat /\ h !! j = Some pt /\ a = set_grants pt ids permission.

Definition read_at (h : list permTables) (i : nat) (g : bytes) : Prop := exists pt, h !! i = Some pt /\ generation pt = Some g.

Definition resolution_ok (h : list permTables) (r : resolution) : Prop :=
  match r with
  | RIdle => True
  | RRead ids _ g i | RMiss ids _ g i => Forall (fun id => 0 <= id) ids /\ read_at h i g
  | RJoined ids permission g i j a => Forall (fun id => 0 <= id) ids /\ read_at h i g /\ live_since h i ids permission a
  | RUncached ids _ i => Forall (fun id => 0 <= id) ids /\ is_Some (h !! i)
  | RAnswered ids permission i a => live_since h i ids permission a
  end.

Definition entry_ok (h : list permTables) (key : bytes) (e : rolePermCacheEntry) : Prop :=
  exists ids permission i, key = rolePermKey ids permission /\ Forall (fun id => 0 <= id) ids /\
    read_at h i (ce_generation e) /\ live_since h i ids permission (ce_allowed e).

Record cache_inv (s : cacheState) : Prop := mk_cache_inv {
  ci_counted : Forall counted (history s);
  ci_mono : forall i j a b, history s !! i = Some a -> history s !! j = Some b -> (i < j)%nat -> counter a < counter b;
  ci_entries : forall key e, shared s key = Some e -> entry_ok (history s) key e;
  ci_res : forall k r, resolutions s !! k = Some r -> resolution_ok (history s) r }.

Lemma live_since_app h h' i ids permission a : live_since h i ids permission a -> live_since (h ++ h') i ids permission a.
Proof. intros (j & pt & Hij & Hj & Ha). exists j, pt. split_and!; [done|by apply lookup_app_l_Some|done]. Qed.
Lemma read_at_app h h' i g : read_at h i g -> read_at (h ++ h') i g.
Proof. intros (pt & Hi & Hg). exists pt. split; [by apply lookup_app_l_Some|done]. Qed.

Lemma resolution_ok_app h h' r : resolution_ok h r -> resolution_ok (h ++ h') r.
Proof.
  destruct r; cbn; intros H; try done.
  - destruct H. split; [done|by apply read_at_app].
  - destruct H. split; [done|by apply read_at_app].
  - destruct H as (? & ? & ?). split_and!; [done|by apply read_at_app|by apply live_since_app].
  - destruct H as [? [x ?]]. split; [done|]. exists x. by apply lookup_app_l_Some.
  - by apply live_since_app.
Qed.

(** A generation names one version. *)
Lemma generation_counter pt g : generation pt = Some g -> counter pt = default 0 (parse_digits 0 g).
Proof. unfold generation, counter. destruct (pt_triggers pt); [|done]. intros [= <-]. by destruct (pt_generation pt). Qed.

Lemma read_at_inj s i j g : cache_inv s -> read_at (history s) i g -> read_at (history s) j g -> i = j.
Proof.
  intros H (a & Hi & Ga) (b & Hj & Gb). apply generation_counter in Ga, Gb.
  destruct (Nat.lt_trichotomy i j) as [Hlt|[?|Hlt]]; [|done|].
  - pose proof (ci_mono _ H i j a b Hi Hj Hlt). lia.
  - pose proof (ci_mono _ H j i b a Hj Hi Hlt). lia.
Qed.

(** A hit answers for the reader's own version or a later one. *)
Lemma hit_live s ids permission g i e : cache_inv s -> Forall (fun id => 0 <= id) ids -> read_at (history s) i g ->
  shared s (rolePermKey ids permission) = Some e -> ce_generation e = g -> live_since (history s) i ids permission (ce_allowed e).
Proof.
  intros H Hids Hr He <-. destruct (ci_entries _ H _ _ He) as (ids' & p' & i' & Ek & Hids' & Hr' & (j & pt & Hij & Hj & Ha)).
  apply rolePermKey_inj in Ek as [Hp ->]; [|done..]. rewrite (read_at_inj s i i' _ H Hr Hr'). exists j, pt. split_and!; [done|done|].
  rewrite Ha. symmetry. by apply set_grants_perm.
Qed.

Lemma with_res_inv s k r : cache_inv s -> resolution_ok (history s) r -> cache_inv (with_res s k r).
Proof.
  intros [Hc Hm He Hr] Hok. constructor; cbn; try done. intros k' r' Hk.
  apply list_lookup_insert_Some in Hk as [(_ & <- & _)|[_ Hk]]; [done|by eapply Hr].
Qed.

Lemma version_le (s : cacheState) i pt : history s !! i = Some pt -> (i <= version s)%nat.
Proof. intros Hi%lookup_lt_Some. unfold version. lia. Qed.

Lemma resolve_preserves k s s' : cache_inv s -> resolve_step k s s' -> cache_inv s'.
Proof.
  intros H Hst. destruct Hst as [s ids p pt g Hk Hids Hpt Hg|s ids p pt Hk Hids Hpt Hg|s ids p g i e Hk He Hg|s ids p g i Hk Hno|
    s ids p g i pt Hk Hpt|s ids p g i j a Hk|s ids p i pt Hk Hpt].
  - apply with_res_inv; [done|]. split; [done|]. by exists pt.
  - apply with_res_inv; [done|]. split; [done|]. by rewrite Hpt.
  - apply with_res_inv; [done|]. destruct (ci_res _ H _ _ Hk) as [Hids Hr]. by eapply hit_live.
  - apply with_res_inv; [done|]. exact (ci_res _ H _ _ Hk).
  - apply with_res_inv; [done|]. destruct (ci_res _ H _ _ Hk) as [Hids Hr]. split_and!; [done|done|].
    destruct Hr as (pt' & Hi & _). exists (version s), pt. split_and!; [by eapply version_le|done|done].
  - pose proof (ci_res _ H _ _ Hk) as (Hids & Hr & Hl). destruct (with_res_inv s k (RAnswered ids p i a) H Hl) as [Hc Hm He Hr'].
    constructor; cbn; try done. intros key e Hkey. unfold cache_set in Hkey. case_bool_decide; [|by apply He].
    injection Hkey as <-. exists ids, p, i. done.
  - apply with_res_inv; [done|]. destruct (ci_res _ H _ _ Hk) as [Hids [x Hi]]. exists (version s), pt.
    split_and!; [by eapply version_le|done|done].
Qed.

Lemma write_preserves s s' : cache_inv s -> write_step s s' -> cache_inv s'.
Proof.
  intros H Hst. destruct Hst as [s pt pt' Hpt ((n & Hn & Hg) & _)]. destruct H as [Hc Hm He Hr].
  assert (0 <= counter pt) as Hnn by (apply counted_nonneg; by eapply Forall_lookup_1).
  assert (counter pt < counter pt') as Hlt by (unfold counter at 2; rewrite Hg, parse_FormatUint by lia; cbn; lia).
  constructor; cbn.
  - apply Forall_app. split; [done|]. constructor; [|done]. right. exists (counter pt + n). split; [lia|done].
  - intros i j a b Hi Hj Hij. apply lookup_app_Some in Hj as [Hj|[Hlen Hj]].
    + rewrite lookup_app_l in Hi by (apply lookup_lt_Some in Hj; lia). by eapply Hm.
    + destruct (j - length (history s))%nat eqn:Ej; [|done]. cbn in Hj. injection Hj as <-.
      rewrite lookup_app_l in Hi by lia. destruct (decide (i = version s)) as [->|Hne]; [by simplify_eq|].
      pose proof (version_le _ _ _ Hi). pose proof (Hm i (version s) a pt Hi Hpt ltac:(lia)). lia.
  - intros key e Hk. destruct (He key e Hk) as (ids & p & i & ? & ? & ? & ?). exists ids, p, i.
    split_and!; [done|done|by apply read_at_app|by apply live_since_app].
  - intros k r Hk. by apply resolution_ok_app, (Hr k).
Qed.

Lemma cache_reachable_inv s : cache_reachable s -> cache_inv s.
Proof.
  intros (pt & n & Hpt & Hr). assert (forall a b, rtc cache_step a b -> cache_inv a -> cache_inv b) as Hind.
  { intros a b. induction 1 as [|a b c [[k Hab]|Hab] _ IH]; [done| |]; intros Ha; apply IH;
      [by eapply resolve_preserves|by eapply write_preserves]. }
  eapply Hind; [done|]. constructor; cbn; try done.
  - by constructor.
  - intros i j a b Hi Hj Hij. apply list_lookup_singleton_Some in Hi as [-> _], Hj as [-> _]. lia.
  - intros k r [-> _]%lookup_replicate. done.
Qed.

(** C34. The role-permission cache never serves a stale answer.  In every
    interleaving of resolutions and writes over one shared cache: a resolution
    whose statement ran at version [i] of the permission tables and answered
    gave the live answer at some version from [i] on; in particular, if every
    version from [i] on gives one answer, that is the answer.  And every write
    the store makes to the grants moves the generation, so the machine's writes
    cover it. *)
Theorem cache_never_stale s k ids permission i a :
  cache_reachable s -> resolutions s !! k = Some (RAnswered ids permission i a) ->
  (exists j pt, (i <= j)%nat /\ history s !! j = Some pt /\ a = set_grants pt ids permission) /\
  (forall b, (forall j pt, (i <= j)%nat -> history s !! j = Some pt -> set_grants pt ids permission = b) -> a = b) /\
  (forall pt, history s !! version s = Some pt -> forall roleID permissionID pt',
     AssignPermissionToRole roleID permissionID pt = Ok pt' \/ RemovePermissionFromRole roleID permissionID pt = Ok pt' \/
       pt' = delete_role_permissions roleID pt ->
     write_step s (mkCacheState (history s ++ [pt']) (shared s) (resolutions s))).
Proof.
  intros H%cache_reachable_inv Hk. pose proof (ci_res _ H _ _ Hk) as Hl. cbn in Hl. split; [exact Hl|]. split.
  - intros b Hb. destruct Hl as (j & pt & Hij & Hj & ->). by eapply Hb.
  - intros pt Hpt r p pt' Hw. apply (ws_write _ pt); [done|].
    destruct (writers_counted pt r p) as (H1 & H2 & H3); [eapply Forall_lookup_1; [apply (ci_counted _ H)|done]|].
    destruct Hw as [?|[?| ->]]; auto.
Qed.

(** * A concrete run: a grant is revoked between a resolution's statement and its join *)

Definition ex_revoked : permTables :=
  delete_role_permissions 11 (rb_perms ex_rbac).

Lemma cache_never_stale_witness :
  exists s, cache_reachable s /\ resolutions s !! 0%nat = Some (RAnswered [11] (go "secrets.read") 0 false) /\
    exists j pt, history s !! j = Some pt /\ false = set_grants pt [11] (go "secrets.read").
Proof.
  set (s := mkCacheState [rb_perms ex_rbac; ex_revoked]
    (cache_set (fun _ => None) (rolePermKey [11] (go "secrets.read")) (mkEntry (go "3") false))
    [RAnswered [11] (go "secrets.read") 0 false]).
  assert (cache_reachable s) as Hr.
  { exists (rb_perms ex_rbac), 1%nat. split; [right; exists 3; split; [lia|vm_compute; reflexivity]|].
    eapply rtc_l; [left; exists 0%nat; apply (rs_read 0 _ [11] (go "secrets.read") (rb_perms ex_rbac) (go "3"));
      [reflexivity|repeat constructor; lia|reflexivity|reflexivity]|].
    eapply rtc_l; [left; exists 0%nat; apply (rs_miss 0 _ [11] (go "secrets.read") (go "3") 0); [reflexivity|intros e He; discriminate He]|].
    eapply rtc_l; [right; apply (ws_write _ (rb_perms ex_rbac) ex_revoked); [reflexivity|];
      apply bump_trigger_counted; right; exists 3; split; [lia|vm_compute; reflexivity]|].
    eapply rtc_l; [left; exists 0%nat; apply (rs_join 0 _ [11] (go "secrets.read") (go "3") 0 ex_revoked); reflexivity|].
    eapply rtc_l; [left; exists 0%nat; apply (rs_publish 0 _ [11] (go "secrets.read") (go "3") 0 1 false); reflexivity|].
    apply rtc_refl. }
  exists s. split; [exact Hr|]. split; [reflexivity|].
  destruct (cache_never_stale s 0 [11] (go "secrets.read") 0 false Hr) as ((j & pt & _ & H1 & H2) & _); [reflexivity|].
  exists j, pt. split; [exact H1|exact H2].
Defined.
