(* ===== verification/Authz.v ===== *)
(** Authorization decisions ([internal/core/authz.go], [share_authz.go],
    [secret_acl.go], [permissions.go], [rules/pat_restriction.go]).

    The storage layer is the record [AuthzStore] of the reads a decision makes,
    any of which may fail; [RoleResolution] is what role resolution promises of
    it, discharged by the store of [Rbac].  A decision on a secret also notes a
    share elevation, on the request's recorder or straight to the audit log, so
    it is a function on that state.

    The theorems: what a role decision is; a token restriction only ever narrows
    a decision; a machine gets no bypass; what a per-secret decision requires,
    on every branch; a share allows only what is allowlisted and never without
    leaving a record. *)
From Stdlib Require Import ZArith Lia.
From stdpp Require Import base numbers tactics sets list.
From S2P Require Import Prelude.
From S2P Require Import GoStr.
From S2P Require Import Rbac.

(** * Token restrictions *)

Record PATRestriction := mkPAT {
  pat_Permissions : list bytes; pat_ProjectID : Z; pat_EnvironmentID : Z; pat_AllowedCIDRs : list bytes }.

(** [strings.TrimSuffix] *)
Definition TrimSuffix (s suffix : bytes) : bytes := if HasSuffix s suffix then take (length s - length suffix) s else s.

Definition pattern_allows (permission p : bytes) : bool :=
  bool_decide (p = go "*") || bool_decide (p = permission) ||
  (HasSuffix p (go ".*") && HasPrefix permission (TrimSuffix p (go "*"))).

Definition Allows (r : option PATRestriction) (permission : bytes) (scope : Scope) : bool :=
  match r with
  | None => true
  | Some r =>
      if negb (pat_ProjectID r =? 0) && negb (sc_ProjectID scope =? pat_ProjectID r) then false
      else if negb (pat_EnvironmentID r =? 0) && negb (sc_EnvironmentID scope =? pat_EnvironmentID r) then false
      else if is_nil (pat_Permissions r) then true
      else existsb (pattern_allows permission) (pat_Permissions r)
  end.

(** * Data *)

Record SecretNode := mkNode { sn_ID : Z; sn_ProjectID : Z; sn_EnvironmentID : Z; sn_ParentID : option Z; sn_OwnerID : Z }.
#[export] Instance SecretNode_eq_dec : EqDecision SecretNode.
Proof. solve_decision. Defined.
Record SecretACL := mkACL { acl_ID : Z; acl_SecretID : Z; acl_UserID : Z; acl_Permissions : bytes }.
Record ShareRecord := mkShare {
  sh_ID : Z; sh_SecretID : Z; sh_RecipientID : Z; sh_IsGroup : bool; sh_Permission : bytes; sh_ExpiresAt : option Z }.

Definition PermissionNone := go "none".
Definition PermissionRead := go "read".
Definition PermissionWrite := go "write".
Definition PermissionOwner := go "owner".
Definition permSecretsRead := go "secrets.read".
Definition permSecretsWrite := go "secrets.write".

Record shareGrant := mkGrant { sg_Level : bytes; sg_ShareID : option Z; sg_Source : bytes }.
Definition no_grant : shareGrant := mkGrant PermissionNone None [].

Record SecretDecision := mkDecision { sd_Allowed : bool; sd_ShareNotElevated : bool }.
Definition deny : SecretDecision := mkDecision false false.
Definition allow : SecretDecision := mkDecision true false.

Record shareElevation := mkElevation {
  se_userID : Z; se_secretID : Z; se_projectID : Z; se_perm : bytes; se_action : bytes; se_grant : shareGrant }.

(** The request: its token restriction, whether it has a recorder and a gate
    memo, whether its actor is a machine. *)
Record reqctx := mkCtx { cx_pat : option PATRestriction; cx_recorder : bool; cx_gate : bool; cx_machine : bool }.

(** What a decision leaves behind: the recorder's pending elevations, the elevations
    handed to the audit log at once, and the gate's remembered read decision.  The audit
    write is best effort: [tr_audited] lists the writes issued, and no decision waits for
    their outcome. *)
Record trace := mkTrace { tr_pending : list shareElevation; tr_audited : list shareElevation; tr_gate : option (Z * SecretNode) }.

(** * The storage layer *)

Record AuthzStore (E : Type) := mkAuthzStore {
  s_ResolveUser : Z -> Scope -> bytes -> res E (option PrincipalPermission);
  s_ResolveMachine : Z -> Scope -> bytes -> res E (option PrincipalPermission);
  s_GetSecret : Z -> res E SecretNode;
  (** [None]: [ErrSecretACLNotFound] *)
  s_GetSecretACL : Z -> Z -> res E (option SecretACL);
  s_GetSecretAncestors : Z -> res E (list Z);
  s_IsProjectMember : Z -> Z -> res E bool;
  s_ListSharesBySecret : Z -> Z -> res E (list ShareRecord);
  s_GetUserGroupsAt : Z -> Scope -> res E (list Z) }.
Arguments s_ResolveUser {E}. Arguments s_ResolveMachine {E}. Arguments s_GetSecret {E}. Arguments s_GetSecretACL {E}.
Arguments s_GetSecretAncestors {E}. Arguments s_IsProjectMember {E}. Arguments s_ListSharesBySecret {E}. Arguments s_GetUserGroupsAt {E}.

Inductive authz_err (E : Type) := AuthzStorage (e : E) | ErrNoPrincipalPermission.
Arguments AuthzStorage {E}. Arguments ErrNoPrincipalPermission {E}.
Definition stored {E A} (m : res E A) : res (authz_err E) A := match m with Ok a => Ok a | Err e => Err (AuthzStorage e) end.

(** * Share levels *)

Definition level_rank (l : bytes) : option Z :=
  if bool_decide (l = PermissionNone) then Some 0 else if bool_decide (l = PermissionRead) then Some 1
  else if bool_decide (l = PermissionWrite) then Some 2 else if bool_decide (l = PermissionOwner) then Some 3 else None.

Definition hasRequiredPermission (userPermission requiredPermission : bytes) : bool :=
  match level_rank userPermission, level_rank requiredPermission with
  | Some u, Some r => r <=? u
  | _, _ => false
  end.

Definition shareLevel (stored : bytes) : bytes :=
  if bool_decide (stored = PermissionRead) then PermissionRead
  else if bool_decide (stored = PermissionWrite) then PermissionWrite else PermissionNone.

Definition shareNeedFor (perm : bytes) : bytes :=
  if bool_decide (perm = permSecretsRead) then PermissionRead
  else if bool_decide (perm = permSecretsWrite) then PermissionWrite else PermissionNone.

(** The actions [secretActionShareElevates] maps to true; the others, and names
    not in the map, are false. *)
Definition secretActionShareElevates (action : bytes) : bool :=
  existsb (fun a => bool_decide (a = action)) [go "secret.update"; go "secret.update_metadata"; go "secret.rotate"].

Definition shareMayElevate (need action : bytes) : bool :=
  negb (bool_decide (need = PermissionWrite)) || secretActionShareElevates action.

Definition shareActive (now : Z) (s : ShareRecord) : bool :=
  match sh_ExpiresAt s with None => true | Some e => now <? e end.
Definition activeShares (shares : list ShareRecord) (now : Z) : list ShareRecord := List.filter (shareActive now) shares.

Fixpoint directShareGrant (shares : list ShareRecord) (userID : Z) (need : bytes) : shareGrant :=
  match shares with
  | [] => no_grant
  | s :: shares =>
      if sh_IsGroup s || negb (sh_RecipientID s =? userID) then directShareGrant shares userID need
      else if hasRequiredPermission (shareLevel (sh_Permission s)) need
      then mkGrant (shareLevel (sh_Permission s)) (Some (sh_ID s)) (go "direct_share")
      else directShareGrant shares userID need
  end.

Definition highest_step (groupIDs : list Z) (best : bytes * option Z) (s : ShareRecord) : bytes * option Z :=
  if negb (sh_IsGroup s) then best
  else if negb (bool_decide (sh_RecipientID s ∈ groupIDs)) then best
  else if hasRequiredPermission (sh_Permission s) best.1 then (sh_Permission s, Some (sh_ID s)) else best.
Definition highestGroupShare (shares : list ShareRecord) (groupIDs : list Z) : bytes * option Z :=
  fold_left (highest_step groupIDs) shares (PermissionNone, None).

Definition groupShareGrant (level : bytes) (shareID : option Z) (need : bytes) : shareGrant :=
  if hasRequiredPermission (shareLevel level) need then mkGrant (shareLevel level) shareID (go "group_share") else no_grant.

Definition is_none_level (g : shareGrant) : bool := bool_decide (sg_Level g = PermissionNone).

(** * Decisions *)

Section decisions.
Context {E : Type} (st : AuthzStore E) (DecodeSecretACLPerms : bytes -> list bytes).

Definition userHasScopedPermission (userID : Z) (permission : bytes) (scope : Scope) : res (authz_err E) bool :=
  let? r := stored (s_ResolveUser st userID scope permission) in
  match r with
  | None => Err ErrNoPrincipalPermission
  | Some r => if is_nil (pp_RoleIDs r) then Ok false else if pp_Bypasses r then Ok true else Ok (pp_HasPermission r)
  end.

Definition Authorize (cx : reqctx) (userID : Z) (permission : bytes) (scope : Scope) : res (authz_err E) bool :=
  if negb (Allows (cx_pat cx) permission scope) then Ok false else userHasScopedPermission userID permission scope.

Definition AuthorizePrincipal (cx : reqctx) (isMachine : bool) (principalID : Z) (permission : bytes) (scope : Scope)
  : res (authz_err E) bool :=
  if negb (Allows (cx_pat cx) permission scope) then Ok false
  else if isMachine then
    let? r := stored (s_ResolveMachine st principalID scope permission) in
    match r with
    | None => Err ErrNoPrincipalPermission
    | Some r => if is_nil (pp_RoleIDs r) then Ok false else Ok (pp_HasPermission r)
    end
  else Authorize cx principalID permission scope.

Definition aclGrantsPermission (nodeID userID : Z) (perm : bytes) : res (authz_err E) bool :=
  let? acl := stored (s_GetSecretACL st nodeID userID) in
  match acl with
  | None => Ok false
  | Some acl =>
      if negb (bool_decide (perm ∈ DecodeSecretACLPerms (acl_Permissions acl))) then Ok false
      else let? node := stored (s_GetSecret st nodeID) in stored (s_IsProjectMember st userID (sn_ProjectID node))
  end.

Fixpoint acl_any (userID : Z) (perm : bytes) (nodes : list Z) : res (authz_err E) bool :=
  match nodes with
  | [] => Ok false
  | n :: nodes =>
      let? found := aclGrantsPermission n userID perm in
      if (found : bool) then Ok true else acl_any userID perm nodes
  end.

Definition HasSecretACL (userID secretID : Z) (perm : bytes) : res (authz_err E) bool :=
  let? found := aclGrantsPermission secretID userID perm in
  if (found : bool) then Ok true
  else let? ancestors := stored (s_GetSecretAncestors st secretID) in acl_any userID perm ancestors.

(** The two clock readings of [activeShareGrant]. *)
Context (now1 now2 : Z).

Definition activeShareGrant (userID secretID projectID : Z) (need : bytes) : res (authz_err E) shareGrant :=
  if userID =? 0 then Ok no_grant
  else
    let? shares := stored (s_ListSharesBySecret st secretID now1) in
    let shares := activeShares shares now2 in
    let direct := directShareGrant shares userID need in
    let grant :=
      if is_none_level direct then
        match s_GetUserGroupsAt st userID (mkScope projectID 0) with
        | Err _ => direct
        | Ok groups => let '(level, id) := highestGroupShare shares groups in groupShareGrant level id need
        end
      else direct in
    if is_none_level grant then Ok no_grant
    else
      let? member := stored (s_IsProjectMember st userID projectID) in
      if (member : bool) then Ok grant else Ok no_grant.

Definition sharePermissionFor (userID secretID projectID : Z) (need action : bytes) : res (authz_err E) shareGrant :=
  if negb (shareMayElevate need action) then Ok no_grant else activeShareGrant userID secretID projectID need.

Definition shareCoversButNotElevated (userID secretID projectID : Z) (need action : bytes) : bool :=
  if negb (bool_decide (need = PermissionWrite)) || secretActionShareElevates action then false
  else match activeShareGrant userID secretID projectID need with Ok g => negb (is_none_level g) | Err _ => false end.

Definition same_elevation (e p : shareElevation) : bool :=
  (se_userID p =? se_userID e) && (se_secretID p =? se_secretID e) && bool_decide (se_action p = se_action e) &&
  match sg_ShareID (se_grant p), sg_ShareID (se_grant e) with Some a, Some b => a =? b | _, _ => false end.

(** [ShareElevationRecorder.add] *)
Definition recorder_add (e : shareElevation) (pending : list shareElevation) : list shareElevation :=
  if existsb (same_elevation e) pending then pending else pending ++ [e].

Definition noteShareElevation (cx : reqctx) (userID : Z) (secret : SecretNode) (perm action : bytes) (grant : shareGrant) (t : trace)
  : bool * trace :=
  if is_none (sg_ShareID grant) then (false, t)
  else
    let e := mkElevation userID (sn_ID secret) (sn_ProjectID secret) perm (if bool_decide (action = []) then perm else action) grant in
    if cx_recorder cx then (true, mkTrace (recorder_add e (tr_pending t)) (tr_audited t) (tr_gate t))
    else if negb (bool_decide (perm = permSecretsRead)) then (false, t)
    else (true, mkTrace (tr_pending t) (tr_audited t ++ [e]) (tr_gate t)).

Definition noteGateReadAllow (cx : reqctx) (userID : Z) (secret : SecretNode) (perm action : bytes) (t : trace) : trace :=
  if negb (cx_gate cx) || negb (bool_decide (perm = permSecretsRead)) || negb (bool_decide (action = [])) || (userID =? 0) ||
     (sn_ID secret =? 0) || cx_machine cx then t
  else mkTrace (tr_pending t) (tr_audited t) (Some (userID, secret)).

(** [resolved]: the secrets the caller has already fetched. *)
Definition secretForDecision (secretID : Z) (resolved : list (option SecretNode)) : res (authz_err E) SecretNode :=
  match resolved with
  | [Some s] => if sn_ID s =? secretID then Ok s else stored (s_GetSecret st secretID)
  | _ => stored (s_GetSecret st secretID)
  end.

Definition node_scope (s : SecretNode) : Scope := mkScope (sn_ProjectID s) (sn_EnvironmentID s).

(** The share term, when neither an ACL nor a role allowed. *)
Definition share_term (cx : reqctx) (userID secretID : Z) (secret : SecretNode) (perm action : bytes) (t : trace)
  : res (authz_err E) SecretDecision * trace :=
  let need := shareNeedFor perm in
  if bool_decide (need = PermissionNone) then (Ok deny, t)
  else match sharePermissionFor userID secretID (sn_ProjectID secret) need action with
       | Err e => (Err e, t)
       | Ok grant =>
           if is_none_level grant then
             (Ok (mkDecision false (shareCoversButNotElevated userID secretID (sn_ProjectID secret) need action)), t)
           else let '(noted, t) := noteShareElevation cx userID secret perm action grant t in
                if (noted : bool) then (Ok allow, noteGateReadAllow cx userID secret perm action t) else (Ok deny, t)
       end.

Definition AuthorizeSecretAction (cx : reqctx) (userID secretID : Z) (perm action : bytes) (resolved : list (option SecretNode)) (t : trace)
  : res (authz_err E) SecretDecision * trace :=
  match secretForDecision secretID resolved with
  | Err e => (Err e, t)
  | Ok secret =>
      if negb (Allows (cx_pat cx) perm (node_scope secret)) then (Ok deny, t)
      else match HasSecretACL userID secretID perm with
           | Err e => (Err e, t)
           | Ok true => (Ok allow, noteGateReadAllow cx userID secret perm action t)
           | Ok false =>
               match Authorize cx userID perm (node_scope secret) with
               | Err e => (Err e, t)
               | Ok true => (Ok allow, noteGateReadAllow cx userID secret perm action t)
               | Ok false => share_term cx userID secretID secret perm action t
               end
           end
  end.

Definition AuthorizeSecretPrincipalForSecretAction (cx : reqctx) (isMachine : bool) (principalID : Z) (secret : SecretNode)
    (perm action : bytes) (t : trace) : res (authz_err E) SecretDecision * trace :=
  if negb isMachine then AuthorizeSecretAction cx principalID (sn_ID secret) perm action [Some secret] t
  else match AuthorizePrincipal cx isMachine principalID perm (node_scope secret) with
       | Err e => (Err e, t)
       | Ok allowed => (Ok (mkDecision allowed false), t)
       end.
End decisions.

(** * Role decisions *)

(** What role resolution promises a decision: for every principal and scope it
    answers, for the roles the tables grant there. *)
Class RoleResolution {E} (st : AuthzStore E) (db : rbacDB) (now : Z) : Prop := {
  rr_user userID scope permission : exists r, s_ResolveUser st userID scope permission = Ok (Some r) /\
    answers db (user_ids db now userID scope) (existsb (role_bypasses db) (user_ids db now userID scope)) permission r;
  rr_machine machineID scope permission : exists r, s_ResolveMachine st machineID scope permission = Ok (Some r) /\
    answers db (machine_role_ids db machineID scope) false permission r }.

(** The reads of the store of [Rbac], at a given cache. *)
Definition resolved_user {E} (db : rbacDB) (now : Z) (f : faults E) (ce : bool) (c : rolePermissionCache) (u : Z) (scope : Scope) (p : bytes)
  : res E (option PrincipalPermission) := match (ResolveUserPermissionAt db now f ce u scope p c).1 with Ok r => Ok (Some r) | Err e => Err e end.
Definition resolved_machine {E} (db : rbacDB) (now : Z) (f : faults E) (ce : bool) (pf : option PrefetchedPermission) (c : rolePermissionCache) (m : Z) (scope : Scope) (p : bytes)
  : res E (option PrincipalPermission) := match (ResolveMachinePermissionAt db now f ce pf m scope p c).1 with Ok r => Ok (Some r) | Err e => Err e end.

Lemma store_RoleResolution {E} (st : AuthzStore E) db now (f : faults E) ce pf c :
  rbac_wf db -> coherent (rb_perms db) c -> f_live f = None -> parked db pf ->
  f_combined f = None \/ (f_direct f = None /\ f_groups f = None /\ f_machine f = None /\ f_bypass f = None) ->
  (forall u scope p, s_ResolveUser st u scope p = resolved_user db now f ce c u scope p) ->
  (forall m scope p, s_ResolveMachine st m scope p = resolved_machine db now f ce pf c m scope p) ->
  RoleResolution st db now.
Proof.
  intros Hwf Hc Hl Hpf Hor Hu Hm. constructor; intros id scope p.
  - destruct (ResolvePermission_meets db now f ce pf id id scope p c Hwf Hc Hl Hpf Hor) as ((r & c' & Hr & Ha & _) & _).
    exists r. rewrite Hu. unfold resolved_user. by rewrite Hr.
  - destruct (ResolvePermission_meets db now f ce pf id id scope p c Hwf Hc Hl Hpf Hor) as (_ & _ & (r & c' & Hr & Ha & _)).
    exists r. rewrite Hm. unfold resolved_machine. by rewrite Hr.
Qed.

Lemma existsb_nil_same {A} (P : A -> bool) (l l' : list A) : (forall x, x ∈ l <-> x ∈ l') -> l = [] -> existsb P l' = false.
Proof. intros H ->. rewrite <- (existsb_same P [] l'); done. Qed.

Lemma userHasScopedPermission_roles {E} (st : AuthzStore E) db now `{!RoleResolution st db now} userID permission scope :
  let ids := user_ids db now userID scope in
  userHasScopedPermission st userID permission scope = Ok (existsb (role_bypasses db) ids || set_grants (rb_perms db) ids permission).
Proof.
  intros ids. unfold userHasScopedPermission. destruct (rr_user userID scope permission) as (r & -> & Hids & _ & Hb & Hh).
  cbn [stored res_bind]. rewrite Hb. destruct (pp_RoleIDs r) as [|x l] eqn:Er; cbn [is_nil].
  - rewrite (existsb_nil_same (role_bypasses db) [] ids) by done. rewrite <- (set_grants_same _ [] ids) by done. by rewrite set_grants_nil.
  - fold ids. destruct (existsb (role_bypasses db) ids) eqn:Eb; [done|]. cbn [orb]. by rewrite Hh.
Qed.

(** * Token restrictions narrow *)

Definition unrestricted (cx : reqctx) : reqctx := mkCtx None (cx_recorder cx) (cx_gate cx) (cx_machine cx).

Section narrowing.
Context {E : Type} (st : AuthzStore E) (decode : bytes -> list bytes) (now1 now2 : Z).

Lemma Authorize_restricted cx userID permission scope :
  Authorize st cx userID permission scope =
  if Allows (cx_pat cx) permission scope then Authorize st (unrestricted cx) userID permission scope else Ok false.
Proof. unfold Authorize. cbn [unrestricted cx_pat Allows negb]. by destruct (Allows _ _ _). Qed.

Lemma AuthorizePrincipal_restricted cx isMachine principalID permission scope :
  AuthorizePrincipal st cx isMachine principalID permission scope =
  if Allows (cx_pat cx) permission scope then AuthorizePrincipal st (unrestricted cx) isMachine principalID permission scope else Ok false.
Proof.
  unfold AuthorizePrincipal. cbn [unrestricted cx_pat]. destruct (Allows (cx_pat cx) permission scope) eqn:Ea; cbn [negb Allows]; [|done].
  destruct isMachine; [done|]. rewrite Authorize_restricted, Ea. done.
Qed.

Lemma AuthorizeSecretAction_restricted cx userID secretID perm action resolved t secret :
  secretForDecision st secretID resolved = Ok secret ->
  AuthorizeSecretAction st decode now1 now2 cx userID secretID perm action resolved t =
  if Allows (cx_pat cx) perm (node_scope secret)
  then AuthorizeSecretAction st decode now1 now2 (unrestricted cx) userID secretID perm action resolved t else (Ok deny, t).
Proof.
  intros Hs. unfold AuthorizeSecretAction. rewrite Hs. cbn [unrestricted cx_pat].
  destruct (Allows (cx_pat cx) perm (node_scope secret)) eqn:Ea; cbn [negb Allows]; [|done].
  destruct (HasSecretACL _ _ _ _ _) as [[|]|]; [done| |done]. rewrite Authorize_restricted, Ea. done.
Qed.
End narrowing.

(** * What stands behind a per-secret decision *)

Section behind.
Context {E : Type} (st : AuthzStore E) (decode : bytes -> list bytes) (now1 now2 : Z).

(** An ACL row on the secret or on an ancestor grants [perm] to a member of that
    node's project. *)
Definition acl_backed (userID secretID : Z) (perm : bytes) : Prop :=
  exists n acl node, (n = secretID \/ exists anc, s_GetSecretAncestors st secretID = Ok anc /\ n ∈ anc) /\
    s_GetSecretACL st n userID = Ok (Some acl) /\ perm ∈ decode (acl_Permissions acl) /\
    s_GetSecret st n = Ok node /\ s_IsProjectMember st userID (sn_ProjectID node) = Ok true.

Definition share_for (userID : Z) (groups : list Z) (s : ShareRecord) : Prop :=
  (sh_IsGroup s = false /\ sh_RecipientID s = userID) \/ (sh_IsGroup s = true /\ sh_RecipientID s ∈ groups).

(** An active share of the secret with a member of its project covers [need]. *)
Definition share_backed (userID secretID projectID : Z) (need : bytes) (g : shareGrant) : Prop :=
  exists shares s groups, userID <> 0 /\ s_ListSharesBySecret st secretID now1 = Ok shares /\ s ∈ shares /\
    shareActive now2 s = true /\ share_for userID groups s /\
    (sh_IsGroup s = true -> s_GetUserGroupsAt st userID (mkScope projectID 0) = Ok groups) /\
    hasRequiredPermission (shareLevel (sh_Permission s)) need = true /\
    s_IsProjectMember st userID projectID = Ok true /\ sg_ShareID g = Some (sh_ID s) /\ sg_Level g = shareLevel (sh_Permission s).

Lemma aclGrantsPermission_true n userID perm : aclGrantsPermission st decode n userID perm = Ok true ->
  exists acl node, s_GetSecretACL st n userID = Ok (Some acl) /\ perm ∈ decode (acl_Permissions acl) /\
    s_GetSecret st n = Ok node /\ s_IsProjectMember st userID (sn_ProjectID node) = Ok true.
Proof.
  unfold aclGrantsPermission. destruct (s_GetSecretACL st n userID) as [[acl|]|] eqn:Ea; cbn [stored res_bind]; try done.
  case_bool_decide; cbn [negb]; [|done]. destruct (s_GetSecret st n) as [node|] eqn:En; cbn [stored res_bind]; [|done].
  destruct (s_IsProjectMember _ _ _) as [m|] eqn:Em; cbn [stored]; [|done]. intros [= ->]. eauto 10.
Qed.

Lemma acl_any_true userID perm l : acl_any st decode userID perm l = Ok true ->
  exists n, n ∈ l /\ aclGrantsPermission st decode n userID perm = Ok true.
Proof.
  induction l as [|n l IH]; cbn [acl_any]; [done|].
  destruct (aclGrantsPermission st decode n userID perm) as [[|]|] eqn:En; cbn [res_bind]; [|intros H|done].
  - intros _. exists n. split; [left|done].
  - destruct (IH H) as (m & Hm & ?). exists m. split; [by right|done].
Qed.

Lemma HasSecretACL_true userID secretID perm : HasSecretACL st decode userID secretID perm = Ok true -> acl_backed userID secretID perm.
Proof.
  unfold HasSecretACL. destruct (aclGrantsPermission st decode secretID userID perm) as [[|]|] eqn:Es; cbn [res_bind]; [| |done].
  - intros _. destruct (aclGrantsPermission_true _ _ _ Es) as (acl & node & ? & ? & ? & ?). exists secretID, acl, node. eauto 10.
  - destruct (s_GetSecretAncestors st secretID) as [anc|] eqn:Ean; cbn [stored res_bind]; [|done].
    intros (n & Hn & Hg)%acl_any_true. destruct (aclGrantsPermission_true _ _ _ Hg) as (acl & node & ? & ? & ? & ?).
    exists n, acl, node. eauto 10.
Qed.

Lemma directShareGrant_some shares userID need : is_none_level (directShareGrant shares userID need) = false ->
  exists s, s ∈ shares /\ sh_IsGroup s = false /\ sh_RecipientID s = userID /\
    hasRequiredPermission (shareLevel (sh_Permission s)) need = true /\
    directShareGrant shares userID need = mkGrant (shareLevel (sh_Permission s)) (Some (sh_ID s)) (go "direct_share").
Proof.
  induction shares as [|s l IH]; cbn [directShareGrant]; [done|].
  destruct (sh_IsGroup s) eqn:Eg; cbn [orb]; [intros H; destruct (IH H) as (x & ? & ?); exists x; split; [by right|done]|].
  destruct (Z.eqb_spec (sh_RecipientID s) userID) as [Er|]; cbn [negb];
    [|intros H; destruct (IH H) as (x & ? & ?); exists x; split; [by right|done]].
  destruct (hasRequiredPermission _ _) eqn:Eh; [|intros H; destruct (IH H) as (x & ? & ?); exists x; split; [by right|done]].
  intros _. exists s. split; [left|done].
Qed.

Lemma highestGroupShare_some groups shares : forall best level id,
  fold_left (highest_step groups) shares best = (level, id) ->
  (level, id) = best \/ exists s, s ∈ shares /\ sh_IsGroup s = true /\ sh_RecipientID s ∈ groups /\ level = sh_Permission s /\ id = Some (sh_ID s).
Proof.
  induction shares as [|s l IH]; intros best level id; cbn [fold_left]; [by left|].
  intros H. destruct (IH _ _ _ H) as [Hb|(x & ? & ?)]; [|right; exists x; split; [by right|done]].
  unfold highest_step in Hb. destruct (sh_IsGroup s) eqn:Eg; cbn [negb] in Hb; [|by left].
  destruct (bool_decide_reflect (sh_RecipientID s ∈ groups)) as [Hr|]; cbn [negb] in Hb; [|by left].
  destruct (hasRequiredPermission _ _); [|by left]. right. exists s. injection Hb as -> ->. split; [left|done].
Qed.

(** [need] of the share term is never "none". *)
Lemma required_not_none lvl need : need = PermissionRead \/ need = PermissionWrite ->
  hasRequiredPermission lvl need = true -> lvl <> PermissionNone.
Proof. intros [-> | ->] H ->; vm_compute in H; discriminate. Qed.

Lemma activeShareGrant_some userID secretID projectID need g : need = PermissionRead \/ need = PermissionWrite ->
  activeShareGrant st now1 now2 userID secretID projectID need = Ok g -> is_none_level g = false ->
  share_backed userID secretID projectID need g.
Proof.
  intros Hneed. unfold activeShareGrant. destruct (Z.eqb_spec userID 0); [by intros [= <-]|].
  destruct (s_ListSharesBySecret st secretID now1) as [shares|] eqn:El; cbn [stored res_bind]; [|done].
  set (act := activeShares shares now2). intros Hg Hn.
  assert (forall s, s ∈ act -> s ∈ shares /\ shareActive now2 s = true) as Hact.
  { intros s Hs. apply list_elem_of_In, filter_In in Hs as [Hs ?]. split; [by apply list_elem_of_In|done]. }
  destruct (is_none_level (directShareGrant act userID need)) eqn:Ed.
  - destruct (s_GetUserGroupsAt st userID (mkScope projectID 0)) as [groups|] eqn:Eg; [|rewrite Ed in Hg; by injection Hg as <-].
    destruct (highestGroupShare act groups) as [level id] eqn:Eh. unfold highestGroupShare in Eh. unfold groupShareGrant in Hg.
    destruct (hasRequiredPermission (shareLevel level) need) eqn:Er; [|by injection Hg as <-].
    destruct (is_none_level (mkGrant (shareLevel level) id (go "group_share"))) eqn:En; [by injection Hg as <-|].
    destruct (s_IsProjectMember st userID projectID) as [[|]|] eqn:Em; cbn [stored res_bind] in Hg; [|by injection Hg as <-|done].
    injection Hg as <-. apply highestGroupShare_some in Eh as [Hb|(s & Hs & Hgrp & Hin & -> & ->)].
    { injection Hb as -> ->. by vm_compute in En. }
    destruct (Hact s Hs). exists shares, s, groups. split_and!; try done. by right.
  - destruct (directShareGrant_some _ _ _ Ed) as (s & Hs & Hgrp & Hrec & Hreq & Eq). rewrite Ed, Eq in Hg.
    destruct (s_IsProjectMember st userID projectID) as [[|]|] eqn:Em; cbn [stored res_bind] in Hg; [|by injection Hg as <-|done].
    injection Hg as <-. destruct (Hact s Hs). exists shares, s, []. split_and!; try done; [by left|congruence].
Qed.

Lemma noteGateReadAllow_trace cx userID secret perm action t :
  tr_pending (noteGateReadAllow cx userID secret perm action t) = tr_pending t /\
  tr_audited (noteGateReadAllow cx userID secret perm action t) = tr_audited t.
Proof. unfold noteGateReadAllow. by destruct (_ || cx_machine cx). Qed.

(** The trace of a grant a share made. *)
Definition recorded (cx : reqctx) (userID : Z) (secret : SecretNode) (g : shareGrant) (t t' : trace) : Prop :=
  exists e, se_userID e = userID /\ se_secretID e = sn_ID secret /\ sg_ShareID (se_grant e) = sg_ShareID g /\
    if cx_recorder cx then e ∈ tr_pending t' /\ tr_pending t `prefix_of` tr_pending t' /\ tr_audited t' = tr_audited t
    else tr_pending t' = tr_pending t /\ tr_audited t' = tr_audited t ++ [e].

Lemma recorder_add_spec e pending : pending `prefix_of` recorder_add e pending /\
  exists p, p ∈ recorder_add e pending /\ (p = e \/ same_elevation e p = true).
Proof.
  unfold recorder_add. destruct (existsb (same_elevation e) pending) eqn:Ex.
  - split; [done|]. apply existsb_elem in Ex as (p & Hp & Hs). eauto.
  - split; [by apply prefix_app_r|]. exists e. split; [set_solver|by left].
Qed.

Lemma noteShareElevation_true cx userID secret perm action g t t' :
  noteShareElevation cx userID secret perm action g t = (true, t') ->
  recorded cx userID secret g t t' /\ (cx_recorder cx = true \/ perm = permSecretsRead).
Proof.
  unfold noteShareElevation. destruct (sg_ShareID g) as [id|] eqn:Eid; cbn [is_none]; [|done].
  set (e := mkElevation _ _ _ _ _ _). destruct (cx_recorder cx) eqn:Er.
  - intros [= <-]. destruct (recorder_add_spec e (tr_pending t)) as [Hpre (p & Hp & Hs)]. split; [|by left].
    exists p. rewrite Er. destruct Hs as [->|Hs].
    + done.
    + unfold same_elevation in Hs. breflect. cbn [e se_userID se_secretID se_grant] in *. rewrite Eid in *.
      destruct (sg_ShareID (se_grant p)); [|done]. breflect. subst. done.
  - case_bool_decide; cbn [negb]; [|done]. intros [= <-]. split; [|by right]. exists e. by rewrite Er.
Qed.
End behind.

(** C32. What an allowed per-secret decision rests on.  If the decision on a
    secret allows, then the secret was resolved, the token restriction allows the
    permission at the secret's own scope, and either an ACL row on the secret or
    an ancestor grants it to a member of that node's project, or the actor's
    roles authorize it at that scope, in both cases leaving no elevation behind;
    or an active share of the secret covers it for a member of the secret's
    project.  A share covers only reading and writing, and writing only for an
    allowlisted action in a request with a recorder, and the grant it makes
    has been put on the recorder, or handed to the audit log's best-effort write, when the
    decision returns. *)
Theorem AuthorizeSecretAction_rests_on {E} (st : AuthzStore E) decode now1 now2 cx userID secretID perm action resolved t d t' :
  AuthorizeSecretAction st decode now1 now2 cx userID secretID perm action resolved t = (Ok d, t') -> sd_Allowed d = true ->
  exists secret, secretForDecision st secretID resolved = Ok secret /\ Allows (cx_pat cx) perm (node_scope secret) = true /\
    (((acl_backed st decode userID secretID perm \/ Authorize st cx userID perm (node_scope secret) = Ok true) /\
      tr_pending t' = tr_pending t /\ tr_audited t' = tr_audited t) \/
     exists g, share_backed st now1 now2 userID secretID (sn_ProjectID secret) (shareNeedFor perm) g /\
       (perm = permSecretsRead \/ (perm = permSecretsWrite /\ secretActionShareElevates action = true /\ cx_recorder cx = true)) /\
       recorded cx userID secret g t t').
Proof.
  unfold AuthorizeSecretAction. destruct (secretForDecision st secretID resolved) as [secret|] eqn:Es; [|done].
  destruct (Allows (cx_pat cx) perm (node_scope secret)) eqn:Ea; cbn [negb]; [|by intros [= <- <-]].
  intros H Hd. exists secret. split; [done|]. split; [done|].
  destruct (HasSecretACL st decode userID secretID perm) as [[|]|] eqn:Eacl; [| |done].
  { injection H as <- <-. left. split; [left; by apply HasSecretACL_true|]. apply noteGateReadAllow_trace. }
  destruct (Authorize st cx userID perm (node_scope secret)) as [[|]|] eqn:Eau; [| |done].
  { injection H as <- <-. left. split; [by right|]. apply noteGateReadAllow_trace. }
  unfold share_term in H. case_bool_decide as Hneed; [by injection H as <- <-|].
  destruct (sharePermissionFor st now1 now2 userID secretID _ _ action) as [g|] eqn:Esp; [|done].
  destruct (is_none_level g) eqn:En; [injection H as <- <-; done|].
  destruct (noteShareElevation cx userID secret perm action g t) as [noted t1] eqn:Eno. destruct noted; [|by injection H as <- <-].
  injection H as <- <-. right. exists g. apply noteShareElevation_true in Eno as [Hrec Hro].
  unfold sharePermissionFor in Esp. destruct (shareMayElevate _ action) eqn:Eme; cbn [negb] in Esp; [|by injection Esp as <-].
  assert (perm = permSecretsRead \/ perm = permSecretsWrite /\ shareNeedFor perm = PermissionWrite) as Hperm.
  { unfold shareNeedFor in *. case_bool_decide; [by left|]. case_bool_decide; [right; done|done]. }
  split; [|split].
  - eapply activeShareGrant_some; [|done|done]. destruct Hperm as [->|[_ ->]]; [left|right]; done.
  - destruct Hperm as [->|[-> Hw]]; [by left|]. right. unfold shareMayElevate in Eme. rewrite Hw in Eme.
    split; [done|]. split; [by vm_compute in Eme|]. destruct Hro as [?|Hro]; [done|]. by vm_compute in Hro.
  - unfold recorded in *. destruct (noteGateReadAllow_trace cx userID secret perm action t1) as [-> ->]. done.
Qed.

(** A token restriction only narrows.  For every store, request and
    principal: a role decision under a restriction is the decision without it
    where the restriction allows the permission at the scope, and a refusal
    elsewhere; the same holds of the decision on a secret, at the scope of the
    secret itself; so whatever is allowed under a restriction is allowed without
    it, an administrator's token included. *)
Theorem pat_only_narrows {E} (st : AuthzStore E) decode now1 now2 cx isMachine principalID userID permission scope :
  (Authorize st cx userID permission scope =
    if Allows (cx_pat cx) permission scope then Authorize st (unrestricted cx) userID permission scope else Ok false) /\
  (AuthorizePrincipal st cx isMachine principalID permission scope =
    if Allows (cx_pat cx) permission scope then AuthorizePrincipal st (unrestricted cx) isMachine principalID permission scope else Ok false) /\
  (forall secretID action resolved t secret, secretForDecision st secretID resolved = Ok secret ->
    AuthorizeSecretAction st decode now1 now2 cx userID secretID permission action resolved t =
    if Allows (cx_pat cx) permission (node_scope secret)
    then AuthorizeSecretAction st decode now1 now2 (unrestricted cx) userID secretID permission action resolved t else (Ok deny, t)).
Proof.
  split; [apply Authorize_restricted|]. split; [apply AuthorizePrincipal_restricted|].
  intros. by apply AuthorizeSecretAction_restricted.
Qed.

(** C33. The role decision is the one the tables define.  Over a store whose role
    resolution answers for the tables: a user is authorized exactly when the
    request's restriction allows the permission at the scope and a role granted
    to the user there, directly or through a group, bypasses permission checks
    or is granted the permission; a machine exactly when the restriction allows
    and one of its own roles is granted the permission, whether or not a role
    bypasses. *)
Theorem AuthorizePrincipal_decides {E} (st : AuthzStore E) db now cx principalID permission scope :
  RoleResolution st db now ->
  AuthorizePrincipal st cx false principalID permission scope =
    Ok (Allows (cx_pat cx) permission scope &&
        (existsb (role_bypasses db) (user_ids db now principalID scope) ||
         set_grants (rb_perms db) (user_ids db now principalID scope) permission)) /\
  AuthorizePrincipal st cx true principalID permission scope =
    Ok (Allows (cx_pat cx) permission scope && set_grants (rb_perms db) (machine_role_ids db principalID scope) permission).
Proof.
  intros HR. unfold AuthorizePrincipal, Authorize. destruct (Allows (cx_pat cx) permission scope); cbn [negb andb]; [|done]. split.
  - by rewrite (userHasScopedPermission_roles st db now).
  - destruct (rr_machine principalID scope permission) as (r & -> & Hids & _ & _ & Hh). cbn [stored res_bind]. rewrite (Hh eq_refl).
    destruct (pp_RoleIDs r) eqn:Er; cbn [is_nil]; [|done].
    rewrite <- (set_grants_same _ [] (machine_role_ids db principalID scope)) by done. by rewrite set_grants_nil.
Qed.

(** * A concrete store *)

(** Secret 5 in project 1; user 7 reads there through a group and has a write
    share; user 8 is a member with nothing but a share. *)
Definition ex_secret : SecretNode := mkNode 5 1 1 None 3.
Definition ex_authz : AuthzStore unit :=
  mkAuthzStore unit
    (resolved_user ex_rbac 100 no_faults true empty_cache) (resolved_machine ex_rbac 100 no_faults true None empty_cache)
    (fun id => if id =? 5 then Ok ex_secret else Err tt)
    (fun _ _ => Ok None) (fun _ => Ok [])
    (fun _ p => Ok (p =? 1))
    (fun _ _ => Ok [mkShare 31 5 7 false (go "write") None; mkShare 32 5 8 false (go "read") (Some 500)])
    (fun _ _ => Ok []).

Definition ex_decode : bytes -> list bytes := fun raw => if bool_decide (raw = []) then [] else [raw].
Definition ex_ctx : reqctx := mkCtx (Some (mkPAT [go "secrets.*"] 1 0 [])) true false false.
Definition no_trace : trace := mkTrace [] [] None.

Lemma ex_authz_roles : RoleResolution ex_authz ex_rbac 100.
Proof.
  apply (store_RoleResolution ex_authz ex_rbac 100 no_faults true None empty_cache); try done.
  - split; [|split]; repeat constructor; vm_compute; discriminate.
  - by left.
Qed.

Lemma AuthorizePrincipal_decides_witness :
  AuthorizePrincipal ex_authz ex_ctx false 7 (go "secrets.read") (mkScope 1 1) = Ok true /\
  AuthorizePrincipal ex_authz ex_ctx false 7 (go "secrets.read") (mkScope 2 0) = Ok false /\
  AuthorizePrincipal ex_authz ex_ctx true 9 (go "secrets.read") (mkScope 1 1) = Ok true.
Proof.
  split; [|split].
  - rewrite (proj1 (AuthorizePrincipal_decides ex_authz ex_rbac 100 ex_ctx 7 (go "secrets.read") (mkScope 1 1) ex_authz_roles)).
    vm_compute. reflexivity.
  - rewrite (proj1 (AuthorizePrincipal_decides ex_authz ex_rbac 100 ex_ctx 7 (go "secrets.read") (mkScope 2 0) ex_authz_roles)).
    vm_compute. reflexivity.
  - rewrite (proj2 (AuthorizePrincipal_decides ex_authz ex_rbac 100 ex_ctx 9 (go "secrets.read") (mkScope 1 1) ex_authz_roles)).
    vm_compute. reflexivity.
Defined.

Lemma pat_only_narrows_witness :
  AuthorizeSecretAction ex_authz ex_decode 100 100 ex_ctx 7 5 (go "secrets.read") [] [] no_trace =
  AuthorizeSecretAction ex_authz ex_decode 100 100 (unrestricted ex_ctx) 7 5 (go "secrets.read") [] [] no_trace.
Proof.
  exact (proj2 (proj2 (pat_only_narrows ex_authz ex_decode 100 100 ex_ctx false 7 7 (go "secrets.read") (mkScope 1 1)))
    5 [] [] no_trace ex_secret eq_refl).
Defined.

(** User 7 may rotate under the share and not move; the rotation is on record. *)
Lemma AuthorizeSecretAction_rests_on_witness :
  (exists g, share_backed ex_authz 100 100 7 5 1 (go "write") g) /\
  (AuthorizeSecretAction ex_authz ex_decode 100 100 ex_ctx 7 5 (go "secrets.write") (go "secret.move") [] no_trace).1 = Ok (mkDecision false true).
Proof.
  split; [|vm_compute; reflexivity].
  destruct (AuthorizeSecretAction_rests_on ex_authz ex_decode 100 100 ex_ctx 7 5 (go "secrets.write") (go "secret.rotate") [] no_trace allow
    (AuthorizeSecretAction ex_authz ex_decode 100 100 ex_ctx 7 5 (go "secrets.write") (go "secret.rotate") [] no_trace).2)
    as (s & Hs & _ & [[_ [Hp _]]|(g & Hg & _)]).
  - vm_compute. reflexivity.
  - reflexivity.
  - exfalso. vm_compute in Hp. discriminate Hp.
  - exists g. injection Hs as <-. exact Hg.
Defined.
