(* ===== verification/SecretTree.v ===== *)
(** The folder tree of secrets ([internal/core/secret_move.go], the parent checks
    of [CreateSecret] and [CreateFolder], [GetSecretAncestors] of
    [internal/storage/store/local_secrets.go]).

    The table maps an id to its row; a soft-deleted row stays in it, with its
    parent pointer.  An operation checks first and writes later, in statements of
    their own, so the state also holds the writes whose checks have passed.

    The theorems: what the ancestor walk returns on any table; every parent
    pointer names a folder of the row's own project and environment, in every
    interleaving; operations run one at a time keep the tree free of cycles while
    the target of a move is not deeper than the walk looks.  The examples at the
    end show that each of these conditions is needed. *)
From Stdlib Require Import ZArith Lia.
From stdpp Require Import base numbers tactics sets list gmap.
From S2P Require Import Prelude.

(** * The ancestor walk *)

Definition maxAncestorDepth : nat := 20.

Section ancestors.
(** A live row's parent column; [Ok None] is gorm.ErrRecordNotFound. *)
Context {E : Type} (First : Z -> res E (option (option Z))).

Fixpoint ancestors_loop (rounds : nat) (visited : list Z) (currentID : Z) : res E (list Z) :=
  match rounds with
  | O => Ok []
  | S rounds =>
      match First currentID with
      | Err e => Err e
      | Ok None | Ok (Some None) => Ok []
      | Ok (Some (Some parentID)) =>
          if bool_decide (parentID ∈ visited) then Ok []
          else let? ancestors := ancestors_loop rounds (parentID :: visited) parentID in Ok (parentID :: ancestors)
      end
  end.

Definition GetSecretAncestors (nodeID : Z) : res E (list Z) := ancestors_loop maxAncestorDepth [] nodeID.
End ancestors.

Lemma ancestors_loop_ext {E} (F G : Z -> res E (option (option Z))) rounds : (forall id, F id = G id) ->
  forall visited id, ancestors_loop F rounds visited id = ancestors_loop G rounds visited id.
Proof.
  intros H. induction rounds as [|rounds IH]; intros visited id; [done|]. cbn. rewrite H.
  destruct (G id) as [[[p|]|]|]; [|done|done|done]. case_bool_decide; [done|]. by rewrite IH.
Qed.

(** * Rows and operations *)

Record treeNode := mkTree { tn_ProjectID : Z; tn_EnvironmentID : Z; tn_IsSecret : bool; tn_ParentID : option Z; tn_Deleted : bool }.
#[export] Instance treeNode_eq_dec : EqDecision treeNode.
Proof. solve_decision. Defined.
Abbreviation tree := (gmap Z treeNode).

Definition set_ParentID (p : option Z) (n : treeNode) : treeNode :=
  mkTree (tn_ProjectID n) (tn_EnvironmentID n) (tn_IsSecret n) p (tn_Deleted n).
Definition set_Deleted (d : bool) (n : treeNode) : treeNode :=
  mkTree (tn_ProjectID n) (tn_EnvironmentID n) (tn_IsSecret n) (tn_ParentID n) d.

(** A gorm read of the row: a soft-deleted one is not found. *)
Definition liveNode (T : tree) (id : Z) : option treeNode :=
  match T !! id with Some n => if tn_Deleted n then None else Some n | None => None end.
Definition parent_of (T : tree) (id : Z) : option Z := match liveNode T id with Some n => tn_ParentID n | None => None end.

Inductive moveInvalid := IDRequired | IntoItself | ParentIsSecret | OtherScope | IntoDescendant.
Inductive tree_err (E : Type) :=
| ErrInvalid (why : moveInvalid) | ErrDenied (e : E) | ErrStorage (e : E) | ErrNoSecret | ErrNoParent.
Arguments ErrInvalid {E}. Arguments ErrDenied {E}. Arguments ErrStorage {E}. Arguments ErrNoSecret {E}. Arguments ErrNoParent {E}.

(** The reads of a move that fail. *)
Record moveFaults (E : Type) := mkMoveFaults {
  mf_enforce : option E; mf_secret : option E; mf_parent : option E; mf_ancestors : Z -> option E; mf_update : option E }.
Arguments mf_enforce {E}. Arguments mf_secret {E}. Arguments mf_parent {E}. Arguments mf_ancestors {E}. Arguments mf_update {E}.

(** The [secret.moved] event. *)
Record secretMoved := mkMoved { mv_UserID : Z; mv_SecretID : Z; mv_ParentID : option Z }.

Definition same_scope (a b : treeNode) : bool :=
  (tn_ProjectID a =? tn_ProjectID b) && (tn_EnvironmentID a =? tn_EnvironmentID b).

Section operations.
Context {E : Type} (f : moveFaults E).

Definition tree_First (T : tree) (id : Z) : res E (option (option Z)) :=
  match mf_ancestors f id with Some e => Err e | None => Ok (option_map tn_ParentID (liveNode T id)) end.

(** MoveSecret up to its write: the new value of the parent column.
    [mf_enforce] is the answer of EnforceSecretWritePermission. *)
Definition move_check (T : tree) (actorID secretID : Z) (newParentID : option Z) : res (tree_err E) (option Z) :=
  if (secretID =? 0) || (actorID =? 0) then Err (ErrInvalid IDRequired)
  else match mf_enforce f with
  | Some e => Err (ErrDenied e)
  | None =>
    match mf_secret f, liveNode T secretID with
    | Some e, _ => Err (ErrStorage e)
    | None, None => Err ErrNoSecret
    | None, Some secret =>
      match newParentID with
      | None => Ok None
      | Some p =>
        if p =? 0 then Ok None
        else if p =? secretID then Err (ErrInvalid IntoItself)
        else match mf_parent f, liveNode T p with
        | Some e, _ => Err (ErrStorage e)
        | None, None => Err ErrNoParent
        | None, Some parent =>
          if tn_IsSecret parent then Err (ErrInvalid ParentIsSecret)
          else if negb (same_scope parent secret) then Err (ErrInvalid OtherScope)
          else match GetSecretAncestors (tree_First T) p with
          | Err e => Err (ErrStorage e)
          | Ok ancestors => if bool_decide (secretID ∈ ancestors) then Err (ErrInvalid IntoDescendant) else Ok (Some p)
          end
        end
      end
    end
  end.

(** The write: UpdateSecretFields of the parent column, on a live row. *)
Definition move_write (T : tree) (secretID : Z) (p : option Z) : res (tree_err E) unit * tree :=
  match mf_update f, liveNode T secretID with
  | Some e, _ => (Err (ErrStorage e), T)
  | None, None => (Err ErrNoSecret, T)
  | None, Some n => (Ok (), <[secretID := set_ParentID p n]> T)
  end.

(** The result carries the event it writes to the audit trail. *)
Definition MoveSecret (T : tree) (actorID secretID : Z) (newParentID : option Z) : res (tree_err E) secretMoved * tree :=
  match move_check T actorID secretID newParentID with
  | Err e => (Err e, T)
  | Ok p => match move_write T secretID p with
            | (Err e, T) => (Err e, T)
            | (Ok (), T) => (Ok (mkMoved actorID secretID p), T)
            end
  end.

(** The parent check of CreateSecret and CreateFolder, and the row they insert.
    A secret's parent 0 is no parent; a folder's is looked up like any other. *)
Definition create_check (T : tree) (isSecret : bool) (project environment : Z) (parentID : option Z) : res (tree_err E) treeNode :=
  let node := mkTree project environment isSecret in
  match parentID with
  | None => Ok (node None false)
  | Some p =>
      if isSecret && (p =? 0) then Ok (node None false)
      else match mf_parent f, liveNode T p with
      | Some e, _ => Err (ErrStorage e)
      | None, None => Err ErrNoParent
      | None, Some parent =>
          if tn_IsSecret parent then Err (ErrInvalid ParentIsSecret)
          else if negb ((tn_ProjectID parent =? project) && (tn_EnvironmentID parent =? environment)) then Err (ErrInvalid OtherScope)
          else Ok (node (Some p) false)
      end
  end.
End operations.

Lemma MoveSecret_table {E} (f : moveFaults E) T actorID secretID newParentID :
  (MoveSecret f T actorID secretID newParentID).2 =
  match move_check f T actorID secretID newParentID with Ok p => (move_write f T secretID p).2 | Err _ => T end.
Proof.
  unfold MoveSecret. destruct (move_check f T actorID secretID newParentID); [|done]. by destruct (move_write f T secretID _) as [[[]|] ?].
Qed.

(** DeleteSecret and RestoreSecret on the row (the rest of them is in [Catalog]). *)
Definition tree_delete (T : tree) (id : Z) : tree :=
  match liveNode T id with Some n => <[id := set_Deleted true n]> T | None => T end.
Definition tree_restore (T : tree) (id : Z) : tree :=
  match T !! id with Some n => <[id := set_Deleted false n]> T | None => T end.
(** PurgeDeletedSecretsBefore on the rows: those of [ids], the secrets and folders it found
    due, that are still deleted; the rows that name one of them as their parent stay as
    they are. *)
Definition tree_purge (T : tree) (ids : gset Z) : tree :=
  map_imap (fun id n => if bool_decide (id ∈ ids) && tn_Deleted n then None else Some n) T.

(** * Interleavings *)

(** A write whose checks have passed. *)
Inductive pendingWrite := PendingInsert (n : treeNode) | PendingParent (id : Z) (p : option Z).
(** The table, the next id of its sequence (ids are never given twice), the writes. *)
Record treeState := mkTreeState { ts_rows : tree; ts_next : Z; ts_pending : list pendingWrite }.

(** [purges]: whether purges run. *)
Inductive tree_step {E : Type} (purges : bool) : treeState -> treeState -> Prop :=
| step_check_create (f : moveFaults E) T next ws isSecret project environment parentID n :
    create_check f T isSecret project environment parentID = Ok n ->
    tree_step purges (mkTreeState T next ws) (mkTreeState T next (PendingInsert n :: ws))
| step_check_move (f : moveFaults E) T next ws actorID secretID newParentID p :
    move_check f T actorID secretID newParentID = Ok p ->
    tree_step purges (mkTreeState T next ws) (mkTreeState T next (PendingParent secretID p :: ws))
| step_insert T next ws ws' n : ws ≡ₚ PendingInsert n :: ws' ->
    tree_step purges (mkTreeState T next ws) (mkTreeState (<[next := n]> T) (next + 1) ws')
| step_write (f : moveFaults E) T next ws ws' id p : ws ≡ₚ PendingParent id p :: ws' ->
    tree_step purges (mkTreeState T next ws) (mkTreeState (move_write f T id p).2 next ws')
| step_delete T next ws id : tree_step purges (mkTreeState T next ws) (mkTreeState (tree_delete T id) next ws)
| step_restore T next ws id : tree_step purges (mkTreeState T next ws) (mkTreeState (tree_restore T id) next ws)
| step_purge T next ws ids : purges = true -> tree_step purges (mkTreeState T next ws) (mkTreeState (tree_purge T ids) next ws).

Definition empty_tree : treeState := mkTreeState ∅ 1 [].

(** * What the walk returns *)

(** The [k]-th ancestor over live rows. *)
Fixpoint climb (T : tree) (id : Z) (k : nat) : option Z :=
  match k with O => Some id | S k => match parent_of T id with Some p => climb T p k | None => None end end.

Definition no_move_faults {E} : moveFaults E := mkMoveFaults E None None None (fun _ => None) None.

Lemma tree_First_parent {E} T id :
  (tree_First (@no_move_faults E) T id = Ok None \/ tree_First (@no_move_faults E) T id = Ok (Some None)) /\ parent_of T id = None \/
  exists p, tree_First (@no_move_faults E) T id = Ok (Some (Some p)) /\ parent_of T id = Some p.
Proof.
  unfold tree_First, parent_of, no_move_faults. cbn [mf_ancestors]. destruct (liveNode T id) as [n|]; cbn; [|by left; eauto].
  destruct (tn_ParentID n); eauto.
Qed.

Lemma ancestors_loop_spec {E} T rounds : forall visited id, exists l,
  ancestors_loop (tree_First (@no_move_faults E) T) rounds visited id = Ok l /\ (length l <= rounds)%nat /\
  NoDup l /\ (forall x, x ∈ l -> x ∉ visited) /\ (forall k x, l !! k = Some x -> climb T id (S k) = Some x) /\
  (length l = rounds \/ climb T id (S (length l)) = None \/
   exists y, climb T id (S (length l)) = Some y /\ (y ∈ visited \/ y ∈ l)).
Proof.
  induction rounds as [|rounds IH]; intros visited id; cbn [ancestors_loop].
  { exists []. split_and!; [done|done|apply NoDup_nil_2|set_solver|done|by left]. }
  destruct (@tree_First_parent E T id) as [[[-> | ->] Hp]|(p & -> & Hp)];
    [exists []; split_and!; [done|cbn; lia|apply NoDup_nil_2|set_solver|done|right; left; cbn; by rewrite Hp]..|].
  case_bool_decide as Hv.
  { exists []. split_and!; [done|cbn; lia|apply NoDup_nil_2|set_solver|done|]. right; right. exists p. cbn. rewrite Hp. auto. }
  destruct (IH (p :: visited) p) as (l & -> & Hlen & Hnd & Hfresh & Hk & Hend). cbn [res_bind]. exists (p :: l).
  assert (forall k, climb T id (S k) = climb T p k) as Hc by (intros k; cbn [climb]; by rewrite Hp).
  split_and!; [done|cbn; lia| | | |].
  - apply NoDup_cons. split; [|done]. intros Hin. apply Hfresh in Hin. set_solver.
  - intros x [->|Hx]%elem_of_cons; [done|]. apply Hfresh in Hx. set_solver.
  - intros [|k] x Hx; cbn in Hx; rewrite Hc; [by simplify_eq|by apply Hk].
  - cbn [length]. rewrite Hc. destruct Hend as [->|[?|(y & ? & ?)]]; [by left|by right; left|]. right; right.
    exists y. split; [done|]. set_solver.
Qed.

(** The ancestor walk, on any table, cycles and dangling parents
    included: it returns at most 20 ids, no id twice, the [k]-th of them the
    [k]-th ancestor over live rows; and it stops only at the cap, at a node
    without a live row or without a parent, or where the next ancestor would be
    one it has already returned. *)
Theorem ancestors_bounds {E} (T : tree) (nodeID : Z) : exists l,
  GetSecretAncestors (tree_First (@no_move_faults E) T) nodeID = Ok l /\ (length l <= 20)%nat /\ NoDup l /\
  (forall k x, l !! k = Some x -> climb T nodeID (S k) = Some x) /\
  (length l = 20%nat \/ climb T nodeID (S (length l)) = None \/ exists y, climb T nodeID (S (length l)) = Some y /\ y ∈ l).
Proof.
  destruct (@ancestors_loop_spec E T maxAncestorDepth [] nodeID) as (l & Hl & Hlen & Hnd & _ & Hk & Hend).
  exists l. split_and!; [done|done|done|done|]. destruct Hend as [->|[?|(y & ? & [?|?])]]; [by left|by right; left|set_solver|eauto].
Qed.

(** * Parents stay in scope *)

(** The parent [p] of a row of that project and environment is an id that was given; if its
    row, deleted or not, is there, it is a folder of the same; and it is there unless purges
    run. *)
Definition folder_in (purges : bool) (next : Z) (T : tree) (project environment : Z) (p : option Z) : Prop :=
  forall id, p = Some id -> id < next /\
    match T !! id with
    | Some n => tn_IsSecret n = false /\ tn_ProjectID n = project /\ tn_EnvironmentID n = environment
    | None => purges = true
    end.
Definition in_scope (purges : bool) (next : Z) (T : tree) : Prop :=
  forall id n, T !! id = Some n -> folder_in purges next T (tn_ProjectID n) (tn_EnvironmentID n) (tn_ParentID n).
Definition pending_ok (purges : bool) (next : Z) (T : tree) (w : pendingWrite) : Prop :=
  match w with
  | PendingInsert n => folder_in purges next T (tn_ProjectID n) (tn_EnvironmentID n) (tn_ParentID n)
  | PendingParent id p => id < next /\ forall n, T !! id = Some n -> folder_in purges next T (tn_ProjectID n) (tn_EnvironmentID n) p
  end.
Definition tree_inv (purges : bool) (s : treeState) : Prop :=
  (forall id, is_Some (ts_rows s !! id) -> id < ts_next s) /\ in_scope purges (ts_next s) (ts_rows s) /\
  Forall (pending_ok purges (ts_next s) (ts_rows s)) (ts_pending s).

(** What no operation changes about the rows whose ids were given before it. *)
Definition extends (purges : bool) (next : Z) (T T' : tree) : Prop :=
  forall id, id < next ->
    match T !! id, T' !! id with
    | Some n, Some n' => tn_IsSecret n' = tn_IsSecret n /\ tn_ProjectID n' = tn_ProjectID n /\ tn_EnvironmentID n' = tn_EnvironmentID n
    | Some _, None => purges = true
    | None, Some _ => False
    | None, None => True
    end.

Section extension.
Context (purges : bool) (next next' : Z) (T T' : tree) (He : extends purges next T T') (Hle : next <= next').

Lemma extends_folder_in project environment p : folder_in purges next T project environment p -> folder_in purges next' T' project environment p.
Proof.
  intros Hf id ->. destruct (Hf id eq_refl) as [Hlt Hn]. split; [lia|]. specialize (He id Hlt).
  destruct (T !! id), (T' !! id); naive_solver congruence.
Qed.

Lemma extends_pending_ok w : pending_ok purges next T w -> pending_ok purges next' T' w.
Proof.
  destruct w as [n|id p]; cbn; [by apply extends_folder_in|]. intros [Hlt Hp]. split; [lia|]. intros n Hn. pose proof (He id Hlt) as Hx.
  rewrite Hn in Hx. destruct (T !! id) as [m|] eqn:Em; [|done]. destruct Hx as (_ & -> & ->). by apply extends_folder_in, Hp.
Qed.
End extension.

Lemma extends_insert purges next T id n n' : T !! id = Some n -> tn_IsSecret n' = tn_IsSecret n ->
  tn_ProjectID n' = tn_ProjectID n -> tn_EnvironmentID n' = tn_EnvironmentID n -> extends purges next T (<[id := n']> T).
Proof.
  intros Hn ? ? ? k _. destruct (decide (k = id)) as [->|Hne]; [by rewrite Hn, lookup_insert_eq|].
  rewrite lookup_insert_ne by done. by destruct (T !! k).
Qed.

Lemma extends_fresh purges next T n : extends purges next T (<[next := n]> T).
Proof. intros k Hk. rewrite lookup_insert_ne by lia. by destruct (T !! k). Qed.

Lemma lookup_tree_purge T ids id : tree_purge T ids !! id = n ← T !! id; if bool_decide (id ∈ ids) && tn_Deleted n then None else Some n.
Proof. unfold tree_purge. by rewrite map_lookup_imap. Qed.

Lemma extends_purge next T ids : extends true next T (tree_purge T ids).
Proof. intros k _. rewrite lookup_tree_purge. destruct (T !! k) as [n|]; cbn; [|done]. by destruct (_ && _). Qed.

Lemma liveNode_row T id n : liveNode T id = Some n -> T !! id = Some n.
Proof. unfold liveNode. destruct (T !! id) as [m|]; [|done]. by destruct (tn_Deleted m). Qed.

(** Changing one row's parent or deletion mark. *)
Lemma tree_inv_update purges s id n n' : tree_inv purges s -> ts_rows s !! id = Some n -> tn_IsSecret n' = tn_IsSecret n ->
  tn_ProjectID n' = tn_ProjectID n -> tn_EnvironmentID n' = tn_EnvironmentID n ->
  folder_in purges (ts_next s) (ts_rows s) (tn_ProjectID n) (tn_EnvironmentID n) (tn_ParentID n') ->
  tree_inv purges (mkTreeState (<[id := n']> (ts_rows s)) (ts_next s) (ts_pending s)).
Proof.
  intros (Hlt & Hsc & Hp) Hn Hs Ep Ee Hf. pose proof (extends_insert purges (ts_next s) _ _ _ _ Hn Hs Ep Ee) as He.
  split; [|split]; cbn [ts_rows ts_next ts_pending].
  - intros k [m Hk]. destruct (decide (k = id)) as [->|Hne]; [by apply Hlt; eauto|]. rewrite lookup_insert_ne in Hk by done. apply Hlt. eauto.
  - intros k m Hk. destruct (decide (k = id)) as [->|Hne].
    + rewrite lookup_insert_eq in Hk. injection Hk as <-. rewrite Ep, Ee. by eapply extends_folder_in.
    + rewrite lookup_insert_ne in Hk by done. eapply extends_folder_in; [done|done|by eapply Hsc].
  - eapply Forall_impl; [done|]. intros w. by apply extends_pending_ok.
Qed.

Lemma create_check_ok {E} purges next (f : moveFaults E) T isSecret project environment parentID n :
  (forall id, is_Some (T !! id) -> id < next) ->
  create_check f T isSecret project environment parentID = Ok n -> folder_in purges next T (tn_ProjectID n) (tn_EnvironmentID n) (tn_ParentID n).
Proof.
  intros Hlt. unfold create_check. destruct parentID as [p|]; [|by intros [= <-]]. destruct (isSecret && (p =? 0)); [by intros [= <-]|].
  destruct (mf_parent f); [done|]. destruct (liveNode T p) as [parent|] eqn:El; [|done].
  destruct (tn_IsSecret parent) eqn:Es; [done|]. destruct (negb _) eqn:En; [done|]. intros [= <-] id [= <-].
  apply liveNode_row in El. split; [by apply Hlt; eauto|]. rewrite El. cbn. breflect. split_and!; [done|lia|lia].
Qed.

Lemma move_check_ok {E} purges next (f : moveFaults E) T actorID secretID newParentID p :
  (forall id, is_Some (T !! id) -> id < next) ->
  move_check f T actorID secretID newParentID = Ok p -> pending_ok purges next T (PendingParent secretID p).
Proof.
  intros Hlt.  unfold move_check. destruct (_ || _); [done|]. destruct (mf_enforce f); [done|]. destruct (mf_secret f); [done|].
  destruct (liveNode T secretID) as [secret|] eqn:Es; [|done]. intros H. apply liveNode_row in Es. split; [by apply Hlt; eauto|]. intros n Hn. simplify_eq.
  destruct newParentID as [q|]; [|by injection H as <-]. destruct (q =? 0); [by injection H as <-|]. destruct (q =? secretID); [done|].
  destruct (mf_parent f); [done|]. destruct (liveNode T q) as [parent|] eqn:Ep; [|done]. destruct (tn_IsSecret parent) eqn:Ei; [done|].
  destruct (negb _) eqn:En; [done|]. destruct (GetSecretAncestors _ q); [|done]. case_bool_decide; [done|]. injection H as <-.
  intros id [= <-]. apply liveNode_row in Ep. split; [by apply Hlt; eauto|]. rewrite Ep. unfold same_scope in En. breflect. split_and!; [done|lia|lia].
Qed.

Lemma tree_step_inv {E} purges s s' : tree_inv purges s -> @tree_step E purges s s' -> tree_inv purges s'.
Proof.
  intros Hinv Hs. destruct Hs as [f T next ws ? ? ? ? n Hc|f T next ws ? ? ? p Hc|T next ws ws' n Hp|f T next ws ws' id p Hp|T next ws id|T next ws id|T next ws ids Hpu];
    pose proof Hinv as (Hlt & Hsc & Hws); cbn [ts_rows ts_next ts_pending] in Hlt, Hsc, Hws.
  - split; [done|]. split; [done|]. constructor; [by eapply create_check_ok|done].
  - split; [done|]. split; [done|]. constructor; [by eapply move_check_ok|done].
  - rewrite Hp in Hws. apply Forall_cons in Hws as [Hn Hws'].
    pose proof (extends_fresh purges next T n) as He. split; [|split]; cbn [ts_rows ts_next ts_pending].
    + intros k [m Hk]. destruct (decide (k = next)) as [->|]; [lia|]. rewrite lookup_insert_ne in Hk by done.
      specialize (Hlt k (ex_intro _ m Hk)). lia.
    + intros k m Hk. destruct (decide (k = next)) as [->|].
      * rewrite lookup_insert_eq in Hk. injection Hk as <-. eapply extends_folder_in; [done|lia|done].
      * rewrite lookup_insert_ne in Hk by done. eapply extends_folder_in; [done|lia|by eapply Hsc].
    + eapply Forall_impl; [done|]. intros w. apply extends_pending_ok; [done|lia].
  - rewrite Hp in Hws. apply Forall_cons in Hws as [[_ Hf] Hws'].
    assert (tree_inv purges (mkTreeState T next ws')) as Hinv' by done.
    unfold move_write. destruct (mf_update f); [done|]. destruct (liveNode T id) as [n|] eqn:El; [|done]. cbn [snd].
    apply liveNode_row in El. apply (tree_inv_update purges (mkTreeState T next ws') id n (set_ParentID p n)); try done. exact (Hf n El).
  - unfold tree_delete. destruct (liveNode T id) as [n|] eqn:El; [|done]. apply liveNode_row in El.
    apply (tree_inv_update purges (mkTreeState T next ws) id n); try done. exact (Hsc id n El).
  - unfold tree_restore. destruct (T !! id) as [n|] eqn:El; [|done].
    apply (tree_inv_update purges (mkTreeState T next ws) id n); try done. exact (Hsc id n El).
  - subst purges. pose proof (extends_purge next T ids) as He. split; [|split]; cbn [ts_rows ts_next ts_pending].
    + intros k [m Hk]. apply Hlt. rewrite lookup_tree_purge in Hk. destruct (T !! k); [eauto|done].
    + intros k m Hk. rewrite lookup_tree_purge in Hk. destruct (T !! k) as [n|] eqn:En; [|done]. cbn in Hk. destruct (_ && _); [done|]. injection Hk as <-.
      eapply extends_folder_in; [done|done|by eapply Hsc].
    + eapply Forall_impl; [done|]. intros w. by apply extends_pending_ok.
Qed.

Lemma empty_tree_inv purges : tree_inv purges empty_tree.
Proof. split; [intros id [n H]; done|]. split; [intros id n H; done|constructor]. Qed.

(** C35. Parents stay in scope.  In every table reachable by creations, moves,
    deletions, restorations and purges of deleted rows, each check separated from
    its write by any number of steps of the others: the parent pointer of a row,
    deleted or live, names an id that was given before; the row of that id, if it is
    there, is a folder of the same project and environment; and it is there, deleted
    or live, unless purges run (a purge removes a deleted folder and leaves the
    pointers to it, [purge_leaves_pointer]).  Ids are not given twice, so the access
    lists a secret inherits from its folders are always of its own project. *)
Theorem parent_in_scope {E} purges s id n p : rtc (@tree_step E purges) empty_tree s -> ts_rows s !! id = Some n -> tn_ParentID n = Some p ->
  p < ts_next s /\
  match ts_rows s !! p with
  | Some folder => tn_IsSecret folder = false /\ tn_ProjectID folder = tn_ProjectID n /\ tn_EnvironmentID folder = tn_EnvironmentID n
  | None => purges = true
  end.
Proof.
  intros Hr Hn Hp. enough (tree_inv purges s) as (_ & Hsc & _) by by apply (Hsc id n Hn).
  revert Hr. apply (rtc_ind_r (fun s => tree_inv purges s)); [apply empty_tree_inv|]. intros y z _ Hstep Hy. by eapply tree_step_inv.
Qed.

(** * No cycles *)

Definition forest (T : tree) : Prop := forall id, exists k, climb T id k = None.

(** Operations one at a time, moves only under nodes of at most 20 ancestors, no restoration. *)
Inductive tree_run {E : Type} : tree -> Z -> Prop :=
| run_empty : tree_run ∅ 1
| run_create (f : moveFaults E) T next isSecret project environment parentID n : tree_run T next ->
    create_check f T isSecret project environment parentID = Ok n -> tree_run (<[next := n]> T) (next + 1)
| run_move (f : moveFaults E) T next actorID secretID newParentID : tree_run T next ->
    (forall p, newParentID = Some p -> climb T p (S maxAncestorDepth) = None) ->
    tree_run (MoveSecret f T actorID secretID newParentID).2 next
| run_delete T next id : tree_run T next -> tree_run (tree_delete T id) next.

Lemma climb_add T a : forall id b, climb T id (a + b) = match climb T id a with Some x => climb T x b | None => None end.
Proof. induction a as [|a IH]; intros id b; [done|]. cbn. destruct (parent_of T id); [apply IH|done]. Qed.

Lemma climb_None_mono T id a b : (a <= b)%nat -> climb T id a = None -> climb T id b = None.
Proof. intros Hab Ha. replace b with (a + (b - a))%nat by lia. by rewrite climb_add, Ha. Qed.

(** A node that is its own ancestor has ancestors without end. *)
Lemma climb_cycle T id c : climb T id (S c) = Some id -> forall k, climb T id k <> None.
Proof.
  intros Hc. assert (forall n, climb T id (n * S c) = Some id) as Hn.
  { induction n as [|n IH]; [done|]. cbn [Nat.mul]. by rewrite climb_add, Hc. }
  intros k Hk. apply (climb_None_mono _ _ k (k * S c)) in Hk; [|lia]. by rewrite Hn in Hk.
Qed.

(** A walk that was not cut short has every ancestor. *)
Lemma ancestors_complete {E} T p l k x : GetSecretAncestors (tree_First (@no_move_faults E) T) p = Ok l ->
  climb T p (S maxAncestorDepth) = None -> climb T p (S k) = Some x -> x ∈ l.
Proof.
  intros Hl Hd Hx. destruct (@ancestors_loop_spec E T maxAncestorDepth [] p) as (l' & Hl' & _ & _ & _ & Hk & Hend).
  unfold GetSecretAncestors in Hl. rewrite Hl in Hl'. injection Hl' as <-.
  assert (climb T p (S (length l)) = None) as Hnone.
  { destruct Hend as [->|[?|(y & Hy & [Hv|Hy'])]]; [done|done|set_solver|]. exfalso.
    apply list_elem_of_lookup in Hy' as [j Hj]. pose proof (lookup_lt_Some _ _ _ Hj) as Hlt. apply Hk in Hj.
    replace (S (length l)) with (S j + S (length l - j - 1))%nat in Hy by lia. rewrite climb_add, Hj in Hy.
    apply (climb_cycle _ _ _ Hy (S maxAncestorDepth)). pose proof (climb_None_mono T p (S maxAncestorDepth) (S j + S maxAncestorDepth) ltac:(lia) Hd) as Hd'.
    by rewrite climb_add, Hj in Hd'. }
  destruct (decide (k < length l)%nat) as [Hlt|].
  - destruct (lookup_lt_is_Some_2 l k Hlt) as [y Hy]. pose proof (Hk _ _ Hy) as Hc. rewrite Hx in Hc. injection Hc as ->.
    by eapply list_elem_of_lookup_2.
  - rewrite (climb_None_mono T p (S (length l)) (S k) ltac:(lia) Hnone) in Hx. done.
Qed.

Lemma ancestors_no_faults {E} (f : moveFaults E) T rounds : forall visited id l,
  ancestors_loop (tree_First f T) rounds visited id = Ok l -> ancestors_loop (tree_First (@no_move_faults E) T) rounds visited id = Ok l.
Proof.
  induction rounds as [|rounds IH]; intros visited id l; cbn [ancestors_loop]; [done|].
  unfold tree_First at 1 3. cbn [mf_ancestors no_move_faults]. destruct (mf_ancestors f id); [done|].
  destruct (option_map tn_ParentID (liveNode T id)) as [[p|]|]; [|done|done]. case_bool_decide; [done|].
  destruct (ancestors_loop (tree_First f T) rounds (p :: visited) p) as [a|] eqn:Ea; cbn [res_bind]; [|done].
  by rewrite (IH _ _ _ Ea).
Qed.

(** ** Changes of the table *)

(** Cutting parents off keeps the forest. *)
Lemma forest_cut T T' : (forall x, parent_of T' x = parent_of T x \/ parent_of T' x = None) -> forest T -> forest T'.
Proof.
  intros Hc Hf id. destruct (Hf id) as [k Hk]. exists k. revert id Hk. induction k as [|k IH]; intros id; cbn; [done|].
  destruct (Hc id) as [-> | ->]; [|done]. destruct (parent_of T id); [apply IH|done].
Qed.

Lemma climb_agree T T' s : (forall x, x <> s -> parent_of T' x = parent_of T x) -> forall k q,
  (forall j x, climb T q j = Some x -> x <> s) -> climb T' q k = climb T q k.
Proof.
  intros Hag. induction k as [|k IH]; intros q Hav; [done|]. cbn. rewrite (Hag q) by by apply (Hav 0%nat).
  destruct (parent_of T q) as [p|] eqn:Ep; [|done]. apply IH. intros j x Hj. apply (Hav (S j)). cbn. by rewrite Ep.
Qed.

(** Giving one node another parent, from which it is not reached, keeps it too. *)
Lemma forest_reparent T T' s q : (forall x, x <> s -> parent_of T' x = parent_of T x) -> parent_of T' s = Some q ->
  (forall j x, climb T q j = Some x -> x <> s) -> forest T -> forest T'.
Proof.
  intros Hag Hs Hav Hf. destruct (Hf q) as [m Hm]. rewrite <- (climb_agree T T' s Hag m q Hav) in Hm.
  intros id. destruct (Hf id) as [k Hk]. revert id Hk. induction k as [|k IH]; intros id Hk; [done|].
  destruct (decide (id = s)) as [->|Hne]; [exists (S m); cbn; by rewrite Hs|]. cbn in Hk. rewrite <- (Hag id Hne) in Hk.
  destruct (parent_of T' id) as [p|] eqn:Ep; [|exists 1%nat; cbn; by rewrite Ep].
  destruct (IH p Hk) as [k' Hk']. exists (S k'). cbn. by rewrite Ep.
Qed.

Lemma parent_of_insert_ne T id n x : x <> id -> parent_of (<[id := n]> T) x = parent_of T x.
Proof. intros Hne. unfold parent_of, liveNode. by rewrite lookup_insert_ne. Qed.

Lemma parent_of_insert_eq T id n : parent_of (<[id := n]> T) id = if tn_Deleted n then None else tn_ParentID n.
Proof. unfold parent_of, liveNode. rewrite lookup_insert_eq. by destruct (tn_Deleted n). Qed.

Lemma forest_move {E} (f : moveFaults E) T actorID secretID newParentID : forest T ->
  (forall p, newParentID = Some p -> climb T p (S maxAncestorDepth) = None) -> forest (MoveSecret f T actorID secretID newParentID).2.
Proof.
  intros Hf Hd. rewrite MoveSecret_table. destruct (move_check f T actorID secretID newParentID) as [p|] eqn:Hc; [|done].
  unfold move_write. destruct (mf_update f); [done|]. destruct (liveNode T secretID) as [n|] eqn:El; [|done]. cbn [snd].
  destruct p as [q|].
  2: { apply (forest_cut T); [|done]. intros x. destruct (decide (x = secretID)) as [->|];
         [right; rewrite parent_of_insert_eq; by destruct (tn_Deleted _)|left; by apply parent_of_insert_ne]. }
  assert (tn_Deleted n = false) as Hn by (unfold liveNode in El; destruct (T !! secretID) as [m|]; [|done]; destruct (tn_Deleted m) eqn:?; congruence).
  apply (forest_reparent T _ secretID q); [intros x Hx; by apply parent_of_insert_ne|by rewrite parent_of_insert_eq; cbn; rewrite Hn| |done].
  unfold move_check in Hc. destruct (_ || _); [done|]. destruct (mf_enforce f); [done|]. destruct (mf_secret f); [done|]. rewrite El in Hc.
  destruct newParentID as [q'|]; [|done]. destruct (q' =? 0); [done|]. destruct (Z.eqb_spec q' secretID) as [|Hne]; [done|].
  destruct (mf_parent f); [done|]. destruct (liveNode T q'); [|done]. destruct (tn_IsSecret _); [done|]. destruct (negb _); [done|].
  destruct (GetSecretAncestors (tree_First f T) q') as [l|] eqn:Ea; [|done]. case_bool_decide as Hin; [done|]. injection Hc as ->.
  apply ancestors_no_faults in Ea. intros [|j] x Hx; [cbn in Hx; by injection Hx as <-|]. intros ->.
  apply Hin. by eapply (ancestors_complete T q l j); [|apply Hd|].
Qed.

Lemma tree_run_inv {E} T next : @tree_run E T next -> tree_inv false (mkTreeState T next []) /\ forest T.
Proof.
  induction 1 as [|f T next isSecret project environment parentID n _ [Hinv Hf] Hc|f T next a s p _ [Hinv Hf] Hd|T next id _ [Hinv Hf]].
  - split; [apply empty_tree_inv|]. intros id. exists 1%nat. done.
  - assert (tree_inv false (mkTreeState (<[next := n]> T) (next + 1) [])) as Hinv'.
    { eapply (@tree_step_inv E false (mkTreeState T next [PendingInsert n])); [|by apply step_insert].
      destruct Hinv as (? & ? & ?). split; [done|]. split; [done|]. constructor; [by eapply create_check_ok|done]. }
    split; [done|]. destruct Hinv as (Hlt & Hsc & _). cbn [ts_rows ts_next] in *.
    assert (T !! next = None) as Hfr by (apply eq_None_not_Some; intros H; specialize (Hlt _ H); lia).
    destruct (tn_ParentID n) as [q|] eqn:Eq.
    + assert (exists m, T !! q = Some m) as [m Hm] by (destruct (create_check_ok false next _ _ _ _ _ _ _ Hlt Hc q Eq) as [_ Hm]; destruct (T !! q); [eauto|done]).
      destruct (tn_Deleted n) eqn:Ed.
      { apply (forest_cut T); [|done]. intros x. destruct (decide (x = next)) as [->|]; [right; by rewrite parent_of_insert_eq, Ed|left; by apply parent_of_insert_ne]. }
      apply (forest_reparent T _ next q); [intros x Hx; by apply parent_of_insert_ne|by rewrite parent_of_insert_eq, Ed| |done].
      intros j x Hx ->. assert (is_Some (T !! next)); [|rewrite Hfr in *; by destruct H].
      clear -Hx Hsc Hm. revert q m Hm Hx. induction j as [|j IH]; intros q m Hm Hx; cbn in Hx; [injection Hx as ->; eauto|].
      destruct (parent_of T q) as [p|] eqn:Ep; [|done]. unfold parent_of in Ep. destruct (liveNode T q) as [m'|] eqn:El; [|done].
      apply liveNode_row in El. destruct (Hsc q m' El p Ep) as [_ Hfo]. destruct (T !! p) as [fo|] eqn:Efo; [by eapply IH|done].
    + apply (forest_cut T); [|done]. intros x. destruct (decide (x = next)) as [->|];
        [right; rewrite parent_of_insert_eq, Eq; by destruct (tn_Deleted n)|left; by apply parent_of_insert_ne].
  - split; [|by apply forest_move]. rewrite MoveSecret_table. destruct (move_check f T a s p) as [q|] eqn:Hc; [|done].
    eapply (@tree_step_inv E false (mkTreeState T next [PendingParent s q])); [|by apply step_write].
    destruct Hinv as (? & ? & ?). split; [done|]. split; [done|]. constructor; [by eapply move_check_ok|done].
  - split; [by eapply (@tree_step_inv E false); [|apply step_delete]|]. apply (forest_cut T); [|done]. intros x. unfold tree_delete.
    destruct (liveNode T id); [|by left]. destruct (decide (x = id)) as [->|]; [right; by rewrite parent_of_insert_eq|left; by apply parent_of_insert_ne].
Qed.

(** C10. Operations that run one at a time keep the folder tree a forest.  From
    the empty table, after any creations, deletions and moves, each alone, reads
    and writes of a move failing or not, the parents of every node end: no node
    is its own ancestor.  A move is taken when its target has at most 20
    ancestors; a restoration is not among the operations. *)
Theorem moves_keep_forest {E} T next id : @tree_run E T next -> exists k, climb T id k = None /\ forall c, climb T id (S c) <> Some id.
Proof.
  intros Hr. destruct (tree_run_inv T next Hr) as [_ Hf]. destruct (Hf id) as [k Hk]. exists k. split; [done|].
  intros c Hc. by apply (climb_cycle _ _ _ Hc k).
Qed.

(** * Concrete tables *)

(** Folders 1, 2, ..., each under the one before, in one project and environment. *)
Definition chain (n : nat) : tree :=
  list_to_map (map (fun i => (Z.of_nat i, mkTree 1 1 false (if (i =? 1)%nat then None else Some (Z.of_nat i - 1)) false)) (seq 1 n)).
Definition quiet : moveFaults unit := no_move_faults.
Definition acyclic_by (T : tree) (k : nat) : bool := forallb (fun x => is_none (climb T x.1 (S k))) (map_to_list T).

Lemma acyclic_by_forest T k : acyclic_by T k = true -> forest T.
Proof.
  unfold acyclic_by. rewrite forallb_forall. intros H id. destruct (T !! id) as [n|] eqn:En.
  - exists (S k). apply elem_of_map_to_list, list_elem_of_In, H in En. cbn [fst] in En. by destruct (climb T id (S k)).
  - exists 1%nat. cbn. unfold parent_of, liveNode. by rewrite En.
Qed.

Lemma not_forest T id c : climb T id (S c) = Some id -> ~ forest T.
Proof. intros Hc Hf. destruct (Hf id) as [k Hk]. by apply (climb_cycle _ _ _ Hc k). Qed.

(** The walk sees 20 ancestors: a folder moved under its own 22nd descendant. *)
Example deep_move_makes_cycle :
  let T := chain 23 in
  forest T /\ (MoveSecret quiet T 7 1 (Some 23)).1 = Ok (mkMoved 7 1 (Some 23)) /\ ~ forest (MoveSecret quiet T 7 1 (Some 23)).2.
Proof.
  split; [apply (acyclic_by_forest _ 23); vm_compute; reflexivity|]. split; [vm_compute; reflexivity|].
  apply (not_forest _ 1 22). vm_compute. reflexivity.
Qed.

(** Two moves, each checked before the other's write. *)
Definition two_roots : tree := <[1 := mkTree 1 1 false None false]> (<[2 := mkTree 1 1 false None false]> ∅).
Example racing_moves_make_cycle :
  forest two_roots /\ move_check quiet two_roots 7 1 (Some 2) = Ok (Some 2) /\ move_check quiet two_roots 8 2 (Some 1) = Ok (Some 1) /\
  ~ forest (move_write quiet (move_write quiet two_roots 1 (Some 2)).2 2 (Some 1)).2.
Proof.
  split; [apply (acyclic_by_forest _ 1); vm_compute; reflexivity|]. split; [vm_compute; reflexivity|]. split; [vm_compute; reflexivity|].
  apply (not_forest _ 1 1). vm_compute. reflexivity.
Qed.

(** Folder 2 of the chain is deleted, folder 1 moved under what was below it, and
    folder 2 restored. *)
Example restore_makes_cycle :
  let T := (MoveSecret quiet (tree_delete (chain 3) 2) 7 1 (Some 3)).2 in
  forest T /\ (MoveSecret quiet (tree_delete (chain 3) 2) 7 1 (Some 3)).1 = Ok (mkMoved 7 1 (Some 3)) /\ ~ forest (tree_restore T 2).
Proof.
  split; [apply (acyclic_by_forest _ 3); vm_compute; reflexivity|]. split; [vm_compute; reflexivity|].
  apply (not_forest _ 1 2). vm_compute. reflexivity.
Qed.

(** A folder is deleted and purged; the secret in it is live and still names it. *)
Example purge_leaves_pointer :
  let T := tree_purge (tree_delete (<[2 := mkTree 1 1 true (Some 1) false]> (<[1 := mkTree 1 1 false None false]> ∅)) 1) {[1]} in
  T !! 2 = Some (mkTree 1 1 true (Some 1) false) /\ T !! 1 = None.
Proof. vm_compute. done. Qed.

(** ** Witnesses *)

Lemma two_roots_run : @tree_run unit (<[2 := mkTree 1 1 false None false]> (<[1 := mkTree 1 1 false None false]> ∅)) 3.
Proof.
  apply (run_create quiet _ 2 false 1 1 None); [|reflexivity]. apply (run_create quiet _ 1 false 1 1 None); [constructor|reflexivity].
Qed.

Lemma moves_keep_forest_witness :
  climb (MoveSecret quiet (<[2 := mkTree 1 1 false None false]> (<[1 := mkTree 1 1 false None false]> ∅)) 7 1 (Some 2)).2 1 1 = Some 2 /\
  exists k, climb (MoveSecret quiet (<[2 := mkTree 1 1 false None false]> (<[1 := mkTree 1 1 false None false]> ∅)) 7 1 (Some 2)).2 1 k = None.
Proof.
  split; [vm_compute; reflexivity|].
  destruct (@moves_keep_forest unit (MoveSecret quiet (<[2 := mkTree 1 1 false None false]> (<[1 := mkTree 1 1 false None false]> ∅)) 7 1 (Some 2)).2 3 1) as (k & Hk & _).
  - apply run_move; [exact two_roots_run|]. intros p [= <-]. vm_compute. reflexivity.
  - exists k. exact Hk.
Defined.

Lemma parent_in_scope_witness :
  exists folder, (<[2 := mkTree 1 1 true (Some 1) false]> (<[1 := mkTree 1 1 false None false]> ∅) : tree) !! 1 = Some folder /\ tn_IsSecret folder = false.
Proof.
  destruct (@parent_in_scope unit false
    (mkTreeState (<[2 := mkTree 1 1 true (Some 1) false]> (<[1 := mkTree 1 1 false None false]> ∅)) 3 []) 2 (mkTree 1 1 true (Some 1) false) 1)
    as [_ [Hs _]].
  - eapply rtc_l; [apply (step_check_create false quiet ∅ 1 [] false 1 1 None); reflexivity|].
    eapply rtc_l; [apply step_insert; reflexivity|].
    eapply rtc_l; [apply (step_check_create false quiet _ _ [] true 1 1 (Some 1)); vm_compute; reflexivity|].
    eapply rtc_l; [apply step_insert; reflexivity|]. apply rtc_refl.
  - reflexivity.
  - reflexivity.
  - eexists. split; [reflexivity|exact Hs].
Defined.
