(* ===== verification/AuthzBatch.v ===== *)
(** Deciding a page of secrets at once ([internal/core/authz_secret_batch.go],
    [internal/storage/store/local_authz_batch.go]).

    [AuthorizeSecretsBatch] answers for every secret of a page what
    [AuthorizeSecretAction] answers for each alone, from one read of each kind.
    [BatchReads] are its reads, any of which may fail; [BatchOf] is what they
    promise with respect to the reads of the per-secret decision, and the theorem
    is proved against that interface.  The tables of the store give both kinds of
    reads, and meet it.

    A Go map is a [gmap], with the entries the code writes; the role-set cache is
    keyed by the joined decimal ids, as in the code. *)
From Stdlib Require Import ZArith Lia.
From stdpp Require Import base numbers tactics sets list gmap.
From S2P Require Import Prelude.
From S2P Require Import GoStr.
From S2P Require Import Rbac.
From S2P Require Import Authz.
From S2P Require Import SecretTree.

(** * Data and reads *)

Record UserRoleGrant := mkRoleGrant {
  rg_RoleID : Z; rg_ProjectID : Z; rg_EnvironmentID : Z; rg_ViaGroup : bool; rg_MemberProjectID : Z; rg_Bypass : bool }.

Definition AppliesAt (g : UserRoleGrant) (scope : Scope) : bool :=
  if negb (rg_ProjectID g =? 0) && negb (rg_ProjectID g =? sc_ProjectID scope) then false
  else if negb (rg_EnvironmentID g =? 0) && negb (rg_EnvironmentID g =? sc_EnvironmentID scope) then false
  else negb (rg_ViaGroup g && negb (rg_MemberProjectID g =? 0) && negb (rg_MemberProjectID g =? sc_ProjectID scope)).

Record BatchReads (E : Type) := mkBatchReads {
  ListSecretACLsByUser : Z -> res E (list SecretACL);
  GetSecretsByIDs : list Z -> res E (list SecretNode);
  (** the projects of the list the user is a member of *)
  ProjectMembershipsAmong : Z -> list Z -> res E (gset Z);
  ListUserRoleGrants : Z -> res E (list UserRoleGrant);
  b_RoleSetHasPermission : list Z -> bytes -> res E bool;
  ListSharesBySecretIDs : list Z -> Z -> res E (list ShareRecord);
  (** groups and the project each membership is scoped to *)
  ListUserLiveGroupMemberships : Z -> res E (list (Z * Z)) }.
Arguments ListSecretACLsByUser {E}. Arguments GetSecretsByIDs {E}. Arguments ProjectMembershipsAmong {E}. Arguments ListUserRoleGrants {E}.
Arguments b_RoleSetHasPermission {E}. Arguments ListSharesBySecretIDs {E}. Arguments ListUserLiveGroupMemberships {E}.

Definition secretAncestorDepthCap : nat := 20.
Definition maxAuthorizeSecretsBatchSize : nat := Z.to_nat 10000.

Inductive batch_err (E : Type) := BatchRead (e : E) | BatchTooLarge.
Arguments BatchRead {E}. Arguments BatchTooLarge {E}.
Definition batch_read {E A} (m : res E A) : res (batch_err E) A := match m with Ok a => Ok a | Err e => Err (BatchRead e) end.

Inductive batchVerdict := batchAllow | batchDeny.
#[export] Instance batchVerdict_eq_dec : EqDecision batchVerdict.
Proof. solve_decision. Defined.
(** An absent entry is [batchUndecided]. *)
Abbreviation verdicts := (gmap Z batchVerdict).
(** [batchMembership.known] *)
Abbreviation membership := (gmap Z bool).

(** * The stages *)

(** The loop that ends a stage: a secret it decides gets its verdict, the others
    remain. *)
Fixpoint settle (decide_row : SecretNode -> option batchVerdict) (pending : list SecretNode) (verdict : verdicts) : list SecretNode * verdicts :=
  match pending with
  | [] => ([], verdict)
  | s :: pending =>
      match decide_row s with
      | Some v => settle decide_row pending (<[sn_ID s := v]> verdict)
      | None => let '(remaining, verdict) := settle decide_row pending verdict in (s :: remaining, verdict)
      end
  end.

Section batch.
Context {E : Type} (br : BatchReads E) (DecodeSecretACLPerms : bytes -> list bytes).

(** [batchMembership.ensure] *)
Fixpoint ensure_scan (known : membership) (projectIDs : list Z) : membership * list Z :=
  match projectIDs with
  | [] => (known, [])
  | id :: projectIDs =>
      if id =? 0 then ensure_scan (<[0 := false]> known) projectIDs
      else match known !! id with
           | Some _ => ensure_scan known projectIDs
           | None => let '(known, missing) := ensure_scan known projectIDs in (known, id :: missing)
           end
  end.
Definition ensure (userID : Z) (known : membership) (projectIDs : list Z) : res (batch_err E) membership :=
  let '(known, missing) := ensure_scan known projectIDs in
  if is_nil missing then Ok known
  else
    let missing := dedupeUints missing in
    let? members := batch_read (ProjectMembershipsAmong br userID missing) in
    Ok (fold_left (fun k id => <[id := bool_decide (id ∈ members)]> k) missing known).

(** ** Ancestors of the whole page *)

Record walk := mkWalk { w_root : Z; w_cur : Z; w_visited : list Z; w_chain : list Z; w_done : bool }.

(** The rows known so far, and the ids looked up that have no live row. *)
Definition fetch (ids : list Z) (known : gmap Z SecretNode * gset Z) : res (batch_err E) (gmap Z SecretNode * gset Z) :=
  let '(nodes, absent) := known in
  let need := List.filter (fun id => is_none (nodes !! id) && negb (bool_decide (id ∈ absent))) (dedupeUints ids) in
  if is_nil need then Ok (nodes, absent)
  else
    let? fetched := batch_read (GetSecretsByIDs br need) in
    let nodes := fold_left (fun m n => <[sn_ID n := n]> m) fetched nodes in
    Ok (nodes, fold_left (fun a id => if is_none (nodes !! id) then {[id]} ∪ a else a) need absent).

Definition advance (nodes : gmap Z SecretNode) (w : walk) : walk * bool :=
  if w_done w then (w, false)
  else match nodes !! w_cur w with
       | Some n =>
           match sn_ParentID n with
           | Some parent =>
               if bool_decide (parent ∈ w_visited w) then (mkWalk (w_root w) (w_cur w) (w_visited w) (w_chain w) true, false)
               else (mkWalk (w_root w) parent (parent :: w_visited w) (w_chain w ++ [parent]) false, true)
           | None => (mkWalk (w_root w) (w_cur w) (w_visited w) (w_chain w) true, false)
           end
       | None => (mkWalk (w_root w) (w_cur w) (w_visited w) (w_chain w) true, false)
       end.

Fixpoint ancestry_rounds (rounds : nat) (known : gmap Z SecretNode * gset Z) (walks : list walk)
  : res (batch_err E) ((gmap Z SecretNode * gset Z) * list walk) :=
  match rounds with
  | O => Ok (known, walks)
  | S rounds =>
      let? known := fetch (map w_cur (List.filter (fun w => negb (w_done w)) walks)) known in
      let advanced := map (advance known.1) walks in
      let walks := map fst advanced in
      if existsb snd advanced then ancestry_rounds rounds known walks else Ok (known, walks)
  end.

Definition batchSecretAncestry (rows : list SecretNode) : res (batch_err E) (gmap Z SecretNode * gmap Z (list Z)) :=
  if (maxAuthorizeSecretsBatchSize <? length rows)%nat then Err BatchTooLarge
  else
    let nodes := fold_left (fun m s => <[sn_ID s := s]> m) rows (∅ : gmap Z SecretNode) in
    let? r := ancestry_rounds secretAncestorDepthCap (nodes, ∅) (map (fun s => mkWalk (sn_ID s) (sn_ID s) [] [] false) rows) in
    let '(known, walks) := r in
    let? known := fetch (concat (map w_chain walks)) known in
    Ok (known.1, fold_left (fun m w => <[w_root w := w_chain w]> m) walks (∅ : gmap Z (list Z))).

(** ** Access lists *)

(** The secrets whose first row for the user has [perm]. *)
Definition acl_step (perm : bytes) (acc : gset Z * gset Z) (a : SecretACL) : gset Z * gset Z :=
  let '(seen, withPerm) := acc in
  if bool_decide (acl_SecretID a ∈ seen) then (seen, withPerm)
  else ({[acl_SecretID a]} ∪ seen,
        if bool_decide (perm ∈ DecodeSecretACLPerms (acl_Permissions a)) then {[acl_SecretID a]} ∪ withPerm else withPerm).

Fixpoint acl_candidates (withPerm : gset Z) (nodes : gmap Z SecretNode) (known : membership) (candidates : list Z) : option batchVerdict :=
  match candidates with
  | [] => None
  | cand :: candidates =>
      if negb (bool_decide (cand ∈ withPerm)) then acl_candidates withPerm nodes known candidates
      else match nodes !! cand with
           | None => Some batchDeny
           | Some node =>
               if default false (known !! sn_ProjectID node) then Some batchAllow else acl_candidates withPerm nodes known candidates
           end
  end.

Definition batchACLStage (userID : Z) (perm : bytes) (pending : list SecretNode) (verdict : verdicts) (known : membership)
  : res (batch_err E) (list SecretNode * verdicts * membership) :=
  if is_nil pending then Ok (pending, verdict, known)
  else
    let? acls := batch_read (ListSecretACLsByUser br userID) in
    let withPerm := (fold_left (acl_step perm) acls (∅, ∅)).2 in
    if bool_decide (withPerm = ∅) then Ok (pending, verdict, known)
    else
      let? r := batchSecretAncestry pending in
      let '(nodes, chains) := r in
      let candidates := fun s => sn_ID s :: default [] (chains !! sn_ID s) in
      let projects := concat (map (fun s => omap (fun cand =>
        if bool_decide (cand ∈ withPerm) then option_map sn_ProjectID (nodes !! cand) else None) (candidates s)) pending) in
      let? known := ensure userID known projects in
      Ok (settle (fun s => acl_candidates withPerm nodes known (candidates s)) pending verdict, known).

(** ** Roles *)

(** [strings.Join] of the decimal ids. *)
Fixpoint joined (ids : list Z) : bytes :=
  match ids with
  | [] => []
  | [id] => FormatUint id
  | id :: ids => FormatUint id ++ bZ 44 :: joined ids
  end.

Record roleCaches := mkRoleCaches { rc_byScope : Scope -> option (res E bool); rc_bySet : bytes -> option (res E bool) }.
Definition no_caches : roleCaches := mkRoleCaches (fun _ => None) (fun _ => None).

Definition role_decide (grants : list UserRoleGrant) (perm : bytes) (scope : Scope) (c : roleCaches) : res E bool * roleCaches :=
  match rc_byScope c scope with
  | Some d => (d, c)
  | None =>
      let held := List.filter (fun g => AppliesAt g scope) grants in
      let ids := dedupeUints (map rg_RoleID held) in
      let '(d, bySet) :=
        if is_nil ids then (Ok false, rc_bySet c)
        else if existsb rg_Bypass held then (Ok true, rc_bySet c)
        else
          let ids := sort_by (fun x => x) ids in
          let key := joined ids in
          match rc_bySet c key with
          | Some d => (d, rc_bySet c)
          | None =>
              let d := b_RoleSetHasPermission br ids perm in
              (d, fun k => if bool_decide (k = key) then Some d else rc_bySet c k)
          end in
      (d, mkRoleCaches (fun sc => if bool_decide (sc = scope) then Some d else rc_byScope c sc) bySet)
  end.

Fixpoint role_loop (grants : list UserRoleGrant) (perm : bytes) (c : roleCaches) (pending : list SecretNode) (verdict : verdicts)
  : list SecretNode * verdicts :=
  match pending with
  | [] => ([], verdict)
  | s :: pending =>
      let '(d, c) := role_decide grants perm (node_scope s) c in
      match d with
      | Err _ => role_loop grants perm c pending (<[sn_ID s := batchDeny]> verdict)
      | Ok true => role_loop grants perm c pending (<[sn_ID s := batchAllow]> verdict)
      | Ok false => let '(remaining, verdict) := role_loop grants perm c pending verdict in (s :: remaining, verdict)
      end
  end.

Definition batchRoleStage (userID : Z) (perm : bytes) (pending : list SecretNode) (verdict : verdicts)
  : res (batch_err E) (list SecretNode * verdicts) :=
  if is_nil pending then Ok (pending, verdict)
  else
    let? grants := batch_read (ListUserRoleGrants br userID) in
    Ok (role_loop grants perm no_caches pending verdict).

(** ** Shares *)

(** The grant of the share stage, before the membership test.  The memberships
    are read once for the page; a failed read means no group share applies. *)
Definition share_grant (userID : Z) (need : bytes) (active : list ShareRecord) (s : SecretNode) : shareGrant :=
  let shares := sort_by sh_ID (List.filter (fun sh => sh_SecretID sh =? sn_ID s) active) in
  let direct := directShareGrant shares userID need in
  if is_none_level direct && existsb sh_IsGroup shares then
    let memberships := match ListUserLiveGroupMemberships br userID with Ok ms => ms | Err _ => [] end in
    let groups := map fst (List.filter (fun m => (m.2 =? 0) || (m.2 =? sn_ProjectID s)) memberships) in
    let '(level, shareID) := highestGroupShare shares groups in
    groupShareGrant level shareID need
  else direct.

(** The elevations, last and in page order. *)
Fixpoint note_loop (cx : reqctx) (userID : Z) (perm : bytes) (known : membership) (granted : list (SecretNode * shareGrant)) (verdict : verdicts) (t : trace)
  : verdicts * trace :=
  match granted with
  | [] => (verdict, t)
  | (s, g) :: granted =>
      if negb (default false (known !! sn_ProjectID s)) then note_loop cx userID perm known granted (<[sn_ID s := batchDeny]> verdict) t
      else
        let '(noted, t) := noteShareElevation cx userID s perm [] g t in
        note_loop cx userID perm known granted (<[sn_ID s := if (noted : bool) then batchAllow else batchDeny]> verdict) t
  end.

Definition batchShareStage (cx : reqctx) (userID : Z) (perm : bytes) (now : Z) (pending : list SecretNode) (verdict : verdicts)
    (known : membership) (t : trace) : res (batch_err E) verdicts * trace :=
  if is_nil pending then (Ok verdict, t)
  else
    let need := shareNeedFor perm in
    if bool_decide (need = PermissionNone) || negb (shareMayElevate need []) || (userID =? 0) then
      (Ok (settle (fun _ => Some batchDeny) pending verdict).2, t)
    else match ListSharesBySecretIDs br (map sn_ID pending) now with
    | Err e => (Err (BatchRead e), t)
    | Ok all =>
        let active := activeShares all now in
        let grant := share_grant userID need active in
        let '(covered, verdict) := settle (fun s => if is_none_level (grant s) then Some batchDeny else None) pending verdict in
        match ensure userID known (map sn_ProjectID covered) with
        | Err e => (Err e, t)
        | Ok known =>
            let '(verdict, t) := note_loop cx userID perm known (map (fun s => (s, grant s)) covered) verdict t in (Ok verdict, t)
        end
    end.

(** ** The page *)

Fixpoint dedupe_rows (seen : gset Z) (secrets : list (option SecretNode)) : list SecretNode :=
  match secrets with
  | [] => []
  | None :: secrets => dedupe_rows seen secrets
  | Some s :: secrets => if bool_decide (sn_ID s ∈ seen) then dedupe_rows seen secrets else s :: dedupe_rows ({[sn_ID s]} ∪ seen) secrets
  end.

Definition AuthorizeSecretsBatch (cx : reqctx) (userID : Z) (perm : bytes) (now : Z) (secrets : list (option SecretNode)) (t : trace)
  : res (batch_err E) (gmap Z bool) * trace :=
  if (maxAuthorizeSecretsBatchSize <? length secrets)%nat then (Err BatchTooLarge, t)
  else
    let rows := dedupe_rows ∅ secrets in
    let '(pending, verdict) :=
      settle (fun s => if negb (Allows (cx_pat cx) perm (node_scope s)) then Some batchDeny else None) rows (∅ : verdicts) in
    match batchACLStage userID perm pending verdict (∅ : membership) with
    | Err e => (Err e, t)
    | Ok (pending, verdict, known) =>
        match batchRoleStage userID perm pending verdict with
        | Err e => (Err e, t)
        | Ok (pending, verdict) =>
            match batchShareStage cx userID perm now pending verdict known t with
            | (Err e, t) => (Err e, t)
            | (Ok verdict, t) =>
                (Ok (fold_left (fun out s => <[sn_ID s := bool_decide (verdict !! sn_ID s = Some batchAllow)]> out) rows (∅ : gmap Z bool)), t)
            end
        end
    end.
End batch.

(** * What the reads promise *)

(** A live row, as the per-secret decision reads it. *)
Definition row_of {E} (st : AuthzStore E) (id : Z) : option SecretNode := match s_GetSecret st id with Ok n => Some n | Err _ => None end.

Definition held_at (grants : list UserRoleGrant) (scope : Scope) : list UserRoleGrant := List.filter (fun g => AppliesAt g scope) grants.
Definition groups_at (memberships : list (Z * Z)) (project : Z) : list Z :=
  map fst (List.filter (fun m => (m.2 =? 0) || (m.2 =? project)) memberships).

(** Each batch read, when it succeeds, agrees with the per-secret reads. *)
Class BatchOf {E} (st : AuthzStore E) (br : BatchReads E) : Prop := {
  bo_acl u acls id : ListSecretACLsByUser br u = Ok acls ->
    s_GetSecretACL st id u = Ok (List.find (fun a => acl_SecretID a =? id) acls);
  bo_row_id id n : s_GetSecret st id = Ok n -> sn_ID n = id;
  bo_rows ids ns : GetSecretsByIDs br ids = Ok ns ->
    (forall n, n ∈ ns -> row_of st (sn_ID n) = Some n) /\ (forall id n, id ∈ ids -> row_of st id = Some n -> n ∈ ns);
  bo_ancestors id : s_GetSecretAncestors st id = GetSecretAncestors (fun id => Ok (option_map sn_ParentID (row_of st id))) id;
  bo_members u ids ms id : ProjectMembershipsAmong br u ids = Ok ms -> id ∈ ids -> id <> 0 ->
    s_IsProjectMember st u id = Ok (bool_decide (id ∈ ms));
  bo_project0 u : s_IsProjectMember st u 0 = Ok false;
  bo_role_ids u grants : ListUserRoleGrants br u = Ok grants -> Forall (fun g => 0 <= rg_RoleID g) grants;
  bo_roles u grants scope perm : ListUserRoleGrants br u = Ok grants ->
    userHasScopedPermission st u perm scope =
      if is_nil (held_at grants scope) then Ok false else if existsb rg_Bypass (held_at grants scope) then Ok true
      else stored (b_RoleSetHasPermission br (sort_by (fun x => x) (dedupeUints (map rg_RoleID (held_at grants scope)))) perm);
  bo_shares ids now shares id : ListSharesBySecretIDs br ids now = Ok shares -> id ∈ ids ->
    s_ListSharesBySecret st id now = Ok (sort_by sh_ID (List.filter (fun sh => sh_SecretID sh =? id) shares));
  bo_groups u project : match ListUserLiveGroupMemberships br u with
    | Ok ms => exists gs, s_GetUserGroupsAt st u (mkScope project 0) = Ok gs /\ forall g, g ∈ gs <-> g ∈ groups_at ms project
    | Err _ => exists e, s_GetUserGroupsAt st u (mkScope project 0) = Err e
    end }.

(** * Generic lemmas *)

Lemma settle_ext d d' pending : forall verdict, (forall s, s ∈ pending -> d s = d' s) -> settle d pending verdict = settle d' pending verdict.
Proof.
  induction pending as [|s l IH]; intros verdict H; [done|]. cbn. rewrite (H s) by left.
  destruct (d' s); rewrite IH by (intros; apply H; by right); done.
Qed.

Lemma settle_none d pending verdict : (forall s, s ∈ pending -> d s = None) -> settle d pending verdict = (pending, verdict).
Proof.
  intros H. induction pending as [|s l IH]; [done|]. cbn. rewrite (H s) by left. rewrite IH by (intros; apply H; by right). done.
Qed.

Lemma settle_remaining d pending : forall verdict, (settle d pending verdict).1 = List.filter (fun s => is_none (d s)) pending.
Proof.
  induction pending as [|s l IH]; intros verdict; [done|]. cbn. destruct (d s); cbn [is_none]; [apply IH|].
  specialize (IH verdict). destruct (settle d l verdict). cbn in *. by rewrite IH.
Qed.

Lemma settle_other d pending : forall verdict id, id ∉ map sn_ID pending -> (settle d pending verdict).2 !! id = verdict !! id.
Proof.
  induction pending as [|s l IH]; intros verdict id H; [done|]. cbn. cbn in H. apply not_elem_of_cons in H as [Hne Hn].
  destruct (d s).
  - rewrite IH by done. by rewrite lookup_insert_ne.
  - specialize (IH verdict id Hn). by destruct (settle d l verdict).
Qed.

Lemma settle_verdict d pending : forall verdict s, NoDup (map sn_ID pending) -> s ∈ pending ->
  (settle d pending verdict).2 !! sn_ID s = match d s with Some v => Some v | None => verdict !! sn_ID s end.
Proof.
  induction pending as [|x l IH]; intros verdict s Hnd Hs; [by apply elem_of_nil in Hs|]. cbn. cbn in Hnd. apply NoDup_cons in Hnd as [Hx Hnd].
  apply elem_of_cons in Hs as [->|Hs].
  - destruct (d x); [rewrite settle_other by done; by rewrite lookup_insert_eq|].
    pose proof (settle_other d l verdict (sn_ID x) Hx) as H. by destruct (settle d l verdict).
  - assert (sn_ID s <> sn_ID x) as Hne by (intros E; apply Hx; rewrite <- E; by apply list_elem_of_fmap_2).
    destruct (d x); [rewrite IH by done; by rewrite lookup_insert_ne|].
    specialize (IH verdict s Hnd Hs). by destruct (settle d l verdict).
Qed.

(** A fold of insertions under distinct keys. *)
Lemma lookup_fold_insert {A B} (k : A -> Z) (v : A -> B) (l : list A) : forall (m : gmap Z B) id,
  fold_left (fun m a => <[k a := v a]> m) l m !! id =
  match List.find (fun a => k a =? id) (rev l) with Some a => Some (v a) | None => m !! id end.
Proof.
  induction l as [|a l IH]; intros m id; [done|]. cbn [fold_left rev]. rewrite IH.
  assert (forall x, List.find (fun a => k a =? id) (x ++ [a]) =
    match List.find (fun a => k a =? id) x with Some y => Some y | None => if k a =? id then Some a else None end) as ->.
  { induction x as [|y x IHx]; cbn; [by destruct (k a =? id)|]. by destruct (k y =? id). }
  destruct (List.find _ (rev l)); [done|]. destruct (Z.eqb_spec (k a) id) as [<-|]; [by rewrite lookup_insert_eq|by rewrite lookup_insert_ne].
Qed.

Lemma find_in_rev {A} (k : A -> Z) (l : list A) a : NoDup (map k l) -> a ∈ l -> List.find (fun x => k x =? k a) (rev l) = Some a.
Proof.
  intros Hnd Ha. destruct (List.find (fun x => k x =? k a) (rev l)) as [b|] eqn:Ef.
  - apply find_some in Ef as [Hb Hk]. rewrite <- in_rev in Hb. apply Z.eqb_eq in Hk. f_equal. apply list_elem_of_In in Hb.
    apply list_elem_of_lookup in Ha as [i Hi]. apply list_elem_of_lookup in Hb as [j Hj].
    rewrite NoDup_alt in Hnd. assert (i = j) as ->; [|congruence]. apply (Hnd i j (k a)).
    + change (map k l) with (k <$> l). by rewrite list_lookup_fmap, Hi.
    + change (map k l) with (k <$> l). rewrite list_lookup_fmap, Hj. cbn. by rewrite Hk.
  - exfalso. pose proof (find_none _ _ Ef a) as H. rewrite <- in_rev, Z.eqb_refl in H. by discriminate H; apply list_elem_of_In.
Qed.

(** * The stages agree with the per-secret steps *)

Section agree.
Context {E : Type} (st : AuthzStore E) (br : BatchReads E) `{!BatchOf st br} (decode : bytes -> list bytes) (userID : Z) (perm : bytes).

(** ** Memberships *)

Definition members_sound (known : membership) : Prop := forall id b, known !! id = Some b -> s_IsProjectMember st userID id = Ok b.

Lemma members_sound_insert known id b : members_sound known -> s_IsProjectMember st userID id = Ok b -> members_sound (<[id := b]> known).
Proof. intros Hs Hb k c. destruct (decide (k = id)) as [->|]; [rewrite lookup_insert_eq; congruence|rewrite lookup_insert_ne by done; apply Hs]. Qed.

Lemma ensure_scan_spec ids : forall known known' missing, members_sound known -> ensure_scan known ids = (known', missing) ->
  members_sound known' /\ (forall id, is_Some (known !! id) -> is_Some (known' !! id)) /\
  (forall id, id ∈ ids -> is_Some (known' !! id) \/ id ∈ missing) /\ (forall id, id ∈ missing -> id ∈ ids /\ id <> 0).
Proof.
  induction ids as [|x ids IH]; intros known known' missing Hs; cbn [ensure_scan].
  { intros [= <- <-]. split_and!; [done|done|set_solver|set_solver]. }
  destruct (Z.eqb_spec x 0) as [->|Hx]; [|destruct (known !! x) as [b|] eqn:Ek].
  - intros H. destruct (IH _ _ _ (members_sound_insert known 0 false Hs (bo_project0 userID)) H) as (Hs' & Hm & Hi & Hmi). split_and!; [done| | |].
    + intros id Hid. apply Hm. destruct (decide (id = 0)) as [->|]; [rewrite lookup_insert_eq; eauto|by rewrite lookup_insert_ne].
    + intros id [->|Hid]%elem_of_cons; [left; apply Hm; rewrite lookup_insert_eq; eauto|by apply Hi].
    + intros id Hid. apply Hmi in Hid. set_solver.
  - intros H. destruct (IH _ _ _ Hs H) as (Hs' & Hm & Hi & Hmi). split_and!; [done|done| |].
    + intros id [->|Hid]%elem_of_cons; [left; apply Hm; eauto|by apply Hi].
    + intros id Hid. apply Hmi in Hid. set_solver.
  - destruct (ensure_scan known ids) as [k m] eqn:Es. intros [= <- <-]. destruct (IH _ _ _ Hs Es) as (Hs' & Hm & Hi & Hmi). split_and!; [done|done| |].
    + intros id [->|Hid]%elem_of_cons; [right; left|]. destruct (Hi id Hid); [by left|right; by right].
    + intros id [->|Hid]%elem_of_cons; [split; [left|done]|]. apply Hmi in Hid. set_solver.
Qed.

Lemma ensure_spec known ids known' : members_sound known -> ensure br userID known ids = Ok known' ->
  members_sound known' /\ (forall id, id ∈ ids -> is_Some (known' !! id)).
Proof.
  intros Hs. unfold ensure. destruct (ensure_scan known ids) as [k m] eqn:Es. destruct (ensure_scan_spec _ _ _ _ Hs Es) as (Hk & _ & Hi & Hmi).
  destruct m as [|x m]; cbn [is_nil].
  { intros [= <-]. split; [done|]. intros id Hid. destruct (Hi id Hid); [done|set_solver]. }
  destruct (ProjectMembershipsAmong br userID (dedupeUints (x :: m))) as [ms|] eqn:Em; cbn [batch_read res_bind]; [|done].
  intros [= <-]. assert (forall id, id ∈ dedupeUints (x :: m) -> s_IsProjectMember st userID id = Ok (bool_decide (id ∈ ms))) as Hms.
  { intros id Hid. eapply bo_members; [done|done|]. by apply Hmi, elem_of_dedupe. }
  assert (forall l k0, members_sound k0 -> (forall id, id ∈ l -> s_IsProjectMember st userID id = Ok (bool_decide (id ∈ ms))) ->
    let k1 := fold_left (fun k id => <[id := bool_decide (id ∈ ms)]> k) l k0 in
    members_sound k1 /\ (forall id, id ∈ l \/ is_Some (k0 !! id) -> is_Some (k1 !! id))) as Hfold.
  { clear. induction l as [|y l IH]; intros k0 Hk0 Hl; cbn [fold_left].
    { split; [done|]. intros id [H|H]; [by apply elem_of_nil in H|done]. }
    destruct (IH (<[y := bool_decide (y ∈ ms)]> k0)) as [H1 H2]; [apply members_sound_insert; [done|apply Hl; left]|intros; apply Hl; by right|].
    split; [done|]. intros id Hid. apply H2. destruct (decide (id = y)) as [->|Hne]; [right; rewrite lookup_insert_eq; eauto|].
    rewrite lookup_insert_ne by done. destruct Hid as [[->|?]%elem_of_cons|?]; [done|by left|by right]. }
  destruct (Hfold (dedupeUints (x :: m)) k Hk Hms) as [H1 H2]. split; [done|]. intros id Hid. apply H2.
  destruct (Hi id Hid); [by right|]. left. by apply elem_of_dedupe.
Qed.

(** ** Ancestors *)

(** What is known of the rows is true. *)
Definition rows_sound (known : gmap Z SecretNode * gset Z) : Prop :=
  (forall id n, known.1 !! id = Some n -> row_of st id = Some n) /\ (forall id, id ∈ known.2 -> row_of st id = None).
Definition resolved_in (nodes : gmap Z SecretNode) (id : Z) : Prop := nodes !! id = row_of st id.

Lemma row_of_id id n : row_of st id = Some n -> sn_ID n = id.
Proof. unfold row_of. destruct (s_GetSecret st id) eqn:Eg; [|done]. intros [= ->]. by eapply bo_row_id. Qed.

Lemma resolved_absent known id : rows_sound known -> id ∈ known.2 -> resolved_in known.1 id.
Proof.
  intros [Hn Ha] Hin. unfold resolved_in. rewrite (Ha id Hin). destruct (known.1 !! id) as [n|] eqn:El; [|done].
  apply Hn in El. by rewrite (Ha id Hin) in El.
Qed.

Lemma insert_rows_sound ns : forall nodes : gmap Z SecretNode, (forall id n, nodes !! id = Some n -> row_of st id = Some n) ->
  (forall n, n ∈ ns -> row_of st (sn_ID n) = Some n) ->
  let nodes' := fold_left (fun m n => <[sn_ID n := n]> m) ns nodes in
  (forall id n, nodes' !! id = Some n -> row_of st id = Some n) /\
  (forall id, is_Some (nodes !! id) -> is_Some (nodes' !! id)) /\ (forall n, n ∈ ns -> is_Some (nodes' !! sn_ID n)).
Proof.
  induction ns as [|x ns IH]; intros nodes Hs Hns; cbn [fold_left]; [split_and!; [done|done|set_solver]|].
  destruct (IH (<[sn_ID x := x]> nodes)) as (H1 & H2 & H3).
  { intros id n. destruct (decide (id = sn_ID x)) as [->|]; [rewrite lookup_insert_eq; intros [= <-]; apply Hns; left|rewrite lookup_insert_ne by done; apply Hs]. }
  { intros n Hn. apply Hns. by right. }
  assert (forall id, is_Some (nodes !! id) \/ id = sn_ID x -> is_Some (<[sn_ID x := x]> nodes !! id)) as Hk.
  { intros id Hid. destruct (decide (id = sn_ID x)) as [->|]; [rewrite lookup_insert_eq; eauto|rewrite lookup_insert_ne by done; by destruct Hid]. }
  split_and!; [done|intros id Hid; apply H2, Hk; by left|]. intros n [->|Hn]%elem_of_cons; [apply H2, Hk; by right|by apply H3].
Qed.

Lemma absent_fold (nodes : gmap Z SecretNode) need : forall (absent : gset Z) id,
  id ∈ fold_left (fun a id => if is_none (nodes !! id) then {[id]} ∪ a else a) need absent <->
  id ∈ absent \/ (id ∈ need /\ nodes !! id = None).
Proof.
  induction need as [|x need IH]; intros absent id; cbn [fold_left]; [set_solver|]. rewrite IH.
  destruct (nodes !! x) as [n|] eqn:Ex; cbn [is_none]; rewrite elem_of_cons; [|set_solver].
  split; [tauto|]. intros [?|[[->|?] ?]]; [by left|congruence|tauto].
Qed.

Lemma fetch_spec ids known known' : rows_sound known -> fetch br ids known = Ok known' ->
  rows_sound known' /\ (forall id, is_Some (known.1 !! id) -> is_Some (known'.1 !! id)) /\ (forall id, id ∈ ids -> resolved_in known'.1 id).
Proof.
  destruct known as [nodes absent]. intros Hs. unfold fetch. set (need := List.filter _ _).
  assert (forall id, id ∈ ids -> id ∉ need -> resolved_in nodes id) as Hold.
  { intros id Hid Hn. destruct (nodes !! id) as [n|] eqn:El.
    - unfold resolved_in. rewrite El. symmetry. by apply (proj1 Hs).
    - destruct (decide (id ∈ absent)) as [Ha|Ha]; [by apply (resolved_absent (nodes, absent))|]. exfalso. apply Hn, elem_of_filter_bool.
      rewrite elem_of_dedupe. split; [done|]. rewrite El. cbn. by rewrite bool_decide_false. }
  destruct (is_nil need) eqn:En.
  { intros [= <-]. split; [done|]. split; [done|]. intros id Hid. apply Hold; [done|]. destruct need; [set_solver|done]. }
  destruct (GetSecretsByIDs br need) as [ns|] eqn:Eg; cbn [batch_read res_bind]; [|done]. intros [= <-].
  destruct (bo_rows need ns Eg) as [Hn1 Hn2].
  destruct (insert_rows_sound ns nodes (proj1 Hs) Hn1) as (H1 & H2 & H3). set (nodes' := fold_left _ ns nodes) in *.
  assert (forall id, id ∈ need -> nodes' !! id = None -> row_of st id = None) as Hmiss.
  { intros id Hid Hnone. destruct (row_of st id) as [n|] eqn:Er; [|done]. pose proof (H3 n (Hn2 id n Hid Er)) as Hc.
    rewrite (row_of_id id n Er), Hnone in Hc. by destruct Hc. }
  split; [split|split]; cbn [fst snd].
  - done.
  - intros id [Ha|[Hid Hnone]]%absent_fold; [by apply (proj2 Hs)|by apply Hmiss].
  - done.
  - intros id Hid. unfold resolved_in. destruct (nodes' !! id) as [n|] eqn:El; [symmetry; by apply H1|]. symmetry.
    destruct (decide (id ∈ need)) as [Hin|Hin]; [by apply Hmiss|]. rewrite <- (Hold id Hid Hin).
    destruct (nodes !! id) as [m|] eqn:Em; [|done]. destruct (H2 id) as [? ?]; [eauto|congruence].
Qed.

(** The ancestors that the per-secret walk has still to find. *)
Definition read_parent (id : Z) : res E (option (option Z)) := Ok (option_map sn_ParentID (row_of st id)).
Definition left_to_find (rounds : nat) (w : walk) : list Z :=
  if w_done w then [] else match ancestors_loop read_parent rounds (w_visited w) (w_cur w) with Ok l => l | Err _ => [] end.

Lemma ancestors_loop_total rounds : forall visited id, exists l, ancestors_loop read_parent rounds visited id = Ok l.
Proof.
  induction rounds as [|rounds IH]; intros visited id; cbn [ancestors_loop]; [eauto|]. unfold read_parent at 1.
  destruct (option_map sn_ParentID (row_of st id)) as [[p|]|]; [|eauto..]. case_bool_decide; [eauto|].
  destruct (IH (p :: visited) p) as [l ->]. cbn. eauto.
Qed.

Lemma advance_walk rounds nodes w : (w_done w = false -> resolved_in nodes (w_cur w)) ->
  let '(w', moved) := advance nodes w in
  w_root w' = w_root w /\ w_chain w' ++ left_to_find rounds w' = w_chain w ++ left_to_find (S rounds) w /\ (moved = false -> w_done w' = true).
Proof.
  intros Hres. unfold advance. destruct (w_done w) eqn:Ed.
  { unfold left_to_find. by rewrite Ed. }
  assert (left_to_find (S rounds) w = match ancestors_loop read_parent (S rounds) (w_visited w) (w_cur w) with Ok l => l | Err _ => [] end) as ->
    by (unfold left_to_find; by rewrite Ed).
  cbn [ancestors_loop]. unfold read_parent at 1. rewrite (Hres eq_refl). destruct (row_of st (w_cur w)) as [n|]; cbn [option_map]; [|done].
  destruct (sn_ParentID n) as [p|]; [|done]. case_bool_decide; [done|].
  split; [done|]. split; [|done]. unfold left_to_find. cbn [w_done w_visited w_cur w_chain].
  destruct (ancestors_loop_total rounds (p :: w_visited w) p) as [l ->]. cbn [res_bind]. by rewrite <- app_assoc.
Qed.

Definition walk_ends (rounds : nat) (w w' : walk) : Prop := w_root w' = w_root w /\ w_chain w' = w_chain w ++ left_to_find rounds w.

Lemma ancestry_rounds_spec rounds : forall known walks known' walks', rows_sound known ->
  ancestry_rounds br rounds known walks = Ok (known', walks') ->
  rows_sound known' /\ (forall id, is_Some (known.1 !! id) -> is_Some (known'.1 !! id)) /\ Forall2 (walk_ends rounds) walks walks'.
Proof.
  induction rounds as [|rounds IH]; intros known walks known' walks' Hs; cbn [ancestry_rounds].
  { intros [= <- <-]. split; [done|]. split; [done|]. apply Forall_Forall2_diag, Forall_forall. intros w _. split; [done|].
    unfold left_to_find. cbn. destruct (w_done w); by rewrite app_nil_r. }
  destruct (fetch br _ known) as [k1|] eqn:Ef; cbn [res_bind]; [|done]. destruct (fetch_spec _ _ _ Hs Ef) as (Hs1 & Hm1 & Hres).
  assert (forall w, w ∈ walks -> let '(w', moved) := advance k1.1 w in
    w_root w' = w_root w /\ w_chain w' ++ left_to_find rounds w' = w_chain w ++ left_to_find (S rounds) w /\ (moved = false -> w_done w' = true)) as Hadv.
  { intros w Hw. apply advance_walk. intros Hd. apply Hres, list_elem_of_fmap. exists w. split; [done|]. apply elem_of_filter_bool. by rewrite Hd. }
  destruct (existsb snd (map (advance k1.1) walks)) eqn:Ex.
  - intros H. destruct (IH _ _ _ _ Hs1 H) as (Hs2 & Hm2 & Hw). split; [done|]. split; [auto|]. clear -Hw Hadv.
    rewrite map_map in Hw. rewrite Forall2_lookup in Hw. apply Forall2_lookup. intros i. specialize (Hw i).
    change (map ?f walks) with (f <$> walks) in Hw. rewrite list_lookup_fmap in Hw.
    destruct (walks !! i) as [w|] eqn:Ei; inversion Hw as [? w' [Hr Hc]|]; subst; constructor. specialize (Hadv w (list_elem_of_lookup_2 _ _ _ Ei)).
    destruct (advance k1.1 w) as [w1 moved]. cbn [fst] in *. destruct Hadv as (Hr1 & Hc1 & _). split; [congruence|]. by rewrite Hc, Hc1.
  - intros [= <- <-]. split; [done|]. split; [done|]. rewrite map_map. change (map ?f walks) with (f <$> walks). apply Forall2_fmap_r, Forall_Forall2_diag, Forall_forall. intros w Hw.
    specialize (Hadv w Hw). assert ((advance k1.1 w).2 = false) as Hno.
    { destruct ((advance k1.1 w).2) eqn:Em; [|done]. rewrite <- Ex. symmetry. apply existsb_elem.
      exists (advance k1.1 w). split; [by apply list_elem_of_fmap_2|done]. }
    unfold compose, walk_ends. destruct (advance k1.1 w) as [w1 moved]. cbn [fst snd] in *. destruct Hadv as (Hr & Hc & Hd). split; [done|]. rewrite <- Hc.
    unfold left_to_find at 1. by rewrite (Hd Hno), app_nil_r.
Qed.

(** The rows of a page: live, each once. *)
Definition page (rows : list SecretNode) : Prop := NoDup (map sn_ID rows) /\ forall s, s ∈ rows -> s_GetSecret st (sn_ID s) = Ok s.

Lemma page_row rows s : page rows -> s ∈ rows -> row_of st (sn_ID s) = Some s.
Proof. intros [_ Hp] Hs. unfold row_of. by rewrite (Hp s Hs). Qed.

Lemma page_filter P rows : page rows -> page (List.filter P rows).
Proof. intros [Hnd Hp]. split; [by apply NoDup_map_filter|]. intros s [Hs _]%elem_of_filter_bool. by apply Hp. Qed.

Lemma batchSecretAncestry_spec rows nodes chains : page rows -> batchSecretAncestry br rows = Ok (nodes, chains) ->
  forall s, s ∈ rows -> exists l, chains !! sn_ID s = Some l /\ s_GetSecretAncestors st (sn_ID s) = Ok l /\
    forall id, id = sn_ID s \/ id ∈ l -> resolved_in nodes id.
Proof.
  intros Hp. unfold batchSecretAncestry. destruct (_ <? _)%nat; [done|]. set (nodes0 := fold_left _ rows ∅). set (walks0 := map _ rows).
  destruct (insert_rows_sound rows ∅) as (Hn0 & _ & Hrow0); [done|intros n Hn; by apply (page_row rows)|]. fold nodes0 in Hn0, Hrow0.
  destruct (ancestry_rounds br secretAncestorDepthCap (nodes0, ∅) walks0) as [[k1 walks1]|] eqn:Er; cbn [res_bind]; [|done].
  assert (rows_sound (nodes0, ∅)) as Hs0 by (split; [exact Hn0|intros ? []%not_elem_of_empty]).
  destruct (ancestry_rounds_spec _ _ _ _ _ Hs0 Er) as (Hs1 & Hm1 & Hw).
  destruct (fetch br (concat (map w_chain walks1)) k1) as [k2|] eqn:Ef; cbn [res_bind]; [|done]. intros [= <- <-].
  destruct (fetch_spec _ _ _ Hs1 Ef) as (Hs2 & Hm2 & Hres). intros s Hs.
  assert (exists l, s_GetSecretAncestors st (sn_ID s) = Ok l /\ exists w, w ∈ walks1 /\ w_root w = sn_ID s /\ w_chain w = l) as (l & Hl & w & Hw1 & Hroot & Hchain).
  { destruct (ancestors_loop_total secretAncestorDepthCap [] (sn_ID s)) as [l Hl]. exists l. rewrite bo_ancestors. split; [exact Hl|].
    apply list_elem_of_lookup in Hs as [i Hi]. rewrite Forall2_lookup in Hw. specialize (Hw i). unfold walks0 in Hw.
    change (map ?f rows) with (f <$> rows) in Hw. rewrite list_lookup_fmap, Hi in Hw. inversion Hw as [x w [Hr Hc] E1 E2|]; subst.
    exists w. split; [by eapply list_elem_of_lookup_2|]. split; [done|]. rewrite Hc. unfold left_to_find. cbn [w_done w_visited w_cur w_chain]. by rewrite Hl. }
  exists l. split; [|split; [done|]].
  - assert (map w_root walks1 = map sn_ID rows) as Hroots.
    { unfold walks0 in Hw. clear -Hw. revert walks1 Hw. induction rows as [|x rows IH]; intros [|y walks] Hw; inversion Hw as [|? ? ? ? [Hr _]]; subst; [done|].
      cbn. f_equal; [done|by apply IH]. }
    rewrite (lookup_fold_insert w_root w_chain), <- Hroot. rewrite find_in_rev; [by rewrite Hchain|rewrite Hroots; apply Hp|done].
  - intros id [->|Hid].
    + unfold resolved_in. rewrite (page_row rows s Hp Hs). destruct (Hm2 (sn_ID s)) as [n Hn]; [apply Hm1, Hrow0, Hs|].
      rewrite Hn. apply (proj1 Hs2) in Hn. by rewrite (page_row rows s Hp Hs) in Hn.
    + apply Hres, list_elem_of_In, in_concat. exists (w_chain w). rewrite Hchain. split; [|by apply list_elem_of_In].
      rewrite <- Hchain. apply in_map. by apply list_elem_of_In.
Qed.

(** ** Access lists *)

Lemma acl_fold acls : forall seen withPerm,
  let '(seen', withPerm') := fold_left (acl_step decode perm) acls (seen, withPerm) in
  forall id, (id ∈ withPerm') <-> id ∈ withPerm \/ ((id ∉ seen) /\ exists a, List.find (fun a => acl_SecretID a =? id) acls = Some a /\ perm ∈ decode (acl_Permissions a)).
Proof.
  induction acls as [|a acls IH]; intros seen withPerm; cbn [fold_left].
  { intros id. split; [by left|]. intros [?|(_ & a & Ha & _)]; [done|discriminate Ha]. }
  unfold acl_step at 2. case_bool_decide as Hseen.
  - specialize (IH seen withPerm). destruct (fold_left _ acls _) as [seen' withPerm']. intros id. rewrite IH. cbn [List.find].
    destruct (Z.eqb_spec (acl_SecretID a) id) as [<-|]; [|done]. naive_solver.
  - specialize (IH ({[acl_SecretID a]} ∪ seen) (if bool_decide (perm ∈ decode (acl_Permissions a)) then {[acl_SecretID a]} ∪ withPerm else withPerm)).
    destruct (fold_left _ acls _) as [seen' withPerm']. intros id. rewrite IH. cbn [List.find].
    destruct (Z.eqb_spec (acl_SecretID a) id) as [<-|Hne]; case_bool_decide as Hd; try set_solver.
Qed.

Lemma withPerm_spec acls id : ListSecretACLsByUser br userID = Ok acls ->
  id ∈ (fold_left (acl_step decode perm) acls (∅, ∅)).2 <-> exists a, s_GetSecretACL st id userID = Ok (Some a) /\ perm ∈ decode (acl_Permissions a).
Proof.
  intros Ha. pose proof (acl_fold acls ∅ ∅) as H. destruct (fold_left _ acls _) as [seen withPerm]. cbn [snd]. rewrite H, (bo_acl userID acls id Ha).
  split; [intros [?|(_ & a & -> & ?)]; [set_solver|eauto]|]. intros (a & [= Hf] & ?). right. split; [set_solver|eauto].
Qed.

Definition acl_verdict (m : res (authz_err E) bool) : option batchVerdict :=
  match m with Ok true => Some batchAllow | Ok false => None | Err _ => Some batchDeny end.

Lemma acl_candidates_spec acls withPerm nodes known l :
  ListSecretACLsByUser br userID = Ok acls -> withPerm = (fold_left (acl_step decode perm) acls (∅, ∅)).2 -> members_sound known ->
  (forall id, id ∈ l -> resolved_in nodes id) ->
  (forall id n, id ∈ l -> id ∈ withPerm -> nodes !! id = Some n -> is_Some (known !! sn_ProjectID n)) ->
  acl_candidates withPerm nodes known l = acl_verdict (acl_any st decode userID perm l).
Proof.
  intros Ha Hw Hs Hres Hk. induction l as [|c l IH]; [done|]. cbn [acl_candidates acl_any].
  rewrite IH by (intros; first [apply Hres|eapply Hk]; eauto using list_elem_of_further). pose proof (withPerm_spec acls c Ha) as Hc. rewrite <- Hw in Hc.
  unfold aclGrantsPermission. rewrite (bo_acl userID acls c Ha) in *. cbn [stored res_bind].
  destruct (List.find _ acls) as [a|].
  - case_bool_decide as Hin; cbn [negb].
    + apply Hc in Hin as (a' & [= <-] & Hp). rewrite bool_decide_true by done. cbn [negb].
      pose proof (Hres c ltac:(left)) as Hr. unfold resolved_in, row_of in Hr. rewrite Hr.
      destruct (s_GetSecret st c) as [n|] eqn:En; cbn [stored res_bind]; [|done].
      destruct (Hk c n) as [b Hb]; [left|apply Hc; eauto|done|]. rewrite Hb, (Hs _ _ Hb). cbn. by destruct b.
    + rewrite bool_decide_false; [done|]. intros Hp. apply Hin, Hc. eauto.
  - rewrite bool_decide_false; [done|]. intros Hin. by apply Hc in Hin as (a & [=] & _).
Qed.

Definition acl_row (s : SecretNode) : option batchVerdict := acl_verdict (HasSecretACL st decode userID (sn_ID s) perm).

Lemma HasSecretACL_any secretID l : s_GetSecretAncestors st secretID = Ok l ->
  HasSecretACL st decode userID secretID perm = acl_any st decode userID perm (secretID :: l).
Proof. intros Hl. unfold HasSecretACL. cbn [acl_any]. by rewrite Hl. Qed.

Lemma acl_any_none l : (forall id, ~ exists a, s_GetSecretACL st id userID = Ok (Some a) /\ perm ∈ decode (acl_Permissions a)) ->
  (forall id, exists o, s_GetSecretACL st id userID = Ok o) -> acl_any st decode userID perm l = Ok false.
Proof.
  intros Hno Hok. induction l as [|c l IH]; [done|]. cbn [acl_any]. unfold aclGrantsPermission. destruct (Hok c) as [[a|] Ha]; rewrite Ha; cbn [stored res_bind]; [|done].
  rewrite bool_decide_false; [done|]. intros Hp. apply (Hno c). eauto.
Qed.

Lemma batchACLStage_spec pending verdict known r : page pending -> members_sound known ->
  batchACLStage br decode userID perm pending verdict known = Ok r ->
  r.1 = settle acl_row pending verdict /\ members_sound r.2.
Proof.
  intros Hp Hs. unfold batchACLStage. destruct (is_nil pending) eqn:Enil; [destruct pending; [by intros [= <-]|done]|].
  destruct (ListSecretACLsByUser br userID) as [acls|] eqn:Ea; cbn [batch_read res_bind]; [|done].
  set (withPerm := (fold_left _ acls _).2). case_bool_decide as Hempty.
  { intros [= <-]. split; [|done]. cbn [fst]. symmetry. apply settle_none. intros s _. unfold acl_row.
    destruct (ancestors_loop_total secretAncestorDepthCap [] (sn_ID s)) as [l Hl]. rewrite (HasSecretACL_any (sn_ID s) l) by (rewrite bo_ancestors; exact Hl).
    rewrite acl_any_none; [done| |]; intros id; [rewrite <- (withPerm_spec acls id Ea); fold withPerm; rewrite Hempty; set_solver|].
    rewrite (bo_acl userID acls id Ea). eauto. }
  destruct (batchSecretAncestry br pending) as [[nodes chains]|] eqn:Eb; cbn [res_bind]; [|done].
  pose proof (batchSecretAncestry_spec pending nodes chains Hp Eb) as Hanc. set (projects := concat _).
  destruct (ensure br userID known projects) as [known'|] eqn:Ee; cbn [res_bind]; [|done].
  intros Hr. match type of Hr with Ok ?x = _ => assert (r = x) as -> by congruence end. clear Hr. cbn [fst snd].
  destruct (ensure_spec known projects known' Hs Ee) as [Hs' Hk]. split; [|done]. apply settle_ext. intros s Hin. unfold acl_row.
  destruct (Hanc s Hin) as (l & Hc & Hl & Hres). rewrite (HasSecretACL_any _ l Hl), Hc. cbn [default].
  apply (acl_candidates_spec acls); [done|done|done| |].
  - intros id [->|?]%elem_of_cons; apply Hres; auto.
  - intros id n Hid Hwp Hn. apply Hk. unfold projects. apply list_elem_of_In, in_concat. eexists. split.
    + apply in_map. by apply list_elem_of_In.
    + apply list_elem_of_In, list_elem_of_omap. exists id. rewrite Hc. cbn [default]. split; [done|]. rewrite bool_decide_true by done. by rewrite Hn.
Qed.

(** ** Roles *)

Lemma joined_fields ids : ids <> [] -> joined ids ++ [bZ 44] = concat (map id_field ids).
Proof.
  induction ids as [|x [|y ids] IH]; intros Hne; [done|by cbn; rewrite app_nil_r|].
  cbn [joined map concat] in *. rewrite <- IH by done. unfold id_field. by rewrite <- !app_assoc.
Qed.

Lemma joined_inj a b : a <> [] -> b <> [] -> Forall (fun id => 0 <= id) a -> Forall (fun id => 0 <= id) b -> joined a = joined b -> a = b.
Proof.
  intros Ha Hb Hna Hnb E1. apply (fields_key_inj a b [] [] Hna Hnb). rewrite <- !joined_fields by done. by rewrite E1.
Qed.

Definition role_verdict (m : res (authz_err E) bool) : option batchVerdict :=
  match m with Ok true => Some batchAllow | Ok false => None | Err _ => Some batchDeny end.
Definition role_row (s : SecretNode) : option batchVerdict := role_verdict (userHasScopedPermission st userID perm (node_scope s)).

Definition caches_sound (c : roleCaches (E:=E)) : Prop :=
  (forall scope d, rc_byScope c scope = Some d -> userHasScopedPermission st userID perm scope = stored d) /\
  (forall ids d, ids <> [] -> Forall (fun id => 0 <= id) ids -> rc_bySet c (joined ids) = Some d -> d = b_RoleSetHasPermission br ids perm).

Lemma role_decide_spec grants scope c : ListUserRoleGrants br userID = Ok grants -> caches_sound c ->
  let '(d, c') := role_decide br grants perm scope c in userHasScopedPermission st userID perm scope = stored d /\ caches_sound c'.
Proof.
  intros Hg [Hsc Hset]. unfold role_decide. destruct (rc_byScope c scope) as [d|] eqn:Es; [split; [by apply Hsc|done]|].
  pose proof (bo_roles userID grants scope perm Hg) as Hd. fold (held_at grants scope). set (held := held_at grants scope) in *.
  assert (is_nil (dedupeUints (map rg_RoleID held)) = is_nil held) as ->.
  { destruct held as [|g l]; [done|]. cbn [is_nil]. assert (rg_RoleID g ∈ dedupeUints (map rg_RoleID (g :: l))) as H by (apply elem_of_dedupe; left).
    destruct (dedupeUints _); [by apply elem_of_nil in H|done]. }
  assert (forall d bySet, userHasScopedPermission st userID perm scope = stored d ->
    (forall ids d, ids <> [] -> Forall (fun id => 0 <= id) ids -> bySet (joined ids) = Some d -> d = b_RoleSetHasPermission br ids perm) ->
    caches_sound (mkRoleCaches (fun sc => if bool_decide (sc = scope) then Some d else rc_byScope c sc) bySet)) as Hc.
  { intros d bySet H1 H2. split; cbn [rc_byScope rc_bySet]; [|done]. intros sc d'. case_bool_decide as Hq; [intros [= <-]; by rewrite Hq|apply Hsc]. }
  destruct (is_nil held) eqn:En; [by split; [|apply Hc]|]. destruct (existsb rg_Bypass held); [by split; [|apply Hc]|].
  set (ids := sort_by (fun x => x) (dedupeUints (map rg_RoleID held))) in *.
  assert (Forall (fun id => 0 <= id) ids /\ ids <> []) as [Hnn Hne].
  { split.
    - unfold ids. rewrite sort_by_perm. apply Forall_forall. intros id Hid. rewrite elem_of_dedupe in Hid. apply list_elem_of_fmap in Hid as (g & -> & Hin). apply elem_of_filter_bool in Hin as [Hin _].
      pose proof (bo_role_ids userID grants Hg) as Hall. rewrite Forall_forall in Hall. by apply Hall.
    - intros H. unfold ids in H. destruct held as [|g l]; [done|].
      assert (rg_RoleID g ∈ sort_by (fun x => x) (dedupeUints (map rg_RoleID (g :: l)))) as Hin by (rewrite sort_by_perm, elem_of_dedupe; left).
      rewrite H in Hin. by apply elem_of_nil in Hin. }
  destruct (rc_bySet c (joined ids)) as [d|] eqn:Ek.
  - apply Hset in Ek; [|done..]. subst d. by split; [|apply Hc].
  - split; [done|]. apply Hc; [done|]. intros ids' d' Hne' Hnn'. case_bool_decide as Hj; [|by apply Hset].
    apply joined_inj in Hj as ->; [|done..]. by intros [= <-].
Qed.

Lemma role_loop_spec grants pending : forall c verdict, ListUserRoleGrants br userID = Ok grants -> caches_sound c ->
  role_loop br grants perm c pending verdict = settle role_row pending verdict.
Proof.
  induction pending as [|s l IH]; intros c verdict Hg Hc; [done|]. cbn [role_loop settle]. unfold role_row at 1.
  pose proof (role_decide_spec grants (node_scope s) c Hg Hc) as Hd. destruct (role_decide br grants perm (node_scope s) c) as [d c'].
  destruct Hd as [-> Hc']. destruct d as [[|]|]; cbn [stored role_verdict]; by rewrite IH.
Qed.

Lemma batchRoleStage_spec pending verdict r : batchRoleStage br userID perm pending verdict = Ok r -> r = settle role_row pending verdict.
Proof.
  unfold batchRoleStage. destruct (is_nil pending) eqn:En; [destruct pending; [by intros [= <-]|done]|].
  destruct (ListUserRoleGrants br userID) as [grants|] eqn:Eg; cbn [batch_read res_bind]; [|done].
  rewrite (role_loop_spec grants) by done. intros H. congruence.
Qed.

(** ** Shares *)

Context (now : Z) (cx : reqctx).

Lemma highestGroupShare_groups shares gs gs' : (forall g, g ∈ gs <-> g ∈ gs') -> highestGroupShare shares gs = highestGroupShare shares gs'.
Proof.
  intros Hg. unfold highestGroupShare. generalize (PermissionNone, @None Z). induction shares as [|s l IH]; intros best; [done|].
  cbn [fold_left]. rewrite IH. f_equal. unfold highest_step. by rewrite (bool_decide_ext (sh_RecipientID s ∈ gs) (sh_RecipientID s ∈ gs')) by apply Hg.
Qed.

Lemma highestGroupShare_none shares gs : existsb sh_IsGroup shares = false \/ gs = [] -> highestGroupShare shares gs = (PermissionNone, None).
Proof.
  unfold highestGroupShare. intros H. induction shares as [|s l IH]; [done|]. cbn [fold_left existsb] in *.
  assert (highest_step gs (PermissionNone, None) s = (PermissionNone, None)) as ->.
  { unfold highest_step. destruct H as [H| ->]; [apply orb_false_iff in H as [-> _]; done|]. by destruct (sh_IsGroup s). }
  apply IH. destruct H as [H|H]; [left; by apply orb_false_iff in H as [_ H]|by right].
Qed.

Lemma groupShareGrant_none need : need = PermissionRead \/ need = PermissionWrite -> groupShareGrant PermissionNone None need = no_grant.
Proof. intros [-> | ->]; vm_compute; reflexivity. Qed.

Lemma directShareGrant_none shares need : is_none_level (directShareGrant shares userID need) = true -> need = PermissionRead \/ need = PermissionWrite ->
  directShareGrant shares userID need = no_grant.
Proof.
  intros H Hneed. induction shares as [|s l IH]; [done|]. cbn [directShareGrant] in *. destruct (sh_IsGroup s || _); [by apply IH|].
  destruct (hasRequiredPermission _ _) eqn:Eh; [|by apply IH]. exfalso. apply (required_not_none _ _ Hneed) in Eh.
  unfold is_none_level in H. apply bool_decide_eq_true in H. done.
Qed.

(** The grant of a row, and the membership test the per-secret decision makes of it. *)
Lemma share_grant_spec ids all need s : ListSharesBySecretIDs br ids now = Ok all -> sn_ID s ∈ ids -> userID <> 0 ->
  need = PermissionRead \/ need = PermissionWrite ->
  activeShareGrant st now now userID (sn_ID s) (sn_ProjectID s) need =
  let g := share_grant br userID need (activeShares all now) s in
  if is_none_level g then Ok no_grant
  else let? member := stored (s_IsProjectMember st userID (sn_ProjectID s)) in if (member : bool) then Ok g else Ok no_grant.
Proof.
  intros Hl Hid Hu Hneed. unfold activeShareGrant. destruct (Z.eqb_spec userID 0); [done|].
  rewrite (bo_shares ids now all (sn_ID s) Hl Hid). cbn [stored res_bind]. unfold share_grant, activeShares.
  rewrite filter_sort_by, !filter_filter_and.
  rewrite (filter_ext_bool (fun x => shareActive now x && (sh_SecretID x =? sn_ID s)) (fun x => (sh_SecretID x =? sn_ID s) && shareActive now x))
    by (intros; apply andb_comm).
  set (shares := sort_by sh_ID _). destruct (is_none_level (directShareGrant shares userID need)) eqn:Ed; cbn [andb]; [|by rewrite Ed].
  assert (is_none_level no_grant = true) as Hng by done.
  pose proof (bo_groups userID (sn_ProjectID s)) as Hg. destruct (ListUserLiveGroupMemberships br userID) as [ms|].
  - destruct Hg as (gs & -> & Hgs). fold (groups_at ms (sn_ProjectID s)). rewrite (highestGroupShare_groups _ _ _ Hgs).
    destruct (existsb sh_IsGroup shares) eqn:Eg; [by destruct (highestGroupShare _ _)|].
    rewrite highestGroupShare_none by auto. by rewrite groupShareGrant_none, Hng, Ed.
  - destruct Hg as [e0 ->]. rewrite Ed. destruct (existsb sh_IsGroup shares) eqn:Eg; [|by rewrite Ed].
    rewrite highestGroupShare_none by (right; reflexivity). by rewrite groupShareGrant_none.
Qed.

(** ** The trace *)

(** The same elevations on record; the gate's memo may differ. *)
Definition same_notes (t t' : trace) : Prop := tr_pending t = tr_pending t' /\ tr_audited t = tr_audited t'.
#[local] Instance same_notes_equiv : Equivalence same_notes.
Proof. split; [done|intros ? ? []; split; congruence|intros ? ? ? [] []; split; congruence]. Qed.

Definition noted (s : SecretNode) (g : shareGrant) (t : trace) : bool * trace := noteShareElevation cx userID s perm [] g t.

Lemma noted_same s g t t' : same_notes t t' -> (noted s g t).1 = (noted s g t').1 /\ same_notes (noted s g t).2 (noted s g t').2.
Proof.
  intros [Hp Ha]. unfold noted, noteShareElevation. destruct (is_none _); [done|]. destruct (cx_recorder cx); [split; [done|split; cbn; congruence]|].
  destruct (negb _); [done|]. split; [done|split; cbn; congruence].
Qed.

(** Whether a note is taken does not depend on the trace. *)
Lemma noted_bool s g t t' : (noted s g t).1 = (noted s g t').1.
Proof. unfold noted, noteShareElevation. destruct (is_none _); [done|]. destruct (cx_recorder cx); [done|]. by destruct (negb _). Qed.

Definition share_step (known : membership) (grant : SecretNode -> shareGrant) (t : trace) (s : SecretNode) : trace :=
  if is_none_level (grant s) then t else if default false (known !! sn_ProjectID s) then (noted s (grant s) t).2 else t.
Definition share_verdict (known : membership) (grant : SecretNode -> shareGrant) (s : SecretNode) : bool :=
  negb (is_none_level (grant s)) && default false (known !! sn_ProjectID s) && (noted s (grant s) (mkTrace [] [] None)).1.

Lemma share_step_same known grant l : forall t t', same_notes t t' -> same_notes (fold_left (share_step known grant) l t) (fold_left (share_step known grant) l t').
Proof.
  induction l as [|s l IH]; intros t t' H; [done|]. cbn [fold_left]. apply IH. unfold share_step. destruct (is_none_level _); [done|].
  destruct (default false _); [|done]. by apply noted_same.
Qed.

Lemma share_step_skip known grant l : forall t,
  fold_left (share_step known grant) (List.filter (fun s => negb (is_none_level (grant s))) l) t = fold_left (share_step known grant) l t.
Proof.
  induction l as [|s l IH]; intros t; [done|]. cbn [List.filter fold_left]. destruct (is_none_level (grant s)) eqn:En; cbn [negb fold_left]; [|apply IH].
  rewrite IH. unfold share_step at 3. by rewrite En.
Qed.

Lemma note_loop_trace known grant l : forall verdict t, (forall s, s ∈ l -> is_none_level (grant s) = false) ->
  (note_loop cx userID perm known (map (fun s => (s, grant s)) l) verdict t).2 = fold_left (share_step known grant) l t.
Proof.
  induction l as [|s l IH]; intros verdict t H; [done|]. cbn [map note_loop fold_left]. unfold share_step at 2. rewrite (H s) by left.
  destruct (default false (known !! sn_ProjectID s)); cbn [negb]; [|apply IH; intros; apply H; by right].
  fold (noted s (grant s) t). destruct (noted s (grant s) t) as [b t']. cbn [snd]. apply IH. intros. apply H. by right.
Qed.

Lemma note_loop_verdict known grant l : forall verdict t, NoDup (map sn_ID l) -> (forall s, s ∈ l -> is_none_level (grant s) = false) ->
  (forall s, s ∈ l -> (note_loop cx userID perm known (map (fun s => (s, grant s)) l) verdict t).1 !! sn_ID s =
     Some (if share_verdict known grant s then batchAllow else batchDeny)) /\
  (forall id, id ∉ map sn_ID l -> (note_loop cx userID perm known (map (fun s => (s, grant s)) l) verdict t).1 !! id = verdict !! id).
Proof.
  induction l as [|x l IH]; intros verdict t Hnd Hl; [split; [set_solver|done]|]. cbn in Hnd. apply NoDup_cons in Hnd as [Hx Hnd]. cbn [map note_loop].
  set (v := if share_verdict known grant x then batchAllow else batchDeny).
  assert (exists t1, note_loop cx userID perm known (map (fun s => (s, grant s)) l) (<[sn_ID x := v]> verdict) t1 =
    (if negb (default false (known !! sn_ProjectID x)) then note_loop cx userID perm known (map (fun s => (s, grant s)) l) (<[sn_ID x := batchDeny]> verdict) t
     else let '(b, t) := noteShareElevation cx userID x perm [] (grant x) t in
       note_loop cx userID perm known (map (fun s => (s, grant s)) l) (<[sn_ID x := if (b : bool) then batchAllow else batchDeny]> verdict) t)) as (t1 & <-).
  { unfold v, share_verdict. rewrite (Hl x) by left. cbn [negb andb]. destruct (default false (known !! sn_ProjectID x)); cbn [negb andb]; [|eauto].
    rewrite (noted_bool x (grant x) _ t). fold (noted x (grant x) t). destruct (noted x (grant x) t) as [b t']. cbn [fst]. eauto. }
  destruct (IH (<[sn_ID x := v]> verdict) t1 Hnd) as [H1 H2]; [intros; apply Hl; by right|]. split.
  - intros s [->|Hs]%elem_of_cons; [rewrite H2 by done; by rewrite lookup_insert_eq|by apply H1].
  - intros id [Hne Hid]%not_elem_of_cons. rewrite H2 by done. by rewrite lookup_insert_ne.
Qed.

(** ** The share term of one row *)

Definition allowed_of (r : res (authz_err E) SecretDecision) : bool := match r with Ok d => sd_Allowed d | Err _ => false end.
Definition share_row (s : SecretNode) (t : trace) : res (authz_err E) SecretDecision * trace :=
  share_term st now now cx userID (sn_ID s) s perm [] t.

Lemma share_row_refused s t : bool_decide (shareNeedFor perm = PermissionNone) || negb (shareMayElevate (shareNeedFor perm) []) || (userID =? 0) = true ->
  allowed_of (share_row s t).1 = false /\ (share_row s t).2 = t.
Proof.
  intros H. unfold share_row, share_term. destruct (bool_decide (shareNeedFor perm = PermissionNone)); [done|]. cbn [orb] in H.
  unfold sharePermissionFor. destruct (shareMayElevate (shareNeedFor perm) []); cbn [negb orb] in *; [|done].
  unfold activeShareGrant. rewrite H. done.
Qed.

Lemma shareNeedFor_cases : shareNeedFor perm <> PermissionNone -> shareNeedFor perm = PermissionRead \/ shareNeedFor perm = PermissionWrite.
Proof. unfold shareNeedFor. case_bool_decide; [by left|]. case_bool_decide; [by right|done]. Qed.

Lemma share_row_spec ids all known s t : ListSharesBySecretIDs br ids now = Ok all -> sn_ID s ∈ ids ->
  bool_decide (shareNeedFor perm = PermissionNone) || negb (shareMayElevate (shareNeedFor perm) []) || (userID =? 0) = false ->
  members_sound known -> let grant := share_grant br userID (shareNeedFor perm) (activeShares all now) in
  (is_none_level (grant s) = false -> is_Some (known !! sn_ProjectID s)) ->
  allowed_of (share_row s t).1 = share_verdict known grant s /\ same_notes (share_row s t).2 (share_step known grant t s).
Proof.
  intros Hl Hid Hc Hs grant Hk. apply orb_false_iff in Hc as [[Hn Hm]%orb_false_iff Hu]. apply negb_false_iff in Hm. apply Z.eqb_neq in Hu.
  unfold share_row, share_term. rewrite Hn. unfold sharePermissionFor. rewrite Hm. cbn [negb].
  assert (shareNeedFor perm = PermissionRead \/ shareNeedFor perm = PermissionWrite) as Hneed by (apply bool_decide_eq_false in Hn; by apply shareNeedFor_cases).
  rewrite (share_grant_spec ids all (shareNeedFor perm) s Hl Hid Hu Hneed). cbn zeta. fold grant. unfold share_verdict, share_step.
  destruct (is_none_level (grant s)) eqn:En; [by cbn [negb andb]|]. destruct (Hk eq_refl) as [b Hb]. rewrite (Hs _ _ Hb), Hb. cbn [stored res_bind default negb andb].
  destruct b; [|done]. rewrite En. fold (noted s (grant s) t). rewrite (noted_bool s (grant s) _ t).
  destruct (noted s (grant s) t) as [[|] t'] eqn:Et; cbn [fst snd allowed_of]; (split; [done|]).
  - destruct (noteGateReadAllow_trace cx userID s perm [] t'). by split.
  - done.
Qed.

Lemma batchShareStage_spec pending verdict known t verdict' t' : NoDup (map sn_ID pending) -> members_sound known ->
  batchShareStage br cx userID perm now pending verdict known t = (Ok verdict', t') ->
  (forall s, s ∈ pending -> forall t0, verdict' !! sn_ID s = Some (if allowed_of (share_row s t0).1 then batchAllow else batchDeny)) /\
  (forall id, id ∉ map sn_ID pending -> verdict' !! id = verdict !! id) /\
  same_notes t' (fold_left (fun t s => (share_row s t).2) pending t).
Proof.
  intros Hnd Hs. unfold batchShareStage. destruct (is_nil pending) eqn:En; [destruct pending; [|done]; intros [= <- <-]; split_and!; [set_solver|done|done]|].
  destruct (_ || _ || _) eqn:Ec.
  { intros [= <- <-]. split_and!.
    - intros s Hin t0. rewrite settle_verdict by done. by rewrite (proj1 (share_row_refused s t0 Ec)).
    - intros id Hid. by apply settle_other.
    - clear -Ec. induction pending as [|s l IH]; [done|]. cbn [fold_left]. by rewrite (proj2 (share_row_refused s t Ec)). }
  destruct (ListSharesBySecretIDs br (map sn_ID pending) now) as [all|] eqn:El; [|done].
  set (grant := share_grant br userID (shareNeedFor perm) (activeShares all now)). set (d := fun s => _).
  pose proof (settle_remaining d pending verdict) as Hrem. pose proof (settle_verdict d pending verdict) as Hsv. pose proof (settle_other d pending verdict) as Hso.
  destruct (settle d pending verdict) as [covered verdict1]. cbn [fst snd] in *.
  assert (covered = List.filter (fun s => negb (is_none_level (grant s))) pending) as Hcov.
  { rewrite Hrem. apply filter_ext_bool. intros s. unfold d. by destruct (is_none_level (grant s)). }
  destruct (ensure br userID known (map sn_ProjectID covered)) as [known'|] eqn:Ee; [|done]. destruct (ensure_spec _ _ _ Hs Ee) as [Hs' Hk].
  assert (forall s, s ∈ covered <-> s ∈ pending /\ is_none_level (grant s) = false) as Hin.
  { intros s. rewrite Hcov, elem_of_filter_bool. by rewrite negb_true_iff. }
  assert (forall s t0, s ∈ pending -> allowed_of (share_row s t0).1 = share_verdict known' grant s /\ same_notes (share_row s t0).2 (share_step known' grant t0 s)) as Hrow.
  { intros s t0 Hp. apply (share_row_spec (map sn_ID pending) all); [done|by apply list_elem_of_fmap_2|done|done|].
    intros Hg. apply Hk, list_elem_of_fmap_2, Hin. done. }
  pose proof (note_loop_trace known' grant covered verdict1 t ltac:(intros s; rewrite Hin; tauto)) as Ht.
  destruct (note_loop_verdict known' grant covered verdict1 t ltac:(rewrite Hcov; by apply NoDup_map_filter) ltac:(intros s; rewrite Hin; tauto)) as [Hv1 Hv2].
  destruct (note_loop _ _ _ _ _ _ _) as [v2 t2]. cbn [fst snd] in *. intros [= <- <-]. split_and!.
  - intros s Hp t0. rewrite (proj1 (Hrow s t0 Hp)). destruct (is_none_level (grant s)) eqn:Eg; [|by apply Hv1, Hin].
    rewrite Hv2. 2: { intros (y & Hy & Hyc)%list_elem_of_fmap. assert (s = y) as ->; [|apply Hin in Hyc as [_ ?]; congruence].
      apply Hin in Hyc as [Hyp _]. pose proof (find_in_rev sn_ID pending s Hnd Hp) as F1. pose proof (find_in_rev sn_ID pending y Hnd Hyp) as F2. rewrite Hy in F1. congruence. }
    rewrite Hsv by done. unfold d, share_verdict. by rewrite Eg.
  - intros id Hid. rewrite Hv2, Hso; [done|done|]. intros (y & -> & Hy)%list_elem_of_fmap. apply Hid, list_elem_of_fmap_2. by apply Hin.
  - rewrite Ht, Hcov, share_step_skip. clear -Hrow. revert t. assert (forall t1 t2, same_notes t1 t2 ->
      same_notes (fold_left (share_step known' grant) pending t1) (fold_left (fun t s => (share_row s t).2) pending t2)) as H; [|intros t; by apply H].
    induction pending as [|s l IH]; intros t1 t2 H12; [done|]. cbn [fold_left]. apply IH; [intros; apply Hrow; by right|].
    etrans; [by apply (share_step_same known' grant [s])|]. symmetry. apply Hrow. left.
Qed.

(** ** The decision of one row, step by step *)

Definition row_decision (s : SecretNode) (t : trace) : res (authz_err E) SecretDecision * trace :=
  AuthorizeSecretAction st decode now now cx userID (sn_ID s) perm [] [] t.
Definition pat_row (s : SecretNode) : option batchVerdict :=
  if negb (Allows (cx_pat cx) perm (node_scope s)) then Some batchDeny else None.
Definition first_of (a b : option batchVerdict) : option batchVerdict := match a with Some v => Some v | None => b end.
Definition settled_row (s : SecretNode) : option batchVerdict := first_of (pat_row s) (first_of (acl_row s) (role_row s)).

Lemma row_decision_steps s t : s_GetSecret st (sn_ID s) = Ok s ->
  match settled_row s with
  | Some v => allowed_of (row_decision s t).1 = bool_decide (v = batchAllow) /\ same_notes (row_decision s t).2 t
  | None => row_decision s t = share_row s t
  end.
Proof.
  intros Hg. assert (same_notes (noteGateReadAllow cx userID s perm [] t) t) as Hgate
    by (destruct (noteGateReadAllow_trace cx userID s perm [] t); by split).
  unfold row_decision, AuthorizeSecretAction, secretForDecision. rewrite Hg. cbn [stored].
  unfold settled_row, pat_row, acl_row, role_row. destruct (Allows (cx_pat cx) perm (node_scope s)) eqn:Ea; cbn [negb first_of]; [|done].
  destruct (HasSecretACL st decode userID (sn_ID s) perm) as [[|]|]; cbn [acl_verdict first_of]; [done| |done].
  unfold Authorize. rewrite Ea. cbn [negb]. destruct (userHasScopedPermission st userID perm (node_scope s)) as [[|]|]; cbn [role_verdict]; done.
Qed.

Lemma dedupe_rows_spec secrets : forall seen, NoDup (map sn_ID (dedupe_rows seen secrets)) /\
  (forall s, s ∈ dedupe_rows seen secrets -> Some s ∈ secrets /\ sn_ID s ∉ seen) /\
  (forall s, Some s ∈ secrets -> sn_ID s ∈ seen \/ sn_ID s ∈ map sn_ID (dedupe_rows seen secrets)).
Proof.
  induction secrets as [|[x|] l IH]; intros seen; cbn [dedupe_rows].
  - split_and!; [apply NoDup_nil_2|set_solver|set_solver].
  - case_bool_decide as Hx.
    + destruct (IH seen) as (H1 & H2 & H3). split_and!; [done|set_solver|]. intros s [[= ->]|Hs]%elem_of_cons; [by left|by apply H3].
    + destruct (IH ({[sn_ID x]} ∪ seen)) as (H1 & H2 & H3). cbn [map]. split_and!.
      * apply NoDup_cons. split; [|done]. intros (y & Hy & Hin)%list_elem_of_fmap. apply H2 in Hin as [_ Hin]. set_solver.
      * intros s [->|Hs]%elem_of_cons; [split; [left|done]|]. apply H2 in Hs. set_solver.
      * intros s [[= ->]|Hs]%elem_of_cons; [right; left|]. destruct (H3 s Hs) as [H|H]; [|right; by right].
        apply elem_of_union in H as [->%elem_of_singleton|H]; [right; left|by left].
  - destruct (IH seen) as (H1 & H2 & H3). split_and!; [done|set_solver|]. intros s [[=]|Hs]%elem_of_cons. by apply H3.
Qed.

(** The per-secret decisions of a page, one after the other. *)
Definition per_row_trace (rows : list SecretNode) (t : trace) : trace := fold_left (fun t s => (row_decision s t).2) rows t.

Lemma per_row_trace_shares rows : forall t t', (forall s, s ∈ rows -> s_GetSecret st (sn_ID s) = Ok s) -> same_notes t t' ->
  same_notes (fold_left (fun t s => (share_row s t).2) (List.filter (fun s => is_none (settled_row s)) rows) t) (per_row_trace rows t').
Proof.
  unfold per_row_trace. assert (forall s t t', same_notes t t' -> same_notes (share_row s t).2 (share_row s t').2) as Hcong.
  { intros s t t' H. unfold share_row, share_term. destruct (bool_decide _); [done|].
    destruct (sharePermissionFor st now now userID (sn_ID s) (sn_ProjectID s) (shareNeedFor perm) []) as [g|]; [|done].
    destruct (is_none_level g); [done|]. fold (noted s g t). fold (noted s g t'). destruct (noted_same s g t t' H) as [H1 H2].
    destruct (noted s g t) as [b1 t1], (noted s g t') as [b2 t2]. cbn [fst snd] in *. subst b2. destruct b1; [|done]. cbn [snd].
    destruct (noteGateReadAllow_trace cx userID s perm [] t1) as [Hp1 Ha1], (noteGateReadAllow_trace cx userID s perm [] t2) as [Hp2 Ha2].
    destruct H2. split; congruence. }
  induction rows as [|s l IH]; intros t t' Hp Ht; [done|]. cbn [List.filter fold_left].
  pose proof (row_decision_steps s t' (Hp s ltac:(left))) as Hd. destruct (settled_row s) as [v|]; cbn [is_none fold_left].
  - apply IH; [intros; apply Hp; by right|]. destruct Hd as [_ Hd]. etrans; [done|by symmetry].
  - apply IH; [intros; apply Hp; by right|]. rewrite Hd. by apply Hcong.
Qed.

Lemma filtered_out P rows s : NoDup (map sn_ID rows) -> s ∈ rows -> P s = false -> sn_ID s ∉ map sn_ID (List.filter P rows).
Proof.
  intros Hnd Hs HP (y & Hy & [Hin HPy]%elem_of_filter_bool)%list_elem_of_fmap. pose proof (find_in_rev sn_ID rows s Hnd Hs) as F1.
  pose proof (find_in_rev sn_ID rows y Hnd Hin) as F2. rewrite Hy in F1. congruence.
Qed.

(** Two stages are one that tries the first rule and then the second. *)
Lemma settle_settle a b rows verdict : NoDup (map sn_ID rows) ->
  settle b (settle a rows verdict).1 (settle a rows verdict).2 = settle (fun s => first_of (a s) (b s)) rows verdict.
Proof.
  intros Hnd. apply injective_projections; rewrite ?settle_remaining.
  { rewrite filter_filter_and. apply filter_ext_bool. intros s. by destruct (a s). }
  apply map_eq. intros id. destruct (decide (id ∈ map sn_ID rows)) as [Hin|Hout].
  - apply list_elem_of_fmap in Hin as (s & -> & Hs). rewrite (settle_verdict (fun s => _) rows) by done.
    destruct (a s) as [v|] eqn:Ea; cbn [first_of].
    + rewrite settle_other by (apply filtered_out; [done|done|by rewrite Ea]). by rewrite settle_verdict, Ea.
    + rewrite settle_verdict; [|by apply NoDup_map_filter|apply elem_of_filter_bool; by rewrite Ea].
      destruct (b s); [done|]. by rewrite settle_verdict, Ea.
  - rewrite !settle_other; [done|done|done|]. intros (y & -> & [Hy _]%elem_of_filter_bool)%list_elem_of_fmap. by apply Hout, list_elem_of_fmap_2.
Qed.

Lemma AuthorizeSecretsBatch_rows secrets t out t' : (forall s, Some s ∈ secrets -> s_GetSecret st (sn_ID s) = Ok s) ->
  AuthorizeSecretsBatch br decode cx userID perm now secrets t = (Ok out, t') ->
  (forall s, Some s ∈ secrets -> out !! sn_ID s = Some (allowed_of (row_decision s t).1)) /\
  (forall id, is_Some (out !! id) -> exists s, Some s ∈ secrets /\ sn_ID s = id) /\
  same_notes t' (per_row_trace (dedupe_rows ∅ secrets) t).
Proof.
  intros Hlive. unfold AuthorizeSecretsBatch. destruct (_ <? _)%nat; [done|].
  destruct (dedupe_rows_spec secrets ∅) as (Hnd & Hfrom & Hto). set (rows := dedupe_rows ∅ secrets) in *.
  assert (forall s, s ∈ rows -> s_GetSecret st (sn_ID s) = Ok s) as Hrows by (intros s Hs; by apply Hlive, Hfrom).
  fold pat_row. pose proof (settle_remaining pat_row rows ∅) as Hr1. destruct (settle pat_row rows ∅) as [p1 v1] eqn:E1. cbn [fst] in Hr1.
  destruct (batchACLStage br decode userID perm p1 v1 ∅) as [[[p2 v2] known]|] eqn:E2; [|done].
  apply batchACLStage_spec in E2 as [E2 Hknown]; [|rewrite Hr1; by apply page_filter|intros id b H; by rewrite lookup_empty in H]. cbn [fst snd] in *.
  destruct (batchRoleStage br userID perm p2 v2) as [[p3 v3]|] eqn:E3; [|done]. apply batchRoleStage_spec in E3.
  assert ((p3, v3) = settle settled_row rows ∅) as E0.
  { unfold settled_row. rewrite <- settle_settle, E1 by done. cbn [fst snd]. rewrite <- settle_settle by (rewrite Hr1; by apply NoDup_map_filter).
    rewrite <- E2. exact E3. }
  pose proof (settle_remaining settled_row rows ∅) as Hr3. rewrite <- E0 in Hr3. cbn [fst] in Hr3.
  destruct (batchShareStage br cx userID perm now p3 v3 known t) as [[v4|] t4] eqn:E4; [|done]. intros [= <- <-].
  apply batchShareStage_spec in E4 as (Hv4 & Ho4 & Ht4); [|rewrite Hr3; by apply NoDup_map_filter|done].
  assert (forall s, s ∈ rows -> v4 !! sn_ID s = Some (if allowed_of (row_decision s t).1 then batchAllow else batchDeny)) as Hfinal.
  { intros s Hs. pose proof (row_decision_steps s t (Hrows s Hs)) as Hd. destruct (settled_row s) as [v|] eqn:Ev.
    - rewrite Ho4 by (rewrite Hr3; apply filtered_out; [done|done|by rewrite Ev]).
      assert (v3 = (settle settled_row rows ∅).2) as -> by by rewrite <- E0. rewrite settle_verdict, Ev, (proj1 Hd) by done. by destruct v.
    - rewrite (Hv4 s) with (t0 := t); [by rewrite Hd|]. rewrite Hr3. apply elem_of_filter_bool. by rewrite Ev. }
  split_and!.
  - intros s Hs. destruct (Hto s Hs) as [H|H]; [set_solver|]. apply list_elem_of_fmap in H as (s' & Hid & Hs'). rewrite Hid.
    assert (s = s') as -> by (pose proof (Hlive s Hs) as H1; rewrite Hid, (Hrows s' Hs') in H1; congruence).
    rewrite (lookup_fold_insert sn_ID), find_in_rev by done. rewrite (Hfinal s' Hs'). by destruct (allowed_of _).
  - intros id [b Hb]. rewrite (lookup_fold_insert sn_ID) in Hb. destruct (List.find _ (rev rows)) as [s|] eqn:Ef; [|by rewrite lookup_empty in Hb].
    apply find_some in Ef as [Hin Hk]. rewrite <- in_rev in Hin. exists s. apply list_elem_of_In in Hin. split; [by apply Hfrom|lia].
  - etrans; [exact Ht4|]. rewrite Hr3. by apply per_row_trace_shares.
Qed.
End agree.
