(* ===== verification/AuthzTables.v ===== *)
(** The tables behind the authorization reads: the per-secret reads of [Authz]
    and the page reads of [AuthzBatch], as queries over the same rows
    ([internal/storage/store/local_secret_acl.go], [local_secrets.go],
    [local_sharing.go], [local_rbac.go], [local_users.go],
    [local_authz_batch.go]).

    [tables_BatchOf] discharges the interface of [AuthzBatch] for them, and the
    theorem is the equivalence of the two decisions on every database. *)
From Stdlib Require Import ZArith Lia.
From stdpp Require Import base numbers tactics sets list gmap.
From S2P Require Import Prelude.
From S2P Require Import GoStr.
From S2P Require Import Rbac.
From S2P Require Import Authz.
From S2P Require Import SecretTree.
From S2P Require Import AuthzBatch.

(** * Tables *)

(** Live rows only: of [secret_nodes] by id, of [secret_acls], of [share_records]. *)
Record authzTables := mkAuthzTables {
  at_rbac : rbacDB; at_nodes : gmap Z SecretNode; at_acls : list SecretACL; at_shares : list ShareRecord }.

Definition maxUnboundedListRows : nat := Z.to_nat 10000.

(** A row is stored under its id; no secret has more active shares than one
    listing returns: ListSharesBySecret stops at that number and the page read
    does not, so with more the two decisions can differ. *)
Definition tables_wf (T : authzTables) : Prop :=
  rbac_wf (at_rbac T) /\ (forall id n, at_nodes T !! id = Some n -> sn_ID n = id) /\
  (forall id, (length (List.filter (fun sh => (sh_SecretID sh =? id)%Z) (at_shares T)) <= maxUnboundedListRows)%nat).

(** * Queries *)

Definition direct_member (db : rbacDB) (now userID project : Z) : bool :=
  existsb (fun r => (ur_UserID r =? userID) && (ur_ProjectID r =? project) && not_expired now (ur_ExpiresAt r)) (rb_user_roles db).
Definition group_member (db : rbacDB) (now userID project : Z) : bool :=
  existsb (fun g => (gr_ProjectID g =? project) && not_expired now (gr_ExpiresAt g) && live (rb_groups db) (gr_GroupID g) &&
    existsb (fun m => (ug_GroupID m =? gr_GroupID g) && (ug_UserID m =? userID)) (rb_user_groups db)) (rb_group_roles db).
Definition IsProjectMember (db : rbacDB) (now userID project : Z) : bool :=
  if project =? 0 then false else direct_member db now userID project || group_member db now userID project.

Definition share_live (now : Z) (sh : ShareRecord) : bool := match sh_ExpiresAt sh with None => true | Some e => now <? e end.

(** The scope-independent part of [applies]. *)
Definition grant_live (db : rbacDB) (project environment : Z) : bool :=
  ((project =? 0) || live (rb_projects db) project) && ((environment =? 0) || live (rb_environments db) environment).

(** userRoleGrantsSQL *)
Definition direct_grants (db : rbacDB) (now userID : Z) : list UserRoleGrant :=
  map (fun r => mkRoleGrant (ur_RoleID r) (ur_ProjectID r) (ur_EnvironmentID r) false 0 (role_bypasses db (ur_RoleID r)))
    (List.filter (fun r => (ur_UserID r =? userID) && grant_live db (ur_ProjectID r) (ur_EnvironmentID r) && not_expired now (ur_ExpiresAt r)) (rb_user_roles db)).
Definition group_grants (db : rbacDB) (now userID : Z) : list UserRoleGrant :=
  concat (map (fun g =>
    map (fun m => mkRoleGrant (gr_RoleID g) (gr_ProjectID g) (gr_EnvironmentID g) true (ug_ProjectID m) (role_bypasses db (gr_RoleID g)))
      (List.filter (fun m => (ug_GroupID m =? gr_GroupID g) && (ug_UserID m =? userID)) (rb_user_groups db)))
    (List.filter (fun g => live (rb_groups db) (gr_GroupID g) && grant_live db (gr_ProjectID g) (gr_EnvironmentID g) && not_expired now (gr_ExpiresAt g)) (rb_group_roles db))).
Definition user_role_grants (db : rbacDB) (now userID : Z) : list UserRoleGrant := direct_grants db now userID ++ group_grants db now userID.

Section reads.
Context {E : Type} (T : authzTables) (now : Z) (f : faults E) (cacheEnabled : bool) (c : rolePermissionCache).
(** The error of a missing row; the failure of the membership reads, which both
    decisions tolerate. *)
Context (notFound : E) (groupsFail : option E).

Definition row_parent (id : Z) : res E (option (option Z)) := Ok (option_map sn_ParentID (at_nodes T !! id)).

(** The reads of a per-secret decision. *)
Definition table_store : AuthzStore E :=
  mkAuthzStore E
    (resolved_user (at_rbac T) now f cacheEnabled c) (resolved_machine (at_rbac T) now f cacheEnabled None c)
    (fun id => match at_nodes T !! id with Some n => Ok n | None => Err notFound end)
    (fun secretID userID => Ok (List.find (fun a => (acl_SecretID a =? secretID) && (acl_UserID a =? userID)) (sort_by acl_ID (at_acls T))))
    (GetSecretAncestors row_parent)
    (fun userID project => Ok (IsProjectMember (at_rbac T) now userID project))
    (fun secretID at_time => Ok (take maxUnboundedListRows
       (sort_by sh_ID (List.filter (fun sh => (sh_SecretID sh =? secretID) && share_live at_time sh) (at_shares T)))))
    (fun userID scope => failing groupsFail (map ug_GroupID (List.filter (fun m => live (rb_groups (at_rbac T)) (ug_GroupID m) &&
       (ug_UserID m =? userID) && ((ug_ProjectID m =? 0) || (ug_ProjectID m =? sc_ProjectID scope))) (rb_user_groups (at_rbac T))))).

(** The reads of the page that fail. *)
Record batchFaults := mkBatchFaults {
  bf_acls : option E; bf_nodes : option E; bf_members : option E; bf_grants : option E; bf_shares : option E }.
Context (bf : batchFaults).

Definition table_batch : BatchReads E :=
  mkBatchReads E
    (fun userID => failing (bf_acls bf) (List.filter (fun a => acl_UserID a =? userID) (sort_by acl_ID (at_acls T))))
    (fun ids => failing (bf_nodes bf) (List.filter (fun n => bool_decide (sn_ID n ∈ ids)) (map snd (map_to_list (at_nodes T)))))
    (fun userID ids => failing (bf_members bf)
       (let live := List.filter (fun id => negb (id =? 0)) ids in
        list_to_set (List.filter (direct_member (at_rbac T) now userID) live) ∪ list_to_set (List.filter (group_member (at_rbac T) now userID) live)))
    (fun userID => failing (bf_grants bf) (user_role_grants (at_rbac T) now userID))
    (fun ids permission => (store_RoleSetHasPermission (at_rbac T) f cacheEnabled ids permission c).1)
    (fun ids at_time => failing (bf_shares bf) (List.filter (fun sh => bool_decide (sh_SecretID sh ∈ ids) && share_live at_time sh) (at_shares T)))
    (fun userID => failing groupsFail (map (fun m => (ug_GroupID m, ug_ProjectID m)) (List.filter (fun m => live (rb_groups (at_rbac T)) (ug_GroupID m) &&
       (ug_UserID m =? userID)) (rb_user_groups (at_rbac T))))).
End reads.
Arguments mkBatchFaults {E}. Arguments bf_acls {E}. Arguments bf_nodes {E}. Arguments bf_members {E}. Arguments bf_grants {E}. Arguments bf_shares {E}.

(** * The tables meet the interface *)

Lemma failing_ok {E A} (o : option E) (a b : A) : failing o a = Ok b -> a = b.
Proof. destruct o; cbn; [done|]. by intros [= ->]. Qed.

Lemma filter_map {A B} (P : B -> bool) (g : A -> B) l : List.filter P (map g l) = map g (List.filter (fun x => P (g x)) l).
Proof. induction l as [|x l IH]; [done|]. cbn. destruct (P (g x)); cbn; by rewrite IH. Qed.

Lemma find_filter {A} (P Q : A -> bool) l : List.find P (List.filter Q l) = List.find (fun x => P x && Q x) l.
Proof. induction l as [|x l IH]; [done|]. cbn. destruct (Q x); cbn; destruct (P x); cbn; by rewrite ?IH. Qed.

Lemma AppliesAt_live db g scope : (grant_live db (rg_ProjectID g) (rg_EnvironmentID g) && AppliesAt g scope) =
  (applies db (rg_ProjectID g) (rg_EnvironmentID g) scope &&
   (negb (rg_ViaGroup g) || (rg_MemberProjectID g =? 0) || (rg_MemberProjectID g =? sc_ProjectID scope))).
Proof.
  unfold grant_live, AppliesAt, applies.
  destruct (rg_ProjectID g =? 0), (rg_ProjectID g =? sc_ProjectID scope), (rg_EnvironmentID g =? 0), (rg_EnvironmentID g =? sc_EnvironmentID scope),
    (live (rb_projects db) (rg_ProjectID g)), (live (rb_environments db) (rg_EnvironmentID g)), (rg_ViaGroup g), (rg_MemberProjectID g =? 0),
    (rg_MemberProjectID g =? sc_ProjectID scope); reflexivity.
Qed.

Lemma direct_grants_held db now userID scope : map rg_RoleID (held_at (direct_grants db now userID) scope) = user_role_ids db now userID scope.
Proof.
  unfold held_at, direct_grants, user_role_ids. rewrite filter_map, map_map, filter_filter_and. f_equal. apply filter_ext_bool. intros r.
  pose proof (AppliesAt_live db (mkRoleGrant (ur_RoleID r) (ur_ProjectID r) (ur_EnvironmentID r) false 0 (role_bypasses db (ur_RoleID r))) scope) as H.
  cbn [rg_ProjectID rg_EnvironmentID rg_ViaGroup negb orb] in H. rewrite andb_true_r in H. rewrite <- H.
  destruct (ur_UserID r =? userID), (not_expired now (ur_ExpiresAt r)), (grant_live _ _ _), (AppliesAt _ _); reflexivity.
Qed.

Lemma group_grants_held db now userID scope : map rg_RoleID (held_at (group_grants db now userID) scope) = group_role_ids db now userID scope.
Proof.
  unfold held_at, group_grants, group_role_ids. induction (rb_group_roles db) as [|g l IH]; [done|]. cbn [List.filter].
  set (ms := List.filter (fun m => (ug_GroupID m =? gr_GroupID g) && (ug_UserID m =? userID)) (rb_user_groups db)).
  set (mk := fun m => mkRoleGrant (gr_RoleID g) (gr_ProjectID g) (gr_EnvironmentID g) true (ug_ProjectID m) (role_bypasses db (gr_RoleID g))).
  assert (grant_live db (gr_ProjectID g) (gr_EnvironmentID g) = true ->
    map rg_RoleID (List.filter (fun g => AppliesAt g scope) (map mk ms)) =
    if applies db (gr_ProjectID g) (gr_EnvironmentID g) scope then
      map (fun _ => gr_RoleID g) (List.filter (fun m => (ug_GroupID m =? gr_GroupID g) && (ug_UserID m =? userID) &&
        ((ug_ProjectID m =? 0) || (ug_ProjectID m =? sc_ProjectID scope))) (rb_user_groups db)) else []) as Hg.
  { intros Hl. rewrite filter_map, map_map. unfold ms. rewrite filter_filter_and. unfold mk. cbn [rg_RoleID].
    destruct (applies db (gr_ProjectID g) (gr_EnvironmentID g) scope) eqn:Ea.
    - f_equal. apply filter_ext_bool. intros m. pose proof (AppliesAt_live db (mk m) scope) as H. unfold mk in H. cbn [rg_ProjectID rg_EnvironmentID rg_ViaGroup rg_MemberProjectID negb orb] in H.
      rewrite Hl, Ea in H. cbn [andb] in H. by rewrite H.
    - rewrite (filter_ext_bool _ (fun _ => false)); [clear; by induction (rb_user_groups db)|]. intros m. pose proof (AppliesAt_live db (mk m) scope) as H.
      unfold mk in H. cbn [rg_ProjectID rg_EnvironmentID] in H. rewrite Hl, Ea in H. cbn [andb] in H. rewrite H. apply andb_false_r. }
  destruct (live (rb_groups db) (gr_GroupID g)); cbn [andb]; [|exact IH].
  destruct (not_expired now (gr_ExpiresAt g)); [rewrite !andb_true_r|rewrite !andb_false_r; exact IH].
  destruct (grant_live db (gr_ProjectID g) (gr_EnvironmentID g)) eqn:El.
  - cbn [map concat]. fold mk ms. rewrite List.filter_app, map_app, IH, Hg by done. by destruct (applies db (gr_ProjectID g) (gr_EnvironmentID g) scope).
  - assert (applies db (gr_ProjectID g) (gr_EnvironmentID g) scope = false) as ->; [|exact IH]. unfold applies, grant_live in *.
    destruct (gr_ProjectID g =? 0), (gr_EnvironmentID g =? 0), (live (rb_projects db) _), (live (rb_environments db) _); cbn in *; rewrite ?andb_false_r; done.
Qed.

Lemma user_role_grants_held db now userID scope :
  map rg_RoleID (held_at (user_role_grants db now userID) scope) = user_ids db now userID scope.
Proof. unfold user_role_grants, user_ids, held_at. rewrite List.filter_app, map_app. f_equal; [apply direct_grants_held|apply group_grants_held]. Qed.

Lemma user_role_grants_rows db now userID g : g ∈ user_role_grants db now userID ->
  rg_Bypass g = role_bypasses db (rg_RoleID g) /\
  ((exists r, r ∈ rb_user_roles db /\ rg_RoleID g = ur_RoleID r) \/ (exists r, r ∈ rb_group_roles db /\ rg_RoleID g = gr_RoleID r)).
Proof.
  unfold user_role_grants, direct_grants, group_grants. intros [H|H]%elem_of_app.
  - apply elem_of_map in H as (r & -> & [Hr _]%elem_of_filter_bool). split; [done|]. left. eauto.
  - apply list_elem_of_In, in_concat in H as (l & Hl & Hg). apply in_map_iff in Hl as (r & <- & [Hr _]%filter_In).
    apply in_map_iff in Hg as (m & <- & _). split; [done|]. right. exists r. split; [by apply list_elem_of_In|done].
Qed.

Lemma existsb_map {A B} (P : B -> bool) (g : A -> B) l : existsb P (map g l) = existsb (fun x => P (g x)) l.
Proof. induction l as [|x l IH]; [done|]. cbn. by rewrite IH. Qed.

Lemma existsb_ext_in {A} (P Q : A -> bool) l : (forall x, x ∈ l -> P x = Q x) -> existsb P l = existsb Q l.
Proof. intros H. induction l as [|x l IH]; [done|]. cbn. rewrite (H x) by left. f_equal. apply IH. intros. apply H. by right. Qed.

Section tables.
Context {E : Type} (T : authzTables) (now : Z) (f : faults E) (cacheEnabled : bool) (c : rolePermissionCache) (notFound : E)
  (groupsFail : option E) (bf : batchFaults (E:=E)).
Context (Hwf : tables_wf T) (Hc : coherent (rb_perms (at_rbac T)) c) (Hl : f_live f = None)
  (Hor : f_combined f = None \/ (f_direct f = None /\ f_groups f = None /\ f_machine f = None /\ f_bypass f = None)).

Abbreviation st := (table_store T now f cacheEnabled c notFound groupsFail).
Abbreviation br := (table_batch T now f cacheEnabled c groupsFail bf).

#[local] Instance tables_roles : RoleResolution st (at_rbac T) now.
Proof. apply (store_RoleResolution st (at_rbac T) now f cacheEnabled None c); try done. apply Hwf. Qed.

Lemma row_of_table id : row_of st id = at_nodes T !! id.
Proof. unfold row_of. cbn. by destruct (at_nodes T !! id). Qed.

Lemma table_row_roles userID grants : ListUserRoleGrants br userID = Ok grants -> Forall (fun g => 0 <= rg_RoleID g) grants.
Proof.
  cbn. intros <-%failing_ok. destruct Hwf as ((Hu & Hg & _) & _). rewrite Forall_forall in Hu. rewrite Forall_forall in Hg. apply Forall_forall.
  intros g Hin. destruct (user_role_grants_rows _ _ _ _ Hin) as [_ [(r & Hr & ->)|(r & Hr & ->)]]; [by apply Hu|by apply Hg].
Qed.

Lemma table_roles userID grants scope perm : ListUserRoleGrants br userID = Ok grants ->
  userHasScopedPermission st userID perm scope =
    if is_nil (held_at grants scope) then Ok false else if existsb rg_Bypass (held_at grants scope) then Ok true
    else stored (b_RoleSetHasPermission br (sort_by (fun x => x) (dedupeUints (map rg_RoleID (held_at grants scope)))) perm).
Proof.
  intros Hg. pose proof (table_row_roles userID grants Hg) as Hnn. cbn in Hg. apply failing_ok in Hg as <-.
  rewrite (userHasScopedPermission_roles st (at_rbac T) now). cbn zeta. rewrite <- user_role_grants_held. set (held := held_at _ scope).
  assert (existsb (role_bypasses (at_rbac T)) (map rg_RoleID held) = existsb rg_Bypass held) as ->.
  { rewrite existsb_map. apply existsb_ext_in. intros g [Hg _]%elem_of_filter_bool. symmetry. by eapply user_role_grants_rows. }
  destruct (is_nil held) eqn:En; [replace held with (@nil UserRoleGrant) by (by destruct held); cbn; by rewrite set_grants_nil|]. destruct (existsb rg_Bypass held); [done|]. cbn [orb].
  cbn [b_RoleSetHasPermission table_batch].
  destruct (RoleSetHasPermission_live (at_rbac T) f cacheEnabled (sort_by (fun x => x) (dedupeUints (map rg_RoleID held))) perm c Hc) as (c' & -> & _);
    [|done|].
  - rewrite sort_by_perm. apply Forall_forall. intros id Hid. rewrite elem_of_dedupe in Hid. apply elem_of_map in Hid as (g' & -> & Hg').
    rewrite Forall_forall in Hnn. apply Hnn. by apply elem_of_filter_bool in Hg' as [? _].
  - cbn. f_equal. apply set_grants_same. intros x. by rewrite sort_by_perm, elem_of_dedupe.
Qed.

#[local] Instance tables_BatchOf : BatchOf st br.
Proof.
  constructor.
  - intros u acls id H. cbn in *. apply failing_ok in H as <-. by rewrite find_filter.
  - intros id n. cbn. destruct (at_nodes T !! id) as [m|] eqn:En; [|done]. intros [= <-]. by apply (proj1 (proj2 Hwf)).
  - intros ids ns H. cbn in H. apply failing_ok in H as <-. split.
    + intros n [Hn _]%elem_of_filter_bool. apply elem_of_map in Hn as ([id n'] & -> & Hin%elem_of_map_to_list). cbn [snd]. rewrite row_of_table.
      by rewrite (proj1 (proj2 Hwf) _ _ Hin).
    + intros id n Hid. rewrite row_of_table. intros Hn. apply elem_of_filter_bool. split.
      * apply elem_of_map. exists (id, n). split; [done|]. by apply elem_of_map_to_list.
      * apply bool_decide_true. by rewrite (proj1 (proj2 Hwf) _ _ Hn).
  - intros id. apply ancestors_loop_ext. intros i. unfold row_parent. by rewrite row_of_table.
  - intros u ids ms id H Hid H0. cbn in *. apply failing_ok in H as <-. f_equal. unfold IsProjectMember. destruct (Z.eqb_spec id 0); [done|].
    apply eq_true_iff_eq. rewrite bool_decide_eq_true, orb_true_iff, elem_of_union, !elem_of_list_to_set, !elem_of_filter_bool.
    assert (negb (id =? 0) = true) by (by apply negb_true_iff, Z.eqb_neq). tauto.
  - done.
  - apply table_row_roles.
  - apply table_roles.
  - intros ids t shares id H Hid. cbn in *. apply failing_ok in H as <-. f_equal. rewrite filter_filter_and.
    rewrite (filter_ext_bool (fun x => bool_decide (sh_SecretID x ∈ ids) && share_live t x && (sh_SecretID x =? id))
      (fun sh => (sh_SecretID sh =? id) && share_live t sh)).
    + rewrite take_ge; [done|]. rewrite sort_by_perm. etrans; [|exact (proj2 (proj2 Hwf) id)]. rewrite <- filter_filter_and. apply filter_length_le.
    + intros sh. destruct (Z.eqb_spec (sh_SecretID sh) id) as [->|]; [|by rewrite andb_false_r]. rewrite bool_decide_true by done. by rewrite andb_true_r.
  - intros u project. cbn. destruct groupsFail as [e|]; cbn [failing]; [eauto|]. eexists. split; [done|]. intros g.
    unfold groups_at. rewrite filter_map, map_map, filter_filter_and. done.
Qed.
End tables.

(** * When the page decision fails *)

Section total.
Context {E : Type} (br : BatchReads E) (decode : bytes -> list bytes) (userID : Z) (perm : bytes).

Definition reads_succeed : Prop :=
  (forall u, exists a, ListSecretACLsByUser br u = Ok a) /\ (forall ids, exists a, GetSecretsByIDs br ids = Ok a) /\
  (forall u ids, exists a, ProjectMembershipsAmong br u ids = Ok a) /\ (forall u, exists a, ListUserRoleGrants br u = Ok a) /\
  (forall ids t, exists a, ListSharesBySecretIDs br ids t = Ok a).
Context (Hok : reads_succeed).

Lemma ensure_total known ids : exists known', ensure br userID known ids = Ok known'.
Proof.
  unfold ensure. destruct (ensure_scan known ids) as [k m]. destruct (is_nil m); [eauto|].
  destruct Hok as (_ & _ & Hm & _). destruct (Hm userID (dedupeUints m)) as [a ->]. cbn. eauto.
Qed.

Lemma fetch_total ids known : exists known', fetch br ids known = Ok known'.
Proof.
  unfold fetch. destruct known as [nodes absent]. destruct (is_nil _); [eauto|]. destruct Hok as (_ & Hn & _).
  match goal with |- context [GetSecretsByIDs br ?l] => destruct (Hn l) as [a ->] end. cbn. eauto.
Qed.

Lemma ancestry_rounds_total rounds : forall known walks, exists r, ancestry_rounds br rounds known walks = Ok r.
Proof.
  induction rounds as [|rounds IH]; intros known walks; cbn [ancestry_rounds]; [eauto|].
  match goal with |- context [fetch br ?l known] => destruct (fetch_total l known) as [k ->] end. cbn [res_bind].
  destruct (existsb _ _); [apply IH|eauto].
Qed.

Lemma batchACLStage_total pending verdict known : (length pending <= maxAuthorizeSecretsBatchSize)%nat ->
  exists r, batchACLStage br decode userID perm pending verdict known = Ok r.
Proof.
  intros Hlen. unfold batchACLStage. destruct (is_nil pending); [eauto|]. destruct (proj1 Hok userID) as [acls ->]. cbn [batch_read res_bind].
  case_bool_decide; [eauto|]. unfold batchSecretAncestry. rewrite (proj2 (Nat.ltb_ge _ _) Hlen).
  match goal with |- context [ancestry_rounds br ?r ?k ?w] => destruct (ancestry_rounds_total r k w) as [[k1 w1] ->] end. cbn [res_bind].
  destruct (fetch_total (concat (map w_chain w1)) k1) as [k2 ->]. cbn [res_bind].
  match goal with |- context [ensure br userID known ?l] => destruct (ensure_total known l) as [k3 ->] end. cbn [res_bind]. eauto.
Qed.

Lemma dedupe_rows_length secrets : forall seen, (length (dedupe_rows seen secrets) <= length secrets)%nat.
Proof.
  induction secrets as [|[s|] l IH]; intros seen; cbn [dedupe_rows length]; [lia| |]; [case_bool_decide|]; cbn [length].
  - specialize (IH seen). lia.
  - specialize (IH ({[sn_ID s]} ∪ seen)). lia.
  - specialize (IH seen). lia.
Qed.

Lemma AuthorizeSecretsBatch_total cx now secrets t : (length secrets <= maxAuthorizeSecretsBatchSize)%nat ->
  exists out t', AuthorizeSecretsBatch br decode cx userID perm now secrets t = (Ok out, t').
Proof.
  intros Hlen. unfold AuthorizeSecretsBatch. rewrite (proj2 (Nat.ltb_ge _ _) Hlen). set (rows := dedupe_rows ∅ secrets).
  match goal with |- context [settle ?d rows ∅] => pose proof (settle_remaining d rows ∅) as Hr; destruct (settle d rows ∅) as [p1 v1] end. cbn [fst] in Hr.
  destruct (batchACLStage_total p1 v1 ∅) as [[[p2 v2] k] ->].
  { rewrite Hr. etrans; [apply filter_length_le|]. etrans; [apply dedupe_rows_length|done]. }
  assert (exists r, batchRoleStage br userID perm p2 v2 = Ok r) as [[p3 v3] ->].
  { unfold batchRoleStage. destruct (is_nil p2); [eauto|]. destruct Hok as (_ & _ & _ & Hg & _). destruct (Hg userID) as [g ->]. cbn. eauto. }
  unfold batchShareStage. destruct (is_nil p3); [eauto|]. destruct (_ || _ || _); [eauto|]. destruct Hok as (_ & _ & _ & _ & Hs).
  destruct (Hs (map sn_ID p3) now) as [all ->]. destruct (settle _ p3 v3) as [covered v4].
  destruct (ensure_total k (map sn_ProjectID covered)) as [k' ->]. destruct (note_loop _ _ _ _ _ _ _). eauto.
Qed.

Lemma AuthorizeSecretsBatch_error_trace cx now secrets t e t' :
  AuthorizeSecretsBatch br decode cx userID perm now secrets t = (Err e, t') -> t' = t.
Proof.
  unfold AuthorizeSecretsBatch. destruct (_ <? _)%nat; [by intros [= _ <-]|]. destruct (settle _ _ _) as [p1 v1].
  destruct (batchACLStage br decode userID perm p1 v1 ∅) as [[[p2 v2] k]|]; [|by intros [= _ <-]].
  destruct (batchRoleStage br userID perm p2 v2) as [[p3 v3]|]; [|by intros [= _ <-]].
  destruct (batchShareStage br cx userID perm now p3 v3 k t) as [[v|] t1] eqn:Es; [done|]. intros [= <- <-]. unfold batchShareStage in Es.
  destruct (is_nil p3); [done|]. destruct (_ || _ || _); [done|]. destruct (ListSharesBySecretIDs br _ now); [|by injection Es].
  destruct (settle _ p3 v3) as [covered v4]. destruct (ensure br userID k _); [|by injection Es]. by destruct (note_loop _ _ _ _ _ _ _).
Qed.
End total.

Definition no_batch_faults {E} (bf : batchFaults (E:=E)) : Prop :=
  bf_acls bf = None /\ bf_nodes bf = None /\ bf_members bf = None /\ bf_grants bf = None /\ bf_shares bf = None.

Lemma table_reads_succeed {E} T now (f : faults E) ce c groupsFail bf : no_batch_faults bf -> reads_succeed (table_batch T now f ce c groupsFail bf).
Proof. intros (H1 & H2 & H3 & H4 & H5). split_and!; intros; cbn; rewrite ?H1, ?H2, ?H3, ?H4, ?H5; cbn; eauto. Qed.

(** C9. Deciding a page at once is deciding each of its secrets, as long as no
    secret has more than 10000 active shares (the per-secret read of shares stops
    there and the page read does not, so beyond it the two decisions can differ)
    and as long as the reads the per-secret role decision falls back on do not
    fail (the combined query answers, or the separate reads of roles and groups
    do; the check that the project is live answers).  Over the tables of the
    store, for every user, permission, token restriction and page of stored rows,
    repeated or missing entries included, with a role cache that agrees with the
    tables: when the page decision returns, it has an entry for every secret of
    the page and for no other, the entry is what the per-secret decision of that
    secret returns (a decision that errors is a refusal), and the share
    elevations on record afterwards are those the per-secret decisions would have
    left, in page order.  It fails only when one of its reads failed or the page
    is larger than 10000, and then leaves no record. *)
Theorem AuthorizeSecretsBatch_per_row {E} T now (f : faults E) ce c notFound groupsFail bf decode cx userID perm share_now secrets t :
  tables_wf T -> coherent (rb_perms (at_rbac T)) c -> f_live f = None ->
  f_combined f = None \/ (f_direct f = None /\ f_groups f = None /\ f_machine f = None /\ f_bypass f = None) ->
  (forall s, Some s ∈ secrets -> at_nodes T !! sn_ID s = Some s) ->
  let st := table_store T now f ce c notFound groupsFail in
  let row s t := AuthorizeSecretAction st decode share_now share_now cx userID (sn_ID s) perm [] [] t in
  match AuthorizeSecretsBatch (table_batch T now f ce c groupsFail bf) decode cx userID perm share_now secrets t with
  | (Ok out, t') =>
      (forall s, Some s ∈ secrets -> out !! sn_ID s = Some (match (row s t).1 with Ok d => sd_Allowed d | Err _ => false end)) /\
      (forall id, is_Some (out !! id) -> exists s, Some s ∈ secrets /\ sn_ID s = id) /\
      same_notes t' (fold_left (fun t s => (row s t).2) (dedupe_rows ∅ secrets) t)
  | (Err _, t') => t' = t /\ (~ no_batch_faults bf \/ (maxAuthorizeSecretsBatchSize < length secrets)%nat)
  end.
Proof.
  intros Hwf Hc Hl Hor Hrows st row. pose proof (tables_BatchOf T now f ce c notFound groupsFail bf Hwf Hc Hl Hor) as Hbo.
  destruct (AuthorizeSecretsBatch _ decode cx userID perm share_now secrets t) as [[out|e] t'] eqn:Eb.
  - apply (AuthorizeSecretsBatch_rows st _ decode userID perm share_now cx secrets t out t' ltac:(intros s Hs; cbn; by rewrite (Hrows s Hs)) Eb).
  - split; [by eapply AuthorizeSecretsBatch_error_trace|]. destruct (decide (length secrets <= maxAuthorizeSecretsBatchSize)%nat); [left|right; lia].
    intros Hnf. destruct (AuthorizeSecretsBatch_total _ decode userID perm (table_reads_succeed T now f ce c groupsFail bf Hnf) cx share_now secrets t)
      as (out & t1 & H); [done|]. rewrite H in Eb. done.
Qed.

(** * A concrete page *)

(** Folder 4 and secret 9 are in project 1, secret 5 is in the folder, and user 7
    may write what the folder's access list covers. *)
Definition ex_node4 : SecretNode := mkNode 4 1 1 None 3.
Definition ex_node5 : SecretNode := mkNode 5 1 1 (Some 4) 3.
Definition ex_node9 : SecretNode := mkNode 9 1 1 None 3.
Definition ex_tables : authzTables :=
  mkAuthzTables ex_rbac (<[4 := ex_node4]> (<[5 := ex_node5]> (<[9 := ex_node9]> ∅)))
    [mkACL 1 4 7 (go "secrets.write")] [mkShare 31 9 7 false (go "write") None].
Definition ex_page : list (option SecretNode) := [Some ex_node5; None; Some ex_node9; Some ex_node5].
Definition ex_batch_faults : batchFaults (E:=unit) := mkBatchFaults None None None None None.

Lemma ex_tables_wf : tables_wf ex_tables.
Proof.
  split; [split; [|split]; repeat constructor; vm_compute; discriminate|]. split.
  - intros id n. cbn [at_nodes ex_tables]. rewrite !lookup_insert_Some, lookup_empty. naive_solver.
  - intros id. cbn [at_shares ex_tables List.filter]. destruct (_ =? id)%Z; cbn [length]; unfold maxUnboundedListRows; lia.
Qed.

Lemma AuthorizeSecretsBatch_per_row_witness : exists out t',
  AuthorizeSecretsBatch (table_batch ex_tables 100 no_faults true empty_cache None ex_batch_faults) ex_decode ex_ctx 7 (go "secrets.write") 100 ex_page no_trace = (Ok out, t') /\
  out !! 5 = Some true /\ out !! 9 = Some false.
Proof.
  pose proof (AuthorizeSecretsBatch_per_row ex_tables 100 no_faults true empty_cache tt None ex_batch_faults ex_decode ex_ctx 7 (go "secrets.write") 100 ex_page no_trace
    ex_tables_wf ltac:(intros ids p e _ He; discriminate He) eq_refl (or_introl eq_refl)
    ltac:(intros s Hs; repeat (apply elem_of_cons in Hs as [Hs|Hs]; [try discriminate Hs; injection Hs as ->; reflexivity|]); by apply elem_of_nil in Hs)) as H.
  cbn zeta in H. destruct (AuthorizeSecretsBatch _ _ _ _ _ _ _ _) as [[out|e] t'].
  - exists out, t'. destruct H as (H & _). split; [reflexivity|]. split.
    + refine (eq_trans (H ex_node5 _) _); [left|vm_compute; reflexivity].
    + refine (eq_trans (H ex_node9 _) _); [right; right; left|vm_compute; reflexivity].
  - exfalso. destruct H as (_ & [H|H]); [apply H; repeat split|]. cbn [ex_page length] in H. unfold maxAuthorizeSecretsBatchSize in H. lia.
Defined.
