(* ===== verification/KeyFS.v ===== *)
(** The file system under the key files (src/internal/securefiles, the seams of
    src/internal/encryption/fault_hooks.go) and the effects of key operations.

    A directory operation is visible at once and durable after the next fsync of
    its directory; a power loss keeps, in each directory, a prefix of the
    operations made since.  An operation can fail before its effect, after part
    of a write, or after its whole effect (the three fault kinds of
    fault_hooks.go), and the process can be killed before any operation or in the
    middle of a write.  The outcomes are read from a schedule, so a theorem about
    every schedule is a theorem about every failure. *)
From Stdlib Require Import ZArith Lia.
From stdpp Require Import base numbers tactics sets list gmap.
From S2P Require Import Prelude GoStr Sha256.

(** * Paths and directories *)

Record path := mkPath { p_dir : bytes; p_name : bytes }.

#[export] Instance path_eq_decision : EqDecision path.
Proof. solve_decision. Defined.
#[export] Instance path_countable : Countable path.
Proof. refine (inj_countable' (fun p => (p_dir p, p_name p)) (fun x => mkPath x.1 x.2) _). by intros []. Defined.

(** [path + suffix] of the code: the sibling with a longer name. *)
Definition sibling (p : path) (suffix : bytes) : path := mkPath (p_dir p) (p_name p ++ suffix).
Definition pending (p : path) : path := sibling p (go ".pending").

Lemma sibling_inj p q s : sibling p s = sibling q s -> p = q.
Proof. destruct p, q; unfold sibling; simpl; intros [= -> ?%app_inv_tail]. by subst. Qed.
Lemma sibling_ne p s : s <> [] -> sibling p s <> p.
Proof. destruct p as [d n]; unfold sibling; simpl; intros Hs [= H]. apply Hs, (app_inv_head n). by rewrite app_nil_r. Qed.

(** * Directory operations, durability *)

Inductive dirop :=
| OPut (p : path) (data : bytes)
| OMove (p q : path)
| ODel (p : path).

Definition op_dir (o : dirop) : bytes := match o with OPut p _ => p_dir p | OMove p _ => p_dir p | ODel p => p_dir p end.

Definition apply_op (f : gmap path bytes) (o : dirop) : gmap path bytes :=
  match o with
  | OPut p data => <[p := data]> f
  | OMove p q => match f !! p with Some data => <[q := data]> (delete p f) | None => f end
  | ODel p => delete p f
  end.

Record fs := mkFs { f_disk : gmap path bytes; f_log : list dirop }.
Definition f_cur (x : fs) : gmap path bytes := fold_left apply_op (f_log x) (f_disk x).
Definition add_op (o : dirop) (x : fs) : fs := mkFs (f_disk x) (f_log x ++ [o]).
Definition on_dir (d : bytes) (o : dirop) : bool := bool_decide (op_dir o = d).
(** securefiles.SyncDir: the operations of one directory become durable. *)
Definition flush (d : bytes) (x : fs) : fs :=
  mkFs (fold_left apply_op (List.filter (on_dir d) (f_log x)) (f_disk x)) (List.filter (fun o => negb (on_dir d o)) (f_log x)).

(** What a power loss can leave: in each directory a prefix of what was not synced. *)
Definition survives (log l : list dirop) : Prop :=
  sublist l log /\ forall d, List.filter (on_dir d) l `prefix_of` List.filter (on_dir d) log.
Definition power_loss (x : fs) (f : gmap path bytes) : Prop := exists l, survives (f_log x) l /\ f = fold_left apply_op l (f_disk x).

(** * Effects *)

Inductive fault := FRun | FClean | FShort (k : nat) | FEffect | FCrash | FTorn (k : nat).

(** What key operations touch of the database: the DEK its rows are encrypted under, the redo marker
    (system_metadata[dek_rotation.promote_pending]), the DEK epoch, whether it is
    PostgreSQL, and the token of a committed restore (system_metadata[restore_commit_token]). *)
Record keydb := mkDb { db_rows : bytes; db_marker : option bytes; db_epoch : option bytes; db_postgres : bool; db_token : option bytes }.

(** What the process sees: the files, which of them it cannot read, the database,
    the outcomes to come and the random bytes it will draw. *)
Record world := mkWorld { w_fs : fs; w_unreadable : path -> bool; w_db : keydb; w_faults : list fault; w_nonces : list bytes }.

Definition set_fs (x : fs) (w : world) : world := mkWorld x (w_unreadable w) (w_db w) (w_faults w) (w_nonces w).
Definition set_db (x : keydb) (w : world) : world := mkWorld (w_fs w) (w_unreadable w) x (w_faults w) (w_nonces w).
Definition next_fault (w : world) : fault * world :=
  (default FRun (head (w_faults w)), mkWorld (w_fs w) (w_unreadable w) (w_db w) (tail (w_faults w)) (w_nonces w)).

(** A computation ends with a value, or the process is gone. *)
Definition M (A : Type) : Type := world -> option A * world.
Definition ret {A} (a : A) : M A := fun w => (Some a, w).
Definition bind {A B} (m : M A) (k : A -> M B) : M B :=
  fun w => match m w with (Some a, w') => k a w' | (None, w') => (None, w') end.
Definition bind_res {E A B} (m : M (res E A)) (k : A -> M (res E B)) : M (res E B) :=
  bind m (fun r => match r with Ok a => k a | Err e => ret (Err e) end).
Notation "'let!' x ':=' m 'in' k" := (bind m (fun x => k))
  (at level 10, x pattern, m at level 100, k at level 200, format "'let!'  x  ':='  m  'in' '//' k") : go_scope.
Notation "'let?!' x ':=' m 'in' k" := (bind_res m (fun x => k))
  (at level 10, x pattern, m at level 100, k at level 200, format "'let?!'  x  ':='  m  'in' '//' k") : go_scope.

Inductive io_err := EIO | ENotExist.

(** durableWriteSync / securefiles.SecureWriteFileSync: create or truncate, write, fsync the file. *)
Definition fwrite (p : path) (data : bytes) : M (res io_err unit) := fun w =>
  let '(f, w) := next_fault w in
  let put d := set_fs (add_op (OPut p d) (w_fs w)) w in
  match f with
  | FRun => (Some (Ok ()), put data)
  | FClean => (Some (Err EIO), w)
  | FShort k => (Some (Err EIO), put (take k data))
  | FEffect => (Some (Err EIO), put data)
  | FCrash => (None, w)
  | FTorn k => (None, put (take k data))
  end.

(** durableRename / os.Rename. *)
Definition frename (p q : path) : M (res io_err unit) := fun w =>
  let '(f, w) := next_fault w in
  let moved := set_fs (add_op (OMove p q) (w_fs w)) w in
  match f with
  | FRun => match f_cur (w_fs w) !! p with Some _ => (Some (Ok ()), moved) | None => (Some (Err ENotExist), w) end
  | FEffect => match f_cur (w_fs w) !! p with Some _ => (Some (Err EIO), moved) | None => (Some (Err ENotExist), w) end
  | FClean | FShort _ => (Some (Err EIO), w)
  | FCrash | FTorn _ => (None, w)
  end.

(** durableSyncDir / securefiles.SyncDir. *)
Definition fsyncdir (d : bytes) : M (res io_err unit) := fun w =>
  let '(f, w) := next_fault w in
  match f with
  | FRun => (Some (Ok ()), set_fs (flush d (w_fs w)) w)
  | FEffect => (Some (Err EIO), set_fs (flush d (w_fs w)) w)
  | FClean | FShort _ => (Some (Err EIO), w)
  | FCrash | FTorn _ => (None, w)
  end.

(** os.Remove; whether it reported an error. *)
Definition fremove (p : path) : M (res io_err unit) := fun w =>
  let '(f, w) := next_fault w in
  let gone := set_fs (add_op (ODel p) (w_fs w)) w in
  match f with
  | FRun => match f_cur (w_fs w) !! p with Some _ => (Some (Ok ()), gone) | None => (Some (Err ENotExist), w) end
  | FEffect => (Some (Err EIO), gone)
  | FClean | FShort _ => (Some (Err EIO), w)
  | FCrash | FTorn _ => (None, w)
  end.

(** keyfiles.readKeyFile, securefiles.SafeReadFile. *)
Definition fread (p : path) : M (res io_err bytes) := fun w =>
  match f_cur (w_fs w) !! p with
  | None => (Some (Err ENotExist), w)
  | Some data => if w_unreadable w p then (Some (Err EIO), w) else (Some (Ok data), w)
  end.
(** os.Stat. *)
Definition fstat (p : path) : M bool := fun w => (Some (negb (is_none (f_cur (w_fs w) !! p))), w).
(** os.ReadDir. *)
Definition freaddir (d : bytes) : M (list path) := fun w =>
  (Some (List.filter (fun p => bool_decide (p_dir p = d)) (map fst (map_to_list (f_cur (w_fs w))))), w).

Definition draw_nonce : M bytes := fun w =>
  (Some (default [] (head (w_nonces w))), mkWorld (w_fs w) (w_unreadable w) (w_db w) (w_faults w) (tail (w_nonces w))).

(** A range loop whose body can stop the loop with an error. *)
Fixpoint mfold {E A B} (f : B -> A -> M (res E B)) (l : list A) (b : B) : M (res E B) :=
  match l with
  | [] => ret (Ok b)
  | a :: l => let?! b := f b a in mfold f l b
  end.

(** * Reasoning: what holds however the process ends

    [always R x]: everything not yet synced in [x] lies in directory [D], the
    files satisfy [R] and, when [lossy], so does every state a power loss can
    leave. *)

Section always.
Context (D : bytes) (lossy : Prop).
Implicit Types (R : gmap path bytes -> Prop) (x : fs).

Definition always R x : Prop :=
  Forall (fun o => op_dir o = D) (f_log x) /\ R (f_cur x) /\ (lossy -> forall n, R (fold_left apply_op (take n (f_log x)) (f_disk x))).

Lemma always_cur R x : always R x -> R (f_cur x).
Proof. by intros (_ & ? & _). Qed.

Lemma always_mono R R' x : (forall f, R f -> R' f) -> always R x -> always R' x.
Proof. intros HR (? & ? & ?). split_and!; auto. Qed.

Lemma f_cur_add o x : f_cur (add_op o x) = apply_op (f_cur x) o.
Proof. unfold f_cur, add_op; simpl. by rewrite fold_left_app. Qed.

Lemma always_add R o x : always R x -> op_dir o = D -> R (apply_op (f_cur x) o) -> always R (add_op o x).
Proof.
  intros (Hd & _ & H) Ho HR. split_and!; simpl; [apply Forall_app; auto|by rewrite f_cur_add|]. intros Hl n.
  destruct (decide (n <= length (f_log x))%nat) as [Hn|Hn].
  - rewrite take_app_le by done. by apply H.
  - rewrite take_ge by (rewrite length_app; simpl; lia). rewrite fold_left_app; simpl. exact HR.
Qed.

Lemma filter_Forall_true {A} (P : A -> bool) l : Forall (fun o => P o = true) l -> List.filter P l = l.
Proof. induction 1 as [|o l Ho _ IH]; simpl; [done|]. by rewrite Ho, IH. Qed.
Lemma filter_Forall_false {A} (P : A -> bool) l : Forall (fun o => P o = false) l -> List.filter P l = [].
Proof. induction 1 as [|o l Ho _ IH]; simpl; [done|]. by rewrite Ho, IH. Qed.

Lemma on_dir_all x : Forall (fun o => op_dir o = D) (f_log x) -> Forall (fun o => on_dir D o = true) (f_log x).
Proof. intros H. eapply Forall_impl; [exact H|]. intros o ?. by apply bool_decide_eq_true. Qed.

Lemma flush_all x : Forall (fun o => op_dir o = D) (f_log x) -> flush D x = mkFs (f_cur x) [].
Proof.
  intros Hd%on_dir_all. unfold flush. rewrite filter_Forall_true by done. f_equal. apply filter_Forall_false.
  eapply Forall_impl; [exact Hd|]. by intros o ->.
Qed.

Lemma always_clean R f : R f -> always R (mkFs f []).
Proof. intros H. split_and!; simpl; [constructor|done|]. intros _ n. by rewrite take_nil. Qed.

Lemma always_flush R x : always R x -> always R (flush D x).
Proof. intros H. rewrite flush_all by apply H. by apply always_clean, always_cur. Qed.

Lemma always_flush_cur R x : always R x -> f_cur (flush D x) = f_cur x.
Proof. intros H. by rewrite flush_all by apply H. Qed.

(** A power loss leaves a state of [R]. *)
Lemma always_power_loss R x f : lossy -> always R x -> power_loss x f -> R f.
Proof.
  intros Hlossy (Hd & _ & H) (l & [Hs Hp] & ->). specialize (Hp D).
  assert (Hl : List.filter (on_dir D) l = l).
  { apply filter_Forall_true. apply Forall_forall. intros o Ho. apply on_dir_all in Hd.
    rewrite Forall_forall in Hd. eapply Hd, elem_of_sublist; eauto. }
  rewrite Hl, filter_Forall_true in Hp by (by apply on_dir_all). destruct Hp as [k Hk].
  specialize (H Hlossy (length l)). by rewrite Hk, take_app_length in H.
Qed.

(** [wp C m Q w]: from [w], [m] either ends the process in a state of [C] or returns with [Q]. *)
Definition wp {A} (C : world -> Prop) (m : M A) (Q : A -> world -> Prop) (w : world) : Prop :=
  match m w with (Some a, w') => Q a w' | (None, w') => C w' end.

Lemma wp_ret {A} C (a : A) (Q : A -> world -> Prop) w : Q a w -> wp C (ret a) Q w.
Proof. done. Qed.
Lemma wp_bind {A B} C (m : M A) (k : A -> M B) Q w : wp C m (fun a => wp C (k a) Q) w -> wp C (bind m k) Q w.
Proof. unfold wp, bind. by destruct (m w) as [[a|] w']. Qed.
Lemma wp_mono {A} C (m : M A) (Q Q' : A -> world -> Prop) w : wp C m Q w -> (forall a w', Q a w' -> Q' a w') -> wp C m Q' w.
Proof. unfold wp. destruct (m w) as [[a|] w']; auto. Qed.
Lemma wp_bind_res {E A B} C (m : M (res E A)) (k : A -> M (res E B)) (Q : res E B -> world -> Prop) w :
  wp C m (fun r w' => match r with Ok a => wp C (k a) Q w' | Err e => Q (Err e) w' end) w -> wp C (bind_res m k) Q w.
Proof. intros H. apply wp_bind. eapply wp_mono; [exact H|]. by intros [a|e] w'. Qed.

(** [calm] stands for "no fault is scheduled": with [calm := True] the rules below show that the operation
    succeeds, with [calm := False] what holds under every schedule. *)
Context (R : gmap path bytes -> Prop) (calm : Prop) (db : keydb).

Definition ready (w : world) : Prop := always R (w_fs w) /\ w_db w = db /\ (calm -> w_faults w = []).
Definition crashed (w : world) : Prop := always R (w_fs w) /\ w_db w = db /\ ~ calm.
(** After an operation: still ready, with the same files unreadable. *)
Definition stepped (w w' : world) : Prop := w_unreadable w' = w_unreadable w /\ ready w'.
Definition cur (w : world) := f_cur (w_fs w).

Lemma stepped_refl w : ready w -> stepped w w.
Proof. by split. Qed.
Lemma stepped_trans w w' w'' : stepped w w' -> stepped w' w'' -> stepped w w''.
Proof. intros [H _] [H' ?]. split; [by rewrite H'|done]. Qed.
Lemma ready_cur w : ready w -> R (cur w).
Proof. intros [H _]. unfold cur. by apply always_cur. Qed.

Lemma next_fault_eq w : next_fault w = (default FRun (head (w_faults w)), mkWorld (w_fs w) (w_unreadable w) (w_db w) (tail (w_faults w)) (w_nonces w)).
Proof. reflexivity. Qed.

(** One operation under one scheduled outcome: [calm] rules out every outcome but the normal one. *)
Ltac op_cases w :=
  let f := fresh "f" in let Hf := fresh "Hf" in
  rewrite next_fault_eq; destruct (default FRun (head (w_faults w))) as [ | | ? | | | ? ] eqn:Hf;
  [..]; try (assert (calm -> False) by (let C := fresh in intros C; match goal with H : calm -> w_faults w = [] |- _ => rewrite (H C) in Hf end; discriminate)).

Lemma tail_calm w : (calm -> w_faults w = []) -> calm -> tail (w_faults w) = [].
Proof. intros H C. by rewrite H. Qed.
Hint Resolve tail_calm : core.

Lemma wp_fwrite p data (Q : res io_err unit -> world -> Prop) w :
  ready w -> p_dir p = D -> (forall d, R (<[p := d]> (cur w))) ->
  (forall r w', stepped w w' -> (cur w' = cur w \/ exists d, cur w' = <[p := d]> (cur w)) ->
     (r = Ok () -> cur w' = <[p := data]> (cur w)) -> (calm -> r = Ok ()) -> Q r w') ->
  wp crashed (fwrite p data) Q w.
Proof.
  intros (Ha & Hdb & Hq) Hp HR HQ. unfold wp, fwrite.
  assert (Hadd : forall d, always R (add_op (OPut p d) (w_fs w))) by (intros d; apply always_add; simpl; auto; apply HR).
  assert (Hcur : forall d, f_cur (add_op (OPut p d) (w_fs w)) = <[p := d]> (cur w)) by (intros d; apply f_cur_add).
  op_cases w; simpl; try (split_and!; simpl; auto; done); apply HQ; unfold stepped, ready, cur; simpl; rewrite ?Hcur; eauto; tauto || done.
Qed.

Lemma wp_frename p q (Q : res io_err unit -> world -> Prop) w :
  ready w -> p_dir p = D -> (forall d, cur w !! p = Some d -> R (<[q := d]> (delete p (cur w)))) ->
  (forall r w', stepped w w' ->
     (cur w' = cur w /\ r <> Ok () \/ exists d, cur w !! p = Some d /\ cur w' = <[q := d]> (delete p (cur w))) ->
     (calm -> is_Some (cur w !! p) -> r = Ok ()) -> Q r w') ->
  wp crashed (frename p q) Q w.
Proof.
  intros (Ha & Hdb & Hq) Hp HR HQ. unfold wp, frename, cur in *.
  op_cases w; simpl; try (split_and!; simpl; auto; done); destruct (f_cur (w_fs w) !! p) as [d|] eqn:Hd;
    try (apply HQ; [unfold stepped, ready; simpl; auto; done|left; by split|try tauto; intros _ [? [=]]]).
  all: assert (Hc : f_cur (add_op (OMove p q) (w_fs w)) = <[q := d]> (delete p (f_cur (w_fs w))))
         by (rewrite f_cur_add; simpl; by rewrite Hd).
  all: apply HQ; [split; [done|]; split_and!; simpl; auto; apply always_add; auto; rewrite <- f_cur_add, Hc; by apply HR
                 |right; exists d; by split|done || tauto].
Qed.

Lemma wp_fsyncdir (Q : res io_err unit -> world -> Prop) w :
  ready w ->
  (forall r w', stepped w w' -> cur w' = cur w -> (r = Ok () -> f_log (w_fs w') = []) -> (calm -> r = Ok ()) -> Q r w') ->
  wp crashed (fsyncdir D) Q w.
Proof.
  intros (Ha & Hdb & Hq) HQ. unfold wp, fsyncdir.
  assert (Hf : always R (flush D (w_fs w))) by by apply always_flush.
  assert (Hc : f_cur (flush D (w_fs w)) = cur w) by (eapply always_flush_cur; eauto).
  assert (Hl : f_log (flush D (w_fs w)) = []) by by rewrite flush_all by apply Ha.
  op_cases w; simpl; try (split_and!; simpl; auto; done); apply HQ; unfold stepped, ready, cur; cbn [w_unreadable w_fs w_faults w_db set_fs]; auto; tauto || done.
Qed.

Lemma wp_fremove p (Q : res io_err unit -> world -> Prop) w :
  ready w -> p_dir p = D -> R (delete p (cur w)) ->
  (forall r w', stepped w w' -> cur w' = cur w \/ cur w' = delete p (cur w) -> Q r w') ->
  wp crashed (fremove p) Q w.
Proof.
  intros (Ha & Hdb & Hq) Hp HR HQ. unfold wp, fremove.
  assert (Hadd : always R (add_op (ODel p) (w_fs w))) by (apply always_add; auto).
  assert (Hcur : f_cur (add_op (ODel p) (w_fs w)) = delete p (cur w)) by apply f_cur_add.
  op_cases w; simpl; try (split_and!; simpl; auto; done); try (destruct (f_cur (w_fs w) !! p) eqn:E);
    apply HQ; unfold stepped, ready, cur; simpl; auto; done.
Qed.

Lemma wp_fread C p (Q : res io_err bytes -> world -> Prop) w :
  (match cur w !! p with None => Q (Err ENotExist) w | Some d => if w_unreadable w p then Q (Err EIO) w else Q (Ok d) w end) ->
  wp C (fread p) Q w.
Proof. unfold wp, fread, cur. destruct (f_cur (w_fs w) !! p); [destruct (w_unreadable w p)|]; auto. Qed.

Lemma wp_fstat C p (Q : bool -> world -> Prop) w : Q (negb (is_none (cur w !! p))) w -> wp C (fstat p) Q w.
Proof. done. Qed.

Lemma wp_freaddir C d (Q : list path -> world -> Prop) w : (forall l, Forall (fun p => p_dir p = d) l -> Q l w) -> wp C (freaddir d) Q w.
Proof.
  intros H. unfold wp, freaddir. apply H, Forall_forall. intros p Hp.
  apply list_elem_of_In, filter_In in Hp as [_ Hp]. by apply bool_decide_eq_true in Hp.
Qed.

Lemma wp_draw_nonce (Q : bytes -> world -> Prop) w :
  ready w -> (forall b w', stepped w w' -> w_fs w' = w_fs w -> Q b w') -> wp crashed draw_nonce Q w.
Proof. intros (Ha & Hdb & Hq) HQ. unfold wp, draw_nonce. by apply HQ. Qed.
End always.

#[export] Hint Resolve always_clean stepped_refl stepped_trans : kx.
