(* ===== verification/KeySet.v ===== *)
(** The key-set manifest and boot's treatment of it: src/internal/keyfiles/manifest.go,
    consistency.go and reconcile.go.

    A manifest records, for each key file, the hash of its content and the
    operation that wrote it, and at most one staged operation: the hashes its
    files will have.  Boot compares the files with both and finishes, records or
    refuses what it finds.

    Files are named by their path where the code uses [manifestKey] (a path
    relative to the manifest's directory), and the JSON codec is a parameter. *)
From Stdlib Require Import ZArith Lia.
From stdpp Require Import base numbers tactics sets list gmap.
From S2P Require Import Prelude GoStr Sha256 KeyFS.

(** * The manifest *)

Record ManifestEntry := mkEntry { me_SHA256 : bytes; me_Generation : Z; me_Operation : bytes }.
Record ManifestIntent := mkIntent { mi_Generation : Z; mi_Operation : bytes; mi_Files : gmap path bytes }.
Record Manifest := mkManifest { mf_Format : Z; mf_Generation : Z; mf_Files : gmap path ManifestEntry; mf_Next : option ManifestIntent }.

Definition manifestFormat : Z := 1.
Definition ManifestFileName : bytes := go "keyset.manifest.json".
Definition OpAdopted : bytes := go "adopted".
Definition OpRotateKEK : bytes := go "rotate-kek".
Definition OpRotateDEK : bytes := go "rotate-dek".
Definition OpRewrapDEK : bytes := go "migrate-provider".
Definition OpFirstBoot : bytes := go "first-boot".

Inductive keyset_err :=
| ErrManifestMissing
| ErrManifestInvalid
| ErrUnresolved (next : ManifestIntent)          (* resolveStaged's refusal *)
| ErrIncompleteSet (present missing : list path)
| ErrUnreadable (p : path)
| ErrForeign (files : list path)
| ErrIncoherent (done stuck : list path)
| ErrKeyIO (e : io_err).                         (* a write, rename, fsync or read that failed *)

Definition HashBytes (data : bytes) : bytes := hex_encode (sha256 data).
Definition is_hex_char (b : Byte.byte) : bool := is_hex_digit b || ((65 <=? Zb b) && (Zb b <=? 70)).
Definition validHash (h : bytes) : bool := (length h =? 64)%nat && forallb is_hex_char h.

Definition as_io {A} (m : M (res io_err A)) : M (res keyset_err A) :=
  let! r := m in ret match r with Ok a => Ok a | Err e => Err (ErrKeyIO e) end.

(** hashKeyFile *)
Definition hashKeyFile (p : path) : M (res io_err bytes) := let?! data := fread p in ret (Ok (HashBytes data)).

Section keyset.
(** encoding/json: the encoder, and the decoder with whether the files section is there. *)
Context (encodeManifest : Manifest -> bytes) (decodeManifest : bytes -> option (Manifest * bool)).
(** The files the configuration requires ([RequiredKeyFilePaths]), the DEK among them, the manifest's path
    and the name an unparseable manifest is moved to. *)
Context (required : list path) (manifestPath dekPath aside : path).

(** LoadManifest *)
Definition valid_manifest (m : Manifest) : bool :=
  (mf_Format m =? manifestFormat) && forallb (fun kv => validHash (me_SHA256 kv.2)) (map_to_list (mf_Files m)) &&
  match mf_Next m with None => true | Some n => forallb (fun kv => validHash kv.2) (map_to_list (mi_Files n)) end.

Definition LoadManifest : M (res keyset_err Manifest) :=
  let! r := fread manifestPath in
  match r with
  | Err ENotExist => ret (Err ErrManifestMissing)
  | Err EIO => ret (Err ErrManifestInvalid)
  | Ok data =>
      match decodeManifest data with
      | Some (m, true) => if valid_manifest m then ret (Ok m) else ret (Err ErrManifestInvalid)
      | _ => ret (Err ErrManifestInvalid)
      end
  end.

(** writeManifest: a staging file of its own name, renamed into place. *)
Definition staging_of (nonce : bytes) : path := sibling manifestPath (go ".pending-" ++ hex_encode nonce).

Definition writeManifest (m : Manifest) : M (res keyset_err unit) :=
  let! nonce := draw_nonce in
  let staged := staging_of nonce in
  let! r := fwrite staged (encodeManifest m) in
  match r with
  | Err e => let! _ := fremove staged in ret (Err (ErrKeyIO e))
  | Ok _ =>
      let! r := frename staged manifestPath in
      match r with
      | Err e => let! _ := fremove staged in ret (Err (ErrKeyIO e))
      | Ok _ => as_io (fsyncdir (p_dir manifestPath))
      end
  end.

(** adoptFromDisk *)
Definition adopt_one (gen : Z) (strict : bool) (files : gmap path ManifestEntry) (p : path) : M (res keyset_err (gmap path ManifestEntry)) :=
  let! here := fstat p in
  if negb here then ret (Ok files)
  else
    let! h := hashKeyFile p in
    match h with
    | Ok h => ret (Ok (<[p := mkEntry h gen OpAdopted]> files))
    | Err _ => if strict then ret (Err (ErrUnreadable p)) else ret (Ok files)
    end.

Definition adoptFromDisk (gen : Z) (strict : bool) : M (res keyset_err Manifest) :=
  let?! files := mfold (adopt_one gen strict) required ∅ in
  ret (Ok (mkManifest manifestFormat gen files None)).

(** SetWriter.load *)
Definition load : M (res keyset_err Manifest) :=
  let! m := LoadManifest in
  match m with Ok m => ret (Ok m) | Err _ => adoptFromDisk 0 false end.

Definition hashes (files : gmap path bytes) : gmap path bytes := HashBytes <$> files.

(** SetWriter.resolveStaged: how many of the staged operation's files are as staged, how many as recorded. *)
Fixpoint count_staged (m : Manifest) (l : list (path * bytes)) (applied untouched : nat) : M (nat * nat) :=
  match l with
  | [] => ret (applied, untouched)
  | (key, staged) :: l =>
      let! h := hashKeyFile key in
      match h with
      | Ok h =>
          if bool_decide (h = staged) then count_staged m l (S applied) untouched
          else if bool_decide (h = default [] (me_SHA256 <$> mf_Files m !! key)) then count_staged m l applied (S untouched)
          else count_staged m l applied untouched
      | Err _ => count_staged m l applied untouched
      end
  end.

Definition with_staged (n : ManifestIntent) (m : Manifest) : gmap path ManifestEntry :=
  ((fun h => mkEntry h (mi_Generation n) (mi_Operation n)) <$> mi_Files n) ∪ mf_Files m.

Definition resolveStaged (m : Manifest) : M (res keyset_err Manifest) :=
  match mf_Next m with
  | None => ret (Ok m)
  | Some n =>
      let! (applied, untouched) := count_staged m (map_to_list (mi_Files n)) 0 0 in
      if (applied =? size (mi_Files n))%nat then
        ret (Ok (mkManifest (mf_Format m) (mi_Generation n) (with_staged n m) None))
      else if (untouched =? size (mi_Files n))%nat then
        ret (Ok (mkManifest (mf_Format m) (mf_Generation m) (mf_Files m) None))
      else ret (Err (ErrUnresolved n))
  end.

(** SetWriter.StageManifest *)
Definition StageManifest (op : bytes) (files : gmap path bytes) : M (res keyset_err unit) :=
  let?! m := load in
  let?! m := resolveStaged m in
  writeManifest (mkManifest (mf_Format m) (mf_Generation m) (mf_Files m)
    (Some (mkIntent (u64 (mf_Generation m + 1)) op (hashes files)))).

(** SetWriter.committed *)
Definition committed (op : bytes) (files : gmap path bytes) (m : Manifest) : Manifest :=
  let gen := u64 (mf_Generation m + 1) in
  mkManifest (mf_Format m) gen (((fun h => mkEntry h gen op) <$> hashes files) ∪ mf_Files m) None.

(** SetWriter.CommitManifest *)
Definition CommitManifest (op : bytes) (files : gmap path bytes) : M (res keyset_err unit) :=
  let?! m := load in
  writeManifest (committed op files m).

(** Reading the files of a commit: CommitManifestFromDisk, and the loop of ReconcileKeySet. *)
Fixpoint read_all (paths : list path) (files : gmap path bytes) : M (res keyset_err (gmap path bytes)) :=
  match paths with
  | [] => ret (Ok files)
  | p :: paths =>
      let! d := fread p in
      match d with Ok d => read_all paths (<[p := d]> files) | Err _ => ret (Err (ErrUnreadable p)) end
  end.

Definition CommitManifestFromDisk (op : bytes) (paths : list path) : M (res keyset_err unit) :=
  let?! files := read_all paths ∅ in
  CommitManifest op files.

(** * Inspection *)

Record KeySetFile := mkKeySetFile { kf_Path : path; kf_Recorded : bool; kf_MatchesRecorded : bool; kf_MatchesStaged : bool }.
Inductive IntentState := IntentNone | IntentAbandoned | IntentCompleted | IntentFinishable.
Record KeySetState := mkState {
  ks_Fresh : bool; ks_Manifest : option Manifest; ks_ManifestErr : option keyset_err; ks_Files : list KeySetFile;
  ks_Intent : IntentState; ks_Finish : list (path * path); ks_Leftovers : list path; ks_Unrecorded : list path }.

(** Which of a list of paths exist (os.Stat). *)
Fixpoint stat_all (paths : list path) : M (list path * list path) :=
  match paths with
  | [] => ret ([], [])
  | p :: paths =>
      let! here := fstat p in
      let! (present, missing) := stat_all paths in
      ret (if here then (p :: present, missing) else (present, p :: missing))
  end.

Definition key_file (m : Manifest) (p : path) (h : bytes) : KeySetFile :=
  let recorded := mf_Files m !! p in
  mkKeySetFile p (negb (is_none recorded))
    (match recorded with Some e => bool_decide (me_SHA256 e = h) | None => false end)
    (match mf_Next m with Some n => bool_decide (default [] (mi_Files n !! p) = h) | None => false end).

Definition is_foreign (f : KeySetFile) : bool := kf_Recorded f && negb (kf_MatchesRecorded f) && negb (kf_MatchesStaged f).
Definition is_unrecorded (f : KeySetFile) : bool := negb (kf_Recorded f) && negb (kf_MatchesStaged f).

Fixpoint inspect_files (m : Manifest) (present : list path) : M (res keyset_err (list KeySetFile)) :=
  match present with
  | [] => ret (Ok [])
  | p :: present =>
      let! h := hashKeyFile p in
      match h with
      | Err _ => ret (Err (ErrUnreadable p))
      | Ok h => let?! fs := inspect_files m present in ret (Ok (key_file m p h :: fs))
      end
  end.

(** classifyIntent's plan: the staging files that hold what the operation was about to write. *)
Fixpoint finish_plan (next : ManifestIntent) (old : list KeySetFile) : M (list path * list (path * path)) :=
  match old with
  | [] => ret ([], [])
  | f :: old =>
      let staged := pending (kf_Path f) in
      let! h := hashKeyFile staged in
      let! (stuck, plan) := finish_plan next old in
      ret match h with
          | Ok h => if bool_decide (h = default [] (mi_Files next !! kf_Path f)) then (stuck, (staged, kf_Path f) :: plan) else (kf_Path f :: stuck, plan)
          | Err _ => (kf_Path f :: stuck, plan)
          end
  end.

Definition named (next : ManifestIntent) (f : KeySetFile) : bool := negb (is_none (mi_Files next !! kf_Path f)).

Definition classifyIntent (next : ManifestIntent) (files : list KeySetFile) : M (res keyset_err (IntentState * list (path * path))) :=
  let newFiles := List.filter (fun f => named next f && kf_MatchesStaged f) files in
  let oldFiles := List.filter (fun f => named next f && negb (kf_MatchesStaged f)) files in
  match oldFiles, newFiles with
  | [], _ => ret (Ok (IntentCompleted, []))
  | _, [] => ret (Ok (IntentAbandoned, []))
  | _, _ =>
      let! (stuck, plan) := finish_plan next oldFiles in
      match stuck with
      | [] => ret (Ok (IntentFinishable, plan))
      | _ => ret (Err (ErrIncoherent (map kf_Path newFiles) stuck))
      end
  end.

Definition fresh_state : KeySetState := mkState true None None [] IntentNone [] [] [].

Definition InspectKeySet : M (res keyset_err KeySetState) :=
  match required with
  | [] => ret (Ok fresh_state)
  | _ =>
      let! (present, missing) := stat_all required in
      match present, missing with
      | [], _ => ret (Ok fresh_state)
      | _, _ :: _ => ret (Err (ErrIncompleteSet present missing))
      | _, [] =>
          let! m := LoadManifest in
          match m with
          | Err e => ret (Ok (mkState false None (Some e) [] IntentNone [] [] []))
          | Ok m =>
              let?! files := inspect_files m present in
              let! (leftovers, _) := stat_all (map pending required) in
              let unrecorded := map kf_Path (List.filter is_unrecorded files) in
              match List.filter is_foreign files, mf_Next m with
              | [], Some next =>
                  let?! (intent, finish) := classifyIntent next files in
                  ret (Ok (mkState false (Some m) None files intent finish leftovers unrecorded))
              | [], None => ret (Ok (mkState false (Some m) None files IntentNone [] leftovers unrecorded))
              | foreign, _ => ret (Err (ErrForeign (map kf_Path foreign)))
              end
          end
      end
  end.

(** * Reconciliation *)

Inductive keyset_warning :=
| WStagingRemoved (p : path) | WStagingStuck (p : path)
| WFinished (op : bytes) (gen : Z) | WCommitFailed (op : bytes)
| WAdopted (files : list path) | WAdoptFailed (files : list path)
| WLeftoverDEK (p : path) | WLeftover (p : path).

Record ReconcileResult := mkReconcile {
  rr_Warnings : list keyset_warning; rr_Finished : bytes; rr_Renamed : list (path * path); rr_Adopted : list path }.

Definition warn (ws : list keyset_warning) (r : ReconcileResult) : ReconcileResult :=
  mkReconcile (rr_Warnings r ++ ws) (rr_Finished r) (rr_Renamed r) (rr_Adopted r).

(** ManifestStagingFiles *)
Definition is_staging (p : path) : bool :=
  bool_decide (p_dir p = p_dir manifestPath) &&
  (bool_decide (p_name p = p_name manifestPath ++ go ".pending") || HasPrefix (p_name p) (p_name manifestPath ++ go ".pending-")).

Fixpoint remove_staging (l : list path) (r : ReconcileResult) : M ReconcileResult :=
  match l with
  | [] => ret r
  | p :: l =>
      let! e := fremove p in
      remove_staging l (warn [match e with Err EIO => WStagingStuck p | _ => WStagingRemoved p end] r)
  end.

Definition removeManifestStagingFiles (r : ReconcileResult) : M ReconcileResult :=
  let! l := freaddir (p_dir manifestPath) in
  remove_staging (List.filter is_staging l) r.

Definition adoptWholeSet (why : keyset_err) (r : ReconcileResult) : M (res keyset_err ReconcileResult) :=
  let?! m := adoptFromDisk 1 true in
  let! moved := match why with
                | ErrManifestMissing => ret (Ok ())
                | _ => frename manifestPath aside
                end in
  match moved with
  | Err _ => ret (Ok (warn [WAdoptFailed required] r))
  | Ok _ =>
      let! e := writeManifest m in
      match e with
      | Err _ => ret (Ok (warn [WAdoptFailed required] r))
      | Ok _ =>
          let adopted := List.filter (fun p => negb (is_none (mf_Files m !! p))) required in
          ret (Ok (warn [WAdopted adopted] (mkReconcile (rr_Warnings r) (rr_Finished r) (rr_Renamed r) (rr_Adopted r ++ adopted))))
      end
  end.

Definition finish_rename (r : ReconcileResult) (move : path * path) : M (res keyset_err ReconcileResult) :=
  let?! _ := as_io (frename move.1 move.2) in
  let?! _ := as_io (fsyncdir (p_dir move.2)) in
  ret (Ok (mkReconcile (rr_Warnings r) (rr_Finished r) (rr_Renamed r ++ [move]) (rr_Adopted r))).

(** The commit of a finished or completed operation. *)
Definition record_next (st : KeySetState) (next : ManifestIntent) (r : ReconcileResult) : M (res keyset_err ReconcileResult) :=
  let?! files := read_all (map kf_Path (List.filter (named next) (ks_Files st))) ∅ in
  let! e := CommitManifest (mi_Operation next) files in
  match e, ks_Intent st with
  | Ok _, _ => ret (Ok r)
  | Err e, IntentFinishable => ret (Err e)
  | Err _, _ => ret (Ok (warn [WCommitFailed (mi_Operation next)] r))
  end.

Definition settle_intent (st : KeySetState) (m : Manifest) (r : ReconcileResult) : M (res keyset_err ReconcileResult) :=
  match ks_Intent st, mf_Next m with
  | IntentFinishable, Some next =>
      let?! r := mfold finish_rename (ks_Finish st) r in
      record_next st next
        (warn [WFinished (mi_Operation next) (mi_Generation next)] (mkReconcile (rr_Warnings r) (mi_Operation next) (rr_Renamed r) (rr_Adopted r)))
  | IntentCompleted, Some next => record_next st next r
  | _, _ => ret (Ok r)
  end.

Definition leftover_warnings (r : ReconcileResult) (leftovers : list path) : list keyset_warning :=
  flat_map (fun l =>
    if existsb (fun m => bool_decide (m.1 = l)) (rr_Renamed r) then []
    else if bool_decide (l = pending dekPath) then [WLeftoverDEK l] else [WLeftover l]) leftovers.

Definition ReconcileKeySet : M (res keyset_err ReconcileResult) :=
  let?! st := InspectKeySet in
  let r := mkReconcile [] [] [] [] in
  if ks_Fresh st then ret (Ok r)
  else
    let! r := removeManifestStagingFiles r in
    match ks_Manifest st with
    | None => adoptWholeSet (default ErrManifestMissing (ks_ManifestErr st)) r
    | Some m =>
        let?! r := settle_intent st m r in
        let! u := match ks_Unrecorded st with [] => ret None | us => let! e := CommitManifestFromDisk OpAdopted us in ret (Some e) end in
        match u with
        | Some (Err _) => ret (Ok (warn [WAdoptFailed (ks_Unrecorded st)] r))
        | Some (Ok _) =>
            let r := warn [WAdopted (ks_Unrecorded st)] (mkReconcile (rr_Warnings r) (rr_Finished r) (rr_Renamed r) (rr_Adopted r ++ ks_Unrecorded st)) in
            ret (Ok (warn (leftover_warnings r (ks_Leftovers st)) r))
        | None => ret (Ok (warn (leftover_warnings r (ks_Leftovers st)) r))
        end
    end.
End keyset.
