(* ===== verification/KeySetSpec.v ===== *)
(** What the key-set manifest promises across crashes.

    An operation replaces the files of [N] in a key set whose contents are [c].
    [Recov c N] collects the states it can leave: the old set, the new set, or a
    set caught in between whose staging files hold what is missing, each with a
    manifest that describes it.  Every write of the manifest keeps a state in
    [Recov c N], and boot brings every state of [Recov c N] to the old or the new
    set, whatever fails on the way. *)
From Stdlib Require Import ZArith Lia.
From stdpp Require Import base numbers tactics sets list gmap.
From S2P Require Import Prelude GoStr Sha256 KeyFS KeySet.

(** * Hashes and valid manifests *)

Lemma validHash_HashBytes d : validHash (HashBytes d) = true.
Proof.
  unfold validHash, HashBytes. rewrite length_hex_encode, length_sha256. simpl. apply forallb_Forall.
  eapply Forall_impl; [apply hex_encode_digits|]. intros b Hb. unfold is_hex_char. by rewrite Hb.
Qed.

Lemma forallb_map_to_list {A} (P : A -> bool) (m : gmap path A) :
  forallb (fun kv => P kv.2) (map_to_list m) = true <-> map_Forall (fun _ x => P x = true) m.
Proof.
  rewrite forallb_Forall, map_Forall_to_list. split; intros H; (eapply Forall_impl; [exact H|]); by intros [k x].
Qed.

Definition staged_files (m : Manifest) : gmap path bytes := match mf_Next m with Some n => mi_Files n | None => ∅ end.

Lemma valid_manifest_spec m : valid_manifest m = true <->
  mf_Format m = manifestFormat /\ map_Forall (fun _ e => validHash (me_SHA256 e) = true) (mf_Files m) /\
  map_Forall (fun _ h => validHash h = true) (staged_files m).
Proof.
  unfold valid_manifest, staged_files. rewrite !andb_true_iff, Z.eqb_eq, (forallb_map_to_list (fun e => validHash (me_SHA256 e))).
  destruct (mf_Next m) as [n|].
  - rewrite (forallb_map_to_list validHash). tauto.
  - split; [intros [[? ?] _]; split_and!; auto; apply map_Forall_empty|tauto].
Qed.

(** * The paths of a key set *)

Section spec.
Context (encodeManifest : Manifest -> bytes) (decodeManifest : bytes -> option (Manifest * bool)).
Context (required : list path) (manifestPath dekPath aside : path) (D : bytes).

(** What the configuration guarantees: one directory, no two roles for one name. *)
Record keypaths_ok : Prop := {
  kp_codec : forall m, decodeManifest (encodeManifest m) = Some (m, true);
  kp_nonempty : required <> [];
  kp_nodup : NoDup required;
  kp_dir : p_dir manifestPath = D;
  kp_req_dir : forall p, p ∈ required -> p_dir p = D;
  kp_manifest : manifestPath ∉ required;
  kp_staging : forall p, p ∈ required -> is_staging manifestPath p = false;
  kp_pending_staging : forall p, p ∈ required -> is_staging manifestPath (pending p) = false;
  kp_pending_manifest : forall p, p ∈ required -> pending p <> manifestPath;
  kp_pending_req : forall p, p ∈ required -> pending p ∉ required }.

Context (kp : keypaths_ok).

Definition recorded (m : Manifest) (p : path) (h : bytes) : Prop := exists e, mf_Files m !! p = Some e /\ me_SHA256 e = h.
Definition holds (c f : gmap path bytes) : Prop := forall p, p ∈ required -> exists d, c !! p = Some d /\ f !! p = Some d.
Definition man (f : gmap path bytes) (m : Manifest) : Prop :=
  exists data, f !! manifestPath = Some data /\ decodeManifest data = Some (m, true) /\ valid_manifest m = true.
Definition all_recorded (m : Manifest) (c : gmap path bytes) : Prop := forall p d, p ∈ required -> c !! p = Some d -> recorded m p (HashBytes d).
Definition staged_required (m : Manifest) : Prop := forall p h, staged_files m !! p = Some h -> p ∈ required.
(** No staged file has its new content, or every one has. *)
Definition settled (m : Manifest) (c : gmap path bytes) : Prop := staged_required m /\
  ((all_recorded m c /\ forall p h d, staged_files m !! p = Some h -> c !! p = Some d -> h <> HashBytes d) \/
   (forall p d, p ∈ required -> c !! p = Some d -> match staged_files m !! p with Some h => h = HashBytes d | None => recorded m p (HashBytes d) end)).
Definition rest (c f : gmap path bytes) : Prop := exists m, man f m /\ holds c f /\ settled m c.

Definition in_progress (m : Manifest) (c N : gmap path bytes) : Prop :=
  all_recorded m c /\ mf_Next m <> None /\ staged_files m = HashBytes <$> N.
(** Each file is as before or as the operation leaves it; one that is as before has its new content staged. *)
Definition partly (c N f : gmap path bytes) : Prop := forall p, p ∈ required -> exists d, f !! p = Some d /\
  match N !! p with Some d' => d = d' \/ c !! p = Some d /\ f !! (pending p) = Some d' | None => c !! p = Some d end.
(** [K] is what must stay beside the set (nothing for a KEK rotation, the new DEK once the database's rows are
    under it). *)
Definition Recov (K : gmap path bytes -> Prop) (c N f : gmap path bytes) : Prop :=
  K f /\ (rest c f \/ rest (N ∪ c) f \/ exists m, man f m /\ partly c N f /\ in_progress m c N).

(** States that agree on everything but the manifest's own staging files. *)
Definition off (f g : gmap path bytes) : Prop := forall p, is_staging manifestPath p = false -> f !! p = g !! p.

Lemma off_refl f : off f f.
Proof. by intros p _. Qed.
Lemma off_trans f g h : off f g -> off g h -> off f h.
Proof. intros H H' p Hp. by rewrite H, H'. Qed.
Lemma off_sym f g : off f g -> off g f.
Proof. intros H p Hp. by rewrite H. Qed.
Lemma manifest_not_staging : is_staging manifestPath manifestPath = false.
Proof.
  unfold is_staging. apply andb_false_iff. right. apply orb_false_iff. split.
  - apply bool_decide_eq_false. intros H%(f_equal length). rewrite length_app in H. simpl in H. lia.
  - destruct (HasPrefix _ _) eqn:E; [|done]. apply HasPrefix_spec in E as [t H%(f_equal length)].
    rewrite !length_app in H. simpl in H. lia.
Qed.
Lemma off_insert f g p d : off f g -> off (<[p := d]> f) (<[p := d]> g).
Proof. intros H q Hq. destruct (decide (p = q)) as [->|]; simplify_map_eq; auto. Qed.
Lemma off_staging f p d : is_staging manifestPath p = true -> off (<[p := d]> f) f.
Proof. intros Hp q Hq. apply lookup_insert_ne. by intros ->; rewrite Hp in Hq. Qed.
Lemma off_delete f p : is_staging manifestPath p = true -> off (delete p f) f.
Proof. intros Hp q Hq. apply lookup_delete_ne. by intros ->; rewrite Hp in Hq. Qed.

Lemma man_off f g m : off f g -> man f m -> man g m.
Proof. intros H (d & Hd & ?). exists d. split; [|done]. rewrite <- H; [done|apply manifest_not_staging]. Qed.
Lemma holds_off c f g : off f g -> holds c f -> holds c g.
Proof. intros H Hc p Hp. destruct (Hc p Hp) as (d & ? & ?). exists d. split; [done|]. rewrite <- H; [done|by apply kp_staging]. Qed.
Lemma rest_off c f g : off f g -> rest c f -> rest c g.
Proof. intros H (m & ? & ? & ?). exists m. split_and!; eauto using man_off, holds_off. Qed.
Lemma partly_off c N f g : off f g -> partly c N f -> partly c N g.
Proof.
  intros H Hc p Hp. destruct (Hc p Hp) as (d & Hd & HN). exists d.
  rewrite <- !H by eauto using kp_staging, kp_pending_staging. done.
Qed.
Lemma Recov_off K c N : (forall f g, off f g -> K f -> K g) -> forall f g, off f g -> Recov K c N f -> Recov K c N g.
Proof.
  intros HK f g H [? [?|[?|(m & ? & ? & ?)]]]; (split; [by eapply HK|]); [left|right; left|right; right; exists m; split_and!];
    eauto using rest_off, man_off, partly_off.
Qed.

(** A manifest of known content in place of the old one. *)
Lemma man_insert f m : valid_manifest m = true -> man (<[manifestPath := encodeManifest m]> f) m.
Proof. intros Hv. exists (encodeManifest m). split_and!; [by simplify_map_eq|apply kp|done]. Qed.
Lemma holds_manifest c f d : holds c f -> holds c (<[manifestPath := d]> f).
Proof.
  intros H p Hp. destruct (H p Hp) as (x & ? & ?). exists x. split; [done|]. rewrite lookup_insert_ne; [done|].
  intros <-. by apply (kp_manifest kp).
Qed.
Lemma man_fun f m m' : man f m -> man f m' -> m = m'.
Proof. intros (? & ? & ? & _) (? & ? & ? & _). by simplify_eq. Qed.

Lemma settled_recorded m c : mf_Next m = None -> all_recorded m c -> settled m c.
Proof.
  intros Hn Hr. unfold settled, staged_required, staged_files. rewrite Hn. split; [by intros p h Hl; simplify_map_eq|].
  left. split; [done|]. intros p h d Hl. simplify_map_eq.
Qed.

(** * Reading: none of it changes the world *)

Definition readable (w : world) : Prop :=
  w_unreadable w manifestPath = false /\ forall p, p ∈ required -> w_unreadable w p = false /\ w_unreadable w (pending p) = false.
Definition reads {A} (m : M A) (w : world) (a : A) : Prop := m w = (Some a, w).

Lemma wp_reads {A} C (m : M A) a (Q : A -> world -> Prop) w : reads m w a -> Q a w -> wp C m Q w.
Proof. unfold reads, wp. by intros ->. Qed.
Lemma reads_bind {A B} (m : M A) (k : A -> M B) w a b : reads m w a -> reads (k a) w b -> reads (bind m k) w b.
Proof. unfold reads, bind. by intros -> ->. Qed.
Lemma reads_ret {A} (a : A) w : reads (ret a) w a.
Proof. done. Qed.
Lemma reads_fread w p d : cur w !! p = Some d -> w_unreadable w p = false -> reads (fread p) w (Ok d).
Proof. unfold reads, fread, cur. by intros -> ->. Qed.
Lemma reads_hash w p d : cur w !! p = Some d -> w_unreadable w p = false -> reads (hashKeyFile p) w (Ok (HashBytes d)).
Proof. intros. eapply reads_bind; [by apply reads_fread|apply reads_ret]. Qed.
Lemma reads_hash_none w p : cur w !! p = None -> reads (hashKeyFile p) w (Err ENotExist).
Proof. unfold cur. intros H. unfold reads, hashKeyFile, bind_res, bind, fread. by rewrite H. Qed.

Lemma reads_LoadManifest w m : man (cur w) m -> readable w -> reads (LoadManifest decodeManifest manifestPath) w (Ok m).
Proof.
  intros (d & Hd & Hm & Hv) [Hr _]. eapply reads_bind; [by apply reads_fread|]. simpl. rewrite Hm, Hv. apply reads_ret.
Qed.
Lemma reads_load w m : man (cur w) m -> readable w -> reads (load decodeManifest required manifestPath) w (Ok m).
Proof. intros. eapply reads_bind; [by apply reads_LoadManifest|apply reads_ret]. Qed.

Lemma reads_stat_all w l : Forall (fun p => is_Some (cur w !! p)) l -> reads (stat_all l) w (l, []).
Proof.
  induction 1 as [|p l [d Hd] _ IH]; [apply reads_ret|]. simpl.
  eapply reads_bind; [reflexivity|]. eapply reads_bind; [exact IH|]. unfold cur in Hd. rewrite Hd. apply reads_ret.
Qed.
Lemma reads_stat_any w l : exists r, reads (stat_all l) w r.
Proof.
  induction l as [|p l [[a b] IH]]; [eexists; apply reads_ret|]. eexists. simpl.
  eapply reads_bind; [reflexivity|]. eapply reads_bind; [exact IH|]. apply reads_ret.
Qed.

(** The content of a file of the set. *)
Definition content (x : gmap path bytes) (p : path) : bytes := default [] (x !! p).

Lemma holds_content x f p : holds x f -> p ∈ required -> f !! p = Some (content x p) /\ x !! p = Some (content x p).
Proof. intros H Hp. destruct (H p Hp) as (d & Hx & Hf). unfold content. by rewrite Hx. Qed.

Lemma reads_inspect_files w m x l : (forall p, p ∈ l -> cur w !! p = Some (content x p) /\ w_unreadable w p = false) ->
  reads (inspect_files m l) w (Ok (map (fun p => key_file m p (HashBytes (content x p))) l)).
Proof.
  induction l as [|p l IH]; intros H; simpl; [apply reads_ret|]. destruct (H p) as [Hp Hr]; [set_solver|].
  eapply reads_bind; [by apply reads_hash|]. simpl. eapply reads_bind; [apply IH; set_solver|apply reads_ret].
Qed.

Lemma reads_read_all w x l files : (forall p, p ∈ l -> cur w !! p = Some (content x p) /\ w_unreadable w p = false) ->
  exists files', reads (read_all l files) w (Ok files') /\
    forall p, files' !! p = if decide (p ∈ l) then Some (content x p) else files !! p.
Proof.
  revert files. induction l as [|p l IH]; intros files H; cbn [read_all].
  - exists files. split; [apply reads_ret|]. intros p. rewrite decide_False by set_solver. done.
  - destruct (H p) as [Hp Hr]; [set_solver|].
    destruct (IH (<[p := content x p]> files)) as (files' & Hf & Hs); [set_solver|].
    exists files'. split; [eapply reads_bind; [by apply reads_fread|]; done|].
    intros q. rewrite Hs. destruct (decide (q ∈ l)); [by rewrite decide_True by set_solver|].
    destruct (decide (q = p)) as [->|]; [rewrite decide_True by set_solver|rewrite decide_False by set_solver]; by simplify_map_eq.
Qed.

(** The counts of resolveStaged when all files agree. *)
Lemma reads_count_applied w m l a u :
  (forall k h, (k, h) ∈ l -> exists d, cur w !! k = Some d /\ w_unreadable w k = false /\ h = HashBytes d) ->
  reads (count_staged m l a u) w ((length l + a)%nat, u).
Proof.
  revert a. induction l as [|[k h] l IH]; intros a H; simpl; [apply reads_ret|].
  destruct (H k h) as (d & Hd & Hr & ->); [set_solver|]. eapply reads_bind; [by apply reads_hash|]. simpl.
  rewrite bool_decide_true by done. rewrite <- Nat.add_succ_r. apply IH. set_solver.
Qed.
Lemma reads_count_untouched w m l a u :
  (forall k h, (k, h) ∈ l -> exists d, cur w !! k = Some d /\ w_unreadable w k = false /\ h <> HashBytes d /\ recorded m k (HashBytes d)) ->
  reads (count_staged m l a u) w (a, (length l + u)%nat).
Proof.
  revert u. induction l as [|[k h] l IH]; intros u H; simpl; [apply reads_ret|].
  destruct (H k h) as (d & Hd & Hr & Hne & (e & He & Hh)); [set_solver|]. eapply reads_bind; [by apply reads_hash|]. simpl.
  rewrite bool_decide_false by done. rewrite He. simpl. rewrite bool_decide_true by done.
  rewrite <- Nat.add_succ_r. apply IH. set_solver.
Qed.

(** resolveStaged of a settled set leaves a manifest that records it and stages nothing. *)
Lemma reads_resolveStaged w m c : man (cur w) m -> readable w -> holds c (cur w) -> settled m c ->
  exists m', reads (resolveStaged m) w (Ok m') /\ mf_Next m' = None /\ all_recorded m' c /\ valid_manifest m' = true.
Proof.
  intros (_ & _ & _ & Hv) [_ Hr] Hc [Hreq Hs]. unfold resolveStaged. pose proof Hv as (Hf & Hfiles & Hst)%valid_manifest_spec.
  unfold staged_required in Hreq. unfold staged_files in *.
  destruct (mf_Next m) as [n|] eqn:Hn; [|exists m; split_and!; [apply reads_ret|done| |done]].
  2:{ destruct Hs as [[Hs _]|Hs]; [done|]. intros p d Hp Hd. by apply (Hs p d). }
  destruct Hs as [[Hrec Hne]|Hall].
  - assert (Hcount : reads (count_staged m (map_to_list (mi_Files n)) 0 0) w (0, length (map_to_list (mi_Files n)) + 0)%nat).
    { apply reads_count_untouched. intros k h Hk%elem_of_map_to_list. destruct (Hc k (Hreq k h Hk)) as (d & Hd & Hcur).
      exists d. split_and!; eauto. by apply Hr, (Hreq k h). }
    rewrite length_map_to_list, Nat.add_0_r in Hcount.
    destruct (decide (size (mi_Files n) = 0%nat)) as [Hz|Hz].
    + eexists. split_and!; [eapply reads_bind; [exact Hcount|]; simpl; rewrite Hz; apply reads_ret|done| |].
      * apply map_size_empty_inv in Hz. intros p d Hp Hd. unfold recorded, with_staged. simpl. rewrite Hz, fmap_empty, (left_id_L ∅ _). by apply Hrec.
      * apply map_size_empty_inv in Hz. apply valid_manifest_spec. unfold with_staged, staged_files. simpl. rewrite Hz, fmap_empty, (left_id_L ∅ _).
        split_and!; auto. apply map_Forall_empty.
    + eexists. split_and!; [eapply reads_bind; [exact Hcount|]; cbv beta iota; rewrite (proj2 (Nat.eqb_neq _ _)) by lia; rewrite Nat.eqb_refl; apply reads_ret|done|done|].
      apply valid_manifest_spec. unfold staged_files. simpl. split_and!; auto. apply map_Forall_empty.
  - assert (Hcount : reads (count_staged m (map_to_list (mi_Files n)) 0 0) w (length (map_to_list (mi_Files n)) + 0, 0)%nat).
    { apply reads_count_applied. intros k h Hk%elem_of_map_to_list. destruct (Hc k (Hreq k h Hk)) as (d & Hd & Hcur).
      exists d. split_and!; eauto; [by apply Hr, (Hreq k h)|]. specialize (Hall k d (Hreq k h Hk) Hd). by rewrite Hk in Hall. }
    rewrite length_map_to_list, Nat.add_0_r in Hcount.
    eexists. split_and!; [eapply reads_bind; [exact Hcount|]; cbv beta iota; rewrite Nat.eqb_refl; apply reads_ret|done| |].
    + intros p d Hp Hd. specialize (Hall p d Hp Hd). unfold recorded, with_staged. simpl.
      destruct (mi_Files n !! p) as [h|] eqn:Hk.
      * eexists. split; [apply lookup_union_Some_l; by rewrite lookup_fmap, Hk|done].
      * destruct Hall as (e & He & Hh). exists e. split; [|done]. rewrite lookup_union_r; [done|]. by rewrite lookup_fmap, Hk.
    + apply valid_manifest_spec. unfold staged_files, with_staged. simpl. split_and!; auto; [|apply map_Forall_empty].
      apply map_Forall_union_2; [|done]. intros k e. rewrite lookup_fmap, fmap_Some. intros (h & Hk & ->). by apply (Hst k).
Qed.

(** * Writing the manifest *)

Section writes.
Context (lossy : Prop) (R : gmap path bytes -> Prop) (calm : Prop) (db : keydb).
Context (R_off : forall f g, off f g -> R f -> R g).
Abbreviation wpc := (wp (crashed D lossy R calm db)).
Abbreviation ready := (ready D lossy R calm db).
Abbreviation stepped := (stepped D lossy R calm db).

Lemma staging_of_staging nonce : is_staging manifestPath (staging_of manifestPath nonce) = true.
Proof.
  unfold is_staging, staging_of, sibling. cbn [p_dir p_name]. rewrite bool_decide_true by done. apply orb_true_iff. right.
  apply HasPrefix_spec. exists (hex_encode nonce). by rewrite app_assoc.
Qed.

Lemma wp_remove_staging p (Q : res io_err unit -> world -> Prop) w :
  ready w -> is_staging manifestPath p = true -> (forall r w', stepped w w' -> off (cur w) (cur w') -> Q r w') -> wpc (fremove p) Q w.
Proof.
  intros Hw Hp HQ. assert (Ho : off (delete p (cur w)) (cur w)) by by apply off_delete. apply wp_fremove; [done| | |].
  - unfold is_staging in Hp. apply andb_true_iff in Hp as [Hp _]. apply bool_decide_eq_true in Hp. rewrite Hp. apply kp.
  - eapply R_off; [apply off_sym, Ho|]. by apply (ready_cur _ _ _ _ _ _ Hw).
  - intros r w' Hs [He|He]; apply HQ; rewrite ?He; auto using off_refl, off_sym.
Qed.

Lemma wp_as_io {A} (m : M (res io_err A)) (Q : res keyset_err A -> world -> Prop) w C :
  wp C m (fun r w' => Q (match r with Ok a => Ok a | Err e => Err (ErrKeyIO e) end) w') w -> wp C (as_io m) Q w.
Proof. intros H. apply wp_bind. eapply wp_mono; [exact H|]. done. Qed.

Lemma wp_writeManifest m (Q : res keyset_err unit -> world -> Prop) w :
  ready w -> R (<[manifestPath := encodeManifest m]> (cur w)) ->
  (forall r w', stepped w w' ->
     (off (cur w) (cur w') /\ r <> Ok () \/ off (<[manifestPath := encodeManifest m]> (cur w)) (cur w')) ->
     (r = Ok () -> f_log (w_fs w') = []) -> (calm -> r = Ok ()) -> Q r w') ->
  wpc (writeManifest encodeManifest manifestPath m) Q w.
Proof.
  intros Hw HR HQ. apply wp_bind, wp_draw_nonce; [done|]. intros nonce w1 Hs1 Hfs1.
  assert (H1 : cur w1 = cur w) by (unfold cur; by rewrite Hfs1).
  pose proof (staging_of_staging nonce) as Hst. set (s := staging_of manifestPath nonce) in *.
  assert (Hdir : p_dir s = D) by apply kp.
  apply wp_bind, wp_fwrite; [apply Hs1|done| |].
  { intros d. eapply R_off; [apply off_sym, off_staging, Hst|]. rewrite H1. by apply (ready_cur _ _ _ _ _ _ Hw). }
  intros r w2 Hs2 He2 Ho2 Hc2. assert (Hoff2 : off (cur w) (cur w2)).
  { destruct He2 as [->|[d ->]]; rewrite H1; [apply off_refl|by apply off_sym, off_staging]. }
  pose proof (stepped_trans _ _ _ _ _ _ _ _ Hs1 Hs2) as Hs12. destruct r as [[]|e].
  2:{ apply wp_bind, wp_remove_staging; [apply Hs2|done|]. intros _ w3 Hs3 Ho3. apply wp_ret, HQ.
      - eauto with kx. - left. split; [by eapply off_trans|done]. - done. - intros C. by specialize (Hc2 C). }
  specialize (Ho2 eq_refl). assert (Hl : cur w2 !! s = Some (encodeManifest m)) by (rewrite Ho2; by simplify_map_eq).
  assert (Hoff : off (<[manifestPath := encodeManifest m]> (cur w)) (<[manifestPath := encodeManifest m]> (delete s (cur w2)))).
  { apply off_insert. eapply off_trans; [exact Hoff2|]. by apply off_sym, off_delete. }
  apply wp_bind, wp_frename; [apply Hs2|done| |].
  { intros d Hd. rewrite Hl in Hd. injection Hd as <-. by eapply R_off; [exact Hoff|]. }
  intros r w3 Hs3 He3 Hc3. destruct r as [[]|e].
  - destruct He3 as [[_ ?]|(d & Hd & He3)]; [done|]. rewrite Hl in Hd. injection Hd as <-.
    apply wp_as_io. rewrite (kp_dir kp). apply wp_fsyncdir; [apply Hs3|]. intros r w4 Hs4 He4 Hl4 Hc4.
    apply HQ; [eauto with kx| | |].
    + right. by rewrite He4, He3.
    + destruct r as [[]|]; [by intros _; apply Hl4|done].
    + intros C. by rewrite (Hc4 C).
  - apply wp_bind, wp_remove_staging; [apply Hs3|done|]. intros _ w4 Hs4 Ho4. apply wp_ret, HQ; [eauto with kx| |done|].
    + destruct He3 as [[He3 _]|(d & Hd & He3)].
      * left. split; [|done]. rewrite He3 in Ho4. by eapply off_trans.
      * right. rewrite Hl in Hd. injection Hd as <-. rewrite He3 in Ho4. by eapply off_trans.
    + intros C. specialize (Hc3 C). rewrite Hl in Hc3. by discriminate Hc3.
Qed.

(** A manifest that records [x] and stages nothing, or stages [N] over it. *)
Lemma wp_CommitManifest op files x m (Q : res keyset_err unit -> world -> Prop) w :
  ready w -> readable w -> man (cur w) m -> holds x (cur w) ->
  (forall p d, files !! p = Some d -> x !! p = Some d) ->
  (forall p d, p ∈ required -> files !! p = None -> x !! p = Some d -> recorded m p (HashBytes d)) ->
  (forall m', rest x (<[manifestPath := encodeManifest m']> (cur w)) -> R (<[manifestPath := encodeManifest m']> (cur w))) ->
  (forall r w', stepped w w' -> (off (cur w) (cur w') /\ r <> Ok () \/ rest x (cur w') ) -> (r = Ok () -> f_log (w_fs w') = []) ->
     (forall p, p <> manifestPath -> is_staging manifestPath p = false -> cur w' !! p = cur w !! p) -> (calm -> r = Ok ()) -> Q r w') ->
  wpc (CommitManifest encodeManifest decodeManifest required manifestPath op files) Q w.
Proof.
  intros Hw Hr Hm Hx Hf Hrec HR HQ. unfold CommitManifest, bind_res. apply wp_bind. eapply wp_reads; [by apply reads_load|].
  cbv beta iota. set (m' := committed op files m).
  assert (Hrest : rest x (<[manifestPath := encodeManifest m']> (cur w))).
  { exists m'. split_and!; [apply man_insert| |].
    - destruct Hm as (_ & _ & _ & (Hfm & Hfiles & _)%valid_manifest_spec). apply valid_manifest_spec. split_and!; auto; [|apply map_Forall_empty].
      apply map_Forall_union_2; [|done]. intros k e. unfold hashes. rewrite !lookup_fmap.
      destruct (files !! k); simpl; intros [= <-]. apply validHash_HashBytes.
    - by apply holds_manifest.
    - apply settled_recorded; [done|]. intros p d Hp Hd. unfold recorded, m'. simpl. destruct (files !! p) as [d'|] eqn:Hk.
      + eexists. split; [apply lookup_union_Some_l; unfold hashes; rewrite !lookup_fmap, Hk; reflexivity|].
        simpl. rewrite (Hf p d' Hk) in Hd. by injection Hd as <-.
      + destruct (Hrec p d Hp Hk Hd) as (e & He & Hh). exists e. split; [|done]. rewrite lookup_union_r; [done|].
        unfold hashes. by rewrite !lookup_fmap, Hk. }
  apply wp_writeManifest; [done|by apply HR|]. intros r w' Hs He Hl Hc. apply HQ; auto.
  - destruct He as [?|He]; [by left|right]. by eapply rest_off.
  - intros p Hp Hst. destruct He as [[He _]|He]; rewrite <- He by done; [done|]. by rewrite lookup_insert_ne.
Qed.

Lemma wp_StageManifest op c N m (Q : res keyset_err unit -> world -> Prop) w :
  ready w -> readable w -> man (cur w) m -> holds c (cur w) -> settled m c ->
  (forall p d, N !! p = Some d -> p ∈ required /\ forall d', c !! p = Some d' -> HashBytes d <> HashBytes d') ->
  (forall m', rest c (<[manifestPath := encodeManifest m']> (cur w)) -> R (<[manifestPath := encodeManifest m']> (cur w))) ->
  (forall r w', stepped w w' -> rest c (cur w') ->
     (r = Ok () -> f_log (w_fs w') = [] /\ exists m', man (cur w') m' /\ in_progress m' c N) ->
     (forall p, p <> manifestPath -> is_staging manifestPath p = false -> cur w' !! p = cur w !! p) -> (calm -> r = Ok ()) -> Q r w') ->
  wpc (StageManifest encodeManifest decodeManifest required manifestPath op N) Q w.
Proof.
  intros Hw Hr Hm Hc Hs HN HR HQ. unfold StageManifest, bind_res. apply wp_bind. eapply wp_reads; [by apply reads_load|].
  cbv beta iota. destruct (reads_resolveStaged w m c Hm Hr Hc Hs) as (m1 & Hm1 & Hn1 & Hrec & (Hf1 & Hv1 & _)%valid_manifest_spec).
  apply wp_bind. eapply wp_reads; [exact Hm1|]. cbv beta iota.
  set (m' := mkManifest _ _ _ (Some _)).
  assert (Hprog : in_progress m' c N) by (split_and!; [exact Hrec|done|done]).
  assert (Hman : forall f, man (<[manifestPath := encodeManifest m']> f) m').
  { intros f. apply man_insert, valid_manifest_spec. split_and!; [exact Hf1|exact Hv1|].
    intros p h. unfold staged_files, m', hashes. simpl. rewrite lookup_fmap. destruct (N !! p); simpl; intros [= <-]. apply validHash_HashBytes. }
  assert (Hset : settled m' c).
  { split.
    - intros p h. unfold staged_files, m', hashes. simpl. rewrite lookup_fmap. destruct (N !! p) eqn:Hp; simpl; [|done]. intros _. by eapply HN.
    - left. split; [exact Hrec|]. intros p h d. unfold staged_files, m', hashes. simpl. rewrite lookup_fmap.
      destruct (N !! p) eqn:Hp; simpl; [|done]. intros [= <-] Hd. by eapply HN. }
  assert (Hrest : rest c (<[manifestPath := encodeManifest m']> (cur w))) by (exists m'; split_and!; auto using holds_manifest).
  apply wp_writeManifest; [done|by apply HR|]. intros r w' Hst He Hl Hcm. apply HQ; auto.
  - destruct He as [[He _]|He]; [|by eapply rest_off]. eapply rest_off; [exact He|]. by exists m.
  - intros ->. split; [auto|]. exists m'. split; [|done]. destruct He as [[_ ?]|He]; [done|]. eapply man_off; [exact He|apply Hman].
  - intros p Hp Hstg. destruct He as [[He _]|He]; rewrite <- He by done; [done|]. by rewrite lookup_insert_ne.
Qed.
End writes.

(** * Classification *)

Lemma key_file_foreign m p d : recorded m p (HashBytes d) -> is_foreign (key_file m p (HashBytes d)) = false /\ is_unrecorded (key_file m p (HashBytes d)) = false.
Proof. intros (e & He & Hh). unfold is_foreign, is_unrecorded, key_file. simpl. rewrite He, Hh. simpl. by rewrite bool_decide_true. Qed.
Lemma key_file_staged m p d : staged_files m !! p = Some (HashBytes d) ->
  is_foreign (key_file m p (HashBytes d)) = false /\ is_unrecorded (key_file m p (HashBytes d)) = false /\ kf_MatchesStaged (key_file m p (HashBytes d)) = true.
Proof.
  unfold staged_files, is_foreign, is_unrecorded, key_file. simpl. destruct (mf_Next m) as [n|]; [|done].
  intros ->. simpl. rewrite bool_decide_true by done. by rewrite !andb_false_r.
Qed.

(** No file of [x] is foreign or unrecorded for [m]. *)
Definition known (m : Manifest) (x : gmap path bytes) : Prop := forall p, p ∈ required ->
  recorded m p (HashBytes (content x p)) \/ staged_files m !! p = Some (HashBytes (content x p)).

Lemma known_filter m x (P : KeySetFile -> bool) : known m x ->
  (forall p, is_foreign (key_file m p (HashBytes (content x p))) = false /\ is_unrecorded (key_file m p (HashBytes (content x p))) = false ->
     P (key_file m p (HashBytes (content x p))) = false) ->
  List.filter P (map (fun p => key_file m p (HashBytes (content x p))) required) = [].
Proof.
  intros Hk HP. apply filter_Forall_false, Forall_forall. intros f (p & -> & Hp)%elem_of_map. apply HP.
  destruct (Hk p Hp) as [H|H]; [by apply key_file_foreign|by apply key_file_staged in H as (? & ? & _)].
Qed.

(** The files as boot sees them. *)
Definition seen (m : Manifest) (x : gmap path bytes) : list KeySetFile := map (fun p => key_file m p (HashBytes (content x p))) required.

(** Inspection of a set whose files are known: only the staged operation is left to classify. *)
Lemma reads_InspectKeySet w m x intent finish : man (cur w) m -> readable w -> holds x (cur w) -> known m x ->
  match mf_Next m with
  | None => intent = IntentNone /\ finish = []
  | Some n => reads (classifyIntent n (seen m x)) w (Ok (intent, finish))
  end ->
  exists left, reads (InspectKeySet decodeManifest required manifestPath) w
    (Ok (mkState false (Some m) None (seen m x) intent finish left [])).
Proof.
  intros Hm Hr Hx Hk Hcl. destruct (reads_stat_any w (map pending required)) as [[left miss] Hleft]. exists left.
  assert (Hne : forall (A : Type) (a b : A), match required with [] => a | _ :: _ => b end = b).
  { intros A a b. pose proof (kp_nonempty kp) as Hn. by destruct required. }
  unfold InspectKeySet. rewrite Hne.
  eapply reads_bind; [apply reads_stat_all, Forall_forall; intros p Hp; destruct (Hx p Hp) as (d & _ & ->); eauto|].
  cbv beta iota. rewrite Hne.
  eapply reads_bind; [by apply reads_LoadManifest|]. cbv beta iota.
  eapply reads_bind; [apply (reads_inspect_files w m x)|].
  { intros p Hp. split; [by eapply holds_content|by apply Hr]. }
  cbv beta iota. fold (seen m x). eapply reads_bind; [exact Hleft|]. cbv beta iota.
  assert (Hf : List.filter is_foreign (seen m x) = []) by (apply known_filter; tauto).
  assert (Hu : List.filter is_unrecorded (seen m x) = []) by (apply known_filter; tauto).
  rewrite Hf, Hu. destruct (mf_Next m) as [n|]; [|destruct Hcl as [-> ->]; apply reads_ret].
  eapply reads_bind; [exact Hcl|]. apply reads_ret.
Qed.

Lemma seen_filter m x n (P : bool -> bool) : mf_Next m = Some n ->
  List.filter (fun f => named n f && P (kf_MatchesStaged f)) (seen m x) =
  map (fun p => key_file m p (HashBytes (content x p)))
    (List.filter (fun p => negb (is_none (mi_Files n !! p)) && P (bool_decide (default [] (mi_Files n !! p) = HashBytes (content x p)))) required).
Proof.
  intros Hn. unfold seen. induction required as [|p l IH]; [done|]. cbn [map List.filter].
  assert (Hp : named n (key_file m p (HashBytes (content x p))) && P (kf_MatchesStaged (key_file m p (HashBytes (content x p)))) =
    negb (is_none (mi_Files n !! p)) && P (bool_decide (default [] (mi_Files n !! p) = HashBytes (content x p)))).
  { unfold named, key_file. simpl. by rewrite Hn. }
  rewrite Hp, IH.
  by destruct (negb (is_none (mi_Files n !! p)) && P (bool_decide (default [] (mi_Files n !! p) = HashBytes (content x p)))).
Qed.

(** The staged files of [x] that are not yet as staged. *)
Definition old_files (n : ManifestIntent) (x : gmap path bytes) : list path :=
  List.filter (fun p => negb (is_none (mi_Files n !! p)) && negb (bool_decide (default [] (mi_Files n !! p) = HashBytes (content x p)))) required.
Definition new_files (n : ManifestIntent) (x : gmap path bytes) : list path :=
  List.filter (fun p => negb (is_none (mi_Files n !! p)) && bool_decide (default [] (mi_Files n !! p) = HashBytes (content x p))) required.

Lemma elem_of_old n x p : p ∈ old_files n x <-> p ∈ required /\ exists h, mi_Files n !! p = Some h /\ h <> HashBytes (content x p).
Proof.
  unfold old_files. rewrite list_elem_of_In, filter_In, <- list_elem_of_In. destruct (mi_Files n !! p) as [h|]; simpl.
  - destruct (bool_decide_reflect (h = HashBytes (content x p))); naive_solver.
  - naive_solver.
Qed.
Lemma elem_of_new n x p : p ∈ new_files n x <-> p ∈ required /\ mi_Files n !! p = Some (HashBytes (content x p)).
Proof.
  unfold new_files. rewrite list_elem_of_In, filter_In, <- list_elem_of_In. destruct (mi_Files n !! p) as [h|]; simpl.
  - destruct (bool_decide_reflect (h = HashBytes (content x p))); naive_solver.
  - naive_solver.
Qed.

Lemma reads_finish_plan w n m x l :
  (forall p, p ∈ l -> exists d, cur w !! (pending p) = Some d /\ w_unreadable w (pending p) = false /\ mi_Files n !! p = Some (HashBytes d)) ->
  reads (finish_plan n (map (fun p => key_file m p (HashBytes (content x p))) l)) w ([], map (fun p => (pending p, p)) l).
Proof.
  induction l as [|p l IH]; intros H; simpl; [apply reads_ret|]. destruct (H p) as (d & Hd & Hr & Hn); [set_solver|].
  eapply reads_bind; [by apply reads_hash|]. eapply reads_bind; [apply IH; set_solver|]. cbv beta iota.
  rewrite Hn. simpl. rewrite bool_decide_true by done. apply reads_ret.
Qed.

(** How boot classifies a staged operation: nothing of it left to do, nothing of it done, or a plan that finishes it. *)
Lemma reads_classifyIntent w m n x : mf_Next m = Some n ->
  (old_files n x <> [] -> new_files n x <> [] -> forall p, p ∈ old_files n x ->
     exists d, cur w !! (pending p) = Some d /\ w_unreadable w (pending p) = false /\ mi_Files n !! p = Some (HashBytes d)) ->
  exists intent finish, reads (classifyIntent n (seen m x)) w (Ok (intent, finish)) /\
    ((intent = IntentCompleted /\ finish = [] /\ old_files n x = []) \/
     (intent = IntentAbandoned /\ finish = [] /\ new_files n x = [] /\ old_files n x <> []) \/
     (intent = IntentFinishable /\ finish = map (fun p => (pending p, p)) (old_files n x) /\ old_files n x <> [] /\ new_files n x <> [])).
Proof.
  intros Hn Hp. unfold classifyIntent. rewrite (seen_filter m x n negb Hn), (seen_filter m x n (fun b => b) Hn).
  fold (old_files n x) (new_files n x). destruct (old_files n x) as [|p0 l0] eqn:Eo; [do 2 eexists; split; [apply reads_ret|]; auto|].
  destruct (new_files n x) as [|p1 l1] eqn:En; [do 2 eexists; split; [apply reads_ret|]; right; left; done|].
  do 2 eexists. split.
  - eapply reads_bind; [apply (reads_finish_plan w n m x (p0 :: l0)); by apply Hp|]. apply reads_ret.
  - right; right. done.
Qed.

(** * Reconciliation *)

Section reconcile.
Context (c N : gmap path bytes) (lossy calm : Prop) (db : keydb) (K : gmap path bytes -> Prop).
Context (K_off : forall f g, off f g -> K f -> K g) (K_man : forall f d, K f -> K (<[manifestPath := d]> f)).
Context (K_move : forall f p d, p ∈ required -> N !! p = Some d -> f !! (pending p) = Some d -> K f -> K (<[p := d]> (delete (pending p) f))).
(** The operation replaces required files by contents the manifest can tell from the old ones. *)
Context (HN : forall p d, N !! p = Some d -> p ∈ required /\ forall d', c !! p = Some d' -> HashBytes d <> HashBytes d').
Abbreviation R := (Recov K c N).
(** The old or the new set, at rest. *)
Definition at_rest (x f : gmap path bytes) : Prop := (x = c \/ x = N ∪ c) /\ K f /\ rest x f.

Lemma at_rest_R x f : at_rest x f -> R f.
Proof. unfold Recov. by intros ([-> | ->] & ? & ?); auto. Qed.
Lemma at_rest_rest x f : at_rest x f -> rest x f.
Proof. by intros (_ & _ & ?). Qed.
Lemma at_rest_off x f g : off f g -> at_rest x f -> at_rest x g.
Proof. intros Ho (? & ? & ?). split_and!; eauto using rest_off. Qed.
Abbreviation wpc := (wp (crashed D lossy R calm db)).
Abbreviation ready := (ready D lossy R calm db).
Abbreviation stepped := (stepped D lossy R calm db).
Abbreviation Reconcile := (ReconcileKeySet encodeManifest decodeManifest required manifestPath dekPath aside).

Lemma readable_stepped w w' : stepped w w' -> readable w -> readable w'.
Proof. intros [Hu _]. unfold readable. by rewrite Hu. Qed.

Lemma wp_remove_staging_files l (r : ReconcileResult) (Q : ReconcileResult -> world -> Prop) w :
  ready w -> Forall (fun p => is_staging manifestPath p = true) l ->
  (forall r' w', rr_Renamed r' = rr_Renamed r -> stepped w w' -> off (cur w) (cur w') -> Q r' w') -> wpc (remove_staging l r) Q w.
Proof.
  intros Hw Hl. revert w r Hw. induction Hl as [|p l Hp _ IH]; intros w r Hw HQ; simpl.
  - apply wp_ret, HQ; [done|by apply stepped_refl|apply off_refl].
  - apply wp_bind, (wp_remove_staging lossy R calm db (Recov_off K c N K_off)); [done|done|]. intros e w1 Hs Ho. apply IH; [apply Hs|].
    intros r' w' Hr Hs' Ho'. apply HQ; [done|by eapply stepped_trans|by eapply off_trans].
Qed.

Lemma wp_removeManifestStagingFiles (r : ReconcileResult) (Q : ReconcileResult -> world -> Prop) w :
  ready w -> (forall r' w', rr_Renamed r' = rr_Renamed r -> stepped w w' -> off (cur w) (cur w') -> Q r' w') ->
  wpc (removeManifestStagingFiles manifestPath r) Q w.
Proof.
  intros Hw HQ. apply wp_bind, wp_freaddir. intros l _. apply wp_remove_staging_files; auto.
  apply Forall_forall. intros p Hp. by apply list_elem_of_In, filter_In in Hp as [_ Hp].
Qed.

(** What boot leaves: the old or the new set at rest; and it does succeed when nothing fails. *)
Definition boot_post (w : world) (r : res keyset_err ReconcileResult) (w' : world) : Prop :=
  stepped w w' /\ (calm -> exists a, r = Ok a) /\ forall a, r = Ok a -> exists x, at_rest x (cur w').

Lemma K_frame f f' : (forall p, p <> manifestPath -> is_staging manifestPath p = false -> f' !! p = f !! p) ->
  is_Some (f' !! manifestPath) -> K f -> K f'.
Proof.
  intros Hsame [d Hd] HK. apply (K_off (<[manifestPath := d]> f)); [|by apply K_man]. intros p Hp.
  destruct (decide (p = manifestPath)) as [->|]; [by simplify_map_eq|]. rewrite lookup_insert_ne by done. by rewrite Hsame.
Qed.

(** The commit of an operation all of whose files are in place. *)
Lemma wp_record_next st m n x r w :
  x = c \/ x = N ∪ c -> ready w -> readable w -> man (cur w) m -> holds x (cur w) -> mf_Next m = Some n ->
  (exists y, ks_Files st = seen m y) ->
  (forall p d, p ∈ required -> mi_Files n !! p = None -> x !! p = Some d -> recorded m p (HashBytes d)) ->
  (ks_Intent st = IntentFinishable \/ at_rest x (cur w)) ->
  wpc (record_next encodeManifest decodeManifest required manifestPath st n r) (boot_post w) w.
Proof.
  intros Hx Hw Hr Hm Hh Hn Hst Hrec Hi.
  assert (Hpaths : forall p, p ∈ map kf_Path (List.filter (named n) (ks_Files st)) <-> p ∈ required /\ mi_Files n !! p <> None).
  { destruct Hst as [y ->]. intros p. unfold seen. rewrite elem_of_map. split.
    - intros (f & -> & Hf). apply list_elem_of_In, filter_In in Hf as [Hf Hnm]. apply list_elem_of_In, elem_of_map in Hf as (q & -> & Hq).
      unfold named in Hnm. simpl in *. split; [done|]. by destruct (mi_Files n !! q).
    - intros [Hp Hnm]. exists (key_file m p (HashBytes (content y p))). split; [done|]. apply list_elem_of_In, filter_In. split.
      + apply list_elem_of_In, elem_of_map. eauto. + unfold named. simpl. by destruct (mi_Files n !! p). }
  destruct (reads_read_all w x (map kf_Path (List.filter (named n) (ks_Files st))) ∅) as (files & Hread & Hfiles).
  { intros p [Hp _]%Hpaths. split; [by eapply holds_content|by apply Hr]. }
  unfold record_next, bind_res. apply wp_bind. eapply wp_reads; [exact Hread|]. cbv beta iota. apply wp_bind.
  assert (HK : K (cur w)) by apply (ready_cur _ _ _ _ _ _ Hw).
  assert (HR : forall f, (K (cur w) -> K f) -> rest x f -> at_rest x f) by (intros f ? ?; split_and!; auto).
  eapply (wp_CommitManifest lossy R calm db (Recov_off K c N K_off)); eauto.
  - intros p d. rewrite Hfiles. case_decide as Hp; [|set_solver]. intros [= <-]. apply Hpaths in Hp as [Hp _]. by eapply holds_content.
  - intros p d Hp Hf Hd. apply Hrec; auto. rewrite Hfiles in Hf. case_decide as Hp'; [done|].
    destruct (mi_Files n !! p) eqn:E; [|done]. destruct Hp'. apply Hpaths. by rewrite E.
  - intros m' Hrest. eapply at_rest_R, HR; [|exact Hrest]. apply K_man.
  - intros e w' Hs He _ Hsame Hc.
    assert (Hbad : e <> Ok () -> forall e', boot_post w (Err e') w') by (intros Hne e'; split_and!; [done|intros C; by specialize (Hc C)|done]).
    assert (Hdone : at_rest x (cur w') -> forall a : ReconcileResult, boot_post w (Ok a) w') by (intros Hrest a; split_and!; eauto).
    assert (Hcase : ks_Intent st = IntentFinishable /\ e <> Ok () \/ at_rest x (cur w')).
    { destruct He as [[He Hne]|He].
      - destruct Hi as [Hi|Hi]; [by left|right]. by eapply at_rest_off.
      - right. apply HR; [|done]. apply K_frame; [done|]. destruct He as (m1 & (d & -> & _) & _). eauto. }
    destruct Hcase as [[Hi' Hne]|Hrest].
    + destruct e as [[]|e]; [done|]. rewrite Hi'. apply wp_ret. auto.
    + destruct e as [[]|e]; [apply wp_ret; auto|]. by destruct (ks_Intent st); apply wp_ret; auto.
Qed.

(** The renames still to do are those of [l]. *)
Definition finishing (l : list path) (f : gmap path bytes) : Prop := forall p, p ∈ required ->
  match N !! p with
  | Some d' => (p ∈ l /\ is_Some (c !! p) /\ f !! p = c !! p /\ f !! (pending p) = Some d') \/ ((p ∉ l) /\ f !! p = Some d')
  | None => is_Some (c !! p) /\ f !! p = c !! p
  end.

Lemma finishing_partly l f : finishing l f -> partly c N f.
Proof.
  intros H p Hp. specialize (H p Hp). destruct (N !! p) as [d'|].
  - destruct H as [(_ & [d Hd] & Hf & Hpend)|[_ Hf]]; [exists d; rewrite Hf; auto|exists d'; auto].
  - destruct H as [[d Hd] Hf]. exists d. by rewrite Hf.
Qed.
Lemma finishing_done f : finishing [] f -> holds (N ∪ c) f.
Proof.
  intros H p Hp. specialize (H p Hp). destruct (N !! p) as [d'|] eqn:E.
  - destruct H as [(Hin & _)|[_ Hf]]; [by apply not_elem_of_nil in Hin|]. exists d'. split; [by apply lookup_union_Some_l|done].
  - destruct H as [[d Hd] Hf]. exists d. rewrite Hf. split; [|done]. by rewrite lookup_union_r.
Qed.
Lemma finishing_step p l f d : p ∈ required -> p ∉ l -> N !! p = Some d -> finishing (p :: l) f ->
  finishing l (<[p := d]> (delete (pending p) f)).
Proof.
  intros Hp Hl Hd H q Hq. specialize (H q Hq). destruct (decide (q = p)) as [->|Hne].
  - rewrite Hd. right. split; [done|by simplify_map_eq].
  - assert (pending p <> q) by (intros <-; by apply (kp_pending_req kp p)).
    assert (p <> pending q) by (intros ->; by apply (kp_pending_req kp q)).
    assert (pending p <> pending q) by (intros ?%sibling_inj; done).
    rewrite lookup_insert_ne, lookup_delete_ne by done. destruct (N !! q); [|done].
    rewrite lookup_insert_ne, lookup_delete_ne by done. destruct H as [(Hin & Hx)|[Hnin Hx]]; [left|right]; (split; [|done]).
    + by apply elem_of_cons in Hin as [?|?].
    + intros Hin. apply Hnin, elem_of_cons. by right.
Qed.
Lemma finishing_manifest l f m : K f -> man f m -> in_progress m c N -> finishing l f -> R f.
Proof. intros. split; [done|]. right; right. exists m. split_and!; auto. by eapply finishing_partly. Qed.

Lemma man_move f m p d : p ∈ required -> man f m -> man (<[p := d]> (delete (pending p) f)) m.
Proof.
  intros Hp (x & Hx & ?). exists x. split; [|done]. rewrite lookup_insert_ne, lookup_delete_ne; [done|by apply (kp_pending_manifest kp)|].
  intros ->. by apply (kp_manifest kp).
Qed.

Lemma wp_finish_renames m l r (Q : res keyset_err ReconcileResult -> world -> Prop) w :
  ready w -> NoDup l -> (forall p, p ∈ l -> p ∈ required /\ is_Some (N !! p)) -> man (cur w) m -> in_progress m c N -> finishing l (cur w) ->
  (forall e w', stepped w w' -> ~ calm -> Q (Err e) w') ->
  (forall r' w', stepped w w' -> man (cur w') m -> finishing [] (cur w') -> Q (Ok r') w') ->
  wpc (mfold finish_rename (map (fun p => (pending p, p)) l) r) Q w.
Proof.
  intros Hw Hnd. revert w r Hw. induction Hnd as [|p l Hp _ IH]; intros w r Hw Hl Hm Hpr Hf HE HO; simpl.
  - apply wp_ret, HO; auto. by apply stepped_refl.
  - destruct (Hl p) as [Hreq [d Hd]]; [set_solver|].
    assert (Hpend : cur w !! (pending p) = Some d).
    { specialize (Hf p Hreq). rewrite Hd in Hf. destruct Hf as [(_ & _ & _ & ?)|[? _]]; [done|set_solver]. }
    pose proof (finishing_step p l (cur w) d Hreq Hp Hd Hf) as Hstep.
    apply wp_bind_res. unfold finish_rename. apply wp_bind_res, wp_as_io. cbn [fst snd].
    apply wp_frename; [done|exact (kp_req_dir kp p Hreq)| |].
    { intros d' Hd'. simplify_eq. eapply finishing_manifest; eauto using man_move. apply K_move; auto. apply (ready_cur _ _ _ _ _ _ Hw). }
    intros e w1 Hs1 He1 Hc1. destruct e as [[]|e]; [|apply HE; [done|]; intros C; specialize (Hc1 C); rewrite Hpend in Hc1; by discriminate Hc1].
    destruct He1 as [[_ ?]|(d' & Hd' & He1)]; [done|]. simplify_eq.
    apply wp_bind_res, wp_as_io. rewrite (kp_req_dir kp p Hreq). apply wp_fsyncdir; [apply Hs1|].
    intros e w2 Hs2 He2 _ Hc2. pose proof (stepped_trans _ _ _ _ _ _ _ _ Hs1 Hs2) as Hs12.
    destruct e as [[]|e]; [|apply HE; [done|]; intros C; by specialize (Hc2 C)].
    apply wp_ret, IH; rewrite ?He2, ?He1; auto using man_move; [apply Hs2|set_solver| |].
    + intros e w' Hs HC. apply HE; [by eapply stepped_trans|done].
    + intros r' w' Hs ? ?. apply HO; auto. by eapply stepped_trans.
Qed.

(** A partly done operation is at rest, or has both done and undone files. *)
Lemma partly_cases m n f : K f -> mf_Next m = Some n -> man f m -> partly c N f -> in_progress m c N ->
  holds f f /\ known m f /\ (old_files n f = [] -> at_rest (N ∪ c) f) /\ (new_files n f = [] -> at_rest c f) /\ finishing (old_files n f) f.
Proof.
  intros HK Hn Hm Hpa (Hrec & _ & Hst). unfold staged_files in Hst. rewrite Hn in Hst.
  assert (Hlk : forall p, mi_Files n !! p = HashBytes <$> N !! p) by (intros p; by rewrite Hst, lookup_fmap).
  assert (Hcont : forall p d, f !! p = Some d -> content f p = d) by (intros p d Hd; unfold content; by rewrite Hd).
  assert (Hfin : finishing (old_files n f) f).
  { intros p Hp. destruct (Hpa p Hp) as (d & Hd & HN'). destruct (N !! p) as [d'|] eqn:E; [|rewrite Hd, HN'; eauto].
    destruct HN' as [->|[Hcd Hpend]].
    - right. split; [|done]. rewrite elem_of_old, Hlk, E. simpl. rewrite (Hcont p d') by done. intros (_ & h & [= <-] & ?). done.
    - left. split_and!; eauto; [|by rewrite Hd]. rewrite elem_of_old, Hlk, E. split; [done|]. eexists. split; [done|].
      rewrite (Hcont p d) by done. by eapply HN. }
  assert (Hreq : staged_required m) by (intros p h; unfold staged_files; rewrite Hn, Hlk; destruct (N !! p) eqn:E; [|done]; intros _; by eapply HN).
  split_and!; auto.
  - intros p Hp. destruct (Hpa p Hp) as (d & Hd & _). eauto.
  - intros p Hp. unfold staged_files. rewrite Hn, Hlk. destruct (Hpa p Hp) as (d & Hd & HN'). rewrite (Hcont p d Hd).
    destruct (N !! p) as [d'|]; [|left; by apply Hrec]. destruct HN' as [->|[Hcd _]]; [by right|left; by apply Hrec].
  - intros Hold. rewrite Hold in Hfin. split_and!; [by right|done|]. exists m. split_and!; [done|by apply finishing_done|]. split; [done|]. right.
    intros p d Hp Hd. unfold staged_files. rewrite Hn, Hlk. destruct (N !! p) as [d'|] eqn:E; simpl.
    + rewrite (lookup_union_Some_l _ _ _ _ E) in Hd. by injection Hd as ->.
    + rewrite lookup_union_r in Hd by done. by apply Hrec.
  - intros Hnew. assert (Hf : forall p, p ∈ required -> exists d, c !! p = Some d /\ f !! p = Some d).
    { intros p Hp. destruct (Hpa p Hp) as (d & Hd & HN'). exists d. split; [|done]. destruct (N !! p) as [d'|] eqn:E; [|done].
      destruct HN' as [->|[? _]]; [|done]. assert (p ∈ new_files n f) as Hin; [|rewrite Hnew in Hin; set_solver].
      rewrite elem_of_new, Hlk, E, (Hcont p d'); auto. }
    split_and!; [by left|done|]. exists m. split_and!; [done|done|]. split; [done|]. left. split; [done|]. intros p h d. unfold staged_files. rewrite Hn, Hlk.
    destruct (N !! p) as [d'|] eqn:E; [|done]. intros [= <-] Hd. by eapply HN.
Qed.

Lemma settled_known m x f : holds x f -> settled m x -> known m x.
Proof.
  intros Hh [_ [[Hr _]|Hs]] p Hp; destruct (holds_content x f p Hh Hp) as [_ Hc].
  - left. by apply Hr.
  - specialize (Hs p _ Hp Hc). destruct (staged_files m !! p) as [h|] eqn:E; [right; by rewrite Hs|by left].
Qed.

(** What follows the settling of the intent never fails. *)
Lemma wp_after_settle m x intent finish left r w w0 :
  stepped w0 w -> wpc (settle_intent encodeManifest decodeManifest required manifestPath (mkState false (Some m) None (seen m x) intent finish left []) m r) (boot_post w0) w ->
  wpc (let?! r := settle_intent encodeManifest decodeManifest required manifestPath (mkState false (Some m) None (seen m x) intent finish left []) m r in
       let! u := ret (None : option (res keyset_err unit)) in
       match u with
       | Some (Err _) => ret (Ok (warn [WAdoptFailed []] r))
       | Some (Ok _) => ret (Ok (warn (leftover_warnings dekPath r left) r))
       | None => ret (Ok (warn (leftover_warnings dekPath r left) r))
       end) (boot_post w0) w.
Proof.
  intros Hs H. apply wp_bind_res. eapply wp_mono; [exact H|]. intros [a|e] w'; [|done].
  intros (Hst & _ & Hrest). apply wp_bind, wp_ret, wp_ret. split_and!; eauto.
Qed.

Lemma boot_post_stepped w w1 : stepped w w1 -> forall r w', boot_post w1 r w' -> boot_post w r w'.
Proof. intros Hs r w' (? & ? & ?). split_and!; auto. by eapply stepped_trans. Qed.

(** Boot from a set at rest: nothing changes but the manifest's record of it. *)
Lemma wp_Reconcile_rest x w : ready w -> readable w -> at_rest x (cur w) -> wpc Reconcile (boot_post w) w.
Proof.
  intros Hw Hr Hx. destruct (at_rest_rest _ _ Hx) as (m & Hm & Hh & Hs). pose proof (settled_known m x _ Hh Hs) as Hk.
  assert (Hcl : exists intent, match mf_Next m with
    | None => intent = IntentNone
    | Some n => reads (classifyIntent n (seen m x)) w (Ok (intent, [])) /\ (intent = IntentAbandoned \/ intent = IntentCompleted)
    end).
  { destruct (mf_Next m) as [n|] eqn:Hn; [|by exists IntentNone].
    destruct (reads_classifyIntent w m n x Hn) as (intent & finish & Hc & Hcase).
    - intros Ho Hw' p. destruct Hs as [Hreq [[Hrec Hne]|Hall]].
      + destruct (new_files n x) as [|q l] eqn:E; [done|]. assert (q ∈ new_files n x) as Hq by (rewrite E; set_solver).
        apply elem_of_new in Hq as [Hq Hq']. exfalso. eapply (Hne q); [unfold staged_files; by rewrite Hn|by eapply holds_content|done].
      + rewrite elem_of_old. intros (Hp & h & Hp' & Hne). exfalso. apply Hne. destruct (holds_content x _ p Hh Hp) as [_ Hc].
        specialize (Hall p _ Hp Hc). unfold staged_files in Hall. rewrite Hn, Hp' in Hall. done.
    - exists intent. destruct Hcase as [(-> & -> & _)|[(-> & -> & _)|(_ & _ & Ho & Hnw)]]; [by auto..|]. exfalso.
      destruct Hs as [Hreq [[Hrec Hne]|Hall]].
      + destruct (new_files n x) as [|q l] eqn:E; [done|]. assert (q ∈ new_files n x) as Hq by (rewrite E; set_solver).
        apply elem_of_new in Hq as [Hq Hq']. eapply (Hne q); [unfold staged_files; by rewrite Hn|by eapply holds_content|done].
      + destruct (old_files n x) as [|q l] eqn:E; [done|]. assert (q ∈ old_files n x) as Hq by (rewrite E; set_solver).
        apply elem_of_old in Hq as (Hq & h & Hq' & Hne). apply Hne. destruct (holds_content x _ q Hh Hq) as [_ Hc'].
        specialize (Hall q _ Hq Hc'). unfold staged_files in Hall. by rewrite Hn, Hq' in Hall. }
  destruct Hcl as [intent Hcl].
  destruct (reads_InspectKeySet w m x intent [] Hm Hr Hh Hk) as [left Hi].
  { destruct (mf_Next m); [by destruct Hcl|done]. }
  unfold ReconcileKeySet. apply wp_bind_res. eapply wp_reads; [exact Hi|]. cbn [ks_Fresh].
  apply wp_bind, wp_removeManifestStagingFiles; [done|]. intros r1 w1 _ Hs1 Ho1. cbn [ks_Manifest ks_Unrecorded ks_Leftovers].
  assert (Hm1 : man (cur w1) m) by by eapply man_off. assert (Hh1 : holds x (cur w1)) by by eapply holds_off.
  assert (Hrest1 : at_rest x (cur w1)) by by eapply at_rest_off.
  apply wp_after_settle; [done|]. eapply wp_mono; [|by apply boot_post_stepped]. unfold settle_intent. cbn [ks_Intent].
  assert (Hret : wpc (ret (Ok r1)) (boot_post w1) w1).
  { apply wp_ret. split_and!; [by apply stepped_refl, Hs1|eauto|eauto]. }
  destruct (mf_Next m) as [n|] eqn:Hn; [|by subst intent]. destruct Hcl as [_ [->| ->]]; [done|].
  eapply (wp_record_next _ m n x); eauto; [apply Hrest1|apply Hs1|by eapply readable_stepped|].
  intros p d Hp Hnn Hd. destruct Hs as [_ [[Hrec _]|Hall]]; [by apply Hrec|].
  specialize (Hall p d Hp Hd). unfold staged_files in Hall. by rewrite Hn, Hnn in Hall.
Qed.

(** Boot from any state an operation can leave. *)
Lemma wp_Reconcile w : ready w -> readable w -> wpc Reconcile (boot_post w) w.
Proof.
  intros Hw Hr. destruct (ready_cur _ _ _ _ _ _ Hw) as [HK [H|[H|(m & Hm & Hpa & Hpr)]]];
    [apply (wp_Reconcile_rest c); auto; by split_and!; auto|apply (wp_Reconcile_rest (N ∪ c)); auto; by split_and!; auto|].
  destruct (mf_Next m) as [n|] eqn:Hn; [|by destruct Hpr as (_ & ? & _)].
  destruct (partly_cases m n _ HK Hn Hm Hpa Hpr) as (Hh & Hk & Hold & Hnew & Hfin).
  pose proof Hpr as (Hrec & _ & Hst). unfold staged_files in Hst. rewrite Hn in Hst.
  destruct (reads_classifyIntent w m n (cur w) Hn) as (intent & finish & Hcl & Hcase).
  { intros _ _ p (Hp & h & Hp' & Hne)%elem_of_old. specialize (Hfin p Hp). rewrite Hst, lookup_fmap in Hp' |- *.
    destruct (N !! p) as [d|] eqn:E; [|done]. simpl in *. simplify_eq. destruct Hfin as [(_ & _ & _ & Hpend)|[_ Hnw]].
    - exists d. split_and!; auto. by apply Hr.
    - destruct Hne. unfold content. by rewrite Hnw. }
  destruct Hcase as [(_ & _ & Ho)|[(_ & _ & Hnw & _)|(-> & -> & Ho & Hnw)]];
    [apply (wp_Reconcile_rest (N ∪ c)); auto|apply (wp_Reconcile_rest c); auto|].
  destruct (reads_InspectKeySet w m (cur w) IntentFinishable (map (fun p => (pending p, p)) (old_files n (cur w))) Hm Hr Hh Hk) as [left Hi]; [rewrite Hn; exact Hcl|].
  unfold ReconcileKeySet. apply wp_bind_res. eapply wp_reads; [exact Hi|]. cbn [ks_Fresh].
  apply wp_bind, wp_removeManifestStagingFiles; [done|]. intros r1 w1 _ Hs1 Ho1. cbn [ks_Manifest ks_Unrecorded ks_Leftovers].
  apply wp_after_settle; [done|]. eapply wp_mono; [|by apply boot_post_stepped]. unfold settle_intent. cbn [ks_Intent ks_Finish]. rewrite Hn.
  assert (Hl : forall p, p ∈ old_files n (cur w) -> p ∈ required /\ is_Some (N !! p)).
  { intros p (Hp & h & Hp' & _)%elem_of_old. rewrite Hst, lookup_fmap in Hp'. destruct (N !! p); [eauto|done]. }
  apply wp_bind_res, (wp_finish_renames m); auto.
  - apply Hs1.
  - unfold old_files. apply NoDup_ListNoDup, List.NoDup_filter, NoDup_ListNoDup, kp.
  - by eapply man_off.
  - intros p Hp. specialize (Hfin p Hp). rewrite <- !Ho1 by eauto using kp_staging, kp_pending_staging. done.
  - intros e w2 Hs2 HC. split_and!; [done|done|done].
  - intros r2 w2 Hs2 Hm2 Hf2%finishing_done. eapply wp_mono; [|by apply boot_post_stepped].
    apply (wp_record_next _ m n (N ∪ c)); [by right|apply Hs2| |done|done|done|by exists (cur w)| |by left].
    + eapply readable_stepped; [exact Hs2|]. by eapply readable_stepped.
    + intros p d Hp Hnn Hd. rewrite Hst, lookup_fmap in Hnn. destruct (N !! p) eqn:E; [done|]. rewrite lookup_union_r in Hd by done. by apply Hrec.
Qed.
End reconcile.
End spec.
#[export] Hint Resolve off_refl off_sym : kx.
