(* ===== verification/KeyRotation.v ===== *)
(** Key rotation: src/internal/encryption/keymanager_kek_rotation.go,
    keymanager_rotation.go, keymanager_rewrap.go, keymanager_lifecycle.go, the
    key-file part of service_rotation.go, and the boot sequence of
    src/server/boot_encryption.go.

    AES-GCM key wrapping, PBKDF2 and the DEK fingerprint are parameters.  The
    re-encryption sweep is one step: the transaction that moves every row to the
    new DEK and writes the redo marker.  The exclusive key lock is held
    throughout, so one process runs at a time. *)
From Stdlib Require Import ZArith Lia.
From stdpp Require Import base numbers tactics sets list gmap.
From S2P Require Import Prelude GoStr Sha256 KeyFS KeySet.

Inductive rotate_err :=
| ErrNotInitialized | ErrOldPassphraseEmpty | ErrNewPassphraseEmpty
| ErrReread (e : io_err) | ErrConcurrentRotation | ErrReadSalt (e : io_err) | ErrSaltSize | ErrOldPassphraseIncorrect
| ErrPrepare
| ErrWritePendingSalt (e : io_err) | ErrWritePendingDEK (e : io_err) | ErrStage (e : keyset_err)
| ErrPromoteDEK (e : io_err) | ErrPromoteUnknown (e : io_err) | ErrSyncAfterDEK (e : io_err)
| ErrPromoteSalt (e : io_err) | ErrSyncAfterSalt (e : io_err)
| ErrSweepFailed | ErrSweepUnknown | ErrDatabase
| ErrKeySet (e : keyset_err) | ErrPassphraseEmpty | ErrUnwrapDEK | ErrDEKSize | ErrWriteKey (e : io_err).

Record KeyManager := mkKM { km_currentDEK : option bytes; km_dekSnapshot : bytes }.
Definition new_km : KeyManager := mkKM None [].

Inductive dekRenameOutcome := dekRenameNotApplied | dekRenameApplied | dekRenameUnknown.

Definition draw_bytes (n : nat) : M bytes := let! b := draw_nonce in ret (resize n Byte.x00 b).

(** Lift an operation's error. *)
Definition or_err {E A} (wrap : E -> rotate_err) (m : M (res E A)) : M (res rotate_err A) :=
  let! r := m in ret match r with Ok a => Ok a | Err e => Err (wrap e) end.

(** Whether a check that can itself fail went through (the verification seam of classifyDEKRename, a database read). *)
Definition probe : M bool := fun w =>
  let '(f, w) := next_fault w in match f with FRun => (Some true, w) | FCrash | FTorn _ => (None, w) | _ => (Some false, w) end.

Section rotation.
Context (encodeManifest : Manifest -> bytes) (decodeManifest : bytes -> option (Manifest * bool)).
Context (required : list path) (manifestPath saltPath dekPath aside : path).
(** PBKDF2, AES-256-GCM key wrapping with a random nonce, HKDF fingerprint of a DEK. *)
Context (GenerateKEK : bytes -> bytes -> bytes) (wrapKey : bytes -> bytes -> bytes -> bytes)
        (unwrapKey : bytes -> bytes -> option bytes) (fingerprint : bytes -> bytes).

Definition stageKeySet (op : bytes) (files : gmap path bytes) : M (res rotate_err unit) :=
  or_err ErrStage (StageManifest encodeManifest decodeManifest required manifestPath op files).
(** commitKeySet: a failure is logged, not returned. *)
Definition commitKeySet (op : bytes) (files : gmap path bytes) : M unit :=
  let! _ := CommitManifest encodeManifest decodeManifest required manifestPath op files in ret ().

(** * KEK rotation *)

Definition classifyDEKRename (newWrapped : bytes) : M dekRenameOutcome :=
  let! verified := probe in
  if negb verified then ret dekRenameUnknown
  else
    let! here := fstat (pending dekPath) in
    if here then ret dekRenameNotApplied
    else
      let! got := fread dekPath in
      ret match got with
          | Ok got => if bool_decide (got = newWrapped) then dekRenameApplied else dekRenameUnknown
          | Err _ => dekRenameUnknown
          end.

Definition kek_files (newSalt newWrappedDEK : bytes) : gmap path bytes := <[saltPath := newSalt]> {[dekPath := newWrappedDEK]}.

(** The promotion of the DEK, and what an error of the rename is taken to mean. *)
Definition promote_dek (newWrappedDEK : bytes) : M (res rotate_err unit) :=
  let! r := frename (pending dekPath) dekPath in
  match r with
  | Ok _ => ret (Ok ())
  | Err e =>
      let! o := classifyDEKRename newWrappedDEK in
      match o with
      | dekRenameNotApplied =>
          let! _ := fremove (pending saltPath) in
          let! _ := fremove (pending dekPath) in
          ret (Err (ErrPromoteDEK e))
      | dekRenameUnknown => ret (Err (ErrPromoteUnknown e))
      | dekRenameApplied => ret (Ok ())
      end
  end.

Definition commitNewKEKFiles (newSalt newWrappedDEK : bytes) : M (res rotate_err unit) :=
  let! r := fwrite (pending saltPath) newSalt in
  match r with
  | Err e => ret (Err (ErrWritePendingSalt e))
  | Ok _ =>
      let! r := fwrite (pending dekPath) newWrappedDEK in
      match r with
      | Err e => let! _ := fremove (pending saltPath) in ret (Err (ErrWritePendingDEK e))
      | Ok _ =>
          let! r := stageKeySet OpRotateKEK (kek_files newSalt newWrappedDEK) in
          match r with
          | Err e => let! _ := fremove (pending saltPath) in let! _ := fremove (pending dekPath) in ret (Err e)
          | Ok _ =>
              let?! _ := promote_dek newWrappedDEK in
              let?! _ := or_err ErrSyncAfterDEK (fsyncdir (p_dir dekPath)) in
              let?! _ := or_err ErrPromoteSalt (frename (pending saltPath) saltPath) in
              let?! _ := or_err ErrSyncAfterSalt (fsyncdir (p_dir saltPath)) in
              let! _ := commitKeySet OpRotateKEK (kek_files newSalt newWrappedDEK) in
              ret (Ok ())
          end
      end
  end.

(** [prepare]: whether the audit key transition record could be prepared ([true] without a callback). *)
Definition RotateKEKPassphraseWithPrepare (km : KeyManager) (oldPassphrase newPassphrase : bytes) (prepare : bool) : M (res rotate_err KeyManager) :=
  match km_currentDEK km with
  | None => ret (Err ErrNotInitialized)
  | Some dek =>
      if bool_decide (oldPassphrase = []) then ret (Err ErrOldPassphraseEmpty)
      else if bool_decide (newPassphrase = []) then ret (Err ErrNewPassphraseEmpty)
      else
        let?! onDisk := or_err ErrReread (fread dekPath) in
        if negb (bool_decide (onDisk = km_dekSnapshot km)) then ret (Err ErrConcurrentRotation)
        else
          let?! currentSalt := or_err ErrReadSalt (fread saltPath) in
          if negb (length currentSalt =? 32)%nat then ret (Err ErrSaltSize)
          else if is_none (unwrapKey onDisk (GenerateKEK oldPassphrase currentSalt)) then ret (Err ErrOldPassphraseIncorrect)
          else
            let! newSalt := draw_bytes 32 in
            let! nonce := draw_bytes 12 in
            let newWrappedDEK := wrapKey dek (GenerateKEK newPassphrase newSalt) nonce in
            if negb prepare then ret (Err ErrPrepare)
            else
              let?! _ := commitNewKEKFiles newSalt newWrappedDEK in
              ret (Ok (mkKM (Some dek) newWrappedDEK))
  end.

(** * Replacing the DEK file alone *)

Definition CleanPendingDEK : M unit :=
  let! here := fstat (pending dekPath) in
  if here then let! _ := fremove (pending dekPath) in ret () else ret ().

(** The end of RotateDEKWithSweep and of PromotePendingDEK: stage the manifest, rename, fsync, record. *)
Definition install_dek (wrapped : bytes) : M (res rotate_err unit) :=
  let?! _ := stageKeySet OpRotateDEK {[dekPath := wrapped]} in
  let?! _ := or_err ErrPromoteDEK (frename (pending dekPath) dekPath) in
  let?! _ := or_err ErrSyncAfterDEK (fsyncdir (p_dir dekPath)) in
  let! _ := commitKeySet OpRotateDEK {[dekPath := wrapped]} in
  ret (Ok ()).

Definition PromotePendingDEK : M (res rotate_err unit) :=
  let! here := fstat (pending dekPath) in
  if negb here then ret (Ok ())
  else
    let?! new := or_err ErrReread (fread (pending dekPath)) in
    install_dek new.

(** RewrapDEKWithPrepare, from the moment the new provider has returned its KEK. *)
Definition RewrapDEKWithPrepare (km : KeyManager) (newKEK : bytes) (prepare : bool) : M (res rotate_err KeyManager) :=
  match km_currentDEK km with
  | None => ret (Err ErrNotInitialized)
  | Some dek =>
      let?! onDisk := or_err ErrReread (fread dekPath) in
      if negb (bool_decide (onDisk = km_dekSnapshot km)) then ret (Err ErrConcurrentRotation)
      else
        let! nonce := draw_bytes 12 in
        let wrapped := wrapKey dek newKEK nonce in
        if negb prepare then ret (Err ErrPrepare)
        else
          let?! _ := or_err ErrWritePendingDEK (fwrite (pending dekPath) wrapped) in
          let! r := stageKeySet OpRewrapDEK {[dekPath := wrapped]} in
          match r with
          | Err e => let! _ := fremove (pending dekPath) in ret (Err e)
          | Ok _ =>
              let! r := frename (pending dekPath) dekPath in
              match r with
              | Err e => let! _ := fremove (pending dekPath) in ret (Err (ErrPromoteDEK e))
              | Ok _ =>
                  let?! _ := or_err ErrSyncAfterDEK (fsyncdir (p_dir dekPath)) in
                  let! _ := commitKeySet OpRewrapDEK {[dekPath := wrapped]} in
                  ret (Ok (mkKM (Some dek) wrapped))
              end
          end
  end.

(** * The database side *)

(** sweepFn of Service.RotateDEKWithSweep: one transaction re-encrypts the rows, moves the epoch and writes the
    redo marker.  It can fail and roll back, or its commit can report an error with either outcome. *)
Definition swept (db : keydb) (newDEK newKeyVersion : bytes) : keydb :=
  mkDb newDEK (Some newKeyVersion) (if db_postgres db then Some (fingerprint newDEK) else db_epoch db) (db_postgres db) (db_token db).

Definition sweepFn (newDEK newKeyVersion : bytes) : M (res rotate_err unit) := fun w =>
  let '(f, w) := next_fault w in
  let done := set_db (swept (w_db w) newDEK newKeyVersion) w in
  match f with
  | FRun => (Some (Ok ()), done)
  | FClean => (Some (Err ErrSweepFailed), w)
  | FShort _ => (Some (Err ErrSweepUnknown), w)
  | FEffect => (Some (Err ErrSweepUnknown), done)
  | FCrash => (None, w)
  | FTorn _ => (None, done)
  end.

Definition set_marker (m : option bytes) (db : keydb) : keydb := mkDb (db_rows db) m (db_epoch db) (db_postgres db) (db_token db).
Definition delete_marker : M (res rotate_err unit) := fun w =>
  let '(f, w) := next_fault w in
  let gone := set_db (set_marker None (w_db w)) w in
  match f with
  | FRun => (Some (Ok ()), gone)
  | FEffect => (Some (Err ErrDatabase), gone)
  | FClean | FShort _ => (Some (Err ErrDatabase), w)
  | FCrash => (None, w)
  | FTorn _ => (None, gone)
  end.
Definition read_db : M keydb := fun w => (Some (w_db w), w).

(** dekEpochApplies *)
Definition dekEpochApplies (db : keydb) : bool := db_postgres db.

Definition clearCompletedRotationMarker (own : bytes) : M (res rotate_err unit) :=
  let! db := read_db in
  let! pend := fstat (pending dekPath) in
  if negb (dekEpochApplies db) || pend then ret (Ok ())
  else if negb (bool_decide (db_epoch db = Some own)) then ret (Ok ())
  else delete_marker.

Definition ensureSaltExists : M (res rotate_err bytes) :=
  let! here := fstat saltPath in
  if negb here then
    let! salt := draw_bytes 32 in
    let?! _ := or_err ErrWriteKey (fwrite saltPath salt) in
    ret (Ok salt)
  else
    let?! salt := or_err ErrReadSalt (fread saltPath) in
    if negb (length salt =? 32)%nat then ret (Err ErrSaltSize) else ret (Ok salt).

Definition deriveKEK (passphrase : bytes) : M (res rotate_err bytes) :=
  if bool_decide (passphrase = []) then ret (Err ErrPassphraseEmpty)
  else let?! salt := ensureSaltExists in ret (Ok (GenerateKEK passphrase salt)).

(** KeyManager.RotateDEKWithSweep *)
Definition km_RotateDEKWithSweep (km : KeyManager) (passphrase newKeyVersion : bytes) : M (res rotate_err KeyManager) :=
  match km_currentDEK km with
  | None => ret (Err ErrNotInitialized)
  | Some _ =>
      let?! kek := deriveKEK passphrase in
      let! newDEK := draw_bytes 32 in
      let! nonce := draw_bytes 12 in
      let wrapped := wrapKey newDEK kek nonce in
      let?! _ := or_err ErrWritePendingDEK (fwrite (pending dekPath) wrapped) in
      let! r := fsyncdir (p_dir dekPath) in
      match r with
      | Err e => let! _ := fremove (pending dekPath) in ret (Err (ErrSyncAfterDEK e))
      | Ok _ =>
          let! r := sweepFn newDEK newKeyVersion in
          match r with
          | Err ErrSweepUnknown => ret (Err ErrSweepUnknown)
          | Err e => let! _ := fremove (pending dekPath) in ret (Err e)
          | Ok _ =>
              let?! _ := install_dek wrapped in
              ret (Ok (mkKM (Some newDEK) wrapped))
          end
      end
  end.

(** Service.RotateDEKWithSweep, after its protocol check *)
Definition RotateDEKWithSweep (km : KeyManager) (passphrase newKeyVersion : bytes) : M (res rotate_err KeyManager) :=
  match km_currentDEK km with
  | None => ret (Err ErrNotInitialized)
  | Some dek =>
      let?! _ := clearCompletedRotationMarker (fingerprint dek) in
      let?! km := km_RotateDEKWithSweep km passphrase newKeyVersion in
      let! _ := delete_marker in
      ret (Ok km)
  end.

Definition hasPendingDEK : M bool := fstat (pending dekPath).

Definition RecoverInterruptedRotation : M (res rotate_err unit) :=
  let! ok := probe in
  if negb ok then ret (Err ErrDatabase)
  else
    let! db := read_db in
    match db_marker db with
    | None => let! _ := CleanPendingDEK in ret (Ok ())
    | Some _ =>
        let! pend := hasPendingDEK in
        if negb pend && dekEpochApplies db then ret (Ok ())
        else
          let?! _ := PromotePendingDEK in
          delete_marker
    end.

(** * Initialisation and boot *)

Definition unwrapDEK (kek : bytes) : M (res rotate_err KeyManager) :=
  let?! wrapped := or_err ErrReread (fread dekPath) in
  match unwrapKey wrapped kek with
  | None => ret (Err ErrUnwrapDEK)
  | Some dek => if negb (length dek =? 32)%nat then ret (Err ErrDEKSize) else ret (Ok (mkKM (Some dek) wrapped))
  end.

(** commitKeySetFromDisk *)
Definition commitKeySetFromDisk (op : bytes) (paths : list path) : M unit :=
  let! (present, _) := stat_all paths in
  let! _ := CommitManifestFromDisk encodeManifest decodeManifest required manifestPath op present in ret ().

Definition ensureWrappedDEKExists (kek : bytes) : M (res rotate_err unit) :=
  let! here := fstat dekPath in
  if here then ret (Ok ())
  else
    let! dek := draw_bytes 32 in
    let! nonce := draw_bytes 12 in
    let?! _ := or_err ErrWriteKey (fwrite (pending dekPath) (wrapKey dek kek nonce)) in
    let! r := frename (pending dekPath) dekPath in
    match r with
    | Err e => let! _ := fremove (pending dekPath) in ret (Err (ErrPromoteDEK e))
    | Ok _ =>
        let?! _ := or_err ErrSyncAfterDEK (fsyncdir (p_dir dekPath)) in
        let! _ := commitKeySetFromDisk OpFirstBoot required in
        ret (Ok ())
    end.

Definition Initialize (passphrase : bytes) : M (res rotate_err KeyManager) :=
  let?! kek := deriveKEK passphrase in
  let?! _ := ensureWrappedDEKExists kek in
  unwrapDEK kek.

(** bootKeys of src/server/boot_encryption.go, for a local database; openKeyWriter runs the same steps. *)
Definition settleKeys : M (res rotate_err unit) :=
  let?! _ := or_err ErrKeySet (ReconcileKeySet encodeManifest decodeManifest required manifestPath dekPath aside) in
  RecoverInterruptedRotation.
Definition bootKeys (passphrase : bytes) : M (res rotate_err KeyManager) :=
  let?! _ := settleKeys in
  Initialize passphrase.
End rotation.
