(* ===== verification/KeyRotationSpec.v ===== *)
(** Crash safety of key rotation.

    However a rotation is interrupted (an operation fails, with or without its
    effect; the process is killed; the machine loses power), and however often
    boot is interrupted after it, a boot that is left alone opens the DEK the
    database's rows are under: with the old or the new passphrase after a KEK
    rotation, with the same passphrase after a DEK rotation. *)
From Stdlib Require Import ZArith Lia.
From stdpp Require Import base numbers tactics sets list gmap.
From S2P Require Import Prelude GoStr Sha256 KeyFS KeySet KeySetSpec KeyRotation.

Lemma wp_crash_mono {A} (C C' : world -> Prop) (m : M A) (Q : A -> world -> Prop) w : (forall w, C w -> C' w) -> wp C m Q w -> wp C' m Q w.
Proof. intros HC. unfold wp. destruct (m w) as [[a|] w']; auto. Qed.
Lemma ready_mono D lossy (R R' : gmap path bytes -> Prop) calm db w : (forall f, R f -> R' f) -> ready D lossy R calm db w -> ready D lossy R' calm db w.
Proof. intros H (? & ? & ?). split_and!; auto. by eapply always_mono. Qed.
Lemma crashed_mono D lossy (R R' : gmap path bytes -> Prop) calm db w : (forall f, R f -> R' f) -> crashed D lossy R calm db w -> crashed D lossy R' calm db w.
Proof. intros H (? & ? & ?). split_and!; auto. by eapply always_mono. Qed.
Lemma stepped_mono D lossy (R R' : gmap path bytes -> Prop) calm db w w' : (forall f, R f -> R' f) -> stepped D lossy R calm db w w' -> stepped D lossy R' calm db w w'.
Proof. intros H [? ?]. split; auto. by eapply ready_mono. Qed.

Section spec.
Context (encodeManifest : Manifest -> bytes) (decodeManifest : bytes -> option (Manifest * bool)).
Context (required : list path) (manifestPath saltPath dekPath aside : path) (D : bytes).
Context (kp : keypaths_ok encodeManifest decodeManifest required manifestPath D).
Context (salt_req : saltPath ∈ required) (dek_req : dekPath ∈ required) (salt_dek : saltPath <> dekPath).
Abbreviation rest := (rest decodeManifest required manifestPath).
Abbreviation Recov := (Recov decodeManifest required manifestPath).
Abbreviation man := (man decodeManifest manifestPath).
Abbreviation holds := (holds required).
Abbreviation readable := (readable required manifestPath).
Abbreviation in_progress := (in_progress required).
Abbreviation off := (off manifestPath).

(** Writing or removing a staging file leaves a set at rest at rest. *)
Lemma rest_same c f g : (forall p, p = manifestPath \/ p ∈ required -> g !! p = f !! p) -> rest c f -> rest c g.
Proof.
  intros H (m & (d & Hd & ?) & Hh & ?). exists m. split_and!; auto.
  - exists d. split; [rewrite H by auto; done|done].
  - intros p Hp. destruct (Hh p Hp) as (x & ? & ?). exists x. split; [done|]. rewrite H; auto.
Qed.
Lemma pending_apart p q : p ∈ required -> q = manifestPath \/ q ∈ required -> q <> pending p.
Proof. intros Hp [->|Hq] ->; [by apply (kp_pending_manifest _ _ _ _ _ kp p)|by apply (kp_pending_req _ _ _ _ _ kp p)]. Qed.
Lemma rest_put c f p d : p ∈ required -> rest c f -> rest c (<[pending p := d]> f).
Proof. intros Hp. apply rest_same. intros q Hq. apply lookup_insert_ne. symmetry. by apply pending_apart. Qed.
Lemma rest_del c f p : p ∈ required -> rest c f -> rest c (delete (pending p) f).
Proof. intros Hp. apply rest_same. intros q Hq. apply lookup_delete_ne. symmetry. by apply pending_apart. Qed.

Section one.
(** An operation that replaces the files of [N] in the set [c]. *)
Context (c N : gmap path bytes) (lossy calm : Prop) (db : keydb) (K : gmap path bytes -> Prop).
Context (HN : forall p d, N !! p = Some d -> p ∈ required /\ forall d', c !! p = Some d' -> HashBytes d <> HashBytes d').
Context (K_off : forall f g, off f g -> K f -> K g) (K_man : forall f d, K f -> K (<[manifestPath := d]> f)).
Context (K_move : forall f p d, p ∈ required -> N !! p = Some d -> f !! (pending p) = Some d -> K f -> K (<[p := d]> (delete (pending p) f))).
Abbreviation R := (Recov K c N).
Abbreviation wpc := (wp (crashed D lossy R calm db)).
Abbreviation ready := (ready D lossy R calm db).
Abbreviation stepped := (stepped D lossy R calm db).
Abbreviation at_rest := (at_rest decodeManifest required manifestPath c N K).
Abbreviation finishing := (finishing required c N).

Lemma settled_new m : in_progress m c N -> settled required m (N ∪ c).
Proof.
  intros (Hrec & _ & Hst). split.
  - intros p h. rewrite Hst, lookup_fmap. destruct (N !! p) eqn:E; [|done]. intros _. by eapply HN.
  - right. intros p d Hp Hd. rewrite Hst, lookup_fmap. destruct (N !! p) as [d'|] eqn:E; simpl.
    + rewrite (lookup_union_Some_l _ _ _ _ E) in Hd. by injection Hd as ->.
    + rewrite lookup_union_r in Hd by done. by apply Hrec.
Qed.
Lemma rest_new f m : man f m -> in_progress m c N -> finishing [] f -> rest (N ∪ c) f.
Proof. intros. exists m. split_and!; [done|by eapply finishing_done|by apply settled_new]. Qed.

Lemma wp_or_err {E A} C (wrap : E -> rotate_err) (m : M (res E A)) (Q : res rotate_err A -> world -> Prop) w :
  wp C m (fun r w' => Q (match r with Ok a => Ok a | Err e => Err (wrap e) end) w') w -> wp C (or_err wrap m) Q w.
Proof. intros H. apply wp_bind. eapply wp_mono; [exact H|]. done. Qed.

(** One rename of a staged file into place, then the fsync of its directory. *)
Lemma finishing_rename p l f m d : K f -> p ∈ required -> p ∉ l -> N !! p = Some d -> man f m -> in_progress m c N -> finishing (p :: l) f ->
  f !! pending p = Some d /\ man (<[p := d]> (delete (pending p) f)) m /\ finishing l (<[p := d]> (delete (pending p) f)) /\ R (<[p := d]> (delete (pending p) f)).
Proof.
  intros HK Hp Hl Hd Hm Hpr Hf.
  assert (Hpend : f !! pending p = Some d).
  { pose proof (Hf p Hp) as Hfp. rewrite Hd in Hfp. destruct Hfp as [(_ & _ & _ & ?)|[Hn _]]; [done|]. destruct Hn. apply elem_of_cons. by left. }
  assert (Hm' : man (<[p := d]> (delete (pending p) f)) m) by by eapply man_move.
  assert (Hf' : finishing l (<[p := d]> (delete (pending p) f))) by by eapply finishing_step.
  split_and!; auto. eapply finishing_manifest; eauto.
Qed.
End one.

(** * KEK rotation *)

Section kek.
Context (c : gmap path bytes) (newSalt newW : bytes) (lossy calm : Prop) (db : keydb).
Let N := kek_files saltPath dekPath newSalt newW.
Context (Hsalt : forall d, c !! saltPath = Some d -> HashBytes newSalt <> HashBytes d).
Context (Hdek : forall d, c !! dekPath = Some d -> HashBytes newW <> HashBytes d).
Let K := fun _ : gmap path bytes => True.
Abbreviation R := (Recov K c N).
Abbreviation wpc := (wp (crashed D lossy R calm db)).
Abbreviation ready := (ready D lossy R calm db).
Abbreviation stepped := (stepped D lossy R calm db).

Lemma N_salt : N !! saltPath = Some newSalt.
Proof. unfold N, kek_files. by simplify_map_eq. Qed.
Lemma N_dek : N !! dekPath = Some newW.
Proof. unfold N, kek_files. by simplify_map_eq. Qed.
Lemma N_inv p d : N !! p = Some d -> p = saltPath /\ d = newSalt \/ p = dekPath /\ d = newW.
Proof.
  unfold N, kek_files. rewrite lookup_insert_Some, lookup_singleton_Some. naive_solver.
Qed.
Lemma HN_kek p d : N !! p = Some d -> p ∈ required /\ forall d', c !! p = Some d' -> HashBytes d <> HashBytes d'.
Proof. by intros [[-> ->]|[-> ->]]%N_inv. Qed.

Lemma R_rest f : rest c f -> R f.
Proof. intros. split; [done|]. by left. Qed.
Lemma R_new f : rest (N ∪ c) f -> R f.
Proof. intros. split; [done|]. right. by left. Qed.

(** Removing a staging file of a set at rest. *)
Lemma wp_drop_pending p (Q : res io_err unit -> world -> Prop) w :
  p ∈ required -> ready w -> rest c (cur w) ->
  (forall r w', stepped w w' -> rest c (cur w') -> Q r w') -> wpc (fremove (pending p)) Q w.
Proof.
  intros Hp Hw Hr HQ. apply wp_fremove; [done|exact (kp_req_dir _ _ _ _ _ kp p Hp)|by apply R_rest, rest_del|].
  intros r w' Hs He. apply HQ; [done|]. destruct He as [-> | ->]; auto using rest_del.
Qed.

Definition kek_post (w : world) (r : res rotate_err unit) (w' : world) : Prop :=
  stepped w w' /\ (calm -> r = Ok ()) /\ (r = Ok () -> always D lossy (rest (N ∪ c)) (w_fs w') ).

Lemma kek_post_err w e w' : stepped w w' -> ~ calm -> kek_post w (Err e) w'.
Proof. intros. unfold kek_post. by split_and!. Qed.

(** The promotion of the DEK: done, or refused with the set as it was, or left to boot. *)
Lemma wp_promote_dek m (Q : res rotate_err unit -> world -> Prop) w :
  ready w -> readable w -> rest c (cur w) -> man (cur w) m -> in_progress m c N -> finishing required c N [dekPath; saltPath] (cur w) ->
  (forall e w', stepped w w' -> ~ calm -> Q (Err e) w') ->
  (forall w', stepped w w' -> man (cur w') m -> finishing required c N [saltPath] (cur w') -> Q (Ok ()) w') ->
  wpc (promote_dek saltPath dekPath newW) Q w.
Proof.
  intros Hw Hr Hrest Hm Hpr Hf HE HO.
  destruct (finishing_rename c N K (fun _ _ _ _ _ _ _ => I) dekPath [saltPath] (cur w) m newW) as (Hp & Hm' & Hf' & HR'); auto using N_dek; [exact I|set_solver|].
  apply wp_bind, wp_frename; [done|exact (kp_req_dir _ _ _ _ _ kp _ dek_req)|by intros d Hd; rewrite Hp in Hd; injection Hd as <-|].
  intros r w1 Hs1 He1 Hc1.
  assert (Hmoved : cur w1 = <[dekPath := newW]> (delete (pending dekPath) (cur w)) -> man (cur w1) m /\ finishing required c N [saltPath] (cur w1)) by by intros ->.
  assert (Hcases : cur w1 = cur w \/ cur w1 = <[dekPath := newW]> (delete (pending dekPath) (cur w))).
  { destruct He1 as [[? _]|(d & Hd & He)]; [by left|right]. rewrite Hp in Hd. by injection Hd as <-. }
  destruct r as [[]|e].
  { apply wp_ret. destruct He1 as [[_ ?]|(d & Hd & He)]; [done|]. rewrite Hp in Hd. injection Hd as <-. destruct (Hmoved He). by apply HO. }
  assert (Hnc : ~ calm) by (intros C; rewrite Hp in Hc1; by specialize (Hc1 C (mk_is_Some _ _ eq_refl))).
  apply wp_bind, wp_bind. unfold wp at 1, probe. rewrite next_fault_eq.
  set (w2 := mkWorld _ _ _ _ _). assert (Hs2 : stepped w w2) by (destruct Hs1 as (? & ? & ? & ?); split; [done|]; split_and!; auto; intros C; by destruct (Hnc C)).
  assert (Hc2 : cur w2 = cur w1) by done.
  destruct (default FRun (head (w_faults w1))); [|by apply HE..| |]; [|split_and!; auto; apply Hs1..].
  cbn [negb]. apply wp_bind, wp_fstat. rewrite Hc2.
  destruct Hcases as [Heq|Heq].
  - rewrite Heq, Hp. simpl. apply wp_ret, wp_bind, wp_drop_pending; [done|apply Hs2|by rewrite Hc2, Heq|].
    intros _ w3 Hs3 Hr3. apply wp_bind, wp_drop_pending; [done|apply Hs3|done|]. intros _ w4 Hs4 _. apply wp_ret, HE; [|done].
    eapply stepped_trans; [exact Hs2|]. by eapply stepped_trans.
  - assert (Hnone : cur w1 !! pending dekPath = None).
    { rewrite Heq, lookup_insert_ne; [by simplify_map_eq|]. apply pending_apart; auto. }
    rewrite Hnone. simpl. apply wp_bind, wp_fread. rewrite Hc2.
    assert (Hd : cur w1 !! dekPath = Some newW) by (rewrite Heq; by simplify_map_eq). rewrite Hd.
    assert (Hu : w_unreadable w2 dekPath = false) by (destruct Hs2 as [-> _]; by apply Hr). rewrite Hu.
    apply wp_ret. rewrite bool_decide_true by done. apply wp_ret. destruct (Hmoved Heq). by apply HO.
Qed.

(** A set at rest keeps its staging files through a stage of the manifest. *)
Lemma kek_staged_finishing f : holds c f -> f !! pending saltPath = Some newSalt -> f !! pending dekPath = Some newW ->
  finishing required c N [dekPath; saltPath] f.
Proof.
  intros Hh Hps Hpd p Hp. destruct (Hh p Hp) as (d & Hc & Hf). destruct (N !! p) as [d'|] eqn:E; [|rewrite Hc, Hf; eauto].
  left. apply N_inv in E. split_and!; [|eauto|by rewrite Hc|]; destruct E as [[-> ->]|[-> ->]]; auto; rewrite !elem_of_cons; auto.
Qed.

(** The last step: recording a rotation whose files are durably in place. *)
Lemma wp_kek_commit op m w : ready w -> readable w -> man (cur w) m -> in_progress m c N -> finishing required c N [] (cur w) -> f_log (w_fs w) = [] ->
  wpc (let! _ := commitKeySet encodeManifest decodeManifest required manifestPath op N in ret (Ok () : res rotate_err unit)) (kek_post w) w.
Proof.
  intros Hw Hr Hm Hpr Hf Hl. pose proof (rest_new c N HN_kek) as Hnew.
  assert (Hrest : rest (N ∪ c) (cur w)) by by eapply Hnew.
  assert (Hw' : KeyFS.ready D lossy (rest (N ∪ c)) calm db w).
  { destruct Hw as (_ & ? & ?). split_and!; auto. unfold cur, f_cur in Hrest. rewrite Hl in Hrest.
    destruct (w_fs w) as [dsk lg]. simpl in *. subst lg. by apply always_clean. }
  eapply wp_crash_mono; [intros w'; apply crashed_mono, R_new|]. apply wp_bind, wp_bind.
  assert (Hoff : forall f g, off f g -> rest (N ∪ c) f -> rest (N ∪ c) g) by (intros; by eapply rest_off).
  destruct Hpr as (Hrec & _ & Hst).
  apply (wp_CommitManifest _ _ _ _ _ kp _ _ _ _ Hoff _ _ (N ∪ c) m); auto.
  - by eapply finishing_done.
  - intros p d Hp. by apply lookup_union_Some_l.
  - intros p d Hp Hn Hd. rewrite lookup_union_r in Hd by done. by apply Hrec.
  - intros r w' Hs _ _ _ _. apply wp_ret, wp_ret. split_and!; [eapply stepped_mono; [apply R_new|exact Hs]|done|]. intros _. apply Hs.
Qed.

Lemma kek_post_stepped w w1 : stepped w w1 -> forall r w', kek_post w1 r w' -> kek_post w r w'.
Proof. intros Hs r w' (? & ? & ?). split_and!; auto. by eapply stepped_trans. Qed.

Lemma wp_commitNewKEKFiles w : ready w -> readable w -> rest c (cur w) ->
  wpc (commitNewKEKFiles encodeManifest decodeManifest required manifestPath saltPath dekPath newSalt newW) (kek_post w) w.
Proof.
  intros Hw Hr Hrest. unfold commitNewKEKFiles. apply wp_bind, wp_fwrite; [done|exact (kp_req_dir _ _ _ _ _ kp _ salt_req)| |].
  { intros d. by apply R_rest, rest_put. }
  intros r w1 Hs1 He1 Ho1 Hc1. assert (Hrest1 : rest c (cur w1)) by (destruct He1 as [->|[d ->]]; auto using rest_put).
  destruct r as [[]|e]; [|apply wp_ret, kek_post_err; [done|]; intros C; by specialize (Hc1 C)]. specialize (Ho1 eq_refl).
  apply wp_bind, wp_fwrite; [apply Hs1|exact (kp_req_dir _ _ _ _ _ kp _ dek_req)| |].
  { intros d. by apply R_rest, rest_put. }
  intros r w2 Hs2 He2 Ho2 Hc2. assert (Hrest2 : rest c (cur w2)) by (destruct He2 as [->|[d ->]]; auto using rest_put).
  pose proof (stepped_trans _ _ _ _ _ _ _ _ Hs1 Hs2) as Hs12. destruct r as [[]|e]; cycle 1.
  { apply wp_bind, wp_drop_pending; [done|apply Hs2|done|]. intros _ w3 Hs3 _. apply wp_ret, kek_post_err; [by eapply stepped_trans|].
    intros C; by specialize (Hc2 C). }
  specialize (Ho2 eq_refl). eapply wp_mono; [|by apply kek_post_stepped].
  assert (Hps : cur w2 !! pending saltPath = Some newSalt).
  { rewrite Ho2, Ho1, lookup_insert_ne; [by simplify_map_eq|]. intros ?%sibling_inj. by destruct salt_dek. }
  assert (Hpd : cur w2 !! pending dekPath = Some newW) by (rewrite Ho2; by simplify_map_eq).
  assert (Hr2 : readable w2) by by eapply readable_stepped.
  destruct Hrest2 as (m0 & Hm0 & Hh0 & Hset0). assert (Hoff : forall f g, off f g -> R f -> R g) by by eapply Recov_off.
  apply wp_bind, wp_or_err, (wp_StageManifest _ _ _ _ _ kp _ _ _ _ Hoff _ c N m0); auto using HN_kek, R_rest; [apply Hs2|].
  intros r w3 Hs3 Hrest3 Hok3 Hsame3 Hc3. destruct r as [[]|e]; cycle 1.
  { apply wp_bind, wp_drop_pending; [done|apply Hs3|done|]. intros _ w4 Hs4 Hrest4.
    apply wp_bind, wp_drop_pending; [done|apply Hs4|done|]. intros _ w5 Hs5 _. apply wp_ret, kek_post_err.
    - eapply stepped_trans; [exact Hs3|]. by eapply stepped_trans. - intros C; by specialize (Hc3 C). }
  destruct Hok3 as (_ & m & Hm & Hpr); [done|].
  assert (Hf3 : finishing required c N [dekPath; saltPath] (cur w3)).
  { apply kek_staged_finishing; [by destruct Hrest3 as (? & _ & ? & _)|..]; rewrite Hsame3; auto;
      try (by apply (kp_pending_manifest _ _ _ _ _ kp)); by apply (kp_pending_staging _ _ _ _ _ kp). }
  assert (Hr3 : readable w3) by by eapply readable_stepped.
  eapply wp_mono; [|by apply kek_post_stepped]. apply wp_bind_res, (wp_promote_dek m); auto; [apply Hs3|intros e w4 Hs4 Hnc; by apply kek_post_err|].
  intros w4 Hs4 Hm4 Hf4. assert (Hr4 : readable w4) by by eapply readable_stepped. eapply wp_mono; [|by apply kek_post_stepped].
  apply wp_bind_res, wp_or_err. rewrite (kp_req_dir _ _ _ _ _ kp _ dek_req). apply wp_fsyncdir; [apply Hs4|].
  intros r w5 Hs5 He5 _ Hc5. destruct r as [[]|e]; [|apply kek_post_err; [done|]; intros C; by specialize (Hc5 C)].
  assert (Hr5 : readable w5) by by eapply readable_stepped. eapply wp_mono; [|by apply kek_post_stepped].
  destruct (finishing_rename c N K (fun _ _ _ _ _ _ _ => I) saltPath [] (cur w4) m newSalt) as (Hp & Hm6 & Hf6 & HR6); auto using N_salt; [exact I|apply not_elem_of_nil|].
  rewrite <- He5 in *. apply wp_bind_res, wp_or_err, wp_frename; [apply Hs5|exact (kp_req_dir _ _ _ _ _ kp _ salt_req)| |].
  { intros d Hd. rewrite Hp in Hd. by injection Hd as <-. }
  intros r w6 Hs6 He6 Hc6. destruct r as [[]|e]; [|apply kek_post_err; [done|]; intros C; rewrite Hp in Hc6; by specialize (Hc6 C (mk_is_Some _ _ eq_refl))].
  destruct He6 as [[_ ?]|(d & Hd & He6)]; [done|]. rewrite Hp in Hd. injection Hd as <-. rewrite <- He6 in *.
  assert (Hr6 : readable w6) by by eapply readable_stepped. eapply wp_mono; [|by apply kek_post_stepped].
  apply wp_bind_res, wp_or_err. rewrite (kp_req_dir _ _ _ _ _ kp _ salt_req). apply wp_fsyncdir; [apply Hs6|].
  intros r w7 Hs7 He7 Hl7 Hc7. destruct r as [[]|e]; [|apply kek_post_err; [done|]; intros C; by specialize (Hc7 C)].
  assert (Hr7 : readable w7) by by eapply readable_stepped. eapply wp_mono; [|by apply kek_post_stepped].
  apply (wp_kek_commit _ m); rewrite ?He7; auto. apply Hs7.
Qed.

Lemma wp_draw_bytes n (Q : bytes -> world -> Prop) w :
  ready w -> (forall w', stepped w w' -> w_fs w' = w_fs w -> w_nonces w' = tail (w_nonces w) -> Q (resize n Byte.x00 (default [] (head (w_nonces w)))) w') ->
  wpc (draw_bytes n) Q w.
Proof. intros (Ha & Hdb & Hq) HQ. unfold wp, draw_bytes, bind, draw_nonce, ret. by apply HQ. Qed.

(** The key files a rotation would write, from the bytes it will draw. *)
Lemma wp_RotateKEKPassphrase GenerateKEK wrapKey unwrapKey km dek oldPassphrase newPassphrase prepare w :
  ready w -> readable w -> rest c (cur w) -> km_currentDEK km = Some dek ->
  newSalt = resize 32 Byte.x00 (default [] (head (w_nonces w))) ->
  newW = wrapKey dek (GenerateKEK newPassphrase newSalt) (resize 12 Byte.x00 (default [] (head (tail (w_nonces w))))) ->
  wpc (RotateKEKPassphraseWithPrepare encodeManifest decodeManifest required manifestPath saltPath dekPath GenerateKEK wrapKey unwrapKey
         km oldPassphrase newPassphrase prepare)
    (fun r w' => stepped w w' /\ forall km', r = Ok km' -> always D lossy (rest (N ∪ c)) (w_fs w')) w.
Proof.
  intros Hw Hr Hrest Hkm Hs0 Hw0. unfold RotateKEKPassphraseWithPrepare. rewrite Hkm.
  assert (Hfail : forall e : rotate_err, wpc (ret (Err e)) (fun r w' => stepped w w' /\ forall km' : KeyManager, r = Ok km' -> always D lossy (rest (N ∪ c)) (w_fs w')) w).
  { intros e. apply wp_ret. split; [by apply stepped_refl|done]. }
  destruct Hrest as (m & Hm & Hh & Hset). assert (Hrest : rest c (cur w)) by (exists m; auto).
  destruct (Hh _ dek_req) as (wr & _ & Hwr). destruct (Hh _ salt_req) as (s & _ & Hs).
  case_bool_decide; [apply Hfail|]. case_bool_decide; [apply Hfail|].
  apply wp_bind_res, wp_or_err, wp_fread. rewrite Hwr, (proj1 (proj2 Hr _ dek_req)).
  destruct (negb _); [apply Hfail|]. apply wp_bind_res, wp_or_err, wp_fread. rewrite Hs, (proj1 (proj2 Hr _ salt_req)).
  destruct (negb _); [apply Hfail|]. destruct (is_none _); [apply Hfail|].
  apply wp_bind, wp_draw_bytes; [done|]. intros w1 Hs1 Hf1 Hn1. apply wp_bind, wp_draw_bytes; [apply Hs1|]. intros w2 Hs2 Hf2 _.
  rewrite Hn1, <- Hs0, <- Hw0. pose proof (stepped_trans _ _ _ _ _ _ _ _ Hs1 Hs2) as Hs12.
  destruct (negb prepare); [apply wp_ret; by split|].
  assert (Hcur : cur w2 = cur w) by (unfold cur; by rewrite Hf2, Hf1).
  apply wp_bind_res. eapply wp_mono; [apply wp_commitNewKEKFiles; [apply Hs12|by eapply readable_stepped|by rewrite Hcur]|].
  intros [[]|e] w3 (Hs3 & _ & Hok); [apply wp_ret|]; (split; [by eapply stepped_trans|]); [|done]. intros _ _. by apply Hok.
Qed.
End kek.

(** * Boot *)

Section boot.
Context (c N : gmap path bytes) (lossy calm : Prop) (db : keydb) (K : gmap path bytes -> Prop).
Context (HN : forall p d, N !! p = Some d -> p ∈ required /\ forall d', c !! p = Some d' -> HashBytes d <> HashBytes d').
Context (K_off : forall f g, off f g -> K f -> K g) (K_man : forall f d, K f -> K (<[manifestPath := d]> f)).
Context (K_move : forall f p d, p ∈ required -> N !! p = Some d -> f !! (pending p) = Some d -> K f -> K (<[p := d]> (delete (pending p) f))).
Abbreviation R := (Recov K c N).
Abbreviation wpc := (wp (crashed D lossy R calm db)).
Abbreviation ready := (ready D lossy R calm db).
Abbreviation stepped := (stepped D lossy R calm db).
Abbreviation at_rest := (at_rest decodeManifest required manifestPath c N K).
Context (GenerateKEK : bytes -> bytes -> bytes) (wrapKey : bytes -> bytes -> bytes -> bytes) (unwrapKey : bytes -> bytes -> option bytes).

(** Loading an existing key set only reads. *)
Lemma reads_ensureSaltExists x w : holds x (cur w) -> readable w -> exists s, x !! saltPath = Some s /\
  reads (ensureSaltExists saltPath) w (if negb (length s =? 32)%nat then Err ErrSaltSize else Ok s).
Proof.
  intros Hh Hr. destruct (Hh _ salt_req) as (s & Hx & Hs). exists s. split; [done|]. eapply reads_bind; [reflexivity|].
  cbv beta. change (f_cur (w_fs w)) with (cur w). rewrite Hs. simpl.
  eapply reads_bind; [eapply reads_bind; [apply reads_fread; [exact Hs|by apply Hr]|apply reads_ret]|]. cbv beta iota.
  by destruct (negb _).
Qed.

Lemma reads_Initialize x w passphrase : holds x (cur w) -> readable w -> exists s wr, x !! saltPath = Some s /\ x !! dekPath = Some wr /\
  reads (Initialize encodeManifest decodeManifest required manifestPath saltPath dekPath GenerateKEK wrapKey unwrapKey passphrase) w
    (if bool_decide (passphrase = []) then Err ErrPassphraseEmpty
     else if negb (length s =? 32)%nat then Err ErrSaltSize
     else match unwrapKey wr (GenerateKEK passphrase s) with
          | None => Err ErrUnwrapDEK
          | Some dek => if negb (length dek =? 32)%nat then Err ErrDEKSize else Ok (mkKM (Some dek) wr)
          end).
Proof.
  intros Hh Hr. destruct (reads_ensureSaltExists x w Hh Hr) as (s & Hs & Hsalt). destruct (Hh _ dek_req) as (wr & Hx & Hwr).
  exists s, wr. split_and!; [done|done|]. unfold Initialize, deriveKEK, bind_res.
  case_bool_decide; [eapply reads_bind; [apply reads_ret|apply reads_ret]|].
  destruct (negb (length s =? 32)%nat).
  { eapply reads_bind; [eapply reads_bind; [exact Hsalt|apply reads_ret]|apply reads_ret]. }
  eapply reads_bind; [eapply reads_bind; [exact Hsalt|apply reads_ret]|]. cbv beta iota.
  assert (Hens : forall kek, reads (ensureWrappedDEKExists encodeManifest decodeManifest required manifestPath dekPath wrapKey kek) w (Ok ())).
  { intros kek. eapply reads_bind; [reflexivity|]. cbv beta. change (f_cur (w_fs w)) with (cur w). rewrite Hwr. apply reads_ret. }
  eapply reads_bind; [apply Hens|]. cbv beta iota. unfold unwrapDEK, bind_res.
  eapply reads_bind; [eapply reads_bind; [apply reads_fread; [exact Hwr|by apply Hr]|apply reads_ret]|]. cbv beta iota.
  destruct (unwrapKey _ _) as [d|]; [|apply reads_ret]. by destruct (negb _).
Qed.

Abbreviation settle := (settleKeys encodeManifest decodeManifest required manifestPath dekPath aside).
Abbreviation boot := (bootKeys encodeManifest decodeManifest required manifestPath saltPath dekPath aside GenerateKEK wrapKey unwrapKey).
Definition settle_post (w : world) (r : res rotate_err unit) (w' : world) : Prop :=
  stepped w w' /\ (calm -> r = Ok ()) /\ (r = Ok () -> exists x, at_rest x (cur w')).

Lemma wp_probe (Q : bool -> world -> Prop) w :
  ready w -> (forall b w', stepped w w' -> w_fs w' = w_fs w -> (calm -> b = true) -> Q b w') -> wpc probe Q w.
Proof.
  intros (Ha & Hdb & Hq) HQ. unfold wp, probe. rewrite next_fault_eq.
  assert (Hs : stepped w (mkWorld (w_fs w) (w_unreadable w) (w_db w) (tail (w_faults w)) (w_nonces w))).
  { split; [done|]. split_and!; auto. simpl. intros C. by rewrite Hq. }
  assert (Hc : default FRun (head (w_faults w)) <> FRun -> ~ calm) by (intros Hne C; by rewrite Hq in Hne).
  destruct (default FRun (head (w_faults w))); try (apply HQ; auto; intros C; by destruct Hc); split_and!; auto; by apply Hc.
Qed.

Lemma wp_reconcile_step (Q : res rotate_err ReconcileResult -> world -> Prop) w : ready w -> readable w ->
  (forall e w', stepped w w' -> ~ calm -> Q (Err e) w') ->
  (forall a x w', stepped w w' -> at_rest x (cur w') -> Q (Ok a) w') ->
  wpc (or_err ErrKeySet (ReconcileKeySet encodeManifest decodeManifest required manifestPath dekPath aside)) Q w.
Proof.
  intros Hw Hr HE HO. apply wp_or_err. eapply wp_mono; [by apply (wp_Reconcile _ _ _ _ _ _ _ kp c N lossy calm db K K_off K_man K_move HN)|].
  intros [a|e] w' (Hs & Hc & Hx).
  - destruct (Hx a eq_refl) as [x Hx']. by eapply HO.
  - apply HE; [done|]. intros C. by destruct (Hc C).
Qed.

(** Boot without a redo marker: reconcile, then discard a staged DEK. *)
Lemma wp_settle_none w : db_marker db = None -> (forall x f, at_rest x f -> K (delete (pending dekPath) f)) ->
  ready w -> readable w -> wpc settle (settle_post w) w.
Proof.
  intros Hmk HK Hw Hr. apply wp_bind_res, wp_reconcile_step; [done|done| |].
  { intros e w' Hs Hc. split_and!; [done|by intros ?%Hc|done]. }
  intros _ x w1 Hs1 Hx1. apply wp_bind, wp_probe; [apply Hs1|]. intros b w2 Hs2 Hf2 Hb. pose proof (stepped_trans _ _ _ _ _ _ _ _ Hs1 Hs2) as Hs12.
  assert (Hx2 : at_rest x (cur w2)) by (unfold cur; by rewrite Hf2).
  destruct b; [|apply wp_ret; split_and!; [done|intros C; by discriminate (Hb C)|done]]. cbn [negb].
  apply wp_bind. unfold wp at 1, read_db. destruct Hs2 as (_ & Hw2). assert (Hdb2 : w_db w2 = db) by apply Hw2. rewrite Hdb2, Hmk.
  assert (Hdel : at_rest x (delete (pending dekPath) (cur w2))).
  { destruct Hx2 as (? & ? & ?). split_and!; [done|by eapply HK; split_and!|by apply rest_del]. }
  apply wp_bind, wp_bind, wp_fstat. destruct (negb _).
  - apply wp_bind, wp_fremove; [done|exact (kp_req_dir _ _ _ _ _ kp _ dek_req)|by eapply at_rest_R|]. intros r w3 Hs3 He3. apply wp_ret, wp_ret.
    split_and!; [by eapply stepped_trans|done|]. intros _. exists x. destruct He3 as [-> | ->]; done.
  - apply wp_ret, wp_ret. split_and!; eauto.
Qed.

(** A boot attempt with any passphrase leaves what settling left. *)
Lemma wp_boot passphrase w : wpc settle (settle_post w) w -> readable w -> wpc (boot passphrase) (fun _ w' => stepped w w') w.
Proof.
  intros Hset Hr. apply wp_bind_res. eapply wp_mono; [exact Hset|]. intros [[]|e] w1 (Hs1 & _ & Hx); [|done].
  destruct (Hx eq_refl) as (x & Hx1). destruct (at_rest_rest _ _ _ _ _ _ _ _ Hx1) as (m & _ & Hh & _).
  destruct (reads_Initialize x w1 passphrase Hh) as (s & wr & _ & _ & Hi); [by eapply readable_stepped|].
  eapply wp_reads; [exact Hi|done].
Qed.
End boot.

(** * DEK rotation *)

Section dek.
Context (c : gmap path bytes) (newW : bytes) (calm : Prop) (db0 : keydb) (db1 : keydb) (oldW : bytes).
Context (Hold : c !! dekPath = Some oldW) (Hfresh : HashBytes newW <> HashBytes oldW) (Hmk1 : db_marker db1 <> None).
Let N : gmap path bytes := {[dekPath := newW]}.
(** The new DEK is staged beside the old one, or in its place. *)
Definition dek_kept (f : gmap path bytes) : Prop :=
  f !! pending dekPath = Some newW /\ f !! dekPath = Some oldW \/ f !! dekPath = Some newW /\ f !! pending dekPath = None.
Abbreviation K := dek_kept.
Abbreviation R1 := (Recov K c N).
Definition db2 : keydb := set_marker None db1.
(** The rows are under the new DEK and the marker is set; or the marker is cleared, and then only a process
    restart is considered. *)
Definition dek_marked (w : world) : Prop := w_db w = db1 /\ always D True R1 (w_fs w).
Definition dek_cleared (w : world) : Prop := w_db w = db2 /\ always D False (Recov (fun _ => True) (N ∪ c) ∅) (w_fs w).
Abbreviation C := (fun w => (dek_marked w \/ dek_cleared w) /\ ~ calm).
Abbreviation ready := (ready D True R1 calm db1).
Abbreviation stepped := (stepped D True R1 calm db1).
Abbreviation at_rest := (at_rest decodeManifest required manifestPath c N K).

Lemma HN_dek p d : N !! p = Some d -> p ∈ required /\ forall d', c !! p = Some d' -> HashBytes d <> HashBytes d'.
Proof. unfold N. rewrite lookup_singleton_Some. intros [<- <-]. split; [done|]. rewrite Hold. by intros d' [= <-]. Qed.
Lemma dek_apart : dekPath <> pending dekPath.
Proof. apply pending_apart; auto. Qed.
Lemma K_dek_off f g : off f g -> K f -> K g.
Proof.
  intros Ho. unfold K. rewrite <- (Ho dekPath), <- (Ho (pending dekPath)); auto;
    [by apply (kp_pending_staging _ _ _ _ _ kp)|by apply (kp_staging _ _ _ _ _ kp)].
Qed.
Lemma K_dek_man f d : K f -> K (<[manifestPath := d]> f).
Proof.
  assert (manifestPath <> pending dekPath) by by apply not_eq_sym, (kp_pending_manifest _ _ _ _ _ kp).
  assert (manifestPath <> dekPath) by (intros Heq; apply (kp_manifest _ _ _ _ _ kp); by rewrite Heq).
  unfold K. by rewrite !lookup_insert_ne.
Qed.
Lemma K_dek_moved f : K (<[dekPath := newW]> (delete (pending dekPath) f)).
Proof. right. split; [by simplify_map_eq|]. rewrite lookup_insert_ne by apply dek_apart. by simplify_map_eq. Qed.
Lemma K_dek_move f p d : p ∈ required -> N !! p = Some d -> f !! (pending p) = Some d -> K f -> K (<[p := d]> (delete (pending p) f)).
Proof. unfold N. rewrite lookup_singleton_Some. intros _ [<- <-] _ _. apply K_dek_moved. Qed.

Lemma N_dek_new : (N ∪ c) !! dekPath = Some newW.
Proof. apply lookup_union_Some_l. unfold N. by simplify_map_eq. Qed.
Lemma newW_oldW : newW <> oldW.
Proof. intros E. by destruct Hfresh; rewrite E. Qed.

(** Which set a settled state is tells whether the new DEK is in place. *)
Lemma at_rest_which x f : at_rest x f ->
  (x = c /\ f !! pending dekPath = Some newW) \/ (x = N ∪ c /\ f !! pending dekPath = None).
Proof.
  intros (Hx & HK & (m & _ & Hh & _)). destruct (Hh _ dek_req) as (d & Hxd & Hfd).
  destruct Hx as [-> | ->]; [left|right]; (split; [done|]).
  - rewrite Hold in Hxd. injection Hxd as <-. destruct HK as [[? _]|[Hd _]]; [done|]. rewrite Hfd in Hd. injection Hd as Hd. by destruct newW_oldW.
  - rewrite N_dek_new in Hxd. injection Hxd as <-. destruct HK as [[_ Hd]|[_ ?]]; [|done]. rewrite Hfd in Hd. injection Hd as Hd. by destruct newW_oldW.
Qed.

Lemma cleared_of w : w_db w = db2 -> Forall (fun o => op_dir o = D) (f_log (w_fs w)) -> rest (N ∪ c) (cur w) -> dek_cleared w.
Proof. intros Hdb Hd Hr. split; [done|]. split_and!; [done|split; [done|by left]|done]. Qed.

Lemma wp_delete_marker (Q : res rotate_err unit -> world -> Prop) w : ready w -> rest (N ∪ c) (cur w) ->
  (forall r w', w_unreadable w' = w_unreadable w -> cur w' = cur w -> (dek_marked w' \/ dek_cleared w') -> (calm -> r = Ok ()) -> Q r w') ->
  wp C delete_marker Q w.
Proof.
  intros (Ha & Hdb & Hq) Hr HQ. unfold wp, delete_marker. rewrite next_fault_eq.
  assert (Hc : default FRun (head (w_faults w)) <> FRun -> ~ calm) by (intros Hne Hcalm; by rewrite Hq in Hne).
  assert (Hmark : forall fl, dek_marked (mkWorld (w_fs w) (w_unreadable w) (w_db w) fl (w_nonces w))) by by split.
  assert (Hclear : forall fl, dek_cleared (set_db (set_marker None (w_db w)) (mkWorld (w_fs w) (w_unreadable w) (w_db w) fl (w_nonces w)))).
  { intros fl. apply cleared_of; [unfold db2; simpl; by rewrite Hdb|apply Ha|done]. }
  destruct (default FRun (head (w_faults w)));
    try (apply HQ; [done|done|auto|first [done|intros Hcalm; exfalso; by apply Hc]]); split; auto; by apply Hc.
Qed.

Abbreviation wp1 := (wp (crashed D True R1 calm db1)).
Definition installed (f : gmap path bytes) : Prop := K f /\ rest (N ∪ c) f.

Lemma installed_R f : installed f -> R1 f.
Proof. intros [? ?]. split; [done|]. right. by left. Qed.
Lemma R1_off : forall f g, off f g -> R1 f -> R1 g.
Proof. apply (Recov_off _ _ _ _ _ kp). apply K_dek_off. Qed.

Lemma wp_dek_commit op m w : ready w -> readable w -> man (cur w) m -> in_progress m c N -> installed (cur w) -> f_log (w_fs w) = [] ->
  wp1 (let! _ := commitKeySet encodeManifest decodeManifest required manifestPath op N in ret (Ok () : res rotate_err unit))
    (fun r w' => stepped w w' /\ r = Ok () /\ always D True installed (w_fs w')) w.
Proof.
  intros Hw Hr Hm Hpr Hin Hl. pose proof Hin as [HK (m' & Hm' & Hh & _)].
  assert (Hw' : KeyFS.ready D True installed calm db1 w).
  { destruct Hw as (_ & ? & ?). split_and!; auto. unfold cur, f_cur in Hin. rewrite Hl in Hin.
    destruct (w_fs w) as [dsk lg]. simpl in *. subst lg. by apply always_clean. }
  eapply wp_crash_mono; [intros w'; apply crashed_mono, installed_R|]. apply wp_bind, wp_bind.
  assert (Hoff : forall f g, off f g -> installed f -> installed g).
  { intros f g Ho [? ?]. split; [by eapply K_dek_off|by eapply rest_off]. }
  destruct Hpr as (Hrec & _ & Hst). apply (wp_CommitManifest _ _ _ _ _ kp _ _ _ _ Hoff _ _ (N ∪ c) m); auto.
  - intros p d Hp. by apply lookup_union_Some_l.
  - intros p d Hp Hn Hd. rewrite lookup_union_r in Hd by done. by apply Hrec.
  - intros mm Hmm. split; [by apply K_dek_man|done].
  - intros r w' Hs _ _ _ _. apply wp_ret, wp_ret. split_and!; [eapply stepped_mono; [apply installed_R|exact Hs]|done|apply Hs].
Qed.

Lemma wp_install_dek w : ready w -> readable w -> rest c (cur w) -> cur w !! pending dekPath = Some newW ->
  wp1 (install_dek encodeManifest decodeManifest required manifestPath dekPath newW)
    (fun r w' => stepped w w' /\ (calm -> r = Ok ()) /\ (r = Ok () -> always D True installed (w_fs w'))) w.
Proof.
  intros Hw Hr (m0 & Hm0 & Hh0 & Hset0) Hpend. assert (HK : K (cur w)) by apply (ready_cur _ _ _ _ _ _ Hw).
  set (P := fun w0 (r : res rotate_err unit) w' => stepped w0 w' /\ (calm -> r = Ok ()) /\ (r = Ok () -> always D True installed (w_fs w'))).
  assert (HP : forall w0 w1, stepped w0 w1 -> forall r w', P w1 r w' -> P w0 r w').
  { intros w0 w1 Hs r w' (? & ? & ?). split_and!; auto. by eapply stepped_trans. }
  assert (HPe : forall w0 w' e, stepped w0 w' -> ~ calm -> P w0 (Err e) w') by by intros; split_and!.
  change (wp1 (install_dek encodeManifest decodeManifest required manifestPath dekPath newW) (P w) w).
  apply wp_bind_res, wp_or_err, (wp_StageManifest _ _ _ _ _ kp _ _ _ _ R1_off _ c N m0); auto using HN_dek.
  { intros mm Hmm. split; [by apply K_dek_man|by left]. }
  intros r w1 Hs1 Hrest1 Hok1 Hsame1 Hc1. destruct r as [[]|e]; [|apply HPe; [done|]; intros Hcl; by specialize (Hc1 Hcl)].
  destruct Hok1 as (_ & m & Hm & Hpr); [done|]. assert (Hr1 : readable w1) by by eapply readable_stepped.
  assert (Hp1 : cur w1 !! pending dekPath = Some newW).
  { rewrite Hsame1; [done|by apply (kp_pending_manifest _ _ _ _ _ kp)|by apply (kp_pending_staging _ _ _ _ _ kp)]. }
  assert (Hf1 : finishing required c N [dekPath] (cur w1)).
  { destruct Hrest1 as (? & _ & Hh1 & _). intros p Hp. destruct (Hh1 p Hp) as (d & Hcd & Hfd).
    destruct (N !! p) as [d'|] eqn:En; [|rewrite Hcd, Hfd; eauto]. apply lookup_singleton_Some in En as [<- <-].
    left. split_and!; [apply elem_of_cons; by left|eauto|by rewrite Hcd|done]. }
  destruct (finishing_rename c N K K_dek_move dekPath [] (cur w1) m newW) as (_ & Hm2 & Hf2 & HR2); auto.
  { apply (ready_cur _ _ _ _ _ _ (proj2 Hs1)). } { apply not_elem_of_nil. } { unfold N. by simplify_map_eq. }
  eapply wp_mono; [|by apply HP]. apply wp_bind_res, wp_or_err, wp_frename; [apply Hs1|exact (kp_req_dir _ _ _ _ _ kp _ dek_req)| |].
  { intros d Hd. rewrite Hp1 in Hd. by injection Hd as <-. }
  intros r w2 Hs2 He2 Hc2. destruct r as [[]|e]; [|apply HPe; [done|]; intros Hcl; rewrite Hp1 in Hc2; by specialize (Hc2 Hcl (mk_is_Some _ _ eq_refl))].
  destruct He2 as [[_ ?]|(d & Hd & He2)]; [done|]. rewrite Hp1 in Hd. injection Hd as <-. rewrite <- He2 in *.
  assert (Hr2 : readable w2) by by eapply readable_stepped. eapply wp_mono; [|by apply HP].
  apply wp_bind_res, wp_or_err. rewrite (kp_req_dir _ _ _ _ _ kp _ dek_req). apply wp_fsyncdir; [apply Hs2|].
  intros r w3 Hs3 He3 Hl3 Hc3. destruct r as [[]|e]; [|apply HPe; [done|]; intros Hcl; by specialize (Hc3 Hcl)].
  assert (Hr3 : readable w3) by by eapply readable_stepped. eapply wp_mono; [|by apply HP].
  eapply wp_mono; [apply (wp_dek_commit _ m); rewrite ?He3; auto; [apply Hs3|]|].
  - split; [rewrite He2; apply K_dek_moved|]. by eapply (rest_new c N HN_dek).
  - intros r w4 (? & -> & ?). by split_and!.
Qed.

Lemma crashed_C w : crashed D True R1 calm db1 w -> C w.
Proof. intros (? & ? & ?). split; [|done]. by left; split. Qed.

Definition marked_post (w : world) (r : res rotate_err unit) (w' : world) : Prop :=
  (dek_marked w' \/ dek_cleared w') /\ w_unreadable w' = w_unreadable w /\ (calm -> r = Ok ()) /\ (r = Ok () -> rest (N ∪ c) (cur w')).

(** Boot with the redo marker set puts the new DEK in place. *)
Lemma wp_settle_marked w : ready w -> readable w ->
  wp C (settleKeys encodeManifest decodeManifest required manifestPath dekPath aside) (marked_post w) w.
Proof.
  intros Hw Hr. assert (Herr : forall w0 w' e, stepped w0 w' -> w_unreadable w0 = w_unreadable w -> ~ calm -> marked_post w (Err e) w').
  { intros w0 w' e (Hu & Ha & Hdb & _) Hu0 Hnc. split_and!; [by left; split|by rewrite Hu|done|done]. }
  apply wp_bind_res. eapply wp_crash_mono; [apply crashed_C|].
  apply (wp_reconcile_step c N True calm db1 K HN_dek K_dek_off K_dek_man K_dek_move); [done|done|eauto|].
  intros _ x w1 Hs1 Hx1. apply wp_bind. eapply wp_crash_mono; [apply crashed_C|]. apply (wp_probe c N True calm db1 K); [apply Hs1|].
  intros b w2 Hs2 Hf2 Hb. pose proof (stepped_trans _ _ _ _ _ _ _ _ Hs1 Hs2) as Hs12.
  assert (Hx2 : at_rest x (cur w2)) by (unfold cur; by rewrite Hf2). assert (Hr2 : readable w2) by by eapply readable_stepped.
  destruct b; [|apply wp_ret; eapply Herr; [exact Hs12|done|intros Hcl; by discriminate (Hb Hcl)]]. cbn [negb].
  apply wp_bind. unfold wp at 1, read_db. assert (Hdb2 : w_db w2 = db1) by apply Hs2. rewrite Hdb2.
  destruct (db_marker db1) as [v|] eqn:Ev; [|done]. apply wp_bind, wp_fstat.
  destruct (at_rest_which _ _ Hx2) as [[-> Hp]|[-> Hp]]; rewrite Hp; simpl.
  - apply wp_bind_res. apply wp_bind, wp_fstat. rewrite Hp. simpl. apply wp_bind_res, wp_or_err, wp_fread. rewrite Hp, (proj2 (proj2 Hr2 _ dek_req)).
    eapply wp_crash_mono; [apply crashed_C|]. eapply wp_mono; [apply wp_install_dek; [apply Hs2|done|apply Hx2|done]|].
    intros [[]|e] w3 (Hs3 & Hc3 & Hok3); [|eapply Herr; [exact Hs3|apply Hs12|intros Hcl; by specialize (Hc3 Hcl)]].
    destruct (always_cur _ _ _ _ (Hok3 eq_refl)) as [_ Hrest3]. apply wp_delete_marker; [apply Hs3|done|].
    intros r w4 Hu4 He4 Hph Hc4. split_and!; [done| |done|by rewrite He4]. rewrite Hu4. destruct Hs3 as [-> _]. apply Hs12.
  - destruct Hx2 as (_ & _ & Hrest2). destruct (dekEpochApplies db1).
    + apply wp_ret. split_and!; [left; split; [done|apply Hs2]|apply Hs12|done|done].
    + apply wp_bind_res, wp_bind, wp_fstat. rewrite Hp. simpl. apply wp_ret, wp_delete_marker; [apply Hs2|done|].
      intros r w3 Hu3 He3 Hph Hc3. split_and!; [done| |done|by rewrite He3]. rewrite Hu3. apply Hs12.
Qed.
End dek.

(** The rotation itself, under every schedule. *)
Section dek_rotation.
Context (c : gmap path bytes) (newDEK newW oldW s : bytes) (db0 : keydb) (newKeyVersion passphrase : bytes).
Context (GenerateKEK : bytes -> bytes -> bytes) (wrapKey : bytes -> bytes -> bytes -> bytes) (fingerprint : bytes -> bytes).
Context (Hold : c !! dekPath = Some oldW) (Hsalt : c !! saltPath = Some s) (Hfresh : HashBytes newW <> HashBytes oldW) (Hmk0 : db_marker db0 = None).
Let db1 := swept fingerprint db0 newDEK newKeyVersion.
Let N : gmap path bytes := {[dekPath := newW]}.
Abbreviation R0 := (Recov (fun _ => True) c ∅).
(** The rows are still under the old DEK, and the key set is the old one. *)
Definition dek_unswept (w : world) : Prop := w_db w = db0 /\ always D True R0 (w_fs w).
Definition dek_phase (w : world) : Prop := dek_unswept w \/ dek_marked c newW db1 oldW w \/ dek_cleared c newW db1 w.
Abbreviation wp0 := (wp (crashed D True R0 False db0)).
Abbreviation ready0 := (ready D True R0 False db0).
Abbreviation stepped0 := (stepped D True R0 False db0).

Lemma R0_rest f : rest c f -> R0 f.
Proof. intros. split; [done|by left]. Qed.
Lemma stepped0_phase w w' : stepped0 w w' -> dek_phase w'.
Proof. intros (_ & ? & ? & _). left. by split. Qed.
Lemma crashed0_phase w : crashed D True R0 False db0 w -> dek_phase w.
Proof. intros (? & ? & _). left. by split. Qed.

Lemma crashed1_phase w : crashed D True (Recov (dek_kept newW oldW) c N) False db1 w -> dek_phase w.
Proof. intros (? & ? & _). right; left. by split. Qed.

Lemma wp0_drop w (Q : res io_err unit -> world -> Prop) : ready0 w -> rest c (cur w) ->
  (forall r w', stepped0 w w' -> rest c (cur w') -> Q r w') -> wp0 (fremove (pending dekPath)) Q w.
Proof.
  intros Hw Hr HQ. apply wp_fremove; [done|exact (kp_req_dir _ _ _ _ _ kp _ dek_req)|by apply R0_rest, rest_del|].
  intros r w' Hs He. apply HQ; [done|]. destruct He as [-> | ->]; auto using rest_del.
Qed.

(** The sweep's transaction: rolled back, or committed with the new DEK durably staged. *)
Lemma wp_sweepFn (Q : res rotate_err unit -> world -> Prop) w : ready0 w -> rest c (cur w) -> cur w !! pending dekPath = Some newW -> f_log (w_fs w) = [] ->
  (forall r w', stepped0 w w' -> cur w' = cur w -> r <> Ok () -> Q r w') ->
  (forall r w', ready D True (Recov (dek_kept newW oldW) c N) False db1 w' -> w_unreadable w' = w_unreadable w -> cur w' = cur w ->
     r = Ok () \/ r = Err ErrSweepUnknown -> Q r w') ->
  wp dek_phase (sweepFn fingerprint newDEK newKeyVersion) Q w.
Proof.
  intros (Ha & Hdb & _) Hrest Hp Hl HN HY. unfold wp, sweepFn. rewrite next_fault_eq.
  assert (HR : Recov (dek_kept newW oldW) c N (cur w)).
  { split; [|by left]. left. split; [done|]. destruct Hrest as (m & _ & Hh & _). destruct (Hh _ dek_req) as (d & Hd & ->). congruence. }
  assert (Hal : always D True (Recov (dek_kept newW oldW) c N) (w_fs w)).
  { unfold cur, f_cur in HR. rewrite Hl in HR. destruct (w_fs w) as [dsk lg]. simpl in *. subst lg. by apply always_clean. }
  assert (Hs0 : forall fl, stepped0 w (mkWorld (w_fs w) (w_unreadable w) (w_db w) fl (w_nonces w))) by (intros fl; split; [done|by split_and!]).
  assert (Hdb1 : swept fingerprint (w_db w) newDEK newKeyVersion = db1) by by rewrite Hdb.
  destruct (default FRun (head (w_faults w))); try (apply HN; [apply Hs0|done|done]); try (apply HY; [by split_and!|done|done|auto]).
  - eapply stepped0_phase, Hs0.
  - right; left. by split.
Qed.

Lemma wp_draw_bytes0 n (Q : bytes -> world -> Prop) w :
  ready0 w -> (forall w', stepped0 w w' -> w_fs w' = w_fs w -> w_nonces w' = tail (w_nonces w) -> Q (resize n Byte.x00 (default [] (head (w_nonces w)))) w') ->
  wp0 (draw_bytes n) Q w.
Proof. intros (Ha & Hdb & Hq) HQ. unfold wp, draw_bytes, bind, draw_nonce, ret. by apply HQ. Qed.

Lemma wp_km_RotateDEKWithSweep km w : ready0 w -> readable w -> rest c (cur w) ->
  newDEK = resize 32 Byte.x00 (default [] (head (w_nonces w))) ->
  newW = wrapKey newDEK (GenerateKEK passphrase s) (resize 12 Byte.x00 (default [] (head (tail (w_nonces w))))) ->
  wp dek_phase (km_RotateDEKWithSweep encodeManifest decodeManifest required manifestPath saltPath dekPath GenerateKEK wrapKey fingerprint km passphrase newKeyVersion)
    (fun r w' => dek_phase w' /\ forall km', r = Ok km' -> ready D True (Recov (dek_kept newW oldW) c N) False db1 w' /\ always D True (installed c newW oldW) (w_fs w')) w.
Proof.
  intros Hw Hr Hrest HD HW.
  set (P := fun (r : res rotate_err KeyManager) w' => dek_phase w' /\ forall km', r = Ok km' -> ready D True (Recov (dek_kept newW oldW) c N) False db1 w' /\ always D True (installed c newW oldW) (w_fs w')).
  assert (HP0 : forall e w0 w', stepped0 w0 w' -> P (Err e) w') by (intros e w0 w' Hs; split; [by eapply stepped0_phase|done]).
  unfold km_RotateDEKWithSweep. destruct (km_currentDEK km); [|apply wp_ret; by eapply HP0, stepped_refl].
  destruct Hrest as (m & Hm & Hh & Hset). assert (Hrest : rest c (cur w)) by (exists m; auto).
  destruct (reads_ensureSaltExists c w Hh Hr) as (s' & Hs' & Hsr). rewrite Hsalt in Hs'. injection Hs' as <-.
  apply wp_bind_res. unfold deriveKEK. case_bool_decide; [apply wp_ret; by eapply HP0, stepped_refl|].
  apply wp_bind_res. eapply wp_reads; [exact Hsr|]. destruct (negb _); [by eapply HP0, stepped_refl|]. apply wp_ret.
  apply wp_bind. eapply wp_crash_mono; [apply crashed0_phase|]. apply wp_draw_bytes0; [done|]. intros w1 Hs1 Hf1 Hn1.
  apply wp_bind. eapply wp_crash_mono; [apply crashed0_phase|]. apply wp_draw_bytes0; [apply Hs1|]. intros w2 Hs2 Hf2 _.
  rewrite Hn1, <- HD, <- HW. assert (Hc2 : cur w2 = cur w) by (unfold cur; by rewrite Hf2, Hf1).
  assert (Hr2 : readable w2) by (eapply readable_stepped; [exact Hs2|]; by eapply readable_stepped).
  apply wp_bind_res, wp_or_err. eapply wp_crash_mono; [apply crashed0_phase|]. apply wp_fwrite; [apply Hs2|exact (kp_req_dir _ _ _ _ _ kp _ dek_req)| |].
  { intros d. rewrite Hc2. by apply R0_rest, rest_put. }
  intros r w3 Hs3 _ Ho3 _. destruct r as [[]|e]; [|by eapply HP0]. specialize (Ho3 eq_refl).
  assert (Hrest3 : rest c (cur w3)) by (rewrite Ho3, Hc2; by apply rest_put).
  apply wp_bind. eapply wp_crash_mono; [apply crashed0_phase|]. rewrite (kp_req_dir _ _ _ _ _ kp _ dek_req). apply wp_fsyncdir; [apply Hs3|].
  intros r w4 Hs4 He4 Hl4 _. rewrite <- He4 in Hrest3. destruct r as [[]|e]; cycle 1.
  { apply wp_bind. eapply wp_crash_mono; [apply crashed0_phase|]. apply wp0_drop; [apply Hs4|done|]. intros _ w5 Hs5 _. apply wp_ret. by eapply HP0. }
  assert (Hp4 : cur w4 !! pending dekPath = Some newW) by (rewrite He4, Ho3; by simplify_map_eq).
  assert (Hr4 : readable w4) by (eapply readable_stepped; [exact Hs4|]; by eapply readable_stepped).
  apply wp_bind, wp_sweepFn; auto; [apply Hs4| |].
  - intros r w5 Hs5 He5 Hne. destruct r as [[]|e]; [done|]. rewrite <- He5 in Hrest3.
    destruct e; try (apply wp_bind; eapply wp_crash_mono; [apply crashed0_phase|]; apply wp0_drop; [apply Hs5|done|]; intros _ w6 Hs6 _; apply wp_ret; by eapply HP0).
    apply wp_ret. by eapply HP0.
  - intros r w5 Hw5 Hu5 He5 Hcase. destruct Hcase as [-> | ->].
    2:{ apply wp_ret. split; [right; left; split; apply Hw5|done]. }
    apply wp_bind_res. eapply wp_crash_mono; [apply crashed1_phase|]. rewrite <- He5 in Hrest3, Hp4.
    eapply wp_mono; [apply (wp_install_dek c newW False db1 oldW Hold Hfresh w5 Hw5); auto; unfold KeySetSpec.readable; by rewrite Hu5|].
    intros [[]|e] w6 (Hs6 & _ & Hok); [apply wp_ret|]; (split; [right; left; split; apply Hs6|]); [|done]. intros km' _. split; [apply Hs6|by apply Hok].
Qed.

Lemma set_marker_same : set_marker None db0 = db0.
Proof. unfold set_marker. rewrite <- Hmk0. by destruct db0. Qed.

Lemma wp_clearCompleted own (Q : res rotate_err unit -> world -> Prop) w : ready0 w ->
  (forall r w', stepped0 w w' -> w_fs w' = w_fs w -> w_nonces w' = w_nonces w -> Q r w') ->
  wp0 (clearCompletedRotationMarker dekPath own) Q w.
Proof.
  intros Hw HQ. assert (Hdb : w_db w = db0) by apply Hw. apply wp_bind. unfold wp at 1, read_db. apply wp_bind, wp_fstat.
  destruct (_ || _); [apply wp_ret, HQ; auto; by apply stepped_refl|]. case_bool_decide; [|apply wp_ret, HQ; auto; by apply stepped_refl].
  cbn [negb]. unfold wp, delete_marker. rewrite next_fault_eq. cbn [w_db]. rewrite Hdb, set_marker_same.
  assert (Hs : forall fl, stepped0 w (mkWorld (w_fs w) (w_unreadable w) db0 fl (w_nonces w))) by (intros fl; split; [done|]; split; [apply Hw|by split]).
  assert (Hc : forall fl, crashed D True R0 False db0 (mkWorld (w_fs w) (w_unreadable w) db0 fl (w_nonces w))) by (intros fl; split; [apply Hw|split; [done|by intros []]]).
  destruct (default FRun (head (w_faults w))); try (apply HQ; [apply Hs|done|done]); apply Hc.
Qed.

Lemma wp_RotateDEKWithSweep km w : ready0 w -> readable w -> rest c (cur w) ->
  newDEK = resize 32 Byte.x00 (default [] (head (w_nonces w))) ->
  newW = wrapKey newDEK (GenerateKEK passphrase s) (resize 12 Byte.x00 (default [] (head (tail (w_nonces w))))) ->
  wp dek_phase (RotateDEKWithSweep encodeManifest decodeManifest required manifestPath saltPath dekPath GenerateKEK wrapKey fingerprint km passphrase newKeyVersion)
    (fun r w' => dek_phase w' /\ forall km', r = Ok km' -> db_rows (w_db w') = newDEK) w.
Proof.
  intros Hw Hr Hrest HD HW. unfold RotateDEKWithSweep.
  destruct (km_currentDEK km) as [dek|]; [|apply wp_ret; split; [by eapply stepped0_phase, stepped_refl|done]].
  apply wp_bind_res. eapply wp_crash_mono; [apply crashed0_phase|]. apply wp_clearCompleted; [done|].
  intros r w1 Hs1 Hf1 Hn1. destruct r as [[]|e]; [|split; [by eapply stepped0_phase|done]].
  apply wp_bind_res. eapply wp_mono; [apply wp_km_RotateDEKWithSweep; rewrite ?Hn1; auto|].
  - apply Hs1. - by eapply readable_stepped. - unfold cur. by rewrite Hf1.
  - intros [km'|e] w2 [Hph Hok]; [|done]. destruct (Hok km' eq_refl) as [Hw2 Hin]. apply wp_bind.
    eapply wp_crash_mono with (C := fun w => (dek_marked c newW db1 oldW w \/ dek_cleared c newW db1 w) /\ ~ False); [intros w' [? _]; by right|].
    apply (wp_delete_marker c newW False db1 oldW); [done|apply (always_cur _ _ _ _ Hin)|]. intros r w3 _ _ H _. apply wp_ret.
    split; [by right|]. intros _ _. by destruct H as [[-> _]|[-> _]].
Qed.
End dek_rotation.
End spec.
