(* ===== verification/KeyCrash.v ===== *)
(** What survives an interrupted key rotation: the end-to-end statements over
    the operations of KeyRotation.v. *)
From Stdlib Require Import ZArith Lia.
From stdpp Require Import base numbers tactics sets list gmap.
From S2P Require Import Prelude GoStr Sha256 KeyFS KeySet KeySetSpec KeyRotation KeyRotationSpec.

(** * A key configuration *)

(** The codec, the paths and the cryptography key operations run with. *)
Record keyEnv := mkEnv {
  e_encode : Manifest -> bytes; e_decode : bytes -> option (Manifest * bool);
  e_required : list path; e_manifest : path; e_salt : path; e_dek : path; e_aside : path; e_dir : bytes;
  e_KEK : bytes -> bytes -> bytes; e_wrap : bytes -> bytes -> bytes -> bytes; e_unwrap : bytes -> bytes -> option bytes;
  e_fingerprint : bytes -> bytes }.

(** The codec and the cipher round-trip; the files have a role each, in one directory. *)
Record keyEnv_ok (E : keyEnv) : Prop := {
  eo_paths : keypaths_ok (e_encode E) (e_decode E) (e_required E) (e_manifest E) (e_dir E);
  eo_salt : e_salt E ∈ e_required E;
  eo_dek : e_dek E ∈ e_required E;
  eo_ne : e_salt E <> e_dek E;
  eo_unwrap : forall k kek nonce, e_unwrap E (e_wrap E k kek nonce) kek = Some k }.

Section env.
Context (E : keyEnv).
Definition rotate_kek := RotateKEKPassphraseWithPrepare (e_encode E) (e_decode E) (e_required E) (e_manifest E) (e_salt E) (e_dek E) (e_KEK E) (e_wrap E) (e_unwrap E).
Definition rotate_dek := RotateDEKWithSweep (e_encode E) (e_decode E) (e_required E) (e_manifest E) (e_salt E) (e_dek E) (e_KEK E) (e_wrap E) (e_fingerprint E).
Definition settle_keys := settleKeys (e_encode E) (e_decode E) (e_required E) (e_manifest E) (e_dek E) (e_aside E).
Definition boot_keys := bootKeys (e_encode E) (e_decode E) (e_required E) (e_manifest E) (e_salt E) (e_dek E) (e_aside E) (e_KEK E) (e_wrap E) (e_unwrap E).
(** Whether an operation reported success. *)
Lemma reported_ok {Er A} (o : option (res Er A)) : (exists a, o = Some (Ok a)) \/ ~ exists a, o = Some (Ok a).
Proof. destruct o as [[a|e]|]; [left; eauto| |]; right; by intros [? ?]. Qed.
(** A key set of contents [c], at rest, in every state a power loss can leave. *)
Definition key_set (c : gmap path bytes) (x : fs) : Prop := always (e_dir E) True (rest (e_decode E) (e_required E) (e_manifest E) c) x.
Definition can_read (w : world) : Prop := readable (e_required E) (e_manifest E) w.

(** [c] is opened by [passphrase] to [dek]. *)
Definition opens (c : gmap path bytes) (passphrase dek : bytes) : Prop := exists s wr,
  c !! e_salt E = Some s /\ length s = 32%nat /\ c !! e_dek E = Some wr /\ e_unwrap E wr (e_KEK E passphrase s) = Some dek.

(** What happens to the key directory and the database between an interrupted operation and the boot that is left
    alone: power losses, and boots with any passphrase that anything can interrupt.  [loss_ok] says in which states of
    the database power may be lost: any for the KEK rotation; for the DEK rotation not once the marker is cleared with
    the rows under the new DEK ([KeyExample.unsynced_promotion_lost]). *)
Inductive boots (loss_ok : keydb -> Prop) : fs * keydb -> fs * keydb -> Prop :=
| boots_done s : boots loss_ok s s
| boots_loss x f db s : loss_ok db -> power_loss x f -> boots loss_ok (mkFs f [], db) s -> boots loss_ok (x, db) s
| boots_try w passphrase o w' s :
    can_read w -> boot_keys passphrase w = (o, w') -> boots loss_ok (w_fs w', w_db w') s -> boots loss_ok (w_fs w, w_db w) s.

(** The new contents a KEK rotation would write, from the bytes it will draw. *)
Definition kek_salt (w : world) : bytes := resize 32 Byte.x00 (default [] (head (w_nonces w))).
Definition kek_wrapped (dek newPassphrase : bytes) (w : world) : bytes :=
  e_wrap E dek (e_KEK E newPassphrase (kek_salt w)) (resize 12 Byte.x00 (default [] (head (tail (w_nonces w))))).
(** The DEK a DEK rotation would draw, and its wrapping under the passphrase and the salt of [c]. *)
Definition dek_drawn (w : world) : bytes := resize 32 Byte.x00 (default [] (head (w_nonces w))).
Definition dek_wrapped (c : gmap path bytes) (passphrase : bytes) (w : world) : bytes :=
  e_wrap E (dek_drawn w) (e_KEK E passphrase (default [] (c !! e_salt E))) (resize 12 Byte.x00 (default [] (head (tail (w_nonces w))))).
End env.

(** * KEK rotation *)

Section kek.
Context (E : keyEnv) (HE : keyEnv_ok E).
Let K := fun _ : gmap path bytes => True.
Abbreviation Recov := (Recov (e_decode E) (e_required E) (e_manifest E) K).
Abbreviation at_rest c N := (at_rest (e_decode E) (e_required E) (e_manifest E) c N K).

Definition distinct (c N : gmap path bytes) : Prop :=
  forall p d, N !! p = Some d -> p ∈ e_required E /\ forall d', c !! p = Some d' -> HashBytes d <> HashBytes d'.

(** A boot attempt without a redo marker, whatever interrupts it, keeps the set recoverable. *)
Lemma boot_Recov lossy c N passphrase w o w' : distinct c N -> db_marker (w_db w) = None -> always (e_dir E) lossy (Recov c N) (w_fs w) -> can_read E w ->
  boot_keys E passphrase w = (o, w') -> always (e_dir E) lossy (Recov c N) (w_fs w') /\ w_db w' = w_db w.
Proof.
  intros HN Hdb Hx Hr Hrun. destruct HE as [kp Hs Hd Hne _].
  assert (Hw : ready (e_dir E) lossy (Recov c N) False (w_db w) w) by by split.
  assert (Hset := wp_settle_none _ _ _ _ _ (e_aside E) _ kp Hd c N lossy False (w_db w) K HN (fun _ _ _ _ => I) (fun _ _ _ => I) (fun _ _ _ _ _ _ _ => I) w Hdb (fun _ _ _ => I) Hw Hr).
  pose proof (wp_boot _ _ _ _ _ _ _ _ Hs Hd c N lossy False (w_db w) K (e_KEK E) (e_wrap E) (e_unwrap E) passphrase w Hset Hr) as Hboot.
  unfold wp in Hboot. unfold boot_keys in Hrun. rewrite Hrun in Hboot. destruct o as [r|].
  - by destruct Hboot as (_ & Ha & Hdb' & _).
  - by destruct Hboot as (Ha & Hdb' & _).
Qed.

(** Once the set has settled, the passphrase that opens it gives its DEK. *)
Lemma boot_opens x passphrase dek w w1 : settle_keys E w = (Some (Ok ()), w1) -> rest (e_decode E) (e_required E) (e_manifest E) x (cur w1) -> can_read E w1 ->
  passphrase <> [] -> opens E x passphrase dek -> length dek = 32%nat ->
  exists km, boot_keys E passphrase w = (Some (Ok km), w1) /\ km_currentDEK km = Some dek.
Proof.
  intros Erun (m & _ & Hh & _) Hr Hp (s & wr & Hxs & Hls & Hxw & Hunw) Hl. destruct HE as [kp Hs Hd Hne _].
  destruct (reads_Initialize (e_encode E) (e_decode E) (e_required E) (e_manifest E) (e_salt E) (e_dek E) Hs Hd (e_KEK E) (e_wrap E) (e_unwrap E) x w1 passphrase Hh)
    as (s' & wr' & Hs' & Hw' & Hread); [done|].
  rewrite Hxs in Hs'. rewrite Hxw in Hw'. injection Hs' as <-. injection Hw' as <-.
  exists (mkKM (Some dek) wr). split; [|done]. unfold settle_keys in Erun. unfold boot_keys, bootKeys, bind_res, bind. rewrite Erun. cbv beta iota.
  unfold reads in Hread. rewrite Hread, bool_decide_false, Hls, Hunw by done. simpl. by rewrite Hl.
Qed.

(** Every interruption keeps the set recoverable while no redo marker is set. *)
Lemma boots_Recov c N db s : distinct c N -> db_marker db = None -> forall x, always (e_dir E) True (Recov c N) x ->
  boots E (fun _ => True) (x, db) s -> always (e_dir E) True (Recov c N) s.1 /\ s.2 = db.
Proof.
  intros HN Hdb x Hx Hb. remember (x, db) as s0 eqn:Es. revert x Hx Es.
  induction Hb as [s|x0 f db0 s _ Hl _ IH|w passphrase o w' s Hr Hrun _ IH]; intros x Hx Es.
  - by subst s.
  - injection Es as -> ->. eapply IH; [|done]. apply always_clean. by apply (always_power_loss _ True _ _ _ I Hx).
  - injection Es as <- Hdbw. subst db. destruct (boot_Recov _ _ _ _ _ _ _ HN Hdb Hx Hr Hrun) as [Ha Hdb']. eapply IH; [exact Ha|]. by rewrite Hdb'.
Qed.

(** A boot that is left alone settles on the old or the new set, and then opens it with the right passphrase. *)
Lemma undisturbed_boot lossy c N w : distinct c N -> db_marker (w_db w) = None -> always (e_dir E) lossy (Recov c N) (w_fs w) -> can_read E w -> w_faults w = [] ->
  exists x, (x = c \/ x = N ∪ c) /\ forall passphrase dek, passphrase <> [] -> opens E x passphrase dek -> length dek = 32%nat ->
    exists km w', boot_keys E passphrase w = (Some (Ok km), w') /\ km_currentDEK km = Some dek /\ w_db w' = w_db w.
Proof.
  intros HN Hdb Hx Hr Hf. pose proof HE as [kp Hs Hd Hne _].
  assert (Hw : ready (e_dir E) lossy (Recov c N) True (w_db w) w) by (split; [exact Hx|split; [done|by intros _]]).
  assert (Hset := wp_settle_none _ _ _ _ _ (e_aside E) _ kp Hd c N lossy True (w_db w) K HN (fun _ _ _ _ => I) (fun _ _ _ => I) (fun _ _ _ _ _ _ _ => I) w Hdb (fun _ _ _ => I) Hw Hr).
  unfold wp in Hset. destruct (settleKeys _ _ _ _ _ _ w) as [[r|] w1] eqn:Erun; [|by destruct Hset as (_ & _ & ?)].
  destruct Hset as (Hs1 & Hok & Hrest). specialize (Hok I). subst r. destruct (Hrest eq_refl) as (x & (Hcase & _ & Hx1)).
  exists x. split; [done|]. intros passphrase dek Hp Hopen Hl.
  destruct (boot_opens x passphrase dek w w1 Erun Hx1) as (km & Hb & Hk); auto; [by eapply readable_stepped|].
  exists km, w1. split_and!; auto. apply Hs1.
Qed.

Lemma distinct_kek c newSalt newW : (forall d, c !! e_salt E = Some d -> HashBytes newSalt <> HashBytes d) ->
  (forall d, c !! e_dek E = Some d -> HashBytes newW <> HashBytes d) -> distinct c (kek_files (e_salt E) (e_dek E) newSalt newW).
Proof. intros Hs Hd p d. destruct HE as [kp ? ? ? _]. by apply HN_kek. Qed.
Lemma distinct_empty c : distinct c ∅.
Proof. intros p d Hd. simplify_map_eq. Qed.

(** From a recoverable set, any interruptions and then a boot that is left alone. *)
Lemma boots_then_boot c N dek x db w2 : distinct c N -> db_marker db = None -> always (e_dir E) True (Recov c N) x -> length dek = 32%nat ->
  boots E (fun _ => True) (x, db) (w_fs w2, w_db w2) -> can_read E w2 -> w_faults w2 = [] ->
  exists set, (set = c \/ set = N ∪ c) /\ forall passphrase, passphrase <> [] -> opens E set passphrase dek ->
    exists km w', boot_keys E passphrase w2 = (Some (Ok km), w') /\ km_currentDEK km = Some dek.
Proof.
  intros HN Hdb Ha Hlen Hboots Hr Hf. destruct (boots_Recov c N db _ HN Hdb x Ha Hboots) as [Ha' Hdb']. simpl in *.
  destruct (undisturbed_boot True c N w2 HN) as (set & Hx & Hall); auto; [by rewrite Hdb'|]. exists set. split; [done|].
  intros p Hp Ho. destruct (Hall p dek Hp Ho Hlen) as (km & w' & ? & ? & _). eauto.
Qed.

(** C3. A KEK rotation that failed operations, kills or power losses interrupt at any point, followed by boots that
    are interrupted likewise, does not lose the DEK: a boot that is left alone opens it, with the old passphrase or with
    the new one, and with the new one if the rotation reported success.  Provided that no redo marker of an earlier DEK
    rotation is left in the database when the rotation starts (with one, a kill can leave a set that neither passphrase
    opens: [KeyExample.stale_marker_splits_key_set]), that the key files lie in one directory, form a whole set that the
    old passphrase opens, and can be read by every boot, and that the new salt and the new wrapped DEK hash differently
    from the old ones. *)
Theorem kek_rotation_survives c oldPassphrase newPassphrase dek wr prepare w o w1 x db w2 :
  key_set E c (w_fs w) -> can_read E w -> db_marker (w_db w) = None ->
  oldPassphrase <> [] -> newPassphrase <> [] -> opens E c oldPassphrase dek -> length dek = 32%nat ->
  (forall d, c !! e_salt E = Some d -> HashBytes (kek_salt w) <> HashBytes d) ->
  (forall d, c !! e_dek E = Some d -> HashBytes (kek_wrapped E dek newPassphrase w) <> HashBytes d) ->
  rotate_kek E (mkKM (Some dek) wr) oldPassphrase newPassphrase prepare w = (o, w1) ->
  boots E (fun _ => True) (w_fs w1, w_db w1) (x, db) ->
  w_fs w2 = x -> w_db w2 = db -> can_read E w2 -> w_faults w2 = [] ->
  exists passphrase km w3, (passphrase = oldPassphrase \/ passphrase = newPassphrase) /\
    boot_keys E passphrase w2 = (Some (Ok km), w3) /\ km_currentDEK km = Some dek /\
    ((exists km1, o = Some (Ok km1)) -> passphrase = newPassphrase).
Proof.
  intros Hset Hr Hdb Hold Hnew Hopen Hlen Hfs Hfd Hrun Hboots <- <- Hr2 Hf2.
  set (N := kek_files (e_salt E) (e_dek E) (kek_salt w) (kek_wrapped E dek newPassphrase w)).
  assert (HN : distinct c N) by by apply distinct_kek.
  pose proof HE as [kp Hs Hd Hne Hwrap].
  assert (HopenN : opens E (N ∪ c) newPassphrase dek).
  { exists (kek_salt w), (kek_wrapped E dek newPassphrase w). split_and!.
    - apply lookup_union_Some_l, N_salt. - apply length_resize. - by apply lookup_union_Some_l, N_dek. - apply Hwrap. }
  assert (Hw : ready (e_dir E) True (Recov c N) False (w_db w) w).
  { split; [|by split]. eapply always_mono; [|exact Hset]. intros f Hrest. split; [done|by left]. }
  pose proof (wp_RotateKEKPassphrase _ _ _ _ _ _ _ kp Hs Hd Hne c (kek_salt w) (kek_wrapped E dek newPassphrase w) True False (w_db w) Hfs Hfd
    (e_KEK E) (e_wrap E) (e_unwrap E) (mkKM (Some dek) wr) dek oldPassphrase newPassphrase prepare w Hw Hr) as Hrot.
  unfold rotate_kek in Hrun. unfold wp in Hrot. rewrite Hrun in Hrot. specialize (Hrot (always_cur _ _ _ _ Hset) eq_refl eq_refl eq_refl).
  destruct (reported_ok o) as [[km1 ->]|Hno].
  - destruct Hrot as ((_ & _ & Hdb1 & _) & Hok).
    destruct (boots_then_boot (N ∪ c) ∅ dek (w_fs w1) (w_db w1) w2) as (x & Hx & Hb); auto using distinct_empty; [by rewrite Hdb1| |].
    { eapply always_mono; [|exact (Hok km1 eq_refl)]. intros f Hrest. split; [done|by left]. }
    rewrite (left_id_L ∅ (∪)) in Hx. assert (x = N ∪ c) as -> by (by destruct Hx).
    destruct (Hb newPassphrase Hnew HopenN) as (km & w' & ? & ?). exists newPassphrase, km, w'. split_and!; auto.
  - assert (always (e_dir E) True (Recov c N) (w_fs w1) /\ w_db w1 = w_db w) as [Ha Hdb1].
    { destruct o as [r|]; [destruct Hrot as ((_ & Ha & Hdb1 & _) & _)|destruct Hrot as (Ha & Hdb1 & _)]; done. }
    destruct (boots_then_boot c N dek (w_fs w1) (w_db w1) w2) as (x & [-> | ->] & Hb); auto; [by rewrite Hdb1| |].
    + destruct (Hb oldPassphrase Hold Hopen) as (km & w' & ? & ?). exists oldPassphrase, km, w'. split_and!; auto. by intros ?%Hno.
    + destruct (Hb newPassphrase Hnew HopenN) as (km & w' & ? & ?). exists newPassphrase, km, w'. split_and!; auto.
Qed.
End kek.

(** * DEK rotation *)

Section dek.
Context (E : keyEnv) (HE : keyEnv_ok E).
Context (c : gmap path bytes) (newDEK newW oldW s : bytes) (db0 : keydb) (version passphrase : bytes).
Context (Hold : c !! e_dek E = Some oldW) (Hsalt : c !! e_salt E = Some s) (Hls : length s = 32%nat) (Hp : passphrase <> []).
Context (Hfresh : HashBytes newW <> HashBytes oldW) (Hmk0 : db_marker db0 = None) (Hrows : newDEK <> db_rows db0).
Context (Hunw0 : e_unwrap E oldW (e_KEK E passphrase s) = Some (db_rows db0)) (Hl0 : length (db_rows db0) = 32%nat).
Context (Hunw1 : e_unwrap E newW (e_KEK E passphrase s) = Some newDEK) (Hl1 : length newDEK = 32%nat).
Let db1 := swept (e_fingerprint E) db0 newDEK version.
Let N : gmap path bytes := {[e_dek E := newW]}.
Abbreviation phase := (dek_phase (e_decode E) (e_required E) (e_manifest E) (e_dek E) (e_dir E) c newDEK newW oldW db0 version (e_fingerprint E)).
Abbreviation marked := (dek_marked (e_decode E) (e_required E) (e_manifest E) (e_dek E) (e_dir E) c newW db1 oldW).
Abbreviation cleared := (dek_cleared (e_decode E) (e_required E) (e_manifest E) (e_dek E) (e_dir E) c newW db1).

Lemma marked_boot p w o w' : marked w -> can_read E w -> boot_keys E p w = (o, w') -> marked w' \/ cleared w'.
Proof.
  intros [Hdb Ha] Hr Hrun. pose proof HE as [kp Hs Hd Hne _].
  assert (Hboot : wp (fun w => (marked w \/ cleared w) /\ ~ False) (boot_keys E p) (fun _ w' => marked w' \/ cleared w') w).
  { apply wp_bind_res. eapply wp_mono; [apply (wp_settle_marked (e_encode E) _ _ _ _ (e_aside E) _ kp Hd c newW False db1 oldW Hold Hfresh); [done|by split|done]|].
    intros [[]|e] w1 (Hph & Hu & _ & Hrest); [|done]. destruct (Hrest eq_refl) as (m & _ & Hh & _).
    destruct (reads_Initialize (e_encode E) (e_decode E) (e_required E) (e_manifest E) (e_salt E) (e_dek E) Hs Hd (e_KEK E) (e_wrap E) (e_unwrap E) _ w1 p Hh)
      as (s' & wr' & _ & _ & Hread); [unfold readable; by rewrite Hu|].
    by eapply wp_reads. }
  unfold wp in Hboot. rewrite Hrun in Hboot. destruct o; [done|]. by destruct Hboot.
Qed.

Lemma phase_boot p w o w' : phase w -> can_read E w -> boot_keys E p w = (o, w') -> phase w' /\ db_rows (w_db w') = db_rows (w_db w).
Proof.
  intros [[Hdb Ha]|[Hm|[Hdb Ha]]] Hr Hrun.
  - destruct (boot_Recov E HE True c ∅ p w o w') as [Ha' Hdb']; auto using distinct_empty; [by rewrite Hdb|].
    rewrite Hdb'. split; [|done]. left. split; [by rewrite Hdb'|done].
  - pose proof (marked_boot _ _ _ _ Hm Hr Hrun) as Hc. split; [by right|]. destruct Hm as [-> _], Hc as [[-> _]|[-> _]]; done.
  - destruct (boot_Recov E HE False (N ∪ c) ∅ p w o w') as [Ha' Hdb']; auto using distinct_empty; [by rewrite Hdb|].
    rewrite Hdb'. split; [|done]. right; right. split; [by rewrite Hdb'|done].
Qed.

Lemma phase_state w w' : w_fs w' = w_fs w -> w_db w' = w_db w -> phase w -> phase w'.
Proof. intros Hf Hd. unfold dek_phase, dek_unswept, dek_marked, dek_cleared. by rewrite Hf, Hd. Qed.

Lemma phase_loss w w' f : (db_marker (w_db w) = None -> db_rows (w_db w) = db_rows db0) -> power_loss (w_fs w) f -> w_fs w' = mkFs f [] -> w_db w' = w_db w ->
  phase w -> phase w'.
Proof.
  intros Hok Hl Hf Hdb [[Hd Ha]|[[Hd Ha]|[Hd Ha]]].
  - left. split; [by rewrite Hdb|]. rewrite Hf. apply always_clean. by apply (always_power_loss _ True _ _ _ I Ha).
  - right; left. split; [by rewrite Hdb|]. rewrite Hf. apply always_clean. by apply (always_power_loss _ True _ _ _ I Ha).
  - rewrite Hd in Hok. by destruct Hrows; apply Hok.
Qed.

Lemma boots_phase st st' : boots E (fun db => db_marker db = None -> db_rows db = db_rows db0) st st' ->
  forall w w', w_fs w = st.1 -> w_db w = st.2 -> w_fs w' = st'.1 -> w_db w' = st'.2 -> phase w -> phase w' /\ db_rows (w_db w') = db_rows (w_db w).
Proof.
  induction 1 as [s0|x f db s0 Hok Hl _ IH|w1 p o w2 s0 Hr Hrun _ IH]; intros w w' Hf Hd Hf' Hd' Hph; simpl in *.
  - split; [|congruence]. eapply phase_state; [| |exact Hph]; congruence.
  - rewrite Hd. apply (IH (mkWorld (mkFs f []) (w_unreadable w) db [] [])); auto.
    eapply phase_loss; [| | | |exact Hph]; simpl; [by rewrite Hd|by rewrite Hf|done|done].
  - destruct (phase_boot p w1 o w2) as [Hph2 Hrow]; auto; [by eapply phase_state; [| |exact Hph]|].
    destruct (IH w2 w') as [? Hrow']; auto. split; [done|]. by rewrite Hrow', Hrow, <- Hd.
Qed.

Lemma opens_old : opens E c passphrase (db_rows db0).
Proof. exists s, oldW. by split_and!. Qed.
Lemma opens_new : opens E (N ∪ c) passphrase newDEK.
Proof.
  exists s, newW. destruct HE as [_ _ _ Hne _]. split_and!; auto; [|apply lookup_union_Some_l; unfold N; by simplify_map_eq].
  rewrite lookup_union_r; [done|]. unfold N. by rewrite lookup_singleton_ne.
Qed.

(** A boot that is left alone brings the DEK of the rows back. *)
Lemma phase_undisturbed w : phase w -> can_read E w -> w_faults w = [] ->
  exists km w', boot_keys E passphrase w = (Some (Ok km), w') /\ km_currentDEK km = Some (db_rows (w_db w')) /\ db_rows (w_db w') = db_rows (w_db w).
Proof.
  intros [[Hdb Ha]|[[Hdb Ha]|[Hdb Ha]]] Hr Hf.
  - destruct (undisturbed_boot E HE True c ∅ w) as (x & Hx & Hb); auto using distinct_empty; [by rewrite Hdb|].
    rewrite (left_id_L ∅ (∪)) in Hx. assert (x = c) as -> by (by destruct Hx).
    destruct (Hb passphrase (db_rows db0)) as (km & w' & ? & ? & Hw'); auto using opens_old. exists km, w'. by rewrite Hw', Hdb.
  - pose proof HE as [kp Hs Hd Hne _].
    pose proof (wp_settle_marked (e_encode E) _ _ _ _ (e_aside E) _ kp Hd c newW True db1 oldW Hold Hfresh ltac:(done) w ltac:(by split) Hr) as Hset.
    unfold wp in Hset. destruct (settleKeys _ _ _ _ _ _ w) as [[r|] w1] eqn:Erun; [|by destruct Hset as (_ & ?)].
    destruct Hset as (Hph & Hu & Hok & Hrest). specialize (Hok I). subst r.
    destruct (boot_opens E HE (N ∪ c) passphrase newDEK w w1 Erun (Hrest eq_refl)) as (km & Hb & Hk); auto using opens_new; [unfold can_read, readable; by rewrite Hu|].
    exists km, w1. assert (Hr1 : db_rows (w_db w1) = newDEK) by (by destruct Hph as [[-> _]|[-> _]]). rewrite Hr1, Hdb. by split_and!.
  - destruct (undisturbed_boot E HE False (N ∪ c) ∅ w) as (x & Hx & Hb); auto using distinct_empty; [by rewrite Hdb|].
    rewrite (left_id_L ∅ (∪)) in Hx. assert (x = N ∪ c) as -> by (by destruct Hx).
    destruct (Hb passphrase newDEK) as (km & w' & ? & ? & Hw'); auto using opens_new. exists km, w'. by rewrite Hw', Hdb.
Qed.
End dek.

(** C4. A DEK rotation that failed operations, kills or power losses interrupt at any point, followed by boots that are
    interrupted likewise, leaves no row that no boot can read: a boot that is left alone loads the DEK the rows are
    encrypted under, the new one if the rotation reported success.  Provided that no power is lost after the rows are
    under the new DEK and the redo marker is cleared (a recovery clears it without syncing the promotion, and such a loss
    strands every row: [KeyExample.unsynced_promotion_lost]), that no redo marker of an earlier rotation is left when the
    rotation starts, that the key files lie in one directory, form a whole set that the passphrase opens to the DEK of
    the rows, and can be read by every boot, that the new DEK differs from the old one and that its wrapping hashes
    differently from the old one. *)
Theorem dek_rotation_survives E c passphrase dek km version w o w1 x db w2 :
  keyEnv_ok E -> key_set E c (w_fs w) -> can_read E w -> db_marker (w_db w) = None -> db_rows (w_db w) = dek ->
  passphrase <> [] -> opens E c passphrase dek -> length dek = 32%nat ->
  dek_drawn w <> dek -> (forall d, c !! e_dek E = Some d -> HashBytes (dek_wrapped E c passphrase w) <> HashBytes d) ->
  rotate_dek E km passphrase version w = (o, w1) ->
  boots E (fun db => db_marker db = None -> db_rows db = dek) (w_fs w1, w_db w1) (x, db) ->
  w_fs w2 = x -> w_db w2 = db -> can_read E w2 -> w_faults w2 = [] ->
  exists km' w3, boot_keys E passphrase w2 = (Some (Ok km'), w3) /\ km_currentDEK km' = Some (db_rows (w_db w3)) /\
    ((exists km1, o = Some (Ok km1)) -> db_rows (w_db w3) = dek_drawn w).
Proof.
  intros HE Hset Hr Hmk <- Hp (s & oldW & Hs & Hls & Hd & Hunw) Hlen Hne Hfresh Hrun Hboots Hx Hdb Hr2 Hf2.
  pose proof HE as [kp Hsr Hdr _ Hwrap]. specialize (Hfresh _ Hd). set (newW := dek_wrapped E c passphrase w) in *.
  assert (HnewW : newW = e_wrap E (dek_drawn w) (e_KEK E passphrase s) (resize 12 Byte.x00 (default [] (head (tail (w_nonces w)))))) by (unfold newW, dek_wrapped; by rewrite Hs).
  assert (Hw : ready (e_dir E) True (Recov (e_decode E) (e_required E) (e_manifest E) (fun _ => True) c ∅) False (w_db w) w).
  { split; [|by split]. eapply always_mono; [|exact Hset]. intros f Hrest. split; [done|by left]. }
  pose proof (wp_RotateDEKWithSweep (e_encode E) _ _ _ _ _ _ kp Hsr Hdr c (dek_drawn w) newW oldW s (w_db w) version passphrase (e_KEK E) (e_wrap E) (e_fingerprint E)
    Hd Hs Hfresh Hmk km w Hw Hr (always_cur _ _ _ _ Hset) eq_refl HnewW) as Hrot.
  unfold rotate_dek in Hrun. unfold wp in Hrot. rewrite Hrun in Hrot.
  assert (Hgo : dek_phase (e_decode E) (e_required E) (e_manifest E) (e_dek E) (e_dir E) c (dek_drawn w) newW oldW (w_db w) version (e_fingerprint E) w1 ->
    exists km' w3, boot_keys E passphrase w2 = (Some (Ok km'), w3) /\ km_currentDEK km' = Some (db_rows (w_db w3)) /\ db_rows (w_db w3) = db_rows (w_db w1)).
  { intros Hph. destruct (boots_phase E HE c (dek_drawn w) newW oldW (w_db w) version Hd Hfresh Hmk Hne _ _ Hboots w1 w2) as [Hph2 Hrow]; auto.
    rewrite <- Hrow. eapply (phase_undisturbed E HE c (dek_drawn w) newW oldW s (w_db w) version); eauto; [|apply length_resize]. rewrite HnewW. apply Hwrap. }
  destruct o as [r|].
  - destruct Hrot as [Hph Hok]. destruct (Hgo Hph) as (km' & w3 & ? & ? & Hrow). exists km', w3. split_and!; auto.
    intros [km1 [= ->]]. rewrite Hrow. by eapply Hok.
  - destruct (Hgo Hrot) as (km' & w3 & ? & ? & Hrow). exists km', w3. split_and!; auto. by intros [? ?].
Qed.
