(* ===== verification/KeyExample.v ===== *)
(** A concrete key configuration: the codec, paths and cryptography the theorems
    of KeyCrash.v take as parameters, and what the operations do on it. *)
From Stdlib Require Import ZArith Lia.
From stdpp Require Import base numbers tactics sets list gmap.
From S2P Require Import Prelude GoStr Sha256 KeyFS KeySet KeySetSpec KeyRotation KeyRotationSpec KeyCrash.

(** * A codec *)

Fixpoint bits (p : positive) : bytes := match p with xH => [] | xO p => Byte.x00 :: bits p | xI p => Byte.x01 :: bits p end.
Fixpoint unbits (b : bytes) : positive := match b with [] => xH | Byte.x00 :: b => xO (unbits b) | _ :: b => xI (unbits b) end.
Lemma unbits_bits p : unbits (bits p) = p.
Proof. induction p as [p IH|p IH|]; simpl; by rewrite ?IH. Qed.

Definition bits_of {A} `{Countable A} (a : A) : bytes := bits (encode a).
Definition of_bits {A} `{Countable A} (b : bytes) : option A := decode (unbits b).
Lemma of_bits_of {A} `{Countable A} (a : A) : of_bits (bits_of a) = Some a.
Proof. unfold of_bits, bits_of. by rewrite unbits_bits, decode_encode. Qed.

#[local] Arguments bits_of : simpl never.
#[local] Arguments of_bits : simpl never.

(** A list of strings in one string: each byte marked, each string terminated. *)
Fixpoint mark (b r : bytes) : bytes := match b with [] => Byte.x00 :: r | c :: b => Byte.x01 :: c :: mark b r end.
Definition flat (l : list bytes) : bytes := foldr mark [] l.
Fixpoint unflat (b : bytes) : list bytes :=
  match b with
  | [] => []
  | Byte.x00 :: r => [] :: unflat r
  | _ :: c :: r => match unflat r with [] => [[c]] | h :: t => (c :: h) :: t end
  | [_] => []
  end.
Lemma unflat_mark b r : unflat (mark b r) = b :: unflat r.
Proof. induction b as [|c b IH]; [done|]. simpl. by rewrite IH. Qed.
Lemma unflat_flat l : unflat (flat l) = l.
Proof. induction l as [|b l IH]; [done|]. simpl. rewrite unflat_mark. by f_equal. Qed.

(** A list of records in one string, from a codec of the records. *)
Section records.
Context {A B : Type} (enc : A -> B) (dec : B -> option A) (Hdec : forall a, dec (enc a) = Some a).
Lemma mapM_enc l : mapM dec (enc <$> l) = Some l.
Proof. induction l as [|a l IH]; [done|]. rewrite fmap_cons. simpl. rewrite Hdec. simpl. by rewrite IH. Qed.
End records.

Definition enc_entry (x : path * ManifestEntry) : bytes :=
  flat [p_dir x.1; p_name x.1; me_SHA256 x.2; bits_of (me_Generation x.2); me_Operation x.2].
Definition dec_entry (b : bytes) : option (path * ManifestEntry) :=
  match unflat b with [d; n; h; g; o] => (fun g => (mkPath d n, mkEntry h g o)) <$> of_bits g | _ => None end.
Lemma dec_enc_entry x : dec_entry (enc_entry x) = Some x.
Proof. unfold dec_entry, enc_entry. rewrite unflat_flat, of_bits_of. by destruct x as [[] []]. Qed.

Definition enc_staged (x : path * bytes) : bytes := flat [p_dir x.1; p_name x.1; x.2].
Definition dec_staged (b : bytes) : option (path * bytes) := match unflat b with [d; n; h] => Some (mkPath d n, h) | _ => None end.
Lemma dec_enc_staged x : dec_staged (enc_staged x) = Some x.
Proof. unfold dec_staged, enc_staged. rewrite unflat_flat. by destruct x as [[] ?]. Qed.

Definition enc_map {V} (enc : path * V -> bytes) (m : gmap path V) : bytes := flat (enc <$> map_to_list m).
Definition dec_map {V} (dec : bytes -> option (path * V)) (b : bytes) : option (gmap path V) := list_to_map <$> mapM dec (unflat b).
Lemma dec_enc_map {V} (enc : path * V -> bytes) dec m : (forall x, dec (enc x) = Some x) -> dec_map dec (enc_map enc m) = Some m.
Proof. intros H. unfold dec_map, enc_map. rewrite unflat_flat, mapM_enc by done. simpl. by rewrite list_to_map_to_list. Qed.

#[local] Arguments enc_map : simpl never.
#[local] Arguments dec_map : simpl never.

Definition enc_next (n : option ManifestIntent) : bytes :=
  match n with None => [] | Some n => flat [bits_of (mi_Generation n); mi_Operation n; enc_map enc_staged (mi_Files n)] end.
Definition dec_next (b : bytes) : option (option ManifestIntent) :=
  match unflat b with
  | [] => Some None
  | [g; o; fs] => g ← of_bits g; fs ← dec_map dec_staged fs; Some (Some (mkIntent g o fs))
  | _ => None
  end.
Lemma dec_enc_next n : dec_next (enc_next n) = Some n.
Proof. unfold dec_next, enc_next. destruct n as [[g o fs]|]; [|done]. rewrite unflat_flat, of_bits_of. simpl. by rewrite (dec_enc_map _ _ _ dec_enc_staged). Qed.

Definition ex_encode (m : Manifest) : bytes :=
  flat [bits_of (mf_Format m); bits_of (mf_Generation m); enc_map enc_entry (mf_Files m); enc_next (mf_Next m)].
Definition ex_decode (b : bytes) : option (Manifest * bool) :=
  match unflat b with
  | [f; g; fs; n] => f ← of_bits f; g ← of_bits g; fs ← dec_map dec_entry fs; n ← dec_next n; Some (mkManifest f g fs n, true)
  | _ => None
  end.
Lemma ex_codec m : ex_decode (ex_encode m) = Some (m, true).
Proof.
  unfold ex_decode, ex_encode. rewrite unflat_flat, !of_bits_of. simpl. rewrite (dec_enc_map _ _ _ dec_enc_entry). simpl.
  rewrite dec_enc_next. by destruct m.
Qed.

(** * A configuration *)

Definition ex_dir : bytes := go "keys".
Definition ex_file (name : bytes) : path := mkPath ex_dir name.
Definition ex_wrap (k kek nonce : bytes) : bytes := resize 12 Byte.x00 nonce ++ resize 32 Byte.x00 (sha256 kek) ++ k.
Definition ex_unwrap (w kek : bytes) : option bytes :=
  if bool_decide (take 32 (drop 12 w) = resize 32 Byte.x00 (sha256 kek)) then Some (drop 44 w) else None.

Definition ex_env : keyEnv :=
  mkEnv ex_encode ex_decode [ex_file (go "kek.salt"); ex_file (go "dek.key")] (ex_file ManifestFileName) (ex_file (go "kek.salt")) (ex_file (go "dek.key"))
    (ex_file (go "keyset.manifest.json.bad")) ex_dir (fun p s => p ++ s) ex_wrap ex_unwrap sha256.

Lemma ex_unwrap_wrap k kek nonce : ex_unwrap (ex_wrap k kek nonce) kek = Some k.
Proof.
  unfold ex_unwrap, ex_wrap. rewrite drop_app_length' by (by rewrite length_resize). rewrite take_app_length' by (by rewrite length_resize).
  rewrite bool_decide_true by done. f_equal. rewrite (app_assoc _ _ k). apply drop_app_length'. rewrite length_app, !length_resize. done.
Qed.

Lemma ex_required (P : path -> Prop) `{!forall p, Decision (P p)} : bool_decide (Forall P (e_required ex_env)) = true -> forall p, p ∈ e_required ex_env -> P p.
Proof. intros HP. apply bool_decide_eq_true in HP. by apply Forall_forall. Qed.

Lemma ex_env_ok : keyEnv_ok ex_env.
Proof.
  split; [|by vm_compute; repeat constructor|by vm_compute; repeat constructor|done|apply ex_unwrap_wrap].
  split; [apply ex_codec|done|apply (bool_decide_unpack _); by vm_compute|done| |apply (bool_decide_unpack _); by vm_compute| | | |];
    (refine (ex_required _ _); by vm_compute).
Qed.

(** * A key set *)

Definition ex_salt : bytes := repeat Byte.x11 32.
Definition ex_dek : bytes := repeat Byte.x22 32.
Definition ex_old : bytes := go "old passphrase".
Definition ex_new : bytes := go "new passphrase".
Definition ex_wrapped : bytes := ex_wrap ex_dek (e_KEK ex_env ex_old ex_salt) [].
Definition ex_contents : gmap path bytes := <[e_salt ex_env := ex_salt]> {[e_dek ex_env := ex_wrapped]}.
Definition ex_manifest : Manifest := mkManifest manifestFormat 1 ((fun d => mkEntry (HashBytes d) 1 OpAdopted) <$> ex_contents) None.
Definition ex_disk : gmap path bytes := <[e_manifest ex_env := ex_encode ex_manifest]> ex_contents.
Definition ex_world (db : keydb) (faults : list fault) (x : fs) : world :=
  mkWorld x (fun _ => false) db faults [repeat Byte.x33 32; repeat Byte.x44 12; repeat Byte.x55 8; repeat Byte.x66 8].
Definition ex_db : keydb := mkDb ex_dek None None false None.

Lemma ex_key_set : key_set ex_env ex_contents (mkFs ex_disk []).
Proof.
  apply always_clean. exists ex_manifest. assert (He : forall p, p ∈ e_required ex_env -> is_Some (ex_contents !! p)).
  { refine (ex_required _ _). by vm_compute. }
  split_and!.
  - exists (ex_encode ex_manifest). split_and!; [unfold ex_disk; by simplify_map_eq|apply ex_codec|by vm_compute].
  - intros p Hp. destruct (He p Hp) as [d Hd]. exists d. split; [done|]. unfold ex_disk. rewrite lookup_insert_ne; [done|].
    intros <-. by apply (kp_manifest _ _ _ _ _ (eo_paths _ ex_env_ok)).
  - split; [intros p h; unfold staged_files; simpl; by rewrite lookup_empty|]. left. split; [|intros p h d; unfold staged_files; simpl; by rewrite lookup_empty].
    intros p d _ Hd. exists (mkEntry (HashBytes d) 1 OpAdopted). split; [|done]. simpl. by rewrite lookup_fmap, Hd.
Qed.
Lemma ex_opens : opens ex_env ex_contents ex_old ex_dek.
Proof. exists ex_salt, ex_wrapped. split_and!; by vm_compute. Qed.
Lemma ex_can_read db l x : can_read ex_env (ex_world db l x).
Proof. by split. Qed.

(** The next process: same disk and database, its own schedule and random bytes. *)
Definition ex_restart (w : world) (faults : list fault) : world :=
  mkWorld (w_fs w) (fun _ => false) (w_db w) faults [repeat Byte.x77 32; repeat Byte.x78 12; repeat Byte.x79 8].
Definition ex_km : KeyManager := mkKM (Some ex_dek) ex_wrapped.
Definition dek_of (o : option (res rotate_err KeyManager)) : option bytes := match o with Some (Ok km) => km_currentDEK km | _ => None end.

Lemma restart_fs w l : w_fs (ex_restart w l) = w_fs w.
Proof. done. Qed.
Lemma restart_db w l : w_db (ex_restart w l) = w_db w.
Proof. done. Qed.
Lemma restart_read w l : can_read ex_env (ex_restart w l).
Proof. by split. Qed.
Lemma restart_calm w : w_faults (ex_restart w []) = [].
Proof. done. Qed.

(** * Interrupted rotations *)

(** A KEK rotation killed between its two renames: the new DEK file beside the old salt. *)
Definition ex_kek_killed : option (res rotate_err KeyManager) * world :=
  rotate_kek ex_env ex_km ex_old ex_new true (ex_world ex_db (repeat FRun 7 ++ [FCrash]) (mkFs ex_disk [])).

Lemma ex_salt_in d : ex_contents !! e_salt ex_env = Some d -> d = ex_salt.
Proof. assert (ex_contents !! e_salt ex_env = Some ex_salt) as -> by by vm_compute. by intros [= <-]. Qed.
Lemma ex_dek_in d : ex_contents !! e_dek ex_env = Some d -> d = ex_wrapped.
Proof. assert (ex_contents !! e_dek ex_env = Some ex_wrapped) as -> by by vm_compute. by intros [= <-]. Qed.

Lemma kek_rotation_survives_witness :
  f_cur (w_fs ex_kek_killed.2) !! e_salt ex_env = Some ex_salt /\ f_cur (w_fs ex_kek_killed.2) !! e_dek ex_env <> Some ex_wrapped /\
  exists passphrase km w3, (passphrase = ex_old \/ passphrase = ex_new) /\
    boot_keys ex_env passphrase (ex_restart ex_kek_killed.2 []) = (Some (Ok km), w3) /\ km_currentDEK km = Some ex_dek /\
    ((exists km1, ex_kek_killed.1 = Some (Ok km1)) -> passphrase = ex_new).
Proof.
  split; [by vm_compute|]. split; [by vm_compute|].
  apply (kek_rotation_survives ex_env ex_env_ok ex_contents ex_old ex_new ex_dek ex_wrapped true
    (ex_world ex_db (repeat FRun 7 ++ [FCrash]) (mkFs ex_disk [])) ex_kek_killed.1 ex_kek_killed.2 (w_fs ex_kek_killed.2) (w_db ex_kek_killed.2));
    [apply ex_key_set|apply ex_can_read|done|done|done|apply ex_opens|done|intros d ->%ex_salt_in; by vm_compute|intros d ->%ex_dek_in; by vm_compute|apply surjective_pairing|apply boots_done|apply restart_fs|apply restart_db|apply restart_read|apply restart_calm].
Defined.

(** A DEK rotation killed after its sweep committed, then a power loss that undoes what was not synced. *)
Definition ex_dek_killed : option (res rotate_err KeyManager) * world :=
  rotate_dek ex_env ex_km ex_old (go "v2") (ex_world ex_db (repeat FRun 7 ++ [FCrash]) (mkFs ex_disk [])).
Definition ex_loss (w : world) : world := mkWorld (mkFs (f_disk (w_fs w)) []) (fun _ => false) (w_db w) [] [].

Lemma loss_fs w : w_fs (ex_loss w) = mkFs (f_disk (w_fs w)) [].
Proof. done. Qed.
Lemma loss_db w : w_db (ex_loss w) = w_db w.
Proof. done. Qed.
Lemma loss_read w : can_read ex_env (ex_loss w).
Proof. by split. Qed.
Lemma loss_calm w : w_faults (ex_loss w) = [].
Proof. done. Qed.
Lemma power_loss_all x : power_loss x (f_disk x).
Proof. exists []. split; [|done]. split; [apply sublist_nil_l|]. intros d. apply prefix_nil. Qed.

Lemma dek_rotation_survives_witness :
  db_rows (w_db ex_dek_killed.2) <> ex_dek /\ f_disk (w_fs ex_dek_killed.2) !! e_dek ex_env = Some ex_wrapped /\
  exists km' w3, boot_keys ex_env ex_old (ex_loss ex_dek_killed.2) = (Some (Ok km'), w3) /\ km_currentDEK km' = Some (db_rows (w_db w3)) /\
    ((exists km1, ex_dek_killed.1 = Some (Ok km1)) -> db_rows (w_db w3) = dek_drawn (ex_world ex_db (repeat FRun 7 ++ [FCrash]) (mkFs ex_disk []))).
Proof.
  split; [by vm_compute|]. split; [by vm_compute|].
  eapply (dek_rotation_survives ex_env ex_contents ex_old ex_dek ex_km (go "v2")
    (ex_world ex_db (repeat FRun 7 ++ [FCrash]) (mkFs ex_disk [])) ex_dek_killed.1 ex_dek_killed.2 (mkFs (f_disk (w_fs ex_dek_killed.2)) []) (w_db ex_dek_killed.2));
    [apply ex_env_ok|apply ex_key_set|apply ex_can_read|done|done|done|apply ex_opens|done|by vm_compute|intros d ->%ex_dek_in; by vm_compute|apply surjective_pairing
    |eapply boots_loss; [by vm_compute|apply power_loss_all|apply boots_done]|apply loss_fs|apply loss_db|apply loss_read|apply loss_calm].
Defined.

(** * Where recovery falls short *)

(** The boot after that kill, with the manifest's rewrite failing: it takes the finished rename for done and clears the marker. *)
Definition ex_cleared : option (res rotate_err KeyManager) * world := boot_keys ex_env ex_old (ex_restart ex_dek_killed.2 [FClean]).

Definition ex_lost : option (res rotate_err KeyManager) * world := boot_keys ex_env ex_old (ex_loss ex_cleared.2).

(** Boot clears the redo marker of a rotation whose rename is done but not synced: a power loss after it undoes the rename, and
    the next boot deletes the staged file, the only copy of the DEK every row is under. *)
Theorem unsynced_promotion_lost :
  dek_of ex_cleared.1 = Some (db_rows (w_db ex_cleared.2)) /\ power_loss (w_fs ex_cleared.2) (f_disk (w_fs ex_cleared.2)) /\
  dek_of ex_lost.1 = Some ex_dek /\ bool_decide (db_rows (w_db ex_lost.2) = ex_dek) = false /\
  forallb (fun kv => negb (bool_decide (ex_unwrap kv.2 (e_KEK ex_env ex_old ex_salt) = Some (db_rows (w_db ex_lost.2))))) (map_to_list (f_cur (w_fs ex_lost.2))) = true.
Proof. split; [by vm_compute|]. split; [apply power_loss_all|]. split_and!; by vm_compute. Qed.

(** On PostgreSQL: a DEK rotation that reports success without having cleared its marker, the boot of rotate-kek, which leaves
    the marker, and rotate-kek killed with its files staged. *)
Definition ex_rotated : option (res rotate_err KeyManager) * world :=
  rotate_dek ex_env ex_km ex_old (go "v2") (ex_world (mkDb ex_dek None (Some (sha256 ex_dek)) true None) (repeat FRun 12 ++ [FClean]) (mkFs ex_disk [])).
Definition ex_opened : option (res rotate_err KeyManager) * world := boot_keys ex_env ex_old (ex_restart ex_rotated.2 []).
Definition ex_stale : world :=
  match ex_opened.1 with Some (Ok km) => (rotate_kek ex_env km ex_old ex_new true (ex_restart ex_opened.2 [FRun; FRun; FCrash])).2 | _ => ex_opened.2 end.

Definition ex_split : option (res rotate_err KeyManager) * world := boot_keys ex_env ex_old (ex_restart ex_stale []).

(** The next boot takes the re-wrapped DEK for the rotation's and puts it in place beside the old salt: no boot opens it
    again, with either passphrase. *)
Theorem stale_marker_splits_key_set :
  dek_of ex_rotated.1 = Some (db_rows (w_db ex_rotated.2)) /\ dek_of ex_opened.1 = Some (db_rows (w_db ex_opened.2)) /\
  ex_split.1 = Some (Err ErrUnwrapDEK) /\ (boot_keys ex_env ex_old (ex_restart ex_split.2 [])).1 = Some (Err ErrUnwrapDEK) /\
  (boot_keys ex_env ex_new (ex_restart ex_split.2 [])).1 = Some (Err ErrUnwrapDEK).
Proof. split_and!; by vm_compute. Qed.
