(* ===== verification/DirFS.v ===== *)
(** What a process that works in several directories leaves behind (over the file system of KeyFS.v):
    invariants that speak of one directory at a time hold in every state a power loss can leave,
    since it keeps a prefix of the operations of each directory. *)
From Stdlib Require Import ZArith Lia.
From stdpp Require Import base numbers tactics sets list gmap.
From S2P Require Import Prelude GoStr KeyFS.

(** * Directories *)

Definition same_in (d : bytes) (f g : gmap path bytes) : Prop := forall p, p_dir p = d -> f !! p = g !! p.
Definition inside (o : dirop) : Prop := match o with OMove p q => p_dir q = p_dir p | _ => True end.
Definition ops_in (d : bytes) (l : list dirop) : list dirop := List.filter (on_dir d) l.

#[export] Instance same_in_equiv d : Equivalence (same_in d).
Proof. split; [by intros f p|by intros f g H p Hp; symmetry; apply H|]. intros f g h H1 H2 p Hp. by rewrite H1, H2. Qed.

Lemma apply_same_in d f g o : inside o -> same_in d f g -> same_in d (apply_op f o) (apply_op g o).
Proof.
  intros Hi Hs p Hp. destruct o as [q data|q r|q]; cbn in *.
  - destruct (decide (q = p)) as [-> |Hne]; [by rewrite !lookup_insert_eq|]. rewrite !lookup_insert_ne by done. by apply Hs.
  - destruct (decide (p_dir q = d)) as [Hq|Hq].
    + rewrite <- (Hs q Hq). destruct (f !! q); [|by apply Hs]. destruct (decide (r = p)) as [-> |Hne]; [by rewrite !lookup_insert_eq|].
      rewrite !lookup_insert_ne by done. destruct (decide (q = p)) as [-> |Hne']; [by rewrite !lookup_delete_eq|]. rewrite !lookup_delete_ne by done. by apply Hs.
    + assert (q <> p) by congruence. assert (r <> p) by congruence.
      destruct (f !! q), (g !! q); rewrite ?lookup_insert_ne, ?lookup_delete_ne by done; by apply Hs.
  - destruct (decide (q = p)) as [-> |Hne]; [by rewrite !lookup_delete_eq|]. rewrite !lookup_delete_ne by done. by apply Hs.
Qed.
Lemma apply_elsewhere d f o : inside o -> op_dir o <> d -> same_in d (apply_op f o) f.
Proof.
  intros Hi Hd p Hp. destruct o as [q data|q r|q]; cbn in *; [by rewrite lookup_insert_ne by congruence| |by rewrite lookup_delete_ne by congruence].
  destruct (f !! q); [|done]. by rewrite lookup_insert_ne, lookup_delete_ne by congruence.
Qed.
Lemma fold_same_in d l : Forall inside l -> forall f g, same_in d f g -> same_in d (fold_left apply_op l f) (fold_left apply_op (ops_in d l) g).
Proof.
  induction 1 as [|o l Ho _ IH]; intros f g Hs; [done|]. cbn. unfold on_dir at 1. case_bool_decide as Hd; cbn.
  - apply IH. by apply apply_same_in.
  - apply IH. etrans; [|exact Hs]. by apply apply_elsewhere.
Qed.
Lemma ops_in_all d l : Forall (fun o => on_dir d o = true) (ops_in d l).
Proof. apply Forall_forall. by intros o [_ Ho]%list_elem_of_In%filter_In. Qed.
Lemma ops_in_others d d' l : d' <> d -> ops_in d' (List.filter (fun o => negb (on_dir d o)) l) = ops_in d' l.
Proof.
  intros Hne. unfold ops_in. induction l as [|o l IH]; cbn; [done|]. destruct (on_dir d o) eqn:E; cbn; [|by rewrite IH].
  destruct (on_dir d' o) eqn:E'; [|done]. apply bool_decide_eq_true in E, E'. congruence.
Qed.
Lemma ops_in_own d l : ops_in d (List.filter (fun o => negb (on_dir d o)) l) = [].
Proof. unfold ops_in. induction l as [|o l IH]; cbn; [done|]. destruct (on_dir d o) eqn:E; cbn; [done|by rewrite E]. Qed.
Lemma ops_in_disjoint d d' l : d' <> d -> ops_in d' (ops_in d l) = [].
Proof.
  intros Hne. apply filter_Forall_false, Forall_forall. intros o Ho. pose proof (ops_in_all d l) as H. rewrite Forall_forall in H. apply H, bool_decide_eq_true in Ho. apply bool_decide_eq_false. congruence.
Qed.
Lemma inside_filter (P : dirop -> bool) l : Forall inside l -> Forall inside (List.filter P l).
Proof. intros Hi. apply Forall_forall. intros o [Ho _]%list_elem_of_In%filter_In. rewrite Forall_forall in Hi. by apply Hi, list_elem_of_In. Qed.
Lemma fold_own d l f g : Forall inside l -> Forall (fun o => on_dir d o = true) l -> same_in d f g -> same_in d (fold_left apply_op l f) (fold_left apply_op l g).
Proof. intros Hi Hd Hs. rewrite (fold_same_in d l Hi f g Hs). unfold ops_in. by rewrite filter_Forall_true. Qed.
Lemma ops_in_app d l l' : ops_in d (l ++ l') = ops_in d l ++ ops_in d l'.
Proof. apply List.filter_app. Qed.

(** * Invariants of single directories *)

(** The state after the first [n] unsynced operations of [d]. *)
Definition prefix_state (d : bytes) (n : nat) (x : fs) : gmap path bytes := fold_left apply_op (take n (ops_in d (f_log x))) (f_disk x).
(** Nothing unsynced changes [d]. *)
Definition settled (d : bytes) (x : fs) : Prop := forall n, same_in d (prefix_state d n x) (f_cur x).

Section kept.
Context (R : bytes -> gmap path bytes -> Prop).
Definition by_dir : Prop := forall d f g, same_in d f g -> R d f -> R d g.
Definition kept (x : fs) : Prop := Forall inside (f_log x) /\ forall d, R d (f_cur x) /\ forall n, R d (prefix_state d n x).
Context (Rdir : by_dir).

Lemma cur_same_in d x : Forall inside (f_log x) -> same_in d (f_cur x) (fold_left apply_op (ops_in d (f_log x)) (f_disk x)).
Proof. intros Hi. by apply fold_same_in. Qed.

Lemma kept_cur d x : kept x -> R d (f_cur x).
Proof. intros [_ H]. apply H. Qed.
Lemma kept_power_loss x f d : kept x -> power_loss x f -> R d f.
Proof.
  intros [Hi H] (l & [Hs Hp] & ->). destruct (Hp d) as [k Hk]. assert (Hl : Forall inside l).
  { apply Forall_forall. intros o Ho. rewrite Forall_forall in Hi. eapply Hi, elem_of_sublist; eauto. }
  apply (Rdir d (prefix_state d (length (ops_in d l)) x)); [|apply H]. unfold prefix_state, ops_in. rewrite Hk. change (List.filter (on_dir d) l) with (ops_in d l).
  rewrite take_app_length. symmetry. by apply fold_same_in.
Qed.
Lemma kept_clean f : (forall d, R d f) -> kept (mkFs f []).
Proof. intros H. split; [constructor|]. intros d. split; [apply H|]. intros n. unfold prefix_state. cbn. by rewrite take_nil. Qed.

Lemma kept_add o x : kept x -> inside o -> R (op_dir o) (apply_op (f_cur x) o) -> kept (add_op o x).
Proof.
  intros [Hi H] Ho HR. split; [by apply Forall_app; split; [|apply Forall_singleton]|]. intros d. rewrite f_cur_add. unfold prefix_state, add_op. cbn [f_log f_disk].
  rewrite ops_in_app. change (ops_in d [o]) with (if on_dir d o then [o] else []). unfold on_dir at 1. case_bool_decide as Hd.
  - subst d. split; [done|]. intros n. destruct (decide (n <= length (ops_in (op_dir o) (f_log x)))%nat); [rewrite take_app_le by done; apply H|].
    rewrite take_ge by (rewrite length_app; cbn; lia). rewrite fold_left_app. cbn. eapply Rdir; [|exact HR]. apply apply_same_in; [done|]. by apply cur_same_in.
  - rewrite app_nil_r. split; [|apply H]. eapply Rdir; [symmetry; by apply apply_elsewhere|apply H].
Qed.

Lemma flushed_elsewhere d d' x : Forall inside (f_log x) -> d' <> d -> same_in d' (f_disk (flush d x)) (f_disk x).
Proof.
  intros Hi Hd. cbn. change (List.filter (on_dir d) (f_log x)) with (ops_in d (f_log x)).
  pose proof (fold_same_in d' (ops_in d (f_log x)) (inside_filter _ _ Hi) (f_disk x) (f_disk x) ltac:(reflexivity)) as H. by rewrite ops_in_disjoint in H.
Qed.
Lemma flush_prefix d d' n x : Forall inside (f_log x) -> d' <> d -> same_in d' (prefix_state d' n (flush d x)) (prefix_state d' n x).
Proof.
  intros Hi Hd. unfold prefix_state. cbn [flush f_log]. rewrite ops_in_others by done. apply fold_own; [by apply Forall_take, inside_filter|apply Forall_take, ops_in_all|by apply flushed_elsewhere].
Qed.
Lemma flush_own d n x : Forall inside (f_log x) -> same_in d (prefix_state d n (flush d x)) (f_cur x).
Proof. intros Hi. unfold prefix_state. cbn [flush f_log]. rewrite ops_in_own, take_nil. cbn. symmetry. by apply cur_same_in. Qed.
Lemma flush_cur d x : Forall inside (f_log x) -> f_cur (flush d x) = f_cur x.
Proof.
  intros Hi. apply map_eq. intros p. rewrite (cur_same_in (p_dir p) (flush d x) (inside_filter _ _ Hi) p eq_refl), (cur_same_in (p_dir p) x Hi p eq_refl).
  destruct (decide (p_dir p = d)) as [<- |Hd].
  - cbn [flush f_log f_disk]. by rewrite ops_in_own.
  - cbn [flush f_log]. rewrite ops_in_others by done. apply (fold_own (p_dir p)); [by apply inside_filter|apply ops_in_all|by apply flushed_elsewhere|done].
Qed.
Lemma kept_flush d x : kept x -> kept (flush d x).
Proof.
  intros [Hi H]. split; [by apply inside_filter|]. intros d'. rewrite flush_cur by done. split; [apply H|]. intros n. destruct (decide (d' = d)) as [-> |Hd].
  - eapply Rdir; [symmetry; by apply flush_own|apply H].
  - eapply Rdir; [symmetry; by apply flush_prefix|apply H].
Qed.
End kept.
Lemma kept_mono (R R' : bytes -> gmap path bytes -> Prop) x : (forall d f, R d f -> R' d f) -> kept R x -> kept R' x.
Proof. intros HR [Hi H]. split; [done|]. intros d. destruct (H d) as [Hc Hn]. auto. Qed.
Lemma wp_crash {A} (C C' : world -> Prop) (m : M A) Q w : (forall w', C w' -> C' w') -> wp C m Q w -> wp C' m Q w.
Proof. intros HC. unfold wp. destruct (m w) as [[a|] w']; auto. Qed.

Lemma settled_flush d x : Forall inside (f_log x) -> settled d (flush d x).
Proof. intros Hi n. rewrite flush_cur by done. by apply flush_own. Qed.
Lemma settled_flush_other d d' x : Forall inside (f_log x) -> d' <> d -> settled d' x -> settled d' (flush d x).
Proof. intros Hi Hd Hs n. rewrite flush_cur by done. etrans; [by apply flush_prefix|apply Hs]. Qed.
Lemma settled_clean d f : settled d (mkFs f []).
Proof. intros n. unfold prefix_state. cbn. by rewrite take_nil. Qed.
(** An operation elsewhere, or one that changes nothing. *)
Lemma settled_add d o x : inside o -> op_dir o <> d \/ same_in d (apply_op (f_cur x) o) (f_cur x) /\ Forall inside (f_log x) -> settled d x -> settled d (add_op o x).
Proof.
  intros Ho Hc Hs n. rewrite f_cur_add. unfold prefix_state, add_op. cbn [f_log f_disk]. rewrite ops_in_app. change (ops_in d [o]) with (if on_dir d o then [o] else []). unfold on_dir at 1. case_bool_decide as Hd.
  - destruct Hc as [Hc|[Hc Hi]]; [done|]. destruct (decide (n <= length (ops_in d (f_log x)))%nat).
    + rewrite take_app_le by done. etrans; [apply Hs|by symmetry].
    + rewrite take_ge by (rewrite length_app; cbn; lia). rewrite fold_left_app. cbn. apply apply_same_in; [done|]. symmetry. by apply cur_same_in.
  - rewrite app_nil_r. etrans; [apply Hs|]. symmetry. by apply apply_elsewhere.
Qed.

(** What holds now holds after a power loss, in the directories where nothing is pending. *)
Lemma kept_strengthen (R R' : bytes -> gmap path bytes -> Prop) x : by_dir R' -> kept R x ->
  (forall d, R' d (f_cur x)) -> (forall d, settled d x \/ forall f, R d f -> R' d f) -> kept R' x.
Proof.
  intros Hdir [Hi H] Hcur Hd. split; [done|]. intros d. split; [done|]. intros n. destruct (Hd d) as [Hs|Himp]; [|by apply Himp, H].
  eapply Hdir; [symmetry; apply Hs|done].
Qed.

(** * Rules

    [errs]: operations may report errors; [kills]: the process may be killed.  A rule shows what an operation
    can leave when the invariant survives each of its effects. *)

Section rules.
Context (R : bytes -> gmap path bytes -> Prop) (Rdir : by_dir R) (errs kills : Prop) (db : keydb).

Definition allowed (f : fault) : Prop := match f with FRun => True | FClean | FShort _ | FEffect => errs | FCrash | FTorn _ => kills end.
Definition fine (w : world) : Prop := kept R (w_fs w) /\ Forall allowed (w_faults w) /\ w_db w = db.
Definition killed (w : world) : Prop := kills /\ kept R (w_fs w) /\ w_db w = db.
(** From [w] to [w'], with directories other than [D] as settled as they were. *)
Definition same_env (w w' : world) : Prop := w_unreadable w' = w_unreadable w /\ w_nonces w' = w_nonces w.
Definition after (D : bytes) (w w' : world) : Prop :=
  fine w' /\ same_env w w' /\ forall d, d <> D -> settled d (w_fs w) -> settled d (w_fs w').

Lemma allowed_next w : Forall allowed (w_faults w) -> allowed (default FRun (head (w_faults w))) /\ Forall allowed (tail (w_faults w)).
Proof. destruct 1; by split. Qed.
Ltac outcome w H := rewrite next_fault_eq; let Ha := fresh in let Hr := fresh in destruct (allowed_next w H) as [Ha Hr];
  destruct (default FRun (head (w_faults w))) as [ | | k | | | k ]; cbn [allowed] in Ha.
Lemma after_same w w' D : fine w -> w_fs w' = w_fs w -> same_env w w' -> w_db w' = w_db w -> Forall allowed (w_faults w') -> after D w w'.
Proof. intros (Hk&_&Hdb) Hfs Hu Hd Hf. split; [|split; [done|by rewrite Hfs]]. unfold fine. by rewrite Hfs, Hd. Qed.
Lemma after_add w w' o : fine w -> inside o -> R (op_dir o) (apply_op (cur w) o) -> w_fs w' = add_op o (w_fs w) -> same_env w w' -> w_db w' = w_db w ->
  Forall allowed (w_faults w') -> after (op_dir o) w w' /\ cur w' = apply_op (cur w) o.
Proof.
  intros (Hk&_&Hdb) Ho HR Hfs Hu Hd Hf. unfold after, fine, cur in *. rewrite Hfs, Hd, f_cur_add. split_and!; [by apply kept_add|done|done|done| |done].
  intros d Hne Hs. apply settled_add; auto.
Qed.

(** The world after an operation whose outcome was read from the schedule. *)
Definition tick (w : world) : world := mkWorld (w_fs w) (w_unreadable w) (w_db w) (tail (w_faults w)) (w_nonces w).
Lemma tick_same w D : fine w -> after D w (tick w).
Proof. intros Hw. apply after_same; try done. by apply allowed_next, Hw. Qed.
Lemma tick_add w o : fine w -> inside o -> R (op_dir o) (apply_op (cur w) o) ->
  after (op_dir o) w (set_fs (add_op o (w_fs w)) (tick w)) /\ cur (set_fs (add_op o (w_fs w)) (tick w)) = apply_op (cur w) o.
Proof. intros Hw Ho HR. apply after_add; try done. by apply allowed_next, Hw. Qed.
Lemma after_killed D w w' : kills -> after D w w' -> killed w'.
Proof. by intros Hk ((?&_&?)&_). Qed.

Lemma d_write p data (Q : res io_err unit -> world -> Prop) w : fine w -> (forall d, R (p_dir p) (<[p := d]> (cur w))) ->
  (forall r w', after (p_dir p) w w' -> (r = Ok () /\ cur w' = <[p := data]> (cur w) \/ errs /\ r = Err EIO /\ (cur w' = cur w \/ exists d, cur w' = <[p := d]> (cur w))) -> Q r w') ->
  wp killed (fwrite p data) Q w.
Proof.
  intros Hw HR HQ. assert (Hadd := fun d => tick_add w (OPut p d) Hw I (HR d)). cbn in Hadd. pose proof (tick_same w (p_dir p) Hw) as Hsame. unfold wp, fwrite.
  outcome w (proj1 (proj2 Hw)); fold (tick w); cbn.
  - destruct (Hadd data). auto.
  - apply HQ; auto.
  - destruct (Hadd (take k data)). apply HQ; [done|]. right. eauto.
  - destruct (Hadd data). apply HQ; [done|]. right. eauto.
  - by eapply after_killed.
  - destruct (Hadd (take k data)). by eapply after_killed.
Qed.

Lemma d_rename p q (Q : res io_err unit -> world -> Prop) w : fine w -> p_dir q = p_dir p -> (forall c, cur w !! p = Some c -> R (p_dir p) (<[q := c]> (delete p (cur w)))) ->
  (forall r w', after (p_dir p) w w' ->
    (exists c, cur w !! p = Some c /\ cur w' = <[q := c]> (delete p (cur w)) /\ (r = Ok () \/ errs /\ r = Err EIO)) \/
    (cur w' = cur w /\ (r = Err ENotExist /\ cur w !! p = None \/ errs /\ r = Err EIO)) -> Q r w') ->
  wp killed (frename p q) Q w.
Proof.
  intros Hw Hpq HR HQ. pose proof (tick_same w (p_dir p) Hw) as Hsame. unfold wp, frename.
  assert (Hadd : forall c, cur w !! p = Some c -> after (p_dir p) w (set_fs (add_op (OMove p q) (w_fs w)) (tick w)) /\ cur (set_fs (add_op (OMove p q) (w_fs w)) (tick w)) = <[q := c]> (delete p (cur w))).
  { intros c Hc. pose proof (tick_add w (OMove p q) Hw Hpq) as H. cbn in H. rewrite Hc in H. by apply H, HR. }
  outcome w (proj1 (proj2 Hw)); fold (tick w); cbn; change (f_cur (w_fs w)) with (cur w); try (by apply HQ; auto); try (by eapply after_killed).
  - destruct (cur w !! p) as [c|] eqn:Ec; [destruct (Hadd c eq_refl); apply HQ; [done|]; left; eauto|apply HQ; auto].
  - destruct (cur w !! p) as [c|] eqn:Ec; [destruct (Hadd c eq_refl); apply HQ; [done|]; left; exists c; auto|apply HQ; auto].
Qed.

Lemma d_sync d (Q : res io_err unit -> world -> Prop) w : fine w ->
  (forall r w', after d w w' -> cur w' = cur w -> (settled d (w_fs w) -> settled d (w_fs w')) -> (r = Ok () /\ settled d (w_fs w') \/ errs /\ r = Err EIO) -> Q r w') ->
  wp killed (fsyncdir d) Q w.
Proof.
  intros Hw HQ. pose proof (tick_same w d Hw) as Hsame. unfold wp, fsyncdir. assert (Hi : Forall inside (f_log (w_fs w))) by apply Hw.
  assert (Hfl : after d w (set_fs (flush d (w_fs w)) (tick w))).
  { split_and!; [split_and!; [by apply kept_flush, Hw|by apply allowed_next, Hw|apply Hw]|done|]. intros d' Hd Hs. by apply settled_flush_other. }
  pose proof (settled_flush d (w_fs w) Hi) as Hset. pose proof (flush_cur d (w_fs w) Hi) as Hcur.
  outcome w (proj1 (proj2 Hw)); fold (tick w); cbn; try (by apply HQ; auto); by eapply after_killed.
Qed.

Lemma d_remove p (Q : res io_err unit -> world -> Prop) w : fine w -> R (p_dir p) (delete p (cur w)) ->
  (forall r w', after (p_dir p) w w' -> (cur w !! p = None -> cur w' = cur w /\ forall d, settled d (w_fs w) -> settled d (w_fs w')) ->
    (cur w' = delete p (cur w) /\ (r = Ok () \/ errs /\ r = Err EIO)) \/ (cur w' = cur w /\ (r = Err ENotExist /\ cur w !! p = None \/ errs /\ r = Err EIO)) -> Q r w') ->
  wp killed (fremove p) Q w.
Proof.
  intros Hw HR HQ. pose proof (tick_same w (p_dir p) Hw) as Hsame. destruct (tick_add w (ODel p) Hw I HR) as [Hadd Hcur]. cbn [op_dir apply_op] in Hadd, Hcur. unfold wp, fremove.
  assert (Hnone : cur w !! p = None -> delete p (cur w) = cur w) by apply delete_id.
  assert (Hset : cur w !! p = None -> forall d, settled d (w_fs w) -> settled d (add_op (ODel p) (w_fs w))).
  { intros Hn d Hs. apply settled_add; [done| |done]. right. split; [|apply Hw]. cbn. change (f_cur (w_fs w)) with (cur w). by rewrite (Hnone Hn). }
  outcome w (proj1 (proj2 Hw)); fold (tick w); cbn; change (f_cur (w_fs w)) with (cur w); try (by apply HQ; auto); try (by eapply after_killed).
  - destruct (cur w !! p) eqn:Ec; apply HQ; auto; by intros [=].
  - apply HQ; [done| |auto]. intros Hn. split; [|by apply Hset]. etrans; [exact Hcur|by apply Hnone].
Qed.
End rules.
