(* ===== verification/Restore.v ===== *)
(** `admin restore` and `admin restore --recover` (src/server/admin/restore_commit.go, restore.go,
    src/internal/restorejournal/journal.go): how staged key files and restored data become live
    together, with a journal that survives a kill or a power loss in between.

    The files are those of KeyFS.v.  A restore with --overwrite-existing is modelled, which renames
    its files into place; reading and checking the archive, the rollback protection, the audit
    events, the witness and the encryption of old notification URLs are not.  A database transaction
    is one operation, which can fail, or report an error with either outcome; building
    the staged SQLite file is one write. *)
From Stdlib Require Import ZArith Lia.
From stdpp Require Import base numbers tactics sets list gmap.
From S2P Require Import Prelude GoStr Sha256 KeyFS.
Local Open Scope go_scope.

(** * Data *)

Record Entry := mkEntry { e_Path : path; e_Staged : path; e_SHA256 : bytes; e_SQLiteDB : bool }.
Record Journal := mkJournal { j_Version : Z; j_Postgres : bool; j_Token : bytes; j_Timestamp : bytes; j_Entries : list Entry; j_Installed : bool }.
Definition Version : Z := 1.
Definition set_Version (j : Journal) : Journal := mkJournal Version (j_Postgres j) (j_Token j) (j_Timestamp j) (j_Entries j) (j_Installed j).
Definition set_Installed (j : Journal) : Journal := mkJournal (j_Version j) (j_Postgres j) (j_Token j) (j_Timestamp j) (j_Entries j) true.

(** The paths of a configuration: key files with the key-set manifest, the SQLite file, the journal. *)
Record config := mkConfig { c_postgres : bool; c_keys : list path; c_db : path; c_journal : path }.
(** What an archive restores: the key files and the manifest over them, the database. *)
Record archive := mkArchive { a_keys : list (path * bytes); a_dbfile : bytes; a_db : keydb }.

Inductive restore_err := ErrIO (e : io_err) | ErrTempExists | ErrJournalPresent | ErrJournalParse | ErrJournalVersion | ErrJournalInvalid | ErrUnvouched | ErrLoad | ErrLoadUnknown | ErrToken.
Definition io {A} (m : M (res io_err A)) : M (res restore_err A) := let! r := m in ret (match r with Ok a => Ok a | Err e => Err (ErrIO e) end).

Definition HashBytes (data : bytes) : bytes := hex_encode (sha256 data).
Definition staging : bytes := go ".restoring-".
Definition asideSuffix : bytes := go ".pre-restore-".
Definition tmpSuffix : bytes := go ".tmp-".

(** os.CreateTemp: the next random name that is not taken. *)
Fixpoint free_name (name : bytes -> path) (f : gmap path bytes) (nonces : list bytes) : option (path * list bytes) :=
  match nonces with
  | [] => None
  | n :: nonces => if is_none (f !! name n) then Some (name n, nonces) else free_name name f nonces
  end.
Definition CreateTemp (p : path) (suffix : bytes) : M (res restore_err path) := fun w =>
  match free_name (fun n => sibling p (suffix ++ n)) (f_cur (w_fs w)) (w_nonces w) with
  | Some (tmp, nonces) => (Some (Ok tmp), mkWorld (w_fs w) (w_unreadable w) (w_db w) (w_faults w) nonces)
  | None => (Some (Err ErrTempExists), w)
  end.
(** os.Remove, and os.Rename of what may not be there. *)
Definition removeIfExists (p : path) : M (res restore_err unit) :=
  let! r := fremove p in ret (match r with Err EIO => Err (ErrIO EIO) | _ => Ok () end).
Definition renameIfExists (p q : path) : M (res restore_err unit) :=
  let! r := frename p q in ret (match r with Err EIO => Err (ErrIO EIO) | _ => Ok () end).

(** * Staging *)

Definition prepareRestoredFile (p : path) (data : bytes) : M (res restore_err path) :=
  let?! tmp := CreateTemp p staging in
  let! r := fwrite tmp data in
  match r with
  | Ok _ => ret (Ok tmp)
  | Err e => let! _ := fremove tmp in ret (Err (ErrIO e))
  end.
Definition removeStaleSQLiteSidecars (p : path) : M (res restore_err unit) :=
  let?! _ := removeIfExists (sibling p (go "-wal")) in removeIfExists (sibling p (go "-shm")).
Definition removeStagedSQLiteSidecars (p : path) : M (res restore_err unit) :=
  let?! _ := removeStaleSQLiteSidecars p in removeIfExists (sibling p (go ".migration.lock")).
Fixpoint discardStagedEntries (entries : list Entry) : M unit :=
  match entries with
  | [] => ret ()
  | e :: entries =>
      let! _ := fremove (e_Staged e) in
      let! _ := (if e_SQLiteDB e then removeStagedSQLiteSidecars (e_Staged e) else ret (Ok ())) in
      discardStagedEntries entries
  end.
Fixpoint prepareRestoredFileSet (files : list (path * bytes)) (entries : list Entry) : M (res restore_err (list Entry)) :=
  match files with
  | [] => ret (Ok entries)
  | (p, data) :: files =>
      let! r := prepareRestoredFile p data in
      match r with
      | Err e => let! _ := discardStagedEntries entries in ret (Err e)
      | Ok tmp => prepareRestoredFileSet files (entries ++ [mkEntry p tmp (HashBytes data) false])
      end
  end.

(** * The journal *)

Section journal.
Context (MarshalIndent : Journal -> bytes) (Unmarshal : bytes -> option Journal) (cfg : config).
Abbreviation journalPath := (c_journal cfg).

Fixpoint SyncEntryDirs (entries : list Entry) (seen : list bytes) : M (res restore_err unit) :=
  match entries with
  | [] => ret (Ok ())
  | e :: entries =>
      let dir := p_dir (e_Staged e) in
      if bool_decide (dir ∈ seen) then SyncEntryDirs entries seen
      else let?! _ := io (fsyncdir dir) in SyncEntryDirs entries (dir :: seen)
  end.
Definition Write (j : Journal) : M (res restore_err unit) :=
  let?! _ := SyncEntryDirs (j_Entries j) [] in
  let?! tmp := CreateTemp journalPath tmpSuffix in
  let! r := (let?! _ := io (fwrite tmp (MarshalIndent (set_Version j))) in
             let?! _ := io (frename tmp journalPath) in
             io (fsyncdir (p_dir journalPath))) in
  let! _ := fremove tmp in
  ret r.
Definition Remove : M (res restore_err unit) :=
  let?! _ := removeIfExists journalPath in io (fsyncdir (p_dir journalPath)).
Definition Read : M (res restore_err (option Journal)) :=
  let! r := fread journalPath in
  ret (match r with
       | Err ENotExist => Ok None
       | Err e => Err (ErrIO e)
       | Ok data => match Unmarshal data with
                    | None => Err ErrJournalParse
                    | Some j => if negb (j_Version j =? Version) then Err ErrJournalVersion else Ok (Some j)
                    end
       end).
Definition RefuseIfPresent : M (res restore_err unit) := let! here := fstat journalPath in ret (if here then Err ErrJournalPresent else Ok ()).

(** * Installing *)

Fixpoint checkJournalEntries (entries : list Entry) : M (res restore_err unit) :=
  match entries with
  | [] => ret (Ok ())
  | e :: entries =>
      let! r := fread (e_Staged e) in
      match r with
      | Ok data => if bool_decide (HashBytes data = e_SHA256 e) then checkJournalEntries entries else ret (Err ErrUnvouched)
      | Err ENotExist =>
          let! live := fread (e_Path e) in
          match live with
          | Ok data => if bool_decide (HashBytes data = e_SHA256 e) then checkJournalEntries entries else ret (Err ErrUnvouched)
          | Err _ => ret (Err ErrUnvouched)
          end
      | Err err => ret (Err (ErrIO err))
      end
  end.
Definition moveAsideSQLiteDB (p : path) (ts : bytes) : M (res restore_err unit) :=
  let?! _ := renameIfExists (sibling p (go "-wal")) (sibling p (asideSuffix ++ ts ++ go "-wal")) in
  let?! _ := renameIfExists (sibling p (go "-shm")) (sibling p (asideSuffix ++ ts ++ go "-shm")) in
  let?! _ := renameIfExists p (sibling p (asideSuffix ++ ts)) in
  io (fsyncdir (p_dir p)).
(** The deferred removal of the staged name runs on every return, also on an error. *)
Definition commitRestoredFile (p tmp : path) (ts : bytes) : M (res restore_err unit) :=
  let! r := (let! here := fstat p in
             let?! _ := (if here then io (frename p (sibling p (asideSuffix ++ ts))) else ret (Ok ())) in
             let?! _ := io (frename tmp p) in
             io (fsyncdir (p_dir p))) in
  let! _ := fremove tmp in
  ret r.
Definition installJournalEntry (e : Entry) (ts : bytes) : M (res restore_err unit) :=
  let! here := fstat (e_Staged e) in
  if negb here then ret (Ok ())
  else let?! _ := (if e_SQLiteDB e then moveAsideSQLiteDB (e_Path e) ts else ret (Ok ())) in
       commitRestoredFile (e_Path e) (e_Staged e) ts.
Fixpoint install_entries (entries : list Entry) (ts : bytes) : M (res restore_err unit) :=
  match entries with
  | [] => ret (Ok ())
  | e :: entries => let?! _ := installJournalEntry e ts in install_entries entries ts
  end.
Definition installJournalEntries (j : Journal) : M (res restore_err unit) :=
  if j_Installed j then ret (Ok ())
  else let?! _ := checkJournalEntries (j_Entries j) in
       let?! _ := install_entries (j_Entries j) (j_Timestamp j) in
       Write (set_Installed j).

(** * The database *)

Definition set_token (t : option bytes) (db : keydb) : keydb := mkDb (db_rows db) (db_marker db) (db_epoch db) (db_postgres db) t.
(** One operation on the database: [done] is the world with its effect. *)
Definition on_db {A} (ok : A) (done : world -> world) (failed : restore_err) : M (res restore_err A) := fun w =>
  let '(f, w) := next_fault w in
  match f with
  | FRun => (Some (Ok ok), done w)
  | FClean | FShort _ => (Some (Err failed), w)
  | FEffect => (Some (Err failed), done w)
  | FCrash => (None, w)
  | FTorn _ => (None, done w)
  end.
Definition load_transaction (a : archive) (token : bytes) : M (res restore_err unit) := on_db () (set_db (set_token (Some token) (a_db a))) ErrLoad.
Definition postgresRestoreTokenCommitted (token : bytes) : M (res restore_err bool) :=
  let?! _ := on_db () id ErrToken in
  fun w => (Some (Ok (bool_decide (db_token (w_db w) = Some token))), w).
Definition deletePostgresRestoreToken : M (res restore_err unit) := on_db () (fun w => set_db (set_token None (w_db w)) w) ErrToken.
(** Whether the data counts as committed, and the error. *)
Definition loadPostgresRestore (a : archive) (token : bytes) : M (bool * option restore_err) :=
  let! r := load_transaction a token in
  match r with
  | Ok _ => ret (true, None)
  | Err e =>
      let! committed := postgresRestoreTokenCommitted token in
      ret (match committed with Err _ => (true, Some ErrLoadUnknown) | Ok true => (true, None) | Ok false => (false, Some e) end)
  end.

(** * The commands *)

Definition finishRestore (j : Journal) : M (res restore_err unit) :=
  let?! _ := Remove in
  if bool_decide (j_Token j = []) then ret (Ok ()) else let! _ := deletePostgresRestoreToken in ret (Ok ()).

Definition targets : list path := c_keys cfg ++ (if c_postgres cfg then [] else [c_db cfg]).
Definition orphan (p : path) : bool :=
  existsb (fun t => bool_decide (p_dir p = p_dir t) && HasPrefix (p_name p) (p_name t ++ staging)) targets ||
  bool_decide (p_dir p = p_dir journalPath) && HasPrefix (p_name p) (p_name journalPath ++ tmpSuffix).
Definition removeOrphans (dir : bytes) : M (res restore_err unit) :=
  let! names := freaddir dir in
  mfold (fun _ p => if orphan p then io (fremove p) else ret (Ok ())) names ().
Definition removeOrphanStagedFiles : M (res restore_err unit) := mfold (fun _ d => removeOrphans d) (remove_dups (map p_dir (targets ++ [journalPath]))) ().

Definition install_and_finish (j : Journal) : M (res restore_err unit) := let?! _ := installJournalEntries j in finishRestore j.
Definition restorePostgres (a : archive) (entries : list Entry) (ts : bytes) : M (res restore_err unit) :=
  let! token := draw_nonce in
  let j := mkJournal 0 true token ts entries false in
  let! r := Write j in
  match r with
  | Err e => let! _ := discardStagedEntries entries in ret (Err e)
  | Ok _ =>
      let! loaded := loadPostgresRestore a token in
      match loaded with
      | (false, err) => let! rr := Remove in let! _ := discardStagedEntries entries in ret (Err (default ErrLoad err))
      | (true, Some err) => ret (Err err)
      | (true, None) => install_and_finish j
      end
  end.
Definition buildStagedSQLiteRestore (stagedDB : path) (a : archive) : M (res restore_err unit) :=
  let! r := (let?! _ := io (fwrite stagedDB (a_dbfile a)) in removeStagedSQLiteSidecars stagedDB) in
  match r with
  | Ok _ => ret (Ok ())
  | Err e => let! _ := fremove stagedDB in let! _ := removeStagedSQLiteSidecars stagedDB in ret (Err e)
  end.
Definition restoreSQLite (a : archive) (entries : list Entry) (ts : bytes) : M (res restore_err unit) :=
  let stagedDB := sibling (c_db cfg) (staging ++ ts) in
  let! r := (let?! _ := buildStagedSQLiteRestore stagedDB a in
             let?! data := io (fread stagedDB) in
             let j := mkJournal 0 false [] ts (entries ++ [mkEntry (c_db cfg) stagedDB (HashBytes data) true]) false in
             let?! _ := Write j in ret (Ok j)) in
  match r with
  | Err e => let! _ := discardStagedEntries (entries ++ [mkEntry (c_db cfg) stagedDB [] true]) in ret (Err e)
  | Ok j => install_and_finish j
  end.
Definition runAdminRestoreV2 (a : archive) : M (res restore_err unit) :=
  let! ts := draw_nonce in
  let?! entries := prepareRestoredFileSet (a_keys a) [] in
  if c_postgres cfg then restorePostgres a entries ts else restoreSQLite a entries ts.
Definition runAdminRestore (a : archive) : M (res restore_err unit) :=
  let?! _ := RefuseIfPresent in
  let?! _ := removeOrphanStagedFiles in
  runAdminRestoreV2 a.

Definition hex_digit (b : Byte.byte) : bool := bool_decide (b ∈ go "0123456789abcdef").
Definition validateJournalEntries (j : Journal) : bool :=
  Bool.eqb (j_Postgres j) (c_postgres cfg) &&
  forallb (fun e =>
    bool_decide (e_Path e ∈ targets) &&
    Bool.eqb (e_SQLiteDB e) (negb (c_postgres cfg) && bool_decide (e_Path e = c_db cfg)) &&
    bool_decide (p_dir (e_Staged e) = p_dir (e_Path e)) && HasPrefix (p_name (e_Staged e)) (p_name (e_Path e) ++ staging) &&
    ((length (e_SHA256 e) =? 64)%nat && forallb hex_digit (e_SHA256 e))) (j_Entries j).
Definition runAdminRestoreRecover : M (res restore_err unit) :=
  let?! found := Read in
  match found with
  | None => removeOrphanStagedFiles
  | Some j =>
      if negb (validateJournalEntries j) then ret (Err ErrJournalInvalid)
      else let?! forward := (if j_Postgres j then postgresRestoreTokenCommitted (j_Token j) else ret (Ok true)) in
           if negb forward then let! _ := discardStagedEntries (j_Entries j) in Remove
           else install_and_finish j
  end.
End journal.
