(* ===== verification/RestorePaths.v ===== *)
(** The names a restore uses next to its targets: staged files, originals moved aside, SQLite
    sidecars, temporary journals.  When no configured path is another one with such a
    suffix, no two roles share a name. *)
From Stdlib Require Import ZArith Lia.
From stdpp Require Import base numbers tactics sets list gmap.
From S2P Require Import Prelude GoStr KeyFS Restore.
Local Open Scope go_scope.

Definition stems : list bytes := [go ".restoring"; go ".pre-restore"; go ".tmp"; go "-wal"; go "-shm"].
Definition sufs : list bytes := [staging; asideSuffix; tmpSuffix; go "-wal"; go "-shm"].

(** No configured path extends another by one of the stems. *)
Definition bases (cfg : config) : list path := targets cfg ++ [c_journal cfg].
Definition extends (t t' : path) (stem : bytes) : bool := bool_decide (p_dir t = p_dir t') && HasPrefix (p_name t') (p_name t ++ stem).
Definition clear_names (cfg : config) : bool :=
  bool_decide (NoDup (bases cfg)) && forallb (fun t => forallb (fun t' => forallb (fun s => negb (extends t t' s)) stems) (bases cfg)) (bases cfg).

Lemma app_compare (a b x y : bytes) : a ++ x = b ++ y -> HasPrefix a b = true \/ HasPrefix b a = true.
Proof. intros (l & [[-> _]|[-> _]])%app_eq_app; [left|right]; apply HasPrefix_spec; eauto. Qed.

(** A suffix that starts inside another one does not occur. *)
Definition overlap (s stem s' : bytes) : bool :=
  existsb (fun k => HasPrefix (drop k s) s' || HasPrefix s' (drop k s)) (seq 1 (length stem - 1)).
Lemma no_overlap : forallb (fun st => forallb (fun s' => negb (overlap st.1 st.2 s')) sufs) (zip sufs stems) = true.
Proof. vm_compute. reflexivity. Qed.
Lemma sufs_apart : forallb (fun s => forallb (fun s' => bool_decide (s = s') || negb (HasPrefix s s')) sufs) sufs = true.
Proof. vm_compute. reflexivity. Qed.
Lemma stems_prefix : forallb (fun st => bool_decide (st.2 ∈ stems) && HasPrefix st.1 st.2) (zip sufs stems) = true.
Proof. vm_compute. reflexivity. Qed.
Lemma sufs_stems s : s ∈ sufs -> exists stem, (s, stem) ∈ zip sufs stems /\ stem ∈ stems /\ HasPrefix s stem = true.
Proof.
  intros Hs. assert (exists stem, (s, stem) ∈ zip sufs stems) as [stem Hz].
  { change sufs with ((zip sufs stems).*1) in Hs. by apply list_elem_of_fmap in Hs as ([? stem] & -> & ?); exists stem. }
  exists stem. split; [done|]. pose proof stems_prefix as H. rewrite forallb_forall in H. specialize (H (s, stem) (proj1 (list_elem_of_In _ _) Hz)).
  apply andb_prop in H as [H ?]. by apply bool_decide_eq_true in H.
Qed.

Lemma words_split (s stem u y x : bytes) : HasPrefix s stem = true -> u <> [] -> s ++ x = u ++ y ->
  HasPrefix u stem = true \/ exists k, (1 <= k < length stem)%nat /\ y = drop k s ++ x.
Proof.
  intros [r ->]%HasPrefix_spec Hu E. destruct (decide (length stem <= length u)%nat) as [Hl|Hl].
  - left. rewrite <- app_assoc in E. destruct (app_eq_app _ _ _ _ E) as (l & [[E1 _]|[E1 _]]).
    + apply HasPrefix_spec. exists []. subst stem. rewrite length_app in Hl. destruct l; [by rewrite !app_nil_r|cbn in Hl; lia].
    + apply HasPrefix_spec. eauto.
  - right. exists (length u). destruct u as [|c u]; [done|]. split; [cbn in *; lia|].
    assert (Hd := f_equal (drop (length (c :: u))) E). rewrite drop_app_length in Hd. rewrite <- Hd, drop_app_le; [done|]. rewrite length_app. lia.
Qed.

Section names.
Context (cfg : config) (Hclear : clear_names cfg = true).

Lemma bases_nodup : NoDup (bases cfg).
Proof. apply andb_prop in Hclear as [H _]. by apply bool_decide_eq_true in H. Qed.
Lemma not_extends t t' stem : t ∈ bases cfg -> t' ∈ bases cfg -> stem ∈ stems -> extends t t' stem = false.
Proof.
  intros Ht Ht' Hs. apply andb_prop in Hclear as [_ H]. rewrite forallb_forall in H. specialize (H t (proj1 (list_elem_of_In _ _) Ht)).
  rewrite forallb_forall in H. specialize (H t' (proj1 (list_elem_of_In _ _) Ht')). rewrite forallb_forall in H. apply negb_true_iff, H. by apply list_elem_of_In.
Qed.

Lemma base_name t t' s x : t ∈ bases cfg -> t' ∈ bases cfg -> s ∈ sufs -> sibling t (s ++ x) <> t'.
Proof.
  intros Ht Ht' (stem & _ & Hst & [r ->]%HasPrefix_spec)%sufs_stems E. pose proof (not_extends t t' stem Ht Ht' Hst) as Hn. unfold extends in Hn. subst t'. cbn in Hn.
  rewrite bool_decide_eq_true_2 in Hn by done. cbn in Hn. eapply (eq_true_false_abs _ _ Hn). Unshelve. apply HasPrefix_spec. exists (r ++ x). by rewrite !app_assoc.
Qed.

Lemma longer_base t t' s s' x x' u : t ∈ bases cfg -> t' ∈ bases cfg -> s ∈ sufs -> s' ∈ sufs -> p_dir t = p_dir t' ->
  p_name t' = p_name t ++ u -> s ++ x = u ++ s' ++ x' -> u = [].
Proof.
  intros Ht Ht' Hs Hs' Hd Hu E. destruct (decide (u = [])) as [|Hne]; [done|]. exfalso. destruct (sufs_stems s Hs) as (stem & Hz & Hst & Hp).
  destruct (words_split s stem u (s' ++ x') x Hp Hne E) as [Hpu|(k & Hk & Hy)].
  - pose proof (not_extends t t' stem Ht Ht' Hst) as Hn. unfold extends in Hn. rewrite bool_decide_eq_true_2 in Hn by done. cbn in Hn.
    apply HasPrefix_spec in Hpu as [v ->]. eapply (eq_true_false_abs _ _ Hn). Unshelve. apply HasPrefix_spec. exists v. by rewrite Hu, app_assoc.
  - pose proof no_overlap as Ho. rewrite forallb_forall in Ho. specialize (Ho (s, stem) (proj1 (list_elem_of_In _ _) Hz)). rewrite forallb_forall in Ho.
    specialize (Ho s' (proj1 (list_elem_of_In _ _) Hs')). apply negb_true_iff in Ho. cbn in Ho. eapply (eq_true_false_abs _ _ Ho). Unshelve.
    apply existsb_exists. exists k. split; [apply in_seq; lia|]. apply orb_true_iff. symmetry in Hy. by apply app_compare in Hy.
Qed.

Lemma role_inj t t' s s' x x' : t ∈ bases cfg -> t' ∈ bases cfg -> s ∈ sufs -> s' ∈ sufs -> sibling t (s ++ x) = sibling t' (s' ++ x') -> t = t' /\ s = s' /\ x = x'.
Proof.
  intros Ht Ht' Hs Hs' [= Hd Hn]. assert (t = t') as ->.
  { destruct t as [d n], t' as [d' n']; cbn in *. subst d'. f_equal. destruct (app_eq_app _ _ _ _ Hn) as (u & [[E1 E2]|[E1 E2]]).
    - rewrite (longer_base (mkPath d n') (mkPath d n) s' s x' x u) in E1; try done. by rewrite app_nil_r in E1.
    - rewrite (longer_base (mkPath d n) (mkPath d n') s s' x x' u) in E1; try done. by rewrite app_nil_r in E1. }
  apply app_inv_head in Hn. split; [done|]. pose proof sufs_apart as Ha. rewrite forallb_forall in Ha. assert (s = s') as ->; [|by apply app_inv_head in Hn].
  assert (forall u v, u ∈ sufs -> v ∈ sufs -> HasPrefix u v = true -> u = v) as Hap.
  { intros u v Hu Hv Hp. specialize (Ha u (proj1 (list_elem_of_In _ _) Hu)). rewrite forallb_forall in Ha. specialize (Ha v (proj1 (list_elem_of_In _ _) Hv)).
    apply orb_true_iff in Ha as [Ha%bool_decide_eq_true|Ha]; [done|]. by rewrite Hp in Ha. }
  destruct (app_compare _ _ _ _ Hn); [|symmetry]; by apply Hap.
Qed.
End names.
