(* ===== verification/RestoreSteps.v ===== *)
(** What the steps of a restore leave behind, for any invariant of single directories that
    survives their effects: staging, discarding, sweeping orphans, writing the journal. *)
From Stdlib Require Import ZArith Lia.
From stdpp Require Import base numbers tactics sets list gmap.
From S2P Require Import Prelude GoStr Sha256 KeyFS DirFS Restore.
Local Open Scope go_scope.

(** A file to install: where, from where, and its content. *)
Record slot := mkSlot { s_path : path; s_staged : path; s_data : bytes; s_db : bool }.
Definition entry_of (s : slot) : Entry := mkEntry (s_path s) (s_staged s) (HashBytes (s_data s)) (s_db s).
Definition holds (w : world) (sl : list slot) : Prop := NoDup (map s_staged sl) /\ forall s, s ∈ sl -> cur w !! s_staged s = Some (s_data s).
Definition is_staged (s : slot) : Prop := exists x, s_staged s = sibling (s_path s) (staging ++ x).

Lemma wp_use {A} (C : world -> Prop) (m : M A) (Q Q' : A -> world -> Prop) w : wp C m Q w -> (forall a w', Q a w' -> Q' a w') -> wp C m Q' w.
Proof. apply wp_mono. Qed.
Lemma wp_io {A} (C : world -> Prop) (m : M (res io_err A)) Q w : wp C m (fun r => Q (match r with Ok a => Ok a | Err e => Err (ErrIO e) end)) w -> wp C (io m) Q w.
Proof. intros H. apply wp_bind. eapply wp_mono; [exact H|]. by intros a w' ?. Qed.
Lemma wp_let {A B} (C : world -> Prop) (m : M A) (k : A -> M B) (P : A -> world -> Prop) Q w : wp C m P w -> (forall a w', P a w' -> wp C (k a) Q w') -> wp C (bind m k) Q w.
Proof. intros H1 H2. apply wp_bind. eapply wp_mono; [exact H1|]. apply H2. Qed.
Lemma wp_let_res {E A B} (C : world -> Prop) (m : M (res E A)) (k : A -> M (res E B)) (P : res E A -> world -> Prop) (Q : res E B -> world -> Prop) w :
  wp C m P w -> (forall a w', P (Ok a) w' -> wp C (k a) Q w') -> (forall e w', P (Err e) w' -> Q (Err e) w') -> wp C (bind_res m k) Q w.
Proof. intros H1 H2 H3. apply wp_bind_res. eapply wp_mono; [exact H1|]. intros [a|e] w'; auto. Qed.

Lemma free_name_spec name f l : match free_name name f l with
  | Some (p, rest) => f !! p = None /\ rest ⊆ l /\ exists n, n ∈ l /\ p = name n
  | None => forall n, n ∈ l -> f !! name n <> None end.
Proof.
  induction l as [|n l IH]; cbn; [by intros n ?%elem_of_nil|]. destruct (f !! name n) as [c|] eqn:E; cbn.
  - destruct (free_name name f l) as [[p rest]|].
    + destruct IH as (?&?&m&?&?). split_and!; [done|set_solver|]. exists m. split; [set_solver|done].
    + intros m [->|Hm]%elem_of_cons; [by rewrite E|auto].
  - split_and!; [done|set_solver|]. exists n. split; [set_solver|done].
Qed.

Section steps.
Context (R : bytes -> gmap path bytes -> Prop) (Rdir : by_dir R) (errs kills : Prop) (db : keydb).
Local Abbreviation ok := (fine R errs kills db).
Local Abbreviation C := (killed R kills db).
Context (junk : path -> Prop) (Hdel : forall p f, junk p -> R (p_dir p) f -> R (p_dir p) (delete p f)).

(** The invariant holds and only junk changed. *)
Definition leaves (w w' : world) : Prop :=
  ok w' /\ w_unreadable w' = w_unreadable w /\ w_nonces w' ⊆ w_nonces w /\ forall p, ~ junk p -> cur w' !! p = cur w !! p.
Lemma ok_cur d w : ok w -> R d (cur w).
Proof. intros [H _]. exact (kept_cur R d (w_fs w) H). Qed.
Lemma leaves_refl w : ok w -> leaves w w.
Proof. intros H. split; [exact H|]. by split_and!. Qed.
Lemma leaves_trans w w' w'' : leaves w w' -> leaves w' w'' -> leaves w w''.
Proof. intros (_&E1&S1&F1) (Hok&E2&S2&F2). split_and!; [exact Hok|by rewrite E2|by etrans|]. intros p Hp. by rewrite F2, F1. Qed.
Lemma after_leaves D w w' : after R errs kills db D w w' -> (forall p, ~ junk p -> cur w' !! p = cur w !! p) -> leaves w w'.
Proof. intros (?&(?&E)&_) ?. split_and!; [done|done|by rewrite E|done]. Qed.

Lemma s_remove p w : ok w -> junk p ->
  wp C (fremove p) (fun r w' => leaves w w' /\ (r = Ok () /\ cur w' = delete p (cur w) \/ r = Err ENotExist /\ cur w !! p = None \/ errs /\ r = Err EIO)) w.
Proof.
  intros Hw Hp. eapply d_remove; [done|done|by apply Hdel, ok_cur|]. intros r w' Ha _ H.
  assert (Hl : leaves w w').
  { eapply after_leaves; [exact Ha|]. intros q Hq. destruct H as [[-> _]|[-> _]]; [|done]. rewrite lookup_delete_ne; [done|]. by intros ->. }
  split; [done|]. naive_solver.
Qed.
Lemma s_removeIfExists p w : ok w -> junk p -> wp C (removeIfExists p) (fun r w' => leaves w w' /\ (r = Ok () \/ errs)) w.
Proof. intros Hw Hp. eapply wp_let; [by apply s_remove|]. intros r w' [? Hr]. apply wp_ret. split; [done|]. destruct Hr as [[-> _]|[[-> _]|[? ->]]]; auto. Qed.
Lemma s_stale p w : ok w -> junk (sibling p (go "-wal")) -> junk (sibling p (go "-shm")) -> wp C (removeStaleSQLiteSidecars p) (fun r w' => leaves w w' /\ (r = Ok () \/ errs)) w.
Proof.
  intros Hw H1 H2. eapply wp_let_res; [by apply s_removeIfExists| |].
  - intros _ w1 [Hl _]. eapply wp_use; [apply s_removeIfExists; [apply Hl|done]|]. intros r w2 [? ?]. split; [by eapply leaves_trans|done].
  - intros e w' [? [[=]|?]]. auto.
Qed.
Definition sidecars_junk (p : path) : Prop := junk (sibling p (go "-wal")) /\ junk (sibling p (go "-shm")) /\ junk (sibling p (go ".migration.lock")).
Lemma s_sidecars p w : ok w -> sidecars_junk p -> wp C (removeStagedSQLiteSidecars p) (fun r w' => leaves w w' /\ (r = Ok () \/ errs)) w.
Proof.
  intros Hw (H1&H2&H3). eapply wp_let_res; [by apply s_stale| |].
  - intros _ w1 [Hl _]. eapply wp_use; [apply s_removeIfExists; [apply Hl|done]|]. intros r w2 [? ?]. split; [by eapply leaves_trans|done].
  - intros e w' [? [[=]|?]]. auto.
Qed.
Lemma s_discard es : forall w, ok w -> (forall e, e ∈ es -> junk (e_Staged e) /\ (e_SQLiteDB e = true -> sidecars_junk (e_Staged e))) ->
  wp C (discardStagedEntries es) (fun _ => leaves w) w.
Proof.
  induction es as [|e es IH]; intros w Hw Hj; [apply wp_ret; by apply leaves_refl|]. destruct (Hj e ltac:(left)) as [Hs Hd]. cbn.
  eapply wp_let; [by apply s_remove|]. intros r w1 [H1 _].
  apply wp_let with (P := fun _ => leaves w).
  - destruct (e_SQLiteDB e); [|by apply wp_ret]. eapply wp_use; [apply s_sidecars; [apply H1|auto]|]. intros r' w2 [H2 _]. by eapply leaves_trans.
  - intros r' w2 H2. eapply wp_use; [apply IH; [apply H2|intros e' He'; apply Hj; by right]|]. intros u w3 H3. by eapply leaves_trans.
Qed.

Lemma s_temp p suffix w : ok w -> wp C (CreateTemp p suffix) (fun r w' => leaves w w' /\ w_fs w' = w_fs w /\
  match r with Ok tmp => cur w !! tmp = None /\ exists n, n ∈ w_nonces w /\ tmp = sibling p (suffix ++ n)
             | Err _ => forall n, n ∈ w_nonces w -> cur w !! sibling p (suffix ++ n) <> None end) w.
Proof.
  intros Hw. unfold wp, CreateTemp. pose proof (free_name_spec (fun n => sibling p (suffix ++ n)) (cur w) (w_nonces w)) as H. unfold cur in *.
  destruct (free_name _ _ _) as [[tmp rest]|].
  - destruct H as (?&?&?). split_and!; [|done|done|done]. by split_and!.
  - split_and!; [by apply leaves_refl|done|done].
Qed.

Section put.
Context (Hput : forall p data f, junk p -> R (p_dir p) f -> R (p_dir p) (<[p := data]> f)).
Lemma s_write p data w : ok w -> junk p -> wp C (fwrite p data) (fun r w' => leaves w w' /\
  (forall q, q <> p -> cur w' !! q = cur w !! q) /\ (r = Ok () /\ cur w' = <[p := data]> (cur w) \/ errs /\ r = Err EIO)) w.
Proof.
  intros Hw Hp. eapply d_write; [done|done|intros d; by apply Hput, ok_cur|]. intros r w' Ha H.
  assert (Hc : forall q, q <> p -> cur w' !! q = cur w !! q).
  { intros q Hq. destruct H as [[_ ->]|(_&_&[->|[? ->]])]; [|done|]; by rewrite lookup_insert_ne. }
  split_and!; [|done|naive_solver]. eapply after_leaves; [exact Ha|]. intros q Hq. apply Hc. by intros ->.
Qed.
Lemma s_prepareFile p data w : ok w -> (forall x, junk (sibling p (staging ++ x))) ->
  wp C (prepareRestoredFile p data) (fun r w' => leaves w w' /\ match r with
    | Ok tmp => cur w !! tmp = None /\ (exists n, n ∈ w_nonces w /\ tmp = sibling p (staging ++ n)) /\ cur w' = <[tmp := data]> (cur w)
    | Err _ => True end) w.
Proof.
  intros Hw Hj. eapply wp_let_res; [by apply s_temp| |]; [|intros e w' [? _]; by split].
  intros tmp w1 (H1 & Hfs & Hn & n & Hin & ->). eapply wp_let; [apply s_write; [apply H1|apply Hj]|]. intros r w2 (H2 & _ & Hr).
  destruct r as [[]|e].
  - destruct Hr as [[_ Hc]|[_ [=]]]. apply wp_ret. split_and!; [by eapply leaves_trans|done|eauto|]. rewrite Hc. unfold cur. by rewrite Hfs.
  - eapply wp_let; [apply s_remove; [apply H2|apply Hj]|]. intros r w3 [H3 _]. apply wp_ret. split; [|done]. eapply leaves_trans; [|exact H3]. by eapply leaves_trans.
Qed.
Lemma holds_insert w w' sl s : holds w sl -> cur w !! s_staged s = None -> cur w' = <[s_staged s := s_data s]> (cur w) -> holds w' (sl ++ [s]).
Proof.
  intros [Hn Hh] Hnone Hc. assert (Hni : s_staged s ∉ map s_staged sl).
  { intros (s' & E & Hs')%list_elem_of_fmap. rewrite E, (Hh s' Hs') in Hnone. done. }
  split. { rewrite map_app. apply NoDup_app. split_and!; [done| |apply NoDup_singleton]. intros p Hp E%list_elem_of_singleton. by subst. }
  intros s' [Hs'| ->%list_elem_of_singleton]%elem_of_app; rewrite Hc; [|by rewrite lookup_insert_eq]. rewrite lookup_insert_ne; [auto|]. intros E. apply Hni. rewrite E. by apply list_elem_of_fmap_2.
Qed.
Lemma s_prepareSet files : forall sl w, ok w -> holds w sl -> Forall is_staged sl -> Forall (fun s => s_db s = false) sl ->
  (forall p, p ∈ map fst files ++ map s_path sl -> forall x, junk (sibling p (staging ++ x))) ->
  wp C (prepareRestoredFileSet files (map entry_of sl)) (fun r w' => leaves w w' /\ match r with
    | Ok es => exists new, es = map entry_of (sl ++ new) /\ map (fun s => (s_path s, s_data s)) new = files /\ holds w' (sl ++ new) /\
                           Forall is_staged (sl ++ new) /\ Forall (fun s => s_db s = false) (sl ++ new) /\ Forall (fun s => exists n, n ∈ w_nonces w /\ s_staged s = sibling (s_path s) (staging ++ n)) new
    | Err _ => True end) w.
Proof.
  induction files as [|[p data] files IH]; intros sl w Hw Hh Hst Hdb Hj; cbn [prepareRestoredFileSet].
  { apply wp_ret. split; [by apply leaves_refl|]. exists []. rewrite !app_nil_r. by split_and!. }
  eapply wp_let; [apply s_prepareFile; [done|apply Hj; left]|]. intros [tmp|e] w1 [H1 Hr].
  - destruct Hr as (Hnone & (n & Hin & ->) & Hc). set (s := mkSlot p (sibling p (staging ++ n)) data false).
    change (map entry_of sl ++ [_]) with (map entry_of sl ++ map entry_of [s]). rewrite <- map_app.
    assert (Hs : is_staged s) by (by exists n). eapply wp_use; [apply IH; [apply H1|by eapply holds_insert|by apply Forall_app; auto|by apply Forall_app; auto|]|].
    + intros q Hq. apply Hj. rewrite map_app in Hq. cbn in *. set_solver.
    + intros [es|e] w2 [H2 H]; (split; [by eapply leaves_trans|]); [|done]. destruct H as (new & -> & Hf & Hh' & Hst' & Hdb' & Hn'). exists (s :: new).
      rewrite <- !app_assoc in *. split_and!; [done|cbn; by rewrite Hf|done|done|done|]. constructor; [eauto|]. eapply Forall_impl; [exact Hn'|]. intros s' (m & Hm & ?). exists m. split; [|done]. by apply H1.
  - eapply wp_let; [apply s_discard; [apply H1|]|].
    + intros e0 (s & -> & Hs)%list_elem_of_fmap. cbn. rewrite Forall_forall in Hst, Hdb. destruct (Hst s Hs) as [x ->]. split; [|by rewrite (Hdb s Hs)].
      apply Hj. right. apply elem_of_app. right. by apply list_elem_of_fmap_2.
    + intros u w2 H2. apply wp_ret. split; [by eapply leaves_trans|done].
Qed.
End put.

(** removeOrphanStagedFiles: without errors every removal succeeds. *)
Context (cfg : config).
Lemma s_sweep_any (l : list path) : forall w, ok w -> (forall p, orphan cfg p = true -> junk p) ->
  wp C (mfold (fun _ p => if orphan cfg p then io (fremove p) else ret (Ok ())) l ()) (fun _ => leaves w) w.
Proof.
  induction l as [|p l IH]; intros w Hw Hj; [apply wp_ret; by apply leaves_refl|]. cbn [mfold].
  apply wp_let_res with (P := fun _ => leaves w); [|intros [] w1 H1; eapply wp_use; [apply IH; [apply H1|done]|]; intros r w2 H2; by eapply leaves_trans|done].
  destruct (orphan cfg p) eqn:Ho; [|by apply wp_ret, leaves_refl]. apply wp_io. eapply wp_use; [by apply s_remove, Hj|]. by intros r w1 [H1 _].
Qed.
Lemma s_sweep (l : list path) : forall w, ok w -> (forall p, orphan cfg p = true -> junk p) -> NoDup l -> (forall p, p ∈ l -> cur w !! p <> None) ->
  wp C (mfold (fun _ p => if orphan cfg p then io (fremove p) else ret (Ok ())) l ()) (fun r w' => leaves w w' /\ (r = Ok () \/ errs)) w.
Proof.
  induction l as [|p l IH]; intros w Hw Hj Hnd Hex; [apply wp_ret; split; [by apply leaves_refl|by left]|]. apply NoDup_cons in Hnd as [Hp Hnd]. cbn [mfold].
  apply wp_let_res with (P := fun r w' => leaves w w' /\ ((forall q, q ∈ l -> cur w' !! q <> None) \/ errs) /\ (r = Ok () \/ errs)).
  - destruct (orphan cfg p) eqn:Ho; [|apply wp_ret; split_and!; [by apply leaves_refl|left; intros; apply Hex; by right|by left]].
    apply wp_io. eapply wp_use; [by apply s_remove, Hj|]. intros r w1 [H1 [[-> Hc]|[[_ Hn]|[? _]]]]; [|by destruct (Hex p ltac:(left))|by auto].
    split_and!; [done| |by left]. left. intros q Hq. rewrite Hc, lookup_delete_ne by (by intros ->). apply Hex. by right.
  - intros [] w1 (H1 & [Hex1|He] & _).
    + eapply wp_use; [apply IH; [apply H1|done|done|done]|]. intros r w2 [H2 ?]. split; [by eapply leaves_trans|done].
    + eapply wp_use; [apply s_sweep_any; [apply H1|done]|]. intros r w2 H2. split; [by eapply leaves_trans|by right].
  - intros e w1 (H1 & _ & [[=]|?]). by split; [|right].
Qed.
Lemma nodup_filter {A} (P : A -> bool) l : NoDup l -> NoDup (List.filter P l).
Proof.
  induction 1 as [|x l Hx _ IH]; cbn; [constructor|]. destruct (P x); [|done]. constructor; [|done]. intros [H _]%list_elem_of_In%filter_In. by apply Hx, list_elem_of_In.
Qed.
Lemma s_orphans_in d w : ok w -> (forall p, orphan cfg p = true -> junk p) -> wp C (removeOrphans cfg d) (fun r w' => leaves w w' /\ (r = Ok () \/ errs)) w.
Proof.
  intros Hw Hj. apply wp_bind. unfold freaddir, wp at 1. apply s_sweep; [done|done|apply nodup_filter, NoDup_fst_map_to_list|].
  intros p Hp. apply list_elem_of_In, filter_In in Hp as [Hp _]. apply list_elem_of_In, list_elem_of_fmap in Hp as ([q c] & -> & Hx%elem_of_map_to_list). cbn. unfold cur. by rewrite Hx.
Qed.
Lemma s_orphans w : ok w -> (forall p, orphan cfg p = true -> junk p) -> wp C (removeOrphanStagedFiles cfg) (fun r w' => leaves w w' /\ (r = Ok () \/ errs)) w.
Proof.
  intros Hw Hj. unfold removeOrphanStagedFiles. remember (remove_dups _) as l eqn:E. clear E. revert w Hw. induction l as [|d l IH]; intros w Hw; [apply wp_ret; split; [by apply leaves_refl|by left]|].
  cbn [mfold]. eapply wp_let_res; [by apply s_orphans_in| |].
  - intros [] w1 [H1 _]. eapply wp_use; [apply IH, H1|]. intros r w2 [H2 ?]. split; [by eapply leaves_trans|done].
  - intros e w1 [H1 [[=]|?]]. by split; [|right].
Qed.
End steps.

Lemma leaves_mono (R : bytes -> gmap path bytes -> Prop) errs kills db (junk junk' : path -> Prop) w w' : (forall p, junk p -> junk' p) ->
  leaves R errs kills db junk w w' -> leaves R errs kills db junk' w w'.
Proof. intros Hj (?&?&?&F). split_and!; [done|done|done|]. intros p Hp. apply F. auto. Qed.

Section staged_db.
Context (R : bytes -> gmap path bytes -> Prop) (Rdir : by_dir R) (errs kills : Prop) (db : keydb) (p : path).
Definition beside (q : path) : Prop := q = sibling p (go "-wal") \/ q = sibling p (go "-shm") \/ q = sibling p (go ".migration.lock").
Context (Hdel : forall q f, q = p \/ beside q -> R (p_dir q) f -> R (p_dir q) (delete q f)) (Hput : forall data f, R (p_dir p) f -> R (p_dir p) (<[p := data]> f)).
Lemma beside_ne q : beside q -> q <> p.
Proof. intros [-> |[-> | ->]]; by apply sibling_ne. Qed.
Lemma s_build a w : fine R errs kills db w -> wp (killed R kills db) (buildStagedSQLiteRestore p a) (fun r w' => leaves R errs kills db (fun q => q = p \/ beside q) w w' /\
  (r = Ok () -> cur w' !! p = Some (a_dbfile a))) w.
Proof.
  intros Hw. assert (Hb : forall q f, beside q -> R (p_dir q) f -> R (p_dir q) (delete q f)) by auto.
  assert (Hsc : forall w1, fine R errs kills db w1 -> wp (killed R kills db) (removeStagedSQLiteSidecars p) (fun r w' => leaves R errs kills db beside w1 w' /\ (r = Ok () \/ errs)) w1).
  { intros w1 H1. apply s_sidecars; [done|done|done|]. unfold sidecars_junk, beside. auto. }
  assert (Hm : forall w1 w2, leaves R errs kills db beside w1 w2 -> leaves R errs kills db (fun q => q = p \/ beside q) w1 w2) by (intros w1 w2; apply leaves_mono; auto).
  apply wp_let with (P := fun r w' => leaves R errs kills db (fun q => q = p \/ beside q) w w' /\ (r = Ok () -> cur w' !! p = Some (a_dbfile a))).
  - apply wp_let_res with (P := fun r w1 => leaves R errs kills db (fun q => q = p) w w1 /\ (r = Ok () -> cur w1 !! p = Some (a_dbfile a))).
    + apply wp_io. eapply wp_use; [apply (s_write R Rdir errs kills db (fun q => q = p)); [intros ? ? ? ->; apply Hput|done|done]|].
      intros r w1 (H1 & _ & [[-> Hc]|[_ ->]]); split; [done|intros _; rewrite Hc; apply lookup_insert_eq|done|done].
    + intros [] w1 (H1 & Hc). specialize (Hc eq_refl). eapply wp_use; [apply Hsc, H1|]. intros r w2 [H2 _].
      split; [eapply leaves_trans; [exact (leaves_mono R errs kills db (fun q => q = p) _ w w1 (fun q E => or_introl E) H1)|by apply Hm]|]. intros _. destruct H2 as (_&_&_&F). rewrite F; [done|]. by intros ?%beside_ne.
    + intros e w1 (H1 & _). split; [exact (leaves_mono R errs kills db (fun q => q = p) _ w w1 (fun q E => or_introl E) H1)|done].
  - intros [[]|e] w1 [H1 Hc]; [by apply wp_ret|]. eapply wp_let; [apply (s_remove R Rdir errs kills db (fun q => q = p \/ beside q) Hdel); [apply H1|by left]|].
    intros r w2 [H2 _]. eapply wp_let; [apply Hsc, H2|]. intros r' w3 [H3 _]. apply wp_ret. split; [|done]. eapply leaves_trans; [exact H1|]. eapply leaves_trans; [exact H2|by apply Hm].
Qed.
End staged_db.

(** * The journal *)

Section sync.
Context (R : bytes -> gmap path bytes -> Prop) (Rdir : by_dir R) (errs kills : Prop) (db : keydb).
Definition synced (w w' : world) : Prop :=
  fine R errs kills db w' /\ same_env w w' /\ cur w' = cur w /\ forall d, settled d (w_fs w) -> settled d (w_fs w').
Lemma s_syncdir d w : fine R errs kills db w -> wp (killed R kills db) (fsyncdir d) (fun r w' => synced w w' /\ (r = Ok () /\ settled d (w_fs w') \/ errs /\ r = Err EIO)) w.
Proof.
  intros Hw. eapply d_sync; [done|done|]. intros r w' (Hok & Henv & Hs) Hc Hd Hr. split; [|done]. split_and!; [done|done|done|]. intros d' ?. destruct (decide (d' = d)) as [-> |]; auto.
Qed.
Lemma s_syncs es : forall seen w, fine R errs kills db w -> (forall d, d ∈ seen -> settled d (w_fs w)) ->
  wp (killed R kills db) (SyncEntryDirs es seen) (fun r w' => synced w w' /\ (r = Ok () /\ (forall e, e ∈ es -> settled (p_dir (e_Staged e)) (w_fs w')) \/ errs /\ r <> Ok ())) w.
Proof.
  induction es as [|e es IH]; intros seen w Hw Hseen; cbn [SyncEntryDirs].
  { apply wp_ret. split; [by split_and!|]. left. split; [done|]. by intros e ?%elem_of_nil. }
  case_bool_decide as Hd.
  - eapply wp_use; [by apply IH|]. intros r w' [Hs Hr]. split; [done|]. destruct Hr as [[-> Hr]|]; [left|by right]. split; [done|]. intros e' [-> |He']%elem_of_cons; [|auto]. by apply Hs, Hseen.
  - apply wp_let_res with (P := fun r w' => synced w w' /\ (r = Ok () /\ settled (p_dir (e_Staged e)) (w_fs w') \/ errs /\ r <> Ok ())).
    + apply wp_io. eapply wp_use; [by apply s_syncdir|]. intros r w' [Hs [[-> ?]|[? ->]]]; split; auto.
    + intros u w1 [H1 Hr]. assert (Hset : settled (p_dir (e_Staged e)) (w_fs w1)) by (destruct Hr as [[_ ?]|[_ Hr]]; [done|by destruct u]). clear Hr.
      assert (Hseen1 : forall d, d ∈ p_dir (e_Staged e) :: seen -> settled d (w_fs w1)) by (intros d [-> |?]%elem_of_cons; [done|by apply H1, Hseen]).
      eapply wp_use; [apply (IH _ w1); [apply H1|exact Hseen1]|]. intros r w2 [H2 Hr]. split.
      * destruct H1 as (_&[U1 N1]&C1&S1), H2 as (?&[U2 N2]&C2&S2). split_and!; [done|split; congruence|congruence|auto].
      * destruct Hr as [[-> Hr]|]; [left|by right]. split; [done|]. intros e' [-> |He']%elem_of_cons; [by apply H2|auto].
    + intros err w1 [H1 [[[=] _]|[? ?]]]. split; [done|]. right. by split.
Qed.
End sync.

Section write.
Context (R1 R2 : bytes -> gmap path bytes -> Prop) (R1dir : by_dir R1) (R2dir : by_dir R2) (errs kills : Prop) (db : keydb).
Context (MarshalIndent : Journal -> bytes) (cfg : config) (j : Journal).
Local Abbreviation J := (c_journal cfg).
Local Abbreviation text := (MarshalIndent (set_Version j)).
Definition jtmp (p : path) : Prop := exists x, p = sibling J (tmpSuffix ++ x).
Context (H12 : forall d, (exists e, e ∈ j_Entries j /\ p_dir (e_Staged e) = d) \/ forall f, R1 d f -> R2 d f).
Context (Hdel : forall p f, jtmp p -> R2 (p_dir p) f -> R2 (p_dir p) (delete p f)).
Context (Hput : forall p data f, jtmp p -> R2 (p_dir p) f -> R2 (p_dir p) (<[p := data]> f)).
Context (Hset : forall f, R2 (p_dir J) f -> R2 (p_dir J) (<[J := text]> f)).

Lemma jtmp_ne p : jtmp p -> p <> J.
Proof. intros [x ->]. by apply sibling_ne. Qed.

Definition written (w w' : world) : Prop := w_unreadable w' = w_unreadable w /\ w_nonces w' ⊆ w_nonces w /\ forall p, p <> J -> ~ jtmp p -> cur w' !! p = cur w !! p.
Lemma written_trans w w' w'' : written w w' -> written w' w'' -> written w w''.
Proof. intros (U1&N1&F1) (U2&N2&F2). split_and!; [congruence|by etrans|]. intros p H1 H2. by rewrite F2, F1. Qed.
Lemma leaves_written w w' : leaves R2 errs kills db jtmp w w' -> written w w'.
Proof. intros (_&?&?&F). split_and!; auto. Qed.

(** From the temporary file to the directory sync. *)
Lemma s_install_journal tmp w : fine R2 errs kills db w -> jtmp tmp -> (forall e, e ∈ j_Entries j -> settled (p_dir (e_Staged e)) (w_fs w)) ->
  wp (killed R2 kills db) (let?! _ := io (fwrite tmp text) in let?! _ := io (frename tmp J) in io (fsyncdir (p_dir J)))
    (fun r w' => fine R2 errs kills db w' /\ written w w' /\
       (r = Ok () /\ cur w' !! J = Some text /\ cur w' !! tmp = None /\ settled (p_dir J) (w_fs w') /\ (forall e, e ∈ j_Entries j -> settled (p_dir (e_Staged e)) (w_fs w')) \/ errs /\ r <> Ok ())) w.
Proof.
  intros Hw Ht Hes. assert (Hdir : p_dir tmp = p_dir J) by (by destruct Ht as [x ->]).
  assert (Hother : forall w1 D w2, after R2 errs kills db D w1 w2 -> D = p_dir J -> (forall e, e ∈ j_Entries j -> p_dir (e_Staged e) <> p_dir J -> settled (p_dir (e_Staged e)) (w_fs w1)) ->
     forall e, e ∈ j_Entries j -> p_dir (e_Staged e) <> p_dir J -> settled (p_dir (e_Staged e)) (w_fs w2)) by (intros w1 D w2 (_&_&Hs) -> H e He Hne; apply Hs; auto).
  apply wp_let_res with (P := fun r w' => fine R2 errs kills db w' /\ written w w' /\ (r = Ok () /\ cur w' = <[tmp := text]> (cur w) /\
    (forall e, e ∈ j_Entries j -> p_dir (e_Staged e) <> p_dir J -> settled (p_dir (e_Staged e)) (w_fs w')) \/ errs /\ r <> Ok ())).
  - apply wp_io. eapply d_write; [done|done|intros d; apply Hput; [done|by eapply ok_cur]|]. intros r w1 Ha Hr. split_and!; [apply Ha| |].
    + destruct Ha as (_&[U N]&_). split_and!; [done|by rewrite N|]. intros p _ Hp. assert (tmp <> p) by (by intros ->). destruct Hr as [[_ ->]|(_&_&[-> |[? ->]])]; by rewrite ?lookup_insert_ne.
    + destruct Hr as [[-> ->]|(?&->&_)]; [left|by right]. split_and!; [done|done|]. eapply Hother; [exact Ha|done|auto].
  - intros [] w1 (H1 & W1 & Hr). assert (cur w1 = <[tmp := text]> (cur w) /\ forall e, e ∈ j_Entries j -> p_dir (e_Staged e) <> p_dir J -> settled (p_dir (e_Staged e)) (w_fs w1)) as [Hc1 Hs1] by (destruct Hr as [(_&?&?)|[_ ?]]; done). clear Hr.
    apply wp_let_res with (P := fun r w' => fine R2 errs kills db w' /\ written w w' /\ (r = Ok () /\ cur w' = <[J := text]> (delete tmp (cur w)) /\
      (forall e, e ∈ j_Entries j -> p_dir (e_Staged e) <> p_dir J -> settled (p_dir (e_Staged e)) (w_fs w')) \/ errs /\ r <> Ok ())).
    + apply wp_io. assert (Hct : cur w1 !! tmp = Some text) by (rewrite Hc1; apply lookup_insert_eq).
      eapply d_rename; [done|done|done| |]. { intros c Hc. assert (c = text) as -> by congruence. rewrite Hdir. apply Hset. rewrite <- Hdir. apply Hdel; [done|]. by eapply ok_cur. }
      intros r w2 Ha Hr. assert (Hcase : cur w2 = <[J := text]> (delete tmp (cur w1)) \/ cur w2 = cur w1).
      { destruct Hr as [(c & Hc & -> & _)|[-> _]]; [left|by right]. assert (c = text) as -> by congruence. done. }
      split_and!; [apply Ha| |].
      * eapply written_trans; [exact W1|]. destruct Ha as (_&[U N]&_). split_and!; [done|by rewrite N|]. intros p Hp Hp'. assert (tmp <> p) by (by intros ->).
        destruct Hcase as [-> | ->]; [|done]. by rewrite lookup_insert_ne, lookup_delete_ne.
      * destruct Hr as [(c & Hc & Hc2 & [-> |[? ->]])|[_ [[_ ?]|[? ->]]]]; [left|by right|congruence|by right]. split_and!; [done| |eapply Hother; [exact Ha|done|done]].
        assert (c = text) as -> by congruence. rewrite Hc2, Hc1. by rewrite delete_insert_eq.
    + intros [] w2 (H2 & W2 & Hr). assert (cur w2 = <[J := text]> (delete tmp (cur w)) /\ forall e, e ∈ j_Entries j -> p_dir (e_Staged e) <> p_dir J -> settled (p_dir (e_Staged e)) (w_fs w2)) as [Hc2 Hs2] by (destruct Hr as [(_&?&?)|[_ ?]]; done). clear Hr.
      apply wp_io. eapply wp_use; [by apply s_syncdir|]. intros r w3 ((H3&[U3 N3]&C3&S3) & Hr). split_and!; [done| |].
      * eapply written_trans; [exact W2|]. split_and!; [done|by rewrite N3|]. intros p _ _. by rewrite C3.
      * destruct Hr as [[-> Hj]|[? ->]]; [left|by right]. split_and!; [done|rewrite C3, Hc2; apply lookup_insert_eq| |done|].
        -- rewrite C3, Hc2, lookup_insert_ne by (intros E; by eapply jtmp_ne). apply lookup_delete_eq.
        -- intros e He. destruct (decide (p_dir (e_Staged e) = p_dir J)) as [-> |]; auto.
    + intros e w2 (H2 & W2 & [([=]&_)|[? _]]). split_and!; [done|done|by right].
  - intros e w1 (H1 & W1 & [([=]&_)|[? _]]). split_and!; [done|done|by right].
Qed.

(** No name is left for the temporary journal. *)
Definition no_name (w : world) : Prop := forall n, n ∈ w_nonces w -> cur w !! sibling J (tmpSuffix ++ n) <> None.
Lemma s_Write w : fine R1 errs kills db w -> (forall d, R2 d (cur w)) ->
  wp (fun w' => killed R1 kills db w' \/ killed R2 kills db w') (Write MarshalIndent cfg j) (fun r w' => written w w' /\
    (r = Ok () /\ fine R2 errs kills db w' /\ cur w' !! J = Some text /\ settled (p_dir J) (w_fs w') /\ (forall e, e ∈ j_Entries j -> settled (p_dir (e_Staged e)) (w_fs w')) \/
     r <> Ok () /\ (errs /\ (fine R1 errs kills db w' \/ fine R2 errs kills db w') \/ no_name w /\ fine R1 errs kills db w'))) w.
Proof.
  intros Hw Hcur. eapply wp_let_res; [eapply wp_crash; [|apply (s_syncs R1 R1dir errs kills db (j_Entries j) [] w Hw); by intros d ?%elem_of_nil]; auto| |].
  - intros [] w1 ((H1&[U1 N1]&C1&S1) & Hr). assert (Hes : forall e, e ∈ j_Entries j -> settled (p_dir (e_Staged e)) (w_fs w1)) by (destruct Hr as [[_ ?]|[_ ?]]; done). clear Hr.
    assert (H1' : fine R2 errs kills db w1).
    { destruct H1 as (Hk&Hf&Hdb). split_and!; [|done|done]. eapply kept_strengthen; [done|exact Hk| |]; [intros d; change (f_cur (w_fs w1)) with (cur w1); by rewrite C1|].
      intros d. destruct (H12 d) as [(e & He & <-)|?]; auto. }
    assert (W1 : written w w1) by (split_and!; [done|by rewrite N1|by intros p _ _; rewrite C1]).
    eapply wp_crash; [intros w' Hk; right; exact Hk|]. eapply wp_let_res; [by apply (s_temp R2 errs kills db jtmp)| |].
    + intros tmp w2 (L2 & Hfs & Hn & n & Hin & ->). assert (Ht : jtmp (sibling J (tmpSuffix ++ n))) by (by exists n).
      eapply wp_let; [apply s_install_journal; [apply L2|done|by rewrite Hfs]|]. intros r w3 (H3 & W3 & Hr).
      assert (W13 : written w w3) by (eapply written_trans; [exact W1|]; eapply written_trans; [by apply leaves_written|done]).
      eapply wp_let; [eapply d_remove; [done|done|apply Hdel; [done|by eapply ok_cur]|]|].
      { intros r' w4 Ha Hn4 Hr4. exact (conj Ha (conj Hn4 Hr4)). }
      intros r' w4 (Ha & Hn4 & Hr4). apply wp_ret. assert (W34 : written w3 w4).
      { destruct Ha as (_&[U N]&_). split_and!; [done|by rewrite N|]. intros p _ Hp. assert (sibling J (tmpSuffix ++ n) <> p) by (intros E; apply Hp; by rewrite <- E). destruct Hr4 as [[-> _]|[-> _]]; by rewrite ?lookup_delete_ne. }
      split; [by eapply written_trans|]. destruct Hr as [(-> & Hj & Hnone & Hsj & Hse)|[? ?]]; [left|right; split; [done|]; left; split; [done|right; apply Ha]].
      destruct (Hn4 Hnone) as [Hc4 Hs4]. split_and!; [done|apply Ha|by rewrite Hc4|auto|auto].
    + intros e w2 (L2 & Hfs & Hn). split; [eapply written_trans; [exact W1|by apply leaves_written]|]. right. split; [done|].
      right. split; [|split_and!; [by rewrite Hfs; apply H1|apply L2|apply L2]]. intros n Hin. rewrite <- C1. apply Hn. by rewrite N1.
  - intros e w1 ((H1&[U1 N1]&C1&S1) & [[[=] _]|[? ?]]). split; [split_and!; [done|by rewrite N1|by intros p _ _; rewrite C1]|]. right. split; [done|]. left. auto.
Qed.
End write.
