(* ===== verification/RestoreInstall.v ===== *)
(** Installing the entries of a restore journal: in every state a kill or a power loss can leave,
    each file is still the old one, moved aside, or the restored one, and a WAL of the old
    database never sits next to the restored one. *)
From Stdlib Require Import ZArith Lia.
From stdpp Require Import base numbers tactics sets list gmap.
From S2P Require Import Prelude GoStr Sha256 KeyFS DirFS Restore RestorePaths RestoreSteps.
Local Open Scope go_scope.

Definition wal (p : path) : path := sibling p (go "-wal").
Definition shm (p : path) : path := sibling p (go "-shm").
Definition aside (p : path) (x : bytes) : path := sibling p (asideSuffix ++ x).

(** The files of an entry: staged, live, and the live database's WAL. *)
Definition wal_of (f : gmap path bytes) (s : slot) : option bytes := if s_db s then f !! wal (s_path s) else None.
Definition view (P : slot -> option bytes -> option bytes -> option bytes -> Prop) (f : gmap path bytes) (s : slot) : Prop :=
  P s (f !! s_staged s) (f !! s_path s) (wal_of f s).
Record wf_slots (cfg : config) (sl : list slot) : Prop := {
  slots_targets : map s_path sl = targets cfg;
  slots_nodup : NoDup (map s_staged sl);
  slots_staged : forall s, s ∈ sl -> exists x, s_staged s = sibling (s_path s) (staging ++ x);
  slots_db : forall s, s ∈ sl -> s_db s = negb (c_postgres cfg) && bool_decide (s_path s = c_db cfg) }.

Section phase.
Context (cfg : config) (Hclear : clear_names cfg = true) (sl : list slot) (Hwf : wf_slots cfg sl).
Local Abbreviation J := (c_journal cfg).

(** An invariant of single directories: of the journal, of each entry's files, and names that stay free. *)
Definition phase (JS : option bytes -> Prop) (P : slot -> option bytes -> option bytes -> option bytes -> Prop) (K : path -> Prop) (d : bytes) (f : gmap path bytes) : Prop :=
  (p_dir J = d -> JS (f !! J)) /\ (forall s, s ∈ sl -> p_dir (s_path s) = d -> view P f s) /\ (forall p, K p -> p_dir p = d -> f !! p = None).

Lemma staged_dir s : s ∈ sl -> p_dir (s_staged s) = p_dir (s_path s).
Proof. intros [x ->]%(slots_staged _ _ Hwf). done. Qed.
Lemma phase_dir JS P K : by_dir (phase JS P K).
Proof.
  intros d f g Hfg (HJ & Hs & HK). split_and!.
  - intros Hd. rewrite <- (Hfg J Hd). auto.
  - intros s Hin Hd. unfold view, wal_of. rewrite <- (Hfg (s_path s) Hd), <- (Hfg (wal (s_path s)) Hd), <- (Hfg (s_staged s)) by (by rewrite staged_dir). by apply Hs.
  - intros p Hp Hd. rewrite <- (Hfg p Hd). auto.
Qed.
Lemma phase_mono (JS JS' : option bytes -> Prop) P P' K (K' : path -> Prop) d f : (forall x, JS x -> JS' x) -> (forall s st lv wl, s ∈ sl -> P s st lv wl -> P' s st lv wl) -> (forall p, K' p -> K p) ->
  phase JS P K d f -> phase JS' P' K' d f.
Proof. intros HJ HP HK (H1&H2&H3). split_and!; [auto| |auto]. intros s Hs Hd. apply HP; [done|]. by apply H2. Qed.
Lemma phase_all JS P K f : (forall d, phase JS P K d f) <-> JS (f !! J) /\ (forall s, s ∈ sl -> view P f s) /\ (forall p, K p -> f !! p = None).
Proof.
  split.
  - intros H. split_and!; [by apply (H (p_dir J))|intros s Hs; by apply (H (p_dir (s_path s)))|intros p Hp; by apply (H (p_dir p))].
  - intros (H1&H2&H3) d. split_and!; auto.
Qed.

(** * Names *)

Lemma slot_base s : s ∈ sl -> s_path s ∈ bases cfg.
Proof. intros Hs. unfold bases. rewrite <- (slots_targets _ _ Hwf). apply elem_of_app. left. by apply list_elem_of_fmap_2. Qed.
Lemma J_base : J ∈ bases cfg.
Proof. apply elem_of_app. right. by left. Qed.
Lemma paths_nodup : NoDup (map s_path sl).
Proof. rewrite (slots_targets _ _ Hwf). pose proof (bases_nodup cfg Hclear) as H. by apply NoDup_app in H as [? _]. Qed.
Lemma path_not_J s : s ∈ sl -> s_path s <> J.
Proof.
  intros Hs E. pose proof (bases_nodup cfg Hclear) as H. apply NoDup_app in H as (_ & H & _). apply (H (s_path s)); [|rewrite E; by left].
  rewrite <- (slots_targets _ _ Hwf). by apply list_elem_of_fmap_2.
Qed.
Lemma nodup_map_inj {A B} (g : A -> B) l x y : NoDup (map g l) -> x ∈ l -> y ∈ l -> g x = g y -> x = y.
Proof.
  induction l as [|z l IH]; cbn; [by intros _ ?%elem_of_nil|]. intros [Hz Hn]%NoDup_cons [-> |Hx]%elem_of_cons [-> |Hy]%elem_of_cons E; [done| | |auto].
  - destruct Hz. rewrite E. by apply list_elem_of_fmap_2.
  - destruct Hz. rewrite <- E. by apply list_elem_of_fmap_2.
Qed.

Definition own (s : slot) (p : path) : Prop :=
  p = s_staged s \/ p = s_path s \/ (exists x, p = aside (s_path s) x) \/ s_db s = true /\ (p = wal (s_path s) \/ p = shm (s_path s)).
Lemma own_role s p : s ∈ sl -> own s p -> p = s_path s \/ exists sf x, sf ∈ [staging; asideSuffix; go "-wal"; go "-shm"] /\ p = sibling (s_path s) (sf ++ x).
Proof.
  intros Hs [-> |[-> |[[x ->]|[_ [-> | ->]]]]]; [right|by left|right..].
  - destruct (slots_staged _ _ Hwf s Hs) as [x ->]. exists staging, x. split; [set_solver|done].
  - exists asideSuffix, x. split; [set_solver|done].
  - exists (go "-wal"), []. rewrite app_nil_r. split; [set_solver|done].
  - exists (go "-shm"), []. rewrite app_nil_r. split; [set_solver|done].
Qed.
Lemma own_dir s p : s ∈ sl -> own s p -> p_dir p = p_dir (s_path s).
Proof. intros Hs Ho. by destruct (own_role s p Hs Ho) as [-> |(sf&x&_&->)]. Qed.
Lemma own_slot s s' p : s ∈ sl -> s' ∈ sl -> own s p -> own s' p -> s = s'.
Proof.
  intros Hs Hs' H1 H2. pose proof (slot_base s Hs). pose proof (slot_base s' Hs'). apply (nodup_map_inj s_path sl); [apply paths_nodup|done|done|].
  assert (Hin : forall sf, sf ∈ [staging; asideSuffix; go "-wal"; go "-shm"] -> sf ∈ sufs) by (unfold sufs; set_solver).
  destruct (own_role s p Hs H1) as [-> |(sf&x&Hsf&->)], (own_role s' _ Hs' H2) as [E|(sf'&x'&Hsf'&E)]; [done| | |].
  - symmetry in E. exfalso. eapply base_name; [exact Hclear| | | |exact E]; auto.
  - exfalso. eapply base_name; [exact Hclear| | | |exact E]; auto.
  - eapply role_inj in E as (?&_); eauto.
Qed.
Lemma own_not_J s : s ∈ sl -> ~ own s J.
Proof.
  intros Hs H. assert (Hin : forall sf, sf ∈ [staging; asideSuffix; go "-wal"; go "-shm"] -> sf ∈ sufs) by (unfold sufs; set_solver).
  destruct (own_role s J Hs H) as [E|(sf&x&Hsf&E)]; [by eapply path_not_J|]. symmetry in E. eapply base_name; [exact Hclear| | | |exact E]; [by apply slot_base|apply J_base|auto].
Qed.
Lemma own_not_jtmp s p : s ∈ sl -> jtmp cfg p -> ~ own s p.
Proof.
  intros Hs [x ->] H. assert (Hin : forall sf, sf ∈ [staging; asideSuffix; go "-wal"; go "-shm"] -> sf ∈ sufs) by (unfold sufs; set_solver).
  assert (tmpSuffix ∈ sufs) by (unfold sufs; set_solver). pose proof J_base. pose proof (slot_base s Hs).
  destruct (own_role s _ Hs H) as [E|(sf&x'&Hsf&E)]; [eapply base_name; [exact Hclear| | | |exact E]; auto|].
  apply (role_inj cfg Hclear) in E as (_&<-&_); auto. vm_compute in Hsf. set_solver.
Qed.

(** What is not an entry's own stays. *)
Lemma phase_own JS P (K : path -> Prop) d f f' s : (forall p, K p -> jtmp cfg p) -> s ∈ sl -> (forall p, ~ own s p -> f' !! p = f !! p) -> view P f' s ->
  phase JS P K d f -> phase JS P K d f'.
Proof.
  intros HK Hs Hf Hv (H1&H2&H3). split_and!.
  - intros Hd. rewrite Hf by (by apply own_not_J). auto.
  - intros s' Hs' Hd. destruct (decide (s_staged s' = s_staged s)) as [E|Hne].
    { assert (s' = s) as ->; [|done]. eapply nodup_map_inj; eauto. apply Hwf. }
    assert (Hn : forall p, own s' p -> ~ own s p) by (intros p Ho1 Ho2; apply Hne; by rewrite (own_slot s s' p)).
    specialize (H2 s' Hs' Hd). unfold view, wal_of, own in *. destruct (s_db s'); rewrite ?Hf by (apply Hn; auto 6); done.
  - intros p Hp Hd. rewrite Hf; [auto|]. by apply own_not_jtmp; [|apply HK].
Qed.
Lemma view_other P f f' s s' : s ∈ sl -> s' ∈ sl -> s' <> s -> (forall p, ~ own s p -> f' !! p = f !! p) -> view P f s' -> view P f' s'.
Proof.
  intros Hs Hs' Hne Hf. assert (Hn : forall p, own s' p -> ~ own s p) by (intros p Ho1 Ho2; apply Hne; by eapply own_slot).
  unfold view, wal_of, own in *. destruct (s_db s'); rewrite ?Hf by (apply Hn; auto 6); done.
Qed.

(** The names of one entry are apart. *)
Lemma own_apart s : s ∈ sl -> s_staged s <> s_path s /\ (forall x, aside (s_path s) x <> s_path s /\ aside (s_path s) x <> s_staged s /\ wal (s_path s) <> aside (s_path s) x /\ shm (s_path s) <> aside (s_path s) x) /\
  wal (s_path s) <> s_path s /\ wal (s_path s) <> s_staged s /\ shm (s_path s) <> s_path s /\ shm (s_path s) <> s_staged s /\ shm (s_path s) <> wal (s_path s).
Proof.
  intros Hs. destruct (slots_staged _ _ Hwf s Hs) as [y Hy]. unfold aside, wal, shm.
  assert (Hsf : forall a b u v, sibling (s_path s) (a ++ u) = sibling (s_path s) (b ++ v) -> a ∈ sufs -> b ∈ sufs -> a = b).
  { intros a b u v E Ha Hb. apply (role_inj cfg Hclear) in E as (_&?&_); auto; by apply slot_base. }
  assert (Hsf0 : forall a b v, sibling (s_path s) a = sibling (s_path s) (b ++ v) -> a ∈ sufs -> b ∈ sufs -> a = b) by (intros a b v E; apply (Hsf a b [] v); by rewrite app_nil_r).
  assert (Hin : Forall (fun a => a ∈ sufs) [staging; asideSuffix; go "-wal"; go "-shm"]) by (apply Forall_forall; unfold sufs; set_solver).
  rewrite Hy. inversion_clear Hin as [|? ? I1 Hin2]. inversion_clear Hin2 as [|? ? I2 Hin3]. inversion_clear Hin3 as [|? ? I3 Hin4]. inversion_clear Hin4 as [|? ? I4 _].
  split; [by apply sibling_ne|]. split; [intros x; split_and!|split_and!]; try (by apply sibling_ne).
  - intros E. specialize (Hsf _ _ _ _ E I2 I1). discriminate.
  - intros E. specialize (Hsf0 _ _ _ E I3 I2). discriminate.
  - intros E. specialize (Hsf0 _ _ _ E I4 I2). discriminate.
  - intros E. specialize (Hsf0 _ _ _ E I3 I1). discriminate.
  - intros E. specialize (Hsf0 _ _ _ E I4 I1). discriminate.
  - intros E. rewrite <- (app_nil_r (go "-wal")) in E. specialize (Hsf0 _ _ _ E I4 I3). discriminate.
Qed.
End phase.

(** * The states of an entry *)

Section states.
Context (f0 : gmap path bytes) (E : Prop).
(** The replaced file in place or moved aside, its WAL moved first. *)
Definition old (s : slot) (lv wl : option bytes) : Prop := lv = f0 !! s_path s /\ (wl = wal_of f0 s \/ wl = None) \/ lv = None /\ wl = None.
Definition inst (s : slot) (st lv wl : option bytes) : Prop := st = None /\ lv = Some (s_data s) /\ wl = None.
(** With [E], a failed step can have lost the staged file. *)
Definition mid (s : slot) (st lv wl : option bytes) : Prop := (st = Some (s_data s) \/ E /\ st = None) /\ old s lv wl \/ inst s st lv wl.
Definition vouched (s : slot) (st lv wl : option bytes) : Prop := st = Some (s_data s) /\ old s lv wl \/ inst s st lv wl.
Lemma vouched_mid s st lv wl : vouched s st lv wl -> mid s st lv wl.
Proof. intros [[? ?]|?]; [left|by right]. auto. Qed.
End states.

Section install.
Context (cfg : config) (Hclear : clear_names cfg = true) (sl : list slot) (Hwf : wf_slots cfg sl).
Context (f0 : gmap path bytes) (E : Prop) (JS : option bytes -> Prop) (K : path -> Prop) (HK : forall p, K p -> jtmp cfg p).
Context (errs kills : Prop) (HE : errs -> E) (db : keydb) (ts : bytes).
Local Abbreviation R := (phase cfg sl JS (mid f0 E) K).
Local Abbreviation ok := (fine R errs kills db).
Local Abbreviation C := (killed R kills db).
Local Abbreviation Rdir := (phase_dir cfg sl Hwf JS (mid f0 E) K).

(** From [w] to [w'], only the files of [s] changed. *)
Definition stepped_slot (s : slot) (w w' : world) : Prop :=
  ok w' /\ same_env w w' /\ (forall p, ~ own s p -> cur w' !! p = cur w !! p) /\ (forall d, d <> p_dir (s_path s) -> settled d (w_fs w) -> settled d (w_fs w')).
Lemma stepped_slot_trans s w w' w'' : stepped_slot s w w' -> stepped_slot s w' w'' -> stepped_slot s w w''.
Proof. intros (_&[U1 N1]&F1&S1) (Ho&[U2 N2]&F2&S2). split_and!; [done|split; congruence| |auto]. intros p Hp. by rewrite F2, F1. Qed.
Lemma stepped_slot_refl s w : ok w -> stepped_slot s w w.
Proof. intros H. split; [exact H|]. by split_and!. Qed.

Lemma ok_view s w : ok w -> s ∈ sl -> view (mid f0 E) (cur w) s.
Proof. intros Hw Hs. pose proof (ok_cur _ _ _ _ (p_dir (s_path s)) w Hw) as (_&H&_). by apply H. Qed.

Lemma i_rename s p q w : ok w -> s ∈ sl -> own s p -> own s q -> (forall c, cur w !! p = Some c -> view (mid f0 E) (<[q := c]> (delete p (cur w))) s) ->
  wp C (frename p q) (fun r w' => stepped_slot s w w' /\
    ((exists c, cur w !! p = Some c /\ cur w' = <[q := c]> (delete p (cur w)) /\ (r = Ok () \/ errs /\ r = Err EIO)) \/
     (cur w' = cur w /\ (r = Err ENotExist /\ cur w !! p = None \/ errs /\ r = Err EIO)))) w.
Proof.
  intros Hw Hs Hp Hq Hv. assert (Dp : p_dir p = p_dir (s_path s)) by (by eapply own_dir). assert (Dq : p_dir q = p_dir (s_path s)) by (by eapply own_dir).
  assert (Hframe : forall c x, ~ own s x -> <[q := c]> (delete p (cur w)) !! x = cur w !! x) by (intros c x Hx; rewrite lookup_insert_ne, lookup_delete_ne; [done|by intros ->..]).
  eapply d_rename; [apply Rdir|done|by rewrite Dp, Dq| |].
  - intros c Hc. eapply phase_own with (f := cur w) (s := s); [done..|by apply Hframe|by apply Hv|exact (ok_cur R errs kills db _ w Hw)].
  - intros r w' (H1 & Henv & Hset) Hr. split; [|done]. split_and!; [done|done| |by rewrite <- Dp].
    intros x Hx. destruct Hr as [(c & _ & -> & _)|[-> _]]; [by apply Hframe|done].
Qed.
Lemma i_remove s p w : ok w -> s ∈ sl -> own s p -> view (mid f0 E) (delete p (cur w)) s ->
  wp C (fremove p) (fun r w' => stepped_slot s w w' /\ (cur w !! p = None -> cur w' = cur w /\ forall d, settled d (w_fs w) -> settled d (w_fs w'))) w.
Proof.
  intros Hw Hs Hp Hv. assert (Dp : p_dir p = p_dir (s_path s)) by (by eapply own_dir). assert (Hframe : forall x, ~ own s x -> delete p (cur w) !! x = cur w !! x) by (intros x Hx; apply lookup_delete_ne; by intros ->).
  eapply d_remove; [apply Rdir|done| |].
  - eapply phase_own with (f := cur w) (s := s); [done..|exact Hframe|done|exact (ok_cur R errs kills db _ w Hw)].
  - intros r w' (H1 & Henv & Hset) Hn Hr. split; [|done]. split_and!; [done|done| |by rewrite <- Dp]. intros x Hx. destruct Hr as [[-> _]|[-> _]]; [by apply Hframe|done].
Qed.
Lemma i_sync s w : ok w -> wp C (fsyncdir (p_dir (s_path s))) (fun r w' => stepped_slot s w w' /\ cur w' = cur w /\ (r = Ok () /\ settled (p_dir (s_path s)) (w_fs w') \/ errs /\ r = Err EIO)) w.
Proof. intros Hw. eapply wp_use; [by apply s_syncdir, Hw; apply Rdir|]. intros r w' ((H1&H2&H3&H4)&Hr). split_and!; [|done|done]. split_and!; [done|done|by intros; rewrite H3|auto]. Qed.

Ltac lk := repeat first [rewrite lookup_insert_eq | rewrite lookup_delete_eq | rewrite lookup_insert_ne by congruence | rewrite lookup_delete_ne by congruence].

Lemma i_renameIf s p q w : ok w -> s ∈ sl -> own s p -> own s q -> p <> q -> (forall c, cur w !! p = Some c -> view (mid f0 E) (<[q := c]> (delete p (cur w))) s) ->
  wp C (renameIfExists p q) (fun r w' => stepped_slot s w w' /\ (r = Ok () /\ cur w' !! p = None /\ (forall x, x <> p -> x <> q -> cur w' !! x = cur w !! x) \/ errs /\ r <> Ok ())) w.
Proof.
  intros Hw Hs Hp Hq Hne Hv. eapply wp_let; [by apply i_rename|]. intros r w' [H1 Hr]. apply wp_ret. split; [done|].
  destruct Hr as [(c & _ & -> & [-> |[? ->]])|[-> [[-> ?]|[? ->]]]]; [left|by right|left|by right]; (split_and!; [done| |]); try done; intros; by lk.
Qed.

(** The live database and its WAL, moved aside. *)
Lemma i_moveAside s w : ok w -> s ∈ sl -> s_db s = true -> cur w !! s_staged s = Some (s_data s) -> old f0 s (cur w !! s_path s) (wal_of (cur w) s) ->
  wp C (moveAsideSQLiteDB (s_path s) ts) (fun r w' => stepped_slot s w w' /\
    (r = Ok () /\ cur w' !! s_staged s = Some (s_data s) /\ cur w' !! s_path s = None /\ cur w' !! wal (s_path s) = None \/ errs /\ r <> Ok ())) w.
Proof.
  intros Hw Hs Hdb Hst Hold. destruct (own_apart cfg Hclear sl Hwf s Hs) as (A1 & A2 & A3 & A4 & A5 & A6 & A7).
  destruct (A2 (ts ++ go "-wal")) as (B1&B2&B3&B4), (A2 (ts ++ go "-shm")) as (B5&B6&B7&B8), (A2 ts) as (B9&B10&B11&B12).
  assert (Oa : forall x, own s (aside (s_path s) x)) by (intros x; right; right; left; eauto).
  assert (Ow : own s (wal (s_path s))) by (unfold own; auto 6). assert (Oh : own s (shm (s_path s))) by (unfold own; auto 6). assert (Op : own s (s_path s)) by (unfold own; auto 6).
  unfold wal_of in Hold. rewrite Hdb in Hold.
  assert (Hlive : cur w !! s_path s = f0 !! s_path s \/ cur w !! s_path s = None) by (destruct Hold as [[? _]|[? _]]; auto).
  assert (Hmid : forall f, f !! s_staged s = Some (s_data s) -> (f !! s_path s = f0 !! s_path s \/ f !! s_path s = None) -> f !! wal (s_path s) = None -> view (mid f0 E) f s).
  { intros f F1 F2 F3. unfold view, wal_of. rewrite Hdb, F1, F3. left. split; [by left|]. unfold old. destruct F2 as [-> | ->]; auto. }
  unfold moveAsideSQLiteDB. fold (wal (s_path s)) (shm (s_path s)) (aside (s_path s) (ts ++ go "-wal")) (aside (s_path s) (ts ++ go "-shm")) (aside (s_path s) ts).
  eapply wp_let_res; [apply (i_renameIf s); [done|done|done|done|done|]| |]; [intros c _; apply Hmid; lk; by auto| |intros e w1 [H1 [[[=] _]|[? _]]]; split; [done|by right]].
  intros [] w1 [H1 Hr]. assert (cur w1 !! wal (s_path s) = None /\ forall x, x <> wal (s_path s) -> x <> aside (s_path s) (ts ++ go "-wal") -> cur w1 !! x = cur w !! x) as [W1 F1] by (destruct Hr as [(_&?&?)|[_ ?]]; done). clear Hr.
  eapply wp_let_res; [apply (i_renameIf s); [apply H1|done|done|done|done|]| |]; [intros c _; apply Hmid; lk; rewrite ?F1 by congruence; by auto| |intros e w2 [H2 [[[=] _]|[? _]]]; split; [by eapply stepped_slot_trans|by right]].
  intros [] w2 [H2 Hr]. assert (forall x, x <> shm (s_path s) -> x <> aside (s_path s) (ts ++ go "-shm") -> cur w2 !! x = cur w1 !! x) as F2 by (destruct Hr as [(_&_&?)|[_ ?]]; done). clear Hr.
  assert (H12 : stepped_slot s w w2) by (by eapply stepped_slot_trans).
  eapply wp_let_res; [apply (i_renameIf s); [apply H2|done|done|done|congruence|]| |]; [intros c _; apply Hmid; lk; rewrite ?F2, ?F1 by congruence; by auto| |intros e w3 [H3 [[[=] _]|[? _]]]; split; [by eapply stepped_slot_trans|by right]].
  intros [] w3 [H3 Hr]. assert (cur w3 !! s_path s = None /\ forall x, x <> s_path s -> x <> aside (s_path s) ts -> cur w3 !! x = cur w2 !! x) as [P3 F3] by (destruct Hr as [(_&?&?)|[_ ?]]; done). clear Hr.
  apply wp_io. eapply wp_use; [apply (i_sync s), H3|]. intros r w4 (H4 & C4 & Hr). split; [eapply stepped_slot_trans; [exact H12|]; by eapply stepped_slot_trans|].
  destruct Hr as [[-> _]|[? ->]]; [left|by right]. rewrite C4. split_and!; [done|by rewrite F3, F2, F1 by congruence|done|by rewrite F3, F2 by congruence].
Qed.

(** The staged file, renamed into place; with an error it may be gone. *)
Lemma i_rename_in s w : ok w -> s ∈ sl -> cur w !! s_staged s = Some (s_data s) -> cur w !! s_path s = f0 !! s_path s \/ cur w !! s_path s = None -> wal_of (cur w) s = None ->
  wp C (let! here := fstat (s_path s) in
        let?! _ := (if here then io (frename (s_path s) (aside (s_path s) ts)) else ret (Ok ())) in
        let?! _ := io (frename (s_staged s) (s_path s)) in
        io (fsyncdir (p_dir (s_path s))))
    (fun r w' => stepped_slot s w w' /\ (r = Ok () /\ view inst (cur w') s /\ settled (p_dir (s_path s)) (w_fs w') \/ errs /\ r <> Ok ())) w.
Proof.
  intros Hw Hs Hst Hlv Hwl. destruct (own_apart cfg Hclear sl Hwf s Hs) as (A1 & A2 & A3 & A4 & _). destruct (A2 ts) as (B1&B2&B3&B4).
  assert (Oa : own s (aside (s_path s) ts)) by (right; right; left; eauto). assert (Op : own s (s_path s)) by (unfold own; auto). assert (Os : own s (s_staged s)) by (unfold own; auto).
  assert (Hwal : forall f, (forall x, x <> s_path s -> x <> aside (s_path s) ts -> x <> s_staged s -> f !! x = cur w !! x) -> wal_of f s = None).
  { intros f F. rewrite <- Hwl. unfold wal_of. destruct (s_db s); [|done]. apply F; congruence. }
  apply wp_bind, wp_fstat. apply wp_let_res with (P := fun r w1 => stepped_slot s w w1 /\
    (r = Ok () /\ cur w1 !! s_path s = None /\ cur w1 !! s_staged s = Some (s_data s) /\ (forall x, x <> s_path s -> x <> aside (s_path s) ts -> cur w1 !! x = cur w !! x) \/ errs /\ r <> Ok ())).
  - destruct (cur w !! s_path s) as [c|] eqn:Ec; cbn [is_none negb].
    + apply wp_io. eapply wp_use; [apply (i_rename s); [done|done|done|done|]|].
      * intros c' _. unfold view. rewrite Hwal by (intros; by lk). lk. rewrite Hst. left. split; [by left|by right].
      * intros r w1 [H1 Hr]. split; [done|]. destruct Hr as [(c' & _ & -> & [-> |[? ->]])|[-> [[_ ?]|[? ->]]]]; [left|by right|congruence|by right].
        split_and!; [done|by lk|by lk|]. intros x ? ?. by lk.
    + apply wp_ret. split; [by apply stepped_slot_refl|]. left. by split_and!.
  - intros [] w1 [H1 Hr]. assert (cur w1 !! s_path s = None /\ cur w1 !! s_staged s = Some (s_data s) /\ (forall x, x <> s_path s -> x <> aside (s_path s) ts -> cur w1 !! x = cur w !! x)) as (P1 & S1 & F1) by (destruct Hr as [(_&?)|[_ ?]]; done). clear Hr.
    assert (Hin : view inst (<[s_path s := s_data s]> (delete (s_staged s) (cur w1))) s).
    { unfold view. rewrite Hwal by (intros; lk; by apply F1). unfold inst. by lk. }
    apply wp_let_res with (P := fun r w2 => stepped_slot s w1 w2 /\ (r = Ok () /\ view inst (cur w2) s \/ errs /\ r <> Ok ())).
    + apply wp_io. eapply wp_use; [apply (i_rename s); [apply H1|done|done|done|]|].
      * intros c Hc. rewrite S1 in Hc. injection Hc as <-. right. exact Hin.
      * intros r w2 [H2 Hr]. split; [done|]. destruct Hr as [(c & Hc & -> & [-> |[? ->]])|[-> [[_ ?]|[? ->]]]]; [left|by right|congruence|by right]. rewrite S1 in Hc. injection Hc as <-. by split.
    + intros [] w2 [H2 Hr]. assert (Hv : view inst (cur w2) s) by (destruct Hr as [[_ ?]|[_ ?]]; done). apply wp_io. eapply wp_use; [apply (i_sync s), H2|]. intros r w3 (H3 & C3 & Hr3).
      split; [eapply stepped_slot_trans; [exact H1|by eapply stepped_slot_trans]|]. destruct Hr3 as [[-> ?]|[? ->]]; [left|by right]. rewrite C3. by split_and!.
    + intros e w2 [H2 [[[=] _]|[? _]]]. split; [by eapply stepped_slot_trans|by right].
  - intros e w1 [H1 [[[=] _]|[? _]]]. split; [done|by right].
Qed.

Lemma i_commit s w : ok w -> s ∈ sl -> cur w !! s_staged s = Some (s_data s) -> cur w !! s_path s = f0 !! s_path s \/ cur w !! s_path s = None -> wal_of (cur w) s = None ->
  wp C (commitRestoredFile (s_path s) (s_staged s) ts) (fun r w' => stepped_slot s w w' /\ (r = Ok () /\ view inst (cur w') s /\ settled (p_dir (s_path s)) (w_fs w') \/ errs /\ r <> Ok ())) w.
Proof.
  intros Hw Hs Hst Hlv Hwl. destruct (own_apart cfg Hclear sl Hwf s Hs) as (A1 & _ & _ & A4 & _). eapply wp_let; [by apply i_rename_in|]. intros r w1 [H1 Hr].
  assert (Hv : view (mid f0 E) (cur w1) s) by (apply ok_view; [apply H1|done]).
  eapply wp_let; [apply (i_remove s); [apply H1|done|by left|]|].
  - destruct Hr as [(_ & Hi & _)|[He _]].
    + unfold view, wal_of in *. rewrite lookup_delete_eq, !lookup_delete_ne by congruence. right. by destruct Hi as (_&?&?).
    + unfold view, wal_of in *. rewrite lookup_delete_eq, !lookup_delete_ne by congruence. destruct Hv as [[_ Ho]|(?&?&?)]; [left|by right]. auto.
  - intros r' w2 [H2 Hn]. apply wp_ret. split; [by eapply stepped_slot_trans|]. destruct Hr as [(-> & Hi & Hset)|[? ?]]; [left|by right]. destruct (Hn (proj1 Hi)) as [-> Hs2]. auto.
Qed.

Lemma i_installEntry s w : ok w -> s ∈ sl -> view (vouched f0) (cur w) s -> settled (p_dir (s_path s)) (w_fs w) ->
  wp C (installJournalEntry (entry_of s) ts) (fun r w' => stepped_slot s w w' /\ (r = Ok () /\ view inst (cur w') s /\ settled (p_dir (s_path s)) (w_fs w') \/ errs /\ r <> Ok ())) w.
Proof.
  intros Hw Hs Hv Hset. unfold installJournalEntry. cbn [entry_of e_Staged e_SQLiteDB e_Path]. apply wp_bind, wp_fstat.
  destruct Hv as [[Hst Hold]|Hi]; [|destruct Hi as (Hn&Hl&Hwl); rewrite Hn; apply wp_ret; split; [by apply stepped_slot_refl|left; by split_and!]]. rewrite Hst. cbn [is_none negb].
  apply wp_let_res with (P := fun r w1 => stepped_slot s w w1 /\ (r = Ok () /\ cur w1 !! s_staged s = Some (s_data s) /\ (cur w1 !! s_path s = f0 !! s_path s \/ cur w1 !! s_path s = None) /\ wal_of (cur w1) s = None \/ errs /\ r <> Ok ())).
  - destruct (s_db s) eqn:Hdb.
    + eapply wp_use; [by apply i_moveAside|]. intros r w1 [H1 Hr]. split; [done|]. destruct Hr as [(->&?&?&?)|?]; [left|by right]. unfold wal_of. rewrite Hdb. auto.
    + apply wp_ret. split; [by apply stepped_slot_refl|]. left. unfold wal_of in *. rewrite Hdb in *. split_and!; [done|done| |done]. destruct Hold as [[? _]|[? _]]; auto.
  - intros [] w1 [H1 Hr]. destruct Hr as [(_&X1&X2&X3)|[_ X]]; [|done]. eapply wp_use; [by apply i_commit; [apply H1|..]|]. intros r w2 [H2 Hr]. split; [by eapply stepped_slot_trans|done].
  - intros e w1 [H1 [[[=] _]|[? _]]]. split; [done|by right].
Qed.

(** * All entries *)

(** The restored content is not the old one under another hash, nor the old database of a WAL. *)
Definition told_apart (s : slot) : Prop :=
  (forall c, f0 !! s_path s = Some c -> HashBytes c = HashBytes (s_data s) -> c = s_data s) /\ (wal_of f0 s = None \/ f0 !! s_path s <> Some (s_data s)).
Context (Hapart : forall s, s ∈ sl -> told_apart s).

Lemma vouched_by_hash s c st lv wl : s ∈ sl -> mid f0 E s st lv wl -> st = None -> lv = Some c -> HashBytes c = HashBytes (s_data s) -> vouched f0 s st lv wl.
Proof.
  intros Hs [[_ Ho]|Hi] -> -> Hh; [|by right]. destruct (Hapart s Hs) as [Hc Hnew]. destruct Ho as [[Hf Hw]|[[=] _]]. symmetry in Hf. assert (c = s_data s) as -> by auto.
  right. split_and!; [done|done|]. destruct Hnew as [Hn|]; [|done]. rewrite Hn in Hw. by destruct Hw.
Qed.
Lemma i_check l w : (forall s, s ∈ l -> s ∈ sl /\ view (mid f0 E) (cur w) s) ->
  wp C (checkJournalEntries (map entry_of l)) (fun r w' => w' = w /\ (r = Ok () /\ (forall s, s ∈ l -> view (vouched f0) (cur w) s) \/ r <> Ok () /\ (E \/ exists p, w_unreadable w p = true))) w.
Proof.
  induction l as [|s l IH]; intros Hl; cbn [map checkJournalEntries].
  { apply wp_ret. split; [done|]. left. split; [done|]. by intros s ?%elem_of_nil. }
  destruct (Hl s ltac:(left)) as [Hs Hv]. cbn [entry_of e_Staged e_Path e_SHA256].
  assert (Hrest : view (vouched f0) (cur w) s -> wp C (checkJournalEntries (map entry_of l)) (fun r w' => w' = w /\ (r = Ok () /\ (forall s', s' ∈ s :: l -> view (vouched f0) (cur w) s') \/ r <> Ok () /\ (E \/ exists p, w_unreadable w p = true))) w).
  { intros Hvs. eapply wp_use; [apply IH; intros; apply Hl; by right|]. intros r w' [-> Hr]. split; [done|]. destruct Hr as [[-> Hr]|]; [left|by right]. split; [done|]. intros s' [-> |?]%elem_of_cons; auto. }
  apply wp_bind, wp_fread. unfold view in Hv. destruct (cur w !! s_staged s) as [c|] eqn:Ec.
  - destruct (w_unreadable w (s_staged s)) eqn:Eu; [apply wp_ret; split; [done|]; right; eauto|].
    assert (c = s_data s) as -> by (destruct Hv as [[[[= ->]|[_ [=]]] _]|[[=] _]]; done). rewrite bool_decide_eq_true_2 by done. apply Hrest.
    unfold view. rewrite Ec. destruct Hv as [[_ ?]|[[=] _]]. by left.
  - apply wp_bind, wp_fread. assert (Hst : mid f0 E s None (cur w !! s_path s) (wal_of (cur w) s)) by done.
    assert (Hno : cur w !! s_path s <> Some (s_data s) -> E) by (intros Hne; destruct Hv as [[[[=]|[? _]] _]|(_&?&_)]; done).
    destruct (cur w !! s_path s) as [c|] eqn:Ep; [|apply wp_ret; split; [done|]; right; auto].
    destruct (w_unreadable w (s_path s)) eqn:Eu; [apply wp_ret; split; [done|]; right; eauto|]. case_bool_decide as Hh.
    + apply Hrest. unfold view. rewrite Ec, Ep. by eapply vouched_by_hash.
    + apply wp_ret. split; [done|]. right. split; [done|]. left. apply Hno. by intros [= ->].
Qed.

Definition quiet (w : world) : Prop := forall s, s ∈ sl -> settled (p_dir (s_path s)) (w_fs w).
Lemma i_install_entries l : NoDup l -> forall w, ok w -> (forall s, s ∈ l -> s ∈ sl /\ view (vouched f0) (cur w) s) -> quiet w ->
  wp C (install_entries (map entry_of l) ts) (fun r w' => ok w' /\ same_env w w' /\ (forall p, (forall s, s ∈ l -> ~ own s p) -> cur w' !! p = cur w !! p) /\
    (r = Ok () /\ (forall s, s ∈ l -> view inst (cur w') s) /\ quiet w' \/ errs /\ r <> Ok ())) w.
Proof.
  induction 1 as [|s l Hni Hnd IH]; intros w Hw Hl Hq; cbn [map install_entries].
  { apply wp_ret. split_and!; try done. left. split_and!; [done|by intros s ?%elem_of_nil|done]. }
  destruct (Hl s ltac:(left)) as [Hs Hv]. eapply wp_let_res; [by apply i_installEntry; [..|apply Hq]| |].
  - intros [] w1 [(H1&[U1 N1]&F1&S1) Hr]. assert (view inst (cur w1) s /\ settled (p_dir (s_path s)) (w_fs w1)) as [Hi Hset] by (destruct Hr as [[_ ?]|[_ ?]]; done). clear Hr.
    assert (Hq1 : quiet w1) by (intros s' Hs'; destruct (decide (p_dir (s_path s') = p_dir (s_path s))) as [-> |]; auto).
    eapply wp_use; [apply IH; [done| |done]|].
    { intros s' Hs'. destruct (Hl s' ltac:(by right)) as [Hin Hv']. split; [done|]. eapply (view_other cfg Hclear sl Hwf (vouched f0) (cur w) (cur w1) s s'); [done|done| |done|done]. intros E1. apply Hni. by rewrite <- E1. }
    intros r w2 (H2&[U2 N2]&F2&Hr). split_and!; [done|split; congruence| |].
    + intros p Hp. rewrite F2, F1; [done| |]; intros; apply Hp; [by left|by right].
    + destruct Hr as [(-> & Hi2 & Hq2)|]; [left|by right]. split_and!; [done| |done]. intros s' [-> |Hs']%elem_of_cons; [|auto].
      assert (Hf : forall p, own s p -> cur w2 !! p = cur w1 !! p).
      { intros p Ho. apply F2. intros s' Hs' Ho'. assert (s = s') as <-; [|done]. eapply own_slot; eauto. by apply Hl; right. }
      unfold view, wal_of, own in *. destruct (s_db s); rewrite ?Hf by auto 6; done.
  - intros e w1 [(H1&?&F1&S1) [[[=] _]|[? _]]]. split_and!; [done|done| |by right]. intros p Hp. apply F1, Hp. by left.
Qed.
End install.
