(* ===== verification/RestoreRun.v ===== *)
(** The commands of a restore, from their first step to their last: what each leaves when
    it returns and when the process is killed. *)
From Stdlib Require Import ZArith Lia.
From stdpp Require Import base numbers tactics sets list gmap.
From S2P Require Import Prelude GoStr Sha256 KeyFS DirFS Restore RestorePaths RestoreSteps RestoreInstall.
Local Open Scope go_scope.

(** * The database and the end of the journal *)

Lemma wp_on_db {A} (R : bytes -> gmap path bytes -> Prop) errs kills db (g : keydb -> keydb) (a : A) effect failed w :
  fine R errs kills db w -> (forall w, effect w = set_db (g (w_db w)) w) ->
  wp (fun w' => killed R kills db w' \/ killed R kills (g db) w') (on_db a effect failed)
    (fun r w' => w_fs w' = w_fs w /\ same_env w w' /\ (r = Ok a /\ fine R errs kills (g db) w' \/ errs /\ r = Err failed /\ (fine R errs kills db w' \/ fine R errs kills (g db) w'))) w.
Proof.
  intros (Hk & Hf & Hdb) He. destruct (allowed_next errs kills w Hf) as [Ha Hr]. unfold wp, on_db. rewrite next_fault_eq.
  assert (H1 : fine R errs kills db (tick w)) by (by split_and!). assert (H2 : fine R errs kills (g db) (effect (tick w))) by (rewrite He; split_and!; [done|done|cbn; by rewrite Hdb]).
  assert (Hfs : w_fs (effect (tick w)) = w_fs w) by (by rewrite He). assert (Henv : same_env w (effect (tick w))) by (by rewrite He).
  destruct (default FRun (head (w_faults w))); cbn in Ha; fold (tick w); try (split_and!; [done|by rewrite ?He..|]); auto 6.
  - left. split_and!; [done|apply H1..].
  - right. split_and!; [done|apply H2..].
Qed.

Section remove.
Context (R : bytes -> gmap path bytes -> Prop) (Rdir : by_dir R) (errs kills : Prop) (db : keydb) (cfg : config).
Local Abbreviation J := (c_journal cfg).
Context (Hdel : forall f, R (p_dir J) f -> R (p_dir J) (delete J f)).
Lemma s_Remove w : fine R errs kills db w -> wp (killed R kills db) (Remove cfg) (fun r w' => fine R errs kills db w' /\ (forall p, p <> J -> cur w' !! p = cur w !! p) /\
  (r = Ok () /\ cur w' !! J = None /\ settled (p_dir J) (w_fs w') \/ errs /\ r <> Ok ())) w.
Proof.
  intros Hw. apply wp_let_res with (P := fun r w1 => fine R errs kills db w1 /\ (forall p, p <> J -> cur w1 !! p = cur w !! p) /\ (r = Ok () /\ cur w1 !! J = None \/ errs /\ r <> Ok ())).
  - unfold removeIfExists. eapply wp_let; [eapply d_remove; [done|done|apply Hdel; exact (ok_cur R errs kills db _ w Hw)|intros r w1 Ha Hn Hr; exact (conj Ha Hr)]|].
    intros r w1 [(H1&_) Hr]. apply wp_ret. split_and!; [done| |].
    + intros p Hp. destruct Hr as [[-> _]|[-> _]]; [by rewrite lookup_delete_ne|done].
    + destruct Hr as [[Hc [-> |[? ->]]]|[Hc [[-> ?]|[? ->]]]]; [left|by right|left|by right]; (split; [done|]); rewrite Hc; [apply lookup_delete_eq|done].
  - intros [] w1 (H1 & F1 & Hr). assert (Hn : cur w1 !! J = None) by (destruct Hr as [[_ ?]|[_ ?]]; done). apply wp_io. eapply wp_use; [by apply s_syncdir|].
    intros r w2 ((H2&_&C2&_) & Hr2). rewrite C2. split_and!; [done|done|]. destruct Hr2 as [[-> ?]|[? ->]]; [left|by right]. by split_and!.
  - intros e w1 (H1 & F1 & [[[=] _]|[? _]]). split_and!; [done|done|by right].
Qed.
End remove.

(** * Forward: installing and finishing *)

Section forward.
Context (MarshalIndent : Journal -> bytes) (cfg : config) (Hclear : clear_names cfg = true) (sl : list slot) (Hwf : wf_slots cfg sl).
Context (f0 : gmap path bytes) (E : Prop) (K : path -> Prop) (HK : forall p, K p -> jtmp cfg p) (errs kills : Prop) (HE : errs -> E) (db : keydb).
Context (Hapart : forall s, s ∈ sl -> told_apart f0 s) (j : Journal) (Hj : j_Entries j = map entry_of sl).
Local Abbreviation J := (c_journal cfg).
Definition text (j : Journal) : bytes := MarshalIndent (set_Version j).
Definition going : bytes -> gmap path bytes -> Prop := phase cfg sl (fun x => x = Some (text j)) (mid f0 E) K.
Definition ending : bytes -> gmap path bytes -> Prop := phase cfg sl (fun x => x = Some (text j) \/ x = Some (text (set_Installed j)) \/ x = None) inst (fun _ => False).
Definition ended : bytes -> gmap path bytes -> Prop := phase cfg sl (fun x => x = None) inst (fun _ => False).

Lemma slot_dir_dec d : (exists s, s ∈ sl /\ p_dir (s_path s) = d) \/ forall s, s ∈ sl -> p_dir (s_path s) <> d.
Proof. destruct (decide (d ∈ map (fun s => p_dir (s_path s)) sl)) as [(s & -> & ?)%list_elem_of_fmap|Hn]; [left; eauto|right]. intros s Hs <-. apply Hn. by apply (list_elem_of_fmap_2 (fun s => p_dir (s_path s))). Qed.
Lemma entry_dirs (x : fs) : (forall e, e ∈ j_Entries j -> settled (p_dir (e_Staged e)) x) <-> forall s, s ∈ sl -> settled (p_dir (s_path s)) x.
Proof.
  rewrite Hj. split.
  - intros H s Hs. rewrite <- (staged_dir cfg sl Hwf s Hs). apply (H (entry_of s)). by apply list_elem_of_fmap_2.
  - intros H e (s & -> & Hs)%list_elem_of_fmap. cbn. rewrite (staged_dir cfg sl Hwf s Hs). auto.
Qed.
(** Journals and their temporary files are no entry's files. *)
Lemma phase_journal JS P f f' d : (forall p, p <> J -> ~ jtmp cfg p -> f' !! p = f !! p) -> (p_dir J = d -> JS (f' !! J)) -> phase cfg sl JS P (fun _ => False) d f -> phase cfg sl JS P (fun _ => False) d f'.
Proof.
  intros Hf HJ (_&H2&_). split_and!; [done| |done]. intros s Hs Hd. specialize (H2 s Hs Hd).
  assert (Hn : forall p, own s p -> f' !! p = f !! p) by (intros p Ho; apply Hf; [intros ->; by eapply own_not_J|intros Ht; by eapply own_not_jtmp]).
  unfold view, wal_of, own in *. destruct (s_db s); rewrite ?Hn by auto 6; done.
Qed.

Lemma slots_list_nodup : NoDup sl.
Proof. eapply NoDup_fmap_1, slots_nodup, Hwf. Qed.

(** What can stop an install that nothing interrupts. *)
Definition trouble (w : world) : Prop := E \/ (exists p, w_unreadable w p = true) \/ forall n, n ∈ w_nonces w -> ~ K (sibling J (tmpSuffix ++ n)).

Lemma f_install w : j_Installed j = false -> fine going errs kills db w -> quiet sl w ->
  wp (fun w' => killed going kills db w' \/ killed ending kills db w') (installJournalEntries MarshalIndent cfg j)
    (fun r w' => r = Ok () /\ fine ending errs kills db w' \/ trouble w /\ r <> Ok () /\ (fine going errs kills db w' \/ fine ending errs kills db w')) w.
Proof.
  intros Hinst Hw Hq. unfold installJournalEntries. rewrite Hinst, Hj. eapply wp_let_res.
  { eapply wp_crash; [intros w' Hk; left; exact Hk|]. apply (i_check cfg sl f0 E (fun x => x = Some (text j)) K kills db Hapart sl w).
    intros s Hs. split; [done|]. exact (ok_view cfg sl f0 E _ K errs kills db s w Hw Hs). }
  2: { intros e w1 [-> [[[=] _]|[_ Ht]]]. right. split_and!; [|done|by left]. destruct Ht; [by left|by right; left]. }
  intros [] w1 [-> Hr]. assert (Hv : forall s, s ∈ sl -> view (vouched f0) (cur w) s) by (destruct Hr as [[_ ?]|[? _]]; done). clear Hr.
  eapply wp_let_res.
  { eapply wp_crash; [intros w' Hk; left; exact Hk|]. apply (i_install_entries cfg Hclear sl Hwf f0 E _ K HK errs kills HE db (j_Timestamp j) sl slots_list_nodup w Hw); [by auto|done]. }
  2: { intros e w1 (H1 & _ & _ & [[[=] _]|[? _]]). right. split_and!; [left; auto|done|by left]. }
  intros [] w1 (H1 & [U1 N1] & F1 & Hr). assert ((forall s, s ∈ sl -> view inst (cur w1) s) /\ quiet sl w1) as [Hi Hq1] by (destruct Hr as [[_ ?]|[_ ?]]; done). clear Hr.
  assert (HR2 : by_dir ending) by (by apply phase_dir).
  assert (Hjt : forall p f f', jtmp cfg p -> (forall q, q <> p -> f' !! q = f !! q) -> ending (p_dir p) f -> ending (p_dir p) f').
  { intros p f f' Hp Hf He. eapply phase_journal; [|..|exact He]; [intros q _ Hq'; apply Hf; by intros ->|]. intros Hd. rewrite Hf by (intros Ejp; by eapply jtmp_ne). by apply He. }
  eapply wp_use; [apply (s_Write going ending)|].
  - by apply phase_dir.
  - done.
  - intros d. destruct (slot_dir_dec d) as [(s & Hs & Hd)|Hn]; [left|right].
    + exists (entry_of s). cbn. rewrite Hj. split; [by apply list_elem_of_fmap_2|]. by rewrite (staged_dir cfg sl Hwf s Hs).
    + intros f (HJ & _). split_and!; [intros Hd; left; auto|intros s Hs Hd; by destruct (Hn s Hs)|done].
  - intros p f Hp. apply Hjt; [done|]. intros q Hq'. by apply lookup_delete_ne.
  - intros p data f Hp. apply Hjt; [done|]. intros q Hq'. by apply lookup_insert_ne.
  - intros f He. eapply phase_journal; [|..|exact He]; [intros p Hp _; by apply lookup_insert_ne|]. intros _. rewrite lookup_insert_eq. by right; left.
  - exact H1.
  - apply phase_all. split_and!; [left|done|done]. pose proof (ok_cur going errs kills db (p_dir J) w1 H1) as (HJ & _). by apply HJ.
  - intros r w2 (W2 & Hr). destruct Hr as [(-> & H2 & _)|(Hne & Hr)]; [by left|right]. split_and!; [|done|destruct Hr as [[_ ?]|[_ ?]]; auto]. destruct Hr as [[? _]|[Hno _]]; [left; auto|right; right].
    intros n Hn HKn. apply (Hno n); [by rewrite N1|]. pose proof (ok_cur going errs kills db (p_dir J) w1 H1) as (_ & _ & HKK). by apply HKK.
Qed.

Lemma f_finish w : fine ending errs kills db w ->
  wp (fun w' => killed ending kills db w' \/ killed ended kills db w' \/ killed ended kills (set_token None db) w') (finishRestore cfg j)
    (fun r w' => r = Ok () /\ (fine ended errs kills db w' \/ fine ended errs kills (set_token None db) w') \/ errs /\ r <> Ok () /\ fine ending errs kills db w') w.
Proof.
  intros Hw. assert (HR2 : by_dir ending) by (by apply phase_dir). eapply wp_let_res.
  { eapply wp_crash; [intros w' Hk; left; exact Hk|]. apply s_Remove; [done| |exact Hw].
    intros f He. eapply phase_journal; [|..|exact He]; [intros p Hp _; by apply lookup_delete_ne|]. intros _. rewrite lookup_delete_eq. auto. }
  2: { intros e w1 (H1 & _ & [[[=] _]|[? _]]). right. by split_and!. }
  intros [] w1 (H1 & F1 & Hr). assert (cur w1 !! J = None /\ settled (p_dir J) (w_fs w1)) as [Hn Hset] by (destruct Hr as [[_ ?]|[_ ?]]; done). clear Hr.
  assert (H2 : fine ended errs kills db w1).
  { destruct H1 as (Hk & Hf & Hdb). split_and!; [|done|done]. pose proof (kept_cur ending) as Hcur. eapply kept_strengthen; [by apply phase_dir|exact Hk| |].
    - apply phase_all. split_and!; [done| |done]. intros s Hs. by apply (Hcur (p_dir (s_path s)) _ Hk).
    - intros d. destruct (decide (p_dir J = d)) as [<- |Hne]; [by left|right]. intros f (HJ & Hs & _). by split_and!. }
  case_bool_decide; [apply wp_ret; auto|]. eapply wp_crash; [intros w' Hk; right; exact Hk|].
  eapply wp_let; [by apply (wp_on_db ended errs kills db (set_token None))|]. intros r w2 (_ & _ & Hr). apply wp_ret. left. split; [done|]. destruct Hr as [[_ ?]|(_ & _ & ?)]; auto.
Qed.
End forward.
