(* ===== verification/RestoreGood.v ===== *)
(** The states between the commands of a restore: nothing happened, a journal is pending, or the
    restore is complete; and which of them the phases of a command lead to. *)
From Stdlib Require Import ZArith Lia.
From stdpp Require Import base numbers tactics sets list gmap.
From S2P Require Import Prelude GoStr Sha256 KeyFS DirFS Restore RestorePaths RestoreSteps RestoreInstall RestoreRun.
Local Open Scope go_scope.

(** Strings that survive JSON as they are. *)
Definition ascii (b : bytes) : bool := forallb (fun c => Zb c <? 128)%Z b.
Definition ascii_path (p : path) : bool := ascii (p_dir p) && ascii (p_name p).
Definition ascii_journal (j : Journal) : bool :=
  ascii (j_Token j) && ascii (j_Timestamp j) && forallb (fun e => ascii_path (e_Path e) && ascii_path (e_Staged e) && ascii (e_SHA256 e)) (j_Entries j).

(** What has to match: the target files, with a SQLite database's WAL. *)
Definition live_paths (cfg : config) : list path := targets cfg ++ (if c_postgres cfg then [] else [wal (c_db cfg)]).
Definition files (cfg : config) (a : archive) : list (path * bytes) := a_keys a ++ (if c_postgres cfg then [] else [(c_db cfg, a_dbfile a)]).

Section good.
Context (MarshalIndent : Journal -> bytes) (cfg : config) (Hclear : clear_names cfg = true).
Context (f0 : gmap path bytes) (db0 : keydb) (a : archive) (E : Prop).
Local Abbreviation J := (c_journal cfg).
Local Abbreviation text := (text MarshalIndent).

Definition untouched (f : gmap path bytes) : Prop := forall p, p ∈ live_paths cfg -> f !! p = f0 !! p.
Definition replaced (f : gmap path bytes) : Prop := (forall p data, (p, data) ∈ files cfg a -> f !! p = Some data) /\ (c_postgres cfg = false -> f !! wal (c_db cfg) = None).
Definition journal_of (sl : list slot) (token ts : bytes) (b : bool) : Journal := mkJournal 0 (c_postgres cfg) token ts (map entry_of sl) b.
Record planned (sl : list slot) (token ts : bytes) : Prop := {
  planned_wf : wf_slots cfg sl;
  planned_files : map (fun s => (s_path s, s_data s)) sl = files cfg a;
  planned_ascii : ascii_journal (journal_of sl token ts false) = true;
  planned_token : c_postgres cfg = true -> db_token db0 <> Some token }.

Definition before (f : gmap path bytes) (db : keydb) : Prop := f !! J = None /\ untouched f /\ db = db0.
Definition complete (f : gmap path bytes) (db : keydb) : Prop := f !! J = None /\ replaced f /\ (c_postgres cfg = true -> set_token None db = set_token None (a_db a)).
(** Back: the data is not committed.  Forward: it is, and every entry is old or restored. *)
Definition back (token : bytes) (f : gmap path bytes) (db : keydb) : Prop := c_postgres cfg = true /\ untouched f /\ db = db0.
Definition committed (token : bytes) (db : keydb) : Prop := c_postgres cfg = true -> db = set_token (Some token) (a_db a).
Definition forth (sl : list slot) (token : bytes) (b : bool) (f : gmap path bytes) (db : keydb) : Prop :=
  committed token db /\ forall s, s ∈ sl -> view (if b then inst else mid f0 E) f s.
Definition pending_restore (f : gmap path bytes) (db : keydb) : Prop := exists sl token ts b, planned sl token ts /\ f !! J = Some (text (journal_of sl token ts b)) /\
  (b = false /\ back token f db \/ forth sl token b f db).
Definition Good (f : gmap path bytes) (db : keydb) : Prop := before f db \/ pending_restore f db \/ complete f db.
(** However the power fails now. *)
Definition safe (w : world) : Prop := forall f, power_loss (w_fs w) f -> Good f (w_db w).

Lemma kept_safe R (w : world) db : by_dir R -> kept R (w_fs w) -> w_db w = db -> (forall f, (forall d, R d f) -> Good f db) -> safe w.
Proof. intros Hdir Hk <- HG f Hf. apply HG. intros d. by eapply kept_power_loss. Qed.
Lemma fine_safe R errs kills db w : by_dir R -> fine R errs kills db w -> (forall f, (forall d, R d f) -> Good f db) -> safe w.
Proof. intros Hdir (Hk & _ & Hdb). by eapply kept_safe. Qed.
Lemma killed_safe R kills db w : by_dir R -> killed R kills db w -> (forall f, (forall d, R d f) -> Good f db) -> safe w.
Proof. intros Hdir (_ & Hk & Hdb). by eapply kept_safe. Qed.

(** * Phases *)

(** Before the commit: nothing live has changed. *)
Definition live (JS : option bytes -> Prop) (d : bytes) (f : gmap path bytes) : Prop :=
  (p_dir J = d -> JS (f !! J)) /\ (forall p, p ∈ live_paths cfg -> p_dir p = d -> f !! p = f0 !! p).
Lemma live_dir JS : by_dir (live JS).
Proof. intros d f g Hfg (H1 & H2). split; [intros Hd; rewrite <- (Hfg J Hd); auto|]. intros p Hp Hd. rewrite <- (Hfg p Hd). auto. Qed.
Lemma live_all JS f : (forall d, live JS d f) <-> JS (f !! J) /\ untouched f.
Proof. split; [intros H; split; [by apply (H (p_dir J))|intros p Hp; by apply (H (p_dir p))]|]. intros [H1 H2] d. split; auto. Qed.

Definition scrap (p : path) : Prop := (exists t x, t ∈ targets cfg /\ p = sibling t (staging ++ x)) \/ jtmp cfg p.
Lemma target_base t : t ∈ targets cfg -> t ∈ bases cfg.
Proof. intros. apply elem_of_app. by left. Qed.
Lemma db_target : c_postgres cfg = false -> c_db cfg ∈ targets cfg.
Proof. intros Hp. unfold targets. rewrite Hp. apply elem_of_app. right. by left. Qed.
Lemma scrap_role p : scrap p -> exists t sf x, t ∈ bases cfg /\ (sf = staging \/ sf = tmpSuffix) /\ p = sibling t (sf ++ x).
Proof. intros [(t & x & Ht & ->)|[x ->]]; [exists t, staging, x|exists J, tmpSuffix, x]; split_and!; auto; [by apply target_base|apply J_base]. Qed.
Lemma suf_in sf : sf = staging \/ sf = tmpSuffix -> sf ∈ sufs.
Proof. intros [-> | ->]; unfold sufs; set_solver. Qed.
Lemma scrap_not_J p : scrap p -> p <> J.
Proof. intros (t & sf & x & Ht & Hsf & ->)%scrap_role. eapply base_name; [exact Hclear|done|apply J_base|by apply suf_in]. Qed.
Lemma scrap_not_live p : scrap p -> p ∉ live_paths cfg.
Proof.
  intros (t & sf & x & Ht & Hsf & ->)%scrap_role Hin. apply elem_of_app in Hin as [Hin|Hin].
  - eapply base_name; [exact Hclear|exact Ht|by eapply target_base|by apply suf_in|done].
  - destruct (c_postgres cfg) eqn:Hp; [by apply elem_of_nil in Hin|]. apply list_elem_of_singleton in Hin. unfold wal in Hin. rewrite <- (app_nil_r (go "-wal")) in Hin.
    apply (role_inj cfg Hclear) in Hin as (_ & Hs & _); [|done|by apply target_base, db_target|by apply suf_in|unfold sufs; set_solver]. by destruct Hsf; subst.
Qed.
Lemma live_scrap JS p f f' : scrap p -> (forall q, q <> p -> f' !! q = f !! q) -> live JS (p_dir p) f -> live JS (p_dir p) f'.
Proof.
  intros Hp Hf (H1 & H2). split.
  - intros Hd. rewrite Hf; [auto|]. intros E1. by eapply scrap_not_J.
  - intros q Hq Hd. rewrite Hf; [auto|]. intros ->. by eapply scrap_not_live.
Qed.
Lemma orphan_scrap p : orphan cfg p = true -> scrap p.
Proof.
  intros [(t & Ht & [Hd Hn]%andb_prop)%existsb_exists|[Hd Hn]%andb_prop]%orb_true_iff; apply bool_decide_eq_true in Hd; apply HasPrefix_spec in Hn as [x Hx].
  - left. exists t, x. split; [by apply list_elem_of_In|]. destruct p; unfold sibling; cbn in *. by rewrite Hd, Hx, <- app_assoc.
  - right. exists x. destruct p; unfold sibling; cbn in *. by rewrite Hd, Hx, <- app_assoc.
Qed.

Lemma live_before f : (forall d, live (fun x => x = None) d f) -> Good f db0.
Proof. intros [H1 H2]%live_all. left. by split_and!. Qed.

Section slots.
Context (sl : list slot) (token ts : bytes) (Hplan : planned sl token ts).
Local Abbreviation Hwf := (planned_wf _ _ _ Hplan).
Local Abbreviation j := (journal_of sl token ts false).

(** The journal may exist, nothing is installed. *)
Definition pre (s : slot) (st lv wl : option bytes) : Prop := (st = Some (s_data s) \/ E /\ st = None) /\ lv = f0 !! s_path s /\ wl = wal_of f0 s.
Definition prepared (JS : option bytes -> Prop) : bytes -> gmap path bytes -> Prop := phase cfg sl JS pre (fun _ => False).
Lemma pre_mid s st lv wl : pre s st lv wl -> mid f0 E s st lv wl.
Proof. intros (?&->&->). left. split; [done|]. left. auto. Qed.
Lemma slot_of_target t : t ∈ targets cfg -> exists s, s ∈ sl /\ s_path s = t.
Proof. rewrite <- (slots_targets _ _ Hwf). by intros (s & -> & ?)%list_elem_of_fmap; eauto. Qed.
Lemma db_slot : c_postgres cfg = false -> exists s, s ∈ sl /\ s_path s = c_db cfg /\ s_db s = true.
Proof.
  intros Hp. destruct (slot_of_target (c_db cfg) (db_target Hp)) as (s & Hs & He). exists s. split_and!; [done|done|]. rewrite (slots_db _ _ Hwf s Hs), Hp. by rewrite bool_decide_eq_true_2.
Qed.
Lemma pre_untouched f : (forall s, s ∈ sl -> view pre f s) -> untouched f.
Proof.
  intros H p [Hp|Hp]%elem_of_app.
  - destruct (slot_of_target p Hp) as (s & Hs & <-). by destruct (H s Hs) as (_&?&_).
  - destruct (c_postgres cfg) eqn:Epg; [by apply elem_of_nil in Hp|]. apply list_elem_of_singleton in Hp as ->. destruct (db_slot Epg) as (s & Hs & <- & Hdb).
    destruct (H s Hs) as (_&_&Hw). unfold wal_of in Hw. by rewrite Hdb in Hw.
Qed.
Lemma inst_replaced f : (forall s, s ∈ sl -> view inst f s) -> replaced f.
Proof.
  intros H. split.
  - intros p data Hin. rewrite <- (planned_files _ _ _ Hplan) in Hin. apply list_elem_of_fmap in Hin as (s & [= -> ->] & Hs). by destruct (H s Hs) as (_&?&_).
  - intros Hp. destruct (db_slot Hp) as (s & Hs & <- & Hdb). destruct (H s Hs) as (_&_&Hw). unfold wal_of in Hw. by rewrite Hdb in Hw.
Qed.

Lemma prepared_good JS f : (forall x, JS x -> x = None \/ x = Some (text j)) -> (forall d, prepared JS d f) -> Good f db0.
Proof.
  intros HJS (H1 & H2 & _)%phase_all. destruct (HJS _ H1) as [Hn|Hn]; [left; split_and!; [done|by apply pre_untouched|done]|]. right. left. exists sl, token, ts, false. split_and!; [done|done|].
  destruct (c_postgres cfg) eqn:Hp; [left; split; [done|]; split_and!; [done|by apply pre_untouched|done]|right]. split; [intros Hp1; congruence|]. intros s Hs. by apply pre_mid, H2.
Qed.
Lemma going_good K f db : committed token db -> (forall d, going MarshalIndent cfg sl f0 E K j d f) -> Good f db.
Proof. intros Hc (H1 & H2 & _)%phase_all. right. left. exists sl, token, ts, false. split_and!; [done|done|]. right. by split. Qed.
Lemma ended_good f db db' : committed token db -> (db' = db \/ db' = set_token None db) -> (forall d, ended cfg sl d f) -> complete f db'.
Proof.
  intros Hc Hdb (H1 & H2 & _)%phase_all. split_and!; [done|by apply inst_replaced|]. intros Hp. by destruct Hdb as [-> | ->]; rewrite (Hc Hp).
Qed.
Lemma ending_good f db : committed token db -> (forall d, ending MarshalIndent cfg sl j d f) -> Good f db.
Proof.
  intros Hc (H1 & H2 & _)%phase_all. destruct H1 as [Hn|[Hn|Hn]].
  - right. left. exists sl, token, ts, false. split_and!; [done|done|]. right. split; [done|]. intros s Hs. by right; apply H2.
  - right. left. exists sl, token, ts, true. split_and!; [done|done|]. right. by split.
  - right. right. eapply ended_good; [exact Hc|by left|]. apply phase_all. by split_and!.
Qed.
End slots.
End good.
