(* ===== verification/RestoreSafe.v ===== *)
(** A restore is all or nothing: whenever no journal is left, the key files and the database are
    those of one point in time, through kills, power losses and failing operations; and
    without failing operations `--recover` always gets there. *)
From Stdlib Require Import ZArith Lia.
From stdpp Require Import base numbers tactics sets list gmap.
From S2P Require Import Prelude GoStr Sha256 KeyFS DirFS Restore RestorePaths RestoreSteps RestoreInstall RestoreRun RestoreGood.
Local Open Scope go_scope.

Section commands.
Context (MarshalIndent : Journal -> bytes) (Unmarshal : bytes -> option Journal) (cfg : config) (Hclear : clear_names cfg = true).
Context (Hcodec : forall j, ascii_journal j = true -> Unmarshal (MarshalIndent j) = Some j).
Context (f0 : gmap path bytes) (db0 : keydb) (a : archive) (E : Prop) (errs kills : Prop) (HE : errs -> E).
Local Abbreviation J := (c_journal cfg).
Local Abbreviation Good := (Good MarshalIndent cfg f0 db0 a E).
Local Abbreviation safe := (safe MarshalIndent cfg f0 db0 a E).

(** A process that was killed. *)
Definition dead (w : world) : Prop := kills /\ safe w.
Lemma killed_dead R db w : by_dir R -> killed R kills db w -> (forall f, (forall d, R d f) -> Good f db) -> dead w.
Proof. intros Hdir Hk HG. split; [apply Hk|]. by eapply killed_safe. Qed.

(** The archive fits the configuration and is not mistaken for what it replaces. *)
Record fits : Prop := {
  fits_keys : map fst (a_keys a) = c_keys cfg;
  fits_hash : forall t data c, (t, data) ∈ files cfg a -> f0 !! t = Some c -> HashBytes c = HashBytes data -> c = data;
  fits_wal : c_postgres cfg = false -> f0 !! wal (c_db cfg) = None \/ f0 !! c_db cfg <> Some (a_dbfile a) }.
Context (Hfits : fits).

Lemma files_targets : map fst (files cfg a) = targets cfg.
Proof. unfold files, targets. rewrite map_app, (fits_keys Hfits). by destruct (c_postgres cfg). Qed.
Lemma nodup_fst {A B} (l : list (A * B)) k v v' : NoDup (map fst l) -> (k, v) ∈ l -> (k, v') ∈ l -> v = v'.
Proof. intros Hn H1 H2. by assert ((k, v) = (k, v')) as [=] by (eapply nodup_map_inj; eauto). Qed.
Lemma planned_apart sl token ts : planned cfg db0 a sl token ts -> forall s, s ∈ sl -> told_apart f0 s.
Proof.
  intros Hp s Hs. assert (Hin : (s_path s, s_data s) ∈ files cfg a) by (rewrite <- (planned_files _ _ _ _ _ _ Hp); by apply (list_elem_of_fmap_2 (fun s => (s_path s, s_data s)))).
  split; [intros c; by apply (fits_hash Hfits)|]. unfold wal_of. rewrite (slots_db _ _ (planned_wf _ _ _ _ _ _ Hp) s Hs). destruct (c_postgres cfg) eqn:Epg; [by left|]. cbn. case_bool_decide as Hd; [|by left].
  destruct (fits_wal Hfits Epg) as [Hw|Hw]; [left; by rewrite Hd|right]. rewrite Hd in *. assert (s_data s = a_dbfile a) as ->; [|done].
  eapply nodup_fst; [|exact Hin|unfold files; rewrite Epg; apply elem_of_app; right; by left]. rewrite files_targets. pose proof (bases_nodup cfg Hclear) as Hn. by apply NoDup_app in Hn as [? _].
Qed.

(** * Forward *)

Definition settles (r : res restore_err unit) (w : world) : Prop := r = Ok () -> forall f, power_loss (w_fs w) f -> complete cfg a f (w_db w).

Section forward.
Context (sl : list slot) (token ts : bytes) (Hplan : planned cfg db0 a sl token ts) (db : keydb) (Hdb : committed cfg a token db) (v : Z).
Local Abbreviation Hwf := (planned_wf _ _ _ _ _ _ Hplan).
Definition journal_at (b : bool) : Journal := mkJournal v (c_postgres cfg) token ts (map entry_of sl) b.

Lemma g_finish b w : fine (ending MarshalIndent cfg sl (journal_at false)) errs kills db w ->
  wp dead (finishRestore cfg (journal_at b)) (fun r w' => safe w' /\ settles r w' /\ (r = Ok () \/ errs)) w.
Proof.
  intros Hw. assert (D1 : by_dir (ending MarshalIndent cfg sl (journal_at false))) by (by apply phase_dir, Hwf). assert (D2 : by_dir (ended cfg sl)) by (by apply phase_dir, Hwf).
  assert (G1 : forall f, (forall d, ending MarshalIndent cfg sl (journal_at false) d f) -> Good f db) by (intros f Hf; by eapply (ending_good MarshalIndent cfg f0 db0 a E sl token ts Hplan f db Hdb)).
  assert (G2 : forall db' f, (db' = db \/ db' = set_token None db) -> (forall d, ended cfg sl d f) -> complete cfg a f db') by (intros; by eapply ended_good).
  change (finishRestore cfg (journal_at b)) with (finishRestore cfg (journal_at false)). eapply wp_crash; [|eapply wp_use; [by eapply (f_finish MarshalIndent cfg Hclear sl Hwf errs kills db (journal_at false))|]].
  - intros w' [H|[H|H]]; (eapply killed_dead; [|exact H|]); auto; intros f Hf; right; right; eauto.
  - intros r w' [[-> Hr]|(He & Hne & Hr)].
    + assert (Hc : forall f, power_loss (w_fs w') f -> complete cfg a f (w_db w')).
      { intros f Hf. destruct Hr as [(Hk & _ & ->)|(Hk & _ & ->)]; (eapply G2; [by auto|]); intros d; by eapply kept_power_loss. }
      split_and!; [|by intros _|by left]. intros f Hf. right. right. auto.
    + split_and!; [by apply (fine_safe _ _ _ _ _ _ _ errs kills db w' D1 Hr)|by intros ->|by right].
Qed.
Lemma g_install K w : (forall p, K p -> jtmp cfg p) -> fine (going MarshalIndent cfg sl f0 E K (journal_at false)) errs kills db w -> quiet sl w ->
  wp dead (install_and_finish MarshalIndent cfg (journal_at false)) (fun r w' => safe w' /\ settles r w' /\ (r = Ok () \/ trouble cfg E K w)) w.
Proof.
  intros HK Hw Hq. assert (D1 : by_dir (ending MarshalIndent cfg sl (journal_at false))) by (by apply phase_dir, Hwf). assert (D2 : by_dir (going MarshalIndent cfg sl f0 E K (journal_at false))) by (by apply phase_dir, Hwf).
  assert (G1 : forall f, (forall d, ending MarshalIndent cfg sl (journal_at false) d f) -> Good f db) by (intros f Hf; by eapply (ending_good MarshalIndent cfg f0 db0 a E sl token ts Hplan f db Hdb)).
  assert (G2 : forall f, (forall d, going MarshalIndent cfg sl f0 E K (journal_at false) d f) -> Good f db) by (intros f Hf; by eapply (going_good MarshalIndent cfg f0 db0 a E sl token ts Hplan K f db Hdb)).
  eapply wp_let_res.
  - eapply wp_crash; [|by eapply (f_install MarshalIndent cfg Hclear sl Hwf f0 E K HK errs kills HE db (planned_apart _ _ _ Hplan) (journal_at false))].
    intros w' [H|H]; (eapply killed_dead; [|exact H|]); auto.
  - intros [] w1 [[_ H1]|(_ & Hne & _)]; [|done]. eapply wp_use; [by apply (g_finish false)|]. intros r w2 (?&?&Hr). split_and!; [done|done|]. destruct Hr as [?|?]; [by left|right; left; auto].
  - intros e w1 [[[=] _]|(Ht & _ & Hr)]. split_and!; [|by intros [=]|by right]. destruct Hr as [H|H]; (eapply fine_safe; [|exact H|]); auto.
Qed.
End forward.

(** * Recovery *)

Lemma power_loss_clean f f' : power_loss (mkFs f []) f' -> f' = f.
Proof. intros (l & [Hs _] & ->). apply sublist_nil_r in Hs as ->. done. Qed.
Lemma clean_safe w f : w_fs w = mkFs f [] -> Good f (w_db w) -> safe w.
Proof. intros Hfs HG f' Hf'. rewrite Hfs in Hf'. by apply power_loss_clean in Hf' as ->. Qed.
Lemma fine_clean R db w f : w_fs w = mkFs f [] -> Forall (allowed errs kills) (w_faults w) -> w_db w = db -> (forall d, R d f) -> fine R errs kills db w.
Proof. intros Hfs Hf Hdb HR. split_and!; [rewrite Hfs; by apply kept_clean|done|done]. Qed.

Definition same_state (w w' : world) : Prop := w_fs w' = w_fs w /\ w_db w' = w_db w /\ same_env w w' /\ Forall (allowed errs kills) (w_faults w').
Lemma s_token token w : Forall (allowed errs kills) (w_faults w) -> wp (fun w' => kills /\ same_state w w') (postgresRestoreTokenCommitted token)
  (fun r w' => same_state w w' /\ (r = Ok (bool_decide (db_token (w_db w) = Some token)) \/ errs /\ r = Err ErrToken)) w.
Proof.
  intros Hf. destruct (allowed_next errs kills w Hf) as [Ha Hr]. unfold wp, postgresRestoreTokenCommitted, bind_res, bind, on_db. rewrite next_fault_eq.
  destruct (default FRun (head (w_faults w))); cbn in *; split_and!; try done; auto.
Qed.

Lemma hex_digit_ok b : is_hex_digit b = true -> Restore.hex_digit b = true.
Proof.
  intros Hb. assert (Hall : forall b, implb (is_hex_digit b) (Restore.hex_digit b) = true) by (apply forall_byte; vm_compute; reflexivity).
  specialize (Hall b). by rewrite Hb in Hall.
Qed.
Lemma hash_ok data : ((length (HashBytes data) =? 64)%nat && forallb Restore.hex_digit (HashBytes data))%bool = true.
Proof.
  unfold HashBytes. rewrite length_hex_encode, length_sha256. cbn. apply forallb_forall. intros b Hb. apply hex_digit_ok. pose proof (hex_encode_digits (sha256 data)) as H. rewrite List.Forall_forall in H. auto.
Qed.
Lemma valid_journal sl token ts b : planned cfg db0 a sl token ts -> validateJournalEntries cfg (set_Version (journal_of cfg sl token ts b)) = true.
Proof.
  intros Hp. pose proof (planned_wf _ _ _ _ _ _ Hp) as Hwf. unfold validateJournalEntries. cbn. rewrite eqb_reflx. cbn. apply forallb_forall. intros e He. apply list_elem_of_In, list_elem_of_fmap in He as (s & -> & Hs). cbn.
  rewrite hash_ok, (slots_db _ _ Hwf s Hs), eqb_reflx. destruct (slots_staged _ _ Hwf s Hs) as [x ->]. rewrite !bool_decide_eq_true_2; [| |rewrite <- (slots_targets _ _ Hwf); by apply list_elem_of_fmap_2]; [|done].
  cbn. rewrite !andb_true_r. apply HasPrefix_spec. exists x. by rewrite <- app_assoc.
Qed.
Lemma slot_scrap sl token ts s : planned cfg db0 a sl token ts -> s ∈ sl -> forall y, scrap cfg (sibling (s_staged s) y) /\ scrap cfg (s_staged s).
Proof.
  intros Hp Hs y. pose proof (planned_wf _ _ _ _ _ _ Hp) as Hwf. destruct (slots_staged _ _ Hwf s Hs) as [x ->].
  assert (s_path s ∈ targets cfg) by (rewrite <- (slots_targets _ _ Hwf); by apply list_elem_of_fmap_2).
  split; left; [exists (s_path s), (x ++ y)|by exists (s_path s), x]. split; [done|]. unfold sibling. cbn. by rewrite <- !app_assoc.
Qed.

Definition free_tmp (f : gmap path bytes) (p : path) : Prop := jtmp cfg p /\ f !! p = None.
(** What [--recover] returns when a journal was found. *)
Definition recovered (w0 : world) (f : gmap path bytes) (r : res restore_err unit) (w' : world) : Prop :=
  safe w' /\ (r = Ok () -> forall f', power_loss (w_fs w') f' -> f' !! J = None) /\ (r = Ok () \/ trouble cfg E (free_tmp f) w0).

Lemma live_discard sl token ts JS db w : planned cfg db0 a sl token ts -> fine (live cfg f0 JS) errs kills db w ->
  wp (killed (live cfg f0 JS) kills db) (discardStagedEntries (map entry_of sl)) (fun _ w' => fine (live cfg f0 JS) errs kills db w') w.
Proof.
  intros Hp Hw. eapply wp_use; [apply (s_discard _ (live_dir cfg f0 JS) errs kills db (scrap cfg))|]; [|exact Hw| |by intros u w' [? _]].
  - intros p f Hs. apply (live_scrap cfg Hclear); [done|]. intros q ?. by apply lookup_delete_ne.
  - intros e (s & -> & Hs)%list_elem_of_fmap. cbn. pose proof (slot_scrap sl token ts s Hp Hs) as H. split; [by apply (H [])|]. intros _. split_and!; apply H.
Qed.
Lemma g_rollback sl token ts w f : planned cfg db0 a sl token ts -> w_fs w = mkFs f [] -> Forall (allowed errs kills) (w_faults w) -> w_db w = db0 ->
  c_postgres cfg = true -> f !! J = Some (text MarshalIndent (journal_of cfg sl token ts false)) -> untouched cfg f0 f ->
  wp dead (let! _ := discardStagedEntries (map entry_of sl) in Remove cfg) (fun r w' => safe w' /\ (r = Ok () -> forall f', power_loss (w_fs w') f' -> f' !! J = None) /\ (r = Ok () \/ errs)) w.
Proof.
  intros Hp Hfs Hf Hdb Hpg HJ Hu. set (JS := fun x => x = None \/ x = Some (text MarshalIndent (journal_of cfg sl token ts false))).
  assert (HG : forall f', (forall d, live cfg f0 JS d f') -> Good f' db0).
  { intros f' [[Hn|Hn] Hu']%live_all; [left; by split_and!|]. right. left. exists sl, token, ts, false. split_and!; [done|done|]. left. split; [done|]. by split_and!. }
  assert (Hw : fine (live cfg f0 JS) errs kills db0 w) by (eapply fine_clean; [done|done|done|]; apply live_all; split; [by right|done]).
  eapply wp_let; [eapply wp_crash; [|by eapply live_discard]|]; [intros w' H; eapply killed_dead; [apply live_dir|exact H|done]|]. intros u w1 H1.
  eapply wp_crash; [|eapply wp_use; [apply (s_Remove _ (live_dir cfg f0 JS) errs kills db0 cfg)|]]; [intros w' H; eapply killed_dead; [apply live_dir|exact H|done]| |exact H1|].
  - intros f' [_ H2]. split; [intros _; rewrite lookup_delete_eq; by left|]. intros p Hin Hd. rewrite lookup_delete_ne; [auto|]. intros <-.
    pose proof (bases_nodup cfg Hclear) as Hn. unfold live_paths in Hin. rewrite Hpg, app_nil_r in Hin. apply NoDup_app in Hn as (_ & Hn & _). by eapply (Hn J); [|left].
  - intros r w2 (H2 & _ & Hr). split_and!; [eapply fine_safe; [apply live_dir|exact H2|done]| |destruct Hr as [[-> _]|[? _]]; auto].
    intros -> f' Hf'. destruct Hr as [(_ & Hn & Hset)|[_ ?]]; [|done]. assert (Hk : kept (live cfg f0 (fun x => x = None)) (w_fs w2)).
    { eapply kept_strengthen; [apply live_dir|apply H2| |].
      - apply live_all. split; [done|]. intros p Hin. by apply (ok_cur _ _ _ _ (p_dir p) w2 H2).
      - intros d. destruct (decide (p_dir J = d)) as [<- |Hne]; [by left|right]. intros g [_ Hg]. by split. }
    pose proof (kept_power_loss _ (live_dir cfg f0 _) _ _ (p_dir J) Hk Hf') as [HJ' _]. by apply HJ'.
Qed.

Lemma text_version sl token ts b : planned cfg db0 a sl token ts -> Unmarshal (text MarshalIndent (journal_of cfg sl token ts b)) = Some (set_Version (journal_of cfg sl token ts b)).
Proof. intros Hp. apply Hcodec. exact (planned_ascii _ _ _ _ _ _ Hp). Qed.

Lemma g_forth sl token ts b w f : planned cfg db0 a sl token ts -> w_fs w = mkFs f [] -> Forall (allowed errs kills) (w_faults w) ->
  f !! J = Some (text MarshalIndent (journal_of cfg sl token ts b)) -> forth cfg f0 a E sl token b f (w_db w) ->
  wp dead (install_and_finish MarshalIndent cfg (journal_at sl token ts 1 b)) (fun r w' => safe w' /\ settles r w' /\ (r = Ok () \/ trouble cfg E (free_tmp f) w)) w.
Proof.
  intros Hp Hfs Hf HJ [Hc Hv]. destruct b.
  - unfold install_and_finish. apply wp_bind_res, wp_ret. eapply wp_use; [apply (g_finish sl token ts Hp _ Hc 1)|].
    + eapply fine_clean; [done|done|done|]. apply phase_all. split_and!; [by right; left|done|done].
    + intros r w' (?&?&Hr). split_and!; [done|done|]. destruct Hr; [by left|right; left; auto].
  - eapply (g_install sl token ts Hp _ Hc 1); [by intros p [? _]| |].
    + eapply fine_clean; [done|done|done|]. apply phase_all. split_and!; [done|done|by intros p [_ ?]].
    + intros s Hs. rewrite Hfs. apply settled_clean.
Qed.

Lemma g_recover w f : w_fs w = mkFs f [] -> Forall (allowed errs kills) (w_faults w) -> pending_restore MarshalIndent cfg f0 db0 a E f (w_db w) ->
  wp dead (runAdminRestoreRecover MarshalIndent Unmarshal cfg) (recovered w f) w.
Proof.
  intros Hfs Hf Hpend. assert (Hsafe : forall w', w_fs w' = w_fs w -> w_db w' = w_db w -> safe w') by (intros w' E1 E2; eapply clean_safe; [by rewrite E1|rewrite E2; by right; left]).
  destruct Hpend as (sl & token & ts & b & Hp & HJ & Hcase). pose proof (text_version sl token ts b Hp) as Htext.
  assert (Hstop : forall e w', trouble cfg E (free_tmp f) w -> w_fs w' = w_fs w -> w_db w' = w_db w -> recovered w f (Err e) w') by (intros e w' Ht E1 E2; split_and!; [auto|by intros [=]|by right]).
  unfold runAdminRestoreRecover, Read. apply wp_bind_res, wp_bind, wp_fread. unfold cur. rewrite Hfs. change (f_cur (mkFs f [])) with f. rewrite HJ.
  destruct (w_unreadable w J) eqn:Eu; apply wp_ret; [apply Hstop; [right; left; eauto|done|done]|]. rewrite Htext. cbn [j_Version set_Version]. rewrite Z.eqb_refl. cbn [negb]. rewrite (valid_journal sl token ts b Hp). cbn [negb j_Postgres set_Version journal_of].
  apply wp_let_res with (P := fun r w' => same_state w w' /\ (r = Ok (if c_postgres cfg then bool_decide (db_token (w_db w) = Some token) else true) \/ errs /\ r = Err ErrToken)).
  - destruct (c_postgres cfg); [|apply wp_ret; split; [by split_and!|by left]]. eapply wp_crash; [|by apply s_token]. intros w' (Hk & E1 & E2 & _). split; auto.
  - intros fwd w1 [(E1 & E2 & [U1 N1] & Hf1) Hr]. assert (fwd = if c_postgres cfg then bool_decide (db_token (w_db w) = Some token) else true) as -> by (destruct Hr as [[=]|[_ [=]]]; done). clear Hr.
    assert (Htr : trouble cfg E (free_tmp f) w1 -> trouble cfg E (free_tmp f) w) by (unfold trouble; rewrite U1, N1; done).
    destruct Hcase as [[-> (Hpg & Hu & Hdb)]|Hforth].
    + rewrite Hpg, bool_decide_eq_false_2 by (rewrite Hdb; by apply (planned_token _ _ _ _ _ _ Hp)). cbn [negb]. eapply wp_use; [apply (g_rollback sl token ts w1 f); try done; [by rewrite E1|by rewrite E2]|].
      intros r w2 (?&?&Hr). split_and!; [done|done|]. destruct Hr; [by left|right; left; auto].
    + assert ((if c_postgres cfg then bool_decide (db_token (w_db w) = Some token) else true) = true) as ->.
      { destruct Hforth as [Hc _]. destruct (c_postgres cfg) eqn:Hpg; [|done]. rewrite (Hc Hpg). by apply bool_decide_eq_true_2. }
      cbn [negb]. eapply wp_use; [apply (g_forth sl token ts b w1 f Hp); [by rewrite E1|done|done|by rewrite E2]|]. intros r w2 (Hs & Hset & Hr). split_and!; [done| |destruct Hr; auto].
      intros -> f' Hf'. by apply (Hset eq_refl f' Hf').
  - intros e w1 [(E1 & E2 & _) [[=]|[He _]]]. apply Hstop; [left; auto|done|done].
Qed.
End commands.
