(* ===== verification/RestoreCommit.v ===== *)
(** `admin restore` up to its commit point: staging, the journal, the load of the data. *)
From Stdlib Require Import ZArith Lia.
From stdpp Require Import base numbers tactics sets list gmap.
From S2P Require Import Prelude GoStr Sha256 KeyFS DirFS Restore RestorePaths RestoreSteps RestoreInstall RestoreRun RestoreGood RestoreSafe.
Local Open Scope go_scope.

Lemma fine_mono (R R' : bytes -> gmap path bytes -> Prop) errs kills db w : (forall d f, R d f -> R' d f) -> fine R errs kills db w -> fine R' errs kills db w.
Proof. intros HR (Hk & Hf & Hdb). split_and!; [by eapply kept_mono|done|done]. Qed.
Lemma wp_draw (R : bytes -> gmap path bytes -> Prop) errs kills db C (Q : bytes -> world -> Prop) w : fine R errs kills db w ->
  (forall n w', fine R errs kills db w' -> w_fs w' = w_fs w -> w_unreadable w' = w_unreadable w -> w_nonces w' ⊆ w_nonces w -> n ∈ [] :: w_nonces w -> Q n w') -> wp C draw_nonce Q w.
Proof.
  intros (Hk & Hf & Hdb) HQ. unfold wp, draw_nonce. apply HQ; [by split_and!|done|done| |]; cbn; destruct (w_nonces w); cbn; [set_solver..|].
  right. by left.
Qed.

Section commit.
Context (MarshalIndent : Journal -> bytes) (cfg : config) (Hclear : clear_names cfg = true).
Context (f0 : gmap path bytes) (db0 : keydb) (a : archive) (E : Prop) (errs kills : Prop) (HE : errs -> E) (Hfits : fits cfg f0 a).
Local Abbreviation J := (c_journal cfg).
Local Abbreviation Good := (Good MarshalIndent cfg f0 db0 a E).
Local Abbreviation safe := (safe MarshalIndent cfg f0 db0 a E).
Local Abbreviation calm_live := (live cfg f0 (fun x => x = None)).

(** * The journal is written *)

Section written.
Context (sl : list slot) (token ts : bytes) (Hplan : planned cfg db0 a sl token ts).
Local Abbreviation Hwf := (planned_wf _ _ _ _ _ _ Hplan).
Local Abbreviation j := (journal_of cfg sl token ts false).
Definition maybe (x : option bytes) : Prop := x = None \/ x = Some (text MarshalIndent j).
Definition sure (x : option bytes) : Prop := x = Some (text MarshalIndent j).
Local Abbreviation prep := (prepared cfg f0 E sl).

Lemma prep_dir JS : by_dir (prep JS).
Proof. by apply phase_dir, Hwf. Qed.
Lemma prep_safe JS w : (forall x, JS x -> maybe x) -> fine (prep JS) errs kills db0 w -> safe w.
Proof. intros HJS H. eapply fine_safe; [apply prep_dir|exact H|]. intros f. eapply prepared_good; [exact Hplan|done]. Qed.
Lemma prep_killed JS w : (forall x, JS x -> maybe x) -> killed (prep JS) kills db0 w -> safe w.
Proof. intros HJS H. eapply killed_safe; [apply prep_dir|exact H|]. intros f. eapply prepared_good; [exact Hplan|done]. Qed.
Lemma live_safe w : fine calm_live errs kills db0 w -> safe w.
Proof. intros H. eapply fine_safe; [apply live_dir|exact H|apply live_before]. Qed.
Lemma live_killed w : killed calm_live kills db0 w -> safe w.
Proof. intros H. eapply killed_safe; [apply live_dir|exact H|apply live_before]. Qed.

Lemma prep_jtmp p f f' : jtmp cfg p -> (forall q, q <> p -> f' !! q = f !! q) -> prep maybe (p_dir p) f -> prep maybe (p_dir p) f'.
Proof.
  intros Hp Hf He. eapply (phase_journal cfg Hclear sl Hwf); [|..|exact He]; [intros q _ Hq'; apply Hf; by intros ->|]. intros Hd. rewrite Hf by (intros Ejp; by eapply jtmp_ne). by apply He.
Qed.
Lemma live_prepared w : fine calm_live errs kills db0 w -> holds w sl -> forall d, prep maybe d (cur w).
Proof.
  intros Hw [_ Hh]. assert (Hlive : forall d, calm_live d (cur w)) by (intros d; exact (ok_cur _ _ _ _ d w Hw)). apply live_all in Hlive as [HJ Hu].
  apply phase_all. split_and!; [by left| |done]. intros s Hs. split_and!; [left; auto| |].
  - apply Hu, elem_of_app. left. rewrite <- (slots_targets _ _ Hwf). by apply list_elem_of_fmap_2.
  - unfold wal_of. pose proof (slots_db _ _ Hwf s Hs) as Hd. destruct (s_db s); [|done]. symmetry in Hd. apply andb_prop in Hd as [Hpg%negb_true_iff Hd%bool_decide_eq_true].
    apply Hu, elem_of_app. right. rewrite Hpg, Hd. by left.
Qed.
Lemma g_Write w : fine calm_live errs kills db0 w -> holds w sl ->
  wp safe (Write MarshalIndent cfg j) (fun r w' => (r = Ok () /\ fine (prep sure) errs kills db0 w' /\ quiet sl w') \/
    r <> Ok () /\ (fine calm_live errs kills db0 w' \/ errs /\ fine (prep maybe) errs kills db0 w')) w.
Proof.
  intros Hw Hh. eapply wp_crash; [|eapply wp_use; [apply (s_Write calm_live (prep maybe))|]].
  - intros w' [H|H]; [by apply live_killed|by eapply prep_killed].
  - apply live_dir.
  - apply prep_dir.
  - intros d. destruct (slot_dir_dec sl d) as [(s & Hs & Hd)|Hn]; [left|right].
    + exists (entry_of s). cbn. split; [by apply list_elem_of_fmap_2|]. by rewrite (staged_dir cfg sl Hwf s Hs).
    + intros f (HJ & _). split_and!; [intros Hd; left; auto|intros s Hs Hd; by destruct (Hn s Hs)|done].
  - intros p f Hp. apply prep_jtmp; [done|]. intros q Hq. by apply lookup_delete_ne.
  - intros p data f Hp. apply prep_jtmp; [done|]. intros q Hq. by apply lookup_insert_ne.
  - intros f He. eapply (phase_journal cfg Hclear sl Hwf); [|..|exact He]; [intros p Hp _; by apply lookup_insert_ne|]. intros _. rewrite lookup_insert_eq. by right.
  - exact Hw.
  - by apply live_prepared.
  - intros r w' (_ & [(-> & H2 & HJ & HsJ & Hse)|(Hne & Hr)]); [left|right; split; [done|]; destruct Hr as [[? [?|?]]|[_ ?]]; auto].
    pose proof (proj1 (entry_dirs cfg sl Hwf j eq_refl (w_fs w')) Hse) as Hq. split_and!; [done| |done]. destruct H2 as (Hk & Hf & Hdb). split_and!; [|done|done]. eapply kept_strengthen; [apply prep_dir|exact Hk| |].
    + apply phase_all. split_and!; [done| |done]. intros s Hs. by apply (kept_cur _ (p_dir (s_path s)) _ Hk).
    + intros d. destruct (decide (p_dir J = d)) as [<- |Hne]; [by left|right]. intros f (_ & Hs & _). by split_and!.
Qed.

(** Once an operation has failed the staged files may go. *)
Lemma prep_discard JS es w : E -> (forall e, e ∈ es -> forall y, scrap cfg (sibling (e_Staged e) y) /\ scrap cfg (e_Staged e)) -> fine (prep JS) errs kills db0 w ->
  wp (killed (prep JS) kills db0) (discardStagedEntries es) (fun _ w' => fine (prep JS) errs kills db0 w') w.
Proof.
  intros HEt Hes Hw. eapply wp_use; [apply (s_discard _ (prep_dir JS) errs kills db0 (scrap cfg))|]; [|exact Hw| |by intros u w' [? _]].
  - intros p f Hp (H1 & H2 & _). split_and!; [|intros s Hs Hd|done].
    + intros Hd. rewrite lookup_delete_ne; [auto|]. by eapply scrap_not_J.
    + destruct (H2 s Hs Hd) as (Hst & Hlv & Hwl).
      assert (Hlive : forall q, q ∈ live_paths cfg -> delete p f !! q = f !! q) by (intros q Hq; apply lookup_delete_ne; intros ->; by eapply scrap_not_live).
      split_and!.
      * destruct (decide (p = s_staged s)) as [-> |Hne]; [right; split; [done|apply lookup_delete_eq]|]. by rewrite lookup_delete_ne.
      * rewrite Hlive; [done|]. apply elem_of_app. left. rewrite <- (slots_targets _ _ Hwf). by apply list_elem_of_fmap_2.
      * rewrite <- Hwl. unfold wal_of. pose proof (slots_db _ _ Hwf s Hs) as Hdb. destruct (s_db s); [|done]. symmetry in Hdb. apply andb_prop in Hdb as [Hpg%negb_true_iff Hdb%bool_decide_eq_true].
        apply Hlive, elem_of_app. right. rewrite Hpg, Hdb. by left.
  - intros e He. pose proof (Hes e He) as H. split; [by apply (H [])|]. intros _. split_and!; apply H.
Qed.

(** * From the commit point on *)

Definition outcome (r : res restore_err unit) (w : world) : Prop := safe w /\ settles cfg a r w.
Lemma failed_outcome e w : safe w -> outcome (Err e) w.
Proof. intros H. split; [done|]. by intros [=]. Qed.

Lemma prep_going d f : prep sure d f -> going MarshalIndent cfg sl f0 E (fun _ => False) j d f.
Proof. intros (H1 & H2 & _). split_and!; [done| |done]. intros s Hs Hd. by apply pre_mid, H2. Qed.
Lemma loaded_good f : c_postgres cfg = true -> (forall d, prep sure d f) -> Good f (set_token (Some token) (a_db a)).
Proof. intros Hpg Hf. eapply going_good; [exact Hplan|by intros _|]. intros d. by apply prep_going. Qed.
Lemma prep_install db w : committed cfg a token db -> fine (prep sure) errs kills db w -> quiet sl w -> wp safe (install_and_finish MarshalIndent cfg j) outcome w.
Proof.
  intros Hc Hw Hq. apply wp_crash with (C := dead MarshalIndent cfg f0 db0 a E kills); [by intros w' [_ H]|]. eapply wp_use; [eapply (g_install MarshalIndent cfg Hclear f0 db0 a E errs kills HE Hfits sl token ts Hplan db Hc 0 (fun _ => False)); [done| |done]|].
  - eapply fine_mono; [apply prep_going|exact Hw].
  - intros r w' (? & ? & _). by split.
Qed.
Local Abbreviation loaded_db := (set_token (Some token) (a_db a)).
Lemma prep_loaded w : c_postgres cfg = true -> fine (prep sure) errs kills loaded_db w -> safe w.
Proof. intros Hpg H. eapply fine_safe; [apply prep_dir|exact H|]. intros f. by apply loaded_good. Qed.
Lemma prep_loaded_killed w : c_postgres cfg = true -> killed (prep sure) kills loaded_db w -> safe w.
Proof. intros Hpg H. eapply killed_safe; [apply prep_dir|exact H|]. intros f. by apply loaded_good. Qed.
Lemma sure_maybe x : sure x -> maybe x.
Proof. by right. Qed.

Lemma g_load w : c_postgres cfg = true -> fine (prep sure) errs kills db0 w ->
  wp safe (loadPostgresRestore a token) (fun r w' => w_fs w' = w_fs w /\ match r with
    | (true, None) => fine (prep sure) errs kills loaded_db w'
    | (true, Some _) => fine (prep sure) errs kills db0 w' \/ fine (prep sure) errs kills loaded_db w'
    | (false, _) => errs /\ fine (prep sure) errs kills db0 w' end) w.
Proof.
  intros Hpg Hw. unfold loadPostgresRestore, load_transaction. eapply wp_let.
  { eapply wp_crash; [|by apply (wp_on_db (prep sure) errs kills db0 (fun _ => loaded_db))]. intros w' [H|H]; [eapply prep_killed; [apply sure_maybe|done]|by apply prep_loaded_killed]. }
  intros [[]|e] w1 (Hfs & _ & Hr); [destruct Hr as [[_ ?]|(_ & [=] & _)]; apply wp_ret; by split|].
  destruct Hr as [[[=] _]|(He & _ & Hr)]. assert (Hf1 : Forall (allowed errs kills) (w_faults w1)) by (destruct Hr as [(_&?&_)|(_&?&_)]; done).
  assert (Hsame : forall db w2, fine (prep sure) errs kills db w1 -> same_state errs kills w1 w2 -> fine (prep sure) errs kills db w2).
  { intros db w2 (Hk & _ & Hdb) (E1 & E2 & _ & Hf2). split_and!; [by rewrite E1|done|by rewrite E2]. }
  eapply wp_let; [eapply wp_crash; [|by apply s_token]|].
  - intros w2 [_ Hs]. destruct Hr as [H|H]; [eapply prep_safe; [apply sure_maybe|by eapply Hsame]|apply prep_loaded; [done|by eapply Hsame]].
  - intros r w2 [Hs Hr2]. apply wp_ret. split; [destruct Hs as [-> _]; done|]. destruct Hr2 as [-> |[_ ->]]; [|destruct Hr as [H|H]; [left|right]; by eapply Hsame].
    destruct Hr as [H|H].
    + assert (w_db w1 = db0) as -> by apply H. rewrite bool_decide_eq_false_2 by (by apply (planned_token _ _ _ _ _ _ Hplan)). split; [done|by eapply Hsame].
    + assert (w_db w1 = loaded_db) as -> by apply H. rewrite bool_decide_eq_true_2 by done. by eapply Hsame.
Qed.
Lemma plan_scrap e : e ∈ map entry_of sl -> forall y, scrap cfg (sibling (e_Staged e) y) /\ scrap cfg (e_Staged e).
Proof. intros (s & -> & Hs)%list_elem_of_fmap. by eapply slot_scrap. Qed.

Lemma g_unload err w : errs -> fine (prep sure) errs kills db0 w -> wp safe (let! rr := Remove cfg in let! _ := discardStagedEntries (map entry_of sl) in ret (Err err)) outcome w.
Proof.
  intros He Hw. assert (Hw' : fine (prep maybe) errs kills db0 w) by (eapply fine_mono; [|exact Hw]; intros d f (H1 & H2 & _); split_and!; [|done|done]; intros Hd; right; by apply H1).
  eapply wp_let; [eapply wp_crash; [|apply (s_Remove _ (prep_dir maybe) errs kills db0 cfg); [|exact Hw']]|].
  - intros w' H. by eapply prep_killed.
  - intros f Hf. eapply (phase_journal cfg Hclear sl Hwf); [|..|exact Hf]; [intros p Hp _; by apply lookup_delete_ne|]. intros _. rewrite lookup_delete_eq. by left.
  - intros r w1 (H1 & _). eapply wp_let; [eapply wp_crash; [|eapply prep_discard]|]; [intros w' H; by eapply prep_killed|auto|apply plan_scrap|exact H1|].
    intros u w2 H2. apply wp_ret, failed_outcome. by eapply prep_safe.
Qed.

(** PostgreSQL, after the files are staged and the token is drawn. *)
Lemma g_postgres w : c_postgres cfg = true -> fine calm_live errs kills db0 w -> holds w sl ->
  wp safe (let! r := Write MarshalIndent cfg j in
           match r with
           | Err e => let! _ := discardStagedEntries (map entry_of sl) in ret (Err e)
           | Ok _ => let! loaded := loadPostgresRestore a token in
               match loaded with
               | (false, err) => let! rr := Remove cfg in let! _ := discardStagedEntries (map entry_of sl) in ret (Err (default ErrLoad err))
               | (true, Some err) => ret (Err err)
               | (true, None) => install_and_finish MarshalIndent cfg j
               end
           end) outcome w.
Proof.
  intros Hpg Hw Hh. eapply wp_let; [by apply g_Write|]. intros [[]|e] w1 Hr.
  - destruct Hr as [(_ & H1 & Hq)|[? _]]; [|done]. eapply wp_let; [by apply g_load|]. intros [[] [err|]] w2 [Hfs H2].
    + apply wp_ret, failed_outcome. destruct H2; [eapply prep_safe; [apply sure_maybe|done]|by apply prep_loaded].
    + eapply prep_install; [by intros _|done|]. intros s Hs. rewrite Hfs. auto.
    + destruct H2 as [He H2]. by apply g_unload.
    + destruct H2 as [He H2]. by apply g_unload.
  - destruct Hr as [[[=] _]|(_ & [H1|[He H1]])].
    + eapply wp_let; [eapply wp_crash; [|eapply (live_discard cfg Hclear f0 db0 a errs kills sl token ts)]|]; [by apply live_killed|done|exact H1|]. intros u w2 H2. by apply wp_ret, failed_outcome, live_safe.
    + eapply wp_let; [eapply wp_crash; [|eapply prep_discard]|]; [intros w' H; by eapply prep_killed|auto|apply plan_scrap|exact H1|]. intros u w2 H2. apply wp_ret, failed_outcome. by eapply prep_safe.
Qed.
End written.

(** * What was staged is a plan *)

Context (Hascii : forallb ascii_path (targets cfg) = true).
Definition usable (nonces : list bytes) : Prop := forall n, n ∈ [] :: nonces -> ascii n = true /\ db_token db0 <> Some n.
Definition staged_from (nonces : list bytes) (s : slot) : Prop := exists n, n ∈ nonces /\ s_staged s = sibling (s_path s) (staging ++ n).

Lemma ascii_app x y : ascii (x ++ y) = ascii x && ascii y.
Proof. apply forallb_app. Qed.
Lemma ascii_hash data : ascii (HashBytes data) = true.
Proof.
  apply forallb_forall. intros b Hb. pose proof (hex_encode_digits (sha256 data)) as H. rewrite List.Forall_forall in H. specialize (H b Hb). unfold is_hex_digit in H. apply Z.ltb_lt.
  apply orb_true_iff in H as [[_ H]%andb_prop|[_ H]%andb_prop]; apply Z.leb_le in H; lia.
Qed.
Lemma ascii_entry nonces s : usable nonces -> s_path s ∈ targets cfg -> staged_from ([] :: nonces) s ->
  ascii_path (e_Path (entry_of s)) && ascii_path (e_Staged (entry_of s)) && ascii (e_SHA256 (entry_of s)) = true.
Proof.
  intros Hu Ht (n & Hn & Hs). rewrite forallb_forall in Hascii. specialize (Hascii _ (proj1 (list_elem_of_In _ _) Ht)). cbn. rewrite ascii_hash, Hascii, Hs. unfold ascii_path in *. cbn [sibling p_dir p_name].
  apply andb_prop in Hascii as [-> Hn1]. rewrite !ascii_app, Hn1. destruct (Hu n Hn) as [-> _]. done.
Qed.
Lemma planned_slots nonces sl token ts : usable nonces -> token ∈ [] :: nonces -> ts ∈ [] :: nonces -> map (fun s => (s_path s, s_data s)) sl = files cfg a -> NoDup (map s_staged sl) ->
  (forall s, s ∈ sl -> staged_from ([] :: nonces) s /\ s_db s = negb (c_postgres cfg) && bool_decide (s_path s = c_db cfg)) -> planned cfg db0 a sl token ts.
Proof.
  intros Hu Htok Hts Hfiles Hnd Hsl. assert (Htg : map s_path sl = targets cfg) by (rewrite <- (files_targets cfg f0 a Hfits), <- Hfiles, map_map; done).
  split; [split; [done|done| |]|done| |].
  - intros s Hs. destruct (Hsl s Hs) as [(n & _ & ?) _]. eauto.
  - intros s Hs. by apply Hsl.
  - unfold ascii_journal. cbn [journal_of j_Token j_Timestamp j_Entries]. destruct (Hu token Htok) as [-> _], (Hu ts Hts) as [-> _]. apply forallb_forall. intros e (s & <- & Hs)%in_map_iff.
    apply list_elem_of_In in Hs. apply (ascii_entry nonces); [done| |by apply Hsl]. rewrite <- Htg. by apply list_elem_of_fmap_2.
  - intros _. by apply Hu.
Qed.
Lemma key_not_db p : c_postgres cfg = false -> p ∈ c_keys cfg -> p <> c_db cfg.
Proof.
  intros Hpg Hp ->. pose proof (bases_nodup cfg Hclear) as Hn. unfold bases, targets in Hn. rewrite Hpg in Hn. apply NoDup_app in Hn as (Hn & _). apply NoDup_app in Hn as (_ & Hn & _). eapply Hn; [exact Hp|by left].
Qed.
Lemma key_db_flag p : p ∈ c_keys cfg -> negb (c_postgres cfg) && bool_decide (p = c_db cfg) = false.
Proof. intros Hp. destruct (c_postgres cfg) eqn:Hpg; [done|]. cbn. apply bool_decide_eq_false. by apply key_not_db. Qed.

(** * SQLite *)

Section sqlite.
Context (Hpg : c_postgres cfg = false) (keys : list slot) (ts : bytes) (nonces : list bytes) (Hu : usable nonces) (Hts : ts ∈ [] :: nonces).
Context (Hkeys : map (fun s => (s_path s, s_data s)) keys = a_keys a) (Hfrom : Forall (staged_from ([] :: nonces)) keys) (Hnodb : Forall (fun s => s_db s = false) keys).
Local Abbreviation stagedDB := (sibling (c_db cfg) (staging ++ ts)).
Definition dbslot : slot := mkSlot (c_db cfg) stagedDB (a_dbfile a) true.
Local Abbreviation sl := (keys ++ [dbslot]).

Lemma key_path s : s ∈ keys -> s_path s ∈ c_keys cfg.
Proof. intros Hs. rewrite <- (fits_keys _ _ _ Hfits), <- Hkeys, map_map. by apply list_elem_of_fmap_2. Qed.
Lemma key_apart s y : s ∈ keys -> s_staged s <> sibling (c_db cfg) (staging ++ y).
Proof.
  intros Hs Heq. rewrite Forall_forall in Hfrom. destruct (Hfrom s Hs) as (n & _ & Hst). rewrite Hst in Heq. pose proof (key_path s Hs) as Hk.
  assert (s_path s ∈ bases cfg) by (apply target_base, elem_of_app; by left). assert (staging ∈ sufs) by (by left).
  apply (role_inj cfg Hclear) in Heq as (Heq & _); [by eapply key_not_db|done|by apply target_base, db_target|done|done].
Qed.
Lemma planned_sqlite : NoDup (map s_staged keys) -> planned cfg db0 a sl [] ts.
Proof.
  intros Hnd. apply (planned_slots nonces); [done|by left|done| | |].
  - rewrite map_app, Hkeys. unfold files. by rewrite Hpg.
  - rewrite map_app. apply NoDup_app. split_and!; [done| |apply NoDup_singleton]. intros p (s & -> & Hs)%list_elem_of_fmap E1%list_elem_of_singleton. exact (key_apart s ts Hs E1).
  - rewrite Forall_forall in Hfrom, Hnodb. intros s [Hs| ->%list_elem_of_singleton]%elem_of_app; [split; [auto|]|split; [exists ts; by split|]].
    + rewrite (Hnodb s Hs). symmetry. by apply key_db_flag, key_path.
    + rewrite Hpg. cbn. by rewrite bool_decide_eq_true_2.
Qed.
Lemma db_scrap y : scrap cfg (sibling stagedDB y) /\ scrap cfg stagedDB.
Proof.
  split; left; [exists (c_db cfg), (ts ++ y)|by exists (c_db cfg), ts; split; [apply db_target|]]. split; [by apply db_target|]. unfold sibling. cbn. by rewrite <- !app_assoc.
Qed.
Lemma live_closed_del p f : scrap cfg p -> calm_live (p_dir p) f -> calm_live (p_dir p) (delete p f).
Proof. intros Hp. apply (live_scrap cfg Hclear); [done|]. intros q ?. by apply lookup_delete_ne. Qed.
Lemma live_closed_put p data f : scrap cfg p -> calm_live (p_dir p) f -> calm_live (p_dir p) (<[p := data]> f).
Proof. intros Hp. apply (live_scrap cfg Hclear); [done|]. intros q ?. by apply lookup_insert_ne. Qed.
Lemma g_build w : fine calm_live errs kills db0 w -> holds w keys ->
  wp (killed calm_live kills db0) (buildStagedSQLiteRestore stagedDB a) (fun r w' => fine calm_live errs kills db0 w' /\ (r = Ok () -> holds w' sl)) w.
Proof.
  intros Hw [Hnd Hh]. assert (Hb : forall q, q = stagedDB \/ beside stagedDB q -> exists y, q = sibling (c_db cfg) (staging ++ y)).
  { intros q [-> |[-> |[-> | ->]]]; [by exists ts|..]; eexists (ts ++ _); unfold sibling; cbn; by rewrite <- !app_assoc. }
  eapply wp_use; [apply (s_build calm_live (live_dir cfg f0 _) errs kills db0 stagedDB)|]; [|intros data f; apply live_closed_put, (db_scrap [])|exact Hw|].
  - intros q f [y ->]%Hb. apply live_closed_del. left. exists (c_db cfg), y. split; [by apply db_target|done].
  - intros r w1 [(H1 & _ & _ & F1) Hc]. split; [done|]. intros Hr. specialize (Hc Hr). split.
    + pose proof (slots_nodup _ _ (planned_wf _ _ _ _ _ _ (planned_sqlite Hnd))) as H. done.
    + intros s [Hs| ->%list_elem_of_singleton]%elem_of_app; [|done]. rewrite F1; [auto|]. intros [y Hy]%Hb. by eapply key_apart.
Qed.

Lemma sqlite_scrap h e : e ∈ map entry_of keys ++ [mkEntry (c_db cfg) stagedDB h true] -> NoDup (map s_staged keys) -> forall y, scrap cfg (sibling (e_Staged e) y) /\ scrap cfg (e_Staged e).
Proof.
  intros [He| ->%list_elem_of_singleton]%elem_of_app Hnd; [|apply db_scrap]. apply (plan_scrap sl [] ts (planned_sqlite Hnd)). rewrite map_app. apply elem_of_app. by left.
Qed.
Lemma g_sqlite w : fine calm_live errs kills db0 w -> holds w keys -> wp safe (restoreSQLite MarshalIndent cfg a (map entry_of keys) ts) outcome w.
Proof.
  intros Hw Hh. pose proof (planned_sqlite (proj1 Hh)) as Hplan. unfold restoreSQLite. set (j := journal_of cfg sl [] ts false).
  apply wp_let with (P := fun r w' => match r with Ok j' => j' = j /\ fine (prepared cfg f0 E sl (sure sl [] ts)) errs kills db0 w' /\ quiet sl w'
    | Err _ => fine calm_live errs kills db0 w' \/ errs /\ fine (prepared cfg f0 E sl (maybe sl [] ts)) errs kills db0 w' end).
  - eapply wp_let_res; [eapply wp_crash; [apply live_killed|by apply g_build]| |by intros e w1 [? _]; left]. intros [] w1 [H1 Hsl]. specialize (Hsl eq_refl).
    assert (Hdb : cur w1 !! stagedDB = Some (a_dbfile a)) by (destruct Hsl as [_ Hsl]; apply (Hsl dbslot), elem_of_app; right; by left).
    apply wp_bind_res, wp_io, wp_fread. rewrite Hdb. destruct (w_unreadable w1 stagedDB); [by left|].
    assert (Ej : mkJournal 0 false [] ts (map entry_of keys ++ [mkEntry (c_db cfg) stagedDB (HashBytes (a_dbfile a)) true]) false = j) by (unfold j, journal_of; by rewrite Hpg, map_app).
    rewrite Ej. eapply wp_let_res; [by apply (g_Write sl [] ts Hplan)| |].
    + intros [] w2 [(_ & H2 & Hq)|[? _]]; [|done]. by apply wp_ret.
    + intros e w2 [[[=] _]|(_ & Hr)]. done.
  - intros [j'|e] w1 Hr.
    + destruct Hr as (-> & H1 & Hq). eapply (prep_install sl [] ts Hplan db0); [|exact H1|exact Hq]. intros Hpg1. congruence.
    + destruct Hr as [H1|[He H1]].
      * eapply wp_let; [eapply wp_crash; [apply live_killed|apply (s_discard _ (live_dir cfg f0 _) errs kills db0 (scrap cfg) live_closed_del); [exact H1|]]|].
        -- intros e0 He0. pose proof (sqlite_scrap [] e0 He0 (proj1 Hh)) as H. split; [by apply (H [])|]. intros _. split_and!; apply H.
        -- intros u w2 [H2 _]. by apply wp_ret, failed_outcome, live_safe.
      * eapply wp_let; [eapply wp_crash; [|eapply (prep_discard sl [] ts Hplan)]|]; [intros w' H; eapply (prep_killed sl [] ts Hplan); [|exact H]; done|auto|intros e0 He0; by apply (sqlite_scrap [] e0 He0 (proj1 Hh))|exact H1|].
        intros u w2 H2. apply wp_ret, failed_outcome. eapply (prep_safe sl [] ts Hplan); [|exact H2]. done.
Qed.
End sqlite.

(** * The command *)

Lemma g_restore w : w_fs w = mkFs f0 [] -> f0 !! J = None -> Forall (allowed errs kills) (w_faults w) -> w_db w = db0 -> usable (w_nonces w) ->
  wp safe (runAdminRestore MarshalIndent cfg a) outcome w.
Proof.
  intros Hfs HJ Hf Hdb Hu. assert (Hw : fine calm_live errs kills db0 w) by (eapply fine_clean; [done|done|done|]; apply live_all; by split).
  unfold runAdminRestore, RefuseIfPresent. apply wp_bind_res, wp_bind, wp_fstat, wp_ret. unfold cur. rewrite Hfs. change (f_cur (mkFs f0 [])) with f0. rewrite HJ. cbn [is_none negb].
  eapply wp_let_res; [eapply wp_crash; [apply live_killed|apply (s_orphans _ (live_dir cfg f0 _) errs kills db0 (scrap cfg) live_closed_del cfg); [exact Hw|apply orphan_scrap]]| |].
  2: { intros e w1 [[H1 _] _]. by apply failed_outcome, live_safe. }
  intros [] w1 [(H1 & _ & N1 & _) _]. unfold runAdminRestoreV2. eapply wp_bind, wp_draw; [exact H1|]. intros ts w2 H2 _ _ N2 Hts.
  assert (Hts' : ts ∈ [] :: w_nonces w) by (set_solver). assert (N12 : w_nonces w2 ⊆ w_nonces w) by (by etrans).
  eapply wp_let_res; [eapply wp_crash; [apply live_killed|apply (s_prepareSet _ (live_dir cfg f0 _) errs kills db0 (scrap cfg) live_closed_del live_closed_put (a_keys a) [])]| |].
  - exact H2.
  - split; [constructor|by intros s ?%elem_of_nil].
  - constructor.
  - constructor.
  - intros p Hp x. rewrite app_nil_r, (fits_keys _ _ _ Hfits) in Hp. left. exists p, x. split; [apply elem_of_app; by left|done].
  - intros es w3 ((H3 & _ & N3 & _) & sl & -> & Hfiles & Hh & _ & Hnodb & Hfrom). cbn [app] in *. destruct Hh as [Hnd Hh].
    assert (Hfrom' : Forall (staged_from ([] :: w_nonces w)) sl) by (eapply Forall_impl; [exact Hfrom|]; intros s (n & Hn & ?); exists n; split; [right; by apply N12|done]).
    destruct (c_postgres cfg) eqn:Hpg; [|by apply (g_sqlite Hpg sl ts (w_nonces w))]. unfold restorePostgres. eapply wp_bind, wp_draw; [exact H3|]. intros token w4 H4 Hfs4 _ _ Htok.
    assert (Htok' : token ∈ [] :: w_nonces w) by set_solver.
    assert (Hplan : planned cfg db0 a sl token ts).
    { apply (planned_slots (w_nonces w)); [done|done|done|unfold files; by rewrite Hpg, app_nil_r|done|]. intros s Hs. rewrite Forall_forall in Hfrom', Hnodb. split; [auto|]. rewrite (Hnodb s Hs), Hpg. done. }
    assert (Ej : mkJournal 0 true token ts (map entry_of sl) false = journal_of cfg sl token ts false) by (unfold journal_of; by rewrite Hpg). rewrite Ej.
    apply (g_postgres sl token ts Hplan); [done|done|]. split; [done|]. unfold cur in *. by rewrite Hfs4.
  - intros e w3 [[H3 _] _]. by apply failed_outcome, live_safe.
Qed.
End commit.
