(* ===== verification/RestoreAtomic.v ===== *)
(** Histories of restores and recoveries: commands that return, fail or are killed, each followed
    by whatever the file system kept.  A state without a journal is one generation. *)
From Stdlib Require Import ZArith Lia.
From stdpp Require Import base numbers tactics sets list gmap.
From S2P Require Import Prelude GoStr Sha256 KeyFS DirFS Restore RestorePaths RestoreSteps RestoreInstall RestoreRun RestoreGood RestoreSafe RestoreCommit.
Local Open Scope go_scope.

(** Files and database of one point in time. *)
Record generation := mkGen { gn_files : gmap path bytes; gn_db : keydb }.
Definition matches (cfg : config) (gen : generation) (f : gmap path bytes) (db : keydb) : Prop :=
  (forall p, p ∈ live_paths cfg -> f !! p = gn_files gen !! p) /\ (c_postgres cfg = true -> set_token None db = set_token None (gn_db gen)).
Definition archive_gen (cfg : config) (a : archive) : generation := mkGen (list_to_map (files cfg a)) (a_db a).

Inductive command := CRestore (a : archive) | CRecover.
Definition added (cfg : config) (c : command) : list generation := match c with CRestore a => [archive_gen cfg a] | CRecover => [] end.

Section history.
Context (MarshalIndent : Journal -> bytes) (Unmarshal : bytes -> option Journal) (cfg : config) (E : Prop).
Local Abbreviation J := (c_journal cfg).

Definition exec (c : command) : M (res restore_err unit) :=
  match c with CRestore a => runAdminRestore MarshalIndent cfg a | CRecover => runAdminRestoreRecover MarshalIndent Unmarshal cfg end.
(** A restore that gets past the journal check: its archive fits, its random names and token are new. *)
Definition admissible (c : command) (f : gmap path bytes) (db : keydb) (nonces : list bytes) : Prop :=
  match c with CRestore a => f !! J = None -> fits cfg f a /\ usable db nonces | CRecover => True end.
(** [E]: operations may fail.  The process may always be killed, the power may always be lost.  After each
    command every unsynced change is settled, kept or lost, and the next one starts on what is then on disk: a
    command that starts while changes of a killed one are still unsynced is not a history
    ([RestoreExample.recovery_trusts_unsynced_journal] is what can happen there). *)
Inductive history : list generation -> gmap path bytes -> keydb -> Prop :=
| history_start f db : f !! J = None -> history [mkGen f db] f db
| history_run gens f db c unreadable faults nonces r w f' :
    history gens f db -> admissible c f db nonces -> Forall (allowed E True) faults ->
    exec c (mkWorld (mkFs f []) unreadable db faults nonces) = (r, w) -> power_loss (w_fs w) f' ->
    history (added cfg c ++ gens) f' (w_db w).

Context (Hclear : clear_names cfg = true) (Hascii : forallb ascii_path (targets cfg) = true).
Context (Hcodec : forall j, ascii_journal j = true -> Unmarshal (MarshalIndent j) = Some j).

Lemma matches_same gen f db f' : matches cfg gen f db -> untouched cfg f f' -> matches cfg gen f' db.
Proof. intros [H1 H2] Hu. split; [|done]. intros p Hp. by rewrite Hu, H1. Qed.
Lemma matches_archive f0 a f db : fits cfg f0 a -> complete cfg a f db -> matches cfg (archive_gen cfg a) f db.
Proof.
  intros Hfits (_ & [Hr Hw] & Hdb). split; [|done]. pose proof (files_targets cfg f0 a Hfits) as Ht. pose proof (bases_nodup cfg Hclear) as Hn.
  intros p [Hp|Hp]%elem_of_app; cbn [archive_gen gn_files].
  - rewrite <- Ht in Hp. apply list_elem_of_fmap in Hp as ([q data] & -> & Hin). cbn. rewrite (Hr q data Hin). symmetry. apply elem_of_list_to_map; [|done].
    change ((files cfg a).*1) with (map fst (files cfg a)). rewrite Ht. by apply NoDup_app in Hn as [? _].
  - destruct (c_postgres cfg) eqn:Hpg; [by apply elem_of_nil in Hp|]. apply list_elem_of_singleton in Hp as ->. rewrite Hw by done. symmetry. apply not_elem_of_list_to_map.
    change ((files cfg a).*1) with (map fst (files cfg a)). rewrite Ht. intros Hin. eapply (base_name cfg Hclear (c_db cfg) _ (go "-wal") []); [by apply target_base, db_target|by apply target_base| |by rewrite app_nil_r].
    unfold sufs. set_solver.
Qed.

(** * What every history leads to *)

Definition standing (gens : list generation) (f : gmap path bytes) (db : keydb) : Prop := exists gen, gen ∈ gens /\ matches cfg gen f db.
Definition inv (gens : list generation) (f : gmap path bytes) (db : keydb) : Prop :=
  f !! J = None /\ standing gens f db \/
  exists f0 db0 a, standing gens f0 db0 /\ archive_gen cfg a ∈ gens /\ fits cfg f0 a /\ pending_restore MarshalIndent cfg f0 db0 a E f db.
Lemma inv_mono gens gens' f db : (forall g, g ∈ gens -> g ∈ gens') -> inv gens f db -> inv gens' f db.
Proof. intros Hg [[HJ (g & ? & ?)]|(f0 & db0 & a & (g & ? & ?) & Ha & ?)]; [left; split; [done|exists g; auto]|right]. exists f0, db0, a. split_and!; [exists g; auto|auto|..]; tauto. Qed.
Lemma good_inv gens f0 db0 a f db : standing gens f0 db0 -> archive_gen cfg a ∈ gens -> fits cfg f0 a -> Good MarshalIndent cfg f0 db0 a E f db -> inv gens f db.
Proof.
  intros (g & Hg & Hm) Ha Hfits [(HJ & Hu & ->)|[Hp|Hc]]; [left; split; [done|]; exists g; split; [done|by eapply matches_same]| |left; split; [apply Hc|]; exists (archive_gen cfg a); split; [done|by eapply matches_archive]].
  right. exists f0, db0, a. split_and!; [by exists g|done|done|done].
Qed.
Lemma pending_journal f0 db0 a f db : pending_restore MarshalIndent cfg f0 db0 a E f db -> f !! J <> None.
Proof. intros (sl & token & ts & b & _ & HJ & _). by rewrite HJ. Qed.

(** Recovery without a journal only sweeps. *)
Lemma g_sweep errs kills w f : w_fs w = mkFs f [] -> Forall (allowed errs kills) (w_faults w) -> f !! J = None ->
  wp (fun w' => kills /\ forall f', power_loss (w_fs w') f' -> before cfg f (w_db w) f' (w_db w')) (runAdminRestoreRecover MarshalIndent Unmarshal cfg)
    (fun r w' => (forall f', power_loss (w_fs w') f' -> before cfg f (w_db w) f' (w_db w')) /\ (r = Ok () \/ errs)) w.
Proof.
  intros Hfs Hf HJ. assert (Hw : fine (live cfg f (fun x => x = None)) errs kills (w_db w) w) by (eapply fine_clean; [done|done|done|]; apply live_all; by split).
  assert (Hb : forall w' f', kept (live cfg f (fun x => x = None)) (w_fs w') -> w_db w' = w_db w -> power_loss (w_fs w') f' -> before cfg f (w_db w) f' (w_db w')).
  { intros w' f' Hk Hdb Hf'. assert (Hl : forall d, live cfg f (fun x => x = None) d f') by (intros d; by eapply kept_power_loss; [apply live_dir|..]). apply live_all in Hl as [? ?]. by split_and!. }
  unfold runAdminRestoreRecover, Read. apply wp_bind_res, wp_bind, wp_fread. unfold cur. rewrite Hfs. change (f_cur (mkFs f [])) with f. rewrite HJ. apply wp_ret.
  eapply wp_crash; [|eapply wp_use; [apply (s_orphans _ (live_dir cfg f _) errs kills (w_db w) (scrap cfg) (live_closed_del cfg Hclear f) cfg); [exact Hw|apply orphan_scrap]|]].
  - intros w' (Hki & Hk & Hdb). split; [done|]. intros f'. by apply Hb.
  - intros r w' [((Hk & _ & Hdb) & _) Hr]. split; [intros f'; by apply Hb|done].
Qed.

Lemma history_inv gens f db : history gens f db -> inv gens f db.
Proof.
  induction 1 as [f db HJ|gens f db c u faults nonces r w f' Hh IH Hadm Hf Hex Hf'].
  { left. split; [done|]. exists (mkGen f db). split; [by left|]. by split. }
  set (w0 := mkWorld (mkFs f []) u db faults nonces) in *. destruct c as [a|]; cbn [exec added admissible] in *.
  - destruct (f !! J) as [txt|] eqn:HJ.
    + assert (runAdminRestore MarshalIndent cfg a w0 = (Some (Err ErrJournalPresent), w0)) as Hr by (unfold runAdminRestore, bind_res, bind, RefuseIfPresent, fstat; cbn; by rewrite HJ).
      rewrite Hr in Hex. injection Hex as <- <-. apply power_loss_clean in Hf' as ->. eapply inv_mono; [|exact IH]. intros g Hg. by right.
    + destruct (Hadm eq_refl) as [Hfits Hu]. destruct IH as [[_ (g & Hg & Hm)]|(f0 & db0 & a0 & _ & _ & _ & Hp)]; [|by apply pending_journal in Hp].
      pose proof (g_restore MarshalIndent cfg Hclear f db a E E True (fun e => e) Hfits Hascii w0 eq_refl HJ Hf eq_refl Hu) as Hwp. unfold wp in Hwp. rewrite Hex in Hwp.
      assert (HG : Good MarshalIndent cfg f db a E f' (w_db w)) by (destruct r as [r|]; [destruct Hwp as [Hs _]|]; auto).
      eapply good_inv; [exists g; split; [by right|exact Hm]|by left|exact Hfits|exact HG].
  - destruct IH as [[HJ (g & Hg & Hm)]|(f0 & db0 & a & Hst & Ha & Hfits & Hp)].
    + pose proof (g_sweep E True w0 f eq_refl Hf HJ) as Hwp. unfold wp in Hwp. rewrite Hex in Hwp.
      assert (Hb : before cfg f db f' (w_db w)) by (destruct r as [r|]; [destruct Hwp as [Hs _]|destruct Hwp as [_ Hs]]; auto). destruct Hb as (HJ' & Hu & ->). left. split; [done|]. exists g. split; [done|by eapply matches_same].
    + pose proof (g_recover MarshalIndent Unmarshal cfg Hclear Hcodec f0 db0 a E E True (fun e => e) Hfits w0 f eq_refl Hf Hp) as Hwp. unfold wp in Hwp. rewrite Hex in Hwp.
      assert (HG : Good MarshalIndent cfg f0 db0 a E f' (w_db w)) by (destruct r as [r|]; [destruct Hwp as [Hs _]|destruct Hwp as [_ Hs]]; auto). by eapply good_inv.
Qed.
End history.

(** C5. A restore with --overwrite-existing is all or nothing.  However restores and recoveries return, fail or are
    killed one after the other, where after each the file system keeps or loses, in any combination, what was not synced,
    and the next command starts on files that are all on disk: a state without a restore journal has the key files and
    the database of one point in time; and a restore that returned without an error has left its archive, durably.
    Not covered is a command that starts on files an earlier, killed one has not synced yet: there the claim fails
    ([RestoreExample.recovery_trusts_unsynced_journal]).  Also assumed: the configured names do not extend one another,
    their paths are ASCII, the journal's JSON reads back as written, each archive has the configured key files, random
    names and tokens are new, no archived file has the hash of a different live file it replaces, and a live SQLite
    database with a WAL is not already byte for byte the archived one. *)
Theorem restore_all_or_nothing MarshalIndent Unmarshal cfg E gens f db :
  clear_names cfg = true -> forallb ascii_path (targets cfg) = true -> (forall j, ascii_journal j = true -> Unmarshal (MarshalIndent j) = Some j) ->
  history MarshalIndent Unmarshal cfg E gens f db ->
  (f !! c_journal cfg = None -> exists gen, gen ∈ gens /\ matches cfg gen f db) /\
  (forall a unreadable faults nonces w f', admissible cfg (CRestore a) f db nonces -> Forall (allowed E True) faults ->
     exec MarshalIndent Unmarshal cfg (CRestore a) (mkWorld (mkFs f []) unreadable db faults nonces) = (Some (Ok ()), w) -> power_loss (w_fs w) f' ->
     f' !! c_journal cfg = None /\ matches cfg (archive_gen cfg a) f' (w_db w)).
Proof.
  intros Hclear Hascii Hcodec Hh. split.
  - intros HJ. destruct (history_inv _ _ _ _ Hclear Hascii Hcodec _ _ _ Hh) as [[_ H]|(f0 & db0 & a & _ & _ & _ & Hp)]; [done|by apply pending_journal in Hp].
  - intros a u faults nonces w f' Hadm Hf Hex Hf'. cbn [exec admissible] in *. destruct (f !! c_journal cfg) as [txt|] eqn:HJ.
    { unfold runAdminRestore, bind_res, bind, RefuseIfPresent, fstat in Hex. cbn in Hex. by rewrite HJ in Hex. }
    destruct (Hadm eq_refl) as [Hfits Hu].
    pose proof (g_restore MarshalIndent cfg Hclear f db a E E True (fun e => e) Hfits Hascii (mkWorld (mkFs f []) u db faults nonces) eq_refl HJ Hf eq_refl Hu) as Hwp. unfold wp in Hwp. rewrite Hex in Hwp.
    destruct Hwp as [_ Hset]. pose proof (Hset eq_refl f' Hf') as Hc. split; [apply Hc|by eapply matches_archive].
Qed.

(** C6. Recovery gets there.  After any sequence of restores with --overwrite-existing and recoveries in which no file
    or database operation failed but any was killed, after each of which the file system keeps or loses, in any
    combination, what was not synced, and each of which started on files that are all on disk (not on what a killed
    command had not synced yet: [RestoreExample.recovery_trusts_unsynced_journal]): `admin restore --recover` that nothing
    interrupts and that can read its files and draws an unused temporary name returns without an error, and leaves,
    durably, no journal and the key files and database of one point in time.  Assumed as well: the configured names do
    not extend one another, their paths are ASCII, the journal's JSON reads back as written, each archive has the
    configured key files, random names and tokens were new, no archived file had the hash of a different live file it
    replaced, and a live SQLite database with a WAL was not already byte for byte the archived one. *)
Theorem recover_completes MarshalIndent Unmarshal cfg gens f db nonces :
  clear_names cfg = true -> forallb ascii_path (targets cfg) = true -> (forall j, ascii_journal j = true -> Unmarshal (MarshalIndent j) = Some j) ->
  history MarshalIndent Unmarshal cfg False gens f db -> (exists n, n ∈ nonces /\ f !! sibling (c_journal cfg) (tmpSuffix ++ n) = None) ->
  exists w, exec MarshalIndent Unmarshal cfg CRecover (mkWorld (mkFs f []) (fun _ => false) db [] nonces) = (Some (Ok ()), w) /\
    forall f', power_loss (w_fs w) f' -> f' !! c_journal cfg = None /\ exists gen, gen ∈ gens /\ matches cfg gen f' (w_db w).
Proof.
  intros Hclear Hascii Hcodec Hh (n & Hn & Hfree). set (w0 := mkWorld (mkFs f []) (fun _ => false) db [] nonces).
  destruct (exec MarshalIndent Unmarshal cfg CRecover w0) as [r w] eqn:Hex. cbn [exec] in Hex.
  assert (Hnext : forall f', power_loss (w_fs w) f' -> inv MarshalIndent cfg False gens f' (w_db w)).
  { intros f' Hf'. apply (history_inv MarshalIndent Unmarshal cfg False Hclear Hascii Hcodec). apply (history_run MarshalIndent Unmarshal cfg False gens f db CRecover (fun _ => false) [] nonces r w f'); done || constructor. }
  assert (Hok : r = Some (Ok ()) /\ forall f', power_loss (w_fs w) f' -> f' !! c_journal cfg = None).
  { destruct (history_inv _ _ _ _ Hclear Hascii Hcodec _ _ _ Hh) as [[HJ _]|(f0 & db0 & a & _ & _ & Hfits & Hp)].
    - pose proof (g_sweep MarshalIndent Unmarshal cfg Hclear False False w0 f eq_refl (Forall_nil_2 _) HJ) as Hwp. unfold wp in Hwp. rewrite Hex in Hwp.
      destruct r as [r|]; [|by destruct Hwp]. destruct Hwp as [Hb [-> |[]]]. split; [done|]. intros f' Hf'. by apply Hb.
    - pose proof (g_recover MarshalIndent Unmarshal cfg Hclear Hcodec f0 db0 a False False False (fun e => e) Hfits w0 f eq_refl (Forall_nil_2 _) Hp) as Hwp. unfold wp in Hwp. rewrite Hex in Hwp.
      destruct r as [r|]; [|by destruct Hwp]. destruct Hwp as (_ & HJ & [-> |Ht]); [split; [done|auto]|]. destruct Ht as [[]|[[p [=]]|Ht]]. destruct (Ht n Hn). split; [by exists n|done]. }
  destruct Hok as [-> HJ]. exists w. split; [done|]. intros f' Hf'. specialize (HJ f' Hf'). split; [done|]. destruct (Hnext f' Hf') as [[_ H]|(f0 & db0 & a & _ & _ & _ & Hp)]; [done|by apply pending_journal in Hp].
Qed.
