(* ===== verification/RestoreExample.v ===== *)
(** A SQLite configuration with its key files in another directory: what restores and recoveries
    do on it, and the witnesses of RestoreAtomic.v. *)
From Stdlib Require Import ZArith Lia.
From stdpp Require Import base numbers tactics sets list gmap.
From S2P Require Import Prelude GoStr Sha256 KeyFS KeyExample DirFS Restore RestorePaths RestoreSteps RestoreInstall RestoreRun RestoreGood RestoreSafe RestoreCommit RestoreAtomic.
Local Open Scope go_scope.

(** * A codec *)

Definition enc_file (e : Entry) : bytes := flat [p_dir (e_Path e); p_name (e_Path e); p_dir (e_Staged e); p_name (e_Staged e); e_SHA256 e; bits_of (e_SQLiteDB e)].
Definition dec_file (b : bytes) : option Entry :=
  match unflat b with [d; n; d'; n'; h; db] => Restore.mkEntry (mkPath d n) (mkPath d' n') h <$> of_bits db | _ => None end.
Lemma dec_enc_file e : dec_file (enc_file e) = Some e.
Proof. unfold dec_file, enc_file. rewrite unflat_flat, of_bits_of. by destruct e as [[] [] ? ?]. Qed.
Definition ex_marshal (j : Journal) : bytes := flat [bits_of (j_Version j); bits_of (j_Postgres j); j_Token j; j_Timestamp j; flat (enc_file <$> j_Entries j); bits_of (j_Installed j)].
Definition ex_unmarshal (b : bytes) : option Journal :=
  match unflat b with
  | [v; pg; t; ts; es; i] => v ← of_bits v; pg ← of_bits pg; es ← mapM dec_file (unflat es); i ← of_bits i; Some (mkJournal v pg t ts es i)
  | _ => None
  end.
Lemma ex_journal_codec j : ex_unmarshal (ex_marshal j) = Some j.
Proof. unfold ex_unmarshal, ex_marshal. rewrite unflat_flat, !of_bits_of. cbn. rewrite unflat_flat, (mapM_enc _ _ dec_enc_file). by destruct j. Qed.

(** * A configuration and an archive *)

Definition ex_key (n : bytes) : path := mkPath (go "keys") n.
Definition ex_cfg : config := mkConfig false [ex_key (go "kek.salt"); ex_key (go "data.key")] (mkPath (go "data") (go "secrets.db")) (mkPath (go "data") (go ".keyorix-restore-journal.json")).
Definition ex_f0 : gmap path bytes := <[ex_key (go "kek.salt") := go "salt 1"]> (<[ex_key (go "data.key") := go "dek 1"]> (<[c_db ex_cfg := go "rows 1"]> {[wal (c_db ex_cfg) := go "pages"]})).
Definition ex_a : archive := mkArchive [(ex_key (go "kek.salt"), go "salt 0"); (ex_key (go "data.key"), go "dek 0")] (go "rows 0") (mkDb [] None None false None).
Definition ex_db0 : keydb := mkDb [] None None false None.
Definition ex_nonces : list bytes := [go "20260101T000000Z"; go "a"; go "b"; go "c"; go "d"].
Definition ex_start (faults : list fault) : world := mkWorld (mkFs ex_f0 []) (fun _ => false) ex_db0 faults ex_nonces.
Definition ex_restore (faults : list fault) : option (res restore_err unit) * world := runAdminRestore ex_marshal ex_cfg ex_a (ex_start faults).
(** The next process: the same files, or what a power loss leaves when it loses all that was not synced. *)
Definition ex_again (w : world) (faults : list fault) : world := mkWorld (w_fs w) (fun _ => false) (w_db w) faults [go "x"; go "y"].
Definition ex_reboot (w : world) (faults : list fault) : world := mkWorld (mkFs (f_disk (w_fs w)) []) (fun _ => false) (w_db w) faults [go "x"; go "y"].
Definition ex_recover : world -> option (res restore_err unit) * world := runAdminRestoreRecover ex_marshal ex_unmarshal ex_cfg.
(** The key files and the database a world shows, and whether a journal is there. *)
Definition shows (f : gmap path bytes) : list (option bytes) * bool := (map (fun p => f !! p) (live_paths ex_cfg), negb (is_none (f !! c_journal ex_cfg))).
Definition old_set : list (option bytes) := [Some (go "salt 1"); Some (go "dek 1"); Some (go "rows 1"); Some (go "pages")].
Definition new_set : list (option bytes) := [Some (go "salt 0"); Some (go "dek 0"); Some (go "rows 0"); None].

(** * The hypotheses, decided *)

Definition fits_b (cfg : config) (f : gmap path bytes) (a : archive) : bool :=
  bool_decide (map fst (a_keys a) = c_keys cfg) &&
  forallb (fun x => match f !! x.1 with Some c => negb (bool_decide (HashBytes c = HashBytes x.2)) || bool_decide (c = x.2) | None => true end) (files cfg a) &&
  (c_postgres cfg || is_none (f !! wal (c_db cfg)) || negb (bool_decide (f !! c_db cfg = Some (a_dbfile a)))).
Lemma fits_b_sound cfg f a : fits_b cfg f a = true -> fits cfg f a.
Proof.
  unfold fits_b. rewrite !andb_true_iff. intros [[H1 H2] H3]. split; [by apply bool_decide_eq_true in H1| |].
  - intros t data c Hin Hc Hh. rewrite forallb_forall in H2. specialize (H2 (t, data) (proj1 (list_elem_of_In _ _) Hin)). cbn in H2. rewrite Hc, bool_decide_eq_true_2 in H2 by done.
    by apply bool_decide_eq_true in H2.
  - intros Hpg. rewrite Hpg in H3. apply orb_true_iff in H3 as [H3|H3%negb_true_iff%bool_decide_eq_false]; [left|by right]. cbn in H3. by destruct (f !! wal (c_db cfg)).
Qed.
Definition usable_b (db : keydb) (nonces : list bytes) : bool := forallb (fun n => ascii n && negb (bool_decide (db_token db = Some n))) ([] :: nonces).
Lemma usable_b_sound db nonces : usable_b db nonces = true -> usable db nonces.
Proof. intros H n Hn. unfold usable_b in H. rewrite forallb_forall in H. specialize (H n (proj1 (list_elem_of_In _ _) Hn)). apply andb_prop in H as [H1 H2%negb_true_iff%bool_decide_eq_false]. done. Qed.

(** * Interrupted restores *)

(** Nothing interrupts it. *)
Example restore_installs : (ex_restore []).1 = Some (Ok ()) /\ shows (f_disk (w_fs (ex_restore []).2)) = (new_set, false).
Proof. split; vm_compute; reflexivity. Qed.
(** Killed with one key file moved aside, and the power lost: the journal is there, recovery completes the restore. *)
Definition ex_killed : option (res restore_err unit) * world := ex_restore (repeat FRun 17 ++ [FCrash]).
Example recover_after_power_loss : ex_killed.1 = None /\ shows (f_disk (w_fs ex_killed.2)) = ([Some (go "salt 0"); Some (go "dek 1"); Some (go "rows 1"); Some (go "pages")], true) /\
  let r := ex_recover (ex_reboot ex_killed.2 []) in r.1 = Some (Ok ()) /\ shows (f_disk (w_fs r.2)) = (new_set, false).
Proof. cbv zeta. split_and!; vm_compute; reflexivity. Qed.
(** Moving a live file aside fails: the deferred removal deletes the staged file after the commit point, and
    recovery refuses although the restored data is committed. *)
Example failed_move_loses_staged : let r := ex_restore (repeat FRun 12 ++ [FClean]) in r.1 = Some (Err (ErrIO EIO)) /\ shows (cur r.2) = (old_set, true) /\
  (ex_recover (ex_again r.2 [])).1 = Some (Err ErrUnvouched).
Proof. cbv zeta. split_and!; vm_compute; reflexivity. Qed.
(** The directory sync of the journal fails: the staged files are discarded, the journal stays, recovery refuses. *)
Example failed_sync_keeps_journal : let r := ex_restore (repeat FRun 10 ++ [FClean]) in r.1 = Some (Err (ErrIO EIO)) /\ shows (cur r.2) = (old_set, true) /\
  (ex_recover (ex_again r.2 [])).1 = Some (Err ErrUnvouched).
Proof. cbv zeta. split_and!; vm_compute; reflexivity. Qed.
(** Killed between the rename of the journal and the sync of its directory, and recovered by a process that starts
    on the same unsynced files: a power loss takes the journal and leaves restored keys with the old database. *)
Example recovery_trusts_unsynced_journal :
  let killed := ex_restore (repeat FRun 10 ++ [FCrash]) in
  let again := ex_recover (ex_again killed.2 (repeat FRun 8 ++ [FCrash])) in
  killed.1 = None /\ again.1 = None /\ shows (f_disk (w_fs again.2)) = ([Some (go "salt 0"); Some (go "dek 0"); Some (go "rows 1"); Some (go "pages")], false).
Proof. cbv zeta. split_and!; vm_compute; reflexivity. Qed.

(** * Witnesses *)

Definition ex_gens : list generation := [archive_gen ex_cfg ex_a; mkGen ex_f0 ex_db0].
Lemma ex_history E : history ex_marshal ex_unmarshal ex_cfg E ex_gens (f_disk (w_fs ex_killed.2)) ex_db0.
Proof.
  change ex_db0 with (w_db ex_killed.2). apply (history_run ex_marshal ex_unmarshal ex_cfg E [mkGen ex_f0 ex_db0] ex_f0 ex_db0 (CRestore ex_a) (fun _ => false) (repeat FRun 17 ++ [FCrash]) ex_nonces ex_killed.1 ex_killed.2).
  - apply history_start. by vm_compute.
  - intros _. split; [apply fits_b_sound|apply usable_b_sound]; vm_compute; reflexivity.
  - repeat constructor.
  - apply surjective_pairing.
  - apply power_loss_all.
Qed.
Definition ex_recovered : option (res restore_err unit) * world := ex_recover (ex_reboot ex_killed.2 []).

Lemma recover_completes_witness : f_disk (w_fs ex_killed.2) !! c_journal ex_cfg <> None /\
  exists w, exec ex_marshal ex_unmarshal ex_cfg CRecover (mkWorld (mkFs (f_disk (w_fs ex_killed.2)) []) (fun _ => false) ex_db0 [] [go "x"; go "y"]) = (Some (Ok ()), w) /\
    forall f', power_loss (w_fs w) f' -> f' !! c_journal ex_cfg = None /\ exists gen, gen ∈ ex_gens /\ matches ex_cfg gen f' (w_db w).
Proof.
  split; [by vm_compute|]. apply (recover_completes ex_marshal ex_unmarshal ex_cfg ex_gens (f_disk (w_fs ex_killed.2)) ex_db0 [go "x"; go "y"]);
    [by vm_compute|by vm_compute|intros j _; apply ex_journal_codec|apply ex_history|]. exists (go "x"). split; [by left|by vm_compute].
Defined.

Lemma ex_history_recovered E : history ex_marshal ex_unmarshal ex_cfg E ex_gens (f_disk (w_fs ex_recovered.2)) (w_db ex_recovered.2).
Proof.
  apply (history_run ex_marshal ex_unmarshal ex_cfg E ex_gens (f_disk (w_fs ex_killed.2)) ex_db0 CRecover (fun _ => false) [] [go "x"; go "y"] ex_recovered.1 ex_recovered.2);
    [apply ex_history|done|constructor|apply surjective_pairing|apply power_loss_all].
Qed.
Lemma restore_all_or_nothing_witness :
  (f_disk (w_fs ex_recovered.2) !! c_journal ex_cfg = None /\ exists gen, gen ∈ ex_gens /\ matches ex_cfg gen (f_disk (w_fs ex_recovered.2)) (w_db ex_recovered.2)) /\
  ((ex_restore []).1 = Some (Ok ()) /\ matches ex_cfg (archive_gen ex_cfg ex_a) (f_disk (w_fs (ex_restore []).2)) (w_db (ex_restore []).2)).
Proof.
  assert (Hj : f_disk (w_fs ex_recovered.2) !! c_journal ex_cfg = None) by by vm_compute. assert (Hok : (ex_restore []).1 = Some (Ok ())) by by vm_compute. split; (split; [done|]).
  - apply (restore_all_or_nothing ex_marshal ex_unmarshal ex_cfg True ex_gens); [by vm_compute|by vm_compute|intros j _; apply ex_journal_codec|apply ex_history_recovered|exact Hj].
  - refine (proj2 (proj2 (restore_all_or_nothing ex_marshal ex_unmarshal ex_cfg True [mkGen ex_f0 ex_db0] ex_f0 ex_db0 _ _ _ _) ex_a (fun _ => false) [] ex_nonces (ex_restore []).2 _ _ _ _ _)); [by vm_compute|by vm_compute|intros j _; apply ex_journal_codec|apply history_start; by vm_compute| | | |apply power_loss_all].
    + intros _. split; [apply fits_b_sound|apply usable_b_sound]; vm_compute; reflexivity.
    + constructor.
    + rewrite <- Hok. apply surjective_pairing.
Defined.
