(* ===== verification/TxDB.v ===== *)
(** Database transactions of the store under READ COMMITTED, the isolation level
    PostgreSQL runs them at: each statement sees what was committed when it began and
    its transaction's own writes; a row that is written or locked stays locked until the
    transaction ends; an UPDATE waits for each row it selected and then looks at it again.
    A transaction can end in a rollback at any point.  SQLite, with one writer, runs the
    same programs one after the other.

    The second half is a rely-guarantee logic for such programs: what a transaction
    knows must survive what other transactions commit. *)
From Stdlib Require Import ZArith Lia.
From stdpp Require Import base numbers tactics sets list gmap.
From S2P Require Import Prelude.

Section txdb.
Context {K R E : Type} `{Countable K}.

Abbreviation table := (gmap K R).
Abbreviation buf := (gmap K (option R)).
Inductive lockmode := LShare | LUpdate.
Abbreviation locks := (list (lockmode * K)).

(** * Programs *)

(** A transaction as the statements it sends; a [Ret] with an error rolls back. *)
Inductive prog :=
| Ret (r : res E unit)
| Select (sel : K -> R -> bool) (k : list (K * R) -> prog)
| Lock (m : lockmode) (key : K) (wh : R -> bool) (k : option R -> prog)    (* SELECT ... WHERE id = key AND wh FOR ... *)
| Update (sel : table -> K -> R -> bool) (upd : R -> option R) (k : nat -> prog)  (* UPDATE or DELETE; RowsAffected *)
| Insert (key : K) (row : R) (k : prog)
| Advisory (key : Z) (k : prog).

(** What a transaction sees: its own writes over the committed rows. *)
Definition put (w : option (option R)) (d : option R) : option R := match w with Some w => w | None => d end.
Definition view (b : buf) (D : table) : table := merge put b D.
Lemma lookup_view b D k : view b D !! k = put (b !! k) (D !! k).
Proof. unfold view. rewrite lookup_merge. by destruct (b !! k), (D !! k). Qed.

Definition matching (sel : K -> R -> bool) (D : table) : list (K * R) := List.filter (fun kr => sel kr.1 kr.2) (map_to_list D).
Lemma elem_of_matching sel D k r : (k, r) ∈ matching sel D <-> D !! k = Some r /\ sel k r = true.
Proof. unfold matching. rewrite list_elem_of_In, filter_In, <- list_elem_of_In, elem_of_map_to_list. done. Qed.

(** A condition that holds of one key at most selects one row at most. *)
Lemma matching_one sel D key : (forall k r, sel k r = true -> k = key) ->
  (matching sel D = [] /\ forall r, D !! key = Some r -> sel key r = false) \/
  exists r, matching sel D = [(key, r)] /\ D !! key = Some r /\ sel key r = true.
Proof.
  intros Hs. assert (HN : NoDup (matching sel D)) by (apply NoDup_ListNoDup, List.NoDup_filter, NoDup_ListNoDup, NoDup_map_to_list).
  assert (Hin : forall k r, (k, r) ∈ matching sel D -> k = key /\ D !! key = Some r /\ sel key r = true).
  { intros k r [HD Hk]%elem_of_matching. pose proof (Hs k r Hk) as ->. done. }
  destruct (matching sel D) as [|[k1 r1] [|[k2 r2] l]] eqn:Em.
  - left. split; [done|]. intros r Hr. destruct (sel key r) eqn:Er; [|done]. assert (Hx : (key, r) ∈ matching sel D) by by apply elem_of_matching.
    rewrite Em in Hx. by apply elem_of_nil in Hx.
  - right. destruct (Hin k1 r1) as (-> & ? & ?); [by left|]. by exists r1.
  - exfalso. destruct (Hin k1 r1) as (-> & H1 & _); [by left|]. destruct (Hin k2 r2) as (-> & H2 & _); [by right; left|].
    assert (r1 = r2) as <- by congruence. apply NoDup_cons in HN as [Hn _]. apply Hn. by left.
Qed.

(** ** One transaction at a time *)

Definition update_all (sel : K -> R -> bool) (upd : R -> option R) (D : table) : table :=
  map_imap (fun k r => if sel k r then upd r else Some r) D.

Fixpoint exec (p : prog) (D : table) : res E unit * table :=
  match p with
  | Ret r => (r, D)
  | Select sel k => exec (k (matching sel D)) D
  | Lock _ key wh k => exec (k (r ← D !! key; if wh r then Some r else None)) D
  | Update sel upd k => exec (k (length (matching (sel D) D))) (update_all (sel D) upd D)
  | Insert key row k => exec k (<[key := row]> D)
  | Advisory _ k => exec k D
  end.
Definition run (p : prog) (D : table) : res E unit * table :=
  match exec p D with (Ok _, D') => (Ok (), D') | (Err e, _) => (Err e, D) end.

(** ** Interleaved transactions *)

(** [x_wait]: inside an UPDATE, its row test, the rows it has yet to update and how many it has. *)
Record txst := mkTx {
  x_prog : prog; x_buf : buf; x_locks : locks; x_adv : list Z; x_wait : option ((K -> R -> bool) * list K * nat) }.
Record state := mkState { s_db : table; s_txs : gmap nat txst }.
Definition set_prog (p : prog) (x : txst) : txst := mkTx p (x_buf x) (x_locks x) (x_adv x) None.

Definition locked (x : txst) (k : K) : Prop := is_Some (x_buf x !! k) \/ exists m, (m, k) ∈ x_locks x.
Definition others (s : state) (t : nat) (P : txst -> Prop) : Prop := forall u x, u <> t -> s_txs s !! u = Some x -> P x.
Definition may_write (s : state) (t : nat) (k : K) : Prop := others s t (fun x => ~ locked x k).
Definition may_lock (s : state) (t : nat) (m : lockmode) (k : K) : Prop := others s t (fun x =>
  x_buf x !! k = None /\ ~ ((LUpdate, k) ∈ x_locks x) /\ (m = LUpdate -> (LShare, k) ∉ x_locks x)).

(** The steps of transaction [t]. *)
Inductive tx_step (s : state) (t : nat) : txst -> txst -> Prop :=
| t_select sel k x : x_prog x = Select sel k -> tx_step s t x (set_prog (k (matching sel (view (x_buf x) (s_db s)))) x)
| t_lock_none m key wh k x : x_prog x = Lock m key wh k ->
    (match view (x_buf x) (s_db s) !! key with Some r => wh r = false | None => True end) ->
    tx_step s t x (set_prog (k None) x)
| t_lock_some m key wh k r x : x_prog x = Lock m key wh k ->
    view (x_buf x) (s_db s) !! key = Some r -> wh r = true -> may_lock s t m key ->
    tx_step s t x (mkTx (k (Some r)) (x_buf x) ((m, key) :: x_locks x) (x_adv x) None)
| t_update_begin sel upd k x : x_prog x = Update sel upd k -> x_wait x = None ->
    let v := view (x_buf x) (s_db s) in
    tx_step s t x (mkTx (x_prog x) (x_buf x) (x_locks x) (x_adv x) (Some (sel v, (matching (sel v) v).*1, 0%nat)))
| t_update_hit sel0 upd k sel key keys n r x : x_prog x = Update sel0 upd k -> x_wait x = Some (sel, key :: keys, n) -> may_write s t key ->
    view (x_buf x) (s_db s) !! key = Some r -> sel key r = true ->
    tx_step s t x (mkTx (x_prog x) (<[key := upd r]> (x_buf x)) (x_locks x) (x_adv x) (Some (sel, keys, S n)))
| t_update_miss sel0 upd k sel key keys n x : x_prog x = Update sel0 upd k -> x_wait x = Some (sel, key :: keys, n) -> may_write s t key ->
    (match view (x_buf x) (s_db s) !! key with Some r => sel key r = false | None => True end) ->
    tx_step s t x (mkTx (x_prog x) (x_buf x) (x_locks x) (x_adv x) (Some (sel, keys, n)))
| t_update_end sel0 upd k sel n x : x_prog x = Update sel0 upd k -> x_wait x = Some (sel, [], n) -> tx_step s t x (set_prog (k n) x)
| t_insert key row k x : x_prog x = Insert key row k -> s_db s !! key = None -> (forall u y, s_txs s !! u = Some y -> ~ locked y key) ->
    tx_step s t x (mkTx k (<[key := Some row]> (x_buf x)) (x_locks x) (x_adv x) None)
| t_advisory key k x : x_prog x = Advisory key k -> others s t (fun y => key ∉ x_adv y) ->
    tx_step s t x (mkTx k (x_buf x) (x_locks x) (key :: x_adv x) None).

Context (begins : prog -> Prop).
Inductive step : state -> state -> Prop :=
| s_begin t p D txs : txs !! t = None -> begins p -> step (mkState D txs) (mkState D (<[t := mkTx p ∅ [] [] None]> txs))
| s_tx t x x' D txs : txs !! t = Some x -> tx_step (mkState D txs) t x x' -> step (mkState D txs) (mkState D (<[t := x']> txs))
| s_commit t x D txs : txs !! t = Some x -> x_prog x = Ret (Ok ()) -> step (mkState D txs) (mkState (view (x_buf x) D) (delete t txs))
| s_rollback t x D txs : txs !! t = Some x -> step (mkState D txs) (mkState D (delete t txs)).
Definition reachable (D : table) (s : state) : Prop := rtc step (mkState D ∅) s.

(** ** Schedules, as functions *)

Definition lockedb (x : txst) (k : K) : bool := bool_decide (is_Some (x_buf x !! k)) || bool_decide (k ∈ (x_locks x).*2).
Definition othersb (txs : gmap nat txst) (t : nat) (P : txst -> bool) : bool := forallb (fun ux => bool_decide (ux.1 = t) || P ux.2) (map_to_list txs).
Definition may_lockb (txs : gmap nat txst) (t : nat) (m : lockmode) (k : K) : bool := othersb txs t (fun x =>
  negb (bool_decide (is_Some (x_buf x !! k))) && forallb (fun mk => negb (bool_decide (mk.2 = k) && match m, mk.1 with LShare, LShare => false | _, _ => true end)) (x_locks x)).

(** The next step of transaction [t], if it is not waiting for another. *)
Definition advance (D : table) (txs : gmap nat txst) (t : nat) (x : txst) : option txst :=
  let v := view (x_buf x) D in
  match x_prog x, x_wait x with
  | Ret _, _ => None
  | Select sel k, _ => Some (set_prog (k (matching sel v)) x)
  | Lock m key wh k, _ =>
      match v !! key with
      | Some r => if wh r then if may_lockb txs t m key then Some (mkTx (k (Some r)) (x_buf x) ((m, key) :: x_locks x) (x_adv x) None) else None else Some (set_prog (k None) x)
      | None => Some (set_prog (k None) x)
      end
  | Update sel upd k, None => Some (mkTx (x_prog x) (x_buf x) (x_locks x) (x_adv x) (Some (sel v, (matching (sel v) v).*1, 0%nat)))
  | Update sel upd k, Some (f, [], n) => Some (set_prog (k n) x)
  | Update sel upd k, Some (f, key :: keys, n) =>
      if othersb txs t (fun y => negb (lockedb y key)) then
        match v !! key with
        | Some r => if f key r then Some (mkTx (x_prog x) (<[key := upd r]> (x_buf x)) (x_locks x) (x_adv x) (Some (f, keys, S n)))
                    else Some (mkTx (x_prog x) (x_buf x) (x_locks x) (x_adv x) (Some (f, keys, n)))
        | None => Some (mkTx (x_prog x) (x_buf x) (x_locks x) (x_adv x) (Some (f, keys, n)))
        end
      else None
  | Insert key row k, _ =>
      if bool_decide (D !! key = None) && forallb (fun ux => negb (lockedb ux.2 key)) (map_to_list txs)
      then Some (mkTx k (<[key := Some row]> (x_buf x)) (x_locks x) (x_adv x) None) else None
  | Advisory key k, _ => if othersb txs t (fun y => negb (bool_decide (key ∈ x_adv y))) then Some (mkTx k (x_buf x) (x_locks x) (key :: x_adv x) None) else None
  end.

Lemma lockedb_locked x k : lockedb x k = false -> ~ locked x k.
Proof.
  unfold lockedb. rewrite orb_false_iff, !bool_decide_eq_false. intros [Hb Hl] [?|[m Hm]]; [done|]. apply Hl. apply list_elem_of_fmap. by exists (m, k).
Qed.
Lemma othersb_others D txs t (P : txst -> bool) (Q : txst -> Prop) : (forall x, P x = true -> Q x) -> othersb txs t P = true -> others (mkState D txs) t Q.
Proof.
  intros HPQ HP u x Hu Hx. unfold othersb in HP. rewrite forallb_forall in HP.
  assert (Hin : In (u, x) (map_to_list txs)) by (by apply list_elem_of_In, elem_of_map_to_list). specialize (HP _ Hin). simpl in HP.
  rewrite bool_decide_false in HP by done. by apply HPQ.
Qed.
Lemma may_lockb_may D txs t m k : may_lockb txs t m k = true -> may_lock (mkState D txs) t m k.
Proof.
  apply othersb_others. intros x [Hb Hl]%andb_true_iff. rewrite negb_true_iff, bool_decide_eq_false in Hb. rewrite forallb_forall in Hl.
  assert (Hno : forall m', (m', k) ∈ x_locks x -> m = LShare /\ m' = LShare).
  { intros m' Hin%list_elem_of_In. specialize (Hl _ Hin). simpl in Hl. rewrite bool_decide_true in Hl by done. by destruct m, m'. }
  split_and!; [by apply eq_None_not_Some|intros Hin; by destruct (Hno _ Hin)|intros -> Hin; by destruct (Hno _ Hin)].
Qed.

Lemma advance_step D txs t x x' : advance D txs t x = Some x' -> tx_step (mkState D txs) t x x'.
Proof.
  unfold advance. intros Ha. destruct (x_prog x) as [r|sel k|m key wh k|sel upd k|key row k|key k] eqn:Ep; [done| | | | |].
  - injection Ha as <-. by apply (t_select (mkState D txs) t sel k x).
  - destruct (view (x_buf x) D !! key) as [r|] eqn:Ev; [destruct (wh r) eqn:Ew; [destruct (may_lockb txs t m key) eqn:Em; [|done]|]|]; injection Ha as <-.
    + eapply t_lock_some; eauto. by apply may_lockb_may.
    + apply (t_lock_none (mkState D txs) t m key wh k x Ep). simpl. by rewrite Ev.
    + apply (t_lock_none (mkState D txs) t m key wh k x Ep). simpl. by rewrite Ev.
  - destruct (x_wait x) as [[[f [|key keys]] n]|] eqn:Ew.
    + injection Ha as <-. by eapply t_update_end.
    + destruct (othersb _ _ _) eqn:Eo; [|done]. assert (Hm : may_write (mkState D txs) t key).
      { revert Eo. apply othersb_others. intros y Hy. apply lockedb_locked. by apply negb_true_iff. }
      rewrite <- Ep in Ha. destruct (view (x_buf x) D !! key) as [r|] eqn:Ev; [destruct (f key r) eqn:Ef|]; injection Ha as <-.
      * eapply t_update_hit; eauto.
      * eapply t_update_miss; eauto. simpl. by rewrite Ev.
      * eapply t_update_miss; eauto. simpl. by rewrite Ev.
    + rewrite <- Ep in Ha. injection Ha as <-. by apply (t_update_begin (mkState D txs) t sel upd k x).
  - destruct (_ && _) eqn:Eb; [|done]. injection Ha as <-. apply andb_true_iff in Eb as [Hd%bool_decide_eq_true Hf]. rewrite forallb_forall in Hf.
    eapply t_insert; eauto. intros u y Hy. apply lockedb_locked, negb_true_iff. apply (Hf (u, y)), list_elem_of_In, elem_of_map_to_list. done.
  - destruct (othersb _ _ _) eqn:Eo; [|done]. injection Ha as <-. eapply t_advisory; eauto. revert Eo. apply othersb_others.
    intros y Hy. by rewrite negb_true_iff, bool_decide_eq_false in Hy.
Qed.

Inductive act := Begin (t : nat) (p : prog) | Go (t n : nat) | Commit (t : nat).
Fixpoint go (n : nat) (D : table) (txs : gmap nat txst) (t : nat) : option (gmap nat txst) :=
  match n with
  | O => Some txs
  | S n => x ← txs !! t; x' ← advance D txs t x; go n D (<[t := x']> txs) t
  end.
Definition act_step (a : act) (D : table) (txs : gmap nat txst) : option (table * gmap nat txst) :=
  match a with
  | Begin t p => if bool_decide (txs !! t = None) then Some (D, <[t := mkTx p ∅ [] [] None]> txs) else None
  | Go t n => (D,.) <$> go n D txs t
  | Commit t => x ← txs !! t; match x_prog x with Ret (Ok _) => Some (view (x_buf x) D, delete t txs) | _ => None end
  end.
Fixpoint play (l : list act) (D : table) (txs : gmap nat txst) : option (table * gmap nat txst) :=
  match l with [] => Some (D, txs) | a :: l => '(D, txs) ← act_step a D txs; play l D txs end.

Lemma go_steps n D txs t txs' : go n D txs t = Some txs' -> rtc step (mkState D txs) (mkState D txs').
Proof.
  revert txs. induction n as [|n IH]; simpl; intros txs Hg; [by injection Hg as <-|]. destruct (txs !! t) as [x|] eqn:Ex; [|done]. simpl in Hg.
  destruct (advance D txs t x) as [x'|] eqn:Ea; [|done]. simpl in Hg. eapply rtc_l; [|by apply IH]. eapply s_tx; [done|]. by apply advance_step.
Qed.
Lemma play_steps l D txs D' txs' : Forall (fun a => match a with Begin _ p => begins p | _ => True end) l ->
  play l D txs = Some (D', txs') -> rtc step (mkState D txs) (mkState D' txs').
Proof.
  intros Hl. revert D txs. induction Hl as [|a l Ha _ IH]; simpl; intros D txs Hp; [by injection Hp as <- <-|].
  destruct (act_step a D txs) as [[D1 txs1]|] eqn:Ea; [|done]. simpl in Hp. etrans; [|by apply IH].
  destruct a as [t p|t n|t]; simpl in Ea.
  - case_bool_decide; [|done]. injection Ea as <- <-. apply rtc_once. by apply s_begin.
  - destruct (go n D txs t) eqn:Eg; [|done]. injection Ea as <- <-. by eapply go_steps.
  - destruct (txs !! t) as [x|] eqn:Ex; [|done]. simpl in Ea. destruct (x_prog x) as [[[]|]| | | | |] eqn:Ep; try done. injection Ea as <- <-. apply rtc_once. by apply s_commit.
Qed.

(** The steps of the system between which transaction [t] is neither begun nor ended. *)
Definition running (t : nat) (s s' : state) : Prop := step s s' /\ is_Some (s_txs s !! t) /\ is_Some (s_txs s' !! t).

Lemma go_running n D txs t u txs' : is_Some (txs !! u) -> go n D txs t = Some txs' -> rtc (running u) (mkState D txs) (mkState D txs') /\ is_Some (txs' !! u).
Proof.
  revert txs. induction n as [|n IH]; simpl; intros txs Hu Hg; [by injection Hg as <-|]. destruct (txs !! t) as [x|] eqn:Ex; [|done]. simpl in Hg.
  destruct (advance D txs t x) as [x'|] eqn:Ea; [|done]. simpl in Hg. assert (Hu' : is_Some (<[t := x']> txs !! u)) by (apply lookup_insert_is_Some'; by right).
  destruct (IH _ Hu' Hg) as [H1 H2]. split; [|done]. eapply rtc_l; [|exact H1]. split_and!; [|done|done]. eapply s_tx; [done|]. by apply advance_step.
Qed.
Lemma play_running u l D txs D' txs' : Forall (fun a => match a with Begin _ p => begins p | Go _ _ => True | Commit t => t <> u end) l -> is_Some (txs !! u) ->
  play l D txs = Some (D', txs') -> rtc (running u) (mkState D txs) (mkState D' txs').
Proof.
  intros Hl. revert D txs. induction Hl as [|a l Ha _ IH]; simpl; intros D txs Hu Hp; [by injection Hp as <- <-|].
  destruct (act_step a D txs) as [[D1 txs1]|] eqn:Ea; [|done]. simpl in Hp.
  assert (Hs : rtc (running u) (mkState D txs) (mkState D1 txs1) /\ is_Some (txs1 !! u)); [|etrans; [apply Hs|apply IH; [apply Hs|done]]].
  destruct a as [t p|t n|t]; simpl in Ea.
  - case_bool_decide as Ht; [|done]. injection Ea as <- <-. assert (Hu' : is_Some (<[t := mkTx p ∅ [] [] None]> txs !! u)) by (apply lookup_insert_is_Some'; by right).
    split; [|done]. apply rtc_once. split_and!; [by apply s_begin|done|done].
  - destruct (go n D txs t) eqn:Eg; [|done]. injection Ea as <- <-. by eapply go_running.
  - destruct (txs !! t) as [x|] eqn:Ex; [|done]. simpl in Ea. destruct (x_prog x) as [[[]|]| | | | |] eqn:Ep; try done. injection Ea as <- <-.
    assert (Hu' : is_Some (delete t txs !! u)) by by rewrite lookup_delete_ne. split; [|done]. apply rtc_once. split_and!; [by apply s_commit|done|done].
Qed.

(** Where a schedule ends; one that cannot be played ends where it began. *)
Definition played (l : list act) (D : table) : table * gmap nat txst := default (D, ∅) (play l D ∅).
Lemma played_reachable l D : Forall (fun a => match a with Begin _ p => begins p | _ => True end) l -> reachable D (mkState (played l D).1 (played l D).2).
Proof. intros Hl. unfold played, reachable. destruct (play l D ∅) as [[D' txs']|] eqn:Ep; [by eapply play_steps|apply rtc_refl]. Qed.

(** * Rely and guarantee *)

(** [Inv] of the committed rows; [keeps L D D']: what another transaction's commit leaves alone for a transaction that holds [L]. *)
Context (Inv : table -> Prop) (keeps : locks -> table -> table -> Prop).
Abbreviation asrt := (table -> buf -> locks -> Prop).

Definition holds_key (b : buf) (L : locks) (k : K) : Prop := is_Some (b !! k) \/ exists m, (m, k) ∈ L.
Definition stable (A : asrt) : Prop := forall D D' b L,
  A D b L -> Inv D' -> (forall k, holds_key b L k -> D' !! k = D !! k) -> keeps L D D' -> A D' b L.
(** What a commit owes the other transactions, whose locks are compatible with its own. *)
Definition commit_ok (D : table) (b : buf) (L : locks) : Prop := Inv (view b D) /\
  forall L', (forall k m, is_Some (b !! k) -> (m, k) ∉ L') -> (forall k m, (LUpdate, k) ∈ L' -> (m, k) ∉ L) -> keeps L' D (view b D).

Definition implies (A A' : asrt) : Prop := forall D b L, Inv D -> A D b L -> A' D b L.

(** The rows of an UPDATE, worked off one by one: [B f keys] while [keys] are to come. *)
Abbreviation work := ((K -> R -> bool) -> list K -> asrt).
Definition row_ok (upd : R -> option R) (B : work) : Prop := forall f key keys D b L, Inv D -> B f (key :: keys) D b L ->
  match view b D !! key with
  | Some r => if f key r then B f keys D (<[key := upd r]> b) L else B f keys D b L
  | None => B f keys D b L
  end.

(** [p] from any state where [A] holds commits only what it may. *)
Fixpoint safe (p : prog) (A : asrt) : Prop :=
  match p with
  | Ret (Err _) => True
  | Ret (Ok _) => implies A commit_ok
  | Select sel k => forall ans, exists A', stable A' /\
      (forall D b L, Inv D -> A D b L -> ans = matching sel (view b D) -> A' D b L) /\ safe (k ans) A'
  | Lock m key wh k => safe (k None) A /\ forall r, exists A', stable A' /\
      (forall D b L, Inv D -> A D b L -> view b D !! key = Some r -> wh r = true -> A' D b ((m, key) :: L)) /\ safe (k (Some r)) A'
  | Update sel upd k => exists B, (forall f keys, stable (B f keys)) /\
      (forall D b L, Inv D -> A D b L -> let f := sel (view b D) in B f (matching f (view b D)).*1 D b L) /\
      row_ok upd B /\
      forall n, exists A', stable A' /\ (forall f, implies (B f []) A') /\ safe (k n) A'
  | Insert key row k => exists A', stable A' /\
      (forall D b L, Inv D -> A D b L -> D !! key = None -> b !! key = None -> A' D (<[key := Some row]> b) L) /\ safe k A'
  | Advisory _ k => safe k A
  end.

Lemma safe_weaken p : forall A A', implies A' A -> safe p A -> safe p A'.
Proof.
  induction p as [[u|e]|sel k IH|m key wh k IH|sel upd k IH|key row k IH|key k IH]; simpl; intros A A' Hi Hs; auto.
  - intros D b L Hinv HA. by apply Hs, Hi.
  - intros ans. destruct (Hs ans) as (A1 & ? & HA1 & ?). exists A1. split_and!; auto.
  - destruct Hs as [Hn Hs]. split; [by eapply IH|]. intros r. destruct (Hs r) as (A1 & ? & HA1 & ?). exists A1. split_and!; auto.
  - destruct Hs as (B & ? & HB & ? & ?). exists B. split_and!; auto.
  - destruct Hs as (A1 & ? & HA1 & ?). exists A1. split_and!; auto.
  - by eapply IH.
Qed.

Lemma one_of_stable (P : asrt -> Prop) : stable (fun D b L => exists A, (stable A /\ P A) /\ A D b L).
Proof. intros D D' b L (A & [Hst HP] & HD) Hi Hk Hl. exists A. split; [done|]. by eapply Hst. Qed.
(** From one of several assertions, each of which is enough. *)
Lemma safe_any p : forall As : asrt -> Prop, (forall A, As A -> stable A /\ safe p A) -> safe p (fun D b L => exists A, As A /\ A D b L).
Proof.
  induction p as [[u|e]|sel k IH|m key wh k IH|sel upd k IH|key row k IH|key k IH]; simpl; intros As HA; auto.
  - intros D b L Hi (A & HAA & HAD). by apply (HA A HAA).
  - intros ans. exists (fun D b L => exists A, (stable A /\ safe (k ans) A) /\ A D b L). split_and!; [apply one_of_stable| |by apply IH].
    intros D b L Hi (A & HAA & HAD) ->. destruct (proj2 (HA A HAA) (matching sel (view b D))) as (A' & ? & Himp & ?). exists A'. auto.
  - split; [apply IH; intros A HAA; split; apply (HA A HAA)|]. intros r.
    exists (fun D b L => exists A, (stable A /\ safe (k (Some r)) A) /\ A D b L). split_and!; [apply one_of_stable| |by apply IH].
    intros D b L Hi (A & HAA & HAD) Hv Hw. destruct (proj2 (proj2 (HA A HAA)) r) as (A' & ? & Himp & ?). exists A'. auto.
  - set (good := fun B : work => (forall f keys, stable (B f keys)) /\ row_ok upd B /\ forall n, exists A', stable A' /\ (forall f, implies (B f []) A') /\ safe (k n) A').
    exists (fun f keys D b L => exists B, good B /\ B f keys D b L). split_and!.
    + intros f keys D D' b L (B & HB & HD) Hi Hk Hl. exists B. split; [done|]. by eapply (proj1 HB).
    + intros D b L Hi (A & HAA & HAD). destruct (proj2 (HA A HAA)) as (B & ? & Hstart & ? & ?). exists B. split; [by repeat split|by apply Hstart].
    + intros f key keys D b L Hi (B & HB & HD). pose proof (proj1 (proj2 HB) f key keys D b L Hi HD) as Hr.
      destruct (view b D !! key) as [r|]; [destruct (f key r)|]; eauto.
    + intros n. exists (fun D b L => exists A, (stable A /\ safe (k n) A) /\ A D b L). split_and!; [apply one_of_stable| |by apply IH].
      intros f D b L Hi (B & HB & HD). destruct (proj2 (proj2 HB) n) as (A' & ? & Himp & ?). exists A'. split; [done|]. by eapply Himp.
  - exists (fun D b L => exists A, (stable A /\ safe k A) /\ A D b L). split_and!; [apply one_of_stable| |by apply IH].
    intros D b L Hi (A & HAA & HAD) Hd Hb. destruct (proj2 (HA A HAA)) as (A' & ? & Himp & ?). exists A'. auto.
Qed.
Lemma safe_never p : safe p (fun _ _ _ => False).
Proof. eapply safe_weaken; [|apply (safe_any p (fun _ => False)); done]. by intros D b L _ ?. Qed.
(** A SELECT, where what is known afterwards depends on the rows it saw. *)
Lemma safe_select_one sel k A : (forall D b L, Inv D -> A D b L -> exists A', stable A' /\ A' D b L /\ safe (k (matching sel (view b D))) A') -> safe (Select sel k) A.
Proof.
  intros Hs ans. exists (fun D b L => exists A, (stable A /\ safe (k ans) A) /\ A D b L). split_and!; [apply one_of_stable| |by apply safe_any].
  intros D b L Hi HA ->. destruct (Hs D b L Hi HA) as (A' & ? & ? & ?). eauto.
Qed.

(** An UPDATE under way. *)
Definition updating (D : table) (x : txst) (f : K -> R -> bool) (keys : list K) (upd : R -> option R) (k : nat -> prog) (B : work) : Prop :=
  (forall f keys, stable (B f keys)) /\ B f keys D (x_buf x) (x_locks x) /\ row_ok upd B /\
  forall n, exists A', stable A' /\ (forall f, implies (B f []) A') /\ safe (k n) A'.

Definition tx_ok (D : table) (x : txst) : Prop :=
  match x_wait x with
  | None => exists A, stable A /\ A D (x_buf x) (x_locks x) /\ safe (x_prog x) A
  | Some (f, keys, _) => exists sel upd k, x_prog x = Update sel upd k /\ exists B, updating D x f keys upd k B
  end.

(** No two transactions hold what excludes each other. *)
Definition apart (x y : txst) : Prop :=
  (forall k, is_Some (x_buf x !! k) -> ~ locked y k) /\ (forall k m, (LUpdate, k) ∈ x_locks x -> (m, k) ∉ x_locks y).
Definition state_ok (s : state) : Prop :=
  Inv (s_db s) /\ (forall t x, s_txs s !! t = Some x -> tx_ok (s_db s) x) /\
  (forall t u x y, t <> u -> s_txs s !! t = Some x -> s_txs s !! u = Some y -> apart x y).

Lemma tx_ok_stable D D' x : tx_ok D x -> Inv D' -> (forall k, locked x k -> D' !! k = D !! k) -> keeps (x_locks x) D D' -> tx_ok D' x.
Proof.
  unfold tx_ok. intros Hok Hi Hk Hl. destruct (x_wait x) as [[[f keys] n]|].
  - destruct Hok as (sel & upd & k & Hp & B & Hst & HB & Hrest). exists sel, upd, k. split; [done|]. exists B. split; [done|]. split; [by eapply Hst|done].
  - destruct Hok as (A & Hst & HA & Hs). exists A. split_and!; auto. by eapply Hst.
Qed.

(** Taking a lock, or writing a row, that no other transaction objects to. *)
Lemma apart_lock s t x y p m key w : may_lock s t m key ->
  forall u, u <> t -> s_txs s !! u = Some y -> apart x y -> apart y x ->
  let x' := mkTx p (x_buf x) ((m, key) :: x_locks x) (x_adv x) w in apart x' y /\ apart y x'.
Proof.
  intros Ho u Hu Hy [Hxy1 Hxy2] [Hyx1 Hyx2]. destruct (Ho u y Hu Hy) as (Hb & HU & HS). split; split; simpl.
  - done.
  - intros k m' [[= <- ->]|Hin]%elem_of_cons; [|by apply Hxy2]. destruct m'; auto.
  - intros k Hk [Hl|[m' [[= -> ->]|Hin]%elem_of_cons]]; [apply (Hyx1 k Hk); by left| |apply (Hyx1 k Hk); right; eauto].
    rewrite Hb in Hk. by destruct Hk.
  - intros k m' Hk [[= -> ->]|Hin]%elem_of_cons; [done|by apply (Hyx2 k m')].
Qed.

Lemma apart_write x y p key v w : ~ locked y key -> apart x y -> apart y x ->
  let x' := mkTx p (<[key := v]> (x_buf x)) (x_locks x) (x_adv x) w in apart x' y /\ apart y x'.
Proof.
  intros Hnl [Hxy1 Hxy2] [Hyx1 Hyx2]. split; split; simpl; auto.
  - intros k Hk. destruct (decide (k = key)) as [->|Hne]; [done|]. rewrite lookup_insert_ne in Hk by done. by apply Hxy1.
  - intros k Hk [Hl|Hl]; [|by apply (Hyx1 k Hk); right]. destruct (decide (k = key)) as [->|Hne]; [apply Hnl; by left|].
    simpl in Hl. rewrite lookup_insert_ne in Hl by done. apply (Hyx1 k Hk). by left.
Qed.

Lemma tx_ok_idle D x : tx_ok D x -> (forall sel upd k, x_prog x <> Update sel upd k) \/ x_wait x = None ->
  exists A, stable A /\ A D (x_buf x) (x_locks x) /\ safe (x_prog x) A.
Proof.
  unfold tx_ok. intros Hok [Hp|Hw]; [|by rewrite Hw in Hok]. destruct (x_wait x) as [[[f keys] n]|]; [|done].
  destruct Hok as (sel & upd & k & Hp' & _). by apply Hp in Hp'.
Qed.

Lemma tx_ok_wait D x f keys n sel upd k : tx_ok D x -> x_wait x = Some (f, keys, n) -> x_prog x = Update sel upd k -> exists B, updating D x f keys upd k B.
Proof. unfold tx_ok. intros Hok Hw Hp. rewrite Hw in Hok. destruct Hok as (? & ? & ? & Hp' & B & HB). rewrite Hp in Hp'. injection Hp' as <- <- <-. by exists B. Qed.
Lemma wait_tx_ok D p b L adv f keys n sel upd k B : p = Update sel upd k ->
  updating D (mkTx p b L adv (Some (f, keys, n))) f keys upd k B -> tx_ok D (mkTx p b L adv (Some (f, keys, n))).
Proof. intros -> HB. exists sel, upd, k. split; [done|]. by exists B. Qed.

Lemma tx_step_ok s t x x' : state_ok s -> s_txs s !! t = Some x -> tx_step s t x x' -> tx_ok (s_db s) x'.
Proof.
  intros (Hi & Hok & _) Hx Hst. specialize (Hok t x Hx).
  destruct Hst as [sel k x Hp|m key wh k x Hp Hv|m key wh k r x Hp Hv Hwh Hm|sel upd k x Hp Hw v|sel0 upd k sel key keys n r x Hp Hw Hm Hv Hf
    |sel0 upd k sel key keys n x Hp Hw Hm Hv|sel0 upd k sel n x Hp Hw|key row k x Hp Hd Hfree|key k x Hp Ho].
  5-7: destruct (tx_ok_wait _ _ _ _ _ _ _ _ Hok Hw Hp) as (B & HB & HBk & Hrow & Hend).
  5,6: apply (wait_tx_ok _ _ _ _ _ _ _ _ _ _ _ B Hp); split_and!; auto; specialize (Hrow _ _ _ _ _ _ Hi HBk); simpl.
  5: by rewrite Hv, Hf in Hrow. 5: destruct (view (x_buf x) (s_db s) !! key); [by rewrite Hv in Hrow|done].
  5: { destruct (Hend n) as (A' & ? & Himp & ?). exists A'. split_and!; auto. by eapply Himp. }
  all: destruct (tx_ok_idle _ _ Hok) as (A & HstA & HA & Hs); [by (right; done) || (left; intros *; by rewrite Hp)|]; rewrite Hp in Hs; simpl in Hs.
  - destruct (Hs (matching sel (view (x_buf x) (s_db s)))) as (A' & ? & Himp & ?). exists A'. split_and!; auto.
  - exists A. split_and!; auto. apply Hs.
  - destruct Hs as [_ Hs]. destruct (Hs r) as (A' & ? & Himp & ?). exists A'. split_and!; auto. by apply Himp.
  - destruct Hs as (B & HB & Hstart & Hrow & Hend). apply (wait_tx_ok _ _ _ _ _ _ _ _ _ _ _ B Hp). split; [done|]. split; [by apply Hstart|done].
  - destruct Hs as (A' & ? & Himp & ?). exists A'. split_and!; auto. apply Himp; auto.
    destruct (x_buf x !! key) eqn:Eb; [|done]. destruct (Hfree t x Hx). left. by rewrite Eb.
  - exists A. split_and!; auto.
Qed.

Lemma tx_step_apart s t x x' u y : s_txs s !! t = Some x -> tx_step s t x x' -> u <> t -> s_txs s !! u = Some y -> apart x y -> apart y x -> apart x' y /\ apart y x'.
Proof.
  intros Hx Hst Hu Hy Hxy Hyx. destruct Hst; try by split.
  - eapply apart_lock; eauto.
  - apply apart_write; auto. by apply (H2 u y).
  - apply apart_write; auto. by apply (H2 u y).
Qed.

Lemma commit_state_ok D txs t x : state_ok (mkState D txs) -> txs !! t = Some x -> x_prog x = Ret (Ok ()) -> state_ok (mkState (view (x_buf x) D) (delete t txs)).
Proof.
  intros (Hi & Hok & Hap) Hx Hp. simpl in *. assert (Hc : commit_ok D (x_buf x) (x_locks x)).
  { specialize (Hok t x Hx). unfold tx_ok in Hok. destruct (x_wait x) as [[[? ?] ?]|]; [destruct Hok as (? & ? & ? & Hp' & _); congruence|].
    destruct Hok as (A & _ & HA & Hs). rewrite Hp in Hs. by apply Hs. }
  destruct Hc as [Hi' Hk]. split_and!; [done| |].
  - simpl. intros u y [Hne Hy]%lookup_delete_Some. eapply tx_ok_stable; [by eapply Hok|done| |].
    + intros k Hl. rewrite lookup_view. destruct (x_buf x !! k) eqn:Eb; [|done]. by destruct (proj1 (Hap t u x y Hne Hx Hy) k (mk_is_Some _ _ Eb)).
    + apply Hk; [|intros k m; by apply (proj2 (Hap u t y x (not_eq_sym Hne) Hy Hx))].
      intros k m Hb Hin. apply (proj1 (Hap t u x y Hne Hx Hy) k Hb). right. eauto.
  - simpl. intros t1 t2 x1 x2 Hne [_ H1]%lookup_delete_Some [_ H2]%lookup_delete_Some. by apply (Hap t1 t2).
Qed.

Context (begins_safe : forall p, begins p -> safe p (fun _ b L => b = ∅ /\ L = [])).

Lemma step_state_ok s s' : step s s' -> state_ok s -> state_ok s'.
Proof.
  destruct 1 as [t p D txs Ht Hb|t x x' D txs Hx Hst|t x D txs Hx Hp|t x D txs Hx]; intros Hs.
  - destruct Hs as (Hi & Hok & Hap). simpl in *. split_and!; [done| |].
    + simpl. intros u y [[_ <-]|[Hne Hy]]%lookup_insert_Some; [|by apply (Hok u)]. unfold tx_ok. simpl.
      exists (fun _ b L => b = ∅ /\ L = []). split_and!; auto. by intros ? ? ? ? [-> ->].
    + simpl. intros t1 t2 x1 x2 Hne [[<- <-]|[? H1]]%lookup_insert_Some [[<- <-]|[? H2]]%lookup_insert_Some; [done| | |by apply (Hap t1 t2)].
      * split; simpl; [intros k [? Hk]; by rewrite lookup_empty in Hk|intros k m Hk; by apply not_elem_of_nil in Hk].
      * split; simpl; [|by intros k m _ Hk%not_elem_of_nil]. intros k _ [[? Hk]|[m Hk]]; simpl in Hk; [by rewrite lookup_empty in Hk|by apply not_elem_of_nil in Hk].
  - pose proof (tx_step_ok _ _ _ _ Hs Hx Hst) as Hok'. destruct Hs as (Hi & Hok & Hap). simpl in *. split_and!; [done| |].
    + simpl. intros u y [[_ <-]|[Hne Hy]]%lookup_insert_Some; [done|by apply (Hok u)].
    + simpl. intros t1 t2 x1 x2 Hne [[<- <-]|[? H1]]%lookup_insert_Some [[<- <-]|[? H2]]%lookup_insert_Some; [done| | |by apply (Hap t1 t2)].
      * eapply (tx_step_apart (mkState D txs) t x x' t2 x2); eauto.
      * eapply (tx_step_apart (mkState D txs) t x x' t1 x1); eauto.
  - by apply commit_state_ok.
  - destruct Hs as (Hi & Hok & Hap). simpl in *. split_and!; [done| |].
    + simpl. intros u y [Hne Hy]%lookup_delete_Some. by apply (Hok u).
    + simpl. intros t1 t2 x1 x2 Hne [_ H1]%lookup_delete_Some [_ H2]%lookup_delete_Some. by apply (Hap t1 t2).
Qed.

(** Every committed state satisfies the invariant. *)
Lemma reachable_state_ok D s : Inv D -> reachable D s -> state_ok s.
Proof.
  intros Hi Hr. assert (Hs : state_ok (mkState D ∅)) by (split_and!; [done| |]; simpl; intros *; by rewrite lookup_empty).
  unfold reachable in Hr. remember (mkState D ∅) as s0 eqn:E0. clear E0.
  induction Hr as [|s1 s2 s3 H1 H2 IH]; [done|]. apply IH. by eapply step_state_ok.
Qed.
Lemma reachable_Inv D s : Inv D -> reachable D s -> Inv (s_db s).
Proof. intros Hi Hr. apply (reachable_state_ok D s Hi Hr). Qed.

(** Seen from a running transaction, a step is its own, or one that leaves it as it is and
    replaces the committed rows, those it has written excepted. *)
Lemma running_cases t s s' x : state_ok s -> running t s s' -> s_txs s !! t = Some x ->
  (exists x', tx_step s t x x' /\ s_db s' = s_db s /\ s_txs s' !! t = Some x') \/
  (s_txs s' !! t = Some x /\ forall k, is_Some (x_buf x !! k) -> s_db s' !! k = s_db s !! k).
Proof.
  intros (Hi & Hok & Hap) (Hst & _ & [x1 Hx1]) Hx. destruct Hst as [u p D txs Hu Hb|u y y' D txs Hy Hst|u y D txs Hy Hp|u y D txs Hy]; simpl in *.
  - right. split; [|done]. rewrite lookup_insert_ne; [done|congruence].
  - destruct (decide (u = t)) as [-> |Hne]; [left|right].
    + assert (y = x) as -> by congruence. exists y'. by rewrite lookup_insert_eq.
    + by rewrite lookup_insert_ne.
  - apply lookup_delete_Some in Hx1 as [Hne _]. right. rewrite lookup_delete_ne by done. split; [done|]. intros k Hk.
    rewrite lookup_view. destruct (x_buf y !! k) eqn:Eb; [|done].
    destruct (proj1 (Hap u t y x Hne Hy Hx) k); [by rewrite Eb|by left].
  - apply lookup_delete_Some in Hx1 as [Hne _]. right. by rewrite lookup_delete_ne.
Qed.
End txdb.

(** * Invariants of single rows

    A property of rows that every UPDATE and INSERT keeps, one row at a time, holds of
    every committed row: an UPDATE looks at a row again once it holds it. *)
Section local.
Context {K R E : Type} `{Countable K} (P : K -> R -> Prop).
Abbreviation prog := (@prog K R E _ _).

Fixpoint keeps_rows (p : prog) : Prop :=
  match p with
  | Ret _ => True
  | Select _ k => forall ans, keeps_rows (k ans)
  | Lock _ _ _ k => forall r, keeps_rows (k r)
  | Update sel upd k => (forall D key r r', sel D key r = true -> upd r = Some r' -> P key r -> P key r') /\ forall n, keeps_rows (k n)
  | Insert key row k => P key row /\ keeps_rows k
  | Advisory _ k => keeps_rows k
  end.

Definition rows_ok (D : gmap K R) : Prop := forall k r, D !! k = Some r -> P k r.
Definition writes_ok (_ : gmap K R) (b : gmap K (option R)) (_ : list (lockmode * K)) : Prop := forall k r, b !! k = Some (Some r) -> P k r.
Definition no_rely (_ : list (lockmode * K)) (_ _ : gmap K R) : Prop := True.

Lemma writes_ok_stable : stable rows_ok no_rely writes_ok.
Proof. intros D D' b L Hb _ _ _. exact Hb. Qed.
Lemma view_ok D b L : rows_ok D -> writes_ok D b L -> rows_ok (view b D).
Proof. intros HD Hb k r. rewrite lookup_view. unfold put. destruct (b !! k) as [w|] eqn:Eb; [intros ->; by apply Hb|apply HD]. Qed.

Lemma keeps_rows_safe p : keeps_rows p -> safe rows_ok no_rely p writes_ok.
Proof.
  induction p as [[u|e]|sel k IH|m key wh k IH|sel upd k IH|key row k IH|key k IH]; cbn [keeps_rows safe]; intros Hp.
  - intros D b L HD Hb. split; [by eapply view_ok|done].
  - done.
  - intros ans. exists writes_ok. split_and!; [apply writes_ok_stable|done|auto].
  - split; [auto|]. intros r. exists writes_ok. split_and!; [apply writes_ok_stable|done|auto].
  - destruct Hp as [Hu Hk]. exists (fun f _ D b L => (exists v, f = sel v) /\ writes_ok D b L). split_and!.
    + intros f keys D D' b L [Hf Hb] _ _ _. by split.
    + intros D b L _ Hb. split; [by eexists|done].
    + intros f key keys D b L HD [[v ->] Hb]. destruct (view b D !! key) as [r|] eqn:Ev; [|by split; [eexists|]].
      destruct (sel v key r) eqn:Es; [|by split; [eexists|]]. split; [by eexists|]. intros k' r'. rewrite lookup_insert_Some. intros [[<- Hr]|[_ Hr]]; [|by apply Hb].
      eapply Hu; [exact Es|done|]. by apply (view_ok D b L HD Hb).
    + intros n. exists writes_ok. split_and!; [apply writes_ok_stable|by intros f D b L _ [_ Hb]|auto].
  - destruct Hp as [Hr Hk]. exists writes_ok. split_and!; [apply writes_ok_stable| |auto].
    intros D b L _ Hb _ _ k' r'. rewrite lookup_insert_Some. intros [[<- [= <-]]|[_ ?]]; [done|by apply Hb].
  - auto.
Qed.

Lemma local_state_ok begins D s : (forall p, begins p -> keeps_rows p) -> rows_ok D -> reachable begins D s -> state_ok rows_ok no_rely s.
Proof.
  intros Hb HD Hr. apply (reachable_state_ok begins rows_ok no_rely) with D; [|done|done]. intros p Hp.
  eapply safe_weaken; [|apply keeps_rows_safe, Hb, Hp]. intros D' b L _ [-> _] k r Hk. by rewrite lookup_empty in Hk.
Qed.
Lemma local_reachable begins D s : (forall p, begins p -> keeps_rows p) -> rows_ok D -> reachable begins D s -> rows_ok (s_db s).
Proof. intros Hb HD Hr. apply (local_state_ok begins D s Hb HD Hr). Qed.
End local.
