(* ===== verification/Catalog.v ===== *)
(** Projects, environments and secrets: src/internal/storage/store/local_secrets.go
    (create, delete, restore and the project cascade), local_parent_liveness.go, and the
    transactions of src/internal/core/secrets.go, secret_suspend.go and catalog.go that
    call them.

    Each operation is the program of SQL statements its transaction sends, in order, with
    the answers it branches on.  Columns that no statement here reads are left out; audit
    rows and machine identities are not modelled. *)
From Stdlib Require Import ZArith Lia.
From stdpp Require Import base numbers tactics sets list gmap.
From S2P Require Import Prelude TxDB.

(** * Rows *)

Inductive key := KProject (id : Z) | KEnv (id : Z) | KSecret (id : Z) | KVersion (id : Z) | KShare (id : Z) | KACL (id : Z) | KRequest (id : Z) | KDynamic (id : Z) | KRole (id : Z).
Inductive secretStatus := SecretStatusActive | SecretStatusSuspended.
Inductive requestState := RequestPending | RequestApproved | RequestExpired.

Record SecretNode := mkSecret {
  sn_ProjectID : Z; sn_EnvironmentID : Z; sn_Status : secretStatus; sn_DeletedAt : option Z; sn_PurgeAt : option Z; sn_RetentionOverrideDays : Z }.
Inductive row :=
| RProject (DeletedAt : option Z)
| REnv (ProjectID : Z) (DeletedAt : option Z)
| RSecret (s : SecretNode)
| RVersion (SecretNodeID VersionNumber : Z)
| RShare (SecretID : Z) (DeletedAt : option Z)
| RACL (SecretID : Z)
| RRequest (SecretID : option Z) (State : requestState) (ResolvedAt : option Z)
| RDynamic (ProjectID : Z) (Disabled : bool)
| RRole (ProjectID : Z).  (* a role granted to a user or a group at the project or one of its environments *)

#[export] Instance key_eq_decision : EqDecision key.
Proof. solve_decision. Defined.
#[export] Instance key_countable : Countable key.
Proof.
  refine (inj_countable' (fun k => match k with
      | KProject i => (0, i) | KEnv i => (1, i) | KSecret i => (2, i) | KVersion i => (3, i) | KShare i => (4, i) | KACL i => (5, i) | KRequest i => (6, i) | KDynamic i => (7, i) | KRole i => (8, i) end%Z)
    (fun x => let i := x.2 in match x.1 with 0 => KProject i | 1 => KEnv i | 2 => KSecret i | 3 => KVersion i | 4 => KShare i | 5 => KACL i | 6 => KRequest i | 7 => KDynamic i | _ => KRole i end%Z) _).
  by intros [].
Defined.
#[export] Instance secretStatus_eq_decision : EqDecision secretStatus.
Proof. solve_decision. Defined.
#[export] Instance requestState_eq_decision : EqDecision requestState.
Proof. solve_decision. Defined.

#[export] Instance SecretNode_eq_decision : EqDecision SecretNode.
Proof. solve_decision. Defined.
#[export] Instance row_eq_decision : EqDecision row.
Proof. solve_decision. Defined.

Inductive cat_err := ErrProjectNotFound | ErrEnvironmentNotFound | ErrSecretNotFound | ErrParentDeleted | ErrHasSecrets (n : nat) | ErrStatusChanged.

Abbreviation table := (gmap key row).
Abbreviation prog := (@TxDB.prog key row cat_err _ _).

Definition live (deleted : option Z) : bool := match deleted with None => true | Some _ => false end.
Definition set_DeletedAt (t : option Z) (s : SecretNode) : SecretNode :=
  mkSecret (sn_ProjectID s) (sn_EnvironmentID s) (sn_Status s) t (sn_PurgeAt s) (sn_RetentionOverrideDays s).
Definition set_PurgeAt (t : option Z) (s : SecretNode) : SecretNode :=
  mkSecret (sn_ProjectID s) (sn_EnvironmentID s) (sn_Status s) (sn_DeletedAt s) t (sn_RetentionOverrideDays s).
Definition set_Status (st : secretStatus) (s : SecretNode) : SecretNode :=
  mkSecret (sn_ProjectID s) (sn_EnvironmentID s) st (sn_DeletedAt s) (sn_PurgeAt s) (sn_RetentionOverrideDays s).
(** An UPDATE of secret rows. *)
Definition on_secret (f : SecretNode -> SecretNode) (r : row) : option row := match r with RSecret s => Some (RSecret (f s)) | _ => Some r end.

(** ** Statements' conditions *)

Definition is_secret (P : SecretNode -> bool) (r : row) : bool := match r with RSecret s => P s | _ => false end.
Definition at_id (k : key) (P : row -> bool) (k' : key) (r : row) : bool := bool_decide (k' = k) && P r.
Definition live_secret_of (project : Z) (s : SecretNode) : bool := (sn_ProjectID s =? project)%Z && live (sn_DeletedAt s).
Definition live_env_of (project : Z) (r : row) : bool := match r with REnv p d => (p =? project)%Z && live d | _ => false end.
Definition live_project (r : row) : bool := match r with RProject d => live d | _ => false end.
Definition live_env (r : row) : bool := match r with REnv _ d => live d | _ => false end.
(** secret_id IN (SELECT id FROM secret_nodes WHERE project_id = ...), unscoped. *)
Definition secret_in_project (project : Z) (T : table) (sid : Z) : bool :=
  match T !! KSecret sid with Some (RSecret s) => (sn_ProjectID s =? project)%Z | _ => false end.

(** models.PurgeAtFor, in nanoseconds: UTC days. *)
Definition PurgeAtFor (deletedAt days : Z) : Z := (deletedAt + days * (86400 * 1000000000))%Z.

(** lockLiveParent / LockLiveProject: after the child's write, in its transaction. *)
Definition LockLiveProject (project : Z) (gone : cat_err) (k : prog) : prog :=
  Lock LShare (KProject project) live_project (fun r => match r with Some _ => k | None => Ret (Err gone) end).

(** withEnvironmentSecretGuard: the environment's lock, and the environment read under it. *)
Definition withEnvironmentSecretGuard (env : Z) (k : prog) : prog :=
  Advisory env (Select (at_id (KEnv env) live_env) (fun rows => match rows with [] => Ret (Err ErrEnvironmentNotFound) | _ => k end)).

(** * Secrets *)

(** The transaction of CreateSecret (and, without a version, of CreateFolder). *)
Definition CreateSecret (id version project env override : Z) : prog :=
  withEnvironmentSecretGuard env
    (Insert (KSecret id) (RSecret (mkSecret project env SecretStatusActive None None override))
      (Insert (KVersion version) (RVersion id 1)
        (LockLiveProject project ErrProjectNotFound (Ret (Ok ()))))).
Definition CreateFolder (id project env : Z) : prog :=
  withEnvironmentSecretGuard env
    (Insert (KSecret id) (RSecret (mkSecret project env SecretStatusActive None None 0))
      (LockLiveProject project ErrProjectNotFound (Ret (Ok ())))).

(** stampSecretPurgeAt *)
Fixpoint stamp_rows (globalDays : Z) (rows : list (key * row)) (k : prog) : prog :=
  match rows with
  | [] => k
  | (kid, RSecret s) :: rows =>
      let days := if (0 <? sn_RetentionOverrideDays s)%Z then sn_RetentionOverrideDays s else globalDays in
      Update (fun _ => at_id kid (is_secret (fun _ => true)))
        (on_secret (set_PurgeAt (Some (PurgeAtFor (default 0%Z (sn_DeletedAt s)) days)))) (fun _ => stamp_rows globalDays rows k)
  | _ :: rows => stamp_rows globalDays rows k
  end.
Definition stampSecretPurgeAt (ids : list key) (globalDays : Z) (k : prog) : prog :=
  if (globalDays <=? 0)%Z || bool_decide (ids = []) then k
  else Select (fun kid r => bool_decide (kid ∈ ids) && is_secret (fun s => negb (live (sn_DeletedAt s))) r) (fun rows => stamp_rows globalDays rows k).

(** closeApprovedSecretAccessRequests *)
Definition closeApprovedSecretAccessRequests (cond : table -> Z -> bool) (now : Z) (k : prog) : prog :=
  Update (fun T _ r => match r with RRequest (Some sid) RequestApproved _ => cond T sid | _ => false end)
    (fun r => match r with RRequest sid _ _ => Some (RRequest sid RequestExpired (Some now)) | _ => Some r end) (fun _ => k).

(** The access of some secrets, revoked: shares soft-deleted, access lists removed, approved requests closed.  The grants of
    roles at the project ([RRole]) are not touched by any deletion or restoration. *)
Definition revoke_access (cond : table -> Z -> bool) (now : Z) (k : prog) : prog :=
  Update (fun T _ r => match r with RShare sid d => cond T sid && live d | _ => false end)
    (fun r => match r with RShare sid _ => Some (RShare sid (Some now)) | _ => Some r end) (fun _ =>
  Update (fun T _ r => match r with RACL sid => cond T sid | _ => false end) (fun _ => None) (fun _ =>
  closeApprovedSecretAccessRequests cond now k)).

Definition DeleteSecret (id now globalDays : Z) : prog :=
  Update (fun _ => at_id (KSecret id) (is_secret (fun s => live (sn_DeletedAt s)))) (on_secret (set_DeletedAt (Some now))) (fun n =>
  if (n =? 0)%nat then Ret (Err ErrSecretNotFound)
  else stampSecretPurgeAt [KSecret id] globalDays (revoke_access (fun _ sid => (sid =? id)%Z) now (Ret (Ok ())))).

(** RestoreSecret *)
Definition restore_secret (id project : Z) : prog :=
  Update (fun _ => at_id (KSecret id) (is_secret (fun s => negb (live (sn_DeletedAt s))))) (on_secret (set_PurgeAt None)) (fun _ =>
  Update (fun _ => at_id (KSecret id) (is_secret (fun s => negb (live (sn_DeletedAt s))))) (on_secret (set_DeletedAt None)) (fun n =>
  if (n =? 0)%nat then Ret (Err ErrSecretNotFound)
  else LockLiveProject project ErrParentDeleted (Ret (Ok ())))).
Definition RestoreSecret (id : Z) : prog :=
  Select (at_id (KSecret id) (is_secret (fun _ => true))) (fun rows =>
  match rows with
  | (_, RSecret s) :: _ =>
      Select (at_id (KProject (sn_ProjectID s)) live_project) (fun rows =>
      match rows with
      | [] => Ret (Err ErrParentDeleted)
      | _ =>
          if (sn_EnvironmentID s =? 0)%Z then restore_secret id (sn_ProjectID s)
          else Advisory (sn_EnvironmentID s) (Select (at_id (KEnv (sn_EnvironmentID s)) live_env) (fun rows =>
            match rows with [] => Ret (Err ErrParentDeleted) | _ => restore_secret id (sn_ProjectID s) end))
      end)
  | _ => Ret (Err ErrSecretNotFound)
  end).

(** TransitionSecretStatus *)
Definition TransitionSecretStatus (id : Z) (from to : secretStatus) (k : nat -> prog) : prog :=
  Update (fun _ => at_id (KSecret id) (is_secret (fun s => live (sn_DeletedAt s) && bool_decide (sn_Status s = from)))) (on_secret (set_Status to)) k.
Definition transitionSuspend (id : Z) (from : secretStatus) : prog :=
  TransitionSecretStatus id from SecretStatusSuspended (fun n => if (n =? 1)%nat then Ret (Ok ()) else Ret (Err ErrStatusChanged)).
(** ResumeSecret: the secret as read before, then the guarded transition. *)
Definition resume (id project : Z) : prog :=
  TransitionSecretStatus id SecretStatusSuspended SecretStatusActive (fun n =>
    if (n =? 1)%nat then LockLiveProject project ErrProjectNotFound (Ret (Ok ())) else Ret (Err ErrStatusChanged)).
Definition ResumeSecret (id : Z) : prog :=
  Select (at_id (KSecret id) (is_secret (fun s => live (sn_DeletedAt s)))) (fun rows =>
  match rows with
  | (_, RSecret s) :: _ =>
      match sn_Status s with
      | SecretStatusActive => Ret (Ok ())
      | SecretStatusSuspended =>
          if (sn_EnvironmentID s =? 0)%Z then resume id (sn_ProjectID s) else withEnvironmentSecretGuard (sn_EnvironmentID s) (resume id (sn_ProjectID s))
      end
  | _ => Ret (Err ErrSecretNotFound)
  end).

(** * Environments *)

(** The transaction of CreateProjectEnvironment. *)
Definition CreateProjectEnvironment (id project : Z) : prog :=
  Insert (KEnv id) (REnv project None) (LockLiveProject project ErrProjectNotFound (Ret (Ok ()))).

Definition DeleteEnvironment (id now : Z) : prog :=
  Advisory id (Select (fun _ => is_secret (fun s => (sn_EnvironmentID s =? id)%Z && bool_decide (sn_Status s = SecretStatusActive) && live (sn_DeletedAt s))) (fun rows =>
  if negb (length rows =? 0)%nat then Ret (Err (ErrHasSecrets (length rows)))
  else Update (fun _ => at_id (KEnv id) live_env) (fun r => match r with REnv p _ => Some (REnv p (Some now)) | _ => Some r end) (fun n =>
    if (n =? 0)%nat then Ret (Err ErrEnvironmentNotFound) else Ret (Ok ())))).

Definition RestoreEnvironment (project id : Z) : prog :=
  Select (at_id (KProject project) live_project) (fun rows =>
  match rows with
  | [] => Ret (Err ErrParentDeleted)
  | _ =>
      Update (fun _ => at_id (KEnv id) (fun r => match r with REnv p d => (p =? project)%Z && negb (live d) | _ => false end))
        (fun r => match r with REnv p _ => Some (REnv p None) | _ => Some r end) (fun n =>
      if (n =? 0)%nat then Ret (Err ErrEnvironmentNotFound) else LockLiveProject project ErrParentDeleted (Ret (Ok ())))
  end).

(** * Projects *)

(** CreateProject with the environments its seeding created (each in a savepoint of its own, so any of them may be missing). *)
Fixpoint seed (project : Z) (envs : list Z) : prog :=
  match envs with [] => Ret (Ok ()) | e :: envs => Insert (KEnv e) (REnv project None) (seed project envs) end.
Definition CreateProject (project : Z) (envs : list Z) : prog := Insert (KProject project) (RProject None) (seed project envs).

Definition lockProjectRowForCascade (id : Z) (k : prog) : prog :=
  Lock LUpdate (KProject id) (fun _ => true) (fun r => match r with Some (RProject None) => k | _ => Ret (Err ErrProjectNotFound) end).

(** deleteProjectCascade, [now] its own time stamp and [now'] the one GORM gives to the rows it soft-deletes. *)
Definition cascade_rest (id now : Z) : prog :=
  Update (fun _ _ => live_env_of id) (fun r => match r with REnv p _ => Some (REnv p (Some now)) | _ => Some r end) (fun _ =>
  Update (fun _ _ r => match r with RDynamic p d => (p =? id)%Z && negb d | _ => false end)
    (fun r => match r with RDynamic p _ => Some (RDynamic p true) | _ => Some r end) (fun _ =>
  Update (fun _ => at_id (KProject id) live_project) (fun r => match r with RProject _ => Some (RProject (Some now)) | _ => Some r end) (fun n =>
  if (n =? 0)%nat then Ret (Err ErrProjectNotFound) else Ret (Ok ())))).
Definition sweep_project (id now now' globalDays : Z) : prog :=
  Select (fun _ => is_secret (live_secret_of id)) (fun ids =>
  Update (fun _ _ => is_secret (live_secret_of id)) (on_secret (set_DeletedAt (Some now))) (fun _ =>
  stampSecretPurgeAt ids.*1 globalDays (revoke_access (secret_in_project id) now' (cascade_rest id now)))).
Definition DeleteProject (id now now' globalDays : Z) : prog := lockProjectRowForCascade id (sweep_project id now now' globalDays).
(** DeleteProjectIfEmpty: with live secrets it commits nothing and returns their number, here as an error. *)
Definition DeleteProjectIfEmpty (id now now' globalDays : Z) : prog :=
  lockProjectRowForCascade id (Select (fun _ => is_secret (live_secret_of id)) (fun secrets =>
  if (length secrets =? 0)%nat then DeleteProject id now now' globalDays else Ret (Err (ErrHasSecrets (length secrets))))).

(** RestoreProject; cascadeChildIDs selects the rows deleted at or after the project, and they are restored by id
    (the code sends the ids in chunks of 500). *)
Definition cascadeChild (project cascadeTS : Z) (p : Z) (d : option Z) : bool :=
  (p =? project)%Z && match d with Some t => (cascadeTS <=? t)%Z | None => false end.
Definition RestoreProject (id : Z) : prog :=
  Lock LUpdate (KProject id) (fun r => match r with RProject d => negb (live d) | _ => false end) (fun r =>
  match r with
  | Some (RProject (Some cascadeTS)) =>
      Select (fun _ r => match r with REnv p d => cascadeChild id cascadeTS p d | _ => false end) (fun envs =>
      Update (fun _ k r => bool_decide (k ∈ envs.*1) && match r with REnv _ _ => true | _ => false end)
        (fun r => match r with REnv p _ => Some (REnv p None) | _ => Some r end) (fun _ =>
      Select (fun _ => is_secret (fun s => cascadeChild id cascadeTS (sn_ProjectID s) (sn_DeletedAt s))) (fun secrets =>
      Update (fun _ k r => bool_decide (k ∈ secrets.*1) && is_secret (fun s => negb (live (sn_DeletedAt s))) r) (on_secret (set_PurgeAt None)) (fun _ =>
      Update (fun _ k r => bool_decide (k ∈ secrets.*1) && is_secret (fun _ => true) r) (on_secret (set_DeletedAt None)) (fun _ =>
      Update (fun _ => at_id (KProject id) (fun _ => true)) (fun r => match r with RProject _ => Some (RProject None) | _ => Some r end) (fun _ => Ret (Ok ())))))))
  | _ => Ret (Err ErrProjectNotFound)
  end).

(** Each table's rows under its own keys. *)
Definition kind_ok (k : key) (r : row) : bool :=
  match k, r with
  | KProject _, RProject _ | KEnv _, REnv _ _ | KSecret _, RSecret _ | KVersion _, RVersion _ _ | KShare _, RShare _ _
  | KACL _, RACL _ | KRequest _, RRequest _ _ _ | KDynamic _, RDynamic _ _ | KRole _, RRole _ => true
  | _, _ => false
  end.

(** The operations any number of clients can run at once. *)
Inductive operation : prog -> Prop :=
| op_CreateSecret id version project env override : operation (CreateSecret id version project env override)
| op_CreateFolder id project env : operation (CreateFolder id project env)
| op_DeleteSecret id now days : operation (DeleteSecret id now days)
| op_RestoreSecret id : operation (RestoreSecret id)
| op_transitionSuspend id from : operation (transitionSuspend id from)
| op_ResumeSecret id : operation (ResumeSecret id)
| op_CreateProjectEnvironment id project : operation (CreateProjectEnvironment id project)
| op_DeleteEnvironment id now : operation (DeleteEnvironment id now)
| op_RestoreEnvironment project id : operation (RestoreEnvironment project id)
| op_CreateProject project envs : operation (CreateProject project envs)
| op_DeleteProject id now now' days : operation (DeleteProject id now now' days)
| op_DeleteProjectIfEmpty id now now' days : operation (DeleteProjectIfEmpty id now now' days)
| op_RestoreProject id : operation (RestoreProject id).
