(* ===== verification/CatalogSafe.v ===== *)
(** No live environment or secret under a deleted project, whatever transactions run
    together (the store's parent-liveness rule). *)
From Stdlib Require Import ZArith Lia.
From stdpp Require Import base numbers tactics sets list gmap.
From S2P Require Import Prelude TxDB Catalog.

Abbreviation buf := (gmap key (option row)).
Abbreviation locks := (list (lockmode * key)).

(** * Children of a project *)

(** The project of an environment or secret, and whether the row is live. *)
Definition parent (r : row) : option (Z * bool) :=
  match r with REnv p d => Some (p, live d) | RSecret s => Some (sn_ProjectID s, live (sn_DeletedAt s)) | _ => None end.
Definition child_of (q : Z) (o : option row) : Prop := exists r l, o = Some r /\ parent r = Some (q, l).
Definition live_child (q : Z) (o : option row) : Prop := exists r, o = Some r /\ parent r = Some (q, true).
Definition project_live (D : table) (q : Z) : Prop := D !! KProject q = Some (RProject None).

(** The rule, and what every transaction leaves alone: a child keeps its project, and no child comes to life in a
    project another transaction has locked for update. *)
Definition parents_live (D : table) : Prop := forall k q, live_child q (D !! k) -> project_live D q.
Definition typed (D : table) : Prop := forall k r, D !! k = Some r -> kind_ok k r = true.
Definition catalog_ok (D : table) : Prop := typed D /\ parents_live D.
Definition keeps (L : locks) (D D' : table) : Prop :=
  (forall k q, child_of q (D !! k) -> child_of q (D' !! k)) /\
  (forall k q, (LUpdate, KProject q) ∈ L -> live_child q (D' !! k) -> live_child q (D !! k)).

Lemma live_child_child q o : live_child q o -> child_of q o.
Proof. intros (r & -> & Hp). by exists r, true. Qed.
Lemma child_unique p q o : child_of p o -> child_of q o -> p = q.
Proof. intros (r & l & -> & Hp) (r' & l' & [= <-] & Hq). congruence. Qed.

Abbreviation asrt := (table -> buf -> locks -> Prop).
Abbreviation stable := (TxDB.stable catalog_ok keeps).
Abbreviation safe := (TxDB.safe (E := cat_err) catalog_ok keeps).

(** * What a transaction has written *)

(** Children keep their projects, and those it brought to life are at [G]. *)
Definition base (G : key -> Z -> Prop) (D : table) (b : buf) : Prop :=
  (forall k r, b !! k = Some (Some r) -> kind_ok k r = true) /\
  (forall k q, child_of q (D !! k) -> child_of q (view b D !! k)) /\
  (forall k q, live_child q (view b D !! k) -> live_child q (D !! k) \/ G k q).
Definition no_project (b : buf) : Prop := forall q, b !! KProject q = None.

Lemma view_rely (b : buf) (L : locks) (D D' : table) k : (forall k, holds_key b L k -> D' !! k = D !! k) ->
  (view b D' !! k = view b D !! k /\ D' !! k = D !! k) \/ (view b D' !! k = D' !! k /\ view b D !! k = D !! k).
Proof.
  intros Hk. rewrite !lookup_view. destruct (b !! k) as [w|] eqn:Eb; [|by right]. left. split; [done|]. apply Hk. left. by rewrite Eb.
Qed.

Lemma base_rely G b L D D' : base G D b -> (forall k, holds_key b L k -> D' !! k = D !! k) -> base G D' b.
Proof.
  intros (Ht & Hc & Hg) Hk. split_and!; [done| |]; intros k q; destruct (view_rely b L D D' k Hk) as [[Hv Hd]|[Hv Hd]]; rewrite Hv; rewrite ?Hd; auto.
Qed.

(** The effect of a write on a row: its project stays, and it comes to life only at [G]. *)
Definition tame (G : key -> Z -> Prop) (k : key) (r : row) (w : option row) : Prop :=
  (forall w', w = Some w' -> kind_ok k r = true -> kind_ok k w' = true) /\ (forall q l, parent r = Some (q, l) -> child_of q w) /\ (forall q, live_child q w -> parent r = Some (q, true) \/ G k q).

Lemma view_typed G D b : catalog_ok D -> base G D b -> typed (view b D).
Proof. intros [Ht _] [Hb _] k r. rewrite lookup_view. destruct (b !! k) as [w|] eqn:Eb; simpl; [intros ->|]; eauto. Qed.

Lemma lookup_view_insert (b : buf) (D : table) k w k' : view (<[k := w]> b) D !! k' = if decide (k' = k) then w else view b D !! k'.
Proof. rewrite !lookup_view. destruct (decide (k' = k)) as [->|Hne]; by simplify_map_eq. Qed.

Lemma base_write G D b k r w : catalog_ok D -> base G D b -> view b D !! k = Some r -> tame G k r w -> base G D (<[k := w]> b).
Proof.
  intros Hok Hb Hv (Hk & Ht & Hl). pose proof (view_typed _ _ _ Hok Hb k r Hv) as Hkr. destruct Hb as (Hty & Hc & Hg). split_and!.
  - intros k' r' [[<- Hw]|[Hne Hb]]%lookup_insert_Some; eauto.
  - intros k' q Hd. rewrite lookup_view_insert. destruct (decide (k' = k)) as [->|Hne]; auto.
    destruct (Hc k q Hd) as (r' & l & Hv' & Hp). rewrite Hv in Hv'. injection Hv' as <-. by eapply Ht.
  - intros k' q. rewrite lookup_view_insert. destruct (decide (k' = k)) as [->|Hne]; auto.
    intros Hd. destruct (Hl q Hd) as [Hp|?]; [|by right]. apply Hg. exists r. by split.
Qed.

Lemma base_insert G D b k w : base G D b -> D !! k = None -> kind_ok k w = true -> (forall q, live_child q (Some w) -> G k q) -> base G D (<[k := Some w]> b).
Proof.
  intros (Hty & Hc & Hg) Hd Hkw Hw. split_and!.
  - intros k' r' [[<- [= <-]]|[Hne Hb]]%lookup_insert_Some; eauto.
  - intros k' q. rewrite lookup_view_insert. destruct (decide (k' = k)) as [->|Hne]; auto. rewrite Hd. by intros (? & ? & ? & _).
  - intros k' q. rewrite lookup_view_insert. destruct (decide (k' = k)) as [->|Hne]; auto.
Qed.

(** A commit is fine when the rule still holds and every project that gained a live child was locked or written. *)
Lemma commit_base G D b L : base G D b -> catalog_ok (view b D) -> (forall k q, live_child q (view b D !! k) -> G k q -> holds_key b L (KProject q)) ->
  TxDB.commit_ok catalog_ok keeps D b L.
Proof.
  intros (_ & Hc & Hg) Hi Hl. split; [done|]. intros L' Hb Hu. split; [done|]. intros k q HU Hlv. destruct (Hg k q Hlv) as [?|HG]; [done|].
  destruct (Hl k q Hlv HG) as [Hs|[m Hm]]; [by destruct (Hb _ LUpdate Hs)|by destruct (Hu _ m HU)].
Qed.

(** * Proof rules for statements *)

Lemma safe_update (A : asrt) sel upd k : stable A ->
  (forall T key r D b L, catalog_ok D -> A D b L -> view b D !! key = Some r -> sel T key r = true -> A D (<[key := upd r]> b) L) ->
  (forall n, safe (k n) A) -> safe (Update sel upd k) A.
Proof.
  intros Hst Hrow Hk. exists (fun f keys D b L => A D b L /\ exists T, f = sel T). split_and!.
  - intros f keys D D' b L [HA HT] Hi Hh Hkp. split; [by eapply Hst|done].
  - intros D b L _ HA. split; eauto.
  - intros f key keys D b L Hi [HA [T ->]]. destruct (view b D !! key) as [r|] eqn:Ev; [|by eauto]. destruct (sel T key r) eqn:Es; eauto.
  - intros n. exists A. split_and!; auto. by intros f D b L _ [? _].
Qed.

(** An UPDATE of every row that satisfies a condition: afterwards no row does. *)
Lemma safe_sweep (A A' : asrt) (P : key -> row -> bool) upd k : stable A' ->
  (forall D b L, catalog_ok D -> A D b L -> (forall key r, view b D !! key = Some r -> P key r = false) -> A' D b L) ->
  (forall keys : list Catalog.key, stable (fun D b L => A D b L /\ forall key r, view b D !! key = Some r -> P key r = true -> key ∈ keys)) ->
  (forall key r D b L, catalog_ok D -> A D b L -> view b D !! key = Some r -> P key r = true ->
     A D (<[key := upd r]> b) L /\ forall r', upd r = Some r' -> P key r' = false) ->
  (forall n, safe (k n) A') -> safe (Update (fun _ => P) upd k) A.
Proof.
  intros HstA' Hdone Hst Hrow Hk.
  exists (fun f keys D b L => f = P /\ A D b L /\ forall key r, view b D !! key = Some r -> P key r = true -> key ∈ keys). split_and!.
  - intros f keys D D' b L (-> & HA & Hin) Hi Hh Hkp. split; [done|]. apply (Hst keys D D' b L); auto.
  - intros D b L _ HA. split_and!; auto. intros key r Hv HP. apply list_elem_of_fmap. exists (key, r). split; [done|]. by apply elem_of_matching.
  - intros f key keys D b L Hi (-> & HA & Hin). destruct (view b D !! key) as [r|] eqn:Ev; [destruct (P key r) eqn:EP|].
    + destruct (Hrow key r D b L Hi HA Ev EP) as [HA2 Hoff]. split; [done|]. split; [exact HA2|]. intros key' r' Hv' HP'. rewrite lookup_view in Hv'.
      destruct (decide (key' = key)) as [->|Hne]; [rewrite lookup_insert_eq in Hv'; simpl in Hv'; by rewrite (Hoff r' Hv') in HP'|].
      rewrite lookup_insert_ne, <- lookup_view in Hv' by done. destruct (proj1 (elem_of_cons _ _ _) (Hin _ _ Hv' HP')); done.
    + split; [done|]. split; [exact HA|]. intros key' r' Hv' HP'. destruct (proj1 (elem_of_cons _ _ _) (Hin _ _ Hv' HP')) as [->|?]; [|done]. congruence.
    + split; [done|]. split; [exact HA|]. intros key' r' Hv' HP'. destruct (proj1 (elem_of_cons _ _ _) (Hin _ _ Hv' HP')) as [->|?]; [|done]. by rewrite Ev in Hv'.
  - intros n. exists A'. split_and!; auto. intros f D b L Hok (_ & HA & Hin). apply Hdone; [done|done|].
    intros key r Hv. destruct (P key r) eqn:EP; [|done]. by apply (Hin _ _ Hv), not_elem_of_nil in EP.
Qed.

Lemma safe_select (A : asrt) sel k : stable A -> (forall ans, safe (k ans) A) -> safe (Select sel k) A.
Proof. intros Hst Hk ans. exists A. split_and!; auto. Qed.

(** * Transactions that write no project row *)

(** What such a transaction knows of the committed rows and of its locks. *)
Definition stable_fact (T : table -> locks -> Prop) : Prop :=
  (forall D D' L, T D L -> catalog_ok D' -> (forall k m, (m, k) ∈ L -> D' !! k = D !! k) -> keeps L D D' -> T D' L) /\
  (forall D L x, T D L -> T D (x :: L)).
Definition cw (G : key -> Z -> Prop) (T : table -> locks -> Prop) : asrt := fun D b L => base G D b /\ no_project b /\ T D L.

Lemma cw_stable G T : stable_fact T -> stable (cw G T).
Proof.
  intros [HT _] D D' b L (Hb & Hn & Ht) Hi Hk Hkp. split_and!; [by eapply base_rely|done|]. eapply HT; eauto. intros k m Hin. apply Hk. right. eauto.
Qed.

Lemma cw_write G T D b L k r w : catalog_ok D -> cw G T D b L -> view b D !! k = Some r -> tame G k r w -> (forall d, r <> RProject d) -> cw G T D (<[k := w]> b) L.
Proof.
  intros Hok (Hb & Hn & Ht) Hv Hw Hr. split_and!; [by eapply base_write| |done]. intros q. pose proof (view_typed _ _ _ Hok Hb k r Hv) as Hkr.
  rewrite lookup_insert_ne; [done|]. intros ->. destruct r; simpl in Hkr; try done. by eapply Hr.
Qed.

Lemma safe_cw_update G T sel upd k : stable_fact T ->
  (forall tbl key r, sel tbl key r = true -> tame G key r (upd r) /\ forall d, r <> RProject d) ->
  (forall n, safe (k n) (cw G T)) -> safe (Update sel upd k) (cw G T).
Proof.
  intros HT Hrow Hk. apply safe_update; [by apply cw_stable| |done]. intros tbl key r D b L Hok Hcw Hv Hs.
  destruct (Hrow _ _ _ Hs) as [Ht Hr]. by eapply cw_write.
Qed.

(** The last statement of a child's transaction: its project, read under a share lock. *)
Lemma safe_LockLiveProject G T q gone : stable_fact T ->
  (forall D b L k q', base G D b -> T D L -> live_child q' (view b D !! k) -> G k q' -> q' = q) ->
  safe (LockLiveProject q gone (Ret (Ok ()))) (cw G T).
Proof.
  intros HT Hq. split; [done|]. intros r.
  exists (cw G (fun D L => T D L /\ (LShare, KProject q) ∈ L /\ project_live D q)). split_and!.
  - apply cw_stable. destruct HT as [HT1 HT2]. split.
    + intros D D' L (Ht & Hin & Hp) Hi Hk Hkp. split_and!; [by eapply HT1|done|]. unfold project_live. by rewrite (Hk _ _ Hin).
    + intros D L x (Ht & Hin & Hp). split_and!; auto. apply elem_of_cons. by right.
  - intros D b L _ (Hb & Hn & Ht) Hv Hl. split_and!; auto; [by apply HT|apply elem_of_cons; by left|].
    rewrite lookup_view, Hn in Hv. simpl in Hv. destruct r as [[d|]| | | | | | | |]; try done.
  - intros D b L [Hty Hpl] (Hb & Hn & Ht & Hin & Hp). apply (commit_base G); [done| |].
    + split; [by apply (view_typed G)|]. intros k q' Hl. unfold project_live. rewrite lookup_view, Hn. simpl.
      destruct (proj2 (proj2 Hb) k q' Hl) as [Hl'|HG]; [by eapply Hpl|]. by rewrite (Hq _ _ _ _ _ Hb Ht Hl HG).
    + intros k q' Hl HG. rewrite (Hq _ _ _ _ _ Hb Ht Hl HG). right. eauto.
Qed.

(** A transaction that brings nothing to life. *)
Abbreviation quiet := (cw (fun _ _ => False)).
Lemma safe_quiet_commit T : safe (Ret (Ok ())) (quiet T).
Proof.
  intros D b L [Hty Hpl] (Hb & Hn & Ht). apply (commit_base (fun _ _ => False)); [done| |done].
  split; [by apply (view_typed (fun _ _ => False))|]. intros k q' Hl. unfold project_live. rewrite lookup_view, Hn. simpl.
  destruct (proj2 (proj2 Hb) k q' Hl) as [Hl'|[]]. by eapply Hpl.
Qed.

(** * The operations on one child *)

Definition fresh : asrt := fun _ b L => b = ∅ /\ L = [].
Definition any : table -> locks -> Prop := fun _ _ => True.
Lemma any_stable : stable_fact any.
Proof. by split. Qed.
Lemma base_empty G D : base G D ∅.
Proof. split_and!; intros k; [intros r; by rewrite lookup_empty| |]; intros q; rewrite lookup_view, lookup_empty; simpl; auto. Qed.
Lemma fresh_cw G T p : (forall D, T D []) -> safe p (cw G T) -> safe p fresh.
Proof. intros HT. apply safe_weaken. intros D b L _ [-> ->]. split_and!; [apply base_empty|by intros q|apply HT]. Qed.

Lemma tame_secret G k s f : sn_ProjectID (f s) = sn_ProjectID s -> (live (sn_DeletedAt (f s)) = true -> live (sn_DeletedAt s) = true \/ G k (sn_ProjectID s)) ->
  tame G k (RSecret s) (on_secret f (RSecret s)).
Proof.
  intros Hp Hl. split_and!; simpl.
  - intros w' [= <-]. by destruct k.
  - intros q l [= <- <-]. rewrite <- Hp. eexists _, _. by split.
  - intros q (r & [= <-] & [= <- Hl']). rewrite Hp, Hl' in *. destruct (Hl eq_refl) as [->|?]; auto.
Qed.
Lemma tame_env G k p d d' : (live d' = true -> live d = true \/ G k p) -> tame G k (REnv p d) (Some (REnv p d')).
Proof.
  intros Hl. split_and!; simpl.
  - intros w' [= <-]. by destruct k.
  - intros q l [= <- <-]. eexists _, _. by split.
  - intros q (r & [= <-] & [= <- Hl']). destruct (Hl Hl') as [->|?]; auto.
Qed.
Lemma tame_other G k r w : parent r = None -> (forall w', w = Some w' -> parent w' = None /\ (kind_ok k r = true -> kind_ok k w' = true)) -> tame G k r w.
Proof.
  intros Hr Hw. split_and!.
  - intros w' Hw' Hk. by apply Hw.
  - intros q l. by rewrite Hr.
  - intros q (w' & Hw' & Hp). destruct (Hw w' Hw') as [Hn _]. congruence.
Qed.

Lemma is_secret_inv P r : is_secret P r = true -> exists s, r = RSecret s /\ P s = true.
Proof. destruct r; try done. simpl. eauto. Qed.
Lemma at_id_inv k P k' r : at_id k P k' r = true -> k' = k /\ P r = true.
Proof. unfold at_id. rewrite andb_true_iff, bool_decide_eq_true. done. Qed.

Lemma safe_guard env k A : stable A -> safe k A -> safe (withEnvironmentSecretGuard env k) A.
Proof. intros HA Hk. apply safe_select; [done|]. by intros [|]. Qed.

(** Assertions that every write leaves alone which brings nothing to life and touches no project. *)
Definition closed (A : asrt) : Prop := stable A /\ forall D b L k r w,
  catalog_ok D -> A D b L -> view b D !! k = Some r -> tame (fun _ _ => False) k r w -> (forall d, r <> RProject d) -> A D (<[k := w]> b) L.
Lemma tame_mono G k r w : tame (fun _ _ => False) k r w -> tame G k r w.
Proof. intros (? & ? & Hl). split_and!; auto. intros q Hq. destruct (Hl q Hq) as [?|[]]. by left. Qed.
Lemma cw_closed G T : stable_fact T -> closed (cw G T).
Proof. intros HT. split; [by apply cw_stable|]. intros. eapply cw_write; eauto using tame_mono. Qed.
Lemma safe_closed_update A sel upd k : closed A ->
  (forall tbl key r, sel tbl key r = true -> tame (fun _ _ => False) key r (upd r) /\ forall d, r <> RProject d) -> (forall n, safe (k n) A) -> safe (Update sel upd k) A.
Proof. intros [Hst Hw] Hrow Hk. apply safe_update; [done| |done]. intros tbl key r D b L Hok HA Hv Hs. destruct (Hrow _ _ _ Hs). by eapply Hw. Qed.

Lemma safe_stampSecretPurgeAt A ids days k : closed A -> safe k A -> safe (stampSecretPurgeAt ids days k) A.
Proof.
  intros HA Hk. unfold stampSecretPurgeAt. destruct (_ || _); [done|]. apply safe_select; [apply HA|]. intros rows.
  induction rows as [|[kid r] rows IH]; simpl; [done|]. destruct r; try done.
  apply safe_closed_update; [done| |by intros _]. intros _ key r [-> (s' & -> & _)%is_secret_inv]%at_id_inv. split; [|done]. apply tame_secret; auto.
Qed.
Lemma safe_revoke A cond now k : closed A -> safe k A -> safe (revoke_access cond now k) A.
Proof.
  intros HA Hk. apply safe_closed_update; [done| |intros _; apply safe_closed_update; [done| |intros _; apply safe_closed_update; [done| |by intros _]]];
    intros tbl key [| | | | | | | |] Hs; try done; (split; [|done]); apply tame_other; try done; intros w' [= <-]; (split; [done|]); by destruct key.
Qed.

Lemma safe_cw_insert G T key row k : stable_fact T -> (forall q, key <> KProject q) -> kind_ok key row = true -> (forall q, live_child q (Some row) -> G key q) ->
  safe k (cw G T) -> safe (Insert key row k) (cw G T).
Proof.
  intros HT Hkey Hk HG Hs. exists (cw G T). split_and!; [by apply cw_stable| |done].
  intros D b L _ (Hb & Hn & Ht) Hd _. split_and!; [by apply base_insert| |done]. intros q. rewrite lookup_insert_ne; [done|apply Hkey].
Qed.

Ltac gains := by intros ? (? & [= <-] & [= <-]).

Lemma safe_CreateSecret id version project env override : safe (CreateSecret id version project env override) fresh.
Proof.
  apply (fresh_cw (fun _ q => q = project) any); [done|]. apply safe_guard; [apply cw_stable, any_stable|].
  apply safe_cw_insert; [apply any_stable|done|done|gains|]. apply safe_cw_insert; [apply any_stable|done|done|by intros ? (? & [= <-] & [=])|].
  by apply safe_LockLiveProject; [apply any_stable|].
Qed.
Lemma safe_CreateFolder id project env : safe (CreateFolder id project env) fresh.
Proof.
  apply (fresh_cw (fun _ q => q = project) any); [done|]. apply safe_guard; [apply cw_stable, any_stable|].
  apply safe_cw_insert; [apply any_stable|done|done|gains|]. by apply safe_LockLiveProject; [apply any_stable|].
Qed.
Lemma safe_CreateProjectEnvironment id project : safe (CreateProjectEnvironment id project) fresh.
Proof.
  apply (fresh_cw (fun _ q => q = project) any); [done|].
  apply safe_cw_insert; [apply any_stable|done|done|gains|]. by apply safe_LockLiveProject; [apply any_stable|].
Qed.

(** An UPDATE of one secret by id. *)
Lemma safe_cw_secret G T id P f k : stable_fact T ->
  (forall s, P s = true -> sn_ProjectID (f s) = sn_ProjectID s /\ (live (sn_DeletedAt (f s)) = true -> live (sn_DeletedAt s) = true \/ G (KSecret id) (sn_ProjectID s))) ->
  (forall n, safe (k n) (cw G T)) -> safe (Update (fun _ => at_id (KSecret id) (is_secret P)) (on_secret f) k) (cw G T).
Proof.
  intros HT Hf Hk. apply safe_cw_update; [done| |done]. intros _ key r [-> (s' & -> & Hs)%is_secret_inv]%at_id_inv. destruct (Hf s' Hs). split; [|done]. by apply tame_secret.
Qed.

Lemma safe_DeleteSecret id now days : safe (DeleteSecret id now days) fresh.
Proof.
  apply (fresh_cw (fun _ _ => False) any); [done|]. apply safe_cw_secret; [apply any_stable|by split|]. intros n. destruct (n =? 0)%nat; [done|].
  apply safe_stampSecretPurgeAt, safe_revoke, safe_quiet_commit; apply cw_closed, any_stable.
Qed.
Lemma safe_transitionSuspend id from : safe (transitionSuspend id from) fresh.
Proof.
  apply (fresh_cw (fun _ _ => False) any); [done|]. apply safe_cw_secret; [apply any_stable|split; auto|].
  intros n. destruct (n =? 1)%nat; [|done]. apply safe_quiet_commit.
Qed.
Lemma safe_DeleteEnvironment id now : safe (DeleteEnvironment id now) fresh.
Proof.
  apply (fresh_cw (fun _ _ => False) any); [done|]. apply safe_select; [apply cw_stable, any_stable|]. intros rows. destruct (negb _); [done|].
  apply safe_cw_update; [apply any_stable| |intros n; destruct (n =? 0)%nat; [done|apply safe_quiet_commit]].
  intros _ key r [-> Hr]%at_id_inv. destruct r; try done. split; [|done]. by apply tame_env.
Qed.
Lemma safe_RestoreEnvironment project id : safe (RestoreEnvironment project id) fresh.
Proof.
  apply (fresh_cw (fun _ q => q = project) any); [done|]. apply safe_select; [apply cw_stable, any_stable|]. intros [|]; [done|].
  apply safe_cw_update; [apply any_stable| |intros n; destruct (n =? 0)%nat; [done|by apply safe_LockLiveProject; [apply any_stable|]]].
  intros _ key r [-> Hr]%at_id_inv. destruct r; try done. apply andb_true_iff in Hr as [->%Z.eqb_eq _]. split; [|done]. apply tame_env. auto.
Qed.

(** Operations that first read the secret: its project is known from then on. *)
Definition secret_of (id q : Z) : table -> locks -> Prop := fun D _ => child_of q (D !! KSecret id).
Lemma secret_of_stable id q : stable_fact (secret_of id q).
Proof. split; [|done]. intros D D' L HT _ _ [Hk _]. by apply Hk. Qed.
Definition read_secret (id q : Z) : asrt := fun D b L => fresh D b L /\ secret_of id q D L.
Lemma read_secret_stable id q : stable (read_secret id q).
Proof. intros D D' b L [[-> ->] HT] _ _ [Hk _]. split; [done|]. by apply Hk. Qed.
Lemma read_secret_cw G id q p : safe p (cw G (secret_of id q)) -> safe p (read_secret id q).
Proof. apply safe_weaken. intros D b L _ [[-> ->] HT]. split_and!; [apply base_empty|by intros ?|done]. Qed.
Lemma safe_read_secret id P k : (forall s, safe (k (Some s)) (read_secret id (sn_ProjectID s))) -> safe (k None) fresh ->
  safe (Select (at_id (KSecret id) (is_secret P)) (fun rows => match rows with (_, RSecret s) :: _ => k (Some s) | _ => k None end)) fresh.
Proof.
  intros Hs Hn ans. destruct ans as [|[key r] rest]; [|destruct r as [| |s| | | | | |]].
  4:{ exists (read_secret id (sn_ProjectID s)). split_and!; [apply read_secret_stable| |apply Hs].
      intros D b L _ [-> ->] Hans. split; [done|].
      assert (Hin : (key, RSecret s) ∈ matching (at_id (KSecret id) (is_secret P)) (view ∅ D)) by (rewrite <- Hans; apply elem_of_cons; by left).
      apply elem_of_matching in Hin as [Hv [-> _]%at_id_inv]. rewrite lookup_view, lookup_empty in Hv. simpl in Hv. unfold secret_of. rewrite Hv. by eexists _, _. }
  all: exists fresh; split_and!; [by intros ? ? ? ? [-> ->]|done|done].
Qed.
Lemma secret_gain id q D b L k q' : base (fun k _ => k = KSecret id) D b -> secret_of id q D L -> live_child q' (view b D !! k) -> k = KSecret id -> q' = q.
Proof. intros (_ & Hc & _) Ht Hl ->. eapply child_unique; [by apply live_child_child|]. by apply Hc. Qed.

Lemma safe_restore_secret id project : safe (restore_secret id project) (cw (fun k _ => k = KSecret id) (secret_of id project)).
Proof.
  apply safe_cw_secret; [apply secret_of_stable|by auto|]. intros _. apply safe_cw_secret; [apply secret_of_stable|by auto|].
  intros n. destruct (n =? 0)%nat; [done|]. apply safe_LockLiveProject; [apply secret_of_stable|]. intros *. apply secret_gain.
Qed.
Lemma safe_RestoreSecret id : safe (RestoreSecret id) fresh.
Proof.
  pose (k := fun o : option SecretNode => match o with
    | Some s => Select (at_id (KProject (sn_ProjectID s)) live_project) (fun rows => match rows with [] => Ret (Err ErrParentDeleted) | _ =>
          if (sn_EnvironmentID s =? 0)%Z then restore_secret id (sn_ProjectID s)
          else Advisory (sn_EnvironmentID s) (Select (at_id (KEnv (sn_EnvironmentID s)) live_env) (fun rows =>
            match rows with [] => Ret (Err ErrParentDeleted) | _ => restore_secret id (sn_ProjectID s) end)) end)
    | None => Ret (Err ErrSecretNotFound) end : prog).
  apply (safe_read_secret id (fun _ => true) k); [|done]. intros s. apply (read_secret_cw (fun k _ => k = KSecret id)).
  apply safe_select; [apply cw_stable, secret_of_stable|]. intros [|]; [done|]. destruct (_ =? 0)%Z; [apply safe_restore_secret|].
  apply safe_select; [apply cw_stable, secret_of_stable|]. intros [|]; [done|]. apply safe_restore_secret.
Qed.
Lemma safe_resume id project : safe (resume id project) (cw (fun k _ => k = KSecret id) (secret_of id project)).
Proof.
  apply safe_cw_secret; [apply secret_of_stable|auto|]. intros n. destruct (n =? 1)%nat; [|done].
  apply safe_LockLiveProject; [apply secret_of_stable|]. intros *. apply secret_gain.
Qed.
Lemma safe_ResumeSecret id : safe (ResumeSecret id) fresh.
Proof.
  pose (k := fun o : option SecretNode => match o with
    | Some s => match sn_Status s with SecretStatusActive => Ret (Ok ())
        | SecretStatusSuspended => if (sn_EnvironmentID s =? 0)%Z then resume id (sn_ProjectID s) else withEnvironmentSecretGuard (sn_EnvironmentID s) (resume id (sn_ProjectID s)) end
    | None => Ret (Err ErrSecretNotFound) end : prog).
  apply (safe_read_secret id (fun s => live (sn_DeletedAt s)) k); [|done]. intros s. unfold k. destruct (sn_Status s).
  { apply (read_secret_cw (fun _ _ => False)), safe_quiet_commit. }
  apply (read_secret_cw (fun k _ => k = KSecret id)). destruct (_ =? 0)%Z; [apply safe_resume|]. apply safe_guard; [apply cw_stable, secret_of_stable|apply safe_resume].
Qed.

(** * Deleting a project *)

(** The project is locked and live; [s], [e]: its secrets, its environments are all deleted in what the transaction sees. *)
Definition cascading (p : Z) (s e : bool) : asrt := fun D b L =>
  base (fun _ _ => False) D b /\ (forall q, q <> p -> b !! KProject q = None) /\
  (LUpdate, KProject p) ∈ L /\ project_live D p /\ typed D /\
  (s = true -> forall id, ~ live_child p (view b D !! KSecret id)) /\ (e = true -> forall id, ~ live_child p (view b D !! KEnv id)).

Lemma swept_rely p b L D D' k : (forall k, holds_key b L k -> D' !! k = D !! k) -> keeps L D D' -> (LUpdate, KProject p) ∈ L ->
  live_child p (view b D' !! k) -> live_child p (view b D !! k).
Proof. intros Hk [_ Hl] Hin. destruct (view_rely b L D D' k Hk) as [[-> _]|[-> ->]]; auto. Qed.

Lemma cascading_stable p s e : stable (cascading p s e).
Proof.
  intros D D' b L (Hb & Hn & Hin & Hp & Ht & Hs & He) [Ht' _] Hk Hkp. split_and!; auto.
  - by eapply base_rely.
  - unfold project_live. rewrite Hk; [done|]. right. eauto.
  - intros Hs' id Hl. eapply Hs; [done|]. by eapply swept_rely.
  - intros He' id Hl. eapply He; [done|]. by eapply swept_rely.
Qed.

Lemma cascading_write p s e D b L k r w : catalog_ok D -> cascading p s e D b L -> view b D !! k = Some r -> tame (fun _ _ => False) k r w ->
  (forall q, q <> p -> k <> KProject q) -> cascading p s e D (<[k := w]> b) L.
Proof.
  intros Hok (Hb & Hn & Hin & Hp & Ht & Hs & He) Hv Hw Hkey. split_and!; auto.
  - by eapply base_write.
  - intros q Hq. rewrite lookup_insert_ne; [by apply Hn|by apply Hkey].
  - intros Hs' id. rewrite lookup_view_insert. destruct (decide _) as [<-|Hne]; [|by apply Hs].
    intros Hl. apply (Hs Hs' id). destruct (proj2 (proj2 Hw) p Hl) as [Hpr|[]]. by exists r.
  - intros He' id. rewrite lookup_view_insert. destruct (decide _) as [<-|Hne]; [|by apply He].
    intros Hl. apply (He He' id). destruct (proj2 (proj2 Hw) p Hl) as [Hpr|[]]. by exists r.
Qed.

Lemma cascading_closed p s e : closed (cascading p s e).
Proof.
  split; [apply cascading_stable|]. intros D b L k r w Hok Hc Hv Hw Hr. eapply cascading_write; eauto. intros q _ ->.
  assert (Hkr : kind_ok (KProject q) r = true) by (eapply view_typed; [done|apply Hc|done]). destruct r; try done. by eapply Hr.
Qed.

(** A sweep over the secrets, or over the environments, of the project. *)
Lemma safe_cascading_sweep p s e s' e' (P : key -> row -> bool) upd k :
  (forall key r, P key r = true -> parent r = Some (p, true)) ->
  (forall key r, P key r = true -> forall r', kind_ok key r' = true -> kind_ok key r = true -> parent r' = Some (p, true) -> P key r' = true) ->
  (forall key r, P key r = true -> tame (fun _ _ => False) key r (upd r) /\ (forall d, r <> RProject d) /\ forall r', upd r = Some r' -> P key r' = false) ->
  (forall D b L, catalog_ok D -> cascading p s e D b L -> (forall key r, view b D !! key = Some r -> P key r = false) -> cascading p s' e' D b L) ->
  (forall n, safe (k n) (cascading p s' e')) -> safe (Update (fun _ => P) upd k) (cascading p s e).
Proof.
  intros HP Hkind Hrow Hdone Hk. eapply safe_sweep; [apply cascading_stable|exact Hdone| | |exact Hk].
  - intros keys D D' b L [Hc Hin] Hi Hh Hkp. split; [by eapply cascading_stable|]. intros key r Hv' HPr.
    assert (Hl : live_child p (view b D !! key)) by (eapply swept_rely; [done|done|apply Hc|rewrite Hv'; exists r; split; [done|by eapply HP]]).
    destruct Hl as (r0 & Hv & Hpr). apply (Hin key r0 Hv). destruct Hc as (Hb & _ & _ & _ & Ht & _). destruct Hi as [Ht' _].
    assert (Hty : forall D0, typed D0 -> typed (view b D0)).
    { intros D0 HD0 k0 r1. rewrite lookup_view. destruct (b !! k0) as [w|] eqn:Eb; simpl; [intros ->; by apply Hb|apply HD0]. }
    apply (Hkind key r HPr r0); [by apply (Hty D Ht key)|by apply (Hty D' Ht' key)|done].
  - intros key r D b L Hok Hc Hv HPr. destruct (Hrow key r HPr) as (Ht & Hr & Hoff). split; [|done]. by eapply cascading_closed.
Qed.

Lemma cascading_commit p : safe (Ret (Ok ())) (cascading p true true).
Proof.
  intros D b L [Hty Hpl] (Hb & Hn & Hin & Hp & _ & Hs & He). apply (commit_base (fun _ _ => False)); [done| |done].
  assert (Htv : typed (view b D)) by (by apply (view_typed (fun _ _ => False))). split; [done|]. intros k q Hl.
  assert (Hq : q <> p).
  { intros ->. pose proof Hl as (r & Hv & Hpr). pose proof (Htv k r Hv) as Hkr. destruct k; destruct r; try done; [by eapply He|by eapply Hs]. }
  unfold project_live. rewrite lookup_view, Hn by done. simpl. destruct (proj2 (proj2 Hb) k q Hl) as [Hl'|[]]. by eapply Hpl.
Qed.

Lemma safe_sweep_project p now now' days : safe (sweep_project p now now' days) (cascading p false false).
Proof.
  apply safe_select; [apply cascading_stable|]. intros ids. apply (safe_cascading_sweep p false false true false).
  { intros key r (s & -> & Hs)%is_secret_inv. apply andb_true_iff in Hs as [<-%Z.eqb_eq Hl]. simpl. by rewrite Hl. }
  { intros key r (s & -> & Hs)%is_secret_inv r' Hk' Hk Hp. destruct key, r'; try done. injection Hp as Hq Hl. simpl. unfold live_secret_of. by rewrite Hq, Hl, Z.eqb_refl. }
  { intros key r (s & -> & Hs)%is_secret_inv. split; [by apply tame_secret|split; [done|]]. intros r' [= <-]. simpl. apply andb_false_r. }
  { intros D b L Hok (Hb & Hn & Hin & Hp & Ht & _ & _) Hno. refine (conj Hb (conj Hn (conj Hin (conj Hp (conj Ht (conj _ _)))))); [|done]. intros _ id (r & Hv & Hpr).
    pose proof (view_typed _ _ _ Hok Hb _ _ Hv) as Hkr. destruct r; try done. injection Hpr as Hq Hl. specialize (Hno _ _ Hv). simpl in Hno.
    unfold live_secret_of in Hno. by rewrite Hq, Hl, Z.eqb_refl in Hno. }
  intros _. apply safe_stampSecretPurgeAt, safe_revoke; [apply cascading_closed|apply cascading_closed|].
  unfold cascade_rest. apply (safe_cascading_sweep p true false true true).
  { intros key r Hr. destruct r; try done. apply andb_true_iff in Hr as [->%Z.eqb_eq Hl]. simpl. by rewrite Hl. }
  { intros key r Hr r' Hk' Hk Hp. destruct key, r, r'; try done. injection Hp as -> Hl. simpl. by rewrite Hl, Z.eqb_refl. }
  { intros key r Hr. destruct r; try done. split; [by apply tame_env|split; [done|]]. intros r' [= <-]. simpl. apply andb_false_r. }
  { intros D b L Hok (Hb & Hn & Hin & Hp & Ht & Hs & _) Hno. refine (conj Hb (conj Hn (conj Hin (conj Hp (conj Ht (conj Hs _)))))). intros _ id (r & Hv & Hpr).
    pose proof (view_typed _ _ _ Hok Hb _ _ Hv) as Hkr. destruct r; try done. injection Hpr as -> Hl. specialize (Hno _ _ Hv). simpl in Hno. by rewrite Hl, Z.eqb_refl in Hno. }
  intros _. apply safe_closed_update; [apply cascading_closed| |intros _].
  { intros _ key [| | | | | | | |] Hs; try done. split; [|done]. apply tame_other; [done|]. intros w' [= <-]. split; [done|]. by destruct key. }
  apply safe_update; [apply cascading_stable| |intros n; destruct (n =? 0)%nat; [done|apply cascading_commit]].
  intros _ key r D b L Hok Hc Hv [-> Hr]%at_id_inv. destruct r; try done. eapply cascading_write; eauto; [|by intros q Hq [= ->]].
  apply tame_other; [done|]. by intros w' [= <-].
Qed.

Lemma safe_lock_cascade p k (A : asrt) :
  (forall D b L, catalog_ok D -> A D b L -> view b D !! KProject p = Some (RProject None) -> cascading p false false D b ((LUpdate, KProject p) :: L)) ->
  safe k (cascading p false false) -> safe (lockProjectRowForCascade p k) A.
Proof.
  intros HA Hk. split; [done|]. intros r.
  destruct (decide (r = RProject None)) as [->|Hr].
  - exists (cascading p false false). split; [apply cascading_stable|]. split; [|done]. intros D b L Hok Ha Hv _. by apply HA.
  - exists (fun _ _ _ => True). split_and!; [done|done|]. destruct r as [[|]| | | | | | | |]; done.
Qed.
Lemma fresh_cascading p D b L : catalog_ok D -> fresh D b L -> view b D !! KProject p = Some (RProject None) -> cascading p false false D b ((LUpdate, KProject p) :: L).
Proof.
  intros [Ht _] [-> ->] Hv. refine (conj (base_empty _ _) (conj _ (conj _ (conj _ (conj Ht (conj _ _)))))); try done; [apply elem_of_cons; by left|].
  by rewrite lookup_view, lookup_empty in Hv.
Qed.
Lemma safe_DeleteProject p now now' days : safe (DeleteProject p now now' days) fresh.
Proof. apply safe_lock_cascade; [intros *; apply fresh_cascading|apply safe_sweep_project]. Qed.
Lemma safe_DeleteProjectIfEmpty p now now' days : safe (DeleteProjectIfEmpty p now now' days) fresh.
Proof.
  apply safe_lock_cascade; [intros *; apply fresh_cascading|]. apply safe_select; [apply cascading_stable|]. intros secrets. destruct (_ =? 0)%nat; [|done].
  apply safe_lock_cascade; [|apply safe_sweep_project]. intros D b L _ (Hb & Hn & Hin & Hp & Ht & Hs & He) _.
  refine (conj Hb (conj Hn (conj _ (conj Hp (conj Ht (conj Hs He)))))). apply elem_of_cons. by right.
Qed.

(** * Restoring and creating a project *)

(** The project row is there and locked; only its children came to life, and those at [ks] are its children. *)
Definition restoring (p : Z) (ks : list key) : asrt := fun D b L =>
  base (fun _ q => q = p) D b /\ (forall q, q <> p -> b !! KProject q = None) /\
  (LUpdate, KProject p) ∈ L /\ (exists d, view b D !! KProject p = Some (RProject d)) /\ (forall k, k ∈ ks -> child_of p (view b D !! k)).

Lemma restoring_stable p ks : stable (restoring p ks).
Proof.
  intros D D' b L (Hb & Hn & Hin & Hp & Hks) Hi Hk Hkp. refine (conj _ (conj Hn (conj Hin (conj _ _)))).
  - by eapply base_rely.
  - rewrite lookup_view in *. rewrite Hk; [done|]. right. eauto.
  - intros k Hin'. specialize (Hks k Hin'). destruct (view_rely b L D D' k Hk) as [[-> _]|[-> E]]; [done|]. rewrite E in Hks. by apply Hkp.
Qed.

Lemma restoring_write p ks D b L k r w : catalog_ok D -> restoring p ks D b L -> view b D !! k = Some r -> tame (fun _ q => q = p) k r w ->
  (forall q, k <> KProject q) -> restoring p ks D (<[k := w]> b) L.
Proof.
  intros Hok (Hb & Hn & Hin & Hp & Hks) Hv Hw Hkey. refine (conj _ (conj _ (conj Hin (conj _ _)))).
  - by eapply base_write.
  - intros q Hq. rewrite lookup_insert_ne; [by apply Hn|by apply Hkey].
  - rewrite lookup_view_insert. destruct (decide _) as [<-|_]; [by destruct (Hkey p)|done].
  - intros k' Hk'. rewrite lookup_view_insert. destruct (decide _) as [->|_]; [|by apply Hks].
    destruct (Hks k Hk') as (r' & l & Hv' & Hpr). rewrite Hv in Hv'. injection Hv' as <-. by eapply (proj1 (proj2 Hw)).
Qed.

(** The rows a SELECT found are the project's children while the transaction runs. *)
Lemma safe_restoring_select p ks sel k : (forall key r, sel key r = true -> exists l, parent r = Some (p, l)) ->
  (forall ans, safe (k ans) (restoring p ans.*1)) -> safe (Select sel k) (restoring p ks).
Proof.
  intros Hsel Hk ans. exists (restoring p ans.*1). split; [apply restoring_stable|]. split; [|apply Hk].
  intros D b L _ (Hb & Hn & Hin & Hp & _) ->. refine (conj Hb (conj Hn (conj Hin (conj Hp _)))).
  intros key ([key' r] & -> & [Hv Hs]%elem_of_matching)%list_elem_of_fmap. simpl. destruct (Hsel _ _ Hs) as [l Hl]. by exists r, l.
Qed.
Lemma safe_restoring_update p ks sel upd k :
  (forall tbl key r, sel tbl key r = true -> key ∈ ks /\ (forall d, r <> RProject d) /\ forall l, parent r = Some (p, l) -> tame (fun _ q => q = p) key r (upd r)) ->
  (forall n, safe (k n) (restoring p ks)) -> safe (Update sel upd k) (restoring p ks).
Proof.
  intros Hrow Hk. apply safe_update; [apply restoring_stable| |done]. intros tbl key r D b L Hok Hr Hv Hs.
  destruct (Hrow _ _ _ Hs) as (Hin & Hnp & Ht). pose proof Hr as (Hb & _ & _ & _ & Hks).
  pose proof (view_typed _ _ _ Hok Hb _ _ Hv) as Hkr. destruct (Hks _ Hin) as (r' & l & Hv' & Hp). rewrite Hv in Hv'. injection Hv' as <-.
  eapply restoring_write; eauto. intros q ->. by destruct r.
Qed.

(** A transaction that leaves the project live, holding or having written its row. *)
Definition reviving (p : Z) : asrt := fun D b L =>
  base (fun _ q => q = p) D b /\ (forall q, q <> p -> b !! KProject q = None) /\ holds_key b L (KProject p) /\ project_live (view b D) p.
Lemma reviving_stable p : stable (reviving p).
Proof.
  intros D D' b L (Hb & Hn & Hh & Hp) Hi Hk Hkp. refine (conj _ (conj Hn (conj Hh _))); [by eapply base_rely|].
  unfold project_live in *. rewrite lookup_view in *. by rewrite (Hk _ Hh).
Qed.
Lemma reviving_commit p : safe (Ret (Ok ())) (reviving p).
Proof.
  intros D b L [Hty Hpl] (Hb & Hn & Hh & Hp). apply (commit_base (fun _ q => q = p)); [done| |by intros k q _ ->].
  split; [by apply (view_typed (fun _ q => q = p))|]. intros k q Hl. destruct (decide (q = p)) as [->|Hq]; [done|].
  destruct (proj2 (proj2 Hb) k q Hl) as [Hl'|?]; [|done]. unfold project_live. rewrite lookup_view, Hn by done. by eapply Hpl.
Qed.

(** The last UPDATE of a restore. *)
Lemma safe_revive p ks : safe (Update (fun _ => at_id (KProject p) (fun _ => true)) (fun r => match r with RProject _ => Some (RProject None) | _ => Some r end) (fun _ => Ret (Ok ()))) (restoring p ks).
Proof.
  exists (fun f keys D b L => f = at_id (KProject p) (fun _ => true) /\ restoring p ks D b L /\ (KProject p ∈ keys \/ project_live (view b D) p)). split; [|split; [|split]].
  - intros f keys D D' b L (-> & Hr & Hk) Hi Hh Hkp. split; [done|]. split; [by eapply restoring_stable|]. destruct Hk as [?|Hl]; [by left|right].
    unfold project_live in *. rewrite lookup_view in *. rewrite Hh; [done|]. right. exists LUpdate. apply Hr.
  - intros D b L _ Hr. split; [done|]. split; [done|]. left. destruct Hr as (_ & _ & _ & [d Hd] & _).
    apply list_elem_of_fmap. exists (KProject p, RProject d). split; [done|]. apply elem_of_matching. split; [done|]. unfold at_id. by rewrite bool_decide_true.
  - intros f key keys D b L Hok (-> & Hr & Hk). pose proof Hr as (Hb & Hn & Hin & [d Hd] & Hks). unfold at_id.
    destruct (decide (key = KProject p)) as [->|Hne].
    + rewrite Hd, bool_decide_true by done. simpl. split; [done|]. split; [|right; unfold project_live; rewrite lookup_view_insert; by destruct (decide _)].
      refine (conj _ (conj _ (conj Hin (conj _ _)))).
      * eapply base_write; eauto. apply tame_other; [done|]. by intros w' [= <-].
      * intros q Hq. rewrite lookup_insert_ne; [by apply Hn|]. by intros [= ->].
      * exists None. rewrite lookup_view_insert. by destruct (decide _).
      * intros k Hk'. rewrite lookup_view_insert. destruct (decide _) as [->|_]; [|by apply Hks].
        destruct (Hks _ Hk') as (r & l & Hv & Hp). rewrite Hd in Hv. by injection Hv as <-.
    + assert (Hk' : KProject p ∈ keys \/ project_live (view b D) p).
      { destruct Hk as [[?|?]%elem_of_cons|?]; [congruence|by left|by right]. }
      destruct (view b D !! key); [rewrite bool_decide_false by done|]; done.
  - intros n. exists (reviving p). split; [apply reviving_stable|]. split; [|apply reviving_commit].
    intros f D b L _ (_ & (Hb & Hn & Hin & _) & [Hk|Hl]); [by apply not_elem_of_nil in Hk|]. refine (conj Hb (conj Hn (conj _ Hl))). right. eauto.
Qed.

Lemma safe_RestoreProject p : safe (RestoreProject p) fresh.
Proof.
  split; [done|]. intros r. destruct r as [[ts|]| | | | | | | |]; try (exists (fun _ _ _ => True); split_and!; done).
  exists (restoring p []). split; [apply restoring_stable|]. split.
  { intros D b L _ [-> ->] Hv _. refine (conj (base_empty _ _) (conj _ (conj _ (conj _ _)))); [done|apply elem_of_cons; by left|eauto|].
    intros k Hk. by apply not_elem_of_nil in Hk. }
  apply safe_restoring_select.
  { intros key r Hr. destruct r; try done. apply andb_true_iff in Hr as [->%Z.eqb_eq _]. by eexists. }
  intros envs. apply safe_restoring_update.
  { intros _ key r [Hin%bool_decide_eq_true Hr]%andb_true_iff. destruct r; try done. split; [done|]. split; [done|]. intros l [= -> _]. apply tame_env. auto. }
  intros _. apply safe_restoring_select.
  { intros key r (s & -> & Hs)%is_secret_inv. apply andb_true_iff in Hs as [<-%Z.eqb_eq _]. by eexists. }
  intros secrets. apply safe_restoring_update.
  { intros _ key r [Hin%bool_decide_eq_true (s & -> & Hs)%is_secret_inv]%andb_true_iff. split; [done|]. split; [done|]. intros l [= Hq _]. apply tame_secret; auto. }
  intros _. apply safe_restoring_update.
  { intros _ key r [Hin%bool_decide_eq_true (s & -> & Hs)%is_secret_inv]%andb_true_iff. split; [done|]. split; [done|]. intros l [= Hq _]. apply tame_secret; auto. }
  intros _. apply safe_revive.
Qed.

Lemma safe_seed p envs : safe (seed p envs) (reviving p).
Proof.
  induction envs as [|e envs IH]; [apply reviving_commit|]. exists (reviving p). split; [apply reviving_stable|]. split; [|done].
  intros D b L _ (Hb & Hn & Hh & Hp) Hd _. refine (conj _ (conj _ (conj _ _))).
  - apply base_insert; auto. gains.
  - intros q Hq. rewrite lookup_insert_ne by done. by apply Hn.
  - destruct Hh as [Hh|Hh]; [left; by rewrite lookup_insert_ne|by right].
  - unfold project_live. rewrite lookup_view_insert. by destruct (decide _).
Qed.
Lemma safe_CreateProject p envs : safe (CreateProject p envs) fresh.
Proof.
  exists (reviving p). split; [apply reviving_stable|]. split; [|apply safe_seed]. intros D b L _ [-> ->] Hd _. refine (conj _ (conj _ (conj _ _))).
  - apply base_insert; [apply base_empty|done|done|]. by intros q (r & [= <-] & ?).
  - intros q Hq. rewrite lookup_insert_ne; [done|]. by intros [= ->].
  - left. by rewrite lookup_insert_eq.
  - unfold project_live. rewrite lookup_view_insert. by destruct (decide _).
Qed.

Lemma operation_safe p : operation p -> safe p fresh.
Proof.
  destruct 1; auto using safe_CreateSecret, safe_CreateFolder, safe_DeleteSecret, safe_RestoreSecret, safe_transitionSuspend, safe_ResumeSecret,
    safe_CreateProjectEnvironment, safe_DeleteEnvironment, safe_RestoreEnvironment, safe_CreateProject, safe_DeleteProject, safe_DeleteProjectIfEmpty, safe_RestoreProject.
Qed.

(** C7. Whatever transactions run together, interleaved statement by statement under READ COMMITTED with its row locks,
    each able to roll back at any point, no committed state ever has a live environment or secret in a deleted project. *)
Theorem no_live_child_of_deleted_project D s : typed D -> parents_live D -> reachable operation D s -> parents_live (s_db s).
Proof. intros Ht Hp Hr. apply (reachable_Inv operation catalog_ok keeps operation_safe D s); [by split|done]. Qed.
