(* ===== verification/CatalogRestore.v ===== *)
(** A project deleted and restored: what comes back, and what does not.  With it, concrete
    schedules of the catalog's transactions. *)
From Stdlib Require Import ZArith Lia.
From stdpp Require Import base numbers tactics sets list gmap.
From S2P Require Import Prelude TxDB Catalog CatalogSafe.

Lemma lookup_update_all (sel : key -> row -> bool) upd (D : table) k :
  update_all sel upd D !! k = (r ← D !! k; if sel k r then upd r else Some r).
Proof. unfold update_all. by rewrite map_lookup_imap. Qed.

(** Stamping the purge dates changes nothing else. *)
Definition stamped (ids : list key) (D D' : table) : Prop := forall k, D' !! k = D !! k \/
  exists s t, k ∈ ids /\ D !! k = Some (RSecret s) /\ sn_DeletedAt s <> None /\ D' !! k = Some (RSecret (set_PurgeAt t s)).

Lemma stamped_trans ids D D' D'' : stamped ids D D' -> stamped ids D' D'' -> stamped ids D D''.
Proof.
  intros H1 H2 k. destruct (H1 k) as [E1|(s & t & Hin & Hs & Hd & Hs')], (H2 k) as [E2|(s2 & t2 & Hin2 & Hs2 & Hd2 & Hs2')].
  - left. congruence.
  - right. exists s2, t2. rewrite <- E1. auto.
  - right. exists s, t. rewrite E2. auto.
  - right. exists s, t2. split_and!; auto. rewrite Hs2'. rewrite Hs' in Hs2. by injection Hs2 as <-.
Qed.

Lemma exec_stamp_rows ids days rows k : forall D : table,
  (forall kid s, (kid, RSecret s) ∈ rows -> kid ∈ ids /\ (exists s', D !! kid = Some (RSecret s') /\ sn_DeletedAt s' <> None)) ->
  exists D', exec (stamp_rows days rows k) D = exec k D' /\ stamped ids D D'.
Proof.
  induction rows as [|[kid r] rows IH]; intros D Hrows.
  { exists D. split; [done|]. intros k0. by left. }
  assert (Hrest : forall kid s, (kid, RSecret s) ∈ rows -> kid ∈ ids /\ (exists s', D !! kid = Some (RSecret s') /\ sn_DeletedAt s' <> None)).
  { intros kid' s' Hin. apply (Hrows kid' s'), elem_of_cons. by right. }
  destruct r as [| |s| | | | | |]; try (simpl; by apply IH). simpl.
  destruct (Hrows kid s) as (Hid & s' & Hs' & Hd'); [apply elem_of_cons; by left|].
  set (D1 := update_all _ _ D). assert (Hst : stamped ids D D1).
  { intros k0. unfold D1. rewrite lookup_update_all. destruct (D !! k0) as [r|] eqn:E0; [|by left]. simpl. destruct (at_id _ _ _ _) eqn:Ea; [|by left].
    apply at_id_inv in Ea as [-> (s0 & -> & _)%is_secret_inv]. right. rewrite Hs' in E0. injection E0 as <-. eexists s', _. by split_and!. }
  destruct (IH D1) as (D' & He & Hs2).
  { intros kid' s2 Hin. destruct (Hrest _ _ Hin) as (Hi & s3 & Hs3 & Hd3). split; [done|].
    destruct (Hst kid') as [E|(s4 & t & _ & Hs4 & Hd4 & E)]; rewrite E; eauto. }
  exists D'. split; [done|]. by eapply stamped_trans.
Qed.

Lemma exec_stamp ids days k (D : table) : exists D', exec (stampSecretPurgeAt ids days k) D = exec k D' /\ stamped ids D D'.
Proof.
  unfold stampSecretPurgeAt. destruct (_ || _); [exists D; split; [done|intros k0; by left]|]. simpl.
  apply exec_stamp_rows. intros kid s [Hv Hs]%elem_of_matching. apply andb_true_iff in Hs as [Hin%bool_decide_eq_true Hd]. split; [done|].
  exists s. split; [done|]. simpl in Hd. by destruct (sn_DeletedAt s).
Qed.

(** ** The tables after a project's deletion *)

(** A row after the cascade deleted project [p]. *)
Definition cascaded (p now now' : Z) (D : table) (k : key) (r : row) (o : option row) : Prop :=
  match r with
  | RProject d => o = Some (if bool_decide (k = KProject p) && live d then RProject (Some now) else r)
  | REnv q d => o = Some (if live_env_of p r then REnv q (Some now) else r)
  | RSecret s => if live_secret_of p s then exists t, o = Some (RSecret (set_PurgeAt t (set_DeletedAt (Some now) s))) else o = Some r
  | RShare sid d => o = Some (if secret_in_project p D sid && live d then RShare sid (Some now') else r)
  | RACL sid => o = if secret_in_project p D sid then None else Some r
  | RRequest (Some sid) RequestApproved d => o = Some (if secret_in_project p D sid then RRequest (Some sid) RequestExpired (Some now') else r)
  | RDynamic q d => o = Some (RDynamic q ((q =? p)%Z || d))
  | _ => o = Some r
  end.

Lemma sip_update p (D : table) sel upd : (forall k s, sel k (RSecret s) = true -> exists s', upd (RSecret s) = Some (RSecret s') /\ sn_ProjectID s' = sn_ProjectID s) ->
  (forall k r s, sel k r = true -> upd r = Some (RSecret s) -> exists s0, r = RSecret s0) -> forall sid,
  secret_in_project p (update_all sel upd D) sid = secret_in_project p D sid.
Proof.
  intros Hs Ho sid. unfold secret_in_project. rewrite lookup_update_all. destruct (D !! KSecret sid) as [r|]; [|done]. simpl.
  destruct (sel (KSecret sid) r) eqn:Es; [|done]. destruct r as [| |s| | | | | |].
  3:{ destruct (Hs _ _ Es) as (s' & -> & ->). done. }
  all: destruct (upd _) as [r'|] eqn:Eu; [|done]; destruct r'; try done; by destruct (Ho _ _ _ Es Eu).
Qed.
Lemma sip_stamped p ids D D' : stamped ids D D' -> forall sid, secret_in_project p D' sid = secret_in_project p D sid.
Proof. intros Hst sid. unfold secret_in_project. destruct (Hst (KSecret sid)) as [->|(s & t & _ & -> & _ & ->)]; done. Qed.

Lemma matching_pos sel (D : table) k r : D !! k = Some r -> sel k r = true -> (length (matching sel D) =? 0)%nat = false.
Proof.
  intros Hd Hs. destruct (matching sel D) eqn:E; [|done]. assert (Hin : (k, r) ∈ matching sel D) by by apply elem_of_matching. rewrite E in Hin. by apply not_elem_of_nil in Hin.
Qed.

(** The project's access: shares, access lists and approved requests, revoked in one go. *)
Definition revoked (cond : Z -> bool) (now' : Z) (r : row) : option row :=
  match r with
  | RShare sid d => Some (if cond sid && live d then RShare sid (Some now') else r)
  | RACL sid => if cond sid then None else Some r
  | RRequest (Some sid) RequestApproved _ => Some (if cond sid then RRequest (Some sid) RequestExpired (Some now') else r)
  | _ => Some r
  end.
Lemma exec_revoke cond now' k (D : table) : (forall D' sid, (forall s, D' !! KSecret s = D !! KSecret s) -> cond D' sid = cond D sid) -> typed D ->
  exists D', exec (revoke_access cond now' k) D = exec k D' /\ forall key, D' !! key = (r ← D !! key; revoked (cond D) now' r).
Proof.
  intros Hc Ht. unfold revoke_access, closeApprovedSecretAccessRequests. cbn [exec].
  set (D1 := update_all _ _ D). set (D2 := update_all _ _ D1). set (D3 := update_all _ _ D2). exists D3. split; [done|].
  assert (H1 : forall s, D1 !! KSecret s = D !! KSecret s).
  { intros s. unfold D1. rewrite lookup_update_all. destruct (D !! KSecret s) as [r|] eqn:E; [|done]. specialize (Ht _ _ E). by destruct r. }
  assert (H2 : forall s, D2 !! KSecret s = D !! KSecret s).
  { intros s. unfold D2. rewrite lookup_update_all, H1. destruct (D !! KSecret s) as [r|] eqn:E; [|done]. specialize (Ht _ _ E). by destruct r. }
  intros key. unfold D3. rewrite lookup_update_all. unfold D2 at 2. rewrite lookup_update_all. unfold D1 at 2. rewrite lookup_update_all.
  destruct (D !! key) as [r|]; [|done]. destruct r as [| | | |sid d|sid|[sid|] [| |] d| |]; simpl; try done.
  - by destruct (cond D sid && live d).
  - rewrite (Hc D1) by done. by destruct (cond D sid).
  - rewrite (Hc D2) by done. by destruct (cond D sid).
Qed.

Lemma exec_cascade_rest p now (D : table) : typed D -> D !! KProject p = Some (RProject None) ->
  exists D', exec (cascade_rest p now) D = (Ok (), D') /\ forall k, D' !! k = (r ← D !! k; Some match r with
    | REnv q d => if live_env_of p r then REnv q (Some now) else r
    | RDynamic q d => RDynamic q ((q =? p)%Z || d)
    | RProject d => if bool_decide (k = KProject p) && live d then RProject (Some now) else r
    | _ => r end).
Proof.
  intros Ht Hp. unfold cascade_rest. cbn [exec]. set (D1 := update_all _ _ D). set (D2 := update_all _ _ D1). set (D3 := update_all _ _ D2). exists D3. split.
  - rewrite (matching_pos _ _ (KProject p) (RProject None)); [done| |unfold at_id; by rewrite bool_decide_true].
    unfold D2. rewrite lookup_update_all. unfold D1. by rewrite lookup_update_all, Hp.
  - intros k. unfold D3. rewrite lookup_update_all. unfold D2. rewrite lookup_update_all. unfold D1. rewrite lookup_update_all.
    destruct (D !! k) as [r|] eqn:E; [|done]. pose proof (Ht _ _ E) as Hk. unfold at_id. destruct r as [d|q d| | | | | |q d|]; simpl; rewrite ?andb_false_r; try done.
    + by destruct (bool_decide _ && live d).
    + destruct ((q =? p)%Z && live d); simpl; by rewrite andb_false_r.
    + destruct (q =? p)%Z, d; simpl; by rewrite andb_false_r.
Qed.

Lemma exec_DeleteProject p now now' days (D : table) : typed D -> D !! KProject p = Some (RProject None) ->
  exists D', exec (DeleteProject p now now' days) D = (Ok (), D') /\ forall k, match D !! k with None => D' !! k = None | Some r => cascaded p now now' D k r (D' !! k) end.
Proof.
  intros Ht Hp. unfold DeleteProject, lockProjectRowForCascade. cbn [exec]. rewrite Hp. cbn [mbind option_bind]. unfold sweep_project. cbn [exec].
  set (ids := matching _ D). set (D1 := update_all _ _ D).
  assert (H1 : forall k, D1 !! k = (r ← D !! k; match r with RSecret s => Some (RSecret (if live_secret_of p s then set_DeletedAt (Some now) s else s)) | _ => Some r end)).
  { intros k. unfold D1. rewrite lookup_update_all. destruct (D !! k) as [r|]; [|done]. destruct r; try done. simpl. by destruct (live_secret_of p s). }
  destruct (exec_stamp ids.*1 days (revoke_access (secret_in_project p) now' (cascade_rest p now)) D1) as (D2 & -> & Hst).
  assert (Hids : forall k s, k ∈ ids.*1 -> D !! k = Some (RSecret s) -> live_secret_of p s = true).
  { intros k s ([k' r] & -> & [Hv Hs]%elem_of_matching)%list_elem_of_fmap Hd. simpl in Hd. rewrite Hd in Hv. by injection Hv as <-. }
  assert (H2 : forall k, match D !! k with None => D2 !! k = None
    | Some (RSecret s) => if live_secret_of p s then exists t, D2 !! k = Some (RSecret (set_PurgeAt t (set_DeletedAt (Some now) s))) else D2 !! k = Some (RSecret s)
    | Some r => D2 !! k = Some r end).
  { intros k. specialize (Hst k). rewrite H1 in Hst. destruct (D !! k) as [r|] eqn:E; simpl in Hst; [|destruct Hst as [?|(? & ? & _ & [=] & _)]; done].
    destruct r as [| |s| | | | | |]; try (destruct Hst as [?|(? & ? & _ & [=] & _)]; done). specialize (Hids k s).
    destruct (live_secret_of p s) eqn:El.
    - destruct Hst as [->|(s' & t & _ & [= <-] & _ & ->)]; [exists (sn_PurgeAt s)|exists t]; done.
    - destruct Hst as [?|(s' & t & Hin & _ & _ & _)]; [done|]. by specialize (Hids Hin E). }
  assert (Hsip : forall sid, secret_in_project p D2 sid = secret_in_project p D sid).
  { intros sid. unfold secret_in_project. specialize (H2 (KSecret sid)). destruct (D !! KSecret sid) as [r|]; [|by rewrite H2].
    destruct r as [| |s| | | | | |]; try by rewrite H2. destruct (live_secret_of p s); [destruct H2 as [t ->]|rewrite H2]; done. }
  assert (Ht2 : typed D2).
  { intros k r Hr. specialize (H2 k). destruct (D !! k) as [r0|] eqn:E0; [|congruence]. specialize (Ht _ _ E0).
    destruct r0 as [| |s| | | | | |]; try (rewrite H2 in Hr; by injection Hr as <-). destruct k; try done.
    destruct (live_secret_of p s); [destruct H2 as [t H2]|]; rewrite H2 in Hr; by injection Hr as <-. }
  destruct (exec_revoke (secret_in_project p) now' (cascade_rest p now) D2) as (D3 & -> & H3); [|done|].
  { intros D' sid HD'. unfold secret_in_project. by rewrite HD'. }
  destruct (exec_cascade_rest p now D3) as (D4 & -> & H4).
  { intros k r. rewrite H3. destruct (D2 !! k) as [r0|] eqn:E0; [|done]. specialize (Ht2 _ _ E0). simpl.
    destruct r0 as [| | | |sid d|sid|[sid|] [| |] d| |]; simpl; try (by intros [= <-]); destruct (secret_in_project p D2 sid); simpl; try done; try (destruct (live d)); intros [= <-]; done. }
  { rewrite H3. specialize (H2 (KProject p)). rewrite Hp in H2. by rewrite H2. }
  exists D4. split; [done|]. intros k. rewrite H4, H3. specialize (H2 k). destruct (D !! k) as [r|]; [|by rewrite H2].
  destruct r as [d|q d|s|sid n|sid d|sid|[sid|] [| |] d|q d|q]; simpl.
  3:{ destruct (live_secret_of p s); [destruct H2 as [t ->]; by exists t|by rewrite H2]. }
  all: rewrite H2; simpl; rewrite ?Hsip; try done.
  - by destruct (secret_in_project p D sid && live d).
  - by destruct (secret_in_project p D sid).
  - by destruct (secret_in_project p D sid).
Qed.

(** ** The tables after a project's restoration *)

Definition restored (p ts : Z) (k : key) (r : row) : row :=
  match r with
  | RProject d => if bool_decide (k = KProject p) then RProject None else r
  | REnv q d => if cascadeChild p ts q d then REnv q None else r
  | RSecret s => if cascadeChild p ts (sn_ProjectID s) (sn_DeletedAt s) then RSecret (set_DeletedAt None (set_PurgeAt None s)) else r
  | _ => r
  end.

Lemma in_matching sel (D : table) k r : D !! k = Some r -> bool_decide (k ∈ (matching sel D).*1) = sel k r.
Proof.
  intros Hd. destruct (sel k r) eqn:Es.
  - apply bool_decide_eq_true, list_elem_of_fmap. exists (k, r). split; [done|]. by apply elem_of_matching.
  - apply bool_decide_eq_false. intros ([k' r'] & Hk & [Hv Hs]%elem_of_matching)%list_elem_of_fmap. simpl in Hk. subst k'. congruence.
Qed.

Lemma exec_RestoreProject p ts (D : table) : typed D -> D !! KProject p = Some (RProject (Some ts)) ->
  exists D', exec (RestoreProject p) D = (Ok (), D') /\ forall k, D' !! k = restored p ts k <$> D !! k.
Proof.
  intros Ht Hp. unfold RestoreProject. cbn [exec]. rewrite Hp. cbn [mbind option_bind negb live]. cbn [exec].
  set (envs := matching _ D). set (D1 := update_all _ _ D).
  assert (H1 : forall k, D1 !! k = (r ← D !! k; Some match r with REnv q d => if cascadeChild p ts q d then REnv q None else r | _ => r end)).
  { intros k. unfold D1, envs. rewrite lookup_update_all. destruct (D !! k) as [r|] eqn:E; [|done]. simpl. rewrite (in_matching _ _ _ _ E).
    destruct r as [|q d| | | | | | |]; simpl; rewrite ?andb_false_r, ?andb_true_r; try done. by destruct (cascadeChild p ts q d). }
  set (secrets := matching _ D1). set (D2 := update_all _ _ D1). set (D3 := update_all _ _ D2). set (D4 := update_all _ _ D3). exists D4. split; [done|].
  intros k. unfold D4. rewrite lookup_update_all. unfold D3. rewrite lookup_update_all. unfold D2. rewrite lookup_update_all.
  destruct (D1 !! k) as [r1|] eqn:E1; [|rewrite H1 in E1; by destruct (D !! k)].
  assert (Hin : bool_decide (k ∈ secrets.*1) = is_secret (fun s => cascadeChild p ts (sn_ProjectID s) (sn_DeletedAt s)) r1) by (unfold secrets; by rewrite (in_matching _ _ _ _ E1)).
  rewrite H1 in E1. destruct (D !! k) as [r|] eqn:E; [|done]. injection E1 as <-. pose proof (Ht _ _ E) as Hk. cbn [mbind option_bind]. rewrite Hin.
  destruct r as [d|q d|s| | | | | |]; destruct k; try done; simpl; rewrite ?andb_false_r; unfold at_id; simpl.
  - rewrite andb_true_r. by repeat case_bool_decide.
  - by destruct (cascadeChild p ts q d).
  - unfold cascadeChild. destruct (sn_ProjectID s =? p)%Z eqn:Eq, (sn_DeletedAt s) as [t|] eqn:Ed; simpl; try done. destruct (ts <=? t)%Z; [|done]. done.
Qed.

(** ** Delete, then restore *)

(** A row that gives access to a secret of project [p]. *)
Definition grants_access (D : table) (p : Z) (r : row) : bool :=
  match r with
  | RShare sid d => secret_in_project p D sid && live d
  | RACL sid => secret_in_project p D sid
  | RRequest (Some sid) RequestApproved _ => secret_in_project p D sid
  | RDynamic q d => (q =? p)%Z && negb d
  | _ => false
  end.
Lemma grants_restored D p ts k r : grants_access D p (restored p ts k r) = grants_access D p r.
Proof. destruct r; simpl; by repeat case_match. Qed.
Lemma grants_cascaded D p now now' k r o r1 : cascaded p now now' D k r o -> o = Some r1 -> grants_access D p r1 = false.
Proof.
  intros Hc ->. destruct r as [d|q d|s|sid n|sid d|sid|[sid|] [| |] d|q d|q]; simpl in Hc.
  3:{ destruct (live_secret_of p s); [destruct Hc as [t Hc]|]; by injection Hc as ->. }
  all: try (destruct (secret_in_project p D sid) eqn:Eg); try (destruct (live d) eqn:El); simplify_eq; simpl; rewrite ?Eg, ?El, ?andb_false_r; try done.
  all: repeat case_match; try done. by destruct (q =? p)%Z, d.
Qed.

(** Before [now], no environment or secret of [p] was deleted later than that; a live secret has no purge date. *)
Definition deleted_before (p now : Z) (D : table) : Prop := forall k r, D !! k = Some r ->
  match r with
  | REnv q (Some t) => q = p -> (t < now)%Z
  | RSecret s => match sn_DeletedAt s with Some t => sn_ProjectID s = p -> (t < now)%Z | None => sn_PurgeAt s = None end
  | _ => True
  end.

(** C8. Deleting a live project and restoring it, with nothing in between, brings back exactly the project, environments and
    secrets the deletion took, each as it was, and leaves in the bin what had been deleted on its own before.  The grants of
    roles at the project are untouched throughout, so they count again when it is restored.  The other access does not come
    back: no share, access-list entry or approved access request of its secrets, and no dynamic-secret configuration of the
    project is in force after the restoration.  The time of the deletion must be later than that of every earlier deletion of
    an environment or secret of the project, and no live secret may carry a purge date ([deleted_before]). *)
Theorem delete_restore_project D p now now' days : typed D -> D !! KProject p = Some (RProject None) -> deleted_before p now D ->
  exists D1 D2, run (DeleteProject p now now' days) D = (Ok (), D1) /\ run (RestoreProject p) D1 = (Ok (), D2) /\
    (forall k, match k with KProject _ | KEnv _ | KSecret _ | KRole _ => D2 !! k = D !! k | _ => True end) /\
    (forall k r, D2 !! k = Some r -> grants_access D p r = false).
Proof.
  intros Ht Hp Hb. destruct (exec_DeleteProject p now now' days D Ht Hp) as (D1 & E1 & H1).
  assert (Ht1 : typed D1).
  { intros k r Hr. specialize (H1 k). destruct (D !! k) as [r0|] eqn:E; [|congruence]. specialize (Ht _ _ E). destruct r0 as [d|q d|s|sid n|sid d|sid|[sid|] [| |] d|q d|q]; simpl in H1.
    3:{ destruct k; try done. destruct (live_secret_of p s); [destruct H1 as [t H1]|]; rewrite H1 in Hr; by injection Hr as <-. }
    all: rewrite H1 in Hr; clear H1; repeat case_match; simplify_eq; done. }
  assert (Hp1 : D1 !! KProject p = Some (RProject (Some now))).
  { specialize (H1 (KProject p)). rewrite Hp in H1. simpl in H1. by rewrite bool_decide_true in H1. }
  destruct (exec_RestoreProject p now D1 Ht1 Hp1) as (D2 & E2 & H2). exists D1, D2. unfold run. rewrite E1, E2. split; [done|]. split; [done|]. split.
  - intros k. assert (Hk : match k with KProject _ | KEnv _ | KSecret _ | KRole _ => D2 !! k = D !! k | _ => True end); [|exact Hk].
    rewrite !H2. specialize (H1 k). destruct (D !! k) as [r|] eqn:E; [|by destruct k; rewrite ?H1]. pose proof (Ht _ _ E) as Hkr. specialize (Hb k r E).
    destruct r as [d|q d|s|sid n|sid d|sid|rs rt d|q d|q]; destruct k; try done; simpl in H1.
    + rewrite H1. simpl. case_bool_decide as Hkp; simpl; [|by rewrite bool_decide_false]. rewrite Hkp in E. rewrite Hp in E. injection E as <-. simpl. by rewrite bool_decide_true.
    + rewrite H1. destruct (q =? p)%Z eqn:Eq, d as [t|]; simpl; unfold cascadeChild; rewrite Eq; simpl; try done.
      * apply Z.eqb_eq in Eq. destruct (now <=? t)%Z eqn:El; [|done]. specialize (Hb Eq). lia.
      * by rewrite Z.leb_refl.
    + destruct (live_secret_of p s) eqn:El; unfold live_secret_of in El.
      * destruct H1 as [t ->]. apply andb_true_iff in El as [Eq Ed]. simpl. unfold cascadeChild. simpl. rewrite Eq, Z.leb_refl. simpl.
        destruct s as [pp ee st dd pu ov]. simpl in *. destruct dd; [done|]. by rewrite Hb.
      * rewrite H1. simpl. unfold cascadeChild. destruct (sn_ProjectID s =? p)%Z eqn:Eq; [|done]. simpl in *. destruct (sn_DeletedAt s) as [t|] eqn:Ed; [|done].
        destruct (now <=? t)%Z eqn:Et; [|done]. apply Z.eqb_eq in Eq. specialize (Hb Eq). lia.
    + by rewrite H1.
  - intros k r. rewrite H2. intros (r1 & Hr1 & ->)%fmap_Some_1. rewrite grants_restored. specialize (H1 k). destruct (D !! k) as [r0|] eqn:E; [|congruence].
    by eapply grants_cascaded.
Qed.

(** * Concrete schedules *)

Definition ex_secret (env : Z) (d purge : option Z) : row := RSecret (mkSecret 1 env SecretStatusActive d purge 0).
(** A project with a live and a deleted secret, a share, an access list and an approved request. *)
Definition ex_catalog : table := list_to_map [
  (KProject 1, RProject None); (KEnv 10, REnv 1 None); (KEnv 11, REnv 1 (Some 5%Z));
  (KSecret 100, ex_secret 10 None None); (KSecret 101, ex_secret 10 (Some 7%Z) (Some 9%Z));
  (KShare 1, RShare 100 None); (KACL 1, RACL 100); (KRequest 1, RRequest (Some 100%Z) RequestApproved None); (KDynamic 1, RDynamic 1 false); (KRole 1, RRole 1)].

Lemma typed_check (D : table) : forallb (fun kr => kind_ok kr.1 kr.2) (map_to_list D) = true -> typed D.
Proof. rewrite forallb_forall. intros Hf k r Hd. apply (Hf (k, r)). by apply list_elem_of_In, elem_of_map_to_list. Qed.
Definition parent_live_b (D : table) (kr : key * row) : bool :=
  match parent kr.2 with Some (q, true) => bool_decide (D !! KProject q = Some (RProject None)) | _ => true end.
Lemma parents_live_check (D : table) : forallb (parent_live_b D) (map_to_list D) = true -> parents_live D.
Proof.
  rewrite forallb_forall. intros Hf k q (r & Hd & Hp). specialize (Hf (k, r)). unfold parent_live_b in Hf. simpl in Hf. rewrite Hp in Hf.
  rewrite bool_decide_eq_true in Hf. by apply Hf, list_elem_of_In, elem_of_map_to_list.
Qed.
Definition deleted_before_b (p now : Z) (kr : key * row) : bool :=
  match kr.2 with
  | REnv q (Some t) => negb (q =? p)%Z || (t <? now)%Z
  | RSecret s => match sn_DeletedAt s with Some t => negb (sn_ProjectID s =? p)%Z || (t <? now)%Z | None => bool_decide (sn_PurgeAt s = None) end
  | _ => true
  end.
Lemma deleted_before_check p now (D : table) : forallb (deleted_before_b p now) (map_to_list D) = true -> deleted_before p now D.
Proof.
  rewrite forallb_forall. intros Hf k r Hd. specialize (Hf (k, r)). unfold deleted_before_b in Hf. simpl in Hf.
  assert (Hin : In (k, r) (map_to_list D)) by (by apply list_elem_of_In, elem_of_map_to_list). specialize (Hf Hin).
  destruct r as [|q [t|]|s| | | | | |]; try done; [|destruct (sn_DeletedAt s); [|by apply bool_decide_eq_true in Hf]];
    (intros Hq; rewrite Hq, Z.eqb_refl in Hf; simpl in Hf; lia).
Qed.

Lemma delete_restore_project_witness : exists D1 D2, run (DeleteProject 1 1000 1001 30) ex_catalog = (Ok (), D1) /\ run (RestoreProject 1) D1 = (Ok (), D2) /\
  (forall k, match k with KProject _ | KEnv _ | KSecret _ | KRole _ => D2 !! k = ex_catalog !! k | _ => True end) /\ (forall k r, D2 !! k = Some r -> grants_access ex_catalog 1 r = false).
Proof. apply (delete_restore_project ex_catalog 1 1000 1001 30); [by apply typed_check|by vm_compute|by apply deleted_before_check]. Defined.

(** A secret is created in the project while the project is deleted: the creation has inserted its rows when the cascade runs. *)
Definition ex_race : list act := [Begin 1 (CreateSecret 102 200 1 10 0); Begin 2 (DeleteProject 1 1000 1001 30); Go 1 4; Go 2 27; Commit 2; Go 1 1].
Definition ex_race_end : table * gmap nat txst := default (∅, ∅) (play ex_race ex_catalog ∅).
Lemma ex_race_runs : play ex_race ex_catalog ∅ = Some ex_race_end.
Proof. unfold ex_race_end. destruct (play ex_race ex_catalog ∅) eqn:E; [done|]. exfalso. assert (Hn : is_Some (play ex_race ex_catalog ∅)); [|by destruct Hn; congruence].
  clear E. apply (bool_decide_unpack _). by vm_compute. Qed.

Lemma no_live_child_of_deleted_project_witness :
  ex_race_end.1 !! KProject 1 = Some (RProject (Some 1000%Z)) /\ (ex_race_end.2 !! 1%nat) ≫= (fun x => x_buf x !! KSecret 102) = Some (Some (ex_secret 10 None None)) /\
  parents_live ex_race_end.1.
Proof.
  split; [by vm_compute|]. split; [by vm_compute|].
  apply (no_live_child_of_deleted_project ex_catalog (mkState ex_race_end.1 ex_race_end.2)); [by apply typed_check|by apply parents_live_check|].
  apply (play_steps operation ex_race); [repeat constructor|]. rewrite ex_race_runs. by destruct ex_race_end.
Defined.

(** The environment guard counts the secrets of an environment whose project is being restored: the count comes before the
    restore, the deletion after it. *)
Definition ex_deleted : table := list_to_map [(KProject 1, RProject (Some 1000%Z)); (KEnv 10, REnv 1 (Some 1000%Z)); (KSecret 100, ex_secret 10 (Some 1000%Z) None)].
Definition ex_bypass : list act := [Begin 1 (DeleteEnvironment 10 2000); Go 1 2; Begin 2 (RestoreProject 1); Go 2 15; Commit 2; Go 1 3; Commit 1].

(** The deletion of an environment and the restoration of its project can leave an active secret in a deleted environment. *)
Theorem restore_bypasses_environment_guard : exists s, reachable operation ex_deleted s /\
  s_db s !! KSecret 100 = Some (ex_secret 10 None None) /\ s_db s !! KEnv 10 = Some (REnv 1 (Some 2000%Z)).
Proof.
  destruct (play ex_bypass ex_deleted ∅) as [[D txs]|] eqn:E; [|exfalso].
  - exists (mkState D txs). split; [apply (play_steps operation ex_bypass); [repeat constructor|done]|].
    assert (HD : (fst <$> play ex_bypass ex_deleted ∅) = Some D) by by rewrite E. clear E. vm_compute in HD. injection HD as <-. by split.
  - assert (Hn : is_Some (play ex_bypass ex_deleted ∅)); [|by destruct Hn; congruence]. clear E. apply (bool_decide_unpack _). by vm_compute.
Qed.
