(* ===== verification/AuthLimiter.v ===== *)
(** The bounded in-memory limiter behind the authentication budgets
    ([authFallbackLimiter] of src/internal/core/auth_budget.go).

    The limiter keeps, for the keys used most recently, the attempts inside a
    window.  As in the code the entries are reached through pointers: the list
    holds elements, and the key index maps a key to its element; a reservation
    is found again by its id, a mirrored attempt by the id of its stored row.
    [rep] relates a limiter to the list of keys and attempts it stands for and to
    its indexes, and every operation is shown to act on that list as its
    specification ([s_touch] and the operations built on it) does. *)
From Stdlib Require Import ZArith Lia.
From stdpp Require Import base numbers tactics sets list gmap.
From S2P Require Import Prelude.

(** * Data *)

(** Times are nanoseconds. *)
Record attempt := mkAttempt { a_id : Z; a_at : Z; a_mirrored : bool; a_storedID : Z }.
Record entry := mkEntry { e_key : bytes; e_attempts : list attempt }.

#[export] Instance attempt_eq_decision : EqDecision attempt.
Proof. solve_decision. Defined.

(** [f_elems] is the memory the elements of [f_lru] live in, [f_alloc] its next
    free address. *)
Record limiter := mkLimiter {
  f_maxKeys : nat;
  f_lru : list nat;
  f_elems : gmap nat entry;
  f_alloc : nat;
  f_byKey : gmap bytes nat;
  f_byID : gmap Z bytes;
  f_byStored : gmap Z Z;
  f_nextID : Z }.

Definition newAuthFallbackLimiter (maxKeys : nat) : limiter := mkLimiter maxKeys [] ∅ 0 ∅ ∅ ∅ 0.

Definition set_lru (l : list nat) (f : limiter) : limiter :=
  mkLimiter (f_maxKeys f) l (f_elems f) (f_alloc f) (f_byKey f) (f_byID f) (f_byStored f) (f_nextID f).
Definition set_attempts (el : nat) (l : list attempt) (f : limiter) : limiter :=
  mkLimiter (f_maxKeys f) (f_lru f) (alter (fun e => mkEntry (e_key e) l) el (f_elems f))
    (f_alloc f) (f_byKey f) (f_byID f) (f_byStored f) (f_nextID f).
Definition set_byStored (m : gmap Z Z) (f : limiter) : limiter :=
  mkLimiter (f_maxKeys f) (f_lru f) (f_elems f) (f_alloc f) (f_byKey f) (f_byID f) m (f_nextID f).

(** The entry an element points to. *)
Definition value (el : nat) (f : limiter) : entry := default (mkEntry [] []) (f_elems f !! el).

(** Stored row ids are sequence values and never have the top bit. *)
Definition authFallbackIDBit : Z := 2 ^ 63.

(** * Operations *)

Definition forget (a : attempt) (f : limiter) : limiter :=
  mkLimiter (f_maxKeys f) (f_lru f) (f_elems f) (f_alloc f) (f_byKey f)
    (delete (a_id a) (f_byID f))
    (if a_storedID a =? 0 then f_byStored f else delete (a_storedID a) (f_byStored f))
    (f_nextID f).
Definition forget_all (l : list attempt) (f : limiter) : limiter := fold_left (fun f a => forget a f) l f.

(** The removal of an element with everything the indexes hold of it. *)
Definition drop_elem (el : nat) (f : limiter) : limiter :=
  let oe := value el f in
  let f := forget_all (e_attempts oe) f in
  mkLimiter (f_maxKeys f) (List.filter (fun x => negb (x =? el)%nat) (f_lru f)) (delete el (f_elems f)) (f_alloc f)
    (delete (e_key oe) (f_byKey f)) (f_byID f) (f_byStored f) (f_nextID f).

(** [for f.lru.Len() >= f.maxKeys]: each round removes an element, so the length
    is fuel enough. *)
Fixpoint evict (fuel : nat) (f : limiter) : limiter :=
  match fuel with
  | O => f
  | S fuel =>
      if (f_maxKeys f <=? length (f_lru f))%nat then
        match last (f_lru f) with Some oldest => evict fuel (drop_elem oldest f) | None => f end
      else f
  end.

Definition push_front (key : bytes) (f : limiter) : nat * limiter :=
  let el := f_alloc f in
  (el, mkLimiter (f_maxKeys f) (el :: f_lru f) (<[el := mkEntry key []]> (f_elems f)) (S el)
         (<[key := el]> (f_byKey f)) (f_byID f) (f_byStored f) (f_nextID f)).

Definition touch (key : bytes) (f : limiter) : nat * limiter :=
  match f_byKey f !! key with
  | Some el => (el, set_lru (el :: List.filter (fun x => negb (x =? el)%nat) (f_lru f)) f)
  | None => push_front key (evict (length (f_lru f)) f)
  end.

Definition before (since : Z) (a : attempt) : bool := a_at a <? since.

Definition prune (el : nat) (since : Z) (f : limiter) : limiter :=
  let l := e_attempts (value el f) in
  set_attempts el (List.filter (fun a => negb (before since a)) l) (forget_all (List.filter (before since) l) f).

(** [a] with the limiter's next id becomes the last attempt of [el]. *)
Definition add (el : nat) (now : Z) (maxPerKey : Z) (f : limiter) : attempt * limiter :=
  let maxPerKey := if maxPerKey <? 1 then 1 else maxPerKey in
  let next := u64 (f_nextID f + 1) in
  let a := mkAttempt (Z.lor next authFallbackIDBit) now false 0 in
  let l := e_attempts (value el f) ++ [a] in
  let f := mkLimiter (f_maxKeys f) (f_lru f) (f_elems f) (f_alloc f) (f_byKey f)
             (<[a_id a := e_key (value el f)]> (f_byID f)) (f_byStored f) next in
  match l with
  | oldest :: rest =>
      if maxPerKey <? Z.of_nat (length l) then (a, set_attempts el rest (forget oldest f)) else (a, set_attempts el l f)
  | [] => (a, f)
  end.

Definition reserve (key : bytes) (now window maxPerKey : Z) (f : limiter) : Z * limiter :=
  let '(el, f) := touch key f in
  let f := prune el (now - window) f in
  let '(a, f) := add el now maxPerKey f in
  (a_id a, f).

Definition mirror (key : bytes) (now window maxPerKey storedID : Z) (f : limiter) : limiter :=
  let '(el, f) := touch key f in
  let f := prune el (now - window) f in
  let '(a, f) := add el now maxPerKey f in
  let l := e_attempts (value el f) in
  let last := mkAttempt (a_id a) (a_at a) true (if storedID =? 0 then a_storedID a else storedID) in
  let f := set_attempts el (take (length l - 1) l ++ [last]) f in
  if storedID =? 0 then f else set_byStored (<[storedID := a_id a]> (f_byStored f)) f.

Definition tryReserve (key : bytes) (now window maxPerKey limit : Z) (f : limiter) : bool * limiter :=
  let '(el, f) := touch key f in
  let f := prune el (now - window) f in
  if limit <=? Z.of_nat (length (e_attempts (value el f))) then (false, f)
  else (true, snd (add el now maxPerKey f)).

Definition counted (withMirrored : bool) (a : attempt) : bool := withMirrored || negb (a_mirrored a).

Definition count (key : bytes) (since : Z) (withMirrored : bool) (f : limiter) : Z * limiter :=
  match f_byKey f !! key with
  | None => (0, f)
  | Some el =>
      let f := prune el since f in
      (Z.of_nat (length (List.filter (counted withMirrored) (e_attempts (value el f)))), f)
  end.

(** The first attempt with the id goes, with its index entries. *)
Fixpoint take_out (id : Z) (l : list attempt) : option (attempt * list attempt) :=
  match l with
  | [] => None
  | a :: l =>
      if a_id a =? id then Some (a, l)
      else match take_out id l with Some (b, l') => Some (b, a :: l') | None => None end
  end.

Definition del_byID (id : Z) (f : limiter) : limiter :=
  mkLimiter (f_maxKeys f) (f_lru f) (f_elems f) (f_alloc f) (f_byKey f) (delete id (f_byID f)) (f_byStored f) (f_nextID f).

Definition release (id : Z) (f : limiter) : limiter :=
  match f_byID f !! id with
  | None => f
  | Some key =>
      let f := del_byID id f in
      match f_byKey f !! key with
      | None => f
      | Some el =>
          match take_out id (e_attempts (value el f)) with
          | Some (a, l) => set_attempts el l (forget a f)
          | None => f
          end
      end
  end.

Definition releaseMirror (storedID : Z) (f : limiter) : limiter :=
  match f_byStored f !! storedID with Some id => release id f | None => f end.

Definition clear (key : bytes) (f : limiter) : limiter :=
  match f_byKey f !! key with None => f | Some el => drop_elem el f end.

Definition limiter_size (f : limiter) : nat := length (f_lru f).

(** * What a limiter stands for *)

Record slot := mkSlot { t_el : nat; t_key : bytes; t_atts : list attempt }.

Definition held (T : list slot) : list (bytes * attempt) := concat (map (fun t => map (pair (t_key t)) (t_atts t)) T).

(** The elements are those of [T], in order, each reachable by its key and only by it. *)
Record shape (f : limiter) (T : list slot) : Prop := {
  sh_lru : f_lru f = map t_el T;
  sh_elems : forall t, t ∈ T -> f_elems f !! t_el t = Some (mkEntry (t_key t) (t_atts t));
  sh_els : NoDup (map t_el T);
  sh_keys : NoDup (map t_key T);
  sh_byKey : forall k el, f_byKey f !! k = Some el <-> exists t, t ∈ T /\ t_key t = k /\ t_el t = el;
  sh_alloc : forall t, t ∈ T -> (t_el t < f_alloc f)%nat }.

(** The ids handed out so far. *)
Definition id_of (n : Z) : Z := Z.lor n authFallbackIDBit.
Definition issued (f : limiter) (id : Z) : Prop := exists n, 1 <= n <= f_nextID f /\ id = id_of n.

(** The indexes hold exactly the attempts of [h], and of the mirrored ones at most those of [h]. *)
Record index (f : limiter) (h : list (bytes * attempt)) : Prop := {
  ix_ids : NoDup (map (fun x => a_id (snd x)) h);
  ix_byID : forall id k, f_byID f !! id = Some k <-> exists a, (k, a) ∈ h /\ a_id a = id;
  ix_byStored : forall sid id, f_byStored f !! sid = Some id ->
    sid <> 0 /\ exists k a, (k, a) ∈ h /\ a_id a = id /\ a_storedID a = sid;
  ix_issued : forall k a, (k, a) ∈ h -> issued f (a_id a);
  ix_next : 0 <= f_nextID f < 2 ^ 63 }.

Record rep (f : limiter) (T : list slot) : Prop := {
  rep_shape : shape f T;
  rep_index : index f (held T);
  rep_keys : (length T <= f_maxKeys f)%nat }.

(** ** The ids *)

Lemma land_idbit n : 0 <= n < 2 ^ 63 -> Z.land n authFallbackIDBit = 0.
Proof.
  intros. rewrite <- (Z.mod_small n (2 ^ 63)), <- Z.land_ones by lia.
  rewrite <- Z.land_assoc. replace (Z.land (Z.ones 63) authFallbackIDBit) with 0 by done. apply Z.land_0_r.
Qed.
Lemma id_of_add n : 0 <= n < 2 ^ 63 -> id_of n = n + 2 ^ 63.
Proof. intros. unfold id_of. rewrite <- Z.add_lor_land, land_idbit by done. unfold authFallbackIDBit. lia. Qed.
Lemma id_of_inj n m : 0 <= n < 2 ^ 63 -> 0 <= m < 2 ^ 63 -> id_of n = id_of m -> n = m.
Proof. intros. rewrite !id_of_add in *; lia. Qed.

(** ** The indexes *)

Lemma index_perm f h h' : h ≡ₚ h' -> index f h -> index f h'.
Proof.
  intros Hp [? Hid Hst His ?]. constructor; try done.
  - by rewrite <- Hp.
  - intros. rewrite Hid. split; intros (a&?&?); exists a; split; try done; [by rewrite <- Hp | by rewrite Hp].
  - intros sid id Hs. destruct (Hst sid id Hs) as (?&k&a&?&?). split; [done|]. exists k, a. by rewrite <- Hp.
  - intros k a ?. apply (His k). by rewrite Hp.
Qed.

Lemma index_forget f k a h : index f ((k, a) :: h) -> index (forget a f) h.
Proof.
  intros [Hn Hid Hst His ?]. simpl in Hn. apply NoDup_cons in Hn as [Ha Hn].
  assert (forall k' b, (k', b) ∈ h -> a_id b <> a_id a) as Hne.
  { intros k' b Hb He. apply Ha. rewrite <- He. apply elem_of_map. by exists (k', b). }
  constructor; try done.
  - intros id k'. cbn. rewrite lookup_delete_Some, Hid. split.
    + intros [? (b&[[= -> ->]|?]%elem_of_cons&?)]; [done|]. eauto.
    + intros (b&?&<-). split; [intros E; by apply (Hne k' b)|]. exists b. rewrite elem_of_cons. eauto.
  - intros sid id Hs. cbn in Hs.
    assert (f_byStored f !! sid = Some id /\ sid <> a_storedID a) as [Hs' Hsid].
    { destruct (a_storedID a =? 0) eqn:E; breflect.
      - split; [done|]. destruct (Hst _ _ Hs). congruence.
      - by apply lookup_delete_Some in Hs as [? ?]. }
    destruct (Hst _ _ Hs') as (?&k'&b&[[= -> ->]|?]%elem_of_cons&?&?); [done|]. split; [done|]. by exists k', b.
  - intros k' b ?. apply (His k'). rewrite elem_of_cons. eauto.
Qed.

Lemma index_forget_all f k l h : index f (map (pair k) l ++ h) -> index (forget_all l f) h.
Proof.
  revert f. induction l as [|a l IH]; intros f; simpl; [done|]. intros Hi. by eapply IH, index_forget.
Qed.

Lemma forget_all_fields l f :
  f_maxKeys (forget_all l f) = f_maxKeys f /\ f_lru (forget_all l f) = f_lru f /\
  f_elems (forget_all l f) = f_elems f /\ f_alloc (forget_all l f) = f_alloc f /\
  f_byKey (forget_all l f) = f_byKey f /\ f_nextID (forget_all l f) = f_nextID f.
Proof. revert f. induction l as [|a l IH]; intros f; simpl; [done|]. apply (IH (forget a f)). Qed.

(** What the shape and the indexes depend on. *)
Lemma shape_ext f g T :
  f_lru f = f_lru g -> f_elems f = f_elems g -> f_alloc f = f_alloc g -> f_byKey f = f_byKey g -> shape f T -> shape g T.
Proof. intros Hl He Ha Hk []. constructor; rewrite <- ?Hl, <- ?He, <- ?Ha, <- ?Hk; done. Qed.
Lemma index_ext f g h :
  f_byID f = f_byID g -> f_byStored f = f_byStored g -> f_nextID f = f_nextID g -> index f h -> index g h.
Proof. unfold issued. intros Hl He Ha []. constructor; unfold issued; rewrite <- ?Hl, <- ?He, <- ?Ha; done. Qed.
Lemma shape_forget_all l f T : shape f T -> shape (forget_all l f) T.
Proof. destruct (forget_all_fields l f) as (?&?&?&?&?&?). by apply shape_ext. Qed.

(** ** Slots *)

Definition others (el : nat) (T : list slot) : list slot := List.filter (fun t => negb (t_el t =? el)%nat) T.

Lemma slot_eq f T t u : shape f T -> t ∈ T -> u ∈ T -> t_el t = t_el u -> t = u.
Proof.
  intros Hs Ht Hu He. pose proof (sh_elems _ _ Hs _ Ht) as E1. pose proof (sh_elems _ _ Hs _ Hu) as E2.
  rewrite He in E1. rewrite E1 in E2. destruct t, u; simplify_eq/=. done.
Qed.
Lemma slot_key_eq f T t u : shape f T -> t ∈ T -> u ∈ T -> t_key t = t_key u -> t = u.
Proof.
  intros Hs Ht Hu He. apply (slot_eq f T); try done.
  assert (f_byKey f !! t_key t = Some (t_el t)) as H1 by (apply (sh_byKey _ _ Hs); eauto).
  assert (f_byKey f !! t_key u = Some (t_el u)) as H2 by (apply (sh_byKey _ _ Hs); eauto). congruence.
Qed.

Lemma elem_of_others el t T : t ∈ others el T <-> t ∈ T /\ t_el t <> el.
Proof. unfold others. rewrite elem_of_filter_bool, Bool.negb_true_iff, Nat.eqb_neq. done. Qed.
Lemma others_cons el t T : others el (t :: T) = if (t_el t =? el)%nat then others el T else t :: others el T.
Proof. unfold others. cbn. by destruct (t_el t =? el)%nat. Qed.
Lemma others_lru el T : List.filter (fun x => negb (x =? el)%nat) (map t_el T) = map t_el (others el T).
Proof. unfold others. induction T as [|t T IH]; [done|]. cbn. destruct (t_el t =? el)%nat; cbn; congruence. Qed.
Lemma others_notin el T : el ∉ map t_el T -> others el T = T.
Proof.
  unfold others. induction T as [|t T IH]; [done|]. cbn. intros [? ?]%not_elem_of_cons.
  destruct (Nat.eqb_spec (t_el t) el); [congruence|]. cbn. f_equal. auto.
Qed.
Lemma others_perm f T t : shape f T -> t ∈ T -> T ≡ₚ t :: others (t_el t) T.
Proof.
  intros Hs Ht. pose proof (sh_els _ _ Hs) as Hn. clear Hs. induction T as [|u T IH]; [by apply elem_of_nil in Ht|].
  cbn in Hn. rewrite others_cons. apply NoDup_cons in Hn as [Hu Hn]. apply elem_of_cons in Ht as [->|Ht].
  - rewrite Nat.eqb_refl. by rewrite others_notin.
  - destruct (Nat.eqb_spec (t_el u) (t_el t)) as [E|E].
    + exfalso. apply Hu. rewrite E. apply elem_of_map. eauto.
    + rewrite Permutation_swap. constructor. auto.
Qed.
Lemma held_cons t T : held (t :: T) = map (pair (t_key t)) (t_atts t) ++ held T.
Proof. done. Qed.
Lemma held_perm T T' : T ≡ₚ T' -> held T ≡ₚ held T'.
Proof. unfold held. intros H. induction H; cbn; [done|by f_equiv| |by etrans]. rewrite !app_assoc. f_equiv. apply Permutation_app_comm. Qed.
Lemma elem_of_held k a T : (k, a) ∈ held T <-> exists t, t ∈ T /\ t_key t = k /\ a ∈ t_atts t.
Proof.
  unfold held. rewrite list_elem_of_In, in_concat. split.
  - intros (l&(t&El&Ht)%in_map_iff&Hb). subst l. apply in_map_iff in Hb as (b&E&Hb). simplify_eq.
    exists t. by rewrite !list_elem_of_In.
  - intros (t&Ht%list_elem_of_In&Hk&Ha%list_elem_of_In). subst k.
    exists (map (pair (t_key t)) (t_atts t)). split; apply in_map_iff; eauto.
Qed.

Definition upd (el : nat) (l : list attempt) (T : list slot) : list slot :=
  map (fun t => if (t_el t =? el)%nat then mkSlot (t_el t) (t_key t) l else t) T.

Lemma upd_notin el l T : el ∉ map t_el T -> upd el l T = T.
Proof.
  induction T as [|t T IH]; [done|]. cbn. intros [? ?]%not_elem_of_cons.
  destruct (Nat.eqb_spec (t_el t) el); [congruence|]. f_equal. auto.
Qed.
Lemma map_upd {A} (g : slot -> A) el l T : (forall t, g (mkSlot (t_el t) (t_key t) l) = g t) -> map g (upd el l T) = map g T.
Proof. intros Hg. unfold upd. rewrite map_map. apply map_ext. intros t. by destruct (t_el t =? el)%nat. Qed.
Lemma elem_of_upd f T t u l : shape f T -> t ∈ T ->
  u ∈ upd (t_el t) l T <-> u = mkSlot (t_el t) (t_key t) l \/ u ∈ others (t_el t) T.
Proof.
  intros Hs Ht. unfold upd. rewrite elem_of_map. split.
  - intros (v&->&Hv). destruct (Nat.eqb_spec (t_el v) (t_el t)) as [E|E].
    + left. by rewrite (slot_eq f T v t).
    + right. by apply elem_of_others.
  - intros [->|[Hu E]%elem_of_others].
    + exists t. by rewrite Nat.eqb_refl.
    + exists u. by rewrite (proj2 (Nat.eqb_neq _ _) E).
Qed.
Lemma held_upd f T t l : shape f T -> t ∈ T ->
  held (upd (t_el t) l T) ≡ₚ map (pair (t_key t)) l ++ held (others (t_el t) T).
Proof.
  intros Hs Ht. rewrite <- (held_cons (mkSlot (t_el t) (t_key t) l)). apply held_perm.
  etrans; [apply Permutation_map, (others_perm f T t); done|]. cbn. rewrite Nat.eqb_refl. constructor.
  rewrite <- (upd_notin (t_el t) l (others (t_el t) T)) at 2; [done|].
  intros (u&Hu&[]%elem_of_others)%elem_of_map. congruence.
Qed.

Lemma value_slot f T t : shape f T -> t ∈ T -> value (t_el t) f = mkEntry (t_key t) (t_atts t).
Proof. intros Hs Ht. unfold value. by rewrite (sh_elems _ _ Hs). Qed.
Lemma index_split f T t : shape f T -> t ∈ T -> index f (held T) ->
  index f (map (pair (t_key t)) (t_atts t) ++ held (others (t_el t) T)).
Proof. intros Hs Ht. apply index_perm. rewrite <- held_cons. by apply held_perm, (others_perm f). Qed.

Lemma shape_set f T t l : shape f T -> t ∈ T -> shape (set_attempts (t_el t) l f) (upd (t_el t) l T).
Proof.
  intros Hs Ht. pose proof Hs as [Hl He Hn Hk Hb Ha]. constructor; cbn.
  - by rewrite map_upd.
  - intros u [->|[Hu E]%elem_of_others]%(elem_of_upd f); try done; cbn.
    + by rewrite lookup_alter_eq, He.
    + rewrite lookup_alter_ne by done. auto.
  - by rewrite map_upd.
  - by rewrite map_upd.
  - intros k el. rewrite Hb. split.
    + intros (u&Hu&<-&<-). exists (if (t_el u =? t_el t)%nat then mkSlot (t_el u) (t_key u) l else u).
      split; [|by destruct (t_el u =? t_el t)%nat]. unfold upd. apply elem_of_map. eauto.
    + intros (u&Hu&<-&<-). apply (elem_of_upd f) in Hu as [->|[Hu ?]%elem_of_others]; eauto.
  - intros u [->|[Hu E]%elem_of_others]%(elem_of_upd f); try done; cbn; auto.
Qed.

Lemma rep_set f T t l g : shape f T -> t ∈ T -> (length T <= f_maxKeys f)%nat -> g = set_attempts (t_el t) l f ->
  index f (map (pair (t_key t)) l ++ held (others (t_el t) T)) -> rep g (upd (t_el t) l T).
Proof.
  intros Hs Ht Hm -> Hi. constructor.
  - by apply shape_set.
  - eapply index_perm; [symmetry; by eapply held_upd|]. by apply index_ext with f.
  - unfold upd. by rewrite length_map.
Qed.

Lemma NoDup_others {A} (g : slot -> A) el T : NoDup (map g T) -> NoDup (map g (others el T)).
Proof. apply NoDup_map_filter. Qed.

Lemma rep_drop f T t : rep f T -> t ∈ T -> rep (drop_elem (t_el t) f) (others (t_el t) T).
Proof.
  intros [Hs Hi Hm] Ht. pose proof Hs as [Hl He Hn Hk Hb Ha].
  unfold drop_elem. rewrite (value_slot f T) by done. cbn [e_attempts e_key].
  pose proof (index_forget_all _ _ _ _ (index_split f T t Hs Ht Hi)) as Hi'.
  destruct (forget_all_fields (t_atts t) f) as (E1&E2&E3&E4&E5&E6).
  constructor; [constructor|..]; cbn; rewrite ?E1, ?E2, ?E3, ?E4, ?E5, ?E6.
  - by rewrite Hl, others_lru.
  - intros u [Hu ?]%elem_of_others. rewrite lookup_delete_ne by done. auto.
  - by apply NoDup_others.
  - by apply NoDup_others.
  - intros k el. rewrite lookup_delete_Some, Hb. split.
    + intros [Hne (u&Hu&<-&<-)]. exists u. rewrite elem_of_others. split_and!; try done.
      intros E. apply Hne. by rewrite (slot_eq f T u t).
    + intros (u&[Hu ?]%elem_of_others&<-&<-). split; [|eauto]. intros E. by pose proof (slot_key_eq f T t u Hs Ht Hu E) as ->.
  - intros u [Hu ?]%elem_of_others. auto.
  - by eapply index_ext, Hi'.
  - unfold others. etrans; [apply List.filter_length_le|done].
Qed.

(** * The specification: keys, most recently used first, with their attempts *)

Abbreviation spec := (list (bytes * list attempt)).

Fixpoint s_find (k : bytes) (s : spec) : option (list attempt) :=
  match s with [] => None | (k', l) :: s => if bool_decide (k' = k) then Some l else s_find k s end.
Definition s_get (k : bytes) (s : spec) : list attempt := default [] (s_find k s).
Definition s_del (k : bytes) (s : spec) : spec := List.filter (fun x => negb (bool_decide (x.1 = k))) s.
Definition s_set (k : bytes) (l : list attempt) (s : spec) : spec :=
  map (fun x => if bool_decide (x.1 = k) then (x.1, l) else x) s.
(** What is left beside a touched key: all others, or all but the oldest of a full limiter. *)
Definition s_rest (maxKeys : nat) (k : bytes) (s : spec) : spec :=
  match s_find k s with Some _ => s_del k s | None => take (maxKeys - 1) s end.
Definition s_prune (since : Z) (l : list attempt) : list attempt := List.filter (fun a => negb (before since a)) l.
Definition s_add (maxPerKey : Z) (a : attempt) (l : list attempt) : list attempt :=
  if Z.max 1 maxPerKey <? Z.of_nat (length (l ++ [a])) then tail (l ++ [a]) else l ++ [a].

Definition abs (T : list slot) : spec := map (fun t => (t_key t, t_atts t)) T.
Definition models (f : limiter) (s : spec) : Prop := exists T, rep f T /\ abs T = s.

Lemma models_new n : models (newAuthFallbackLimiter n) [].
Proof.
  exists []. split; [|done]. constructor; cbn; [constructor|constructor|lia]; cbn; intros; set_unfold; try done; try constructor.
  all: naive_solver.
Qed.

Lemma s_find_Some f T k l : shape f T -> s_find k (abs T) = Some l <-> exists t, t ∈ T /\ t_key t = k /\ t_atts t = l.
Proof.
  intros Hs. pose proof (sh_keys _ _ Hs) as Hk. clear Hs. induction T as [|u T IH]; cbn.
  - split; [done|]. intros (?&?%elem_of_nil&_). done.
  - cbn in Hk. apply NoDup_cons in Hk as [Hu Hk]. case_bool_decide as E.
    + split; [intros [= <-]; exists u; by rewrite elem_of_cons; eauto|].
      intros (t&[->|Ht]%elem_of_cons&?&<-); [done|]. exfalso. apply Hu, elem_of_map. exists t. split; [congruence|done].
    + rewrite IH by done. split; intros (t&Ht&?&?).
      * exists t. rewrite elem_of_cons. eauto.
      * apply elem_of_cons in Ht as [->|Ht]; [done|]. eauto.
Qed.
Lemma s_find_None f T k : shape f T -> s_find k (abs T) = None <-> f_byKey f !! k = None.
Proof.
  intros Hs. rewrite !eq_None_not_Some. apply not_iff_compat. split; intros [x Hx].
  - apply (s_find_Some f) in Hx as (t&?&?&?); [|done]. exists (t_el t). apply (sh_byKey _ _ Hs). eauto.
  - apply (sh_byKey _ _ Hs) in Hx as (t&?&?&?). exists (t_atts t). apply (s_find_Some f); eauto.
Qed.
Lemma byKey_slot f T k el : shape f T -> f_byKey f !! k = Some el ->
  exists t, t ∈ T /\ t_key t = k /\ t_el t = el /\ s_find k (abs T) = Some (t_atts t).
Proof.
  intros Hs (t&?&?&?)%(sh_byKey _ _ Hs). exists t. split_and!; try done. apply (s_find_Some f); eauto.
Qed.

Lemma abs_others f T t : shape f T -> t ∈ T -> abs (others (t_el t) T) = s_del (t_key t) (abs T).
Proof.
  intros Hs Ht.
  assert (forall u, u ∈ T -> (t_el u =? t_el t)%nat = bool_decide (t_key u = t_key t)) as HT.
  { intros u Hu. apply eq_bool_prop_intro. rewrite Is_true_true, Nat.eqb_eq, bool_decide_spec. split; intros E.
    - by rewrite (slot_eq f T u t).
    - by rewrite (slot_key_eq f T u t). }
  clear Hs Ht. unfold abs, s_del, others. induction T as [|u T IH]; [done|]. cbn.
  rewrite (HT u) by by left. case_bool_decide; cbn; rewrite IH by (intros; apply HT; by right); done.
Qed.
Lemma abs_upd f T t l : shape f T -> t ∈ T -> abs (upd (t_el t) l T) = s_set (t_key t) l (abs T).
Proof.
  intros Hs Ht. unfold abs, s_set, upd. rewrite !map_map. apply map_ext_in. intros u Hu%list_elem_of_In. cbn.
  destruct (Nat.eqb_spec (t_el u) (t_el t)) as [E|E]; case_bool_decide as E'; try done.
  - by rewrite (slot_eq f T u t) in E'.
  - by rewrite (slot_key_eq f T u t) in E.
Qed.
Lemma s_set_cons k l l' s : k ∉ map fst s -> s_set k l ((k, l') :: s) = (k, l) :: s.
Proof.
  intros Hk. cbn. rewrite bool_decide_true by done. f_equal. rewrite <- (map_id s) at 2.
  apply map_ext_in. intros [k' v] Hx%list_elem_of_In. cbn. case_bool_decide; [|done]. subst.
  exfalso. apply Hk, elem_of_map. by exists (k, v).
Qed.
Lemma abs_keys T : map fst (abs T) = map t_key T.
Proof. unfold abs. by rewrite map_map. Qed.

(** * The operations follow the specification *)

Lemma upd_head f t T l : shape f (t :: T) -> upd (t_el t) l (t :: T) = mkSlot (t_el t) (t_key t) l :: T.
Proof.
  intros Hs. pose proof (sh_els _ _ Hs) as Hn. cbn in *. apply NoDup_cons in Hn as [? ?].
  rewrite Nat.eqb_refl. f_equal. by apply upd_notin.
Qed.

Lemma evict_id n f : (length (f_lru f) < f_maxKeys f)%nat -> evict n f = f.
Proof. intros. destruct n; [done|]. cbn. by rewrite (proj2 (Nat.leb_gt _ _)). Qed.

Lemma evict_rep f T : rep f T -> (1 <= f_maxKeys f)%nat ->
  rep (evict (length (f_lru f)) f) (take (f_maxKeys f - 1) T) /\
  f_maxKeys (evict (length (f_lru f)) f) = f_maxKeys f /\ f_nextID (evict (length (f_lru f)) f) = f_nextID f.
Proof.
  intros Hr Hm. pose proof Hr as [Hs Hi Hl]. rewrite (sh_lru _ _ Hs), length_map.
  destruct (decide (length T < f_maxKeys f)%nat).
  - rewrite evict_id by (by rewrite (sh_lru _ _ Hs), length_map). by rewrite take_ge by lia.
  - destruct T as [|t T _] using rev_ind; [cbn in *; lia|]. rewrite length_app in *. cbn [length] in *.
    replace (length T + 1)%nat with (S (length T)) in * by lia. cbn [evict].
    rewrite (sh_lru _ _ Hs), length_map, length_app, (proj2 (Nat.leb_le _ _)) by (cbn; lia).
    rewrite map_app, last_app. cbn.
    assert (others (t_el t) (T ++ [t]) = T) as Ho.
    { unfold others. rewrite List.filter_app. cbn. rewrite Nat.eqb_refl. cbn. rewrite app_nil_r. apply others_notin.
      pose proof (sh_els _ _ Hs) as Hn. rewrite map_app in Hn. apply NoDup_app in Hn as (_&Hn&_).
      intros Hx. apply (Hn _ Hx). cbn. by left. }
    pose proof (rep_drop f _ t Hr) as Hd. rewrite Ho in Hd. specialize (Hd ltac:(apply elem_of_app; right; by left)).
    assert (f_maxKeys (drop_elem (t_el t) f) = f_maxKeys f /\ f_nextID (drop_elem (t_el t) f) = f_nextID f) as [E1 E2].
    { unfold drop_elem. cbn. by destruct (forget_all_fields (e_attempts (value (t_el t) f)) f) as (?&?&?&?&?&?). }
    rewrite evict_id by (rewrite (sh_lru _ _ (rep_shape _ _ Hd)), length_map, E1; lia).
    rewrite take_app_length' by lia. done.
Qed.

Lemma push_front_rep f T k : rep f T -> (length T < f_maxKeys f)%nat -> f_byKey f !! k = None ->
  rep (snd (push_front k f)) (mkSlot (f_alloc f) k [] :: T).
Proof.
  intros [Hs Hi Hl] Hm Hk. pose proof Hs as [H1 H2 H3 H4 H5 H6].
  assert (f_alloc f ∉ map t_el T) as Hfresh by (intros (t&E&?%H6)%elem_of_map; lia).
  constructor; cbn; [constructor; cbn|by eapply index_ext, Hi|lia].
  - congruence.
  - intros t [->|Ht]%elem_of_cons; cbn; [by rewrite lookup_insert_eq|].
    rewrite lookup_insert_ne; [auto|]. intros E. specialize (H6 _ Ht). lia.
  - by constructor.
  - constructor; [|done]. intros (t&->&Ht)%elem_of_map.
    rewrite (proj2 (H5 (t_key t) (t_el t))) in Hk by eauto. done.
  - intros k' el. rewrite lookup_insert_Some, H5. split.
    + intros [[<- <-]|[? (t&?&?&?)]]; [exists (mkSlot (f_alloc f) k []); by rewrite elem_of_cons; eauto|].
      exists t. rewrite elem_of_cons. eauto.
    + intros (t&[->|Ht]%elem_of_cons&<-&<-); [by left|]. right. split; [|eauto].
      intros ->. rewrite (proj2 (H5 (t_key t) (t_el t))) in Hk by eauto. done.
  - intros t [->|Ht%H6]%elem_of_cons; cbn; lia.
Qed.

(** The touched key comes first; when it is new and the limiter is full, the
    least recently used key makes room. *)
Lemma touch_rep f T k : rep f T -> (1 <= f_maxKeys f)%nat ->
  exists t T', (touch k f).1 = t_el t /\ rep (touch k f).2 (t :: T') /\ t_key t = k /\
    t_atts t = s_get k (abs T) /\ abs T' = s_rest (f_maxKeys f) k (abs T) /\
    f_maxKeys (touch k f).2 = f_maxKeys f /\ f_nextID (touch k f).2 = f_nextID f.
Proof.
  intros Hr Hm. pose proof Hr as [Hs Hi Hl]. unfold touch, s_rest, s_get. destruct (f_byKey f !! k) as [el|] eqn:E.
  - destruct (byKey_slot f T k el Hs E) as (t&Ht&<-&<-&->).
    exists t, (others (t_el t) T). cbn. rewrite <- (abs_others f) by done. split_and!; try done.
    pose proof (others_perm f T t Hs Ht) as Hp. constructor; cbn -[held length].
    + pose proof Hs as [H1 H2 H3 H4 H5 H6]. constructor; cbn; rewrite <- ?Hp.
      * rewrite H1, others_lru. done.
      * intros u Hu. apply H2. by rewrite Hp.
      * by apply (Permutation_map t_el) in Hp as <-.
      * by apply (Permutation_map t_key) in Hp as <-.
      * intros k' el. rewrite H5. split; intros (u&Hu&?); exists u; split; try done; [by rewrite <- Hp|by rewrite Hp].
      * intros u Hu. apply H6. by rewrite Hp.
    + apply index_perm with (held T); [by apply held_perm|]. by apply index_ext with f.
    + by rewrite <- Hp.
  - rewrite (proj2 (s_find_None f T k Hs)) by done. destruct (evict_rep f T Hr Hm) as (He&E1&E2).
    set (g := evict (length (f_lru f)) f) in *.
    exists (mkSlot (f_alloc g) k []), (take (f_maxKeys f - 1) T). cbn. split_and!; try done.
    + apply push_front_rep; [done|rewrite length_take; lia|]. apply eq_None_not_Some. intros [el Hel].
      apply (sh_byKey _ _ (rep_shape _ _ He)) in Hel as (t&Ht&<-&_).
      rewrite (proj2 (sh_byKey _ _ Hs (t_key t) (t_el t))) in E; [done|].
      exists t. split_and!; try done. by eapply elem_of_take in Ht as (?&?%list_elem_of_lookup_2&_).
    + unfold abs. by rewrite firstn_map.
Qed.

Lemma filter_negb_perm {A} (p : A -> bool) l : l ≡ₚ List.filter p l ++ List.filter (fun a => negb (p a)) l.
Proof.
  induction l as [|a l IH]; [done|]. cbn. destruct (p a); cbn; [by f_equiv|].
  rewrite <- Permutation_middle. by f_equiv.
Qed.

Lemma prune_rep f T t since : rep f T -> t ∈ T ->
  rep (prune (t_el t) since f) (upd (t_el t) (s_prune since (t_atts t)) T) /\
  f_maxKeys (prune (t_el t) since f) = f_maxKeys f /\ f_nextID (prune (t_el t) since f) = f_nextID f.
Proof.
  intros [Hs Hi Hm] Ht. unfold prune. rewrite (value_slot f T) by done. cbn [e_attempts].
  destruct (forget_all_fields (List.filter (before since) (t_atts t)) f) as (E1&_&_&_&_&E2).
  split; [|by cbn]. eapply rep_set; [by apply shape_forget_all|done|by rewrite E1|done|].
  eapply index_forget_all with (k := t_key t), index_perm; [|by eapply index_split].
  rewrite app_assoc, <- map_app. by rewrite <- filter_negb_perm.
Qed.

Lemma index_add f h k a : index f h -> f_nextID f + 1 < 2 ^ 63 -> a_id a = id_of (f_nextID f + 1) -> a_storedID a = 0 ->
  index (mkLimiter (f_maxKeys f) (f_lru f) (f_elems f) (f_alloc f) (f_byKey f) (<[a_id a := k]> (f_byID f))
           (f_byStored f) (f_nextID f + 1)) (h ++ [(k, a)]).
Proof.
  intros [Hn Hid Hst His Hx] Hnx Ha Hz.
  assert (forall k' b, (k', b) ∈ h -> a_id b <> a_id a) as Hne.
  { intros k' b (n&?&E)%His E'. rewrite Ha, E in E'. apply id_of_inj in E'; lia. }
  constructor; cbn; [| | | |lia].
  - rewrite map_app. apply NoDup_app. split_and!; [done| |apply NoDup_singleton].
    intros x (b&->&Hb)%elem_of_map E%list_elem_of_singleton. destruct b as [k' b]. by apply (Hne k' b).
  - intros id k'. rewrite lookup_insert_Some, Hid. split.
    + intros [[<- <-]|[? (b&?&?)]]; [exists a|exists b]; rewrite elem_of_app, list_elem_of_singleton; eauto.
    + intros (b&[Hb|[= -> ->]%list_elem_of_singleton]%elem_of_app&<-); [|by left].
      right. split; [|eauto]. intros E. by apply (Hne k' b).
  - intros sid id (?&k'&b&?&?)%Hst. split; [done|]. exists k', b. rewrite elem_of_app. eauto.
  - intros k' b [Hb|[= -> ->]%list_elem_of_singleton]%elem_of_app.
    + apply His in Hb as (n&?&?). exists n. cbn. split; [lia|done].
    + exists (f_nextID f + 1). cbn. split; [lia|done].
Qed.

Definition next_attempt (f : limiter) (now : Z) : attempt := mkAttempt (id_of (f_nextID f + 1)) now false 0.

Lemma add_rep f T t now maxPerKey : rep f T -> t ∈ T -> f_nextID f + 1 < 2 ^ 63 ->
  let '(a, g) := add (t_el t) now maxPerKey f in
  a = next_attempt f now /\ rep g (upd (t_el t) (s_add maxPerKey a (t_atts t)) T) /\
  f_maxKeys g = f_maxKeys f /\ f_nextID g = f_nextID f + 1.
Proof.
  intros [Hs Hi Hm] Ht Hnx. unfold add. rewrite (value_slot f T) by done. cbn [e_attempts e_key].
  pose proof (ix_next _ _ Hi) as Hnn. rewrite (u64_id (f_nextID f + 1)) by (red; lia).
  fold (id_of (f_nextID f + 1)). fold (next_attempt f now). set (a := next_attempt f now).
  pose proof (index_add f _ (t_key t) a (index_split f T t Hs Ht Hi) Hnx eq_refl eq_refl) as Hi'.
  set (g := mkLimiter _ _ _ _ _ _ _ _) in Hi' |- *.
  assert (shape g T) as Hg by by apply (shape_ext f).
  assert (map (pair (t_key t)) (t_atts t ++ [a]) ++ held (others (t_el t) T) ≡ₚ
          (map (pair (t_key t)) (t_atts t) ++ held (others (t_el t) T)) ++ [(t_key t, a)]) as Hp.
  { rewrite map_app, <- !app_assoc. f_equiv. apply Permutation_app_comm. }
  unfold s_add. replace (if maxPerKey <? 1 then 1 else maxPerKey) with (Z.max 1 maxPerKey)
    by (destruct (maxPerKey <? 1) eqn:E; breflect; lia).
  destruct (t_atts t ++ [a]) as [|o l] eqn:El; [by destruct (t_atts t)|].
  rewrite ?El in Hp. cbn in Hp. destruct (Z.max 1 maxPerKey <? Z.of_nat (length (o :: l))) eqn:Ec; split_and!; try done; rewrite El, Ec.
  - apply (rep_set (forget o g)); [by apply (shape_ext g)|done|exact Hm|done|]. cbn [tail].
    apply index_forget with (t_key t). eapply index_perm; [|exact Hi']. by rewrite <- Hp.
  - apply (rep_set g); [done|done|exact Hm|done|]. eapply index_perm; [|exact Hi']. by rewrite <- Hp.
Qed.

(** What every operation leaves alone or steps. *)
Definition same_bounds (n : Z) (f g : limiter) : Prop := f_maxKeys g = f_maxKeys f /\ f_nextID g = f_nextID f + n.

(** Touch and prune: the window of the key, at the front. *)
Lemma touch_prune_rep f s k since : models f s -> (1 <= f_maxKeys f)%nat ->
  exists t T, (touch k f).1 = t_el t /\ t_key t = k /\ t_atts t = s_prune since (s_get k s) /\
    rep (prune (t_el t) since (touch k f).2) (t :: T) /\ abs T = s_rest (f_maxKeys f) k s /\
    same_bounds 0 f (prune (t_el t) since (touch k f).2).
Proof.
  intros (T&Hr&<-) Hm. destruct (touch_rep f T k Hr Hm) as (t&T'&E&Hr'&Hk&Ha&Hs&E1&E2).
  destruct (prune_rep _ _ t since Hr' ltac:(by left)) as (Hp&E3&E4).
  rewrite (upd_head (touch k f).2) in Hp by apply Hr'.
  exists (mkSlot (t_el t) (t_key t) (s_prune since (t_atts t))), T'. cbn. rewrite Ha in *.
  unfold same_bounds. split_and!; try done; [congruence|rewrite E4, E2; lia].
Qed.

Lemma models_rep f T : rep f T -> models f (abs T).
Proof. intros. by exists T. Qed.

Lemma reserve_models f s k now window cap : models f s -> (1 <= f_maxKeys f)%nat -> f_nextID f + 1 < 2 ^ 63 ->
  let '(id, g) := reserve k now window cap f in
  id = a_id (next_attempt f now) /\ same_bounds 1 f g /\
  models g ((k, s_add cap (next_attempt f now) (s_prune (now - window) (s_get k s))) :: s_rest (f_maxKeys f) k s).
Proof.
  intros Hf Hm Hnx. destruct (touch_prune_rep f s k (now - window) Hf Hm) as (t&T&E&Hk&Ha&Hr&Hs&E1&E2).
  unfold reserve. destruct (touch k f) as [el f1]. cbn [fst snd] in *. subst el.
  pose proof (add_rep (prune (t_el t) (now - window) f1) _ t now cap Hr ltac:(by left) ltac:(lia)) as Hadd.
  destruct (add _ _ _ _) as [a g]. destruct Hadd as (->&Hg&E3&E4).
  rewrite (upd_head _ _ _ _ (rep_shape _ _ Hr)) in Hg. unfold next_attempt in *. rewrite E2, Z.add_0_r in *.
  split_and!; [done|split; [congruence|done]|]. rewrite <- Hs, <- Ha, <- Hk. by apply models_rep in Hg.
Qed.

Lemma tryReserve_models f s k now window cap limit : models f s -> (1 <= f_maxKeys f)%nat -> f_nextID f + 1 < 2 ^ 63 ->
  let '(ok, g) := tryReserve k now window cap limit f in
  let w := s_prune (now - window) (s_get k s) in
  ok = (Z.of_nat (length w) <? limit) /\ same_bounds (if ok then 1 else 0) f g /\
  models g ((k, if ok then s_add cap (next_attempt f now) w else w) :: s_rest (f_maxKeys f) k s).
Proof.
  intros Hf Hm Hnx. destruct (touch_prune_rep f s k (now - window) Hf Hm) as (t&T&E&Hk&Ha&Hr&Hs&E1&E2).
  unfold tryReserve. destruct (touch k f) as [el f1]. cbn [fst snd] in *. subst el.
  pose proof (value_slot _ _ t (rep_shape _ _ Hr) ltac:(by left)) as Hv. rewrite Hv. cbn [e_attempts]. rewrite Ha.
  pose proof (add_rep (prune (t_el t) (now - window) f1) _ t now cap Hr ltac:(by left) ltac:(lia)) as Hadd.
  destruct (add _ _ _ _) as [a g]. destruct Hadd as (->&Hg&E3&E4). rewrite Z.leb_antisym.
  destruct (_ <? limit); cbn; split_and!; try done.
  - rewrite E2, Z.add_0_r in *. split; [congruence|done].
  - rewrite (upd_head _ _ _ _ (rep_shape _ _ Hr)) in Hg. unfold next_attempt in *. rewrite E2, Z.add_0_r in *.
    rewrite <- Hs, <- Ha, <- Hk. by apply models_rep in Hg.
  - rewrite <- Hs, <- Ha, <- Hk. by apply models_rep in Hr.
Qed.

Lemma s_add_last cap a l : exists l', s_add cap a l = l' ++ [a] /\ (forall b, s_add cap b l = l' ++ [b]).
Proof.
  unfold s_add. setoid_rewrite length_app. cbn. destruct (Z.ltb_spec (Z.max 1 cap) (Z.of_nat (length l + 1))); [|by exists l].
  destruct l as [|c l]; [cbn in *; lia|]. by exists l.
Qed.

Lemma index_mirror f k a h sid : index f ((k, a) :: h) -> a_storedID a = 0 ->
  index (if sid =? 0 then f else set_byStored (<[sid := a_id a]> (f_byStored f)) f)
    ((k, mkAttempt (a_id a) (a_at a) true sid) :: h).
Proof.
  intros [Hn Hid Hst His Hx] Ha.
  assert (forall x k', (k', x) ∈ (k, a) :: h <-> (k', x) = (k, a) \/ (k', x) ∈ h) as Hc by (intros; apply elem_of_cons).
  assert (forall sid' id, f_byStored f !! sid' = Some id -> sid' <> 0 /\
    exists k' b, (k', b) ∈ (k, mkAttempt (a_id a) (a_at a) true sid) :: h /\ a_id b = id /\ a_storedID b = sid') as Hold.
  { intros sid' id (Hz&k'&b&[[= -> ->]|?]%Hc&?&?)%Hst; [congruence|]. split; [done|]. exists k', b. rewrite elem_of_cons. eauto. }
  destruct (sid =? 0) eqn:E; breflect; constructor; cbn; try done.
  2, 5: intros k' b [[= -> ->]|Hb]%elem_of_cons; cbn; [apply (His k a)|apply (His k' b)]; rewrite Hc; eauto.
  1, 2: intros id k'; rewrite Hid; split; intros (b&Hb&<-); apply elem_of_cons in Hb as [[= -> ->]|Hb];
    eexists; (rewrite elem_of_cons; split; [by eauto|done]).
  intros sid' id [[<- <-]|[? ?]]%lookup_insert_Some; [|by apply Hold]. split; [done|].
  exists k, (mkAttempt (a_id a) (a_at a) true sid). rewrite elem_of_cons. eauto.
Qed.

Lemma index_mirror_last f k a l h sid : index f (map (pair k) (l ++ [a]) ++ h) -> a_storedID a = 0 ->
  index (if sid =? 0 then f else set_byStored (<[sid := a_id a]> (f_byStored f)) f)
    (map (pair k) (l ++ [mkAttempt (a_id a) (a_at a) true sid]) ++ h).
Proof.
  intros Hi Ha.
  assert (forall b, map (pair k) (l ++ [b]) ++ h ≡ₚ (k, b) :: map (pair k) l ++ h) as Hp.
  { intros b. rewrite map_app, <- app_assoc. cbn. by rewrite <- Permutation_middle. }
  eapply index_perm; [symmetry; apply Hp|]. apply index_mirror; [|done]. by eapply index_perm, Hi.
Qed.

Lemma mirror_models f s k now window cap sid : models f s -> (1 <= f_maxKeys f)%nat -> f_nextID f + 1 < 2 ^ 63 ->
  let a := mkAttempt (a_id (next_attempt f now)) now true sid in
  let g := mirror k now window cap sid f in
  same_bounds 1 f g /\
  models g ((k, s_add cap a (s_prune (now - window) (s_get k s))) :: s_rest (f_maxKeys f) k s).
Proof.
  intros Hf Hm Hnx. destruct (touch_prune_rep f s k (now - window) Hf Hm) as (t&T&E&Hk&Ha&Hr&Hs&E1&E2).
  unfold mirror. destruct (touch k f) as [el f1]. cbn [fst snd] in *. subst el.
  pose proof (add_rep (prune (t_el t) (now - window) f1) _ t now cap Hr ltac:(by left) ltac:(lia)) as Hadd.
  destruct (add _ _ _ _) as [a g]. destruct Hadd as (->&Hg&E3&E4).
  rewrite (upd_head _ _ _ _ (rep_shape _ _ Hr)) in Hg. unfold next_attempt in *. rewrite E2, Z.add_0_r in *.
  cbn [a_id a_at a_storedID] in *. set (id := id_of (f_nextID f + 1)) in *.
  destruct (s_add_last cap (mkAttempt id now false 0) (t_atts t)) as (l&El&Eb). rewrite <- Ha, Eb. rewrite El in Hg.
  set (t' := mkSlot (t_el t) (t_key t) (l ++ [mkAttempt id now false 0])) in Hg.
  pose proof (value_slot g _ t' (rep_shape _ _ Hg) ltac:(by left)) as Hv. cbn [t_el t_key t_atts t'] in Hv. rewrite Hv.
  cbn [e_attempts]. rewrite length_app, Nat.add_sub, take_app_length.
  replace (if sid =? 0 then 0 else sid) with sid by (destruct (Z.eqb_spec sid 0); lia).
  set (l1 := l ++ [mkAttempt id now true sid]).
  set (g' := if sid =? 0 then g else set_byStored (<[sid := id]> (f_byStored g)) g).
  assert (rep (set_attempts (t_el t') l1 g') (upd (t_el t') l1 (t' :: T))) as Hfin.
  { apply (rep_set g'); [|by left| |done|].
    - apply (shape_ext g); [..|apply Hg]; unfold g'; by destruct (sid =? 0).
    - unfold g'. destruct (sid =? 0); apply Hg.
    - apply (index_mirror_last g (t_key t) (mkAttempt id now false 0)); [|done].
      apply (index_split g _ t'); [apply Hg|by left|apply Hg]. }
  rewrite (upd_head g) in Hfin by apply Hg. cbn [t' t_el t_key] in Hfin. apply models_rep in Hfin.
  rewrite <- Hs, <- Hk. unfold same_bounds, g' in *. destruct (sid =? 0); cbn in *; (split; [split; [congruence|done]|done]).
Qed.

Lemma s_get_find k s l : s_find k s = Some l -> s_get k s = l.
Proof. unfold s_get. by intros ->. Qed.

Lemma count_models f s k since wm : models f s ->
  let '(n, g) := count k since wm f in
  n = Z.of_nat (length (List.filter (counted wm) (s_prune since (s_get k s)))) /\ same_bounds 0 f g /\
  models g (s_set k (s_prune since (s_get k s)) s).
Proof.
  intros (T&Hr&<-). unfold count. destruct (f_byKey f !! k) as [el|] eqn:E.
  - destruct (byKey_slot f T k el (rep_shape _ _ Hr) E) as (t&Ht&<-&<-&Hg%s_get_find).
    destruct (prune_rep f T t since Hr Ht) as (Hp&E1&E2). rewrite Hg.
    assert (mkSlot (t_el t) (t_key t) (s_prune since (t_atts t)) ∈ upd (t_el t) (s_prune since (t_atts t)) T) as Hin.
    { apply (elem_of_upd f T t); [apply Hr|done|by left]. }
    pose proof (value_slot _ _ _ (rep_shape _ _ Hp) Hin) as Hv. cbn [t_el t_key t_atts] in Hv. rewrite Hv.
    split_and!; [done|split; [done|lia]|]. rewrite <- (abs_upd f) by (done || apply Hr). by apply models_rep.
  - apply (s_find_None f T k (rep_shape _ _ Hr)) in E. unfold s_get. rewrite E. cbn.
    split_and!; [done|split; [done|lia]|]. replace (s_set k [] (abs T)) with (abs T); [by apply models_rep|].
    unfold s_set. rewrite <- (map_id (abs T)) at 1. clear -E. induction (abs T) as [|[k' l] s IH]; [done|]. cbn in *.
    case_bool_decide; [done|]. f_equal. auto.
Qed.

Lemma clear_models f s k : models f s -> same_bounds 0 f (clear k f) /\ models (clear k f) (s_del k s).
Proof.
  intros (T&Hr&<-). unfold clear. destruct (f_byKey f !! k) as [el|] eqn:E.
  - destruct (byKey_slot f T k el (rep_shape _ _ Hr) E) as (t&Ht&<-&<-&_). split.
    + unfold drop_elem, same_bounds. cbn. destruct (forget_all_fields (e_attempts (value (t_el t) f)) f) as (?&?&?&?&?&?).
      split; [done|lia].
    + rewrite <- (abs_others f) by (done || apply Hr). by apply models_rep, rep_drop.
  - split; [split; [done|lia]|]. apply (s_find_None f T k (rep_shape _ _ Hr)) in E.
    replace (s_del k (abs T)) with (abs T); [by apply models_rep|].
    unfold s_del. clear -E. induction (abs T) as [|[k' l] s IH]; [done|]. cbn in *.
    case_bool_decide; [done|]. cbn. f_equal. auto.
Qed.

Definition not_id (id : Z) (a : attempt) : bool := negb (a_id a =? id).
Definition s_release (id : Z) (s : spec) : spec := map (fun x => (x.1, List.filter (not_id id) x.2)) s.

Lemma filter_not_id id l : (forall a, a ∈ l -> a_id a <> id) -> List.filter (not_id id) l = l.
Proof.
  induction l as [|a l IH]; [done|]. intros H. cbn. unfold not_id at 1.
  rewrite (proj2 (Z.eqb_neq _ _)) by (apply H; by left). cbn. f_equal. apply IH. intros. apply H. by right.
Qed.
Lemma take_out_spec id l a : a ∈ l -> a_id a = id -> NoDup (map a_id l) ->
  exists b, take_out id l = Some (b, List.filter (not_id id) l) /\ a_id b = id /\ l ≡ₚ b :: List.filter (not_id id) l.
Proof.
  intros Ha <-. induction l as [|c l IH]; [by apply elem_of_nil in Ha|]. cbn [map]. intros [Hc Hn]%NoDup_cons.
  cbn [take_out List.filter]. change (not_id (a_id a) c) with (negb (a_id c =? a_id a)). destruct (Z.eqb_spec (a_id c) (a_id a)) as [E|E]; cbn.
  - exists c. rewrite filter_not_id; [done|]. intros d Hd Ed. apply Hc. rewrite E, <- Ed. apply elem_of_map. eauto.
  - apply elem_of_cons in Ha as [->|Ha]; [done|]. destruct (IH Ha Hn) as (b&->&?&Hp). exists b. split_and!; try done.
    rewrite Permutation_swap. by f_equiv.
Qed.

Lemma index_slot_ids f T t : shape f T -> index f (held T) -> t ∈ T -> NoDup (map a_id (t_atts t)).
Proof.
  intros Hs Hi Ht. pose proof (ix_ids _ _ (index_split f T t Hs Ht Hi)) as Hn.
  rewrite map_app, map_map in Hn. by apply NoDup_app in Hn as (?&_&_).
Qed.

Lemma release_models f s id : models f s -> same_bounds 0 f (release id f) /\ models (release id f) (s_release id s).
Proof.
  intros (T&Hr&<-). pose proof Hr as [Hs Hi Hm]. unfold release. destruct (f_byID f !! id) as [k|] eqn:E.
  - apply (ix_byID _ _ Hi) in E as (a&(t&Ht&Hk&Ha)%elem_of_held&Hid).
    assert (f_byKey f !! k = Some (t_el t)) as Hb by (apply (sh_byKey _ _ Hs); eauto).
    cbn [f_byKey del_byID]. rewrite Hb. change (value (t_el t) (del_byID id f)) with (value (t_el t) f).
    rewrite (value_slot f T) by done. cbn [e_attempts].
    destruct (take_out_spec id (t_atts t) a Ha Hid (index_slot_ids f T t Hs Hi Ht)) as (b&->&Hbid&Hp).
    split; [split; [done|cbn; lia]|].
    assert (rep (set_attempts (t_el t) (List.filter (not_id id) (t_atts t)) (forget b (del_byID id f)))
              (upd (t_el t) (List.filter (not_id id) (t_atts t)) T)) as Hfin.
    { apply (rep_set (forget b (del_byID id f))); [by apply (shape_ext f)|done|done|done|].
      apply index_ext with (forget b f); [cbn; by rewrite Hbid, delete_delete_eq|done|done|].
      apply index_forget with (t_key t). eapply index_perm; [|by apply index_split].
      by rewrite Hp at 1. }
    apply models_rep in Hfin. replace (s_release id (abs T)) with (abs (upd (t_el t) (List.filter (not_id id) (t_atts t)) T)); [done|].
    unfold abs, s_release, upd. rewrite !map_map. apply map_ext_in. intros u Hu%list_elem_of_In.
    destruct (Nat.eqb_spec (t_el u) (t_el t)) as [Eu|Eu]; [by rewrite (slot_eq f T u t)|]. cbn.
    rewrite filter_not_id; [done|]. intros c Hc Ec. apply Eu.
    assert (f_byID f !! id = Some (t_key u)) as H1 by (apply (ix_byID _ _ Hi); exists c; rewrite elem_of_held; eauto).
    assert (f_byID f !! id = Some (t_key t)) as H2 by (apply (ix_byID _ _ Hi); exists a; rewrite elem_of_held; eauto).
    rewrite (slot_key_eq f T u t); congruence.
  - split; [split; [done|lia]|]. replace (s_release id (abs T)) with (abs T); [by apply models_rep|].
    unfold abs, s_release. rewrite map_map. apply map_ext_in. intros u Hu%list_elem_of_In. cbn.
    rewrite filter_not_id; [done|]. intros c Hc Ec.
    rewrite (proj2 (ix_byID _ _ Hi id (t_key u))) in E; [done|]. exists c. rewrite elem_of_held. eauto.
Qed.

(** Releasing the mirror of a stored row releases at most one attempt, and one mirrored for that row. *)
Lemma releaseMirror_models f s sid : models f s ->
  same_bounds 0 f (releaseMirror sid f) /\
  (releaseMirror sid f = f \/
   exists k l a, s_find k s = Some l /\ a ∈ l /\ a_storedID a = sid /\ sid <> 0 /\
     models (releaseMirror sid f) (s_release (a_id a) s)).
Proof.
  intros Hf. unfold releaseMirror. destruct (f_byStored f !! sid) as [id|] eqn:E; [|split; [split; [done|lia]|by left]].
  destruct (release_models f s id Hf) as [? Hg]. split; [done|]. right. destruct Hf as (T&[Hs Hi _]&<-).
  apply (ix_byStored _ _ Hi) in E as (Hz&k&a&(t&Ht&Hk&Ha)%elem_of_held&<-&Hsid).
  exists k, (t_atts t), a. split_and!; try done. apply (s_find_Some f); eauto.
Qed.

(** An id is held once. *)
Lemma models_unique f s k l a k' l' a' : models f s -> s_find k s = Some l -> a ∈ l -> s_find k' s = Some l' -> a' ∈ l' ->
  a_id a = a_id a' -> k = k' /\ a = a'.
Proof.
  intros (T&[Hs Hi _]&<-) Hl Ha Hl' Ha' E.
  apply (s_find_Some f) in Hl as (t&?&?&?), Hl' as (t'&?&?&?); [|done..]. subst.
  assert ((t_key t, a) ∈ held T) as Hx by (apply elem_of_held; eauto).
  assert ((t_key t', a') ∈ held T) as Hy by (apply elem_of_held; eauto).
  pose proof (ix_ids _ _ Hi) as Hn. apply list_elem_of_lookup_1 in Hx as (j1&E1), Hy as (j2&E2).
  assert (j1 = j2) as <-.
  { eapply NoDup_lookup; [exact Hn|..]; rewrite lookup_map; [by rewrite E1|by rewrite E2; cbn; rewrite E]. }
  by simplify_eq.
Qed.
