(* ===== verification/AuthLimiterTrack.v ===== *)
(** Two consequences of the limiter's specification (AuthLimiter.v).

    Whatever is done to a limiter, its memory stays bounded: at most its number
    of keys, per key at most the cap, and indexes no larger than that.  And
    what it counts is not lost: an attempt of a key that was not released is
    still held, unless it is older than the window, more attempts than the cap
    followed it, or enough other keys pushed its key out ([tracked]). *)
From Stdlib Require Import ZArith Lia.
From stdpp Require Import base numbers tactics sets list gmap.
From S2P Require Import Prelude AuthLimiter.

(** * Memory *)

(** The calls a budget makes on its limiter; a budget has one cap per key. *)
Inductive lim_op :=
| LReserve (key : bytes) (now window : Z)
| LMirror (key : bytes) (now window storedID : Z)
| LTryReserve (key : bytes) (now window limit : Z)
| LCount (key : bytes) (since : Z) (withMirrored : bool)
| LRelease (id : Z)
| LReleaseMirror (storedID : Z)
| LClear (key : bytes).

Definition lim_exec (cap : Z) (f : limiter) (o : lim_op) : limiter :=
  match o with
  | LReserve k now w => snd (reserve k now w cap f)
  | LMirror k now w sid => mirror k now w cap sid f
  | LTryReserve k now w limit => snd (tryReserve k now w cap limit f)
  | LCount k since wm => snd (count k since wm f)
  | LRelease id => release id f
  | LReleaseMirror sid => releaseMirror sid f
  | LClear k => clear k f
  end.

(** Every key's list fits the cap. *)
Definition capped (cap : Z) (s : spec) : Prop := Forall (fun x => Z.of_nat (length x.2) <= Z.max 1 cap) s.

Lemma capped_rest cap n k s : capped cap s -> capped cap (s_rest n k s).
Proof.
  unfold capped, s_rest, s_del. intros H. destruct (s_find k s); [|by apply Forall_take].
  apply Forall_forall. intros x [Hx _]%elem_of_filter_bool. by eapply Forall_forall in H.
Qed.
Lemma capped_get cap k s : capped cap s -> Z.of_nat (length (s_get k s)) <= Z.max 1 cap.
Proof.
  unfold s_get. intros H. induction s as [|[k' l] s IH]; cbn; [lia|]. apply Forall_cons in H as [? ?].
  case_bool_decide; [done|]. auto.
Qed.
Lemma s_prune_length since l : (length (s_prune since l) <= length l)%nat.
Proof. apply List.filter_length_le. Qed.
Lemma s_add_length cap a l : Z.of_nat (length l) <= Z.max 1 cap -> Z.of_nat (length (s_add cap a l)) <= Z.max 1 cap.
Proof.
  intros H. unfold s_add. destruct (_ <? _) eqn:E; breflect; [|done]. destruct l; cbn in *; rewrite ?length_app in *; cbn in *; lia.
Qed.
Lemma capped_set cap k l s : Z.of_nat (length l) <= Z.max 1 cap -> capped cap s -> capped cap (s_set k l s).
Proof.
  unfold capped, s_set. rewrite !Forall_forall. intros Hl H x (y&->&Hy)%elem_of_map. case_bool_decide; [done|auto].
Qed.
Lemma capped_release cap id s : capped cap s -> capped cap (s_release id s).
Proof.
  unfold capped, s_release. rewrite !Forall_forall. intros H x (y&->&Hy)%elem_of_map. cbn.
  pose proof (List.filter_length_le (not_id id) y.2). specialize (H _ Hy). lia.
Qed.

(** One call: what is held stays capped, and at most one id is used. *)
Lemma lim_exec_models cap f s o : models f s -> capped cap s -> (1 <= f_maxKeys f)%nat -> f_nextID f + 1 < 2 ^ 63 ->
  exists s', models (lim_exec cap f o) s' /\ capped cap s' /\ f_maxKeys (lim_exec cap f o) = f_maxKeys f /\
    f_nextID (lim_exec cap f o) <= f_nextID f + 1.
Proof.
  intros Hf Hc Hm Hn.
  assert (forall k since, Z.of_nat (length (s_prune since (s_get k s))) <= Z.max 1 cap) as Hp.
  { intros k since. pose proof (s_prune_length since (s_get k s)). pose proof (capped_get cap k s Hc). lia. }
  assert (forall k l, Z.of_nat (length l) <= Z.max 1 cap -> capped cap ((k, l) :: s_rest (f_maxKeys f) k s)) as Hcons.
  { intros k l Hl. apply Forall_cons. split; [done|]. by apply capped_rest. }
  destruct o; cbn.
  - pose proof (reserve_models f s key now window cap Hf Hm Hn) as H. destruct (reserve _ _ _ _ _).
    destruct H as (_&[? ?]&?). eexists. cbn. split_and!; [done| |done|lia]. by apply Hcons, s_add_length.
  - destruct (mirror_models f s key now window cap storedID Hf Hm Hn) as ([? ?]&?).
    eexists. split_and!; [done| |done|lia]. by apply Hcons, s_add_length.
  - pose proof (tryReserve_models f s key now window cap limit Hf Hm Hn) as H. destruct (tryReserve _ _ _ _ _ _) as [b g].
    destruct H as (_&[? ?]&?). eexists. cbn. split_and!; [done| |done|destruct b; lia]. apply Hcons. destruct b; [|done]. by apply s_add_length.
  - pose proof (count_models f s key since withMirrored Hf) as H. destruct (count _ _ _ _).
    destruct H as (_&[? ?]&?). eexists. cbn. split_and!; [done| |done|lia]. by apply capped_set.
  - destruct (release_models f s id Hf) as ([? ?]&?). eexists. split_and!; [done| |done|lia]. by apply capped_release.
  - destruct (releaseMirror_models f s storedID Hf) as ([? ?]&[->|(k&l&a&_&_&_&_&?)]).
    + by exists s; split_and!; try done; lia.
    + eexists. split_and!; [done| |done|lia]. by apply capped_release.
  - destruct (clear_models f s key Hf) as ([? ?]&?). eexists. split_and!; [done| |done|lia].
    unfold capped, s_del. apply Forall_forall. intros x [Hx _]%elem_of_filter_bool. by eapply Forall_forall in Hc.
Qed.

Lemma lim_run_models cap n ops : (1 <= n)%nat -> Z.of_nat (length ops) < 2 ^ 63 - 1 ->
  exists s, models (fold_left (lim_exec cap) ops (newAuthFallbackLimiter n)) s /\ capped cap s /\
    f_maxKeys (fold_left (lim_exec cap) ops (newAuthFallbackLimiter n)) = n /\
    f_nextID (fold_left (lim_exec cap) ops (newAuthFallbackLimiter n)) <= Z.of_nat (length ops).
Proof.
  intros Hn. induction ops as [|o ops IH] using rev_ind; intros Hl.
  - exists []. split_and!; [apply models_new|constructor|done|done].
  - rewrite length_app in Hl. cbn in Hl. destruct IH as (s&Hs&Hc&Hk&Hx); [lia|].
    rewrite fold_left_app. cbn. set (f := fold_left (lim_exec cap) ops (newAuthFallbackLimiter n)) in *.
    destruct (lim_exec_models cap f s o Hs Hc) as (s'&?&?&?&?); [lia|lia|].
    exists s'. split_and!; [done|done|congruence|rewrite length_app; cbn; lia].
Qed.

Lemma held_length cap T : capped cap (abs T) -> Z.of_nat (length (held T)) <= Z.of_nat (length T) * Z.max 1 cap.
Proof.
  unfold held. induction T as [|t T IH]; cbn -[Z.mul]; [lia|]. intros [Ht HT]%Forall_cons. cbn in Ht.
  rewrite length_app, length_map. specialize (IH HT). lia.
Qed.

(** The size of a map whose keys are all among the images of a list. *)
Lemma map_size_le {A B C} `{Countable A} (m : gmap A B) (g : C -> A) (l : list C) :
  (forall k v, m !! k = Some v -> exists x, x ∈ l /\ g x = k) -> (size m <= length l)%nat.
Proof.
  intros Hm. rewrite <- size_dom. etrans; [apply (subseteq_size (dom m) (list_to_set (map g l)))|].
  - intros k [v Hv]%elem_of_dom. apply elem_of_list_to_set, elem_of_map. destruct (Hm _ _ Hv) as (x&?&<-). eauto.
  - rewrite <- (length_map g l). generalize (map g l). clear. induction l as [|x l IH]; cbn; [by rewrite size_empty|].
    pose proof (size_union_alt {[x]} (list_to_set l : gset A)) as ->. rewrite size_singleton.
    assert (size ((list_to_set l : gset A) ∖ {[x]}) <= size (list_to_set l : gset A))%nat by (apply subseteq_size; set_solver). lia.
Qed.

Lemma models_bounded cap f s : models f s -> capped cap s ->
  (limiter_size f <= f_maxKeys f)%nat /\ (size (f_byKey f) <= f_maxKeys f)%nat /\
  Z.of_nat (size (f_byID f)) <= Z.of_nat (f_maxKeys f) * Z.max 1 cap /\
  Z.of_nat (size (f_byStored f)) <= Z.of_nat (f_maxKeys f) * Z.max 1 cap /\
  Forall (fun el => Z.of_nat (length (e_attempts (value el f))) <= Z.max 1 cap) (f_lru f).
Proof.
  intros (T&[Hs Hi Hl]&<-) Hc. pose proof (held_length cap T Hc) as Hh.
  unfold limiter_size. rewrite (sh_lru _ _ Hs), length_map. split_and!; [done|..].
  - etrans; [|exact Hl]. apply (map_size_le _ t_key). intros k el (t&?&?&_)%(sh_byKey _ _ Hs). eauto.
  - etrans; [|etrans; [exact Hh|]]; [|nia]. apply Nat2Z.inj_le, (map_size_le _ (fun x => a_id x.2)).
    intros id k (a&?&?)%(ix_byID _ _ Hi). by exists (k, a).
  - etrans; [|etrans; [exact Hh|]]; [|nia]. apply Nat2Z.inj_le, (map_size_le _ (fun x => a_storedID x.2)).
    intros sid id (_&k&a&?&_&?)%(ix_byStored _ _ Hi). by exists (k, a).
  - apply Forall_forall. intros el (t&->&Ht)%elem_of_map. rewrite (value_slot f T) by done. cbn.
    eapply Forall_forall in Hc; [|apply elem_of_map; by exists t]. done.
Qed.

(** C36. The fallback limiter's memory is bounded whatever is asked of it: after any
    sequence of calls it tracks at most its number of keys, each with at most the
    cap of attempts, and its three indexes are no larger than that allows. *)
Theorem limiter_memory_bounded (cap : Z) (n : nat) (ops : list lim_op) :
  (1 <= n)%nat -> Z.of_nat (length ops) < 2 ^ 63 - 1 ->
  let f := fold_left (lim_exec cap) ops (newAuthFallbackLimiter n) in
  (limiter_size f <= n)%nat /\ (size (f_byKey f) <= n)%nat /\
  Z.of_nat (size (f_byID f)) <= Z.of_nat n * Z.max 1 cap /\
  Z.of_nat (size (f_byStored f)) <= Z.of_nat n * Z.max 1 cap /\
  Forall (fun el => Z.of_nat (length (e_attempts (value el f))) <= Z.max 1 cap) (f_lru f).
Proof.
  intros Hn Hl. destruct (lim_run_models cap n ops Hn Hl) as (s&Hs&Hc&Hk&_).
  pose proof (models_bounded cap _ s Hs Hc) as Hb. by rewrite Hk in Hb.
Qed.

(** Two keys fit; a third pushes out the first, and the fourth attempt of the
    second drops its oldest.  What is left is not empty. *)
Definition ex_calls : list lim_op :=
  [LReserve (go "a") 0 100; LMirror (go "b") 1 100 7; LTryReserve (go "b") 2 100 9; LReserve (go "b") 3 100;
   LReserve (go "b") 4 100; LCount (go "b") 0 true; LTryReserve (go "c") 5 100 9].
Definition ex_limiter : limiter := fold_left (lim_exec 3) ex_calls (newAuthFallbackLimiter 2).

Lemma limiter_memory_bounded_witness :
  (limiter_size ex_limiter <= 2)%nat /\ Z.of_nat (size (f_byID ex_limiter)) <= 2 * 3 /\
  map (fun el => (e_key (value el ex_limiter), length (e_attempts (value el ex_limiter)))) (f_lru ex_limiter) = [(go "c", 1%nat); (go "b", 3%nat)].
Proof.
  destruct (limiter_memory_bounded 3 2 ex_calls) as (H1&_&H3&_); [lia|by vm_compute|].
  split; [exact H1|]. split; [exact H3|]. vm_compute. reflexivity.
Defined.

(** * What is counted is not lost *)

(** [A]: the attempts ever added for [k], oldest first.  [L]: the ids of those not
    taken back.  [O]: the other keys used since [k] was.  [t]: the latest time used. *)
Record tracked (cap W t : Z) (k : bytes) (f : limiter) (s : spec) (A : list attempt) (L : gset Z) (O : gset bytes) : Prop := {
  tk_models : models f s;
  tk_mono : forall i j a b, A !! i = Some a -> A !! j = Some b -> (i <= j)%nat -> a_at a <= a_at b;
  tk_le : forall a, a ∈ A -> a_at a <= t;
  tk_ids : NoDup (map a_id A);
  tk_issued : forall a, a ∈ A -> issued f (a_id a);
  tk_sub : sublist (s_get k s) A;
  tk_live : forall j a, A !! j = Some a -> a_id a ∈ L ->
    a ∈ s_get k s \/ a_at a < t - W \/ cap <= Z.of_nat (length A) - Z.of_nat j - 1;
  tk_order : forall i l, s !! i = Some (k, l) -> forall k', k' ∈ take i (map fst s) -> k' ∈ O }.

Lemma models_keys f s : models f s -> NoDup (map fst s).
Proof. intros (T&Hr&<-). rewrite abs_keys. apply Hr. Qed.

Lemma s_find_lookup k s l : NoDup (map fst s) -> s_find k s = Some l <-> exists i, s !! i = Some (k, l).
Proof.
  induction s as [|[k' l'] s IH]; cbn; [by split; [|intros (i&?)]|]. intros [Hk Hn]%NoDup_cons. case_bool_decide as E; [subst k'|].
  - split; [intros [= <-]; by exists 0%nat|]. intros ([|i]&Hi); cbn in Hi; simplify_eq; [done|].
    exfalso. apply Hk, elem_of_map. exists (k, l). split; [done|]. by eapply list_elem_of_lookup_2.
  - rewrite IH by done. split; intros (i&Hi); [by exists (S i)|]. destruct i as [|i]; cbn in Hi; simplify_eq. eauto.
Qed.
Lemma s_find_None_keys k s : s_find k s = None <-> k ∉ map fst s.
Proof.
  induction s as [|[k' l] s IH]; cbn; [by set_solver|]. rewrite not_elem_of_cons, <- IH. case_bool_decide; naive_solver.
Qed.

Lemma s_get_cons k k' l s : s_get k ((k', l) :: s) = if bool_decide (k' = k) then l else s_get k s.
Proof. unfold s_get. cbn. by case_bool_decide. Qed.
Lemma s_get_del k k' s : k <> k' -> s_get k (s_del k' s) = s_get k s.
Proof.
  intros. unfold s_get. f_equal. unfold s_del. induction s as [|[x l] s IH]; cbn; [done|].
  case_bool_decide; subst; cbn; [by rewrite bool_decide_false|]. by rewrite IH.
Qed.
Lemma s_get_set k k' l s : k <> k' -> s_get k (s_set k' l s) = s_get k s.
Proof.
  intros. unfold s_get. f_equal. unfold s_set. induction s as [|[x l'] s IH]; cbn; [done|].
  repeat (case_bool_decide; subst; cbn; simplify_eq); done.
Qed.
Lemma s_get_set_eq k l s : s_get k (s_set k l s) = match s_find k s with Some _ => l | None => [] end.
Proof.
  unfold s_get, s_set. induction s as [|[x l'] s IH]; cbn; [done|].
  repeat (case_bool_decide; subst; cbn; simplify_eq); done.
Qed.
Lemma s_get_release id k s : s_get k (s_release id s) = List.filter (not_id id) (s_get k s).
Proof. unfold s_get, s_release. induction s as [|[x l'] s IH]; cbn; [done|]. by case_bool_decide. Qed.
Lemma s_set_keys k l s : map fst (s_set k l s) = map fst s.
Proof. unfold s_set. rewrite map_map. apply map_ext. intros [x y]. cbn. by case_bool_decide. Qed.
Lemma s_release_keys id s : map fst (s_release id s) = map fst s.
Proof. unfold s_release. by rewrite map_map. Qed.

(** Deleting another key keeps the order of the rest. *)
Lemma s_del_order (k k' : bytes) s i l : k <> k' -> s_del k' s !! i = Some (k, l) ->
  exists j, s !! j = Some (k, l) /\ forall x, x ∈ take i (map fst (s_del k' s)) -> x ∈ take j (map fst s).
Proof.
  intros Hne. revert i. unfold s_del. induction s as [|[x lx] s IH]; intros i; cbn; [done|].
  case_bool_decide as E; cbn.
  - intros (j&Hj&Hx)%IH. exists (S j). cbn. split; [done|]. intros y Hy. apply elem_of_cons. right. auto.
  - destruct i as [|i]; cbn; [intros [= -> ->]; exists 0%nat; by split; [|intros ? ?%elem_of_nil]|].
    intros (j&Hj&Hx)%IH. exists (S j). cbn. split; [done|]. intros y. rewrite !elem_of_cons. intros [->|?]; eauto.
Qed.

Lemma sublist_cons_after {A} (x : A) l m j : sublist (x :: l) m -> NoDup m -> m !! j = Some x ->
  (length l + j + 1 <= length m)%nat.
Proof.
  intros (m1&m2&->&Hs)%sublist_cons_l Hn Hj.
  assert (j = length m1) as ->.
  { eapply NoDup_lookup; [done|done|]. by rewrite list_lookup_middle. }
  apply sublist_length in Hs. rewrite length_app. cbn. lia.
Qed.
Lemma sublist_filter_bool {A} (p : A -> bool) l m : sublist l m -> sublist (List.filter p l) m.
Proof.
  intros H. etrans; [|exact H]. clear. induction l as [|x l IH]; cbn; [done|]. destruct (p x); by constructor.
Qed.
Lemma NoDup_map_inv' {A B} (g : A -> B) l : NoDup (map g l) -> NoDup l.
Proof. apply (NoDup_fmap_1 g). Qed.

Section Tracked.
Context {cap W t : Z} {k : bytes} {f : limiter} {s : spec} {A : list attempt} {L : gset Z} {O : gset bytes}.
Context (Htk : tracked cap W t k f s A L O).

Lemma tracked_time t' : t <= t' -> tracked cap W t' k f s A L O.
Proof.
  intros Ht. destruct Htk as [H1 H2 H3 H4 H5 H6 H7 H8]. constructor; try done.
  - intros a Ha. specialize (H3 a Ha). lia.
  - intros j a Hj Ha. destruct (H7 j a Hj Ha) as [?|[?|?]]; [by left|right; left; lia|by right; right].
Qed.

Lemma tracked_fresh a : f_nextID f + 1 < 2 ^ 63 -> a_id a = id_of (f_nextID f + 1) -> a_id a ∉ map a_id A.
Proof.
  intros Hn Ha (b&E&(n&?&E')%(tk_issued _ _ _ _ _ _ _ _ _ Htk))%elem_of_map.
  rewrite E', Ha in E. apply id_of_inj in E; lia.
Qed.

Lemma tracked_add g a rest : 0 <= f_nextID f -> f_nextID f + 1 < 2 ^ 63 -> 1 <= cap -> t <= a_at a -> a_id a = id_of (f_nextID f + 1) ->
  f_nextID g = f_nextID f + 1 ->
  models g ((k, s_add cap a (s_prune (a_at a - W) (s_get k s))) :: rest) ->
  tracked cap W (a_at a) k g ((k, s_add cap a (s_prune (a_at a - W) (s_get k s))) :: rest) (A ++ [a]) (L ∪ {[a_id a]}) ∅.
Proof.
  intros H0 Hnx Hcap Ht Hid Hg Hm. destruct Htk as [H1 H2 H3 H4 H5 H6 H7 H8].
  pose proof (tracked_fresh a Hnx Hid) as Hfresh.
  assert (sublist (s_prune (a_at a - W) (s_get k s) ++ [a]) (A ++ [a])) as Hsub.
  { apply sublist_app; [|done]. by apply sublist_filter_bool. }
  assert (NoDup (map a_id (A ++ [a]))) as Hnd.
  { rewrite map_app. apply NoDup_app. split_and!; [done| |apply NoDup_singleton]. intros x Hx E%list_elem_of_singleton. by subst. }
  assert (forall b, b ∈ A ++ [a] -> b ∈ A \/ b = a) as Hin by (intros b; rewrite elem_of_app, list_elem_of_singleton; done).
  constructor.
  - done.
  - intros i j b c Hi Hj Hij. apply lookup_app_Some in Hj as [Hj|[? Hj]].
    + rewrite lookup_app_l in Hi by (apply lookup_lt_Some in Hj; lia). eauto.
    + apply list_lookup_singleton_Some in Hj as [? <-]. apply list_elem_of_lookup_2, Hin in Hi as [Hi%H3|E]; subst; lia.
  - intros b [Hb%H3|E]%Hin; subst; lia.
  - done.
  - intros b [Hb%H5|E]%Hin; [destruct Hb as (n&?&?); exists n; split; [lia|done]|]. subst b. exists (f_nextID f + 1). split; [lia|done].
  - rewrite s_get_cons, bool_decide_true by done. unfold s_add. destruct (_ <? _); [|done].
    etrans; [|exact Hsub]. destruct (_ ++ [a]) as [|x l]; [done|]. cbn. by constructor.
  - intros j b Hj HL. rewrite s_get_cons, bool_decide_true by done.
    assert (b ∈ s_prune (a_at a - W) (s_get k s) ++ [a] \/ a_at b < a_at a - W \/
            cap <= Z.of_nat (length (A ++ [a])) - Z.of_nat j - 1) as [Hb|Hb]; [|unfold s_add|by right].
    { rewrite elem_of_app, list_elem_of_singleton, length_app. cbn. apply lookup_app_Some in Hj as [Hj|[? Hj]].
      - assert (a_id b ∈ L) as HL'.
        { apply elem_of_union in HL as [?|E%elem_of_singleton]; [done|]. exfalso. apply Hfresh. rewrite <- E.
          apply elem_of_map. exists b. split; [done|]. by eapply list_elem_of_lookup_2. }
        destruct (H7 j b Hj HL') as [Hg'|[?|?]]; [|right; left; lia|right; right; lia].
        destruct (before (a_at a - W) b) eqn:E; [unfold before in E; breflect; right; left; lia|].
        left. left. unfold s_prune. rewrite elem_of_filter_bool, E. done.
      - apply list_lookup_singleton_Some in Hj as [? <-]. left. by right. }
    destruct (_ <? _) eqn:E; [|by left]. breflect. destruct (_ ++ [a]) as [|x l] eqn:El; [by left|]. cbn.
    apply elem_of_cons in Hb as [->|Hb]; [|by left]. right. right.
    pose proof (sublist_cons_after x l _ j Hsub (NoDup_map_inv' _ _ Hnd) Hj). cbn [length] in E. lia.
  - intros [|i] l; cbn; [intros _ ? ?%elem_of_nil; done|]. intros Hi. exfalso.
    apply models_keys in Hm. cbn in Hm. apply NoDup_cons in Hm as [Hk _]. apply Hk, elem_of_map.
    exists (k, l). split; [done|]. by eapply list_elem_of_lookup_2.
Qed.

(** A key's position is bounded by the keys used since it was. *)
Lemma tracked_position i l : s !! i = Some (k, l) -> (i <= size O)%nat.
Proof.
  intros Hi. pose proof (tk_order _ _ _ _ _ _ _ _ _ Htk i l Hi) as Ho.
  pose proof (models_keys _ _ (tk_models _ _ _ _ _ _ _ _ _ Htk)) as Hn.
  assert (i = length (take i (map fst s))) as ->.
  { rewrite length_take, length_map. apply lookup_lt_Some in Hi. lia. }
  rewrite <- (size_list_to_set (C := gset bytes)) by (by eapply sublist_NoDup, sublist_take).
  apply subseteq_size. intros x ?%elem_of_list_to_set. auto.
Qed.

(** Another key is used: fewer keys than the limiter holds were used since [k], so [k] stays. *)
Lemma tracked_other g k' l' t' : k' <> k -> t <= t' -> (size (O ∪ {[k']}) < f_maxKeys f)%nat ->
  f_nextID f <= f_nextID g -> models g ((k', l') :: s_rest (f_maxKeys f) k' s) ->
  tracked cap W t' k g ((k', l') :: s_rest (f_maxKeys f) k' s) A L (O ∪ {[k']}).
Proof.
  intros Hne Ht Hsz Hg Hm. pose proof (models_keys _ _ (tk_models _ _ _ _ _ _ _ _ _ Htk)) as Hn.
  assert (forall i l, s_find k' s = None -> s !! i = Some (k, l) -> (i < f_maxKeys f - 1)%nat) as Hpos.
  { intros i l Hk' Hi. apply s_find_None_keys in Hk'.
    assert (NoDup (k' :: take i (map fst s))) as Hnd.
    { constructor; [|by eapply sublist_NoDup, sublist_take]. intros (j&?&_)%elem_of_take. apply Hk'. by eapply list_elem_of_lookup_2. }
    assert (size (list_to_set (k' :: take i (map fst s)) : gset bytes) <= size (O ∪ {[k']}))%nat as Hle.
    { apply subseteq_size. intros x [->|Hx]%elem_of_list_to_set%elem_of_cons; [set_solver|].
      apply elem_of_union_l, (tk_order _ _ _ _ _ _ _ _ _ Htk i l Hi x Hx). }
    rewrite size_list_to_set in Hle by done. cbn in Hle. rewrite length_take, length_map in Hle.
    apply lookup_lt_Some in Hi. lia. }
  assert (s_get k (s_rest (f_maxKeys f) k' s) = s_get k s) as Hget.
  { unfold s_rest. destruct (s_find k' s) eqn:E; [by apply s_get_del|]. unfold s_get.
    destruct (s_find k s) as [l|] eqn:E'.
    - pose proof (proj1 (s_find_lookup k s l Hn) E') as (i&Hi). specialize (Hpos i l eq_refl Hi).
      rewrite (proj2 (s_find_lookup k (take (f_maxKeys f - 1) s) l ltac:(rewrite <- firstn_map; by eapply sublist_NoDup, sublist_take))); [done|].
      exists i. by rewrite lookup_take_lt.
    - rewrite (proj2 (s_find_None_keys k (take (f_maxKeys f - 1) s))); [done|]. apply s_find_None_keys in E'.
      rewrite <- firstn_map. intros (j&?&_)%elem_of_take. apply E'. by eapply list_elem_of_lookup_2. }
  destruct Htk as [H1 H2 H3 H4 H5 H6 H7 H8]. constructor; try done; rewrite ?s_get_cons, ?(bool_decide_false (k' = k)), ?Hget by done.
  - intros a Ha%H3. lia.
  - intros a (n&?&?)%H5. exists n. split; [lia|done].
  - done.
  - intros j a Hj Ha.
    destruct (H7 j a Hj Ha) as [?|[?|?]]; [by left|right; left; lia|by right; right].
  - intros [|i] l; cbn; [intros [= ? ?]; done|]. intros Hi x [->|Hx]%elem_of_cons; [set_solver|]. apply elem_of_union_l.
    unfold s_rest in Hi, Hx. destruct (s_find k' s) eqn:E.
    + apply s_del_order in Hi as (j&Hj&Hsub); [|done]. eapply H8; eauto.
    + apply lookup_take_Some in Hi as [Hi ?]. eapply (H8 i l Hi). rewrite <- firstn_map, take_take in Hx.
      by rewrite Nat.min_l in Hx by lia.
Qed.

(** The window is read, for this key or another. *)
Lemma tracked_count g k' t' : t <= t' -> f_nextID f <= f_nextID g ->
  models g (s_set k' (s_prune (t' - W) (s_get k' s)) s) ->
  tracked cap W t' k g (s_set k' (s_prune (t' - W) (s_get k' s)) s) A L O.
Proof.
  intros Ht Hg Hm. destruct Htk as [H1 H2 H3 H4 H5 H6 H7 H8].
  assert (s_get k (s_set k' (s_prune (t' - W) (s_get k' s)) s) = s_get k s \/
          s_get k (s_set k' (s_prune (t' - W) (s_get k' s)) s) = s_prune (t' - W) (s_get k s)) as Hget.
  { destruct (decide (k = k')) as [<-|]; [|left; by apply s_get_set]. right. rewrite s_get_set_eq.
    unfold s_get. by destruct (s_find k s). }
  constructor; try done.
  - intros a Ha%H3. lia.
  - intros a (n&?&?)%H5. exists n. split; [lia|done].
  - destruct Hget as [->| ->]; [done|]. by apply sublist_filter_bool.
  - intros j a Hj Ha. destruct (H7 j a Hj Ha) as [Hin|[?|?]]; [|right; left; lia|by right; right].
    destruct (before (t' - W) a) eqn:E; [unfold before in E; breflect; right; left; lia|]. left.
    destruct Hget as [->| ->]; [done|]. unfold s_prune. by rewrite elem_of_filter_bool, E.
  - intros i l Hi. rewrite s_set_keys. unfold s_set in Hi. rewrite lookup_map in Hi.
    destruct (s !! i) as [[x lx]|] eqn:E; [|done]. cbn in Hi. intros y Hy.
    assert (x = k) as -> by (case_bool_decide; simplify_eq/=; done). eapply H8; eauto.
Qed.

(** An attempt is taken back. *)
Lemma tracked_release g id L' : f_nextID f <= f_nextID g -> models g (s_release id s) -> L' ⊆ L ->
  (forall a, a ∈ s_get k s -> a_id a ∈ L' -> a_id a <> id) ->
  tracked cap W t k g (s_release id s) A L' O.
Proof.
  intros Hg Hm HL Hid. destruct Htk as [H1 H2 H3 H4 H5 H6 H7 H8]. constructor; try done.
  - intros a (n&?&?)%H5. exists n. split; [lia|done].
  - rewrite s_get_release. by apply sublist_filter_bool.
  - intros j a Hj Ha. rewrite s_get_release, elem_of_filter_bool. destruct (H7 j a Hj (HL _ Ha)) as [Hin|?]; [|by right].
    left. split; [done|]. unfold not_id. rewrite Bool.negb_true_iff, Z.eqb_neq. by apply Hid.
  - intros i l Hi. rewrite s_release_keys. unfold s_release in Hi. rewrite lookup_map in Hi.
    destruct (s !! i) as [[x lx]|] eqn:E; [|done]. cbn in Hi. simplify_eq. intros. eapply H8; eauto.
Qed.

(** A key is cleared: this one, and nothing of it is left to count, or another. *)
Lemma tracked_clear g k' : f_nextID f <= f_nextID g -> models g (s_del k' s) ->
  tracked cap W t k g (s_del k' s) A (if bool_decide (k' = k) then ∅ else L) O.
Proof.
  intros Hg Hm. pose proof (models_keys _ _ Hm) as Hnd. destruct Htk as [H1 H2 H3 H4 H5 H6 H7 H8].
  assert (k' = k -> s_get k (s_del k' s) = []) as Hk.
  { intros ->. unfold s_get. rewrite (proj2 (s_find_None_keys k (s_del k s))); [done|].
    intros (x&->&[_ Hx]%elem_of_filter_bool)%elem_of_map. by rewrite bool_decide_true in Hx. }
  constructor; try done.
  - intros a (n&?&?)%H5. exists n. split; [lia|done].
  - destruct (decide (k' = k)) as [E|]; [rewrite Hk by done; apply sublist_nil_l|]. by rewrite s_get_del.
  - case_bool_decide; [set_solver|]. intros j a Hj Ha. rewrite s_get_del by done. eauto.
  - intros i l Hi. destruct (decide (k' = k)) as [->|].
    + exfalso. apply list_elem_of_lookup_2, elem_of_filter_bool in Hi as [_ Hx]. cbn in Hx. by rewrite bool_decide_true in Hx.
    + apply s_del_order in Hi as (j&Hj&Hsub); [|done]. intros x Hx. eapply H8; eauto.
Qed.

(** While no more than the cap went in within the window, the limiter counts every
    attempt inside it that was not taken back. *)
Lemma tracked_counts now wm : t <= now -> Z.of_nat (length (List.filter (fun a => now - W <=? a_at a) A)) <= cap ->
  Z.of_nat (length (List.filter (fun a => bool_decide (a_id a ∈ L) && counted wm a && (now - W <? a_at a)) A)) <=
  Z.of_nat (length (List.filter (counted wm) (s_prune (now - W) (s_get k s)))).
Proof.
  intros Ht Hcap. apply Nat2Z.inj_le, submseteq_length, NoDup_submseteq.
  { apply (NoDup_map_inv' a_id), NoDup_map_filter, Htk. }
  intros a [Ha Hp]%elem_of_filter_bool. breflect. rewrite elem_of_filter_bool. split; [|done]. unfold s_prune, before.
  rewrite elem_of_filter_bool, Bool.negb_true_iff, Z.ltb_ge. split; [|lia].
  apply list_elem_of_lookup_1 in Ha as (j&Hj). destruct (tk_live _ _ _ _ _ _ _ _ _ Htk j a Hj ltac:(done)) as [?|[?|Hc]]; [done|lia|].
  exfalso. assert (List.filter (fun a => now - W <=? a_at a) (drop j A) = drop j A) as Hall.
  { apply List.forallb_filter_id, forallb_Forall, Forall_lookup_2. intros i b Hi. rewrite lookup_drop in Hi. apply Z.leb_le.
    pose proof (tk_mono _ _ _ _ _ _ _ _ _ Htk _ _ a b Hj Hi ltac:(lia)). lia. }
  rewrite <- (take_drop j A), List.filter_app, Hall, length_app, length_drop in Hcap. lia.
Qed.

(** When nothing of the last attempts [A2] was taken back, the limiter counts all of
    them inside the window, up to the cap. *)
Lemma tracked_counts_live A1 A2 now : A = A1 ++ A2 -> 0 <= cap -> t <= now -> (forall a, a ∈ A2 -> a_id a ∈ L) ->
  Z.min cap (Z.of_nat (length (List.filter (fun a => now - W <? a_at a) A2))) <=
  Z.of_nat (length (s_prune (now - W) (s_get k s))).
Proof.
  intros HA Hcap Ht HL. set (p := fun a => now - W <? a_at a).
  assert (List.filter p A2 = drop (length A2 - length (List.filter p A2)) A2) as Hsuf.
  { assert (forall i j a b, A2 !! i = Some a -> A2 !! j = Some b -> (i <= j)%nat -> a_at a <= a_at b) as Hmono.
    { intros i j a b Hi Hj Hij. apply (tk_mono _ _ _ _ _ _ _ _ _ Htk (length A1 + i) (length A1 + j)); [| |lia];
        by rewrite HA, lookup_app_r, Nat.add_comm, Nat.add_sub by lia. }
    clear -Hmono. induction A2 as [|x l IH]; [done|]. cbn [List.filter]. destruct (p x) eqn:E.
    - assert (List.filter p l = l) as Hall.
      { apply List.forallb_filter_id, forallb_Forall, Forall_lookup_2. intros j b Hj. unfold p in *. breflect.
        apply Z.ltb_lt. pose proof (Hmono 0%nat (S j) x b eq_refl Hj ltac:(lia)). lia. }
      rewrite Hall. by rewrite Nat.sub_diag.
    - assert (length (List.filter p l) <= length l)%nat by apply List.filter_length_le.
      cbn [length]. rewrite Nat.sub_succ_l by done. cbn [drop]. apply IH. intros i j a b Hi Hj Hij. by apply (Hmono (S i) (S j)); [..|lia]. }
  set (m := (Z.to_nat (Z.min cap (Z.of_nat (length (List.filter p A2)))))).
  assert (m <= length (List.filter p A2))%nat as Hm by (unfold m; lia).
  assert (length (List.filter p A2) <= length A2)%nat as Hl by apply List.filter_length_le.
  assert (length (drop (length A2 - m) A2) <= length (s_prune (now - W) (s_get k s)))%nat as Hle.
  { apply submseteq_length, NoDup_submseteq.
    { pose proof (tk_ids _ _ _ _ _ _ _ _ _ Htk) as Hnd. rewrite HA, map_app in Hnd. apply NoDup_app in Hnd as (_&_&Hnd).
      apply NoDup_map_inv' in Hnd. rewrite <- (take_drop (length A2 - m) A2) in Hnd. by apply NoDup_app in Hnd as (_&_&?). }
    intros a (j&Hj)%list_elem_of_lookup_1. rewrite lookup_drop in Hj.
    assert (p a = true) as Hp.
    { assert (a ∈ List.filter p A2) as [_ ?]%elem_of_filter_bool; [|done]. rewrite Hsuf.
      apply list_elem_of_lookup. exists (j + length (List.filter p A2) - m)%nat. rewrite lookup_drop.
      rewrite <- Hj. f_equal. lia. }
    unfold p in Hp. breflect. unfold s_prune, before. rewrite elem_of_filter_bool, Bool.negb_true_iff, Z.ltb_ge. split; [|lia].
    assert (a ∈ A2) as Ha by (by eapply list_elem_of_lookup_2). pose proof (lookup_lt_Some _ _ _ Hj) as Hlt.
    destruct (tk_live _ _ _ _ _ _ _ _ _ Htk (length A1 + (length A2 - m + j)) a) as [?|[?|Hc]]; [| |done|lia|].
    - by rewrite HA, lookup_app_r, Nat.add_comm, Nat.add_sub by lia.
    - auto.
    - rewrite HA, length_app in Hc. unfold m in *. lia. }
  rewrite length_drop in Hle. unfold m in *. lia.
Qed.

End Tracked.
