(* ===== verification/AuthBudget.v ===== *)
(** The authentication budgets (src/internal/core/auth_budget.go, rate_limit.go;
    src/internal/storage/store/local_login_attempts.go).

    A budget counts attempts per key in the login_attempts table, and in its
    in-memory limiter (AuthLimiter.v) when the table cannot be written; while it is
    on that fallback the attempts that were stored are mirrored in memory too, so
    that a count that fails can still be judged.  A computation runs in a world
    that holds the table, the limiters, and what is still to come from outside:
    how long passes before each reading of the clock, how each statement ends (it
    runs, it fails, or it runs and its acknowledgement is lost) and the random
    reservation keys. *)
From Stdlib Require Import ZArith Lia.
From stdpp Require Import base numbers tactics sets list gmap.
From S2P Require Import Prelude AuthLimiter.

(** * The world *)

Record LoginAttempt := mkRow { la_ID : Z; la_IP : bytes; la_AttemptedAt : Z; la_ReservationKey : option bytes }.

Record authFallbackMark := mkMark { m_at : Z; m_window : Z }.

(** The lockout columns of a user row. *)
Record user := mkUser {
  u_FailedLoginAttempts : Z;
  u_LastFailedLoginAt : option Z;
  u_LoginLockedUntil : option Z;
  u_LoginLockoutCount : Z }.

Inductive fault := Runs | Fails | Lost.

Inductive event :=
| EventAuthRateLimitError (budget op key : bytes)
| EventAccountLocked (uid until count : Z)
| EventAccountUnlocked (uid admin : Z).

Record db := mkDb { d_attempts : list LoginAttempt; d_seq : Z; d_users : gmap Z user }.

Record world := mkWorld {
  w_clock : Z;
  w_ticks : list N;
  w_faults : list fault;
  w_tokens : list (option bytes);
  w_db : db;
  w_fallbacks : gmap bytes limiter;
  w_last : gmap bytes authFallbackMark;
  w_replicas : Z;
  w_events : list event }.

Definition set_db (d : db) (w : world) : world :=
  mkWorld (w_clock w) (w_ticks w) (w_faults w) (w_tokens w) d (w_fallbacks w) (w_last w) (w_replicas w) (w_events w).
Definition set_attempts_db (l : list LoginAttempt) (d : db) : db := mkDb l (d_seq d) (d_users d).
Definition set_fallbacks (m : gmap bytes limiter) (w : world) : world :=
  mkWorld (w_clock w) (w_ticks w) (w_faults w) (w_tokens w) (w_db w) m (w_last w) (w_replicas w) (w_events w).
Definition set_last (m : gmap bytes authFallbackMark) (w : world) : world :=
  mkWorld (w_clock w) (w_ticks w) (w_faults w) (w_tokens w) (w_db w) (w_fallbacks w) m (w_replicas w) (w_events w).

Definition M (A : Type) : Type := world -> A * world.
Definition ret {A} (a : A) : M A := fun w => (a, w).
Definition bind {A B} (m : M A) (k : A -> M B) : M B := fun w => let '(a, w) := m w in k a w.
Notation "'let!' x ':=' m 'in' k" := (bind m (fun x => k))
  (at level 10, x pattern, m at level 100, k at level 200, format "'let!'  x  ':='  m  'in' '//' k") : go_scope.

(** [c.now()]: the clock does not run backwards. *)
Definition now : M Z := fun w =>
  let t := w_clock w + Z.of_N (default 0%N (head (w_ticks w))) in
  (t, mkWorld t (tail (w_ticks w)) (w_faults w) (w_tokens w) (w_db w) (w_fallbacks w) (w_last w) (w_replicas w) (w_events w)).
Definition next_fault : M fault := fun w =>
  (default Runs (head (w_faults w)),
   mkWorld (w_clock w) (w_ticks w) (tail (w_faults w)) (w_tokens w) (w_db w) (w_fallbacks w) (w_last w) (w_replicas w) (w_events w)).
Definition generateSecureToken : M (option bytes) := fun w =>
  (mjoin (head (w_tokens w)),
   mkWorld (w_clock w) (w_ticks w) (w_faults w) (tail (w_tokens w)) (w_db w) (w_fallbacks w) (w_last w) (w_replicas w) (w_events w)).
Definition emit (e : event) : M () := fun w =>
  ((), mkWorld (w_clock w) (w_ticks w) (w_faults w) (w_tokens w) (w_db w) (w_fallbacks w) (w_last w) (w_replicas w) (w_events w ++ [e])).

Inductive storage_err := ErrStorage | ErrNotFound | ErrEmptyKey | ErrToken.

(** A writing statement, and a reading one. *)
Definition stmt (write : db -> db) : M (res storage_err ()) := fun w =>
  let '(f, w) := next_fault w in
  match f with
  | Runs => (Ok (), set_db (write (w_db w)) w)
  | Fails => (Err ErrStorage, w)
  | Lost => (Err ErrStorage, set_db (write (w_db w)) w)
  end.
Definition query {A} (read : db -> res storage_err A) : M (res storage_err A) := fun w =>
  let '(f, w) := next_fault w in
  match f with Runs => (read (w_db w), w) | _ => (Err ErrStorage, w) end.

(** * login_attempts *)

Definition insert_attempt (ip : bytes) (at_ : Z) (key : option bytes) (d : db) : db :=
  mkDb (d_attempts d ++ [mkRow (d_seq d + 1) ip at_ key]) (d_seq d + 1) (d_users d).

Definition has_key (key : bytes) (r : LoginAttempt) : bool := bool_decide (la_ReservationKey r = Some key).

(** INSERT ... ON CONFLICT (reservation_key) DO NOTHING. *)
Definition insert_reservation (ip : bytes) (at_ : Z) (key : bytes) (d : db) : db :=
  if existsb (has_key key) (d_attempts d) then d else insert_attempt ip at_ (Some key) d.

Definition RecordLoginAttempt (ip : bytes) (at_ : Z) : M (res storage_err ()) := stmt (insert_attempt ip at_ None).

Definition recent (ip : bytes) (since : Z) (r : LoginAttempt) : bool :=
  bool_decide (la_IP r = ip) && (since <? la_AttemptedAt r).
Definition CountRecentLoginAttempts (ip : bytes) (since : Z) : M (res storage_err Z) :=
  query (fun d => Ok (Z.of_nat (length (List.filter (recent ip since) (d_attempts d))))).

Definition PruneLoginAttempts_store (before : Z) : M (res storage_err ()) :=
  stmt (fun d => set_attempts_db (List.filter (fun r => negb (la_AttemptedAt r <? before)) (d_attempts d)) d).

Definition ReserveLoginAttempt_store (ip : bytes) (at_ : Z) (key : bytes) : M (res storage_err Z) :=
  if bool_decide (key = []) then ret (Err ErrEmptyKey) else
  let! r := stmt (insert_reservation ip at_ key) in
  match r with
  | Err e => ret (Err e)
  | Ok _ => query (fun d => match List.find (has_key key) (d_attempts d) with Some row => Ok (la_ID row) | None => Err ErrNotFound end)
  end.

Definition delete_attempt (id : Z) (d : db) : db :=
  set_attempts_db (List.filter (fun r => negb (la_ID r =? id)) (d_attempts d)) d.
Definition ReleaseLoginAttempt_store (id : Z) : M (res storage_err ()) := stmt (delete_attempt id).

(** * Budgets *)

Record authBudget := mkBudget { b_name : bytes; b_prefix : bytes; b_limit : Z; b_window : Z; b_fallbackDivisor : Z }.

Definition minute : Z := 60 * 1000000000.
Definition LoginMaxAttempts : Z := 10.
Definition LoginWindow : Z := 15 * minute.
Definition PasswordResetMaxAttempts : Z := 5.
Definition PasswordResetWindow : Z := 15 * minute.
Definition SSOBeginMaxAttempts : Z := 20.
Definition SSOBeginWindow : Z := 15 * minute.
Definition passwordResetRateLimitPrefix : bytes := go "pwreset:".
Definition ssoRateLimitPrefix : bytes := go "sso:".

Definition loginBudget : authBudget := mkBudget (go "login") [] LoginMaxAttempts LoginWindow 0.
Definition passwordResetBudget : authBudget :=
  mkBudget (go "password_reset") passwordResetRateLimitPrefix PasswordResetMaxAttempts PasswordResetWindow 2.
Definition passwordResetAccountBudget : authBudget :=
  mkBudget (go "password_reset_account") [] PasswordResetMaxAttempts PasswordResetWindow 2.
Definition ssoBeginBudget : authBudget := mkBudget (go "sso_begin") ssoRateLimitPrefix SSOBeginMaxAttempts SSOBeginWindow 0.
Definition accountLockoutBudget : authBudget := mkBudget (go "account_lockout") [] 0 0 0.

Definition authFallbackMaxKeys : nat := Z.to_nat 10000.

(** [time.Time.Sub] saturates at the limits of a duration. *)
Definition time_sub (t u : Z) : Z := Z.max (- 2 ^ 63) (Z.min (2 ^ 63 - 1) (t - u)).

Definition SetAuthRateLimitFallbackReplicas (n : Z) : M () := fun w =>
  ((), mkWorld (w_clock w) (w_ticks w) (w_faults w) (w_tokens w) (w_db w) (w_fallbacks w) (w_last w)
         (if n <? 1 then 1 else n) (w_events w)).

Definition fallbackLimit (b : authBudget) : M Z := fun w =>
  let div := if 1 <? b_fallbackDivisor b then b_fallbackDivisor b else 1 in
  let div := if 1 <? w_replicas w then s64 (div * w_replicas w) else div in
  (Z.max (Z.quot (b_limit b) div) 1, w).

Definition in_window (t : Z) (m : authFallbackMark) : bool := time_sub t (m_at m) <=? m_window m.

Definition AuthRateLimitDegraded : M bool :=
  let! t := now in
  fun w => (existsb (fun x => in_window t x.2) (map_to_list (w_last w)), w).

Definition budgetDegraded (b : authBudget) : M bool :=
  let! t := now in
  fun w => (match w_last w !! b_name b with Some m => in_window t m | None => false end, w).

(** The limiter of a budget is made on first use. *)
Definition fallback_of (name : bytes) (w : world) : limiter :=
  default (newAuthFallbackLimiter authFallbackMaxKeys) (w_fallbacks w !! name).
Definition on_fallback {A} (b : authBudget) (g : limiter -> A * limiter) : M A := fun w =>
  let '(a, f) := g (fallback_of (b_name b) w) in
  (a, set_fallbacks (<[b_name b := f]> (w_fallbacks w)) w).
Definition on_fallback_ (b : authBudget) (g : limiter -> limiter) : M () := on_fallback b (fun f => ((), g f)).

Definition noteAuthBudgetFallback (b : authBudget) (op key : bytes) : M () :=
  let! t := now in
  let! _ := (fun w => ((), set_last (<[b_name b := mkMark t (b_window b)]> (w_last w)) w)) in
  emit (EventAuthRateLimitError (b_name b) op key).

(** ** The stored budget, with the fallback behind it *)

Definition budgetLimitedDecision (b : authBudget) (key : bytes) : M bool :=
  let! t := now in
  let since := t - b_window b in
  let! mem := on_fallback b (count key since false) in
  let! limit := fallbackLimit b in
  if limit <=? mem then ret true else
  let! n := CountRecentLoginAttempts (b_prefix b ++ key) since in
  match n with
  | Err _ =>
      let! _ := noteAuthBudgetFallback b (go "check") key in
      let! all := on_fallback b (count key since true) in
      let! limit := fallbackLimit b in
      ret (limit <=? all)
  | Ok n => ret (b_limit b <=? n + mem)
  end.
(** [budgetLimited] counts the refusals it answers, which changes no decision. *)
Definition budgetLimited (b : authBudget) (key : bytes) : M bool := budgetLimitedDecision b key.

Definition budgetWriteKeyed (b : authBudget) (key : bytes) : M (res storage_err Z) :=
  let! tok := generateSecureToken in
  match tok with
  | None => ret (Err ErrToken)
  | Some resKey =>
      let! t := now in
      let! r := ReserveLoginAttempt_store (b_prefix b ++ key) t resKey in
      match r with
      | Ok id => ret (Ok id)
      | Err _ => ReserveLoginAttempt_store (b_prefix b ++ key) t resKey
      end
  end.

Definition budgetMirrorIfDegraded (b : authBudget) (key : bytes) (storedID : Z) : M () :=
  let! d := budgetDegraded b in
  if d then
    let! t := now in
    on_fallback_ b (mirror key t (b_window b) (4 * b_limit b) storedID)
  else ret ().

Definition budgetRecordFallback (b : authBudget) (key : bytes) : M () :=
  let! _ := noteAuthBudgetFallback b (go "record") key in
  let! t := now in
  let! _ := on_fallback b (reserve key t (b_window b) (4 * b_limit b)) in
  ret ().

Definition budgetRecord (b : authBudget) (key : bytes) : M () :=
  let! r := budgetWriteKeyed b key in
  match r with
  | Err _ => budgetRecordFallback b key
  | Ok _ => budgetMirrorIfDegraded b key 0
  end.

Definition budgetReserve (b : authBudget) (key : bytes) : M Z :=
  let! r := budgetWriteKeyed b key in
  match r with
  | Err _ =>
      let! _ := noteAuthBudgetFallback b (go "reserve") key in
      let! t := now in
      on_fallback b (reserve key t (b_window b) (4 * b_limit b))
  | Ok id =>
      let! _ := budgetMirrorIfDegraded b key id in
      ret id
  end.

Definition budgetReleaseStored (b : authBudget) (id : Z) : M (res storage_err ()) :=
  let! r := ReleaseLoginAttempt_store id in
  match r with
  | Err e => ret (Err e)
  | Ok _ => let! _ := on_fallback_ b (releaseMirror id) in ret (Ok ())
  end.

Definition is_fallback_id (id : Z) : bool := negb (Z.land id authFallbackIDBit =? 0).

Definition sharedLoginSlot (slotID : option Z) : option Z :=
  match slotID with Some id => if is_fallback_id id then None else Some id | None => None end.

Definition budgetReleaseFallback (b : authBudget) (id : Z) : M () := on_fallback_ b (release id).

(** ** The fallback alone *)

Definition budgetFallbackLimitedWithStored (b : authBudget) (key : bytes) (stored : Z) : M bool :=
  if b_limit b <=? 0 then ret false else
  let! t := now in
  let! mem := on_fallback b (count key (t - b_window b) true) in
  let! limit := fallbackLimit b in
  ret ((limit <=? mem) || (b_limit b <=? stored + mem)).

Definition budgetFallbackTryReserve (b : authBudget) (key : bytes) : M bool :=
  let! t := now in
  let! limit := fallbackLimit b in
  on_fallback b (tryReserve key t (b_window b) (4 * b_limit b) limit).

Definition budgetFallbackClear (b : authBudget) (key : bytes) : M () := on_fallback_ b (clear key).

(** ** Releases and the sweep (rate_limit.go) *)

(** Best effort: an error leaves the reservation counted. *)
Definition ReleaseLoginAttempt (id : Z) : M () :=
  if is_fallback_id id then budgetReleaseFallback loginBudget id
  else let! _ := budgetReleaseStored loginBudget id in ret ().

(** The cutoff is never later than the window; a zero [before] asks for the window. *)
Definition PruneLoginAttempts (before : option Z) : M (res storage_err ()) :=
  let! t := now in
  let cutoff := t - LoginWindow in
  let cutoff := match before with Some z => if z <? cutoff then z else cutoff | None => cutoff end in
  PruneLoginAttempts_store cutoff.
