(* ===== verification/AuthBudgetSafe.v ===== *)
(** No budget fails open (src/internal/core/auth_budget.go).

    Any sequence of checks, records, reservations, releases and sweeps runs from a
    fresh process, with any outcome of every statement, while other replicas add
    and release rows of the shared table.  For one budget and key the theorem
    keeps the history of the attempts: a check that answers "not limited" has
    seen fewer than the limit of them inside the window, and a check whose count
    failed fewer than the fallback limit of those that reached the memory. *)
From Stdlib Require Import ZArith Lia.
From stdpp Require Import base numbers tactics sets list gmap.
From S2P Require Import Prelude AuthLimiter AuthLimiterTrack AuthBudget.

(** * Traces *)

Inductive budget_id := Login | PasswordReset | SSOBegin.
#[export] Instance budget_id_eq_decision : EqDecision budget_id.
Proof. solve_decision. Defined.
Definition budget_of (i : budget_id) : authBudget :=
  match i with Login => loginBudget | PasswordReset => passwordResetBudget | SSOBegin => ssoBeginBudget end.

Inductive op :=
| OLimited (i : budget_id) (key : bytes)
| ORecord (i : budget_id) (key : bytes)
| OReserve (key : bytes)
| ORelease (j : nat)
| OPrune (before : option Z)
| ORemoteInsert (ip : bytes) (at_ : Z)
| ORemoteRelease (id : Z).

(** [slots]: the reservations handed out so far; only the login budget reserves. *)
Definition exec (slots : list Z) (o : op) (w : world) : world :=
  match o with
  | OLimited i key => snd (budgetLimited (budget_of i) key w)
  | ORecord i key => snd (budgetRecord (budget_of i) key w)
  | OReserve key => snd (budgetReserve loginBudget key w)
  | ORelease j => match slots !! j with Some id => snd (ReleaseLoginAttempt id w) | None => w end
  | OPrune before => snd (PruneLoginAttempts before w)
  | ORemoteInsert ip t => set_db (insert_attempt ip t None (w_db w)) w
  | ORemoteRelease id => set_db (delete_attempt id (w_db w)) w
  end.

(** * The history of one budget and key *)

(** An attempt: what would release it, when its call began and ended, and whether
    it went to the memory too (its write failed, or the budget was degraded). *)
Record gatt := mkG { ga_handle : Z; ga_start : Z; ga_end : Z; ga_mem : bool }.
Record ghost := mkGhost { g_att : list gatt; g_released : gset Z; g_others : gset bytes; g_most : nat; g_slots : list Z }.
Definition ghost0 : ghost := mkGhost [] ∅ ∅ 0 [].

Definition attempt_handle (i : budget_id) (key : bytes) (w : world) : Z := fst (budgetReserve (budget_of i) key w).
Definition goes_to_memory (i : budget_id) (key : bytes) (w : world) : bool :=
  let '(r, w') := budgetWriteKeyed (budget_of i) key w in
  match r with Err _ => true | Ok _ => fst (budgetDegraded (budget_of i) w') end.

Section History.
Context (i : budget_id) (k : bytes).

(** The other keys of the budget's limiter used since [k] was are kept with the
    largest number of them there ever was. *)
Definition note_attempt (i' : budget_id) (key : bytes) (w w' : world) (g : ghost) : ghost :=
  if bool_decide (i' = i) then
    let mem := goes_to_memory i key w in
    if bool_decide (key = k) then
      mkGhost (g_att g ++ [mkG (attempt_handle i k w) (w_clock w) (w_clock w') mem]) (g_released g)
        (if mem then ∅ else g_others g) (g_most g) (g_slots g)
    else if mem then
      let others := g_others g ∪ {[key]} in
      mkGhost (g_att g) (g_released g) others (Nat.max (g_most g) (size others)) (g_slots g)
    else g
  else g.
Definition note_release (id : Z) (g : ghost) : ghost :=
  mkGhost (g_att g) (g_released g ∪ {[id]}) (g_others g) (g_most g) (g_slots g).
Definition note_slots (ids : list Z) (g : ghost) : ghost :=
  mkGhost (g_att g) (g_released g) (g_others g) (g_most g) (g_slots g ++ ids).

Definition ghost_step (o : op) (w : world) (g : ghost) : ghost :=
  let w' := exec (g_slots g) o w in
  match o with
  | ORecord i' key => note_attempt i' key w w' g
  | OReserve key => note_slots [attempt_handle Login key w] (note_attempt Login key w w' g)
  | ORelease j => match g_slots g !! j with Some id => note_release id g | None => g end
  | ORemoteRelease id => note_release id g
  | _ => g
  end.

Fixpoint run (ops : list op) (w : world) (g : ghost) : world * ghost :=
  match ops with [] => (w, g) | o :: ops => run ops (exec (g_slots g) o w) (ghost_step o w g) end.

(** The attempts that count at a check: begun inside the window, not taken back. *)
Definition live_since (since : Z) (g : ghost) : list gatt :=
  List.filter (fun a => (since <? ga_start a) && bool_decide (ga_handle a ∉ g_released g)) (g_att g).
(** All that went to the memory and may still be inside the window. *)
Definition memory_since (since : Z) (g : ghost) : list gatt :=
  List.filter (fun a => ga_mem a && (since <=? ga_end a)) (g_att g).

End History.

(** A process that has just started: any rows, reservation keys it has not drawn yet. *)
Record started (w : world) : Prop := {
  st_fallbacks : w_fallbacks w = ∅;
  st_last : w_last w = ∅;
  st_ids : NoDup (map la_ID (d_attempts (w_db w)));
  st_range : Forall (fun r => 1 <= la_ID r <= d_seq (w_db w)) (d_attempts (w_db w));
  st_seq : 0 <= d_seq (w_db w) < 2 ^ 62;
  st_tokens : NoDup (omap id (w_tokens w));
  st_nonempty : Some [] ∉ w_tokens w;
  st_fresh : forall r tok, r ∈ d_attempts (w_db w) -> la_ReservationKey r = Some tok -> Some tok ∉ w_tokens w }.

(** * The table *)

Record dbi (w : world) : Prop := {
  db_ids : NoDup (map la_ID (d_attempts (w_db w)));
  db_range : Forall (fun r => 1 <= la_ID r <= d_seq (w_db w)) (d_attempts (w_db w));
  db_seq : 0 <= d_seq (w_db w);
  db_tokens : NoDup (omap id (w_tokens w));
  db_nonempty : Some [] ∉ w_tokens w;
  db_fresh : forall r tok, r ∈ d_attempts (w_db w) -> la_ReservationKey r = Some tok -> Some tok ∉ w_tokens w }.

(** Same memory: what the table's statements leave alone. *)
Record mem_same (w w' : world) : Prop := {
  ms_clock : w_clock w <= w_clock w';
  ms_fallbacks : w_fallbacks w' = w_fallbacks w;
  ms_last : w_last w' = w_last w;
  ms_replicas : w_replicas w' = w_replicas w }.

Lemma mem_same_trans w1 w2 w3 : mem_same w1 w2 -> mem_same w2 w3 -> mem_same w1 w3.
Proof. intros [? ? ? ?] [? ? ? ?]. constructor; [lia|congruence..]. Qed.

Lemma now_spec w : let '(t, w') := now w in
  w_clock w <= t /\ w_clock w' = t /\ mem_same w w' /\ w_db w' = w_db w /\ w_tokens w' = w_tokens w.
Proof. cbn. split_and!; try done; [lia|]. constructor; cbn; try done. lia. Qed.

Lemma has_key_false key d : (forall r, r ∈ d_attempts d -> la_ReservationKey r <> Some key) -> existsb (has_key key) (d_attempts d) = false.
Proof.
  intros H. apply Bool.not_true_is_false. intros (r&Hr&E)%existsb_exists. unfold has_key in E. breflect.
  by apply (H r); [apply list_elem_of_In|].
Qed.
Lemma find_inserted key ip t d : (forall r, r ∈ d_attempts d -> la_ReservationKey r <> Some key) ->
  List.find (has_key key) (d_attempts (insert_attempt ip t (Some key) d)) = Some (mkRow (d_seq d + 1) ip t (Some key)).
Proof.
  intros H. cbn. induction (d_attempts d) as [|r l IH]; cbn.
  - unfold has_key. cbn. by rewrite bool_decide_true.
  - unfold has_key at 1. rewrite bool_decide_false by (apply H; by left). apply IH. intros. apply H. by right.
Qed.

(** The keyed write, before or after an earlier try with the same key. *)
Lemma reserve_store ip t key d w : key <> [] -> (forall r, r ∈ d_attempts d -> la_ReservationKey r <> Some key) ->
  w_db w = d \/ w_db w = insert_attempt ip t (Some key) d ->
  let '(r, w') := ReserveLoginAttempt_store ip t key w in
  mem_same w w' /\ w_clock w' = w_clock w /\ w_tokens w' = w_tokens w /\
  (w_db w' = d \/ w_db w' = insert_attempt ip t (Some key) d) /\
  (forall id, r = Ok id -> w_db w' = insert_attempt ip t (Some key) d /\ id = d_seq d + 1).
Proof.
  intros Hk Hd Hw. unfold ReserveLoginAttempt_store. rewrite bool_decide_false by done.
  assert (insert_reservation ip t key (w_db w) = insert_attempt ip t (Some key) d) as Hins.
  { unfold insert_reservation. destruct Hw as [-> | ->].
    - by rewrite has_key_false.
    - cbn [insert_attempt d_attempts]. rewrite existsb_app. cbn. unfold has_key at 2. cbn.
      by rewrite bool_decide_true, Bool.orb_true_r. }
  unfold bind, stmt, query, next_fault, ret. cbn -[insert_attempt List.find].
  destruct (default Runs (head (w_faults w))); cbn -[insert_attempt List.find]; rewrite ?Hins, ?find_inserted by done;
    [destruct (default Runs (head (tail (w_faults w))))|..]; cbn -[insert_attempt List.find];
    (split_and!; [constructor; cbn; try done; lia|done|done|by eauto|]); intros; simplify_eq/=; done.
Qed.

Lemma elem_of_tail {A} (x : A) l : x ∈ tail l -> x ∈ l.
Proof. destruct l; [done|]. by right. Qed.

(** A key is drawn once: no row carries it before its own write. *)
Lemma token_fresh w tok : dbi w -> mjoin (head (w_tokens w)) = Some tok ->
  tok <> [] /\ (forall r, r ∈ d_attempts (w_db w) -> la_ReservationKey r <> Some tok) /\
  (Some tok ∉ tail (w_tokens w)) /\ NoDup (omap id (tail (w_tokens w))).
Proof.
  intros [_ _ _ Hn He Hf] Ht. destruct (w_tokens w) as [|[x|] l] eqn:E; cbn in *; simplify_eq.
  apply NoDup_cons in Hn as [Hx Hn]. split_and!; [intros ->; apply He; by left|..|done].
  - intros r Hr Hk. apply (Hf r tok); [done|done|]. by left.
  - intros Hin. apply Hx. apply list_elem_of_omap. by exists (Some tok).
Qed.

Lemma dbi_tail w w' : dbi w -> w_db w' = w_db w -> w_tokens w' = tail (w_tokens w) -> dbi w'.
Proof.
  intros [H1 H2 H3 H4 H5 H6] Hd Ht. constructor; rewrite ?Hd, ?Ht; try done.
  - destruct (w_tokens w) as [|[x|] l]; cbn in *; [done| |done]. by apply NoDup_cons in H4 as [_ ?].
  - intros Hin. apply H5. by apply elem_of_tail.
  - intros r tok Hr Hk Hin. apply (H6 r tok); try done. by apply elem_of_tail.
Qed.

Lemma dbi_insert w w' ip t tok : dbi w -> w_db w' = insert_attempt ip t tok (w_db w) ->
  NoDup (omap id (w_tokens w')) -> (forall x, x ∈ w_tokens w' -> x ∈ w_tokens w) ->
  (forall x, tok = Some x -> Some x ∉ w_tokens w') -> dbi w'.
Proof.
  intros [H1 H2 H3 H4 H5 H6] Hd Hn Hsub Ht. constructor; rewrite ?Hd; cbn; try done; [..|lia| |].
  - rewrite map_app. apply NoDup_app. split_and!; [done| |apply NoDup_singleton].
    intros x (r&->&Hr)%elem_of_map E%list_elem_of_singleton. cbn in E. eapply Forall_forall in H2; [|done]. lia.
  - apply Forall_app. split; [|by constructor; cbn; [lia|]]. eapply Forall_impl; [done|]. cbn. lia.
  - intros Hin%Hsub. done.
  - intros r x [Hr|E%list_elem_of_singleton]%elem_of_app Hk Hin; [|subst r; by apply (Ht x)]. apply (H6 r x); auto.
Qed.

Lemma dbi_same w w' : dbi w -> w_db w' = w_db w -> w_tokens w' = w_tokens w -> dbi w'.
Proof. intros [] E1 E2. constructor; rewrite ?E1, ?E2; done. Qed.

Definition wrote (ip : bytes) (w w' : world) : Prop := exists t tok,
  w_clock w <= t <= w_clock w' /\ w_db w' = insert_attempt ip t (Some tok) (w_db w).

Lemma write_keyed b key w : dbi w ->
  let '(r, w') := budgetWriteKeyed b key w in
  mem_same w w' /\ dbi w' /\ (w_db w' = w_db w \/ wrote (b_prefix b ++ key) w w') /\
  (forall id, r = Ok id -> wrote (b_prefix b ++ key) w w' /\ id = d_seq (w_db w) + 1).
Proof.
  intros Hi. unfold budgetWriteKeyed, bind. set (w1 := snd (generateSecureToken w)).
  change (generateSecureToken w) with (mjoin (head (w_tokens w)), w1).
  assert (mem_same w w1) as Hw1 by (constructor; cbn; [lia|done..]).
  destruct (mjoin (head (w_tokens w))) as [tok|] eqn:Et; cbn [ret].
  2: { split_and!; [done|by apply (dbi_tail w)|by left|done]. }
  destruct (token_fresh w tok Hi Et) as (Hne&Hfr&Hnt&Hnd).
  pose proof (now_spec w1) as Hnow. destruct (now w1) as [t w2]. destruct Hnow as (?&?&Hw2&Hd2&Ht2).
  pose proof (reserve_store (b_prefix b ++ key) t tok (w_db w) w2 Hne Hfr ltac:(by left)) as H1.
  destruct (ReserveLoginAttempt_store _ _ _ w2) as [r1 w3]. destruct H1 as (Hw3&?&Ht3&Hd3&Hr3).
  assert (forall w', mem_same w3 w' -> w_clock w' = w_clock w3 -> w_tokens w' = w_tokens w3 ->
    (w_db w' = w_db w \/ w_db w' = insert_attempt (b_prefix b ++ key) t (Some tok) (w_db w)) ->
    mem_same w w' /\ dbi w' /\ (w_db w' = w_db w \/ wrote (b_prefix b ++ key) w w') /\
    (w_db w' = insert_attempt (b_prefix b ++ key) t (Some tok) (w_db w) -> wrote (b_prefix b ++ key) w w')) as Hfin.
  { intros w' Hs Hc Htk Hd. assert (w_tokens w' = tail (w_tokens w)) as Htk' by by rewrite Htk, Ht3, Ht2.
    assert (w_db w' = insert_attempt (b_prefix b ++ key) t (Some tok) (w_db w) -> wrote (b_prefix b ++ key) w w') as Hwr.
    { intros Hdb. exists t, tok. split; [|done]. pose proof (ms_clock _ _ Hw1). lia. }
    split_and!; [by eauto using mem_same_trans| |by destruct Hd; eauto|done]. destruct Hd as [Hd|Hd]; [by apply (dbi_tail w)|].
    eapply dbi_insert; [exact Hi|exact Hd| | |]; rewrite ?Htk'; try done.
    - intros x. apply elem_of_tail.
    - by intros x [= <-]. }
  destruct r1 as [id|e]; cbn [ret].
  - destruct (Hfin w3 ltac:(by constructor; [lia|..]) eq_refl eq_refl Hd3) as (?&?&?&Hwr).
    split_and!; try done. intros id' [= <-]. destruct (Hr3 id) as [? ?]; [done|]. auto.
  - pose proof (reserve_store (b_prefix b ++ key) t tok (w_db w) w3 Hne Hfr Hd3) as H2.
    destruct (ReserveLoginAttempt_store _ _ _ w3) as [r2 w4]. destruct H2 as (Hw4&?&Ht4&Hd4&Hr4).
    destruct (Hfin w4 Hw4 ltac:(done) ltac:(done) Hd4) as (?&?&?&Hwr). split_and!; try done.
    intros id' ->. destruct (Hr4 id') as [? ?]; [done|]. auto.
Qed.

(** * The memory *)

Lemma is_fallback_id_of n : 0 <= n < 2 ^ 63 -> is_fallback_id (id_of n) = true.
Proof.
  intros. unfold is_fallback_id, id_of. rewrite Z.land_lor_distr_l, land_idbit by done. done.
Qed.
Lemma is_fallback_stored n : 0 <= n < 2 ^ 63 -> is_fallback_id n = false.
Proof. intros. unfold is_fallback_id. by rewrite land_idbit. Qed.

(** An attempt of the history and the one the limiter was given for it. *)
Definition att_rel (released : gset Z) (L : gset Z) (ga : gatt) (a : attempt) : Prop :=
  ga_start ga <= a_at a <= ga_end ga /\
  (if is_fallback_id (ga_handle ga) then a_id a = ga_handle ga /\ a_mirrored a = false /\ a_storedID a = 0
   else a_mirrored a = true /\ (a_storedID a = 0 \/ a_storedID a = ga_handle ga)) /\
  (ga_handle ga ∉ released -> a_id a ∈ L).

Definition mem_ok (i : budget_id) (k : bytes) (f : limiter) (t : Z) (g : ghost) : Prop :=
  exists s A L, tracked (4 * b_limit (budget_of i)) (b_window (budget_of i)) t k f s A L (g_others g) /\
    Forall2 (att_rel (g_released g) L) (List.filter ga_mem (g_att g)) A /\
    (i = Login -> forall a, a ∈ A -> a_mirrored a = true -> a_id a ∉ g_slots g).

Section Memory.
Context {i : budget_id} {k : bytes} {f : limiter} {t : Z} {g : ghost}.
Context (Hm : mem_ok i k f t g).

Lemma mem_time t' : t <= t' -> mem_ok i k f t' g.
Proof. intros. destruct Hm as (s&A&L&Ht&?). exists s, A, L. by split; [apply (tracked_time Ht)|]. Qed.

Lemma mem_count k' t' wm : t <= t' -> mem_ok i k (snd (count k' (t' - b_window (budget_of i)) wm f)) t' g.
Proof.
  intros Hle. destruct Hm as (s&A&L&Ht&?). pose proof (count_models f s k' (t' - b_window (budget_of i)) wm (tk_models _ _ _ _ _ _ _ _ _ Ht)) as Hc.
  destruct (count _ _ _ _) as [n f']. destruct Hc as (_&[_ Hn]&Hmod). cbn.
  eexists _, A, L. split; [|done]. apply (tracked_count Ht); [done|lia|done].
Qed.

Lemma limit_pos : 1 <= 4 * b_limit (budget_of i).
Proof. by destruct i. Qed.

(** A new attempt of the key, [a], for the call [ga]. *)
Lemma mem_add_self f' a ga rest : 0 <= f_nextID f -> f_nextID f + 1 < 2 ^ 63 -> t <= a_at a -> a_id a = id_of (f_nextID f + 1) ->
  f_nextID f' = f_nextID f + 1 -> ga_mem ga = true ->
  (forall L', a_id a ∈ L' -> att_rel (g_released g) L' ga a) ->
  (i = Login -> a_mirrored a = true -> a_id a ∉ g_slots g) ->
  (forall s, models f s -> models f' ((k, s_add (4 * b_limit (budget_of i)) a (s_prune (a_at a - b_window (budget_of i)) (s_get k s))) :: rest s)) ->
  mem_ok i k f' (a_at a) (mkGhost (g_att g ++ [ga]) (g_released g) ∅ (g_most g) (g_slots g)).
Proof.
  intros Hn Hn1 Hle Hid Hn' Hga Hrel Hslot Hmod. destruct Hm as (s&A&L&Ht&HF&HL).
  pose proof (tracked_add Ht f' a (rest s) Hn Hn1 limit_pos Hle Hid Hn' (Hmod s (tk_models _ _ _ _ _ _ _ _ _ Ht))) as Ht'.
  eexists _, _, _. split; [exact Ht'|]. cbn. split.
  - rewrite List.filter_app. cbn. rewrite Hga. apply Forall2_app.
    + eapply Forall2_impl; [exact HF|]. intros x y (?&?&HL'). split; [done|split; [done|]]. intros ?%HL'. set_solver.
    + constructor; [|done]. apply Hrel. set_solver.
  - intros E b [Hb|Hb%list_elem_of_singleton]%elem_of_app; [by apply HL|]. subst. by apply Hslot.
Qed.

(** A new attempt of another key. *)
Lemma mem_add_other f' k' l' t' : k' <> k -> t <= t' -> (size (g_others g ∪ {[k']}) < f_maxKeys f)%nat -> f_nextID f <= f_nextID f' ->
  (forall s, models f s -> models f' ((k', l' s) :: s_rest (f_maxKeys f) k' s)) ->
  mem_ok i k f' t' (mkGhost (g_att g) (g_released g) (g_others g ∪ {[k']}) (Nat.max (g_most g) (size (g_others g ∪ {[k']}))) (g_slots g)).
Proof.
  intros. destruct Hm as (s&A&L&Ht&?&?). eexists _, A, L. split; [|done]. cbn.
  apply (tracked_other Ht) with (l' := l' s); try done. eauto using tk_models.
Qed.

(** A slot is handed out: not the id of a mirrored attempt. *)
Lemma mem_slot id : (i = Login -> forall s A L, tracked (4 * b_limit (budget_of i)) (b_window (budget_of i)) t k f s A L (g_others g) ->
    forall a, a ∈ A -> a_mirrored a = true -> Forall2 (att_rel (g_released g) L) (List.filter ga_mem (g_att g)) A -> a_id a <> id) ->
  mem_ok i k f t (note_slots [id] g).
Proof.
  intros Hid. destruct Hm as (s&A&L&Ht&HF&HL). exists s, A, L. split_and!; try done. cbn.
  intros E a Ha Hmi [?|Hx%list_elem_of_singleton]%elem_of_app; [by apply (HL E a)|]. by apply (Hid E s A L Ht a).
Qed.

Lemma att_rel_released released' L L' x y : (ga_handle x ∉ released' -> ga_handle x ∉ g_released g) ->
  (ga_handle x ∉ released' -> a_id y ∈ L -> a_id y ∈ L') -> att_rel (g_released g) L x y -> att_rel released' L' x y.
Proof. intros H1 H2 (?&?&H3). split; [done|split; [done|]]. auto. Qed.

(** A row is released by someone else: what is held stays. *)
Lemma mem_forget id : mem_ok i k f t (note_release id g).
Proof.
  destruct Hm as (s&A&L&Ht&HF&HL). exists s, A, L. split_and!; try done. cbn. eapply Forall2_impl; [exact HF|].
  intros x y. apply att_rel_released; set_solver.
Qed.

Lemma Forall2_elem_r {A B} (R : A -> B -> Prop) l m : Forall2 R l m -> Forall2 (fun x y => R x y /\ y ∈ m) l m.
Proof.
  intros H. apply Forall2_same_length_lookup_2; [by eapply Forall2_length|]. intros j x y Hx Hy.
  split; [by eapply Forall2_lookup_lr|by eapply list_elem_of_lookup_2].
Qed.

(** A reservation of the limiter is released. *)
Lemma mem_release id : i = Login -> id ∈ g_slots g -> mem_ok i k (release id f) t (note_release id g).
Proof.
  intros Ei Hid. destruct Hm as (s&A&L&Ht&HF&HL).
  destruct (release_models f s id (tk_models _ _ _ _ _ _ _ _ _ Ht)) as [[_ Hn] Hmod].
  exists (s_release id s), A, (L ∖ {[id]}). split_and!; try done.
  - apply (tracked_release Ht); [lia|done|set_solver|]. intros a _ ?. set_solver.
  - cbn. eapply Forall2_impl; [exact (Forall2_elem_r _ _ _ HF)|].
    intros x y [Hxy Hy]. eapply att_rel_released; [set_solver| |exact Hxy]. intros Hx HyL.
    apply elem_of_difference. split; [done|]. rewrite elem_of_singleton. intros E.
    destruct Hxy as (_&Hxy&_). destruct (is_fallback_id (ga_handle x)).
    + destruct Hxy as [Hxy _]. apply Hx, elem_of_union_r, elem_of_singleton. congruence.
    + by apply (HL Ei y); [|destruct Hxy|rewrite E].
Qed.

(** A stored reservation is released, and its mirror with it. *)
Lemma mem_releaseMirror sid : mem_ok i k (releaseMirror sid f) t (note_release sid g).
Proof.
  destruct Hm as (s&A&L&Ht&HF&HL). pose proof (tk_models _ _ _ _ _ _ _ _ _ Ht) as Hmod.
  destruct (releaseMirror_models f s sid Hmod) as [[_ Hn] [E|(k'&l&a&Hf&Ha&Hsid&Hz&Hmod')]]; [rewrite E; apply mem_forget|].
  exists (s_release (a_id a) s), A, (if bool_decide (k' = k) then L ∖ {[a_id a]} else L). split_and!; try done.
  - apply (tracked_release Ht); [lia|done|case_bool_decide; set_solver|]. intros b Hb HbL E.
    case_bool_decide as Hk; [set_solver|]. unfold s_get in Hb. destruct (s_find k s) as [lk|] eqn:Ek; [|by apply elem_of_nil in Hb].
    destruct (models_unique f s k lk b k' l a) as [-> _]; done.
  - cbn. eapply Forall2_impl; [exact (Forall2_elem_r _ _ _ HF)|].
    intros x y [Hxy Hy]. eapply att_rel_released; [set_solver| |exact Hxy]. intros Hx HyL.
    case_bool_decide as Hk; [|done]. subst k'. apply elem_of_difference. split; [done|]. rewrite elem_of_singleton. intros E.
    assert (y = a) as ->.
    { assert (a ∈ A) as HaA.
      { eapply elem_of_sublist; [|exact (tk_sub _ _ _ _ _ _ _ _ _ Ht)]. by rewrite (s_get_find k s l). }
      pose proof (tk_ids _ _ _ _ _ _ _ _ _ Ht) as Hnd. apply list_elem_of_lookup_1 in Hy as (j1&Hy), HaA as (j2&HaA).
      assert (j1 = j2) as <-; [|congruence].
      eapply NoDup_lookup; [exact Hnd|..]; rewrite lookup_map; [by rewrite Hy|by rewrite HaA; cbn; rewrite E]. }
    destruct Hxy as (_&Hxy&_). destruct (is_fallback_id (ga_handle x)); [destruct Hxy as (_&_&?); congruence|].
    destruct Hxy as [_ [?|?]]; [congruence|]. apply Hx, elem_of_union_r, elem_of_singleton. congruence.
Qed.

End Memory.

(** * The effect of each operation *)

Lemma budget_name_inj i j : b_name (budget_of i) = b_name (budget_of j) -> i = j.
Proof. by destruct i, j. Qed.

Lemma fallback_set name name' f w :
  fallback_of name (set_fallbacks (<[name' := f]> (w_fallbacks w)) w) = if bool_decide (name' = name) then f else fallback_of name w.
Proof.
  unfold fallback_of. cbn. case_bool_decide; subst; [by rewrite lookup_insert_eq|by rewrite lookup_insert_ne].
Qed.
Lemma fallback_same name w w' : w_fallbacks w' = w_fallbacks w -> fallback_of name w' = fallback_of name w.
Proof. unfold fallback_of. by intros ->. Qed.

(** From [w] to [w'] the table is the same and only the limiter [name] changed, into [f]. *)
Record lim_step (name : bytes) (f : limiter) (w w' : world) : Prop := {
  ls_clock : w_clock w <= w_clock w';
  ls_db : w_db w' = w_db w;
  ls_tokens : w_tokens w' = w_tokens w;
  ls_replicas : w_replicas w' = w_replicas w;
  ls_self : fallback_of name w' = f;
  ls_other : forall name', name' <> name -> fallback_of name' w' = fallback_of name' w }.

Lemma lim_step_refl name w : lim_step name (fallback_of name w) w w.
Proof. by constructor. Qed.
Lemma lim_step_trans name f f' w w' w'' : lim_step name f w w' -> lim_step name f' w' w'' -> lim_step name f' w w''.
Proof. intros [? ? ? ? ? ?] [? ? ? ? ? Ho]. constructor; [lia|congruence|congruence|congruence|done|]. intros. rewrite Ho; auto. Qed.
Lemma dbi_lim name f w w' : lim_step name f w w' -> dbi w -> dbi w'.
Proof. intros [_ ? ? _ _] ?. by apply (dbi_same w). Qed.
Lemma lim_step_same name w w' : mem_same w w' -> w_db w' = w_db w -> w_tokens w' = w_tokens w ->
  lim_step name (fallback_of name w) w w'.
Proof. intros [? E _ ?] ? ?. constructor; try done; [by apply fallback_same|]. intros. by apply fallback_same. Qed.

Lemma on_fallback_step {A} b (G : limiter -> A * limiter) w :
  lim_step (b_name b) (snd (G (fallback_of (b_name b) w))) w (snd (on_fallback b G w)) /\
  fst (on_fallback b G w) = fst (G (fallback_of (b_name b) w)) /\ w_clock (snd (on_fallback b G w)) = w_clock w.
Proof.
  unfold on_fallback. destruct (G _) as [a f]. cbn. split; [|done]. constructor; cbn; try done.
  - rewrite fallback_set. by rewrite bool_decide_true.
  - intros name' Hne. rewrite fallback_set. by rewrite bool_decide_false.
Qed.

Lemma now_step name w : lim_step name (fallback_of name w) w (snd (now w)) /\ fst (now w) = w_clock (snd (now w)) /\ w_clock w <= fst (now w).
Proof.
  pose proof (now_spec w) as H. destruct (now w) as [t w']. destruct H as (?&?&?&?&?). cbn.
  split_and!; [by apply lim_step_same|done|done].
Qed.
Lemma note_step b o key name w : lim_step name (fallback_of name w) w (snd (noteAuthBudgetFallback b o key w)).
Proof. by unfold noteAuthBudgetFallback, bind; cbn; constructor; cbn; [lia|..]. Qed.

Lemma limited_step b key w : exists t f, w_clock w <= t <= w_clock (snd (budgetLimited b key w)) /\
  lim_step (b_name b) f w (snd (budgetLimited b key w)) /\
  let f1 := snd (count key (t - b_window b) false (fallback_of (b_name b) w)) in
  f = f1 \/ f = snd (count key (t - b_window b) true f1).
Proof.
  unfold budgetLimited, budgetLimitedDecision, bind.
  destruct (now_step (b_name b) w) as (H1&Et&Hle). destruct (now w) as [t w1]. cbn [fst snd] in *.
  destruct (on_fallback_step b (count key (t - b_window b) false) w1) as (H2&_&Ec).
  destruct (on_fallback b _ w1) as [mem w2]. cbn [fst snd] in *. rewrite (ls_self _ _ _ _ H1) in H2.
  pose proof (lim_step_trans _ _ _ _ _ _ H1 H2) as H12. cbn [fallbackLimit].
  destruct (_ <=? mem); [exists t; eexists; cbn; split_and!; [done|lia|exact H12|by left]|].
  unfold CountRecentLoginAttempts, query, next_fault. cbn -[count on_fallback noteAuthBudgetFallback].
  set (w3 := mkWorld (w_clock w2) _ _ _ _ _ _ _ _).
  assert (lim_step (b_name b) (snd (count key (t - b_window b) false (fallback_of (b_name b) w))) w w3) as H3.
  { eapply lim_step_trans; [exact H12|]. rewrite <- (ls_self _ _ _ _ H2). by constructor; cbn. }
  assert (w_clock w3 = w_clock w2) as E3 by done.
  destruct (default Runs (head (w_faults w2))); cbn -[count on_fallback noteAuthBudgetFallback w3].
  1: exists t; eexists; split_and!; [done|lia|exact H3|by left].
  all: pose proof (note_step b (go "check") key (b_name b) w3) as H4; destruct (noteAuthBudgetFallback _ _ _ w3) as [u w4];
    destruct (on_fallback_step b (count key (t - b_window b) true) w4) as (H5&_&Ec'); destruct (on_fallback b _ w4) as [all w5];
    cbn [fst snd] in *; pose proof (ls_clock _ _ _ _ H4); pose proof (ls_clock _ _ _ _ H5);
    rewrite (ls_self _ _ _ _ H4), (ls_self _ _ _ _ H3) in H5;
    unfold ret; cbn [fst snd fallbackLimit]; exists t; eexists; (split_and!; [done|lia| |by right]); eauto using lim_step_trans.
Qed.

Lemma limit_replicas b w w' : w_replicas w' = w_replicas w -> fst (fallbackLimit b w) = fst (fallbackLimit b w').
Proof. unfold fallbackLimit. by intros ->. Qed.

(** What a check that answers "not limited" has seen. *)
Lemma limited_false b key w : fst (budgetLimited b key w) = false ->
  let t := fst (now w) in
  let f := fallback_of (b_name b) w in
  let mem := count key (t - b_window b) false f in
  match default Runs (head (w_faults w)) with
  | Runs => Z.of_nat (length (List.filter (recent (b_prefix b ++ key) (t - b_window b)) (d_attempts (w_db w)))) + fst mem < b_limit b
  | _ => fst (count key (t - b_window b) true (snd mem)) < fst (fallbackLimit b w)
  end.
Proof.
  unfold budgetLimited, budgetLimitedDecision, bind.
  destruct (now_step (b_name b) w) as (H1&Et&Hle). assert (w_faults (snd (now w)) = w_faults w) as Ef by done.
  destruct (now w) as [t w1]. cbn [fst snd] in *.
  destruct (on_fallback_step b (count key (t - b_window b) false) w1) as (H2&Em&_).
  assert (w_faults (snd (on_fallback b (count key (t - b_window b) false) w1)) = w_faults w) as Ef'.
  { rewrite <- Ef. unfold on_fallback. by destruct (count _ _ _ _). }
  destruct (on_fallback b _ w1) as [mem w2]. cbn [fst snd] in *. rewrite (ls_self _ _ _ _ H1) in H2, Em.
  pose proof (lim_step_trans _ _ _ _ _ _ H1 H2) as H12. rewrite (limit_replicas b w w2) by apply H12.
  rewrite <- Em. destruct (fallbackLimit b w2) as [lim w2'] eqn:El. pose proof (f_equal snd El) as Ew. cbn in Ew. subst w2'.
  cbn beta iota zeta. destruct (Z.leb_spec lim mem); [done|]. unfold CountRecentLoginAttempts, query, next_fault. rewrite Ef'.
  destruct (default Runs (head (w_faults w))); cbn -[count on_fallback noteAuthBudgetFallback fallbackLimit].
  { rewrite (ls_db _ _ _ _ H12). intros E. by breflect. }
  all: set (w3 := mkWorld (w_clock w2) _ _ _ _ _ _ _ _).
  all: pose proof (note_step b (go "check") key (b_name b) w3) as H4; destruct (noteAuthBudgetFallback _ _ _ w3) as [u w4];
    destruct (on_fallback_step b (count key (t - b_window b) true) w4) as (H5&Ea&_); destruct (on_fallback b _ w4) as [all w5];
    cbn [fst snd] in *; rewrite (ls_self _ _ _ _ H4) in Ea, H5;
    change (fallback_of (b_name b) w3) with (fallback_of (b_name b) w2) in Ea, H5; rewrite (ls_self _ _ _ _ H2) in Ea, H5;
    pose proof (limit_replicas b w2 w5 ltac:(etrans; [apply H5|apply H4])) as El'; rewrite El in El';
    destruct (fallbackLimit b w5) as [lim' w5']; cbn [fst ret] in *; rewrite <- Ea; intros E; breflect; lia.
Qed.

(** ** Attempts: [budgetRecord] and [budgetReserve] differ in what they hand out *)

Definition budgetAttempt (sid : Z -> Z) (o : bytes) (b : authBudget) (key : bytes) : M Z :=
  let! r := budgetWriteKeyed b key in
  match r with
  | Err _ =>
      let! _ := noteAuthBudgetFallback b o key in
      let! t := now in
      on_fallback b (reserve key t (b_window b) (4 * b_limit b))
  | Ok id => let! _ := budgetMirrorIfDegraded b key (sid id) in ret id
  end.

Lemma reserve_attempt b key w : budgetReserve b key w = budgetAttempt id (go "reserve") b key w.
Proof. done. Qed.
Lemma record_attempt b key w : snd (budgetRecord b key w) = snd (budgetAttempt (fun _ => 0) (go "record") b key w).
Proof.
  unfold budgetRecord, budgetAttempt, budgetRecordFallback, bind. destruct (budgetWriteKeyed b key w) as [[id|e] w1].
  - by destruct (budgetMirrorIfDegraded b key 0 w1).
  - destruct (noteAuthBudgetFallback _ _ _ w1) as [u w2]. destruct (now w2) as [t w3]. by destruct (on_fallback _ _ w3).
Qed.

(** The three ways an attempt is counted. *)
Inductive how (b : authBudget) (key : bytes) (sid : Z -> Z) (w w' : world) (h : Z) : bool -> limiter -> Prop :=
| HowStored : wrote (b_prefix b ++ key) w w' -> h = d_seq (w_db w) + 1 -> how b key sid w w' h false (fallback_of (b_name b) w)
| HowMirrored t : wrote (b_prefix b ++ key) w w' -> h = d_seq (w_db w) + 1 -> w_clock w <= t <= w_clock w' ->
    how b key sid w w' h true (mirror key t (b_window b) (4 * b_limit b) (sid h) (fallback_of (b_name b) w))
| HowMemory t : w_db w' = w_db w \/ wrote (b_prefix b ++ key) w w' -> w_clock w <= t <= w_clock w' ->
    h = fst (reserve key t (b_window b) (4 * b_limit b) (fallback_of (b_name b) w)) ->
    how b key sid w w' h true (snd (reserve key t (b_window b) (4 * b_limit b) (fallback_of (b_name b) w))).

Lemma wrote_later ip w w' w'' : wrote ip w w' -> w_clock w' <= w_clock w'' -> w_db w'' = w_db w' -> wrote ip w w''.
Proof. intros (t&tok&?&?) ? ?. exists t, tok. split; [lia|congruence]. Qed.

Lemma attempt_effect sid o i key w : dbi w ->
  let '(h, w') := budgetAttempt sid o (budget_of i) key w in
  dbi w' /\ w_clock w <= w_clock w' /\
  (forall name, name <> b_name (budget_of i) -> fallback_of name w' = fallback_of name w) /\
  how (budget_of i) key sid w w' h (goes_to_memory i key w) (fallback_of (b_name (budget_of i)) w').
Proof.
  intros Hi. set (b := budget_of i). unfold budgetAttempt, goes_to_memory, bind. fold b.
  pose proof (write_keyed b key w Hi) as Hw. destruct (budgetWriteKeyed b key w) as [r w1].
  destruct Hw as (Hsame&Hdb1&Hwr&Hok). destruct r as [id|e].
  - destruct (Hok id eq_refl) as [Hwrote ->]. unfold budgetMirrorIfDegraded, bind.
    assert (lim_step (b_name b) (fallback_of (b_name b) w1) w1 (snd (budgetDegraded b w1))) as H2 by apply now_step.
    destruct (budgetDegraded b w1) as [d w2]. cbn [fst snd] in *.
    assert (forall name, fallback_of name w1 = fallback_of name w) as E1 by (intros; by apply fallback_same, Hsame).
    pose proof (ms_clock _ _ Hsame) as Hc1. pose proof (ls_clock _ _ _ _ H2) as Hc2. destruct d; cbn [ret].
    + destruct (now_step (b_name b) w2) as (H3&Et&Hle). destruct (now w2) as [t w3]. cbn [fst snd] in *.
      unfold on_fallback_. destruct (on_fallback_step b (fun f => ((), mirror key t (b_window b) (4 * b_limit b) (sid (d_seq (w_db w) + 1)) f)) w3) as (H4&_&Ec).
      destruct (on_fallback b _ w3) as [u w4]. cbn [fst snd ret] in *.
      pose proof (lim_step_trans _ _ _ _ _ _ H2 (lim_step_trans _ _ _ _ _ _ H3 H4)) as H24.
      rewrite (ls_self _ _ _ _ H24), (ls_self _ _ _ _ H3), (ls_self _ _ _ _ H2), E1. split_and!.
      * exact (dbi_lim _ _ _ _ H24 Hdb1).
      * pose proof (ls_clock _ _ _ _ H24). lia.
      * intros name Hne. rewrite (ls_other _ _ _ _ H24), E1 by done. done.
      * apply HowMirrored; [|done|lia]. eapply wrote_later; [done|apply H24|apply H24].
    + rewrite (ls_self _ _ _ _ H2), E1. split_and!.
      * exact (dbi_lim _ _ _ _ H2 Hdb1).
      * lia.
      * intros name Hne. rewrite (ls_other _ _ _ _ H2), E1 by done. done.
      * apply HowStored; [|done]. eapply wrote_later; [done|apply H2|apply H2].
  - pose proof (note_step b o key (b_name b) w1) as H2. destruct (noteAuthBudgetFallback b o key w1) as [u w2]. cbn [fst snd] in *.
    assert (forall name, fallback_of name w1 = fallback_of name w) as E1 by (intros; by apply fallback_same, Hsame).
    pose proof (ms_clock _ _ Hsame) as Hc1. pose proof (ls_clock _ _ _ _ H2) as Hc2.
    destruct (now_step (b_name b) w2) as (H3&Et&Hle). destruct (now w2) as [t w3]. cbn [fst snd] in *.
    destruct (on_fallback_step b (reserve key t (b_window b) (4 * b_limit b)) w3) as (H4&Ev&Ec).
    destruct (on_fallback b _ w3) as [h w4]. cbn [fst snd] in *.
    pose proof (lim_step_trans _ _ _ _ _ _ H2 (lim_step_trans _ _ _ _ _ _ H3 H4)) as H24.
    rewrite (ls_self _ _ _ _ H24). rewrite (ls_self _ _ _ _ H3), (ls_self _ _ _ _ H2), E1 in Ev |- *. split_and!.
    + exact (dbi_lim _ _ _ _ H24 Hdb1).
    + pose proof (ls_clock _ _ _ _ H24). lia.
    + intros name Hne. rewrite (ls_other _ _ _ _ H24), E1 by done. done.
    + apply HowMemory; [|lia|done]. destruct Hwr as [Hwr|Hwr]; [left; rewrite <- Hwr; apply H24|right].
      eapply wrote_later; [done|apply H24|apply H24].
Qed.

(** * The invariant *)

Definition lim_ok (n : Z) (f : limiter) : Prop := exists s, models f s /\ f_maxKeys f = authFallbackMaxKeys /\ f_nextID f <= n.

Lemma models_next f s : models f s -> 0 <= f_nextID f.
Proof. intros (T&[_ Hi _]&_). apply (ix_next _ _ Hi). Qed.

Definition stored (ga : gatt) : bool := negb (is_fallback_id (ga_handle ga)).

(** The row of a stored attempt, unless it is too old to count. *)
Definition has_row (ip : bytes) (w : world) (ga : gatt) : Prop :=
  ga_start ga < w_clock w - LoginWindow \/
  exists r, r ∈ d_attempts (w_db w) /\ la_ID r = ga_handle ga /\ la_IP r = ip /\ ga_start ga <= la_AttemptedAt r.

Record inv (i : budget_id) (k : bytes) (n : Z) (w : world) (g : ghost) : Prop := {
  iv_db : dbi w;
  iv_seq : d_seq (w_db w) < 2 ^ 62 + n;
  iv_lims : forall name, lim_ok n (fallback_of name w);
  iv_mem : mem_ok i k (fallback_of (b_name (budget_of i)) w) (w_clock w) g;
  iv_rows : forall ga, ga ∈ g_att g -> stored ga = true -> ga_handle ga ∉ g_released g ->
    has_row (b_prefix (budget_of i) ++ k) w ga;
  iv_handles : NoDup (map ga_handle (List.filter stored (g_att g)));
  iv_known : forall ga, ga ∈ g_att g -> stored ga = true -> ga_handle ga <= d_seq (w_db w);
  iv_kinds : forall ga, ga ∈ g_att g -> stored ga = false -> ga_mem ga = true;
  iv_slots : forall id, id ∈ g_slots g -> is_fallback_id id = true -> issued (fallback_of (b_name loginBudget) w) id }.

Lemma has_row_mono ip w w' ga : has_row ip w ga -> w_clock w <= w_clock w' ->
  (forall r, r ∈ d_attempts (w_db w) -> r ∈ d_attempts (w_db w')) -> has_row ip w' ga.
Proof. intros [?|(r&?&?)] Hc Hr; [left; lia|]. right. exists r. auto. Qed.

Lemma wrote_rows ip w w' : w_db w' = w_db w \/ wrote ip w w' ->
  (forall r, r ∈ d_attempts (w_db w) -> r ∈ d_attempts (w_db w')) /\ d_seq (w_db w) <= d_seq (w_db w') <= d_seq (w_db w) + 1.
Proof.
  intros [->|(t&tok&?&->)]; [by split; [|lia]|]. cbn. split; [|lia]. intros r Hr. apply elem_of_app. by left.
Qed.
Lemma wrote_row ip w w' start : wrote ip w w' -> start <= w_clock w ->
  exists r, r ∈ d_attempts (w_db w') /\ la_ID r = d_seq (w_db w) + 1 /\ la_IP r = ip /\ start <= la_AttemptedAt r.
Proof.
  intros (t&tok&?&->) ?. exists (mkRow (d_seq (w_db w) + 1) ip t (Some tok)). cbn.
  rewrite elem_of_app, list_elem_of_singleton. split_and!; try done; [by right|lia].
Qed.

(** The limiter after an attempt. *)
Lemma how_lim n i key sid w w' h mem f : how (budget_of i) key sid w w' h mem f ->
  lim_ok n (fallback_of (b_name (budget_of i)) w) -> n + 1 < 2 ^ 62 ->
  lim_ok (n + 1) f /\ f_nextID (fallback_of (b_name (budget_of i)) w) <= f_nextID f /\
  (is_fallback_id h = true -> 0 <= d_seq (w_db w) < 2 ^ 63 - 1 -> issued f h /\ f_nextID f = f_nextID (fallback_of (b_name (budget_of i)) w) + 1 /\ h = id_of (f_nextID f)).
Proof.
  intros Hh (s&Hs&Hk&Hn) Hlt. pose proof (models_next _ _ Hs) as H0.
  assert (forall d, 0 <= d < 2 ^ 63 - 1 -> is_fallback_id (d + 1) = true -> False) as Hst.
  { intros d ?. rewrite is_fallback_stored by lia. done. }
  assert (1 <= f_maxKeys (fallback_of (b_name (budget_of i)) w))%nat as Hk1 by (rewrite Hk; unfold authFallbackMaxKeys; lia).
  destruct Hh as [_ ->|t _ -> _|t _ _ ->].
  - split_and!; [exists s; split_and!; [done|done|lia]|done|intros; by exfalso; eapply Hst].
  - destruct (mirror_models _ s key t (b_window (budget_of i)) (4 * b_limit (budget_of i)) (sid (d_seq (w_db w) + 1)) Hs Hk1 ltac:(lia)) as [[Ek En] Hm].
    split_and!; [eexists; split_and!; [exact Hm|congruence|lia]|lia|intros; by exfalso; eapply Hst].
  - pose proof (reserve_models _ s key t (b_window (budget_of i)) (4 * b_limit (budget_of i)) Hs Hk1 ltac:(lia)) as Hr.
    destruct (reserve _ _ _ _ _) as [h f]. destruct Hr as (->&[Ek En]&Hm). cbn.
    split_and!; [eexists; split_and!; [exact Hm|congruence|lia]|lia|]. intros _ _. rewrite En. unfold next_attempt. cbn.
    split_and!; try done. exists (f_nextID (fallback_of (b_name (budget_of i)) w) + 1). split; [lia|done].
Qed.

(** A stored attempt has its row; the handle of another is the memory's. *)
Lemma how_kind n i key sid w w' h mem f : how (budget_of i) key sid w w' h mem f ->
  lim_ok n (fallback_of (b_name (budget_of i)) w) -> n + 1 < 2 ^ 62 -> 0 <= d_seq (w_db w) < 2 ^ 63 - 1 ->
  (is_fallback_id h = false -> h = d_seq (w_db w) + 1 /\ wrote (b_prefix (budget_of i) ++ key) w w') /\
  (is_fallback_id h = true -> mem = true).
Proof.
  intros Hh (s&Hs&Hk&Hn) Hlt Hq. pose proof (models_next _ _ Hs) as H0. destruct Hh as [Hw ->|t Hw -> _|t Hw _ ->]; [|done|].
  - split; [done|]. rewrite is_fallback_stored by lia. done.
  - split; [|done].
    pose proof (reserve_models _ s key t (b_window (budget_of i)) (4 * b_limit (budget_of i)) Hs ltac:(rewrite Hk; unfold authFallbackMaxKeys; lia) ltac:(lia)) as Hr.
    destruct (reserve _ _ _ _ _). destruct Hr as (->&_). cbn. rewrite is_fallback_id_of by lia. done.
Qed.

Section Attempt.
Context {i : budget_id} {n : Z} {w w' : world} {sid : Z -> Z} {h : Z} {mem : bool} {f : limiter}.
Context (Hlim : lim_ok n (fallback_of (b_name (budget_of i)) w)) (Hn : n + 1 < 2 ^ 62)
  (Hseq : 0 <= d_seq (w_db w) < 2 ^ 62 + n) (Hc : w_clock w <= w_clock w').

Let f0 := fallback_of (b_name (budget_of i)) w.

Lemma lim_bounds : 0 <= f_nextID f0 /\ f_nextID f0 + 1 < 2 ^ 63 /\ f_maxKeys f0 = authFallbackMaxKeys /\ (1 <= f_maxKeys f0)%nat.
Proof.
  destruct Hlim as (s&Hs&Hk&?). fold f0 in Hs, Hk, H. pose proof (models_next _ _ Hs).
  split_and!; [lia|lia|done|]. rewrite Hk. unfold authFallbackMaxKeys. lia.
Qed.

Lemma mem_attempt_self k g : how (budget_of i) k sid w w' h mem f -> mem_ok i k f0 (w_clock w) g -> sid h = 0 \/ sid h = h ->
  (i = Login -> is_fallback_id h = false -> id_of (f_nextID f0 + 1) ∉ g_slots g) ->
  mem_ok i k f (w_clock w') (mkGhost (g_att g ++ [mkG h (w_clock w) (w_clock w') mem]) (g_released g)
    (if mem then ∅ else g_others g) (g_most g) (g_slots g)).
Proof.
  intros Hh Hm Hsid Hslots. destruct lim_bounds as (H0&H1&Hk&Hk1). inversion Hh; subst; clear Hh.
  - destruct (mem_time Hm (w_clock w') Hc) as (s&A&L&Ht&HF&HL). exists s, A, L. cbn. rewrite List.filter_app. cbn.
    by rewrite app_nil_r.
  - set (a := mkAttempt (id_of (f_nextID f0 + 1)) t true (sid (d_seq (w_db w) + 1))).
    apply (mem_time (t := t)); [|lia]. change t with (a_at a) at 2.
    apply (mem_add_self Hm) with (rest := s_rest (f_maxKeys f0) k); try done; [cbn; lia|..].
    + destruct Hlim as (s&Hs&_). by destruct (mirror_models _ s k t (b_window (budget_of i)) (4 * b_limit (budget_of i)) (sid (d_seq (w_db w) + 1)) Hs Hk1 H1) as [[_ En] _].
    + intros L' HL'. split; [cbn; lia|]. cbn [ga_handle]. rewrite is_fallback_stored by lia. cbn. eauto.
    + intros El _. apply Hslots; [done|]. apply is_fallback_stored. lia.
    + intros s Hs. by destruct (mirror_models _ s k t (b_window (budget_of i)) (4 * b_limit (budget_of i)) (sid (d_seq (w_db w) + 1)) Hs Hk1 H1) as [_ Hmod].
  - set (a := next_attempt f0 t). apply (mem_time (t := t)); [|lia]. change t with (a_at a) at 2.
    assert (forall s, models f0 s -> _) as Hr by exact (fun s Hs => reserve_models f0 s k t (b_window (budget_of i)) (4 * b_limit (budget_of i)) Hs Hk1 H1).
    fold f0. destruct (reserve _ _ _ _ f0) as [h' f'].
    assert (h' = a_id a /\ f_nextID f' = f_nextID f0 + 1) as [-> En].
    { destruct Hlim as (s&Hs&_). by destruct (Hr s Hs) as (->&[_ ?]&_). }
    apply (mem_add_self Hm) with (rest := s_rest (f_maxKeys f0) k); try done; [cbn; lia|..].
    + intros L' HL'. split; [cbn; lia|]. cbn [ga_handle a next_attempt a_id fst]. rewrite is_fallback_id_of by lia. done.
    + intros s Hs. by destruct (Hr s Hs) as (_&_&?).
Qed.

Lemma mem_attempt_other k key g : how (budget_of i) key sid w w' h mem f -> key <> k -> mem_ok i k f0 (w_clock w) g ->
  (mem = true -> (size (g_others g ∪ {[key]}) < authFallbackMaxKeys)%nat) ->
  mem_ok i k f (w_clock w') (if mem then mkGhost (g_att g) (g_released g) (g_others g ∪ {[key]})
    (Nat.max (g_most g) (size (g_others g ∪ {[key]}))) (g_slots g) else g).
Proof.
  intros Hh Hne Hm Hsz. destruct lim_bounds as (H0&H1&Hk&Hk1). inversion Hh; subst; clear Hh.
  - by apply (mem_time Hm).
  - eapply (mem_add_other Hm) with (l' := fun s => s_add _ _ (s_prune _ (s_get key s))); [done|lia|by rewrite Hk; auto| |].
    + destruct Hlim as (s&Hs&_). destruct (mirror_models _ s key t (b_window (budget_of i)) (4 * b_limit (budget_of i)) (sid (d_seq (w_db w) + 1)) Hs Hk1 H1) as [[_ En] _]. fold f0 in En |- *. lia.
    + intros s Hs. by destruct (mirror_models _ s key t (b_window (budget_of i)) (4 * b_limit (budget_of i)) (sid (d_seq (w_db w) + 1)) Hs Hk1 H1) as [_ Hmod].
  - assert (forall s, models f0 s -> _) as Hr by exact (fun s Hs => reserve_models f0 s key t (b_window (budget_of i)) (4 * b_limit (budget_of i)) Hs Hk1 H1).
    fold f0. destruct (reserve _ _ _ _ f0) as [h' f'].
    eapply (mem_add_other Hm) with (l' := fun s => s_add _ _ (s_prune _ (s_get key s))); [done|lia|by rewrite Hk; auto| |].
    + destruct Hlim as (s&Hs&_). destruct (Hr s Hs) as (_&[_ En]&_). cbn. lia.
    + intros s Hs. by destruct (Hr s Hs) as (_&_&?).
Qed.

End Attempt.

Lemma attempt_fst sid o b key w : fst (budgetAttempt sid o b key w) = fst (budgetReserve b key w).
Proof.
  rewrite reserve_attempt. unfold budgetAttempt, bind. destruct (budgetWriteKeyed b key w) as [[id|e] w1].
  - unfold ret. by destruct (budgetMirrorIfDegraded b key (sid id) w1), (budgetMirrorIfDegraded b key _ w1).
  - unfold noteAuthBudgetFallback, bind. cbn -[reserve]. unfold on_fallback, fallback_of. cbn -[reserve].
    by destruct (reserve _ _ _ _ _).
Qed.

Lemma issued_mono f f' id : issued f id -> f_nextID f <= f_nextID f' -> issued f' id.
Proof. intros (m&?&->) ?. exists m. split; [lia|done]. Qed.

Lemma lim_ok_mono n n' f : lim_ok n f -> n <= n' -> lim_ok n' f.
Proof. intros (s&?&?&?) ?. exists s. split_and!; [done|done|lia]. Qed.

Lemma login_name : b_name (budget_of Login) = b_name loginBudget.
Proof. done. Qed.

Section Step.
Context {i : budget_id} {k : bytes} {n : Z} {w : world} {g : ghost}.
Context (Hinv : inv i k n w g) (Hn : n + 1 < 2 ^ 62).

(** A reservation of the login budget is handed out. *)
Lemma mem_new_slot i' h ids : ids = [] \/ i' = Login /\ ids = [h] ->
  (i' = Login -> is_fallback_id h = true -> exists f, f_nextID f = f_nextID (fallback_of (b_name loginBudget) w) + 1 /\ h = id_of (f_nextID f)) ->
  mem_ok i k (fallback_of (b_name (budget_of i)) w) (w_clock w) (note_slots ids g) /\
  (i = Login -> is_fallback_id h = false -> id_of (f_nextID (fallback_of (b_name (budget_of i)) w) + 1) ∉ g_slots (note_slots ids g)).
Proof.
  intros Hids Hh. destruct (iv_lims _ _ _ _ _ Hinv (b_name (budget_of i))) as (s0&Hs0&_&Hnx). pose proof (models_next _ _ Hs0) as H0.
  split.
  - destruct Hids as [->|[-> ->]]; [destruct (iv_mem _ _ _ _ _ Hinv) as (s&A&L&?&?&?); exists s, A, L; split_and!; try done; cbn; by rewrite app_nil_r|].
    apply (mem_slot (iv_mem _ _ _ _ _ Hinv)). intros -> s A L Ht a Ha _ _ E.
    destruct (tk_issued _ _ _ _ _ _ _ _ _ Ht a Ha) as (m&Hm&E'). change (budget_of Login) with loginBudget in *.
    destruct (is_fallback_id h) eqn:Ef.
    + destruct (Hh eq_refl eq_refl) as (f&En&Eh). rewrite E' in E. rewrite Eh, En in E. apply id_of_inj in E; lia.
    + rewrite <- E, E', is_fallback_id_of in Ef by lia. done.
  - intros -> Hf. cbn [g_slots note_slots]. change (budget_of Login) with loginBudget in *. intros [Hin|Hin]%elem_of_app.
    + destruct (iv_slots _ _ _ _ _ Hinv _ Hin) as (m&Hm&E); [apply is_fallback_id_of; lia|]. apply id_of_inj in E; lia.
    + destruct Hids as [->|[_ ->]]; [by apply elem_of_nil in Hin|]. apply list_elem_of_singleton in Hin.
      rewrite <- Hin, is_fallback_id_of in Hf; [done|]. lia.
Qed.

Lemma note_comm i' key w' ids : note_attempt i k i' key w w' (note_slots ids g) = note_slots ids (note_attempt i k i' key w w' g).
Proof. unfold note_attempt. repeat case_bool_decide; [done|by destruct (goes_to_memory _ _ _)|done]. Qed.

Lemma inv_attempt i' key sid o ids : (forall x, sid x = 0 \/ sid x = x) ->
  let '(h, w') := budgetAttempt sid o (budget_of i') key w in
  ids = [] \/ i' = Login /\ ids = [h] ->
  (g_most (note_attempt i k i' key w w' g) < authFallbackMaxKeys)%nat ->
  inv i k (n + 1) w' (note_slots ids (note_attempt i k i' key w w' g)).
Proof.
  intros Hsid. pose proof Hinv as [Hdb Hseq Hlims Hmem Hrows Hhs Hknown Hkinds Hslots].
  pose proof (attempt_effect sid o i' key w Hdb) as He. pose proof (attempt_fst sid o (budget_of i') key w) as Hfst.
  destruct (budgetAttempt sid o (budget_of i') key w) as [h w']. destruct He as (Hdb'&Hc&Hother&Hhow). cbn [fst] in Hfst.
  pose proof (db_seq _ Hdb) as Hs0. intros Hids Hmost.
  destruct (how_lim n i' key sid w w' h _ _ Hhow (Hlims _) Hn) as (Hlim'&Hnx&Hiss).
  pose proof (how_kind n i' key sid w w' h _ _ Hhow (Hlims _) ltac:(lia) ltac:(lia)) as Hkind.
  assert (w_db w' = w_db w \/ wrote (b_prefix (budget_of i') ++ key) w w') as Hwr by (inversion Hhow; eauto).
  destruct (wrote_rows _ _ _ Hwr) as [Hsub Hseq'].
  assert (forall name, lim_ok (n + 1) (fallback_of name w')) as Hl'.
  { intros name. destruct (decide (name = b_name (budget_of i'))) as [->|Hne]; [done|].
    rewrite Hother by done. apply lim_ok_mono with n; [done|lia]. }
  assert (forall id, id ∈ g_slots g ++ ids -> is_fallback_id id = true -> issued (fallback_of (b_name loginBudget) w') id) as Hsl'.
  { intros id [Hid|Hid]%elem_of_app Hf.
    - specialize (Hslots id Hid Hf). destruct (decide (i' = Login)) as [->|Hne]; [by eapply issued_mono|].
      rewrite Hother; [done|]. intros E. apply Hne. symmetry. by apply budget_name_inj.
    - destruct Hids as [->|[-> ->]]; [by apply elem_of_nil in Hid|]. apply list_elem_of_singleton in Hid as ->.
      apply Hiss; [done|lia]. }
  destruct (mem_new_slot i' h ids Hids) as [Hmem1 Hfresh]; [intros -> Hf; eexists; by apply (Hiss Hf ltac:(lia))|].
  change (g_most (note_attempt i k i' key w w' g)) with (g_most (note_slots ids (note_attempt i k i' key w w' g))) in Hmost.
  rewrite <- note_comm in Hmost |- *.
  assert (forall ga, ga ∈ g_att g -> stored ga = true -> ga_handle ga ∉ g_released g -> has_row (b_prefix (budget_of i) ++ k) w' ga) as Hrows'.
  { intros ga H1 H2 H3. by apply (has_row_mono _ w); [apply Hrows|..]. }
  assert (forall ga, ga ∈ g_att g -> stored ga = true -> ga_handle ga <= d_seq (w_db w')) as Hknown'.
  { intros ga H1 H2. specialize (Hknown ga H1 H2). lia. }
  unfold note_attempt in *. case_bool_decide as Hi'; [subst i'|].
  2: { constructor; try done; [lia|]. rewrite Hother by (intros E; apply Hi'; symmetry; by apply budget_name_inj). by apply (mem_time Hmem1). }
  case_bool_decide as Hk; [subst key|].
  - change (attempt_handle i k w) with (fst (budgetReserve (budget_of i) k w)) in *. rewrite <- Hfst in *.
    set (ga := mkG h (w_clock w) (w_clock w') (goes_to_memory i k w)).
    assert (stored ga = true -> h = d_seq (w_db w) + 1 /\ wrote (b_prefix (budget_of i) ++ k) w w') as Hga.
    { intros Hst. apply Hkind. unfold stored in Hst. by breflect. }
    assert (ga_start ga <= w_clock w) as Hst0 by (cbn; lia).
    constructor; cbn [g_att g_released g_slots].
    + done.
    + lia.
    + done.
    + exact (mem_attempt_self (Hlims _) Hn (conj Hs0 Hseq) Hc k _ Hhow Hmem1 (Hsid h) Hfresh).
    + intros x [Hx|Hx%list_elem_of_singleton]%elem_of_app Hst Hrel; [by apply Hrows'|]. subst x. right.
      destruct (Hga Hst) as [-> Hw]. by apply wrote_row.
    + rewrite List.filter_app, map_app. apply NoDup_app. split_and!; [done| |cbn [List.filter]; destruct (stored ga); [apply NoDup_singleton|constructor]].
      intros x (y&->&[Hy Hsy]%elem_of_filter_bool)%elem_of_map Hx. cbn [List.filter] in Hx.
      destruct (stored ga) eqn:Est; [|by apply elem_of_nil in Hx]. apply list_elem_of_singleton in Hx. cbn in Hx.
      destruct (Hga eq_refl) as [Eh _]. specialize (Hknown y Hy Hsy). lia.
    + intros x [Hx|Hx%list_elem_of_singleton]%elem_of_app Hst; [by apply Hknown'|]. subst x.
      destruct (Hga Hst) as [Eh (t&tok&_&->)]. cbn. lia.
    + intros x [Hx|Hx%list_elem_of_singleton]%elem_of_app Hst; [by apply Hkinds|]. subst x. apply Hkind. unfold stored in Hst. by breflect.
    + done.
  - assert (goes_to_memory i key w = true -> (size (g_others g ∪ {[key]}) < authFallbackMaxKeys)%nat) as Hsz.
    { intros Hg. rewrite Hg in Hmost. cbn in Hmost. lia. }
    pose proof (mem_attempt_other (Hlims _) Hn Hc k key _ Hhow Hk Hmem1 Hsz) as Hm'.
    destruct (goes_to_memory i key w); constructor; try done; lia.
Qed.

(** The other operations record no attempt. *)
Lemma inv_frame w' g' : dbi w' -> d_seq (w_db w) <= d_seq (w_db w') <= d_seq (w_db w) + 1 ->
  g_att g' = g_att g -> g_slots g' = g_slots g -> g_released g ⊆ g_released g' ->
  (forall name, lim_ok n (fallback_of name w') /\ f_nextID (fallback_of name w) <= f_nextID (fallback_of name w')) ->
  mem_ok i k (fallback_of (b_name (budget_of i)) w') (w_clock w') g' ->
  (forall ga, ga_handle ga ∉ g_released g' -> has_row (b_prefix (budget_of i) ++ k) w ga -> has_row (b_prefix (budget_of i) ++ k) w' ga) ->
  inv i k (n + 1) w' g'.
Proof.
  intros Hdb' Hseq' Ea Es Hr Hl Hm Hrow. pose proof Hinv as [Hdb Hseq Hlims Hmem Hrows Hhs Hknown Hkinds Hslots].
  constructor; rewrite ?Ea, ?Es; try done; [lia|..].
  - intros name. apply lim_ok_mono with n; [apply Hl|lia].
  - intros ga H1 H2 H3. apply Hrow; [done|]. apply Hrows; [done|done|]. set_solver.
  - intros ga H1 H2. specialize (Hknown ga H1 H2). lia.
  - intros id H1 H2. eapply issued_mono; [by apply Hslots|apply Hl].
Qed.

Lemma lims_step name f w' : lim_step name f w w' -> lim_ok n f -> f_nextID (fallback_of name w) <= f_nextID f ->
  forall name', lim_ok n (fallback_of name' w') /\ f_nextID (fallback_of name' w) <= f_nextID (fallback_of name' w').
Proof.
  intros Hs Hf Hx name'. destruct (decide (name' = name)) as [->|Hne].
  - by rewrite (ls_self _ _ _ _ Hs).
  - rewrite (ls_other _ _ _ _ Hs) by done. split; [apply Hinv|lia].
Qed.

(** A step of one limiter that keeps the table. *)
Lemma inv_lim_step name f w' g' : lim_step name f w w' -> lim_ok n f -> f_nextID (fallback_of name w) <= f_nextID f ->
  g_att g' = g_att g -> g_slots g' = g_slots g -> g_released g ⊆ g_released g' ->
  mem_ok i k (if bool_decide (name = b_name (budget_of i)) then f else fallback_of (b_name (budget_of i)) w) (w_clock w') g' ->
  inv i k (n + 1) w' g'.
Proof.
  intros Hs Hf Hx Ea Es Hr Hm. apply inv_frame; try done.
  - eapply dbi_lim; [exact Hs|apply Hinv].
  - rewrite (ls_db _ _ _ _ Hs). lia.
  - by eapply lims_step.
  - case_bool_decide as E; [subst; by rewrite (ls_self _ _ _ _ Hs)|]. by rewrite (ls_other _ _ _ _ Hs).
  - intros ga _ Hrow. apply (has_row_mono _ w); [done|apply Hs|by rewrite (ls_db _ _ _ _ Hs)].
Qed.

Lemma count_lim key since wm f : lim_ok n f -> lim_ok n (snd (count key since wm f)) /\ f_nextID (snd (count key since wm f)) = f_nextID f.
Proof.
  intros (s&Hs&?&?). pose proof (count_models f s key since wm Hs) as Hcm. destruct (count _ _ _ _) as [c f'].
  destruct Hcm as (_&[? ?]&?). cbn. split; [eexists; split_and!; [done|congruence|lia]|lia].
Qed.

Lemma inv_limited i' key : inv i k (n + 1) (snd (budgetLimited (budget_of i') key w)) g.
Proof.
  destruct (limited_step (budget_of i') key w) as (t&f&[Ht1 Ht2]&Hs&Hf).
  destruct (count_lim key (t - b_window (budget_of i')) false _ (iv_lims _ _ _ _ _ Hinv (b_name (budget_of i')))) as [L1 E1].
  destruct (count_lim key (t - b_window (budget_of i')) true _ L1) as [L2 E2].
  assert (lim_ok n f /\ f_nextID f = f_nextID (fallback_of (b_name (budget_of i')) w)) as [Lf Ef].
  { destruct Hf as [->| ->]; [done|]. split; [done|congruence]. }
  apply (inv_lim_step _ _ _ _ Hs Lf); [lia|done|done|done|]. case_bool_decide as E.
  - apply budget_name_inj in E as ->. apply (mem_time (t := t)); [|done]. pose proof (iv_mem _ _ _ _ _ Hinv) as Hm.
    destruct Hf as [->| ->].
    + by apply (mem_count Hm).
    + apply (mem_count (t := t)); [|lia]. by apply (mem_count Hm).
  - apply (mem_time (iv_mem _ _ _ _ _ Hinv)). lia.
Qed.

(** Rows are deleted: those that remain still count. *)
Lemma dbi_filter (P : LoginAttempt -> bool) w0 w' : dbi w0 -> w_db w' = set_attempts_db (List.filter P (d_attempts (w_db w0))) (w_db w0) ->
  w_tokens w' = w_tokens w0 -> dbi w'.
Proof.
  intros [H1 H2 H3 H4 H5 H6] E Et. constructor; rewrite ?E, ?Et; cbn; try done.
  - by apply NoDup_map_filter.
  - apply Forall_forall. intros r [Hr _]%elem_of_filter_bool. by eapply Forall_forall in H2.
  - intros r tok [Hr _]%elem_of_filter_bool. by apply H6.
Qed.

Lemma inv_delete (P : LoginAttempt -> bool) f w' g' : lim_ok n f -> f_nextID (fallback_of (b_name loginBudget) w) <= f_nextID f ->
  w_clock w <= w_clock w' -> w_tokens w' = w_tokens w ->
  w_db w' = w_db w \/ w_db w' = set_attempts_db (List.filter P (d_attempts (w_db w))) (w_db w) ->
  (forall name, fallback_of name w' = if bool_decide (name = b_name loginBudget) then f else fallback_of name w) ->
  g_att g' = g_att g -> g_slots g' = g_slots g -> g_released g ⊆ g_released g' ->
  mem_ok i k (if bool_decide (i = Login) then f else fallback_of (b_name (budget_of i)) w) (w_clock w') g' ->
  (forall r start, P r = false -> start <= la_AttemptedAt r -> la_ID r ∈ g_released g' \/ start < w_clock w' - LoginWindow) ->
  inv i k (n + 1) w' g'.
Proof.
  intros Lf Hnx Hc Ht Hd Hfb Ea Es Hr Hm HP. apply inv_frame; try done.
  - destruct Hd as [Hd|Hd]; [by apply (dbi_same w); [apply Hinv|..]|]. by apply (dbi_filter P w); [apply Hinv|..].
  - destruct Hd as [-> | ->]; cbn; lia.
  - intros name. rewrite Hfb. destruct (decide (name = b_name loginBudget)) as [->|?].
    + by rewrite bool_decide_true.
    + rewrite bool_decide_false by done. split; [apply Hinv|lia].
  - rewrite Hfb. destruct (decide (i = Login)) as [E|Hne].
    + subst. by rewrite bool_decide_true in Hm |- *.
    + rewrite bool_decide_false in Hm |- *; [done|done|]. intros E. by apply Hne, budget_name_inj.
  - intros ga Hga [?|(r&Hr1&Hid&Hip&Hat)]; [left; lia|]. destruct Hd as [Hd|Hd]; [right; exists r; by rewrite Hd|].
    destruct (P r) eqn:EP.
    + right. exists r. rewrite Hd. cbn. by rewrite elem_of_filter_bool.
    + left. destruct (HP r _ EP Hat) as [?|?]; [|lia]. congruence.
Qed.

Lemma stmt_spec write w0 : let '(r, w') := stmt write w0 in
  w_clock w' = w_clock w0 /\ w_tokens w' = w_tokens w0 /\ w_fallbacks w' = w_fallbacks w0 /\ w_replicas w' = w_replicas w0 /\
  (w_db w' = w_db w0 \/ w_db w' = write (w_db w0)) /\ (r = Ok () -> w_db w' = write (w_db w0)).
Proof. unfold stmt, next_fault. cbn. destruct (default Runs (head (w_faults w0))); cbn; split_and!; eauto; done. Qed.

Lemma release_lim id f : lim_ok n f -> lim_ok n (release id f) /\ f_nextID (release id f) = f_nextID f.
Proof. intros (s&Hs&?&?). destruct (release_models f s id Hs) as [[? ?] ?]. split; [eexists; split_and!; [done|congruence|lia]|lia]. Qed.
Lemma releaseMirror_lim sid f : lim_ok n f -> lim_ok n (releaseMirror sid f) /\ f_nextID (releaseMirror sid f) = f_nextID f.
Proof.
  intros (s&Hs&?&?). destruct (releaseMirror_models f s sid Hs) as [[? ?] [->|(k'&l&a&_&_&_&_&?)]].
  - split; [by exists s|lia].
  - split; [eexists; split_and!; [done|congruence|lia]|lia].
Qed.

Lemma on_login_fallback {A} (G : limiter -> A * limiter) w0 name :
  fallback_of name (snd (on_fallback loginBudget G w0)) =
  if bool_decide (name = b_name loginBudget) then snd (G (fallback_of (b_name loginBudget) w0)) else fallback_of name w0.
Proof.
  destruct (on_fallback_step loginBudget G w0) as [Hs _]. case_bool_decide as E; [subst; apply Hs|by apply Hs].
Qed.

Lemma not_this_id id r : negb (la_ID r =? id) = false -> la_ID r = id.
Proof. intros. by breflect. Qed.

Lemma inv_release id : id ∈ g_slots g -> inv i k (n + 1) (snd (ReleaseLoginAttempt id w)) (note_release id g).
Proof.
  intros Hid. pose proof (iv_lims _ _ _ _ _ Hinv (b_name loginBudget)) as Hl. pose proof (iv_mem _ _ _ _ _ Hinv) as Hm.
  unfold ReleaseLoginAttempt. destruct (is_fallback_id id) eqn:Ef.
  - unfold budgetReleaseFallback, on_fallback_. destruct (release_lim id _ Hl) as [Lf Ef'].
    destruct (on_fallback_step loginBudget (fun f => ((), release id f)) w) as (Hs&_&Ec).
    apply (inv_lim_step _ _ _ _ Hs Lf); cbn [note_release g_att g_slots g_released snd]; try done; [lia|set_solver|].
    rewrite Ec. case_bool_decide as E.
    + change loginBudget with (budget_of Login) in E. apply budget_name_inj in E as <-. by apply (mem_release Hm).
    + by apply mem_forget.
  - unfold budgetReleaseStored, ReleaseLoginAttempt_store, bind. pose proof (stmt_spec (delete_attempt id) w) as Hst.
    destruct (stmt _ w) as [r w1]. destruct Hst as (Hc&Ht&Hf&_&Hd&Hok).
    assert (forall r start, negb (la_ID r =? id) = false -> start <= la_AttemptedAt r ->
      la_ID r ∈ g_released (note_release id g) \/ start < w_clock w1 - LoginWindow) as HP.
    { intros x start ->%not_this_id _. left. cbn. set_solver. }
    destruct r as [[]|e]; cbn [ret snd].
    + unfold on_fallback_. pose proof (on_login_fallback (fun f => ((), releaseMirror id f)) w1) as Hfb.
      destruct (on_fallback_step loginBudget (fun f => ((), releaseMirror id f)) w1) as (Hs&_&Ec).
      destruct (on_fallback _ _ w1) as [u w2]. cbn [snd ret] in *. destruct (releaseMirror_lim id _ Hl) as [Lf Ef'].
      rewrite (fallback_same _ _ _ Hf) in Hfb, Hs.
      apply (inv_delete (fun r => negb (la_ID r =? id)) (releaseMirror id (fallback_of (b_name loginBudget) w))); try done.
      * lia.
      * lia.
      * by rewrite (ls_tokens _ _ _ _ Hs).
      * right. rewrite (ls_db _ _ _ _ Hs). auto.
      * intros name. rewrite Hfb. case_bool_decide; [done|]. by apply fallback_same.
      * cbn. set_solver.
      * rewrite Ec, Hc. case_bool_decide as E; [|by apply mem_forget]. subst. by apply mem_releaseMirror.
      * by rewrite Ec.
    + apply (inv_delete (fun r => negb (la_ID r =? id)) (fallback_of (b_name loginBudget) w)); try done.
      * lia.
      * intros name. rewrite (fallback_same _ _ _ Hf). case_bool_decide; congruence.
      * cbn. set_solver.
      * rewrite Hc. case_bool_decide as E; [subst|]; by apply mem_forget.
Qed.

Lemma inv_prune before : inv i k (n + 1) (snd (PruneLoginAttempts before w)) g.
Proof.
  pose proof (iv_mem _ _ _ _ _ Hinv) as Hm. unfold PruneLoginAttempts, bind.
  pose proof (now_spec w) as Hnow. destruct (now w) as [t w1]. destruct Hnow as (Ht&Hc1&Hs1&Hd1&Htk1).
  set (cutoff := match before with Some z => if z <? t - LoginWindow then z else t - LoginWindow | None => t - LoginWindow end).
  assert (cutoff <= t - LoginWindow) as Hcut by (unfold cutoff; destruct before; [destruct (_ <? _) eqn:E; breflect|]; lia).
  unfold PruneLoginAttempts_store.
  set (write := fun d : db => set_attempts_db (List.filter (fun r => negb (la_AttemptedAt r <? cutoff)) (d_attempts d)) d).
  pose proof (stmt_spec write w1) as Hst. destruct (stmt write w1) as [r w2]. destruct Hst as (Hc2&Ht2&Hf2&_&Hd2&_). cbn [snd].
  assert (forall name, fallback_of name w2 = fallback_of name w) as Hfb.
  { intros name. apply fallback_same. rewrite Hf2. apply Hs1. }
  apply (inv_delete (fun r => negb (la_AttemptedAt r <? cutoff)) (fallback_of (b_name loginBudget) w)); try done.
  - apply Hinv.
  - lia.
  - congruence.
  - rewrite Hd1 in Hd2. done.
  - intros name. rewrite Hfb. case_bool_decide; congruence.
  - replace (if bool_decide (i = Login) then _ else _) with (fallback_of (b_name (budget_of i)) w) by (case_bool_decide; by subst).
    apply (mem_time Hm). lia.
  - intros x start Hx Hst. breflect. right. lia.
Qed.

Lemma inv_remote_insert ip t : inv i k (n + 1) (set_db (insert_attempt ip t None (w_db w)) w) g.
Proof.
  apply inv_frame; cbn; try done.
  - apply (dbi_insert w _ ip t None); cbn; try done; apply Hinv.
  - lia.
  - intros name. split; [apply (iv_lims _ _ _ _ _ Hinv name)|]. unfold fallback_of. cbn. lia.
  - apply (iv_mem _ _ _ _ _ Hinv).
  - intros ga _ Hrow. apply (has_row_mono _ w); cbn; [done|lia|]. intros r Hr. apply elem_of_app. by left.
Qed.

Lemma inv_remote_release id : inv i k (n + 1) (set_db (delete_attempt id (w_db w)) w) (note_release id g).
Proof.
  apply (inv_delete (fun r => negb (la_ID r =? id)) (fallback_of (b_name loginBudget) w)); cbn -[fallback_of b_name loginBudget]; try done.
  - apply Hinv.
  - by right.
  - intros name. case_bool_decide; [by subst|done].
  - set_solver.
  - replace (if bool_decide (i = Login) then _ else _) with (fallback_of (b_name (budget_of i)) w) by (case_bool_decide; by subst).
    apply mem_forget, (iv_mem _ _ _ _ _ Hinv).
  - intros r start ->%not_this_id _. left. set_solver.
Qed.

Lemma inv_next : inv i k (n + 1) w g.
Proof.
  pose proof Hinv as [Hdb Hseq Hlims Hmem Hrows Hhs Hknown Hkinds Hslots]. constructor; try done; [lia|].
  intros name. apply lim_ok_mono with n; [done|lia].
Qed.

(** Every operation keeps the invariant. *)
Lemma inv_step o : (g_most (ghost_step i k o w g) < authFallbackMaxKeys)%nat ->
  inv i k (n + 1) (exec (g_slots g) o w) (ghost_step i k o w g).
Proof.
  intros Hmost. destruct o as [i' key|i' key|key|j|before|ip t|id]; cbn [exec ghost_step] in *.
  - apply inv_limited.
  - pose proof (inv_attempt i' key (fun _ => 0) (go "record") [] ltac:(by left)) as H. rewrite record_attempt in *.
    destruct (budgetAttempt _ _ _ _ _) as [h w']. cbn [snd] in *. specialize (H ltac:(by left) Hmost).
    unfold note_slots in H. rewrite app_nil_r in H. by destruct (note_attempt i k i' key w w' g).
  - change loginBudget with (budget_of Login) in *.
    pose proof (inv_attempt Login key id (go "reserve") [attempt_handle Login key w] ltac:(by right)) as H.
    unfold attempt_handle in *. pose proof (reserve_attempt (budget_of Login) key w) as E. rewrite E in Hmost |- *.
    destruct (budgetAttempt _ _ _ _ _) as [h w']. rewrite E in H. cbn [fst snd] in *. apply H; [by right|]. done.
  - destruct (g_slots g !! j) as [id|] eqn:E; [|apply inv_next]. apply inv_release. by eapply list_elem_of_lookup_2.
  - apply inv_prune.
  - apply inv_remote_insert.
  - apply inv_remote_release.
Qed.

End Step.

(** * Runs *)

Lemma started_inv i k w : started w -> inv i k 0 w ghost0.
Proof.
  intros [Hf Hl H1 H2 H3 H4 H5 H6].
  assert (forall name, fallback_of name w = newAuthFallbackLimiter authFallbackMaxKeys) as Hfb.
  { intros name. unfold fallback_of. by rewrite Hf, lookup_empty. }
  constructor; cbn; try done; try (intros; set_solver); try lia.
  - constructor; try done. lia.
  - intros name. rewrite Hfb. exists []. split_and!; [apply models_new|done|done].
  - rewrite Hfb. exists [], [], ∅. split; [|split; [constructor|intros; set_solver]].
    constructor; try done; [apply models_new|..]; intros; try set_solver. constructor.
  - constructor.
Qed.

Lemma most_mono i k o w g : (g_most g <= g_most (ghost_step i k o w g))%nat.
Proof.
  destruct o; cbn; try done; unfold note_attempt; repeat case_bool_decide; repeat case_match; cbn; lia.
Qed.
Lemma run_most i k ops w g : (g_most g <= g_most (snd (run i k ops w g)))%nat.
Proof. revert w g. induction ops as [|o ops IH]; intros w g; [done|]. cbn. etrans; [apply (most_mono i k o w)|apply IH]. Qed.

Lemma run_inv i k ops n w g : inv i k n w g -> n + Z.of_nat (length ops) < 2 ^ 62 ->
  (g_most (snd (run i k ops w g)) < authFallbackMaxKeys)%nat ->
  inv i k (n + Z.of_nat (length ops)) (fst (run i k ops w g)) (snd (run i k ops w g)).
Proof.
  revert n w g. induction ops as [|o ops IH]; intros n w g Hi Hn Hm; cbn [run length] in *; [by rewrite Z.add_0_r|].
  replace (n + Z.of_nat (S (length ops))) with ((n + 1) + Z.of_nat (length ops)) by lia. apply IH; [|lia|done].
  apply (inv_step Hi); [lia|]. eapply Nat.le_lt_trans; [apply run_most|exact Hm].
Qed.

(** * Counting *)

Lemma Forall2_filter_le {A B} (R : A -> B -> Prop) (P : A -> bool) (Q : B -> bool) l m :
  Forall2 R l m -> (forall x y, R x y -> P x = true -> Q y = true) -> (length (List.filter P l) <= length (List.filter Q m))%nat.
Proof.
  intros HF HR. induction HF as [|x y l m Hxy _ IH]; [done|]. cbn.
  destruct (P x) eqn:Ep; [rewrite (HR x y) by done; cbn; lia|]. destruct (Q y); cbn; lia.
Qed.

(** Distinct attempts with a row each: no more than the rows. *)
Lemma stored_counted {A B} (h : A -> Z) (id : B -> Z) (l : list A) (rows : list B) :
  NoDup (map h l) -> (forall x, x ∈ l -> exists r, r ∈ rows /\ id r = h x) -> (length l <= length rows)%nat.
Proof.
  intros Hn Hr. rewrite <- (length_map h l), <- (length_map id rows). apply submseteq_length, NoDup_submseteq; [done|].
  intros x (y&->&Hy)%elem_of_map. destruct (Hr y Hy) as (r&?&<-). apply elem_of_map. eauto.
Qed.

Lemma filter_split_length {A} (p : A -> bool) l :
  length l = (length (List.filter p l) + length (List.filter (fun x => negb (p x)) l))%nat.
Proof. induction l as [|x l IH]; [done|]. cbn. destruct (p x); cbn; lia. Qed.

Section Count.
Context {i : budget_id} {k : bytes} {n : Z} {w : world} {g : ghost} (Hinv : inv i k n w g).
Let t := fst (now w).
Let since := t - b_window (budget_of i).

Lemma window_login : b_window (budget_of i) = LoginWindow.
Proof. by destruct i. Qed.

Lemma live_stored : (length (List.filter stored (live_since since g)) <=
  length (List.filter (recent (b_prefix (budget_of i) ++ k) since) (d_attempts (w_db w))))%nat.
Proof.
  apply (stored_counted ga_handle la_ID).
  - unfold live_since. rewrite filter_filter_and.
    rewrite (filter_ext_bool _ (fun a => stored a && ((since <? ga_start a) && bool_decide (ga_handle a ∉ g_released g)))) by (intros; by rewrite Bool.andb_comm).
    rewrite <- filter_filter_and. apply NoDup_map_filter, Hinv.
  - intros ga [[Hga Hl]%elem_of_filter_bool Hst]%elem_of_filter_bool. breflect.
    destruct (iv_rows _ _ _ _ _ Hinv ga Hga Hst) as [Hold|(r&Hr&Hid&Hip&Hat)]; [done| |].
    + pose proof window_login. assert (w_clock w <= t) by (unfold t; cbn; lia). unfold since in *. lia.
    + exists r. split; [|done]. rewrite elem_of_filter_bool. split; [done|]. unfold recent. rewrite bool_decide_true by done. cbn. apply Z.ltb_lt. lia.
Qed.

Lemma live_memory wm : Z.of_nat (length (memory_since since g)) <= 4 * b_limit (budget_of i) ->
  Z.of_nat (length (List.filter (fun a => ga_mem a && (wm || negb (stored a))) (live_since since g))) <=
  fst (count k since wm (fallback_of (b_name (budget_of i)) w)).
Proof.
  intros Hcap. destruct (iv_mem _ _ _ _ _ Hinv) as (s&A&L&Ht&HF&_).
  assert (w_clock w <= t) as Hle by (unfold t; cbn; lia).
  pose proof (count_models (fallback_of (b_name (budget_of i)) w) s k since wm (tk_models _ _ _ _ _ _ _ _ _ Ht)) as Hc.
  destruct (count _ _ _ _) as [c f']. destruct Hc as (->&_&_). cbn [fst].
  etrans; [|apply (tracked_counts Ht t wm Hle)].
  - apply Nat2Z.inj_le.
    replace (List.filter _ (live_since since g)) with
      (List.filter (fun a => (since <? ga_start a) && bool_decide (ga_handle a ∉ g_released g) && (wm || negb (stored a))) (List.filter ga_mem (g_att g))).
    + apply (Forall2_filter_le _ _ _ _ _ HF). intros x y (Hat&Hkind&HL) Hp. breflect.
      rewrite !Bool.andb_true_iff, Z.ltb_lt, bool_decide_eq_true. fold since. split; [split; [auto|]|lia].
      unfold counted, stored in *. destruct wm; [done|]. cbn in *. breflect.
      destruct (is_fallback_id (ga_handle x)); [|done]. by destruct Hkind as (_&->&_).
    + unfold live_since. rewrite !filter_filter_and. apply filter_ext_bool. intros x.
      destruct (ga_mem x), (_ <? _), (bool_decide _); cbn; try done; by rewrite ?Bool.andb_false_r.
  - etrans; [|exact Hcap]. apply Nat2Z.inj_le. unfold memory_since. rewrite <- filter_filter_and.
    fold since. apply (Forall2_filter_le (flip (att_rel (g_released g) L)) _ _ _ _ (proj2 (Forall2_flip _ _ _) HF)).
    intros y x (Hat&_) Hp. breflect. apply Z.leb_le. lia.
Qed.

End Count.

(** Reading the window twice reads it once. *)
Lemma count_twice n k since wm f : lim_ok n f -> fst (count k since true (snd (count k since wm f))) = fst (count k since true f).
Proof.
  intros (s&Hs&_). pose proof (count_models f s k since wm Hs) as H1. pose proof (count_models f s k since true Hs) as H2.
  destruct (count k since wm f) as [c1 f1], (count k since true f) as [c2 f2]. destruct H1 as (_&_&H1), H2 as (->&_&_). cbn [fst snd].
  pose proof (count_models f1 _ k since true H1) as H3. destruct (count k since true f1) as [c3 f3]. destruct H3 as (->&_&_). cbn [fst].
  rewrite s_get_set_eq. unfold s_get. destruct (s_find k s) as [l|]; [|done]. change (default [] (Some l)) with l.
  replace (s_prune since (s_prune since l)) with (s_prune since l); [done|].
  unfold s_prune. rewrite filter_filter_and. apply filter_ext_bool. intros x. by destruct (before since x).
Qed.

(** C11. Within the bounds of its memory no authentication budget fails open.  From a
    fresh process, after any sequence of fewer than 2^62 checks, attempts,
    releases and sweeps of the three table-backed budgets, every statement
    running, failing or losing its acknowledgement, and with rows added and
    released by other replicas, a check that answers "not limited" for a key has
    seen fewer than the limit of that key's attempts inside the window that were
    not handed back when its count could be read, and otherwise fewer than the
    fallback limit of those that went to the memory.  Provided that fewer than
    10000 other keys were used since the key was last used, and that no more than
    four times the limit of the key's attempts inside the window went to the
    memory: beyond either bound attempts are evicted, and a key with failures up
    to the limit can be admitted ([mirrored_displace_counted]). *)
Theorem budget_never_fails_open (i : budget_id) (k : bytes) (ops : list op) (w0 : world) :
  started w0 -> Z.of_nat (length ops) < 2 ^ 62 ->
  let '(w, g) := run i k ops w0 ghost0 in
  let b := budget_of i in
  let since := fst (now w) - b_window b in
  (g_most g < authFallbackMaxKeys)%nat ->
  Z.of_nat (length (memory_since since g)) <= 4 * b_limit b ->
  fst (budgetLimited b k w) = false ->
  match default Runs (head (w_faults w)) with
  | Runs => Z.of_nat (length (live_since since g)) < b_limit b
  | _ => Z.of_nat (length (List.filter ga_mem (live_since since g))) < fst (fallbackLimit b w)
  end.
Proof.
  intros H0 Hn. pose proof (run_inv i k ops 0 w0 ghost0 (started_inv i k w0 H0) Hn) as Hrun.
  destruct (run i k ops w0 ghost0) as [w g]. intros b since Hm Hcap Hf%limited_false. specialize (Hrun Hm). cbn [fst snd] in Hrun.
  pose proof (live_memory Hrun false Hcap) as Hmem. pose proof (live_memory Hrun true Hcap) as Hall.
  pose proof (live_stored Hrun) as Hst. pose proof (iv_lims _ _ _ _ _ Hrun (b_name b)) as Hlim. set (n' := 0 + _) in Hlim.
  fold b since in Hmem, Hall, Hst, Hf.
  destruct (default Runs (head (w_faults w))).
  - rewrite (filter_split_length stored).
    replace (List.filter (fun a => negb (stored a)) (live_since since g)) with
      (List.filter (fun a => ga_mem a && (false || negb (stored a))) (live_since since g)); [lia|].
    apply List.filter_ext_in. intros ga Hga%list_elem_of_In. apply elem_of_filter_bool in Hga as [Hga _]. cbn.
    destruct (stored ga) eqn:E; [by rewrite Bool.andb_false_r|]. by rewrite (iv_kinds _ _ _ _ _ Hrun ga Hga E).
  - rewrite (count_twice n') in Hf by exact Hlim. rewrite (filter_ext_bool _ (fun a => ga_mem a && (true || negb (stored a)))) by (intros; by rewrite Bool.andb_true_r). lia.
  - rewrite (count_twice n') in Hf by exact Hlim. rewrite (filter_ext_bool _ (fun a => ga_mem a && (true || negb (stored a)))) by (intros; by rewrite Bool.andb_true_r). lia.
Qed.

(** An outage: one stored attempt, one whose two writes fail and which the memory
    counts, one written while the budget is degraded and mirrored, and the first
    handed back. *)
Definition ex_ip : bytes := go "192.0.2.7".
Definition ex_world : world :=
  mkWorld 1000 [1; 2; 3]%N [Runs; Runs; Runs; Fails; Fails] [Some (go "k1"); Some (go "k2"); Some (go "k3")]
    (mkDb [mkRow 1 ex_ip 500 None] 1 ∅) ∅ ∅ 1 [].
Definition ex_ops : list op :=
  [OLimited Login (go "198.51.100.1"); OReserve ex_ip; OReserve ex_ip; ORecord Login ex_ip; ORelease 0; ORemoteInsert ex_ip 1001; OPrune None].

Lemma ex_started : started ex_world.
Proof.
  constructor; cbn; try done; try lia.
  - by apply NoDup_singleton.
  - repeat constructor; cbn; lia.
  - vm_decide.
  - vm_decide.
  - by intros r tok ->%list_elem_of_singleton.
Qed.

Lemma budget_never_fails_open_witness :
  Z.of_nat (length (live_since (fst (now (fst (run Login ex_ip ex_ops ex_world ghost0))) - LoginWindow)
    (snd (run Login ex_ip ex_ops ex_world ghost0)))) < 10.
Proof.
  pose proof (budget_never_fails_open Login ex_ip ex_ops ex_world ex_started ltac:(vm_decide)) as H.
  rewrite (surjective_pairing (run Login ex_ip ex_ops ex_world ghost0)) in H. cbv beta iota zeta in H.
  specialize (H ltac:(vm_decide) ltac:(vm_decide)).
  assert (default Runs (head (w_faults (fst (run Login ex_ip ex_ops ex_world ghost0)))) = Runs) as E by (vm_compute; reflexivity).
  rewrite E in H. apply H. vm_compute. reflexivity.
Defined.

(** The bound on what went to the memory matters.  The limiter drops the oldest
    attempts beyond four times the limit whether or not they are mirrored: ten
    attempts the memory alone counts, then forty stored ones while degraded, then
    those forty handed back, and a check admits the key again although ten
    attempts inside the window were never handed back. *)
Definition displaced_world : world :=
  mkWorld 1000 [] (replicate 20 Fails) (map (fun j => Some [bZ (Z.of_nat j + 1)]) (seq 0 50)) (mkDb [] 0 ∅) ∅ ∅ 1 [].
Definition displaced_ops : list op := replicate 50 (OReserve ex_ip) ++ map ORelease (seq 10 40).
Lemma mirrored_displace_counted :
  let '(w, g) := run Login ex_ip displaced_ops displaced_world ghost0 in
  fst (budgetLimited loginBudget ex_ip w) = false /\
  length (live_since (fst (now w) - LoginWindow) g) = 10%nat /\ LoginMaxAttempts = 10.
Proof. vm_compute. split_and!; reflexivity. Qed.
