(* ===== verification/LoginLockout.v ===== *)
(** Per-account login lockout (src/internal/core/login_lockout.go; the user row of
    src/internal/storage/store/local_users.go).

    The failures of an account are counted on its user row, in a transaction over
    the locked row, and in the account_lockout limiter of this process when that
    transaction fails (AuthBudget.v).  A login path checks the lock before the
    credential and again, under the same serialization, before it mints a session;
    the counter is cleared only when a login is delivered or an administrator
    unlocks the account. *)
From Stdlib Require Import ZArith Lia.
From stdpp Require Import base numbers tactics sets list gmap.
From S2P Require Import Prelude GoStr AuthLimiter AuthBudget.

Record LoginLockoutPolicy := mkPolicy {
  p_Enabled : bool; p_MaxAttempts : Z; p_Window : Z; p_BaseCooldown : Z; p_MaxCooldown : Z }.

Definition accountBudget (p : LoginLockoutPolicy) : authBudget :=
  mkBudget (b_name accountLockoutBudget) (b_prefix accountLockoutBudget) (p_MaxAttempts p) (p_Window p)
    (b_fallbackDivisor accountLockoutBudget).
Definition accountBudgetKey (userID : Z) : bytes := FormatUint userID.

(** * Cooldowns *)

(** [for i := 1; i < lockoutCount && cd < MaxCooldown; i++ { cd *= 2 }]. *)
Fixpoint double_cooldown (rounds : nat) (maxCooldown cd : Z) : Z :=
  match rounds with
  | O => cd
  | S rounds => if cd <? maxCooldown then double_cooldown rounds maxCooldown (s64 (cd * 2)) else cd
  end.
Definition cooldownFor (p : LoginLockoutPolicy) (lockoutCount : Z) : Z :=
  let cd := double_cooldown (Z.to_nat (lockoutCount - 1)) (p_MaxCooldown p) (p_BaseCooldown p) in
  if p_MaxCooldown p <? cd then p_MaxCooldown p else cd.

(** * The user row *)

Definition set_users (m : gmap Z user) (d : db) : db := mkDb (d_attempts d) (d_seq d) m.
Definition get_user (uid : Z) (d : db) : res storage_err user :=
  match d_users d !! uid with Some u => Ok u | None => Err ErrNotFound end.
Definition put_user (uid : Z) (u : user) (d : db) : db :=
  if bool_decide (is_Some (d_users d !! uid)) then set_users (<[uid := u]> (d_users d)) d else d.

Definition LockUserForUpdate (uid : Z) : M (res storage_err user) := query (get_user uid).

(** A transaction that reads the locked row, then may write it: a failing statement
    rolls it back, and the commit can be lost like any statement.  The second
    result is what the closure came to, before the commit. *)
Definition with_user_tx {A} (uid : Z) (body : user -> M (A * option user)) : M (res storage_err A * option A) :=
  let! r := LockUserForUpdate uid in
  match r with
  | Err e => ret (Err e, None)
  | Ok u =>
      let! x := body u in
      match x with
      | (a, None) =>
          let! c := stmt (fun d => d) in
          match c with Ok _ => ret (Ok a, Some a) | Err e => ret (Err e, Some a) end
      | (a, Some u') =>
          let! f := next_fault in
          match f with
          | Runs =>
              let! c := stmt (put_user uid u') in
              match c with Ok _ => ret (Ok a, Some a) | Err e => ret (Err e, Some a) end
          | _ => ret (Err ErrStorage, None)
          end
      end
  end.

(** UpdateLoginLockoutState outside a transaction: an error when no row was updated. *)
Definition UpdateLoginLockoutState (uid : Z) (u : user) : M (res storage_err ()) := fun w =>
  let known := bool_decide (is_Some (d_users (w_db w) !! uid)) in
  let '(r, w) := stmt (put_user uid u) w in
  (match r with Ok _ => if known then Ok () else Err ErrNotFound | Err e => Err e end, w).

Definition cleared_user : user := mkUser 0 None None 0.

(** * Checks *)

Definition locked_at (t : Z) (u : user) : bool :=
  match u_LoginLockedUntil u with Some until => t <? until | None => false end.

(** [c.now()] is read only when there is a last failure. *)
Definition storedFailures (p : LoginLockoutPolicy) (u : user) : M Z :=
  match u_LastFailedLoginAt u with
  | Some l => let! t := now in ret (if time_sub t l <=? p_Window p then u_FailedLoginAttempts u else 0)
  | None => ret 0
  end.
Definition accountFailuresSpent (p : LoginLockoutPolicy) (uid : Z) (u : user) : M bool :=
  let! stored := storedFailures p u in
  budgetFallbackLimitedWithStored (accountBudget p) (accountBudgetKey uid) stored.

(** The clock is read only when a lock is stored. *)
Definition stored_lock (u : user) : M bool :=
  match u_LoginLockedUntil u with Some until => let! t := now in ret (t <? until) | None => ret false end.

Definition loginLocked (p : LoginLockoutPolicy) (uid : Z) (u : user) : M bool :=
  if negb (p_Enabled p) then ret false else
  let! l := stored_lock u in
  if l then ret true else accountFailuresSpent p uid u.

(** * A failure *)

Inductive counted_as := Unchanged | Counted | Tripped (until count : Z).

(** The row after a failure at [t]: nothing inside an active lock, else one more
    failure, after a restart when the last one is stale, and a lock at the limit. *)
Definition failed_update (p : LoginLockoutPolicy) (t : Z) (u : user) : counted_as * option user :=
  if locked_at t u then (Unchanged, None) else
  let attempts := match u_LastFailedLoginAt u with
    | Some l => if p_Window p <? time_sub t l then 0 else u_FailedLoginAttempts u
    | None => u_FailedLoginAttempts u end in
  let attempts := attempts + 1 in
  if p_MaxAttempts p <=? attempts then
    let count := u_LoginLockoutCount u + 1 in
    let until := t + cooldownFor p count in
    (Tripped until count, Some (mkUser 0 (Some t) (Some until) count))
  else (Counted, Some (mkUser attempts (Some t) (u_LoginLockedUntil u) (u_LoginLockoutCount u))).

Definition fail_tx (p : LoginLockoutPolicy) (uid t : Z) : M (res storage_err (counted_as * option user) * option (counted_as * option user)) :=
  with_user_tx uid (fun u => ret (failed_update p t u, snd (failed_update p t u))).

(** [snap] is the caller's struct; the closure copies the row it wrote onto it. *)
Definition recordFailedLogin (p : LoginLockoutPolicy) (uid : Z) (snap : user) : M user :=
  if negb (p_Enabled p) then ret snap else
  let! t := now in
  let! r := fail_tx p uid t in
  let snap := match snd r with Some (_, Some u) => u | _ => snap end in
  match fst r with
  | Err _ => let! _ := budgetRecordFallback (accountBudget p) (accountBudgetKey uid) in ret snap
  | Ok (Tripped until count, _) => let! _ := emit (EventAccountLocked uid until count) in ret snap
  | Ok _ => ret snap
  end.

(** * The check before a session is minted *)

Inductive login_err := ErrLocked | ErrRecheckUnavailable | ErrLoginPostVerdict.

Inductive recheck := Passed | Spent | StoredLock (u : user).

Definition copy_lock (u snap : user) : user :=
  mkUser (u_FailedLoginAttempts snap) (u_LastFailedLoginAt snap) (u_LoginLockedUntil u) (u_LoginLockoutCount u).

(** The closure copies the lock it found onto the caller's struct, commit or not. *)
Definition recheck_body (p : LoginLockoutPolicy) (uid : Z) (u : user) : M (recheck * option user) :=
  let! l := stored_lock u in
  if l then ret (StoredLock u, None) else
  let! spent := accountFailuresSpent p uid u in
  ret (if spent then Spent else Passed, None).

Definition recheckLoginLockFailClosed (p : LoginLockoutPolicy) (uid : Z) (snap : user) : M (user * option login_err) :=
  if negb (p_Enabled p) then ret (snap, None) else
  let! r := with_user_tx uid (recheck_body p uid) in
  let snap := match snd r with Some (StoredLock u) => copy_lock u snap | _ => snap end in
  match fst r with
  | Err _ => ret (snap, Some ErrRecheckUnavailable)
  | Ok Passed => ret (snap, None)
  | Ok _ => ret (snap, Some ErrLocked)
  end.

Definition recheckLockAfterCredentialMatched (p : LoginLockoutPolicy) (uid : Z) (snap : user) (counted : bool) : M (user * option login_err) :=
  let! r := recheckLoginLockFailClosed p uid snap in
  match r with
  | (snap, Some ErrRecheckUnavailable) =>
      let! snap := (if counted then recordFailedLogin p uid snap else ret snap) in
      ret (snap, Some ErrLoginPostVerdict)
  | _ => ret r
  end.

(** * Completion *)

(** What the caller's struct shows as clear is not written. *)
Definition clearLoginFailures (p : LoginLockoutPolicy) (uid : Z) (snap : user) : M user :=
  let! _ := budgetFallbackClear (accountBudget p) (accountBudgetKey uid) in
  if (u_FailedLoginAttempts snap =? 0) && is_none (u_LoginLockedUntil snap) && (u_LoginLockoutCount snap =? 0) then ret snap
  else
  let! r := UpdateLoginLockoutState uid cleared_user in
  match r with Ok _ => ret cleared_user | Err _ => ret snap end.

Record LoginCompletion := mkCompletion { lc_uid : Z; lc_user : user; lc_done : bool; lc_countsFailures : bool; lc_heldSlots : list Z }.

Definition newLoginCompletion (uid : Z) (u : user) : LoginCompletion := mkCompletion uid u false true [].
Definition newLoginCompletionNotCounted (uid : Z) (u : user) : LoginCompletion := mkCompletion uid u false false [].
Definition holdLoginSlots (ids : list (option Z)) (lc : LoginCompletion) : LoginCompletion :=
  mkCompletion (lc_uid lc) (lc_user lc) (lc_done lc) (lc_countsFailures lc)
    (lc_heldSlots lc ++ List.filter (fun id => negb (id =? 0)) (omap id ids)).
Definition set_done (u : user) (lc : LoginCompletion) : LoginCompletion :=
  mkCompletion (lc_uid lc) u true (lc_countsFailures lc) (lc_heldSlots lc).

Fixpoint release_all (ids : list Z) : M () :=
  match ids with [] => ret () | id :: ids => let! _ := ReleaseLoginAttempt id in release_all ids end.

(** A nil completion, or one already settled, does nothing. *)
Definition Succeeded (p : LoginLockoutPolicy) (lc : option LoginCompletion) : M (option LoginCompletion) :=
  match lc with
  | None => ret None
  | Some lc =>
      if lc_done lc then ret (Some lc) else
      let! u := clearLoginFailures p (lc_uid lc) (lc_user lc) in
      let! _ := release_all (lc_heldSlots lc) in
      ret (Some (set_done u lc))
  end.

Definition Failed (p : LoginLockoutPolicy) (lc : option LoginCompletion) : M (option LoginCompletion) :=
  match lc with
  | None => ret None
  | Some lc =>
      if lc_done lc then ret (Some lc) else
      let! u := (if lc_countsFailures lc then recordFailedLogin p (lc_uid lc) (lc_user lc) else ret (lc_user lc)) in
      ret (Some (set_done u lc))
  end.

Definition RecordPostVerdictLoginFailure (p : LoginLockoutPolicy) (u : option (Z * user)) : M () :=
  match u with Some (uid, snap) => let! _ := recordFailedLogin p uid snap in ret () | None => ret () end.

Inductive unlock_err := ErrUserIDRequired | ErrUserNotFound | ErrUnlockFailed.

(** The clear and its audit row commit together, the audit row last. *)
Definition UnlockUser (p : LoginLockoutPolicy) (adminID uid : Z) : M (res unlock_err ()) :=
  if uid =? 0 then ret (Err ErrUserIDRequired) else
  let! r := query (get_user uid) in
  match r with
  | Err _ => ret (Err ErrUserNotFound)
  | Ok _ =>
      let! f1 := next_fault in
      let! f2 := (match f1 with Runs => next_fault | _ => ret Fails end) in
      let! f3 := (match f2 with Runs => next_fault | _ => ret Fails end) in
      match f3 with
      | Fails => ret (Err ErrUnlockFailed)
      | _ =>
          let! _ := (fun w => ((), set_db (put_user uid cleared_user (w_db w)) w)) in
          let! _ := emit (EventAccountUnlocked uid adminID) in
          match f3 with
          | Runs => let! _ := budgetFallbackClear (accountBudget p) (accountBudgetKey uid) in ret (Ok ())
          | _ => ret (Err ErrUnlockFailed)
          end
      end
  end.
