(* ===== verification/LockoutSafe.v ===== *)
(** A session is never minted for an account whose failures are spent
    (src/internal/core/login_lockout.go).

    Failures, checks, delivered logins and administrator unlocks of any accounts
    run in any order from a fresh process, with any outcome of every statement,
    while other replicas count and clear failures on the shared user rows.  The
    history of one account keeps its failures since they were last cleared or a
    lock was set for them; when the check before a session passes, the account is
    not inside a stored lock and fewer than MaxAttempts of these failures are
    inside the window, those the database counted and those it could not write
    together. *)
From Stdlib Require Import ZArith Lia.
From stdpp Require Import base numbers tactics sets list gmap.
From S2P Require Import Prelude GoStr AuthLimiter AuthLimiterTrack AuthBudget AuthBudgetSafe LoginLockout.

(** * Cooldowns *)

Lemma double_cooldown_spec rounds maxC cd : 0 < cd -> maxC <= 2 ^ 62 ->
  Z.min maxC (double_cooldown rounds maxC cd) = Z.min maxC (cd * 2 ^ Z.of_nat rounds).
Proof.
  intros Hcd Hmax. revert cd Hcd. induction rounds as [|r IH]; intros cd Hcd; cbn [double_cooldown].
  - by rewrite Z.mul_1_r.
  - replace (2 ^ Z.of_nat (S r)) with (2 * 2 ^ Z.of_nat r) by (rewrite Nat2Z.inj_succ, Z.pow_succ_r by lia; done).
    assert (0 < 2 ^ Z.of_nat r) by (apply Z.pow_pos_nonneg; lia).
    destruct (Z.ltb_spec cd maxC); [|nia]. rewrite s64_id by (red; lia). rewrite IH by lia. f_equal. lia.
Qed.

(** The lock of the n-th lockout lasts BaseCooldown doubled n-1 times, and no longer
    than MaxCooldown, without overflowing on the way. *)
Theorem cooldownFor_exact (p : LoginLockoutPolicy) (n : Z) :
  1 <= n -> 0 < p_BaseCooldown p -> p_MaxCooldown p <= 2 ^ 62 ->
  cooldownFor p n = Z.min (p_MaxCooldown p) (p_BaseCooldown p * 2 ^ (n - 1)).
Proof.
  intros Hn Hb Hm. unfold cooldownFor. pose proof (double_cooldown_spec (Z.to_nat (n - 1)) _ _ Hb Hm) as H.
  rewrite Z2Nat.id in H by lia. rewrite <- H. destruct (Z.ltb_spec (p_MaxCooldown p) (double_cooldown (Z.to_nat (n - 1)) (p_MaxCooldown p) (p_BaseCooldown p))); lia.
Qed.

Lemma cooldownFor_exact_witness : cooldownFor (mkPolicy true 5 (15 * minute) minute (60 * minute)) 4 = 8 * minute.
Proof. rewrite cooldownFor_exact; vm_compute; done. Defined.

(** The bound on MaxCooldown matters: beyond it the doubling overflows and the
    cooldown of a repeated lockout is zero. *)
Lemma cooldown_overflows : cooldownFor (mkPolicy true 5 minute (2 ^ 61) (2 ^ 63 - 1)) 5 = 0.
Proof. vm_compute. reflexivity. Qed.

(** * Traces *)

#[export] Instance user_eq_decision : EqDecision user.
Proof. solve_decision. Defined.

Inductive lop :=
| LFail (uid : Z) (snap : user)
| LCheck (uid : Z) (snap : user)
| LRecheck (uid : Z) (snap : user)
| LClear (uid : Z) (snap : user)
| LUnlock (admin uid : Z)
| LRemoteFail (uid : Z)
| LRemoteClear (uid : Z).

Definition lop_uid (o : lop) : Z :=
  match o with
  | LFail uid _ | LCheck uid _ | LRecheck uid _ | LClear uid _ | LUnlock _ uid | LRemoteFail uid | LRemoteClear uid => uid
  end.

Section Policy.
Context (p : LoginLockoutPolicy).

(** Another replica counts a failure on the shared row. *)
Definition remote_fail (uid : Z) : M counted_as :=
  let! t := now in
  fun w => match d_users (w_db w) !! uid with
    | Some u =>
        match failed_update p t u with
        | (c, Some u') => (c, set_db (put_user uid u' (w_db w)) w)
        | (c, None) => (c, w)
        end
    | None => (Unchanged, w)
    end.

Definition lexec (o : lop) (w : world) : world :=
  match o with
  | LFail uid snap => snd (recordFailedLogin p uid snap w)
  | LCheck uid snap => snd (loginLocked p uid snap w)
  | LRecheck uid snap => snd (recheckLoginLockFailClosed p uid snap w)
  | LClear uid snap => snd (clearLoginFailures p uid snap w)
  | LUnlock admin uid => snd (UnlockUser p admin uid w)
  | LRemoteFail uid => snd (remote_fail uid w)
  | LRemoteClear uid => set_db (put_user uid cleared_user (w_db w)) w
  end.

(** ** The failures of one account since they were cleared or locked for *)

Record lfail := mkF { lf_at : Z; lf_mem : bool }.
Record lghost := mkL { l_fails : list lfail; l_others : gset bytes; l_most : nat }.
Definition lghost0 : lghost := mkL [] ∅ 0.

Definition fail_result (uid : Z) (w : world) : res storage_err (counted_as * option user) :=
  let '(t, w) := now w in fst (fst (fail_tx p uid t w)).
Definition lockout_count (uid : Z) (w : world) : option Z := u_LoginLockoutCount <$> d_users (w_db w) !! uid.

(** A new lock was stored: it gates what was counted so far. *)
Definition fails_after (uid : Z) (w w' : world) (l : list lfail) : list lfail :=
  if bool_decide (lockout_count uid w' = lockout_count uid w) then l else [].

Definition lghost_step (uid : Z) (o : lop) (w : world) (g : lghost) : lghost :=
  let w' := lexec o w in
  let t := fst (now w) in
  let l := fails_after uid w w' (l_fails g) in
  match o with
  | LFail u _ =>
      match fail_result u w with
      | Err _ =>
          if bool_decide (u = uid) then mkL (l ++ [mkF t true]) ∅ (l_most g)
          else let others := l_others g ∪ {[accountBudgetKey u]} in mkL (l_fails g) others (Nat.max (l_most g) (size others))
      | Ok (Counted, _) => if bool_decide (u = uid) then mkL (l ++ [mkF t false]) (l_others g) (l_most g) else g
      | Ok _ => if bool_decide (u = uid) then mkL l (l_others g) (l_most g) else g
      end
  | LRemoteFail u =>
      match fst (remote_fail u w) with
      | Counted => if bool_decide (u = uid) then mkL (l ++ [mkF t false]) (l_others g) (l_most g) else g
      | _ => if bool_decide (u = uid) then mkL l (l_others g) (l_most g) else g
      end
  | LUnlock admin u =>
      if bool_decide (u = uid) && (res_ok (fst (UnlockUser p admin u w)) || negb (bool_decide (d_users (w_db w') !! uid = d_users (w_db w) !! uid)))
      then mkL [] (l_others g) (l_most g) else g
  | LClear u _ | LRemoteClear u => if bool_decide (u = uid) then mkL [] (l_others g) (l_most g) else g
  | LCheck _ _ | LRecheck _ _ => g
  end.

Fixpoint lrun (uid : Z) (ops : list lop) (w : world) (g : lghost) : world * lghost :=
  match ops with [] => (w, g) | o :: ops => lrun uid ops (lexec o w) (lghost_step uid o w g) end.

End Policy.

Definition policy_ok (p : LoginLockoutPolicy) : Prop :=
  p_Enabled p = true /\ 1 <= p_MaxAttempts p < 2 ^ 61 /\ 0 <= p_Window p < 2 ^ 63 - 1.

Definition inside (since : Z) (l : list lfail) : list lfail := List.filter (fun x => since <? lf_at x) l.

(** * The row *)

Definition stored_bound (p : LoginLockoutPolicy) (u : user) (t : Z) : Z :=
  match u_LastFailedLoginAt u with
  | Some l => if time_sub t l <=? p_Window p then u_FailedLoginAttempts u else 0
  | None => 0
  end.

Definition on_row (l : list lfail) : list lfail := List.filter (fun x => negb (lf_mem x)) l.
Definition in_memory (l : list lfail) : list lfail := List.filter lf_mem l.

(** From now on the row counts at least the failures of [l] it was given. *)
Definition row_counts (p : LoginLockoutPolicy) (clock : Z) (l : list lfail) (u : user) : Prop :=
  forall t, clock <= t -> Z.of_nat (length (inside (t - p_Window p) (on_row l))) <= stored_bound p u t.

Lemma time_sub_le p t l : 0 <= p_Window p < 2 ^ 63 - 1 -> (time_sub t l <=? p_Window p) = (t - l <=? p_Window p).
Proof. intros. unfold time_sub. destruct (Z.leb_spec (t - l) (p_Window p)), (Z.leb_spec (Z.max (- 2 ^ 63) (Z.min (2 ^ 63 - 1) (t - l))) (p_Window p)); lia. Qed.

Lemma inside_app since l m : inside since (l ++ m) = inside since l ++ inside since m.
Proof. apply List.filter_app. Qed.
Lemma inside_le since since' l : since <= since' -> (length (inside since' l) <= length (inside since l))%nat.
Proof.
  intros. unfold inside. induction l as [|x l IH]; [done|]. cbn.
  destruct (Z.ltb_spec since' (lf_at x)), (Z.ltb_spec since (lf_at x)); cbn; lia.
Qed.
Lemma inside_old since l : (forall x, x ∈ l -> lf_at x <= since) -> inside since l = [].
Proof.
  intros H. unfold inside. induction l as [|x l IH]; [done|]. cbn.
  rewrite (proj2 (Z.ltb_ge _ _)) by (apply H; by left). apply IH. intros. apply H. by right.
Qed.
Lemma inside_split since l : length (inside since l) = (length (inside since (on_row l)) + length (inside since (in_memory l)))%nat.
Proof.
  unfold inside, on_row, in_memory. induction l as [|x l IH]; [done|]. cbn.
  destruct (lf_mem x), (since <? lf_at x) eqn:E; cbn; rewrite ?E; cbn; lia.
Qed.
Lemma on_row_app l m : on_row (l ++ m) = on_row l ++ on_row m.
Proof. apply List.filter_app. Qed.

Lemma row_counts_time p c c' l u : row_counts p c l u -> c <= c' -> row_counts p c' l u.
Proof. intros H ? t ?. apply H. lia. Qed.
Lemma row_counts_nil p c u : 0 <= u_FailedLoginAttempts u -> row_counts p c [] u.
Proof. intros H t _. unfold stored_bound. cbn. destruct (u_LastFailedLoginAt u); [destruct (_ <=? _)|]; lia. Qed.

(** A failure on the row, after failures no later than it. *)
Lemma row_counts_fail p c t u cnt u' l : policy_ok p -> row_counts p c l u -> 0 <= u_FailedLoginAttempts u -> c <= t ->
  (forall x, x ∈ l -> lf_at x <= t) -> failed_update p t u = (cnt, Some u') ->
  0 <= u_FailedLoginAttempts u' /\
  match cnt with
  | Counted => u_LoginLockoutCount u' = u_LoginLockoutCount u /\ forall mem, row_counts p t (l ++ [mkF t mem]) u'
  | Tripped _ _ => u_LoginLockoutCount u' <> u_LoginLockoutCount u
  | Unchanged => False
  end.
Proof.
  intros (_&Hmax&Hwin) Hr H0 Hc Hl. unfold failed_update. destruct (locked_at t u); [done|].
  set (n := match u_LastFailedLoginAt u with Some l => _ | None => _ end).
  assert (Z.of_nat (length (inside (t - p_Window p) (on_row l))) <= n /\ 0 <= n) as [Hn Hn0].
  { specialize (Hr t Hc). unfold stored_bound in Hr. subst n. destruct (u_LastFailedLoginAt u) as [l0|]; [|lia].
    rewrite Z.ltb_antisym. destruct (time_sub t l0 <=? p_Window p); cbn; lia. }
  destruct (p_MaxAttempts p <=? n + 1); intros [= <- <-]; cbn; [split; [lia|lia]|]. split; [lia|]. split; [done|].
  intros mem t' Ht'. unfold stored_bound. cbn. rewrite time_sub_le, on_row_app, inside_app, length_app by lia.
  assert (length (inside (t' - p_Window p) (on_row [mkF t mem])) <= 1)%nat as H1.
  { unfold inside, on_row. cbn. destruct mem; cbn; [lia|]. destruct (_ <? _); cbn; lia. }
  destruct (Z.leb_spec (t' - t) (p_Window p)).
  - pose proof (inside_le (t - p_Window p) (t' - p_Window p) (on_row l) ltac:(lia)). lia.
  - rewrite !inside_old; [done| |].
    + intros x [Hx _]%elem_of_filter_bool. apply list_elem_of_singleton in Hx as ->. cbn. lia.
    + intros x [Hx%Hl _]%elem_of_filter_bool. lia.
Qed.

(** * The effect of each operation *)

Abbreviation acct := (b_name accountLockoutBudget).

(** The clock moved on, the rows and the account limiter became [rows] and [f]. *)
Record ustep (rows : gmap Z user) (f : limiter) (w w' : world) : Prop := {
  us_clock : w_clock w <= w_clock w';
  us_rows : d_users (w_db w') = rows;
  us_lim : fallback_of acct w' = f }.

Lemma ustep_trans r1 f1 r2 f2 w1 w2 w3 : ustep r1 f1 w1 w2 -> ustep r2 f2 w2 w3 -> ustep r2 f2 w1 w3.
Proof. intros [? ? ?] [? ? ?]. constructor; [lia|done|done]. Qed.
Lemma ustep_lim f w w' : lim_step acct f w w' -> ustep (d_users (w_db w)) f w w'.
Proof. intros [? E _ _ ? _]. constructor; [done|by rewrite E|done]. Qed.
Lemma ustep_refl w : ustep (d_users (w_db w)) (fallback_of acct w) w w.
Proof. by constructor. Qed.

Lemma stmt_ustep write w : (forall d, d_attempts (write d) = d_attempts d) ->
  let '(r, w') := stmt write w in w_clock w' = w_clock w /\
  (ustep (d_users (write (w_db w))) (fallback_of acct w) w w' \/ r = Err ErrStorage /\ ustep (d_users (w_db w)) (fallback_of acct w) w w') /\
  (r = Ok () \/ r = Err ErrStorage).
Proof.
  intros _. unfold stmt, next_fault. cbn. destruct (default Runs (head (w_faults w))); cbn; (split; [done|]); (split; [|by eauto]).
  1, 3: left; by constructor; cbn; [lia|..].
  right. split; [done|]. by constructor; cbn; [lia|..].
Qed.

Lemma put_user_rows uid u u0 d : d_users d !! uid = Some u0 -> d_users (put_user uid u d) = <[uid := u]> (d_users d).
Proof. intros E. unfold put_user. by rewrite bool_decide_true by eauto. Qed.
Lemma put_user_other uid uid' u d : uid <> uid' -> d_users (put_user uid u d) !! uid' = d_users d !! uid'.
Proof. intros. unfold put_user. case_bool_decide; [|done]. cbn. by rewrite lookup_insert_ne. Qed.

(** What the transaction of a failure did to the row. *)
Inductive failed_row (p : LoginLockoutPolicy) (uid t : Z) (rows : gmap Z user) : gmap Z user -> res storage_err (counted_as * option user) -> Prop :=
| FailedNothing e : failed_row p uid t rows rows (Err e)
| FailedLocked u : rows !! uid = Some u -> failed_update p t u = (Unchanged, None) -> failed_row p uid t rows rows (Ok (Unchanged, None))
| FailedWrote u c u' e : rows !! uid = Some u -> failed_update p t u = (c, Some u') ->
    failed_row p uid t rows (<[uid := u']> rows) (Err e)
| FailedCounted u c u' : rows !! uid = Some u -> failed_update p t u = (c, Some u') ->
    failed_row p uid t rows (<[uid := u']> rows) (Ok (c, Some u')).

Lemma failed_update_none p t u c : failed_update p t u = (c, None) -> c = Unchanged.
Proof. unfold failed_update. destruct (locked_at t u); [by intros [= <-]|]. by destruct (_ <=? _). Qed.

Lemma fail_tx_spec p uid t w : let '(r, w') := fail_tx p uid t w in
  w_clock w' = w_clock w /\ exists rows, ustep rows (fallback_of acct w) w w' /\ failed_row p uid t (d_users (w_db w)) rows (fst r).
Proof.
  unfold fail_tx, with_user_tx, LockUserForUpdate, bind, query, next_fault, get_user, stmt, ret. cbn -[failed_update].
  assert (forall w' rows, w_clock w' = w_clock w -> w_fallbacks w' = w_fallbacks w -> d_users (w_db w') = rows -> ustep rows (fallback_of acct w) w w') as Hu.
  { intros w' rows E1 E2 E3. constructor; [lia|done|by apply fallback_same]. }
  destruct (default Runs (head (w_faults w))); cbn -[failed_update]; [|split; [done|]; eexists; split; [by apply Hu|constructor]..].
  destruct (d_users (w_db w) !! uid) as [u|] eqn:Eu; cbn -[failed_update]; [|split; [done|]; eexists; split; [by apply Hu|constructor]].
  destruct (failed_update p t u) as [c [u'|]] eqn:Ef; cbn.
  - destruct (default Runs (head (tail (w_faults w)))); cbn; [|split; [done|]; eexists; split; [by apply Hu|constructor]..].
    destruct (default Runs (head (tail (tail (w_faults w))))); cbn; (split; [done|]); eexists; (split; [by apply Hu|]);
      cbn [set_db w_db]; rewrite ?(put_user_rows _ _ u) by done.
    + by eapply FailedCounted.
    + constructor.
    + by eapply FailedWrote.
  - pose proof (failed_update_none _ _ _ _ Ef) as ->.
    destruct (default Runs (head (tail (w_faults w)))); cbn; (split; [done|]); eexists; (split; [by apply Hu|]); [by eapply FailedLocked|constructor..].
Qed.

Lemma record_fallback_step b key w : exists t, w_clock w <= t <= w_clock (snd (budgetRecordFallback b key w)) /\
  lim_step (b_name b) (snd (reserve key t (b_window b) (4 * b_limit b) (fallback_of (b_name b) w))) w (snd (budgetRecordFallback b key w)).
Proof.
  unfold budgetRecordFallback, bind. pose proof (note_step b (go "record") key (b_name b) w) as H1.
  destruct (noteAuthBudgetFallback _ _ _ w) as [u w1]. cbn [snd] in *. destruct (now_step (b_name b) w1) as (H2&Et&Hle).
  destruct (now w1) as [t w2]. cbn [fst snd] in *.
  destruct (on_fallback_step b (reserve key t (b_window b) (4 * b_limit b)) w2) as (H3&_&Ec). destruct (on_fallback _ _ w2) as [h w3].
  cbn [fst snd ret] in *. pose proof (ls_clock _ _ _ _ H1). exists t. split; [lia|].
  rewrite (ls_self _ _ _ _ H2), (ls_self _ _ _ _ H1) in H3. eauto using lim_step_trans.
Qed.

(** A failure: its transaction, then the memory when that failed. *)
Lemma fail_effect p uid snap w : p_Enabled p = true ->
  exists rows f, ustep rows f w (snd (recordFailedLogin p uid snap w)) /\ w_clock w <= fst (now w) <= w_clock (snd (recordFailedLogin p uid snap w)) /\
  failed_row p uid (fst (now w)) (d_users (w_db w)) rows (fail_result p uid w) /\
  match fail_result p uid w with
  | Ok _ => f = fallback_of acct w
  | Err _ => exists t', fst (now w) <= t' <= w_clock (snd (recordFailedLogin p uid snap w)) /\
      f = snd (reserve (accountBudgetKey uid) t' (p_Window p) (4 * p_MaxAttempts p) (fallback_of acct w))
  end.
Proof.
  intros He. unfold recordFailedLogin, fail_result, bind. rewrite He. cbn [negb].
  destruct (now_step acct w) as (H1&Et&Hle). destruct (now w) as [t w1]. cbn [fst snd] in *. apply ustep_lim in H1.
  pose proof (fail_tx_spec p uid t w1) as Htx. destruct (fail_tx p uid t w1) as [r w2]. destruct Htx as (Hc2&rows&H2&Hrow).
  rewrite (us_rows _ _ _ _ H1) in Hrow. rewrite (us_lim _ _ _ _ H1) in H2. pose proof (ustep_trans _ _ _ _ _ _ _ H1 H2) as H12. cbn [fst snd].
  destruct (fst r) as [[[| |until n] o]|e]; cbn [ret snd].
  1, 2: exists rows; eexists; split; [exact H12|]; split_and!; [done|lia|done|done].
  - exists rows; eexists. split; [|split_and!; [done| |done|done]]; [|cbn; lia]. eapply ustep_trans; [exact H12|].
    destruct H2 as [_ E1 E2]. constructor; [cbn; lia|done|]. etrans; [|exact E2]. by apply fallback_same.
  - destruct (record_fallback_step (accountBudget p) (accountBudgetKey uid) w2) as (t'&Ht'&H3). apply ustep_lim in H3.
    destruct (budgetRecordFallback _ _ w2) as [u w3]. cbn [fst snd ret] in *.
    change (b_name (accountBudget p)) with acct in H3. rewrite (us_lim _ _ _ _ H2), (us_rows _ _ _ _ H2) in H3.
    exists rows; eexists. split; [exact (ustep_trans _ _ _ _ _ _ _ H12 H3)|]. split_and!; [done|lia|done|].
    exists t'. split; [lia|done].
Qed.

(** The account check reads the row's count, then the window in memory. *)
Lemma spent_effect p uid u w : 1 <= p_MaxAttempts p ->
  exists t2 t3, w_clock w <= t2 <= t3 /\ t3 = w_clock (snd (accountFailuresSpent p uid u w)) /\
  lim_step acct (snd (count (accountBudgetKey uid) (t3 - p_Window p) true (fallback_of acct w))) w (snd (accountFailuresSpent p uid u w)) /\
  (fst (accountFailuresSpent p uid u w) = false ->
   stored_bound p u t2 + fst (count (accountBudgetKey uid) (t3 - p_Window p) true (fallback_of acct w)) < p_MaxAttempts p).
Proof.
  intros Hmax. unfold accountFailuresSpent, bind.
  assert (exists t2, w_clock w <= t2 <= w_clock (snd (storedFailures p u w)) /\ fst (storedFailures p u w) = stored_bound p u t2 /\
    lim_step acct (fallback_of acct w) w (snd (storedFailures p u w))) as (t2&Ht2&E2&H2).
  { unfold storedFailures, stored_bound, bind, ret. destruct (u_LastFailedLoginAt u) as [l|].
    - destruct (now_step acct w) as (H1&Et&Hle). destruct (now w) as [t w1]. cbn [fst snd] in *. exists t. split_and!; [done|lia|done|done].
    - exists (w_clock w). split_and!; [done|done|done|apply lim_step_refl]. }
  destruct (storedFailures p u w) as [stored w1]. cbn [fst snd] in *. subst stored.
  unfold budgetFallbackLimitedWithStored, bind. change (b_limit (accountBudget p)) with (p_MaxAttempts p).
  rewrite (proj2 (Z.leb_gt _ _)) by lia. destruct (now_step acct w1) as (H3&Et&Hle). destruct (now w1) as [t3 w2]. cbn [fst snd] in *.
  destruct (on_fallback_step (accountBudget p) (count (accountBudgetKey uid) (t3 - b_window (accountBudget p)) true) w2) as (H4&Em&Ec).
  destruct (on_fallback _ _ w2) as [mem w3]. cbn [fst snd] in *.
  change (b_name (accountBudget p)) with acct in *. change (b_window (accountBudget p)) with (p_Window p) in *.
  rewrite (ls_self _ _ _ _ H3), (ls_self _ _ _ _ H2) in H4, Em.
  pose proof (f_equal snd (eq_refl (fallbackLimit (accountBudget p) w3))) as Ew.
  exists t2, t3. destruct (fallbackLimit (accountBudget p) w3) as [lim w3'] eqn:El.
  assert (w3' = w3) as -> by (unfold fallbackLimit in El; congruence). cbn [ret fst snd].
  split_and!; [lia|lia|lia|eauto using lim_step_trans|]. intros [_ Hs]%Bool.orb_false_iff. rewrite <- Em. breflect. lia.
Qed.

Lemma stored_lock_step u w : lim_step acct (fallback_of acct w) w (snd (stored_lock u w)) /\
  (fst (stored_lock u w) = false -> match u_LoginLockedUntil u with Some until => until <= w_clock (snd (stored_lock u w)) | None => True end).
Proof.
  unfold stored_lock, bind, ret. destruct (u_LoginLockedUntil u) as [until|]; [|split; [apply lim_step_refl|done]].
  destruct (now_step acct w) as (H1&Et&Hle). destruct (now w) as [t w1]. cbn [fst snd] in *. split; [done|]. intros. breflect. lia.
Qed.

(** A check, and the recheck: the rows stay, and the window may have been read. *)
Definition read_window (p : LoginLockoutPolicy) (uid : Z) (w w' : world) : Prop :=
  ustep (d_users (w_db w)) (fallback_of acct w) w w' \/
  exists t, w_clock w <= t <= w_clock w' /\
    ustep (d_users (w_db w)) (snd (count (accountBudgetKey uid) (t - p_Window p) true (fallback_of acct w))) w w'.

Lemma check_effect p uid u w : 1 <= p_MaxAttempts p -> read_window p uid w (snd (loginLocked p uid u w)).
Proof.
  intros Hmax. unfold loginLocked, bind, ret. destruct (negb (p_Enabled p)); [left; apply ustep_refl|].
  destruct (stored_lock_step u w) as [H1 _]. destruct (stored_lock u w) as [l w1]. cbn [snd] in *. destruct l; [left; by apply ustep_lim|].
  destruct (spent_effect p uid u w1 Hmax) as (t2&t3&Ht&Et&H2&_). right. rewrite (ls_self _ _ _ _ H1) in H2.
  pose proof (ls_clock _ _ _ _ H1). exists t3. split; [lia|]. eapply ustep_trans; [by apply ustep_lim|].
  rewrite <- (ls_db _ _ _ _ H1). by apply ustep_lim.
Qed.

Lemma recheck_effect p uid snap w : 1 <= p_MaxAttempts p -> p_Enabled p = true ->
  read_window p uid w (snd (recheckLoginLockFailClosed p uid snap w)) /\
  (snd (fst (recheckLoginLockFailClosed p uid snap w)) = None -> exists u t2 t3,
    d_users (w_db w) !! uid = Some u /\
    w_clock w <= t2 <= t3 /\ t3 <= w_clock (snd (recheckLoginLockFailClosed p uid snap w)) /\
    match u_LoginLockedUntil u with Some until => until <= w_clock (snd (recheckLoginLockFailClosed p uid snap w)) | None => True end /\
    stored_bound p u t2 + fst (count (accountBudgetKey uid) (t3 - p_Window p) true (fallback_of acct w)) < p_MaxAttempts p).
Proof.
  intros Hmax He. unfold recheckLoginLockFailClosed, with_user_tx, LockUserForUpdate, query, next_fault, get_user, bind. rewrite He. cbn [negb].
  set (w0 := mkWorld (w_clock w) _ _ _ _ _ _ _ _). assert (ustep (d_users (w_db w)) (fallback_of acct w) w w0) as H0 by (by constructor; cbn; [lia|..]).
  assert (w_clock w0 = w_clock w) as Ec0 by done.
  destruct (default Runs (head (w_faults w))); cbn -[w0 recheck_body stmt]; [|split; [left; exact H0|done]..].
  change (d_users (w_db w0)) with (d_users (w_db w)).
  destruct (d_users (w_db w) !! uid) as [u|] eqn:Eu; cbn -[w0 recheck_body stmt]; [|split; [left; exact H0|done]].
  unfold recheck_body, bind. destruct (stored_lock_step u w0) as [H1 Hlock]. destruct (stored_lock u w0) as [l w1]. cbn [fst snd] in *.
  assert (forall (w2 : world) (w2' : world), w_clock w2' = w_clock w2 -> w_fallbacks w2' = w_fallbacks w2 -> w_db w2' = w_db w2 ->
    ustep (d_users (w_db w2)) (fallback_of acct w2) w2 w2') as Hc.
  { intros w2 w2' E1 E2 E3. constructor; [lia|by rewrite E3|by apply fallback_same]. }
  assert (forall w2, exists f w2', stmt (fun d => d) w2 = (f, w2') /\ w_clock w2' = w_clock w2 /\ ustep (d_users (w_db w2)) (fallback_of acct w2) w2 w2') as Hst.
  { intros w2. unfold stmt, next_fault. cbn. destruct (default Runs (head (w_faults w2))); do 2 eexists; (split; [reflexivity|]); (split; [done|]); by apply Hc. }
  change (fallback_of acct w0) with (fallback_of acct w) in H1. pose proof (ls_clock _ _ _ _ H1) as Hc1.
  pose proof (ustep_trans _ _ _ _ _ _ _ H0 (ustep_lim _ _ _ H1)) as H01. change (d_users (w_db w0)) with (d_users (w_db w)) in H01.
  destruct l; cbn [ret].
  - destruct (Hst w1) as (f&w2&->&Ec&H2). rewrite (us_rows _ _ _ _ H01), (us_lim _ _ _ _ H01) in H2.
    pose proof (ustep_trans _ _ _ _ _ _ _ H01 H2). destruct f; cbn; split; try done; by left.
  - destruct (spent_effect p uid u w1 Hmax) as (t2&t3&Ht&Et&H2&Hval). destruct (accountFailuresSpent p uid u w1) as [spent w2]. cbn [fst snd ret] in *.
    rewrite (ls_self _ _ _ _ H1) in H2, Hval.
    pose proof (ustep_trans _ _ _ _ _ _ _ H01 (ustep_lim _ _ _ H2)) as H02. rewrite (us_rows _ _ _ _ H01) in H02.
    destruct (Hst w2) as (f&w3&->&Ec&H3). rewrite (us_rows _ _ _ _ H02), (us_lim _ _ _ _ H02) in H3.
    pose proof (ustep_trans _ _ _ _ _ _ _ H02 H3) as H03. pose proof (us_clock _ _ _ _ H03).
    assert (read_window p uid w w3) as Hrw by (right; exists t3; split; [lia|done]).
    destruct f as [[]|e]; destruct spent; cbn; (split; [done|]); try done. intros _. exists u, t2, t3. specialize (Hlock eq_refl). cbn [fst snd] in *. split_and!; try lia; try done; [|by apply Hval].
    destruct (u_LoginLockedUntil u); [lia|done].
Qed.

Lemma budget_clear_effect p uid w :
  lim_step acct (clear (accountBudgetKey uid) (fallback_of acct w)) w (snd (budgetFallbackClear (accountBudget p) (accountBudgetKey uid) w)).
Proof. exact (proj1 (on_fallback_step (accountBudget p) (fun f => ((), clear (accountBudgetKey uid) f)) w)). Qed.

Definition put_rows (uid : Z) (w : world) : gmap Z user := d_users (put_user uid cleared_user (w_db w)).

Lemma clear_effect p uid snap w : exists rows,
  ustep rows (clear (accountBudgetKey uid) (fallback_of acct w)) w (snd (clearLoginFailures p uid snap w)) /\
  (rows = d_users (w_db w) \/ rows = put_rows uid w).
Proof.
  unfold clearLoginFailures, bind. pose proof (budget_clear_effect p uid w) as H1. destruct (budgetFallbackClear _ _ w) as [u w1]. cbn [snd] in *.
  pose proof (ustep_lim _ _ _ H1) as H1'. destruct (_ && _ && _); [exists (d_users (w_db w)); by split; [|left]|].
  unfold UpdateLoginLockoutState. pose proof (stmt_ustep (put_user uid cleared_user) w1) as H2.
  destruct (stmt _ w1) as [r w2]. destruct H2 as (_&H2&_); [intros; unfold put_user; by case_bool_decide|].
  rewrite (us_lim _ _ _ _ H1'), (ls_db _ _ _ _ H1) in H2.
  match goal with |- exists rows, ustep rows _ w ?x /\ _ => replace x with w2 by (by destruct r as [[]|]; [case_bool_decide|]) end.
  destruct H2 as [H2|[_ H2]]; eexists; (split; [exact (ustep_trans _ _ _ _ _ _ _ H1' H2)|]); [by right|by left].
Qed.

(** An unlock: done, or nothing but the row at most. *)
Lemma unlock_effect p admin uid w : exists rows f, ustep rows f w (snd (UnlockUser p admin uid w)) /\
  (rows = d_users (w_db w) \/ rows = put_rows uid w) /\
  (f = fallback_of acct w /\ res_ok (fst (UnlockUser p admin uid w)) = false \/ f = clear (accountBudgetKey uid) (fallback_of acct w) /\ res_ok (fst (UnlockUser p admin uid w)) = true).
Proof.
  unfold UnlockUser, query, next_fault, get_user, bind, ret. destruct (uid =? 0); [do 2 eexists; split; [apply ustep_refl|eauto]|]. cbn -[budgetFallbackClear].
  assert (forall w', w_clock w' = w_clock w -> w_fallbacks w' = w_fallbacks w -> d_users (w_db w') = d_users (w_db w) -> ustep (d_users (w_db w)) (fallback_of acct w) w w') as Hu.
  { intros w' E1 E2 E3. constructor; [lia|done|by apply fallback_same]. }
  destruct (default Runs (head (w_faults w))); cbn -[budgetFallbackClear]; [|do 2 eexists; (split; [by apply Hu|by eauto])..].
  destruct (d_users (w_db w) !! uid); cbn -[budgetFallbackClear]; [|do 2 eexists; (split; [by apply Hu|by eauto])].
  destruct (default Runs (head (tail (w_faults w)))); cbn -[budgetFallbackClear]; [|do 2 eexists; (split; [by apply Hu|by eauto])..].
  destruct (default Runs (head (tail (tail (w_faults w))))); cbn -[budgetFallbackClear]; [|do 2 eexists; (split; [by apply Hu|by eauto])..].
  destruct (default Runs (head (tail (tail (tail (w_faults w)))))); cbn -[budgetFallbackClear put_user].
  - set (w1 := mkWorld _ _ _ _ _ _ _ _ _). pose proof (ustep_lim _ _ _ (budget_clear_effect p uid w1)) as H1.
    destruct (budgetFallbackClear _ _ w1) as [x w2]. cbn [fst snd] in *. do 2 eexists. split; [|by eauto].
    destruct H1 as [? ? ?]. by constructor.
  - do 2 eexists; (split; [by apply Hu|by eauto]).
  - do 2 eexists. split; [|by eauto]. constructor; cbn -[put_user]; [lia|done|by apply fallback_same].
Qed.

Lemma put_rows_lookup uid uid' w : put_rows uid w !! uid' =
  if bool_decide (uid = uid') then (match d_users (w_db w) !! uid' with Some _ => Some cleared_user | None => None end) else d_users (w_db w) !! uid'.
Proof.
  unfold put_rows, put_user. destruct (decide (uid = uid')) as [<-|Hne].
  - rewrite (bool_decide_true (uid = uid)) by done. destruct (d_users (w_db w) !! uid) as [u|] eqn:E.
    + rewrite bool_decide_true by eauto. cbn. by rewrite lookup_insert_eq.
    + by rewrite bool_decide_false by (by intros []).
  - rewrite (bool_decide_false (uid = uid')) by done. case_bool_decide; [|done]. cbn. by rewrite lookup_insert_ne.
Qed.

(** * The invariant *)

(** The failures the memory was given since the last clear, and what the limiter holds. *)
Definition acct_mem (p : LoginLockoutPolicy) (uid : Z) (f : limiter) (t : Z) (l : list lfail) (others : gset bytes) : Prop :=
  exists s A1 A2 L, tracked (4 * p_MaxAttempts p) (p_Window p) t (accountBudgetKey uid) f s (A1 ++ A2) L others /\
    Forall2 (fun x a => lf_at x <= a_at a /\ a_id a ∈ L) (in_memory l) A2.

Record linv (p : LoginLockoutPolicy) (uid : Z) (n : Z) (w : world) (g : lghost) : Prop := {
  li_lim : lim_ok n (fallback_of acct w);
  li_mem : acct_mem p uid (fallback_of acct w) (w_clock w) (l_fails g) (l_others g);
  li_row : forall u, d_users (w_db w) !! uid = Some u -> 0 <= u_FailedLoginAttempts u /\ row_counts p (w_clock w) (l_fails g) u;
  li_times : forall x, x ∈ l_fails g -> lf_at x <= w_clock w }.

Lemma key_inj u v : 0 <= u -> 0 <= v -> accountBudgetKey u = accountBudgetKey v -> u = v.
Proof. intros Hu Hv E. apply (f_equal (parse_digits 0)) in E. unfold accountBudgetKey in E. rewrite !parse_FormatUint in E by done. congruence. Qed.

Section AcctMem.
Context {p : LoginLockoutPolicy} {uid : Z} {f : limiter} {t : Z} {l : list lfail} {others : gset bytes}.
Context (Hp : policy_ok p) (Hm : acct_mem p uid f t l others).

Lemma acct_time t' : t <= t' -> acct_mem p uid f t' l others.
Proof. intros. destruct Hm as (s&A1&A2&L&Ht&?). exists s, A1, A2, L. by split; [apply (tracked_time Ht)|]. Qed.

Lemma acct_count key t' wm : t <= t' -> acct_mem p uid (snd (count key (t' - p_Window p) wm f)) t' l others.
Proof.
  intros Hle. destruct Hm as (s&A1&A2&L&Ht&?). pose proof (count_models f s key (t' - p_Window p) wm (tk_models _ _ _ _ _ _ _ _ _ Ht)) as Hc.
  destruct (count _ _ _ _) as [c f']. destruct Hc as (_&[_ Hn]&Hmod). cbn.
  eexists _, A1, A2, L. split; [|done]. apply (tracked_count Ht); [done|lia|done].
Qed.

(** The history is cut: what the memory holds beyond it does no harm. *)
Lemma acct_cut : acct_mem p uid f t [] others.
Proof. destruct Hm as (s&A1&A2&L&Ht&_). exists s, (A1 ++ A2), [], L. rewrite app_nil_r. split; [done|constructor]. Qed.

Lemma acct_row_fail x : lf_mem x = false -> acct_mem p uid f t (l ++ [x]) others.
Proof.
  intros Hx. destruct Hm as (s&A1&A2&L&Ht&HF). exists s, A1, A2, L. split; [done|]. unfold in_memory. rewrite List.filter_app. cbn.
  by rewrite Hx, app_nil_r.
Qed.

Lemma acct_clear u : 0 <= u -> 0 <= uid -> acct_mem p uid (clear (accountBudgetKey u) f) t (if bool_decide (u = uid) then [] else l) others.
Proof.
  intros Hu Huid. destruct Hm as (s&A1&A2&L&Ht&HF).
  destruct (clear_models f s (accountBudgetKey u) (tk_models _ _ _ _ _ _ _ _ _ Ht)) as [[_ Hn] Hmod].
  pose proof (tracked_clear Ht (clear (accountBudgetKey u) f) (accountBudgetKey u) ltac:(lia) Hmod) as Ht'. destruct (decide (u = uid)) as [->|E].
  - rewrite (bool_decide_true (uid = uid)) by done. exists (s_del (accountBudgetKey uid) s), (A1 ++ A2), []. eexists. rewrite app_nil_r. split; [exact Ht'|constructor].
  - rewrite (bool_decide_false (u = uid)) by done. rewrite bool_decide_false in Ht' by (intros ?%key_inj; done). eexists _, A1, A2, L. by split.
Qed.

Lemma acct_fail_self n t0 t' : lim_ok n f -> n + 1 < 2 ^ 63 -> t0 <= t' -> t <= t' ->
  acct_mem p uid (snd (reserve (accountBudgetKey uid) t' (p_Window p) (4 * p_MaxAttempts p) f)) t' (l ++ [mkF t0 true]) ∅.
Proof.
  intros (s0&Hs0&Hk&Hn) Hlt Ht0 Hle. destruct Hm as (s&A1&A2&L&Ht&HF). pose proof (models_next _ _ Hs0) as H0.
  pose proof (reserve_models f s (accountBudgetKey uid) t' (p_Window p) (4 * p_MaxAttempts p) (tk_models _ _ _ _ _ _ _ _ _ Ht)
    ltac:(rewrite Hk; unfold authFallbackMaxKeys; lia) ltac:(lia)) as Hr.
  destruct (reserve _ _ _ _ f) as [h f']. destruct Hr as (_&[_ En]&Hmod). cbn [snd].
  pose proof (tracked_add Ht f' (next_attempt f t') _ H0 ltac:(lia) ltac:(destruct Hp as (_&?&_); lia) Hle eq_refl En Hmod) as Ht'.
  eexists _, A1, (A2 ++ [next_attempt f t']), _. rewrite app_assoc. split; [exact Ht'|]. unfold in_memory. rewrite List.filter_app.
  apply Forall2_app; [|constructor; [|constructor]; cbn; split; [lia|set_solver]].
  eapply Forall2_impl; [exact HF|]. cbn. intros x a [? ?]. split; [done|set_solver].
Qed.

Lemma acct_fail_other n u t' : 0 <= u -> 0 <= uid -> u <> uid -> lim_ok n f -> n + 1 < 2 ^ 63 -> t <= t' ->
  (size (others ∪ {[accountBudgetKey u]}) < authFallbackMaxKeys)%nat ->
  acct_mem p uid (snd (reserve (accountBudgetKey u) t' (p_Window p) (4 * p_MaxAttempts p) f)) t' l (others ∪ {[accountBudgetKey u]}).
Proof.
  intros Hu Huid Hne (s0&Hs0&Hk&Hn) Hlt Hle Hsz. destruct Hm as (s&A1&A2&L&Ht&HF). pose proof (models_next _ _ Hs0) as H0.
  pose proof (reserve_models f s (accountBudgetKey u) t' (p_Window p) (4 * p_MaxAttempts p) (tk_models _ _ _ _ _ _ _ _ _ Ht)
    ltac:(rewrite Hk; unfold authFallbackMaxKeys; lia) ltac:(lia)) as Hr.
  destruct (reserve _ _ _ _ f) as [h f']. destruct Hr as (_&[_ En]&Hmod). cbn [snd].
  eexists _, A1, A2, L. split; [|done]. eapply (tracked_other Ht); [|done|by rewrite Hk|lia|exact Hmod].
  by intros ?%key_inj.
Qed.

(** What the memory counts: its failures since the last clear, up to the cap. *)
Lemma acct_counts t' : t <= t' ->
  Z.min (4 * p_MaxAttempts p) (Z.of_nat (length (inside (t' - p_Window p) (in_memory l)))) <=
  fst (count (accountBudgetKey uid) (t' - p_Window p) true f).
Proof.
  intros Hle. destruct Hm as (s&A1&A2&L&Ht&HF).
  pose proof (count_models f s (accountBudgetKey uid) (t' - p_Window p) true (tk_models _ _ _ _ _ _ _ _ _ Ht)) as Hc.
  destruct (count _ _ _ _) as [c f']. destruct Hc as (->&_&_). cbn [fst].
  assert (forall a, a ∈ A2 -> a_id a ∈ L) as HL.
  { intros a (j&Hj)%list_elem_of_lookup_1. destruct (Forall2_lookup_r _ _ _ _ _ HF Hj) as (x&_&_&?). done. }
  pose proof (tracked_counts_live Ht A1 A2 t' eq_refl ltac:(destruct Hp as (_&?&_); lia) Hle HL) as Hcnt.
  assert (Z.of_nat (length (inside (t' - p_Window p) (in_memory l))) <= Z.of_nat (length (List.filter (fun a => t' - p_Window p <? a_at a) A2))) as Hsub.
  { apply Nat2Z.inj_le, (Forall2_filter_le _ _ _ _ _ HF). intros x a [? _] ?. breflect. apply Z.ltb_lt. lia. }
  replace (List.filter (counted true) _) with (s_prune (t' - p_Window p) (s_get (accountBudgetKey uid) s)); [lia|].
  symmetry. apply List.forallb_filter_id. by apply forallb_forall.
Qed.

End AcctMem.

Section LStep.
Context {p : LoginLockoutPolicy} {uid : Z} {n : Z} {w : world} {g : lghost}.
Context (Hp : policy_ok p) (Huid : 0 <= uid) (Hinv : linv p uid n w g) (Hn : n + 1 < 2 ^ 62).

Lemma linv_of rows f w' l o m : ustep rows f w w' -> lim_ok (n + 1) f -> acct_mem p uid f (w_clock w') l o ->
  (forall u, rows !! uid = Some u -> 0 <= u_FailedLoginAttempts u /\ row_counts p (w_clock w') l u) ->
  (forall x, x ∈ l -> lf_at x <= w_clock w') -> linv p uid (n + 1) w' (mkL l o m).
Proof. intros [? <- <-] ? ? ? ?. by constructor. Qed.

Lemma row_now t u : w_clock w <= t -> d_users (w_db w) !! uid = Some u -> 0 <= u_FailedLoginAttempts u /\ row_counts p t (l_fails g) u.
Proof. intros Ht [? ?]%(li_row _ _ _ _ _ Hinv). split; [done|]. by eapply row_counts_time. Qed.
Lemma times_now t x : w_clock w <= t -> x ∈ l_fails g -> lf_at x <= t.
Proof. intros Ht ?%(li_times _ _ _ _ _ Hinv). lia. Qed.
Lemma ghost_eta : g = mkL (l_fails g) (l_others g) (l_most g).
Proof. by destruct g. Qed.
Lemma lim_next : lim_ok (n + 1) (fallback_of acct w).
Proof. eapply lim_ok_mono; [apply Hinv|lia]. Qed.

Lemma linv_read u w' : read_window p u w w' -> linv p uid (n + 1) w' g.
Proof.
  intros Hr. rewrite ghost_eta. pose proof (li_mem _ _ _ _ _ Hinv) as Hm. destruct Hr as [Hs|(t&Ht&Hs)].
  - apply (linv_of _ _ _ _ _ _ Hs).
    + apply lim_next.
    + apply (acct_time Hm), (us_clock _ _ _ _ Hs).
    + intros u0. apply row_now, (us_clock _ _ _ _ Hs).
    + intros x. apply times_now, (us_clock _ _ _ _ Hs).
  - apply (linv_of _ _ _ _ _ _ Hs).
    + destruct (count_lim (accountBudgetKey u) (t - p_Window p) true _ lim_next) as [Hl _]. exact Hl.
    + apply (acct_time (t := t)); [|lia]. apply (acct_count Hm). lia.
    + intros u0. apply row_now, (us_clock _ _ _ _ Hs).
    + intros x. apply times_now, (us_clock _ _ _ _ Hs).
Qed.

(** Rows of other accounts do not matter. *)
Lemma failed_row_other u t rows r : u <> uid -> failed_row p u t (d_users (w_db w)) rows r -> rows !! uid = d_users (w_db w) !! uid.
Proof. intros Hne Hf. destruct Hf; try done; by rewrite lookup_insert_ne. Qed.

Lemma reserve_lim key t W c f : lim_ok n f -> lim_ok (n + 1) (snd (reserve key t W c f)).
Proof.
  intros (s&Hs&Hk&Hx). pose proof (models_next _ _ Hs).
  pose proof (reserve_models f s key t W c Hs ltac:(rewrite Hk; unfold authFallbackMaxKeys; lia) ltac:(lia)) as Hr.
  destruct (reserve _ _ _ _ f) as [h f']. destruct Hr as (_&[? ?]&?). eexists. cbn. split_and!; [done|congruence|lia].
Qed.

Lemma lockout_counts w' u u' : d_users (w_db w) !! uid = Some u -> d_users (w_db w') !! uid = Some u' ->
  fails_after uid w w' (l_fails g) = if u_LoginLockoutCount u' =? u_LoginLockoutCount u then l_fails g else [].
Proof.
  intros E1 E2. unfold fails_after, lockout_count. rewrite E1, E2. cbn.
  destruct (Z.eqb_spec (u_LoginLockoutCount u') (u_LoginLockoutCount u)) as [->|Hne]; [by rewrite bool_decide_true|].
  rewrite bool_decide_false; [done|]. congruence.
Qed.
Lemma lockout_counts_same w' : d_users (w_db w') !! uid = d_users (w_db w) !! uid -> fails_after uid w w' (l_fails g) = l_fails g.
Proof. intros E. unfold fails_after, lockout_count. rewrite E. by rewrite bool_decide_true. Qed.

(** The row after a failure of this account, against the history after it. *)
Lemma row_after t rows r w' x : w_clock w <= t -> d_users (w_db w') = rows ->
  failed_row p uid t (d_users (w_db w)) rows r ->
  let l := fails_after uid w w' (l_fails g) in
  let l' := match r with
    | Err _ => l ++ [mkF t true]
    | Ok (Counted, _) => l ++ [mkF t false]
    | Ok _ => l end in
  (forall u, rows !! uid = Some u -> 0 <= u_FailedLoginAttempts u /\ row_counts p t l' u) /\
  (x ∈ l' -> lf_at x <= t) /\ (l = l_fails g \/ l = []).
Proof.
  intros Ht Hrows Hf. assert (forall y, y ∈ l_fails g -> lf_at y <= t) as Htm by (intros; by apply times_now).
  assert (forall l, l = l_fails g \/ l = [] -> forall y, y ∈ l -> lf_at y <= t) as Htm' by (intros l [->| ->]; [done|set_solver]).
  assert (forall mem l, l = l_fails g \/ l = [] -> x ∈ l ++ [mkF t mem] -> lf_at x <= t) as Htm2.
  { intros mem l Hl [?|E%list_elem_of_singleton]%elem_of_app; [by eapply Htm'|]. subst x. cbn. lia. }
  destruct Hf as [e|u Hu Hf|u c u' e Hu Hf|u c u' Hu Hf]; cbn zeta.
  - rewrite lockout_counts_same by (by rewrite Hrows). split_and!; [|by apply Htm2; left|by left].
    intros u Hu. destruct (row_now t u Ht Hu) as [? Hr]. split; [done|]. intros t' Ht'. rewrite on_row_app. cbn. rewrite app_nil_r. by apply Hr.
  - rewrite lockout_counts_same by (by rewrite Hrows). split_and!; [|by apply Htm|by left]. intros. by apply row_now.
  - rewrite (lockout_counts w' u u' Hu) by (by rewrite Hrows, lookup_insert_eq). destruct (row_now t u Ht Hu) as [H0 Hr].
    destruct (row_counts_fail p t t u c u' (l_fails g) Hp Hr H0 ltac:(lia) Htm Hf) as [H0' Hc].
    destruct c as [| |until cnt]; [done| |].
    + destruct Hc as [-> Hc]. rewrite Z.eqb_refl. split_and!; [|by apply Htm2; left|by left].
      intros v. rewrite lookup_insert_eq. intros [= <-]. split; [done|apply Hc].
    + rewrite (proj2 (Z.eqb_neq _ _) Hc). split_and!; [|by apply Htm2; right|by right].
      intros v. rewrite lookup_insert_eq. intros [= <-]. split; [done|]. intros t' Ht'. cbn. unfold stored_bound.
      destruct (u_LastFailedLoginAt u'); [destruct (_ <=? _)|]; lia.
  - rewrite (lockout_counts w' u u' Hu) by (by rewrite Hrows, lookup_insert_eq). destruct (row_now t u Ht Hu) as [H0 Hr].
    destruct (row_counts_fail p t t u c u' (l_fails g) Hp Hr H0 ltac:(lia) Htm Hf) as [H0' Hc].
    destruct c as [| |until cnt]; [done| |].
    + destruct Hc as [-> Hc]. rewrite Z.eqb_refl. split_and!; [|by apply Htm2; left|by left].
      intros v. rewrite lookup_insert_eq. intros [= <-]. split; [done|apply Hc].
    + rewrite (proj2 (Z.eqb_neq _ _) Hc). split_and!; [|set_solver|by right].
      intros v. rewrite lookup_insert_eq. intros [= <-]. split; [done|by apply row_counts_nil].
Qed.

Lemma acct_after l' t : w_clock w <= t -> l' = l_fails g \/ l' = [] -> acct_mem p uid (fallback_of acct w) t l' (l_others g).
Proof.
  intros Ht Hl. pose proof (acct_time (li_mem _ _ _ _ _ Hinv) t Ht) as Hm. destruct Hl as [->| ->]; [done|]. by apply (acct_cut Hm).
Qed.

Lemma linv_fail u snap : 0 <= u -> (l_most (lghost_step p uid (LFail u snap) w g) < authFallbackMaxKeys)%nat ->
  linv p uid (n + 1) (lexec p (LFail u snap) w) (lghost_step p uid (LFail u snap) w g).
Proof.
  intros Hu. destruct (fail_effect p u snap w) as (rows&f&Hs&[Ht1 Ht2]&Hf&Hmem); [apply Hp|]. cbn [lexec lghost_step].
  set (w' := snd (recordFailedLogin p u snap w)) in *. set (t := fst (now w)) in *.
  destruct (decide (u = uid)) as [->|Hne].
  - rewrite !(bool_decide_true (uid = uid)) by done.
    pose proof (fun x => row_after t rows _ w' x Ht1 (us_rows _ _ _ _ Hs) Hf) as Hra. cbn zeta in Hra.
    set (l := fails_after uid w w' (l_fails g)) in *.
    assert (forall l' o m, (forall x, (forall u, rows !! uid = Some u -> 0 <= u_FailedLoginAttempts u /\ row_counts p t l' u) /\ (x ∈ l' -> lf_at x <= t) /\ (l = l_fails g \/ l = [])) ->
      lim_ok (n + 1) f -> acct_mem p uid f (w_clock w') l' o -> linv p uid (n + 1) w' (mkL l' o m)) as Hfin.
    { intros l' o m Hr Hlf Hm. apply (linv_of rows f w' l' o m Hs Hlf Hm).
      - intros v Hv. destruct (Hr (mkF 0 true)) as (Hr1&_&_). destruct (Hr1 v Hv). split; [done|]. eapply row_counts_time; [done|lia].
      - intros x Hx. destruct (Hr x) as (_&Hr2&_). specialize (Hr2 Hx). lia. }
    assert (l = l_fails g \/ l = []) as Hl by apply (Hra (mkF 0 true)).
    destruct (fail_result p uid w) as [[[| |until cnt] o]|e]; intros Hmost.
    + subst f. apply Hfin; [done|apply lim_next|]. apply acct_after; [lia|done].
    + subst f. apply Hfin; [done|apply lim_next|]. apply acct_row_fail; [|done]. apply acct_after; [lia|done].
    + subst f. apply Hfin; [done|apply lim_next|]. apply acct_after; [lia|done].
    + destruct Hmem as (t'&Ht'&->). apply Hfin; [done|apply reserve_lim, Hinv|].
      apply (acct_time (t := t')); [|lia]. apply (acct_fail_self Hp (acct_after l t Ht1 Hl) n); [apply Hinv|lia|lia|lia].
  - rewrite !(bool_decide_false (u = uid)) by done.
    assert (forall o m, lim_ok (n + 1) f -> acct_mem p uid f (w_clock w') (l_fails g) o -> linv p uid (n + 1) w' (mkL (l_fails g) o m)) as Hfin.
    { intros o m Hlf Hm. apply (linv_of rows f w' _ o m Hs Hlf Hm).
      - rewrite (failed_row_other u t rows _ Hne Hf). intros v. apply row_now. lia.
      - intros x. apply times_now. lia. }
    assert (linv p uid (n + 1) w' (mkL (l_fails g) (l_others g) (l_most g)) -> linv p uid (n + 1) w' g) as Hg by by rewrite <- ghost_eta.
    destruct (fail_result p u w) as [[[| |until cnt] o]|e]; intros Hmost;
      [subst f; apply Hg, Hfin; [apply lim_next|apply acct_after; [lia|by left]]..|].
    destruct Hmem as (t'&Ht'&->). cbn [l_most] in Hmost. apply Hfin; [apply reserve_lim, Hinv|].
    apply (acct_time (t := t')); [|lia].
    apply (acct_fail_other (acct_after (l_fails g) t Ht1 ltac:(by left)) n); [done..|apply Hinv|lia|lia|lia].
Qed.

Lemma remote_effect u : exists rows, ustep rows (fallback_of acct w) w (snd (remote_fail p u w)) /\
  w_clock (snd (remote_fail p u w)) = fst (now w) /\ w_clock w <= fst (now w) /\
  exists r, failed_row p u (fst (now w)) (d_users (w_db w)) rows r /\
    match r with Ok (c, _) => fst (remote_fail p u w) = c | Err _ => fst (remote_fail p u w) = Unchanged /\ rows = d_users (w_db w) end.
Proof.
  unfold remote_fail, bind. destruct (now_step acct w) as (H1&Et&Hle). destruct (now w) as [t w1]. cbn [fst snd] in *.
  apply ustep_lim in H1. pose proof (us_rows _ _ _ _ H1) as Er. rewrite Er.
  destruct (d_users (w_db w) !! u) as [v|] eqn:Ev; cbn [fst snd].
  2: { eexists. split_and!; [exact H1|done|done|]. exists (Err ErrNotFound). split; [constructor|done]. }
  destruct (failed_update p t v) as [c [v'|]] eqn:Ef; cbn [fst snd].
  - exists (<[u := v']> (d_users (w_db w))). split_and!; [|done|done|].
    + destruct H1 as [? ? ?]. constructor; [done| |done]. cbn. rewrite (put_user_rows _ _ v); congruence.
    + exists (Ok (c, Some v')). split; [by eapply FailedCounted|done].
  - pose proof (failed_update_none _ _ _ _ Ef) as ->. eexists. split_and!; [exact H1|done|done|]. exists (Ok (Unchanged, None)). split; [by eapply FailedLocked|done].
Qed.

Lemma linv_remote_fail u : linv p uid (n + 1) (lexec p (LRemoteFail u) w) (lghost_step p uid (LRemoteFail u) w g).
Proof.
  destruct (remote_effect u) as (rows&Hs&Hc&Ht&r&Hf&Hr). cbn [lexec lghost_step]. set (w' := snd (remote_fail p u w)) in *. set (t := fst (now w)) in *.
  destruct (decide (u = uid)) as [->|Hne].
  - rewrite !(bool_decide_true (uid = uid)) by done.
    pose proof (fun x => row_after t rows _ w' x Ht (us_rows _ _ _ _ Hs) Hf) as Hra. cbn zeta in Hra.
    set (l := fails_after uid w w' (l_fails g)) in *. assert (l = l_fails g \/ l = []) as Hl by apply (Hra (mkF 0 true)).
    assert (forall l', (forall x, (forall u, rows !! uid = Some u -> 0 <= u_FailedLoginAttempts u /\ row_counts p t l' u) /\ (x ∈ l' -> lf_at x <= t) /\ (l = l_fails g \/ l = [])) ->
      acct_mem p uid (fallback_of acct w) t l' (l_others g) -> linv p uid (n + 1) w' (mkL l' (l_others g) (l_most g))) as Hfin.
    { intros l' Hx Hm. apply (linv_of rows _ w' l' _ _ Hs lim_next); rewrite Hc; [done|apply (Hx (mkF 0 true))|intros x; apply (Hx x)]. }
    destruct r as [[c o]|e].
    + rewrite Hr. destruct c; apply Hfin; try done; [by apply acct_after|apply acct_row_fail; [|done]; by apply acct_after|by apply acct_after].
    + destruct Hr as [-> ->]. apply Hfin; [|by apply acct_after]. intros x.
      assert (l = l_fails g) as -> by (apply lockout_counts_same; by rewrite (us_rows _ _ _ _ Hs)).
      split_and!; [intros v; by apply row_now|by apply times_now|by left].
  - rewrite !(bool_decide_false (u = uid)) by done.
    assert (linv p uid (n + 1) w' g) as Hg; [|by destruct (fst (remote_fail p u w))]. rewrite ghost_eta.
    apply (linv_of rows _ w' _ _ _ Hs lim_next); rewrite Hc; [by apply acct_after; [|left]| |intros x; by apply times_now].
    rewrite (failed_row_other u t rows _ Hne Hf). intros v. by apply row_now.
Qed.

(** Clearing: this account's history ends, another's leaves it alone. *)
Lemma linv_cleared u rows f w' : 0 <= u -> ustep rows f w w' -> lim_ok (n + 1) f ->
  acct_mem p uid f (w_clock w') (if bool_decide (u = uid) then [] else l_fails g) (l_others g) ->
  rows = d_users (w_db w) \/ rows = put_rows u w ->
  linv p uid (n + 1) w' (if bool_decide (u = uid) then mkL [] (l_others g) (l_most g) else g).
Proof.
  intros Hu Hs Hlf Hm Hrows. pose proof (us_clock _ _ _ _ Hs) as Hc.
  destruct (decide (u = uid)) as [->|Hne].
  - rewrite (bool_decide_true (uid = uid)) in Hm |- * by done. apply (linv_of rows f w' _ _ _ Hs Hlf Hm); [|set_solver].
    intros v Hv. assert (0 <= u_FailedLoginAttempts v) as H0; [|split; [done|by apply row_counts_nil]].
    destruct Hrows as [-> | ->]; [by apply (li_row _ _ _ _ _ Hinv)|]. rewrite put_rows_lookup, bool_decide_true in Hv by done.
    destruct (d_users (w_db w) !! uid); simplify_eq. done.
  - rewrite (bool_decide_false (u = uid)) in Hm |- * by done. rewrite ghost_eta.
    apply (linv_of rows f w' _ _ _ Hs Hlf Hm); [|intros; by apply times_now].
    intros v Hv. apply row_now; [done|]. destruct Hrows as [-> | ->]; [done|]. by rewrite put_rows_lookup, bool_decide_false in Hv.
Qed.

Lemma clear_lim key f : lim_ok n f -> lim_ok (n + 1) (clear key f).
Proof. intros (s&Hs&?&?). destruct (clear_models f s key Hs) as [[? ?] ?]. eexists. split_and!; [done|congruence|lia]. Qed.

Lemma linv_clear u snap : 0 <= u -> linv p uid (n + 1) (lexec p (LClear u snap) w) (lghost_step p uid (LClear u snap) w g).
Proof.
  intros Hu. destruct (clear_effect p u snap w) as (rows&Hs&Hrows). cbn [lexec lghost_step].
  apply (linv_cleared u rows _ _ Hu Hs); [apply clear_lim, Hinv| |done].
  apply (acct_clear (acct_time (li_mem _ _ _ _ _ Hinv) _ (us_clock _ _ _ _ Hs)) u Hu Huid).
Qed.

Lemma linv_unlock admin u : 0 <= u -> linv p uid (n + 1) (lexec p (LUnlock admin u) w) (lghost_step p uid (LUnlock admin u) w g).
Proof.
  intros Hu. destruct (unlock_effect p admin u w) as (rows&f&Hs&Hrows&Hf). cbn [lexec lghost_step].
  pose proof (us_clock _ _ _ _ Hs) as Hc. pose proof (acct_time (li_mem _ _ _ _ _ Hinv) _ Hc) as Hm.
  destruct Hf as [[-> Hres]|[-> Hres]]; rewrite Hres; cbn [orb].
  - destruct (bool_decide (u = uid) && _) eqn:E.
    + apply andb_prop in E as [E _]. pose proof (linv_cleared u rows _ _ Hu Hs lim_next) as H. rewrite E in H.
      apply H; [by apply (acct_cut Hm)|done].
    + rewrite ghost_eta. apply (linv_of rows _ _ _ _ _ Hs lim_next Hm); [|intros; by apply times_now].
      intros v Hv. apply row_now; [done|]. rewrite <- Hv, <- (us_rows _ _ _ _ Hs). destruct (decide (u = uid)) as [->|Hne].
      * rewrite bool_decide_true in E by done. cbn in E. by breflect.
      * rewrite (us_rows _ _ _ _ Hs). destruct Hrows as [-> | ->]; [done|]. by rewrite put_rows_lookup, bool_decide_false.
  - rewrite Bool.andb_true_r. apply (linv_cleared u rows _ _ Hu Hs); [apply clear_lim, Hinv| |done]. by apply (acct_clear Hm).
Qed.

Lemma linv_remote_clear u : 0 <= u -> linv p uid (n + 1) (lexec p (LRemoteClear u) w) (lghost_step p uid (LRemoteClear u) w g).
Proof.
  intros Hu. cbn [lexec lghost_step].
  assert (ustep (put_rows u w) (fallback_of acct w) w (set_db (put_user u cleared_user (w_db w)) w)) as Hs by (by constructor; cbn; [lia|..]).
  apply (linv_cleared u _ _ _ Hu Hs lim_next); [|by right]. pose proof (li_mem _ _ _ _ _ Hinv) as Hm.
  case_bool_decide; [by apply (acct_cut Hm)|done].
Qed.

Lemma linv_step o : 0 <= lop_uid o -> (l_most (lghost_step p uid o w g) < authFallbackMaxKeys)%nat ->
  linv p uid (n + 1) (lexec p o w) (lghost_step p uid o w g).
Proof.
  intros Hu Hmost. assert (1 <= p_MaxAttempts p) by (destruct Hp as (_&?&_); lia).
  destruct o as [u snap|u snap|u snap|u snap|admin u|u|u]; cbn [lop_uid] in Hu.
  - by apply linv_fail.
  - by apply (linv_read u), check_effect.
  - apply (linv_read u). apply recheck_effect; [done|apply Hp].
  - by apply linv_clear.
  - by apply linv_unlock.
  - apply linv_remote_fail.
  - by apply linv_remote_clear.
Qed.

End LStep.

(** * Runs *)

Lemma lstarted p uid w : w_fallbacks w = ∅ -> (forall u, d_users (w_db w) !! uid = Some u -> 0 <= u_FailedLoginAttempts u) -> linv p uid 0 w lghost0.
Proof.
  intros Hf Hu. assert (fallback_of acct w = newAuthFallbackLimiter authFallbackMaxKeys) as Hfb by (unfold fallback_of; by rewrite Hf, lookup_empty).
  constructor.
  - rewrite Hfb. exists []. split_and!; [apply models_new|done|done].
  - rewrite Hfb. exists [], [], [], ∅. split; [|constructor]. constructor; try done; [apply models_new|..]; intros; try set_solver. constructor.
  - intros u Hrow. specialize (Hu u Hrow). split; [done|by apply row_counts_nil].
  - cbn. set_solver.
Qed.

Lemma lmost_mono p uid o w g : (l_most g <= l_most (lghost_step p uid o w g))%nat.
Proof. destruct o; cbn -[fail_result remote_fail UnlockUser]; repeat case_match; cbn; lia. Qed.
Lemma lrun_most p uid ops w g : (l_most g <= l_most (snd (lrun p uid ops w g)))%nat.
Proof. revert w g. induction ops as [|o ops IH]; intros w g; [done|]. cbn. etrans; [apply (lmost_mono p uid o w)|apply IH]. Qed.

Lemma lrun_inv p uid ops n w g : policy_ok p -> 0 <= uid -> Forall (fun o => 0 <= lop_uid o) ops -> linv p uid n w g ->
  n + Z.of_nat (length ops) < 2 ^ 62 -> (l_most (snd (lrun p uid ops w g)) < authFallbackMaxKeys)%nat ->
  linv p uid (n + Z.of_nat (length ops)) (fst (lrun p uid ops w g)) (snd (lrun p uid ops w g)).
Proof.
  intros Hp Hu Hops. revert n w g. induction Hops as [|o ops Ho Hops IH]; intros n w g Hi Hn Hm; cbn [lrun length] in *; [by rewrite Z.add_0_r|].
  replace (n + Z.of_nat (S (length ops))) with ((n + 1) + Z.of_nat (length ops)) by lia. apply IH; [|lia|done].
  apply (linv_step Hp Hu Hi); [lia|done|]. eapply Nat.le_lt_trans; [apply lrun_most|exact Hm].
Qed.

(** A check that passes in a state of the invariant. *)
Lemma recheck_passes p uid n w g snap : policy_ok p -> linv p uid n w g -> snd (fst (recheckLoginLockFailClosed p uid snap w)) = None ->
  let t := w_clock (snd (recheckLoginLockFailClosed p uid snap w)) in
  exists u, d_users (w_db w) !! uid = Some u /\ locked_at t u = false /\
    Z.of_nat (length (inside (t - p_Window p) (l_fails g))) < p_MaxAttempts p.
Proof.
  intros Hp Hinv Hnone t. assert (1 <= p_MaxAttempts p) as Hmax by (destruct Hp as (_&?&_); lia).
  destruct (recheck_effect p uid snap w Hmax) as [_ Hpass]; [apply Hp|].
  destruct (Hpass Hnone) as (u&t2&t3&Hu&Ht2&Ht3&Hlock&Hcnt). fold t in Ht3, Hlock. exists u. split_and!; [done|..].
  - unfold locked_at. destruct (u_LoginLockedUntil u); [|done]. apply Z.ltb_ge. lia.
  - rewrite inside_split. destruct (li_row _ _ _ _ _ Hinv u Hu) as [_ Hr]. specialize (Hr t2 ltac:(lia)).
    pose proof (acct_counts Hp (li_mem _ _ _ _ _ Hinv) t3 ltac:(lia)) as Hmem.
    pose proof (inside_le (t2 - p_Window p) (t - p_Window p) (on_row (l_fails g)) ltac:(lia)).
    pose proof (inside_le (t3 - p_Window p) (t - p_Window p) (in_memory (l_fails g)) ltac:(lia)).
    assert (0 <= stored_bound p u t2) by lia. lia.
Qed.

(** C12. No session for an account whose failures are spent.  After any sequence of
    failures, checks, delivered logins and unlocks of any accounts, with every
    statement running, failing or losing its acknowledgement and other replicas
    counting on the same rows, if the check before a session passes then the
    account is outside its stored lock, and of the failures since they were last
    cleared or locked for, on the row and in this process's memory together, fewer
    than MaxAttempts lie inside the window.  Fewer than 10000 other accounts used
    the memory since this one did. *)
Theorem session_needs_unspent_failures (p : LoginLockoutPolicy) (uid : Z) (ops : list lop) (w0 : world) (snap : user) :
  policy_ok p -> 0 <= uid -> Forall (fun o => 0 <= lop_uid o) ops -> w_fallbacks w0 = ∅ ->
  (forall u, d_users (w_db w0) !! uid = Some u -> 0 <= u_FailedLoginAttempts u) -> Z.of_nat (length ops) < 2 ^ 62 ->
  let '(w, g) := lrun p uid ops w0 lghost0 in
  (l_most g < authFallbackMaxKeys)%nat ->
  snd (fst (recheckLoginLockFailClosed p uid snap w)) = None ->
  let t := w_clock (snd (recheckLoginLockFailClosed p uid snap w)) in
  exists u, d_users (w_db w) !! uid = Some u /\ locked_at t u = false /\
    Z.of_nat (length (inside (t - p_Window p) (l_fails g))) < p_MaxAttempts p.
Proof.
  intros Hp Hu Hops Hf Hrow Hn. pose proof (lrun_inv p uid ops 0 w0 lghost0 Hp Hu Hops (lstarted p uid w0 Hf Hrow) Hn) as Hrun.
  destruct (lrun p uid ops w0 lghost0) as [w g]. intros Hm. eapply recheck_passes; [done|by apply Hrun].
Qed.

(** Four failures of an account that locks at six: two on the row, one whose
    transaction fails, one whose commit is lost; then the check passes. *)
Definition ex_policy : LoginLockoutPolicy := mkPolicy true 6 (15 * minute) minute (60 * minute).
Definition ex_lworld : world :=
  mkWorld 1000 [5; 7]%N [Runs; Runs; Runs; Fails; Runs; Runs; Lost] [] (mkDb [] 0 {[ 7 := cleared_user; 8 := cleared_user ]}) ∅ ∅ 1 [].
Definition ex_lops : list lop :=
  [LFail 7 cleared_user; LFail 7 cleared_user; LFail 7 cleared_user; LRemoteFail 7; LCheck 7 cleared_user; LFail 8 cleared_user; LClear 8 cleared_user].

Lemma session_needs_unspent_failures_witness :
  Z.of_nat (length (l_fails (snd (lrun ex_policy 7 ex_lops ex_lworld lghost0)))) = 4 /\
  exists u, d_users (w_db (fst (lrun ex_policy 7 ex_lops ex_lworld lghost0))) !! 7 = Some u /\ u_FailedLoginAttempts u = 3.
Proof.
  split; [vm_compute; reflexivity|].
  pose proof (session_needs_unspent_failures ex_policy 7 ex_lops ex_lworld cleared_user ltac:(vm_compute; intuition congruence) ltac:(lia)
    ltac:(repeat constructor; cbn; lia) eq_refl ltac:(vm_compute; intros u [= <-]; cbn; congruence) ltac:(vm_decide)) as H.
  rewrite (surjective_pairing (lrun ex_policy 7 ex_lops ex_lworld lghost0)) in H. cbv beta iota zeta in H.
  specialize (H ltac:(vm_decide) ltac:(vm_compute; reflexivity)). destruct H as (u&Hu&_&_). exists u. split; [exact Hu|].
  revert Hu. vm_compute. intros [= <-]. reflexivity.
Defined.

(** * The lock ends *)

Lemma time_gone p t t' l : 0 <= p_Window p < 2 ^ 63 - 1 -> t <= t' -> p_Window p < time_sub t l -> (time_sub t' l <=? p_Window p) = false.
Proof.
  intros Hw Ht Hl. rewrite time_sub_le by done. apply Z.leb_gt. pose proof (time_sub_le p t l Hw) as E.
  destruct (Z.leb_spec (time_sub t l) (p_Window p)), (Z.leb_spec (t - l) (p_Window p)); try done; lia.
Qed.

(** The memory holds nothing of the account from before the window. *)
Lemma acct_aged p uid f t t' l o : acct_mem p uid f t l o -> t + p_Window p < t' ->
  fst (count (accountBudgetKey uid) (t' - p_Window p) true f) = 0.
Proof.
  intros (s&A1&A2&L&Ht&_) Hlt. pose proof (count_models f s (accountBudgetKey uid) (t' - p_Window p) true (tk_models _ _ _ _ _ _ _ _ _ Ht)) as Hc.
  destruct (count _ _ _ _) as [c f']. destruct Hc as (->&_&_). cbn [fst].
  replace (s_prune _ _) with (@nil attempt); [done|]. symmetry. apply elem_of_nil_inv. intros a [Ha Hb]%elem_of_filter_bool.
  assert (a_at a <= t) as Hat by (eapply (tk_le _ _ _ _ _ _ _ _ _ Ht), elem_of_sublist; [exact Ha|apply Ht]).
  unfold before in Hb. breflect. lia.
Qed.

Lemma spent_aged p uid u w l o : policy_ok p -> acct_mem p uid (fallback_of acct w) (w_clock w) l o ->
  (forall t, fst (now w) <= t -> stored_bound p u t = 0) -> w_clock w + p_Window p < fst (now w) ->
  forall w1, fallback_of acct w1 = fallback_of acct w -> (w_clock w1 = w_clock w /\ w_ticks w1 = w_ticks w \/ fst (now w) <= w_clock w1) ->
  fst (accountFailuresSpent p uid u w1) = false.
Proof.
  intros (_&Hmax&Hwin) Hm Hst Hgap w1 Hfb Hclk. unfold accountFailuresSpent, bind.
  assert (fst (now w) <= fst (now w1)) as Hnow by (destruct Hclk as [[E1 E2]|?]; cbn in *; [rewrite E1, E2; lia|lia]).
  assert (fst (storedFailures p u w1) = 0 /\ fallback_of acct (snd (storedFailures p u w1)) = fallback_of acct w /\
    fst (now w) <= fst (now (snd (storedFailures p u w1)))) as (E1&E2&E3).
  { unfold storedFailures, bind, ret. pose proof (Hst (fst (now w1)) Hnow) as Hs. unfold stored_bound in Hs.
    destruct (u_LastFailedLoginAt u) as [l0|]; [|done]. destruct (now_step acct w1) as (H1&Et&Hle). destruct (now w1) as [t w2]. cbn [fst snd] in *.
    split_and!; [done|by rewrite (ls_self _ _ _ _ H1)|]. destruct (now_step acct w2) as (_&_&Hle2). lia. }
  destruct (storedFailures p u w1) as [st w2]. cbn [fst snd] in *. subst st. unfold budgetFallbackLimitedWithStored, bind.
  change (b_limit (accountBudget p)) with (p_MaxAttempts p). rewrite (proj2 (Z.leb_gt _ _)) by lia.
  destruct (now_step acct w2) as (H3&Et&Hle). destruct (now w2) as [t3 w3]. cbn [fst snd] in *.
  destruct (on_fallback_step (accountBudget p) (count (accountBudgetKey uid) (t3 - b_window (accountBudget p)) true) w3) as (_&Em&_).
  change (b_name (accountBudget p)) with acct in Em. rewrite (ls_self _ _ _ _ H3), E2 in Em.
  change (b_window (accountBudget p)) with (p_Window p) in *. rewrite (acct_aged p uid _ _ t3 l o Hm) in Em by lia.
  destruct (on_fallback _ _ w3) as [mem w4]. cbn [fst] in Em. subst mem. unfold fallbackLimit, ret. cbn [fst].
  apply Bool.orb_false_iff. split; apply Z.leb_gt; lia.
Qed.

(** The account check runs no statement. *)
Lemma spent_faults p uid u w : w_faults (snd (accountFailuresSpent p uid u w)) = w_faults w.
Proof.
  assert (forall w0, w_faults (snd (storedFailures p u w0)) = w_faults w0) as H1 by (intros w0; unfold storedFailures; by destruct (u_LastFailedLoginAt u)).
  specialize (H1 w). unfold accountFailuresSpent, bind. destruct (storedFailures p u w) as [st w1]. cbn [snd] in H1. rewrite <- H1.
  unfold budgetFallbackLimitedWithStored, bind. destruct (_ <=? 0); [done|]. cbn -[count fallback_of]. unfold on_fallback. by destruct (count _ _ _ _).
Qed.

(** A lock ends by itself.  After any sequence of operations, once the stored lock has
    expired, the last stored failure is older than the window and the window has
    passed since the last operation, the check passes when the database answers. *)
Theorem lockout_expires (p : LoginLockoutPolicy) (uid : Z) (ops : list lop) (w0 : world) (snap : user) :
  policy_ok p -> 0 <= uid -> Forall (fun o => 0 <= lop_uid o) ops -> w_fallbacks w0 = ∅ ->
  (forall u, d_users (w_db w0) !! uid = Some u -> 0 <= u_FailedLoginAttempts u) -> Z.of_nat (length ops) < 2 ^ 62 ->
  let '(w, g) := lrun p uid ops w0 lghost0 in
  (l_most g < authFallbackMaxKeys)%nat ->
  let t := fst (now w) in
  forall u, d_users (w_db w) !! uid = Some u -> locked_at t u = false ->
  (forall l, u_LastFailedLoginAt u = Some l -> p_Window p < time_sub t l) -> w_clock w + p_Window p < t ->
  default Runs (head (w_faults w)) = Runs -> default Runs (head (tail (w_faults w))) = Runs ->
  snd (fst (recheckLoginLockFailClosed p uid snap w)) = None.
Proof.
  intros Hp Hu Hops Hf Hrow Hn. pose proof (lrun_inv p uid ops 0 w0 lghost0 Hp Hu Hops (lstarted p uid w0 Hf Hrow) Hn) as Hrun.
  destruct (lrun p uid ops w0 lghost0) as [w g]. intros Hmost t u Eu Hlock Hlast Hgap Hf1 Hf2. pose proof (Hrun Hmost) as Hinv. cbn [fst snd] in Hinv.
  assert (forall t', t <= t' -> stored_bound p u t' = 0) as Hst.
  { intros t' Ht'. unfold stored_bound. destruct (u_LastFailedLoginAt u) as [l|]; [|done]. rewrite (time_gone p t t' l); [done|apply Hp|done|by apply Hlast]. }
  unfold recheckLoginLockFailClosed, with_user_tx, LockUserForUpdate, query, next_fault, get_user, bind. rewrite (proj1 Hp). cbv beta iota zeta delta [negb]. rewrite Hf1.
  set (w1 := mkWorld (w_clock w) _ _ _ _ _ _ _ _). change (w_db w1) with (w_db w). rewrite Eu. unfold recheck_body, bind.
  assert (fst (stored_lock u w1) = false /\ fallback_of acct (snd (stored_lock u w1)) = fallback_of acct w /\ w_faults (snd (stored_lock u w1)) = tail (w_faults w) /\
    (w_clock (snd (stored_lock u w1)) = w_clock w /\ w_ticks (snd (stored_lock u w1)) = w_ticks w \/ t <= w_clock (snd (stored_lock u w1)))) as (E1&E2&E3&E4).
  { unfold stored_lock, bind, ret. unfold locked_at in Hlock. destruct (u_LoginLockedUntil u) as [until|]; [|by split_and!; [..|left]].
    split_and!; [exact Hlock|done|done|]. right. unfold t. cbn. lia. }
  destruct (stored_lock u w1) as [lk w2]. cbn [fst snd] in *. subst lk.
  pose proof (spent_aged p uid u w _ _ Hp (li_mem _ _ _ _ _ Hinv) Hst Hgap w2 E2 E4) as Hsp.
  assert (w_faults (snd (accountFailuresSpent p uid u w2)) = tail (w_faults w)) as E5 by (rewrite <- E3; apply spent_faults).
  destruct (accountFailuresSpent p uid u w2) as [sp w3]. cbn [fst snd ret] in *. subst sp.
  unfold stmt, next_fault. rewrite E5, Hf2. done.
Qed.

Definition quiet_world : world := mkWorld 1000 [0; 0; 0; 2000000000000]%N [Runs; Runs; Fails] [] (mkDb [] 0 {[ 7 := mkUser 2 (Some 900) None 0 ]}) ∅ ∅ 1 [].
Lemma lockout_expires_witness :
  snd (fst (recheckLoginLockFailClosed ex_policy 7 cleared_user (fst (lrun ex_policy 7 [LFail 7 cleared_user] quiet_world lghost0)))) = None.
Proof.
  pose proof (lockout_expires ex_policy 7 [LFail 7 cleared_user] quiet_world cleared_user ltac:(vm_compute; intuition congruence) ltac:(lia)
    ltac:(repeat constructor; cbn; lia) eq_refl ltac:(vm_compute; intros u [= <-]; cbn; congruence) ltac:(vm_decide)) as H.
  rewrite (surjective_pairing (lrun ex_policy 7 [LFail 7 cleared_user] quiet_world lghost0)) in H. cbv beta iota zeta in H.
  specialize (H ltac:(vm_decide) (mkUser 2 (Some 900) None 0) ltac:(vm_compute; reflexivity) ltac:(vm_compute; reflexivity)).
  specialize (H ltac:(intros l [= <-]; vm_compute; reflexivity) ltac:(vm_compute; reflexivity) ltac:(vm_compute; reflexivity) ltac:(vm_compute; reflexivity)).
  exact H.
Defined.

(** * Unlocking *)

(** An unlock is never unrecorded, whatever fails: the account's columns are cleared
    exactly when the audit event is written with them; success also clears this
    process's memory of the account, and an error leaves that memory in force. *)
Theorem unlock_is_audited (p : LoginLockoutPolicy) (admin uid : Z) (w : world) :
  let '(r, w') := UnlockUser p admin uid w in
  let unlocked := d_users (w_db w') = put_rows uid w /\ w_events w' = w_events w ++ [EventAccountUnlocked uid admin] in
  let untouched := d_users (w_db w') = d_users (w_db w) /\ w_events w' = w_events w in
  match r with
  | Ok _ => unlocked /\ fallback_of acct w' = clear (accountBudgetKey uid) (fallback_of acct w)
  | Err ErrUnlockFailed => (unlocked \/ untouched) /\ fallback_of acct w' = fallback_of acct w
  | Err _ => untouched /\ fallback_of acct w' = fallback_of acct w
  end.
Proof.
  unfold UnlockUser, query, next_fault, get_user, bind, ret. destruct (uid =? 0); [done|].
  destruct (default Runs (head (w_faults w))) eqn:E1; cbn -[budgetFallbackClear fallback_of put_user]; rewrite ?E1; [|done..].
  destruct (d_users (w_db w) !! uid); cbn -[budgetFallbackClear fallback_of put_user]; [|done].
  destruct (default Runs (head (tail (w_faults w)))); cbn -[budgetFallbackClear fallback_of put_user]; [|by split; [right|]..].
  destruct (default Runs (head (tail (tail (w_faults w))))); cbn -[budgetFallbackClear fallback_of put_user]; [|by split; [right|]..].
  destruct (default Runs (head (tail (tail (tail (w_faults w)))))); cbn -[budgetFallbackClear fallback_of put_user]; [|by split; [right|]|by split; [left|]].
  unfold budgetFallbackClear, on_fallback_, on_fallback. cbn -[fallback_of clear put_user]. split; [done|].
  change (b_name (accountBudget p)) with acct. unfold fallback_of at 1. cbn -[fallback_of clear]. by rewrite lookup_insert_eq.
Qed.
