(* ===== verification/DepGraph.v ===== *)
(** The dependency graph of a project's secrets (src/internal/core/secret_dependencies.go,
    rotation_planner.go; src/internal/storage/store/local_secret_dependencies.go): the
    pure functions over its edges.

    An edge says that one secret depends on another.  [dependencyReachable] is the
    search that keeps the graph acyclic, [transitiveDependents] and [blastBFS] the
    impact of a change, [topologicalRotationOrder] and [rotationWaves] the orders in
    which secrets are rotated.  This file holds the functions and the correctness of
    the search; DepImpact.v and DepOrder.v have the others. *)
From Stdlib Require Import ZArith Lia.
From stdpp Require Import base numbers tactics relations sorting sets list gmap.
From S2P Require Import Prelude.

Record SecretDependency := mkDep {
  d_ID : Z; d_ProjectID : Z;
  d_Dependent : Z; d_DependsOn : Z;
  d_Note : bytes; d_CreatedBy : Z; d_CreatedByMachine : Z; d_CreatedAt : Z }.

#[export] Instance dep_eq_decision : EqDecision SecretDependency.
Proof. solve_decision. Defined.

(** * Sorting

    [sort.Slice] with the order of its argument; no two elements of the lists it is
    used on are equal in it. *)
Section sort_with.
Context {A : Type} (before : A -> A -> bool).

Fixpoint insert_with (x : A) (l : list A) : list A :=
  match l with
  | [] => [x]
  | y :: l => if before x y then x :: y :: l else y :: insert_with x l
  end.
Definition sort_with (l : list A) : list A := foldr insert_with [] l.

Lemma insert_with_perm x l : insert_with x l ≡ₚ x :: l.
Proof. induction l as [|y l IH]; cbn [insert_with]; [done|]. destruct (before x y); [done|]. rewrite IH. apply Permutation_swap. Qed.
Lemma sort_with_perm l : sort_with l ≡ₚ l.
Proof. induction l as [|x l IH]; cbn; [done|]. by rewrite insert_with_perm, IH. Qed.

Context (total : forall x y, before x y = false -> before y x = true) (trans : forall x y z, before x y = true -> before y z = true -> before x z = true).
Lemma sort_with_sorted l : Sorted (fun x y => before x y = true) (sort_with l).
Proof.
  assert (forall x l, StronglySorted (fun x y => before x y = true) l -> StronglySorted (fun x y => before x y = true) (insert_with x l)) as H.
  { intros x. induction l0 as [|y l0 IH]; intros Hs; cbn [insert_with]; [repeat constructor|]. apply StronglySorted_inv in Hs as [Hs Hy].
    destruct (before x y) eqn:E; constructor; [by constructor| |auto|].
    - constructor; [done|]. eapply Forall_impl; [exact Hy|]. intros z. by apply trans.
    - rewrite Forall_forall in *. intros z. rewrite insert_with_perm. intros [-> |Hz]%elem_of_cons; [auto|by apply Hy]. }
  apply StronglySorted_Sorted. induction l as [|x l IH]; cbn; [constructor|]. by apply H.
Qed.
End sort_with.

(** * Adjacency *)

(** A Go [map[uint][]uint]; an absent key reads as the empty list. *)
Abbreviation adjacency := (gmap Z (list Z)).
Definition at_key (k : Z) (m : adjacency) : list Z := default [] (m !! k).
Definition append_at (k v : Z) (m : adjacency) : adjacency := <[k := at_key k m ++ [v]]> m.

Definition depends_adj (edges : list SecretDependency) : adjacency :=
  fold_left (fun m e => append_at (d_Dependent e) (d_DependsOn e) m) edges ∅.
Definition dependents_adj (edges : list SecretDependency) : adjacency :=
  fold_left (fun m e => append_at (d_DependsOn e) (d_Dependent e) m) edges ∅.

Definition sort_ids (l : list Z) : list Z := sort_by (fun x => x) l.
Definition dependentsAdjacency (edges : list SecretDependency) : adjacency := sort_ids <$> dependents_adj edges.

(** * Reachability *)

(** The inner loop: [None] when [to] was found. The stack has its top first. *)
Fixpoint scan_next (to : Z) (l : list Z) (seen : gset Z) (stack : list Z) : option (gset Z * list Z) :=
  match l with
  | [] => Some (seen, stack)
  | next :: l =>
      if next =? to then None
      else if bool_decide (next ∈ seen) then scan_next to l seen stack
      else scan_next to l ({[next]} ∪ seen) (next :: stack)
  end.

(** [None]: the fuel ran out. *)
Fixpoint reach_loop (fuel : nat) (adj : adjacency) (to : Z) (seen : gset Z) (stack : list Z) : option bool :=
  match fuel with
  | O => None
  | S fuel =>
      match stack with
      | [] => Some false
      | n :: stack =>
          match scan_next to (at_key n adj) seen stack with
          | None => Some true
          | Some (seen, stack) => reach_loop fuel adj to seen stack
          end
      end
  end.

(** Every node but the first is pushed once, as the target of an edge. *)
Definition dependencyReachable (edges : list SecretDependency) (from to : Z) : option bool :=
  reach_loop (S (S (length edges))) (depends_adj edges) to {[from]} [from].

(** * Impact *)

Record impacted := mkImpacted { im_id : Z; im_depth : Z }.

Record bfs := mkBfs { s_seen : gset Z; s_out : list impacted; s_queue : list impacted; s_trunc : bool }.

(** The neighbours of a node at [depth]: [mark] says whether a full result counts as
    truncated; the result says whether the loop was left early. *)
Fixpoint visit (mark : bool) (maxNodes maxDepth depth : Z) (l : list Z) (s : bfs) : bfs :=
  match l with
  | [] => s
  | dep :: l =>
      if bool_decide (dep ∈ s_seen s) then visit mark maxNodes maxDepth depth l s
      else
        let next := mkImpacted dep (depth + 1) in
        let out := s_out s ++ [next] in
        let '(queue, trunc) := if depth + 1 <? maxDepth then (s_queue s ++ [next], s_trunc s) else (s_queue s, true) in
        if maxNodes <=? Z.of_nat (length out) then mkBfs ({[dep]} ∪ s_seen s) out queue (mark || trunc)
        else visit mark maxNodes maxDepth depth l (mkBfs ({[dep]} ∪ s_seen s) out queue trunc)
  end.

Fixpoint bfs_loop (fuel : nat) (mark : bool) (maxNodes maxDepth : Z) (adj : adjacency) (s : bfs) : option bfs :=
  match s_queue s with
  | [] => Some s
  | cur :: queue =>
      if Z.of_nat (length (s_out s)) <? maxNodes then
        match fuel with
        | O => None
        | S fuel =>
            bfs_loop fuel mark maxNodes maxDepth adj
              (visit mark maxNodes maxDepth (im_depth cur) (at_key (im_id cur) adj) (mkBfs (s_seen s) (s_out s) queue (s_trunc s)))
        end
      else Some s
  end.

Definition bfs_start (root : Z) : bfs := mkBfs {[root]} [] [mkImpacted root 0] false.

Definition maxDependencyBFSNodes : Z := 2000.
Definition maxDependencyBFSDepth : Z := 10.
Definition maxBlastRadiusNodes : Z := 2000.
Definition blast_maxDepth : Z := 10.

Definition transitiveDependents (edges : list SecretDependency) (secretID : Z) : option (list impacted * bool) :=
  s ← bfs_loop (S (length edges)) true maxDependencyBFSNodes maxDependencyBFSDepth (dependentsAdjacency edges) (bfs_start secretID);
  Some (s_out s, s_trunc s).

(** By depth and id. *)
Definition blast_before (x y : impacted) : bool :=
  (im_depth x <? im_depth y) || ((im_depth x =? im_depth y) && (im_id x <=? im_id y)).
Definition blast_sort (l : list impacted) : list impacted := sort_with blast_before l.

Definition blastBFS (fuel : nat) (rootID : Z) (adj : adjacency) : option (list impacted * bool) :=
  s ← bfs_loop fuel false maxBlastRadiusNodes blast_maxDepth adj (bfs_start rootID);
  Some (blast_sort (s_out s), s_trunc s).

(** * Rotation order *)

Abbreviation degrees := (gmap Z Z).
Definition degree (m : degrees) (n : Z) : Z := default 0 (m !! n).

Definition order_indeg (edges : list SecretDependency) : degrees :=
  fold_left (fun m e => <[d_Dependent e := degree m (d_Dependent e) + 1]> m) edges ∅.
Definition order_nodes (edges : list SecretDependency) : gset Z :=
  fold_left (fun s e => {[d_DependsOn e]} ∪ ({[d_Dependent e]} ∪ s)) edges ∅.

(** [sort.Search]: the smallest index in [i, j) with [f], for an [f] that stays true. *)
Fixpoint search_loop (fuel : nat) (f : nat -> bool) (i j : nat) : nat :=
  match fuel with
  | O => i
  | S fuel =>
      if (i <? j)%nat then
        let h := Nat.div2 (i + j) in
        if f h then search_loop fuel f i h else search_loop fuel f (S h) j
      else i
  end.
Definition sort_Search (n : nat) (f : nat -> bool) : nat := search_loop n f 0 n.

Definition insert_ready (m : Z) (ready : list Z) : list Z :=
  let pos := sort_Search (length ready) (fun i => m <=? nth i ready 0) in
  take pos ready ++ m :: drop pos ready.

(** [for _, m := range next]. *)
Fixpoint relax (l : list Z) (indeg : degrees) (ready : list Z) : degrees * list Z :=
  match l with
  | [] => (indeg, ready)
  | m :: l =>
      let indeg := <[m := degree indeg m - 1]> indeg in
      relax l indeg (if degree indeg m =? 0 then insert_ready m ready else ready)
  end.

Fixpoint order_loop (fuel : nat) (adj : adjacency) (indeg : degrees) (ready order : list Z) : option (list Z) :=
  match ready with
  | [] => Some order
  | n :: ready =>
      match fuel with
      | O => None
      | S fuel =>
          let '(indeg, ready) := relax (sort_ids (at_key n adj)) indeg ready in
          order_loop fuel adj indeg ready (order ++ [n])
      end
  end.

Definition topologicalRotationOrder (edges : list SecretDependency) : option (list Z * bool) :=
  let adj := dependents_adj edges in
  let indeg := order_indeg edges in
  let nodes := order_nodes edges in
  let ready := sort_ids (List.filter (fun n => degree indeg n =? 0) (elements nodes)) in
  order ← order_loop (size nodes) adj indeg ready [];
  Some (order, bool_decide (length order = size nodes)).

(** * Rotation waves *)

(** The edges between candidates. *)
Definition in_plan (candidates : gset Z) (e : SecretDependency) : bool :=
  bool_decide (d_Dependent e ∈ candidates) && bool_decide (d_DependsOn e ∈ candidates).

Fixpoint wave_relax (l : list Z) (indeg : degrees) (next : list Z) : degrees * list Z :=
  match l with
  | [] => (indeg, next)
  | dep :: l =>
      let indeg := <[dep := degree indeg dep - 1]> indeg in
      wave_relax l indeg (if degree indeg dep =? 0 then next ++ [dep] else next)
  end.

Definition bfsNextWave (adj : adjacency) (current : list Z) (indeg : degrees) : degrees * list Z :=
  let '(indeg, next) := fold_left (fun st id => wave_relax (at_key id adj) (fst st) (snd st)) current (indeg, []) in
  (indeg, sort_ids next).

Fixpoint wave_loop (fuel : nat) (adj : adjacency) (indeg : degrees) (current : list Z) (waves : list (list Z)) (placed : nat)
  : option (list (list Z) * nat) :=
  match current with
  | [] => Some (waves, placed)
  | _ =>
      match fuel with
      | O => None
      | S fuel =>
          let '(indeg, next) := bfsNextWave adj current indeg in
          wave_loop fuel adj indeg next (waves ++ [current]) (placed + length current)
      end
  end.

Definition rotationWaves (edges : list SecretDependency) (candidates : gset Z) : option (list (list Z) * bool) :=
  let inside := List.filter (in_plan candidates) edges in
  let adj := dependents_adj inside in
  let indeg := order_indeg inside in
  let current := sort_ids (List.filter (fun n => degree indeg n =? 0) (elements candidates)) in
  '(waves, placed) ← wave_loop (size candidates) adj indeg current [] 0;
  Some (waves, bool_decide (placed = size candidates)).

(** * The graph *)

(** [dep edges a b]: [a] depends on [b]. *)
Definition dep (edges : list SecretDependency) (a b : Z) : Prop := exists e, e ∈ edges /\ d_Dependent e = a /\ d_DependsOn e = b.
Definition acyclic (edges : list SecretDependency) : Prop := forall x, ~ tc (dep edges) x x.

Lemma dep_mono E E' a b : E ⊆ E' -> dep E a b -> dep E' a b.
Proof. intros H (e&He&?&?). exists e. auto. Qed.
Lemma acyclic_mono E E' : E ⊆ E' -> acyclic E' -> acyclic E.
Proof. intros H Ha x Hx. apply (Ha x). revert Hx. apply (tc_congruence (fun x => x)). intros a b. by apply dep_mono. Qed.
Lemma dep_filter P E a b : dep (List.filter P E) a b -> dep E a b.
Proof. apply dep_mono. intros e. by rewrite elem_of_filter_bool; intros []. Qed.

(** A new edge closes a cycle only if it comes back. *)
Lemma acyclic_add d E : acyclic E -> d_Dependent d <> d_DependsOn d -> ~ tc (dep E) (d_DependsOn d) (d_Dependent d) -> acyclic (d :: E).
Proof.
  intros Ha Hne Hno. assert (forall x y, tc (dep (d :: E)) x y ->
    tc (dep E) x y \/ (x = d_Dependent d \/ tc (dep E) x (d_Dependent d)) /\ (y = d_DependsOn d \/ tc (dep E) (d_DependsOn d) y)) as H.
  { assert (forall x y, dep (d :: E) x y -> dep E x y \/ x = d_Dependent d /\ y = d_DependsOn d) as H1.
    { intros x y (e&[-> |He]%elem_of_cons&<-&<-); [by right|left; by exists e]. }
    induction 1 as [x y Hxy%H1|x y z Hxy%H1 _ IH].
    - destruct Hxy as [|[-> ->]]; [left; by apply tc_once|right; auto].
    - destruct Hxy as [Hxy|[-> ->]]; destruct IH as [IH|[IH1 IH2]].
      + left. by eapply tc_l.
      + right. split; [|done]. right. destruct IH1 as [<- |IH1]; [by apply tc_once|by eapply tc_l].
      + right. auto.
      + right. auto. }
  intros x [Hx|[[Hx|Hx] [Hy|Hy]]]%H.
  - by apply (Ha x).
  - by subst.
  - by subst.
  - by subst.
  - apply Hno. by eapply tc_trans.
Qed.

Lemma append_at_key k v j m : at_key j (append_at k v m) = at_key j m ++ (if bool_decide (k = j) then [v] else []).
Proof. unfold append_at, at_key. case_bool_decide as Hk; [subst; by rewrite lookup_insert_eq|]. by rewrite lookup_insert_ne, app_nil_r. Qed.
Lemma adj_fold (f g : SecretDependency -> Z) k E m :
  at_key k (fold_left (fun m e => append_at (f e) (g e) m) E m) = at_key k m ++ map g (List.filter (fun e => bool_decide (f e = k)) E).
Proof.
  revert m. induction E as [|e E IH]; intros m; cbn [fold_left List.filter map]; [by rewrite app_nil_r|]. rewrite IH, append_at_key, <- app_assoc.
  f_equal. by destruct (bool_decide (f e = k)).
Qed.
Lemma depends_adj_key E k : at_key k (depends_adj E) = map d_DependsOn (List.filter (fun e => bool_decide (d_Dependent e = k)) E).
Proof. unfold depends_adj. by rewrite (adj_fold d_Dependent d_DependsOn). Qed.
Lemma dependents_adj_key E k : at_key k (dependents_adj E) = map d_Dependent (List.filter (fun e => bool_decide (d_DependsOn e = k)) E).
Proof. unfold dependents_adj. by rewrite (adj_fold d_DependsOn d_Dependent). Qed.
Lemma elem_of_depends_adj E a b : b ∈ at_key a (depends_adj E) <-> dep E a b.
Proof. rewrite depends_adj_key, elem_of_map. setoid_rewrite elem_of_filter_bool. setoid_rewrite bool_decide_eq_true. unfold dep. naive_solver. Qed.
Lemma elem_of_dependents_adj E a b : a ∈ at_key b (dependents_adj E) <-> dep E a b.
Proof. rewrite dependents_adj_key, elem_of_map. setoid_rewrite elem_of_filter_bool. setoid_rewrite bool_decide_eq_true. unfold dep. naive_solver. Qed.
Lemma sort_ids_perm l : sort_ids l ≡ₚ l.
Proof. apply sort_by_perm. Qed.
Lemma elem_of_sort_ids x l : x ∈ sort_ids l <-> x ∈ l.
Proof. by rewrite sort_ids_perm. Qed.
Lemma elem_of_dependentsAdjacency E a b : a ∈ at_key b (dependentsAdjacency E) <-> dep E a b.
Proof.
  unfold dependentsAdjacency, at_key. rewrite lookup_fmap, <- elem_of_dependents_adj. unfold at_key.
  destruct (dependents_adj E !! b); cbn; [apply elem_of_sort_ids|done].
Qed.

(** ** The search *)

Lemma scan_next_None to l seen stack : scan_next to l seen stack = None <-> to ∈ l.
Proof.
  revert seen stack. induction l as [|n l IH]; intros seen stack; cbn [scan_next]; [split; [done|by intros ?%elem_of_nil]|].
  rewrite elem_of_cons. destruct (Z.eqb_spec n to) as [->|]; [naive_solver|]. case_bool_decide; rewrite IH; naive_solver.
Qed.
(** What the inner loop adds is new, and goes on the stack once. *)
Lemma scan_next_Some to l seen stack seen' stack' : scan_next to l seen stack = Some (seen', stack') ->
  exists new, stack' = new ++ stack /\ seen' = list_to_set new ∪ seen /\ NoDup new /\ list_to_set new ## seen /\ new ⊆ l /\ (forall x, x ∈ l -> x ∈ seen').
Proof.
  revert seen stack. induction l as [|n l IH]; intros seen stack; cbn [scan_next].
  - intros [= <- <-]. exists []. split_and!; [done|set_solver|constructor|set_solver..].
  - destruct (n =? to); [done|]. case_bool_decide as Hn; intros (new&->&->&?&?&?&?)%IH.
    + exists new. split_and!; [done..|set_solver|set_solver].
    + exists (new ++ [n]). assert (n ∉ new) by set_solver. split_and!; [by rewrite <- app_assoc| | | |set_solver|set_solver].
      * rewrite list_to_set_app_L. set_solver.
      * apply NoDup_app. split_and!; [done|set_solver|apply NoDup_singleton].
      * rewrite list_to_set_app_L. set_solver.
Qed.

Definition dep_targets (E : list SecretDependency) : gset Z := list_to_set (map d_DependsOn E).
Lemma dep_target E a b : dep E a b -> b ∈ dep_targets E.
Proof. intros (e&?&<-&<-). unfold dep_targets. apply elem_of_list_to_set, elem_of_map. eauto. Qed.

(** What the search knows: everything seen is reachable, and the neighbours of what
    is done with are seen and are not the target. *)
Record searching (E : list SecretDependency) (from to : Z) (seen : gset Z) (stack : list Z) : Prop := {
  sr_from : from ∈ seen;
  sr_stack : forall x, x ∈ stack -> x ∈ seen;
  sr_seen : forall x, x ∈ seen -> x = from \/ tc (dep E) from x;
  sr_done : forall x y, x ∈ seen -> x ∉ stack -> dep E x y -> y ∈ seen /\ y <> to }.

Lemma searching_step E from to seen n stack seen' stack' : searching E from to seen (n :: stack) ->
  scan_next to (at_key n (depends_adj E)) seen stack = Some (seen', stack') -> searching E from to seen' stack'.
Proof.
  intros [Hf Hs Hr Hd] Hsc. assert (to ∉ at_key n (depends_adj E)) as Hto by (intros Hin%(scan_next_None to _ seen stack); congruence).
  apply scan_next_Some in Hsc as (new&->&->&_&Hdis&Hsub&Hall). assert (n ∈ seen) as Hn by (apply Hs; left). split.
  - set_solver.
  - intros x [Hx|Hx]%elem_of_app; [set_solver|]. apply elem_of_union. right. apply Hs. by right.
  - intros x [Hx%elem_of_list_to_set|Hx]%elem_of_union; [|by apply Hr]. right. apply Hsub, elem_of_depends_adj in Hx.
    destruct (Hr n Hn) as [-> |Ht]; [by apply tc_once|by eapply tc_r].
  - intros x y Hx Hns Hxy. destruct (decide (x = n)) as [->|Hne].
    + apply elem_of_depends_adj in Hxy. split; [by apply Hall|]. intros ->. done.
    + apply elem_of_union in Hx as [Hx%elem_of_list_to_set|Hx]; [destruct Hns; apply elem_of_app; by left|].
      destruct (Hd x y Hx) as [? ?]; [|done|set_solver]. intros [?|?]%elem_of_cons; [done|]. apply Hns, elem_of_app. by right.
Qed.

Lemma searching_end E from to seen : searching E from to seen [] -> ~ tc (dep E) from to.
Proof.
  intros [Hf _ _ Hd] Ht. assert (forall y, tc (dep E) from y -> y ∈ seen /\ y <> to) as H; [|by destruct (H to Ht)].
  intros y Hy. revert y Hy. apply tc_ind_r; [intros y Hy; apply (Hd from y); [done|apply not_elem_of_nil|done]|].
  intros y z _ Hyz [Hy _]. apply (Hd y z); [done|apply not_elem_of_nil|done].
Qed.

Lemma size_new (T : gset Z) (new : list Z) (seen : gset Z) : NoDup new -> (forall x, x ∈ new -> x ∈ T) -> list_to_set new ## seen ->
  (length new + size (T ∖ (list_to_set new ∪ seen)) = size (T ∖ seen))%nat.
Proof.
  intros Hnd Hin Hdis. rewrite <- (size_list_to_set (C := gset Z) new) by done. rewrite <- size_union by set_solver. f_equal. apply set_eq. intros x.
  rewrite !elem_of_union, !elem_of_difference, !elem_of_union. destruct (decide (x ∈ (list_to_set new : gset Z))) as [Hx|Hx]; [|naive_solver].
  assert (x ∉ seen) by set_solver. assert (x ∈ T) by (by apply Hin, (elem_of_list_to_set (C := gset Z))). naive_solver.
Qed.

Lemma reach_loop_spec E from to fuel seen stack : searching E from to seen stack ->
  (length stack + size (dep_targets E ∖ seen) < fuel)%nat ->
  exists b, reach_loop fuel (depends_adj E) to seen stack = Some b /\ (b = true <-> tc (dep E) from to).
Proof.
  revert seen stack. induction fuel as [|fuel IH]; intros seen stack Hs Hf; [lia|]. cbn [reach_loop].
  destruct stack as [|n stack]; [exists false; split; [done|]; split; [done|]; by intros ?%(searching_end _ _ _ _ Hs)|].
  destruct (scan_next to (at_key n (depends_adj E)) seen stack) as [[seen' stack']|] eqn:Esc.
  - pose proof (searching_step _ _ _ _ _ _ _ _ Hs Esc) as Hs'. apply scan_next_Some in Esc as (new&->&->&Hnd&Hdis&Hsub&_).
    apply IH; [done|]. rewrite length_app. cbn [length] in Hf.
    pose proof (size_new (dep_targets E) new seen Hnd ltac:(intros x Hx; eapply dep_target, elem_of_depends_adj; by apply Hsub) Hdis). lia.
  - exists true. split; [done|]. split; [|done]. intros _. apply scan_next_None, elem_of_depends_adj in Esc.
    destruct (sr_seen _ _ _ _ _ Hs n) as [-> |Ht]; [apply (sr_stack _ _ _ _ _ Hs); left|by apply tc_once|by eapply tc_r].
Qed.

Lemma size_list_to_set_le (l : list Z) : (size (list_to_set l : gset Z) <= length l)%nat.
Proof.
  induction l as [|x l IH]; cbn; [by rewrite size_empty|].
  pose proof (size_union_alt {[x]} (list_to_set l : gset Z)) as ->. rewrite size_singleton.
  assert (size ((list_to_set l : gset Z) ∖ {[x]}) <= size (list_to_set l : gset Z))%nat by (apply subseteq_size; set_solver). lia.
Qed.
Lemma dep_targets_size E : (size (dep_targets E) <= length E)%nat.
Proof. rewrite <- (length_map d_DependsOn E). apply size_list_to_set_le. Qed.

(** The search returns, and finds a path exactly when there is one. *)
Lemma dependencyReachable_spec E from to : exists b, dependencyReachable E from to = Some b /\ (b = true <-> tc (dep E) from to).
Proof.
  apply reach_loop_spec.
  - split; [set_solver|set_solver|set_solver|]. intros x y Hx Hns _. exfalso. apply Hns. set_solver.
  - cbn [length]. pose proof (dep_targets_size E). assert (size (dep_targets E ∖ {[from]}) <= size (dep_targets E))%nat by (apply subseteq_size; set_solver). lia.
Qed.
