(* ===== verification/DepImpact.v ===== *)
(** The impact of changing a secret: the breadth-first searches of
    src/internal/core/secret_dependencies.go and blast_radius.go, and the views
    built on them.

    The search returns each dependent once, at its shortest distance, in the order
    of distance; without a truncation mark it has them all.  The views show of them
    what the caller may read, inside the secret's environment. *)
From Stdlib Require Import ZArith Lia.
From stdpp Require Import base numbers tactics relations sets list gmap.
From S2P Require Import Prelude DepGraph.

Section bfs.
Context (mark : bool) (maxNodes maxDepth : Z) (adj : adjacency) (root : Z) (T : gset Z).
Context (max_pos : 0 < maxDepth) (nodes_pos : 0 < maxNodes).
Definition arc (x y : Z) : Prop := y ∈ at_key x adj.
Context (targets : forall x y, arc x y -> y ∈ T).

(** [x] is [d] arcs away from the root and no fewer. *)
Definition at_dist (d x : Z) : Prop := 0 <= d /\ nsteps arc (Z.to_nat d) root x /\ forall m, Z.of_nat m < d -> ~ nsteps arc m root x.

Lemma at_dist_le d x m : at_dist d x -> nsteps arc m root x -> d <= Z.of_nat m.
Proof. intros (_&_&H) Hm. destruct (Z.le_gt_cases d (Z.of_nat m)); [done|]. by destruct (H m). Qed.
Lemma at_dist_unique d d' x : at_dist d x -> at_dist d' x -> d = d'.
Proof.
  intros H H'. pose proof (at_dist_le d x _ H (proj1 (proj2 H'))). pose proof (at_dist_le d' x _ H' (proj1 (proj2 H))).
  destruct H as [? _], H' as [? _]. lia.
Qed.

Definition found (s : bfs) : list impacted := mkImpacted root 0 :: s_out s.

(** [A] and [B]: the queue, at depths [k] and [k + 1].  [busy]: the node being
    worked on, with its neighbours to come. *)
Record binv (k : Z) (A B : list impacted) (busy : list (Z * list Z)) (s : bfs) : Prop := {
  bi_queue : s_queue s = A ++ B;
  bi_A : forall i, i ∈ A -> im_depth i = k;
  bi_B : forall i, i ∈ B -> im_depth i = k + 1;
  bi_seen : forall x, x ∈ s_seen s <-> x ∈ map im_id (found s);
  bi_nodup : NoDup (map im_id (found s));
  bi_dist : forall i, i ∈ found s -> at_dist (im_depth i) (im_id i);
  bi_depth : forall i, i ∈ s_out s -> im_depth i <= Z.min maxDepth (k + 1);
  bi_sorted : sorted_by im_depth (s_out s);
  bi_sub : forall i, i ∈ s_queue s -> i ∈ found s /\ im_depth i < maxDepth;
  bi_done : Z.of_nat (length (s_out s)) < maxNodes -> forall i y, i ∈ found s -> im_depth i < maxDepth -> i ∉ s_queue s -> arc (im_id i) y ->
    y ∈ s_seen s \/ exists l, (im_id i, l) ∈ busy /\ y ∈ l;
  bi_whole : s_trunc s = false -> forall i, i ∈ s_out s -> im_depth i < maxDepth;
  bi_trunc : s_trunc s = true -> (exists i, i ∈ s_out s /\ im_depth i = maxDepth) \/ maxNodes <= Z.of_nat (length (s_out s));
  bi_mark : mark = true -> maxNodes <= Z.of_nat (length (s_out s)) -> s_trunc s = true;
  bi_len : Z.of_nat (length (s_out s)) <= maxNodes }.

(** What lies nearer than the node being worked on was found. *)
Lemma near_seen k A B busy s n y : binv k A B busy s -> Z.of_nat (length (s_out s)) < maxNodes -> k < maxDepth ->
  (forall c l, (c, l) ∈ busy -> at_dist k c) -> Z.of_nat n <= k -> nsteps arc n root y -> y ∈ s_seen s.
Proof.
  intros Hi Hlen Hk Hbusy. revert y. induction n as [|n IH]; intros y Hn Hy.
  - inversion Hy; subst. apply (bi_seen _ _ _ _ _ Hi). by left.
  - apply nsteps_inv_r in Hy as (x&Hx&Hxy). pose proof (IH x ltac:(lia) Hx) as Hxs.
    apply (bi_seen _ _ _ _ _ Hi), elem_of_map in Hxs as (i&->&Hin). pose proof (bi_dist _ _ _ _ _ Hi i Hin) as Hd.
    pose proof (at_dist_le _ _ _ Hd Hx). destruct (bi_done _ _ _ _ _ Hi Hlen i y Hin) as [?|(l&Hl&_)]; [lia| |done|done|].
    + rewrite (bi_queue _ _ _ _ _ Hi). intros [?%(bi_A _ _ _ _ _ Hi)|?%(bi_B _ _ _ _ _ Hi)]%elem_of_app; lia.
    + pose proof (at_dist_unique _ _ _ Hd (Hbusy _ _ Hl)). lia.
Qed.

Lemma sorted_by_snoc {A} (key : A -> Z) l x : sorted_by key l -> (forall y, y ∈ l -> key y <= key x) -> sorted_by key (l ++ [x]).
Proof.
  intros Hs Hx. induction l as [|y l IH]; cbn [app]; [apply sorted_by_cons; split; [by intros ? ?%elem_of_nil|apply sorted_by_nil]|].
  apply sorted_by_cons in Hs as [Hy Hs]. apply sorted_by_cons. split.
  - intros z [Hz|Hz%list_elem_of_singleton]%elem_of_app; [by apply Hy|subst]. apply Hx. left.
  - apply IH; [done|]. intros z Hz. apply Hx. by right.
Qed.

(** A neighbour not yet seen is found at the next depth. *)
Lemma binv_found k A B c dep l s trunc queue : binv k A B [(c, dep :: l)] s -> Z.of_nat (length (s_out s)) < maxNodes -> 0 <= k < maxDepth ->
  at_dist k c -> arc c dep -> dep ∉ s_seen s ->
  let next := mkImpacted dep (k + 1) in
  (queue, trunc) = (if k + 1 <? maxDepth then (s_queue s ++ [next], s_trunc s) else (s_queue s, true)) ->
  forall stop, stop = (maxNodes <=? Z.of_nat (length (s_out s ++ [next]))) -> exists B',
  binv k A B' [(c, l)] (mkBfs ({[dep]} ∪ s_seen s) (s_out s ++ [next]) queue (if stop then mark || trunc else trunc)).
Proof.
  intros Hi Hlen Hk Hc Harc Hns next Hq stop ->. exists (if k + 1 <? maxDepth then B ++ [next] else B).
  assert (at_dist (k + 1) dep) as Hdist.
  { split; [lia|]. split.
    - replace (Z.to_nat (k + 1)) with (S (Z.to_nat k)) by lia. eapply nsteps_r; [apply Hc|done].
    - intros m Hm Hst. apply Hns. eapply (near_seen _ _ _ _ _ m); [exact Hi|done|lia| |lia|done].
      intros c' l' [= -> _]%list_elem_of_singleton. done. }
  set (stop := (maxNodes <=? Z.of_nat (length (s_out s ++ [next])))). pose proof (length_app (s_out s) [next]) as Hl1. cbn [length] in Hl1.
  assert (dep ∉ map im_id (found s)) as Hnew by (by rewrite <- (bi_seen _ _ _ _ _ Hi)).
  assert (forall i, i ∈ s_queue s -> i ∈ queue) as Hqs by (intros i Hin; destruct (k + 1 <? maxDepth); injection Hq as -> ->; [apply elem_of_app; by left|done]).
  split; cbn [s_queue s_seen s_out s_trunc].
  - destruct (k + 1 <? maxDepth); injection Hq as -> ->; [|apply Hi]. by rewrite (bi_queue _ _ _ _ _ Hi), app_assoc.
  - apply Hi.
  - intros i Hin. destruct (k + 1 <? maxDepth); [|by apply Hi]. apply elem_of_app in Hin as [Hin| ->%list_elem_of_singleton]; [by apply Hi|done].
  - intros x. cbn [found s_out map im_id]. unfold found. cbn [s_out map im_id]. rewrite elem_of_union, elem_of_singleton, (bi_seen _ _ _ _ _ Hi). unfold found. cbn [map im_id].
    rewrite map_app. change (map im_id [next]) with [dep]. set_solver.
  - unfold found. cbn [s_out map im_id]. rewrite map_app. change (root :: map im_id (s_out s) ++ map im_id [next]) with ((root :: map im_id (s_out s)) ++ [dep]).
    apply NoDup_app. split_and!; [apply Hi| |apply NoDup_singleton]. intros x Hx ->%list_elem_of_singleton. done.
  - unfold found. cbn [s_out]. intros i [-> |[Hin| ->%list_elem_of_singleton]%elem_of_app]%elem_of_cons; [apply Hi; left|apply Hi; by right|done].
  - intros i [Hin| ->%list_elem_of_singleton]%elem_of_app; [by apply Hi|cbn; lia].
  - apply sorted_by_snoc; [apply Hi|]. intros y Hy%(bi_depth _ _ _ _ _ Hi). cbn. lia.
  - unfold found. cbn [s_out]. intros i Hin. assert (i ∈ s_queue s \/ i = next /\ k + 1 < maxDepth) as [Hin'|[-> ?]].
    { destruct (Z.ltb_spec (k + 1) maxDepth); injection Hq as -> ->; [|by left]. apply elem_of_app in Hin as [?| ->%list_elem_of_singleton]; auto. }
    + destruct (bi_sub _ _ _ _ _ Hi i Hin') as [[-> |?]%elem_of_cons ?]; (split; [|done]); [left|right; apply elem_of_app; by left].
    + split; [right; apply elem_of_app; right; by left|cbn; lia].
  - unfold found. cbn [s_out]. intros _ i y Hin Hd Hnq Hy. assert (i ∈ found s) as Hin'.
    { apply elem_of_cons in Hin as [-> |[?| ->%list_elem_of_singleton]%elem_of_app]; [left|by right|]. cbn in Hd. destruct (Z.ltb_spec (k + 1) maxDepth); [|lia].
      injection Hq as -> ->. destruct Hnq. apply elem_of_app. right. by left. }
    destruct (bi_done _ _ _ _ _ Hi Hlen i y Hin' Hd ltac:(auto) Hy) as [?|(l'&Hl'&Hyl)]; [left; set_solver|].
    apply list_elem_of_singleton in Hl' as [= -> ->]. apply elem_of_cons in Hyl as [-> |?]; [left; set_solver|right; exists l; split; [by left|done]].
  - intros Ht i Hin. destruct (Z.ltb_spec (k + 1) maxDepth); injection Hq as -> ->; [|clearbody stop; destruct stop, mark; discriminate Ht].
    assert (s_trunc s = false) by (revert Ht; clearbody stop; by destruct stop, mark, (s_trunc s)). apply elem_of_app in Hin as [?| ->%list_elem_of_singleton]; [by apply (bi_whole _ _ _ _ _ Hi)|cbn; lia].
  - intros Ht. destruct stop eqn:Est; [right; unfold stop in Est; lia|]. left. destruct (Z.ltb_spec (k + 1) maxDepth); injection Hq as -> ->.
    + destruct (bi_trunc _ _ _ _ _ Hi Ht) as [(i&?&?)|?]; [|lia]. exists i. split; [apply elem_of_app; by left|done].
    + exists next. split; [apply elem_of_app; right; by left|cbn; lia].
  - intros -> Hge. unfold stop. by rewrite (proj2 (Z.leb_le _ _) Hge).
  - lia.
Qed.

(** Nothing is left to visit, or the result is full. *)
Lemma binv_idle k A B c l s : binv k A B [(c, l)] s -> l = [] \/ maxNodes <= Z.of_nat (length (s_out s)) -> binv k A B [] s.
Proof.
  intros [] H. split; try done. intros Hlen i y H1 H2 H3 H4. destruct H as [-> |H]; [|lia].
  destruct (bi_done0 Hlen i y H1 H2 H3 H4) as [?|(l'&Hl&Hy)]; [by left|]. apply list_elem_of_singleton in Hl as [= -> ->]. by apply elem_of_nil in Hy.
Qed.

Definition to_do (s : bfs) : nat := length (s_queue s) + size (T ∖ s_seen s).

Lemma visit_inv k A c l : forall B s, binv k A B [(c, l)] s -> Z.of_nat (length (s_out s)) < maxNodes -> 0 <= k < maxDepth ->
  at_dist k c -> (forall y, y ∈ l -> arc c y) ->
  let s' := visit mark maxNodes maxDepth k l s in (to_do s' <= to_do s)%nat /\ exists B', binv k A B' [] s'.
Proof.
  induction l as [|dep l IH]; intros B s Hi Hlen Hk Hc Hl; cbn [visit].
  - split; [done|]. exists B. eapply binv_idle; [done|by left].
  - case_bool_decide as Hs.
    + apply (IH B); [|done|done|done|intros y Hy; apply Hl; by right]. destruct Hi. split; try done.
      intros Hlen' i y H1 H2 H3 H4. destruct (bi_done0 Hlen' i y H1 H2 H3 H4) as [?|(l'&Hl'&Hy)]; [by left|].
      apply list_elem_of_singleton in Hl' as [= -> ->]. apply elem_of_cons in Hy as [-> |Hy]; [by left|]. right. exists l. split; [by left|done].
    + set (next := mkImpacted dep (k + 1)). destruct (if k + 1 <? maxDepth then _ else _) as [queue trunc] eqn:Eq.
      destruct (binv_found k A B c dep l s trunc queue Hi Hlen Hk Hc ltac:(apply Hl; left) Hs (eq_sym Eq) _ eq_refl) as (B'&HB'). fold next in HB'.
      assert ((length queue <= S (length (s_queue s)))%nat) as Hq by (destruct (_ <? _); injection Eq as <- <-; rewrite ?length_app; cbn; lia).
      pose proof (size_new T [dep] (s_seen s) (NoDup_singleton dep) ltac:(intros x ->%list_elem_of_singleton; eapply targets, Hl; left) ltac:(set_solver)) as Hsz.
      rewrite list_to_set_singleton in Hsz. cbn [length] in Hsz.
      destruct (maxNodes <=? Z.of_nat (length (s_out s ++ [next]))) eqn:Est.
      * split; [unfold to_do; cbn [s_queue s_seen]; lia|]. exists B'. eapply binv_idle; [done|]. right. cbn [s_out]. lia.
      * destruct (IH B' (mkBfs ({[dep]} ∪ s_seen s) (s_out s ++ [next]) queue trunc)) as [Hd HB'']; [done|cbn [s_out]; lia|done|done|intros y Hy; apply Hl; by right|].
        split; [|done]. etrans; [exact Hd|]. unfold to_do. cbn [s_queue s_seen]. lia.
Qed.

(** The next node of the queue, taken off it. *)
Lemma binv_pop k A B s cur queue : binv k A B [] s -> 0 <= k -> s_queue s = cur :: queue -> exists k' A' B',
  0 <= k' < maxDepth /\ im_depth cur = k' /\ at_dist k' (im_id cur) /\
  binv k' A' B' [(im_id cur, at_key (im_id cur) adj)] (mkBfs (s_seen s) (s_out s) queue (s_trunc s)).
Proof.
  intros Hi Hk Hq. destruct (bi_sub _ _ _ _ _ Hi cur ltac:(rewrite Hq; left)) as [Hcf Hcd]. pose proof (bi_dist _ _ _ _ _ Hi cur Hcf) as Hdist.
  assert (exists k' A' B', 0 <= k' /\ k <= k' /\ im_depth cur = k' /\ queue = A' ++ B' /\ (forall i, i ∈ A' -> im_depth i = k') /\ (forall i, i ∈ B' -> im_depth i = k' + 1)) as (k'&A'&B'&Hk1&Hk2&Hk3&Hq'&HA'&HB').
  { destruct Hi. destruct A as [|a A]; rewrite bi_queue0 in Hq; cbn [app] in Hq.
    - exists (k + 1), queue, []. subst B. split_and!; [lia|lia|apply bi_B0; left|by rewrite app_nil_r|intros i Hin; apply bi_B0; by right|by intros i ?%elem_of_nil].
    - injection Hq as -> <-. exists k, A, B. split_and!; [lia|lia|apply bi_A0; left|done|intros i Hin; apply bi_A0; by right|done]. }
  exists k', A', B'. split_and!; [lia|lia|done|congruence|]. assert (NoDup (map im_id (found s))) as Hnd by apply Hi. destruct Hi.
  split; try done; cbn [s_queue s_seen s_out s_trunc].
  - intros i Hin. specialize (bi_depth0 i Hin). lia.
  - intros i Hin. apply bi_sub0. rewrite Hq. by right.
  - intros Hlen i y H1 H2 H3 H4. change (found (mkBfs (s_seen s) (s_out s) queue (s_trunc s))) with (found s) in H1. destruct (decide (im_id i = im_id cur)) as [Heq|Hne].
    + right. exists (at_key (im_id cur) adj). rewrite Heq in *. split; [by left|done].
    + left. destruct (bi_done0 Hlen i y H1 H2) as [?|(l'&Hl&_)]; [|done|done|by apply elem_of_nil in Hl].
      rewrite Hq. intros [-> |?]%elem_of_cons; done.
Qed.

Lemma bfs_loop_inv fuel k A B s : binv k A B [] s -> 0 <= k -> (to_do s <= fuel)%nat ->
  exists s' k' A' B', bfs_loop fuel mark maxNodes maxDepth adj s = Some s' /\ binv k' A' B' [] s' /\
    (s_queue s' = [] \/ maxNodes <= Z.of_nat (length (s_out s'))).
Proof.
  revert k A B s. induction fuel as [|fuel IH]; intros k A B s Hi Hk Hf; cbn [bfs_loop]; destruct (s_queue s) as [|cur queue] eqn:Eq.
  1,3: exists s, k, A, B; auto.
  - unfold to_do in Hf. rewrite Eq in Hf. cbn in Hf. lia.
  - destruct (Z.ltb_spec (Z.of_nat (length (s_out s))) maxNodes); [|exists s, k, A, B; split_and!; [done|done|by right]].
    destruct (binv_pop _ _ _ _ _ _ Hi Hk Eq) as (k'&A'&B'&Hk'&Hd&Hdist&Hi').
    destruct (visit_inv _ _ _ _ _ _ Hi') as [Hle [B'' Hi'']]; [done|done|done|done|]. rewrite <- Hd in *.
    apply (IH _ _ _ _ Hi''); [lia|]. unfold to_do in Hle, Hf |- *. cbn [s_queue s_seen] in Hle. rewrite Eq in Hf. cbn [length] in Hf. lia.
Qed.

Lemma bfs_start_inv : binv 0 [mkImpacted root 0] [] [] (bfs_start root).
Proof.
  split; cbn [bfs_start s_queue s_seen s_out s_trunc]; unfold found; cbn [bfs_start s_out map im_id]; try done.
  - by intros i ->%list_elem_of_singleton.
  - by intros i ?%elem_of_nil.
  - set_solver.
  - apply NoDup_singleton.
  - intros i ->%list_elem_of_singleton. cbn. split; [done|]. split; [constructor|]. intros m Hm. lia.
  - by intros i ?%elem_of_nil.
  - intros i ->%list_elem_of_singleton. cbn. split; [by left|done].
  - by intros _ i ?%elem_of_nil.
  - intros _ H. cbn in H. lia.
  - cbn. lia.
Qed.

(** ** What the search returns *)

Record impact_of (out : list impacted) (trunc : bool) : Prop := {
  ip_once : NoDup (root :: map im_id out);
  ip_exact : forall i, i ∈ out -> at_dist (im_depth i) (im_id i) /\ 1 <= im_depth i <= maxDepth;
  ip_order : sorted_by im_depth out;
  ip_bound : Z.of_nat (length out) <= maxNodes;
  ip_near : Z.of_nat (length out) < maxNodes -> forall n y, Z.of_nat n <= maxDepth -> nsteps arc n root y -> y ∈ root :: map im_id out;
  ip_all : trunc = false -> Z.of_nat (length out) < maxNodes -> forall y, rtc arc root y -> y ∈ root :: map im_id out;
  ip_trunc : trunc = true -> (exists i, i ∈ out /\ im_depth i = maxDepth) \/ maxNodes <= Z.of_nat (length out) }.

Lemma bfs_spec fuel : (to_do (bfs_start root) <= fuel)%nat -> exists s, bfs_loop fuel mark maxNodes maxDepth adj (bfs_start root) = Some s /\
  impact_of (s_out s) (s_trunc s) /\ (mark = true -> s_trunc s = false -> Z.of_nat (length (s_out s)) < maxNodes).
Proof.
  intros Hf. destruct (bfs_loop_inv fuel 0 _ _ _ bfs_start_inv (Z.le_refl 0) Hf) as (s&k&A&B&Hs&Hi&Hend). exists s. split; [done|].
  assert (forall n y, Z.of_nat (length (s_out s)) < maxNodes -> (forall i, i ∈ s_out s -> im_depth i <= Z.of_nat n -> im_depth i < maxDepth) ->
    nsteps arc (S n) root y -> (forall x, nsteps arc n root x -> x ∈ s_seen s) -> y ∈ s_seen s) as Hstep.
  { intros n y Hlen Hlt (x&Hx&Hxy)%nsteps_inv_r Hall. destruct Hend as [Hq|?]; [|lia].
    pose proof (Hall x Hx) as (i&->&Hin)%(bi_seen _ _ _ _ _ Hi)%elem_of_map.
    destruct (bi_done _ _ _ _ _ Hi Hlen i y Hin) as [?|(l&Hl&_)]; [| |done|done|by apply elem_of_nil in Hl].
    - pose proof (at_dist_le _ _ _ (bi_dist _ _ _ _ _ Hi i Hin) Hx). apply elem_of_cons in Hin as [-> |Hin]; [done|by apply Hlt].
    - rewrite Hq. apply not_elem_of_nil. }
  assert (forall x, x ∈ s_seen s <-> x ∈ root :: map im_id (s_out s)) as Hseen by apply Hi.
  split; [split|].
  - apply Hi.
  - intros i Hin. assert (i ∈ found s) as Hin' by (by right). pose proof (bi_dist _ _ _ _ _ Hi i Hin') as Hd. split; [done|]. pose proof (bi_depth _ _ _ _ _ Hi i Hin).
    destruct (decide (im_depth i = 0)) as [H0|]; [|destruct Hd; lia]. exfalso. destruct Hd as (_&Hd&_). rewrite H0 in Hd. inversion Hd as [? Hr|]; subst.
    pose proof (bi_nodup _ _ _ _ _ Hi) as Hnd. unfold found in Hnd. cbn [map im_id] in Hnd. apply NoDup_cons in Hnd as [Hnd _]. apply Hnd, elem_of_map. eauto.
  - apply Hi.
  - apply Hi.
  - intros Hlen n. induction n as [|n IH]; intros y Hn Hy; apply Hseen.
    + inversion Hy; subst. apply Hseen. left.
    + apply (Hstep n y Hlen); [intros i _ Hi'; lia|done|]. intros x Hx. apply Hseen, IH; [lia|done].
  - intros Ht Hlen y (n&Hn)%rtc_nsteps. apply Hseen. revert y Hn. induction n as [|n IH]; intros y Hy.
    + inversion Hy; subst. apply Hseen. left.
    + apply (Hstep n y Hlen); [intros i Hin _; by apply (bi_whole _ _ _ _ _ Hi)|done|done].
  - apply Hi.
  - intros Hm Ht. destruct (Z.le_gt_cases maxNodes (Z.of_nat (length (s_out s)))) as [Hge|]; [|done]. by rewrite (bi_mark _ _ _ _ _ Hi Hm Hge) in Ht.
Qed.
End bfs.

(** [nsteps (needs E) n x y]: [y] depends on [x] through [n] edges. *)
Definition needs (E : list SecretDependency) (x y : Z) : Prop := dep E y x.
Lemma arc_needs E x y : arc (dependentsAdjacency E) x y <-> needs E x y.
Proof. apply elem_of_dependentsAdjacency. Qed.
Lemma nsteps_needs E n x y : nsteps (arc (dependentsAdjacency E)) n x y <-> nsteps (needs E) n x y.
Proof. split; apply (nsteps_congruence (fun x => x)); intros a b; apply arc_needs. Qed.
Lemma rtc_needs E x y : rtc (arc (dependentsAdjacency E)) x y <-> rtc (needs E) x y.
Proof. split; apply (rtc_congruence (fun x => x)); intros a b; apply arc_needs. Qed.

(** The distance from [x]: [y] depends on [x] through [d] edges and no fewer. *)
Definition depth_of (E : list SecretDependency) (x d y : Z) : Prop :=
  0 <= d /\ nsteps (needs E) (Z.to_nat d) x y /\ forall m, Z.of_nat m < d -> ~ nsteps (needs E) m x y.
Lemma at_dist_depth E x d y : at_dist (dependentsAdjacency E) x d y <-> depth_of E x d y.
Proof. unfold at_dist, depth_of. setoid_rewrite nsteps_needs. done. Qed.

Definition dep_sources (E : list SecretDependency) : gset Z := list_to_set (map d_Dependent E).
Lemma dep_sources_size E : (size (dep_sources E) <= length E)%nat.
Proof. rewrite <- (length_map d_Dependent E). apply size_list_to_set_le. Qed.

(** The search over the edges of a project, in either of its two forms. *)
Lemma impact_search mark maxNodes maxDepth E x : 0 < maxDepth -> 0 < maxNodes -> exists s,
  bfs_loop (S (length E)) mark maxNodes maxDepth (dependentsAdjacency E) (bfs_start x) = Some s /\
  impact_of maxNodes maxDepth (dependentsAdjacency E) x (s_out s) (s_trunc s) /\ (mark = true -> s_trunc s = false -> Z.of_nat (length (s_out s)) < maxNodes).
Proof.
  intros Hd Hn. apply (bfs_spec mark maxNodes maxDepth _ x (dep_sources E)); [done|done| |].
  - intros a b (e&?&<-&_)%arc_needs. unfold dep_sources. apply elem_of_list_to_set, elem_of_map. eauto.
  - unfold to_do. cbn [bfs_start s_queue s_seen length]. pose proof (dep_sources_size E).
    assert (size (dep_sources E ∖ {[x]}) <= size (dep_sources E))%nat by (apply subseteq_size; set_solver). lia.
Qed.

(** * Views *)

Record node := mkNode { n_ID : Z; n_Name : bytes; n_ProjectID : Z; n_EnvironmentID : Z; n_IsSecret : bool; n_OwnerID : Z; n_Classification : bytes }.

Inductive read_err := ErrSecretNotFound | ErrReadFailed.
Inductive dep_err := DNotFound | DRead | DInvalid | DCycle.

(** What a view reads on behalf of one caller: secrets that are not deleted, the
    edges of a project in id order, and whether the caller may read a secret. *)
Record dep_reads := mkReads { r_secret : Z -> res read_err node; r_edges : Z -> res read_err (list SecretDependency); r_allowed : Z -> res read_err bool }.

Section views.
Context (rd : dep_reads).

Definition requireSecret (id : Z) : res dep_err node :=
  match r_secret rd id with
  | Err ErrSecretNotFound => Err DNotFound
  | Err ErrReadFailed => Err DRead
  | Ok n => if n_IsSecret n then Ok n else Err DInvalid
  end.

Definition canReadSecret (id : Z) : bool := match r_allowed rd id with Ok b => b | Err _ => false end.

Definition project_edges (project : Z) : res dep_err (list SecretDependency) :=
  match r_edges rd project with Ok l => Ok l | Err _ => Err DRead end.

Record secretInfo := mkInfo { si_name : bytes; si_env : Z }.

(** Secrets that do not resolve are absent. *)
Definition resolveSecretInfo (edges : list SecretDependency) : gmap Z secretInfo :=
  foldr (fun id m => match r_secret rd id with Ok n => <[id := mkInfo (n_Name n) (n_EnvironmentID n)]> m | Err _ => m end) ∅
    (elements (list_to_set (map d_Dependent edges ++ map d_DependsOn edges) : gset Z)).

(** An absent entry reads as the zero value. *)
Definition info_of (info : gmap Z secretInfo) (id : Z) : secretInfo := default (mkInfo [] 0) (info !! id).

Definition edgesWithinEnvironment (edges : list SecretDependency) (info : gmap Z secretInfo) (environmentID : Z) : list SecretDependency :=
  List.filter (fun e => (si_env (info_of info (d_Dependent e)) =? environmentID) && (si_env (info_of info (d_DependsOn e)) =? environmentID)) edges.

Definition present (info : gmap Z secretInfo) (id : Z) : bool := bool_decide (is_Some (info !! id)).
Definition edgesBetweenLiveSecrets (edges : list SecretDependency) (info : gmap Z secretInfo) : list SecretDependency :=
  List.filter (fun e => present info (d_Dependent e) && present info (d_DependsOn e)) edges.

Record DependencyEdge := mkView { v_ID : Z; v_SecretID : Z; v_SecretName : bytes; v_Note : bytes }.
Record SecretDependencies := mkDeps { sd_SecretID : Z; sd_DependsOn : list DependencyEdge; sd_Dependents : list DependencyEdge }.

(** One turn of the loop of ListSecretDependencies. *)
Definition list_step (info : gmap Z secretInfo) (secretID : Z) (out : SecretDependencies) (e : SecretDependency) : SecretDependencies :=
  if secretID =? d_Dependent e then
    if canReadSecret (d_DependsOn e)
    then mkDeps (sd_SecretID out) (sd_DependsOn out ++ [mkView (d_ID e) (d_DependsOn e) (si_name (info_of info (d_DependsOn e))) (d_Note e)]) (sd_Dependents out)
    else out
  else if secretID =? d_DependsOn e then
    if canReadSecret (d_Dependent e)
    then mkDeps (sd_SecretID out) (sd_DependsOn out) (sd_Dependents out ++ [mkView (d_ID e) (d_Dependent e) (si_name (info_of info (d_Dependent e))) (d_Note e)])
    else out
  else out.

Definition ListSecretDependencies (secretID : Z) : res dep_err SecretDependencies :=
  let? secret := requireSecret secretID in
  let? edges := project_edges (n_ProjectID secret) in
  let info := resolveSecretInfo edges in
  let edges := edgesWithinEnvironment edges info (n_EnvironmentID secret) in
  Ok (fold_left (list_step info secretID) edges (mkDeps secretID [] [])).

Record ImpactedSecret := mkAffected { af_SecretID : Z; af_SecretName : bytes; af_Depth : Z }.
Record SecretImpact := mkImpact { sm_SecretID : Z; sm_SecretName : bytes; sm_Affected : list ImpactedSecret; sm_Truncated : bool }.

(** The outer option: the search ran out of fuel. *)
Definition GetSecretImpact (secretID : Z) : option (res dep_err SecretImpact) :=
  match requireSecret secretID with
  | Err e => Some (Err e)
  | Ok secret =>
      match project_edges (n_ProjectID secret) with
      | Err e => Some (Err e)
      | Ok edges =>
          let info := resolveSecretInfo edges in
          let edges := edgesWithinEnvironment edges info (n_EnvironmentID secret) in
          '(affected, truncated) ← transitiveDependents edges secretID;
          Some (Ok (mkImpact secretID (n_Name secret)
            (map (fun a => mkAffected (im_id a) (si_name (info_of info (im_id a))) (im_depth a)) (List.filter (fun a => canReadSecret (im_id a)) affected))
            truncated))
      end
  end.

Record ImpactPreviewResult := mkPreview { pv_SecretID : Z; pv_Direct : Z; pv_Transitive : Z; pv_Affected : list Z; pv_MaxDepth : Z; pv_Truncated : bool }.

Definition preview_step (r : ImpactPreviewResult) (a : impacted) : ImpactPreviewResult :=
  mkPreview (pv_SecretID r) (if im_depth a =? 1 then pv_Direct r + 1 else pv_Direct r) (pv_Transitive r + 1)
    (if canReadSecret (im_id a) then pv_Affected r ++ [im_id a] else pv_Affected r)
    (if pv_MaxDepth r <? im_depth a then im_depth a else pv_MaxDepth r) (pv_Truncated r).

Definition GetSecretImpactPreview (secretID : Z) : option (res dep_err ImpactPreviewResult) :=
  match requireSecret secretID with
  | Err e => Some (Err e)
  | Ok secret =>
      match project_edges (n_ProjectID secret) with
      | Err e => Some (Err e)
      | Ok edges =>
          let info := resolveSecretInfo edges in
          let edges := edgesWithinEnvironment edges info (n_EnvironmentID secret) in
          '(affected, truncated) ← transitiveDependents edges secretID;
          Some (Ok (fold_left preview_step affected (mkPreview secretID 0 0 [] 0 truncated)))
      end
  end.

Inductive risk := Critical | High | Medium | Low.
Definition isRestricted (c : bytes) : bool := bool_decide (c = go "restricted").
Definition isHighSensitivity (c : bytes) : bool := bool_decide (c = go "confidential") || bool_decide (c = go "restricted").
Definition blastRiskLevel (depth : Z) (sourceClass depClass : bytes) : risk :=
  if (depth =? 1) && (isRestricted sourceClass || isRestricted depClass) then Critical
  else if (depth =? 1) || isHighSensitivity sourceClass || isHighSensitivity depClass then High
  else if depth =? 2 then Medium
  else Low.

Record BlastRadiusNode := mkBlast { bl_SecretID : Z; bl_SecretName : bytes; bl_ProjectID : Z; bl_OwnerID : Z; bl_Depth : Z; bl_RiskLevel : risk }.
Record BlastRadiusReport := mkReport { br_SourceSecretID : Z; br_SourceSecretName : bytes; br_Dependents : list BlastRadiusNode; br_TotalImpact : Z; br_MaxDepth : Z; br_Truncated : bool }.

Definition blast_node (source : node) (o : impacted) : option BlastRadiusNode :=
  if canReadSecret (im_id o) then
    match r_secret rd (im_id o) with
    | Ok dep => Some (mkBlast (n_ID dep) (n_Name dep) (n_ProjectID dep) (n_OwnerID dep) (im_depth o)
                        (blastRiskLevel (im_depth o) (n_Classification source) (n_Classification dep)))
    | Err _ => None
    end
  else None.

Definition GetBlastRadius (secretID : Z) : option (res dep_err BlastRadiusReport) :=
  match requireSecret secretID with
  | Err e => Some (Err e)
  | Ok source =>
      match project_edges (n_ProjectID source) with
      | Err e => Some (Err e)
      | Ok edges =>
          let info := resolveSecretInfo edges in
          let edges := edgesWithinEnvironment edges info (n_EnvironmentID source) in
          '(ordered, truncated) ← blastBFS (S (length edges)) secretID (dependentsAdjacency edges);
          let nodes := omap (blast_node source) ordered in
          Some (Ok (mkReport (n_ID source) (n_Name source) nodes (Z.of_nat (length nodes))
            (fold_left (fun m n => if m <? bl_Depth n then bl_Depth n else m) nodes 0)
            (truncated || (maxBlastRadiusNodes <=? Z.of_nat (length ordered)))))
      end
  end.
End views.

(** ** What the views show *)

Section shown.
Context (rd : dep_reads).

Lemma info_foldr l id : foldr (fun id (m : gmap Z secretInfo) => match r_secret rd id with Ok n => <[id := mkInfo (n_Name n) (n_EnvironmentID n)]> m | Err _ => m end) (∅ : gmap Z secretInfo) l !! id =
  if bool_decide (id ∈ l) then match r_secret rd id with Ok n => Some (mkInfo (n_Name n) (n_EnvironmentID n)) | Err _ => None end else None.
Proof.
  induction l as [|x l IH]; cbn [foldr]; [done|]. destruct (decide (x = id)) as [->|Hne].
  - rewrite (bool_decide_true (id ∈ id :: l)) by left. destruct (r_secret rd id) eqn:Er; [by rewrite lookup_insert_eq|]. rewrite IH. by case_bool_decide.
  - rewrite (bool_decide_ext (id ∈ x :: l) (id ∈ l)) by (rewrite elem_of_cons; naive_solver). destruct (r_secret rd x); [by rewrite lookup_insert_ne|done].
Qed.
Lemma info_some edges id : is_Some (resolveSecretInfo rd edges !! id) -> exists n, r_secret rd id = Ok n /\ resolveSecretInfo rd edges !! id = Some (mkInfo (n_Name n) (n_EnvironmentID n)).
Proof. unfold resolveSecretInfo. rewrite info_foldr. intros [i Hi]. case_bool_decide; [|done]. destruct (r_secret rd id) as [n|]; [|done]. by exists n. Qed.

(** An endpoint that is in an environment is there. *)
Lemma info_env edges id env : env <> 0 -> si_env (info_of (resolveSecretInfo rd edges) id) = env -> exists n, r_secret rd id = Ok n /\ n_EnvironmentID n = env /\ si_name (info_of (resolveSecretInfo rd edges) id) = n_Name n.
Proof.
  intros He. unfold info_of. destruct (resolveSecretInfo rd edges !! id) eqn:Ei; cbn [default from_option]; [|by intros <-].
  destruct (info_some edges id) as (n&Hn&Ei'); [by rewrite Ei|]. rewrite Ei in Ei'. injection Ei' as ->. intros <-. by exists n.
Qed.

(** The edges a view works on. *)
Definition env_edges (secret : node) (edges : list SecretDependency) : list SecretDependency :=
  edgesWithinEnvironment edges (resolveSecretInfo rd edges) (n_EnvironmentID secret).
Lemma env_edges_ends secret edges e : e ∈ env_edges secret edges -> n_EnvironmentID secret <> 0 ->
  e ∈ edges /\ forall id, id = d_Dependent e \/ id = d_DependsOn e -> exists n, r_secret rd id = Ok n /\ n_EnvironmentID n = n_EnvironmentID secret.
Proof.
  intros [He Hb]%elem_of_filter_bool Hne. split; [done|]. breflect. intros id [-> | ->].
  - destruct (info_env edges (d_Dependent e) _ Hne ltac:(done)) as (n&?&?&_). by exists n.
  - destruct (info_env edges (d_DependsOn e) _ Hne ltac:(done)) as (n&?&?&_). by exists n.
Qed.

Lemma transitiveDependents_impact E x : exists out trunc, transitiveDependents E x = Some (out, trunc) /\
  impact_of maxDependencyBFSNodes maxDependencyBFSDepth (dependentsAdjacency E) x out trunc /\ (trunc = false -> Z.of_nat (length out) < maxDependencyBFSNodes).
Proof.
  destruct (impact_search true maxDependencyBFSNodes maxDependencyBFSDepth E x) as (s&Hs&Hi&Hm); [done|done|].
  exists (s_out s), (s_trunc s). unfold transitiveDependents. rewrite Hs. auto.
Qed.

Lemma views_reach secretID secret edges : requireSecret rd secretID = Ok secret -> r_edges rd (n_ProjectID secret) = Ok edges ->
  GetSecretImpact rd secretID =
    ('(affected, truncated) ← transitiveDependents (env_edges secret edges) secretID;
     Some (Ok (mkImpact secretID (n_Name secret)
       (map (fun a => mkAffected (im_id a) (si_name (info_of (resolveSecretInfo rd edges) (im_id a))) (im_depth a)) (List.filter (fun a => canReadSecret rd (im_id a)) affected)) truncated))).
Proof. intros Hs He. unfold GetSecretImpact, project_edges. by rewrite Hs, He. Qed.

(** C37. The impact of a secret is exact.  When the secret and the edges can be read, the
    analysis returns; every secret it lists is one the caller may read that depends
    on the given one, at its shortest distance, listed once; and if the result is
    not marked truncated it has every such secret of the environment. *)
Theorem GetSecretImpact_exact (secretID : Z) (secret : node) (edges : list SecretDependency) :
  requireSecret rd secretID = Ok secret -> r_edges rd (n_ProjectID secret) = Ok edges ->
  let E := env_edges secret edges in
  exists r, GetSecretImpact rd secretID = Some (Ok r) /\
    (forall a, a ∈ sm_Affected r -> canReadSecret rd (af_SecretID a) = true /\ af_SecretID a <> secretID /\
       1 <= af_Depth a <= maxDependencyBFSDepth /\ depth_of E secretID (af_Depth a) (af_SecretID a)) /\
    NoDup (map af_SecretID (sm_Affected r)) /\
    (sm_Truncated r = false -> forall y, y <> secretID -> rtc (needs E) secretID y -> canReadSecret rd y = true -> y ∈ map af_SecretID (sm_Affected r)).
Proof.
  intros Hs He E. rewrite (views_reach _ _ _ Hs He). destruct (transitiveDependents_impact E secretID) as (out&trunc&Ht&[Honce Hex _ _ _ Hall _]&Hm).
  unfold E in *. rewrite Ht. cbn [mbind option_bind]. eexists. split; [done|]. cbn [sm_Affected sm_Truncated]. rewrite map_map. cbn [af_SecretID]. split_and!.
  - intros a (i&->&[Hi Hc]%elem_of_filter_bool)%elem_of_map. cbn. destruct (Hex i Hi) as [Hd ?]. split; [done|]. split; [|split; [done|by apply at_dist_depth]].
    apply NoDup_cons in Honce as [Hn _]. intros Heq. apply Hn. rewrite <- Heq. apply elem_of_map. eauto.
  - apply NoDup_cons in Honce as [_ Hn]. by apply (NoDup_map_filter im_id).
  - intros Htr y Hy Hr Hc. specialize (Hall Htr (Hm Htr) y). rewrite rtc_needs in Hall. apply Hall in Hr. apply elem_of_cons in Hr as [?|Hr]; [done|].
    apply elem_of_map in Hr as (i&->&Hi). apply elem_of_map. exists i. split; [done|]. by apply elem_of_filter_bool.
Qed.

(** The two forms of the search differ in their truncation mark only. *)
Definition twin (maxNodes : Z) (s1 s2 : bfs) : Prop :=
  s_seen s1 = s_seen s2 /\ s_out s1 = s_out s2 /\ s_queue s1 = s_queue s2 /\ s_trunc s1 = s_trunc s2 || (maxNodes <=? Z.of_nat (length (s_out s2))).
Lemma visit_twin maxNodes maxDepth depth l : forall s1 s2, twin maxNodes s1 s2 ->
  twin maxNodes (visit true maxNodes maxDepth depth l s1) (visit false maxNodes maxDepth depth l s2).
Proof.
  induction l as [|x l IH]; intros s1 s2 Ht; cbn [visit]; [done|]. pose proof Ht as (H1&H2&H3&H4). rewrite H1, H2, H3. case_bool_decide; [by apply IH|].
  destruct (depth + 1 <? maxDepth); destruct (maxNodes <=? Z.of_nat (length (s_out s2 ++ [mkImpacted x (depth + 1)]))) eqn:E.
  - repeat split; cbn; rewrite E. by rewrite Bool.orb_true_r.
  - apply IH. repeat split; cbn [s_trunc s_out]. rewrite E, Bool.orb_false_r, H4. apply Z.leb_gt in E. rewrite length_app in E. cbn [length] in E.
    replace (maxNodes <=? Z.of_nat (length (s_out s2))) with false by (symmetry; apply Z.leb_gt; lia). by rewrite Bool.orb_false_r.
  - repeat split; cbn; by rewrite ?E.
  - apply IH. by repeat split.
Qed.
Lemma loop_twin maxNodes maxDepth adj fuel : forall s1 s2, twin maxNodes s1 s2 ->
  match bfs_loop fuel true maxNodes maxDepth adj s1, bfs_loop fuel false maxNodes maxDepth adj s2 with
  | Some s1, Some s2 => twin maxNodes s1 s2
  | None, None => True
  | _, _ => False
  end.
Proof.
  induction fuel as [|fuel IH]; intros s1 s2 Ht; cbn [bfs_loop]; pose proof Ht as (H1&H2&H3&H4); rewrite H3; destruct (s_queue s2) as [|c q]; try done; rewrite H2; destruct (_ <? _) eqn:E; try done.
  apply IH, visit_twin. repeat split; cbn; rewrite ?H1, ?H2; try done.
Qed.

Lemma blast_sort_perm l : blast_sort l ≡ₚ l.
Proof. apply sort_with_perm. Qed.

Lemma blastBFS_transitive E x : exists out trunc, transitiveDependents E x = Some (out, trunc || (maxBlastRadiusNodes <=? Z.of_nat (length out))) /\
  blastBFS (S (length E)) x (dependentsAdjacency E) = Some (blast_sort out, trunc).
Proof.
  pose proof (loop_twin maxBlastRadiusNodes blast_maxDepth (dependentsAdjacency E) (S (length E)) (bfs_start x) (bfs_start x) ltac:(by repeat split)) as H.
  destruct (impact_search false maxBlastRadiusNodes blast_maxDepth E x) as (s&Hs&_); [done|done|]. unfold transitiveDependents, blastBFS.
  change maxDependencyBFSNodes with maxBlastRadiusNodes. change maxDependencyBFSDepth with blast_maxDepth. rewrite Hs in *.
  destruct (bfs_loop (S (length E)) true _ _ _ _) as [s1|]; [|done]. destruct H as (_&Ho&_&Ht). exists (s_out s), (s_trunc s). cbn. by rewrite Ho, Ht.
Qed.

Lemma omap_blast source l : (forall o, o ∈ l -> exists n, r_secret rd (im_id o) = Ok n /\ n_ID n = im_id o) ->
  map (fun b => (bl_SecretID b, bl_Depth b)) (omap (blast_node rd source) l) = map (fun o => (im_id o, im_depth o)) (List.filter (fun o => canReadSecret rd (im_id o)) l).
Proof.
  induction l as [|o l IH]; intros H; [done|]. cbn [List.filter omap list_omap]. destruct (H o ltac:(left)) as (n&Hn&Hid).
  unfold blast_node at 1. destruct (canReadSecret rd (im_id o)); [rewrite Hn; cbn [map bl_SecretID bl_Depth]; rewrite Hid; f_equal|]; apply IH; intros o' Ho; apply H; by right.
Qed.

Lemma filter_perm_bool {A} (P : A -> bool) l l' : l ≡ₚ l' -> List.filter P l ≡ₚ List.filter P l'.
Proof.
  induction 1; cbn; [done|by destruct (P x); rewrite IHPermutation| |by etrans]. destruct (P x), (P y); try done. apply Permutation_swap.
Qed.

Lemma preview_fold l r : let r' := fold_left (preview_step rd) l r in
  pv_Affected r' = pv_Affected r ++ map im_id (List.filter (fun a => canReadSecret rd (im_id a)) l) /\ pv_Truncated r' = pv_Truncated r /\
  pv_Transitive r' = pv_Transitive r + Z.of_nat (length l) /\ pv_Direct r' = pv_Direct r + Z.of_nat (length (List.filter (fun a => im_depth a =? 1) l)).
Proof.
  revert r. induction l as [|a l IH]; intros r; cbn [fold_left List.filter map]; [rewrite app_nil_r; cbn; split_and!; [done|done|lia..]|].
  specialize (IH (preview_step rd r a)). cbn zeta in *. destruct IH as (->&->&->&->). cbn [preview_step pv_Affected pv_Truncated pv_Transitive pv_Direct].
  split_and!; [destruct (canReadSecret rd (im_id a)); by rewrite <- ?app_assoc|done|cbn [length]; lia|destruct (im_depth a =? 1); cbn [length]; lia].
Qed.

(** Everything an impact lists is an endpoint of an edge of the environment. *)
Lemma impact_endpoint E x out trunc i : impact_of maxDependencyBFSNodes maxDependencyBFSDepth (dependentsAdjacency E) x out trunc -> i ∈ out -> exists e, e ∈ E /\ d_Dependent e = im_id i.
Proof.
  intros [] Hi. destruct (ip_exact0 i Hi) as [(_&Hn&_) Hd]. destruct (Z.to_nat (im_depth i)) as [|n] eqn:En; [lia|].
  apply nsteps_inv_r in Hn as (z&_&(e&He&Hde&_)%arc_needs). eauto.
Qed.

(** The three views, over one search. *)
Lemma views_search secretID secret edges : requireSecret rd secretID = Ok secret -> r_edges rd (n_ProjectID secret) = Ok edges ->
  exists out trunc n m o, impact_of maxDependencyBFSNodes maxDependencyBFSDepth (dependentsAdjacency (env_edges secret edges)) secretID out trunc /\
    GetSecretImpact rd secretID = Some (Ok (mkImpact secretID (n_Name secret)
       (map (fun a => mkAffected (im_id a) (si_name (info_of (resolveSecretInfo rd edges) (im_id a))) (im_depth a)) (List.filter (fun a => canReadSecret rd (im_id a)) out)) trunc)) /\
    GetBlastRadius rd secretID = Some (Ok (mkReport (n_ID secret) o (omap (blast_node rd secret) (blast_sort out)) n m trunc)) /\
    GetSecretImpactPreview rd secretID = Some (Ok (fold_left (preview_step rd) out (mkPreview secretID 0 0 [] 0 trunc))).
Proof.
  intros Hs He. set (E := env_edges secret edges). rewrite (views_reach _ _ _ Hs He). fold E.
  unfold GetBlastRadius, GetSecretImpactPreview, project_edges. rewrite Hs, He. fold (env_edges secret edges). fold E.
  destruct (blastBFS_transitive E secretID) as (out&trunc&Ht&Hb). destruct (transitiveDependents_impact E secretID) as (out'&trunc'&Ht'&Hi&_).
  rewrite Ht in Ht'. injection Ht' as <- <-. rewrite Ht, Hb. cbn [mbind option_bind]. rewrite (Permutation_length (blast_sort_perm out)).
  eexists out, _, _, _, _. split_and!; done.
Qed.
Lemma blast_impact secret edges secretID out trunc : impact_of maxDependencyBFSNodes maxDependencyBFSDepth (dependentsAdjacency (env_edges secret edges)) secretID out trunc ->
  n_EnvironmentID secret <> 0 -> (forall id n, r_secret rd id = Ok n -> n_ID n = id) ->
  map (fun n => (bl_SecretID n, bl_Depth n)) (omap (blast_node rd secret) (blast_sort out)) ≡ₚ map (fun o => (im_id o, im_depth o)) (List.filter (fun o => canReadSecret rd (im_id o)) out).
Proof.
  intros Hi Henv Hid. rewrite omap_blast; [apply Permutation_map, filter_perm_bool, blast_sort_perm|].
  intros o Ho. rewrite blast_sort_perm in Ho. destruct (impact_endpoint _ _ _ _ _ Hi Ho) as (e&He'&Hd).
  destruct (env_edges_ends secret edges e He' Henv) as [_ Hends]. destruct (Hends (im_id o) ltac:(by left)) as (n&Hn&_). exists n. split; [done|by apply Hid].
Qed.

(** The three views of an impact agree, though each has a search of its own: the blast
    radius names the secrets of the impact at the same distances, the preview the
    same secrets and at least as many in its counts, and they are marked truncated
    together. *)
Theorem impact_views_agree (secretID : Z) (secret : node) (edges : list SecretDependency) :
  requireSecret rd secretID = Ok secret -> r_edges rd (n_ProjectID secret) = Ok edges -> n_EnvironmentID secret <> 0 ->
  (forall id n, r_secret rd id = Ok n -> n_ID n = id) ->
  exists r b p, GetSecretImpact rd secretID = Some (Ok r) /\ GetBlastRadius rd secretID = Some (Ok b) /\ GetSecretImpactPreview rd secretID = Some (Ok p) /\
    map (fun n => (bl_SecretID n, bl_Depth n)) (br_Dependents b) ≡ₚ map (fun a => (af_SecretID a, af_Depth a)) (sm_Affected r) /\
    pv_Affected p = map af_SecretID (sm_Affected r) /\ Z.of_nat (length (sm_Affected r)) <= pv_Transitive p /\
    br_Truncated b = sm_Truncated r /\ pv_Truncated p = sm_Truncated r.
Proof.
  intros Hs He Henv Hid. destruct (views_search secretID secret edges Hs He) as (out&trunc&n&m&o&Hi&->&->&->).
  eexists _, _, _. split_and!; [done|done|done|..]; cbn [br_Dependents sm_Affected br_Truncated sm_Truncated]; rewrite ?map_map, ?length_map; [|..|done|].
  - by apply (blast_impact secret edges secretID out trunc).
  - by destruct (preview_fold out (mkPreview secretID 0 0 [] 0 trunc)) as (->&_).
  - destruct (preview_fold out (mkPreview secretID 0 0 [] 0 trunc)) as (_&_&->&_). cbn. apply Nat2Z.inj_le, List.filter_length_le.
  - by destruct (preview_fold out (mkPreview secretID 0 0 [] 0 trunc)) as (_&->&_).
Qed.

(** The loop of ListSecretDependencies keeps the readable neighbours, in order. *)
Lemma list_fold info secretID l out : let r := fold_left (list_step rd info secretID) l out in
  sd_DependsOn r = sd_DependsOn out ++ map (fun e => mkView (d_ID e) (d_DependsOn e) (si_name (info_of info (d_DependsOn e))) (d_Note e))
    (List.filter (fun e => (secretID =? d_Dependent e) && canReadSecret rd (d_DependsOn e)) l) /\
  sd_Dependents r = sd_Dependents out ++ map (fun e => mkView (d_ID e) (d_Dependent e) (si_name (info_of info (d_Dependent e))) (d_Note e))
    (List.filter (fun e => negb (secretID =? d_Dependent e) && (secretID =? d_DependsOn e) && canReadSecret rd (d_Dependent e)) l).
Proof.
  revert out. induction l as [|e l IH]; intros out; cbn [fold_left List.filter map]; [by rewrite !app_nil_r|]. destruct (IH (list_step rd info secretID out e)) as [-> ->].
  unfold list_step. destruct (secretID =? d_Dependent e), (secretID =? d_DependsOn e), (canReadSecret rd (d_DependsOn e)), (canReadSecret rd (d_Dependent e));
    cbn [andb negb sd_DependsOn sd_Dependents map]; rewrite <- ?app_assoc; done.
Qed.

(** The secrets a view names. *)
Definition disclosed (secretID : Z) : list Z :=
  match ListSecretDependencies rd secretID with Ok d => map v_SecretID (sd_DependsOn d) ++ map v_SecretID (sd_Dependents d) | Err _ => [] end ++
  match GetSecretImpact rd secretID with Some (Ok r) => map af_SecretID (sm_Affected r) | _ => [] end ++
  match GetBlastRadius rd secretID with Some (Ok b) => map bl_SecretID (br_Dependents b) | _ => [] end ++
  match GetSecretImpactPreview rd secretID with Some (Ok p) => pv_Affected p | _ => [] end.

(** C38. No view discloses a secret the caller has no grant of its own on: every secret
    named in the dependencies, the impact, the blast radius or the preview of a
    secret is one the caller may read, is not deleted, and lives in the environment
    of the secret asked about. *)
Theorem views_disclose_readable (secretID y : Z) (secret : node) :
  requireSecret rd secretID = Ok secret -> n_EnvironmentID secret <> 0 -> (forall id n, r_secret rd id = Ok n -> n_ID n = id) ->
  y ∈ disclosed secretID ->
  r_allowed rd y = Ok true /\ exists n, r_secret rd y = Ok n /\ n_EnvironmentID n = n_EnvironmentID secret.
Proof.
  intros Hs Henv Hid Hy. assert (canReadSecret rd y = true /\ exists n, r_secret rd y = Ok n /\ n_EnvironmentID n = n_EnvironmentID secret) as [Hc ?].
  2: { split; [|done]. unfold canReadSecret in Hc. destruct (r_allowed rd y) as [[]|]; done. }
  unfold disclosed in Hy. destruct (r_edges rd (n_ProjectID secret)) as [edges|] eqn:He.
  2: { unfold ListSecretDependencies, GetSecretImpact, GetBlastRadius, GetSecretImpactPreview, project_edges in Hy. rewrite Hs in Hy. cbn [res_bind] in Hy. rewrite He in Hy. by apply elem_of_nil in Hy. }
  assert (forall a e, canReadSecret rd a = true -> e ∈ env_edges secret edges -> a = d_Dependent e \/ a = d_DependsOn e ->
    canReadSecret rd a = true /\ exists n, r_secret rd a = Ok n /\ n_EnvironmentID n = n_EnvironmentID secret) as Hend.
  { intros a e Ha He' Hor. split; [done|]. destruct (env_edges_ends secret edges e He' Henv) as [_ H]. by apply H. }
  destruct (views_search secretID secret edges Hs He) as (out&trunc&n&m&o&Hi&Hr&Hb&Hp). rewrite Hr, Hb, Hp in Hy.
  assert (forall a, a ∈ map im_id (List.filter (fun o => canReadSecret rd (im_id o)) out) -> canReadSecret rd a = true /\ exists n, r_secret rd a = Ok n /\ n_EnvironmentID n = n_EnvironmentID secret) as Haff.
  { intros a (i&->&[Hin Hc]%elem_of_filter_bool)%elem_of_map. destruct (impact_endpoint _ _ _ _ _ Hi Hin) as (e&?&?). eapply Hend; eauto. }
  apply elem_of_app in Hy as [Hy|Hy].
  - unfold ListSecretDependencies, project_edges in Hy. rewrite Hs in Hy. cbn [res_bind] in Hy. rewrite He in Hy. cbn [res_bind] in Hy. fold (env_edges secret edges) in Hy.
    destruct (list_fold (resolveSecretInfo rd edges) secretID (env_edges secret edges) (mkDeps secretID [] [])) as [H1 H2]. rewrite H1, H2 in Hy. cbn [app sd_DependsOn sd_Dependents] in Hy.
    rewrite !map_map in Hy. apply elem_of_app in Hy as [(e&->&[Hin Hf]%elem_of_filter_bool)%elem_of_map|(e&->&[Hin Hf]%elem_of_filter_bool)%elem_of_map];
      apply andb_prop in Hf as [_ Hf]; cbn [v_SecretID]; eapply Hend; eauto.
  - cbn [sm_Affected br_Dependents] in Hy. rewrite map_map in Hy. destruct (preview_fold out (mkPreview secretID 0 0 [] 0 trunc)) as (Hpv&_). rewrite Hpv in Hy.
    apply Haff. pose proof (Permutation_map fst (blast_impact secret edges secretID out trunc Hi Henv Hid)) as Hbl. rewrite !map_map in Hbl. cbn [fst] in Hbl. rewrite Hbl in Hy.
    cbn [af_SecretID app pv_Affected] in Hy. rewrite !elem_of_app in Hy. naive_solver.
Qed.
End shown.

(** ** An example *)

(** Secrets 2 and 3 depend on 1, 4 on both, 5 (of another environment) on 4; the
    caller may not read 3. *)
Definition ex_edge (id a b : Z) : SecretDependency := mkDep id 1 a b [] 7 0 0.
Definition ex_edges : list SecretDependency := [ex_edge 1 2 1; ex_edge 2 3 1; ex_edge 3 4 2; ex_edge 4 4 3; ex_edge 5 5 4].
Definition ex_node (id : Z) : node := mkNode id (go "s") 1 (if id =? 5 then 9 else 8) true 7 (if id =? 4 then go "restricted" else []).
Definition ex_reads : dep_reads :=
  mkReads (fun id => if (1 <=? id) && (id <=? 5) then Ok (ex_node id) else Err ErrSecretNotFound)
    (fun p => if p =? 1 then Ok ex_edges else Err ErrReadFailed) (fun id => Ok (negb (id =? 3))).

Lemma ex_reads_ids id n : r_secret ex_reads id = Ok n -> n_ID n = id.
Proof. cbn. destruct (_ && _); [|done]. by intros [= <-]. Qed.

Lemma GetSecretImpact_exact_witness : exists r, GetSecretImpact ex_reads 1 = Some (Ok r) /\
  map (fun a => (af_SecretID a, af_Depth a)) (sm_Affected r) = [(2, 1); (4, 2)] /\ NoDup (map af_SecretID (sm_Affected r)).
Proof.
  destruct (GetSecretImpact_exact ex_reads 1 (ex_node 1) ex_edges) as (r&Hr&_&Hnd&_); [reflexivity|reflexivity|].
  exists r. split; [done|]. split; [|done]. revert Hr. vm_compute. by intros [= <-].
Defined.

Lemma impact_views_agree_witness : exists b p, GetBlastRadius ex_reads 1 = Some (Ok b) /\ GetSecretImpactPreview ex_reads 1 = Some (Ok p) /\
  br_Truncated b = false /\ pv_Truncated p = false /\ pv_Affected p = [2; 4] /\ pv_Transitive p = 3.
Proof.
  destruct (impact_views_agree ex_reads 1 (ex_node 1) ex_edges) as (r&b&p&Hr&Hb&Hp&_&_&_&Ht&Htp); [reflexivity|reflexivity|done|exact ex_reads_ids|].
  exists b, p. split; [done|]. split; [done|]. rewrite Ht, Htp. revert Hr Hp. vm_compute. by intros [= <-] [= <-].
Defined.

Lemma views_disclose_readable_witness : exists n, r_secret ex_reads 4 = Ok n /\ n_EnvironmentID n = 8.
Proof.
  destruct (views_disclose_readable ex_reads 1 4 (ex_node 1)) as [_ (n&Hn&He)]; [reflexivity|done|exact ex_reads_ids|vm_decide|].
  exists n. split; [done|]. exact He.
Defined.
