(* ===== verification/DepOrder.v ===== *)
(** The orders in which secrets are rotated (src/internal/core/secret_dependencies.go
    topologicalRotationOrder, rotation_planner.go rotationWaves).

    Both peel the graph: a secret is placed once nothing it depends on is left.  The
    code keeps a count of the dependencies left per secret; here the counts are
    shown to be that ([left]), so that what is placed next is described by the graph
    alone: the order is the greedy one by id, a wave is everything that can be
    placed, and all is placed exactly when the graph has no cycle. *)
From Stdlib Require Import ZArith Lia.
From stdpp Require Import base numbers tactics relations sets list gmap.
From S2P Require Import Prelude DepGraph.

(** * Binary search *)

Lemma search_loop_spec fuel f n i j : (forall x y, f x = true -> (x <= y < n)%nat -> f y = true) ->
  (i <= j <= n)%nat -> (j - i <= fuel)%nat -> (forall x, (x < i)%nat -> f x = false) -> (forall x, (j <= x < n)%nat -> f x = true) ->
  let p := search_loop fuel f i j in (p <= n)%nat /\ (forall x, (x < p)%nat -> f x = false) /\ (forall x, (p <= x < n)%nat -> f x = true).
Proof.
  intros Hmono. revert i j. induction fuel as [|fuel IH]; intros i j Hij Hf Hlo Hhi; cbn [search_loop].
  - split_and!; [lia|done|]. intros x Hx. apply Hhi. lia.
  - destruct (Nat.ltb_spec i j) as [Hlt|]; [|split_and!; [lia|done|intros x Hx; apply Hhi; lia]].
    assert (i <= Nat.div2 (i + j) < j)%nat as Hh by (rewrite Nat.div2_div; split; [apply Nat.div_le_lower_bound; lia|apply Nat.Div0.div_lt_upper_bound; lia]).
    destruct (f (Nat.div2 (i + j))) eqn:Eh.
    + apply IH; [lia|lia|done|]. intros x Hx. destruct (decide (x < j)%nat); [eapply Hmono; [exact Eh|lia]|apply Hhi; lia].
    + apply IH; [lia|lia| |done]. intros x Hx. destruct (f x) eqn:Ex; [|done]. rewrite (Hmono x (Nat.div2 (i + j)) Ex) in Eh; [done|lia].
Qed.

Lemma insert_ready_spec m l : asc l -> m ∉ l -> asc (insert_ready m l) /\ forall x, x ∈ insert_ready m l <-> x = m \/ x ∈ l.
Proof.
  intros Ha Hm. unfold insert_ready, sort_Search. set (f := fun i => m <=? nth i l 0). assert (forall i x, l !! i = Some x -> nth i l 0 = x) as Hnth.
  { intros i x Hx. rewrite nth_lookup. by rewrite Hx. }
  destruct (search_loop_spec (length l) f (length l) 0 (length l)) as (Hp&Hlo&Hhi); [|lia|lia|lia|lia|].
  { intros x y Hx Hy. unfold f in *. destruct (decide (x = y)) as [->|]; [done|]. destruct (lookup_lt_is_Some_2 l x ltac:(lia)) as [a Hx'].
    destruct (lookup_lt_is_Some_2 l y ltac:(lia)) as [b Hy']. rewrite (Hnth _ _ Hx') in Hx. rewrite (Hnth _ _ Hy'). pose proof (Ha x y a b Hx' Hy' ltac:(lia)). lia. }
  set (p := search_loop _ _ _ _) in *. assert (forall x, x ∈ take p l -> x < m) as Hbelow.
  { intros x [i Hi]%list_elem_of_lookup. apply lookup_take_Some in Hi as [Hi Hip]. specialize (Hlo i Hip). unfold f in Hlo. rewrite (Hnth _ _ Hi) in Hlo. lia. }
  assert (forall x, x ∈ drop p l -> m < x) as Habove.
  { intros x [i Hi]%list_elem_of_lookup. rewrite lookup_drop in Hi. pose proof (lookup_lt_Some _ _ _ Hi). specialize (Hhi (p + i)%nat ltac:(lia)). unfold f in Hhi.
    rewrite (Hnth _ _ Hi) in Hhi. destruct (decide (x = m)) as [->|]; [|lia]. destruct Hm. apply list_elem_of_lookup. eauto. }
  rewrite <- (take_drop p l) in Ha. apply asc_app in Ha as (H1&H2&H3). split.
  - apply asc_app. split_and!; [done|by apply asc_cons|]. intros x y Hx [-> |Hy]%elem_of_cons; [by apply Hbelow|by apply H3].
  - intros x. rewrite elem_of_app, elem_of_cons. rewrite <- (take_drop p l) at 3. rewrite elem_of_app. naive_solver.
Qed.

(** * Counting what is left *)

(** The edges of [n] to secrets outside [P]. *)
Definition left (E : list SecretDependency) (P : list Z) (n : Z) : nat :=
  length (List.filter (fun e => bool_decide (d_Dependent e = n) && negb (bool_decide (d_DependsOn e ∈ P))) E).

Lemma left_zero E P n : left E P n = 0%nat <-> forall m, dep E n m -> m ∈ P.
Proof.
  unfold left. rewrite length_zero_iff_nil. split.
  - intros H m (e&He&<-&<-). destruct (decide (d_DependsOn e ∈ P)) as [|Hn]; [done|]. assert (e ∈ @nil SecretDependency) as Hin; [|by apply elem_of_nil in Hin].
    rewrite <- H. apply elem_of_filter_bool. split; [done|]. by rewrite bool_decide_true, bool_decide_false.
  - intros H. apply elem_of_nil_inv. intros e [He Hb]%elem_of_filter_bool. breflect. apply H1, H. by exists e.
Qed.

Lemma left_snoc E P k n : k ∉ P -> left E P n = (left E (P ++ [k]) n + count_occ Z.eq_dec (at_key k (dependents_adj E)) n)%nat.
Proof.
  intros Hk. unfold left. rewrite dependents_adj_key. induction E as [|e E IH]; cbn [List.filter]; [done|].
  destruct (decide (d_DependsOn e = k)) as [He|He].
  - rewrite (bool_decide_true (d_DependsOn e = k)), (bool_decide_false (d_DependsOn e ∈ P)), (bool_decide_true (d_DependsOn e ∈ P ++ [k])) by set_solver.
    cbn [map count_occ negb]. rewrite Bool.andb_false_r, Bool.andb_true_r. destruct (Z.eq_dec (d_Dependent e) n) as [->|Hne].
    + rewrite bool_decide_true by done. cbn [length]. lia.
    + by rewrite bool_decide_false.
  - rewrite (bool_decide_false (d_DependsOn e = k)) by done. rewrite (bool_decide_ext (d_DependsOn e ∈ P ++ [k]) (d_DependsOn e ∈ P)) by set_solver.
    destruct (_ && _); cbn [length]; lia.
Qed.

Definition adj_all (E : list SecretDependency) (K : list Z) : list Z := concat (map (fun k => at_key k (dependents_adj E)) K).
Lemma elem_of_adj_all E K n : n ∈ adj_all E K <-> exists k, k ∈ K /\ dep E n k.
Proof.
  unfold adj_all. rewrite list_elem_of_In, in_concat. setoid_rewrite <- list_elem_of_In. setoid_rewrite elem_of_map. split.
  - intros (l&(k&->&Hk)&Hn). exists k. by rewrite <- elem_of_dependents_adj.
  - intros (k&Hk&Hd). exists (at_key k (dependents_adj E)). split; [eauto|by apply elem_of_dependents_adj].
Qed.
Lemma left_app E K : forall P n, NoDup K -> (forall k, k ∈ K -> k ∉ P) -> left E P n = (left E (P ++ K) n + count_occ Z.eq_dec (adj_all E K) n)%nat.
Proof.
  induction K as [|k K IH]; intros P n Hnd Hd; [rewrite app_nil_r; cbn; lia|]. apply NoDup_cons in Hnd as [Hk Hnd].
  rewrite (left_snoc E P k n) by (apply Hd; left). rewrite (IH (P ++ [k])), <- app_assoc; [|done|].
  - change (adj_all E (k :: K)) with (at_key k (dependents_adj E) ++ adj_all E K). rewrite count_occ_app. cbn [app]. lia.
  - intros x Hx [Hp| ->%list_elem_of_singleton]%elem_of_app; [|done]. apply (Hd x); [by right|done].
Qed.

Lemma degree_insert m k v n : degree (<[k := v]> m) n = if bool_decide (k = n) then v else degree m n.
Proof. unfold degree. case_bool_decide; [subst; by rewrite lookup_insert_eq|by rewrite lookup_insert_ne]. Qed.

Lemma order_indeg_degree E n : degree (order_indeg E) n = Z.of_nat (left E [] n).
Proof.
  assert (forall m, degree (fold_left (fun m e => <[d_Dependent e := degree m (d_Dependent e) + 1]> m) E m) n = degree m n + Z.of_nat (left E [] n)) as H.
  { unfold left. induction E as [|e E IH]; intros m; cbn [fold_left List.filter]; [cbn; lia|]. rewrite IH. rewrite (bool_decide_false (_ ∈ [])) by apply not_elem_of_nil.
    cbn [negb]. rewrite Bool.andb_true_r, degree_insert. case_bool_decide as He; [subst; cbn [length]; lia|done]. }
  unfold order_indeg. rewrite H. unfold degree. by rewrite lookup_empty.
Qed.

(** * Relaxation *)

Lemma degree_step (c : Z -> nat) x l indeg : (forall m, degree indeg m = Z.of_nat (c m + count_occ Z.eq_dec (x :: l) m)) ->
  forall m, degree (<[x := degree indeg x - 1]> indeg) m = Z.of_nat (c m + count_occ Z.eq_dec l m).
Proof.
  intros Hdeg m. rewrite degree_insert, !Hdeg. case_bool_decide as Hx; [subst; rewrite count_occ_cons_eq by done; lia|by rewrite count_occ_cons_neq].
Qed.

(** Of the secrets in [l], those with nothing left come out once each: [c] counts
    what is left besides [l]. *)
Lemma relax_spec (c : Z -> nat) l : forall indeg ready, (forall m, degree indeg m = Z.of_nat (c m + count_occ Z.eq_dec l m)) ->
  asc ready -> (forall m, m ∈ l -> m ∉ ready) ->
  let '(indeg', ready') := relax l indeg ready in
  (forall m, degree indeg' m = Z.of_nat (c m)) /\ asc ready' /\ (forall m, m ∈ ready' <-> m ∈ ready \/ (m ∈ l /\ c m = 0%nat)).
Proof.
  induction l as [|x l IH]; intros indeg ready Hdeg Ha Hnr; cbn [relax].
  - split_and!; [|done|]; [intros m; rewrite Hdeg; cbn; lia|]. intros m. split; [by left|]. intros [?|[?%elem_of_nil _]]; done.
  - pose proof (degree_step c x l indeg Hdeg) as Hdeg'.
    rewrite Hdeg'. destruct (Z.eqb_spec (Z.of_nat (c x + count_occ Z.eq_dec l x)) 0) as [Hz|Hz].
    + assert (x ∉ l) as Hxl by (rewrite list_elem_of_In; intros ?%(count_occ_In Z.eq_dec); lia).
      destruct (insert_ready_spec x ready Ha ltac:(apply Hnr; left)) as [Ha' Hin].
      specialize (IH _ (insert_ready x ready) Hdeg' Ha'). destruct (relax l _ _) as [indeg' ready']. destruct IH as (H1&H2&H3).
      { intros m Hm [-> |Hr]%Hin; [done|]. apply (Hnr m); [by right|done]. }
      split_and!; [done|done|]. intros m. rewrite H3, Hin, elem_of_cons. assert (c x = 0%nat) by lia. naive_solver.
    + specialize (IH _ ready Hdeg' Ha). destruct (relax l _ _) as [indeg' ready']. destruct IH as (H1&H2&H3); [intros m Hm; apply Hnr; by right|].
      split_and!; [done|done|]. intros m. rewrite H3, elem_of_cons. assert (c x = 0%nat -> x ∈ l) by (intros ?; apply list_elem_of_In, (count_occ_In Z.eq_dec); lia). naive_solver.
Qed.

Lemma wave_relax_spec (c : Z -> nat) l : forall indeg next, (forall m, degree indeg m = Z.of_nat (c m + count_occ Z.eq_dec l m)) ->
  NoDup next -> (forall m, m ∈ l -> m ∉ next) ->
  let '(indeg', next') := wave_relax l indeg next in
  (forall m, degree indeg' m = Z.of_nat (c m)) /\ NoDup next' /\ (forall m, m ∈ next' <-> m ∈ next \/ (m ∈ l /\ c m = 0%nat)).
Proof.
  induction l as [|x l IH]; intros indeg next Hdeg Ha Hnr; cbn [wave_relax].
  - split_and!; [|done|]; [intros m; rewrite Hdeg; cbn; lia|]. intros m. split; [by left|]. intros [?|[?%elem_of_nil _]]; done.
  - pose proof (degree_step c x l indeg Hdeg) as Hdeg'.
    rewrite Hdeg'. destruct (Z.eqb_spec (Z.of_nat (c x + count_occ Z.eq_dec l x)) 0) as [Hz|Hz].
    + assert (x ∉ l) as Hxl by (rewrite list_elem_of_In; intros ?%(count_occ_In Z.eq_dec); lia).
      assert (NoDup (next ++ [x])) as Ha'.
      { apply NoDup_app. split_and!; [done| |apply NoDup_singleton]. intros y Hy ->%list_elem_of_singleton. apply (Hnr x); [by left|done]. }
      specialize (IH _ (next ++ [x]) Hdeg' Ha'). destruct (wave_relax l _ _) as [indeg' next']. destruct IH as (H1&H2&H3).
      { intros m Hm [Hr| ->%list_elem_of_singleton]%elem_of_app; [|done]. apply (Hnr m); [by right|done]. }
      split_and!; [done|done|]. intros m. rewrite H3, elem_of_app, list_elem_of_singleton, elem_of_cons. assert (c x = 0%nat) by lia. naive_solver.
    + specialize (IH _ next Hdeg' Ha). destruct (wave_relax l _ _) as [indeg' next']. destruct IH as (H1&H2&H3); [intros m Hm; apply Hnr; by right|].
      split_and!; [done|done|]. intros m. rewrite H3, elem_of_cons. assert (c x = 0%nat -> x ∈ l) by (intros ?; apply list_elem_of_In, (count_occ_In Z.eq_dec); lia). naive_solver.
Qed.

(** * Peeling *)

(** [n] can be placed after [P]: it is there, and all it depends on is in [P]. *)
Definition placeable (E : list SecretDependency) (N : gset Z) (P : list Z) (n : Z) : Prop := (n ∈ N) /\ (n ∉ P) /\ (forall m, dep E n m -> m ∈ P).

Definition within (E : list SecretDependency) (N : gset Z) : Prop := forall a b, dep E a b -> a ∈ N /\ b ∈ N.

(** When nothing can be placed, everything was, or there is a cycle. *)
Lemma stuck_complete E N P : within E N -> acyclic E -> (forall n, ~ placeable E N P n) -> forall n, n ∈ N -> n ∈ P.
Proof.
  intros Hw Ha Hst n Hn. assert (sn (dep E) n) as Hsn.
  { apply tc_finite_sn; [intros x; apply Ha|]. exists (elements N). intros y Hy. apply elem_of_elements. revert y Hy. apply tc_ind_r; [intros y Hy; by apply (Hw n)|].
    intros y z _ Hz _. by apply (Hw y). }
  induction Hsn as [n _ IH]. destruct (decide (n ∈ P)) as [|Hnp]; [done|]. destruct (Hst n). split_and!; [done|done|]. intros m Hm. apply IH; [done|by apply (Hw n)].
Qed.

Lemma sorted_asc l : NoDup l -> asc (sort_ids l).
Proof.
  intros Hnd. pose proof (sort_by_sorted (fun x => x) l) as Hs. intros i j x y Hi Hj Hij. pose proof (Hs i j x y Hi Hj ltac:(lia)) as Hle. cbv beta in Hle.
  assert (x <> y); [|lia]. intros ->. assert (NoDup (sort_ids l)) as Hnd' by (by rewrite sort_ids_perm). pose proof (NoDup_lookup _ i j y Hnd' Hi Hj). lia.
Qed.

(** What both loops start from. *)
Lemma peel_start E N : within E N -> let ready := sort_ids (List.filter (fun n => degree (order_indeg E) n =? 0) (elements N)) in
  asc ready /\ forall n, n ∈ ready <-> placeable E N [] n.
Proof.
  intros Hw. cbn zeta. split.
  - apply sorted_asc. rewrite <- (map_id (List.filter _ _)). apply NoDup_map_filter. rewrite map_id. apply NoDup_elements.
  - intros n. rewrite elem_of_sort_ids, elem_of_filter_bool, elem_of_elements, order_indeg_degree, Z.eqb_eq. unfold placeable. rewrite <- left_zero.
    split; [intros [? ?]; split_and!; [done|apply not_elem_of_nil|lia]|intros (?&_&?); split; [done|lia]].
Qed.

(** What can be placed after one more list of placed secrets: what could be before and
    was not, and what the new ones were the last obstacle of. *)
Lemma placeable_app E N P K n : within E N -> (forall k, k ∈ K -> placeable E N P k) -> (forall k, k ∈ P -> forall m, dep E k m -> m ∈ P) ->
  placeable E N (P ++ K) n <-> (placeable E N P n /\ n ∉ K) \/ (n ∈ adj_all E K /\ left E (P ++ K) n = 0%nat).
Proof.
  intros Hw HK HP. unfold placeable. rewrite elem_of_app, elem_of_adj_all, left_zero. split.
  - intros (Hn&Hnp&Hall). destruct (decide (Exists (fun k => k ∈ at_key n (depends_adj E)) K)) as [(k&Hk&Hd%elem_of_depends_adj)%Exists_exists|Hno].
    + right. split; [by exists k|]. done.
    + left. split; [|auto]. split_and!; [done|auto|]. intros m Hm. specialize (Hall m Hm). apply elem_of_app in Hall as [?|?]; [done|].
      destruct Hno. apply Exists_exists. exists m. split; [done|by apply elem_of_depends_adj].
  - intros [[(?&?&Hall) ?]|[(k&Hk&Hd) Hall]].
    + split_and!; [done|naive_solver|]. intros m Hm. apply elem_of_app. auto.
    + split_and!; [by apply (Hw n k)| |done]. destruct (HK k Hk) as (_&Hkp&_). intros [Hin|Hin].
      * apply Hkp. by apply (HP n Hin).
      * destruct (HK n Hin) as (_&_&Hd'). by apply Hkp, Hd'.
Qed.

(** * The rotation order *)

Definition least_placeable (E : list SecretDependency) (N : gset Z) (P : list Z) (n : Z) : Prop :=
  placeable E N P n /\ (forall n', placeable E N P n' -> n <= n').

(** Each secret of the order was the least that could be placed when it was. *)
Definition greedy (E : list SecretDependency) (N : gset Z) (order : list Z) : Prop :=
  forall i n, order !! i = Some n -> least_placeable E N (take i order) n.

Lemma greedy_snoc E N order n : greedy E N order -> least_placeable E N order n -> greedy E N (order ++ [n]).
Proof.
  intros Hg Hn i x Hx. apply lookup_app_Some in Hx as [Hx|[Hlen Hx]].
  - pose proof (lookup_lt_Some _ _ _ Hx). rewrite take_app_le by lia. by apply Hg.
  - apply list_lookup_singleton_Some in Hx as [Hi ->]. replace i with (length order) by lia. by rewrite take_app_length.
Qed.
Lemma greedy_in E N order : greedy E N order -> forall n, n ∈ order -> n ∈ N.
Proof. intros Hg n [i Hi]%list_elem_of_lookup. by apply (Hg i n). Qed.
Lemma greedy_nodup E N order : greedy E N order -> NoDup order.
Proof.
  intros Hg. apply NoDup_alt. intros i j x Hi Hj. destruct (Nat.lt_trichotomy i j) as [Hlt|[?|Hlt]]; [exfalso|done|exfalso].
  - destruct (Hg j x Hj) as [(_&Hn&_) _]. apply Hn, elem_of_take. eauto.
  - destruct (Hg i x Hi) as [(_&Hn&_) _]. apply Hn, elem_of_take. eauto.
Qed.
(** In a peeled list dependencies go down, so what is placed has no cycle. *)
Definition peeled (E : list SecretDependency) (P : list Z) : Prop := NoDup P /\ (forall i n, P !! i = Some n -> forall m, dep E n m -> m ∈ take i P).
Lemma peeled_acyclic E N P : within E N -> peeled E P -> (forall n, n ∈ N -> n ∈ P) -> acyclic E.
Proof.
  intros Hw [Hnd Hp] Hall x Hx. assert (forall i x y, P !! i = Some x -> tc (dep E) x y -> y ∈ take i P) as H.
  { intros i a b Ha Hab. revert i Ha. induction Hab as [a b Hab|a b c Hab _ IH]; intros i Ha; [by apply (Hp i a)|].
    apply (Hp i a Ha), elem_of_take in Hab as (j&Hj&Hlt). specialize (IH j Hj). apply elem_of_take in IH as (j'&?&?). apply elem_of_take. exists j'. split; [done|lia]. }
  assert (x ∈ P) as [i Hi]%list_elem_of_lookup. { apply Hall. inversion Hx; subst; eapply (proj1 (Hw x _ ltac:(eassumption))). }
  pose proof (H i x x Hi Hx) as (j&Hj&Hlt)%elem_of_take. pose proof (NoDup_lookup _ _ _ _ Hnd Hi Hj). lia.
Qed.
Lemma greedy_peeled E N order : greedy E N order -> peeled E order.
Proof. intros Hg. split; [by eapply greedy_nodup|]. intros i n Hi. destruct (Hg i n Hi) as [(_&_&H) _]. done. Qed.
Lemma peeled_closed E P : peeled E P -> forall n, n ∈ P -> forall m, dep E n m -> m ∈ P.
Proof. intros [_ Hp] n [i Hi]%list_elem_of_lookup m Hm. specialize (Hp i n Hi m Hm). apply elem_of_take in Hp as (j&Hj&_). apply list_elem_of_lookup. eauto. Qed.
Lemma peeled_app E N P K : peeled E P -> NoDup K -> (forall k, k ∈ K -> placeable E N P k) -> peeled E (P ++ K).
Proof.
  intros [Hnd Hp] HK Hpl. split; [apply NoDup_app; split_and!; [done| |done]; intros x Hx Hk; by apply (Hpl x Hk)|].
  intros i n Hn m Hm. apply lookup_app_Some in Hn as [Hn|[Hlen Hn]].
  - pose proof (lookup_lt_Some _ _ _ Hn). rewrite take_app_le by lia. by apply (Hp i n).
  - rewrite take_app_ge by lia. apply elem_of_app. left. apply (Hpl n); [apply list_elem_of_lookup; eauto|done].
Qed.
Lemma peeled_size E (N : gset Z) P : peeled E P -> (forall n, n ∈ P -> n ∈ N) -> (length P <= size N)%nat.
Proof. intros [Hnd _] Hin. rewrite <- (size_list_to_set (C := gset Z) P) by done. apply subseteq_size. intros n Hn%elem_of_list_to_set. auto. Qed.
(** All secrets are placed exactly when there is no cycle. *)
Lemma peeled_complete E N P : within E N -> peeled E P -> (forall n, n ∈ P -> n ∈ N) -> (forall n, ~ placeable E N P n) -> length P = size N <-> acyclic E.
Proof.
  intros Hw Hp Hin Hs. split.
  - intros Hlen. eapply (peeled_acyclic E N P); [done|done|]. intros n Hn. apply (elem_of_list_to_set (C := gset Z)).
    replace (list_to_set P : gset Z) with N; [done|]. symmetry. apply set_subseteq_size_eq; [intros x Hx%elem_of_list_to_set; auto|].
    rewrite size_list_to_set by apply Hp. lia.
  - intros Ha. rewrite <- (size_list_to_set (C := gset Z) P) by apply Hp. f_equal. apply set_eq. intros n. rewrite elem_of_list_to_set.
    split; [auto|by eapply stuck_complete].
Qed.

Lemma order_loop_spec E N fuel : within E N -> forall indeg ready order, greedy E N order -> (forall n, degree indeg n = Z.of_nat (left E order n)) ->
  asc ready -> (forall n, n ∈ ready <-> placeable E N order n) -> (size N - length order <= fuel)%nat ->
  exists order', order_loop fuel (dependents_adj E) indeg ready order = Some order' /\ greedy E N order' /\ (forall n, ~ placeable E N order' n).
Proof.
  intros Hw. induction fuel as [|fuel IH]; intros indeg ready order Hg Hdeg Ha Hr Hf; cbn [order_loop]; destruct ready as [|n ready].
  1,3: exists order; split_and!; [done|done|]; intros n Hn%Hr; by apply elem_of_nil in Hn.
  all: assert (least_placeable E N order n) as Hl by (split; [apply Hr; left|]; intros n' Hn'%Hr; apply asc_cons in Ha as [Ha _]; apply elem_of_cons in Hn' as [-> |Hn']; [lia|]; specialize (Ha n' Hn'); lia).
  all: pose proof (greedy_snoc _ _ _ _ Hg Hl) as Hg'.
  - pose proof (peeled_size E N _ (greedy_peeled _ _ _ Hg') (greedy_in _ _ _ Hg')). rewrite length_app in *. cbn in *. lia.
  - apply asc_cons in Ha as [Hn Ha]. destruct Hl as [Hl _]. pose proof Hl as (_&Hno&_).
    assert (adj_all E [n] = at_key n (dependents_adj E)) as Hadj by (unfold adj_all; cbn; by rewrite app_nil_r).
    pose proof (relax_spec (left E (order ++ [n])) (sort_ids (at_key n (dependents_adj E))) indeg ready) as Hrx.
    destruct (relax _ indeg ready) as [indeg' ready']. destruct Hrx as (H1&H2&H3); [|done| |].
    + intros m. rewrite Hdeg. f_equal. rewrite (left_snoc E order n m Hno). f_equal. symmetry. apply (proj1 (Permutation_count_occ Z.eq_dec _ _)), sort_ids_perm.
    + intros m Hm Hin. rewrite elem_of_sort_ids, elem_of_dependents_adj in Hm. assert (m ∈ n :: ready) as (_&_&Hd)%Hr by (by right). by apply Hno, Hd.
    + apply IH; [done|done|done| |rewrite length_app; cbn; lia]. intros m. rewrite H3, elem_of_sort_ids, <- Hadj.
      rewrite (placeable_app E N order [n] m Hw); [|by intros k ->%list_elem_of_singleton|by apply peeled_closed, (greedy_peeled E N)].
      rewrite <- Hr, list_elem_of_singleton, elem_of_cons. split; [|naive_solver]. intros [Hm|?]; [left; split; [by right|]|by right].
      intros ->. specialize (Hn n Hm). lia.
Qed.

Lemma order_nodes_spec E n : n ∈ order_nodes E <-> exists e, e ∈ E /\ (n = d_Dependent e \/ n = d_DependsOn e).
Proof.
  assert (forall s : gset Z, n ∈ fold_left (fun s e => {[d_DependsOn e]} ∪ ({[d_Dependent e]} ∪ s)) E s <-> n ∈ s \/ exists e, e ∈ E /\ (n = d_Dependent e \/ n = d_DependsOn e)) as H.
  { induction E as [|e E IH]; intros s; cbn [fold_left]; [split; [by left|intros [?|(e&?%elem_of_nil&_)]; done]|]. rewrite IH, !elem_of_union, !elem_of_singleton. setoid_rewrite elem_of_cons. naive_solver. }
  unfold order_nodes. rewrite H. set_solver.
Qed.
Lemma order_within E : within E (order_nodes E).
Proof. intros a b (e&He&<-&<-). rewrite !order_nodes_spec. split; eauto. Qed.

Lemma order_spec E : exists order, topologicalRotationOrder E = Some (order, bool_decide (length order = size (order_nodes E))) /\
  greedy E (order_nodes E) order /\ (forall n, ~ placeable E (order_nodes E) order n).
Proof.
  destruct (peel_start E (order_nodes E) (order_within E)) as [Ha Hr]. unfold topologicalRotationOrder.
  destruct (order_loop_spec E (order_nodes E) (size (order_nodes E)) (order_within E) (order_indeg E) _ [] ltac:(intros i n Hi; by rewrite lookup_nil in Hi) ltac:(apply order_indeg_degree) Ha Hr) as (order&Ho&Hg&Hs); [lia|].
  exists order. rewrite Ho. auto.
Qed.

(** Without a cycle the order is found, and dependencies come first. *)
Lemma order_found E : acyclic E -> exists order, topologicalRotationOrder E = Some (order, true) /\ NoDup order /\ (forall n, n ∈ order -> n ∈ order_nodes E) /\
  (forall a b, dep E a b -> exists i j, order !! i = Some b /\ order !! j = Some a /\ (i < j)%nat).
Proof.
  intros Ha. destruct (order_spec E) as (order&Ho&Hg&Hs). exists order.
  pose proof (proj2 (peeled_complete _ _ _ (order_within E) (greedy_peeled _ _ _ Hg) (greedy_in _ _ _ Hg) Hs) Ha) as Hlen.
  rewrite Ho, bool_decide_true by done. split_and!; [done|by eapply greedy_nodup|by eapply greedy_in|]. intros a b Hab.
  destruct (order_within E a b Hab) as [Hin _]. pose proof (stuck_complete _ _ _ (order_within E) Ha Hs a Hin) as [j Hj]%list_elem_of_lookup.
  pose proof (proj2 (greedy_peeled _ _ _ Hg) j a Hj b Hab) as (i&Hi&Hlt)%elem_of_take. eauto.
Qed.

Lemma order_ok_acyclic E order : topologicalRotationOrder E = Some (order, true) -> acyclic E.
Proof.
  destruct (order_spec E) as (order'&->&Hg&Hs). intros [= -> Hok%bool_decide_eq_true].
  by apply (peeled_complete _ _ _ (order_within E) (greedy_peeled _ _ _ Hg) (greedy_in _ _ _ Hg) Hs).
Qed.

(** The rotation order is right.  The computation returns, and reports success exactly
    when the dependency graph has no cycle; then it lists every secret of the graph
    once, each after everything it depends on, and of those that could come next
    always the one with the least id. *)
Theorem topologicalRotationOrder_correct (E : list SecretDependency) : exists order ok,
  topologicalRotationOrder E = Some (order, ok) /\ (ok = true <-> acyclic E) /\
  (ok = true -> NoDup order /\ (forall n, n ∈ order <-> n ∈ order_nodes E) /\
     (forall i n, order !! i = Some n -> (forall m, dep E n m -> m ∈ take i order) /\
        (forall n', n' ∈ order_nodes E -> n' ∉ take i order -> (forall m, dep E n' m -> m ∈ take i order) -> n <= n'))).
Proof.
  destruct (order_spec E) as (order&Ho&Hg&Hs). exists order, (bool_decide (length order = size (order_nodes E))).
  pose proof (peeled_complete _ _ _ (order_within E) (greedy_peeled _ _ _ Hg) (greedy_in _ _ _ Hg) Hs) as Hc. split; [done|]. rewrite bool_decide_eq_true. split; [done|]. intros Hlen.
  split; [by eapply greedy_nodup|]. split; [intros n; split; [by eapply greedy_in|by apply (stuck_complete _ _ _ (order_within E) (proj1 Hc Hlen) Hs)]|].
  intros i n Hn. destruct (Hg i n Hn) as [(_&_&Hd) Hm]. split; [done|]. intros n' H1 H2 H3. apply Hm. by split_and!.
Qed.

(** A greedy order that cannot be continued is the only one. *)
Lemma greedy_unique E N o1 o2 : greedy E N o1 -> greedy E N o2 -> (forall n, ~ placeable E N o1 n) -> (forall n, ~ placeable E N o2 n) -> o1 = o2.
Proof.
  intros G1 G2 S1 S2. assert (forall i, (i <= length o1)%nat -> take i o1 = take i o2) as H.
  { induction i as [|i IH]; intros Hi; [by rewrite !take_0|]. destruct (lookup_lt_is_Some_2 o1 i ltac:(lia)) as [x Hx]. specialize (IH ltac:(lia)).
    destruct (G1 i x Hx) as [P1 L1]. assert (is_Some (o2 !! i)) as [y Hy].
    { destruct (o2 !! i) eqn:Ey; [done|]. apply lookup_ge_None in Ey. rewrite IH, (take_ge o2) in P1 by done. by destruct (S2 x). }
    destruct (G2 i y Hy) as [P2 L2]. rewrite <- IH in P2, L2. rewrite (take_S_r _ _ _ Hx), (take_S_r _ _ _ Hy), IH. f_equal. f_equal. specialize (L1 y P2). specialize (L2 x P1). lia. }
  specialize (H (length o1) ltac:(lia)). rewrite firstn_all in H. destruct (decide (length o1 < length o2)%nat) as [Hlt|Hge].
  - destruct (lookup_lt_is_Some_2 o2 (length o1) Hlt) as [y Hy]. destruct (G2 _ _ Hy) as [P2 _]. rewrite <- H in P2. by destruct (S1 y).
  - rewrite H. apply take_ge. lia.
Qed.

(** The rotation order depends on the graph alone: not on the order of the rows, on
    repeated rows, nor on Go's iteration over maps. *)
Theorem rotation_order_canonical (E E' : list SecretDependency) : (forall a b, dep E a b <-> dep E' a b) ->
  topologicalRotationOrder E = topologicalRotationOrder E'.
Proof.
  intros H. destruct (order_spec E) as (o&Ho&Hg&Hs). destruct (order_spec E') as (o'&Ho'&Hg'&Hs').
  assert (order_nodes E = order_nodes E') as HN.
  { apply set_eq. intros n. rewrite !order_nodes_spec. assert (forall E, (exists e, e ∈ E /\ (n = d_Dependent e \/ n = d_DependsOn e)) <-> exists m, dep E n m \/ dep E m n) as Hn; [|by rewrite !Hn; setoid_rewrite H].
    intros F. unfold dep. split; [intros (e&He&[-> | ->]); eauto 8|intros (m&[(e&?&?&?)|(e&?&?&?)]); eauto]. }
  rewrite <- HN in *. assert (forall P n, placeable E (order_nodes E) P n <-> placeable E' (order_nodes E) P n) as Hp by (intros P n; unfold placeable; by setoid_rewrite H).
  rewrite Ho, Ho'. replace o' with o; [done|]. apply (greedy_unique E (order_nodes E)); [done| |done|by setoid_rewrite Hp].
  intros i n Hn. destruct (Hg' i n Hn) as [HP HL]. split; [by apply Hp|]. intros n' Hn'%Hp. by apply HL.
Qed.

(** * Rotation waves *)

(** Wave [i] has everything that can be placed after the waves before it. *)
Definition layered (E : list SecretDependency) (N : gset Z) (waves : list (list Z)) : Prop :=
  forall i w, waves !! i = Some w -> asc w /\ w <> [] /\ (forall n, n ∈ w <-> placeable E N (concat (take i waves)) n).

Lemma wave_relax_app l l' indeg next : wave_relax (l ++ l') indeg next = let '(indeg, next) := wave_relax l indeg next in wave_relax l' indeg next.
Proof. revert indeg next. induction l as [|x l IH]; intros indeg next; cbn [app wave_relax]; [done|]. apply IH. Qed.
Lemma next_wave_relax E K indeg next : fold_left (fun st id => wave_relax (at_key id (dependents_adj E)) (fst st) (snd st)) K (indeg, next) = wave_relax (adj_all E K) indeg next.
Proof.
  revert indeg next. induction K as [|k K IH]; intros indeg next; cbn [fold_left]; [done|].
  change (adj_all E (k :: K)) with (at_key k (dependents_adj E) ++ adj_all E K). rewrite wave_relax_app. cbn [fst snd]. destruct (wave_relax _ indeg next). apply IH.
Qed.

(** A wave is followed by what it was the last obstacle of. *)
Lemma next_wave E N P K indeg : within E N -> peeled E P -> asc K -> (forall n, n ∈ K <-> placeable E N P n) -> (forall n, degree indeg n = Z.of_nat (left E P n)) ->
  let '(indeg', next) := bfsNextWave (dependents_adj E) K indeg in
  (forall n, degree indeg' n = Z.of_nat (left E (P ++ K) n)) /\ asc next /\ (forall n, n ∈ next <-> placeable E N (P ++ K) n).
Proof.
  intros Hw Hp Ha HK Hdeg. unfold bfsNextWave. rewrite next_wave_relax. pose proof (wave_relax_spec (left E (P ++ K)) (adj_all E K) indeg []) as H.
  destruct (wave_relax (adj_all E K) indeg []) as [indeg' next]. destruct H as (H1&H2&H3); [|apply NoDup_nil_2|by intros m _ ?%elem_of_nil|].
  - intros m. rewrite Hdeg. f_equal. apply left_app; [by apply NoDup_asc|]. intros k (_&Hk&_)%HK. done.
  - split_and!; [done|by apply sorted_asc|]. intros n. rewrite elem_of_sort_ids, H3, (placeable_app E N P K n Hw); [|by intros k ?%HK|by apply peeled_closed].
    rewrite <- HK. split; [intros [?%elem_of_nil|?]; [done|by right]|intros [[? ?]|?]; [done|by right]].
Qed.

Lemma layered_snoc E N waves K : layered E N waves -> asc K -> K <> [] -> (forall n, n ∈ K <-> placeable E N (concat waves) n) -> layered E N (waves ++ [K]).
Proof.
  intros Hl Ha Hne HK i w Hw. apply lookup_app_Some in Hw as [Hw|[Hlen Hw]].
  - pose proof (lookup_lt_Some _ _ _ Hw). rewrite take_app_le by lia. by apply Hl.
  - apply list_lookup_singleton_Some in Hw as [Hi ->]. replace i with (length waves) by lia. by rewrite take_app_length.
Qed.

Lemma wave_loop_spec E N fuel : within E N -> forall indeg current waves, layered E N waves -> peeled E (concat waves) -> (forall n, n ∈ concat waves -> n ∈ N) ->
  (forall n, degree indeg n = Z.of_nat (left E (concat waves) n)) -> asc current -> (forall n, n ∈ current <-> placeable E N (concat waves) n) ->
  (size N - length (concat waves) <= fuel)%nat ->
  exists waves', wave_loop fuel (dependents_adj E) indeg current waves (length (concat waves)) = Some (waves', length (concat waves')) /\
    layered E N waves' /\ peeled E (concat waves') /\ (forall n, n ∈ concat waves' -> n ∈ N) /\ (forall n, ~ placeable E N (concat waves') n).
Proof.
  intros Hw. induction fuel as [|fuel IH]; intros indeg current waves Hl Hp Hin Hdeg Ha HK Hf; cbn [wave_loop]; destruct current as [|c current].
  1,3: exists waves; split_and!; try done; intros n Hn%HK; by apply elem_of_nil in Hn.
  all: set (K := c :: current) in *; assert (concat (waves ++ [K]) = concat waves ++ K) as Hc by (rewrite concat_app; cbn [concat]; by rewrite app_nil_r).
  all: pose proof (peeled_app E N _ K Hp ltac:(by apply NoDup_asc) ltac:(intros k; apply HK)) as Hp'.
  all: assert (forall n, n ∈ concat waves ++ K -> n ∈ N) as Hin' by (intros n [Hn|(Hn&_)%HK]%elem_of_app; auto).
  - pose proof (peeled_size E N _ Hp' Hin') as Hsz. rewrite length_app in Hsz. unfold K in Hsz. cbn in Hsz. lia.
  - pose proof (next_wave E N (concat waves) K indeg Hw Hp Ha HK Hdeg) as Hn. destruct (bfsNextWave _ K indeg) as [indeg' next]. destruct Hn as (H1&H2&H3).
    specialize (IH indeg' next (waves ++ [K])). rewrite Hc, length_app in IH. apply IH; [by apply layered_snoc|done|done|done|done|done|]. unfold K. cbn [length]. lia.
Qed.

Lemma plan_within E candidates : within (List.filter (in_plan candidates) E) candidates.
Proof. intros a b (e&[_ He]%elem_of_filter_bool&<-&<-). unfold in_plan in He. breflect. done. Qed.

Lemma waves_spec E candidates : let inside := List.filter (in_plan candidates) E in exists waves,
  rotationWaves E candidates = Some (waves, bool_decide (length (concat waves) = size candidates)) /\
  layered inside candidates waves /\ peeled inside (concat waves) /\ (forall n, n ∈ concat waves -> n ∈ candidates) /\ (forall n, ~ placeable inside candidates (concat waves) n).
Proof.
  cbn zeta. set (inside := List.filter (in_plan candidates) E). pose proof (plan_within E candidates) as Hw. fold inside in Hw. destruct (peel_start inside candidates Hw) as [Ha Hr].
  destruct (wave_loop_spec inside candidates (size candidates) Hw (order_indeg inside) _ [] ltac:(intros i w Hi; by rewrite lookup_nil in Hi)
    ltac:(split; [apply NoDup_nil_2|intros i n Hi; cbn in Hi; by rewrite lookup_nil in Hi]) ltac:(by intros n ?%elem_of_nil) ltac:(apply order_indeg_degree) Ha Hr) as (waves&Hrun&Hl); [cbn; lia|].
  exists waves. split; [|done]. unfold rotationWaves. fold inside. cbn [length concat] in Hrun. by rewrite Hrun.
Qed.

(** The rotation waves are right.  The computation returns, and reports success exactly
    when the dependencies between the candidates have no cycle; every wave is
    ascending, not empty, and has exactly the candidates of no earlier wave whose
    dependencies among the candidates are all in earlier waves; no candidate comes
    twice, and on success none is missing. *)
Theorem rotationWaves_correct (E : list SecretDependency) (candidates : gset Z) : exists waves ok,
  let inside := List.filter (in_plan candidates) E in
  rotationWaves E candidates = Some (waves, ok) /\ (ok = true <-> acyclic inside) /\ NoDup (concat waves) /\
  (forall i w, waves !! i = Some w -> asc w /\ w <> [] /\
     (forall n, n ∈ w <-> n ∈ candidates /\ (n ∉ concat (take i waves)) /\ (forall m, dep inside n m -> m ∈ concat (take i waves)))) /\
  (ok = true -> forall n, n ∈ candidates -> n ∈ concat waves).
Proof.
  destruct (waves_spec E candidates) as (waves&Hrun&Hl&Hp&Hin&Hs). set (inside := List.filter (in_plan candidates) E) in *.
  exists waves, (bool_decide (length (concat waves) = size candidates)). cbn zeta. rewrite bool_decide_eq_true.
  pose proof (peeled_complete _ _ _ (plan_within E candidates) Hp Hin Hs) as Hc. split_and!; [done|exact Hc|apply Hp|exact Hl|].
  intros Hlen. apply (stuck_complete _ _ _ (plan_within E candidates) (proj1 Hc Hlen) Hs).
Qed.

(** ** Examples *)

Definition ord_edge (a b : Z) : SecretDependency := mkDep 0 1 a b [] 0 0 0.

Example rotation_order_example : topologicalRotationOrder [ord_edge 5 2; ord_edge 5 9; ord_edge 2 9; ord_edge 3 2; ord_edge 2 9] = Some ([9; 2; 3; 5], true).
Proof. vm_compute. reflexivity. Qed.
Example rotation_order_cycle : topologicalRotationOrder [ord_edge 5 2; ord_edge 2 3; ord_edge 3 5; ord_edge 5 1] = Some ([1], false).
Proof. vm_compute. reflexivity. Qed.
Example waves_example : rotationWaves [ord_edge 5 2; ord_edge 5 9; ord_edge 2 9; ord_edge 3 2; ord_edge 2 7] {[2; 3; 5; 9; 11]} = Some ([[9; 11]; [2]; [3; 5]], true).
Proof. vm_compute. reflexivity. Qed.

Lemma rotation_order_canonical_witness : topologicalRotationOrder [ord_edge 5 2; ord_edge 3 2; ord_edge 5 2] = topologicalRotationOrder [ord_edge 3 2; ord_edge 5 2].
Proof. apply rotation_order_canonical. intros a b. split; intros (e&He&<-&<-); exists e; (split; [|done]); rewrite ?elem_of_cons in *; naive_solver. Defined.
