(* ===== verification/DepStore.v ===== *)
(** The dependency edges in the database (src/internal/core/secret_dependencies.go,
    src/internal/storage/store/local_secret_dependencies.go, local_purge.go).

    An edge is added by a transaction that takes the project's named key, reads and
    locks the project's edges, and inserts unless the edge is there or would close a
    cycle; edges are deleted one by one or with a purged secret.  The process mutex
    and the session lock around the transaction are left out: they only exclude
    more.  In every interleaving of such transactions the committed graph of a
    project has no cycle, and so the rotation order is always found. *)
From Stdlib Require Import ZArith Lia.
From stdpp Require Import base numbers tactics relations sets list gmap.
From S2P Require Import Prelude DepGraph DepImpact DepOrder TxDB.

Inductive store_err := ErrDuplicateSecretDependency | ErrSecretDependencyCycle | ErrSecretDependencyNotFound.

Abbreviation prog := (@TxDB.prog Z SecretDependency store_err _ _).
Abbreviation table := (gmap Z SecretDependency).

(** * Transactions *)

Definition in_project (p : Z) (e : SecretDependency) : bool := d_ProjectID e =? p.

(** SELECT ... FOR UPDATE: each row found is locked and looked at again. *)
Fixpoint lock_edges (p : Z) (rows : list (Z * SecretDependency)) (edges : list SecretDependency) (k : list SecretDependency -> prog) : prog :=
  match rows with
  | [] => k edges
  | (id, _) :: rows =>
      Lock LUpdate id (in_project p) (fun r => lock_edges p rows (match r with Some e => edges ++ [e] | None => edges end) k)
  end.

Definition same_edge (d e : SecretDependency) : bool := (d_Dependent e =? d_Dependent d) && (d_DependsOn e =? d_DependsOn d).

(** The storage layer's copy of the search, which mirrors the core's. *)
Definition secretDependencyReachable (edges : list SecretDependency) (from to : Z) : option bool :=
  reach_loop (S (S (length edges))) (depends_adj edges) to {[from]} [from].

(** The checks over the edges read, and the insert. *)
Definition add_checked (d : SecretDependency) (edges : list SecretDependency) : prog :=
  if existsb (same_edge d) edges then Ret (Err ErrDuplicateSecretDependency)
  else match secretDependencyReachable edges (d_DependsOn d) (d_Dependent d) with
       | Some false => Insert (d_ID d) d (Ret (Ok ()))
       | _ => Ret (Err ErrSecretDependencyCycle)
       end.

Definition CreateSecretDependencyExclusive (d : SecretDependency) : prog :=
  Select (fun _ => in_project (d_ProjectID d)) (fun rows =>
    lock_edges (d_ProjectID d) (sort_by fst rows) [] (add_checked d)).

(** The named key of a project's graph is an advisory lock of the transaction. *)
Definition LockedCreateSecretDependencyExclusive (d : SecretDependency) : prog :=
  Advisory (d_ProjectID d) (CreateSecretDependencyExclusive d).

Definition DeleteSecretDependency (id : Z) : prog :=
  Update (fun _ k _ => k =? id) (fun _ => None) (fun n => Ret (if (n =? 0)%nat then Err ErrSecretDependencyNotFound else Ok ())).

(** The edges of purged secrets. *)
Definition purge_edges (ids : gset Z) : prog :=
  Update (fun _ _ e => bool_decide (d_Dependent e ∈ ids) || bool_decide (d_DependsOn e ∈ ids)) (fun _ => None) (fun _ => Ret (Ok ())).

(** * Operations of the core *)

(** [ATarget] says nothing about why the target will not do. *)
Inductive add_err := ASelf | ATarget | ARead (e : dep_err) | AStorage | ADenied | ANotFound.

Record new_edge := mkNew { ne_machine : bool; ne_actor : Z; ne_dependent : Z; ne_dependsOn : Z; ne_note : bytes; ne_machineID : Z; ne_now : Z; ne_id : Z }.

(** What AddSecretDependency refuses, or the transaction it sends; [writes] says
    whether the caller may write a secret. *)
Definition AddSecretDependency (rd : dep_reads) (writes : Z -> res read_err bool) (a : new_edge) : res add_err prog :=
  if ne_dependent a =? ne_dependsOn a then Err ASelf else
  match requireSecret rd (ne_dependent a) with
  | Err e => Err (ARead e)
  | Ok dependent =>
      match requireSecret rd (ne_dependsOn a) with
      | Err DRead => Err (ARead DRead)
      | Err _ => Err ATarget
      | Ok dependsOn =>
          if negb ((n_ProjectID dependsOn =? n_ProjectID dependent) && (n_EnvironmentID dependsOn =? n_EnvironmentID dependent)) then Err ATarget
          else match writes (ne_dependsOn a) with
               | Err _ => Err AStorage
               | Ok false => Err ADenied
               | Ok true =>
                   Ok (LockedCreateSecretDependencyExclusive
                     (mkDep (ne_id a) (n_ProjectID dependent) (ne_dependent a) (ne_dependsOn a) (ne_note a)
                        (if ne_machine a then 0 else ne_actor a) (ne_machineID a) (ne_now a)))
               end
      end
  end.

(** [edge] is the row the id names. *)
Definition RemoveSecretDependency (rd : dep_reads) (writes : Z -> res read_err bool) (edge : res read_err SecretDependency) (focal id : Z) : res add_err prog :=
  match requireSecret rd focal with
  | Err e => Err (ARead e)
  | Ok _ =>
      match edge with
      | Err ErrSecretNotFound => Err ANotFound
      | Err ErrReadFailed => Err (ARead DRead)
      | Ok e =>
          if negb (d_Dependent e =? focal) && negb (d_DependsOn e =? focal) then Err ANotFound else
          let peer := if d_Dependent e =? focal then d_DependsOn e else d_Dependent e in
          match writes peer with
          | Err _ => Err AStorage
          | Ok false => Err ADenied
          | Ok true => Ok (DeleteSecretDependency id)
          end
      end
  end.

Record RotationOrder := mkOrder { ro_ProjectID : Z; ro_Order : list (Z * bytes) }.

(** The outer option: the fuel of the order. *)
Definition GetProjectRotationOrder (rd : dep_reads) (projectID : Z) : option (res dep_err RotationOrder) :=
  match project_edges rd projectID with
  | Err e => Some (Err e)
  | Ok edges =>
      let info := resolveSecretInfo rd edges in
      '(order, ok) ← topologicalRotationOrder (edgesBetweenLiveSecrets edges info);
      Some (if (ok : bool) then Ok (mkOrder projectID (map (fun id => (id, si_name (info_of info id))) order)) else Err DCycle)
  end.

(** * No cycle is ever committed *)

Definition edges_of (p : Z) (D : table) : list SecretDependency := List.filter (in_project p) (map snd (map_to_list D)).
Lemma elem_of_edges_of p D e : e ∈ edges_of p D <-> d_ProjectID e = p /\ exists k, D !! k = Some e.
Proof.
  unfold edges_of. rewrite elem_of_filter_bool, elem_of_map. unfold in_project. rewrite Z.eqb_eq. split.
  - intros (([k e']&->&Hk%elem_of_map_to_list)&Hp). eauto.
  - intros (Hp&k&Hk). split; [|done]. exists (k, e). split; [done|]. by apply elem_of_map_to_list.
Qed.

(** The rows of a project only go. *)
Definition shrinks (p : Z) (D D' : table) : Prop := forall k e, d_ProjectID e = p -> D' !! k = Some e -> D !! k = Some e.
Lemma shrinks_edges p D D' : shrinks p D D' -> edges_of p D' ⊆ edges_of p D.
Proof. intros H e (Hp&k&Hk)%elem_of_edges_of. apply elem_of_edges_of. eauto. Qed.

(** The committed edges of the project are among those read or still to be locked. *)
Definition covers (D : table) (p : Z) (rows : list (Z * SecretDependency)) (edges : list SecretDependency) : Prop :=
  forall k e, D !! k = Some e -> d_ProjectID e = p -> (k, e) ∈ rows \/ e ∈ edges.

(** A project's graph: no cycle, and no edge twice. *)
Definition graph_wf (p : Z) (D : table) : Prop := acyclic (edges_of p D) /\
  (forall k k' e e', D !! k = Some e -> D !! k' = Some e' -> d_ProjectID e = p -> d_ProjectID e' = p -> same_edge e e' = true -> k = k').

(** The edge [d] can be added. *)
Definition addable (D : table) (d : SecretDependency) : Prop := acyclic (d :: edges_of (d_ProjectID d) D) /\
  (forall k e, D !! k = Some e -> d_ProjectID e = d_ProjectID d -> same_edge d e = false).

Lemma graph_wf_shrinks p D D' : shrinks p D D' -> graph_wf p D -> graph_wf p D'.
Proof. intros Hs [Ha Hu]. split; [eapply acyclic_mono; [by apply shrinks_edges|done]|]. intros k k' e e' Hk Hk' He He'. apply (Hu k k' e e'); auto. Qed.

Abbreviation txst := (@TxDB.txst Z SecretDependency store_err _ _).

(** Where a transaction is, with what it may rely on. *)
Inductive phase (D : table) (x : txst) : Prop :=
| ph_start d : d_Dependent d <> d_DependsOn d -> x_prog x = LockedCreateSecretDependencyExclusive d -> x_buf x = ∅ -> phase D x
| ph_key d : d_Dependent d <> d_DependsOn d -> x_prog x = CreateSecretDependencyExclusive d -> x_buf x = ∅ -> d_ProjectID d ∈ x_adv x -> phase D x
| ph_rows d id e rows edges : d_Dependent d <> d_DependsOn d -> x_prog x = lock_edges (d_ProjectID d) ((id, e) :: rows) edges (add_checked d) -> x_buf x = ∅ ->
    d_ProjectID d ∈ x_adv x -> covers D (d_ProjectID d) ((id, e) :: rows) edges -> phase D x
| ph_insert d : x_prog x = Insert (d_ID d) d (Ret (Ok ())) -> x_buf x = ∅ -> d_ProjectID d ∈ x_adv x -> addable D d -> phase D x
| ph_added d : x_prog x = Ret (Ok ()) -> x_buf x = {[d_ID d := Some d]} -> d_ProjectID d ∈ x_adv x -> addable D d -> phase D x
| ph_delete sel k : x_prog x = Update sel (fun _ => None) k -> (forall n, exists r, k n = Ret r) -> (forall k v, x_buf x !! k = Some v -> v = None) -> phase D x
| ph_deleted r : x_prog x = Ret r -> (forall k v, x_buf x !! k = Some v -> v = None) -> phase D x.

Lemma covers_shrinks D D' p rows edges : shrinks p D D' -> covers D p rows edges -> covers D' p rows edges.
Proof. intros Hs Hc k e Hk Hp. apply Hc; [by apply Hs|done]. Qed.
Lemma addable_shrinks D D' d : shrinks (d_ProjectID d) D D' -> addable D d -> addable D' d.
Proof.
  intros Hs [Ha Hu]. split; [|eauto]. eapply acyclic_mono; [|exact Ha]. intros e [-> |He]%elem_of_cons; [left|right; by eapply shrinks_edges].
Qed.

(** A phase survives commits that take nothing but rows from its project. *)
Lemma phase_stable D D' x : phase D x -> (forall p, p ∈ x_adv x -> shrinks p D D') -> phase D' x.
Proof.
  intros [d Hs Hp Hb|d Hs Hp Hb Ha|d id e rows edges Hs Hp Hb Ha Hc|d Hp Hb Ha Hac|d Hp Hb Ha Hac|sel k Hp Hk Hb|r Hp Hb] Hsh.
  - by eapply ph_start.
  - by eapply ph_key.
  - eapply ph_rows; eauto. eapply covers_shrinks; eauto.
  - eapply ph_insert; eauto. eapply addable_shrinks; eauto.
  - eapply ph_added; eauto. eapply addable_shrinks; eauto.
  - by eapply ph_delete.
  - by eapply ph_deleted.
Qed.

(** The checks let an edge through only if it closes no cycle. *)
Lemma checked_phase D d edges x : (forall p, graph_wf p D) -> d_Dependent d <> d_DependsOn d -> covers D (d_ProjectID d) [] edges ->
  x_prog x = add_checked d edges -> x_buf x = ∅ -> d_ProjectID d ∈ x_adv x -> phase D x.
Proof.
  intros HI Hs Hc Hp Hb Ha. unfold add_checked in Hp. destruct (existsb _ edges) eqn:Edup; [eapply ph_deleted; [done|]; rewrite Hb; intros k v Hv; by rewrite lookup_empty in Hv|].
  destruct (dependencyReachable_spec edges (d_DependsOn d) (d_Dependent d)) as (b&Hr&Hb'). change (secretDependencyReachable edges (d_DependsOn d) (d_Dependent d) = Some b) in Hr. rewrite Hr in Hp.
  destruct b; [eapply ph_deleted; [done|]; rewrite Hb; intros k v Hv; by rewrite lookup_empty in Hv|].
  eapply ph_insert; [done|done|done|]. split; [apply acyclic_add; [apply HI|done|]; intros Ht|].
  - assert (false = true); [|done]. apply Hb'. revert Ht. apply (tc_congruence (fun x => x)). intros a b. apply dep_mono.
    intros e (Hp'&k&Hk)%elem_of_edges_of. destruct (Hc k e Hk Hp') as [?%elem_of_nil|?]; done.
  - intros k e Hk Hp'. destruct (Hc k e Hk Hp') as [?%elem_of_nil|He]; [done|]. destruct (same_edge d e) eqn:Ee; [|done].
    assert (existsb (same_edge d) edges = true); [|congruence]. apply existsb_exists. exists e. split; [by apply list_elem_of_In|done].
Qed.

Lemma view_empty (D : table) : view ∅ D = D.
Proof. apply map_eq. intros k. rewrite lookup_view. by rewrite lookup_empty. Qed.

Lemma rows_phase D d rows edges x : (forall p, graph_wf p D) -> d_Dependent d <> d_DependsOn d -> covers D (d_ProjectID d) rows edges ->
  x_prog x = lock_edges (d_ProjectID d) rows edges (add_checked d) -> x_buf x = ∅ -> d_ProjectID d ∈ x_adv x -> phase D x.
Proof. intros. destruct rows as [|[id e] rows]; [by eapply checked_phase|by eapply ph_rows]. Qed.

Lemma phase_step D txs t x x' : (forall p, graph_wf p D) -> phase D x -> tx_step (mkState D txs) t x x' -> phase D x'.
Proof.
  intros HI [d Hs Hp Hb|d Hs Hp Hb Ha|d id e rows edges Hs Hp Hb Ha Hc|d Hp Hb Ha Hac|d Hp Hb Ha Hac|sel k Hp Hk Hb|r Hp Hb] Hst;
    destruct Hst as [sel1 k1 x Hq|m1 key1 wh1 k1 x Hq Hv|m1 key1 wh1 k1 r1 x Hq Hv Hwh Hm|sel1 upd1 k1 x Hq Hw v|sel0 upd1 k1 sel1 key1 keys1 n1 r1 x Hq Hw Hm Hv Hf
      |sel0 upd1 k1 sel1 key1 keys1 n1 x Hq Hw Hm Hv|sel0 upd1 k1 sel1 n1 x Hq Hw|key1 row1 k1 x Hq Hd Hfree|key1 k1 x Hq Ho]; rewrite Hp in Hq; unfold LockedCreateSecretDependencyExclusive, CreateSecretDependencyExclusive in Hq; cbn [lock_edges] in Hq; simplify_eq.
  - eapply (ph_key D _ d); [done|done|done|]. cbn. left.
  - eapply (rows_phase D d _ []); [done|done| |done|done|done]. intros k e Hk Hpr. left. cbn [s_db]. rewrite Hb, view_empty. rewrite (sort_by_perm fst). apply elem_of_matching.
    split; [done|]. unfold in_project. by apply Z.eqb_eq.
  - eapply (rows_phase D d rows edges); [done|done| |done|done|done]. cbn [s_db] in Hv. rewrite Hb, view_empty in Hv. intros k e' Hk Hpr.
    destruct (Hc k e' Hk Hpr) as [[[= -> ->]|Hin]%elem_of_cons|?]; [|by left|by right]. rewrite Hk in Hv. unfold in_project in Hv. rewrite Hpr, Z.eqb_refl in Hv. done.
  - eapply (rows_phase D d rows (edges ++ [r1])); [done|done| |done|done|done]. cbn [s_db] in Hv. rewrite Hb, view_empty in Hv. intros k e' Hk Hpr.
    destruct (Hc k e' Hk Hpr) as [[[= -> ->]|Hin]%elem_of_cons|?]; [|by left|right; apply elem_of_app; by left]. rewrite Hk in Hv. injection Hv as ->. right. apply elem_of_app. right. by left.
  - eapply (ph_added D _ row1); [done|cbn; by rewrite Hb|done|done].
  - eapply ph_delete; [exact Hp|exact Hk|exact Hb].
  - eapply ph_delete; [exact Hp|exact Hk|]. cbn. intros k' v' [[<- <-]|[_ ?]]%lookup_insert_Some; [done|eauto].
  - eapply ph_delete; [exact Hp|exact Hk|exact Hb].
  - destruct (Hk n1) as [r Hr]. eapply (ph_deleted D _ r); cbn; done.
Qed.

(** * Every committed graph *)

(** The transactions the system sends: edges added and removed by the core, and
    edges of purged secrets. *)
Inductive dep_operation : prog -> Prop :=
| op_add rd writes a p : AddSecretDependency rd writes a = Ok p -> dep_operation p
| op_remove rd writes edge focal id p : RemoveSecretDependency rd writes edge focal id = Ok p -> dep_operation p
| op_purge ids : dep_operation (purge_edges ids).

Lemma add_sends rd writes a p : AddSecretDependency rd writes a = Ok p -> exists d, p = LockedCreateSecretDependencyExclusive d /\ d_Dependent d <> d_DependsOn d.
Proof.
  unfold AddSecretDependency. destruct (Z.eqb_spec (ne_dependent a) (ne_dependsOn a)); [done|]. destruct (requireSecret rd (ne_dependent a)) as [n1|]; [|done].
  destruct (requireSecret rd (ne_dependsOn a)) as [n2|[]]; try done. destruct (negb _); [done|]. destruct (writes (ne_dependsOn a)) as [[]|]; [|done..].
  intros [= <-]. eauto.
Qed.
Lemma remove_sends rd writes edge focal id p : RemoveSecretDependency rd writes edge focal id = Ok p -> p = DeleteSecretDependency id.
Proof.
  unfold RemoveSecretDependency. destruct (requireSecret rd focal); [|done]. destruct edge as [e|[]]; try done. destruct (_ && _); [done|]. destruct (writes _) as [[]|]; [|done..]. by intros [= <-].
Qed.

Lemma begins_phase D p : dep_operation p -> phase D (mkTx p ∅ [] [] None).
Proof.
  intros [rd writes a q (d&->&Hd)%add_sends|rd writes edge focal id q ->%remove_sends|ids].
  - by eapply ph_start.
  - eapply ph_delete; [done| |]; cbn; [intros n; eauto|intros k v Hv; by rewrite lookup_empty in Hv].
  - eapply ph_delete; [done| |]; cbn; [intros n; eauto|intros k v Hv; by rewrite lookup_empty in Hv].
Qed.

(** The state: graphs without cycles, transactions in their phases, keys held once. *)
Definition graph_ok (s : @TxDB.state Z SecretDependency store_err _ _) : Prop :=
  (forall p, graph_wf p (s_db s)) /\ (forall t x, s_txs s !! t = Some x -> phase (s_db s) x) /\
  (forall t u x y k, t <> u -> s_txs s !! t = Some x -> s_txs s !! u = Some y -> k ∈ x_adv x -> k ∉ x_adv y).

(** A commit adds at most an edge its transaction checked. *)
Lemma commit_phase D x : (forall p, graph_wf p D) -> phase D x -> x_prog x = Ret (Ok ()) ->
  (forall p, graph_wf p (view (x_buf x) D)) /\ (forall p, p ∉ x_adv x -> shrinks p D (view (x_buf x) D)).
Proof.
  intros HI Hph Hret. assert ((exists d, x_buf x = {[d_ID d := Some d]} /\ d_ProjectID d ∈ x_adv x /\ addable D d) \/ (forall k v, x_buf x !! k = Some v -> v = None)) as [(d&Hb&Ha&Hac&Hnew)|Hb].
  { destruct Hph as [d _ Hp _|d _ Hp _ _|d id e rows edges _ Hp _ _ _|d Hp _ _ _|d Hp Hb Ha Hac|sel k Hp _ _|r Hp Hb]; rewrite Hret in Hp; try done; [left|right]; eauto. }
  - assert (forall k e, view (x_buf x) D !! k = Some e -> k = d_ID d /\ e = d \/ k <> d_ID d /\ D !! k = Some e) as Hv.
    { intros k e. rewrite lookup_view, Hb. destruct (decide (k = d_ID d)) as [->|Hne]; [rewrite lookup_singleton_eq; cbn; intros [= ->]; by left|].
      rewrite lookup_singleton_ne by done. cbn. by right. }
    assert (forall p, p <> d_ProjectID d -> shrinks p D (view (x_buf x) D)) as Hsh by (intros p Hp k e He [[_ ->]|[_ Hk]]%Hv; [done|done]).
    split; [|intros p Hp; apply Hsh; by intros ->]. intros p. destruct (decide (p = d_ProjectID d)) as [->|Hne]; [split|by eapply graph_wf_shrinks, HI; apply Hsh].
    + eapply acyclic_mono; [|exact Hac]. intros e (Hp&k&[[_ ->]|[_ Hk]]%Hv)%elem_of_edges_of; [left|right]. apply elem_of_edges_of. eauto.
    + assert (forall e, same_edge e d = same_edge d e) as Hsym by (intros e; unfold same_edge; by rewrite (Z.eqb_sym (d_Dependent e)), (Z.eqb_sym (d_DependsOn e))).
      intros k k' e e' [[-> ->]|[_ Hk]]%Hv [[-> ->]|[_ Hk']]%Hv He He' Hs; [done| | |by apply (proj2 (HI (d_ProjectID d)) k k' e e')].
      * by rewrite (Hnew k' e' Hk' He') in Hs.
      * by rewrite Hsym, (Hnew k e Hk He) in Hs.
  - assert (forall p, shrinks p D (view (x_buf x) D)) as Hs.
    { intros p k e _. rewrite lookup_view. destruct (x_buf x !! k) as [v|] eqn:Ev; [|done]. by rewrite (Hb k v Ev). }
    split; [|auto]. intros p. by eapply graph_wf_shrinks, HI.
Qed.

(** A step takes an advisory key nobody else has, or none. *)
Lemma step_adv s t x x' k : @tx_step Z SecretDependency store_err _ _ s t x x' -> k ∈ x_adv x' -> k ∈ x_adv x \/ others s t (fun y => k ∉ x_adv y).
Proof.
  destruct 1 as [| | | | | | | |key k1 x _ Ho]; cbn; auto. intros [-> |?]%elem_of_cons; [by right|by left].
Qed.

Lemma graph_step s s' : step dep_operation s s' -> graph_ok s -> graph_ok s'.
Proof.
  destruct 1 as [t p D txs Ht Hb|t x x' D txs Hx Hst|t x D txs Hx Hp|t x D txs Hx]; intros (HI&Hph&Hadv); cbn [s_db s_txs] in *; (split; [|split]); cbn [s_db s_txs].
  - done.
  - intros u y [[_ <-]|[_ Hy]]%lookup_insert_Some; [by apply begins_phase|eauto].
  - intros u v y z k Hne [[<- <-]|[_ Hy]]%lookup_insert_Some [[<- <-]|[_ Hz]]%lookup_insert_Some Hk; [done|by apply elem_of_nil in Hk|apply not_elem_of_nil|by eapply (Hadv u v)].
  - done.
  - intros u y [[_ <-]|[_ Hy]]%lookup_insert_Some; [by eapply phase_step; eauto|eauto].
  - intros u v y z k Hne [[<- <-]|[Hut Hy]]%lookup_insert_Some [[<- <-]|[Hvt Hz]]%lookup_insert_Some Hk; [done| | |by eapply (Hadv u v)].
    + destruct (step_adv _ _ _ _ k Hst Hk) as [Hk'|Ho]; [by eapply (Hadv t v)|]. by apply (Ho v z).
    + intros Hk'. destruct (step_adv _ _ _ _ k Hst Hk') as [Hk''|Ho]; [by apply (Hadv u t y x k)|]. by apply (Ho u y).
  - intros p. by apply (commit_phase D x HI (Hph t x Hx) Hp).
  - intros u y [Hne Hy]%lookup_delete_Some. eapply phase_stable; [eauto|]. intros p Ha. apply (commit_phase D x HI (Hph t x Hx) Hp). by apply (Hadv u t y x p).
  - intros u v y z k Hne [_ Hy]%lookup_delete_Some [_ Hz]%lookup_delete_Some. by apply (Hadv u v).
  - done.
  - intros u y [_ Hy]%lookup_delete_Some. eauto.
  - intros u v y z k Hne [_ Hy]%lookup_delete_Some [_ Hz]%lookup_delete_Some. by apply (Hadv u v).
Qed.

Lemma reachable_graph D s : (forall p, graph_wf p D) -> reachable dep_operation D s -> forall p, graph_wf p (s_db s).
Proof.
  intros HD Hr. assert (graph_ok (mkState D ∅)) as H0 by (split; [done|]; split; cbn; intros *; by rewrite lookup_empty).
  assert (graph_ok s) as [H _]; [|done]. unfold reachable in Hr. revert H0. induction Hr as [|s1 s2 s3 H1 _ IH]; [done|]. intros H0. by apply IH, (graph_step s1).
Qed.

Lemma empty_graph p : graph_wf p ∅.
Proof.
  split; [intros x Hx|intros k k' e e' Hk; by rewrite lookup_empty in Hk]. inversion Hx as [? ? (e&He&_)|? ? ? (e&He&_)]; subst;
    apply elem_of_edges_of in He as (_&k&Hk); by rewrite lookup_empty in Hk.
Qed.

(** C22. The dependency graph never has a cycle or an edge twice.  From an empty table, in
    every interleaving of transactions that add edges, remove them or purge their
    secrets, started and stopped at any point, no secret of a project depends on
    itself through committed edges, and no two committed rows are the same edge. *)
Theorem dependency_graph_acyclic (s : @TxDB.state Z SecretDependency store_err _ _) : reachable dep_operation ∅ s ->
  forall p, (forall x, ~ tc (dep (edges_of p (s_db s))) x x) /\
    (forall k k' e e', s_db s !! k = Some e -> s_db s !! k' = Some e' -> d_ProjectID e = p -> d_ProjectID e' = p ->
       d_Dependent e = d_Dependent e' -> d_DependsOn e = d_DependsOn e' -> k = k').
Proof.
  intros Hr p. destruct (reachable_graph ∅ s empty_graph Hr p) as [Ha Hu]. split; [exact Ha|].
  intros k k' e e' Hk Hk' He He' H1 H2. apply (Hu k k' e e'); [done..|]. unfold same_edge. by rewrite H1, H2, !Z.eqb_refl.
Qed.

(** * The rotation order is always found *)

Definition is_live (rd : dep_reads) (id : Z) : Prop := exists n, r_secret rd id = Ok n.

Lemma present_live rd edges e : e ∈ edges -> e ∈ edgesBetweenLiveSecrets edges (resolveSecretInfo rd edges) <-> is_live rd (d_Dependent e) /\ is_live rd (d_DependsOn e).
Proof.
  intros He. unfold edgesBetweenLiveSecrets. rewrite elem_of_filter_bool. unfold present. rewrite andb_true_iff, !bool_decide_eq_true.
  assert (forall id, id = d_Dependent e \/ id = d_DependsOn e -> is_Some (resolveSecretInfo rd edges !! id) <-> is_live rd id) as H.
  { intros id Hid. split; [intros (n&Hn&_)%info_some; by exists n|]. intros (n&Hn). unfold resolveSecretInfo. rewrite info_foldr, bool_decide_true, Hn; [done|].
    apply elem_of_elements, elem_of_list_to_set, elem_of_app. rewrite !elem_of_map. destruct Hid as [-> | ->]; eauto. }
  rewrite (H (d_Dependent e)), (H (d_DependsOn e)) by auto. naive_solver.
Qed.

(** A project's rotation order is always found.  In every committed state the
    transactions can reach, the rotation order of a project is computed without the
    cycle error; it lists secrets once, and of every edge between two secrets that
    are not deleted it has the secret depended on before the dependent one. *)
Theorem rotation_order_always_found (s : @TxDB.state Z SecretDependency store_err _ _) (rd : dep_reads) (p : Z) (edges : list SecretDependency) :
  reachable dep_operation ∅ s -> r_edges rd p = Ok edges -> (forall e, e ∈ edges <-> e ∈ edges_of p (s_db s)) ->
  exists r, GetProjectRotationOrder rd p = Some (Ok r) /\ NoDup (map fst (ro_Order r)) /\
    (forall e, e ∈ edges -> is_live rd (d_Dependent e) -> is_live rd (d_DependsOn e) -> exists i j,
       map fst (ro_Order r) !! i = Some (d_DependsOn e) /\ map fst (ro_Order r) !! j = Some (d_Dependent e) /\ (i < j)%nat).
Proof.
  intros Hr He Hs. set (L := edgesBetweenLiveSecrets edges (resolveSecretInfo rd edges)). assert (acyclic L) as Ha.
  { eapply acyclic_mono; [|apply (reachable_graph ∅ s empty_graph Hr p)]. intros e Hin. apply Hs. by apply elem_of_filter_bool in Hin as [? _]. }
  destruct (order_found L Ha) as (order&Ho&Hnd&_&Hord). unfold GetProjectRotationOrder, project_edges. rewrite He. fold L. rewrite Ho. cbn [mbind option_bind].
  eexists. split; [done|]. cbn [ro_Order]. rewrite map_map. cbn [fst]. rewrite map_id. split; [done|]. intros e Hin H1 H2. apply Hord. exists e. split; [|done]. by apply present_live.
Qed.

(** ** Two replicas *)

(** One adds that 2 depends on 1, the other that 1 depends on 2, at the same time. *)
Definition ex_add (id a b : Z) : prog :=
  match AddSecretDependency ex_reads (fun _ => Ok true) (mkNew false 7 a b [] 0 0 id) with Ok p => p | Err _ => Ret (Err ErrSecretDependencyNotFound) end.
Lemma ex_add_operation id a b : a <> b -> 1 <= a <= 4 -> 1 <= b <= 4 -> dep_operation (ex_add id a b).
Proof.
  intros Hne Ha Hb. unfold ex_add. destruct (AddSecretDependency _ _ _) eqn:E; [by eapply op_add|]. exfalso. revert E. unfold AddSecretDependency. cbn [ne_dependent ne_dependsOn].
  rewrite (proj2 (Z.eqb_neq a b) Hne). unfold requireSecret. cbn [ex_reads r_secret].
  rewrite (proj2 (Z.leb_le 1 a)), (proj2 (Z.leb_le a 5)), (proj2 (Z.leb_le 1 b)), (proj2 (Z.leb_le b 5)) by lia. cbn [andb ex_node n_IsSecret n_ProjectID n_EnvironmentID].
  rewrite (proj2 (Z.eqb_neq a 5)), (proj2 (Z.eqb_neq b 5)) by lia. done.
Qed.
Definition ex_schedule : list (@TxDB.act Z SecretDependency store_err _ _) :=
  [Begin 1 (ex_add 10 2 1); Begin 2 (ex_add 11 1 2); Go 1 2; Go 1 1; Commit 1; Go 2 3].
Definition ex_final : @TxDB.state Z SecretDependency store_err _ _ :=
  match play ex_schedule ∅ ∅ with Some (D, txs) => mkState D txs | None => mkState ∅ ∅ end.
Lemma ex_reachable : reachable dep_operation ∅ ex_final.
Proof.
  unfold reachable, ex_final. destruct (play ex_schedule ∅ ∅) as [[D txs]|] eqn:E; [|done]. eapply play_steps; [|exact E].
  unfold ex_schedule. repeat constructor; by apply ex_add_operation.
Qed.

Lemma dependency_graph_acyclic_witness : edges_of 1 (s_db ex_final) = [mkDep 10 1 2 1 [] 7 0 0] /\ (forall x, ~ tc (dep (edges_of 1 (s_db ex_final))) x x) /\
  x_prog <$> (s_txs ex_final !! 2%nat) = Some (Ret (Err ErrSecretDependencyCycle)).
Proof.
  split; [vm_compute; reflexivity|]. split; [|vm_compute; reflexivity]. apply (dependency_graph_acyclic ex_final ex_reachable 1).
Defined.

Definition ex_state_reads : dep_reads := mkReads (r_secret ex_reads) (fun p => Ok (edges_of p (s_db ex_final))) (r_allowed ex_reads).
Lemma rotation_order_always_found_witness : exists r, GetProjectRotationOrder ex_state_reads 1 = Some (Ok r) /\ map fst (ro_Order r) = [1; 2].
Proof.
  destruct (rotation_order_always_found ex_final ex_state_reads 1 (edges_of 1 (s_db ex_final)) ex_reachable eq_refl ltac:(done)) as (r&Hr&_).
  exists r. split; [done|]. revert Hr. vm_compute. by intros [= <-].
Defined.
