(* ===== verification/RotationRun.v ===== *)
(** A run of automatic rotation (src/internal/core/rotation_executor.go).

    The secrets due are grouped by project and rotated in the waves of DepOrder.v; a
    secret whose dependency did not rotate in the run is deferred.  What the outside
    answers for each secret (the generated value, the backend that holds the
    credential, the write of the new version) is an argument; a run records the
    values stored, the failures, the audit events and the rotation states stamped
    on policies, in order. *)
From Stdlib Require Import ZArith Lia.
From stdpp Require Import base numbers tactics relations sets list gmap.
From S2P Require Import Prelude DepGraph DepOrder.

Record due_secret := mkDue { du_ID : Z; du_Project : Z; du_Policy : Z; du_Backend : bytes; du_Ref : bytes }.

(** * Backends *)

Inductive upstream_err := UPlain | UPartial (value : bytes).
(** A backend that makes the credential itself, or one that takes the candidate. *)
Inductive executor := Generating (answer : res upstream_err bytes) | Setting (answer : bytes -> option upstream_err).

Record answers := mkAnswers {
  an_generate : Z -> option bytes;
  an_manager : option (Z -> option executor);
  an_store : Z -> bool }.

Definition applyBackendRotation (an : answers) (s : due_secret) (candidate : bytes) : res upstream_err bytes :=
  match an_manager an with
  | None => Err UPlain
  | Some get =>
      match get (du_ID s) with
      | None => Err UPlain
      | Some exec =>
          if bool_decide (du_Ref s = []) then Err UPlain
          else match exec with
               | Generating a => a
               | Setting a => match a candidate with Some e => Err e | None => Ok candidate end
               end
      end
  end.

(** * One secret *)

Inductive failure := FGenerate | FBackend | FStore | FIncomplete | FDeferred (dependency : Z).
Inductive run_event := EStarted (id : Z) | EFailed (id : Z) | EDrift (id : Z) | EIncomplete (id : Z) | ERotated (id : Z) | EDeferred (id dependency : Z) | EFailures (project : Z) (n : nat).
Inductive rotation_state := RSRotating | RSSucceeded | RSFailed.

Record run := mkRun { ru_stored : list (Z * bytes); ru_failed : gmap Z failure; ru_events : list run_event; ru_states : list (Z * rotation_state) }.

Definition stamp (policy : Z) (st : rotation_state) (r : run) : run := mkRun (ru_stored r) (ru_failed r) (ru_events r) (ru_states r ++ [(policy, st)]).
Definition audit (e : run_event) (r : run) : run := mkRun (ru_stored r) (ru_failed r) (ru_events r ++ [e]) (ru_states r).
Definition fails (id : Z) (f : failure) (r : run) : run := mkRun (ru_stored r) (<[id := f]> (ru_failed r)) (ru_events r) (ru_states r).
Definition unfails (id : Z) (r : run) : run := mkRun (ru_stored r) (delete id (ru_failed r)) (ru_events r) (ru_states r).
Definition stores (id : Z) (v : bytes) (r : run) : run := mkRun (ru_stored r ++ [(id, v)]) (ru_failed r) (ru_events r) (ru_states r).

(** The new version is written, with what follows. *)
Definition store_rotated (an : answers) (s : due_secret) (value : bytes) (incomplete : bool) (r : run) : bool * run :=
  if an_store an (du_ID s) then
    let r := stores (du_ID s) value r in
    if incomplete
    then (true, stamp (du_Policy s) RSFailed (audit (EIncomplete (du_ID s)) (fails (du_ID s) FIncomplete r)))
    else (true, stamp (du_Policy s) RSSucceeded (audit (ERotated (du_ID s)) (unfails (du_ID s) r)))
  else
    (false, stamp (du_Policy s) RSFailed
      (audit (if bool_decide (du_Backend s = []) then EFailed (du_ID s) else EDrift (du_ID s)) (fails (du_ID s) FStore r))).

Definition rotateOneSecret (an : answers) (s : due_secret) (r : run) : bool * run :=
  let r := stamp (du_Policy s) RSRotating r in
  match an_generate an (du_ID s) with
  | None => (false, stamp (du_Policy s) RSFailed (fails (du_ID s) FGenerate r))
  | Some val =>
      if bool_decide (du_Backend s = []) then store_rotated an s val false r
      else
        let r := audit (EStarted (du_ID s)) r in
        match applyBackendRotation an s val with
        | Err (UPartial v) => store_rotated an s v true r
        | Err UPlain => (false, stamp (du_Policy s) RSFailed (fails (du_ID s) FBackend (audit (EFailed (du_ID s)) r)))
        | Ok v => store_rotated an s v false r
        end
  end.

(** * One project *)

(** The least blocked dependency, [found, lowest] of the loop as an option. *)
Definition lowestBlockedDep (deps : list Z) (blocked : gset Z) : option Z :=
  fold_left (fun acc d => if bool_decide (d ∈ blocked) && (match acc with Some l => d <? l | None => true end) then Some d else acc) deps None.

Definition wave_member (an : answers) (due : gmap Z due_secret) (deps : adjacency) (id : Z) (st : gset Z * run * nat) : gset Z * run * nat :=
  let '(blocked, r, n) := st in
  match due !! id with
  | None => st
  | Some s =>
      match lowestBlockedDep (at_key id deps) blocked with
      | Some d => ({[id]} ∪ blocked, fails id (FDeferred d) (audit (EDeferred id d) r), n)
      | None =>
          let '(ok, r) := rotateOneSecret an s r in
          if ok then (blocked, r, S n) else ({[id]} ∪ blocked, r, n)
      end
  end.

(** [failed] is the project's own: it starts empty. *)
Definition rotateProjectWaves (an : answers) (waves : list (list Z)) (due : gmap Z due_secret) (deps : adjacency) (r : run) : run * nat :=
  let r := mkRun (ru_stored r) ∅ (ru_events r) (ru_states r) in
  let '(_, r, n) := fold_left (fun st wave => fold_left (fun st id => wave_member an due deps id st) wave st) waves (∅, r, 0%nat) in
  (r, n).

(** [edges] is the read of the project's edges.  Without it, or with a cycle, the
    secrets are rotated in one wave without deferral.  The outer option: the fuel
    of the waves. *)
Definition rotateProject (an : answers) (edges : option (list SecretDependency)) (project : Z) (ids : list Z) (due : gmap Z due_secret) (r : run) : option (run * nat * nat) :=
  let candidateSet : gset Z := list_to_set ids in
  let edges := default [] edges in
  '(waves, ok) ← rotationWaves edges candidateSet;
  let '(waves, edges) := if (ok : bool) then (waves, edges) else ([sort_ids ids], []) in
  let deps := depends_adj (List.filter (in_plan candidateSet) edges) in
  let '(r, n) := rotateProjectWaves an waves due deps r in
  let failures := size (ru_failed r) in
  Some (if (failures =? 0)%nat then r else audit (EFailures project failures) r, n, failures).

(** * A run *)

(** [byProject], [projectOrder]: by first appearance. *)
Definition groupDueByProject (due : gmap Z due_secret) (dueOrder : list Z) : adjacency * list Z :=
  fold_left (fun st id =>
    match due !! id with
    | None => st
    | Some s => (append_at (du_Project s) id (fst st), if bool_decide (is_Some (fst st !! du_Project s)) then snd st else snd st ++ [du_Project s])
    end) dueOrder (∅, []).

Definition RunAutoRotation (an : answers) (edges : Z -> option (list SecretDependency)) (due : gmap Z due_secret) (dueOrder : list Z) (r : run) : option (run * nat) :=
  let '(byProject, projectOrder) := groupDueByProject due dueOrder in
  fold_left (fun st p => '(r, n) ← st; '(r, k, _) ← rotateProject an (edges p) p (at_key p byProject) due r; Some (r, (n + k)%nat)) projectOrder (Some (r, 0%nat)).

(** * What a run does *)

Definition stored_ids (r : run) : list Z := map fst (ru_stored r).

(** One secret: it is stored if the answer is yes, and a failure is recorded if not. *)
Lemma rotateOneSecret_spec an s r : let '(ok, r') := rotateOneSecret an s r in
  stored_ids r' = stored_ids r ++ (if ok then [du_ID s] else []) /\ (forall j, j <> du_ID s -> ru_failed r' !! j = ru_failed r !! j) /\
  (ok = false -> is_Some (ru_failed r' !! du_ID s)) /\ (forall d, ru_failed r' !! du_ID s <> Some (FDeferred d)).
Proof.
  assert (forall v b r, let '(ok, r') := store_rotated an s v b r in stored_ids r' = stored_ids r ++ (if ok then [du_ID s] else []) /\ (forall j, j <> du_ID s -> ru_failed r' !! j = ru_failed r !! j) /\
    (ok = false -> is_Some (ru_failed r' !! du_ID s)) /\ (forall d, ru_failed r' !! du_ID s <> Some (FDeferred d))) as Hst.
  { intros v b r0. unfold store_rotated. destruct (an_store an (du_ID s)); [destruct b|]; cbn; unfold stored_ids; cbn; rewrite ?map_app, ?app_nil_r;
      (split; [done|]); (split; [intros j Hj; by rewrite ?lookup_insert_ne, ?lookup_delete_ne|]); rewrite ?lookup_insert_eq, ?lookup_delete_eq; split; try done; eauto. }
  unfold rotateOneSecret. destruct (an_generate an (du_ID s)) as [val|].
  - set (r1 := stamp _ _ r). case_bool_decide; [specialize (Hst val false r1); by destruct (store_rotated an s val false r1)|].
    set (r2 := audit _ r1). destruct (applyBackendRotation an s val) as [v|[|v]];
      [specialize (Hst v false r2); by destruct (store_rotated an s v false r2)| |specialize (Hst v true r2); by destruct (store_rotated an s v true r2)].
    cbn. unfold stored_ids. cbn. rewrite app_nil_r, lookup_insert_eq. split_and!; eauto; try done. intros j Hj. by rewrite lookup_insert_ne.
  - cbn. unfold stored_ids. cbn. rewrite app_nil_r, lookup_insert_eq. split_and!; eauto; try done. intros j Hj. by rewrite lookup_insert_ne.
Qed.

Lemma lowestBlockedDep_spec deps blocked : match lowestBlockedDep deps blocked with
  | Some d => d ∈ deps /\ d ∈ blocked /\ (forall d', d' ∈ deps -> d' ∈ blocked -> d <= d')
  | None => forall d, d ∈ deps -> d ∉ blocked end.
Proof.
  unfold lowestBlockedDep. set (f := fun acc d => _).
  assert (forall acc, match fold_left f deps acc with
    | Some d => (d ∈ deps /\ d ∈ blocked \/ acc = Some d) /\ (forall d', d' ∈ deps -> d' ∈ blocked -> d <= d') /\ (forall a, acc = Some a -> d <= a)
    | None => acc = None /\ (forall d, d ∈ deps -> d ∉ blocked) end) as H.
  { induction deps as [|x deps IH]; intros acc; cbn [fold_left].
    - destruct acc; [split_and!; [by right|by intros ? ?%elem_of_nil|by intros ? [= ->]]|split; [done|by intros ? ?%elem_of_nil]].
    - specialize (IH (f acc x)). destruct (fold_left f deps (f acc x)) as [d|]; setoid_rewrite elem_of_cons.
      + destruct IH as (H1&H2&H3). unfold f in H1, H3. case_bool_decide as Hx; cbn [andb] in *; [destruct acc as [a|]; [destruct (Z.ltb_spec x a)|]|];
          (split_and!; [naive_solver| |]); try (intros d' [-> |?] ?; [|by apply H2]); try (intros a' [= <-]); try naive_solver; try (specialize (H3 _ eq_refl); lia).
      + destruct IH as [H1 H2]. unfold f in H1. case_bool_decide as Hx; cbn [andb] in *; [destruct acc as [a|]; [by destruct (x <? a)|done]|].
        split; [done|]. intros d [-> |?]; [done|by apply H2]. }
  specialize (H None). destruct (fold_left f deps None) as [d|]; [destruct H as ([?|?]&?&_); [|done]; naive_solver|by destruct H].
Qed.

(** After the secrets of [P]: those of [new] were stored, each after its
    dependencies; the others are blocked, and their failure is recorded. *)
Record running (E : list SecretDependency) (before P new : list Z) (st : gset Z * run * nat) : Prop := {
  rn_stored : stored_ids (snd (fst st)) = before ++ new;
  rn_count : snd st = length new;
  rn_once : NoDup new;
  rn_split : forall x, x ∈ P -> x ∈ new <-> x ∉ fst (fst st);
  rn_new : forall x, x ∈ new -> x ∈ P;
  rn_order : forall j x m, new !! j = Some x -> dep E x m -> m ∈ take j new;
  rn_blocked : forall x, x ∈ fst (fst st) -> x ∈ P /\ is_Some (ru_failed (snd (fst st)) !! x);
  rn_failed : forall x, is_Some (ru_failed (snd (fst st)) !! x) -> x ∈ P;
  rn_deferred : forall x d, ru_failed (snd (fst st)) !! x = Some (FDeferred d) -> dep E x d /\ d ∈ fst (fst st) }.

Lemma running_blocked E before P new b r n id r' : running E before P new (b, r, n) -> id ∉ P -> stored_ids r' = stored_ids r ->
  (forall j, j <> id -> ru_failed r' !! j = ru_failed r !! j) -> is_Some (ru_failed r' !! id) -> (forall d, ru_failed r' !! id = Some (FDeferred d) -> dep E id d /\ d ∈ b) ->
  running E before (P ++ [id]) new ({[id]} ∪ b, r', n).
Proof.
  intros [H1 H2 H3 H4 H5 H6 H7 H8 H9] Hid Hs Hf Hi Hd. cbn [fst snd] in *. split; cbn [fst snd]; try done.
  - by rewrite Hs.
  - intros x [Hx| ->%list_elem_of_singleton]%elem_of_app; [rewrite (H4 x Hx); assert (x <> id) by (by intros ->); set_solver|]. split; [by intros ?%H5|set_solver].
  - intros x Hx. apply elem_of_app. left. auto.
  - intros x [->%elem_of_singleton|Hx]%elem_of_union; [split; [apply elem_of_app; right; by left|done]|]. destruct (H7 x Hx) as [Hx' Hx'']. split; [apply elem_of_app; by left|].
    rewrite Hf; [done|]. by intros ->.
  - intros x Hx. apply elem_of_app. destruct (decide (x = id)) as [->|]; [right; by left|left]. apply H8. by rewrite <- Hf.
  - intros x d Hx. destruct (decide (x = id)) as [->|Hne]; [destruct (Hd d Hx); set_solver|]. rewrite Hf in Hx by done. destruct (H9 x d Hx). set_solver.
Qed.

Lemma wave_member_running an due E before P new st id s : running E before P new st -> id ∉ P -> due !! id = Some s -> du_ID s = id -> (forall m, dep E id m -> m ∈ P) ->
  exists new', running E before (P ++ [id]) new' (wave_member an due (depends_adj E) id st).
Proof.
  destruct st as [[b r] n]. intros Hr Hid Hdue Hs Hdeps. unfold wave_member. rewrite Hdue. pose proof (lowestBlockedDep_spec (at_key id (depends_adj E)) b) as Hlow.
  destruct (lowestBlockedDep _ b) as [d|].
  - destruct Hlow as (Hd%elem_of_depends_adj&Hb&_). exists new. eapply running_blocked; [done|done|done|..].
    + intros j Hj. cbn. by rewrite lookup_insert_ne.
    + cbn. by rewrite lookup_insert_eq.
    + intros d'. cbn. rewrite lookup_insert_eq. by intros [= ->].
  - pose proof (rotateOneSecret_spec an s r) as Hone. destruct (rotateOneSecret an s r) as [ok r']. rewrite Hs in Hone. destruct Hone as (Ho1&Ho2&Ho3&Ho4). destruct ok.
    + exists (new ++ [id]). destruct Hr as [H1 H2 H3 H4 H5 H6 H7 H8 H9]. cbn [fst snd] in *. assert (id ∉ new) as Hnew by (by intros ?%H5).
      assert (forall m, dep E id m -> m ∈ new) as Hall by (intros m Hm; apply H4; [by apply Hdeps|]; by apply Hlow, elem_of_depends_adj).
      split; cbn [fst snd].
      * by rewrite Ho1, H1, app_assoc.
      * rewrite length_app. cbn. lia.
      * apply NoDup_app. split_and!; [done| |apply NoDup_singleton]. intros x Hx ->%list_elem_of_singleton. done.
      * intros x [Hx| ->%list_elem_of_singleton]%elem_of_app; [rewrite elem_of_app, list_elem_of_singleton, (H4 x Hx); assert (x <> id) by (by intros ->); naive_solver|].
        split; [intros _ Hx%H7; naive_solver|intros _; apply elem_of_app; right; by left].
      * intros x [Hx| ->%list_elem_of_singleton]%elem_of_app; apply elem_of_app; [left; auto|right; by left].
      * intros j x m Hj Hm. apply lookup_app_Some in Hj as [Hj|[Hlen Hj]].
        -- pose proof (lookup_lt_Some _ _ _ Hj). rewrite take_app_le by lia. by eapply H6.
        -- apply list_lookup_singleton_Some in Hj as [Hj ->]. rewrite take_app_ge by lia. apply elem_of_app. left. auto.
      * intros x Hx. destruct (H7 x Hx) as [Hp Hf]. split; [apply elem_of_app; by left|]. rewrite Ho2; [done|]. by intros ->.
      * intros x Hx. apply elem_of_app. destruct (decide (x = id)) as [->|]; [right; by left|left]. apply H8. by rewrite <- Ho2.
      * intros x d Hx. destruct (decide (x = id)) as [->|Hne]; [by apply Ho4 in Hx|]. rewrite Ho2 in Hx by done. by apply H9.
    + exists new. rewrite app_nil_r in Ho1. eapply running_blocked; eauto. intros d Hd. by apply Ho4 in Hd.
Qed.

Lemma fold_left_concat {A B} (f : A -> B -> A) l a : fold_left (fun a x => fold_left f x a) l a = fold_left f (concat l) a.
Proof. revert a. induction l as [|x l IH]; intros a; cbn [fold_left concat]; [done|]. by rewrite IH, fold_left_app. Qed.

(** The secrets of a list in which dependencies come first. *)
Lemma fold_running an due E before L : forall P new st, running E before P new st -> peeled E (P ++ L) ->
  (forall id, id ∈ L -> exists s, due !! id = Some s /\ du_ID s = id) ->
  exists new', running E before (P ++ L) new' (fold_left (fun st id => wave_member an due (depends_adj E) id st) L st).
Proof.
  induction L as [|id L IH]; intros P new st Hr Hp Hdue; cbn [fold_left]; [rewrite app_nil_r; eauto|].
  destruct (Hdue id ltac:(left)) as (s&Hs&Hid). assert ((P ++ id :: L) !! length P = Some id) as Hlk by (by apply list_lookup_middle).
  destruct (wave_member_running an due E before P new st id s Hr) as (new'&Hr'); [|done|done| |].
  - destruct Hp as [Hnd _]. apply NoDup_app in Hnd as (_&Hd&_). intros Hin. apply (Hd id Hin). left.
  - intros m Hm. destruct Hp as [_ Hp]. specialize (Hp _ _ Hlk m Hm). by rewrite take_app_length in Hp.
  - destruct (IH (P ++ [id]) new' _ Hr') as (new''&Hr''); [by rewrite <- app_assoc|intros x Hx; apply Hdue; by right|]. rewrite <- app_assoc in Hr''. eauto.
Qed.

(** The edges between the secrets rotated together. *)
Definition in_run (edges : option (list SecretDependency)) (ids : list Z) : list SecretDependency :=
  List.filter (in_plan (list_to_set ids)) (default [] edges).

Definition known (due : gmap Z due_secret) (ids : list Z) : Prop := forall id, id ∈ ids -> exists s, due !! id = Some s /\ du_ID s = id.

(** What a project's rotation did: [new] is what it stored. *)
Record project_run (E : list SecretDependency) (ids before new : list Z) (r' : run) (n : nat) : Prop := {
  pj_stored : stored_ids r' = before ++ new;
  pj_count : n = length new;
  pj_once : NoDup new;
  pj_new : forall x, x ∈ new -> x ∈ ids;
  pj_all : forall x, x ∈ ids -> x ∈ new \/ is_Some (ru_failed r' !! x);
  pj_order : acyclic E -> forall j x m, new !! j = Some x -> dep E x m -> m ∈ take j new;
  pj_deferred : acyclic E -> forall x d, ru_failed r' !! x = Some (FDeferred d) -> dep E x d /\ d ∉ new }.

Lemma wave_run_spec an due E ids L waves r : concat waves = L -> peeled E L -> (forall x, x ∈ L <-> x ∈ ids) -> known due ids ->
  exists new r' n, rotateProjectWaves an waves due (depends_adj E) r = (r', n) /\ project_run E ids (stored_ids r) new r' n.
Proof.
  intros Hl Hp Hids Hk. unfold rotateProjectWaves. set (r0 := mkRun (ru_stored r) ∅ (ru_events r) (ru_states r)).
  rewrite (fold_left_concat (fun st id => wave_member an due (depends_adj E) id st)), Hl.
  assert (running E (stored_ids r) [] [] (∅, r0, 0%nat)) as H0.
  { split; cbn [fst snd r0 ru_failed]; try done; try apply NoDup_nil_2; try (by intros x ?%elem_of_nil); try (by intros x ?%elem_of_empty); [by rewrite app_nil_r|].
    intros x Hx. rewrite lookup_empty in Hx. by destruct Hx. }
  destruct (fold_running an due E (stored_ids r) L [] [] _ H0 ltac:(done) ltac:(intros id Hid; by apply Hk, Hids)) as (new&[H1 H2 H3 H4 H5 H6 H7 H8 H9]).
  destruct (fold_left _ L _) as [[b r'] n]. cbn [fst snd app] in *. exists new, r', n. split; [done|]. split; try done.
  - intros x Hx. by apply Hids, H5.
  - intros x Hx%Hids. destruct (decide (x ∈ b)) as [Hb|Hb]; [right; by apply H7|left; by apply H4].
  - intros _ x d Hx. destruct (H9 x d Hx) as [Hd Hb]. split; [done|]. destruct (H7 d Hb) as [HdP _]. rewrite H4 by done. naive_solver.
Qed.

Lemma rotateProject_spec an edges p ids due r : NoDup ids -> known due ids ->
  exists new r' n k, rotateProject an edges p ids due r = Some (r', n, k) /\ project_run (in_run edges ids) ids (stored_ids r) new r' n.
Proof.
  intros Hnd Hk. unfold rotateProject. destruct (waves_spec (default [] edges) (list_to_set ids)) as (waves&Hrun&Hl&Hp&Hin&Hs). rewrite Hrun. cbn [mbind option_bind].
  fold (in_run edges ids) in *. pose proof (peeled_complete _ _ _ (plan_within (default [] edges) (list_to_set ids)) Hp Hin Hs) as Hc. fold (in_run edges ids) in Hc.
  set (ok := bool_decide _). assert (exists new r' n, (let '(waves0, edges0) := if ok then (waves, default [] edges) else ([sort_ids ids], []) in
    rotateProjectWaves an waves0 due (depends_adj (List.filter (in_plan (list_to_set ids)) edges0)) r) = (r', n) /\ project_run (in_run edges ids) ids (stored_ids r) new r' n) as (new&r'&n&Hw&Hpr).
  { unfold ok. case_bool_decide as Hlen.
    - apply (wave_run_spec an due (in_run edges ids) ids (concat waves) waves r eq_refl Hp); [|done]. intros x. split; [intros Hx%Hin; by apply elem_of_list_to_set in Hx|].
      intros Hx. apply (stuck_complete _ _ _ (plan_within (default [] edges) (list_to_set ids)) (proj1 Hc Hlen) Hs). by apply elem_of_list_to_set.
    - destruct (wave_run_spec an due [] ids (sort_ids ids) [sort_ids ids] r) as (new&r'&n&Hw&[]); [cbn; by rewrite app_nil_r| |intros x; apply elem_of_sort_ids|done|].
      + split; [by rewrite sort_ids_perm|]. intros i x _ m (e&He&_). by apply elem_of_nil in He.
      + exists new, r', n. split; [done|]. split; try done; intros Ha; by destruct (Hlen (proj2 Hc Ha)). }
  destruct (if ok then _ else _) as [waves0 edges0]. rewrite Hw. eexists new, _, n, _. split; [reflexivity|]. destruct Hpr. destruct (_ =? 0)%nat; split; done.
Qed.

(** ** All projects *)

Definition ids_of (due : gmap Z due_secret) (dueOrder : list Z) (p : Z) : list Z :=
  List.filter (fun id => match due !! id with Some s => du_Project s =? p | None => false end) dueOrder.

Lemma group_spec due order : let '(by_project, projects) := groupDueByProject due order in
  (forall p, at_key p by_project = ids_of due order p) /\ NoDup projects /\ (forall p, p ∈ projects <-> is_Some (by_project !! p)).
Proof.
  unfold groupDueByProject. assert (forall st, (NoDup (snd st) /\ (forall p, p ∈ snd st <-> is_Some (fst st !! p))) ->
    let st' := fold_left (fun st id => match due !! id with None => st | Some s => (append_at (du_Project s) id (fst st), if bool_decide (is_Some (fst st !! du_Project s)) then snd st else snd st ++ [du_Project s]) end) order st in
    (forall p, at_key p (fst st') = at_key p (fst st) ++ ids_of due order p) /\ NoDup (snd st') /\ (forall p, p ∈ snd st' <-> is_Some (fst st' !! p))) as H.
  { induction order as [|id order IH]; intros st Hst; cbn [fold_left ids_of List.filter]; [split; [intros p; by rewrite app_nil_r|done]|]. fold (ids_of due order).
    destruct (due !! id) as [s|] eqn:Es; [|by apply IH]. cbn zeta in IH. destruct st as [m l]. destruct Hst as [Hnd Hp]. cbn [fst snd] in *.
    destruct (IH (append_at (du_Project s) id m, if bool_decide (is_Some (m !! du_Project s)) then l else l ++ [du_Project s])) as (H1&H2&H3).
    - cbn [fst snd]. split.
      + case_bool_decide as Hm; [done|]. apply NoDup_app. split_and!; [done| |apply NoDup_singleton]. intros x Hx ->%list_elem_of_singleton. by apply Hm, Hp.
      + intros p. unfold append_at. rewrite lookup_insert_is_Some'. case_bool_decide as Hm.
        * rewrite Hp. split; [by right|intros [<- |?]; done].
        * rewrite elem_of_app, list_elem_of_singleton, Hp. split; [intros [?| ->]; [by right|by left]|intros [<- |?]; [by right|by left]].
    - cbn [fst] in H1. split; [|done]. intros p. rewrite H1, append_at_key, <- app_assoc. f_equal. unfold ids_of.
      destruct (Z.eqb_spec (du_Project s) p); [by rewrite bool_decide_true|by rewrite bool_decide_false]. }
  specialize (H (∅, [])). cbn zeta in H. destruct (fold_left _ order (∅, [])) as [m l]. cbn [fst snd] in H. apply H. split; [apply NoDup_nil_2|].
  intros p. rewrite lookup_empty. split; [by intros ?%elem_of_nil|by intros [? ?]].
Qed.

Definition start_run : run := mkRun [] ∅ [] [].

Lemma run_order (an : answers) (edges : Z -> option (list SecretDependency)) (due : gmap Z due_secret) (dueOrder : list Z) :
  NoDup dueOrder -> known due dueOrder ->
  exists r n, RunAutoRotation an edges due dueOrder start_run = Some (r, n) /\ NoDup (stored_ids r) /\ n = length (stored_ids r) /\
    (forall id, id ∈ stored_ids r -> id ∈ dueOrder) /\
    (forall j id s m, stored_ids r !! j = Some id -> due !! id = Some s ->
       let E := in_run (edges (du_Project s)) (ids_of due dueOrder (du_Project s)) in
       acyclic E -> dep E id m -> m ∈ take j (stored_ids r)).
Proof.
  intros Hnd Hk. unfold RunAutoRotation. pose proof (group_spec due dueOrder) as Hg. destruct (groupDueByProject due dueOrder) as [by_project projects]. destruct Hg as (Hkey&Hndp&_).
  set (ok := fun (done : list Z) (st : run * nat) => NoDup (stored_ids (fst st)) /\ snd st = length (stored_ids (fst st)) /\
    (forall id, id ∈ stored_ids (fst st) -> id ∈ dueOrder /\ exists s, due !! id = Some s /\ du_Project s ∈ done) /\
    (forall j id s m, stored_ids (fst st) !! j = Some id -> due !! id = Some s -> let E := in_run (edges (du_Project s)) (ids_of due dueOrder (du_Project s)) in acyclic E -> dep E id m -> m ∈ take j (stored_ids (fst st)))).
  assert (forall ps don st, NoDup (don ++ ps) -> ok don st -> exists st', fold_left (fun st p => '(r, n) ← st; '(r, k, _) ← rotateProject an (edges p) p (at_key p by_project) due r; Some (r, (n + k)%nat)) ps (Some st) = Some st' /\ ok (don ++ ps) st') as Hloop.
  { induction ps as [|p ps IH]; intros don [r n] Hn Hok; cbn [fold_left]; [rewrite app_nil_r in *; eauto|]. cbn [mbind option_bind]. rewrite Hkey.
    assert (forall x, x ∈ ids_of due dueOrder p -> x ∈ dueOrder /\ exists s, due !! x = Some s /\ du_Project s = p) as Hids.
    { intros x [Hx Hb]%elem_of_filter_bool. split; [done|]. destruct (due !! x) as [s|]; [|done]. exists s. split; [done|by apply Z.eqb_eq]. }
    destruct (rotateProject_spec an (edges p) p (ids_of due dueOrder p) due r) as (new&r'&k&f&Hrun&[H1 H2 H3 H4 H5 H6 _]).
    { rewrite <- (map_id (ids_of due dueOrder p)). apply NoDup_map_filter. by rewrite map_id. }
    { intros x Hx. by apply Hk, Hids. }
    rewrite Hrun. cbn [mbind option_bind]. destruct Hok as (O1&O2&O3&O4). cbn [fst snd] in *. replace (don ++ p :: ps) with ((don ++ [p]) ++ ps) in * by (by rewrite <- app_assoc). apply IH; [done|]. split_and!; cbn [fst snd].
    - rewrite H1. apply NoDup_app. split_and!; [done| |done]. intros x Hx Hnew. destruct (O3 x Hx) as (_&s&Hs&Hd). destruct (Hids x (H4 x Hnew)) as (_&s'&Hs'&Hp). rewrite Hs in Hs'. injection Hs' as <-.
      rewrite <- app_assoc in Hn. apply NoDup_app in Hn as (_&Hdis&_). apply (Hdis _ Hd). rewrite Hp. left.
    - rewrite H1, length_app. lia.
    - intros x. rewrite H1. intros [Hx|Hx]%elem_of_app.
      + destruct (O3 x Hx) as (?&s&?&?). split; [done|]. exists s. split; [done|]. apply elem_of_app. by left.
      + destruct (Hids x (H4 x Hx)) as (?&s&?&<-). split; [done|]. exists s. split; [done|]. apply elem_of_app. right. by left.
    - intros j id s m Hj Hs. cbn zeta. intros Ha Hm. rewrite H1 in *. apply lookup_app_Some in Hj as [Hj|[Hlen Hj]].
      + pose proof (lookup_lt_Some _ _ _ Hj). rewrite take_app_le by lia. by eapply O4.
      + destruct (Hids id ltac:(apply H4, list_elem_of_lookup; eauto)) as (_&s'&Hs'&Hp). rewrite Hs in Hs'. injection Hs' as <-. rewrite Hp in *.
        rewrite take_app_ge by lia. apply elem_of_app. right. by eapply H6. }
  destruct (Hloop projects [] (start_run, 0%nat) Hndp) as ([r n]&Hrun&O1&O2&O3&O4); [split_and!; cbn; [apply NoDup_nil_2|done|by intros x ?%elem_of_nil|intros j id s m Hj; by rewrite lookup_nil in Hj]|].
  exists r, n. split_and!; [done|done|done| |done]. intros id Hid. by apply O3.
Qed.

(** C23. Automatic rotation is dependency-first where it knows the dependencies.  A run
    always finishes; it stores a new value at most once per secret and for due secrets
    only.  For a project whose dependencies were listed and, among its due secrets, have no
    cycle: a secret is stored only after every due secret it depends on was stored in the
    same run.  (When the listing fails, or with a cycle, rotateProject rotates the project's
    due secrets in one wave without deferral: [order_lost_without_edges].) *)
Theorem run_dependency_first (an : answers) (edges : Z -> option (list SecretDependency)) (due : gmap Z due_secret) (dueOrder : list Z) :
  NoDup dueOrder -> known due dueOrder ->
  exists r n, RunAutoRotation an edges due dueOrder start_run = Some (r, n) /\ NoDup (stored_ids r) /\ n = length (stored_ids r) /\
    (forall id, id ∈ stored_ids r -> id ∈ dueOrder) /\
    (forall j id s l m, stored_ids r !! j = Some id -> due !! id = Some s -> edges (du_Project s) = Some l ->
       let E := List.filter (in_plan (list_to_set (ids_of due dueOrder (du_Project s)))) l in
       acyclic E -> dep E id m -> m ∈ take j (stored_ids r)).
Proof.
  intros Hnd Hk. destruct (run_order an edges due dueOrder Hnd Hk) as (r & n & H1 & H2 & H3 & H4 & H5). exists r, n. split_and!; try done.
  intros j id s l m Hj Hs Hl E Ha Hd. apply (H5 j id s m Hj Hs); unfold in_run; by rewrite Hl.
Qed.

(** Nothing due is dropped silently.  Rotating a project's due secrets finishes; each of
    them is stored or has its failure recorded, the count returned is that of the
    stored ones, and a failure that says deferred names a dependency of the secret
    that was not stored in this run. *)
Theorem project_accounts_for_all (an : answers) (edges : option (list SecretDependency)) (project : Z) (ids : list Z) (due : gmap Z due_secret) (r : run) :
  NoDup ids -> known due ids -> acyclic (in_run edges ids) ->
  exists new r' n failures, rotateProject an edges project ids due r = Some (r', n, failures) /\
    stored_ids r' = stored_ids r ++ new /\ n = length new /\
    (forall x, x ∈ ids -> x ∈ new \/ is_Some (ru_failed r' !! x)) /\
    (forall x d, ru_failed r' !! x = Some (FDeferred d) -> dep (in_run edges ids) x d /\ d ∉ new).
Proof.
  intros Hnd Hk Ha. destruct (rotateProject_spec an edges project ids due r Hnd Hk) as (new&r'&n&k&Hrun&[]). exists new, r', n, k. split_and!; auto.
Qed.

(** ** Examples *)

(** 2 depends on 1, 4 on 3, whose backend fails; 5 is of another project. *)
Definition ex_due_secret (id project : Z) (backend : bytes) : due_secret := mkDue id project 70 backend (go "ref").
Definition ex_due : gmap Z due_secret :=
  {[1 := ex_due_secret 1 1 []; 2 := ex_due_secret 2 1 []; 3 := ex_due_secret 3 1 (go "pg"); 4 := ex_due_secret 4 1 []; 5 := ex_due_secret 5 2 []]}.
Definition ex_answers : answers := mkAnswers (fun _ => Some (go "v")) (Some (fun _ => Some (Setting (fun _ => Some UPlain)))) (fun _ => true).
Definition ex_run_edges (p : Z) : option (list SecretDependency) := if p =? 1 then Some [mkDep 1 1 2 1 [] 0 0 0; mkDep 2 1 4 3 [] 0 0 0] else None.

Lemma ex_due_known : known ex_due [4; 2; 5; 3; 1].
Proof. intros id Hid. rewrite !elem_of_cons in Hid. destruct Hid as [-> |[-> |[-> |[-> |[-> |Hid]]]]]; [eexists; split; vm_compute; reflexivity..|by apply elem_of_nil in Hid]. Qed.

Lemma run_dependency_first_witness : exists r n, RunAutoRotation ex_answers ex_run_edges ex_due [4; 2; 5; 3; 1] start_run = Some (r, n) /\
  stored_ids r = [1; 2; 5] /\ n = 3%nat /\ NoDup (stored_ids r).
Proof.
  destruct (run_dependency_first ex_answers ex_run_edges ex_due [4; 2; 5; 3; 1]) as (r&n&Hr&Hnd&_); [vm_decide|exact ex_due_known|].
  exists r, n. split; [done|]. assert (stored_ids r = [1; 2; 5] /\ n = 3%nat) as [? ?]; [|by split_and!]. revert Hr. vm_compute. by intros [= <- <-].
Defined.

(** Secret 4 depends on 6, and both are due.  Without the listing they are rotated by id. *)
Example order_lost_without_edges :
  let due := {[4 := ex_due_secret 4 1 []; 6 := ex_due_secret 6 1 []]} in
  let l := [mkDep 1 1 4 6 [] 0 0 0] in
  (stored_ids ∘ fst <$> RunAutoRotation ex_answers (fun _ => Some l) due [4; 6] start_run) = Some [6; 4] /\
  (stored_ids ∘ fst <$> RunAutoRotation ex_answers (fun _ => None) due [4; 6] start_run) = Some [4; 6].
Proof. vm_compute. done. Qed.

Lemma ex_project_known : known ex_due [4; 2; 3; 1].
Proof. intros id Hid. apply ex_due_known. rewrite !elem_of_cons in *. naive_solver. Qed.
Lemma ex_project_acyclic : acyclic (in_run (ex_run_edges 1) [4; 2; 3; 1]).
Proof. eapply order_ok_acyclic. vm_compute. reflexivity. Qed.
Lemma project_accounts_for_all_witness : exists r n f, rotateProject ex_answers (ex_run_edges 1) 1 [4; 2; 3; 1] ex_due start_run = Some (r, n, f) /\
  stored_ids r = [1; 2] /\ n = 2%nat /\ ru_failed r !! 4 = Some (FDeferred 3) /\ ru_failed r !! 3 = Some FBackend.
Proof.
  destruct (project_accounts_for_all ex_answers (ex_run_edges 1) 1 [4; 2; 3; 1] ex_due start_run) as (new&r&n&f&Hr&_); [vm_decide|exact ex_project_known|exact ex_project_acyclic|].
  exists r, n, f. split; [done|]. revert Hr. vm_compute. by intros [= <- <- <-].
Defined.

(** Rotation states are kept per policy: the failure of 3 is overwritten by the
    success of the next secret under the same policy. *)
Example policy_state_overwritten : exists r n f, rotateProject ex_answers None 1 [3; 5] ex_due start_run = Some (r, n, f) /\
  ru_failed r !! 3 = Some FBackend /\ last (ru_states r) = Some (70, RSSucceeded).
Proof. do 3 eexists. split; [vm_compute; reflexivity|]. by split. Qed.
