(* ===== verification/RotationPlan.v ===== *)
(** The rotation plan of a project (src/internal/core/rotation_planner.go): which secrets
    need rotation, with what urgency, in which wave.

    The rotation status (one entry per secret and policy), the risk scores and the
    project's edges are arguments, with their read errors. *)
From Stdlib Require Import ZArith Lia.
From stdpp Require Import base numbers tactics relations sorting sets list gmap.
From S2P Require Import Prelude DepGraph DepOrder.

Inductive rotation_status := RotationStatusOverdue | RotationStatusDueSoon | RotationStatusOK.
#[export] Instance rotation_status_eq_decision : EqDecision rotation_status.
Proof. solve_decision. Defined.

Record RotationStatusEntry := mkEntry { re_SecretID : Z; re_SecretName : bytes; re_Status : rotation_status; re_DaysOverdue : Z; re_AutoRotate : bool }.

(** * Candidates *)

Definition urgency_rank (s : rotation_status) : Z := if bool_decide (s = RotationStatusOverdue) then 2 else 1.
Definition moreUrgentEntry (a b : RotationStatusEntry) : bool :=
  if urgency_rank (re_Status a) =? urgency_rank (re_Status b) then re_DaysOverdue b <? re_DaysOverdue a
  else urgency_rank (re_Status b) <? urgency_rank (re_Status a).

Definition needs_rotation (e : RotationStatusEntry) : bool :=
  bool_decide (re_Status e = RotationStatusOverdue) || bool_decide (re_Status e = RotationStatusDueSoon).

Definition collect_step (m : gmap Z RotationStatusEntry) (e : RotationStatusEntry) : gmap Z RotationStatusEntry :=
  if needs_rotation e then
    match m !! re_SecretID e with
    | Some prev => if moreUrgentEntry e prev then <[re_SecretID e := e]> m else m
    | None => <[re_SecretID e := e]> m
    end
  else m.
Definition collectRotationCandidates (status : list RotationStatusEntry) : gmap Z RotationStatusEntry := fold_left collect_step status ∅.

(** * Urgency *)

Definition rotationUrgency (status : rotation_status) (daysOverdue riskScore : Z) : Z :=
  match status with
  | RotationStatusOverdue => 1000 + Z.min daysOverdue 365
  | RotationStatusDueSoon => 500 + daysOverdue
  | RotationStatusOK => 0
  end + riskScore.

Record SecretRiskScore := mkRisk { rk_Score : Z; rk_Band : bytes; rk_Degraded : bool }.

Inductive reason :=
| DaysOverdueReason (days : Z) | DueInReason (days : Z) | RiskReason (band : bytes) (score : Z)
| DegradedIncomplete | DegradedError | DegradedNotFound | SelfRotating | RotateAfter (names : list bytes).

Record PlannedRotation := mkPlanned {
  pr_SecretID : Z; pr_SecretName : bytes; pr_Status : rotation_status; pr_DaysOverdue : Z;
  pr_RiskScore : Z; pr_RiskBand : bytes; pr_RiskDegraded : bool; pr_Urgency : Z; pr_AutoRotate : bool;
  pr_AfterSecretIDs : list Z; pr_Reasons : list reason }.

(** [risks]: [None] when the scores could not be computed. *)
Definition risk_of (risks : option (Z -> option SecretRiskScore)) (id : Z) : Z * bytes * option reason :=
  match risks with
  | None => (0, [], Some DegradedError)
  | Some get =>
      match get id with
      | Some r => (rk_Score r, rk_Band r, if rk_Degraded r then Some DegradedIncomplete else None)
      | None => (0, [], Some DegradedNotFound)
      end
  end.

Definition planSecret (e : RotationStatusEntry) (deps : list Z) (candidates : gmap Z RotationStatusEntry) (risks : option (Z -> option SecretRiskScore)) : PlannedRotation :=
  let '(riskScore, riskBand, degraded) := risk_of risks (re_SecretID e) in
  let deps := sort_ids deps in
  let names := omap (fun d => re_SecretName <$> candidates !! d) deps in
  mkPlanned (re_SecretID e) (re_SecretName e) (re_Status e) (re_DaysOverdue e) riskScore riskBand (match degraded with Some _ => true | None => false end)
    (rotationUrgency (re_Status e) (re_DaysOverdue e) riskScore) (re_AutoRotate e) deps
    ((if bool_decide (re_Status e = RotationStatusOverdue) then [DaysOverdueReason (re_DaysOverdue e)] else [DueInReason (- re_DaysOverdue e)])
     ++ (if 34 <=? riskScore then [RiskReason riskBand riskScore] else [])
     ++ (match degraded with Some r => [r] | None => [] end)
     ++ (if re_AutoRotate e then [SelfRotating] else [])
     ++ (match names with [] => [] | _ => [RotateAfter names] end)).

(** * The plan *)

Record RotationPlan := mkPlan { rp_ProjectID : Z; rp_TotalSecrets : Z; rp_OverdueCount : Z; rp_DueSoonCount : Z; rp_Waves : list (list PlannedRotation) }.

Inductive plan_err := PStatus | PEdges | PCycle.

(** Most urgent first, then by id. *)
Definition plan_before (a b : PlannedRotation) : bool :=
  if pr_Urgency a =? pr_Urgency b then pr_SecretID a <=? pr_SecretID b else pr_Urgency b <? pr_Urgency a.

Definition plan_wave (candidates : gmap Z RotationStatusEntry) (deps : adjacency) (risks : option (Z -> option SecretRiskScore)) (ids : list Z) : list PlannedRotation :=
  omap (fun id => (fun e => planSecret e (at_key id deps) candidates risks) <$> candidates !! id) ids.

Definition status_count (s : rotation_status -> bool) (waves : list (list PlannedRotation)) : Z :=
  Z.of_nat (length (List.filter (fun p => s (pr_Status p)) (concat waves))).
Definition is_overdue (s : rotation_status) : bool := bool_decide (s = RotationStatusOverdue).

(** The outer option: the fuel of the waves. *)
Definition GenerateRotationPlan (projectID : Z) (status : option (list RotationStatusEntry)) (edges : option (list SecretDependency))
    (risks : option (Z -> option SecretRiskScore)) : option (res plan_err RotationPlan) :=
  match status with
  | None => Some (Err PStatus)
  | Some status =>
      let candidates := collectRotationCandidates status in
      if (size candidates =? 0)%nat then Some (Ok (mkPlan projectID 0 0 0 []))
      else match edges with
           | None => Some (Err PEdges)
           | Some edges =>
               let candidateSet : gset Z := dom candidates in
               '(waves, ok) ← rotationWaves edges candidateSet;
               if (ok : bool) then
                 let deps := depends_adj (List.filter (in_plan candidateSet) edges) in
                 let waves := map (fun ids => sort_with plan_before (plan_wave candidates deps risks ids)) waves in
                 Some (Ok (mkPlan projectID (Z.of_nat (size candidates)) (status_count is_overdue waves) (status_count (fun s => negb (is_overdue s)) waves) waves))
               else Some (Err PCycle)
           end
  end.

(** * The plan of the whole install *)

Record DeploymentRotationPlan := mkDeployment {
  dp_ProjectsScanned : Z; dp_ProjectsWithWork : Z; dp_TotalSecrets : Z; dp_OverdueCount : Z; dp_DueSoonCount : Z;
  dp_Projects : list RotationPlan; dp_BrokenProjects : list (Z * plan_err) }.

(** What a project's plan is made from, as it is read. *)
Record plan_inputs := mkInputs { in_status : option (list RotationStatusEntry); in_edges : option (list SecretDependency); in_risks : option (Z -> option SecretRiskScore) }.

Definition planOf (reads : Z -> plan_inputs) (p : Z) : option (res plan_err RotationPlan) :=
  GenerateRotationPlan p (in_status (reads p)) (in_edges (reads p)) (in_risks (reads p)).

Definition deployment_step (reads : Z -> plan_inputs) (dp : option DeploymentRotationPlan) (p : Z) : option DeploymentRotationPlan :=
  dp ← dp;
  r ← planOf reads p;
  let '(mkDeployment scanned work total over soon projects broken) := dp in
  Some match r with
       | Err e => mkDeployment (scanned + 1) work total over soon projects (broken ++ [(p, e)])
       | Ok plan =>
           if rp_TotalSecrets plan =? 0 then mkDeployment (scanned + 1) work total over soon projects broken
           else mkDeployment (scanned + 1) (work + 1) (total + rp_TotalSecrets plan) (over + rp_OverdueCount plan) (soon + rp_DueSoonCount plan) (projects ++ [plan]) broken
       end.

(** Most overdue project first, then by id. *)
Definition project_before (a b : RotationPlan) : bool :=
  if rp_OverdueCount a =? rp_OverdueCount b then rp_ProjectID a <=? rp_ProjectID b else rp_OverdueCount b <? rp_OverdueCount a.
Definition broken_before (a b : Z * plan_err) : bool := fst a <=? fst b.

Definition GenerateDeploymentRotationPlan (projects : option (list Z)) (reads : Z -> plan_inputs) : option (option DeploymentRotationPlan) :=
  match projects with
  | None => Some None
  | Some projects =>
      dp ← fold_left (deployment_step reads) projects (Some (mkDeployment 0 0 0 0 0 [] []));
      let '(mkDeployment scanned work total over soon plans broken) := dp in
      Some (Some (mkDeployment scanned work total over soon (sort_with project_before plans) (sort_with broken_before broken)))
  end.

(** * Lemmas on the candidates *)

Lemma moreUrgent_trans a b c : moreUrgentEntry b a = false -> moreUrgentEntry c b = false -> moreUrgentEntry c a = false.
Proof. unfold moreUrgentEntry. repeat case_match; breflect; lia. Qed.
Lemma moreUrgent_asym a b : moreUrgentEntry a b = true -> moreUrgentEntry b a = false.
Proof. unfold moreUrgentEntry. repeat case_match; breflect; lia. Qed.
Lemma moreUrgent_irrefl a : moreUrgentEntry a a = false.
Proof. unfold moreUrgentEntry. rewrite Z.eqb_refl. apply Z.ltb_irrefl. Qed.

(** [e] stands for its secret: it needs rotation and no other entry of the secret that
    does is more urgent. *)
Definition most_urgent (status : list RotationStatusEntry) (e : RotationStatusEntry) : Prop :=
  e ∈ status /\ needs_rotation e = true /\
  (forall e', e' ∈ status -> re_SecretID e' = re_SecretID e -> needs_rotation e' = true -> moreUrgentEntry e' e = false).

Definition candidates_ok (status : list RotationStatusEntry) (m : gmap Z RotationStatusEntry) : Prop :=
  (forall id e, m !! id = Some e -> re_SecretID e = id /\ most_urgent status e) /\
  (forall e, e ∈ status -> needs_rotation e = true -> is_Some (m !! re_SecretID e)).

Lemma collect_step_ok status m e : candidates_ok status m -> candidates_ok (status ++ [e]) (collect_step m e).
Proof.
  intros [H1 H2]. unfold collect_step. destruct (needs_rotation e) eqn:En.
  2: { split; [intros id x Hx; destruct (H1 id x Hx) as (?&?&?&Hm); split; [done|]; split_and!; [set_solver|done|]; intros e' [?| ->%list_elem_of_singleton]%elem_of_app; [auto|congruence]|].
       intros x [?| ->%list_elem_of_singleton]%elem_of_app; [auto|congruence]. }
  assert (forall prev, m !! re_SecretID e = prev -> (forall p, prev = Some p -> moreUrgentEntry e p = true) -> candidates_ok (status ++ [e]) (<[re_SecretID e := e]> m)) as Hset.
  { intros prev Hp Hmore. split.
    - intros id x [[<- <-]|[Hne Hx]]%lookup_insert_Some.
      + split; [done|]. split_and!; [set_solver|done|]. intros e' [Hin| ->%list_elem_of_singleton]%elem_of_app Hid Hn; [|apply moreUrgent_irrefl].
        destruct (H2 e' Hin Hn) as [p Hp']. rewrite Hid, Hp in Hp'. destruct (H1 (re_SecretID e) p ltac:(congruence)) as (Hpi&_&_&Hm).
        eapply moreUrgent_trans; [apply moreUrgent_asym, (Hmore p Hp')|]. apply Hm; [done|congruence|done].
      + destruct (H1 id x Hx) as (Hid&?&?&Hm). split; [done|]. split_and!; [set_solver|done|]. intros e' [?| ->%list_elem_of_singleton]%elem_of_app ?; [auto|congruence].
    - intros x [Hx| ->%list_elem_of_singleton]%elem_of_app Hn; [|by rewrite lookup_insert_eq]. destruct (decide (re_SecretID e = re_SecretID x)) as [->|]; [by rewrite lookup_insert_eq|].
      rewrite lookup_insert_ne by done. auto. }
  destruct (m !! re_SecretID e) as [prev|] eqn:Ep; [|by apply (Hset None)]. destruct (moreUrgentEntry e prev) eqn:Em; [apply (Hset (Some prev)); [done|congruence]|].
  split.
  - intros id x Hx. destruct (H1 id x Hx) as (Hid&?&?&Hm). split; [done|]. split_and!; [set_solver|done|]. intros e' [?| ->%list_elem_of_singleton]%elem_of_app Hid'; [auto|]. congruence.
  - intros x [?| ->%list_elem_of_singleton]%elem_of_app Hn; [auto|]. by rewrite Ep.
Qed.

Lemma collect_ok status : candidates_ok status (collectRotationCandidates status).
Proof.
  unfold collectRotationCandidates. assert (forall seen m, candidates_ok seen m -> candidates_ok (seen ++ status) (fold_left collect_step status m)) as H.
  { induction status as [|e status IH]; intros seen m Hm; cbn [fold_left]; [by rewrite app_nil_r|]. rewrite (cons_middle e seen status), app_assoc. by apply IH, collect_step_ok. }
  apply (H []). split; [intros id e He; by rewrite lookup_empty in He|by intros e ?%elem_of_nil].
Qed.

(** * Lemmas on the plan *)

Lemma plan_before_total a b : plan_before a b = false -> plan_before b a = true.
Proof. unfold plan_before. repeat case_match; breflect; lia. Qed.
Lemma plan_before_trans a b c : plan_before a b = true -> plan_before b c = true -> plan_before a c = true.
Proof. unfold plan_before. repeat case_match; breflect; lia. Qed.

Lemma NoDup_map_elem_eq {A B} (g : A -> B) l x y : NoDup (map g l) -> x ∈ l -> y ∈ l -> g x = g y -> x = y.
Proof.
  intros Hnd [i Hi]%list_elem_of_lookup [j Hj]%list_elem_of_lookup Hg. assert (i = j); [|congruence].
  apply (NoDup_lookup _ i j (g x) Hnd); rewrite list_lookup_fmap; [by rewrite Hi|by rewrite Hj; cbn; rewrite Hg].
Qed.

(** The position of a sorted list's elements follows a transitive order. *)
Lemma sorted_lookup {A} (before : A -> A -> bool) l i j x y : (forall x y z, before x y = true -> before y z = true -> before x z = true) ->
  Sorted (fun x y => before x y = true) l -> l !! i = Some x -> l !! j = Some y -> (i < j)%nat -> before x y = true.
Proof.
  intros Ht Hs%Sorted_StronglySorted; [|intros ???; apply Ht]. revert i j. induction Hs as [|z l _ IH Hz]; intros i j Hi Hj Hij; [by rewrite lookup_nil in Hi|].
  destruct j as [|j]; [lia|]. destruct i as [|i]; [|by eapply IH; [exact Hi|exact Hj|lia]]. cbn in Hi, Hj. injection Hi as ->.
  rewrite Forall_forall in Hz. apply Hz, list_elem_of_lookup. eauto.
Qed.

Lemma planSecret_fields candidates risks e deps : let p := planSecret e deps candidates risks in
  pr_SecretID p = re_SecretID e /\ pr_SecretName p = re_SecretName e /\ pr_Status p = re_Status e /\ pr_DaysOverdue p = re_DaysOverdue e /\
  pr_AutoRotate p = re_AutoRotate e /\ pr_AfterSecretIDs p = sort_ids deps /\ pr_Urgency p = rotationUrgency (re_Status e) (re_DaysOverdue e) (pr_RiskScore p).
Proof. unfold planSecret. by destruct (risk_of risks (re_SecretID e)) as [[? ?] ?]. Qed.

(** Entries whose days agree with their status, as the status computation makes them,
    and scores in their range. *)
Definition days_agree (status : list RotationStatusEntry) : Prop := forall e, e ∈ status -> re_Status e = RotationStatusOverdue <-> 0 < re_DaysOverdue e.
Definition scores_bounded (risks : option (Z -> option SecretRiskScore)) : Prop :=
  forall get id r, risks = Some get -> get id = Some r -> 0 <= rk_Score r <= 100.

Lemma planned_score e deps candidates risks : scores_bounded risks -> 0 <= pr_RiskScore (planSecret e deps candidates risks) <= 100.
Proof.
  intros Hb. assert (0 <= fst (fst (risk_of risks (re_SecretID e))) <= 100) as H; [|unfold planSecret; by destruct (risk_of risks (re_SecretID e)) as [[? ?] ?]].
  unfold risk_of. destruct risks as [get|]; cbn; [|lia]. destruct (get (re_SecretID e)) as [r|] eqn:E; cbn; [|lia]. by eapply Hb.
Qed.

(** An overdue secret is more urgent than one due soon. *)
Lemma overdue_first e e' d d' c risks : scores_bounded risks -> re_Status e = RotationStatusOverdue -> re_Status e' = RotationStatusDueSoon -> 0 < re_DaysOverdue e -> re_DaysOverdue e' <= 0 ->
  plan_before (planSecret e' d' c risks) (planSecret e d c risks) = false.
Proof.
  intros Hb He He' Hd Hd'. unfold plan_before. pose proof (planned_score e d c risks Hb). pose proof (planned_score e' d' c risks Hb).
  destruct (planSecret_fields c risks e d) as (_&_&_&_&_&_&->). destruct (planSecret_fields c risks e' d') as (_&_&_&_&_&_&->).
  rewrite He, He'. unfold rotationUrgency. repeat case_match; breflect; lia.
Qed.

Section plan.
Context (status : list RotationStatusEntry) (edges : list SecretDependency) (risks : option (Z -> option SecretRiskScore)).
Let candidates := collectRotationCandidates status.
Let inside := List.filter (in_plan (dom candidates)) edges.
Let planned (ids : list Z) : list PlannedRotation := sort_with plan_before (plan_wave candidates (depends_adj inside) risks ids).

Lemma plan_wave_elem ids p : p ∈ plan_wave candidates (depends_adj inside) risks ids ->
  exists e, re_SecretID e = pr_SecretID p /\ most_urgent status e /\ p = planSecret e (at_key (pr_SecretID p) (depends_adj inside)) candidates risks /\ pr_SecretID p ∈ ids.
Proof.
  unfold plan_wave. rewrite list_elem_of_omap. intros (id&Hid&(e&He&->)%fmap_Some). destruct (proj1 (collect_ok status) id e He) as [Hse Hm].
  destruct (planSecret_fields candidates risks e (at_key id (depends_adj inside))) as (Hf&_). exists e. rewrite Hf, Hse. auto.
Qed.
Lemma plan_wave_ids ids : (forall id, id ∈ ids -> id ∈ dom candidates) -> map pr_SecretID (plan_wave candidates (depends_adj inside) risks ids) = ids.
Proof.
  induction ids as [|id ids IH]; intros Hin; [done|]. unfold plan_wave in *. cbn. destruct (proj1 (elem_of_dom candidates id) ltac:(apply Hin; left)) as [e He]. rewrite He. cbn.
  destruct (planSecret_fields candidates risks e (at_key id (depends_adj inside))) as (Hf&_). rewrite Hf, (proj1 (proj1 (collect_ok status) id e He)). f_equal. apply IH. intros x Hx. apply Hin. by right.
Qed.

Lemma planned_ids ids : (forall id, id ∈ ids -> id ∈ dom candidates) -> map pr_SecretID (planned ids) ≡ₚ ids.
Proof. intros Hin. unfold planned. rewrite sort_with_perm. by rewrite plan_wave_ids. Qed.
Lemma planned_concat waves : (forall id, id ∈ concat waves -> id ∈ dom candidates) -> map pr_SecretID (concat (map planned waves)) ≡ₚ concat waves.
Proof.
  induction waves as [|w waves IH]; intros Hin; cbn [map concat] in *; [done|]. rewrite map_app, planned_ids, IH; [done| |]; intros id Hid; apply Hin; set_solver.
Qed.
Lemma planned_sorted ids : Sorted (fun x y => plan_before x y = true) (planned ids).
Proof. apply sort_with_sorted; [apply plan_before_total|apply plan_before_trans]. Qed.
Lemma planned_elem ids p : p ∈ planned ids ->
  exists e, re_SecretID e = pr_SecretID p /\ most_urgent status e /\ p = planSecret e (at_key (pr_SecretID p) (depends_adj inside)) candidates risks /\ pr_SecretID p ∈ ids.
Proof. unfold planned. rewrite sort_with_perm. apply plan_wave_elem. Qed.

Lemma elem_planned waves p : p ∈ concat (map planned waves) <-> exists i w, waves !! i = Some w /\ p ∈ planned w.
Proof.
  rewrite list_elem_of_In, in_concat. setoid_rewrite <- list_elem_of_In. setoid_rewrite elem_of_map. split.
  - intros (l&(w&->&[i Hw]%list_elem_of_lookup)&Hp). eauto.
  - intros (i&w&Hw&Hp). exists (planned w). split; [|done]. exists w. split; [done|]. apply list_elem_of_lookup. eauto.
Qed.
Lemma planned_at waves i pw : map planned waves !! i = Some pw -> exists w, waves !! i = Some w /\ pw = planned w.
Proof. rewrite list_lookup_fmap, fmap_Some. done. Qed.

Section waves.
Context (waves : list (list Z)) (Hl : layered inside (dom candidates) waves) (Hnd : NoDup (concat waves)) (Hin : forall n, n ∈ concat waves <-> n ∈ dom candidates).

Lemma plan_ids_planned W id : (forall n, n ∈ concat W -> n ∈ dom candidates) -> id ∈ concat W -> exists p, p ∈ concat (map planned W) /\ pr_SecretID p = id.
Proof. intros Hw Hid. rewrite <- (planned_concat W Hw), elem_of_map in Hid. destruct Hid as (p&->&Hp). eauto. Qed.

Lemma plan_covers e : e ∈ status -> needs_rotation e = true -> exists p, p ∈ concat (map planned waves) /\ pr_SecretID p = re_SecretID e.
Proof. intros He Hn. apply plan_ids_planned; [apply Hin|]. apply Hin, elem_of_dom, (collect_ok status); done. Qed.

Lemma plan_entries p : p ∈ concat (map planned waves) ->
  exists e, most_urgent status e /\ pr_SecretID p = re_SecretID e /\ pr_Status p = re_Status e /\ pr_DaysOverdue p = re_DaysOverdue e.
Proof.
  intros (i&w&_&(e&Hid&Hm&Hp&_)%planned_elem)%elem_planned. exists e. split; [done|]. rewrite Hp.
  destruct (planSecret_fields candidates risks e (at_key (pr_SecretID p) (depends_adj inside))) as (?&_&?&?&_). done.
Qed.

Lemma plan_dependencies_first i w p q : map planned waves !! i = Some w -> p ∈ w -> q ∈ concat (map planned waves) -> dep edges (pr_SecretID p) (pr_SecretID q) ->
  q ∈ concat (take i (map planned waves)) /\ pr_SecretID q ∈ pr_AfterSecretIDs p.
Proof.
  intros (ids&Hi&->)%planned_at (e&_&_&Hp&Hpid)%planned_elem Hq Hd. destruct (Hl i ids Hi) as (_&_&Hw). destruct (proj1 (Hw _) Hpid) as (Hpc&_&Hall).
  assert (pr_SecretID q ∈ dom candidates) as Hqc. { apply Hin. rewrite <- (planned_concat waves) by apply Hin. apply elem_of_map. eauto. }
  assert (dep inside (pr_SecretID p) (pr_SecretID q)) as Hd'.
  { destruct Hd as (x&Hx&H1&H2). exists x. split; [|done]. apply elem_of_filter_bool. split; [done|]. unfold in_plan. by rewrite H1, H2, !bool_decide_true. }
  split.
  - assert (forall n, n ∈ concat (take i waves) -> n ∈ dom candidates) as Ht.
    { intros n Hn. apply Hin. rewrite <- (take_drop i waves), concat_app. apply elem_of_app. by left. }
    destruct (plan_ids_planned (take i waves) (pr_SecretID q) Ht (Hall _ Hd')) as (q'&Hq'&Hid). rewrite firstn_map. replace q with q'; [done|].
    apply (NoDup_map_elem_eq pr_SecretID (concat (map planned waves))); [by rewrite planned_concat by apply Hin| |done|done].
    rewrite <- (take_drop i waves), map_app, concat_app. apply elem_of_app. by left.
  - rewrite Hp. destruct (planSecret_fields candidates risks e (at_key (pr_SecretID p) (depends_adj inside))) as (_&_&_&_&_&->&_). by rewrite elem_of_sort_ids, elem_of_depends_adj.
Qed.

Lemma plan_urgency w i j p q : w ∈ map planned waves -> w !! i = Some p -> w !! j = Some q -> (i < j)%nat -> pr_Urgency q <= pr_Urgency p /\
  (days_agree status -> scores_bounded risks -> pr_Status q = RotationStatusOverdue -> pr_Status p = RotationStatusOverdue).
Proof.
  intros (ids&->&_)%elem_of_map Hi Hj Hij. pose proof (sorted_lookup plan_before _ i j p q plan_before_trans (planned_sorted ids) Hi Hj Hij) as Hb.
  split; [unfold plan_before in Hb; case_match; breflect; lia|]. intros Hda Hsb Hq.
  apply list_elem_of_lookup_2 in Hi, Hj. apply planned_elem in Hi as (e&_&(He&Hn&_)&Hpe&_), Hj as (e'&_&(He'&_&_)&Hpe'&_).
  rewrite Hpe in Hb |- *. rewrite Hpe' in Hb, Hq. destruct (planSecret_fields candidates risks e (at_key (pr_SecretID p) (depends_adj inside))) as (_&_&->&_).
  destruct (planSecret_fields candidates risks e' (at_key (pr_SecretID q) (depends_adj inside))) as (_&_&Hs&_). rewrite Hs in Hq.
  pose proof (Hda e He) as Hd. pose proof (proj1 (Hda e' He') Hq). destruct (re_Status e) eqn:Es; [done| |unfold needs_rotation in Hn; by rewrite Es in Hn].
  rewrite overdue_first in Hb; [done|done|done|done|done|]. destruct (decide (0 < re_DaysOverdue e)) as [Hlt|]; [by apply Hd in Hlt|lia].
Qed.

Lemma plan_total : size candidates = length (concat waves).
Proof.
  rewrite <- size_dom. rewrite <- (size_list_to_set (C := gset Z) (concat waves)) by done. f_equal. apply set_eq. intros n. by rewrite elem_of_list_to_set, Hin.
Qed.
End waves.

Lemma status_counts waves : status_count is_overdue waves + status_count (fun s => negb (is_overdue s)) waves = Z.of_nat (length (concat waves)).
Proof. unfold status_count. generalize (concat waves). induction l as [|p l IH]; cbn [List.filter length]; [done|]. destruct (is_overdue (pr_Status p)); cbn [negb length]; lia. Qed.

(** Without a cycle among the candidates the plan is made of their waves. *)
Lemma plan_found projectID : acyclic inside -> exists waves,
  GenerateRotationPlan projectID (Some status) (Some edges) risks =
    Some (Ok (mkPlan projectID (Z.of_nat (size candidates)) (status_count is_overdue (map planned waves)) (status_count (fun s => negb (is_overdue s)) (map planned waves)) (map planned waves))) /\
  layered inside (dom candidates) waves /\ NoDup (concat waves) /\ (forall n, n ∈ concat waves <-> n ∈ dom candidates).
Proof.
  intros Ha. unfold GenerateRotationPlan. fold candidates. destruct (waves_spec edges (dom candidates)) as (waves&Hrun&Hl&Hp&Hin&Hs). fold inside in Hl, Hp, Hin, Hs.
  pose proof (proj2 (peeled_complete _ _ _ (plan_within edges (dom candidates)) Hp Hin Hs) Ha) as Hlen.
  pose proof (stuck_complete _ _ _ (plan_within edges (dom candidates)) Ha Hs) as Hall. destruct (Nat.eqb_spec (size candidates) 0) as [Hz|Hz].
  - exists []. rewrite Hz. apply map_size_empty_iff in Hz. rewrite Hz. split_and!; [done|intros i w Hi; by rewrite lookup_nil in Hi|apply NoDup_nil_2|]. intros n. rewrite dom_empty_L. set_solver.
  - exists waves. rewrite Hrun. cbn [mbind option_bind]. rewrite bool_decide_true by done. split_and!; [done|done|apply Hp|]. intros n. split; auto.
Qed.
End plan.

Lemma plan_returns projectID status edges risks : exists r, GenerateRotationPlan projectID status edges risks = Some r.
Proof.
  unfold GenerateRotationPlan. destruct status as [status|]; [|eauto]. destruct (_ =? _)%nat; [eauto|]. destruct edges as [edges|]; [|eauto].
  destruct (waves_spec edges (dom (collectRotationCandidates status))) as (waves&Hrun&_). rewrite Hrun. cbn. destruct (bool_decide _); eauto.
Qed.

(** The rotation plan of a project is complete and safe to follow.  When the
    dependencies between the secrets to rotate have no cycle the plan exists; it
    lists every secret with an overdue or due entry once, under its most urgent
    entry; whatever a planned secret depends on in the plan is in an earlier wave and
    named by it; each wave runs by falling urgency, overdue secrets before those due
    soon whenever scores lie between 0 and 100; and the counts add up. *)
Theorem GenerateRotationPlan_correct (projectID : Z) (status : list RotationStatusEntry) (edges : list SecretDependency) (risks : option (Z -> option SecretRiskScore))
    (Hacyclic : acyclic (List.filter (in_plan (dom (collectRotationCandidates status))) edges)) :
  exists plan, GenerateRotationPlan projectID (Some status) (Some edges) risks = Some (Ok plan) /\
    let planned := concat (rp_Waves plan) in
    NoDup (map pr_SecretID planned) /\
    (forall e, e ∈ status -> needs_rotation e = true -> exists p, p ∈ planned /\ pr_SecretID p = re_SecretID e) /\
    (forall p, p ∈ planned -> exists e, most_urgent status e /\ pr_SecretID p = re_SecretID e /\ pr_Status p = re_Status e /\ pr_DaysOverdue p = re_DaysOverdue e) /\
    (forall i w p q, rp_Waves plan !! i = Some w -> p ∈ w -> q ∈ planned -> dep edges (pr_SecretID p) (pr_SecretID q) ->
       q ∈ concat (take i (rp_Waves plan)) /\ pr_SecretID q ∈ pr_AfterSecretIDs p) /\
    (forall w i j p q, w ∈ rp_Waves plan -> w !! i = Some p -> w !! j = Some q -> (i < j)%nat -> pr_Urgency q <= pr_Urgency p /\
       (days_agree status -> scores_bounded risks -> pr_Status q = RotationStatusOverdue -> pr_Status p = RotationStatusOverdue)) /\
    rp_TotalSecrets plan = Z.of_nat (length planned) /\ rp_OverdueCount plan + rp_DueSoonCount plan = rp_TotalSecrets plan.
Proof.
  destruct (plan_found status edges risks projectID Hacyclic) as (waves&Hrun&Hl&Hnd&Hin). eexists. split; [exact Hrun|]. cbn [rp_Waves rp_TotalSecrets rp_OverdueCount rp_DueSoonCount].
  pose proof (planned_concat status edges risks waves ltac:(apply Hin)) as Hids. cbn zeta. split_and!.
  - by rewrite Hids.
  - by apply plan_covers.
  - by apply plan_entries.
  - by apply plan_dependencies_first.
  - by apply plan_urgency.
  - rewrite <- (length_map pr_SecretID), Hids. f_equal. by apply plan_total.
  - rewrite status_counts. f_equal. rewrite <- (length_map pr_SecretID), Hids. symmetry. by apply plan_total.
Qed.

(** * The roll-up *)

Definition work_of (reads : Z -> plan_inputs) (p : Z) : option RotationPlan :=
  match planOf reads p with Some (Ok plan) => if rp_TotalSecrets plan =? 0 then None else Some plan | _ => None end.
Definition broken_of (reads : Z -> plan_inputs) (p : Z) : option (Z * plan_err) :=
  match planOf reads p with Some (Err e) => Some (p, e) | _ => None end.
Definition total_of (f : RotationPlan -> Z) (plans : list RotationPlan) : Z := foldr (fun plan n => f plan + n) 0 plans.

Lemma total_of_app f l l' : total_of f (l ++ l') = total_of f l + total_of f l'.
Proof. induction l as [|x l IH]; cbn; [done|]. unfold total_of in *. lia. Qed.
#[export] Instance total_of_perm f : Proper ((≡ₚ) ==> (=)) (total_of f).
Proof. intros l l' H. unfold total_of. induction H; cbn; lia. Qed.

Lemma deployment_fold reads projects : forall seen plans broken, plans = omap (work_of reads) seen -> broken = omap (broken_of reads) seen ->
  fold_left (deployment_step reads) projects (Some (mkDeployment (Z.of_nat (length seen)) (Z.of_nat (length plans)) (total_of rp_TotalSecrets plans) (total_of rp_OverdueCount plans) (total_of rp_DueSoonCount plans) plans broken)) =
  let plans := omap (work_of reads) (seen ++ projects) in
  Some (mkDeployment (Z.of_nat (length (seen ++ projects))) (Z.of_nat (length plans)) (total_of rp_TotalSecrets plans) (total_of rp_OverdueCount plans) (total_of rp_DueSoonCount plans) plans (omap (broken_of reads) (seen ++ projects))).
Proof.
  induction projects as [|p projects IH]; intros seen plans broken Hp Hb; cbn [fold_left]; [rewrite app_nil_r; by subst|].
  unfold deployment_step at 2. cbn [mbind option_bind]. destruct (plan_returns p (in_status (reads p)) (in_edges (reads p)) (in_risks (reads p))) as [r Hr].
  assert (planOf reads p = Some r) as Hr' by exact Hr. rewrite Hr'. cbn [mbind option_bind]. rewrite (cons_middle p seen projects), app_assoc.
  assert (omap (work_of reads) (seen ++ [p]) = plans ++ match work_of reads p with Some x => [x] | None => [] end) as Hwork by (rewrite omap_app; cbn; rewrite Hp; by destruct (work_of reads p)).
  assert (omap (broken_of reads) (seen ++ [p]) = broken ++ match broken_of reads p with Some x => [x] | None => [] end) as Hbrk by (rewrite omap_app; cbn; rewrite Hb; by destruct (broken_of reads p)).
  assert (Z.of_nat (length (seen ++ [p])) = Z.of_nat (length seen) + 1) as Hlen by (rewrite length_app; cbn; lia). rewrite <- Hlen.
  unfold work_of at 2 in Hwork. unfold broken_of at 2 in Hbrk. rewrite Hr' in Hwork, Hbrk. destruct r as [plan|e]; [destruct (rp_TotalSecrets plan =? 0)|]; cbn iota in Hwork, Hbrk; rewrite ?app_nil_r in Hwork; rewrite ?app_nil_r in Hbrk.
  - by apply IH.
  - replace (Z.of_nat (length plans) + 1) with (Z.of_nat (length (plans ++ [plan]))) by (rewrite length_app; cbn; lia).
    assert (forall f, total_of f plans + f plan = total_of f (plans ++ [plan])) as Ht by (intros f; rewrite total_of_app; cbn; lia). rewrite (Ht rp_TotalSecrets), (Ht rp_OverdueCount), (Ht rp_DueSoonCount). by apply IH.
  - by apply IH.
Qed.

Lemma project_before_total a b : project_before a b = false -> project_before b a = true.
Proof. unfold project_before. repeat case_match; breflect; lia. Qed.
Lemma project_before_trans a b c : project_before a b = true -> project_before b c = true -> project_before a c = true.
Proof. unfold project_before. repeat case_match; breflect; lia. Qed.

(** One project's failure never costs the others their place in the install-wide
    plan.  Once the projects are listed the roll-up always returns: every project
    whose plan has work is listed with exactly the plan it has on its own, every
    project whose plan fails is named with its error, the totals are the sums over
    the listed plans, and the most overdue project comes first. *)
Theorem deployment_plan_isolates (projects : list Z) (reads : Z -> plan_inputs) :
  exists dp, GenerateDeploymentRotationPlan (Some projects) reads = Some (Some dp) /\
    dp_Projects dp ≡ₚ omap (work_of reads) projects /\ dp_BrokenProjects dp ≡ₚ omap (broken_of reads) projects /\
    dp_ProjectsScanned dp = Z.of_nat (length projects) /\ dp_ProjectsWithWork dp = Z.of_nat (length (dp_Projects dp)) /\
    dp_TotalSecrets dp = total_of rp_TotalSecrets (dp_Projects dp) /\ dp_OverdueCount dp = total_of rp_OverdueCount (dp_Projects dp) /\
    dp_DueSoonCount dp = total_of rp_DueSoonCount (dp_Projects dp) /\
    (forall i j a b, dp_Projects dp !! i = Some a -> dp_Projects dp !! j = Some b -> (i < j)%nat -> rp_OverdueCount b <= rp_OverdueCount a).
Proof.
  unfold GenerateDeploymentRotationPlan. pose proof (deployment_fold reads projects [] [] [] eq_refl eq_refl) as H. cbn [length total_of foldr app] in H. change (Z.of_nat 0) with 0 in H. rewrite H.
  cbn [mbind option_bind]. eexists. split; [done|]. cbn [dp_Projects dp_BrokenProjects dp_ProjectsScanned dp_ProjectsWithWork dp_TotalSecrets dp_OverdueCount dp_DueSoonCount]. split_and!; try (by rewrite sort_with_perm || done).
  intros i j a b Hi Hj Hij. pose proof (sorted_lookup project_before _ i j a b project_before_trans (sort_with_sorted project_before project_before_total project_before_trans _) Hi Hj Hij) as Hb.
  unfold project_before in Hb. case_match; breflect; lia.
Qed.

(** ** Examples *)

Definition ex_status : list RotationStatusEntry :=
  [mkEntry 3 [] RotationStatusDueSoon (-2) false; mkEntry 5 [] RotationStatusOverdue 9 false; mkEntry 3 [] RotationStatusOverdue 4 true; mkEntry 7 [] RotationStatusOK (-40) false; mkEntry 9 [] RotationStatusDueSoon 0 false].
Definition ex_edges : list SecretDependency := [ord_edge 3 5; ord_edge 3 7; ord_edge 9 7].
Definition ex_risks : option (Z -> option SecretRiskScore) := Some (fun id => if id =? 5 then None else Some (mkRisk 40 [] false)).

Example rotation_plan_example : (fun r => match r with Ok plan => map (map (fun p => (pr_SecretID p, pr_Urgency p))) (rp_Waves plan) | Err _ => [] end)
  <$> GenerateRotationPlan 1 (Some ex_status) (Some ex_edges) ex_risks = Some [[(5, 1009); (9, 540)]; [(3, 1044)]].
Proof. vm_compute. reflexivity. Qed.

(** A secret whose score could not be computed is planned with score 0, behind a secret
    of the same age whose score is known; its reasons say it is "not deprioritized". *)
Example degraded_risk_deprioritized :
  (fun r => match r with Ok plan => map (map (fun p => (pr_SecretID p, pr_RiskScore p, pr_RiskDegraded p))) (rp_Waves plan) | Err _ => [] end)
  <$> GenerateRotationPlan 1 (Some [mkEntry 5 [] RotationStatusOverdue 9 false; mkEntry 6 [] RotationStatusOverdue 9 false]) (Some []) ex_risks
  = Some [[(6, 40, false); (5, 0, true)]].
Proof. vm_compute. reflexivity. Qed.

Definition ex_reads (p : Z) : plan_inputs :=
  mkInputs (Some (if p =? 3 then [] else ex_status)) (if p =? 2 then Some (ord_edge 5 3 :: ex_edges) else Some ex_edges) None.
Example deployment_example : exists dp, GenerateDeploymentRotationPlan (Some [1; 2; 3]) ex_reads = Some (Some dp) /\
  (dp_ProjectsScanned dp, dp_TotalSecrets dp, map rp_ProjectID (dp_Projects dp), dp_BrokenProjects dp) = (3, 3, [1], [(2, PCycle)]).
Proof. eexists. split; vm_compute; reflexivity. Qed.

Lemma GenerateRotationPlan_correct_witness : acyclic (List.filter (in_plan (dom (collectRotationCandidates ex_status))) ex_edges) /\
  exists plan, GenerateRotationPlan 1 (Some ex_status) (Some ex_edges) ex_risks = Some (Ok plan) /\ length (concat (rp_Waves plan)) = 3%nat.
Proof.
  assert (acyclic (List.filter (in_plan (dom (collectRotationCandidates ex_status))) ex_edges)) as Ha.
  { apply (order_ok_acyclic _ [5; 3]). vm_compute. reflexivity. }
  split; [done|]. destruct (GenerateRotationPlan_correct 1 ex_status ex_edges ex_risks Ha) as (plan&Hp&_). exists plan. split; [done|].
  vm_compute in Hp. injection Hp as <-. reflexivity.
Defined.
