(* ===== verification/SecretRow.v ===== *)
(** The columns of a secret's row, each of which has one owner (src/internal/storage/store/
    local_secrets.go): the named fields, the status with its marker, the rotation columns,
    the read counter; and the operations of the core that write them (secret_suspend.go,
    rotation_executor.go SetSecretAutoRotate, versions.go readVersionValue).

    The operations run in the transaction system of TxDB.v.  A row carries a history
    ([w_log], newest first) of the reads granted, the configurations and the changes of
    status written to it; no statement looks at it.  What the row holds is a function of
    its history, and the history shows what was allowed when. *)
From Stdlib Require Import ZArith Lia.
From stdpp Require Import base numbers tactics sets list gmap.
From S2P Require Import TxDB Prelude.

(** * Rows *)

(** The rotation columns, with the type of the request that sets them. *)
Record AutoRotateSpec := mkSpec { as_Enabled : bool; as_Length : Z; as_Charset : bytes; as_Backend : bytes; as_Ref : bytes }.
#[export] Instance AutoRotateSpec_eq_decision : EqDecision AutoRotateSpec.
Proof. solve_decision. Defined.

(** The columns of [SecretFieldUpdate]. *)
Record fields := mkFields {
  f_Name : bytes; f_Description : bytes; f_Classification : bytes; f_Type : bytes; f_OwnerID : Z; f_Metadata : bytes; f_UpdatedAt : Z;
  f_ParentID : option Z; f_Expiration : option Z; f_MaxReads : option Z; f_LastRotatedAt : option Z }.

(** [Configured checked from to]: [checked] is the project over which the writer was found
    to have admin authority, if that was asked. *)
Inductive entry := Granted (cap : Z) | Configured (checked : option Z) (from : bytes) (to : AutoRotateSpec) | SuspendedWith (clear : bool) | Resumed.

Record row := mkRow {
  w_ProjectID : Z; w_Fields : fields; w_Status : bytes; w_Clear : bool; w_ReadCount : Z; w_Rotation : AutoRotateSpec; w_Deleted : bool; w_log : list entry }.

Inductive row_err := ErrSecretNotFound | ErrNotMatched | ErrNoFields | ErrMaxReadsExhausted | ErrReadRefused | ErrSuspendAuditUnavailable | ErrProjectDeleted
| ErrRotationConfig | ErrAdminAuthorityRequired.
Abbreviation prog := (@TxDB.prog Z row row_err _ _).

Definition SecretStatusActive : bytes := go "active".
Definition SecretStatusSuspended : bytes := go "suspended".

(** Statements on a soft-deleted model see live rows only. *)
Definition at_row (id key : Z) (r : row) : bool := (key =? id) && negb (w_Deleted r).

Definition set_Fields (f : fields) (r : row) : row := mkRow (w_ProjectID r) f (w_Status r) (w_Clear r) (w_ReadCount r) (w_Rotation r) (w_Deleted r) (w_log r).
Definition set_Deleted (b : bool) (r : row) : row := mkRow (w_ProjectID r) (w_Fields r) (w_Status r) (w_Clear r) (w_ReadCount r) (w_Rotation r) b (w_log r).
Definition set_UpdatedAt (now : Z) (f : fields) : fields :=
  mkFields (f_Name f) (f_Description f) (f_Classification f) (f_Type f) (f_OwnerID f) (f_Metadata f) now (f_ParentID f) (f_Expiration f) (f_MaxReads f) (f_LastRotatedAt f).
Definition set_OwnerID (o : Z) (f : fields) : fields :=
  mkFields (f_Name f) (f_Description f) (f_Classification f) (f_Type f) o (f_Metadata f) (f_UpdatedAt f) (f_ParentID f) (f_Expiration f) (f_MaxReads f) (f_LastRotatedAt f).

(** * Statements *)

(** A nil field is not written; of a nullable column, [Some None] writes NULL. *)
Record SecretFieldUpdate := mkFieldUpdate {
  u_Name : option bytes; u_Description : option bytes; u_Classification : option bytes; u_Type : option bytes; u_OwnerID : option Z; u_Metadata : option bytes; u_UpdatedAt : option Z;
  u_ParentID : option (option Z); u_Expiration : option (option Z); u_MaxReads : option (option Z); u_LastRotatedAt : option (option Z) }.
Definition write_fields (u : SecretFieldUpdate) (f : fields) : fields :=
  mkFields (default (f_Name f) (u_Name u)) (default (f_Description f) (u_Description u)) (default (f_Classification f) (u_Classification u)) (default (f_Type f) (u_Type u))
    (default (f_OwnerID f) (u_OwnerID u)) (default (f_Metadata f) (u_Metadata u)) (default (f_UpdatedAt f) (u_UpdatedAt u)) (default (f_ParentID f) (u_ParentID u))
    (default (f_Expiration f) (u_Expiration u)) (default (f_MaxReads f) (u_MaxReads u)) (default (f_LastRotatedAt f) (u_LastRotatedAt u)).
Definition no_fields (u : SecretFieldUpdate) : bool :=
  match u with mkFieldUpdate None None None None None None None None None None None => true | _ => false end.

Definition matched (e : row_err) (k : prog) (n : nat) : prog := if (n =? 1)%nat then k else Ret (Err e).

Definition UpdateSecretFields (id : Z) (u : SecretFieldUpdate) : prog :=
  if no_fields u then Ret (Err ErrNoFields)
  else Update (fun _ => at_row id) (fun r => Some (set_Fields (write_fields u (w_Fields r)) r)) (matched ErrNotMatched (Ret (Ok ()))).

Definition ClearProjectSecretOwnership (userID projectID : Z) : prog :=
  Update (fun _ _ r => (f_OwnerID (w_Fields r) =? userID) && (w_ProjectID r =? projectID) && negb (w_Deleted r))
    (fun r => Some (set_Fields (set_OwnerID 0 (w_Fields r)) r)) (fun _ => Ret (Ok ())).

(** The status, the marker and the time of the write, if the status is still [from]. *)
Definition TransitionSecretStatus (id : Z) (from to : bytes) (clear : bool) (now : Z) (e : entry) (k : nat -> prog) : prog :=
  Update (fun _ key r => at_row id key r && bool_decide (w_Status r = from))
    (fun r => Some (mkRow (w_ProjectID r) (set_UpdatedAt now (w_Fields r)) to clear (w_ReadCount r) (w_Rotation r) (w_Deleted r) (e :: w_log r))) k.

(** The rotation columns, if the secret is in the project and bound to the backend that
    were looked at. *)
Definition UpdateSecretRotationConfig (id project : Z) (fromBackend : bytes) (spec : AutoRotateSpec) (now : Z) (checked : option Z) (k : nat -> prog) : prog :=
  Update (fun _ key r => at_row id key r && (w_ProjectID r =? project) && bool_decide (as_Backend (w_Rotation r) = fromBackend))
    (fun r => Some (mkRow (w_ProjectID r) (set_UpdatedAt now (w_Fields r)) (w_Status r) (w_Clear r) (w_ReadCount r) spec (w_Deleted r) (Configured checked fromBackend spec :: w_log r))) k.

(** Check and increment are one statement. *)
Definition below_cap (id maxReads key : Z) (r : row) : bool := at_row id key r && (w_ReadCount r <? maxReads).
Definition counted (maxReads : Z) (r : row) : row :=
  mkRow (w_ProjectID r) (w_Fields r) (w_Status r) (w_Clear r) (w_ReadCount r + 1) (w_Rotation r) (w_Deleted r) (Granted maxReads :: w_log r).
Definition TryIncrementSecretNodeReadCount (id maxReads : Z) (k : nat -> prog) : prog :=
  Update (fun _ => below_cap id maxReads) (fun r => Some (counted maxReads r)) k.

Definition GetSecret (id : Z) (k : row -> prog) : prog :=
  Select (at_row id) (fun rows => match rows with [] => Ret (Err ErrSecretNotFound) | (_, r) :: _ => k r end).

Definition new_row (project : Z) (f : fields) : row := mkRow project f SecretStatusActive false 0 (mkSpec false 0 [] [] []) false [].
Definition CreateSecret (id project : Z) (f : fields) : prog := Insert id (new_row project f) (Ret (Ok ())).
Definition DeleteSecret (id : Z) : prog := Update (fun _ => at_row id) (fun r => Some (set_Deleted true r)) (fun n => if (n =? 0)%nat then Ret (Err ErrSecretNotFound) else Ret (Ok ())).
(** [live]: the project is there when it is locked, after the row was written. *)
Definition RestoreSecret (id : Z) (live : bool) : prog :=
  Update (fun _ key r => (key =? id) && w_Deleted r) (fun r => Some (set_Deleted false r))
    (fun n => if (n =? 0)%nat then Ret (Err ErrSecretNotFound) else if live then Ret (Ok ()) else Ret (Err ErrProjectDeleted)).
Definition purge (ids : gset Z) : prog := Update (fun _ key r => bool_decide (key ∈ ids) && w_Deleted r) (fun _ => None) (fun _ => Ret (Ok ())).

(** * Reading a value *)

(** [guards]: the other checks before a value is handed out, on the row that was read. *)
Definition readVersionValue (id : Z) (secret : row) : prog :=
  match f_MaxReads (w_Fields secret) with
  | Some maxReads => if 0 <? maxReads then TryIncrementSecretNodeReadCount id maxReads (matched ErrMaxReadsExhausted (Ret (Ok ()))) else Ret (Ok ())
  | None => Ret (Ok ())
  end.
Definition value_read (guards : row -> bool) (id : Z) : prog :=
  GetSecret id (fun secret => if bool_decide (w_Status secret = SecretStatusSuspended) || negb (guards secret) then Ret (Err ErrReadRefused) else readVersionValue id secret).

(** * Suspension *)

Definition transitionSuspend (id : Z) (fromStatus : bytes) (clear : bool) (now : Z) (k : prog) : prog :=
  TransitionSecretStatus id fromStatus SecretStatusSuspended clear now (SuspendedWith clear) (matched ErrNotMatched k).

(** [audit]: whether the audit row of the transaction can be written.  A plain suspension
    owes its row and is not held up. *)
Definition SuspendSecretWithOptions (id : Z) (clearSyncedCopies audit : bool) (now : Z) : prog :=
  GetSecret id (fun secret =>
    let alreadySuspended := bool_decide (w_Status secret = SecretStatusSuspended) in
    if alreadySuspended && (negb clearSyncedCopies || w_Clear secret) then Ret (Ok ())
    else transitionSuspend id (w_Status secret) clearSyncedCopies now
           (if negb clearSyncedCopies || audit then Ret (Ok ()) else Ret (Err ErrSuspendAuditUnavailable))).

(** [live]: the project is there when it is locked, after the status was written. *)
Definition ResumeSecret (id : Z) (live audit : bool) (now : Z) : prog :=
  GetSecret id (fun secret =>
    if bool_decide (w_Status secret = SecretStatusSuspended) then
      TransitionSecretStatus id (w_Status secret) SecretStatusActive false now Resumed
        (matched ErrNotMatched (if negb live then Ret (Err ErrProjectDeleted) else if audit then Ret (Ok ()) else Ret (Err ErrSuspendAuditUnavailable)))
    else Ret (Ok ())).

(** * Rotation settings *)

Definition rotatedValueMinLength : Z := 8.
Definition rotatedValueMaxLength : Z := 256.

Definition knownRotationCharset (name : bytes) : bool :=
  bool_decide (name = []) || bool_decide (name = go "alphanumeric") || bool_decide (name = go "lower_alphanumeric") || bool_decide (name = go "hex") || bool_decide (name = go "alphanumeric_symbols").

Definition rotationRefDisallowedChars : bytes := go "/?#%'" ++ [Byte.x22] ++ go "\;".
Definition control (b : Byte.byte) : bool := (Zb b <=? 31) || (Zb b =? 127).
Definition validateRotationRef (ref : bytes) : bool :=
  negb (existsb control ref) && negb (existsb (fun b => bool_decide (b ∈ rotationRefDisallowedChars)) ref).

(** The checks before the secret is looked at; [manager]: the configured backends. *)
Definition spec_allowed (manager : option (bytes -> bool)) (spec : AutoRotateSpec) : bool :=
  knownRotationCharset (as_Charset spec)
  && ((as_Length spec =? 0) || ((rotatedValueMinLength <=? as_Length spec) && (as_Length spec <=? rotatedValueMaxLength)))
  && Bool.eqb (bool_decide (as_Backend spec = [])) (bool_decide (as_Ref spec = []))
  && (bool_decide (as_Ref spec = []) || validateRotationRef (as_Ref spec))
  && (bool_decide (as_Backend spec = []) || match manager with None => false | Some known => known (as_Backend spec) end).

(** [admin]: whether the caller has admin authority over a project, when it is asked. *)
Definition SetSecretAutoRotate (manager : option (bytes -> bool)) (admin : Z -> bool) (id : Z) (spec : AutoRotateSpec) (now : Z) : prog :=
  if negb (spec_allowed manager spec) then Ret (Err ErrRotationConfig)
  else GetSecret id (fun secret =>
    let fromBackend := as_Backend (w_Rotation secret) in
    let gated := negb (bool_decide (as_Backend spec = [])) || negb (bool_decide (fromBackend = [])) in
    if gated && negb (admin (w_ProjectID secret)) then Ret (Err ErrAdminAuthorityRequired)
    else UpdateSecretRotationConfig id (w_ProjectID secret) fromBackend spec now (if gated then Some (w_ProjectID secret) else None)
           (matched ErrNotMatched (Ret (Ok ())))).

(** * Operations *)

Inductive row_operation : prog -> Prop :=
| ro_create id project f : row_operation (CreateSecret id project f)
| ro_fields id u : row_operation (UpdateSecretFields id u)
| ro_owner user project : row_operation (ClearProjectSecretOwnership user project)
| ro_delete id : row_operation (DeleteSecret id)
| ro_restore id live : row_operation (RestoreSecret id live)
| ro_purge ids : row_operation (purge ids)
| ro_read guards id : row_operation (value_read guards id)
| ro_suspend id clear audit now : row_operation (SuspendSecretWithOptions id clear audit now)
| ro_resume id live audit now : row_operation (ResumeSecret id live audit now)
| ro_rotation manager admin id spec now : row_operation (SetSecretAutoRotate manager admin id spec now).

(** * What the history says *)

Fixpoint grants (l : list entry) : Z :=
  match l with [] => 0 | Granted _ :: l => grants l + 1 | _ :: l => grants l end.
Fixpoint config (l : list entry) : AutoRotateSpec :=
  match l with [] => mkSpec false 0 [] [] [] | Configured _ _ to :: _ => to | _ :: l => config l end.
Fixpoint standing (l : list entry) : bytes * bool :=
  match l with
  | [] => (SecretStatusActive, false)
  | SuspendedWith clear :: _ => (SecretStatusSuspended, clear)
  | Resumed :: _ => (SecretStatusActive, false)
  | _ :: l => standing l
  end.

Definition spec_ok (spec : AutoRotateSpec) : Prop :=
  knownRotationCharset (as_Charset spec) = true /\ (as_Length spec = 0 \/ rotatedValueMinLength <= as_Length spec <= rotatedValueMaxLength) /\
  (as_Backend spec = [] <-> as_Ref spec = []) /\ validateRotationRef (as_Ref spec) = true.

(** What held when [e] was written after [l], to a secret of [project]. *)
Definition entry_ok (project : Z) (l : list entry) (e : entry) : Prop :=
  match e with
  | Granted cap => grants l < cap
  | Configured checked from to => from = as_Backend (config l) /\ spec_ok to /\ (from <> [] \/ as_Backend to <> [] -> checked = Some project)
  | SuspendedWith clear => clear = true \/ fst (standing l) <> SecretStatusSuspended
  | Resumed => fst (standing l) = SecretStatusSuspended
  end.
Fixpoint log_ok (project : Z) (l : list entry) : Prop :=
  match l with [] => True | e :: l => entry_ok project l e /\ log_ok project l end.

Record row_ok (r : row) : Prop := {
  ok_count : w_ReadCount r = grants (w_log r);
  ok_config : w_Rotation r = config (w_log r);
  ok_status : (w_Status r, w_Clear r) = standing (w_log r);
  ok_log : log_ok (w_ProjectID r) (w_log r) }.

Lemma log_ok_at project newer e older : log_ok project (newer ++ e :: older) -> entry_ok project older e.
Proof. induction newer as [|x newer IH]; cbn; [by intros [? _]|]. intros [_ ?]. by apply IH. Qed.

Lemma spec_allowed_ok manager spec : spec_allowed manager spec = true -> spec_ok spec.
Proof.
  unfold spec_allowed, spec_ok. rewrite !andb_true_iff, !orb_true_iff, andb_true_iff, !Z.leb_le, Z.eqb_eq, eqb_true_iff, !bool_decide_eq_true.
  intros ((((Hc&Hl)&Hb)&Hr)&_). split_and!; [done|done| |].
  - rewrite <- (bool_decide_eq_true (as_Backend spec = [])), Hb. apply bool_decide_eq_true.
  - destruct Hr as [->|?]; [reflexivity|done].
Qed.

(** * Every operation keeps it *)

Lemma fields_keep f r : row_ok r -> row_ok (set_Fields f r).
Proof. intros [? ? ? ?]. by constructor. Qed.
Lemma deleted_keep b r : row_ok r -> row_ok (set_Deleted b r).
Proof. intros [? ? ? ?]. by constructor. Qed.

Abbreviation keeps := (keeps_rows (fun _ : Z => row_ok)).

Lemma get_keeps id k : (forall r, keeps (k r)) -> keeps (GetSecret id k).
Proof. intros Hk. cbn [keeps_rows GetSecret]. intros [|[? r] ?]; [exact I|apply Hk]. Qed.
Lemma matched_keeps e k n : keeps k -> keeps (matched e k n).
Proof. unfold matched. destruct (n =? 1)%nat; [done|intros _; exact I]. Qed.

Lemma increment_keeps id cap k : (forall n, keeps (k n)) -> keeps (TryIncrementSecretNodeReadCount id cap k).
Proof.
  intros Hk. split; [|exact Hk]. intros _ key r r' Hs [= <-] [H1 H2 H3 H4]. apply andb_true_iff in Hs as [_ Hlt%Z.ltb_lt]. constructor; cbn; [by rewrite H1|done|done|].
  split; [by rewrite <- H1|done].
Qed.
Lemma transition_keeps id from to clear now e k : (forall n, keeps (k n)) ->
  (forall l, fst (standing l) = from -> (to, clear) = standing (e :: l) /\ (forall p, entry_ok p l e) /\ grants (e :: l) = grants l /\ config (e :: l) = config l) ->
  keeps (TransitionSecretStatus id from to clear now e k).
Proof.
  intros Hk He. split; [|exact Hk]. intros _ key r r' Hs [= <-] [H1 H2 H3 H4]. apply andb_true_iff in Hs as [_ Hst%bool_decide_eq_true].
  destruct (He (w_log r)) as (E1&E2&E3&E4); [by rewrite <- H3|]. constructor; cbn [w_ReadCount w_Rotation w_Status w_Clear w_log w_ProjectID]; [by rewrite E3|by rewrite E4|done|by split].
Qed.
Lemma rotation_keeps id project from spec now checked k : (forall n, keeps (k n)) -> spec_ok spec -> (from <> [] \/ as_Backend spec <> [] -> checked = Some project) ->
  keeps (UpdateSecretRotationConfig id project from spec now checked k).
Proof.
  intros Hk Hspec Hc. split; [|exact Hk]. intros _ key r r' Hs [= <-] [H1 H2 H3 H4]. rewrite !andb_true_iff, Z.eqb_eq, bool_decide_eq_true in Hs. destruct Hs as [[_ Hp] Hb].
  constructor; cbn; [done|done|done|]. split; [|done]. split_and!; [by rewrite <- H2|done|by rewrite Hp].
Qed.

Lemma row_operation_keeps p : row_operation p -> keeps p.
Proof.
  destruct 1 as [id project f|id u|user project|id|id live|ids|guards id|id clear audit now|id live audit now|manager admin id spec now].
  - split; [|exact I]. by constructor.
  - unfold UpdateSecretFields. destruct (no_fields u); [exact I|]. split; [intros _ key r r' _ [= <-]; by apply fields_keep|intros n; by apply matched_keeps].
  - split; [intros _ key r r' _ [= <-]; by apply fields_keep|done].
  - split; [intros _ key r r' _ [= <-]; by apply deleted_keep|intros n; by destruct (n =? 0)%nat].
  - split; [intros _ key r r' _ [= <-]; by apply deleted_keep|intros n; by destruct (n =? 0)%nat, live].
  - split; [done|done].
  - apply get_keeps. intros r. destruct (_ || _); [exact I|]. unfold readVersionValue. destruct (f_MaxReads _) as [m|]; [|exact I]. destruct (0 <? m); [|exact I].
    apply increment_keeps. intros n. by apply matched_keeps.
  - apply get_keeps. intros r. cbv beta zeta. destruct (_ && _) eqn:Ea; [exact I|]. apply transition_keeps; [intros n; apply matched_keeps; clear Ea; destruct (negb clear || audit); exact I|].
    intros l Hl. split_and!; [done| |done|done]. intros p. cbn. destruct clear; [by left|right]. rewrite Hl. cbn [negb orb] in Ea. rewrite andb_true_r in Ea. by apply bool_decide_eq_false in Ea.
  - apply get_keeps. intros r. case_bool_decide as Hst; [|exact I]. apply transition_keeps; [intros n; apply matched_keeps; destruct (negb live); [exact I|destruct audit; exact I]|].
    intros l Hl. split_and!; [done| |done|done]. intros p. cbn. by rewrite Hl.
  - unfold SetSecretAutoRotate. destruct (spec_allowed manager spec) eqn:Es; [|exact I]. cbn [negb]. apply get_keeps. intros r. cbv beta zeta. destruct (_ && _) eqn:Eg; [exact I|].
    apply rotation_keeps; [intros n; by apply matched_keeps|by eapply spec_allowed_ok|]. intros Hb.
    destruct (negb _ || negb _) eqn:Eb; [done|]. rewrite orb_false_iff, !negb_false_iff, !bool_decide_eq_true in Eb. tauto.
Qed.

Lemma history_ok s id r : reachable row_operation ∅ s -> s_db s !! id = Some r -> row_ok r.
Proof.
  intros Hr. apply (local_reachable (fun _ : Z => row_ok) row_operation ∅ s row_operation_keeps); [|done]. intros k x Hk. by rewrite lookup_empty in Hk.
Qed.

Lemma log_ok_app project newer older : log_ok project (newer ++ older) -> log_ok project older.
Proof. induction newer as [|e newer IH]; cbn; [done|]. intros [_ ?]. auto. Qed.
Lemma config_ok project l : log_ok project l -> spec_ok (config l).
Proof.
  induction l as [|e l IH]; [intros _; split_and!; [reflexivity|by left|done|reflexivity]|]. cbn [log_ok]. intros [He Hl]. destruct e; cbn; auto. apply He.
Qed.

(** ** Where a read stands *)

Lemma row_operations_state_ok s : reachable row_operation ∅ s -> state_ok (rows_ok (fun _ : Z => row_ok)) no_rely s.
Proof. intros Hr. eapply local_state_ok; [apply row_operation_keeps| |exact Hr]. intros k x Hk. by rewrite lookup_empty in Hk. Qed.

Lemma below_cap_key id cap k r : below_cap id cap k r = true -> k = id.
Proof. unfold below_cap, at_row. rewrite !andb_true_iff, Z.eqb_eq. tauto. Qed.
Lemma at_row_key id k r : at_row id k r = true -> k = id.
Proof. unfold at_row. rewrite andb_true_iff, Z.eqb_eq. tauto. Qed.

(** The row written by a read that was counted under [cap], over the committed rows. *)
Definition grant (id cap : Z) (D : gmap Z row) (x : @txst Z row row_err _ _) : Prop :=
  exists r, D !! id = Some r /\ x_buf x = {[id := Some (counted cap r)]} /\ w_ReadCount r < cap.

(** A read of [id] after it loaded [secret], none of whose statements has failed. *)
Inductive read_stage (id : Z) (secret : row) (D : gmap Z row) (x : @txst Z row row_err _ _) : Prop :=
| rs_loaded : x_prog x = readVersionValue id secret -> x_buf x = ∅ -> x_wait x = None -> read_stage id secret D x
| rs_waiting cap keys : f_MaxReads (w_Fields secret) = Some cap -> 0 < cap -> x_prog x = readVersionValue id secret -> x_buf x = ∅ ->
    x_wait x = Some (below_cap id cap, keys, 0%nat) -> keys = [] \/ keys = [id] -> read_stage id secret D x
| rs_counted cap : f_MaxReads (w_Fields secret) = Some cap -> 0 < cap -> x_prog x = readVersionValue id secret -> grant id cap D x ->
    x_wait x = Some (below_cap id cap, [], 1%nat) -> read_stage id secret D x
| rs_granted cap : f_MaxReads (w_Fields secret) = Some cap -> 0 < cap -> x_prog x = Ret (Ok ()) -> grant id cap D x -> read_stage id secret D x.

(** A value may be handed out of the row that was loaded. *)
Definition readable (guards : row -> bool) (secret : row) : Prop :=
  w_Deleted secret = false /\ w_Status secret <> SecretStatusSuspended /\ guards secret = true.

Lemma readVersionValue_capped id secret cap : f_MaxReads (w_Fields secret) = Some cap -> 0 < cap ->
  readVersionValue id secret = TryIncrementSecretNodeReadCount id cap (matched ErrMaxReadsExhausted (Ret (Ok ()))).
Proof. intros Hm Hc. unfold readVersionValue. rewrite Hm. by apply Z.ltb_lt in Hc as ->. Qed.

(** The cap of a secret, if it has one in force. *)
Lemma readVersionValue_cases id secret : (exists cap, f_MaxReads (w_Fields secret) = Some cap /\ 0 < cap) \/ readVersionValue id secret = Ret (Ok ()).
Proof. unfold readVersionValue. destruct (f_MaxReads _) as [c|]; [|by right]. destruct (Z.ltb_spec 0 c); [left; eauto|by right]. Qed.

(** Its own steps take a read from stage to stage, or end it with an error. *)
Lemma read_stage_own id secret s t x x' : read_stage id secret (s_db s) x -> tx_step s t x x' ->
  read_stage id secret (s_db s) x' \/ exists e, x_prog x' = Ret (Err e).
Proof.
  intros Hst Hx. assert (Hcap : exists cap, f_MaxReads (w_Fields secret) = Some cap /\ 0 < cap).
  { destruct Hst as [Hp|cap ? ? ?|cap ? ?|cap ? ? Hp]; [|eauto|eauto|by inversion Hx; congruence].
    destruct (readVersionValue_cases id secret) as [|Hr]; [done|]. rewrite Hr in Hp. inversion Hx; congruence. }
  destruct Hcap as (cap & Hm & Hc). pose proof (readVersionValue_capped id secret cap Hm Hc) as Hr. unfold TryIncrementSecretNodeReadCount in Hr.
  destruct Hst as [Hp Hb Hw|cap' keys Hm' _ Hp Hb Hw Hk|cap' Hm' _ Hp Hg Hw|cap' _ _ Hp]; [| | |by inversion Hx; congruence];
    rewrite Hr in Hp; try (rewrite Hm in Hm'; injection Hm' as <-); inversion Hx; subst; try congruence;
    match goal with E : x_prog _ = Update _ _ _ |- _ => rewrite Hp in E; injection E as <- <- <- end.
  - left. apply (rs_waiting _ _ _ _ cap ((matching (below_cap id cap) (view (x_buf x) (s_db s))).*1)); simpl; [done|done|congruence|done|done|].
    destruct (matching_one (below_cap id cap) (view (x_buf x) (s_db s)) id) as [[-> _]|(r & -> & _)]; [apply below_cap_key|by left|by right].
  - rewrite Hw in H0. injection H0 as <- -> <-. destruct Hk as [?|[= -> ->]]; [done|]. left.
    apply (rs_counted _ _ _ _ cap); simpl; [done|done|congruence| |done]. rewrite lookup_view, Hb in H2. simpl in H2. exists r. simpl.
    split; [done|]. rewrite Hb. split; [done|]. unfold below_cap in H3. apply andb_true_iff in H3 as [_ ?%Z.ltb_lt]. done.
  - rewrite Hw in H0. injection H0 as <- -> <-. destruct Hk as [?|[= -> ->]]; [done|]. left.
    apply (rs_waiting _ _ _ _ cap []); simpl; [done|done|congruence|done|done|by left].
  - rewrite Hw in H0. injection H0 as <- -> <-. right. by eexists.
  - rewrite Hw in H0. injection H0 as <- <-. left. by apply (rs_granted _ _ _ _ cap).
Qed.

(** The steps of others leave it where it is. *)
Lemma read_stage_others id secret D D' x : read_stage id secret D x -> (forall k, is_Some (x_buf x !! k) -> D' !! k = D !! k) -> read_stage id secret D' x.
Proof.
  assert (Hg : forall cap, grant id cap D x -> (forall k, is_Some (x_buf x !! k) -> D' !! k = D !! k) -> grant id cap D' x).
  { intros cap (r & Hr & Hb & Hlt) Hk. exists r. split; [|done]. rewrite Hk; [done|]. by rewrite Hb, lookup_singleton_eq. }
  intros [? ? ?|cap keys|cap|cap] Hk; [by apply rs_loaded|by apply (rs_waiting _ _ _ _ cap keys)|apply (rs_counted _ _ _ _ cap); auto|apply (rs_granted _ _ _ _ cap); auto].
Qed.

(** The whole read: not begun, past its load, or failed. *)
Definition read_at (guards : row -> bool) (id : Z) (t : nat) (s0 s : @state Z row row_err _ _) (x : @txst Z row row_err _ _) : Prop :=
  x = mkTx (value_read guards id) ∅ [] [] None \/ (exists e, x_prog x = Ret (Err e)) \/
  exists s1 secret, rtc (running row_operation t) s0 s1 /\ rtc (running row_operation t) s1 s /\ s_db s1 !! id = Some secret /\
    readable guards secret /\ read_stage id secret (s_db s) x.

Lemma value_read_load guards id s t x' : tx_step s t (mkTx (value_read guards id) ∅ [] [] None) x' ->
  (exists e, x_prog x' = Ret (Err e)) \/
  exists secret, s_db s !! id = Some secret /\ readable guards secret /\ read_stage id secret (s_db s) x'.
Proof.
  unfold value_read, GetSecret. inversion 1; simplify_eq/=.
  destruct (matching_one (at_row id) (view ∅ (s_db s)) id) as [[-> _]|(secret & -> & Hv & Ha)]; [apply at_row_key|left; by eexists|].
  rewrite lookup_view in Hv. simpl in Hv. unfold at_row in Ha. apply andb_true_iff in Ha as [_ Hd%negb_true_iff].
  destruct (bool_decide _ || _) eqn:Eg; [left; by eexists|]. apply orb_false_iff in Eg as [Es%bool_decide_eq_false Eg%negb_false_iff].
  right. exists secret. split; [done|]. split; [done|]. by apply rs_loaded.
Qed.

Lemma read_at_run guards id t s0 s : reachable row_operation ∅ s0 -> s_txs s0 !! t = Some (mkTx (value_read guards id) ∅ [] [] None) ->
  rtc (running row_operation t) s0 s -> exists x, s_txs s !! t = Some x /\ read_at guards id t s0 s x.
Proof.
  intros Hr H0. revert s. apply (rtc_ind_r (fun s => exists x, s_txs s !! t = Some x /\ read_at guards id t s0 s x)); [eexists; split; [exact H0|by left]|].
  intros s s' Hs Hst (x & Hx & Hat). assert (Hok : reachable row_operation ∅ s).
  { unfold reachable in *. etrans; [exact Hr|]. clear -Hs. induction Hs as [|a b c [? _] _ IH]; [done|by eapply rtc_l]. }
  apply row_operations_state_ok in Hok.
  destruct (running_cases _ _ _ t s s' x Hok Hst Hx) as [(x' & Hown & HD & Hx')|[Hx' HD]].
  - exists x'. split; [done|]. destruct Hat as [-> |[[e He]|(s1 & secret & H1 & H2 & H3 & H4 & H5)]].
    + right. apply value_read_load in Hown as [|(secret & ? & ? & ?)]; [by left|]. right. exists s, secret. rewrite HD.
      split_and!; try done. by apply rtc_once.
    + inversion Hown; congruence.
    + right. destruct (read_stage_own _ _ _ _ _ _ H5 Hown) as [H6|]; [right|by left]. exists s1, secret. rewrite HD. split_and!; try done. by eapply rtc_r.
  - exists x. split; [done|]. destruct Hat as [-> |[[e He]|(s1 & secret & H1 & H2 & H3 & H4 & H5)]]; [by left|right; left; eauto|].
    right. right. exists s1, secret. split_and!; try done; [by eapply rtc_r|by eapply read_stage_others].
Qed.

(** C16. A secret with a cap on its reads hands out its value no more often.  Take any
    interleaving of reads with the other writers of the row.  (1) A read that comes to its
    end with a value loaded the row, live and not suspended, at some moment after it began;
    and if that row had a positive cap, then the read holds the row with the counter raised
    by one and the grant recorded, nothing else written, and before it fewer reads had been
    granted than the cap the read had loaded.  (2) In every committed row the counter is the
    number of grants recorded, and each grant under a cap is at most the cap-th ever: no
    other write takes a grant back.  So of a row that always has the cap [cap], at most
    [cap] values are handed out.  The cap that counts is the one the read loaded: a read
    that loaded a cap before it was lowered is judged by the old one. *)
Theorem reads_within_cap s : reachable row_operation ∅ s ->
  (forall s0 t guards id x, reachable row_operation ∅ s0 -> s_txs s0 !! t = Some (mkTx (value_read guards id) ∅ [] [] None) ->
     rtc (running row_operation t) s0 s -> s_txs s !! t = Some x -> x_prog x = Ret (Ok ()) ->
     exists s1 secret, rtc (running row_operation t) s0 s1 /\ rtc (running row_operation t) s1 s /\ s_db s1 !! id = Some secret /\
       readable guards secret /\
       forall cap, f_MaxReads (w_Fields secret) = Some cap -> 0 < cap ->
         exists r, s_db s !! id = Some r /\ x_buf x = {[id := Some (counted cap r)]} /\ grants (w_log r) < cap) /\
  (forall id r, s_db s !! id = Some r -> w_ReadCount r = grants (w_log r) /\
     forall newer cap older, w_log r = newer ++ Granted cap :: older -> grants (Granted cap :: older) <= cap).
Proof.
  intros Hs. split.
  - intros s0 t guards id x Hr0 H0 Hrun Hx Hp. destruct (read_at_run guards id t s0 s Hr0 H0 Hrun) as (x' & Hx' & Hat).
    rewrite Hx in Hx'. injection Hx' as <-. destruct Hat as [-> |[[e He]|(s1 & secret & H1 & H2 & H3 & H4 & H5)]]; [done|congruence|].
    exists s1, secret. split_and!; try done. intros cap Hm Hc. pose proof (readVersionValue_capped id secret cap Hm Hc) as Hrv.
    unfold TryIncrementSecretNodeReadCount in Hrv.
    destruct H5 as [Hp'|? ? ? ? Hp'|? ? ? Hp'|cap' Hm' _ _ (r & Hr & Hb & Hlt)]; [rewrite Hrv in Hp'; congruence..|].
    rewrite Hm in Hm'. injection Hm' as <-. exists r. split_and!; [done|done|]. by rewrite <- (ok_count _ (history_ok s id r Hs Hr)).
  - intros id r Hr. destruct (history_ok s id r Hs Hr) as [H1 _ _ H4]. split; [done|]. intros newer cap older E. rewrite E in H4. apply log_ok_at in H4. cbn in *. lia.
Qed.

(** Only an administrator of the project binds a secret to a rotation backend, or
    unbinds it.  In every interleaving, the rotation settings of a secret are those of its
    last configuration; each configuration replaced the backend its writer had looked at;
    one made without admin authority over the secret's project left backend and reference
    as they were; and the settings are valid, with a reference free of control and
    metacharacters exactly when there is a backend. *)
Theorem rotation_binding_authorized s (id : Z) (r : row) : reachable row_operation ∅ s -> s_db s !! id = Some r ->
  w_Rotation r = config (w_log r) /\
  (forall newer checked from to older, w_log r = newer ++ Configured checked from to :: older ->
     from = as_Backend (config older) /\
     (checked <> Some (w_ProjectID r) -> as_Backend to = as_Backend (config older) /\ as_Ref to = as_Ref (config older)) /\
     (as_Backend to = [] <-> as_Ref to = []) /\ validateRotationRef (as_Ref to) = true /\
     knownRotationCharset (as_Charset to) = true /\ (as_Length to = 0 \/ rotatedValueMinLength <= as_Length to <= rotatedValueMaxLength)).
Proof.
  intros Hs Hr. destruct (history_ok s id r Hs Hr) as [_ H2 _ H4]. split; [done|]. intros newer checked from to older E. rewrite E in H4.
  pose proof (log_ok_at _ _ _ _ H4) as (Hf&(Hc&Hl&Hb&Hv)&Ha). apply log_ok_app in H4 as [_ H4]. destruct (config_ok _ _ H4) as (_&_&Hb'&_).
  split_and!; [done| |done|done|done|done]. intros Hn. rewrite <- Hf in Hb' |- *.
  destruct (decide (from = [])) as [E1|E1]; [|tauto]. destruct (decide (as_Backend to = [])) as [E2|E2]; [|tauto].
  rewrite E1, E2, (proj1 Hb E2), (proj1 Hb' E1). done.
Qed.

(** A decision to clear the synced copies of a suspended secret stands until it is
    resumed.  In every interleaving, status and marker are those of the last change of
    status; the marker is set only on a suspended secret; a suspension in force is never
    replaced by one without the marker; and only a suspended secret is resumed. *)
Theorem suspension_marker_stands s (id : Z) (r : row) : reachable row_operation ∅ s -> s_db s !! id = Some r ->
  (w_Status r, w_Clear r) = standing (w_log r) /\ (w_Clear r = true -> w_Status r = SecretStatusSuspended) /\
  (forall newer clear older, w_log r = newer ++ SuspendedWith clear :: older -> fst (standing older) = SecretStatusSuspended -> clear = true) /\
  (forall newer older, w_log r = newer ++ Resumed :: older -> fst (standing older) = SecretStatusSuspended).
Proof.
  intros Hs Hr. destruct (history_ok s id r Hs Hr) as [_ _ H3 H4]. split_and!; [done| | |].
  - assert (forall l, snd (standing l) = true -> fst (standing l) = SecretStatusSuspended) as H by (induction l as [|[] l IH]; cbn; auto; done).
    specialize (H (w_log r)). by rewrite <- H3 in H.
  - intros newer clear older E Hst. rewrite E in H4. apply log_ok_at in H4. cbn in H4. destruct H4; done.
  - intros newer older E. rewrite E in H4. by apply log_ok_at in H4.
Qed.

(** ** Examples *)

Definition ex_fields : fields := mkFields (go "db") [] [] [] 7 [] 0 None None (Some 1) None.
Definition ex_bind : AutoRotateSpec := mkSpec true 32 (go "hex") (go "pg") (go "app_user").
Definition ex_spec_off : AutoRotateSpec := mkSpec true 0 [] [] [].
(** Two reads of a secret that may be read once; an administrator's binding and a
    configuration by a writer who saw no backend; a suspension that is upgraded. *)
Definition ex_row_schedule : list (@TxDB.act Z row row_err _ _) :=
  [Begin 1 (CreateSecret 5 3 ex_fields); Go 1 1; Commit 1;
   Begin 2 (value_read (fun _ => true) 5); Begin 3 (value_read (fun _ => true) 5); Go 2 1; Go 3 1; Go 2 2; Go 3 1; Go 2 1; Commit 2; Go 3 2;
   Begin 4 (SetSecretAutoRotate (Some (fun _ => true)) (fun _ => true) 5 ex_bind 10); Begin 5 (SetSecretAutoRotate None (fun _ => false) 5 ex_spec_off 11);
   Go 4 1; Go 5 1; Go 4 2; Go 5 1; Go 4 1; Commit 4; Go 5 2;
   Begin 6 (SuspendSecretWithOptions 5 false true 12); Go 6 4; Commit 6; Begin 7 (SuspendSecretWithOptions 5 true true 13); Go 7 4; Commit 7].
Definition ex_row_final : @TxDB.state Z row row_err _ _ :=
  match play ex_row_schedule ∅ ∅ with Some (D, txs) => mkState D txs | None => mkState ∅ ∅ end.
Lemma ex_row_reachable : reachable row_operation ∅ ex_row_final.
Proof.
  unfold reachable, ex_row_final. destruct (play ex_row_schedule ∅ ∅) as [[D txs]|] eqn:E; [|done]. eapply play_steps; [|exact E].
  unfold ex_row_schedule. repeat constructor.
Qed.
Definition ex_row : row :=
  mkRow 3 (set_UpdatedAt 13 ex_fields) SecretStatusSuspended true 1 ex_bind false
    [SuspendedWith true; SuspendedWith false; Configured (Some 3) [] ex_bind; Granted 1].

Lemma ex_row_at : s_db ex_row_final !! 5 = Some ex_row.
Proof. vm_compute. reflexivity. Qed.
(** The state after [n] actions of the schedule: the first read has begun after four,
    and is about to return after ten. *)
Definition ex_after (n : nat) : @TxDB.state Z row row_err _ _ :=
  mkState (played (take n ex_row_schedule) ∅).1 (played (take n ex_row_schedule) ∅).2.
Lemma ex_after_reachable n : reachable row_operation ∅ (ex_after n).
Proof. apply (played_reachable row_operation (take n ex_row_schedule) ∅). apply Forall_take. unfold ex_row_schedule. repeat constructor. Qed.
Lemma ex_read_runs : rtc (running row_operation 2) (ex_after 4) (ex_after 10).
Proof.
  destruct (ex_after 4) as [D txs] eqn:E4. destruct (ex_after 10) as [D' txs'] eqn:E10.
  apply (play_running row_operation 2 (take 6 (drop 4 ex_row_schedule))).
  - unfold ex_row_schedule. simpl. repeat constructor.
  - assert (H : bool_decide (is_Some (s_txs (ex_after 4) !! 2%nat)) = true) by (vm_compute; reflexivity). rewrite E4 in H. by apply bool_decide_eq_true in H.
  - assert (HD : D = s_db (ex_after 4)) by (by rewrite E4). assert (Ht : txs = s_txs (ex_after 4)) by (by rewrite E4).
    assert (HD' : D' = s_db (ex_after 10)) by (by rewrite E10). assert (Ht' : txs' = s_txs (ex_after 10)) by (by rewrite E10).
    subst. vm_compute. reflexivity.
Qed.

Lemma reads_within_cap_witness :
  w_ReadCount ex_row = 1 /\ x_prog <$> (s_txs ex_row_final !! 3%nat) = Some (Ret (Err ErrMaxReadsExhausted)) /\
  exists x (s1 : @TxDB.state Z row row_err _ _) secret, s_txs (ex_after 10) !! 2%nat = Some x /\ s_db s1 !! 5 = Some secret /\ readable (fun _ => true) secret /\
    (f_MaxReads (w_Fields secret) = Some 1 -> exists r, s_db (ex_after 10) !! 5 = Some r /\ x_buf x = {[5 := Some (counted 1 r)]}).
Proof.
  split; [reflexivity|]. split; [vm_compute; reflexivity|].
  destruct (s_txs (ex_after 10) !! 2%nat) as [x|] eqn:Ex; [|exfalso; revert Ex; vm_compute; discriminate].
  assert (Hp : x_prog x = Ret (Ok ())).
  { assert (H : x_prog <$> s_txs (ex_after 10) !! 2%nat = Some (Ret (Ok ()))) by (vm_compute; reflexivity). rewrite Ex in H. by injection H. }
  destruct (proj1 (reads_within_cap (ex_after 10) (ex_after_reachable 10)) (ex_after 4) 2%nat (fun _ => true) 5 x (ex_after_reachable 4)
    ltac:(vm_compute; reflexivity) ex_read_runs Ex Hp) as (s1 & secret & _ & _ & H2 & H3 & Hc).
  exists x, s1, secret. split_and!; [done|done|exact H3|]. intros Hm. destruct (Hc 1 Hm) as (r & Hr & Hb & _); [lia|]. by exists r.
Defined.
Lemma rotation_binding_authorized_witness : as_Backend (w_Rotation ex_row) = go "pg" /\ validateRotationRef (go "app_user") = true /\
  x_prog <$> (s_txs ex_row_final !! 5%nat) = Some (Ret (Err ErrNotMatched)).
Proof.
  split; [reflexivity|]. split; [|vm_compute; reflexivity].
  destruct (proj2 (rotation_binding_authorized ex_row_final 5 ex_row ex_row_reachable ex_row_at) [SuspendedWith true; SuspendedWith false] (Some 3) [] ex_bind [Granted 1] eq_refl) as (_&_&_&H&_).
  exact H.
Defined.
Lemma suspension_marker_stands_witness : w_Clear ex_row = true /\ w_Status ex_row = SecretStatusSuspended.
Proof. split; [reflexivity|]. apply (suspension_marker_stands ex_row_final 5 ex_row ex_row_reachable ex_row_at). reflexivity. Defined.
