(* ===== verification/SecretTemplate.v ===== *)
(** Templates with secret references (src/internal/secrettemplate/render.go): the parser of
    [${secret:<ref>}] placeholders, the substitution and its limits.

    The parser scans literal runs and keeps the distinct references apart; it is related
    to a grammar that reads one character at a time.  The resolver is an argument with a
    state of its own, so that what it is asked, and how often, can be said. *)
From Stdlib Require Import ZArith Lia.
From stdpp Require Import base numbers tactics sets list gmap.
From S2P Require Import Prelude GoStr.

(** * Parsing *)

Definition dollar : Byte.byte := bZ 36.
Definition brace : Byte.byte := bZ 125.
Definition marker : bytes := go "${secret:".
Definition MaxDistinctReferences : Z := 100.
Definition MaxOutputBytes : Z := 2 ^ 20.

Inductive segment := Literal (literal : bytes) | Ref (ref : bytes).
Inductive parse_err := EUnterminated (offset : Z) | EEmptyRef (offset : Z) | ETooMany.

(** The bytes before the next one that is [b]. *)
Fixpoint until (b : Byte.byte) (s : bytes) : bytes :=
  match s with [] => [] | c :: s => if bool_decide (c = b) then [] else c :: until b s end.
(** [strings.IndexByte] *)
Definition IndexByte (s : bytes) (b : Byte.byte) : option nat := if bool_decide (b ∈ s) then Some (length (until b s)) else None.

(** One turn of the loop at offset [i], where the rest of the template is [s]: the segment,
    the bytes it takes, the distinct references. *)
Definition parse_step (i : Z) (s : bytes) (distinct : list bytes) : res parse_err (segment * nat * list bytes) :=
  match s with
  | [] => Ok (Literal [], 0%nat, distinct)
  | c :: rest =>
      if negb (bool_decide (c = dollar)) then let run := c :: until dollar rest in Ok (Literal run, length run, distinct)
      else if match rest with d :: _ => bool_decide (d = dollar) | [] => false end then Ok (Literal [dollar], 2%nat, distinct)
      else if HasPrefix s marker then
        let rest := drop (length marker) s in
        match IndexByte rest brace with
        | None => Err (EUnterminated i)
        | Some e =>
            let ref := TrimSpace (take e rest) in
            if bool_decide (ref = []) then Err (EEmptyRef i)
            else if bool_decide (ref ∈ distinct) then Ok (Ref ref, (length marker + e + 1)%nat, distinct)
            else if MaxDistinctReferences <=? Z.of_nat (length distinct) then Err ETooMany
            else Ok (Ref ref, (length marker + e + 1)%nat, distinct ++ [ref])
        end
      else Ok (Literal [dollar], 1%nat, distinct)
  end.

Fixpoint parse_loop (fuel : nat) (i : Z) (s : bytes) (segments : list segment) (distinct : list bytes) : option (res parse_err (list segment * list bytes)) :=
  match s with
  | [] => Some (Ok (segments, distinct))
  | _ =>
      match fuel with
      | O => None
      | S fuel =>
          match parse_step i s distinct with
          | Err e => Some (Err e)
          | Ok (seg, n, distinct) => parse_loop fuel (i + Z.of_nat n) (drop n s) (segments ++ [seg]) distinct
          end
      end
  end.
Definition parse (tmpl : bytes) : option (res parse_err (list segment * list bytes)) := parse_loop (length tmpl) 0 tmpl [] [].

Definition References (tmpl : bytes) : option (res parse_err (list bytes)) :=
  r ← parse tmpl; Some (match r with Ok (_, distinct) => Ok distinct | Err e => Err e end).

(** * Rendering *)

Inductive render_err (E : Type) := RParse (e : parse_err) | RResolve (ref : bytes) (e : E) | RNewline (ref : bytes) | RShell (ref : bytes) | RTooLong.
Arguments RParse {E} e.
Arguments RResolve {E} ref e.
Arguments RNewline {E} ref.
Arguments RShell {E} ref.
Arguments RTooLong {E}.

Definition ContainsAny (s chars : bytes) : bool := existsb (fun b => bool_decide (b ∈ chars)) s.
Definition line_breaks : bytes := [bZ 10; bZ 13; bZ 0].
Definition shell_chars : bytes := go "`;|&<>".

Section render.
Context {W E : Type} (resolve : bytes -> W -> res E bytes * W) (escape : option (bytes -> bytes)).

Fixpoint resolve_all (distinct : list bytes) (resolved : gmap bytes bytes) (w : W) : res (render_err E) (gmap bytes bytes) * W :=
  match distinct with
  | [] => (Ok resolved, w)
  | ref :: distinct =>
      match resolve ref w with
      | (Err e, w) => (Err (RResolve ref e), w)
      | (Ok val, w) =>
          if ContainsAny val line_breaks then (Err (RNewline ref), w)
          else if ContainsAny val shell_chars || Contains val (go "$(") then (Err (RShell ref), w)
          else resolve_all distinct (<[ref := match escape with Some f => f val | None => val end]> resolved) w
      end
  end.

Definition written (resolved : gmap bytes bytes) (seg : segment) : bytes :=
  match seg with Literal l => l | Ref r => default [] (resolved !! r) end.
Fixpoint write_segments (resolved : gmap bytes bytes) (segments : list segment) (b : bytes) : res (render_err E) bytes :=
  match segments with
  | [] => Ok b
  | seg :: segments =>
      let b := b ++ written resolved seg in
      if MaxOutputBytes <? Z.of_nat (length b) then Err RTooLong else write_segments resolved segments b
  end.

(** The outer option: the fuel of the parser. *)
Definition RenderWithOptions (tmpl : bytes) (w : W) : option (res (render_err E) bytes * W) :=
  r ← parse tmpl;
  Some match r with
       | Err e => (Err (RParse e), w)
       | Ok (segments, distinct) =>
           match resolve_all distinct ∅ w with
           | (Err e, w) => (Err e, w)
           | (Ok resolved, w) => (write_segments resolved segments [], w)
           end
       end.
End render.
Definition Render {W E} (resolve : bytes -> W -> res E bytes * W) (tmpl : bytes) (w : W) : option (res (render_err E) bytes * W) := RenderWithOptions resolve None tmpl w.

Example parse_example : parse (go "a=${secret: p/x } $$5 $x ${secret:p/x}") =
  Some (Ok ([Literal (go "a="); Ref (go "p/x"); Literal (go " "); Literal (go "$"); Literal (go "5 "); Literal (go "$"); Literal (go "x "); Ref (go "p/x")], [go "p/x"])).
Proof. vm_compute. reflexivity. Qed.
Example parse_unterminated : parse (go "ab${secret:x") = Some (Err (EUnterminated 2)).
Proof. vm_compute. reflexivity. Qed.

(** * The grammar *)

(** A template as characters and references. *)
Inductive atom := Char (b : Byte.byte) | Secret (ref : bytes).

Inductive reads : bytes -> list atom -> Prop :=
| rd_end : reads [] []
| rd_char c s atoms : c <> dollar -> reads s atoms -> reads (c :: s) (Char c :: atoms)
| rd_dollars s atoms : reads s atoms -> reads (dollar :: dollar :: s) (Char dollar :: atoms)
| rd_secret body s atoms : (brace ∉ body) -> TrimSpace body <> [] -> reads s atoms -> reads (marker ++ body ++ brace :: s) (Secret (TrimSpace body) :: atoms)
| rd_lone s atoms : head s <> Some dollar -> HasPrefix (dollar :: s) marker = false -> reads s atoms -> reads (dollar :: s) (Char dollar :: atoms).

Definition refs_of (atoms : list atom) : list bytes := omap (fun a => match a with Secret r => Some r | Char _ => None end) atoms.
Definition flat (seg : segment) : list atom := match seg with Literal l => map Char l | Ref r => [Secret r] end.
(** The references not in [seen], once each, in the order they come first. *)
Definition first_seen (seen : list bytes) (refs : list bytes) : list bytes := fold_left (fun l r => if bool_decide (r ∈ l) then l else l ++ [r]) refs seen.

Lemma until_spec b s : (b ∉ until b s) /\ exists t, s = until b s ++ t /\ (t = [] \/ exists t', t = b :: t').
Proof.
  induction s as [|c s (Hn&t&Ht&Hb)]; cbn [until]; [split; [apply not_elem_of_nil|by exists []; eauto]|]. case_bool_decide as Hc.
  - subst. split; [apply not_elem_of_nil|]. exists (b :: s). eauto.
  - split; [by apply not_elem_of_cons|]. exists t. split; [by rewrite <- app_comm_cons, <- Ht|done].
Qed.
Lemma until_app b s t : b ∉ s -> until b (s ++ b :: t) = s.
Proof. induction s as [|c s IH]; intros Hn; cbn [until app]; [by rewrite bool_decide_true|]. apply not_elem_of_cons in Hn as [Hc Hn]. rewrite bool_decide_false by done. by rewrite IH. Qed.
Lemma IndexByte_Some s b n : IndexByte s b = Some n -> exists t, s = take n s ++ b :: t /\ (b ∉ take n s) /\ drop (S n) s = t.
Proof.
  unfold IndexByte. case_bool_decide as Hb; [|done]. intros [= <-]. destruct (until_spec b s) as (Hn&t&Ht&[->|[t' ->]]).
  - rewrite app_nil_r in Ht. by rewrite Ht in Hb.
  - exists t'. remember (until b s) as u eqn:Eu. clear Eu. subst s. rewrite take_app_length. split_and!; [done|done|]. by rewrite <- Nat.add_1_r, drop_app_add.
Qed.
Lemma IndexByte_app s b t : b ∉ s -> IndexByte (s ++ b :: t) b = Some (length s).
Proof. intros Hn. unfold IndexByte. rewrite bool_decide_true by set_solver. by rewrite until_app. Qed.
Lemma reads_run run s atoms : dollar ∉ run -> reads s atoms -> reads (run ++ s) (map Char run ++ atoms).
Proof. induction run as [|c run IH]; intros Hn Hr; cbn; [done|]. apply not_elem_of_cons in Hn as [Hc Hn]. constructor; [congruence|auto]. Qed.
Lemma reads_run_inv run s atoms : dollar ∉ run -> reads (run ++ s) atoms -> exists atoms', atoms = map Char run ++ atoms' /\ reads s atoms'.
Proof.
  revert atoms. induction run as [|c run IH]; intros atoms Hn Hr; [by exists atoms|]. apply not_elem_of_cons in Hn as [Hc Hn].
  cbn [app] in Hr. inversion Hr as [|c' s' atoms' Hne Hr' E1 E2|s' atoms' Hr' E1 E2|body s' atoms' ? ? ? E1 E2|s' atoms' ? ? ? E1 E2]; subst; try done.
  destruct (IH atoms' Hn Hr') as (atoms2&->&?). by exists atoms2.
Qed.

(** ** The parser reads the grammar *)

Lemma first_seen_app seen l l' : first_seen seen (l ++ l') = first_seen (first_seen seen l) l'.
Proof. apply fold_left_app. Qed.
Lemma refs_of_app l l' : refs_of (l ++ l') = refs_of l ++ refs_of l'.
Proof. apply omap_app. Qed.
Lemma refs_of_chars l : refs_of (map Char l) = [].
Proof. induction l; [done|]. exact IHl. Qed.
Lemma first_seen_length seen l : (length seen <= length (first_seen seen l))%nat.
Proof.
  revert seen. induction l as [|r l IH]; intros seen; [done|]. cbn. etrans; [|apply IH]. case_bool_decide; [done|]. rewrite length_app. lia.
Qed.

Definition few (distinct : list bytes) : Prop := Z.of_nat (length distinct) <= MaxDistinctReferences.

Lemma HasPrefix_shorter s u p : HasPrefix (s ++ u) p = false -> HasPrefix s p = false.
Proof. intros H. destruct (HasPrefix s p) eqn:E; [|done]. apply HasPrefix_spec in E as [t ->]. rewrite <- app_assoc in H. by rewrite (proj2 (HasPrefix_spec _ p)) in H by eauto. Qed.
Lemma take_S_brace (s : bytes) b n t : s = take n s ++ b :: t -> (n <= length s)%nat -> take (S n) s = take n s ++ [b].
Proof. intros Ht Hn. rewrite Ht at 1. rewrite take_app_ge by (rewrite length_take; lia). rewrite length_take, Nat.min_l by lia. by replace (S n - n)%nat with 1%nat by lia. Qed.

Lemma parse_step_sound i s distinct seg n d' : s <> [] -> few distinct -> parse_step i s distinct = Ok (seg, n, d') ->
  (0 < n <= length s)%nat /\ (forall t u atoms, drop n s = t ++ u -> reads t atoms -> reads (take n s ++ t) (flat seg ++ atoms)) /\
  d' = first_seen distinct (refs_of (flat seg)) /\ few d'.
Proof.
  intros Hs Hf. destruct s as [|c rest]; [done|]. cbn [parse_step]. destruct (decide (c = dollar)) as [->|Hc].
  2: { rewrite bool_decide_false by done. cbn [negb]. intros [= <- <- <-]. destruct (until_spec dollar rest) as (Hn&t&Ht&_). cbn [flat]. rewrite refs_of_chars.
       remember (until dollar rest) as u eqn:Eu. clear Eu. subst rest. cbn [length drop take]. split_and!; [lia|rewrite length_app; lia| |done|done]. intros t' u' atoms _ Hr.
       rewrite take_app_length. apply (reads_run (c :: u) t' atoms); [by apply not_elem_of_cons|done]. }
  rewrite bool_decide_true by done. cbn [negb]. destruct (match rest with d :: _ => bool_decide (d = dollar) | [] => false end) eqn:Ed.
  { intros [= <- <- <-]. destruct rest as [|d rest]; [done|]. apply bool_decide_eq_true in Ed as ->. split_and!; [lia|cbn; lia| |done|done]. intros t u atoms _ Hr. by apply rd_dollars. }
  destruct (HasPrefix (dollar :: rest) marker) eqn:Ep.
  2: { intros [= <- <- <-]. split_and!; [lia|cbn; lia| |done|done]. intros t u atoms Htu Hr. rewrite skipn_cons, drop_0 in Htu. subst rest. apply rd_lone; [|by eapply (HasPrefix_shorter (dollar :: t))|done].
       destruct t as [|d t]; [done|]. apply bool_decide_eq_false in Ed. cbn. congruence. }
  apply HasPrefix_spec in Ep as [body Hb]. rewrite Hb, drop_app_length. destruct (IndexByte body brace) as [e|] eqn:Ei; [|done].
  apply IndexByte_Some in Ei as (t&Ht&Hn&Hdr). case_bool_decide as Ht0; [done|].
  assert (length marker + e + 1 <= length (marker ++ body))%nat as Hle.
  { assert (e < length body)%nat as He; [|rewrite length_app; lia]. apply (f_equal length) in Ht. rewrite length_app, length_take in Ht. cbn in Ht. lia. }
  assert (forall t u atoms, drop (length marker + e + 1) (marker ++ body) = t ++ u -> reads t atoms ->
    reads (take (length marker + e + 1) (marker ++ body) ++ t) (flat (Ref (TrimSpace (take e body))) ++ atoms)) as Hreads.
  { intros t' u atoms _ Hr. rewrite <- Nat.add_assoc, take_app_add, Nat.add_1_r, (take_S_brace body brace e t Ht) by (rewrite length_app in Hle; lia). rewrite <- !app_assoc. by apply rd_secret. }
  assert (0 < length marker)%nat by (vm_compute; lia). case_bool_decide as Hin; [|destruct (MaxDistinctReferences <=? Z.of_nat (length distinct)) eqn:Em; [done|]]; intros [= <- <- <-].
  - split_and!; [lia|exact Hle|exact Hreads|cbn; by rewrite bool_decide_true|done].
  - split_and!; [lia|exact Hle|exact Hreads|cbn; by rewrite bool_decide_false|]. unfold few. rewrite length_app. cbn [length]. lia.
Qed.

Lemma parse_step_complete i s atoms distinct : s <> [] -> reads s atoms -> few (first_seen distinct (refs_of atoms)) ->
  exists seg n d' atoms', parse_step i s distinct = Ok (seg, n, d') /\ atoms = flat seg ++ atoms' /\ reads (drop n s) atoms'.
Proof.
  intros Hs Hr Hf. destruct (decide (head s = Some dollar)) as [Hh|Hh].
  2: { destruct s as [|c rest]; [done|]. cbn [head] in Hh. cbn [parse_step]. rewrite bool_decide_false by congruence. cbn [negb].
       destruct (until_spec dollar rest) as (Hn&t&Ht&_). remember (until dollar rest) as u eqn:Eu. clear Eu. subst rest.
       destruct (reads_run_inv (c :: u) t atoms ltac:(apply not_elem_of_cons; split; [congruence|done]) Hr) as (atoms'&->&Hr').
       do 4 eexists. split; [done|]. split; [done|]. cbn [length drop]. by rewrite drop_app_length. }
  destruct Hr as [|c s atoms Hc Hr|s atoms Hr|body s atoms Hb Ht Hr|s atoms Hd Hp Hr]; [done|cbn in Hh; congruence| | |].
  - do 4 eexists. split; [reflexivity|]. by split.
  - cbn [refs_of] in Hf. assert (parse_step i (marker ++ body ++ brace :: s) distinct =
      match IndexByte (body ++ brace :: s) brace with
      | None => Err (EUnterminated i)
      | Some e => let ref := TrimSpace (take e (body ++ brace :: s)) in
          if bool_decide (ref = []) then Err (EEmptyRef i)
          else if bool_decide (ref ∈ distinct) then Ok (Ref ref, (length marker + e + 1)%nat, distinct)
          else if MaxDistinctReferences <=? Z.of_nat (length distinct) then Err ETooMany
          else Ok (Ref ref, (length marker + e + 1)%nat, distinct ++ [ref])
      end) as -> by reflexivity.
    rewrite IndexByte_app by done. cbv zeta. rewrite take_app_length. rewrite (bool_decide_false (_ = [])) by done.
    assert (forall d' : list bytes, exists (seg : segment) (n : nat) (d'' : list bytes) (atoms' : list atom),
      (Ok (Ref (TrimSpace body), (length marker + length body + 1)%nat, d') : res parse_err (segment * nat * list bytes)) = Ok (seg, n, d'') /\
      Secret (TrimSpace body) :: atoms = flat seg ++ atoms' /\ reads (drop n (marker ++ body ++ brace :: s)) atoms') as Hok.
    { intros d'. do 4 eexists. split; [done|]. split; [done|]. by rewrite <- Nat.add_assoc, drop_app_add, drop_app_add. }
    case_bool_decide as Hin; [apply Hok|]. destruct (Z.leb_spec MaxDistinctReferences (Z.of_nat (length distinct))) as [Hle|_]; [|apply Hok].
    exfalso. unfold few in Hf. cbn in Hf. rewrite bool_decide_false in Hf by done. pose proof (first_seen_length (distinct ++ [TrimSpace body]) (refs_of atoms)) as Hl.
    rewrite length_app in Hl. cbn in Hl. unfold first_seen, refs_of in *. cbn in *. lia.
  - cbn [parse_step]. rewrite bool_decide_true by done. cbn [negb]. rewrite Hp. replace (match s with d :: _ => bool_decide (d = dollar) | [] => false end) with false.
    + do 4 eexists. split; [done|]. by split.
    + destruct s as [|d s]; [done|]. symmetry. apply bool_decide_eq_false. cbn in Hd. congruence.
Qed.

Lemma parse_loop_complete fuel : forall i s segs distinct atoms, (length s <= fuel)%nat -> reads s atoms -> few (first_seen distinct (refs_of atoms)) ->
  exists new, parse_loop fuel i s segs distinct = Some (Ok (segs ++ new, first_seen distinct (refs_of atoms))) /\ concat (map flat new) = atoms.
Proof.
  induction fuel as [|fuel IH]; intros i s segs distinct atoms Hl Hr Hf; (destruct (decide (s = [])) as [->|Hs]; [inversion Hr; subst; exists []; by rewrite app_nil_r|]).
  { destruct s; [done|cbn in Hl; lia]. }
  assert (few distinct) as Hfd by (unfold few in *; pose proof (first_seen_length distinct (refs_of atoms)); lia).
  destruct (parse_step_complete i s atoms distinct Hs Hr Hf) as (seg&n&d'&atoms'&Hst&->&Hr'). destruct (parse_step_sound _ _ _ _ _ _ Hs Hfd Hst) as (Hn&_&->&_).
  rewrite refs_of_app, first_seen_app in Hf |- *. destruct (IH (i + Z.of_nat n) (drop n s) (segs ++ [seg]) _ atoms' ltac:(rewrite length_drop; lia) Hr' Hf) as (new&Hrun&<-).
  exists (seg :: new). split; [|done]. destruct s as [|c s]; [done|]. cbn [parse_loop]. rewrite Hst, Hrun, <- app_assoc. done.
Qed.

Lemma parse_loop_sound fuel : forall i s segs distinct, (length s <= fuel)%nat -> few distinct ->
  (exists e, parse_loop fuel i s segs distinct = Some (Err e)) \/
  exists new, let atoms := concat (map flat new) in parse_loop fuel i s segs distinct = Some (Ok (segs ++ new, first_seen distinct (refs_of atoms))) /\
    reads s atoms /\ few (first_seen distinct (refs_of atoms)).
Proof.
  induction fuel as [|fuel IH]; intros i s segs distinct Hl Hf; (destruct (decide (s = [])) as [->|Hs]; [right; exists []; rewrite app_nil_r; split_and!; [done|constructor|done]|]).
  { destruct s; [done|cbn in Hl; lia]. }
  destruct s as [|c s]; [done|]. cbn [parse_loop]. destruct (parse_step i (c :: s) distinct) as [[[seg n] d']|e] eqn:Hst; [|left; eauto].
  destruct (parse_step_sound _ _ _ _ _ _ Hs Hf Hst) as (Hn&Hreads&->&Hf'). specialize (IH (i + Z.of_nat n) (drop n (c :: s)) (segs ++ [seg]) _ ltac:(rewrite length_drop; lia) Hf').
  destruct IH as [[e He]|(new&Hrun&Hr&Hfew)]; [left; eauto|]. right. exists (seg :: new). cbn zeta in *. cbn [map concat]. rewrite refs_of_app, first_seen_app. split_and!; [|rewrite <- (take_drop n (c :: s)); by eapply (Hreads _ []); [rewrite app_nil_r|]|done].
  by rewrite Hrun, <- app_assoc.
Qed.

Lemma parse_spec s : (exists e, parse s = Some (Err e)) \/
  exists segs, let atoms := concat (map flat segs) in parse s = Some (Ok (segs, first_seen [] (refs_of atoms))) /\ reads s atoms /\ few (first_seen [] (refs_of atoms)).
Proof. destruct (parse_loop_sound (length s) 0 s [] [] ltac:(lia) ltac:(unfold few, MaxDistinctReferences; cbn; lia)) as [?|?]; [by left|by right]. Qed.
Lemma parse_complete s atoms : reads s atoms -> few (first_seen [] (refs_of atoms)) -> exists segs, parse s = Some (Ok (segs, first_seen [] (refs_of atoms))) /\ concat (map flat segs) = atoms.
Proof. intros Hr Hf. destruct (parse_loop_complete (length s) 0 s [] [] atoms ltac:(lia) Hr Hf) as (new&?&?). by exists new. Qed.

(** Where a rejected template goes wrong: everything before it is a well-formed template. *)
Definition rejects (e : parse_err) (offset : Z) (s : bytes) (distinct : list bytes) : Prop :=
  match e with
  | EUnterminated i => i = offset /\ exists body, s = marker ++ body /\ (brace ∉ body)
  | EEmptyRef i => i = offset /\ exists body t, s = marker ++ body ++ brace :: t /\ (brace ∉ body) /\ TrimSpace body = []
  | ETooMany => Z.of_nat (length distinct) = MaxDistinctReferences /\
      exists body t, s = marker ++ body ++ brace :: t /\ (brace ∉ body) /\ TrimSpace body <> [] /\ (TrimSpace body ∉ distinct)
  end.

Lemma IndexByte_None s b : IndexByte s b = None -> b ∉ s.
Proof. unfold IndexByte. by case_bool_decide. Qed.

Lemma parse_step_error i s distinct e : few distinct -> parse_step i s distinct = Err e -> rejects e i s distinct.
Proof.
  intros Hf. destruct s as [|c rest]; [done|]. cbn [parse_step]. destruct (negb _); [done|]. destruct (match rest with d :: _ => bool_decide (d = dollar) | [] => false end); [done|].
  destruct (HasPrefix (c :: rest) marker) eqn:Ep; [|done]. apply HasPrefix_spec in Ep as [body Hb]. rewrite Hb, drop_app_length.
  destruct (IndexByte body brace) as [n|] eqn:Ei; [|intros [= <-]; split; [done|]; exists body; eauto using IndexByte_None].
  apply IndexByte_Some in Ei as (t&Ht&Hn&_). cbv zeta. case_bool_decide as H0; [intros [= <-]; split; [done|]; exists (take n body), t; by rewrite <- Ht|].
  case_bool_decide as Hin; [done|]. destruct (Z.leb_spec MaxDistinctReferences (Z.of_nat (length distinct))); [|done]. intros [= <-]. unfold few in Hf.
  split; [lia|]. exists (take n body), t. by rewrite <- Ht.
Qed.

Lemma parse_loop_error fuel : forall i s segs distinct e, few distinct -> parse_loop fuel i s segs distinct = Some (Err e) ->
  exists pre t atoms, s = pre ++ t /\ reads pre atoms /\ rejects e (i + Z.of_nat (length pre)) t (first_seen distinct (refs_of atoms)).
Proof.
  induction fuel as [|fuel IH]; intros i [|c s] segs distinct e Hf; [done..|]. cbn [parse_loop]. destruct (parse_step i (c :: s) distinct) as [[[seg n] d']|e'] eqn:Hst.
  - intros Hrun. destruct (parse_step_sound i (c :: s) distinct seg n d' ltac:(done) Hf Hst) as (Hn&Hreads&->&Hf'). destruct (IH _ _ _ _ _ Hf' Hrun) as (pre&t&atoms&Hpt&Hr&Hrej).
    exists (take n (c :: s) ++ pre), t, (flat seg ++ atoms). split_and!; [by rewrite <- app_assoc, <- Hpt, take_drop|by eapply Hreads|].
    rewrite refs_of_app, first_seen_app, length_app, length_take, Nat.min_l by lia. by rewrite Nat2Z.inj_add, Z.add_assoc.
  - intros [= <-]. exists [], (c :: s), []. split_and!; [done|constructor|]. cbn. rewrite Z.add_0_r. by apply parse_step_error.
Qed.
Lemma few_nil : few [].
Proof. unfold few, MaxDistinctReferences. cbn. lia. Qed.

(** C39. The template parser implements its grammar: it always returns; it succeeds exactly
    on the templates that read, one character at a time, as plain characters, [$$] for a
    dollar sign, a lone dollar sign, and placeholders closed by the first brace whose
    reference is not blank, and that name at most 100 distinct references.  The segments
    then spell out that reading, and the distinct references are those of the reading,
    once each, in the order they first occur. *)
Theorem parse_reads_grammar tmpl :
  exists r, parse tmpl = Some r /\
    forall atoms, (exists segs, r = Ok (segs, first_seen [] (refs_of atoms)) /\ concat (map flat segs) = atoms) <->
      reads tmpl atoms /\ few (first_seen [] (refs_of atoms)).
Proof.
  destruct (parse_spec tmpl) as [[e He]|(segs&Hp&Hr&Hf)].
  - exists (Err e). split; [done|]. intros atoms. split; [by intros (?&?&_)|]. intros (Hr&Hf). destruct (parse_complete _ _ Hr Hf) as (segs&Hs&_). congruence.
  - eexists. split; [exact Hp|]. intros atoms. split; [by intros (segs'&[= <- _]&<-)|]. intros (Hr'&Hf'). destruct (parse_complete _ _ Hr' Hf') as (segs'&Hs&<-).
    exists segs'. split; [congruence|done].
Qed.

(** A rejected template is rejected at its first offending placeholder: what stands
    before it reads as a template, a reported offset is exactly its length, and there
    begins either a placeholder that no brace closes, or one whose reference is blank, or
    one that names a new reference when 100 distinct ones stand before it. *)
Theorem parse_error_located tmpl e : parse tmpl = Some (Err e) ->
  exists pre rest atoms, tmpl = pre ++ rest /\ reads pre atoms /\ rejects e (Z.of_nat (length pre)) rest (first_seen [] (refs_of atoms)).
Proof. apply (parse_loop_error _ 0 tmpl [] []), few_nil. Qed.
Lemma parse_error_located_witness : parse (go "a$$${secret:  }") = Some (Err (EEmptyRef 3)) /\
  exists pre rest atoms, go "a$$${secret:  }" = pre ++ rest /\ reads pre atoms /\ rejects (EEmptyRef 3) (Z.of_nat (length pre)) rest (first_seen [] (refs_of atoms)).
Proof. assert (parse (go "a$$${secret:  }") = Some (Err (EEmptyRef 3))) as H by (vm_compute; reflexivity). split; [exact H|]. exact (parse_error_located _ _ H). Defined.

(** * What a render does *)

Definition clean (val : bytes) : Prop := ContainsAny val line_breaks = false /\ ContainsAny val shell_chars || Contains val (go "$(") = false.
Definition rendered_size (m : gmap bytes bytes) (segs : list segment) : Z := Z.of_nat (length (concat (map (written m) segs))).

Section spec.
Context {W E : Type} (resolve : bytes -> W -> res E bytes * W) (escape : option (bytes -> bytes)).

(** A resolver that records what it was asked and what it answered. *)
Definition call : Type := bytes * res E bytes.
Definition logged (ref : bytes) (st : W * list call) : res E bytes * (W * list call) :=
  let '(r, w) := resolve ref st.1 in (r, (w, st.2 ++ [(ref, r)])).
Definition escaped (val : bytes) : bytes := match escape with Some f => f val | None => val end.
(** The bytes an atom of the template stands for, given the answers. *)
Definition spells (calls : list call) (a : atom) (piece : bytes) : Prop :=
  match a with Char c => piece = [c] | Secret ref => exists val, ((ref, Ok val) ∈ calls) /\ clean val /\ piece = escaped val end.

Definition resolve_fails (e : render_err E) (calls : list call) : Prop :=
  match e with
  | RResolve ref e => last calls = Some (ref, Err e)
  | RNewline ref => exists val, last calls = Some (ref, Ok val) /\ ContainsAny val line_breaks = true
  | RShell ref => exists val, last calls = Some (ref, Ok val) /\ ContainsAny val shell_chars || Contains val (go "$(") = true
  | RParse _ | RTooLong => False
  end.

Lemma resolve_all_spec distinct : forall resolved w log, NoDup distinct ->
  exists r w' calls, resolve_all logged escape distinct resolved (w, log) = (r, (w', log ++ calls)) /\ (calls.*1 `prefix_of` distinct) /\
    match r with
    | Ok m => calls.*1 = distinct /\ (forall ref, ref ∉ distinct -> m !! ref = resolved !! ref) /\
        forall ref, ref ∈ distinct -> exists val, ((ref, Ok val) ∈ calls) /\ clean val /\ m !! ref = Some (escaped val)
    | Err e => resolve_fails e calls
    end.
Proof.
  induction distinct as [|ref distinct IH]; intros resolved w log Hnd.
  { exists (Ok resolved), w, []. rewrite app_nil_r. split_and!; [done|done|done|done|]. intros ref Hr. by apply elem_of_nil in Hr. }
  apply NoDup_cons in Hnd as [Hni Hnd]. cbn [resolve_all]. unfold logged at 1. cbn [fst snd]. destruct (resolve ref w) as [[val|e] w1].
  2: { exists (Err (RResolve ref e)), w1, [(ref, Err e)]. split_and!; [done|apply prefix_cons, prefix_nil|done]. }
  destruct (ContainsAny val line_breaks) eqn:Eb; [exists (Err (RNewline ref)), w1, [(ref, Ok val)]; split_and!; [done|apply prefix_cons, prefix_nil|by exists val]|].
  destruct (ContainsAny val shell_chars || Contains val (go "$(")) eqn:Es; [exists (Err (RShell ref)), w1, [(ref, Ok val)]; split_and!; [done|apply prefix_cons, prefix_nil|by exists val]|].
  destruct (IH (<[ref := escaped val]> resolved) w1 (log ++ [(ref, Ok val)]) Hnd) as (r&w'&calls&Hrun&Hpre&Hr). exists r, w', ((ref, Ok val) :: calls). unfold escaped in Hrun at 1.
  rewrite Hrun, <- app_assoc. split_and!; [done|by apply prefix_cons|]. destruct r as [m|e].
  - destruct Hr as (Hc&Hout&Hin). cbn. split_and!; [by rewrite Hc| |].
    + intros ref' Hr'. apply not_elem_of_cons in Hr' as [Hne Hr']. rewrite Hout by done. by rewrite lookup_insert_ne.
    + intros ref' [->|Hr']%elem_of_cons; [exists val; rewrite Hout, lookup_insert_eq by done; split_and!; [set_solver|done|done]|].
      destruct (Hin ref' Hr') as (v&?&?&?). exists v. split_and!; [set_solver|done|done].
  - assert (calls <> []) as Hne by (destruct calls; [|done]; destruct e; cbn in Hr; try done; by destruct Hr as (?&?&_)).
    destruct calls as [|c calls]; [done|]. destruct e; exact Hr.
Qed.

Lemma write_segments_spec m segs : forall b, Z.of_nat (length b) <= MaxOutputBytes ->
  write_segments (E := E) m segs b = if MaxOutputBytes <? Z.of_nat (length b) + rendered_size m segs then Err RTooLong else Ok (b ++ concat (map (written m) segs)).
Proof.
  induction segs as [|seg segs IH]; intros b Hb; unfold rendered_size in *; cbn [write_segments map concat length].
  { rewrite app_nil_r. destruct (Z.ltb_spec MaxOutputBytes (Z.of_nat (length b) + Z.of_nat 0)); [lia|done]. }
  cbv zeta. rewrite !length_app. destruct (Z.ltb_spec MaxOutputBytes (Z.of_nat (length b + length (written m seg)))) as [Hlt|Hge].
  - destruct (Z.ltb_spec MaxOutputBytes (Z.of_nat (length b) + Z.of_nat (length (written m seg) + length (concat (map (written m) segs))))); [done|lia].
  - rewrite IH, length_app by (rewrite length_app; lia). rewrite !Nat2Z.inj_add, Z.add_assoc, <- app_assoc. done.
Qed.
End spec.

Lemma first_seen_NoDup seen l : NoDup seen -> NoDup (first_seen seen l).
Proof.
  revert seen. induction l as [|r l IH]; intros seen Hn; [done|]. cbn. apply IH. case_bool_decide; [done|]. apply NoDup_app. split_and!; [done| |apply NoDup_singleton].
  intros x Hx Hr. apply list_elem_of_singleton in Hr as ->. done.
Qed.
Lemma elem_of_first_seen seen l r : r ∈ first_seen seen l <-> r ∈ seen \/ r ∈ l.
Proof.
  revert seen. induction l as [|x l IH]; intros seen; cbn; [set_solver|]. fold (first_seen (if bool_decide (x ∈ seen) then seen else seen ++ [x]) l). rewrite IH.
  case_bool_decide; set_solver.
Qed.
Lemma elem_of_refs atoms r : r ∈ refs_of atoms <-> Secret r ∈ atoms.
Proof.
  unfold refs_of. rewrite list_elem_of_omap. split; [|intros ?; by exists (Secret r)]. intros ([|r']&Hin&[= ->]). done.
Qed.

(** The bytes the segments write are those the atoms stand for. *)
Lemma written_spells {E} (esc : option (bytes -> bytes)) (calls : list (@call E)) m segs :
  (forall ref, Secret ref ∈ concat (map flat segs) -> exists val, ((ref, Ok val) ∈ calls) /\ clean val /\ m !! ref = Some (escaped esc val)) ->
  exists pieces, Forall2 (spells esc calls) (concat (map flat segs)) pieces /\ concat (map (written m) segs) = concat pieces.
Proof.
  induction segs as [|seg segs IH]; intros H; [exists []; by split; constructor|]. cbn [map concat] in *.
  destruct IH as (pieces&Hf&Hc); [intros ref Hr; apply H, elem_of_app; by right|]. destruct seg as [l|ref]; cbn [flat written] in *.
  - exists (map (fun c => [c]) l ++ pieces). rewrite concat_app. split.
    + apply Forall2_app; [|done]. clear. induction l; cbn; constructor; done.
    + f_equal; [|done]. clear. induction l as [|c l IH]; cbn; [done|]. by rewrite <- IH.
  - destruct (H ref ltac:(set_solver)) as (val&Hin&Hcl&->). exists (escaped esc val :: pieces). split; [constructor; [by exists val|done]|]. cbn. by rewrite Hc.
Qed.

(** A render resolves each distinct reference of the template at most once, in the order
    they first occur, and never more than 100; a template that does not parse resolves
    nothing.  It either returns the whole output or an error: the output, at most 1 MiB, is
    the template with every placeholder replaced by the escaped answer of the resolver,
    whose raw value passed the guards; an error is the parser's, the resolver's answer
    to the last question, the guard the last answer failed, or the size limit, reported
    only when every reference was resolved and the complete output is over the limit. *)
Theorem render_resolves_once {W E : Type} (resolve : bytes -> W -> res E bytes * W) escape tmpl w :
  exists r w' calls, RenderWithOptions (logged resolve) escape tmpl (w, []) = Some (r, (w', calls)) /\
    NoDup calls.*1 /\ few calls.*1 /\
    match r with
    | Err (RParse e) => parse tmpl = Some (Err e) /\ calls = [] /\ w' = w
    | Err RTooLong => exists atoms pieces, reads tmpl atoms /\ calls.*1 = first_seen [] (refs_of atoms) /\
        Forall2 (spells escape calls) atoms pieces /\ MaxOutputBytes < Z.of_nat (length (concat pieces))
    | Err e => (exists atoms, reads tmpl atoms /\ (calls.*1 `prefix_of` first_seen [] (refs_of atoms))) /\ resolve_fails e calls
    | Ok out => exists atoms pieces, reads tmpl atoms /\ calls.*1 = first_seen [] (refs_of atoms) /\
        Forall2 (spells escape calls) atoms pieces /\ out = concat pieces /\ Z.of_nat (length out) <= MaxOutputBytes
    end.
Proof.
  unfold RenderWithOptions. destruct (parse_spec tmpl) as [[e He]|(segs&Hp&Hr&Hf)].
  { rewrite He. exists (Err (RParse e)), w, []. split_and!; [done|constructor|apply few_nil|done..]. }
  rewrite Hp. cbn [mbind option_bind]. set (atoms := concat (map flat segs)) in *. pose proof (first_seen_NoDup [] (refs_of atoms) (NoDup_nil_2)) as Hnd.
  destruct (resolve_all_spec resolve escape (first_seen [] (refs_of atoms)) ∅ w [] Hnd) as (r&w'&calls&Hrun&Hpre&Hres). rewrite Hrun. cbn [app].
  assert (NoDup calls.*1 /\ few calls.*1) as [Hn Hfw].
  { destruct Hpre as [t Ht]. rewrite Ht in Hnd, Hf. split; [by apply NoDup_app in Hnd as [? _]|]. unfold few in *. rewrite length_app in Hf. lia. }
  destruct r as [m|e]; [|exists (Err e), w', calls; split_and!; [done..|]; destruct e; try done; (split; [exists atoms|]; done)].
  destruct Hres as (Hc&_&Hin). destruct (written_spells escape calls m segs) as (pieces&Hpc&Hwr).
  { intros ref Href. apply Hin, elem_of_first_seen. right. by apply elem_of_refs. }
  exists (write_segments m segs []), w', calls. split_and!; [done..|]. rewrite write_segments_spec by (cbn; unfold MaxOutputBytes; lia).
  unfold rendered_size. rewrite Hwr, app_nil_l. change (Z.of_nat (length [])) with 0. rewrite Z.add_0_l. destruct (Z.ltb_spec MaxOutputBytes (Z.of_nat (length (concat pieces)))); exists atoms, pieces; by split_and!.
Qed.

(** ** What values can add to the output *)

Definition guarded (s : bytes) : bytes := List.filter (fun b => bool_decide (b ∈ line_breaks ++ shell_chars)) s.
(** The text of a template: what it says besides its references. *)
Definition text_of (atoms : list atom) : bytes := omap (fun a => match a with Char c => Some c | Secret _ => None end) atoms.

Lemma guarded_app s t : guarded (s ++ t) = guarded s ++ guarded t.
Proof. apply List.filter_app. Qed.
Lemma text_of_chars l : text_of (map Char l) = l.
Proof. induction l as [|c l IH]; [done|]. cbn. by f_equal. Qed.
Lemma ContainsAny_app s l l' : ContainsAny s l = false -> ContainsAny s l' = false -> List.filter (fun b => bool_decide (b ∈ l ++ l')) s = [].
Proof.
  induction s as [|b s IH]; [done|]. cbn. intros [H1 H2]%orb_false_iff [H3 H4]%orb_false_iff. rewrite bool_decide_false; [by apply IH|].
  apply bool_decide_eq_false in H1, H3. by intros [?|?]%elem_of_app.
Qed.
Lemma guarded_clean val : clean val -> guarded val = [].
Proof. intros [H1 [H2 _]%orb_false_iff]. by apply ContainsAny_app. Qed.

(** A value with no line break, no NUL byte, none of the shell characters, and no [$(]. *)
Definition harmless (val : bytes) : Prop :=
  (forall c, c ∈ val -> c ∉ line_breaks ++ shell_chars) /\ (forall before after, val <> before ++ go "$(" ++ after).
Lemma Contains_infix before p after : Contains (before ++ p ++ after) p = true.
Proof.
  assert (forall t, HasPrefix (p ++ t) p = true) as Hp by (intros t; induction p as [|c p IH]; [by destruct t|]; cbn; by rewrite bool_decide_true, IH).
  induction before as [|c before IH]; cbn [app]; [|cbn [Contains]; by rewrite IH, orb_true_r].
  specialize (Hp after). destruct (p ++ after) eqn:E; cbn [Contains]; by rewrite Hp.
Qed.
Lemma clean_harmless val : clean val -> harmless val.
Proof.
  intros [Hl [Hs Hc]%orb_false_iff]. split.
  - intros c Hc' Hin. pose proof (ContainsAny_app val line_breaks shell_chars Hl Hs) as Hf.
    assert (c ∈ List.filter (fun b => bool_decide (b ∈ line_breaks ++ shell_chars)) val) as H'
      by (apply list_elem_of_In, filter_In; split; [by apply list_elem_of_In|by apply bool_decide_eq_true]).
    rewrite Hf in H'. by apply elem_of_nil in H'.
  - intros before after ->. by rewrite Contains_infix in Hc.
Qed.

(** The values a render substitutes: the resolver's answers, each found clean. *)
Definition answered {W E} (resolve : bytes -> W -> res E bytes * W) (ref val : bytes) : Prop := exists w, (resolve ref w).1 = Ok val.
Lemma resolve_all_clean {W E} (resolve : bytes -> W -> res E bytes * W) distinct : forall resolved w m w',
  let good := map_Forall (fun ref val => clean val /\ answered resolve ref val) in
  resolve_all resolve None distinct resolved w = (Ok m, w') -> good resolved ->
  good m /\ forall ref, ref ∈ distinct \/ is_Some (resolved !! ref) -> is_Some (m !! ref).
Proof.
  induction distinct as [|ref distinct IH]; intros resolved w m w' good; cbn [resolve_all].
  { intros [= -> _] Hg. split; [done|]. by intros ref [?%elem_of_nil|?]. }
  destruct (resolve ref w) as [[val|e] w1] eqn:Er; [|done].
  destruct (ContainsAny val line_breaks) eqn:Eb; [done|]. destruct (ContainsAny val shell_chars || Contains val (go "$(")) eqn:Es; [done|].
  intros Hrun Hres. destruct (IH _ _ _ _ Hrun) as [Hg Hin]; [apply map_Forall_insert_2; [|done]; split; [done|]; exists w; by rewrite Er|].
  split; [done|]. intros r Hr. apply Hin. rewrite lookup_insert_is_Some'. destruct Hr as [[-> |?]%elem_of_cons|?]; tauto.
Qed.
Lemma guarded_written m segs : map_Forall (fun _ => clean) m -> guarded (concat (map (written m) segs)) = guarded (text_of (concat (map flat segs))).
Proof.
  intros Hm. induction segs as [|seg segs IH]; [done|]. cbn [map concat]. unfold text_of in *. rewrite omap_app, !guarded_app, IH. f_equal. destruct seg as [l|ref]; cbn [written flat].
  - fold (text_of (map Char l)). by rewrite text_of_chars.
  - destruct (m !! ref) as [v|] eqn:Ev; [|done]. cbn. apply guarded_clean. exact (Hm ref v Ev).
Qed.

(** The piece of the output an atom of the template becomes. *)
Definition becomes {W E} (resolve : bytes -> W -> res E bytes * W) (a : atom) (piece : bytes) : Prop :=
  match a with Char c => piece = [c] | Secret ref => answered resolve ref piece /\ harmless piece end.
Lemma written_becomes {W E} (resolve : bytes -> W -> res E bytes * W) m segs :
  map_Forall (fun ref val => clean val /\ answered resolve ref val) m -> (forall ref, Secret ref ∈ concat (map flat segs) -> is_Some (m !! ref)) ->
  exists pieces, Forall2 (becomes resolve) (concat (map flat segs)) pieces /\ concat (map (written m) segs) = concat pieces.
Proof.
  intros Hm. induction segs as [|seg segs IH]; intros H; [exists []; by split; constructor|]. cbn [map concat] in *.
  destruct IH as (pieces&Hf&Hc); [intros ref Hr; apply H, elem_of_app; by right|]. destruct seg as [l|ref]; cbn [flat written] in *.
  - exists (map (fun c => [c]) l ++ pieces). rewrite concat_app. split.
    + apply Forall2_app; [|done]. clear. induction l; cbn; constructor; done.
    + f_equal; [|done]. clear. induction l as [|c l IH]; cbn; [done|]. by rewrite <- IH.
  - destruct (H ref ltac:(set_solver)) as [val Hv]. rewrite Hv. destruct (Hm ref val Hv) as [Hcl Ha]. exists (val :: pieces).
    split; [constructor; [split; [done|by apply clean_harmless]|done]|]. cbn. by rewrite Hc.
Qed.

(** C40. What a secret's value can put into a rendered file.  The output of a successful render
    is the template's text with every reference replaced by one answer of the resolver for
    it, and every value so substituted has no newline, carriage return or NUL byte, none of
    the characters [`], [;], [|], [&], [<], [>], and no [$(].  So, of the newlines, carriage
    returns, NUL bytes and the characters [`;|&<>], the output has those of the template's
    own text, in the same order and number, whatever the resolver answered.  The [$(] guard
    is a property of each value alone: a value that ends in a dollar before a text or a
    value that begins with a parenthesis still forms one ([command_substitution_assembled]),
    and other characters that mean something to a shell (quotes, a lone dollar, braces,
    parentheses, globs, blanks) are not guarded. *)
Theorem render_substitutes_harmless {W E : Type} (resolve : bytes -> W -> res E bytes * W) tmpl w out w' :
  Render resolve tmpl w = Some (Ok out, w') ->
  exists atoms pieces, reads tmpl atoms /\ Forall2 (becomes resolve) atoms pieces /\ out = concat pieces /\ guarded out = guarded (text_of atoms).
Proof.
  unfold Render, RenderWithOptions. destruct (parse_spec tmpl) as [[e He]|(segs&Hp&Hr&_)]; [by rewrite He|]. rewrite Hp. cbn [mbind option_bind].
  destruct (resolve_all resolve None _ ∅ w) as [[m|e] w1] eqn:Hrun; [|done]. apply resolve_all_clean in Hrun as [Hm Hin]; [|apply map_Forall_empty].
  rewrite write_segments_spec by (cbn; unfold MaxOutputBytes; lia). destruct (MaxOutputBytes <? _); [done|]. intros [= <- _].
  destruct (written_becomes resolve m segs Hm) as (pieces & Hf & Hc); [intros ref Href; apply Hin; left; apply elem_of_first_seen; right; by apply elem_of_refs|].
  exists (concat (map flat segs)), pieces. split_and!; [done..|]. apply guarded_written. eapply map_Forall_impl; [exact Hm|]. by intros ? ? [? _].
Qed.
Lemma render_substitutes_harmless_witness :
  let resolve := fun (_ : bytes) (w : unit) => (Ok (go "pa ss") : res unit bytes, w) in
  Render resolve (go "A=${secret:db} # a;b") tt = Some (Ok (go "A=pa ss # a;b"), tt) /\
  exists atoms pieces, reads (go "A=${secret:db} # a;b") atoms /\ Forall2 (becomes resolve) atoms pieces /\ go "A=pa ss # a;b" = concat pieces.
Proof.
  cbv zeta. assert (Render (fun (_ : bytes) (w : unit) => (Ok (go "pa ss") : res unit bytes, w)) (go "A=${secret:db} # a;b") tt = Some (Ok (go "A=pa ss # a;b"), tt)) as H
    by (vm_compute; reflexivity).
  split; [exact H|]. destruct (render_substitutes_harmless _ _ _ _ _ H) as (atoms & pieces & H1 & H2 & H3 & _). exists atoms, pieces. by split_and!.
Defined.

(** The guard against a command substitution looks at one value at a time: two values
    that pass it can open one together. *)
Example command_substitution_assembled :
  Render (fun (ref : bytes) (w : unit) => (Ok (if bool_decide (ref = go "a") then go "x$" else go "(id)") : res unit bytes, w)) (go "K=${secret:a}${secret:b}") tt
  = Some (Ok (go "K=x$(id)"), tt).
Proof. vm_compute. reflexivity. Qed.

(** ** Printing a template *)

Inductive part := Text (t : bytes) | Sub (ref : bytes).
Definition print_char (c : Byte.byte) : bytes := if bool_decide (c = dollar) then [dollar; dollar] else [c].
Definition print_part (p : part) : bytes := match p with Text t => concat (map print_char t) | Sub ref => marker ++ ref ++ [brace] end.
Definition print (parts : list part) : bytes := concat (map print_part parts).
Definition atoms_of (p : part) : list atom := match p with Text t => map Char t | Sub ref => [Secret ref] end.
Definition subst_part (values : bytes -> bytes) (p : part) : bytes := match p with Text t => t | Sub ref => values ref end.
Definition good_part (p : part) : Prop := match p with Text _ => True | Sub ref => TrimSpace ref = ref /\ ref <> [] /\ (brace ∉ ref) end.

Lemma print_reads parts : Forall good_part parts -> reads (print parts) (concat (map atoms_of parts)).
Proof.
  induction 1 as [|p parts Hp _ IH]; [constructor|]. unfold print in *. cbn [map concat]. destruct p as [t|ref]; cbn [print_part atoms_of].
  - clear Hp. induction t as [|c t IHt]; [done|]. cbn [map concat app]. unfold print_char at 1. case_bool_decide as Hc; [subst; by apply rd_dollars|by apply rd_char].
  - destruct Hp as (Ht&Hne&Hb). rewrite <- !app_assoc. cbn [app]. rewrite <- Ht at 2. apply rd_secret; [done|by rewrite Ht|done].
Qed.
Lemma resolve_all_answered {W E} (resolve : bytes -> W -> res E bytes * W) values distinct : forall resolved w, NoDup distinct ->
  (forall ref w, ref ∈ distinct -> (resolve ref w).1 = Ok (values ref)) -> (forall ref, ref ∈ distinct -> clean (values ref)) ->
  exists m w', resolve_all resolve None distinct resolved w = (Ok m, w') /\ (forall ref, ref ∈ distinct -> m !! ref = Some (values ref)) /\
    forall ref, ref ∉ distinct -> m !! ref = resolved !! ref.
Proof.
  induction distinct as [|ref distinct IH]; intros resolved w Hnd Ha Hc; [exists resolved, w; split_and!; [done|by intros ? ?%elem_of_nil|done]|].
  apply NoDup_cons in Hnd as [Hni Hnd]. cbn [resolve_all]. pose proof (Ha ref w ltac:(set_solver)) as Hr. destruct (resolve ref w) as [r w1]. cbn in Hr. subst r.
  destruct (Hc ref ltac:(set_solver)) as [-> ->]. destruct (IH (<[ref := values ref]> resolved) w1 Hnd ltac:(set_solver) ltac:(set_solver)) as (m&w'&Hrun&Hin&Hout).
  exists m, w'. split_and!; [done| |].
  - intros ref' [->|Hr]%elem_of_cons; [by rewrite Hout, lookup_insert_eq by done|by apply Hin].
  - intros ref' [Hne Hr]%not_elem_of_cons. rewrite Hout by done. by rewrite lookup_insert_ne.
Qed.
Lemma written_values values m segs parts : (forall ref, Secret ref ∈ concat (map flat segs) -> m !! ref = Some (values ref)) ->
  concat (map flat segs) = concat (map atoms_of parts) -> concat (map (written m) segs) = concat (map (subst_part values) parts).
Proof.
  set (out := fun a : atom => match a with Char c => [c] | Secret ref => values ref end). intros Hm Heq.
  assert (forall l, concat (map out (map Char l)) = l) as Hch by (intros l; induction l; [done|]; cbn; by f_equal).
  transitivity (concat (map out (concat (map flat segs)))).
  - clear Heq. induction segs as [|seg segs IH]; [done|]. cbn [map concat] in *. rewrite map_app, concat_app, IH by (intros; apply Hm; set_solver). f_equal.
    destruct seg as [l|ref]; cbn [written flat]; [by rewrite Hch|]. rewrite Hm by set_solver. cbn. by rewrite app_nil_r.
  - rewrite Heq. clear - Hch. induction parts as [|p parts IH]; [done|]. cbn [map concat]. rewrite map_app, concat_app, IH. f_equal. destruct p; cbn [atoms_of subst_part]; [apply Hch|apply app_nil_r].
Qed.

(** Writing a template for a text with secrets and rendering it gives the text back: for
    any sequence of texts, in which every dollar sign is doubled, and placeholders, when the
    resolver answers every reference with a value that passes the guards, at most 100
    references are named and the result fits in 1 MiB, the render returns the texts with
    the values in between. *)
Theorem Render_print {W E : Type} (resolve : bytes -> W -> res E bytes * W) values parts w :
  Forall good_part parts ->
  few (first_seen [] (refs_of (concat (map atoms_of parts)))) ->
  (forall ref, Sub ref ∈ parts -> clean (values ref) /\ forall w, (resolve ref w).1 = Ok (values ref)) ->
  Z.of_nat (length (concat (map (subst_part values) parts))) <= MaxOutputBytes ->
  exists w', Render resolve (print parts) w = Some (Ok (concat (map (subst_part values) parts)), w').
Proof.
  intros Hg Hf Hv Hl. destruct (parse_complete _ _ (print_reads parts Hg) Hf) as (segs&Hp&Hsegs). unfold Render, RenderWithOptions. rewrite Hp. cbn [mbind option_bind].
  assert (forall ref, ref ∈ first_seen [] (refs_of (concat (map atoms_of parts))) -> Sub ref ∈ parts) as Hsub.
  { intros ref [Hn|Hr%elem_of_refs]%elem_of_first_seen; [by apply elem_of_nil in Hn|]. apply list_elem_of_In, in_concat in Hr as (l&Hl'&Hin). apply in_map_iff in Hl' as ([t|ref']&<-&Hpin).
    - apply in_map_iff in Hin as (?&?&_). done.
    - destruct Hin as [[= ->]|[]]. by apply list_elem_of_In. }
  destruct (resolve_all_answered resolve values (first_seen [] (refs_of (concat (map atoms_of parts)))) ∅ w) as (m&w'&Hrun&Hin&_);
    [apply first_seen_NoDup, NoDup_nil_2|intros; by apply Hv, Hsub|intros; by apply Hv, Hsub|].
  exists w'. rewrite Hrun, write_segments_spec by (cbn; unfold MaxOutputBytes; lia). rewrite app_nil_l. unfold rendered_size. rewrite (written_values values m segs parts); [|..].
  - change (Z.of_nat (length [])) with 0. destruct (Z.ltb_spec MaxOutputBytes (0 + Z.of_nat (length (concat (map (subst_part values) parts))))); [lia|done].
  - intros ref Hr. apply Hin, elem_of_first_seen. right. apply elem_of_refs. by rewrite <- Hsegs.
  - exact Hsegs.
Qed.
Lemma Render_print_witness :
  let resolve := fun (_ : bytes) (w : unit) => (Ok (go "v") : res unit bytes, w) in
  let parts := [Text (go "cost $5, pass "); Sub (go "p/db"); Text (go "$"); Sub (go "p/db")] in
  exists w', Render resolve (print parts) tt = Some (Ok (concat (map (subst_part (fun _ => go "v")) parts)), w').
Proof.
  cbv zeta. apply (Render_print (E := unit) (fun (_ : bytes) (w : unit) => (Ok (go "v") : res unit bytes, w)) (fun _ => go "v")).
  - repeat constructor; try done; try (vm_compute; reflexivity); apply (bool_decide_unpack _); vm_compute; done.
  - vm_compute. done.
  - intros ref _. split; [vm_compute; done|done].
  - vm_compute. done.
Defined.
