(* ===== verification/SecretRead.v ===== *)
(** Handing out secret values (src/internal/core/versions.go, classification_gate.go,
    secret_schedule.go, secret_render.go, the classes of secret_read_denial.go): the guards
    before a value is disclosed, the reading of one secret, and the rendering of a template,
    which resolves every reference first and charges and audits the reads afterwards.

    Here one request runs at a time, with any readings of the clocks; that the read cap holds
    between concurrent requests is SecretRow.v.  What the requests ask of other components is
    the class [Lookups]. *)
From Stdlib Require Import ZArith Lia.
From stdpp Require Import base numbers tactics sets list gmap.
From S2P Require Import Prelude GoStr SecretRow SecretTemplate.

(** * Data *)

Record node := mkNode { n_ID : Z; n_EnvironmentID : Z; n_row : row }.
Record AccessRequest := mkRequest { q_SecretID : option Z; q_UserID : Z; q_State : bytes }.
Record SecretAccessSchedule := mkSchedule { sc_AllowedDays : bytes; sc_StartHour : Z; sc_EndHour : Z; sc_Timezone : bytes }.
Record gates := mkGates { g_RequiresApproval : bool; g_RequiresPermission : bool; g_RequiresMFAStepUp : bool }.

Inductive access := AccessGranted | AccessRefused | AccessFault.
Inductive SecretReadDenialReason := Forbidden | NotFound | OutsideSchedule | Expired | Suspended | MaxReadsExhausted | ClassificationGate | MFARequired | InternalError.

(** The readings of the clocks in one run of the guards: for the expiry, for the second
    factor and for the schedule. *)
Record instants := mkInstants { i_now : Z; i_mfa : Z; i_wall : Z }.

(** What is asked of other components.  [fault] is an error of the storage; the run of the
    guards is given by its number. *)
Class Lookups := {
  fault : Type;
  IsStorageReadUnavailable : fault -> bool;
  text_reason : fault -> SecretReadDenialReason;
  AddressName : bytes -> option bytes;
  name_fault : bytes -> Z -> bool;
  ListEnvironmentsByProject : Z -> option (list (bytes * Z));
  ValidateSecretAccess : Z -> Z -> access;
  Authorize_restricted : Z -> Z -> Z -> res fault bool;
  ListAccessRequests : Z -> res fault (list AccessRequest);
  active_stepup : Z -> Z -> res fault bool;
  GetSecretAccessSchedule : Z -> res fault (option SecretAccessSchedule);
  LoadLocation : bytes -> option (Z -> Z * Z);
  GetLatestSecretVersion : Z -> option Z;
  decryptVersionValue : node -> Z -> option bytes;
  count_fault : Z -> bool;
  audit_ok : nat -> Z -> bool;
  clock : nat -> instants }.

Inductive gate := NoUser | PermissionGate | ApprovalGate | MFAGate.
Inductive read_err `{Lookups} :=
| EValidation | EPermissionDenied | ESecretNotFound | EReadFault | ESecretRefNotFound | ERefCheckFault | EInvalidRef
| ESecretExpired (clear : bool) | ESecretSuspended (clear : bool)
| EGateDenied (g : gate) | EGateUnverified (g : gate) (f : fault)
| EOutsideSchedule | EScheduleFault (f : fault)
| EVersionNotFound | EDecrypt | EMaxReadsFault | EMaxReadsExhausted | EAuditFailed.

(** [s_reads]: the audited reads (user, secret, project, name as written), in order;
    [s_denied]: the refusals handed to the aggregator of denials. *)
Record denial := mkDenial { d_reason : SecretReadDenialReason; d_target : bytes; d_subjectID : Z; d_projectID : Z }.
Record st := mkSt { s_secrets : list node; s_watermark : option Z; s_runs : nat; s_reads : list (Z * Z * Z * bytes); s_denied : list denial }.
Definition set_secrets (l : list node) (s : st) : st := mkSt l (s_watermark s) (s_runs s) (s_reads s) (s_denied s).
Definition add_read (r : Z * Z * Z * bytes) (s : st) : st := mkSt (s_secrets s) (s_watermark s) (s_runs s) (s_reads s ++ [r]) (s_denied s).
Definition add_denied (d : denial) (s : st) : st := mkSt (s_secrets s) (s_watermark s) (s_runs s) (s_reads s) (s_denied s ++ [d]).

(** * The clock *)

(** Times are nanoseconds. *)
Definition secretExpiryClockRegressionTolerance : Z := 30 * 1000000000.

Definition checkSecretExpiryClockNotRegressed `{Lookups} (now : Z) (watermark : option Z) : res read_err (option Z) :=
  match watermark with
  | None => Ok (Some now)
  | Some w => if now <? w - secretExpiryClockRegressionTolerance then Err (ESecretExpired false) else Ok (Some (if w <? now then now else w))
  end.

(** * Schedules *)

Definition comma : Byte.byte := bZ 44.
Definition every_day : bytes := go "*".
(** [strconv.Atoi] of the trimmed part; where that fails, what it returns is not a day. *)
Definition day (part : bytes) : Z := default 0 (ParseInt (TrimSpace part)).
Definition isoDay (weekday : Z) : Z := if weekday =? 0 then 7 else weekday.

Definition enforceSchedule `{Lookups} (sched : SecretAccessSchedule) (now : Z) : bool :=
  match LoadLocation (sc_Timezone sched) with
  | None => true
  | Some local =>
      let '(weekday, hour) := local now in
      (bool_decide (sc_AllowedDays sched = every_day) || existsb (fun part => day part =? isoDay weekday) (Split_sep comma (sc_AllowedDays sched)))
      && negb ((hour <? sc_StartHour sched) || (sc_EndHour sched <=? hour))
  end.

Definition checkSecretAccessScheduleWith `{Lookups} (load : res fault (option SecretAccessSchedule)) (now : Z) : res read_err () :=
  match load with
  | Err f => Err (EScheduleFault f)
  | Ok None => Ok ()
  | Ok (Some sched) => if enforceSchedule sched now then Ok () else Err EOutsideSchedule
  end.

Definition maxAllowedDaysLen : Z := 64.
Definition validateScheduleParams `{Lookups} (days : bytes) (startHour endHour : Z) (timezone : bytes) : bool :=
  (0 <=? startHour) && (startHour <=? 23) && (1 <=? endHour) && (endHour <=? 24) && (startHour <? endHour)
  && match LoadLocation timezone with Some _ => true | None => false end
  && (bool_decide (days = every_day)
      || ((Z.of_nat (length days) <=? maxAllowedDaysLen)
          && forallb (fun part => match ParseInt (TrimSpace part) with Some d => (1 <=? d) && (d <=? 7) | None => false end) (Split_sep comma days))).
(** [None]: the parameters are refused; otherwise the row that is written. *)
Definition SetSecretSchedule `{Lookups} (days : bytes) (startHour endHour : Z) (timezone : bytes) : option SecretAccessSchedule :=
  if validateScheduleParams days startHour endHour timezone then Some (mkSchedule days startHour endHour timezone) else None.

(** * Restricted secrets *)

Definition ClassificationRestricted : bytes := go "restricted".
Definition AccessRequestApproved : bytes := go "approved".

Definition hasApprovedSecretAccessRequest `{Lookups} (projectID secretID userID : Z) : res fault bool :=
  match ListAccessRequests projectID with
  | Err f => Err f
  | Ok rows => Ok (existsb (fun req => bool_decide (q_SecretID req = Some secretID) && (q_UserID req =? userID) && bool_decide (q_State req = AccessRequestApproved)) rows)
  end.
Definition gate_verdict `{Lookups} (g : gate) (r : res fault bool) : res read_err () :=
  match r with Err f => Err (EGateUnverified g f) | Ok false => Err (EGateDenied g) | Ok true => Ok () end.
Definition checkRestrictedPermissionGate `{Lookups} (n : node) (userID : Z) : res read_err () :=
  gate_verdict PermissionGate (Authorize_restricted userID (w_ProjectID (n_row n)) (n_EnvironmentID n)).
Definition checkRestrictedApprovalGate `{Lookups} (n : node) (userID : Z) : res read_err () :=
  gate_verdict ApprovalGate (hasApprovedSecretAccessRequest (w_ProjectID (n_row n)) (n_ID n) userID).
Definition checkRestrictedMFAGate `{Lookups} (now userID : Z) : res read_err () := gate_verdict MFAGate (active_stepup userID now).

Definition checkRestrictedSecretReadApproval `{Lookups} (g : gates) (now : Z) (n : node) (userID : Z) : res read_err () :=
  if negb (g_RequiresApproval g) && negb (g_RequiresPermission g) && negb (g_RequiresMFAStepUp g) then Ok ()
  else if negb (bool_decide (f_Classification (w_Fields (n_row n)) = ClassificationRestricted)) then Ok ()
  else if userID =? 0 then Err (EGateDenied NoUser)
  else res_bind (if g_RequiresPermission g then checkRestrictedPermissionGate n userID else Ok ()) (fun _ =>
       res_bind (if g_RequiresApproval g then checkRestrictedApprovalGate n userID else Ok ()) (fun _ =>
       if g_RequiresMFAStepUp g then checkRestrictedMFAGate now userID else Ok ())).

(** * The guards *)

Definition guards_after_clock `{Lookups} (g : gates) (load : res fault (option SecretAccessSchedule)) (t : instants) (n : node) (userID : Z) : res read_err () :=
  let r := n_row n in
  let suspended := bool_decide (w_Status r = SecretStatusSuspended) in
  if match f_Expiration (w_Fields r) with Some e => e <? i_now t | None => false end then Err (ESecretExpired (suspended && w_Clear r))
  else if suspended then Err (ESecretSuspended (w_Clear r))
  else res_bind (checkRestrictedSecretReadApproval g (i_mfa t) n userID) (fun _ => checkSecretAccessScheduleWith load (i_wall t)).

Definition enforceSecretReadGuardsWith `{Lookups} (g : gates) (load : res fault (option SecretAccessSchedule)) (n : node) (userID : Z) (s : st) : res read_err () * st :=
  let t := clock (s_runs s) in
  match checkSecretExpiryClockNotRegressed (i_now t) (s_watermark s) with
  | Err e => (Err e, mkSt (s_secrets s) (s_watermark s) (S (s_runs s)) (s_reads s) (s_denied s))
  | Ok w => (guards_after_clock g load t n userID, mkSt (s_secrets s) w (S (s_runs s)) (s_reads s) (s_denied s))
  end.
Definition enforceSecretReadGuards `{Lookups} (g : gates) (n : node) (userID : Z) (s : st) : res read_err () * st :=
  enforceSecretReadGuardsWith g (GetSecretAccessSchedule (n_ID n)) n userID s.

(** * Reading one value *)

Definition try_increment (id maxReads : Z) (l : list node) : option (list node) :=
  if existsb (fun n => below_cap id maxReads (n_ID n) (n_row n)) l
  then Some (map (fun n => if below_cap id maxReads (n_ID n) (n_row n) then mkNode (n_ID n) (n_EnvironmentID n) (counted maxReads (n_row n)) else n) l)
  else None.
Definition consume `{Lookups} (n : node) (s : st) : res read_err () * st :=
  match f_MaxReads (w_Fields (n_row n)) with
  | Some maxReads =>
      if 0 <? maxReads then
        if count_fault (n_ID n) then (Err EMaxReadsFault, s)
        else match try_increment (n_ID n) maxReads (s_secrets s) with
             | None => (Err EMaxReadsExhausted, s)
             | Some l => (Ok (), set_secrets l s)
             end
      else (Ok (), s)
  | None => (Ok (), s)
  end.
Definition read_value `{Lookups} (n : node) (version : Z) (s : st) : res read_err bytes * st :=
  match consume n s with
  | (Err e, s) => (Err e, s)
  | (Ok _, s) => (match decryptVersionValue n version with Some v => Ok v | None => Err EDecrypt end, s)
  end.

Definition get_node (id : Z) (s : st) : option node := List.find (fun n => at_row id (n_ID n) (n_row n)) (s_secrets s).
(** [pre]: the secret as the caller has resolved it; [state]: the schedule and the latest
    version as the permission check read them. *)
Definition getSecretValueForUser `{Lookups} (g : gates) (secretID userID : Z) (pre : option node) (state : option (option SecretAccessSchedule * option Z)) (s : st) : res read_err bytes * st :=
  if secretID =? 0 then (Err EValidation, s)
  else match (match pre with Some n => Some n | None => get_node secretID s end) with
  | None => (Err ESecretNotFound, s)
  | Some n =>
      let '(load, latest) := match state with
                             | Some (sched, v) => (Ok sched, v)
                             | None => (GetSecretAccessSchedule (n_ID n), GetLatestSecretVersion (n_ID n))
                             end in
      match enforceSecretReadGuardsWith g load n userID s with
      | (Err e, s) => (Err e, s)
      | (Ok _, s) => match latest with None => (Err EVersionNotFound, s) | Some v => read_value n v s end
      end
  end.
Definition GetSecretValueWithPermissionCheck `{Lookups} (g : gates) (secretID userID : Z) (s : st) : res read_err bytes * st :=
  if userID =? 0 then (Err EValidation, s)
  else match ValidateSecretAccess secretID userID with
       | AccessGranted => getSecretValueForUser g secretID userID None None s
       | AccessRefused => (Err EPermissionDenied, s)
       | AccessFault => (Err EReadFault, s)
       end.

(** * Rendering a template *)

Definition timingCanaryID : Z := 2 ^ 64 - 1.
Definition slash : Byte.byte := bZ 47.

Record stagedSecretRead := mkStaged { sg_secret : node; sg_version : Z; sg_name : bytes; sg_ref : bytes }.
(** What the resolver of a render keeps: the state, the staged reads, the refusal to audit,
    and whether a reference could not be resolved. *)
Record staging := mkStaging { gs_st : st; gs_staged : list stagedSecretRead; gs_refused : option denial; gs_failed : bool }.

Definition splitRenderRef (ref : bytes) : option (bytes * bytes) :=
  let ref := TrimSpace ref in
  match IndexByte ref slash with
  | None => None
  | Some i => if (i =? 0)%nat || (i =? length ref - 1)%nat then None else Some (take i ref, drop (S i) ref)
  end.
Definition renderDenialTarget (projectID : Z) (ref : bytes) : bytes := go "render:project:" ++ FormatUint projectID ++ go "/" ++ TrimSpace ref.

Definition named (name : bytes) (projectID environmentID : Z) (n : node) : bool :=
  bool_decide (f_Name (w_Fields (n_row n)) = name) && (w_ProjectID (n_row n) =? projectID) && (n_EnvironmentID n =? environmentID) && negb (w_Deleted (n_row n)).
(** [None]: the read failed. *)
Definition GetSecretByName `{Lookups} (name : bytes) (projectID environmentID : Z) (s : st) : option (option node) :=
  match AddressName name with
  | None => Some None
  | Some normalized => if name_fault normalized environmentID then None else Some (List.find (named normalized projectID environmentID) (s_secrets s))
  end.

Definition ClassifySecretReadDenial `{Lookups} (e : read_err) : SecretReadDenialReason :=
  match e with
  | EOutsideSchedule => OutsideSchedule
  | ESecretExpired _ => Expired
  | ESecretSuspended _ => Suspended
  | EMaxReadsExhausted => MaxReadsExhausted
  | ESecretRefNotFound | ERefCheckFault => NotFound
  | EGateDenied _ => ClassificationGate
  | EGateUnverified _ f => if IsStorageReadUnavailable f then InternalError else ClassificationGate
  | EScheduleFault f => if IsStorageReadUnavailable f then InternalError else text_reason f
  | EPermissionDenied => Forbidden
  | ESecretNotFound => NotFound
  | _ => InternalError
  end.

(** The work done for a reference that is not disclosed: only a run of the guards leaves
    a trace. *)
Definition equalizeReferenceResolutionCost `{Lookups} (g : gates) (userID : Z) (secret : option node) (s : st) : st :=
  match secret with None => s | Some n => (enforceSecretReadGuards g n userID s).2 end.

Section render.
Context `{Lookups} (g : gates) (projectID userID : Z).

Definition refuse (ref : bytes) (reason : SecretReadDenialReason) (secret : option node) : denial :=
  mkDenial reason (renderDenialTarget projectID ref) (from_option n_ID 0 secret) (from_option (fun n => w_ProjectID (n_row n)) 0 secret).

Definition refused_with (e : read_err) (d : denial) (s : st) (w : staging) : res read_err bytes * staging :=
  (Err e, mkStaging s (gs_staged w) (Some d) true).

Definition stageRenderRef (envByName : gmap bytes Z) (ref : bytes) (w : staging) : res read_err bytes * staging :=
  let s := gs_st w in
  match splitRenderRef ref with
  | None => (Err EInvalidRef, mkStaging s (gs_staged w) (gs_refused w) true)
  | Some (envName, secretName) =>
      match GetSecretByName secretName projectID (default timingCanaryID (envByName !! envName)) s with
      | None => refused_with EReadFault (refuse ref InternalError None) s w
      | Some None => refused_with ESecretRefNotFound (refuse ref NotFound None) (equalizeReferenceResolutionCost g userID None s) w
      | Some (Some n) =>
          match ValidateSecretAccess (n_ID n) userID with
          | AccessFault => refused_with ERefCheckFault (refuse ref InternalError (Some n)) (equalizeReferenceResolutionCost g userID (Some n) s) w
          | AccessRefused => refused_with ESecretRefNotFound (refuse ref Forbidden (Some n)) (equalizeReferenceResolutionCost g userID (Some n) s) w
          | AccessGranted =>
              match enforceSecretReadGuards g n userID s with
              | (Err e, s) => refused_with e (refuse ref (ClassifySecretReadDenial e) (Some n)) s w
              | (Ok _, s) =>
                  match GetLatestSecretVersion (n_ID n) with
                  | None => refused_with EVersionNotFound (refuse ref InternalError (Some n)) s w
                  | Some v =>
                      match decryptVersionValue n v with
                      | None => refused_with EDecrypt (refuse ref InternalError (Some n)) s w
                      | Some val => (Ok val, mkStaging s (gs_staged w ++ [mkStaged n v secretName ref]) (gs_refused w) (gs_failed w))
                      end
                  end
              end
          end
      end
  end.

Definition commitStagedSecretRead (x : stagedSecretRead) (s : st) : res read_err () * st :=
  match consume (sg_secret x) s with
  | (Err e, s) => (Err e, s)
  | (Ok _, s) =>
      if audit_ok (length (s_reads s)) (n_ID (sg_secret x))
      then (Ok (), add_read (userID, n_ID (sg_secret x), projectID, sg_name x) s)
      else (Err EAuditFailed, s)
  end.

Fixpoint commit_all (staged : list stagedSecretRead) (s : st) : res read_err () * st :=
  match staged with
  | [] => (Ok (), s)
  | x :: staged =>
      match commitStagedSecretRead x s with
      | (Ok _, s) => commit_all staged s
      | (Err e, s) =>
          (Err e, match e with EMaxReadsExhausted => add_denied (refuse (sg_ref x) MaxReadsExhausted (Some (sg_secret x))) s | _ => s end)
      end
  end.

Inductive render_failure := FValidation | FListEnvironments | FInvalidInput (e : render_err read_err) | FResolve (e : render_err read_err) | FCommit (e : read_err).

Definition envs_by_name (envs : list (bytes * Z)) : gmap bytes Z := fold_left (fun m e => <[e.1 := e.2]> m) envs ∅.

(** The outer option: the fuel of the parser. *)
Definition RenderSecretTemplate (template : bytes) (s : st) : option (res render_failure bytes * st) :=
  if projectID =? 0 then Some (Err FValidation, s)
  else if userID =? 0 then Some (Err FValidation, s)
  else match ListEnvironmentsByProject projectID with
  | None => Some (Err FListEnvironments, s)
  | Some envs =>
      r ← Render (stageRenderRef (envs_by_name envs)) template (mkStaging s [] None false);
      Some match r with
           | (Err e, w) =>
               (Err (if gs_failed w then FResolve e else FInvalidInput e), match gs_refused w with Some d => add_denied d (gs_st w) | None => gs_st w end)
           | (Ok output, w) =>
               match commit_all (gs_staged w) (gs_st w) with
               | (Err e, s) => (Err (FCommit e), s)
               | (Ok _, s) => (Ok output, s)
               end
           end
  end.
End render.

(** * Requests *)

Inductive request :=
| RValue (g : gates) (secretID userID : Z) (pre : option node) (state : option (option SecretAccessSchedule * option Z))
| RPermitted (g : gates) (secretID userID : Z)
| RTemplate (g : gates) (template : bytes) (projectID userID : Z).
Definition serve `{Lookups} (s : st) (r : request) : st :=
  match r with
  | RValue g id user pre state => (getSecretValueForUser g id user pre state s).2
  | RPermitted g id user => (GetSecretValueWithPermissionCheck g id user s).2
  | RTemplate g template project user => from_option snd s (RenderSecretTemplate g project user template s)
  end.

(** ** The tables and the clock through a request *)

(** The times the process has seen do not go back. *)
Definition not_before (w w' : option Z) : Prop := match w, w' with None, _ => True | Some _, None => False | Some a, Some b => a <= b end.
#[export] Instance not_before_preorder : PreOrder not_before.
Proof. split; [intros [a|]; cbn; lia|intros [a|] [b|] [c|]; cbn; lia]. Qed.

Record same_tables (s s' : st) : Prop := { sat_secrets : s_secrets s' = s_secrets s; sat_reads : s_reads s' = s_reads s; sat_denied : s_denied s' = s_denied s }.
#[export] Instance same_tables_preorder : PreOrder same_tables.
Proof. split; [by constructor|intros s1 s2 s3 [] []; constructor; congruence]. Qed.

Section lemmas.
Context `{L : Lookups}.
Implicit Types (s : st) (n : node) (g : gates) (w : staging).

Lemma guards_tables g load n user s : same_tables s (enforceSecretReadGuardsWith g load n user s).2.
Proof. unfold enforceSecretReadGuardsWith. by destruct (checkSecretExpiryClockNotRegressed _ _). Qed.
Lemma guards_watermark g load n user s : not_before (s_watermark s) (s_watermark (enforceSecretReadGuardsWith g load n user s).2).
Proof.
  unfold enforceSecretReadGuardsWith, checkSecretExpiryClockNotRegressed. destruct (s_watermark s) as [m|]; [|done].
  destruct (i_now (clock (s_runs s)) <? m - _); cbn; [lia|]. destruct (Z.ltb_spec m (i_now (clock (s_runs s)))); lia.
Qed.
Lemma consume_keeps n s : let s' := (consume n s).2 in s_watermark s' = s_watermark s /\ s_reads s' = s_reads s /\ s_denied s' = s_denied s.
Proof. unfold consume. destruct (f_MaxReads _) as [m|]; [|done]. destruct (0 <? m); [|done]. destruct (count_fault _); [done|]. by destruct (try_increment _ _ _). Qed.

Lemma getSecretValueForUser_watermark g id user pre state s : not_before (s_watermark s) (s_watermark (getSecretValueForUser g id user pre state s).2).
Proof.
  unfold getSecretValueForUser. destruct (id =? 0); [done|]. destruct (match pre with Some n => Some n | None => _ end) as [n|]; [|done].
  destruct (match state with Some _ => _ | None => _ end) as [load latest]. pose proof (guards_watermark g load n user s) as Hw.
  destruct (enforceSecretReadGuardsWith g load n user s) as [[[]|e] s1]; [|done]. destruct latest as [v|]; [|done]. unfold read_value.
  destruct (consume_keeps n s1) as (E&_). destruct (consume n s1) as [[[]|e] s2]; cbn in *; by rewrite E.
Qed.

(** What staging one reference does: the reference names the secret in an environment of
    the project, the user may read it, its guards let the read through at that moment, and
    its latest version decrypts. *)
Definition stages g (project user : Z) (envs : gmap bytes Z) s (x : stagedSecretRead) : Prop :=
  exists env s1, splitRenderRef (sg_ref x) = Some (env, sg_name x) /\
    GetSecretByName (sg_name x) project (default timingCanaryID (envs !! env)) s = Some (Some (sg_secret x)) /\
    ValidateSecretAccess (n_ID (sg_secret x)) user = AccessGranted /\
    same_tables s s1 /\ (enforceSecretReadGuards g (sg_secret x) user s1).1 = Ok () /\
    GetLatestSecretVersion (n_ID (sg_secret x)) = Some (sg_version x) /\
    is_Some (decryptVersionValue (sg_secret x) (sg_version x)).
(** The value of a staged reference, and the values of all of them. *)
Definition value_of (x : stagedSecretRead) : bytes := default [] (decryptVersionValue (sg_secret x) (sg_version x)).
Definition values_of (m : gmap bytes bytes) (staged : list stagedSecretRead) : gmap bytes bytes :=
  fold_left (fun m x => <[sg_ref x := value_of x]> m) staged m.

Lemma GetSecretByName_tables name project env s s' : same_tables s s' -> GetSecretByName name project env s' = GetSecretByName name project env s.
Proof. intros [E _ _]. unfold GetSecretByName. by rewrite E. Qed.
Lemma stages_tables g project user envs s s' x : same_tables s s' -> stages g project user envs s' x -> stages g project user envs s x.
Proof.
  intros Ht (env & s1 & H1 & H2 & H3 & H4 & H5). exists env, s1. rewrite <- (GetSecretByName_tables _ _ _ _ _ Ht). split_and!; [done..|by etrans|apply H5|apply H5|apply H5].
Qed.
Lemma equalize_tables g user secret s : same_tables s (equalizeReferenceResolutionCost g user secret s) /\
  not_before (s_watermark s) (s_watermark (equalizeReferenceResolutionCost g user secret s)).
Proof. destruct secret as [n|]; cbn; [|by split]. split; [apply guards_tables|apply guards_watermark]. Qed.

Lemma stageRenderRef_spec g project user envs ref w : let '(r, w') := stageRenderRef g project user envs ref w in
  same_tables (gs_st w) (gs_st w') /\ not_before (s_watermark (gs_st w)) (s_watermark (gs_st w')) /\
  match r with
  | Ok val => exists x, gs_staged w' = gs_staged w ++ [x] /\ sg_ref x = ref /\ value_of x = val /\ stages g project user envs (gs_st w) x
  | Err _ => gs_staged w' = gs_staged w
  end.
Proof.
  unfold stageRenderRef. destruct (splitRenderRef ref) as [[env name]|] eqn:Es; [|done].
  destruct (GetSecretByName name project _ (gs_st w)) as [[n|]|] eqn:En; [|by split_and!..].
  destruct (ValidateSecretAccess (n_ID n) user) eqn:Ev; [|by split_and!; [apply equalize_tables..|]|by split_and!; [apply equalize_tables..|]].
  pose proof (guards_tables g (GetSecretAccessSchedule (n_ID n)) n user (gs_st w)) as Ht.
  pose proof (guards_watermark g (GetSecretAccessSchedule (n_ID n)) n user (gs_st w)) as Hw. fold (enforceSecretReadGuards g n user (gs_st w)) in Ht, Hw.
  destruct (enforceSecretReadGuards g n user (gs_st w)) as [[[]|e] s1] eqn:Eg; [|by split_and!].
  destruct (GetLatestSecretVersion (n_ID n)) as [v|] eqn:El; [|by split_and!]. destruct (decryptVersionValue n v) as [val|] eqn:Ed; [|by split_and!].
  split_and!; [done..|]. exists (mkStaged n v name ref). unfold value_of. simpl. rewrite Ed. split_and!; try done. exists env, (gs_st w). simpl. rewrite Eg, Ed. by split_and!.
Qed.

Lemma resolve_all_staged g project user envs distinct : forall resolved w,
  let '(r, w') := resolve_all (stageRenderRef g project user envs) None distinct resolved w in
  same_tables (gs_st w) (gs_st w') /\ not_before (s_watermark (gs_st w)) (s_watermark (gs_st w')) /\
  exists new, gs_staged w' = gs_staged w ++ new /\ Forall (stages g project user envs (gs_st w)) new /\
    match r with Ok m => map sg_ref new = distinct /\ m = values_of resolved new | Err _ => True end.
Proof.
  induction distinct as [|ref distinct IH]; intros resolved w; cbn [resolve_all]; [split_and!; [done..|exists []; by rewrite app_nil_r]|].
  pose proof (stageRenderRef_spec g project user envs ref w) as Hs. destruct (stageRenderRef g project user envs ref w) as [[val|e] w1].
  2: { destruct Hs as (Ht&Hw&Hst). split_and!; [done..|]. exists []. by rewrite app_nil_r. }
  destruct Hs as (Ht&Hw&x&Hst&Href&Hval&Hx).
  destruct (ContainsAny val line_breaks); [split_and!; [done..|]; exists [x]; by split_and!; [|constructor|]|].
  destruct (ContainsAny val shell_chars || Contains val (go "$(")); [split_and!; [done..|]; exists [x]; by split_and!; [|constructor|]|].
  specialize (IH (<[ref := val]> resolved) w1). destruct (resolve_all _ None distinct _ w1) as [r w2]. destruct IH as (Ht2&Hw2&new&Hnew&Hall&Hok).
  split_and!; [by etrans|by etrans|]. exists (x :: new). split_and!; [by rewrite Hnew, Hst, <- app_assoc| |].
  - constructor; [done|]. eapply Forall_impl; [exact Hall|]. intros y. by apply stages_tables.
  - destruct r as [m|]; [|done]. destruct Hok as [Hok ->]. split; [cbn; by rewrite Href, Hok|]. cbn. by rewrite Href, Hval.
Qed.

(** ** Committing the staged reads *)

(** The read of one reference is counted, if its secret has a cap. *)
Inductive counts (x : stagedSecretRead) (l : list node) : list node -> Prop :=
| counts_capped maxReads l' : f_MaxReads (w_Fields (n_row (sg_secret x))) = Some maxReads -> 0 < maxReads -> try_increment (n_ID (sg_secret x)) maxReads l = Some l' -> counts x l l'
| counts_free : from_option (fun m => m <= 0) True (f_MaxReads (w_Fields (n_row (sg_secret x)))) -> counts x l l.
Inductive counts_all : list stagedSecretRead -> list node -> list node -> Prop :=
| ca_nil l : counts_all [] l l
| ca_cons x xs l l1 l2 : counts x l l1 -> counts_all xs l1 l2 -> counts_all (x :: xs) l l2.

Lemma consume_counts n s x : sg_secret x = n -> match consume n s with (Ok _, s') => counts x (s_secrets s) (s_secrets s') | (Err e, s') => s' = s /\ e <> EAuditFailed end.
Proof.
  intros Hx. unfold consume. destruct (f_MaxReads (w_Fields (n_row n))) as [m|] eqn:Em; [|apply counts_free; by rewrite Hx, Em].
  destruct (Z.ltb_spec 0 m) as [Hm|Hm]; [|apply counts_free; by rewrite Hx, Em]. destruct (count_fault (n_ID n)); [done|].
  destruct (try_increment (n_ID n) m (s_secrets s)) as [l|] eqn:Et; [|done]. apply (counts_capped x _ m); [by rewrite Hx|done|by rewrite Hx].
Qed.

Definition record_of (project user : Z) (x : stagedSecretRead) : Z * Z * Z * bytes := (user, n_ID (sg_secret x), project, sg_name x).

Lemma commit_all_spec project user staged : forall s, let '(r, s') := commit_all project user staged s in
  exists k m, (k <= m <= length staged)%nat /\ counts_all (take m staged) (s_secrets s) (s_secrets s') /\
    s_reads s' = s_reads s ++ map (record_of project user) (take k staged) /\
    match r with
    | Ok _ => k = length staged
    | Err e => (k < length staged)%nat /\ m = match e with EAuditFailed => S k | _ => k end
    end /\ s_watermark s' = s_watermark s.
Proof.
  induction staged as [|x staged IH]; intros s; cbn [commit_all].
  { exists 0%nat, 0%nat. cbn. rewrite app_nil_r. split_and!; [lia|lia|constructor|done..]. }
  unfold commitStagedSecretRead. pose proof (consume_counts (sg_secret x) s x eq_refl) as Hc. destruct (consume_keeps (sg_secret x) s) as (Hw&Hr&_).
  destruct (consume (sg_secret x) s) as [[[]|e] s1].
  2: { destruct Hc as [-> Hne]. exists 0%nat, 0%nat. cbn [take map length]. rewrite app_nil_r. split_and!; [lia|lia|destruct e; constructor|by destruct e|lia|by destruct e|by destruct e]. }
  cbn in Hw, Hr. destruct (audit_ok (length (s_reads s1)) (n_ID (sg_secret x))).
  - specialize (IH (add_read (record_of project user x) s1)). fold (record_of project user x). destruct (commit_all project user staged _) as [r s2].
    destruct IH as (k&m&Hkm&Hca&Hrd&Hres&Hw2). exists (S k), (S m). cbn [take map length add_read s_secrets s_reads s_watermark] in *.
    split_and!; [lia|lia|by eapply ca_cons|by rewrite Hrd, Hr, <- app_assoc| |congruence]. destruct r as [?|e]; [lia|]. destruct Hres as [? ->]. split; [lia|by destruct e].
  - exists 0%nat, 1%nat. cbn [take map length]. rewrite app_nil_r. split_and!; [lia|lia|by eapply ca_cons; [|constructor]|done|lia|done|done].
Qed.
End lemmas.

(** What a render returns and leaves behind.  Of the reads it staged, the first [m] are
    counted and the first [k] audited.  An output is the template with each reference
    replaced by the value of the secret it was resolved to, and then all of them are counted
    and audited; none is when the template is not resolved. *)
Definition render_outcome `{Lookups} g (project user : Z) (tmpl : bytes) (s : st) (r : res render_failure bytes) (s' : st) : Prop :=
  exists staged k m, (forall x, x ∈ staged -> exists envs, ListEnvironmentsByProject project = Some envs /\ stages g project user (envs_by_name envs) s x) /\
    (k <= m <= length staged)%nat /\
    counts_all (take m staged) (s_secrets s) (s_secrets s') /\ s_reads s' = s_reads s ++ map (record_of project user) (take k staged) /\
    match r with
    | Ok out => (exists segs, parse tmpl = Some (Ok (segs, map sg_ref staged)) /\ out = concat (map (written (values_of ∅ staged)) segs)) /\
                k = length staged
    | Err (FCommit e) => (exists segs, parse tmpl = Some (Ok (segs, map sg_ref staged))) /\
                         (k < length staged)%nat /\ m = match e with EAuditFailed => S k | _ => k end
    | Err _ => m = 0%nat
    end.
Definition uncommitted `{Lookups} (r : res render_failure bytes) : bool := match r with Ok _ | Err (FCommit _) => false | Err _ => true end.

Lemma uncommitted_outcome `{Lookups} g project user tmpl s r s' d : uncommitted r = true -> same_tables s s' ->
  render_outcome g project user tmpl s r (match d with Some d => add_denied d s' | None => s' end).
Proof.
  intros Hr [H1 H2 H3]. exists [], 0%nat, 0%nat. cbn. rewrite app_nil_r. split_and!; [by intros x Hx%elem_of_nil|lia|lia|destruct d; cbn; rewrite H1; constructor|by destruct d|].
  by destruct r as [?|[]].
Qed.

Lemma RenderSecretTemplate_run `{Lookups} g project user tmpl s : exists r s', RenderSecretTemplate g project user tmpl s = Some (r, s') /\
  not_before (s_watermark s) (s_watermark s') /\ render_outcome g project user tmpl s r s'.
Proof.
  assert (forall r, uncommitted r = true -> exists r' s', Some (r, s) = Some (r', s') /\ not_before (s_watermark s) (s_watermark s') /\ render_outcome g project user tmpl s r' s') as Hsame.
  { intros r Hr. exists r, s. split_and!; [done|done|]. by apply (uncommitted_outcome _ _ _ _ _ _ _ None). }
  unfold RenderSecretTemplate, Render, RenderWithOptions. destruct (project =? 0); [by apply Hsame|]. destruct (user =? 0); [by apply Hsame|].
  destruct (ListEnvironmentsByProject project) as [envs|] eqn:Ee; [|by apply Hsame].
  destruct (parse_spec tmpl) as [[e He]|(segs&Hp&_)]; [rewrite He; by apply Hsame|]. rewrite Hp. cbn [mbind option_bind].
  pose proof (resolve_all_staged g project user (envs_by_name envs) (first_seen [] (refs_of (concat (map flat segs)))) ∅ (mkStaging s [] None false)) as Hst.
  destruct (resolve_all _ None _ ∅ _) as [r w1]. destruct Hst as (Ht&Hw&new&Hnew&Hall&Hok). cbn [gs_st gs_staged app] in *.
  assert (forall e, exists r' s', Some (Err (if gs_failed w1 then FResolve e else FInvalidInput e), match gs_refused w1 with Some d => add_denied d (gs_st w1) | None => gs_st w1 end) = Some (r', s') /\
    not_before (s_watermark s) (s_watermark s') /\ render_outcome g project user tmpl s r' s') as Hfail.
  { intros e. eexists _, _. split; [reflexivity|]. split; [by destruct (gs_refused w1)|]. apply uncommitted_outcome; [by destruct (gs_failed w1)|done]. }
  destruct r as [m|e]; [|apply Hfail]. destruct Hok as [Hok ->].
  pose proof (write_segments_spec (E := read_err) (values_of ∅ new) segs [] ltac:(done)) as Hws.
  destruct (write_segments (values_of ∅ new) segs []) as [out|e]; [|apply Hfail]. rewrite Hnew.
  destruct (_ <? _) in Hws; [done|]. injection Hws as Hout. rewrite <- Hok in Hp.
  pose proof (commit_all_spec project user new (gs_st w1)) as Hc. destruct (commit_all project user new (gs_st w1)) as [r s2]. destruct Hc as (k&m0&[Hk Hm]&Hca&Hrd&Hres&Hw2).
  rewrite (sat_secrets _ _ Ht) in Hca. rewrite (sat_reads _ _ Ht) in Hrd. 
  destruct r as [[]|e]; eexists _, s2; (split; [reflexivity|]); (split; [by rewrite Hw2|]); exists new, k, m0;
    (split_and!; [intros x Hx; exists envs; split; [done|]; by apply (proj1 (Forall_forall _ _) Hall)|lia|lia|exact Hca|exact Hrd|by exists segs|..]);
    [done|apply Hres|apply Hres].
Qed.


(** ** Expired secrets *)

Lemma serve_watermark `{Lookups} s r : not_before (s_watermark s) (s_watermark (serve s r)).
Proof.
  destruct r as [g id user pre state|g id user|g tmpl project user]; cbn [serve].
  - apply getSecretValueForUser_watermark.
  - unfold GetSecretValueWithPermissionCheck. destruct (user =? 0); [done|]. destruct (ValidateSecretAccess id user); [|done..]. apply getSecretValueForUser_watermark.
  - destruct (RenderSecretTemplate_run g project user tmpl s) as (r&s'&->&?&_). done.
Qed.
Lemma serve_all_watermark `{Lookups} rs : forall s, not_before (s_watermark s) (s_watermark (fold_left serve rs s)).
Proof. induction rs as [|r rs IH]; intros s; cbn; [done|]. etrans; [apply serve_watermark|apply IH]. Qed.

Definition long_expired (s : st) (n : node) : Prop :=
  exists seen e, s_watermark s = Some seen /\ f_Expiration (w_Fields (n_row n)) = Some e /\ e + secretExpiryClockRegressionTolerance < seen.
Lemma long_expired_refused `{Lookups} g load n user s : long_expired s n -> exists c, (enforceSecretReadGuardsWith g load n user s).1 = Err (ESecretExpired c).
Proof.
  intros (seen&e&Hs&He&Hlt). unfold enforceSecretReadGuardsWith, checkSecretExpiryClockNotRegressed. rewrite Hs.
  destruct (Z.ltb_spec (i_now (clock (s_runs s))) (seen - secretExpiryClockRegressionTolerance)); [by exists false|]. cbn [fst]. unfold guards_after_clock. rewrite He.
  destruct (Z.ltb_spec e (i_now (clock (s_runs s)))); [by eexists|lia].
Qed.
Lemma long_expired_later `{Lookups} rs s n : long_expired s n -> long_expired (fold_left serve rs s) n.
Proof.
  intros (seen&e&Hs&He&Hlt). pose proof (serve_all_watermark rs s) as Hw. rewrite Hs in Hw. destruct (s_watermark (fold_left serve rs s)) as [seen'|] eqn:E; [|done].
  exists seen', e. split_and!; [done|done|]. cbn in Hw. lia.
Qed.

(** C17. A secret that has expired stays closed, wherever the clock is set: once the process
    has seen a time more than 30 seconds after the expiration, then after any further
    requests, each reading the clock as it pleases, even far in the past, neither a value
    read, whatever the gates and schedule say and whether or not the secret was resolved
    before, nor a reference of a template discloses its value. *)
Theorem expired_stays_closed `{Lookups} rs s n : long_expired s n -> let s' := fold_left serve rs s in
  (forall g id user pre state v, pre = Some n \/ (pre = None /\ get_node id s' = Some n) -> (getSecretValueForUser g id user pre state s').1 <> Ok v) /\
  (forall g project user envs ref w env name v, gs_st w = s' -> splitRenderRef ref = Some (env, name) ->
    GetSecretByName name project (default timingCanaryID (envs !! env)) s' = Some (Some n) -> (stageRenderRef g project user envs ref w).1 <> Ok v).
Proof.
  intros Hx%(long_expired_later rs). cbv zeta. split.
  - intros g id user pre state v Hpre. unfold getSecretValueForUser. destruct (id =? 0); [done|].
    replace (match pre with Some n => Some n | None => get_node id (fold_left serve rs s) end) with (Some n) by (by destruct Hpre as [-> | [-> ->]]).
    destruct (match state with Some _ => _ | None => _ end) as [load latest]. destruct (long_expired_refused g load n user _ Hx) as [c Hc].
    by destruct (enforceSecretReadGuardsWith g load n user _) as [[?|?] ?]; cbn in Hc; [|].
  - intros g project user envs ref w env name v Hw Hsp Hn. unfold stageRenderRef. rewrite Hsp, Hw, Hn. destruct (ValidateSecretAccess (n_ID n) user); [|done..].
    unfold enforceSecretReadGuards. destruct (long_expired_refused g (GetSecretAccessSchedule (n_ID n)) n user _ Hx) as [c Hc].
    by destruct (enforceSecretReadGuardsWith g _ n user _) as [[?|?] ?]; cbn in Hc; [|].
Qed.

(** ** What a user learns from a render *)

Definition visible `{Lookups} (user : Z) (n : node) : bool := match ValidateSecretAccess (n_ID n) user with AccessRefused => false | _ => true end.
(** Two states that agree on the secrets the user is not refused. *)
Record same_view `{Lookups} (user : Z) (s s' : st) : Prop := {
  sv_secrets : List.filter (visible user) (s_secrets s) = List.filter (visible user) (s_secrets s');
  sv_watermark : s_watermark s = s_watermark s'; sv_runs : s_runs s = s_runs s'; sv_reads : length (s_reads s) = length (s_reads s') }.
#[export] Instance same_view_equivalence `{Lookups} user : Equivalence (same_view user).
Proof. split; [by constructor|intros s s' []; by constructor|intros s1 s2 s3 [] []; constructor; congruence]. Qed.
(** The index on the live secrets of an environment. *)
Definition unique_names (s : st) : Prop := forall name project env n n', n ∈ s_secrets s -> n' ∈ s_secrets s -> named name project env n -> named name project env n' -> n = n'.

Lemma find_filter_unique {A} (P Q : A -> bool) l : (forall x y, x ∈ l -> y ∈ l -> P x -> P y -> x = y) ->
  List.find P (List.filter Q l) = match List.find P l with Some x => if Q x then Some x else None | None => None end.
Proof.
  induction l as [|x l IH]; intros Hu; [done|]. cbn. specialize (IH ltac:(intros; apply Hu; set_solver)).
  destruct (P x) eqn:Px; destruct (Q x) eqn:Qx; cbn; rewrite ?Px; try done. rewrite IH. destruct (List.find P l) as [y|] eqn:Ef; [|done].
  apply find_some in Ef as [Hin%list_elem_of_In Py]. rewrite <- (Hu x y) by (by (set_solver || apply Is_true_true)). by rewrite Qx.
Qed.

Section view.
Context `{L : Lookups} (user : Z).
Implicit Types (s : st) (n : node) (g : gates) (w : staging).

Definition seen_by (o : option node) : option node := match o with Some n => if visible user n then Some n else None | None => None end.
Record agree (w1 w2 : staging) : Prop := {
  ag_view : same_view user (gs_st w1) (gs_st w2); ag_staged : gs_staged w1 = gs_staged w2; ag_failed : gs_failed w1 = gs_failed w2;
  ag_unique1 : unique_names (gs_st w1); ag_unique2 : unique_names (gs_st w2) }.

Lemma unique_tables s s' : same_tables s s' -> unique_names s -> unique_names s'.
Proof. intros [E _ _] Hu ?????. rewrite E. apply Hu. Qed.
Lemma GetSecretByName_agree name project env s1 s2 : same_view user s1 s2 -> unique_names s1 -> unique_names s2 ->
  seen_by <$> GetSecretByName name project env s1 = seen_by <$> GetSecretByName name project env s2.
Proof.
  intros Hv H1 H2. unfold GetSecretByName. destruct (AddressName name) as [nm|]; [|done]. destruct (name_fault nm env); [done|]. cbn [fmap option_fmap option_map]. f_equal.
  pose proof (find_filter_unique (named nm project env) (visible user) (s_secrets s1) ltac:(intros; by eapply H1)) as E1.
  pose proof (find_filter_unique (named nm project env) (visible user) (s_secrets s2) ltac:(intros; by eapply H2)) as E2.
  rewrite (sv_secrets _ _ _ Hv), E2 in E1. by symmetry.
Qed.
Lemma guards_agree g load n s1 s2 : same_view user s1 s2 ->
  (enforceSecretReadGuardsWith g load n user s1).1 = (enforceSecretReadGuardsWith g load n user s2).1 /\
  same_view user (enforceSecretReadGuardsWith g load n user s1).2 (enforceSecretReadGuardsWith g load n user s2).2.
Proof. intros [H1 H2 H3 H4]. unfold enforceSecretReadGuardsWith. rewrite H2, H3. destruct (checkSecretExpiryClockNotRegressed _ _); split; try done; by constructor. Qed.

Lemma stageRenderRef_agree g project envs ref w1 w2 : agree w1 w2 ->
  let '(r1, w1') := stageRenderRef g project user envs ref w1 in let '(r2, w2') := stageRenderRef g project user envs ref w2 in
  r1 = r2 /\ gs_failed w1' = gs_failed w2' /\ (res_ok r1 = true -> agree w1' w2').
Proof.
  intros [Hv Hs Hf H1 H2]. unfold stageRenderRef. destruct (splitRenderRef ref) as [[env name]|]; [|done].
  pose proof (GetSecretByName_agree name project (default timingCanaryID (envs !! env)) _ _ Hv H1 H2) as Hn.
  destruct (GetSecretByName name project _ (gs_st w1)) as [o1|], (GetSecretByName name project _ (gs_st w2)) as [o2|]; try done. cbn in Hn. injection Hn as Hn.
  destruct o1 as [n1|], o2 as [n2|]; cbn [seen_by] in Hn; unfold visible in Hn; try done.
  - destruct (ValidateSecretAccess (n_ID n1) user) eqn:E1, (ValidateSecretAccess (n_ID n2) user) eqn:E2; try done; injection Hn as <-; try congruence.
    unfold enforceSecretReadGuards. destruct (guards_agree g (GetSecretAccessSchedule (n_ID n1)) n1 _ _ Hv) as [Er Ev].
    pose proof (guards_tables g (GetSecretAccessSchedule (n_ID n1)) n1 user (gs_st w1)) as T1. pose proof (guards_tables g (GetSecretAccessSchedule (n_ID n1)) n1 user (gs_st w2)) as T2.
    destruct (enforceSecretReadGuardsWith g _ n1 user (gs_st w1)) as [r1 s1], (enforceSecretReadGuardsWith g _ n1 user (gs_st w2)) as [r2 s2]. cbn in Er, Ev, T1, T2. subst r2.
    destruct r1 as [[]|e]; [|done]. destruct (GetLatestSecretVersion (n_ID n1)) as [v|]; [|done]. destruct (decryptVersionValue n1 v) as [val|]; [|done].
    split_and!; [done|done|]. intros _. constructor; cbn; [done|by rewrite Hs|done|by eapply unique_tables|by eapply unique_tables].
  - destruct (ValidateSecretAccess (n_ID n1) user); done.
  - destruct (ValidateSecretAccess (n_ID n2) user); done.
Qed.

Lemma resolve_all_agree g project envs distinct : forall resolved w1 w2, agree w1 w2 ->
  let '(r1, w1') := resolve_all (stageRenderRef g project user envs) None distinct resolved w1 in
  let '(r2, w2') := resolve_all (stageRenderRef g project user envs) None distinct resolved w2 in
  r1 = r2 /\ gs_failed w1' = gs_failed w2' /\ (res_ok r1 = true -> agree w1' w2').
Proof.
  induction distinct as [|ref distinct IH]; intros resolved w1 w2 Ha; cbn [resolve_all]; [by split_and!; [|apply Ha|]|].
  pose proof (stageRenderRef_agree g project envs ref w1 w2 Ha) as Hst. destruct (stageRenderRef g project user envs ref w1) as [r1 w1'], (stageRenderRef g project user envs ref w2) as [r2 w2'].
  destruct Hst as (<-&Hf&Hok). destruct r1 as [val|e]; [|by split_and!]. destruct (ContainsAny val line_breaks); [by split_and!|].
  destruct (ContainsAny val shell_chars || Contains val (go "$(")); [by split_and!|]. by apply IH, Hok.
Qed.

(** The commit looks at no other secret than those that were staged. *)
Lemma try_increment_agree id maxReads l1 l2 : ValidateSecretAccess id user = AccessGranted -> List.filter (visible user) l1 = List.filter (visible user) l2 ->
  List.filter (visible user) <$> try_increment id maxReads l1 = List.filter (visible user) <$> try_increment id maxReads l2.
Proof.
  intros Hv Hl. set (P := fun n => below_cap id maxReads (n_ID n) (n_row n)).
  assert (forall n, P n = true -> visible user n = true) as HP.
  { intros n. unfold P, below_cap, at_row. rewrite !andb_true_iff. intros [[Hid%Z.eqb_eq _] _]. unfold visible. by rewrite Hid, Hv. }
  assert (forall l, existsb P l = existsb P (List.filter (visible user) l)) as Hex.
  { induction l as [|n l IH]; [done|]. cbn. rewrite IH. destruct (visible user n) eqn:En; [done|]. destruct (P n) eqn:Pn; [|done]. rewrite (HP n Pn) in En. done. }
  set (f := fun n => if P n then mkNode (n_ID n) (n_EnvironmentID n) (counted maxReads (n_row n)) else n).
  assert (forall l, List.filter (visible user) (map f l) = map f (List.filter (visible user) l)) as Hm.
  { induction l as [|n l IH]; [done|]. cbn. replace (visible user (f n)) with (visible user n) by (unfold f; by destruct (P n)). destruct (visible user n); cbn; by rewrite IH. }
  unfold try_increment. fold P. fold f. rewrite (Hex l1), (Hex l2), Hl. destruct (existsb P _); [|done]. cbn. by rewrite !Hm, Hl.
Qed.
Lemma consume_agree n s1 s2 : ValidateSecretAccess (n_ID n) user = AccessGranted -> same_view user s1 s2 ->
  (consume n s1).1 = (consume n s2).1 /\ same_view user (consume n s1).2 (consume n s2).2.
Proof.
  intros Hv Hs. unfold consume. destruct (f_MaxReads _) as [m|]; [|done]. destruct (0 <? m); [|done]. destruct (count_fault (n_ID n)); [done|].
  pose proof (try_increment_agree (n_ID n) m _ _ Hv (sv_secrets _ _ _ Hs)) as Ht. destruct (try_increment _ _ (s_secrets s1)), (try_increment _ _ (s_secrets s2)); try done.
  injection Ht as Ht. split; [done|]. destruct Hs. by constructor.
Qed.
Lemma commit_all_agree project staged : forall s1 s2, Forall (fun x => ValidateSecretAccess (n_ID (sg_secret x)) user = AccessGranted) staged -> same_view user s1 s2 ->
  (commit_all project user staged s1).1 = (commit_all project user staged s2).1.
Proof.
  induction staged as [|x staged IH]; intros s1 s2 Hall Hs; [done|]. inversion Hall as [|?? Hx Hall']; subst. cbn [commit_all]. unfold commitStagedSecretRead.
  destruct (consume_agree (sg_secret x) s1 s2 Hx Hs) as [Er Ev]. destruct (consume (sg_secret x) s1) as [r1 t1], (consume (sg_secret x) s2) as [r2 t2]. cbn in Er, Ev. subst r2.
  destruct r1 as [[]|e]; [|done]. rewrite (sv_reads _ _ _ Ev). destruct (audit_ok _ _); [|done]. apply IH; [done|].
  destruct Ev. constructor; cbn; [done..|]. rewrite !length_app. cbn. lia.
Qed.

(** C18. A render tells a user nothing about secrets the user is refused: in two states that
    agree on the other secrets, and may differ in which of the refused ones exist, what
    they are called and what they hold, the same template gives the same output or the
    same error, and the references that are unknown and the ones that are forbidden are
    answered alike. *)
Theorem render_hides_forbidden g project tmpl s1 s2 : unique_names s1 -> unique_names s2 -> same_view user s1 s2 ->
  fst <$> RenderSecretTemplate g project user tmpl s1 = fst <$> RenderSecretTemplate g project user tmpl s2.
Proof.
  intros H1 H2 Hv. unfold RenderSecretTemplate, Render, RenderWithOptions. destruct (project =? 0); [done|]. destruct (user =? 0); [done|].
  destruct (ListEnvironmentsByProject project) as [envs|]; [|done]. destruct (parse tmpl) as [[[segs distinct]|e]|]; [|done..]. cbn [mbind option_bind].
  pose proof (resolve_all_agree g project (envs_by_name envs) distinct ∅ (mkStaging s1 [] None false) (mkStaging s2 [] None false) ltac:(by constructor)) as Ha.
  pose proof (resolve_all_staged g project user (envs_by_name envs) distinct ∅ (mkStaging s1 [] None false)) as Hst.
  destruct (resolve_all _ None distinct ∅ (mkStaging s1 _ _ _)) as [r1 w1], (resolve_all _ None distinct ∅ (mkStaging s2 _ _ _)) as [r2 w2].
  destruct Ha as (<-&Hf&Hok), Hst as (_&_&new&Hnew&Hall&_). destruct r1 as [m|e]; [|cbn; by rewrite Hf]. destruct (write_segments m segs []) as [out|e]; [|cbn; by rewrite Hf].
  destruct (Hok eq_refl) as [Hv' Hst' _ _ _]. rewrite <- Hst'. cbn in Hnew.
  assert (Forall (fun x => ValidateSecretAccess (n_ID (sg_secret x)) user = AccessGranted) (gs_staged w1)) as Hacc by (rewrite Hnew; eapply Forall_impl; [exact Hall|]; by intros x (? & ? & _ & _ & ? & _)).
  pose proof (commit_all_agree project (gs_staged w1) (gs_st w1) (gs_st w2) Hacc Hv') as Hc.
  destruct (commit_all project user (gs_staged w1) (gs_st w1)) as [[[]|e1] t1], (commit_all project user (gs_staged w1) (gs_st w2)) as [[[]|e2] t2]; cbn in Hc |- *; congruence.
Qed.
End view.

(** ** Access windows *)

(** The days a schedule names. *)
Definition days_of (days : bytes) : list Z := if bool_decide (days = every_day) then [1; 2; 3; 4; 5; 6; 7] else map day (Split_sep comma days).

(** A schedule that can be stored means what it says: its days are a non-empty list of
    ISO week days, its hours are a non-empty part of the day, and, in its time zone, where
    a time has a week day from 0 to 6, a read passes exactly when its day is listed and its
    hour is in the window. *)
Theorem schedule_window_exact `{Lookups} days startHour endHour tz sched : SetSecretSchedule days startHour endHour tz = Some sched ->
  days_of days <> [] /\ Forall (fun d => 1 <= d <= 7) (days_of days) /\ 0 <= startHour < endHour /\ endHour <= 24 /\
  exists local, LoadLocation tz = Some local /\
    forall now, 0 <= (local now).1 <= 6 -> (enforceSchedule sched now = true <-> (isoDay (local now).1 ∈ days_of days) /\ startHour <= (local now).2 < endHour).
Proof.
  unfold SetSecretSchedule. destruct (validateScheduleParams days startHour endHour tz) eqn:Ev; [|done]. intros [= <-]. unfold validateScheduleParams in Ev.
  rewrite !andb_true_iff, !Z.leb_le, Z.ltb_lt in Ev. destruct Ev as [[[[[[H1 H2] H3] H4] H5] Hloc] Hdays].
  destruct (LoadLocation tz) as [local|] eqn:El; [|done]. split_and!; [..|exists local; split; [done|]]; [| |lia|lia|lia|].
  - unfold days_of. case_bool_decide; [done|]. intros Hn%map_eq_nil. by apply (Split_sep_nonempty comma days).
  - unfold days_of. case_bool_decide as Hd; [repeat constructor; lia|]. cbn [orb] in Hdays. apply andb_true_iff in Hdays as [_ Hf]. apply Forall_map, Forall_forall. intros part Hp.
    rewrite forallb_forall in Hf. specialize (Hf part ltac:(by apply list_elem_of_In)). cbn. unfold day. destruct (ParseInt (TrimSpace part)) as [d|]; [|done]. cbn. lia.
  - intros now Hw. unfold enforceSchedule. cbn [sc_Timezone sc_AllowedDays sc_StartHour sc_EndHour]. rewrite El. destruct (local now) as [weekday hour]. cbn [fst snd] in *.
    rewrite andb_true_iff, negb_true_iff, orb_false_iff, Z.ltb_ge, Z.leb_gt. apply and_iff_compat_r. unfold days_of. case_bool_decide as Hd; cbn [orb].
    + unfold isoDay. split; [|done]. intros _. destruct (Z.eqb_spec weekday 0); [set_solver|].
      assert (weekday = 1 \/ weekday = 2 \/ weekday = 3 \/ weekday = 4 \/ weekday = 5 \/ weekday = 6) as Hc by lia. destruct Hc as [-> |[-> |[-> |[-> |[-> | ->]]]]]; set_solver.
    + rewrite existsb_exists, list_elem_of_In, in_map_iff. split; intros (part&Ha&Hb); exists part; [apply Z.eqb_eq in Hb|rewrite Z.eqb_eq]; done.
Qed.

(** * Runs *)

Definition ex_fields_of (name : bytes) (expiration cap : option Z) : fields := mkFields name [] [] [] 7 [] 0 None expiration cap None.
Definition ex_node (id : Z) (name : bytes) (expiration cap : option Z) (used : Z) : node :=
  mkNode id 10 (mkRow 1 (ex_fields_of name expiration cap) SecretStatusActive false used (mkSpec false 0 [] [] []) false []).
#[local] Instance ex_lookups : Lookups := {|
  fault := unit; IsStorageReadUnavailable := fun _ => true; text_reason := fun _ => InternalError; AddressName := Some; name_fault := fun _ _ => false;
  ListEnvironmentsByProject := fun _ => Some [(go "prod", 10)]; ValidateSecretAccess := fun id _ => if id =? 3 then AccessRefused else AccessGranted;
  Authorize_restricted := fun _ _ _ => Ok true; ListAccessRequests := fun _ => Ok []; active_stepup := fun _ _ => Ok false;
  GetSecretAccessSchedule := fun _ => Ok None; LoadLocation := fun tz => if bool_decide (tz = go "UTC") then Some (fun now => ((now / 24 + 4) mod 7, now mod 24)) else None;
  GetLatestSecretVersion := Some; decryptVersionValue := fun _ _ => Some (go "v"); count_fault := fun _ => false; audit_ok := fun _ _ => true;
  clock := fun k => mkInstants (nth k [100 * 1000000000; 80 * 1000000000] (20 * 1000000000)) 0 0 |}.
Definition ex_gates : gates := mkGates false false false.
Definition ex_st (l : list node) : st := mkSt l None 0 [] [].

(** The second reference has no reads left: nothing is returned, and the first one stays
    counted and audited. *)
Example render_half_charged :
  RenderSecretTemplate ex_gates 1 7 (go "${secret:prod/a}${secret:prod/b}") (ex_st [ex_node 1 (go "a") None (Some 5) 0; ex_node 2 (go "b") None (Some 1) 1]) =
  Some (Err (FCommit EMaxReadsExhausted),
    mkSt [mkNode 1 10 (counted 5 (n_row (ex_node 1 (go "a") None (Some 5) 0))); ex_node 2 (go "b") None (Some 1) 1] (Some 100000000000) 2 [(7, 1, 1, go "a")]
      [mkDenial MaxReadsExhausted (go "render:project:1/prod/b") 2 1]).
Proof. vm_compute. reflexivity. Qed.

Lemma expired_stays_closed_witness :
  let s := fold_left serve [RValue ex_gates 4 7 None None] (ex_st [ex_node 1 (go "a") (Some (50 * 1000000000)) None 0; ex_node 4 (go "d") None None 0]) in
  let s' := fold_left serve [RPermitted ex_gates 1 7] s in
  long_expired s (ex_node 1 (go "a") (Some (50 * 1000000000)) None 0) /\ (getSecretValueForUser ex_gates 1 7 None None s').1 <> Ok (go "v").
Proof.
  cbv zeta. match goal with |- ?A /\ _ => assert A as Hx by (exists (100 * 1000000000), (50 * 1000000000); vm_compute; done) end. split; [exact Hx|].
  apply (expired_stays_closed [RPermitted ex_gates 1 7] _ _ Hx). right. split; [done|]. vm_compute. reflexivity.
Defined.
Lemma render_hides_forbidden_witness :
  let s1 := ex_st [ex_node 1 (go "a") None None 0; ex_node 3 (go "c") None None 0] in let s2 := ex_st [ex_node 1 (go "a") None None 0] in
  same_view 7 s1 s2 /\ fst <$> RenderSecretTemplate ex_gates 1 7 (go "${secret:prod/a}${secret:prod/c}") s1 = fst <$> RenderSecretTemplate ex_gates 1 7 (go "${secret:prod/a}${secret:prod/c}") s2.
Proof.
  cbv zeta. match goal with |- ?A /\ _ => assert A as Hv by (constructor; vm_compute; reflexivity) end. split; [exact Hv|]. apply (render_hides_forbidden 7); [| |exact Hv].
  - intros name project env n n' Hn Hn'. cbn [s_secrets ex_st] in *. rewrite !elem_of_cons, elem_of_nil in Hn, Hn'. unfold named.
    destruct Hn as [-> |[-> |[]]], Hn' as [-> |[-> |[]]]; try done; cbn; repeat case_bool_decide; cbn; try done; subst; done.
  - intros name project env n n' Hn Hn' _ _. cbn [s_secrets ex_st] in *. set_solver.
Defined.
Lemma schedule_window_exact_witness : exists sched, SetSecretSchedule (go "1,5") 9 17 (go "UTC") = Some sched /\ days_of (go "1,5") = [1; 5] /\ Forall (fun d => 1 <= d <= 7) (days_of (go "1,5")).
Proof.
  exists (mkSchedule (go "1,5") 9 17 (go "UTC")). assert (SetSecretSchedule (go "1,5") 9 17 (go "UTC") = Some (mkSchedule (go "1,5") 9 17 (go "UTC"))) as Hs by (vm_compute; reflexivity).
  split; [exact Hs|]. split; [vm_compute; reflexivity|]. destruct (schedule_window_exact _ _ _ _ _ Hs) as (_&Hf&_). exact Hf.
Defined.
