(* ===== verification/AdminGuard.v ===== *)
(** The guards that keep an administrator on the install (src/internal/core/last_admin_fence.go,
    scim.go guardLastAdminDeactivation, authz.go resolveGlobalAdminHolders and the group guards,
    src/internal/storage/store/local_rbac.go RemoveGlobalAdminRoleGuarded) and the operations
    they stand in front of: suspending, deactivating and deleting a user, removing a role from
    a user or a group, removing a member, deleting a group.

    The operations run in the transaction system of TxDB.v over the rows the guards look at:
    users, groups, the global grants of roles, and the memberships that count everywhere.
    The named lock of the guards is a row of its own, which is only ever locked: like the lock,
    it is held by one request at a time until its transaction ends.  Losing the lock while the
    request goes on (a PostgreSQL advisory lock goes with its connection; last_admin_fence.go
    counts on the fence then) is not modelled.  [bypass] are the roles
    that carry the administrator flag; which ones do is fixed when the install is seeded. *)
From Stdlib Require Import ZArith Lia.
From stdpp Require Import base numbers tactics sets list gmap.
From S2P Require Import TxDB Prelude GoStr.

(** * Rows *)

Inductive key := KNamed | KUser (id : Z) | KGroup (id : Z) | KUserRole (user role : Z) | KGroupRole (group role : Z) | KUserGroup (user group : Z).
#[export] Instance key_eq_decision : EqDecision key.
Proof. solve_decision. Defined.
Definition encode_key (k : key) : Z * Z * Z :=
  match k with KNamed => (0, 0, 0) | KUser u => (1, u, 0) | KGroup g => (2, g, 0) | KUserRole u r => (3, u, r) | KGroupRole g r => (4, g, r) | KUserGroup u g => (5, u, g) end.
Definition decode_key (c : Z * Z * Z) : option key :=
  let '(tag, a, b) := c in
  if tag =? 0 then Some KNamed else if tag =? 1 then Some (KUser a) else if tag =? 2 then Some (KGroup a)
  else if tag =? 3 then Some (KUserRole a b) else if tag =? 4 then Some (KGroupRole a b) else if tag =? 5 then Some (KUserGroup a b) else None.
#[export] Instance key_countable : Countable key.
Proof. apply (inj_countable encode_key decode_key). by intros []. Defined.

(** A soft-deleted user or group keeps its grants and memberships. *)
Inductive row := RNamed | RUser (IsActive : bool) (AccountState : bytes) (deleted : bool) | RGroup (deleted : bool) | RGrant (ExpiresAt : option Z) | RMember.

Inductive admin_err := ErrNoLock | ErrLastAdmin | ErrUserNotFound | ErrGroupNotFound | ErrRoleNotAssigned | ErrRoleAlreadyAssigned | ErrActiveStateConflict | ErrAccountStateConflict | ErrDirectionChanged.
Abbreviation prog := (@TxDB.prog key row admin_err _ _).
Abbreviation table := (gmap key row).

Definition AccountActive : bytes := go "active".
Definition AccountPendingFirstLogin : bytes := go "pending_first_login".
Definition AccountPasswordResetRequired : bytes := go "password_reset_required".
Definition AccountSuspended : bytes := go "suspended".
Definition AccountDeprovisioned : bytes := go "deprovisioned".
Definition AccountLoginBlocked (state : bytes) : bool :=
  let s := TrimSpace state in negb (bool_decide (s = AccountActive) || bool_decide (s = AccountPendingFirstLogin) || bool_decide (s = AccountPasswordResetRequired)).
Definition globalAdminLiveAccountStates : list bytes := [AccountActive; AccountPendingFirstLogin; AccountPasswordResetRequired].

Definition live_grant (now : Z) (e : option Z) : bool := match e with None => true | Some t => now <? t end.

(** * Statements *)

(** A statement that joins tables: a function of what is committed when it begins. *)
Definition Query {A : Type} (f : table -> A) (k : A -> prog) : prog := Select (fun _ _ => true) (fun rows => k (f (list_to_map rows))).

Definition group_live (T : table) (g : Z) : bool := match T !! KGroup g with Some (RGroup false) => true | _ => false end.
Definition is_member (T : table) (u g : Z) : bool := match T !! KUserGroup u g with Some RMember => true | _ => false end.
Definition user_row (T : table) (u : Z) : option (bool * bytes) := match T !! KUser u with Some (RUser active state false) => Some (active, state) | _ => None end.

Definition direct_role (now u : Z) (kr : key * row) : option Z :=
  match kr with (KUserRole u' r, RGrant e) => if (u' =? u) && live_grant now e then Some r else None | _ => None end.
Definition GetUserRoleIDsAt (now u : Z) (T : table) : list Z := omap (direct_role now u) (map_to_list T).
Definition group_role (now u : Z) (T : table) (kr : key * row) : option Z :=
  match kr with (KGroupRole g r, RGrant e) => if is_member T u g && group_live T g && live_grant now e then Some r else None | _ => None end.
Definition GetUserGroupRoleIDsAt (now u : Z) (T : table) : list Z := omap (group_role now u T) (map_to_list T).

Inductive assignment := AUser (user role : Z) | AGroup (group role : Z).
Definition a_role (a : assignment) : Z := match a with AUser _ r | AGroup _ r => r end.
Definition user_assignment (now : Z) (kr : key * row) : option assignment :=
  match kr with (KUserRole u r, RGrant e) => if live_grant now e then Some (AUser u r) else None | _ => None end.
Definition group_assignment (now : Z) (T : table) (kr : key * row) : option assignment :=
  match kr with (KGroupRole g r, RGrant e) => if group_live T g && live_grant now e then Some (AGroup g r) else None | _ => None end.
Definition ListProjectRoleAssignments (now : Z) (k : list assignment -> prog) : prog :=
  Query (fun T => omap (user_assignment now) (map_to_list T)) (fun users =>
  Query (fun T => omap (group_assignment now T) (map_to_list T)) (fun groups => k (users ++ groups))).

Definition member_of (g : Z) (T : table) (kr : key * row) : option Z :=
  match kr with (KUserGroup u g', RMember) => if (g' =? g) && bool_decide (is_Some (user_row T u)) then Some u else None | _ => None end.
Definition ListGroupMembersAt (g : Z) (k : list Z -> prog) : prog := Query (fun T => omap (member_of g T) (map_to_list T)) k.
Definition GetUser (u : Z) (k : option (bool * bytes) -> prog) : prog := Query (fun T => user_row T u) k.

Section guards.
Context (bypass : gset Z) (now : Z).

Definition admin_role (r : Z) : bool := bool_decide (r ∈ bypass).
Definition targetHasGlobalAdminRoleOn (target : Z) (k : bool -> prog) : prog :=
  Query (GetUserRoleIDsAt now target) (fun direct =>
  Query (GetUserGroupRoleIDsAt now target) (fun viaGroups => k (existsb admin_role (direct ++ viaGroups)))).

(** ** Who is an administrator *)

Definition add_holder (holders : list Z) (u : Z) : list Z := if bool_decide (u ∈ holders) then holders else holders ++ [u].
Fixpoint expand (excludeAssignment : assignment -> bool) (excludeMember : Z -> Z -> bool) (assignments : list assignment) (holders : list Z) (k : list Z -> prog) : prog :=
  match assignments with
  | [] => k holders
  | a :: rest =>
      if negb (admin_role (a_role a)) || excludeAssignment a then expand excludeAssignment excludeMember rest holders k
      else match a with
           | AUser u _ => expand excludeAssignment excludeMember rest (add_holder holders u) k
           | AGroup g _ => ListGroupMembersAt g (fun members =>
               expand excludeAssignment excludeMember rest (fold_left add_holder (List.filter (fun u => negb (excludeMember g u)) members) holders) k)
           end
  end.
Fixpoint filterActiveHoldersOn (holders kept : list Z) (k : list Z -> prog) : prog :=
  match holders with
  | [] => k kept
  | u :: holders => GetUser u (fun user =>
      match user with
      | Some (true, state) => filterActiveHoldersOn holders (if AccountLoginBlocked state then kept else kept ++ [u]) k
      | _ => filterActiveHoldersOn holders kept k
      end)
  end.
Definition resolveGlobalAdminHoldersOn (assignments : list assignment) (excludeAssignment : assignment -> bool) (excludeMember : Z -> Z -> bool) (k : list Z -> prog) : prog :=
  expand excludeAssignment excludeMember assignments [] (fun holders => filterActiveHoldersOn holders [] k).
Definition some_holder (k : prog) (holders : list Z) : prog := match holders with [] => Ret (Err ErrLastAdmin) | _ => k end.

(** ** The guards *)

Definition is_user (target : Z) (a : assignment) : bool := match a with AUser u _ => u =? target | AGroup _ _ => false end.
Definition is_group (g : Z) (a : assignment) : bool := match a with AGroup g' _ => g' =? g | AUser _ _ => false end.

Definition guardLastAdminDeactivationOn (target : Z) (k : prog) : prog :=
  targetHasGlobalAdminRoleOn target (fun isAdmin =>
    if negb isAdmin then k
    else ListProjectRoleAssignments now (fun assignments =>
      resolveGlobalAdminHoldersOn assignments (is_user target) (fun _ u => u =? target) (some_holder k))).

(** Only the global scope is modelled; a role that is not an administrator's passes. *)
Definition guardLastGlobalAdminGroupRoleOn (g r : Z) (k : prog) : prog :=
  if negb (admin_role r) then k
  else ListProjectRoleAssignments now (fun assignments =>
    resolveGlobalAdminHoldersOn assignments (fun a => is_group g a && (a_role a =? r)) (fun _ _ => false) (some_holder k)).

Definition groupHoldsGlobalAdminRole (assignments : list assignment) (g : Z) : bool := existsb (fun a => is_group g a && admin_role (a_role a)) assignments.
Definition guardLastGlobalAdminGroupDeleteOn (g : Z) (k : prog) : prog :=
  if bool_decide (bypass = ∅) then k
  else ListProjectRoleAssignments now (fun assignments =>
    if negb (groupHoldsGlobalAdminRole assignments g) then k
    else resolveGlobalAdminHoldersOn assignments (is_group g) (fun _ _ => false) (some_holder k)).
Definition guardLastGlobalAdminMembershipOn (u g : Z) (k : prog) : prog :=
  if bool_decide (bypass = ∅) then k
  else ListProjectRoleAssignments now (fun assignments =>
    if negb (groupHoldsGlobalAdminRole assignments g) then k
    else resolveGlobalAdminHoldersOn assignments (fun _ => false) (fun g' u' => (g' =? g) && (u' =? u)) (some_holder k)).

(** ** The fence *)

Definition grant_wh (r : row) : bool := match r with RGrant e => live_grant now e | _ => false end.
Definition assignment_key (a : assignment) : key := match a with AUser u r => KUserRole u r | AGroup g r => KGroupRole g r end.
(** A SELECT ... FOR UPDATE of several rows locks them one by one and returns those that
    are still there. *)
Fixpoint lock_grants (rows acc : list assignment) (k : list assignment -> prog) : prog :=
  match rows with
  | [] => k acc
  | a :: rows => Lock LUpdate (assignment_key a) grant_wh (fun r => lock_grants rows (match r with Some _ => acc ++ [a] | None => acc end) k)
  end.
Definition global_group_grant (kr : key * row) : option assignment :=
  match kr with (KGroupRole g r, RGrant e) => if live_grant now e then Some (AGroup g r) else None | _ => None end.
Definition admin_grants (l : list assignment) : list assignment := List.filter (fun a => admin_role (a_role a)) l.
Definition ListGlobalAdminAssignmentsForUpdate (k : list assignment -> prog) : prog :=
  if bool_decide (bypass = ∅) then k []
  else Query (fun T => admin_grants (omap (user_assignment now) (map_to_list T))) (fun users =>
       lock_grants users [] (fun users =>
       Query (fun T => admin_grants (omap global_group_grant (map_to_list T))) (fun groups =>
       lock_grants groups [] (fun groups => k (users ++ groups))))).
Definition lockGlobalAdminGrantsOn (k : prog) : prog := ListGlobalAdminAssignmentsForUpdate (fun _ => k).

Definition fenceLastAdminDeactivationOn (target : Z) (k : prog) : prog :=
  targetHasGlobalAdminRoleOn target (fun isAdmin =>
    if negb isAdmin then k else lockGlobalAdminGrantsOn (guardLastAdminDeactivationOn target k)).

(** * Writes *)

Definition affected (e : admin_err) (k : prog) (n : nat) : prog := if (n =? 0)%nat then Ret (Err e) else k.
Definition not_deleted (r : row) : bool := match r with RUser _ _ d => negb d | RGroup d => negb d | _ => true end.
Definition at_key (key : key) : table -> AdminGuard.key -> row -> bool := fun _ k r => bool_decide (k = key) && not_deleted r.
Definition LockUserForUpdate (u : Z) (k : bool -> bytes -> prog) : prog :=
  Lock LUpdate (KUser u) not_deleted (fun r => match r with Some (RUser active state _) => k active state | _ => Ret (Err ErrUserNotFound) end).

Definition put_state (state : bytes) (r : row) : option row := match r with RUser active _ d => Some (RUser active state d) | _ => Some r end.
Definition put_active (active : bool) (r : row) : option row := match r with RUser _ state d => Some (RUser active state d) | _ => Some r end.
Definition put_deleted (d : bool) (r : row) : option row := match r with RUser active state _ => Some (RUser active state d) | RGroup _ => Some (RGroup d) | _ => Some r end.

Definition SetAccountState (u : Z) (state : bytes) (k : prog) : prog := Update (at_key (KUser u)) (put_state state) (affected ErrUserNotFound k).
Definition SetAccountStateIfMatches (u : Z) (from to : bytes) (k : prog) : prog :=
  Update (fun T key r => at_key (KUser u) T key r && match r with RUser _ s _ => bool_decide (s = from) | _ => false end) (put_state to) (affected ErrAccountStateConflict k).
Definition UpdateUserIfActiveStateMatches (u : Z) (active fromActive : bool) (k : prog) : prog :=
  Update (fun T key r => at_key (KUser u) T key r && match r with RUser a _ _ => Bool.eqb a fromActive | _ => false end) (put_active active) (affected ErrActiveStateConflict k).
Definition store_DeleteUser (u : Z) (k : prog) : prog := Update (at_key (KUser u)) (put_deleted true) (affected ErrUserNotFound k).
Definition RemoveRole (u r : Z) (k : prog) : prog := Update (at_key (KUserRole u r)) (fun _ => None) (affected ErrRoleNotAssigned k).
Definition store_RemoveRoleFromGroup (g r : Z) (k : prog) : prog := Update (at_key (KGroupRole g r)) (fun _ => None) (affected ErrRoleNotAssigned k).
Definition store_RemoveUserFromGroup (u g : Z) (k : prog) : prog := Update (at_key (KUserGroup u g)) (fun _ => None) (fun _ => k).
Definition GetGroup (g : Z) (k : prog) : prog := Query (fun T => group_live T g) (fun live => if live then k else Ret (Err ErrGroupNotFound)).
Definition store_DeleteGroup (g : Z) (k : prog) : prog := GetGroup g (Update (at_key (KGroup g)) (put_deleted true) (affected ErrGroupNotFound k)).

(** A move into a blocked state narrows, unless it is from one blocked state to a free one. *)
Definition NormalizeAccountState (state : bytes) : bytes := match state with [] => AccountActive | _ => state end.
Definition AccountRestricted (state : bytes) : bool := negb (bool_decide (NormalizeAccountState state ∈ [AccountActive; AccountSuspended; AccountDeprovisioned])).
Definition accountStateTransitionRevokes (from to : bytes) : bool :=
  (AccountLoginBlocked to || AccountRestricted to) && negb (AccountLoginBlocked from && negb (AccountLoginBlocked to)).
(** [from]: the state read before the transaction. *)
Definition set_account_state (fence : prog -> prog) (u : Z) (from state : bytes) : prog :=
  let revocation := accountStateTransitionRevokes from state in
  let write := LockUserForUpdate u (fun _ _ => SetAccountState u state (Ret (Ok ()))) in
  fence (if revocation then Lock LUpdate (KUser u) not_deleted (fun r =>
           match r with
           | Some (RUser _ now_state _) => if negb (accountStateTransitionRevokes now_state state) then Ret (Err ErrDirectionChanged) else write
           | _ => write
           end)
         else write).

(** ** The guarded removal of a role *)

Definition live_user_wh (r : row) : bool := match r with RUser true state false => bool_decide (state ∈ globalAdminLiveAccountStates) | _ => false end.
Fixpoint lock_users (ids : list Z) (found : bool) (k : bool -> prog) : prog :=
  match ids with
  | [] => k found
  | u :: ids => Lock LUpdate (KUser u) live_user_wh (fun r => lock_users ids (match r with Some _ => true | None => found end) k)
  end.
Definition liveUsers (ids : list Z) (k : bool -> prog) : prog :=
  match ids with
  | [] => k false
  | _ => Query (fun T => List.filter (fun u => match T !! KUser u with Some r => live_user_wh r | None => false end) ids) (fun ids => lock_users ids false k)
  end.
Fixpoint lock_members (g : Z) (ids acc : list Z) (k : list Z -> prog) : prog :=
  match ids with
  | [] => k acc
  | u :: ids => Lock LUpdate (KUserGroup u g) (fun r => match r with RMember => true | _ => false end)
      (fun r => lock_members g ids (match r with Some _ => acc ++ [u] | None => acc end) k)
  end.
Definition membership (g : Z) (kr : key * row) : option Z := match kr with (KUserGroup u g', RMember) => if g' =? g then Some u else None | _ => None end.
Definition globalAdminAssignmentHasLiveHolder (a : assignment) (k : bool -> prog) : prog :=
  match a with
  | AUser u _ => liveUsers [u] k
  | AGroup g _ => Lock LUpdate (KGroup g) not_deleted (fun r =>
      match r with
      | Some (RGroup _) => Query (fun T => omap (membership g) (map_to_list T)) (fun ids => lock_members g ids [] (fun ids => liveUsers ids k))
      | _ => k false
      end)
  end.
Fixpoint survives (u r : Z) (assignments : list assignment) (k : prog) : prog :=
  match assignments with
  | [] => Ret (Err ErrLastAdmin)
  | a :: rest =>
      if match a with AUser u' r' => (u' =? u) && (r' =? r) | AGroup _ _ => false end then survives u r rest k
      else globalAdminAssignmentHasLiveHolder a (fun live => if live then k else survives u r rest k)
  end.
Definition RemoveGlobalAdminRoleGuarded (u r : Z) : prog := ListGlobalAdminAssignmentsForUpdate (fun assignments => survives u r assignments (RemoveRole u r (Ret (Ok ())))).

(** * Operations *)

(** [WithNamedLock] of the last-admin key, never lost before the request ends. *)
Definition named (k : prog) : prog := Lock LUpdate KNamed (fun _ => true) (fun r => match r with Some _ => k | None => Ret (Err ErrNoLock) end).

Definition SuspendUser (u : Z) (from : bytes) : prog :=
  named (guardLastAdminDeactivationOn u (set_account_state (fenceLastAdminDeactivationOn u) u from AccountSuspended)).
(** The second attempt, when the account's state changed before the first had its row. *)
Definition SuspendUser_retry (u : Z) (from : bytes) : prog := named (set_account_state (fenceLastAdminDeactivationOn u) u from AccountSuspended).
(** The transition of [UpdateUser] that takes the active flag away. *)
Definition DeactivateUser (u : Z) (wasActive : bool) : prog :=
  named (guardLastAdminDeactivationOn u (fenceLastAdminDeactivationOn u (LockUserForUpdate u (fun _ _ => UpdateUserIfActiveStateMatches u false wasActive (Ret (Ok ())))))).
Definition DeleteUser (u : Z) : prog :=
  named (guardLastAdminDeactivationOn u (fenceLastAdminDeactivationOn u (LockUserForUpdate u (fun wasActive state =>
    UpdateUserIfActiveStateMatches u false wasActive
      (let deleted := store_DeleteUser u (Ret (Ok ())) in
       if bool_decide (NormalizeAccountState state = AccountSuspended) then deleted else SetAccountStateIfMatches u state AccountDeprovisioned deleted))))).
(** Provisioning by the identity provider; [owned]: the locked row says that it manages the account. *)
Definition applySCIMActiveState (IsActive : bool) (state : bytes) (active : option bool) : bool * bytes :=
  match active with
  | None => (IsActive, state)
  | Some true => (true, if bool_decide (NormalizeAccountState state = AccountDeprovisioned) then AccountActive else state)
  | Some false => (false, if bool_decide (NormalizeAccountState state = AccountActive) then AccountDeprovisioned else state)
  end.
Definition move_state (u : Z) (from to : bytes) (k : prog) : prog := if bool_decide (to = from) then k else SetAccountStateIfMatches u from to k.
Definition scimUpdateUserTx (u : Z) (owned : bool) (active : option bool) : prog :=
  LockUserForUpdate u (fun wasActive origState =>
    if negb owned then Ret (Err ErrUserNotFound)
    else let '(isActive, state) := applySCIMActiveState wasActive origState active in
         move_state u origState state (UpdateUserIfActiveStateMatches u isActive wasActive (Ret (Ok ())))).
Definition UpdateSCIMUser (u : Z) (owned : bool) (active : option bool) : prog :=
  named match active with
        | Some false => guardLastAdminDeactivationOn u (fenceLastAdminDeactivationOn u (scimUpdateUserTx u owned active))
        | _ => scimUpdateUserTx u owned active
        end.
Definition DeprovisionSCIMUser (u : Z) (owned : bool) : prog :=
  named (guardLastAdminDeactivationOn u (fenceLastAdminDeactivationOn u (LockUserForUpdate u (fun wasActive origState =>
    if negb owned then Ret (Err ErrUserNotFound)
    else move_state u origState (if bool_decide (NormalizeAccountState origState = AccountSuspended) then origState else AccountDeprovisioned)
           (UpdateUserIfActiveStateMatches u false wasActive (store_DeleteUser u (Ret (Ok ())))))))).
Definition RemoveUserRole (u r : Z) : prog := if admin_role r then named (RemoveGlobalAdminRoleGuarded u r) else RemoveRole u r (Ret (Ok ())).
Definition RemoveRoleFromGroup (g r : Z) : prog :=
  GetGroup g (named (guardLastGlobalAdminGroupRoleOn g r (lockGlobalAdminGrantsOn (guardLastGlobalAdminGroupRoleOn g r (store_RemoveRoleFromGroup g r (Ret (Ok ()))))))).
Definition RemoveUserFromGroup (u g : Z) : prog :=
  named (guardLastGlobalAdminMembershipOn u g (lockGlobalAdminGrantsOn (guardLastGlobalAdminMembershipOn u g (store_RemoveUserFromGroup u g (Ret (Ok ())))))).
(** A provisioning PATCH or PUT of a group removes its members in one transaction, and each of
    them was guarded on its own.  (What the request adds or renames besides is its own
    transaction when a member is removed.) *)
Fixpoint scimRemovalsGuard (g : Z) (removals : list Z) (k : prog) : prog :=
  match removals with
  | [] => k
  | u :: removals => guardLastGlobalAdminMembershipOn u g (scimRemovalsGuard g removals k)
  end.
Definition removeAll (g : Z) (removals : list Z) (k : prog) : prog := fold_right (fun u k => store_RemoveUserFromGroup u g k) k removals.
Definition scimRemoveMembers (g : Z) (removals : list Z) : prog :=
  named (scimRemovalsGuard g removals (lockGlobalAdminGrantsOn (scimRemovalsGuard g removals (removeAll g removals (Ret (Ok ())))))).
Definition DeleteGroup (g : Z) : prog :=
  named (GetGroup g (guardLastGlobalAdminGroupDeleteOn g (lockGlobalAdminGrantsOn (guardLastGlobalAdminGroupDeleteOn g (store_DeleteGroup g (Ret (Ok ()))))))).

(** Operations that take nothing from an administrator, and no lock. *)
(** An expired grant is deleted and created anew: its row is written over. *)
Definition assign (key : key) (expires : option Z) : prog :=
  let create := Insert key (RGrant expires) (Ret (Ok ())) in
  Query (fun T => T !! key) (fun existing =>
    match existing with
    | Some (RGrant e) => if live_grant now e then Ret (Err ErrRoleAlreadyAssigned) else Update (at_key key) (fun _ => Some (RGrant expires)) (fun n => if (n =? 0)%nat then create else Ret (Ok ()))
    | _ => create
    end).
Definition assignUserRole (u r : Z) : option Z -> prog := assign (KUserRole u r).
Definition assignGroupRole (g r : Z) : option Z -> prog := assign (KGroupRole g r).
Definition AddUserToGroup (u g : Z) : prog :=
  GetUser u (fun user => match user with
    | None => Ret (Err ErrUserNotFound)
    | Some _ => GetGroup g (Query (fun T => is_member T u g) (fun member => if member then Ret (Ok ()) else Insert (KUserGroup u g) RMember (Ret (Ok ()))))
    end).
Definition insert_all (rows : list (key * row)) : prog := fold_right (fun kr k => Insert kr.1 kr.2 k) (Ret (Ok ())) rows.
Definition CreateUserWithRoleGrants (u : Z) (active : bool) (state : bytes) (roles : list Z) : prog :=
  insert_all ((KUser u, RUser active state false) :: ((fun r => (KUserRole u r, RGrant None)) <$> roles)).
Definition CreateGroup (g : Z) : prog := Insert (KGroup g) (RGroup false) (Ret (Ok ())).
Definition ReactivateUser (u : Z) (from : bytes) : prog := set_account_state (fun k => k) u from AccountActive.
Definition RequirePasswordReset (u : Z) (from : bytes) : prog := set_account_state (fun k => k) u from AccountPasswordResetRequired.
Definition RestoreUser (u : Z) : prog :=
  Update (fun _ k r => bool_decide (k = KUser u) && negb (not_deleted r)) (put_deleted false) (affected ErrUserNotFound (Ret (Ok ()))).
Definition RestoreGroup (g : Z) : prog :=
  Update (fun _ k r => bool_decide (k = KGroup g) && negb (not_deleted r)) (put_deleted false) (affected ErrGroupNotFound (Ret (Ok ()))).
Definition expired_row (before : Z) (r : row) : bool := match r with RGrant (Some t) => t <=? before | _ => false end.
Definition expired_of (users : bool) (before : Z) (k : key) (r : row) : bool :=
  expired_row before r && match k with KUserRole _ _ => users | KGroupRole _ _ => negb users | _ => false end.
Definition sweep (users : bool) (before : Z) (found : bool) (k : prog) : prog :=
  if found then Update (fun _ => expired_of users before) (fun _ => None) (fun _ => k) else k.
Definition some_expired (users : bool) (before : Z) (T : table) : bool := existsb (fun kr => expired_of users before kr.1 kr.2) (map_to_list T).
Definition DeleteExpiredRoleGrants (before : Z) : prog :=
  Query (some_expired true before) (fun users => Query (some_expired false before) (fun groups =>
    sweep true before users (sweep false before groups (Ret (Ok ()))))).

(** * An administrator: an account that can log in, with an administrator's role *)

Definition holds_admin_role (T : table) (u : Z) : bool := existsb admin_role (GetUserRoleIDsAt now u T ++ GetUserGroupRoleIDsAt now u T).
Definition can_administer (T : table) (u : Z) : bool :=
  match user_row T u with Some (true, state) => negb (AccountLoginBlocked state) && holds_admin_role T u | _ => false end.
End guards.
