(* ===== verification/AdminSafe.v ===== *)
(** An administrator always remains: the guards of AdminGuard.v, in every interleaving of the
    operations they stand in front of.

    What a guard finds out are facts about single rows (an account that can log in, a grant, a
    membership, a live group).  Under the named lock other transactions can only add to them, so a
    request that found an administrator who does not depend on the rows it writes still has one
    when it commits. *)
From Stdlib Require Import ZArith Lia.
From stdpp Require Import base numbers tactics sets list gmap.
From S2P Require Import TxDB Prelude GoStr AdminGuard.

Section safe.
Context (bypass : gset Z).

(** * Facts *)

Inductive fact := FLive (u : Z) | FUserRole (u r : Z) | FGroupLive (g : Z) | FGroupRole (g r : Z) | FMember (u g : Z).
Definition fact_key (f : fact) : key :=
  match f with FLive u => KUser u | FUserRole u r => KUserRole u r | FGroupLive g => KGroup g | FGroupRole g r => KGroupRole g r | FMember u g => KUserGroup u g end.
Definition fact_ok (f : fact) (r : row) : Prop :=
  match f with
  | FLive _ => exists state, r = RUser true state false /\ AccountLoginBlocked state = false
  | FUserRole _ role | FGroupRole _ role => role ∈ bypass /\ r = RGrant None
  | FGroupLive _ => r = RGroup false
  | FMember _ _ => r = RMember
  end.
Definition holds (T : table) (f : fact) : Prop := exists r, T !! fact_key f = Some r /\ fact_ok f r.
(** Nothing that was a fact stops being one. *)
Definition grows (D D' : table) : Prop := forall f, holds D f -> holds D' f.

(** An account that can log in and holds an administrator's role, directly or through a group. *)
Inductive route (u : Z) (P : fact -> Prop) : Prop :=
| route_direct r : P (FUserRole u r) -> route u P
| route_group g r : P (FGroupLive g) -> P (FGroupRole g r) -> P (FMember u g) -> route u P.
Definition admin_among (P : fact -> Prop) : Prop := exists u, P (FLive u) /\ route u P.
Definition live_admin (D : table) : Prop := admin_among (holds D).
Definition permanent (D : table) : Prop := forall k e, D !! k = Some (RGrant e) -> e = None.

Definition Inv (D : table) : Prop := permanent D /\ live_admin D.
Definition keeps (L : list (lockmode * key)) (D D' : table) : Prop := (LUpdate, KNamed) ∈ L -> grows D D'.

Lemma admin_among_mono (P Q : fact -> Prop) : (forall f, P f -> Q f) -> admin_among P -> admin_among Q.
Proof. intros H (u&Hl&Hr). exists u. split; [auto|]. destruct Hr; [eapply route_direct|eapply route_group]; eauto. Qed.

Abbreviation asrt := (table -> gmap key (option row) -> list (lockmode * key) -> Prop).
Abbreviation safe := (@TxDB.safe key row admin_err _ _ Inv keeps).
Abbreviation stable := (@TxDB.stable key row _ _ Inv keeps).

(** * Requests that hold the lock *)

(** What a request knows: [fs] of the committed rows; it has written rows of [W] only. *)
Definition knows (fs : list fact) (W : key -> Prop) : asrt := fun D b L =>
  (LUpdate, KNamed) ∈ L /\ Forall (holds D) fs /\ (forall k v, b !! k = Some v -> W k) /\ (forall k e, b !! k = Some (Some (RGrant e)) -> e = None).
Definition nothing (k : key) : Prop := False.

Lemma knows_stable fs W : stable (knows fs W).
Proof. intros D D' b L (HL&Hf&HW&Hp) _ _ Hk. split_and!; [done| |done|done]. eapply Forall_impl; [exact Hf|]. intros f. by apply Hk. Qed.
Lemma nothing_buf fs D b L : knows fs nothing D b L -> b = ∅.
Proof. intros (_&_&HW&_). apply map_eq. intros k. rewrite lookup_empty. destruct (b !! k) eqn:E; [by apply HW in E|done]. Qed.
Lemma view_nothing fs D b L : knows fs nothing D b L -> view b D = D.
Proof. intros ->%nothing_buf. apply map_eq. intros k. by rewrite lookup_view, lookup_empty. Qed.
Lemma knows_more fs fs' W D b L : knows fs W D b L -> Forall (holds D) fs' -> knows (fs' ++ fs) W D b L.
Proof. intros (?&?&?&?) ?. split_and!; [done|by apply Forall_app|done|done]. Qed.

Lemma list_to_map_matching (D : table) : list_to_map (matching (fun _ _ => true) D) = D.
Proof.
  unfold matching. replace (List.filter _ (map_to_list D)) with (map_to_list D); [apply list_to_map_to_list|].
  induction (map_to_list D) as [|x l IH]; [done|]. cbn. by f_equal.
Qed.

(** A statement tells facts of the rows it saw. *)
Lemma safe_query {A} (f : table -> A) k fs :
  (forall T, Inv T -> Forall (holds T) fs -> exists fs', Forall (holds T) fs' /\ safe (k (f T)) (knows (fs' ++ fs) nothing)) -> safe (Query f k) (knows fs nothing).
Proof.
  intros H. apply safe_select_one. intros D b L Hi HA. destruct (H D Hi ltac:(apply HA)) as (fs'&Hf&Hs). exists (knows (fs' ++ fs) nothing).
  split_and!; [apply knows_stable|by apply knows_more|]. by rewrite (view_nothing fs D b L HA), list_to_map_matching.
Qed.
Lemma safe_query_none {A} (f : table -> A) k fs : (forall a, safe (k a) (knows fs nothing)) -> safe (Query f k) (knows fs nothing).
Proof. intros H. apply safe_query. intros T _ _. exists []. split; [constructor|apply H]. Qed.
(** So does a row that was locked. *)
Lemma safe_lock m key wh k fs : safe (k None) (knows fs nothing) ->
  (forall r, wh r = true -> exists fs', (forall T, permanent T -> T !! key = Some r -> Forall (holds T) fs') /\ safe (k (Some r)) (knows (fs' ++ fs) nothing)) ->
  safe (Lock m key wh k) (knows fs nothing).
Proof.
  intros Hn H. cbn [TxDB.safe]. split; [exact Hn|]. intros r. destruct (wh r) eqn:Ew.
  - destruct (H r Ew) as (fs'&Hf&Hs). exists (knows (fs' ++ fs) nothing). split_and!; [apply knows_stable| |exact Hs].
    intros D b L [Hp _] HA Hv _. rewrite (view_nothing fs D b L HA) in Hv. apply (knows_more fs fs' nothing) in HA as (HL&?&?&?); [|by apply Hf].
    split_and!; [by right|done..].
  - exists (fun _ _ _ => False). split_and!; [by intros ????|by intros D b L _ _ _ Hw; congruence|apply safe_never].
Qed.
Lemma safe_knows_update sel upd k fs (W : key -> Prop) : (forall T key r, sel T key r = true -> W key) ->
  (forall T key r e, sel T key r = true -> upd r = Some (RGrant e) -> r = RGrant e \/ e = None) -> (forall n, safe (k n) (knows fs W)) -> safe (Update sel upd k) (knows fs W).
Proof.
  intros HW Hp Hk. cbn [TxDB.safe]. exists (fun f keys D b L => (exists T, f = sel T) /\ knows fs W D b L). split_and!.
  - intros f keys D D' b L [Hf HA] Hi Hl Hkp. split; [done|]. by eapply knows_stable.
  - intros D b L _ HA. split; [by eexists|done].
  - intros f key keys D b L [Hperm _] [[T ->] HA]. destruct (view b D !! key) as [r|] eqn:Ev; [|by split; [eexists|]]. destruct (sel T key r) eqn:Es; [|by split; [eexists|]].
    split; [by eexists|]. destruct HA as (HL&Hf&HWb&Hb). split_and!; [done|done| |].
    + intros k' v [[<- _]|[_ Hv]]%lookup_insert_Some; [by eapply HW|by eapply HWb].
    + intros k' e [[<- Hu]|[_ Hv]]%lookup_insert_Some; [|by eapply Hb]. destruct (Hp T key r e Es Hu) as [-> |?]; [|done]. rewrite lookup_view in Ev.
      destruct (b !! key) as [[w|]|] eqn:Eb; cbn in Ev; simplify_eq; [by eapply Hb|by eapply Hperm].
  - intros n. exists (knows fs W). split_and!; [apply knows_stable|by intros f D b L _ [_ ?]|apply Hk].
Qed.
Lemma safe_wider p fs (W W' : key -> Prop) : (forall k, W k -> W' k) -> safe p (knows fs W') -> safe p (knows fs W).
Proof. intros HW. apply safe_weaken. intros D b L _ (?&?&Hb&?). split_and!; [done|done| |done]. intros k v Hv. by eapply HW, Hb. Qed.

(** An administrator among the facts whose rows are not written remains. *)
Definition spared (fs : list fact) (W : key -> Prop) (f : fact) : Prop := f ∈ fs /\ ~ W (fact_key f).
Lemma safe_done fs W : admin_among (spared fs W) -> safe (Ret (Ok ())) (knows fs W).
Proof.
  intros Ha D b L [Hperm _] (HL&Hf&HW&Hb). split; [split|].
  - intros k e. rewrite lookup_view. destruct (b !! k) as [v|] eqn:Eb; cbn; [intros ->; by eapply Hb|apply Hperm].
  - eapply admin_among_mono; [|exact Ha]. intros f [Hin HnW]. rewrite Forall_forall in Hf. destruct (Hf f Hin) as (r&Hr&Hok). exists r. split; [|done].
    rewrite lookup_view. destruct (b !! fact_key f) as [v|] eqn:Eb; [|done]. by apply HW in Eb.
  - intros L' _ HL' Hn. by apply (HL' KNamed LUpdate) in Hn.
Qed.

(** * The guards *)

(** A program that may write the rows of [W] once an administrator is known who does not
    depend on them; reading on does not hurt. *)
Definition ready (W : key -> Prop) (p : prog) : Prop := forall fs, admin_among (spared fs W) -> safe p (knows fs nothing).

Lemma spared_more fs fs' W : fs ⊆ fs' -> admin_among (spared fs W) -> admin_among (spared fs' W).
Proof. intros Hs. apply admin_among_mono. intros f [Hf HW]. split; [by apply Hs|done]. Qed.
Lemma ready_query {A} (f : table -> A) k W : (forall a, ready W (k a)) -> ready W (Query f k).
Proof. intros H fs Hfs. apply safe_query_none. intros a. by apply H. Qed.
Lemma ready_lock m key wh k W : (forall o, ready W (k o)) -> ready W (Lock m key wh k).
Proof. intros H fs Hfs. apply safe_lock; [by apply H|]. intros r _. exists []. split; [constructor|by apply H]. Qed.
Lemma ready_err e W : ready W (Ret (Err e)).
Proof. by intros fs _. Qed.

Section ready.
Context (now : Z) (W : key -> Prop).
Abbreviation ready := (ready W).

Lemma ready_expand exA exM k l : forall hs, (forall hs, ready (k hs)) -> ready (expand bypass exA exM l hs k).
Proof. induction l as [|a l IH]; intros hs Hk; cbn [expand]; [done|]. destruct (_ || _); [by apply IH|]. destruct a; [by apply IH|]. apply ready_query. intros ms. by apply IH. Qed.
Lemma ready_filter k hs : forall kept, (forall hs, ready (k hs)) -> ready (filterActiveHoldersOn hs kept k).
Proof. induction hs as [|u hs IH]; intros kept Hk; cbn [filterActiveHoldersOn]; [done|]. apply ready_query. intros [[[] ?]|]; by apply IH. Qed.
Lemma ready_assignments k : (forall l, ready (k l)) -> ready (ListProjectRoleAssignments now k).
Proof. intros Hk. by do 2 (apply ready_query; intros ?). Qed.
Lemma ready_resolve l exA exM k : ready k -> ready (resolveGlobalAdminHoldersOn bypass l exA exM (some_holder k)).
Proof. intros Hk. apply ready_expand. intros hs. apply ready_filter. intros [|]; [apply ready_err|done]. Qed.
Lemma ready_target target k : (forall b, ready (k b)) -> ready (targetHasGlobalAdminRoleOn bypass now target k).
Proof. intros Hk. by do 2 (apply ready_query; intros ?). Qed.
Lemma ready_deactivation target k : ready k -> ready (guardLastAdminDeactivationOn bypass now target k).
Proof. intros Hk. apply ready_target. intros []; cbn [negb]; [|done]. apply ready_assignments. intros l. by apply ready_resolve. Qed.
Lemma ready_lock_grants k l : forall acc, (forall acc, ready (k acc)) -> ready (lock_grants now l acc k).
Proof. induction l as [|a l IH]; intros acc Hk; cbn [lock_grants]; [done|]. apply ready_lock. intros o. by apply IH. Qed.
Lemma ready_grants k : ready k -> ready (lockGlobalAdminGrantsOn bypass now k).
Proof.
  intros Hk. unfold lockGlobalAdminGrantsOn, ListGlobalAdminAssignmentsForUpdate. case_bool_decide; [done|].
  apply ready_query. intros us. apply ready_lock_grants. intros acc. apply ready_query. intros gs. by apply ready_lock_grants.
Qed.
Lemma ready_fence target k : ready k -> ready (fenceLastAdminDeactivationOn bypass now target k).
Proof. intros Hk. apply ready_target. intros []; cbn [negb]; [|done]. by apply ready_grants, ready_deactivation. Qed.
Lemma ready_group_role g r k : ready k -> ready (guardLastGlobalAdminGroupRoleOn bypass now g r k).
Proof. intros Hk. unfold guardLastGlobalAdminGroupRoleOn. destruct (negb _); [done|]. apply ready_assignments. intros l. by apply ready_resolve. Qed.
Lemma ready_group_delete g k : ready k -> ready (guardLastGlobalAdminGroupDeleteOn bypass now g k).
Proof. intros Hk. unfold guardLastGlobalAdminGroupDeleteOn. case_bool_decide; [done|]. apply ready_assignments. intros l. destruct (negb _); [done|]. by apply ready_resolve. Qed.
Lemma ready_membership u g k : ready k -> ready (guardLastGlobalAdminMembershipOn bypass now u g k).
Proof. intros Hk. unfold guardLastGlobalAdminMembershipOn. case_bool_decide; [done|]. apply ready_assignments. intros l. destruct (negb _); [done|]. by apply ready_resolve. Qed.
Lemma ready_group g k : ready k -> ready (GetGroup g k).
Proof. intros Hk. apply ready_query. intros []; [done|apply ready_err]. Qed.
End ready.

(** ** What a guard finds out *)

(** A request that knows of an administrator, as it does once it holds the lock. *)
Definition informed (p : prog) : Prop := forall fs, admin_among (.∈ fs) -> safe p (knows fs nothing).
Lemma informed_ready p : informed p <-> ready nothing p.
Proof. split; intros H fs Ha; apply H; (eapply admin_among_mono; [|exact Ha]); intros f Hf; [apply Hf|by split; [|intros []]]. Qed.
Lemma in_more fs fs' : admin_among (.∈ fs) -> admin_among (.∈ fs' ++ fs).
Proof. apply admin_among_mono. intros f. rewrite elem_of_app. auto. Qed.

Lemma direct_found now u r T : holds T (FUserRole u r) -> existsb (admin_role bypass) (GetUserRoleIDsAt now u T) = true.
Proof.
  intros (?&Hl&Hr&->). apply existsb_exists. exists r. split; [|by apply bool_decide_eq_true]. apply list_elem_of_In, list_elem_of_omap.
  exists (KUserRole u r, RGrant None). split; [by apply elem_of_map_to_list|]. cbn. by rewrite Z.eqb_refl.
Qed.
Lemma group_found now u g r T : holds T (FGroupLive g) -> holds T (FGroupRole g r) -> holds T (FMember u g) -> existsb (admin_role bypass) (GetUserGroupRoleIDsAt now u T) = true.
Proof.
  intros (?&Hg&->) (?&Hl&Hr&->) (?&Hm&->). apply existsb_exists. exists r. split; [|by apply bool_decide_eq_true]. apply list_elem_of_In, list_elem_of_omap.
  exists (KGroupRole g r, RGrant None). split; [by apply elem_of_map_to_list|]. cbn in *. unfold is_member, group_live. by rewrite Hg, Hm.
Qed.

(** Who does not pass for an administrator is not the one that is known. *)
Lemma informed_target now target k : informed (k true) -> ready (.= KUser target) (k false) -> informed (targetHasGlobalAdminRoleOn bypass now target k).
Proof.
  intros Ht Hf fs (u&Hl&Hr). assert (Ha : admin_among (.∈ fs)) by (by exists u).
  apply safe_query. intros T1 _ H1. exists []. split; [done|]. apply safe_query. intros T2 _ H2. exists []. split; [done|]. cbn [app].
  rewrite Forall_forall in H1, H2. rewrite existsb_app. destruct (decide (u = target)) as [-> |Hne].
  - destruct Hr as [r Hr|g r Hg Hr Hm]; [rewrite (direct_found now target r)|rewrite (group_found now target g r), orb_true_r]; auto.
  - destruct (_ || _); [by apply Ht|]. apply Hf. exists u. split; [split; [done|by intros [=]]|].
    destruct Hr as [r Hr|g r Hg Hr Hm]; [apply (route_direct _ _ r)|apply (route_group _ _ g r)]; by split.
Qed.

Definition afacts (a : assignment) : list fact := match a with AUser u r => [FUserRole u r] | AGroup g r => [FGroupLive g; FGroupRole g r] end.
Definition lfacts (l : list assignment) : list fact := flat_map afacts (admin_grants bypass l).
Lemma lfacts_app l l' : lfacts (l ++ l') = lfacts l ++ lfacts l'.
Proof. unfold lfacts, admin_grants. by rewrite List.filter_app, flat_map_app. Qed.
Lemma lfacts_hold T l : (forall a f, a ∈ l -> admin_role bypass (a_role a) = true -> f ∈ afacts a -> holds T f) -> Forall (holds T) (lfacts l).
Proof. intros H. apply Forall_forall. intros f (a&[Ha Hr]%filter_In&Hf)%list_elem_of_In%in_flat_map. by apply (H a); [apply list_elem_of_In| |apply list_elem_of_In]. Qed.
Lemma elem_of_lfacts l a f : a ∈ l -> admin_role bypass (a_role a) = true -> f ∈ afacts a -> f ∈ lfacts l.
Proof. intros Ha Hr Hf. apply list_elem_of_In, in_flat_map. exists a. split; [|by apply list_elem_of_In]. apply filter_In. split; [by apply list_elem_of_In|done]. Qed.

Lemma user_grants_hold now T : permanent T -> Forall (holds T) (lfacts (omap (user_assignment now) (map_to_list T))).
Proof.
  intros Hp. apply lfacts_hold. intros a f ([k r]&Hin%elem_of_map_to_list&Ho)%list_elem_of_omap Hr Hf. destruct k, r; cbn in Ho; try done.
  destruct (live_grant _ _); simplify_eq. apply list_elem_of_singleton in Hf as ->. exists (RGrant ExpiresAt). apply bool_decide_eq_true in Hr.
  split; [done|]. split; [done|]. by rewrite (Hp _ _ Hin).
Qed.
Lemma group_grants_hold now T : permanent T -> Forall (holds T) (lfacts (omap (group_assignment now T) (map_to_list T))).
Proof.
  intros Hp. apply lfacts_hold. intros a f ([k r]&Hin%elem_of_map_to_list&Ho)%list_elem_of_omap Hr Hf. destruct k, r; cbn in Ho; try done.
  unfold group_live in Ho. destruct (T !! KGroup group) as [[| |[]| |]|] eqn:Eg; try done. destruct (live_grant _ _); simplify_eq/=. apply bool_decide_eq_true in Hr.
  apply elem_of_cons in Hf as [-> | ->%list_elem_of_singleton]; eexists; (split; [done|]); [done|]. split; [done|]. by rewrite (Hp _ _ Hin).
Qed.

Lemma group_listed now T g r : holds T (FGroupLive g) -> holds T (FGroupRole g r) -> AGroup g r ∈ omap (group_assignment now T) (map_to_list T).
Proof.
  intros (?&Hg&->) (?&Hr&_&->). apply list_elem_of_omap. exists (KGroupRole g r, RGrant None). split; [by apply elem_of_map_to_list|]. cbn in *. unfold group_live. by rewrite Hg.
Qed.
Definition listed (fs : list fact) (asg : list assignment) : Prop := forall g r, FGroupLive g ∈ fs -> FGroupRole g r ∈ fs -> AGroup g r ∈ asg /\ r ∈ bypass.
(** The assignments a guard lists are facts, and they include the groups that make the known
    administrator one. *)
Lemma informed_assignments now k :
  (forall fs asg, admin_among (.∈ fs) -> lfacts asg ⊆ fs -> listed fs asg -> safe (k asg) (knows fs nothing)) ->
  informed (ListProjectRoleAssignments now k).
Proof.
  intros Hk fs Ha. apply safe_query. intros T1 [Hp1 _] H1. eexists. split; [by apply (user_grants_hold now)|]. apply safe_query. intros T2 [Hp2 _] H2. eexists. split; [by apply (group_grants_hold now)|].
  apply Hk; [by do 2 apply in_more|rewrite lfacts_app; set_solver|]. assert (H : Forall (holds T2) (lfacts (omap (group_assignment now T2) (map_to_list T2)) ++ lfacts (omap (user_assignment now) (map_to_list T1)) ++ fs))
    by (apply Forall_app; split; [by apply group_grants_hold|done]). rewrite Forall_forall in H.
  intros g r Hg%H Hr%H. split; [apply elem_of_app; right; by apply group_listed|]. by destruct Hr as (?&_&?&_).
Qed.

(** *** Who is left *)
Section left_over.
Context (W : key -> Prop) (exA : assignment -> bool) (exM : Z -> Z -> bool).
(** What is left out of the count covers what will be written. *)
Definition covers : Prop :=
  (forall u r, exA (AUser u r) = false -> ~ W (KUserRole u r) /\ ~ W (KUser u)) /\
  (forall g r, exA (AGroup g r) = false -> ~ W (KGroup g) /\ ~ W (KGroupRole g r)) /\
  (forall g u, exM g u = false -> ~ W (KUserGroup u g) /\ ~ W (KUser u)).
Definition holder (fs : list fact) (u : Z) : Prop := ~ W (KUser u) /\ route u (spared fs W).
Context (Hcovers : covers).

Lemma holder_more fs fs' hs : Forall (holder fs) hs -> Forall (holder (fs' ++ fs)) hs.
Proof.
  intros Hh. eapply Forall_impl; [exact Hh|]. intros u [HW Hr]. split; [done|]. destruct Hr as [r [??]|g r [??] [??] [??]]; [eapply route_direct|eapply route_group]; (split; [apply elem_of_app; by right|done]).
Qed.
Lemma holder_add fs u hs : holder fs u -> Forall (holder fs) hs -> Forall (holder fs) (add_holder hs u).
Proof. intros Hu Hh. unfold add_holder. case_bool_decide; [done|]. apply Forall_app. by split; [|apply Forall_singleton]. Qed.
Lemma holder_fold fs us : forall hs, Forall (holder fs) us -> Forall (holder fs) hs -> Forall (holder fs) (fold_left add_holder us hs).
Proof. induction us as [|u us IH]; intros hs Hu Hh; [done|]. inversion Hu; subst. cbn. apply IH; [done|by apply holder_add]. Qed.

Lemma safe_expand k asg : (forall fs hs, Forall (holder fs) hs -> safe (k hs) (knows fs nothing)) ->
  forall fs hs, lfacts asg ⊆ fs -> Forall (holder fs) hs -> safe (expand bypass exA exM asg hs k) (knows fs nothing).
Proof.
  intros Hk. destruct Hcovers as (HU&HG&HM). induction asg as [|a asg IH]; intros fs hs Hin Hh; cbn [expand]; [by apply Hk|].
  assert (Hin' : lfacts asg ⊆ fs). { intros f Hf. apply Hin. change (a :: asg) with ([a] ++ asg). rewrite lfacts_app. set_solver. }
  destruct (admin_role bypass (a_role a)) eqn:Er; cbn [negb orb]; [|by apply IH]. destruct (exA a) eqn:Ea; [by apply IH|].
  assert (Hf : forall f, f ∈ afacts a -> f ∈ fs). { intros f Hf. apply Hin. by apply (elem_of_lfacts _ a); [left|..]. }
  destruct a as [u r|g r].
  - apply IH; [done|]. apply holder_add; [|done]. destruct (HU u r Ea) as [??]. split; [done|]. apply (route_direct _ _ r). split; [apply Hf; by left|done].
  - destruct (HG g r Ea) as [??]. apply safe_query. intros T _ _. set (us := List.filter _ _). exists ((fun u => FMember u g) <$> us). split.
    + apply Forall_forall. intros f (u&->&[Hu _]%list_elem_of_In%filter_In)%list_elem_of_fmap. apply list_elem_of_In, list_elem_of_omap in Hu as ([k' r']&Hin2%elem_of_map_to_list&Ho).
      destruct k', r'; cbn in Ho; try done. destruct (Z.eqb_spec group g); [|done]. subst. case_bool_decide; [|done]. simplify_eq/=. by exists RMember.
    + apply IH; [set_solver|]. apply holder_fold; [|by apply holder_more]. apply Forall_forall. intros u Hu. pose proof Hu as [_ He]%list_elem_of_In%filter_In.
      apply negb_true_iff, HM in He as [??]. split; [done|]. apply (route_group _ _ g r); (split; [apply elem_of_app|done]).
      * right. apply Hf. by left. * right. apply Hf. by right; left. * left. apply list_elem_of_fmap. eauto.
Qed.

Lemma safe_filter k hs : ready W k -> forall fs kept, Forall (holder fs) hs -> (kept <> [] -> admin_among (spared fs W)) ->
  safe (filterActiveHoldersOn hs kept (some_holder k)) (knows fs nothing).
Proof.
  intros Hk. induction hs as [|u hs IH]; intros fs kept Hh Hkept; cbn [filterActiveHoldersOn].
  - destruct kept; cbn [some_holder]; [done|]. by apply Hk, Hkept.
  - apply safe_query. intros T _ _. assert (Hh' := Hh). inversion Hh' as [|? ? [HW Hr] Hhs]; subst. destruct (user_row T u) as [[[] st]|] eqn:Eu.
    2, 3: exists []; split; [constructor|by apply IH].
    destruct (AccountLoginBlocked st) eqn:Eb; [exists []; split; [constructor|by apply IH]|]. exists [FLive u]. split.
    + apply Forall_singleton. unfold user_row in Eu. destruct (T !! KUser u) as [[|? ? []| | |]|] eqn:ET; try done. simplify_eq. exists (RUser true st false). split; [done|by exists st].
    + apply IH; [by apply (holder_more fs [FLive u])|]. intros _. assert (Hu : Forall (holder ([FLive u] ++ fs)) [u]) by (apply holder_more; by apply Forall_singleton).
      apply Forall_singleton in Hu as [_ Hr']. exists u. split; [split; [by left|done]|done].
Qed.

Lemma safe_resolve asg fs k : ready W k -> lfacts asg ⊆ fs -> safe (resolveGlobalAdminHoldersOn bypass asg exA exM (some_holder k)) (knows fs nothing).
Proof. intros Hk Hin. apply safe_expand; [|done|constructor]. intros fs' hs Hh. by apply safe_filter. Qed.
End left_over.

(** *** The guards *)
Lemma informed_deactivation now target k : ready (.= KUser target) k -> informed (guardLastAdminDeactivationOn bypass now target k).
Proof.
  intros Hk. apply informed_target; cbn [negb]; [|done]. apply informed_assignments. intros fs asg _ Hin _. apply safe_resolve with (.= KUser target); [|done|done].
  split_and!; intros a b H; split; try done; intros [= ->]; cbn in H; by rewrite Z.eqb_refl in H.
Qed.
(** Of the known facts, the grants are of administrators' roles. *)
Definition proper (fs : list fact) : Prop := forall f, f ∈ fs -> match f with FUserRole _ r | FGroupRole _ r => r ∈ bypass | _ => True end.
Lemma informed_proper p : (forall fs, proper fs -> admin_among (.∈ fs) -> safe p (knows fs nothing)) -> informed p.
Proof.
  intros H fs Ha. eapply safe_weaken; [|apply (safe_any _ _ p (fun A => proper fs /\ A = knows fs nothing)); intros A [Hp ->]; split; [apply knows_stable|by apply H]].
  intros D b L _ HA. exists (knows fs nothing). split; [|done]. split; [|done]. destruct HA as (_&Hf&_). rewrite Forall_forall in Hf.
  intros f (r&_&Hok)%Hf. by destruct f; destruct Hok.
Qed.
Lemma proper_nonempty fs : proper fs -> admin_among (.∈ fs) -> bypass <> ∅.
Proof. intros Hp (u&_&[r Hr|g r _ Hr _]) He; specialize (Hp _ Hr); cbn in Hp; rewrite He in Hp; set_solver. Qed.

(** A way to the role that does not lead through what is written. *)
Lemma spared_among fs W : (forall u, FLive u ∈ fs -> ~ W (KUser u)) -> (forall u r, FUserRole u r ∈ fs -> ~ W (KUserRole u r)) ->
  (forall u g r, FGroupLive g ∈ fs -> FGroupRole g r ∈ fs -> FMember u g ∈ fs -> ~ W (KGroup g) /\ ~ W (KGroupRole g r) /\ ~ W (KUserGroup u g)) ->
  admin_among (.∈ fs) -> admin_among (spared fs W).
Proof.
  intros HU HR HG (u&Hu&Hr). exists u. split; [split; [done|by apply HU]|]. destruct Hr as [r Hr|g r Hg Hr Hm]; [apply (route_direct _ _ r); split; [done|by apply HR]|].
  destruct (HG u g r) as (?&?&?); [done..|]. by apply (route_group _ _ g r).
Qed.

Lemma informed_group_role now g r k : ready (.= KGroupRole g r) k -> informed (guardLastGlobalAdminGroupRoleOn bypass now g r k).
Proof.
  intros Hk. unfold guardLastGlobalAdminGroupRoleOn, admin_role. case_bool_decide as Hr; cbn [negb].
  - apply informed_assignments. intros fs asg _ Hin _. apply safe_resolve with (.= KGroupRole g r); [|done|done].
    split_and!; intros a b H; split; try done. intros [= -> ->]. cbn in H. by rewrite !Z.eqb_refl in H.
  - apply informed_proper. intros fs Hp Ha. apply Hk, spared_among; [done|done| |done]. intros u g' r' _ H%Hp _. cbn in H. split_and!; [done| |done]. by intros [= -> ->].
Qed.

Lemma not_held fs asg g r : listed fs asg -> groupHoldsGlobalAdminRole bypass asg g = false -> FGroupLive g ∈ fs -> ~ FGroupRole g r ∈ fs.
Proof.
  intros Hl Hn Hg Hr. destruct (Hl g r Hg Hr) as [Hin%list_elem_of_In Hb]. assert (Ht : groupHoldsGlobalAdminRole bypass asg g = true); [|congruence].
  apply existsb_exists. exists (AGroup g r). split; [done|]. cbn. rewrite Z.eqb_refl. by apply bool_decide_eq_true.
Qed.
Lemma informed_group_delete now g k : ready (.= KGroup g) k -> informed (guardLastGlobalAdminGroupDeleteOn bypass now g k).
Proof.
  intros Hk. unfold guardLastGlobalAdminGroupDeleteOn. case_bool_decide as Hb; [apply informed_proper; intros fs Hp Ha; by destruct (proper_nonempty fs)|].
  apply informed_assignments. intros fs asg Ha Hin Hl. destruct (groupHoldsGlobalAdminRole bypass asg g) eqn:Eh; cbn [negb].
  - apply safe_resolve with (.= KGroup g); [|done|done]. split_and!; intros a b H; split; try done. intros [= ->]. cbn in H. by rewrite Z.eqb_refl in H.
  - apply Hk, spared_among; [done|done| |done]. intros u g' r Hg Hr _. split_and!; [|done|done]. intros [= ->]. by eapply not_held.
Qed.
Lemma informed_membership now u g k : ready (.= KUserGroup u g) k -> informed (guardLastGlobalAdminMembershipOn bypass now u g k).
Proof.
  intros Hk. unfold guardLastGlobalAdminMembershipOn. case_bool_decide as Hb; [apply informed_proper; intros fs Hp Ha; by destruct (proper_nonempty fs)|].
  apply informed_assignments. intros fs asg Ha Hin Hl. destruct (groupHoldsGlobalAdminRole bypass asg g) eqn:Eh; cbn [negb].
  - apply safe_resolve with (.= KUserGroup u g); [|done|done]. split_and!; intros a b H; split; try done. intros [= -> ->]. cbn in H. by rewrite !Z.eqb_refl in H.
  - apply Hk, spared_among; [done|done| |done]. intros u' g' r Hg Hr _. split_and!; [done|done|]. intros [= -> ->]. by eapply not_held.
Qed.

(** *** The guarded removal of a role *)
Section removal.
Context (now u r : Z).
Abbreviation W := (.= KUserRole u r).

Lemma live_state state : state ∈ globalAdminLiveAccountStates -> AccountLoginBlocked state = false.
Proof. intros [-> |[-> |[-> |?%not_elem_of_nil]%elem_of_cons]%elem_of_cons]%elem_of_cons; [by vm_compute..|done]. Qed.
Lemma ready_lock_users ids k : forall found, (forall b, ready W (k b)) -> ready W (lock_users ids found k).
Proof. induction ids as [|v ids IH]; intros found Hk; cbn [lock_users]; [done|]. apply ready_lock. intros o. by apply IH. Qed.
Lemma ready_live_users ids k : (forall b, ready W (k b)) -> ready W (liveUsers ids k).
Proof. intros Hk. destruct ids; [by apply Hk|]. apply ready_query. intros ids'. by apply ready_lock_users. Qed.
Lemma ready_lock_members g ids k : forall acc, (forall acc, ready W (k acc)) -> ready W (lock_members g ids acc k).
Proof. induction ids as [|v ids IH]; intros acc Hk; cbn [lock_members]; [done|]. apply ready_lock. intros o. by apply IH. Qed.
Lemma ready_live_holder a k : (forall b, ready W (k b)) -> ready W (globalAdminAssignmentHasLiveHolder a k).
Proof.
  intros Hk. destruct a as [v r'|g r']; [by apply ready_live_users|]. apply ready_lock. intros [[]|]; try apply Hk. apply ready_query. intros ids. apply ready_lock_members.
  intros acc. by apply ready_live_users.
Qed.
Lemma ready_survives asg k : ready W k -> ready W (survives u r asg k).
Proof.
  intros Hk. induction asg as [|a asg IH]; cbn [survives]; [apply ready_err|]. destruct (match a with AUser _ _ => _ | AGroup _ _ => _ end); [done|].
  apply ready_live_holder. by intros [].
Qed.

Lemma safe_live_users fs ids k : (forall v, v ∈ ids -> route v (spared fs W)) -> safe (k false) (knows fs nothing) -> (forall b, ready W (k b)) -> safe (liveUsers ids k) (knows fs nothing).
Proof.
  intros Hr Hf Hk. unfold liveUsers. destruct ids as [|v0 ids0] eqn:Ei; [done|]. rewrite <- Ei in *. clear Ei. apply safe_query. intros T _ _.
  set (live := List.filter _ _). destruct live as [|v live'] eqn:El; [exists []; split; [constructor|done]|]. exists [FLive v].
  assert (Hv : In v live) by (rewrite El; by left). apply filter_In in Hv as [Hin Hlive]. apply list_elem_of_In in Hin. split.
  - apply Forall_singleton. destruct (T !! KUser v) as [w|] eqn:ET; [|done]. exists w. split; [done|]. destruct w as [|[] st []| | |]; try done. exists st. split; [done|]. by apply live_state, (bool_decide_eq_true_1 _ Hlive).
  - apply ready_lock_users; [done|]. exists v. split; [split; [by left|done]|]. assert (Hh : Forall (holder W ([FLive v] ++ fs)) [v]) by (apply holder_more, Forall_singleton; split; [done|by apply Hr]).
    by apply Forall_singleton in Hh as [_ ?].
Qed.
Lemma safe_lock_members g fs ids k : (forall acc, (forall v, v ∈ acc -> FMember v g ∈ fs) -> safe (k acc) (knows fs nothing)) -> forall acc, (forall v, v ∈ ids ++ acc -> FMember v g ∈ fs) ->
  safe (lock_members g ids acc k) (knows fs nothing).
Proof.
  intros Hk. induction ids as [|v ids IH]; intros acc Hm; cbn [lock_members]; [by apply Hk|]. apply safe_lock; [apply IH; set_solver|]. intros w _. exists []. split; [constructor|]. apply IH. set_solver.
Qed.

(** The grant of a listed assignment is known; whether its group is live is not yet. *)
Definition grant_fact (a : assignment) : fact := match a with AUser v r' => FUserRole v r' | AGroup g r' => FGroupRole g r' end.
Definition granted (fs : list fact) (a : assignment) : Prop := grant_fact a ∈ fs.
Lemma granted_more fs fs' asg : Forall (granted fs) asg -> Forall (granted (fs' ++ fs)) asg.
Proof. intros H. eapply Forall_impl; [exact H|]. intros a. unfold granted. rewrite elem_of_app. auto. Qed.
Lemma safe_live_holder fs a k : granted fs a -> a <> AUser u r -> (forall fs', safe (k false) (knows (fs' ++ fs) nothing)) -> (forall b, ready W (k b)) ->
  safe (globalAdminAssignmentHasLiveHolder a k) (knows fs nothing).
Proof.
  intros Hg Hne Hf Hk. destruct a as [v r'|g r']; cbn [globalAdminAssignmentHasLiveHolder].
  - apply safe_live_users; [|by apply (Hf [])|done]. intros v' ->%list_elem_of_singleton. apply (route_direct _ _ r'). split; [done|]. by intros [= -> ->].
  - apply safe_lock; [by apply (Hf [])|]. intros w Hw. destruct w as [| |[]| |]; try done; try (exists []; split; [constructor|by apply Hf]). exists [FGroupLive g]. split; [intros T _ HT; apply Forall_singleton; by exists (RGroup false)|].
    apply safe_query. intros T _ _. set (ids := omap _ _). exists ((fun v => FMember v g) <$> ids). split.
    + apply Forall_forall. intros f (v&->&([k' w]&HT%elem_of_map_to_list&Ho)%list_elem_of_omap)%list_elem_of_fmap. destruct k', w; cbn in Ho; try done.
      destruct (Z.eqb_spec group g); [|done]. simplify_eq. by exists RMember.
    + apply safe_lock_members; [|intros v; rewrite app_nil_r, elem_of_app; intros Hv; left; apply list_elem_of_fmap; eauto].
      intros acc Hacc. apply safe_live_users; [|rewrite app_assoc; apply Hf|done]. intros v Hv%Hacc. apply (route_group _ _ g r'); (split; [|done]); [set_solver| |done].
      rewrite !elem_of_app. by right; right.
Qed.
Lemma safe_survives k asg : ready W k -> forall fs, Forall (granted fs) asg -> safe (survives u r asg k) (knows fs nothing).
Proof.
  intros Hk. induction asg as [|a asg IH]; intros fs Hg; cbn [survives]; [done|]. assert (Hg' := Hg). inversion Hg' as [|? ? Ha Hasg]; subst.
  destruct (match a with AUser _ _ => _ | AGroup _ _ => _ end) eqn:E; [by apply IH|]. apply safe_live_holder; [done| | |].
  - intros ->. by rewrite !Z.eqb_refl in E.
  - intros fs'. apply IH. by apply granted_more.
  - intros []; [done|by apply ready_survives].
Qed.

Lemma safe_lock_grants fs l k : (forall l', l' ⊆ l -> safe (k l') (knows fs nothing)) -> safe (lock_grants now l [] k) (knows fs nothing).
Proof.
  intros Hk. assert (H : forall rest acc, acc ⊆ l -> rest ⊆ l -> safe (lock_grants now rest acc k) (knows fs nothing)); [|apply H; set_solver].
  induction rest as [|a rest IH]; intros acc Hacc Hrest; cbn [lock_grants]; [by apply Hk|]. apply safe_lock; [apply IH; set_solver|].
  intros w _. exists []. split; [constructor|]. apply IH; set_solver.
Qed.
Lemma grants_hold T l : permanent T -> (forall a, a ∈ l -> exists e, T !! assignment_key a = Some (RGrant e)) -> Forall (holds T) (grant_fact <$> admin_grants bypass l).
Proof.
  intros Hp Hl. apply Forall_forall. intros f (a&->&[Ha%list_elem_of_In Hr]%list_elem_of_In%filter_In)%list_elem_of_fmap. destruct (Hl a Ha) as (e&He).
  apply bool_decide_eq_true in Hr. rewrite (Hp _ _ He) in He. exists (RGrant None). by destruct a.
Qed.
Lemma granted_facts fs l : Forall (granted ((grant_fact <$> l) ++ fs)) l.
Proof. apply Forall_forall. intros a Ha. apply elem_of_app. left. apply list_elem_of_fmap. eauto. Qed.

Lemma informed_removal k : ready W k -> informed (ListGlobalAdminAssignmentsForUpdate bypass now (fun asg => survives u r asg k)).
Proof.
  intros Hk fs _. unfold ListGlobalAdminAssignmentsForUpdate. case_bool_decide; [done|]. apply safe_query. intros T1 [Hp1 _] _. eexists. split.
  { apply grants_hold; [done|]. intros a ([k' w]&HT%elem_of_map_to_list&Ho)%(proj1 (list_elem_of_omap (user_assignment now) _ _)). destruct k', w; cbn in Ho; try done. destruct (live_grant _ _); simplify_eq. by eexists. }
  set (us := admin_grants bypass _). apply safe_lock_grants. intros us' Hus. apply safe_query. intros T2 [Hp2 _] _. eexists. split.
  { apply grants_hold; [done|]. intros a ([k' w]&HT%elem_of_map_to_list&Ho)%(proj1 (list_elem_of_omap (global_group_grant now) _ _)). destruct k', w; cbn in Ho; try done. destruct (live_grant _ _); simplify_eq. by eexists. }
  set (gs := admin_grants bypass _). apply safe_lock_grants. intros gs' Hgs. apply safe_survives; [done|]. apply Forall_app. split.
  - apply granted_more, Forall_forall. intros a Ha%Hus. by apply (proj1 (Forall_forall _ _) (granted_facts fs us)).
  - apply Forall_forall. intros a Ha%Hgs. by apply (proj1 (Forall_forall _ _) (granted_facts _ gs)).
Qed.
End removal.

(** * The writes *)

Definition writes (W : key -> Prop) (p : prog) : Prop := forall fs, admin_among (spared fs W) -> safe p (knows fs W).
Lemma ready_writes W p : writes W p -> ready W p.
Proof. intros H fs Ha. eapply safe_wider; [|by apply H]. by intros k []. Qed.
Lemma writes_done W : writes W (Ret (Ok ())).
Proof. intros fs. apply safe_done. Qed.
Lemma writes_err W e : writes W (Ret (Err e)).
Proof. by intros fs _. Qed.
Lemma at_key_key key T k r : at_key key T k r = true -> k = key.
Proof. by intros [H%bool_decide_eq_true _]%andb_true_iff. Qed.
Lemma writes_update key sel upd k : (forall T k r, sel T k r = true -> k = key) -> (forall r e, upd r = Some (RGrant e) -> r = RGrant e) -> (forall n, writes (.= key) (k n)) -> writes (.= key) (Update sel upd k).
Proof. intros Hs Hu Hk fs Ha. apply safe_knows_update; [done| |intros n; by apply Hk]. intros T k' r e _ He. left. by apply Hu. Qed.
Lemma writes_affected W e k n : writes W k -> writes W (affected e k n).
Proof. intros Hk. unfold affected. destruct (n =? 0)%nat; [apply writes_err|done]. Qed.
Lemma put_state_grant st r e : put_state st r = Some (RGrant e) -> r = RGrant e.
Proof. by destruct r; intros [=]; subst. Qed.
Lemma put_active_grant st r e : put_active st r = Some (RGrant e) -> r = RGrant e.
Proof. by destruct r; intros [=]; subst. Qed.
Lemma put_deleted_grant st r e : put_deleted st r = Some (RGrant e) -> r = RGrant e.
Proof. by destruct r; intros [=]; subst. Qed.
Lemma set_state_fenced (P : prog -> Prop) fence u from st : (forall p, ready (.= KUser u) p -> P (fence p)) -> P (set_account_state fence u from st).
Proof.
  intros Hf. apply Hf. assert (Hw : ready (.= KUser u) (LockUserForUpdate u (fun _ _ => SetAccountState u st (Ret (Ok ()))))).
  { apply ready_lock. intros [[| |[]| |]|]; try apply ready_err. apply ready_writes, writes_update; [apply at_key_key|apply put_state_grant|]. intros n. apply writes_affected, writes_done. }
  destruct (accountStateTransitionRevokes _ _); [|done]. apply ready_lock. intros [[| | | |]|]; try done. destruct (negb _); [apply ready_err|done].
Qed.
Lemma informed_grants now k : informed k -> informed (lockGlobalAdminGrantsOn bypass now k).
Proof. rewrite !informed_ready. apply ready_grants. Qed.
Lemma informed_fence now target k : ready (.= KUser target) k -> informed (fenceLastAdminDeactivationOn bypass now target k).
Proof. intros Hk. apply informed_target; cbn [negb]; [|done]. by apply informed_grants, informed_deactivation. Qed.
Lemma ready_deactivate u k : (forall active state, writes (.= KUser u) (k active state)) -> ready (.= KUser u) (LockUserForUpdate u k).
Proof. intros Hk. apply ready_lock. intros [[| |[]| |]|]; try apply ready_err. all: by apply ready_writes. Qed.
Lemma writes_active u a from k : writes (.= KUser u) k -> writes (.= KUser u) (UpdateUserIfActiveStateMatches u a from k).
Proof. intros Hk. apply writes_update; [by intros ??? [?%at_key_key _]%andb_true_iff|apply put_active_grant|]. intros n. by apply writes_affected. Qed.
Lemma writes_delete_user u : writes (.= KUser u) (store_DeleteUser u (Ret (Ok ()))).
Proof. apply writes_update; [apply at_key_key|apply put_deleted_grant|]. intros n. apply writes_affected, writes_done. Qed.
Lemma writes_delete key e : writes (.= key) (Update (at_key key) (fun _ => None) (affected e (Ret (Ok ())))).
Proof. apply writes_update; [apply at_key_key|done|]. intros n. apply writes_affected, writes_done. Qed.

(** * The operations *)

Definition start : asrt := fun _ b L => b = ∅ /\ L = [].
Lemma start_stable : stable start.
Proof. by intros D D' b L [-> ->]. Qed.

(** With the lock comes an administrator: the invariant has one. *)
Lemma live_admin_facts D : live_admin D -> exists fs, Forall (holds D) fs /\ admin_among (.∈ fs).
Proof.
  intros (u&Hu&Hr). destruct Hr as [r Hr|g r Hg Hr Hm].
  - exists [FLive u; FUserRole u r]. split; [by repeat constructor|]. exists u. split; [by left|]. apply (route_direct _ _ r). by right; left.
  - exists [FLive u; FGroupLive g; FGroupRole g r; FMember u g]. split; [by repeat constructor|]. exists u. split; [by left|]. apply (route_group _ _ g r); set_solver.
Qed.
Lemma safe_named p : informed p -> safe (named p) start.
Proof.
  intros Hp. split; [done|]. intros r. exists (fun D b L => exists A, (stable A /\ exists fs, admin_among (.∈ fs) /\ A = knows fs nothing) /\ A D b L). split_and!.
  - apply (one_of_stable _ _ (fun A => exists fs, admin_among (.∈ fs) /\ A = knows fs nothing)).
  - intros D b L [_ Ha] [-> ->] _ _. destruct (live_admin_facts D Ha) as (fs&Hf&Hfs). exists (knows fs nothing). split; [split; [apply knows_stable|by exists fs]|].
    split_and!; [by left|done|by intros k v Hv|by intros k e Hv].
  - apply safe_any. intros A (Hst&fs&Ha&->). split; [done|by apply Hp].
Qed.
Lemma safe_start_query {A} (f : table -> A) k : (forall a, safe (k a) start) -> safe (Query f k) start.
Proof. intros H. apply safe_select_one. intros D b L _ HA. exists start. split_and!; [apply start_stable|done|apply H]. Qed.

(** ** Operations without the lock *)

(** Their writes take no fact away, whatever else happens. *)
Definition adds : asrt := fun D b _ => (forall f v, b !! fact_key f = Some v -> holds D f -> exists r, v = Some r /\ fact_ok f r) /\ (forall k e, b !! k = Some (Some (RGrant e)) -> e = None).
Lemma adds_stable : stable adds.
Proof. intros D D' b L [Hb Hp] _ Hk _. split; [|done]. intros f v Hv (r&Hr&Hok). apply (Hb f v Hv). exists r. rewrite <- (Hk (fact_key f)); [done|]. left. by rewrite Hv. Qed.
Lemma adds_start D b L : start D b L -> adds D b L.
Proof. intros [-> _]. by split; intros ??; rewrite lookup_empty. Qed.
Lemma adds_view D b L : adds D b L -> grows D (view b D).
Proof. intros [Hb _] f Hf. unfold holds. rewrite lookup_view. destruct (b !! fact_key f) as [v|] eqn:Ev; [|done]. destruct (Hb f v Ev Hf) as (r&->&Hok). by exists r. Qed.
Lemma safe_adds_done : safe (Ret (Ok ())) adds.
Proof.
  intros D b L [Hperm Ha] HA. split; [split|].
  - intros k e. rewrite lookup_view. destruct (b !! k) as [v|] eqn:Eb; cbn; [intros ->; by eapply HA|apply Hperm].
  - eapply admin_among_mono; [|exact Ha]. by eapply adds_view.
  - intros L' _ _ _. by eapply adds_view.
Qed.
Lemma safe_adds_lock m key wh k : (forall o, safe (k o) adds) -> safe (Lock m key wh k) adds.
Proof. intros Hk. split; [apply Hk|]. intros r. exists adds. split_and!; [apply adds_stable|done|apply Hk]. Qed.
Lemma safe_adds_query {A} (f : table -> A) k : (forall a, safe (k a) adds) -> safe (Query f k) adds.
Proof. intros H. apply safe_select_one. intros D b L _ HA. exists adds. split_and!; [apply adds_stable|done|apply H]. Qed.
Lemma safe_adds_insert key row k : (forall e, row = RGrant e -> e = None) -> safe k adds -> safe (Insert key row k) adds.
Proof.
  intros Hr Hk. exists adds. split_and!; [apply adds_stable| |done]. intros D b L _ [Hb Hp] Hd _. split.
  - intros f v [[He _]|[_ Hv]]%lookup_insert_Some Hf; [|by apply Hb]. destruct Hf as (r&Hf&_). congruence.
  - intros k' e [[_ [= ->]]|[_ Hv]]%lookup_insert_Some; [by apply Hr|by eapply Hp].
Qed.
Lemma safe_adds_update sel upd k : (forall T key r f, sel T key r = true -> fact_key f = key -> fact_ok f r -> exists r', upd r = Some r' /\ fact_ok f r') ->
  (forall r e, upd r = Some (RGrant e) -> r = RGrant e \/ e = None) -> (forall n, safe (k n) adds) -> safe (Update sel upd k) adds.
Proof.
  intros Hu Hg Hk. exists (fun f _ D b L => (exists T, f = sel T) /\ adds D b L). split_and!.
  - intros f keys D D' b L [Hf HA] Hi Hl Hkp. split; [done|]. by eapply adds_stable.
  - intros D b L _ HA. split; [by eexists|done].
  - intros f key keys D b L [Hperm _] [[T ->] HA]. destruct (view b D !! key) as [r|] eqn:Ev; [|by split; [eexists|]]. destruct (sel T key r) eqn:Es; [|by split; [eexists|]].
    split; [by eexists|]. split.
    + intros f v [[He <-]|[_ Hv]]%lookup_insert_Some Hf; [|by apply HA]. destruct (adds_view D b L HA f Hf) as (r'&Hr'&Hok). rewrite <- He, Ev in Hr'. injection Hr' as <-. by apply (Hu T key r f).
    + intros k' e [[<- He]|[_ Hv]]%lookup_insert_Some; [|by eapply HA]. destruct (Hg r e He) as [-> |?]; [|done]. rewrite lookup_view in Ev.
      destruct (b !! key) as [[w|]|] eqn:Eb; cbn in Ev; simplify_eq; [by eapply HA|by eapply Hperm].
  - intros n. exists adds. split_and!; [apply adds_stable|by intros f D b L _ [_ ?]|apply Hk].
Qed.

Lemma safe_adds_affected e k n : safe k adds -> safe (affected e k n) adds.
Proof. intros Hk. unfold affected. by destruct (n =? 0)%nat. Qed.
Lemma safe_adds_state u from st : AccountLoginBlocked st = false -> safe (set_account_state (fun k => k) u from st) adds.
Proof.
  intros Hst. assert (Hw : safe (LockUserForUpdate u (fun _ _ => SetAccountState u st (Ret (Ok ())))) adds).
  { apply safe_adds_lock. intros [[]|]; try done. apply safe_adds_update; [|by intros r e ?%put_state_grant; left|intros n; apply safe_adds_affected, safe_adds_done].
    intros T key r f ->%at_key_key Hkey Hok. destruct f; cbn in Hkey; try done. destruct Hok as (st'&->&_). eexists. split; [done|]. by exists st. }
  unfold set_account_state. destruct (accountStateTransitionRevokes _ _); [|done]. apply safe_adds_lock. intros [[]|]; try done. by destruct (negb _).
Qed.
Lemma safe_adds_restore key e : safe (Update (fun _ k r => bool_decide (k = key) && negb (not_deleted r)) (put_deleted false) (affected e (Ret (Ok ())))) adds.
Proof.
  apply safe_adds_update; [|by intros r e' ?%put_deleted_grant; left|intros n; apply safe_adds_affected, safe_adds_done].
  intros T k r f [_ Hd]%andb_true_iff _ Hok. destruct f; cbn in Hok; [destruct Hok as (?&->&_)|destruct Hok as [_ ->]|subst r|destruct Hok as [_ ->]|subst r]; done.
Qed.
Lemma safe_adds_assign now key : (exists p r, key = KUserRole p r \/ key = KGroupRole p r) -> safe (assign now key None) adds.
Proof.
  intros Hkey. assert (Hc : safe (Insert key (RGrant None) (Ret (Ok ()))) adds) by (apply safe_adds_insert; [by intros e [= <-]|apply safe_adds_done]).
  apply safe_adds_query. intros [[| | |e|]|]; try done. destruct (live_grant now e); [done|]. apply safe_adds_update; [|by intros r e' [= <-]; right|intros n; by destruct (n =? 0)%nat; [|apply safe_adds_done]].
  intros T k r f ->%at_key_key Hf Hok. exists (RGrant None). split; [done|]. destruct Hkey as (p&r'&[-> | ->]); destruct f; try done; by destruct Hok.
Qed.
Lemma safe_adds_insert_all rows : Forall (fun kr => forall e, kr.2 = RGrant e -> e = None) rows -> safe (insert_all rows) adds.
Proof. induction 1 as [|[k r] rows Hr _ IH]; [apply safe_adds_done|]. by apply safe_adds_insert. Qed.
Lemma safe_adds_drop sel k : (forall T key r f, sel T key r = true -> fact_key f = key -> ~ fact_ok f r) -> (forall n, safe (k n) adds) -> safe (Update sel (fun _ => None) k) adds.
Proof. intros Hs Hk. apply safe_adds_update; [|done|done]. intros T key r f H1 H2 H3. by destruct (Hs T key r f H1 H2). Qed.

Inductive admin_operation : prog -> Prop :=
| op_suspend now u from : admin_operation (SuspendUser bypass now u from)
| op_suspend_retry now u from : admin_operation (SuspendUser_retry bypass now u from)
| op_deactivate now u wasActive : admin_operation (DeactivateUser bypass now u wasActive)
| op_delete_user now u : admin_operation (DeleteUser bypass now u)
| op_scim_update now u owned active : admin_operation (UpdateSCIMUser bypass now u owned active)
| op_scim_profile u owned : admin_operation (scimUpdateUserTx u owned None)
| op_scim_delete now u owned : admin_operation (DeprovisionSCIMUser bypass now u owned)
| op_remove_role now u r : admin_operation (RemoveUserRole bypass now u r)
| op_group_role now g r : admin_operation (RemoveRoleFromGroup bypass now g r)
| op_member now u g : admin_operation (RemoveUserFromGroup bypass now u g)
| op_scim_members now g removals : (length removals <= 1)%nat -> admin_operation (scimRemoveMembers bypass now g removals)
| op_delete_group now g : admin_operation (DeleteGroup bypass now g)
| op_assign now u r : admin_operation (assignUserRole now u r None)
| op_assign_group now g r : admin_operation (assignGroupRole now g r None)
| op_add_member u g : admin_operation (AddUserToGroup u g)
| op_create_user u active state roles : admin_operation (CreateUserWithRoleGrants u active state roles)
| op_create_group g : admin_operation (CreateGroup g)
| op_reactivate u from : admin_operation (ReactivateUser u from)
| op_reset u from : admin_operation (RequirePasswordReset u from)
| op_restore u : admin_operation (RestoreUser u)
| op_restore_group g : admin_operation (RestoreGroup g)
| op_expire before : admin_operation (DeleteExpiredRoleGrants before).

Ltac lock_free := eapply safe_weaken; [intros D b L _; apply adds_start|].
Lemma safe_expire before : safe (DeleteExpiredRoleGrants before) adds.
Proof.
  apply safe_adds_query. intros us. apply safe_adds_query. intros gs.
  assert (Hsweep : forall users found k, safe k adds -> safe (sweep users before found k) adds); [|apply Hsweep, Hsweep, safe_adds_done].
  intros users found k Hk. unfold sweep. destruct found; [|done]. apply safe_adds_drop; [|done]. intros T key r f [He _]%andb_true_iff _ Hok. destruct r as [| | |[t|]|]; try done. destruct f; cbn in Hok; try done; [by destruct Hok as (?&[=]&_)|by destruct Hok as [_ [=]]|by destruct Hok as [_ [=]]].
Qed.
Lemma safe_remove_role now u r : safe (RemoveUserRole bypass now u r) start.
Proof.
  unfold RemoveUserRole, admin_role. case_bool_decide as Hr.
  - apply safe_named, informed_removal, ready_writes, writes_delete.
  - lock_free. apply safe_adds_drop; [|intros n; apply safe_adds_affected, safe_adds_done]. intros T key r' f ->%at_key_key Hf Hok. destruct f; simplify_eq/=. by destruct Hok.
Qed.
Lemma safe_remove_member now u g : safe (RemoveUserFromGroup bypass now u g) start.
Proof.
  apply safe_named, informed_membership, ready_grants, ready_membership, ready_writes. apply writes_update; [apply at_key_key|done|]. intros n. apply writes_done.
Qed.
(** A request that removes one member is the removal of that member. *)
Lemma safe_scim_members now g removals : (length removals <= 1)%nat -> safe (scimRemoveMembers bypass now g removals) start.
Proof.
  destruct removals as [|u [|v removals]]; cbn [length]; intros Hl; [|exact (safe_remove_member now u g)|lia].
  apply safe_named, informed_ready, ready_grants, informed_ready. apply informed_ready, ready_writes, writes_done.
Qed.
Lemma safe_delete_group now g : safe (DeleteGroup bypass now g) start.
Proof.
  apply safe_named, informed_ready, ready_group, informed_ready, informed_group_delete, ready_grants, ready_group_delete, ready_group, ready_writes.
  apply writes_update; [apply at_key_key|apply put_deleted_grant|]. intros n. apply writes_affected, writes_done.
Qed.
Lemma safe_delete_user now u : safe (DeleteUser bypass now u) start.
Proof.
  apply safe_named, informed_deactivation, ready_fence, ready_deactivate. intros active state. apply writes_active. case_bool_decide; [apply writes_delete_user|].
  apply writes_update; [by intros ??? [?%at_key_key _]%andb_true_iff|apply put_state_grant|]. intros n. apply writes_affected, writes_delete_user.
Qed.
Lemma writes_move u from to k : writes (.= KUser u) k -> writes (.= KUser u) (move_state u from to k).
Proof.
  intros Hk. unfold move_state. case_bool_decide; [done|]. apply writes_update; [by intros ??? [?%at_key_key _]%andb_true_iff|apply put_state_grant|]. intros n. by apply writes_affected.
Qed.
(** A change that leaves an active account active and gives no state that blocks it. *)
Lemma safe_scim_widens u owned active : active <> Some false -> safe (scimUpdateUserTx u owned active) adds.
Proof.
  intros Hw. apply safe_adds_lock. intros [[| active0 state _| | |]|]; try done. destruct owned; [|done]. cbn [negb].
  destruct (applySCIMActiveState active0 state active) as [isActive st] eqn:E. unfold applySCIMActiveState in E.
  assert (Hu : safe (UpdateUserIfActiveStateMatches u isActive active0 (Ret (Ok ()))) adds).
  { apply safe_adds_update; [|by intros r e ?%put_active_grant; left|intros n; apply safe_adds_affected, safe_adds_done].
    intros T key r f [->%at_key_key Ha]%andb_true_iff Hf Hok. destruct f; try done. destruct Hok as (st'&->&Hst). exists (RUser isActive st' false). split; [done|]. exists st'. split; [|done].
    apply Bool.eqb_prop in Ha. by destruct active as [[]|]; simplify_eq. }
  unfold move_state. destruct (bool_decide (st = state)) eqn:Hne; [exact Hu|]. apply bool_decide_eq_false in Hne. apply safe_adds_update; [|by intros r e ?%put_state_grant; left|intros n; by apply safe_adds_affected].
  intros T key r f [->%at_key_key _]%andb_true_iff Hf Hok. destruct f; try done. destruct Hok as (st'&->&Hst). exists (RUser true st false). split; [done|]. exists st. split; [done|].
  destruct active as [[]|]; try done; injection E as <- <-; [|done]. by case_bool_decide; [vm_compute|].
Qed.
Lemma safe_scim_update now u owned active : safe (UpdateSCIMUser bypass now u owned active) start.
Proof.
  destruct (decide (active = Some false)) as [-> |Hne].
  - apply safe_named, informed_deactivation, ready_fence, ready_deactivate. intros a st. destruct owned; [|apply writes_err]. apply writes_move, writes_active, writes_done.
  - lock_free. destruct active as [[]|]; [|done|]; (apply safe_adds_lock; intros [?|]; [by apply safe_scim_widens|done]).
Qed.
Lemma safe_scim_delete now u owned : safe (DeprovisionSCIMUser bypass now u owned) start.
Proof.
  apply safe_named, informed_deactivation, ready_fence, ready_deactivate. intros a st. destruct owned; [|apply writes_err]. apply writes_move, writes_active, writes_delete_user.
Qed.
Lemma safe_create_user u active state roles : safe (CreateUserWithRoleGrants u active state roles) adds.
Proof. apply safe_adds_insert_all. constructor; [done|]. apply Forall_fmap, Forall_true. by intros r e [= <-]. Qed.
Lemma safe_add_member u g : safe (AddUserToGroup u g) adds.
Proof.
  apply safe_adds_query. intros [?|]; [|done]. apply safe_adds_query. intros []; [|done]. apply safe_adds_query. intros []; [apply safe_adds_done|]. apply safe_adds_insert; [done|apply safe_adds_done].
Qed.

Lemma admin_operation_safe p : admin_operation p -> safe p start.
Proof.
  destruct 1.
  - apply safe_named, informed_deactivation, set_state_fenced. apply ready_fence.
  - apply safe_named, set_state_fenced. apply informed_fence.
  - apply safe_named, informed_deactivation, ready_fence, ready_deactivate. intros ??. apply writes_active, writes_done.
  - apply safe_delete_user.
  - apply safe_scim_update.
  - lock_free. by apply safe_scim_widens.
  - apply safe_scim_delete.
  - apply safe_remove_role.
  - apply safe_start_query. intros []; [|done]. apply safe_named, informed_group_role, ready_grants, ready_group_role, ready_writes, writes_delete.
  - apply safe_remove_member.
  - by apply safe_scim_members.
  - apply safe_delete_group.
  - lock_free. apply safe_adds_assign. eauto.
  - lock_free. apply safe_adds_assign. eauto.
  - lock_free. apply safe_add_member.
  - lock_free. apply safe_create_user.
  - lock_free. apply safe_adds_insert; [done|apply safe_adds_done].
  - lock_free. by apply safe_adds_state.
  - lock_free. by apply safe_adds_state.
  - lock_free. apply safe_adds_restore.
  - lock_free. apply safe_adds_restore.
  - lock_free. apply safe_expire.
Qed.

(** * Administrators *)

Lemma live_admin_administers D : live_admin D -> exists u, forall now, can_administer bypass now D u = true.
Proof.
  intros (u&(r&Hu&state&->&Hst)&Hr). exists u. intros now. unfold can_administer, user_row, holds_admin_role. cbn in Hu. rewrite Hu, Hst, existsb_app. cbn.
  destruct Hr as [r Hr|g r Hg Hr Hm]; [by rewrite (direct_found now u r)|by rewrite (group_found now u g r), orb_true_r].
Qed.
Lemma administers_live_admin now D u : permanent D -> can_administer bypass now D u = true -> live_admin D.
Proof.
  unfold can_administer, user_row. intros Hp H. destruct (D !! KUser u) as [[|active state []| | |]|] eqn:Eu; try done. destruct active; [|done]. apply andb_true_iff in H as [Hst%negb_true_iff Hr].
  exists u. split; [exists (RUser true state false); split; [done|by exists state]|]. apply existsb_exists in Hr as (r&Hr&Hb%bool_decide_eq_true).
  apply in_app_iff in Hr as [Hr%list_elem_of_In|Hr%list_elem_of_In]; apply list_elem_of_omap in Hr as ([k w]&HD%elem_of_map_to_list&Ho); destruct k, w; cbn in Ho; try done.
  - destruct (Z.eqb_spec user u); [|done]. destruct (live_grant _ _); simplify_eq/=. apply (route_direct _ _ r). exists (RGrant ExpiresAt). split; [done|]. by rewrite (Hp _ _ HD).
  - unfold is_member, group_live in Ho. destruct (D !! KUserGroup u group) as [[]|] eqn:Em; try done. destruct (D !! KGroup group) as [[| |[]| |]|] eqn:Eg; try done.
    destruct (live_grant _ _); simplify_eq/=. apply (route_group _ _ group r); [by exists (RGroup false)| |by exists RMember]. exists (RGrant ExpiresAt). split; [done|]. by rewrite (Hp _ _ HD).
Qed.
End safe.

(** C13. An administrator remains.  Take any interleaving of: suspending, deactivating and deleting
    users, also by the identity provider; taking roles from users and groups; removing members
    from a group one member to a request; deleting groups; and everything that grants (without an
    end date), restores, creates or sweeps.  Every committed state has an account that can log in
    and whose roles, resolved at any time, include an administrator's, provided that the first
    state had one, that no grant of the first state has an end date, and that the named lock is
    held until the request that took it ends.  Each proviso is needed: a provisioning request that
    removes several members at once can remove the last two administrators
    ([scim_removes_last_admins]), a grant with an end date counts as an administrator's until it
    runs out ([expiring_admin_counts]), and without the named lock the fence alone is not enough
    ([fence_needs_the_lock]). *)
Theorem last_admin_survives bypass now0 u0 D s : permanent D -> can_administer bypass now0 D u0 = true -> reachable (admin_operation bypass) D s ->
  exists u, forall now, can_administer bypass now (s_db s) u = true.
Proof.
  intros Hp Hu Hr. apply live_admin_administers. apply (reachable_Inv (admin_operation bypass) (Inv bypass) (keeps bypass)) with D; [apply admin_operation_safe| |done].
  split; [done|by eapply administers_live_admin].
Qed.

(** Two administrators, one of them through a group; the other suspends herself while the group
    is being deleted. *)
Definition two_admins : table := list_to_map
  [(KNamed, RNamed); (KUser 1, RUser true AccountActive false); (KUserRole 1 9, RGrant None);
   (KUser 2, RUser true AccountActive false); (KGroup 5, RGroup false); (KGroupRole 5 9, RGrant None); (KUserGroup 2 5, RMember)].
Definition suspend_and_delete : list act :=
  [Begin 1%nat (SuspendUser {[9]} 0 1 AccountActive); Begin 2%nat (DeleteGroup {[9]} 0 5); Go 1%nat 24; Commit 1%nat; Go 2%nat 5].
Definition suspended_first : table := (played suspend_and_delete two_admins).1.
Lemma permanent_list l : Forall (fun kr => match kr.2 with RGrant (Some _) => False | _ => True end) l -> permanent (list_to_map l).
Proof. intros Hl k e H%elem_of_list_to_map_2. rewrite Forall_forall in Hl. specialize (Hl _ H). by destruct e. Qed.
Lemma last_admin_survives_witness : user_row suspended_first 1 = Some (true, AccountSuspended) /\ exists u, forall now, can_administer {[9]} now suspended_first u = true.
Proof.
  split; [vm_compute; reflexivity|].
  apply (last_admin_survives {[9]} 0 1 two_admins (mkState suspended_first (played suspend_and_delete two_admins).2)); [apply permanent_list; repeat constructor|vm_compute; reflexivity|].
  apply played_reachable. repeat constructor.
Defined.

(** One member to a request matters: each of two members who are the last administrators counts
    on the other, and the request removes both. *)
Definition two_members : table := list_to_map
  [(KNamed, RNamed); (KGroup 5, RGroup false); (KGroupRole 5 9, RGrant None);
   (KUser 1, RUser true AccountActive false); (KUserGroup 1 5, RMember); (KUser 2, RUser true AccountActive false); (KUserGroup 2 5, RMember)].
Example scim_removes_last_admins :
  let '(r, D) := run (scimRemoveMembers {[9]} 0 5 [1; 2]) two_members in
  can_administer {[9]} 0 two_members 1 = true /\ can_administer {[9]} 0 two_members 2 = true /\
  r = Ok () /\ can_administer {[9]} 0 D 1 = false /\ can_administer {[9]} 0 D 2 = false.
Proof. vm_compute. auto. Qed.
Example scim_keeps_the_last_admin :
  run (scimRemoveMembers {[9]} 0 5 [1]) (run (scimRemoveMembers {[9]} 0 5 [2]) two_members).2 =
  (Err ErrLastAdmin, (run (scimRemoveMembers {[9]} 0 5 [2]) two_members).2).
Proof. vm_compute. reflexivity. Qed.

(** The end date matters: a grant that runs out counts as an administrator's while it lasts, so
    the last permanent administrator can be removed; when it has run out there is none. *)
Definition stand_in : table := list_to_map
  [(KNamed, RNamed); (KUser 1, RUser true AccountActive false); (KUserRole 1 9, RGrant None); (KUser 2, RUser true AccountActive false); (KUserRole 2 9, RGrant (Some 100))].
Example expiring_admin_counts :
  let '(r, D) := run (RemoveUserRole {[9]} 0 1 9) stand_in in
  r = Ok () /\ can_administer {[9]} 0 D 2 = true /\ can_administer {[9]} 100 D 1 = false /\ can_administer {[9]} 100 D 2 = false.
Proof. vm_compute. auto. Qed.

(** So does the named lock: with the fence alone, a request that found its target no administrator
    suspends the one the others have come to count on. *)
Definition one_admin : table := list_to_map
  [(KNamed, RNamed); (KUser 1, RUser true AccountActive false); (KUserRole 1 9, RGrant None); (KUser 2, RUser true AccountActive false)].
Definition fence_only : list act :=
  [Begin 1%nat (set_account_state (fenceLastAdminDeactivationOn {[9]} 0 2) 2 AccountActive AccountSuspended); Go 1%nat 2;
   Begin 2%nat (assignUserRole 0 2 9 None); Go 2%nat 2; Commit 2%nat;
   Begin 3%nat (RemoveGlobalAdminRoleGuarded {[9]} 0 1 9); Go 3%nat 9; Commit 3%nat; Go 1%nat 5; Commit 1%nat].
Example fence_needs_the_lock :
  match play fence_only one_admin ∅ with
  | Some (D, _) => can_administer {[9]} 0 D 1 = false /\ can_administer {[9]} 0 D 2 = false /\ user_row D 2 = Some (true, AccountSuspended)
  | None => False
  end.
Proof. vm_compute. auto. Qed.
(** The states the store counts as live are not all that may log in: blanks are trimmed there. *)
Example live_states_differ : AccountLoginBlocked (go " active") = false /\ bool_decide (go " active" ∈ globalAdminLiveAccountStates) = false.
Proof. vm_compute. auto. Qed.
