(* ===== verification/AdminVerdict.v ===== *)
(** What a last-administrator guard answers: run alone, it refuses exactly the request after which
    no account could administer the install (src/internal/core/scim.go
    guardLastAdminDeactivationOn and the readers it calls in authz.go). *)
From Stdlib Require Import ZArith Lia.
From stdpp Require Import base numbers tactics sets list gmap.
From S2P Require Import TxDB Prelude GoStr AdminGuard AdminSafe.

Lemma exec_query {A} (f : table -> A) k D : exec (Query f k) D = exec (k (f D)) D.
Proof. unfold Query. cbn [exec]. by rewrite list_to_map_matching. Qed.

Section verdict.
Context (bypass : gset Z) (now : Z) (D : table).

(** * The readers, as functions of the rows *)

Definition members (g : Z) : list Z := omap (member_of g D) (map_to_list D).
Definition added (exM : Z -> Z -> bool) (a : assignment) : list Z := match a with AUser u _ => [u] | AGroup g _ => List.filter (fun u => negb (exM g u)) (members g) end.
Definition counted (exA : assignment -> bool) (a : assignment) : bool := admin_role bypass (a_role a) && negb (exA a).
Definition usable (u : Z) : bool := match user_row D u with Some (true, state) => negb (AccountLoginBlocked state) | _ => false end.

Lemma elem_of_add_holder u v hs : u ∈ add_holder hs v <-> u ∈ hs \/ u = v.
Proof. unfold add_holder. case_bool_decide; [naive_solver|]. by rewrite elem_of_app, list_elem_of_singleton. Qed.
Lemma elem_of_fold_add u vs : forall hs, u ∈ fold_left add_holder vs hs <-> u ∈ hs \/ u ∈ vs.
Proof. induction vs as [|v vs IH]; intros hs; cbn; [set_solver|]. rewrite IH, elem_of_add_holder, elem_of_cons. naive_solver. Qed.

Lemma exec_expand exA exM k l : forall hs, exists hs', exec (expand bypass exA exM l hs k) D = exec (k hs') D /\
  forall u, u ∈ hs' <-> u ∈ hs \/ exists a, a ∈ l /\ counted exA a = true /\ u ∈ added exM a.
Proof.
  induction l as [|a l IH]; intros hs; cbn [expand]; [exists hs; split; [done|]; intros u; split; [by left|]; intros [?|(?&?%not_elem_of_nil&_)]; done|].
  destruct (negb _ || _) eqn:Ec.
  - destruct (IH hs) as (hs'&He&Hs). exists hs'. split; [done|]. intros u. rewrite Hs. assert (Hn : counted exA a = false) by (unfold counted; by destruct (admin_role _ _), (exA a)).
    split; (intros [?|(b&Hb&?&?)]; [by left|right; exists b]); [set_solver|]. apply elem_of_cons in Hb as [-> |Hb]; [congruence|done].
  - assert (Hc : counted exA a = true) by (unfold counted; by destruct (admin_role _ _), (exA a)).
    assert (Hstep : forall hs1, (forall u, u ∈ hs1 <-> u ∈ hs \/ u ∈ added exM a) -> exists hs', exec (expand bypass exA exM l hs1 k) D = exec (k hs') D /\
      forall u, u ∈ hs' <-> u ∈ hs \/ exists b, b ∈ a :: l /\ counted exA b = true /\ u ∈ added exM b).
    { intros hs1 H1. destruct (IH hs1) as (hs'&He&Hs). exists hs'. split; [done|]. intros u. rewrite Hs, H1. setoid_rewrite elem_of_cons. naive_solver. }
    destruct a as [v r|g r].
    + apply Hstep. intros u. cbn. by rewrite elem_of_add_holder, list_elem_of_singleton.
    + unfold ListGroupMembersAt. rewrite exec_query. apply Hstep. intros u. apply elem_of_fold_add.
Qed.
Lemma exec_filter k hs : forall kept, exec (filterActiveHoldersOn hs kept k) D = exec (k (kept ++ List.filter usable hs)) D.
Proof.
  induction hs as [|u hs IH]; intros kept; cbn [filterActiveHoldersOn List.filter]; [by rewrite app_nil_r|]. unfold GetUser. rewrite exec_query. unfold usable at 1.
  destruct (user_row D u) as [[[] st]|]; [destruct (AccountLoginBlocked st)|..]; rewrite IH; cbn; by rewrite <- ?app_assoc.
Qed.
Lemma exec_resolve exA exM l k : exists hs, exec (resolveGlobalAdminHoldersOn bypass l exA exM (some_holder k)) D = (if bool_decide (hs = []) then (Err ErrLastAdmin, D) else exec k D) /\
  forall u, u ∈ hs <-> usable u = true /\ exists a, a ∈ l /\ counted exA a = true /\ u ∈ added exM a.
Proof.
  unfold resolveGlobalAdminHoldersOn. destruct (exec_expand exA exM (fun hs => filterActiveHoldersOn hs [] (some_holder k)) l []) as (hs&He&Hs). exists (List.filter usable hs). split.
  - rewrite He, exec_filter. cbn [app]. by destruct (List.filter usable hs).
  - intros u. rewrite list_elem_of_In, filter_In, <- list_elem_of_In, Hs. set_solver.
Qed.

End verdict.

(** * Who counts *)

Section administers.
Context (bypass : gset Z) (now : Z).

Definition grants (T : table) (k : key) (r : Z) : Prop := r ∈ bypass /\ exists e, T !! k = Some (RGrant e) /\ live_grant now e = true.
Definition via_group (T : table) (u g r : Z) : Prop := T !! KGroup g = Some (RGroup false) /\ T !! KUserGroup u g = Some RMember /\ grants T (KGroupRole g r) r.
Definition entitled (T : table) (u : Z) : Prop := (exists r, grants T (KUserRole u r) r) \/ exists g r, via_group T u g r.
Definition assignments (T : table) : list assignment := omap (user_assignment now) (map_to_list T) ++ omap (group_assignment now T) (map_to_list T).

Lemma user_listed T u r : AUser u r ∈ assignments T <-> exists e, T !! KUserRole u r = Some (RGrant e) /\ live_grant now e = true.
Proof.
  unfold assignments. rewrite elem_of_app, !list_elem_of_omap. split.
  - intros [([k w]&HD%elem_of_map_to_list&Ho)|([k w]&HD&Ho)]; destruct k, w; cbn in Ho; try done; [|by destruct (_ && _)]. destruct (live_grant _ _) eqn:El; simplify_eq. eauto.
  - intros (e&HD%elem_of_map_to_list&El). left. eexists. split; [done|]. cbn. by rewrite El.
Qed.
Lemma group_listed_iff T g r : AGroup g r ∈ assignments T <-> T !! KGroup g = Some (RGroup false) /\ exists e, T !! KGroupRole g r = Some (RGrant e) /\ live_grant now e = true.
Proof.
  unfold assignments. rewrite elem_of_app, !list_elem_of_omap. split.
  - intros [([k w]&HD&Ho)|([k w]&HD%elem_of_map_to_list&Ho)]; destruct k, w; cbn in Ho; try done; [by destruct (live_grant _ _)|]. unfold group_live in Ho.
    destruct (T !! KGroup group) as [[| |[]| |]|] eqn:Eg; try done. destruct (live_grant _ _) eqn:El; simplify_eq/=. eauto.
  - intros (Hg&e&HD%elem_of_map_to_list&El). right. eexists. split; [done|]. cbn. unfold group_live. by rewrite Hg, El.
Qed.
Lemma elem_of_members T g u : usable T u = true -> u ∈ members T g <-> T !! KUserGroup u g = Some RMember.
Proof.
  intros Hu. unfold members. rewrite list_elem_of_omap. split.
  - intros ([k w]&HD%elem_of_map_to_list&Ho). destruct k, w; cbn in Ho; try done. destruct (Z.eqb_spec group g); [|done]. case_bool_decide; by simplify_eq/=.
  - intros HD%elem_of_map_to_list. eexists. split; [done|]. cbn. rewrite Z.eqb_refl, bool_decide_true; [done|]. unfold usable in Hu. by destruct (user_row T u).
Qed.
Lemma holds_admin_role_iff T u : holds_admin_role bypass now T u = true <-> entitled T u.
Proof.
  unfold holds_admin_role, entitled. rewrite existsb_exists. setoid_rewrite in_app_iff. setoid_rewrite <- list_elem_of_In. unfold GetUserRoleIDsAt, GetUserGroupRoleIDsAt. setoid_rewrite list_elem_of_omap.
  split.
  - intros (r&Hr&Hb%bool_decide_eq_true). destruct Hr as [([k w]&HD%elem_of_map_to_list&Ho)|([k w]&HD%elem_of_map_to_list&Ho)]; destruct k, w; cbn in Ho; try done.
    + destruct (Z.eqb_spec user u); [|done]. destruct (live_grant _ _) eqn:El; simplify_eq/=. left. exists r. split; [done|]. eauto.
    + unfold is_member, group_live in Ho. destruct (T !! KUserGroup u group) as [[]|] eqn:Em; try done. destruct (T !! KGroup group) as [[| |[]| |]|] eqn:Eg; try done.
      destruct (live_grant _ _) eqn:El; simplify_eq/=. right. exists group, r. split_and!; [done|done|]. split; [done|]. eauto.
  - intros [(r&Hb&e&HD&El)|(g&r&Hg&Hm&Hb&e&HD&El)]; exists r; (split; [|by apply bool_decide_eq_true]); [left|right]; eexists; (split; [by apply elem_of_map_to_list|]); cbn.
    + by rewrite Z.eqb_refl, El. + unfold is_member, group_live. by rewrite Hg, Hm, El.
Qed.
Lemma can_administer_iff T u : can_administer bypass now T u = true <-> usable T u = true /\ entitled T u.
Proof.
  rewrite <- holds_admin_role_iff. unfold can_administer, usable. destruct (user_row T u) as [[[] st]|]; [|split; [done|by intros []]..]. by rewrite andb_true_iff.
Qed.

(** What a guard leaves out of the count is what the row [key] takes part in. *)
Definition leaves_out (key : key) (exA : assignment -> bool) (exM : Z -> Z -> bool) : Prop :=
  (forall u r, exA (AUser u r) = true <-> key = KUser u \/ key = KUserRole u r) /\
  (forall g r, exA (AGroup g r) = true <-> key = KGroup g \/ key = KGroupRole g r) /\
  (forall g u, exM g u = true <-> key = KUser u \/ key = KUserGroup u g).

Lemma usable_delete T key u : usable (delete key T) u = true <-> usable T u = true /\ key <> KUser u.
Proof.
  unfold usable, user_row. destruct (decide (key = KUser u)) as [-> |Hne]; [rewrite lookup_delete_eq; by split; [|intros []]|]. rewrite lookup_delete_ne by done. naive_solver.
Qed.
Lemma grants_delete T key k r : grants (delete key T) k r <-> grants T k r /\ key <> k.
Proof. unfold grants. setoid_rewrite lookup_delete_Some. naive_solver. Qed.
Lemma entitled_delete T key u : entitled (delete key T) u <->
  (exists r, grants T (KUserRole u r) r /\ key <> KUserRole u r) \/ exists g r, via_group T u g r /\ key <> KGroup g /\ key <> KUserGroup u g /\ key <> KGroupRole g r.
Proof. unfold entitled, via_group. setoid_rewrite grants_delete. setoid_rewrite lookup_delete_Some. naive_solver. Qed.

Lemma left_after T key exA exM u : leaves_out key exA exM ->
  (usable T u = true /\ exists a, a ∈ assignments T /\ counted bypass exA a = true /\ u ∈ added T exM a) <-> can_administer bypass now (delete key T) u = true.
Proof.
  intros (HU&HG&HM). rewrite can_administer_iff, usable_delete, entitled_delete. unfold counted. setoid_rewrite andb_true_iff. setoid_rewrite negb_true_iff. split.
  - intros (Hu&a&Hin&[Hr%bool_decide_eq_true Hx]&Ha). destruct a as [v r|g r]; cbn in Ha, Hr.
    + apply list_elem_of_singleton in Ha as <-. apply not_true_iff_false in Hx. rewrite HU in Hx. apply user_listed in Hin. split; [naive_solver|]. left. exists r. split; [by split|naive_solver].
    + apply list_elem_of_In, filter_In in Ha as [Hm%list_elem_of_In Hx2%negb_true_iff]. apply not_true_iff_false in Hx, Hx2. rewrite HG in Hx. rewrite HM in Hx2.
      apply elem_of_members in Hm; [|done]. apply group_listed_iff in Hin as [Hg He]. split; [naive_solver|]. right. exists g, r. split; [|naive_solver]. split_and!; [done|done|by split].
  - intros ((Hu&Hk)&[(r&[Hr He]&Hk2)|(g&r&(Hg&Hm&Hr&He)&Hk2)]); (split; [done|]).
    + exists (AUser u r). split_and!; [by apply user_listed|by apply bool_decide_eq_true| |by left]. apply not_true_iff_false. rewrite HU. naive_solver.
    + exists (AGroup g r). split_and!; [by apply group_listed_iff|by apply bool_decide_eq_true| |].
      * apply not_true_iff_false. rewrite HG. naive_solver.
      * apply list_elem_of_In, filter_In. split; [by apply list_elem_of_In, elem_of_members|]. apply negb_true_iff, not_true_iff_false. rewrite HM. naive_solver.
Qed.

(** * Verdicts *)

Definition user_ids (T : table) : list Z := omap (fun kr : key * row => match kr.1 with KUser u => Some u | _ => None end) (map_to_list T).
Lemma can_administer_listed T key u : can_administer bypass now (delete key T) u = true -> u ∈ user_ids T.
Proof.
  rewrite can_administer_iff, usable_delete. unfold usable, user_row. intros [[Hu _] _]. destruct (T !! KUser u) as [w|] eqn:E; [|done].
  apply list_elem_of_omap. exists (KUser u, w). split; [by apply elem_of_map_to_list|done].
Qed.
(** No account could administer the install without the row [key]. *)
Definition strands (T : table) (key : key) : bool := negb (existsb (can_administer bypass now (delete key T)) (user_ids T)).
Definition verdict (refuse : bool) (k : prog) (T : table) : res admin_err unit * table := if refuse then (Err ErrLastAdmin, T) else exec k T.

Lemma resolve_verdict T key exA exM k : leaves_out key exA exM ->
  exec (resolveGlobalAdminHoldersOn bypass (assignments T) exA exM (some_holder k)) T = verdict (strands T key) k T.
Proof.
  intros Hx. destruct (exec_resolve bypass T exA exM (assignments T) k) as (hs&->&Hs). assert (Hb : bool_decide (hs = []) = strands T key); [|by rewrite Hb].
  apply eq_true_iff_eq. unfold strands. rewrite bool_decide_eq_true, negb_true_iff, <- not_true_iff_false, existsb_exists. split.
  - intros -> (u&_&Hu). apply (left_after T key exA exM u Hx), Hs in Hu. by apply not_elem_of_nil in Hu.
  - intros Hn. destruct hs as [|u hs]; [done|]. destruct Hn. exists u. assert (Hu : can_administer bypass now (delete key T) u = true) by (apply (left_after T key exA exM u Hx), Hs; by left).
    split; [|done]. by apply list_elem_of_In, (can_administer_listed T key).
Qed.
Lemma exec_assignments T k : exec (ListProjectRoleAssignments now k) T = exec (k (assignments T)) T.
Proof. unfold ListProjectRoleAssignments. by rewrite !exec_query. Qed.
Lemma no_role_held T g : bypass = ∅ -> groupHoldsGlobalAdminRole bypass (assignments T) g = false.
Proof. intros He. apply not_true_iff_false. unfold groupHoldsGlobalAdminRole. rewrite existsb_exists. intros (a&_&[_ Hb%bool_decide_eq_true]%andb_true_iff). set_solver. Qed.
End administers.

Ltac out := split_and!; intros ??; cbn; rewrite ?andb_true_iff, ?Z.eqb_eq; intuition (try congruence).
(** C20. Run alone, each last-administrator guard gives the answer of a definition that does
    not walk grants at all: it refuses exactly if the row to be given up concerns an
    administrator and, without that row, no account could log in with an administrator's role;
    otherwise it changes nothing and lets the request go on. *)
Theorem guard_verdicts bypass now k T :
  (forall target, exec (guardLastAdminDeactivationOn bypass now target k) T = verdict (holds_admin_role bypass now T target && strands bypass now T (KUser target)) k T) /\
  (forall g r, exec (guardLastGlobalAdminGroupRoleOn bypass now g r k) T = verdict (admin_role bypass r && strands bypass now T (KGroupRole g r)) k T) /\
  (forall g, exec (guardLastGlobalAdminGroupDeleteOn bypass now g k) T = verdict (groupHoldsGlobalAdminRole bypass (assignments now T) g && strands bypass now T (KGroup g)) k T) /\
  (forall u g, exec (guardLastGlobalAdminMembershipOn bypass now u g k) T = verdict (groupHoldsGlobalAdminRole bypass (assignments now T) g && strands bypass now T (KUserGroup u g)) k T).
Proof.
  split_and!.
  - intros target. unfold guardLastAdminDeactivationOn, targetHasGlobalAdminRoleOn. rewrite !exec_query. fold (holds_admin_role bypass now T target).
    destruct (holds_admin_role _ _ _ _); [|done]. cbn [negb andb]. rewrite exec_assignments. apply resolve_verdict. out.
  - intros g r. unfold guardLastGlobalAdminGroupRoleOn. destruct (admin_role bypass r); [|done]. cbn [negb andb]. rewrite exec_assignments. apply resolve_verdict. out.
  - intros g. unfold guardLastGlobalAdminGroupDeleteOn. case_bool_decide; [by rewrite no_role_held|]. rewrite exec_assignments. destruct (groupHoldsGlobalAdminRole _ _ _); [|done]. apply resolve_verdict. out.
  - intros u g. unfold guardLastGlobalAdminMembershipOn. case_bool_decide; [by rewrite no_role_held|]. rewrite exec_assignments. destruct (groupHoldsGlobalAdminRole _ _ _); [|done]. apply resolve_verdict. out.
Qed.
