(* ===== verification/SoD.v ===== *)
(** Separation of duties (src/internal/core/sod.go): policies that name two permissions no
    principal may hold together, the scan that reports who does, the checks in front of every
    grant, and the grants themselves: a role to a user, to a group or to a machine, a user to
    a group, a new user with its roles (rbac_management.go, jit_access.go, groups.go,
    machine_token.go, users.go, named_lock_fence.go).

    The grants are rows of the tables of Rbac.v.  Any statement may fail: a run is given what
    becomes of its statements, one boolean each, and an exhausted list means that the rest
    succeed.  A grant checks twice, before its transaction and first thing in it; the state
    before ([db0]) and the state the transaction sees ([db]) are two arguments, because
    others may commit in between.  The transaction itself is one step: the row locks and the
    named locks it takes keep the other grants to its principals out until it ends. *)
From Stdlib Require Import ZArith Lia.
From stdpp Require Import base numbers tactics sets list.
From S2P Require Import Prelude GoStr Rbac Authz.

(** * Rows *)

Record SoDPolicy := mkPolicy {
  p_ID : Z; p_Name : bytes; p_Description : bytes; p_PermissionA : bytes; p_PermissionB : bytes; p_CreatedBy : Z; p_CreatedAt : Z }.
Record User := mkUser {
  u_ID : Z; u_Username : bytes; u_UsernameFolded : bytes; u_Email : bytes; u_EmailFolded : bytes; u_IsActive : bool; u_deleted : bool }.
Record MachineIdentity := mkMachine { m_ID : Z; m_ProjectID : Z; m_Name : bytes; m_State : bytes; m_CreatedAt : Z }.

(** [sd_scopes], [sd_columns]: the column assignable_scope of a role, and resource and action
    of a permission. *)
Record sodDB := mkSoD {
  sd_rbac : rbacDB; sd_users : list User; sd_machines : list MachineIdentity; sd_policies : list SoDPolicy;
  sd_env_project : list (Z * Z); sd_scopes : Z -> bytes; sd_columns : Z -> bytes * bytes; sd_audit : list (bytes * bool) }.
Definition with_rbac (db : sodDB) (r : rbacDB) : sodDB :=
  mkSoD r (sd_users db) (sd_machines db) (sd_policies db) (sd_env_project db) (sd_scopes db) (sd_columns db) (sd_audit db).
Definition with_policies (db : sodDB) (l : list SoDPolicy) : sodDB :=
  mkSoD (sd_rbac db) (sd_users db) (sd_machines db) l (sd_env_project db) (sd_scopes db) (sd_columns db) (sd_audit db).
Definition with_users (db : sodDB) (l : list User) : sodDB :=
  mkSoD (sd_rbac db) l (sd_machines db) (sd_policies db) (sd_env_project db) (sd_scopes db) (sd_columns db) (sd_audit db).
Definition with_audit (db : sodDB) (a : bytes * bool) : sodDB :=
  mkSoD (sd_rbac db) (sd_users db) (sd_machines db) (sd_policies db) (sd_env_project db) (sd_scopes db) (sd_columns db) (sd_audit db ++ [a]).

Definition with_user_roles (r : rbacDB) (l : list UserRole) : rbacDB :=
  mkRbac (rb_projects r) (rb_environments r) (rb_groups r) l (rb_group_roles r) (rb_user_groups r) (rb_machine_roles r) (rb_roles r) (rb_perms r).
Definition with_group_roles (r : rbacDB) (l : list GroupRole) : rbacDB :=
  mkRbac (rb_projects r) (rb_environments r) (rb_groups r) (rb_user_roles r) l (rb_user_groups r) (rb_machine_roles r) (rb_roles r) (rb_perms r).
Definition with_user_groups (r : rbacDB) (l : list UserGroup) : rbacDB :=
  mkRbac (rb_projects r) (rb_environments r) (rb_groups r) (rb_user_roles r) (rb_group_roles r) l (rb_machine_roles r) (rb_roles r) (rb_perms r).
Definition with_machine_roles (r : rbacDB) (l : list MachineIdentityRole) : rbacDB :=
  mkRbac (rb_projects r) (rb_environments r) (rb_groups r) (rb_user_roles r) (rb_group_roles r) (rb_user_groups r) l (rb_roles r) (rb_perms r).

(** * Statements *)

Inductive sod_err :=
| ErrStorage | ErrRoleNotFound | ErrUserNotFound | ErrGroupNotFound | ErrMachineIdentityNotFound | ErrSoDPolicyNotFound
| ErrSoDValidation | ErrSoDPermissionDenied | ErrSoDNotFound | ErrPermissionDenied | ErrRoleScopeInvalid | ErrValidation
| ErrDomainNotAllowed | ErrNotFound | ErrRoleAlreadyAssigned | ErrUserAlreadyExists
(** [sodBlockedErr] and its siblings: the grant would complete this policy. *)
| SoDBlocked (pol : SoDPolicy).

Definition R (A : Type) : Type := list bool -> res sod_err A * list bool.
Definition ret {A} (a : A) : R A := fun fs => (Ok a, fs).
Definition fail {A} (e : sod_err) : R A := fun fs => (Err e, fs).
Definition bind {A B} (m : R A) (k : A -> R B) : R B :=
  fun fs => match m fs with (Ok a, fs) => k a fs | (Err e, fs) => (Err e, fs) end.
(** Look at the outcome of [m] instead of passing its error on. *)
Definition try {A B} (m : R A) (k : res sod_err A -> R B) : R B := fun fs => let '(r, fs) := m fs in k r fs.
Definition stmt {A} (a : res sod_err A) : R A :=
  fun fs => match fs with true :: fs => (Err ErrStorage, fs) | false :: fs => (a, fs) | [] => (a, []) end.
Notation "'let!' x ':=' m 'in' k" := (bind m (fun x => k))
  (at level 10, x pattern, m at level 100, k at level 200, format "'let!'  x  ':='  m  'in' '//' k") : go_scope.

Definition find_row {A} (e : sod_err) (P : A -> bool) (l : list A) : R A := stmt (match List.find P l with Some a => Ok a | None => Err e end).
Definition GetRole (db : sodDB) (id : Z) : R Role := find_row ErrRoleNotFound (fun r => role_ID r =? id) (rb_roles (sd_rbac db)).
Definition GetRoleByName (db : sodDB) (name : bytes) : R Role :=
  find_row ErrRoleNotFound (fun r => bool_decide (role_Name r = name)) (rb_roles (sd_rbac db)).
Definition live_user (id : Z) (u : User) : bool := (u_ID u =? id) && negb (u_deleted u).
Definition GetUser (db : sodDB) (id : Z) : R User := find_row ErrUserNotFound (live_user id) (sd_users db).
Definition GetGroup (db : sodDB) (id : Z) : R () := stmt (if live (rb_groups (sd_rbac db)) id then Ok () else Err ErrGroupNotFound).
Definition GetMachineIdentity (db : sodDB) (id : Z) : R MachineIdentity := find_row ErrMachineIdentityNotFound (fun m => m_ID m =? id) (sd_machines db).
Definition GetSoDPolicy (db : sodDB) (id : Z) : R SoDPolicy := find_row ErrSoDPolicyNotFound (fun p => p_ID p =? id) (sd_policies db).

Definition maxUnboundedListRows : nat := Z.to_nat 10000.
Definition listed_policies (db : sodDB) : list SoDPolicy := take maxUnboundedListRows (sort_by p_ID (sd_policies db)).
Definition ListSoDPolicies (db : sodDB) : R (list SoDPolicy) := stmt (Ok (listed_policies db)).

Definition maxStoragePageSize : Z := 10000.
Definition maxStoragePage : Z := 10000.
Definition clampPageSize (pageSize : Z) : Z := if maxStoragePageSize <? pageSize then maxStoragePageSize else if pageSize <? 0 then 0 else pageSize.
Definition clampPage (page : Z) : Z := if page <? 1 then 1 else if maxStoragePage <? page then maxStoragePage else page.
Definition live_users (db : sodDB) : list User := List.filter (fun u => negb (u_deleted u)) (sd_users db).
(** [ListUsers] with a page and a page size and no other filter. *)
Definition ListUsers (db : sodDB) (Page PageSize : Z) : R (list User * Z) :=
  let! total := stmt (Ok (Z.of_nat (length (live_users db)))) in
  let pageSize := clampPageSize PageSize in
  let page := clampPage Page in
  let! users := stmt (Ok (take (Z.to_nat pageSize) (drop (Z.to_nat ((page - 1) * pageSize)) (live_users db)))) in
  ret (users, total).

Definition ListGroupMembers (db : sodDB) (groupID : Z) : R (list User) :=
  let! _ := GetGroup db groupID in
  stmt (Ok (concat (map (fun u => map (fun _ => u) (List.filter (fun m => (ug_UserID m =? u_ID u) && (ug_GroupID m =? groupID)) (rb_user_groups (sd_rbac db))))
    (live_users db)))).
Definition ListAllMachineIdentities (db : sodDB) : R (list MachineIdentity) := stmt (Ok (sort_by (fun m => - m_CreatedAt m) (sd_machines db))).

(** ** Permissions of a principal, at every scope *)

(** The join of permissions with role_permissions, for the roles [ids]. *)
Definition joined (pt : permTables) (ids : list Z) (p : Permission) : bool :=
  existsb (fun rp => (perm_ID p =? rp_PermissionID rp) && bool_decide (rp_RoleID rp ∈ ids)) (pt_role_permissions pt).
Definition permissions_of (pt : permTables) (ids : list Z) : list Permission := List.filter (joined pt ids) (pt_permissions pt).

Definition direct_ids (r : rbacDB) (now userID : Z) : list Z :=
  map ur_RoleID (List.filter (fun x => (ur_UserID x =? userID) && not_expired now (ur_ExpiresAt x)) (rb_user_roles r)).
Definition member_any (r : rbacDB) (userID groupID : Z) : bool := existsb (fun m => (ug_GroupID m =? groupID) && (ug_UserID m =? userID)) (rb_user_groups r).
Definition via_group_ids (r : rbacDB) (now userID : Z) : list Z :=
  map gr_RoleID (List.filter (fun g => live (rb_groups r) (gr_GroupID g) && member_any r userID (gr_GroupID g) && not_expired now (gr_ExpiresAt g)) (rb_group_roles r)).

Definition GetUserPermissions (db : sodDB) (now userID : Z) : R (list Permission) :=
  stmt (Ok (permissions_of (rb_perms (sd_rbac db)) (direct_ids (sd_rbac db) now userID))).
Definition GetUserGroupPermissions (db : sodDB) (now userID : Z) : R (list Permission) :=
  stmt (Ok (permissions_of (rb_perms (sd_rbac db)) (via_group_ids (sd_rbac db) now userID))).
Definition GetRolePermissions (db : sodDB) (roleID : Z) : R (list Permission) := stmt (Ok (permissions_of (rb_perms (sd_rbac db)) [roleID])).
Definition machine_roles (r : rbacDB) (machineID : Z) : list Role :=
  concat (map (fun role => map (fun _ => role) (List.filter (fun x => (mr_RoleID x =? role_ID role) && (mr_MachineID x =? machineID)) (rb_machine_roles r))) (rb_roles r)).
Definition GetMachineRoles (db : sodDB) (machineID : Z) : R (list Role) := stmt (Ok (machine_roles (sd_rbac db) machineID)).
(** The live answer; RoleCache.v shows that a cached one agrees with it. *)
Definition RoleSetHasPermission (db : sodDB) (roleIDs : list Z) (permission : bytes) : R bool :=
  if is_nil roleIDs then ret false else stmt (Ok (set_grants (rb_perms (sd_rbac db)) roleIDs permission)).

(** * Who holds what *)

Definition adminRoleNames : list bytes := [go "super_admin"; go "admin"; go "system_admin"; go "project_admin"].
Definition isAdminRoleName (roleName : bytes) : bool := bool_decide (roleName ∈ adminRoleNames).

Definition scopedRoleIDsOn (db : sodDB) (now userID : Z) (scope : Scope) : R (list Z) :=
  let! direct := stmt (Ok (dedupeUints (user_role_ids (sd_rbac db) now userID scope))) in
  let! viaGroups := stmt (Ok (dedupeUints (group_role_ids (sd_rbac db) now userID scope))) in
  ret (dedupeUints (direct ++ viaGroups)).

Definition global : Scope := mkScope 0 0.
(** [None]: no name *)
Fixpoint first_admin (db : sodDB) (ids : list Z) : R (option bytes) :=
  match ids with
  | [] => ret None
  | id :: ids => try (GetRole db id) (fun r => match r with
      | Ok role => if isAdminRoleName (role_Name role) then ret (Some (role_Name role)) else first_admin db ids
      | Err ErrRoleNotFound => first_admin db ids
      | Err e => fail e
      end)
  end.
Definition isGlobalAdminRoleNameOn (db : sodDB) (now userID : Z) : R (option bytes) :=
  let! ids := scopedRoleIDsOn db now userID global in first_admin db ids.

(** A [map[string]bool] of names: the names it maps to true. *)
Definition nameset := list bytes.
Definition has (s : nameset) (name : bytes) : bool := bool_decide (name ∈ s).
Definition userHeldPermissionSetOn (db : sodDB) (now userID : Z) : R nameset :=
  let! perms := GetUserPermissions db now userID in
  let! groupPerms := GetUserGroupPermissions db now userID in
  ret (map perm_Name perms ++ map perm_Name groupPerms).
Definition rolePermissionNameSetOn (db : sodDB) (roleID : Z) : R nameset :=
  let! perms := GetRolePermissions db roleID in ret (map perm_Name perms).

(** * The scan *)

Record SoDViolation := mkViolation {
  v_PolicyID : Z; v_PolicyName : bytes; v_PrincipalType : bytes; v_UserID : Z; v_Username : bytes; v_Email : bytes;
  v_PermissionA : bytes; v_PermissionB : bytes; v_Detail : bytes; v_Reference : bytes }.
Record SoDViolationsReport := mkReport { r_Violations : list SoDViolation; r_Degraded : bool; r_DegradedReasons : list (bytes * sod_err) }.
Definition degrade (r : SoDViolationsReport) (area : bytes) (e : sod_err) : SoDViolationsReport :=
  mkReport (r_Violations r) true (r_DegradedReasons r ++ [(area, e)]).
Definition append (r : SoDViolationsReport) (l : list SoDViolation) : SoDViolationsReport :=
  mkReport (r_Violations r ++ l) (r_Degraded r) (r_DegradedReasons r).
Definition sodViolationReference (policyID : Z) (principalType : bytes) (principalID : Z) : bytes :=
  go "sod:policy:" ++ FormatUint policyID ++ go ":" ++ principalType ++ go ":" ++ FormatUint principalID.

Definition user_violation (u : User) (detail : bytes) (pol : SoDPolicy) : SoDViolation :=
  mkViolation (p_ID pol) (p_Name pol) (go "user") (u_ID u) (u_Username u) (u_Email u) (p_PermissionA pol) (p_PermissionB pol) detail
    (sodViolationReference (p_ID pol) (go "user") (u_ID u)).
Definition machine_violation (m : MachineIdentity) (pol : SoDPolicy) : SoDViolation :=
  mkViolation (p_ID pol) (p_Name pol) (go "machine") (m_ID m) (m_Name m) [] (p_PermissionA pol) (p_PermissionB pol) []
    (sodViolationReference (p_ID pol) (go "machine") (m_ID m)).

Definition userSoDViolations (db : sodDB) (now : Z) (u : User) (policies : list SoDPolicy) : R (list SoDViolation) :=
  let! adminRole := isGlobalAdminRoleNameOn db now (u_ID u) in
  match adminRole with
  | Some name => ret (map (user_violation u (go "holds all permissions via admin role " ++ bZ 34 :: name ++ [bZ 34])) policies)
  | None =>
      let! held := userHeldPermissionSetOn db now (u_ID u) in
      ret (map (user_violation u []) (List.filter (fun pol => has held (p_PermissionA pol) && has held (p_PermissionB pol)) policies))
  end.

Definition at_user (id : Z) : bytes := go "user_permissions:user=" ++ FormatUint id.
Definition at_machine_roles (id : Z) : bytes := go "machine_roles:machine=" ++ FormatUint id.
Definition at_machine_permission (id pol : Z) : bytes := go "machine_permission:machine=" ++ FormatUint id ++ go ":policy=" ++ FormatUint pol.

Fixpoint appendUserSoDViolations (db : sodDB) (now : Z) (report : SoDViolationsReport) (users : list User) (policies : list SoDPolicy) : R SoDViolationsReport :=
  match users with
  | [] => ret report
  | u :: users =>
      if negb (u_IsActive u) then appendUserSoDViolations db now report users policies
      else try (userSoDViolations db now u policies) (fun uv => match uv with
        | Err e => appendUserSoDViolations db now (degrade report (at_user (u_ID u)) e) users policies
        | Ok uv => appendUserSoDViolations db now (append report uv) users policies
        end)
  end.

(** The policies of one machine. *)
Fixpoint machine_policies (db : sodDB) (m : MachineIdentity) (roleIDs : list Z) (report : SoDViolationsReport) (policies : list SoDPolicy) : R SoDViolationsReport :=
  match policies with
  | [] => ret report
  | pol :: policies =>
      let failed e := machine_policies db m roleIDs (degrade report (at_machine_permission (m_ID m) (p_ID pol)) e) policies in
      try (RoleSetHasPermission db roleIDs (p_PermissionA pol)) (fun hasA => match hasA with
        | Err e => failed e
        | Ok false => machine_policies db m roleIDs report policies
        | Ok true => try (RoleSetHasPermission db roleIDs (p_PermissionB pol)) (fun hasB => match hasB with
            | Err e => failed e
            | Ok false => machine_policies db m roleIDs report policies
            | Ok true => machine_policies db m roleIDs (append report [machine_violation m pol]) policies
            end)
        end)
  end.
Fixpoint machines_loop (db : sodDB) (report : SoDViolationsReport) (machines : list MachineIdentity) (policies : list SoDPolicy) : R SoDViolationsReport :=
  match machines with
  | [] => ret report
  | m :: machines =>
      if negb (bool_decide (m_State m = go "active")) then machines_loop db report machines policies
      else try (GetMachineRoles db (m_ID m)) (fun roles => match roles with
        | Err e => machines_loop db (degrade report (at_machine_roles (m_ID m)) e) machines policies
        | Ok [] => machines_loop db report machines policies
        | Ok roles => let! report := machine_policies db m (map role_ID roles) report policies in machines_loop db report machines policies
        end)
  end.
Definition machineSoDViolations (db : sodDB) (report : SoDViolationsReport) (policies : list SoDPolicy) : R SoDViolationsReport :=
  try (ListAllMachineIdentities db) (fun machines => match machines with
    | Err e => ret (degrade report (go "machine_identities") e)
    | Ok machines => machines_loop db report machines policies
    end).

Definition scanPageSize : Z := 500.
(** The loop over the pages of users; [None]: out of fuel. *)
Fixpoint scan_pages (fuel : nat) (db : sodDB) (now page : Z) (report : SoDViolationsReport) (policies : list SoDPolicy) : R (option SoDViolationsReport) :=
  match fuel with
  | O => ret None
  | S fuel =>
      let! (users, total) := ListUsers db page scanPageSize in
      let! report := appendUserSoDViolations db now report users policies in
      if (Z.of_nat (length users) <? scanPageSize) || (total <=? page * scanPageSize) then ret (Some report)
      else scan_pages fuel db now (page + 1) report policies
  end.
Definition empty_report : SoDViolationsReport := mkReport [] false [].
(** One page more than the users fill. *)
Definition scan_fuel (db : sodDB) : nat := S (Z.to_nat (Z.of_nat (length (live_users db)) / scanPageSize)).
Definition scan_with (db : sodDB) (now : Z) (policies : list SoDPolicy) : R (option SoDViolationsReport) :=
  let! report := scan_pages (scan_fuel db) db now 1 empty_report policies in
  match report with
  | None => ret None
  | Some report => let! report := machineSoDViolations db report policies in ret (Some report)
  end.
Definition DetectSoDViolations (db : sodDB) (now : Z) : R (option SoDViolationsReport) :=
  let! policies := ListSoDPolicies db in
  if is_nil policies then ret (Some empty_report) else scan_with db now policies.
Definition scanPolicyViolations (db : sodDB) (now : Z) (policy : SoDPolicy) : R (option SoDViolationsReport) := scan_with db now [policy].

(** * Policies *)

Definition EventSoDPolicyCreated : bytes := go "sod.policy_created".
Definition EventSoDPolicyDeleted : bytes := go "sod.policy_deleted".
Definition EventSoDPreExistingViolations : bytes := go "sod.pre_existing_violations".

(** A transaction: the body, its audit row, the commit; nothing of it stays when one fails. *)
Definition withAuditedMutation (body : sodDB -> R sodDB) (event : bytes) (db : sodDB) : R sodDB :=
  let! db := body db in
  let! _ := stmt (Ok ()) in
  let! _ := stmt (Ok ()) in
  ret (with_audit db (event, true)).
(** An audit row by itself, which may be lost. *)
Definition write_event (db : sodDB) (event : bytes) (success : bool) (fs : list bool) : sodDB * list bool :=
  match stmt (Ok ()) fs with (Ok _, fs) => (with_audit db (event, success), fs) | (Err _, fs) => (db, fs) end.
(** What a call on the policies returns: its answer, the state it leaves. *)
Definition outcome (A : Type) : Type := res sod_err A * sodDB * list bool.

(** [id]: the key the table assigns. *)
Definition CreateSoDPolicy (db : sodDB) (now actorID id : Z) (name description permA permB : bytes) (fs : list bool) : outcome SoDPolicy :=
  let name := TrimSpace name in let permA := TrimSpace permA in let permB := TrimSpace permB in
  if is_nil name then (Err ErrSoDValidation, db, fs)
  else if is_nil permA || is_nil permB then (Err ErrSoDValidation, db, fs)
  else if bool_decide (permA = permB) then (Err ErrSoDValidation, db, fs)
  else match isGlobalAdminRoleNameOn db now actorID fs with
  | (Err e, fs) => (Err e, db, fs)
  | (Ok None, fs) => let '(db, fs) := write_event db EventSoDPolicyCreated false fs in (Err ErrSoDPermissionDenied, db, fs)
  | (Ok (Some _), fs) =>
      let policy := mkPolicy id name description permA permB actorID now in
      match withAuditedMutation (fun db => stmt (Ok (with_policies db (sd_policies db ++ [policy])))) EventSoDPolicyCreated db fs with
      | (Err e, fs) => (Err e, db, fs)
      | (Ok db, fs) =>
          match scanPolicyViolations db now policy fs with
          | (Ok (Some report), fs) =>
              if is_nil (r_Violations report) then (Ok policy, db, fs)
              else let '(db, fs) := write_event db EventSoDPreExistingViolations true fs in (Ok policy, db, fs)
          | (_, fs) => (Ok policy, db, fs)
          end
      end
  end.

Definition store_DeleteSoDPolicy (id : Z) (db : sodDB) : R sodDB :=
  stmt (let kept := List.filter (fun p => negb (p_ID p =? id)) (sd_policies db) in
        if (length kept =? length (sd_policies db))%nat then Err ErrNotFound else Ok (with_policies db kept)).
Definition DeleteSoDPolicy (db : sodDB) (now actorID id : Z) (fs : list bool) : outcome () :=
  match isGlobalAdminRoleNameOn db now actorID fs with
  | (Err e, fs) => (Err e, db, fs)
  | (Ok adminRole, fs) =>
      let isAdminTier := negb (is_none adminRole) in
      let denied fs := let '(db, fs) := write_event db EventSoDPolicyDeleted false fs in (Err ErrSoDPermissionDenied, db, fs) in
      match GetSoDPolicy db id fs with
      | (Err ErrSoDPolicyNotFound, fs) => if isAdminTier then (Err ErrSoDNotFound, db, fs) else denied fs
      | (Err e, fs) => (Err e, db, fs)
      | (Ok policy, fs) =>
          if negb (actorID =? p_CreatedBy policy) && negb isAdminTier then denied fs
          else match withAuditedMutation (store_DeleteSoDPolicy id) EventSoDPolicyDeleted db fs with
               | (Err e, fs) => (Err e, db, fs)
               | (Ok db, fs) => (Ok (), db, fs)
               end
      end
  end.

(** * The preventive gate *)

Fixpoint sodPolicyNewlyCompletedBy (policies : list SoDPolicy) (held adding : nameset) : option SoDPolicy :=
  match policies with
  | [] => None
  | pol :: policies =>
      if has held (p_PermissionA pol) && has held (p_PermissionB pol) then sodPolicyNewlyCompletedBy policies held adding
      else let hasA := has held (p_PermissionA pol) || has adding (p_PermissionA pol) in
           let hasB := has held (p_PermissionB pol) || has adding (p_PermissionB pol) in
           if hasA && hasB then Some pol else sodPolicyNewlyCompletedBy policies held adding
  end.
Definition blocked_by (pol : option SoDPolicy) : R () := match pol with Some pol => fail (SoDBlocked pol) | None => ret () end.

(** What the roles add; [None]: a role that exempts the grant. *)
Fixpoint adding_of (db : sodDB) (scope : Scope) (roleIDs : list Z) (adding : nameset) : R (option nameset) :=
  match roleIDs with
  | [] => ret (Some adding)
  | roleID :: roleIDs =>
      let! role := GetRole db roleID in
      if isAdminRoleName (role_Name role) then if bool_decide (scope = global) then ret None else adding_of db scope roleIDs adding
      else let! perms := rolePermissionNameSetOn db roleID in adding_of db scope roleIDs (adding ++ perms)
  end.
Definition requireNoSoDViolationOn (db : sodDB) (now userID : Z) (roleIDs : list Z) (scope : Scope) : R () :=
  let! policies := ListSoDPolicies db in
  if is_nil policies then ret ()
  else let! adminRole := isGlobalAdminRoleNameOn db now userID in
       match adminRole with
       | Some _ => ret ()
       | None =>
           let! adding := adding_of db scope roleIDs [] in
           match adding with
           | None => ret ()
           | Some adding =>
               if is_nil adding then ret ()
               else let! held := userHeldPermissionSetOn db now userID in blocked_by (sodPolicyNewlyCompletedBy policies held adding)
           end
       end.
Definition requireNoSoDViolation (db : sodDB) (now userID roleID : Z) : R () := requireNoSoDViolationOn db now userID [roleID] global.

(** [None]: not needed *)
Definition groupGrantSoDContextOn (db : sodDB) (roleID : Z) : R (option (list SoDPolicy * nameset)) :=
  let! policies := ListSoDPolicies db in
  if is_nil policies then ret None
  else let! role := GetRole db roleID in
       if isAdminRoleName (role_Name role) then ret None
       else let! adding := rolePermissionNameSetOn db roleID in
            if is_nil adding then ret None else ret (Some (policies, adding)).
Fixpoint requireGroupGrantNoSoDViolationOn (db : sodDB) (now : Z) (members : list User) (policies : list SoDPolicy) (adding : nameset) : R () :=
  match members with
  | [] => ret ()
  | m :: members =>
      if negb (u_IsActive m) then requireGroupGrantNoSoDViolationOn db now members policies adding
      else let! adminRole := isGlobalAdminRoleNameOn db now (u_ID m) in
           match adminRole with
           | Some _ => requireGroupGrantNoSoDViolationOn db now members policies adding
           | None =>
               let! held := userHeldPermissionSetOn db now (u_ID m) in
               let! _ := blocked_by (sodPolicyNewlyCompletedBy policies held adding) in
               requireGroupGrantNoSoDViolationOn db now members policies adding
           end
  end.

Fixpoint union_of (db : sodDB) (roleIDs : list Z) (held : nameset) : R nameset :=
  match roleIDs with
  | [] => ret held
  | id :: roleIDs => let! perms := rolePermissionNameSetOn db id in union_of db roleIDs (held ++ perms)
  end.
Definition requireMachineGrantNoSoDViolationOn (db : sodDB) (machineID roleID : Z) : R () :=
  let! policies := ListSoDPolicies db in
  if is_nil policies then ret ()
  else let! role := GetRole db roleID in
       if isAdminRoleName (role_Name role) then ret ()
       else let! adding := rolePermissionNameSetOn db roleID in
            if is_nil adding then ret ()
            else let! roles := GetMachineRoles db machineID in
                 let! held := union_of db (map role_ID roles) [] in
                 blocked_by (sodPolicyNewlyCompletedBy policies held adding).

(** The loop of the next gate; [None]: a role that exempts the set. *)
Fixpoint held_of (db : sodDB) (roleIDs : list Z) (held : nameset) : R (option nameset) :=
  match roleIDs with
  | [] => ret (Some held)
  | rid :: roleIDs =>
      let! role := GetRole db rid in
      if isAdminRoleName (role_Name role) then ret None
      else let! perms := rolePermissionNameSetOn db rid in held_of db roleIDs (held ++ perms)
  end.
Definition requireGrantSetNoSoDViolation (db : sodDB) (roleIDs : list Z) : R () :=
  let! policies := ListSoDPolicies db in
  if is_nil policies then ret ()
  else let! held := held_of db roleIDs [] in
       match held with
       | None => ret ()
       | Some held => blocked_by (sodPolicyNewlyCompletedBy policies [] held)
       end.

Fixpoint join_adding (db : sodDB) (grants : list GroupRole) (adding : nameset) : R (option nameset) :=
  match grants with
  | [] => ret (Some adding)
  | g :: grants => try (GetRole db (gr_RoleID g)) (fun r => match r with
      | Err ErrRoleNotFound => join_adding db grants adding
      | Err e => fail e
      | Ok role =>
          if isAdminRoleName (role_Name role) then ret None
          else let! perms := rolePermissionNameSetOn db (gr_RoleID g) in join_adding db grants (adding ++ perms)
      end)
  end.
Definition requireGroupJoinNoSoDViolationOn (db : sodDB) (now userID : Z) (grants : list GroupRole) : R () :=
  if is_nil grants then ret ()
  else let! policies := ListSoDPolicies db in
       if is_nil policies then ret ()
       else let! adminRole := isGlobalAdminRoleNameOn db now userID in
            match adminRole with
            | Some _ => ret ()
            | None =>
                let! adding := join_adding db grants [] in
                match adding with
                | None => ret ()
                | Some adding =>
                    if is_nil adding then ret ()
                    else let! held := userHeldPermissionSetOn db now userID in blocked_by (sodPolicyNewlyCompletedBy policies held adding)
                end
            end.
