(* ===== verification/SoDGrant.v ===== *)
(** The grants that separation of duties stands in front of: their authority checks
    (src/internal/core/authz.go, role_scope_guard.go, membership_lifecycle.go), the fences of
    their transactions (named_lock_fence.go) and their writes (local_rbac.go, local_users.go,
    local_machine_credentials.go), with the removals that only take permissions away. *)
From Stdlib Require Import ZArith Lia.
From stdpp Require Import base numbers tactics sets list.
From S2P Require Import Prelude GoStr Rbac Authz SoD.

(** Who asks: [c_self] is the machine the context names as granter, [c_relay] whether it
    came through a relay. *)
Record call := mkCall { c_actor : Z; c_isMachine : bool; c_self : option Z; c_relay : bool; c_request : reqctx }.
Definition is_system (c : call) : bool := (c_actor c =? 0) && negb (c_isMachine c).

(** * The granter's authority *)

Section authority.
Context {E : Type} (auth : AuthzStore E).

Definition authority (r : res (authz_err E) bool) : R bool := match r with Ok b => ret b | Err _ => fail ErrStorage end.
Definition checkGranterHoldsPermission (c : call) (permName : bytes) (scope : Scope) : R bool :=
  match (if c_isMachine c then c_self c else None) with
  | Some selfMachineID => authority (AuthorizePrincipal auth (c_request c) true selfMachineID permName scope)
  | None => if c_isMachine c then ret false else authority (Authorize auth (c_request c) (c_actor c) permName scope)
  end.

Definition nonSecretsAdminPermissions : list bytes :=
  [go "roles.assign"; go "roles.write"; go "roles.delete"; go "users.write"; go "users.delete"; go "system.write"; go "system.admin"].
Definition roleIsAdminTier (db : sodDB) (perms : list Permission) : bool :=
  existsb (fun p => let '(resource, action) := sd_columns db (perm_ID p) in
    (bool_decide (resource = go "secrets") && (bool_decide (action = go "delete") || bool_decide (action = go "admin"))) ||
    bool_decide (perm_Name p ∈ nonSecretsAdminPermissions)) perms.

Fixpoint holds_each (c : call) (scope : Scope) (perms : list Permission) : R () :=
  match perms with
  | [] => ret ()
  | p :: perms => let! ok := checkGranterHoldsPermission c (perm_Name p) scope in
                  if (ok : bool) then holds_each c scope perms else fail ErrPermissionDenied
  end.
Definition requireGranterHoldsRolePermissionsNoBaseline (db : sodDB) (c : call) (roleID : Z) (scope : Scope) : R () :=
  if is_system c then ret ()
  else let! perms := GetRolePermissions db roleID in
       let! _ := (if c_isMachine c && negb (is_none (c_self c)) && c_relay c then
                    let! role := GetRole db roleID in
                    if isAdminRoleName (role_Name role) || roleIsAdminTier db perms then fail ErrPermissionDenied else ret ()
                  else ret ()) in
       holds_each c scope perms.
Definition requireGranterHoldsRolePermissions (db : sodDB) (c : call) (roleID : Z) (scope : Scope) : R () :=
  if is_system c then ret ()
  else let! ok := checkGranterHoldsPermission c (go "roles.assign") scope in
       if (ok : bool) then requireGranterHoldsRolePermissionsNoBaseline db c roleID scope else fail ErrPermissionDenied.
End authority.

(** * The scope of a role *)

Definition RoleAssignableGlobal := go "global".
Definition RoleAssignableProject := go "project".
Definition RoleAssignableAny := go "any".
Definition RoleAssignableScopes : list bytes := [RoleAssignableGlobal; RoleAssignableProject; RoleAssignableAny].
Definition BuiltinRoleAssignableScopes : list (bytes * bytes) :=
  [(go "super_admin", RoleAssignableAny); (go "admin", RoleAssignableAny); (go "editor", RoleAssignableAny); (go "viewer", RoleAssignableAny);
   (go "auditor", RoleAssignableAny); (go "system_admin", RoleAssignableGlobal); (go "system_auditor", RoleAssignableGlobal);
   (go "system_viewer", RoleAssignableGlobal); (go "alert_operator", RoleAssignableGlobal); (go "project_admin", RoleAssignableProject);
   (go "project_developer", RoleAssignableProject); (go "project_viewer", RoleAssignableProject); (go "project_auditor", RoleAssignableProject)].
Definition DefaultRoleAssignableScope (name : bytes) : bytes :=
  match List.find (fun p => bool_decide (p.1 = name)) BuiltinRoleAssignableScopes with Some p => p.2 | None => RoleAssignableProject end.
Definition EffectiveRoleAssignableScope (db : sodDB) (r : Role) : bytes :=
  if bool_decide (sd_scopes db (role_ID r) ∈ RoleAssignableScopes) then sd_scopes db (role_ID r) else DefaultRoleAssignableScope (role_Name r).
Definition validateRoleScope (db : sodDB) (role : Role) (scope : Scope) : R () :=
  if (sc_ProjectID scope =? 0) && negb (sc_EnvironmentID scope =? 0) then fail ErrRoleScopeInvalid
  else let s := EffectiveRoleAssignableScope db role in
       if bool_decide (s = RoleAssignableProject) then if sc_ProjectID scope =? 0 then fail ErrRoleScopeInvalid else ret ()
       else if bool_decide (s = RoleAssignableGlobal) then if sc_ProjectID scope =? 0 then ret () else fail ErrRoleScopeInvalid
       else ret ().
(** [GetEnvironment]: the project of a live environment. *)
Definition GetEnvironment (db : sodDB) (id : Z) : R (option Z) :=
  stmt (Ok (if live (rb_environments (sd_rbac db)) id then snd <$> List.find (fun e => e.1 =? id) (sd_env_project db) else None)).
Definition environment_in_project (db : sodDB) (scope : Scope) (e : sod_err) : R () :=
  if sc_EnvironmentID scope =? 0 then ret ()
  else let! env := GetEnvironment db (sc_EnvironmentID scope) in
       match env with Some p => if p =? sc_ProjectID scope then ret () else fail e | None => fail e end.
Definition requireScopeValidForRoleModel (db : sodDB) (role : Role) (scope : Scope) : R () :=
  let! _ := validateRoleScope db role scope in environment_in_project db scope ErrRoleScopeInvalid.
Definition requireScopeValidForRole (db : sodDB) (roleID : Z) (scope : Scope) : R () :=
  let! role := GetRole db roleID in requireScopeValidForRoleModel db role scope.
Definition requireEnvironmentInProject (db : sodDB) (scope : Scope) : R () := environment_in_project db scope ErrValidation.

(** * Writes *)

Definition user_role_at (userID roleID : Z) (scope : Scope) (x : UserRole) : bool :=
  (ur_UserID x =? userID) && (ur_RoleID x =? roleID) && (ur_ProjectID x =? sc_ProjectID scope) && (ur_EnvironmentID x =? sc_EnvironmentID scope).
Definition group_role_at (groupID roleID : Z) (scope : Scope) (x : GroupRole) : bool :=
  (gr_GroupID x =? groupID) && (gr_RoleID x =? roleID) && (gr_ProjectID x =? sc_ProjectID scope) && (gr_EnvironmentID x =? sc_EnvironmentID scope).
Definition machine_role_at (machineID roleID : Z) (scope : Scope) (x : MachineIdentityRole) : bool :=
  (mr_MachineID x =? machineID) && (mr_RoleID x =? roleID) && (mr_ProjectID x =? sc_ProjectID scope) && (mr_EnvironmentID x =? sc_EnvironmentID scope).
Definition membership_at (userID groupID projectID : Z) (x : UserGroup) : bool :=
  (ug_UserID x =? userID) && (ug_GroupID x =? groupID) && (ug_ProjectID x =? projectID).

(** Read the row of the key, delete it when it has expired, create. *)
Definition put_grant {A} (at_ : A -> bool) (expires : A -> option Z) (now : Z) (new : A) (rows : list A) : R (list A) :=
  let! existing := stmt (Ok (List.find at_ rows)) in
  let! rows := (match existing with
                | Some x => if not_expired now (expires x) then fail ErrRoleAlreadyAssigned else stmt (Ok (List.filter (fun y => negb (at_ y)) rows))
                | None => ret rows
                end) in
  stmt (Ok (rows ++ [new])).
Definition store_assignUserRole (now userID roleID : Z) (scope : Scope) (expiresAt : option Z) (db : sodDB) : R sodDB :=
  let! rows := put_grant (user_role_at userID roleID scope) ur_ExpiresAt now
    (mkUserRole userID roleID (sc_ProjectID scope) (sc_EnvironmentID scope) expiresAt) (rb_user_roles (sd_rbac db)) in
  ret (with_rbac db (with_user_roles (sd_rbac db) rows)).
Definition store_assignGroupRole (now groupID roleID : Z) (scope : Scope) (expiresAt : option Z) (db : sodDB) : R sodDB :=
  let! rows := put_grant (group_role_at groupID roleID scope) gr_ExpiresAt now
    (mkGroupRole groupID roleID (sc_ProjectID scope) (sc_EnvironmentID scope) expiresAt) (rb_group_roles (sd_rbac db)) in
  ret (with_rbac db (with_group_roles (sd_rbac db) rows)).
Definition store_AddUserToGroup (userID groupID projectID : Z) (db : sodDB) : R sodDB :=
  let! _ := GetUser db userID in
  let! _ := GetGroup db groupID in
  let! existing := stmt (Ok (List.find (membership_at userID groupID projectID) (rb_user_groups (sd_rbac db)))) in
  match existing with
  | Some _ => ret db
  | None => stmt (Ok (with_rbac db (with_user_groups (sd_rbac db) (rb_user_groups (sd_rbac db) ++ [mkUserGroup userID groupID projectID]))))
  end.
Definition store_AssignMachineRole (machineID roleID : Z) (scope : Scope) (db : sodDB) : R sodDB :=
  let! existing := stmt (Ok (List.find (machine_role_at machineID roleID scope) (rb_machine_roles (sd_rbac db)))) in
  match existing with
  | Some _ => fail ErrRoleAlreadyAssigned
  | None => stmt (Ok (with_rbac db (with_machine_roles (sd_rbac db)
      (rb_machine_roles (sd_rbac db) ++ [mkMachineRole machineID roleID (sc_ProjectID scope) (sc_EnvironmentID scope)]))))
  end.

(** ** Removals *)

Definition remove_rows {A} (gone : A -> bool) (rows : list A) : R (list A) :=
  stmt (if existsb gone rows then Ok (List.filter (fun x => negb (gone x)) rows) else Err ErrNotFound).
Definition store_RemoveRole (userID roleID : Z) (scope : Scope) (db : sodDB) : R sodDB :=
  let! rows := remove_rows (user_role_at userID roleID scope) (rb_user_roles (sd_rbac db)) in
  ret (with_rbac db (with_user_roles (sd_rbac db) rows)).
Definition store_RemoveRoleFromGroup (groupID roleID : Z) (scope : Scope) (db : sodDB) : R sodDB :=
  let! rows := remove_rows (group_role_at groupID roleID scope) (rb_group_roles (sd_rbac db)) in
  ret (with_rbac db (with_group_roles (sd_rbac db) rows)).
Definition store_RemoveMachineRole (machineID roleID : Z) (scope : Scope) (db : sodDB) : R sodDB :=
  let! rows := remove_rows (machine_role_at machineID roleID scope) (rb_machine_roles (sd_rbac db)) in
  ret (with_rbac db (with_machine_roles (sd_rbac db) rows)).
Definition store_RemoveUserFromGroup (userID groupID projectID : Z) (db : sodDB) : R sodDB :=
  stmt (Ok (with_rbac db (with_user_groups (sd_rbac db)
    (List.filter (fun x => negb (membership_at userID groupID projectID x)) (rb_user_groups (sd_rbac db)))))).
Definition expired_by (cutoff : Z) (expires : option Z) : bool := match expires with Some e => e <=? cutoff | None => false end.
(** Two reads, and a statement for each kind that has an expired row. *)
Definition sweep {A} (expires : A -> option Z) (cutoff : Z) (rows : list A) : R (list A) :=
  let kept := List.filter (fun x => negb (expired_by cutoff (expires x))) rows in
  if existsb (fun x => expired_by cutoff (expires x)) rows then stmt (Ok kept) else ret kept.
Definition DeleteExpiredRoleGrants (before : Z) (db : sodDB) : R sodDB :=
  let! _ := stmt (Ok ()) in
  let! _ := stmt (Ok ()) in
  let! users := sweep ur_ExpiresAt before (rb_user_roles (sd_rbac db)) in
  let! groups := sweep gr_ExpiresAt before (rb_group_roles (sd_rbac db)) in
  ret (with_rbac db (with_group_roles (with_user_roles (sd_rbac db) users) groups)).

(** * Fences *)

Definition txFence : Type := sodDB -> R ().
Definition noTxFence : txFence := fun _ => ret ().
Definition chainTxFences (a b : txFence) : txFence := fun db => let! _ := a db in b db.
Fixpoint lockUserRowsOn (ids : list Z) : R () := match ids with [] => ret () | _ :: ids => let! _ := stmt (Ok ()) in lockUserRowsOn ids end.
Definition lockNamedKey : R () := stmt (Ok ()).
Definition sodUserGrantFence (now userID : Z) (roleIDs : list Z) (scope : Scope) : txFence := fun db =>
  let! _ := lockUserRowsOn [userID] in requireNoSoDViolationOn db now userID roleIDs scope.
Definition sodGroupKeyFence : txFence := fun _ => lockNamedKey.
Definition sodGroupGrantFence (now groupID roleID : Z) : txFence := fun db =>
  let! members := ListGroupMembers db groupID in
  let! _ := lockUserRowsOn (dedupeUints (sort_by (fun x => x) (map u_ID (List.filter u_IsActive members)))) in
  let! ctx := groupGrantSoDContextOn db roleID in
  match ctx with
  | None => ret ()
  | Some (policies, adding) => requireGroupGrantNoSoDViolationOn db now members policies adding
  end.

(** * Grants *)

Section grants.
Context {E : Type} (auth : AuthzStore E) (now : Z).

Definition EventRoleAssigned := go "role.assigned".
Definition EventRoleGroupAssigned := go "role.group_assigned".
Definition EventGroupMemberAdded := go "group.member_added".
Definition EventUserCreated := go "user.created".
Definition EventMachineRoleGranted := go "machine_identity.role_granted".

Definition grantUserRoleAudited (fence : txFence) (userID roleID : Z) (scope : Scope) (expiresAt : option Z) (db0 db : sodDB) : R sodDB :=
  let! _ := requireScopeValidForRole db0 roleID scope in
  withAuditedMutation (fun db => let! _ := fence db in store_assignUserRole now userID roleID scope expiresAt db) EventRoleAssigned db.
Definition grantGroupRoleAudited (fence : txFence) (groupID roleID : Z) (scope : Scope) (expiresAt : option Z) (db0 db : sodDB) : R sodDB :=
  let! _ := requireScopeValidForRole db0 roleID scope in
  withAuditedMutation (fun db => let! _ := fence db in store_assignGroupRole now groupID roleID scope expiresAt db) EventRoleGroupAssigned db.

(** The separation-of-duties check, then the grant behind its fence. *)
Definition gated_user_grant (first : txFence) (userID roleID : Z) (scope : Scope) (expiresAt : option Z) (db0 db : sodDB) : R sodDB :=
  let! _ := requireNoSoDViolation db0 now userID roleID in
  grantUserRoleAudited (chainTxFences first (sodUserGrantFence now userID [roleID] global)) userID roleID scope expiresAt db0 db.
Definition assignUserRole (first : txFence) (c : call) (userID roleID : Z) (scope : Scope) (db0 db : sodDB) : R sodDB :=
  let! _ := requireGranterHoldsRolePermissions auth db0 c roleID scope in gated_user_grant first userID roleID scope None db0 db.
Definition AssignUserRole : call -> Z -> Z -> Scope -> sodDB -> sodDB -> R sodDB := assignUserRole noTxFence.
Definition AssignUserRoleWithExpiry (c : call) (userID roleID : Z) (scope : Scope) (expiresAt : Z) (db0 db : sodDB) : R sodDB :=
  let! _ := requireGranterHoldsRolePermissions auth db0 c roleID scope in gated_user_grant noTxFence userID roleID scope (Some expiresAt) db0 db.
Definition assignUserRoleSystemGrant (userID roleID : Z) (scope : Scope) (db0 db : sodDB) : R sodDB := gated_user_grant noTxFence userID roleID scope None db0 db.
Definition grantBaselineRoleBackfill (userID roleID : Z) (db0 db : sodDB) : R sodDB := gated_user_grant noTxFence userID roleID global None db0 db.
(** Break-glass *)
Definition assignUserRoleWithExpirySkipSoD (userID roleID : Z) (scope : Scope) (expiresAt : Z) (db0 db : sodDB) : R sodDB :=
  grantUserRoleAudited noTxFence userID roleID scope (Some expiresAt) db0 db.

Definition gated_group_grant (groupID roleID : Z) (scope : Scope) (expiresAt : option Z) (db0 db : sodDB) : R sodDB :=
  let! ctx := groupGrantSoDContextOn db0 roleID in
  match ctx with
  | None => grantGroupRoleAudited sodGroupKeyFence groupID roleID scope expiresAt db0 db
  | Some (policies, adding) =>
      let! members := ListGroupMembers db0 groupID in
      let! _ := requireGroupGrantNoSoDViolationOn db0 now members policies adding in
      grantGroupRoleAudited (chainTxFences sodGroupKeyFence (sodGroupGrantFence now groupID roleID)) groupID roleID scope expiresAt db0 db
  end.
Definition AssignRoleToGroup (c : call) (groupID roleID : Z) (scope : Scope) (db0 db : sodDB) : R sodDB :=
  let! _ := GetGroup db0 groupID in
  let! _ := GetRole db0 roleID in
  let! _ := requireGranterHoldsRolePermissions auth db0 c roleID scope in
  gated_group_grant groupID roleID scope None db0 db.
Definition AssignGroupRoleWithExpiry (c : call) (groupID roleID : Z) (scope : Scope) (expiresAt : Z) (db0 db : sodDB) : R sodDB :=
  let! _ := GetRole db0 roleID in
  let! _ := requireGranterHoldsRolePermissions auth db0 c roleID scope in
  gated_group_grant groupID roleID scope (Some expiresAt) db0 db.

(** ** Joining a group *)

Definition group_grants (r : rbacDB) (groupID : Z) : list GroupRole :=
  List.filter (fun g => (gr_GroupID g =? groupID) && not_expired now (gr_ExpiresAt g)) (rb_group_roles r).
Definition ListGroupRoleAssignments (db : sodDB) (groupID : Z) : R (list GroupRole) := stmt (Ok (group_grants (sd_rbac db) groupID)).
Fixpoint join_ceiling (db : sodDB) (c : call) (grants : list GroupRole) : R () :=
  match grants with
  | [] => ret ()
  | g :: grants => try (GetRole db (gr_RoleID g)) (fun r => match r with
      | Err ErrRoleNotFound => join_ceiling db c grants
      | Err e => fail e
      | Ok _ => let! _ := requireGranterHoldsRolePermissions auth db c (gr_RoleID g) (mkScope (gr_ProjectID g) (gr_EnvironmentID g)) in join_ceiling db c grants
      end)
  end.
Definition validateGroupJoinRoles (db : sodDB) (c : call) (userID groupID : Z) : R () :=
  let! grants := ListGroupRoleAssignments db groupID in
  let! _ := join_ceiling db c grants in
  requireGroupJoinNoSoDViolationOn db now userID grants.

(** [strings.ToLower] and the configured domains. *)
Context (ToLower : bytes -> bytes) (membershipDomainAllowlist : list bytes).
(** [strings.Cut] at the first "@" *)
Definition domainAllowed (email : bytes) : bool :=
  if is_nil membershipDomainAllowlist then true
  else match Split_sep (bZ 64) email with
       | [local; domain] =>
           if is_nil local || is_nil domain then false
           else bool_decide (ToLower domain ∈ map ToLower membershipDomainAllowlist)
       | _ => false
       end.
Definition domainAllowedForUser (db : sodDB) (userID : Z) : R () :=
  if is_nil membershipDomainAllowlist then ret ()
  else let! user := GetUser db userID in if domainAllowed (u_Email user) then ret () else fail ErrDomainNotAllowed.
Definition domainAllowedForGroupJoin (db : sodDB) (userID groupID projectID : Z) : R () :=
  if is_nil membershipDomainAllowlist then ret ()
  else let! grants := ListGroupRoleAssignments db groupID in
       if existsb (fun g => (projectID =? 0) || (gr_ProjectID g =? 0) || (gr_ProjectID g =? projectID)) grants then domainAllowedForUser db userID else ret ().

Definition AddUserToGroup (c : call) (userID groupID projectID : Z) (db0 db : sodDB) : R sodDB :=
  if (userID =? 0) || (groupID =? 0) then fail ErrValidation
  else let! _ := (if is_system c then ret () else validateGroupJoinRoles db0 c userID groupID) in
       let! _ := domainAllowedForGroupJoin db0 userID groupID projectID in
       withAuditedMutation (fun db =>
         let! _ := lockNamedKey in
         let! _ := lockUserRowsOn [userID] in
         let! _ := (if is_system c then ret () else
                    let! grants := ListGroupRoleAssignments db groupID in requireGroupJoinNoSoDViolationOn db now userID grants) in
         store_AddUserToGroup userID groupID projectID db) EventGroupMemberAdded db.

(** ** Machines *)

Definition machineInProject (db : sodDB) (projectID machineID : Z) : R MachineIdentity :=
  let! m := GetMachineIdentity db machineID in if m_ProjectID m =? projectID then ret m else fail ErrMachineIdentityNotFound.
Definition AssignMachineRole (c : call) (machineID roleID : Z) (scope : Scope) (db0 db : sodDB) : R sodDB :=
  let! _ := machineInProject db0 (sc_ProjectID scope) machineID in
  let! _ := requireEnvironmentInProject db0 scope in
  let! role := GetRole db0 roleID in
  let! _ := requireScopeValidForRoleModel db0 role scope in
  let! _ := requireGranterHoldsRolePermissions auth db0 c roleID scope in
  let! _ := requireMachineGrantNoSoDViolationOn db0 machineID roleID in
  withAuditedMutation (fun db =>
    let! _ := GetMachineIdentity db machineID in
    let! _ := requireMachineGrantNoSoDViolationOn db machineID roleID in
    store_AssignMachineRole machineID roleID scope db) EventMachineRoleGranted db.

(** ** A new user with its roles *)

Record ProjectAssignment := mkAssignment { as_ProjectID : Z; as_Role : bytes }.
(** A [storage.RoleGrant]: the role and the project, never an environment. *)
Abbreviation RoleGrant := (Z * Z)%type.
Definition addRoleGrant (grants : list RoleGrant) (g : RoleGrant) : list RoleGrant := if bool_decide (g ∈ grants) then grants else grants ++ [g].
(** [classifyReadErrorAs] with [ErrValidation] *)
Definition classified (m : R Role) : R Role := try m (fun r => match r with Ok a => ret a | Err ErrRoleNotFound => fail ErrValidation | Err e => fail e end).
Definition GetProject (db : sodDB) (id : Z) : R () := stmt (if live (rb_projects (sd_rbac db)) id then Ok () else Err ErrValidation).
Definition resolveProjectRoleGrant (db : sodDB) (c : call) (a : ProjectAssignment) : R RoleGrant :=
  if (as_ProjectID a =? 0) || is_nil (as_Role a) then fail ErrValidation
  else let! _ := GetProject db (as_ProjectID a) in
       let! r := classified (GetRoleByName db (as_Role a)) in
       let scope := mkScope (as_ProjectID a) 0 in
       let! _ := requireScopeValidForRoleModel db r scope in
       let! _ := requireGranterHoldsRolePermissions auth db c (role_ID r) scope in
       ret (role_ID r, as_ProjectID a).
Fixpoint resolve_assignments (db : sodDB) (c : call) (l : list ProjectAssignment) (grants : list RoleGrant) : R (list RoleGrant) :=
  match l with
  | [] => ret grants
  | a :: l => let! g := resolveProjectRoleGrant db c a in resolve_assignments db c l (addRoleGrant grants g)
  end.
Definition maxUserCreateAssignments : Z := 500.
(** A statement for the user and one for each grant, in a transaction of its own. *)
Fixpoint each_grant (l : list RoleGrant) : R () := match l with [] => ret () | _ :: l => let! _ := stmt (Ok ()) in each_grant l end.
(** The primary key and the unique indexes over the live rows. *)
Definition same_account (user u : User) : bool :=
  (u_ID u =? u_ID user) ||
  (negb (u_deleted u) && (bool_decide (u_UsernameFolded u = u_UsernameFolded user) ||
     (negb (is_nil (u_Email u)) && negb (is_nil (u_Email user)) && bool_decide (u_EmailFolded u = u_EmailFolded user)))).
Definition CreateUserWithRoleGrants (user : User) (grants : list RoleGrant) (db : sodDB) : R sodDB :=
  let! _ := stmt (if existsb (same_account user) (sd_users db) then Err ErrUserAlreadyExists else Ok ()) in
  let! _ := each_grant grants in
  ret (with_users (with_rbac db (with_user_roles (sd_rbac db)
        (rb_user_roles (sd_rbac db) ++ map (fun g => mkUserRole (u_ID user) g.1 g.2 0 None) grants)))
        (sd_users db ++ [user])).
(** From the row [buildUserForCreate] has validated. *)
Definition CreateUserWithAssignments (c : call) (user : User) (systemRole : bytes) (assignments : list ProjectAssignment) (db0 db : sodDB) : R sodDB :=
  if maxUserCreateAssignments <? Z.of_nat (length assignments) then fail ErrValidation
  else let! sr := classified (GetRoleByName db0 (if is_nil systemRole then go "system_viewer" else systemRole)) in
       let! _ := requireScopeValidForRoleModel db0 sr global in
       let! _ := (if is_nil systemRole then requireGranterHoldsRolePermissionsNoBaseline auth db0 c (role_ID sr) global
                  else requireGranterHoldsRolePermissions auth db0 c (role_ID sr) global) in
       let! grants := resolve_assignments db0 c assignments (addRoleGrant [] (role_ID sr, 0)) in
       let! _ := requireGrantSetNoSoDViolation db0 (map fst grants) in
       withAuditedMutation (CreateUserWithRoleGrants user grants) EventUserCreated db.
End grants.
