(* ===== verification/SoDScan.v ===== *)
(** What the separation-of-duties scan reports (SoD.v): whatever statements fail, it returns
    an error or a report in which every violation is one and every principal that violates a
    policy is listed or named among those that could not be read. *)
From Stdlib Require Import ZArith Lia.
From stdpp Require Import base numbers tactics sets list.
From S2P Require Import Prelude GoStr Rbac SoD.

(** * Specification *)

Definition held_ids (r : rbacDB) (now u : Z) : list Z := direct_ids r now u ++ via_group_ids r now u.
Definition user_holds (db : sodDB) (now u : Z) (permission : bytes) : bool :=
  set_grants (rb_perms (sd_rbac db)) (held_ids (sd_rbac db) now u) permission.
Definition machine_holds (db : sodDB) (m : Z) (permission : bytes) : bool :=
  set_grants (rb_perms (sd_rbac db)) (map role_ID (machine_roles (sd_rbac db) m)) permission.
Definition admin_id (db : sodDB) (id : Z) : bool :=
  match List.find (fun r => role_ID r =? id) (rb_roles (sd_rbac db)) with Some r => isAdminRoleName (role_Name r) | None => false end.
Definition global_admin (db : sodDB) (now u : Z) : bool := existsb (admin_id db) (user_ids (sd_rbac db) now u global).

Inductive principal := PUser (id : Z) | PMachine (id : Z).
#[export] Instance principal_eq_dec : EqDecision principal.
Proof. solve_decision. Defined.

Definition active_user (db : sodDB) (id : Z) : bool := existsb (fun u => live_user id u && u_IsActive u) (sd_users db).
Definition active_machine (db : sodDB) (id : Z) : bool := existsb (fun m => (m_ID m =? id) && bool_decide (m_State m = go "active")) (sd_machines db).
Definition both (holds : bytes -> bool) (pol : SoDPolicy) : bool := holds (p_PermissionA pol) && holds (p_PermissionB pol).
Definition violates (db : sodDB) (now : Z) (x : principal) (pol : SoDPolicy) : bool :=
  match x with
  | PUser id => active_user db id && (global_admin db now id || both (user_holds db now id) pol)
  | PMachine id => active_machine db id && both (machine_holds db id) pol
  end.

Definition type_of (x : principal) : bytes := match x with PUser _ => go "user" | PMachine _ => go "machine" end.
Definition id_of (x : principal) : Z := match x with PUser id | PMachine id => id end.
(** The entry [v] is about [x] and [pol]. *)
Definition names (v : SoDViolation) (x : principal) (pol : SoDPolicy) : Prop :=
  v_PolicyID v = p_ID pol /\ v_PrincipalType v = type_of x /\ v_UserID v = id_of x /\
  v_PermissionA v = p_PermissionA pol /\ v_PermissionB v = p_PermissionB pol /\
  v_Reference v = sodViolationReference (p_ID pol) (type_of x) (id_of x).
(** The areas a report names when it could not read [x] (for [pol]). *)
Definition unread (x : principal) (pol : SoDPolicy) (area : bytes) : Prop :=
  match x with
  | PUser id => area = at_user id
  | PMachine id => area = at_machine_roles id \/ area = at_machine_permission id (p_ID pol) \/ area = go "machine_identities"
  end.

(** * Runs with failing statements *)

(** [post cl m Q X]: when [m] returns, [Q] holds of its result or [X] of its error; with [cl],
    of runs in which no statement fails. *)
Definition no_fault (fs : list bool) : Prop := Forall (fun b => b = false) fs.
Definition post {A} (cl : bool) (m : R A) (Q : A -> Prop) (X : sod_err -> Prop) : Prop :=
  forall fs, (cl = true -> no_fault fs) ->
    (cl = true -> no_fault (m fs).2) /\ match (m fs).1 with Ok a => Q a | Err e => X e end.

Lemma post_ret {A} cl (a : A) (Q : A -> Prop) X : Q a -> post cl (ret a) Q X.
Proof. intros H fs Hf. by split. Qed.
Lemma post_fail {A} cl e (Q : A -> Prop) (X : sod_err -> Prop) : X e -> post cl (fail e) Q X.
Proof. intros H fs Hf. by split. Qed.
Lemma post_bind {A B} cl (m : R A) (k : A -> R B) P (Q : B -> Prop) X :
  post cl m P X -> (forall a, P a -> post cl (k a) Q X) -> post cl (bind m k) Q X.
Proof.
  intros Hm Hk fs Hf. specialize (Hm fs Hf). unfold bind. destruct (m fs) as [[a|e] fs']; cbn in *; [|done].
  destruct Hm as [Hf' Ha]. exact (Hk a Ha fs' Hf').
Qed.
Lemma post_try {A B} cl (m : R A) (k : res sod_err A -> R B) P Y (Q : B -> Prop) X :
  post cl m P Y -> (forall a, P a -> post cl (k (Ok a)) Q X) -> (forall e, Y e -> post cl (k (Err e)) Q X) -> post cl (try m k) Q X.
Proof.
  intros Hm Hk He fs Hf. specialize (Hm fs Hf). unfold try. destruct (m fs) as [[a|e] fs']; cbn in *; destruct Hm as [Hf' Ha].
  - exact (Hk a Ha fs' Hf').
  - exact (He e Ha fs' Hf').
Qed.
Lemma post_stmt {A} cl (r : res sod_err A) (Q : A -> Prop) (X : sod_err -> Prop) :
  match r with Ok a => Q a | Err e => X e end -> (cl = false -> X ErrStorage) -> post cl (stmt r) Q X.
Proof.
  intros Hr Hs fs Hf. destruct fs as [|[] fs]; cbn [stmt fst snd]; [by split| |].
  - destruct cl; [|by split; [|apply Hs]]. specialize (Hf eq_refl). by apply Forall_cons in Hf as [? _].
  - split; [|done]. intros Hc. specialize (Hf Hc). by apply Forall_cons in Hf as [_ ?].
Qed.
Lemma post_weaken {A} cl (m : R A) (P Q : A -> Prop) (Y X : sod_err -> Prop) :
  post cl m P Y -> (forall a, P a -> Q a) -> (forall e, Y e -> X e) -> post cl m Q X.
Proof. intros Hm HQ HX fs Hf. destruct (Hm fs Hf) as [? H]. split; [done|]. destruct (m fs).1; auto. Qed.

(** A read that fails only as a statement. *)
Definition storage_only (cl : bool) (e : sod_err) : Prop := e = ErrStorage /\ cl = false.
Lemma post_read {A} cl (a : A) (Q : A -> Prop) (X : sod_err -> Prop) : Q a -> (cl = false -> X ErrStorage) -> post cl (stmt (Ok a)) Q X.
Proof. intros. by apply post_stmt. Qed.
Lemma post_is {A} cl (a : A) (X : sod_err -> Prop) : (cl = false -> X ErrStorage) -> post cl (stmt (Ok a)) (fun b => b = a) X.
Proof. intros. by apply post_read. Qed.

(** * Permission sets *)

Lemma set_grants_iff pt ids name : set_grants pt ids name = true <->
  exists rp p, rp ∈ pt_role_permissions pt /\ p ∈ pt_permissions pt /\ rp_RoleID rp ∈ ids /\ perm_ID p = rp_PermissionID rp /\ perm_Name p = name.
Proof.
  unfold set_grants. rewrite existsb_elem. split.
  - intros (rp & Hrp & H). breflect. apply existsb_elem in H0 as (p & Hp & H0). breflect. eauto 10.
  - intros (rp & p & Hrp & Hp & Hid & He & Hn). exists rp. split; [done|]. apply andb_true_iff. split; [by apply bool_decide_eq_true|].
    apply existsb_elem. exists p. split; [done|]. apply andb_true_iff. split; [by apply Z.eqb_eq|by apply bool_decide_eq_true].
Qed.
Lemma set_grants_app pt a b name : set_grants pt (a ++ b) name = set_grants pt a name || set_grants pt b name.
Proof. apply eq_true_iff_eq. rewrite orb_true_iff, !set_grants_iff. setoid_rewrite elem_of_app. naive_solver. Qed.
Lemma set_grants_mono pt a b name : (forall x, x ∈ a -> x ∈ b) -> set_grants pt a name = true -> set_grants pt b name = true.
Proof. rewrite !set_grants_iff. naive_solver. Qed.

Lemma has_permissions_of pt ids name : has (map perm_Name (permissions_of pt ids)) name = set_grants pt ids name.
Proof.
  apply eq_true_iff_eq. unfold has. rewrite bool_decide_eq_true, elem_of_map, set_grants_iff. unfold permissions_of, joined.
  setoid_rewrite elem_of_filter_bool. setoid_rewrite existsb_elem. split.
  - intros (p & -> & Hp & rp & Hrp & H). breflect. eauto 10.
  - intros (rp & p & Hrp & Hp & Hid & He & <-). exists p. split_and!; [done..|]. exists rp. split; [done|].
    apply andb_true_iff. split; [by apply Z.eqb_eq|by apply bool_decide_eq_true].
Qed.
Lemma has_app a b name : has (a ++ b) name = has a name || has b name.
Proof. unfold has. apply eq_true_iff_eq. rewrite orb_true_iff, !bool_decide_eq_true. apply elem_of_app. Qed.
Lemma both_ext f g pol : (forall p, f p = g p) -> both f pol = both g pol.
Proof. intros H. unfold both. by rewrite !H. Qed.
Lemma both_mono (f g : bytes -> bool) pol : (forall p, f p = true -> g p = true) -> both f pol = true -> both g pol = true.
Proof. unfold both. intros H [Ha Hb]%andb_prop. rewrite (H _ Ha), (H _ Hb). done. Qed.

Section reads.
Context (db : sodDB) (now : Z) (cl : bool).

Lemma userHeld_post u (X : sod_err -> Prop) : (cl = false -> X ErrStorage) ->
  post cl (userHeldPermissionSetOn db now u) (fun held => forall p, has held p = user_holds db now u p) X.
Proof.
  intros HX. unfold userHeldPermissionSetOn. eapply post_bind; [by apply post_is|]. intros ? ->.
  eapply post_bind; [by apply post_is|]. intros ? ->. apply post_ret. intros p.
  by rewrite has_app, !has_permissions_of, <- set_grants_app.
Qed.
Lemma roleNames_post id (X : sod_err -> Prop) : (cl = false -> X ErrStorage) ->
  post cl (rolePermissionNameSetOn db id) (fun s => forall p, has s p = set_grants (rb_perms (sd_rbac db)) [id] p) X.
Proof.
  intros HX. unfold rolePermissionNameSetOn. eapply post_bind; [by apply post_is|]. intros ? ->.
  apply post_ret. intros p. apply has_permissions_of.
Qed.
Lemma GetRole_post id (X : sod_err -> Prop) : (cl = false -> X ErrStorage) -> X ErrRoleNotFound ->
  post cl (GetRole db id) (fun r => List.find (fun r => role_ID r =? id) (rb_roles (sd_rbac db)) = Some r) X.
Proof. intros HX HN. unfold GetRole, find_row. apply post_stmt; [|done]. by destruct (List.find _ _). Qed.

Lemma first_admin_post ids (X : sod_err -> Prop) : (cl = false -> X ErrStorage) ->
  post cl (first_admin db ids) (fun o => is_none o = negb (existsb (admin_id db) ids)) X.
Proof.
  intros HX. induction ids as [|id ids IH]; cbn [first_admin existsb]; [by apply post_ret|].
  eapply (post_try _ _ _ _ (fun e => (e = ErrRoleNotFound /\ admin_id db id = false) \/ storage_only cl e)).
  - unfold GetRole, find_row. apply (post_stmt _ _ (fun r => admin_id db id = isAdminRoleName (role_Name r))); [|by intros ->; right].
    unfold admin_id. destruct (List.find _ _); [done|]. by left.
  - intros role Hr. cbv beta iota. rewrite Hr. destruct (isAdminRoleName _); [by apply post_ret|]. exact IH.
  - intros e [[-> Hr]|[-> Hc]]; cbv beta iota; [rewrite Hr; exact IH|by apply post_fail, HX].
Qed.
Lemma isGlobalAdmin_post u (X : sod_err -> Prop) : (cl = false -> X ErrStorage) ->
  post cl (isGlobalAdminRoleNameOn db now u) (fun o => is_none o = negb (global_admin db now u)) X.
Proof.
  intros HX. unfold isGlobalAdminRoleNameOn, scopedRoleIDsOn.
  eapply (post_bind _ _ _ (fun ids => forall x, x ∈ ids <-> x ∈ user_ids (sd_rbac db) now u global)).
  - eapply post_bind; [by apply post_is|]. intros ? ->.
    eapply post_bind; [by apply post_is|]. intros ? ->. apply post_ret. intros x.
    unfold user_ids. by rewrite elem_of_dedupe, !elem_of_app, !elem_of_dedupe.
  - intros ids Hids. eapply post_weaken; [by apply first_admin_post| |done]. cbv beta. intros o ->. unfold global_admin.
    by rewrite (existsb_same _ _ _ Hids).
Qed.
End reads.

(** * Reports *)

Section scan.
Context (db : sodDB) (now : Z) (cl : bool) (policies : list SoDPolicy).

Definition covered (rep : SoDViolationsReport) (x : principal) (pol : SoDPolicy) : Prop :=
  (exists v, v ∈ r_Violations rep /\ names v x pol) \/ (exists area e, (area, e) ∈ r_DegradedReasons rep /\ unread x pol area).
(** [rep'] is [rep] with what was found of the principals in [done]. *)
Record extends (done : principal -> SoDPolicy -> Prop) (rep rep' : SoDViolationsReport) : Prop := {
  e_sound : forall v, v ∈ r_Violations rep' -> v ∈ r_Violations rep \/ exists x pol, pol ∈ policies /\ violates db now x pol = true /\ names v x pol;
  e_violations : forall v, v ∈ r_Violations rep -> v ∈ r_Violations rep';
  e_reasons : forall r, r ∈ r_DegradedReasons rep -> r ∈ r_DegradedReasons rep';
  e_done : forall x pol, done x pol -> pol ∈ policies -> violates db now x pol = true -> covered rep' x pol;
  e_flag : r_Degraded rep = negb (is_nil (r_DegradedReasons rep)) -> r_Degraded rep' = negb (is_nil (r_DegradedReasons rep'));
  e_clean : cl = true -> r_DegradedReasons rep' = r_DegradedReasons rep }.

Lemma covered_extends D rep rep' x pol : extends D rep rep' -> covered rep x pol -> covered rep' x pol.
Proof.
  intros H [(v & Hv & Hn)|(area & e & Ha & Hu)]; [left|right].
  - exists v. split; [|done]. by eapply e_violations.
  - exists area, e. split; [|done]. by eapply e_reasons.
Qed.
Lemma extends_refl (D : principal -> SoDPolicy -> Prop) rep : (forall x pol, D x pol -> pol ∈ policies -> violates db now x pol = true -> covered rep x pol) -> extends D rep rep.
Proof. intros H. constructor; [eauto..|done]. Qed.
Lemma extends_trans D1 D2 (D : principal -> SoDPolicy -> Prop) a b c : extends D1 a b -> extends D2 b c ->
  (forall x pol, D x pol -> D1 x pol \/ D2 x pol \/ (pol ∈ policies -> violates db now x pol = true -> covered c x pol)) -> extends D a c.
Proof.
  intros H1 H2 HD. constructor.
  - intros v Hv. destruct (e_sound _ _ _ H2 v Hv) as [Hb|?]; [|by right]. by apply (e_sound _ _ _ H1).
  - intros v Hv. by eapply e_violations, e_violations.
  - intros r Hr. by eapply e_reasons, e_reasons.
  - intros x pol Hd Hp Hv. destruct (HD x pol Hd) as [H|[H|H]]; [|by eapply e_done|by apply H].
    eapply covered_extends; [done|]. by eapply e_done.
  - intros Hf. by eapply e_flag, e_flag.
  - intros Hc. rewrite (e_clean _ _ _ H2 Hc). by apply (e_clean _ _ _ H1).
Qed.
Lemma extends_degrade (D : principal -> SoDPolicy -> Prop) rep area e : cl = false -> (forall x pol, D x pol -> unread x pol area) -> extends D rep (degrade rep area e).
Proof.
  intros Hc HD. constructor; cbn; [eauto|done| | |intros _; by destruct (r_DegradedReasons rep)|by rewrite Hc].
  - intros r Hr. apply elem_of_app. by left.
  - intros x pol Hd _ _. right. exists area, e. split; [|by apply HD]. apply elem_of_app. right. by left.
Qed.
Lemma extends_append (D : principal -> SoDPolicy -> Prop) rep l :
  (forall v, v ∈ l -> exists x pol, pol ∈ policies /\ violates db now x pol = true /\ names v x pol) ->
  (forall x pol, D x pol -> pol ∈ policies -> violates db now x pol = true -> exists v, v ∈ l /\ names v x pol) -> extends D rep (append rep l).
Proof.
  intros Hs HD. constructor; cbn; [| |done| |done|done].
  - intros v [Hv|Hv]%elem_of_app; [by left|right; by apply Hs].
  - intros v Hv. apply elem_of_app. by left.
  - intros x pol Hd Hp Hv. destruct (HD x pol Hd Hp Hv) as (v & Hl & Hn). left. exists v. split; [|done]. apply elem_of_app. by right.
Qed.

(** ** Users *)

Lemma live_users_active u : u ∈ live_users db -> u_IsActive u = true -> active_user db (u_ID u) = true.
Proof.
  intros [Hu Hd]%elem_of_filter_bool Ha. apply existsb_elem. exists u. split; [done|]. unfold live_user. by rewrite Z.eqb_refl, Hd, Ha.
Qed.
Lemma userSoDViolations_post u : u ∈ live_users db -> u_IsActive u = true ->
  post cl (userSoDViolations db now u policies) (fun l => forall rep, extends (fun x _ => x = PUser (u_ID u)) rep (append rep l)) (storage_only cl).
Proof.
  intros Hu Ha. pose proof (live_users_active u Hu Ha) as Hact. unfold userSoDViolations.
  assert (cl = false -> storage_only cl ErrStorage) as HX by (by intros ->).
  eapply post_bind; [by apply isGlobalAdmin_post|]. cbv beta. intros [name|] Ho; cbn [is_none] in Ho.
  - apply post_ret. symmetry in Ho. apply negb_false_iff in Ho. intros rep. apply extends_append.
    + intros v (pol & -> & Hp)%elem_of_map. exists (PUser (u_ID u)), pol. split_and!; [done| |by repeat split]. cbn. by rewrite Hact, Ho.
    + intros x pol -> Hp _. eexists. split; [apply elem_of_map; by exists pol|by repeat split].
  - symmetry in Ho. apply negb_true_iff in Ho. eapply post_bind; [by apply userHeld_post|]. intros held Hh. apply post_ret. intros rep.
    assert (forall pol, has held (p_PermissionA pol) && has held (p_PermissionB pol) = violates db now (PUser (u_ID u)) pol) as Hb.
    { intros pol. cbn. rewrite Hact, Ho. unfold both. by rewrite !Hh. }
    apply extends_append.
    + intros v (pol & -> & [Hp Hv]%elem_of_filter_bool)%elem_of_map. exists (PUser (u_ID u)), pol. rewrite Hb in Hv. by repeat split.
    + intros x pol -> Hp Hv. exists (user_violation u [] pol). split; [|by repeat split]. apply elem_of_map. exists pol. split; [done|].
      apply elem_of_filter_bool. by rewrite Hb.
Qed.

Lemma appendUser_post users : (forall u, u ∈ users -> u ∈ live_users db) -> forall rep,
  post cl (appendUserSoDViolations db now rep users policies)
    (extends (fun x _ => exists u, u ∈ users /\ u_IsActive u = true /\ x = PUser (u_ID u)) rep) (storage_only cl).
Proof.
  induction users as [|u users IH]; intros Hin rep; cbn [appendUserSoDViolations].
  { apply post_ret, extends_refl. intros x pol (u & Hu & _). by apply elem_of_nil in Hu. }
  assert (forall u0, u0 ∈ users -> u0 ∈ live_users db) as Hin' by (intros; apply Hin; by right).
  assert (forall rep', extends (fun x _ => x = PUser (u_ID u)) rep rep' -> post cl (appendUserSoDViolations db now rep' users policies)
    (extends (fun x _ => exists w, w ∈ u :: users /\ u_IsActive w = true /\ x = PUser (u_ID w)) rep) (storage_only cl)) as Hnext.
  { intros rep' He. eapply post_weaken; [by apply IH| |done]. intros rep'' He'. eapply extends_trans; [done..|].
    intros x pol (w & [-> |Hw]%elem_of_cons & Ha & ->); [by left|]. right. left. eauto. }
  destruct (u_IsActive u) eqn:Ha; cbn [negb].
  - eapply post_try; [apply userSoDViolations_post; [apply Hin; by left|done]| |].
    + intros l Hl. by apply Hnext.
    + intros e [-> Hc]. apply Hnext. apply extends_degrade; [done|]. by intros x pol ->.
  - eapply post_weaken; [by apply IH| |done]. intros rep'' He'. eapply extends_trans; [by apply extends_refl with (D := fun _ _ => False)|done|].
    intros x pol (w & [-> |Hw]%elem_of_cons & Ha' & ->); [by rewrite Ha in Ha'|]. right. left. eauto.
Qed.

(** ** Machines *)

Lemma machine_violates m pol : m ∈ sd_machines db -> m_State m = go "active" ->
  violates db now (PMachine (m_ID m)) pol = both (machine_holds db (m_ID m)) pol.
Proof.
  intros Hm Hs. cbn. replace (active_machine db (m_ID m)) with true; [done|]. symmetry. apply existsb_elem. exists m. split; [done|].
  rewrite Z.eqb_refl. by apply bool_decide_eq_true.
Qed.
Lemma machine_policies_post m ps : m ∈ sd_machines db -> m_State m = go "active" -> machine_roles (sd_rbac db) (m_ID m) <> [] ->
  (forall pol, pol ∈ ps -> pol ∈ policies) -> forall rep,
  post cl (machine_policies db m (map role_ID (machine_roles (sd_rbac db) (m_ID m))) rep ps)
    (extends (fun x pol => x = PMachine (m_ID m) /\ pol ∈ ps) rep) (storage_only cl).
Proof.
  intros Hm Hs Hne. induction ps as [|pol ps IH]; intros Hin rep; cbn [machine_policies].
  { apply post_ret, extends_refl. intros x pol [_ Hp]. by apply elem_of_nil in Hp. }
  set (ids := map role_ID _) in *.
  assert (forall perm, post cl (RoleSetHasPermission db ids perm) (fun b => b = machine_holds db (m_ID m) perm) (storage_only cl)) as Hrs.
  { intros perm. unfold RoleSetHasPermission. replace (is_nil ids) with false by (subst ids; by destruct (machine_roles _ _)). apply post_is. by intros ->. }
  assert (forall rep', extends (fun x q => x = PMachine (m_ID m) /\ q = pol) rep rep' -> post cl (machine_policies db m ids rep' ps)
    (extends (fun x q => x = PMachine (m_ID m) /\ q ∈ pol :: ps) rep) (storage_only cl)) as Hnext.
  { intros rep' He. eapply post_weaken; [apply IH; set_solver| |done]. intros rep'' He'. eapply extends_trans; [done..|].
    intros x q (-> & [-> |Hq]%elem_of_cons); [by left|]. right. by left. }
  assert (both (machine_holds db (m_ID m)) pol = false -> extends (fun x q => x = PMachine (m_ID m) /\ q = pol) rep rep) as Hskip.
  { intros Hb. apply extends_refl. intros x q (-> & ->) _ Hv. rewrite machine_violates, Hb in Hv by done. done. }
  assert (forall e, storage_only cl e -> extends (fun x q => x = PMachine (m_ID m) /\ q = pol) rep (degrade rep (at_machine_permission (m_ID m) (p_ID pol)) e)) as Hdeg.
  { intros e [-> Hc]. apply extends_degrade; [done|]. intros x q (-> & ->). cbn. tauto. }
  eapply post_try; [apply Hrs| |intros e He; by apply Hnext, Hdeg]. intros [] Ha; [|apply Hnext, Hskip; unfold both; by rewrite <- Ha].
  eapply post_try; [apply Hrs| |intros e He; by apply Hnext, Hdeg]. intros [] Hb; [|apply Hnext, Hskip; unfold both; by rewrite <- Hb, andb_false_r].
  assert (violates db now (PMachine (m_ID m)) pol = true) as Hv by (rewrite machine_violates by done; unfold both; by rewrite <- Ha, <- Hb).
  apply Hnext, extends_append.
  - intros v ->%list_elem_of_singleton. exists (PMachine (m_ID m)), pol. split_and!; [apply Hin; by left|done|by repeat split].
  - intros x q (-> & ->) _ _. exists (machine_violation m pol). split; [by apply list_elem_of_singleton|by repeat split].
Qed.
Lemma machines_loop_post ms : (forall m, m ∈ ms -> m ∈ sd_machines db) -> forall rep,
  post cl (machines_loop db rep ms policies)
    (extends (fun x _ => exists m, m ∈ ms /\ m_State m = go "active" /\ x = PMachine (m_ID m)) rep) (storage_only cl).
Proof.
  induction ms as [|m ms IH]; intros Hin rep; cbn [machines_loop].
  { apply post_ret, extends_refl. intros x pol (m & Hm & _). by apply elem_of_nil in Hm. }
  assert (forall D rep', extends D rep rep' -> (forall pol, m_State m = go "active" -> violates db now (PMachine (m_ID m)) pol = true -> pol ∈ policies -> D (PMachine (m_ID m)) pol) ->
    post cl (machines_loop db rep' ms policies) (extends (fun x _ => exists w, w ∈ m :: ms /\ m_State w = go "active" /\ x = PMachine (m_ID w)) rep) (storage_only cl)) as Hnext.
  { intros D rep' He HD. eapply post_weaken; [apply IH; set_solver| |done]. intros rep'' He'.
    assert (extends (fun x pol => x = PMachine (m_ID m) /\ m_State m = go "active") rep rep') as He1.
    { destruct He as [h1 h2 h3 h4 h5 h6]. constructor; [done..| |done|done]. intros x pol (-> & Ha) Hp Hv. by apply h4; [apply HD|..]. }
    eapply extends_trans; [exact He1|exact He'|]. intros x pol (w & [-> |Hw]%elem_of_cons & Ha & ->); [by left|]. right. left. eauto. }
  case_bool_decide as Ha; cbn [negb].
  2:{ eapply (Hnext (fun _ _ => False)); [by apply extends_refl|done]. }
  assert (m ∈ sd_machines db) as Hm by (apply Hin; by left).
  eapply (post_try _ _ _ (fun l => l = machine_roles (sd_rbac db) (m_ID m)) (storage_only cl)).
  - apply post_is. by intros ->.
  - intros roles ->. destruct (machine_roles (sd_rbac db) (m_ID m)) as [|r0 rs] eqn:Er.
    + eapply (Hnext (fun _ _ => False)); [by apply extends_refl|]. intros pol _ Hv _. rewrite machine_violates in Hv by done.
      unfold both, machine_holds in Hv. rewrite Er in Hv. cbn [map] in Hv. by rewrite set_grants_nil in Hv.
    + eapply post_bind; [rewrite <- Er; apply machine_policies_post; [done..|by rewrite Er|done]|]. intros rep' He. eapply Hnext; [done|]. by intros pol _ _ Hp.
  - intros e [-> Hc]. eapply Hnext; [apply (extends_degrade (fun x _ => x = PMachine (m_ID m))); [done|]|done]. intros x pol ->. cbn. tauto.
Qed.
Lemma machineSoDViolations_post rep :
  post cl (machineSoDViolations db rep policies) (extends (fun x _ => exists id, x = PMachine id) rep) (storage_only cl).
Proof.
  unfold machineSoDViolations. eapply (post_try _ _ _ _ (storage_only cl)); [apply post_is; by intros ->|..].
  - intros ms ->. eapply post_weaken; [apply machines_loop_post| |done].
    + intros m Hm. by rewrite sort_by_perm in Hm.
    + intros rep' [h1 h2 h3 h4 h5 h6]. constructor; [done..| |done|done]. intros x pol (id & ->) Hp Hv. apply h4; [|done..].
      cbn in Hv. apply andb_prop in Hv as [Hv _]. apply existsb_elem in Hv as (m & Hm & Hv). breflect. subst. exists m. by rewrite sort_by_perm.
  - intros e [-> Hc]. apply post_ret, extends_degrade; [done|]. intros x pol (id & ->). cbn. tauto.
Qed.

(** ** Pages *)

Lemma ListUsers_post page : 1 <= page <= maxStoragePage ->
  post cl (ListUsers db page scanPageSize) (fun r => r = (take 500 (drop (Z.to_nat ((page - 1) * 500)) (live_users db)), Z.of_nat (length (live_users db)))) (storage_only cl).
Proof.
  intros Hp. unfold ListUsers. eapply post_bind; [apply post_is; by intros ->|]. intros ? ->.
  eapply post_bind; [apply post_is; by intros ->|]. intros ? ->. apply post_ret. f_equal. unfold clampPage, maxStoragePage in *.
  destruct (Z.ltb_spec page 1); [lia|]. destruct (Z.ltb_spec 10000 page); [lia|]. done.
Qed.
(** The users from a page on. *)
Lemma scan_pages_post fuel : forall page rep, 1 <= page <= maxStoragePage -> Z.of_nat (length (live_users db)) <= 5000000 ->
  (Z.of_nat (length (live_users db)) - (page - 1) * 500) / 500 < Z.of_nat fuel -> (page = 1 \/ (page - 1) * 500 < Z.of_nat (length (live_users db))) ->
  post cl (scan_pages fuel db now page rep policies) (fun o => exists rep', o = Some rep' /\
    extends (fun x _ => exists u, u ∈ drop (Z.to_nat ((page - 1) * 500)) (live_users db) /\ u_IsActive u = true /\ x = PUser (u_ID u)) rep rep') (storage_only cl).
Proof.
  induction fuel as [|fuel IH]; intros page rep Hp Hn Hfuel Hpos.
  { exfalso. assert (0 <= (Z.of_nat (length (live_users db)) - (page - 1) * 500) / 500) by (apply Z.div_pos; lia). lia. }
  cbn [scan_pages]. set (rest := drop (Z.to_nat ((page - 1) * 500)) (live_users db)).
  eapply post_bind; [by apply ListUsers_post|]. intros ? ->. cbv beta iota. fold rest.
  eapply post_bind; [apply appendUser_post|].
  { intros u Hu. rewrite <- (take_drop (Z.to_nat ((page - 1) * 500)) (live_users db)). fold rest. rewrite <- (take_drop 500 rest). set_solver. }
  intros rep1 He1. unfold scanPageSize. rewrite length_take.
  assert (length rest = length (live_users db) - Z.to_nat ((page - 1) * 500))%nat as Hl by (subst rest; by rewrite length_drop).
  destruct (orb _ _) eqn:Eend.
  - apply post_ret. exists rep1. split; [done|]. assert (take 500 rest = rest) as Et.
    { apply take_ge. apply orb_true_iff in Eend as [E|E]; breflect; lia. }
    by rewrite Et in He1.
  - breflect. eapply post_weaken; [apply (IH (page + 1) rep1)| |done].
    + unfold maxStoragePage in *. lia.
    + done.
    + replace (Z.of_nat (length (live_users db)) - (page + 1 - 1) * 500) with (Z.of_nat (length (live_users db)) - (page - 1) * 500 + (-1) * 500) by lia.
      rewrite Z.div_add by lia. lia.
    + right. lia.
    + intros o (rep' & -> & He2). exists rep'. split; [done|]. eapply extends_trans; [exact He1|exact He2|].
      intros x pol (u & Hu & Ha & ->). rewrite <- (take_drop 500 rest) in Hu. apply elem_of_app in Hu as [Hu|Hu]; [left; eauto|].
      right. left. exists u. split; [|done]. subst rest. rewrite drop_drop in Hu.
      by replace (Z.to_nat ((page + 1 - 1) * 500)) with (Z.to_nat ((page - 1) * 500) + 500)%nat by lia.
Qed.

Lemma scan_with_post : Z.of_nat (length (live_users db)) <= 5000000 ->
  post cl (scan_with db now policies) (fun o => exists rep, o = Some rep /\ extends (fun _ _ => True) empty_report rep) (storage_only cl).
Proof.
  intros Hn. unfold scan_with. eapply post_bind; [apply scan_pages_post|].
  - unfold maxStoragePage. lia.
  - done.
  - unfold scan_fuel, scanPageSize. replace (_ - (1 - 1) * 500) with (Z.of_nat (length (live_users db))) by lia.
    assert (0 <= Z.of_nat (length (live_users db)) / 500) by (apply Z.div_pos; lia). lia.
  - by left.
  - intros o (rep & -> & He). eapply post_bind; [apply machineSoDViolations_post|]. intros rep' He'. apply post_ret. exists rep'. split; [done|].
    eapply extends_trans; [exact He|exact He'|]. intros [id|id] pol _; [|right; left; eauto]. right. right. intros Hp Hv.
    eapply covered_extends; [exact He'|]. eapply e_done; [exact He| |done..].
    cbn in Hv. apply andb_prop in Hv as [Hv _]. apply existsb_elem in Hv as (u & Hu & Hv). unfold live_user in Hv. breflect. subst.
    exists u. split_and!; [|done..]. cbn. apply elem_of_filter_bool. by split; [|apply negb_true_iff].
Qed.
End scan.

(** C15. However statements fail, with up to five million accounts, the scan ends: with a storage error, or with a report in which every entry names an active principal that holds both permissions of a listed policy (an administrator holds all), and in which every such pair is listed unless the principal is named among those that could not be read. The report is degraded exactly when it names one, which it does not when no statement fails. *)
Theorem DetectSoDViolations_exact db now fs : Z.of_nat (length (live_users db)) <= 5000000 ->
  match (DetectSoDViolations db now fs).1 with
  | Err e => e = ErrStorage /\ ~ no_fault fs
  | Ok None => False
  | Ok (Some rep) =>
      (forall v, v ∈ r_Violations rep -> exists x pol, pol ∈ listed_policies db /\ violates db now x pol = true /\ names v x pol) /\
      (forall x pol, pol ∈ listed_policies db -> violates db now x pol = true -> covered rep x pol) /\
      r_Degraded rep = negb (is_nil (r_DegradedReasons rep)) /\ (no_fault fs -> r_Degraded rep = false)
  end.
Proof.
  intros Hn.
  assert (forall cl, post cl (DetectSoDViolations db now) (fun o => exists rep, o = Some rep /\
    extends db now cl (listed_policies db) (fun _ _ => True) empty_report rep) (storage_only cl)) as H.
  { intros cl. unfold DetectSoDViolations. eapply post_bind; [apply post_is; by intros ->|]. intros ? ->.
    destruct (is_nil _) eqn:En; [|by apply scan_with_post]. apply post_ret. exists empty_report. split; [done|]. apply extends_refl.
    intros x pol _ Hp. destruct (listed_policies db); [by apply elem_of_nil in Hp|done]. }
  pose proof (H true fs) as Ht. destruct (H false fs) as [_ Hf]; [done|].
  destruct (DetectSoDViolations db now fs).1 as [o|e]; cbn in *.
  - destruct Hf as (rep & -> & He). split_and!.
    + intros v Hv. destruct (e_sound _ _ _ _ _ _ _ He v Hv) as [Hv'|?]; [by apply elem_of_nil in Hv'|done].
    + intros x pol Hp Hv. by eapply e_done.
    + by eapply e_flag.
    + intros Hc. destruct (Ht (fun _ => Hc)) as [_ (rep' & [= <-] & He')]. rewrite (e_flag _ _ _ _ _ _ _ He') by done.
      by rewrite (e_clean _ _ _ _ _ _ _ He').
  - destruct Hf as [-> _]. split; [done|]. intros Hc. destruct (Ht (fun _ => Hc)) as [_ [_ ?]]. done.
Qed.
