(* ===== verification/SoDGate.v ===== *)
(** What the separation-of-duties gates answer (SoD.v), and that without failing statements
    each refuses exactly the grant after which the scan would report something new. *)
From Stdlib Require Import ZArith Lia.
From stdpp Require Import base numbers tactics sets list.
From S2P Require Import Prelude GoStr Rbac Authz SoD SoDGrant SoDScan.

Definition newly (held adding : bytes -> bool) (pol : SoDPolicy) : bool := negb (both held pol) && both (fun p => held p || adding p) pol.

Lemma newly_find policies held adding : sodPolicyNewlyCompletedBy policies held adding = List.find (newly (has held) (has adding)) policies.
Proof.
  induction policies as [|pol policies IH]; [done|]. cbn [sodPolicyNewlyCompletedBy List.find]. rewrite IH. unfold newly, both.
  by destruct (has held (p_PermissionA pol)), (has held (p_PermissionB pol)), (has adding (p_PermissionA pol)), (has adding (p_PermissionB pol)).
Qed.
Lemma newly_ext f f' g g' pol : (forall p, f p = f' p) -> (forall p, g p = g' p) -> newly f g pol = newly f' g' pol.
Proof. intros Hf Hg. unfold newly, both. by rewrite !Hf, !Hg. Qed.
Lemma newly_nothing f g pol : (forall p, g p = false) -> newly f g pol = false.
Proof. intros Hg. unfold newly, both. rewrite !Hg, !orb_false_r. by destruct (f _), (f _). Qed.

(** The outcome of a gate: [exempt], or no listed policy is newly completed; an error names
    one that is. *)
Definition gate_ok (db : sodDB) (exempt : bool) (held adding : bytes -> bool) : Prop :=
  exempt = true \/ forall pol, pol ∈ listed_policies db -> newly held adding pol = false.
Definition gate_err (db : sodDB) (cl : bool) (roles : list Z) (exempt : bool) (held adding : bytes -> bool) (e : sod_err) : Prop :=
  storage_only cl e \/
  (e = ErrRoleNotFound /\ exists id, id ∈ roles /\ List.find (fun r => role_ID r =? id) (rb_roles (sd_rbac db)) = None) \/
  exists pol, e = SoDBlocked pol /\ exempt = false /\ pol ∈ listed_policies db /\ newly held adding pol = true.

Section gates.
Context (db : sodDB) (now : Z) (cl : bool).
Abbreviation perms_of := (set_grants (rb_perms (sd_rbac db))).

Lemma gate_nil exempt held adding : is_nil (listed_policies db) = true -> gate_ok db exempt held adding.
Proof. intros H. right. intros pol Hp. destruct (listed_policies db); [by apply elem_of_nil in Hp|done]. Qed.
Lemma blocked_post roles exempt held adding s a : exempt = false -> (forall p, has s p = held p) -> (forall p, has a p = adding p) ->
  post cl (blocked_by (sodPolicyNewlyCompletedBy (listed_policies db) s a)) (fun _ => gate_ok db exempt held adding) (gate_err db cl roles exempt held adding).
Proof.
  intros He Hs Ha. rewrite newly_find. destruct (List.find _ _) as [pol|] eqn:E; cbn [blocked_by].
  - apply find_some in E as [Hin Hn]. apply post_fail. right. right. exists pol. split_and!; [done..|by apply list_elem_of_In|].
    by rewrite (newly_ext _ (has s) _ (has a)).
  - apply post_ret. right. intros pol Hp. pose proof (find_none _ _ E pol) as Hn. rewrite (newly_ext _ (has s) _ (has a)) by done.
    apply Hn. by apply list_elem_of_In.
Qed.

Definition plain (ids : list Z) : list Z := List.filter (fun id => negb (admin_id db id)) ids.
Definition missing (roles : list Z) (e : sod_err) : Prop :=
  e = ErrRoleNotFound /\ exists id, id ∈ roles /\ List.find (fun r => role_ID r =? id) (rb_roles (sd_rbac db)) = None.
Lemma find_role_admin id r : List.find (fun r => role_ID r =? id) (rb_roles (sd_rbac db)) = Some r -> admin_id db id = isAdminRoleName (role_Name r).
Proof. intros H. unfold admin_id. by rewrite H. Qed.
Lemma plain_cons id ids p : perms_of (plain (id :: ids)) p = (negb (admin_id db id) && perms_of [id] p) || perms_of (plain ids) p.
Proof. unfold plain. cbn [List.filter]. destruct (admin_id db id); cbn; [done|]. apply (set_grants_app _ [id]). Qed.

Lemma GetRole_in id roles : id ∈ roles -> post cl (GetRole db id) (fun r => admin_id db id = isAdminRoleName (role_Name r)) (fun e => storage_only cl e \/ missing roles e).
Proof.
  intros Hin. unfold GetRole, find_row. apply post_stmt; [|by intros ->; left; split]. unfold admin_id.
  destruct (List.find _ _) eqn:E; [done|]. right. split; [done|]. by exists id.
Qed.
Lemma roleNames_any id roles : post cl (rolePermissionNameSetOn db id) (fun s => forall p, has s p = perms_of [id] p) (fun e => storage_only cl e \/ missing roles e).
Proof. apply roleNames_post. intros ->. left. by split. Qed.

Lemma adding_of_post roles scope ids : (forall id, id ∈ ids -> id ∈ roles) -> forall acc,
  post cl (adding_of db scope ids acc) (fun o => match o with
    | None => scope = global /\ existsb (admin_id db) ids = true
    | Some s => (scope = global -> existsb (admin_id db) ids = false) /\ forall p, has s p = has acc p || perms_of (plain ids) p end)
    (fun e => storage_only cl e \/ missing roles e).
Proof.
  induction ids as [|id ids IH]; intros Hin acc; cbn [adding_of].
  { apply post_ret. split; [done|]. intros p. unfold plain. cbn. by rewrite set_grants_nil, orb_false_r. }
  assert (forall i, i ∈ ids -> i ∈ roles) as Hin' by (intros; apply Hin; by right).
  eapply post_bind; [apply GetRole_in, Hin; by left|]. cbv beta. intros role Hr. rewrite <- Hr. destruct (admin_id db id) eqn:Ea.
  - case_bool_decide as Es; [apply post_ret; cbn; by rewrite Ea|]. eapply post_weaken; [by apply IH| |done]. intros [s|].
    + intros [_ Hs]. split; [done|]. intros p. by rewrite Hs, plain_cons, Ea.
    + by intros [-> _].
  - eapply post_bind; [apply roleNames_any|]. intros perms Hp. eapply post_weaken; [by apply IH| |done]. cbn [existsb]. rewrite Ea.
    intros [s|]; [|done]. intros [He Hs]. split; [done|]. intros p. by rewrite Hs, has_app, Hp, plain_cons, Ea, orb_assoc.
Qed.
Lemma held_of_adding_of ids : forall acc fs, held_of db ids acc fs = adding_of db global ids acc fs.
Proof.
  induction ids as [|id ids IH]; intros acc fs; [done|]. cbn [held_of adding_of]. unfold bind.
  destruct (GetRole db id fs) as [[role|e] fs1]; [|done]. rewrite bool_decide_eq_true_2 by done. destruct (isAdminRoleName _); [done|].
  destruct (rolePermissionNameSetOn db id fs1) as [[s|e] fs2]; [apply IH|done].
Qed.

(** ** The gate of a user *)

Definition user_exempt (u : Z) (ids : list Z) (scope : Scope) : bool := global_admin db now u || (bool_decide (scope = global) && existsb (admin_id db) ids).
Lemma nil_has s : is_nil s = true -> forall p, has s p = false.
Proof. intros H p. destruct s; [|done]. unfold has. apply bool_decide_eq_false. apply not_elem_of_nil. Qed.
Lemma err_missing roles exempt held adding e : storage_only cl e \/ missing roles e -> gate_err db cl roles exempt held adding e.
Proof. intros [?|?]; [by left|by right; left]. Qed.

Lemma user_gate_post u ids scope : let ex := user_exempt u ids scope in let adding := perms_of (plain ids) in
  post cl (requireNoSoDViolationOn db now u ids scope) (fun _ => gate_ok db ex (user_holds db now u) adding) (gate_err db cl ids ex (user_holds db now u) adding).
Proof.
  intros ex adding. unfold requireNoSoDViolationOn.
  assert (cl = false -> gate_err db cl ids ex (user_holds db now u) adding ErrStorage) as HX by (intros ->; by left).
  eapply post_bind; [by apply post_is|]. intros ? ->. destruct (is_nil _) eqn:En; [by apply post_ret, gate_nil|].
  eapply post_bind; [by apply isGlobalAdmin_post|]. cbv beta. intros [name|] Ho; symmetry in Ho; cbn [is_none] in Ho.
  { apply negb_false_iff in Ho. apply post_ret. left. subst ex. unfold user_exempt. by rewrite Ho. }
  apply negb_true_iff in Ho. eapply post_bind; [eapply post_weaken; [by apply (adding_of_post ids)|intros o Hq; exact Hq|intros e; apply err_missing]|].
  cbv beta. intros [s|].
  - intros [He Hs]. assert (ex = false) as Hex.
    { subst ex. unfold user_exempt. rewrite Ho. case_bool_decide as Es; [|done]. by rewrite He. }
    destruct (is_nil s) eqn:Es.
    { apply post_ret. right. intros pol _. apply newly_nothing. intros p. subst adding. pose proof (Hs p) as Hp. rewrite (nil_has s Es p) in Hp.
      symmetry in Hp. by apply orb_false_iff in Hp as [_ ?]. }
    eapply post_bind; [by apply userHeld_post|]. intros held Hh. apply blocked_post; [done..|]. intros p. rewrite Hs. unfold has at 1.
    by rewrite bool_decide_eq_false_2 by apply not_elem_of_nil.
  - intros [-> He]. apply post_ret. left. subst ex. unfold user_exempt. rewrite He. by rewrite orb_true_r.
Qed.

(** ** The gate of a group grant *)

Definition group_ok (r : Z) (members : list User) : Prop :=
  admin_id db r = true \/ forall m, m ∈ members -> u_IsActive m = true -> global_admin db now (u_ID m) = false ->
    forall pol, pol ∈ listed_policies db -> newly (user_holds db now (u_ID m)) (perms_of [r]) pol = false.
Definition group_err (r : Z) (members : list User) (e : sod_err) : Prop :=
  storage_only cl e \/ missing [r] e \/
  exists m pol, e = SoDBlocked pol /\ m ∈ members /\ u_IsActive m = true /\ global_admin db now (u_ID m) = false /\ admin_id db r = false /\
    pol ∈ listed_policies db /\ newly (user_holds db now (u_ID m)) (perms_of [r]) pol = true.

(** Why no member needs to be looked at. *)
Definition no_context (r : Z) : Prop := is_nil (listed_policies db) = true \/ admin_id db r = true \/ forall p, perms_of [r] p = false.
Lemma no_context_ok r members : no_context r -> group_ok r members.
Proof.
  intros [H|[H|H]]; [right|by left|right]; intros m _ _ _ pol Hp.
  - destruct (listed_policies db); [by apply elem_of_nil in Hp|done].
  - by apply newly_nothing.
Qed.
Lemma group_context_post r : post cl (groupGrantSoDContextOn db r) (fun o => match o with
    | None => no_context r
    | Some (policies, adding) => policies = listed_policies db /\ admin_id db r = false /\ forall p, has adding p = perms_of [r] p end)
    (fun e => storage_only cl e \/ missing [r] e).
Proof.
  unfold groupGrantSoDContextOn. eapply post_bind; [apply post_is; intros ->; by left|]. intros ? ->.
  destruct (is_nil _) eqn:En; [apply post_ret; by left|].
  eapply post_bind; [apply GetRole_in; by left|]. cbv beta. intros role Hr. rewrite <- Hr. destruct (admin_id db r) eqn:Ea.
  { apply post_ret. right. by left. }
  eapply post_bind; [apply roleNames_any|]. intros adding Ha. destruct (is_nil adding) eqn:Es; apply post_ret; [|done].
  right. right. intros p. rewrite <- Ha. by apply nil_has.
Qed.
Lemma members_post r all adding : admin_id db r = false -> (forall p, has adding p = perms_of [r] p) -> forall members, (forall m, m ∈ members -> m ∈ all) ->
  post cl (requireGroupGrantNoSoDViolationOn db now members (listed_policies db) adding)
    (fun _ => group_ok r members) (group_err r all).
Proof.
  intros Ea Ha members. induction members as [|m members IH]; intros Hin; cbn [requireGroupGrantNoSoDViolationOn].
  { apply post_ret. right. intros m Hm. by apply elem_of_nil in Hm. }
  assert (cl = false -> group_err r all ErrStorage) as HX by (intros ->; left; by split).
  assert (forall m, m ∈ members -> m ∈ all) as Hin' by (intros; apply Hin; by right).
  assert ((u_IsActive m = true -> global_admin db now (u_ID m) = false ->
    forall pol, pol ∈ listed_policies db -> newly (user_holds db now (u_ID m)) (perms_of [r]) pol = false) ->
    post cl (requireGroupGrantNoSoDViolationOn db now members (listed_policies db) adding) (fun _ => group_ok r (m :: members)) (group_err r all)) as Hnext.
  { intros Hm. eapply post_weaken; [by apply IH| |done]. intros _ [?|H]; [by left|]. right. intros w [-> |Hw]%elem_of_cons; [done|by apply H]. }
  destruct (u_IsActive m) eqn:Eact; cbn [negb]; [|by apply Hnext].
  eapply post_bind; [by apply isGlobalAdmin_post|]. cbv beta. intros [name|] Ho; symmetry in Ho; cbn [is_none] in Ho.
  { apply negb_false_iff in Ho. apply Hnext. by rewrite Ho. }
  apply negb_true_iff in Ho. eapply post_bind; [by apply userHeld_post|]. intros held Hh.
  eapply post_bind; [eapply post_weaken; [by apply (blocked_post [r] false (user_holds db now (u_ID m)) (perms_of [r]))|intros o Hq; exact Hq|]|].
  - intros e [?|[?|(pol & -> & _ & Hp & Hn)]]; [by left|by right; left|]. right. right. exists m, pol. split_and!; [done|apply Hin; by left|done..].
  - intros _ [?|Hn]; [done|]. by apply Hnext.
Qed.
Definition group_members (g : Z) : list User :=
  concat (map (fun u => map (fun _ => u) (List.filter (fun m => (ug_UserID m =? u_ID u) && (ug_GroupID m =? g)) (rb_user_groups (sd_rbac db)))) (live_users db)).
Lemma lockUserRows_post ids (X : sod_err -> Prop) : (cl = false -> X ErrStorage) -> post cl (lockUserRowsOn ids) (fun _ => True) X.
Proof. intros HX. induction ids as [|id ids IH]; cbn [lockUserRowsOn]; [by apply post_ret|]. eapply post_bind; [by apply post_is|]. by intros _ _. Qed.
Lemma group_fence_post g r : post cl (sodGroupGrantFence now g r db) (fun _ => live (rb_groups (sd_rbac db)) g = true /\ group_ok r (group_members g))
    (fun e => (e = ErrGroupNotFound /\ live (rb_groups (sd_rbac db)) g = false) \/ group_err r (group_members g) e).
Proof.
  unfold sodGroupGrantFence. set (X := fun e => _ \/ group_err _ _ e).
  assert (cl = false -> X ErrStorage) as HX by (intros ->; right; left; by split).
  assert (forall e, storage_only cl e \/ missing [r] e -> X e) as Hmiss by (intros e [?|?]; right; [by left|by right; left]).
  eapply (post_bind _ _ _ (fun l => live (rb_groups (sd_rbac db)) g = true /\ l = group_members g)).
  { unfold ListGroupMembers. eapply (post_bind _ _ _ (fun _ => live (rb_groups (sd_rbac db)) g = true)).
    - unfold GetGroup. apply post_stmt; [|done]. destruct (live _ g) eqn:E; [done|]. by left.
    - intros _ Hl. by apply post_read. }
  intros members [Hl ->]. eapply post_bind; [by apply lockUserRows_post|]. intros _ _.
  eapply post_bind; [eapply post_weaken; [apply group_context_post|intros o Hq; exact Hq|exact Hmiss]|]. cbv beta. intros [[policies adding]|].
  - intros (-> & Ea & Ha). eapply post_weaken; [by apply (members_post r (group_members g))|done|]. intros e He. by right.
  - intros H. apply post_ret. split; [done|]. by apply no_context_ok.
Qed.

(** ** The gate of a machine *)

Lemma union_of_post ids (X : sod_err -> Prop) : (cl = false -> X ErrStorage) -> forall acc,
  post cl (union_of db ids acc) (fun s => forall p, has s p = has acc p || perms_of ids p) X.
Proof.
  intros HX. induction ids as [|id ids IH]; intros acc; cbn [union_of].
  { apply post_ret. intros p. by rewrite set_grants_nil, orb_false_r. }
  eapply post_bind; [by apply roleNames_post|]. intros s Hs. eapply post_weaken; [by apply IH| |done]. cbv beta. intros t Ht p.
  by rewrite Ht, has_app, Hs, <- orb_assoc, <- set_grants_app.
Qed.
Lemma machine_gate_post m r : post cl (requireMachineGrantNoSoDViolationOn db m r)
  (fun _ => gate_ok db (admin_id db r) (machine_holds db m) (perms_of [r])) (gate_err db cl [r] (admin_id db r) (machine_holds db m) (perms_of [r])).
Proof.
  unfold requireMachineGrantNoSoDViolationOn.
  assert (cl = false -> gate_err db cl [r] (admin_id db r) (machine_holds db m) (perms_of [r]) ErrStorage) as HX by (intros ->; left; by split).
  eapply post_bind; [by apply post_is|]. intros ? ->. destruct (is_nil _) eqn:En; [by apply post_ret, gate_nil|].
  eapply post_bind; [eapply post_weaken; [apply (GetRole_in r [r]); by left|intros o Hq; exact Hq|intros e; apply err_missing]|]. cbv beta.
  intros role Hr. rewrite <- Hr. destruct (admin_id db r) eqn:Ea; [apply post_ret; by left|].
  eapply post_bind; [by apply roleNames_post|]. intros adding Ha. destruct (is_nil adding) eqn:Es.
  { apply post_ret. right. intros pol _. apply newly_nothing. intros p. rewrite <- Ha. by apply nil_has. }
  eapply post_bind; [by apply post_is|]. intros ? ->. eapply post_bind; [by apply union_of_post|]. intros held Hh. apply blocked_post; [done| |done].
  intros p. rewrite Hh. unfold has. by rewrite bool_decide_eq_false_2 by apply not_elem_of_nil.
Qed.

(** ** The gates of a new user and of a join *)

Lemma set_gate_post ids : let ex := existsb (admin_id db) ids in
  post cl (requireGrantSetNoSoDViolation db ids) (fun _ => gate_ok db ex (fun _ => false) (perms_of (plain ids))) (gate_err db cl ids ex (fun _ => false) (perms_of (plain ids))).
Proof.
  intros ex. unfold requireGrantSetNoSoDViolation.
  assert (cl = false -> gate_err db cl ids ex (fun _ => false) (perms_of (plain ids)) ErrStorage) as HX by (intros ->; left; by split).
  eapply post_bind; [by apply post_is|]. intros ? ->. destruct (is_nil _) eqn:En; [by apply post_ret, gate_nil|].
  eapply post_bind.
  { intros fs Hf. rewrite held_of_adding_of. revert fs Hf. eapply post_weaken; [by apply (adding_of_post ids global ids)|intros o Hq; exact Hq|intros e; apply err_missing]. }
  cbv beta. intros [s|].
  - intros [He Hs]. apply blocked_post; [by apply He| |].
    + intros p. unfold has. by rewrite bool_decide_eq_false_2 by apply not_elem_of_nil.
    + intros p. rewrite Hs. unfold has at 1. by rewrite bool_decide_eq_false_2 by apply not_elem_of_nil.
  - intros [_ He]. apply post_ret. by left.
Qed.

(** Permissions belong to roles that exist. *)
Definition perms_have_roles : Prop := forall rp, rp ∈ pt_role_permissions (rb_perms (sd_rbac db)) ->
  List.find (fun r => role_ID r =? rp_RoleID rp) (rb_roles (sd_rbac db)) <> None.
Lemma missing_role_grants_nothing id p : perms_have_roles -> List.find (fun r => role_ID r =? id) (rb_roles (sd_rbac db)) = None -> perms_of [id] p = false.
Proof.
  intros Hw Hf. apply not_true_iff_false. intros (rp & q & Hrp & _ & Hid & _)%set_grants_iff. apply list_elem_of_singleton in Hid. subst. by apply (Hw rp).
Qed.
Lemma join_adding_post grants : perms_have_roles -> forall acc,
  post cl (join_adding db grants acc) (fun o => match o with
    | None => existsb (admin_id db) (map gr_RoleID grants) = true
    | Some s => existsb (admin_id db) (map gr_RoleID grants) = false /\ forall p, has s p = has acc p || perms_of (map gr_RoleID grants) p end) (storage_only cl).
Proof.
  intros Hw. induction grants as [|g grants IH]; intros acc; cbn [join_adding map existsb].
  { apply post_ret. split; [done|]. intros p. by rewrite set_grants_nil, orb_false_r. }
  set (id := gr_RoleID g) in *.
  eapply (post_try _ _ _ (fun r => admin_id db id = isAdminRoleName (role_Name r))
    (fun e => storage_only cl e \/ (e = ErrRoleNotFound /\ admin_id db id = false /\ forall p, perms_of [id] p = false))).
  - unfold GetRole, find_row. apply post_stmt; [|intros ->; left; by split]. unfold admin_id. destruct (List.find _ _) eqn:E; [done|]. right.
    split_and!; [done..|]. intros p. by apply missing_role_grants_nothing.
  - intros role Hr. cbv beta iota. rewrite <- Hr. destruct (admin_id db id) eqn:Ea; [by apply post_ret|].
    eapply post_bind; [apply roleNames_post; by intros ->|]. intros perms Hp. eapply post_weaken; [by apply IH| |done]. cbn [orb].
    intros [s|]; [|done]. intros [He Hs]. split; [done|]. intros p. by rewrite Hs, has_app, Hp, <- orb_assoc, <- set_grants_app.
  - intros e [[-> Hc]|(-> & Ea & Hz)]; cbv beta iota; [by apply post_fail|]. rewrite Ea. eapply post_weaken; [by apply IH| |done]. cbn [orb].
    intros [s|]; [|done]. intros [He Hs]. split; [done|]. intros p. change (id :: map gr_RoleID grants) with ([id] ++ map gr_RoleID grants). by rewrite Hs, set_grants_app, Hz.
Qed.
Definition join_exempt (u : Z) (grants : list GroupRole) : bool := global_admin db now u || existsb (admin_id db) (map gr_RoleID grants).
Lemma join_gate_post u grants : perms_have_roles -> let ex := join_exempt u grants in let adding := perms_of (map gr_RoleID grants) in
  post cl (requireGroupJoinNoSoDViolationOn db now u grants) (fun _ => gate_ok db ex (user_holds db now u) adding) (gate_err db cl [] ex (user_holds db now u) adding).
Proof.
  intros Hw ex adding. unfold requireGroupJoinNoSoDViolationOn.
  assert (cl = false -> gate_err db cl [] ex (user_holds db now u) adding ErrStorage) as HX by (intros ->; left; by split).
  destruct (is_nil grants) eqn:Eg.
  { apply post_ret. right. intros pol _. apply newly_nothing. intros p. subst adding. destruct grants; [|done]. by rewrite set_grants_nil. }
  eapply post_bind; [by apply post_is|]. intros ? ->. destruct (is_nil (listed_policies db)) eqn:En; [by apply post_ret, gate_nil|].
  eapply post_bind; [by apply isGlobalAdmin_post|]. cbv beta. intros [name|] Ho; symmetry in Ho; cbn [is_none] in Ho.
  { apply negb_false_iff in Ho. apply post_ret. left. subst ex. unfold join_exempt. by rewrite Ho. }
  apply negb_true_iff in Ho. eapply post_bind; [eapply post_weaken; [by apply join_adding_post|intros o Hq; exact Hq|intros e He; by left]|].
  cbv beta. intros [s|].
  - intros [He Hs]. assert (forall p, has s p = adding p) as Hsa.
    { intros p. rewrite Hs. unfold has at 1. by rewrite bool_decide_eq_false_2 by apply not_elem_of_nil. }
    destruct (is_nil s) eqn:Es.
    { apply post_ret. right. intros pol _. apply newly_nothing. intros p. rewrite <- Hsa. by apply nil_has. }
    eapply post_bind; [by apply userHeld_post|]. intros held Hh. apply blocked_post; [|done..]. subst ex. unfold join_exempt. by rewrite Ho, He.
  - intros He. apply post_ret. left. subst ex. unfold join_exempt. by rewrite He, orb_true_r.
Qed.
End gates.
