(* ===== verification/SoDSafe.v ===== *)
(** Separation of duties across grants (SoDGrant.v): however grants, removals, policy changes
    and the passing of time follow one another, a principal comes to hold both permissions of
    a policy only through a grant that is exempt from the check. *)
From Stdlib Require Import ZArith Lia.
From stdpp Require Import base numbers tactics sets list.
From S2P Require Import Prelude GoStr Rbac Authz SoD SoDGrant SoDScan SoDGate.

(** * Membership in the id lists *)

Lemma elem_direct r now u x : x ∈ direct_ids r now u <->
  exists a, a ∈ rb_user_roles r /\ ur_UserID a = u /\ not_expired now (ur_ExpiresAt a) = true /\ ur_RoleID a = x.
Proof.
  unfold direct_ids. rewrite elem_of_map. setoid_rewrite elem_of_filter_bool. setoid_rewrite andb_true_iff. setoid_rewrite Z.eqb_eq. naive_solver.
Qed.
Lemma elem_via_group r now u x : x ∈ via_group_ids r now u <-> exists g m, g ∈ rb_group_roles r /\ m ∈ rb_user_groups r /\
  live (rb_groups r) (gr_GroupID g) = true /\ ug_GroupID m = gr_GroupID g /\ ug_UserID m = u /\ not_expired now (gr_ExpiresAt g) = true /\ gr_RoleID g = x.
Proof.
  unfold via_group_ids, member_any. rewrite elem_of_map. setoid_rewrite elem_of_filter_bool. setoid_rewrite andb_true_iff. setoid_rewrite andb_true_iff.
  setoid_rewrite existsb_elem. setoid_rewrite andb_true_iff. setoid_rewrite Z.eqb_eq. naive_solver.
Qed.
Lemma elem_user_role_ids r now u scope x : x ∈ user_role_ids r now u scope <-> exists a, a ∈ rb_user_roles r /\ ur_UserID a = u /\
  applies r (ur_ProjectID a) (ur_EnvironmentID a) scope = true /\ not_expired now (ur_ExpiresAt a) = true /\ ur_RoleID a = x.
Proof.
  unfold user_role_ids. rewrite elem_of_map. split.
  - intros (a & -> & [Ha Hc]%elem_of_filter_bool). breflect. eauto 10.
  - intros (a & Ha & Hu & Hs & He & <-). exists a. split; [done|]. apply elem_of_filter_bool. split; [done|]. by rewrite Hu, Hs, He, Z.eqb_refl.
Qed.
Lemma elem_group_role_ids r now u scope x : x ∈ group_role_ids r now u scope <-> exists g m, g ∈ rb_group_roles r /\ m ∈ rb_user_groups r /\
  live (rb_groups r) (gr_GroupID g) = true /\ applies r (gr_ProjectID g) (gr_EnvironmentID g) scope = true /\ not_expired now (gr_ExpiresAt g) = true /\
  ug_GroupID m = gr_GroupID g /\ ug_UserID m = u /\ (ug_ProjectID m =? 0) || (ug_ProjectID m =? sc_ProjectID scope) = true /\ gr_RoleID g = x.
Proof.
  unfold group_role_ids. rewrite list_elem_of_In, in_concat. split.
  - intros (l & Hl & Hx). apply in_map_iff in Hl as (g & <- & [Hg Hc]%filter_In). apply in_map_iff in Hx as (m & <- & [Hm Hd]%filter_In).
    rewrite !andb_true_iff, !Z.eqb_eq in Hd. rewrite !andb_true_iff in Hc. exists g, m. rewrite !list_elem_of_In. tauto.
  - intros (g & m & Hg & Hm & Hl & Ha & He & Hgid & Hu & Hp & <-). rewrite list_elem_of_In in Hg. rewrite list_elem_of_In in Hm.
    eexists. split; [apply in_map_iff; exists g; split; [reflexivity|]; apply filter_In; split; [done|by rewrite Hl, Ha, He]|].
    apply in_map_iff. exists m. split; [done|]. apply filter_In. split; [done|]. by rewrite Hgid, Hu, !Z.eqb_refl, Hp.
Qed.
Lemma elem_machine_role r m x : x ∈ map role_ID (machine_roles r m) <->
  exists role a, role ∈ rb_roles r /\ a ∈ rb_machine_roles r /\ mr_RoleID a = role_ID role /\ mr_MachineID a = m /\ role_ID role = x.
Proof.
  rewrite elem_of_map. unfold machine_roles. setoid_rewrite list_elem_of_In. setoid_rewrite in_concat. setoid_rewrite in_map_iff. split.
  - intros (role & -> & l & (ro & <- & Hro) & Hx). apply in_map_iff in Hx as (a & <- & [Ha Hc]%filter_In). breflect. exists ro, a. done.
  - intros (role & a & Hr & Ha & He & Hm & <-). exists role. split; [done|]. eexists. split; [exists role; split; [reflexivity|done]|].
    apply in_map_iff. exists a. split; [done|]. apply filter_In. split; [done|]. by rewrite He, Hm, !Z.eqb_refl.
Qed.

(** * What a change can add *)

(** The roles, the permissions and the accounts are the same; a user's ids grow by [extra],
    a machine's by [mextra]. *)
Record adds (db db' : sodDB) (now : Z) (extra mextra : Z -> list Z) : Prop := {
  a_roles : rb_roles (sd_rbac db') = rb_roles (sd_rbac db);
  a_perms : rb_perms (sd_rbac db') = rb_perms (sd_rbac db);
  a_held : forall u x, x ∈ held_ids (sd_rbac db') now u -> x ∈ held_ids (sd_rbac db) now u ++ extra u;
  a_global : forall u x, x ∈ user_ids (sd_rbac db') now u global -> x ∈ user_ids (sd_rbac db) now u global ++ extra u;
  a_machine : forall m x, x ∈ map role_ID (machine_roles (sd_rbac db') m) -> x ∈ map role_ID (machine_roles (sd_rbac db) m) ++ mextra m;
  a_users : forall u, active_user db' u = true -> active_user db u = true;
  a_machines : sd_machines db' = sd_machines db }.

Lemma admin_id_same db db' id : rb_roles (sd_rbac db') = rb_roles (sd_rbac db) -> admin_id db' id = admin_id db id.
Proof. intros H. unfold admin_id. by rewrite H. Qed.
Lemma existsb_app_elem {A} (P : A -> bool) a b c : (forall x, x ∈ a -> x ∈ b ++ c) -> existsb P a = true -> existsb P b = true \/ existsb P c = true.
Proof. rewrite !existsb_elem. intros H (x & Hx & Hp). apply H in Hx as [Hx|Hx]%elem_of_app; [left|right]; eauto. Qed.
Lemma both_newly held adding all pol : (forall p, all p = true -> held p || adding p = true) -> both all pol = true -> both held pol = true \/ newly held adding pol = true.
Proof.
  intros H Hb. unfold newly. destruct (both held pol) eqn:E; [by left|]. right. cbn [negb andb]. eapply both_mono; [|exact Hb]. exact H.
Qed.

Lemma adds_violation db db' now extra mextra x pol : adds db db' now extra mextra -> violates db' now x pol = true ->
  violates db now x pol = true \/
  match x with
  | PUser u => active_user db u = true /\ (existsb (admin_id db) (extra u) = true \/
      (global_admin db now u = false /\ newly (user_holds db now u) (set_grants (rb_perms (sd_rbac db)) (extra u)) pol = true))
  | PMachine m => newly (machine_holds db m) (set_grants (rb_perms (sd_rbac db)) (mextra m)) pol = true
  end.
Proof.
  intros [hroles hperms hheld hglobal hmach husers hms]. destruct x as [u|m]; cbn [violates]; intros [Ha Hv]%andb_prop.
  - rewrite (husers u Ha). cbn [andb]. destruct (global_admin db now u) eqn:Eg; [by left|]. cbn [orb].
    apply orb_prop in Hv as [Hv|Hv].
    + right. split; [done|]. left. unfold global_admin in *.
      assert (existsb (admin_id db) (user_ids (sd_rbac db') now u global) = true) as Hv'.
      { revert Hv. rewrite !existsb_elem. intros (x & Hx & Hp). exists x. by rewrite <- (admin_id_same db db'). }
      destruct (existsb_app_elem _ _ _ _ (hglobal u) Hv') as [H|H]; [by rewrite Eg in H|done].
    + apply (both_newly (user_holds db now u) (set_grants (rb_perms (sd_rbac db)) (extra u))) in Hv; [destruct Hv as [Hv|Hv]; [by left|right; auto]|].
      unfold user_holds. intros p Hp. rewrite hperms in Hp. rewrite <- set_grants_app. eapply set_grants_mono; [|exact Hp]. apply hheld.
  - replace (active_machine db m) with true by (unfold active_machine in *; by rewrite hms in Ha). cbn [andb].
    apply (both_newly (machine_holds db m) (set_grants (rb_perms (sd_rbac db)) (mextra m))) in Hv; [done|].
    unfold machine_holds. intros p Hp. rewrite hperms in Hp. rewrite <- set_grants_app. eapply set_grants_mono; [|exact Hp]. apply hmach.
Qed.
Lemma adds_none db db' now : adds db db' now (fun _ => []) (fun _ => []) -> forall x pol, violates db' now x pol = true -> violates db now x pol = true.
Proof.
  intros H x pol Hv. destruct (adds_violation _ _ _ _ _ _ _ H Hv) as [?|Hx]; [done|]. exfalso.
  destruct x; [destruct Hx as [_ [Hx|[_ Hx]]]|]; [done| |]; by rewrite newly_nothing in Hx by (intros; apply set_grants_nil).
Qed.
(** Time only takes grants away. *)
Lemma not_expired_mono now now' e : now <= now' -> not_expired now' e = true -> not_expired now e = true.
Proof. destruct e; cbn; [|done]. rewrite !Z.ltb_lt. lia. Qed.
Lemma violates_earlier db now now' x pol : now <= now' -> violates db now' x pol = true -> violates db now x pol = true.
Proof.
  intros Hn. destruct x as [u|m]; [|done]. cbn. intros [-> Hv]%andb_prop. cbn.
  assert (forall x, x ∈ held_ids (sd_rbac db) now' u -> x ∈ held_ids (sd_rbac db) now u) as Hh.
  { intros x. unfold held_ids. rewrite !elem_of_app, !elem_direct, !elem_via_group.
    intros [(a & H1 & H2 & H3 & H4)|(g & m & H1 & H2 & H3 & H4 & H5 & H6 & H7)]; [left; exists a|right; exists g, m]; eauto 10 using not_expired_mono. }
  assert (forall x, x ∈ user_ids (sd_rbac db) now' u global -> x ∈ user_ids (sd_rbac db) now u global) as Hg.
  { intros x. unfold user_ids. rewrite !elem_of_app, !elem_user_role_ids, !elem_group_role_ids.
    intros [(a & H1 & H2 & H3 & H4 & H5)|(g & m & H1 & H2 & H3 & H4 & H5 & H6)]; [left; exists a|right; exists g, m]; eauto 10 using not_expired_mono. }
  apply orb_prop in Hv as [Hv|Hv]; apply orb_true_iff; [left|right].
  - unfold global_admin in *. revert Hv. rewrite !existsb_elem. intros (x & Hx & Hp). eauto.
  - eapply both_mono; [|exact Hv]. unfold user_holds. intros p. by apply set_grants_mono.
Qed.

(** * What the writes add *)

Lemma post_any {A} (m : R A) : post false m (fun _ => True) (fun _ => True).
Proof. intros fs _. split; [done|]. by destruct (m fs).1. Qed.
Lemma post_run {A} (m : R A) Q X fs a : post false m Q X -> (m fs).1 = Ok a -> Q a.
Proof. intros H E. destruct (H fs) as [_ Hr]; [done|]. by rewrite E in Hr. Qed.
(** A step that only has to succeed. *)
Lemma post_then {A B} (m : R A) (k : A -> R B) Q : (forall a, post false (k a) Q (fun _ => True)) -> post false (bind m k) Q (fun _ => True).
Proof. intros H. eapply post_bind; [apply post_any|]. intros a _. apply H. Qed.

Lemma put_grant_post {A} (at_ : A -> bool) exp now new rows :
  post false (put_grant at_ exp now new rows) (fun rows' => forall x, x ∈ rows' -> x ∈ rows \/ x = new) (fun _ => True).
Proof.
  unfold put_grant. apply post_then. intros existing. eapply (post_bind _ _ _ (fun rows' => forall x, x ∈ rows' -> x ∈ rows)).
  - destruct existing as [x|]; [|by apply post_ret]. destruct (not_expired _ _); [by apply post_fail|]. apply post_read; [|done].
    intros y Hy. by apply elem_of_filter_bool in Hy as [? _].
  - intros rows' Hr. apply post_read; [|done]. intros x [Hx|Hx]%elem_of_app; [left; by apply Hr|right; by apply list_elem_of_singleton].
Qed.

Definition no_ids : Z -> list Z := fun _ => [].
Lemma adds_refl db now : adds db db now no_ids no_ids.
Proof. constructor; unfold no_ids; try done; intros; by rewrite app_nil_r. Qed.
Definition only (u : Z) (ids : list Z) : Z -> list Z := fun w => if w =? u then ids else [].
Lemma only_same u ids : only u ids u = ids.
Proof. unfold only. by rewrite Z.eqb_refl. Qed.

Lemma adds_user_rows db now u ids rows' :
  (forall a, a ∈ rows' -> a ∈ rb_user_roles (sd_rbac db) \/ (ur_UserID a = u /\ ur_RoleID a ∈ ids)) ->
  adds db (with_rbac db (with_user_roles (sd_rbac db) rows')) now (only u ids) no_ids.
Proof.
  intros H. constructor; try done.
  - intros w x. unfold held_ids. rewrite !elem_of_app, !elem_direct, !elem_via_group. cbn [sd_rbac with_rbac with_user_roles rb_user_roles rb_group_roles rb_user_groups rb_groups].
    intros [(a & Ha & Hu & He & Hx)|Hg]; [|by left; right]. destruct (H a Ha) as [Ho|[Hn Hr]]; [left; left; eauto 10|]. right. subst. by rewrite only_same.
  - intros w x. unfold user_ids. rewrite !elem_of_app, !elem_user_role_ids, !elem_group_role_ids.
    cbn [sd_rbac with_rbac with_user_roles rb_user_roles rb_group_roles rb_user_groups rb_groups].
    intros [(a & Ha & Hu & Hs & He & Hx)|Hg]; [|by left; right]. destruct (H a Ha) as [Ho|[Hn Hr]]; [left; left; eauto 10|]. right. subst. by rewrite only_same.
  - intros m x. rewrite elem_of_app. by left.
Qed.
Lemma adds_group_rows db now g r rows' :
  (forall a, a ∈ rows' -> a ∈ rb_group_roles (sd_rbac db) \/ (gr_GroupID a = g /\ gr_RoleID a = r)) ->
  adds db (with_rbac db (with_group_roles (sd_rbac db) rows')) now (fun w => if member_any (sd_rbac db) w g then [r] else []) no_ids.
Proof.
  assert (forall w m, m ∈ rb_user_groups (sd_rbac db) -> ug_GroupID m = g -> ug_UserID m = w -> member_any (sd_rbac db) w g = true) as Hm.
  { intros w m Hm Hg Hu. apply existsb_elem. exists m. split; [done|]. by rewrite Hg, Hu, !Z.eqb_refl. }
  intros H. constructor; try done.
  - intros w x. unfold held_ids. rewrite !elem_of_app, !elem_direct, !elem_via_group. cbn [sd_rbac with_rbac with_group_roles rb_user_roles rb_group_roles rb_user_groups rb_groups].
    intros [Hd|(a & m & Ha & Hin & Hl & Hgm & Hu & He & Hx)]; [by left; left|]. destruct (H a Ha) as [Ho|[Hn Hr]]; [left; right; eauto 12|].
    right. rewrite (Hm w m) by congruence. apply list_elem_of_singleton. congruence.
  - intros w x. unfold user_ids. rewrite !elem_of_app, !elem_user_role_ids, !elem_group_role_ids.
    cbn [sd_rbac with_rbac with_group_roles rb_user_roles rb_group_roles rb_user_groups rb_groups].
    intros [Hd|(a & m & Ha & Hin & Hl & Hs & He & Hgm & Hu & Hp & Hx)]; [by left; left|]. destruct (H a Ha) as [Ho|[Hn Hr]].
    { left. right. exists a, m. split_and!; done. }
    right. rewrite (Hm w m) by congruence. apply list_elem_of_singleton. congruence.
  - intros m x. rewrite elem_of_app. by left.
Qed.
Lemma adds_membership db now u g rows' :
  (forall a, a ∈ rows' -> a ∈ rb_user_groups (sd_rbac db) \/ (ug_UserID a = u /\ ug_GroupID a = g)) ->
  adds db (with_rbac db (with_user_groups (sd_rbac db) rows')) now (only u (map gr_RoleID (group_grants now (sd_rbac db) g))) no_ids.
Proof.
  assert (forall a, a ∈ rb_group_roles (sd_rbac db) -> gr_GroupID a = g -> not_expired now (gr_ExpiresAt a) = true ->
    gr_RoleID a ∈ map gr_RoleID (group_grants now (sd_rbac db) g)) as Hm.
  { intros a Ha Hg He. apply elem_of_map. exists a. split; [done|]. apply elem_of_filter_bool. by rewrite Hg, He, Z.eqb_refl. }
  intros H. constructor; try done.
  - intros w x. unfold held_ids. rewrite !elem_of_app, !elem_direct, !elem_via_group. cbn [sd_rbac with_rbac with_user_groups rb_user_roles rb_group_roles rb_user_groups rb_groups].
    intros [Hd|(a & m & Ha & Hin & Hl & Hgm & Hu & He & Hx)]; [by left; left|]. destruct (H m Hin) as [Ho|[Hn Hr]]; [left; right; eauto 12|].
    right. assert (w = u) as -> by congruence. rewrite only_same. rewrite <- Hx. apply Hm; [done|congruence|done].
  - intros w x. unfold user_ids. rewrite !elem_of_app, !elem_user_role_ids, !elem_group_role_ids.
    cbn [sd_rbac with_rbac with_user_groups rb_user_roles rb_group_roles rb_user_groups rb_groups].
    intros [Hd|(a & m & Ha & Hin & Hl & Hs & He & Hgm & Hu & Hp & Hx)]; [by left; left|]. destruct (H m Hin) as [Ho|[Hn Hr]].
    { left. right. exists a, m. split_and!; done. }
    right. assert (w = u) as -> by congruence. rewrite only_same. rewrite <- Hx. apply Hm; [done|congruence|done].
  - intros m x. rewrite elem_of_app. by left.
Qed.
Lemma adds_machine_rows db now m r rows' :
  (forall a, a ∈ rows' -> a ∈ rb_machine_roles (sd_rbac db) \/ (mr_MachineID a = m /\ mr_RoleID a = r)) ->
  adds db (with_rbac db (with_machine_roles (sd_rbac db) rows')) now no_ids (only m [r]).
Proof.
  intros H. constructor; try done; unfold no_ids.
  - intros w x. rewrite app_nil_r. done.
  - intros w x. rewrite app_nil_r. done.
  - intros w x. rewrite elem_of_app, !elem_machine_role. cbn [sd_rbac with_rbac with_machine_roles rb_machine_roles rb_roles].
    intros (role & a & Hr & Ha & He & Hw & Hx). destruct (H a Ha) as [Ho|[Hn Hi]]; [left; eauto 10|]. right.
    assert (w = m) as -> by congruence. rewrite only_same. apply list_elem_of_singleton. congruence.
Qed.

(** * Steps *)

Abbreviation perms_of db := (set_grants (rb_perms (sd_rbac db))).
Lemma newly_none held pol pt : newly held (set_grants pt []) pol = false.
Proof. apply newly_nothing. intros. apply set_grants_nil. Qed.
Lemma plain_all db ids : existsb (admin_id db) ids = false -> plain db ids = ids.
Proof.
  induction ids as [|id ids IH]; [done|]. cbn [existsb]. intros [Ha Hr]%orb_false_iff. unfold plain in *. cbn [List.filter]. rewrite Ha. cbn. by rewrite IH.
Qed.

(** A change to one user, checked or exempt. *)
Lemma only_safe db db' now u ids x pol : adds db db' now (only u ids) no_ids ->
  (existsb (admin_id db) ids = false -> global_admin db now u = false -> newly (user_holds db now u) (perms_of db ids) pol = false) ->
  violates db' now x pol = true -> violates db now x pol = true \/ (x = PUser u /\ existsb (admin_id db) ids = true).
Proof.
  intros Ha Hg Hv. destruct (adds_violation _ _ _ _ _ _ _ Ha Hv) as [?|Hx]; [by left|]. destruct x as [w|m].
  - destruct Hx as [_ Hx]. unfold only in Hx. destruct (Z.eqb_spec w u) as [-> |]; [|destruct Hx as [Hx|[_ Hx]]; [done|by rewrite newly_none in Hx]].
    destruct (existsb (admin_id db) ids) eqn:Ea; [by right|]. destruct Hx as [Hx|[Hga Hx]]; [done|]. by rewrite Hg in Hx.
  - by rewrite newly_none in Hx.
Qed.

Section steps.
Context {E : Type} (auth : AuthzStore E) (ToLower : bytes -> bytes) (domains : list bytes).

(** What the two states of a grant have to agree on when its check is not repeated. *)
Definition rules_agree (db0 db : sodDB) : Prop :=
  listed_policies db0 = listed_policies db /\ rb_roles (sd_rbac db0) = rb_roles (sd_rbac db) /\ rb_perms (sd_rbac db0) = rb_perms (sd_rbac db).
(** No row names the account yet. *)
Definition fresh (db : sodDB) (id : Z) : Prop :=
  (forall a, a ∈ rb_user_roles (sd_rbac db) -> ur_UserID a <> id) /\ (forall m, m ∈ rb_user_groups (sd_rbac db) -> ug_UserID m <> id).

(** [step now db exempt db']: the transaction of an operation turns [db] into [db'] at [now];
    [exempt] are the principals for whom its check makes an exception.  The state [db0] its
    first check saw is another one.  The transactions of a grant to a group and of a new account do
    not look at policies, roles and permissions again, so there [db0] must agree with [db] on them:
    an assumption the code does not ensure ([SoDExample.group_grant_misses_new_policy]). *)
Inductive step (now : Z) (db : sodDB) : (principal -> Prop) -> sodDB -> Prop :=
| S_AssignUserRole c u r scope db0 fs db' : (AssignUserRole auth now c u r scope db0 db fs).1 = Ok db' ->
    step now db (fun x => x = PUser u /\ admin_id db r = true) db'
| S_AssignUserRoleWithExpiry c u r scope e db0 fs db' : (AssignUserRoleWithExpiry auth now c u r scope e db0 db fs).1 = Ok db' ->
    step now db (fun x => x = PUser u /\ admin_id db r = true) db'
| S_assignUserRoleSystemGrant u r scope db0 fs db' : (assignUserRoleSystemGrant now u r scope db0 db fs).1 = Ok db' ->
    step now db (fun x => x = PUser u /\ admin_id db r = true) db'
| S_grantBaselineRoleBackfill u r db0 fs db' : (grantBaselineRoleBackfill now u r db0 db fs).1 = Ok db' ->
    step now db (fun x => x = PUser u /\ admin_id db r = true) db'
| S_break_glass u r scope e db0 fs db' : (assignUserRoleWithExpirySkipSoD now u r scope e db0 db fs).1 = Ok db' ->
    step now db (fun x => x = PUser u) db'
| S_AssignRoleToGroup c g r scope db0 fs db' : rules_agree db0 db -> (AssignRoleToGroup auth now c g r scope db0 db fs).1 = Ok db' ->
    step now db (fun x => exists u, x = PUser u /\ member_any (sd_rbac db) u g = true /\ admin_id db r = true) db'
| S_AssignGroupRoleWithExpiry c g r scope e db0 fs db' : rules_agree db0 db -> (AssignGroupRoleWithExpiry auth now c g r scope e db0 db fs).1 = Ok db' ->
    step now db (fun x => exists u, x = PUser u /\ member_any (sd_rbac db) u g = true /\ admin_id db r = true) db'
| S_AddUserToGroup c u g p db0 fs db' : (AddUserToGroup auth now ToLower domains c u g p db0 db fs).1 = Ok db' ->
    step now db (fun x => x = PUser u /\ (is_system c = true \/ existsb (admin_id db) (map gr_RoleID (group_grants now (sd_rbac db) g)) = true)) db'
| S_AssignMachineRole c m r scope db0 fs db' : (AssignMachineRole auth c m r scope db0 db fs).1 = Ok db' ->
    step now db (fun x => x = PMachine m /\ admin_id db r = true) db'
| S_CreateUserWithAssignments c user systemRole l db0 fs db' : rules_agree db0 db -> fresh db (u_ID user) ->
    (CreateUserWithAssignments auth c user systemRole l db0 db fs).1 = Ok db' ->
    step now db (fun x => x = PUser (u_ID user) /\ exists a, a ∈ rb_user_roles (sd_rbac db') /\ ur_UserID a = u_ID user /\ admin_id db (ur_RoleID a) = true) db'
| S_CreateSoDPolicy actor id name description permA permB fs : step now db (fun _ => False) (CreateSoDPolicy db now actor id name description permA permB fs).1.2
| S_DeleteSoDPolicy actor id fs : step now db (fun _ => False) (DeleteSoDPolicy db now actor id fs).1.2
| S_RemoveRole u r scope fs db' : (store_RemoveRole u r scope db fs).1 = Ok db' -> step now db (fun _ => False) db'
| S_RemoveRoleFromGroup g r scope fs db' : (store_RemoveRoleFromGroup g r scope db fs).1 = Ok db' -> step now db (fun _ => False) db'
| S_RemoveMachineRole m r scope fs db' : (store_RemoveMachineRole m r scope db fs).1 = Ok db' -> step now db (fun _ => False) db'
| S_RemoveUserFromGroup u g p fs db' : (store_RemoveUserFromGroup u g p db fs).1 = Ok db' -> step now db (fun _ => False) db'
| S_DeleteExpiredRoleGrants before fs db' : (DeleteExpiredRoleGrants before db fs).1 = Ok db' -> step now db (fun _ => False) db'.

(** The steps while the policy is listed, none of which makes an exception for [x]. *)
Inductive history (x : principal) (pol : SoDPolicy) : Z -> sodDB -> Z -> sodDB -> Prop :=
| H_nil now db now' : now <= now' -> history x pol now db now' db
| H_step now db now1 exempt db1 now2 db2 : now <= now1 -> pol ∈ listed_policies db -> step now1 db exempt db1 -> ~ exempt x ->
    history x pol now1 db1 now2 db2 -> history x pol now db now2 db2.

(** ** Each step *)

Lemma withAudited_post body event db (Q : sodDB -> Prop) : post false (body db) (fun db' => Q (with_audit db' (event, true))) (fun _ => True) ->
  post false (withAuditedMutation body event db) Q (fun _ => True).
Proof.
  intros H. unfold withAuditedMutation. eapply post_bind; [exact H|]. cbv beta. intros db' Hq. do 2 (apply post_then; intros _). by apply post_ret.
Qed.

Lemma user_write_post now u r scope e db : post false (store_assignUserRole now u r scope e db) (fun db' => adds db db' now (only u [r]) no_ids) (fun _ => True).
Proof.
  unfold store_assignUserRole. eapply post_bind; [apply put_grant_post|]. cbv beta. intros rows Hr. apply post_ret. apply adds_user_rows.
  intros a Ha. destruct (Hr a Ha) as [?| ->]; [by left|]. right. cbn. split; [done|]. by apply list_elem_of_singleton.
Qed.
Lemma audit_adds db db' now extra mextra a : adds db db' now extra mextra -> adds db (with_audit db' a) now extra mextra.
Proof. by intros []. Qed.

(** [ex]: what the step is exempt for. *)
Definition safe (now : Z) (db : sodDB) (x : principal) (pol : SoDPolicy) (ex : Prop) (db' : sodDB) : Prop :=
  rb_roles (sd_rbac db') = rb_roles (sd_rbac db) /\ rb_perms (sd_rbac db') = rb_perms (sd_rbac db) /\
  (violates db' now x pol = true -> violates db now x pol = true \/ ex).
Lemma safe_adds now db x pol (ex : Prop) db' extra mextra : adds db db' now extra mextra ->
  (violates db' now x pol = true -> violates db now x pol = true \/ ex) -> safe now db x pol ex db'.
Proof. intros Ha H. split_and!; [by eapply a_roles|by eapply a_perms|done]. Qed.
Lemma safe_none now db x pol (ex : Prop) db' : adds db db' now no_ids no_ids -> safe now db x pol ex db'.
Proof. intros Ha. eapply safe_adds; [done|]. intros Hv. left. by eapply adds_none. Qed.

Lemma gated_user_post now first u r scope e db0 db x pol : pol ∈ listed_policies db ->
  post false (gated_user_grant now first u r scope e db0 db) (safe now db x pol (x = PUser u /\ admin_id db r = true)) (fun _ => True).
Proof.
  intros Hp. unfold gated_user_grant, grantUserRoleAudited. apply post_then. intros _. apply post_then. intros _. apply withAudited_post.
  eapply (post_bind _ _ _ (fun _ => gate_ok db (user_exempt db now u [r] global) (user_holds db now u) (perms_of db (plain db [r])))).
  - unfold chainTxFences, sodUserGrantFence. apply post_then. intros _. apply post_then. intros _.
    eapply post_weaken; [apply user_gate_post|done|done].
  - intros _ Hg. eapply post_weaken; [apply user_write_post| |done]. cbv beta. intros db' Ha. apply (audit_adds _ _ _ _ _ (EventRoleAssigned, true)) in Ha.
    eapply safe_adds; [done|]. intros Hv. destruct (only_safe db _ now u [r] x pol Ha) with (2 := Hv) as [?|[-> Hr]]; [|by left|].
    + intros Hadm Hga. rewrite <- (plain_all db [r] Hadm). destruct Hg as [Hg|Hg]; [|by apply Hg]. unfold user_exempt in Hg. by rewrite Hga, Hadm in Hg.
    + right. split; [done|]. cbn in Hr. by rewrite orb_false_r in Hr.
Qed.
Lemma break_glass_post now u r scope e db0 db x pol :
  post false (assignUserRoleWithExpirySkipSoD now u r scope e db0 db) (safe now db x pol (x = PUser u)) (fun _ => True).
Proof.
  unfold assignUserRoleWithExpirySkipSoD, grantUserRoleAudited. apply post_then. intros _. apply withAudited_post. apply post_then. intros _.
  eapply post_weaken; [apply user_write_post| |done]. cbv beta. intros db' Ha. apply (audit_adds _ _ _ _ _ (EventRoleAssigned, true)) in Ha.
  eapply safe_adds; [done|]. intros Hv. destruct (adds_violation _ _ _ _ _ _ _ Ha Hv) as [?|Hx]; [by left|]. destruct x as [w|m]; [|by rewrite newly_none in Hx].
  destruct Hx as [_ Hx]. unfold only in Hx. destruct (Z.eqb_spec w u) as [-> |]; [by right|]. destruct Hx as [Hx|[_ Hx]]; [done|by rewrite newly_none in Hx].
Qed.

(** An active member is in the listing the fence checks. *)
Lemma member_listed db u g : active_user db u = true -> member_any (sd_rbac db) u g = true ->
  exists m, m ∈ group_members db g /\ u_IsActive m = true /\ u_ID m = u.
Proof.
  intros Ha Hm. apply existsb_elem in Ha as (m & Hu & Ha). unfold live_user in Ha. breflect. apply existsb_elem in Hm as (a & Hin & Hc).
  apply andb_prop in Hc as [Hg%Z.eqb_eq Hau%Z.eqb_eq]. subst. exists m. split_and!; [|done..]. unfold group_members. apply list_elem_of_In, in_concat. eexists. split.
  - apply in_map_iff. exists m. split; [reflexivity|]. apply list_elem_of_In, elem_of_filter_bool. split; [done|]. by apply negb_true_iff.
  - apply in_map_iff. exists a. split; [done|]. apply filter_In. split; [by apply list_elem_of_In|]. by rewrite Hau, !Z.eqb_refl.
Qed.
Lemma group_safe db db' now g r x pol : pol ∈ listed_policies db ->
  adds db db' now (fun w => if member_any (sd_rbac db) w g then [r] else []) no_ids -> group_ok db now r (group_members db g) ->
  safe now db x pol (exists u, x = PUser u /\ member_any (sd_rbac db) u g = true /\ admin_id db r = true) db'.
Proof.
  intros Hp Ha Hg. eapply safe_adds; [done|]. intros Hv. destruct (adds_violation _ _ _ _ _ _ _ Ha Hv) as [?|Hx]; [by left|].
  destruct x as [w|m]; [|by rewrite newly_none in Hx]. destruct Hx as [Hact Hx].
  destruct (member_any (sd_rbac db) w g) eqn:Em; [|destruct Hx as [Hx|[_ Hx]]; [done|by rewrite newly_none in Hx]].
  destruct (admin_id db r) eqn:Er; [right; eauto|]. exfalso. cbn in Hx. rewrite Er in Hx. destruct Hx as [Hx|[Hga Hx]]; [done|].
  destruct (member_listed db w g Hact Em) as (m & Hm & Hma & <-). destruct Hg as [Hg|Hg]; [by rewrite Er in Hg|]. by rewrite (Hg m Hm Hma Hga pol Hp) in Hx.
Qed.
Lemma gated_group_post now g r scope e db0 db x pol : rules_agree db0 db -> pol ∈ listed_policies db ->
  post false (gated_group_grant now g r scope e db0 db)
    (safe now db x pol (exists u, x = PUser u /\ member_any (sd_rbac db) u g = true /\ admin_id db r = true)) (fun _ => True).
Proof.
  intros (Hl & Hr & Hpm) Hp.
  assert (forall fence : txFence, (post false (fence db) (fun _ => group_ok db now r (group_members db g)) (fun _ => True)) ->
    post false (grantGroupRoleAudited now fence g r scope e db0 db)
      (safe now db x pol (exists u, x = PUser u /\ member_any (sd_rbac db) u g = true /\ admin_id db r = true)) (fun _ => True)) as Hgrant.
  { intros fence Hf. unfold grantGroupRoleAudited. apply post_then. intros _. apply withAudited_post. eapply post_bind; [exact Hf|]. cbv beta. intros _ Hg.
    unfold store_assignGroupRole. eapply post_bind; [apply put_grant_post|]. cbv beta. intros rows Hrows. apply post_ret. apply group_safe; [done| |done].
    apply audit_adds, adds_group_rows. intros a Ha. destruct (Hrows a Ha) as [?| ->]; [by left|]. by right. }
  unfold gated_group_grant. eapply post_bind; [eapply post_weaken; [apply (group_context_post db0 false)|intros o Ho; exact Ho|done]|]. cbv beta.
  intros [[policies adding]|].
  - intros _. apply post_then. intros members. apply post_then. intros _. apply Hgrant. unfold chainTxFences. apply post_then. intros _.
    eapply post_weaken; [apply group_fence_post|by intros _ [_ ?]|done].
  - intros Hn. apply Hgrant. eapply post_weaken; [apply post_any|intros _ _|done]. apply no_context_ok. unfold no_context in *.
    by rewrite Hl, (admin_id_same db db0), Hpm in Hn.
Qed.
Lemma join_post now c u g p db0 db x pol : perms_have_roles db -> pol ∈ listed_policies db ->
  post false (AddUserToGroup auth now ToLower domains c u g p db0 db)
    (safe now db x pol (x = PUser u /\ (is_system c = true \/ existsb (admin_id db) (map gr_RoleID (group_grants now (sd_rbac db) g)) = true))) (fun _ => True).
Proof.
  intros Hw Hp. unfold AddUserToGroup. destruct (_ || _); [by apply post_fail|]. apply post_then. intros _. apply post_then. intros _.
  apply withAudited_post. apply post_then. intros _. apply post_then. intros _. set (ids := map gr_RoleID _).
  eapply (post_bind _ _ _ (fun _ => is_system c = true \/ gate_ok db (join_exempt db now u (group_grants now (sd_rbac db) g)) (user_holds db now u) (perms_of db ids))).
  - destruct (is_system c); [apply post_ret; by left|]. eapply (post_bind _ _ _ (fun l => l = group_grants now (sd_rbac db) g)); [by apply post_is|].
    intros ? ->. eapply post_weaken; [by apply join_gate_post| |done]. intros ? Hg. by right.
  - intros _ Hg. unfold store_AddUserToGroup. apply post_then. intros _. apply post_then. intros _. apply post_then. intros [old|].
    { apply post_ret. apply safe_none, audit_adds, adds_refl. }
    apply post_read; [|done]. match goal with |- safe _ _ _ _ _ ?d => assert (adds db d now (only u ids) no_ids) as Ha end.
    { apply audit_adds, adds_membership. intros a [?|Ha]%elem_of_app; [by left|]. apply list_elem_of_singleton in Ha as ->. by right. }
    eapply safe_adds; [exact Ha|]. intros Hv. destruct (is_system c) eqn:Es.
    + destruct (adds_violation _ _ _ _ _ _ _ Ha Hv) as [?|Hx]; [by left|]. destruct x as [w|m]; [|by rewrite newly_none in Hx].
      destruct Hx as [_ Hx]. unfold only in Hx. destruct (Z.eqb_spec w u) as [-> |]; [by auto|]. destruct Hx as [Hx|[_ Hx]]; [done|by rewrite newly_none in Hx].
    + destruct Hg as [Hg|Hg]; [done|]. destruct (only_safe db _ now u ids x pol Ha) with (2 := Hv) as [?|[-> Hr]]; [|by left|by auto].
      intros Hadm Hga. destruct Hg as [Hg|Hg]; [|by apply Hg]. unfold join_exempt in Hg. fold ids in Hg. by rewrite Hga, Hadm in Hg.
Qed.
Lemma machine_post now c m r scope db0 db x pol : pol ∈ listed_policies db ->
  post false (AssignMachineRole auth c m r scope db0 db) (safe now db x pol (x = PMachine m /\ admin_id db r = true)) (fun _ => True).
Proof.
  intros Hp. unfold AssignMachineRole. do 6 (apply post_then; intros ?). apply withAudited_post. apply post_then. intros _.
  eapply post_bind; [eapply post_weaken; [apply machine_gate_post|intros o Ho; exact Ho|done]|]. cbv beta. intros _ Hg.
  unfold store_AssignMachineRole. apply post_then. intros [old|]; [by apply post_fail|]. apply post_read; [|done].
  match goal with |- safe _ _ _ _ _ ?d => assert (adds db d now no_ids (only m [r])) as Ha end.
  { apply audit_adds, adds_machine_rows. intros row [?|Hrow]%elem_of_app; [by left|]. apply list_elem_of_singleton in Hrow as ->. by right. }
  eapply safe_adds; [exact Ha|]. intros Hv. destruct (adds_violation _ _ _ _ _ _ _ Ha Hv) as [?|Hx]; [by left|]. destruct x as [w|w].
  { destruct Hx as [_ [Hx|[_ Hx]]]; [done|by rewrite newly_none in Hx]. }
  unfold only in Hx. destruct (Z.eqb_spec w m) as [-> |]; [|by rewrite newly_none in Hx]. right. split; [done|].
  destruct Hg as [Hg|Hg]; [done|]. by rewrite (Hg pol Hp) in Hx.
Qed.

(** A new account: nobody else's permissions change, and its own are the granted roles'. *)
Definition created (db : sodDB) (user : User) (grants : list (Z * Z)) : sodDB :=
  with_users (with_rbac db (with_user_roles (sd_rbac db) (rb_user_roles (sd_rbac db) ++ map (fun g => mkUserRole (u_ID user) g.1 g.2 0 None) grants))) (sd_users db ++ [user]).
Lemma created_safe db user grants now x pol event : pol ∈ listed_policies db -> fresh db (u_ID user) ->
  gate_ok db (existsb (admin_id db) (map fst grants)) (fun _ => false) (perms_of db (plain db (map fst grants))) ->
  safe now db x pol (x = PUser (u_ID user) /\ exists a, a ∈ rb_user_roles (sd_rbac db) ++ map (fun g => mkUserRole (u_ID user) g.1 g.2 0 None) grants /\
    ur_UserID a = u_ID user /\ admin_id db (ur_RoleID a) = true) (with_audit (created db user grants) event).
Proof.
  intros Hp [Hf1 Hf2] Hg. set (id := u_ID user) in *. set (ids := map fst grants) in *.
  set (rows := rb_user_roles (sd_rbac db) ++ map (fun g => mkUserRole id g.1 g.2 0 None) grants).
  assert (adds db (with_rbac db (with_user_roles (sd_rbac db) rows)) now (only id ids) no_ids) as Ha.
  { apply adds_user_rows. intros a [?|(g & -> & Hin)%elem_of_map]%elem_of_app; [by left|]. right. cbn. split; [done|]. apply elem_of_map. eauto. }
  split_and!; [done..|]. intros Hv. destruct (decide (x = PUser id)) as [-> |Hx].
  - right. split; [done|]. cbn [violates] in Hv. apply andb_prop in Hv as [_ Hv].
    assert (existsb (admin_id db) ids = true) as Hadm.
    { destruct (existsb (admin_id db) ids) eqn:Hadm; [done|]. exfalso. apply orb_prop in Hv as [Hv|Hv].
      - unfold global_admin in Hv. destruct (existsb_app_elem _ _ _ _ (a_global _ _ _ _ _ Ha id) Hv) as [H|H]; [|rewrite only_same in H; exact (eq_true_false_abs _ H Hadm)].
        apply existsb_elem in H as (y & Hy & _). unfold user_ids in Hy. rewrite elem_of_app, elem_user_role_ids, elem_group_role_ids in Hy.
        destruct Hy as [(a & Ha1 & Ha2 & _)|(g & m & _ & Hm & _ & _ & _ & _ & Hm2 & _)]; [by apply (Hf1 a)|by apply (Hf2 m)].
      - destruct Hg as [Hg|Hg]; [done|]. specialize (Hg pol Hp). rewrite plain_all in Hg by done. unfold newly in Hg. cbn [negb andb both] in Hg.
        enough (both (fun p => false || perms_of db ids p) pol = true) as H by (by rewrite H in Hg).
        eapply both_mono; [|exact Hv]. intros p Hq. cbn [orb]. eapply set_grants_mono; [|exact Hq]. intros y Hy. apply (a_held _ _ _ _ _ Ha) in Hy.
        rewrite only_same in Hy. apply elem_of_app in Hy as [Hy|?]; [|done]. exfalso. unfold held_ids in Hy. rewrite elem_of_app, elem_direct, elem_via_group in Hy.
        destruct Hy as [(a & Ha1 & Ha2 & _)|(g & m & _ & Hm & _ & _ & Hm2 & _)]; [by apply (Hf1 a)|by apply (Hf2 m)]. }
    apply existsb_elem in Hadm as (y & Hy & Hya). apply elem_of_map in Hy as (g & -> & Hin). exists (mkUserRole id g.1 g.2 0 None). split_and!; [|done..].
    apply elem_of_app. right. apply elem_of_map. eauto.
  - left. assert (violates (with_rbac db (with_user_roles (sd_rbac db) rows)) now x pol = true) as Hv1.
    { destruct x as [w|m]; [|exact Hv]. cbn [violates] in Hv |- *. apply andb_prop in Hv as [Hv1 Hv2]. apply andb_true_iff. split; [|exact Hv2].
      apply existsb_elem in Hv1 as (u & Hu & Hua). apply existsb_elem. exists u. split; [|done]. cbn in Hu |- *. apply elem_of_app in Hu as [?|Hu]; [done|].
      apply list_elem_of_singleton in Hu as ->. exfalso. apply Hx. f_equal. unfold live_user in Hua. breflect. done. }
    destruct (adds_violation _ _ _ _ _ _ _ Ha Hv1) as [?|Hn]; [done|]. exfalso. destruct x as [w|m]; [|by rewrite newly_none in Hn].
    destruct Hn as [_ Hn]. unfold only in Hn. destruct (Z.eqb_spec w id) as [-> |]; [done|]. destruct Hn as [Hn|[_ Hn]]; [done|by rewrite newly_none in Hn].
Qed.
Lemma create_post now c user systemRole l db0 db x pol : rules_agree db0 db -> fresh db (u_ID user) -> pol ∈ listed_policies db ->
  post false (CreateUserWithAssignments auth c user systemRole l db0 db)
    (fun db' => safe now db x pol (x = PUser (u_ID user) /\ exists a, a ∈ rb_user_roles (sd_rbac db') /\ ur_UserID a = u_ID user /\ admin_id db (ur_RoleID a) = true) db') (fun _ => True).
Proof.
  intros (Hl & Hr & Hpm) Hf Hp. unfold CreateUserWithAssignments. destruct (_ <? _); [by apply post_fail|]. do 3 (apply post_then; intros ?). apply post_then. intros grants.
  eapply post_bind; [eapply post_weaken; [apply (set_gate_post db0 false)|intros o Ho; exact Ho|done]|]. cbv beta. intros _ Hg.
  apply withAudited_post. unfold CreateUserWithRoleGrants. apply post_then. intros _. apply post_then. intros _. apply post_ret. apply created_safe; [done..|].
  assert (forall ids, existsb (admin_id db0) ids = existsb (admin_id db) ids) as He.
  { intros ids. induction ids as [|y ids IH]; [done|]. cbn [existsb]. by rewrite IH, (admin_id_same db db0). }
  assert (forall ids, plain db0 ids = plain db ids) as Hpl by (intros ids; apply filter_ext_bool; intros y; by rewrite (admin_id_same db db0)).
  unfold gate_ok in *. by rewrite Hl, He, Hpl, Hpm in Hg.
Qed.

(** Policies and removals *)
Lemma policy_step_rbac db db' now x pol : sd_rbac db' = sd_rbac db -> sd_users db' = sd_users db -> sd_machines db' = sd_machines db -> safe now db x pol False db'.
Proof.
  intros Hr Hu Hm. unfold safe. rewrite Hr. split_and!; [done..|]. intros Hv. left. revert Hv.
  unfold violates, active_user, active_machine, global_admin, user_holds, machine_holds, admin_id. by rewrite Hr, Hu, Hm.
Qed.
Definition same_rows (db db' : sodDB) : Prop := sd_rbac db' = sd_rbac db /\ sd_users db' = sd_users db /\ sd_machines db' = sd_machines db.
Lemma write_event_same db event b fs : same_rows db (write_event db event b fs).1.
Proof. unfold write_event. by destruct (stmt (Ok ()) fs) as [[?|?] ?]. Qed.
Lemma audited_policies db f event fs : (forall d fs, match (f d fs).1 with Ok d' => same_rows d d' | Err _ => True end) ->
  match (withAuditedMutation f event db fs).1 with Ok db' => same_rows db db' | Err _ => True end.
Proof.
  intros H. specialize (H db fs). unfold withAuditedMutation, bind. destruct (f db fs) as [[d|e] fs1]; [|done]. cbn in H.
  destruct (stmt _ fs1) as [[?|?] fs2]; [|done]. by destruct (stmt _ fs2) as [[?|?] fs3].
Qed.
Lemma stmt_inv {A} (r : res sod_err A) fs (Q : A -> Prop) : match r with Ok a => Q a | Err _ => True end -> match (stmt r fs).1 with Ok a => Q a | Err _ => True end.
Proof. intros H. by destruct fs as [|[] fs]. Qed.
Lemma same_trans a b c : same_rows a b -> same_rows b c -> same_rows a c.
Proof. unfold same_rows. intuition congruence. Qed.
Lemma CreateSoDPolicy_same db now actor id name d pa pb fs : same_rows db (CreateSoDPolicy db now actor id name d pa pb fs).1.2.
Proof.
  unfold CreateSoDPolicy. destruct (is_nil _); [done|]. destruct (_ || _); [done|]. case_bool_decide; [done|].
  destruct (isGlobalAdminRoleNameOn db now actor fs) as [[[?|]|?] fs1]; [| |done].
  2:{ pose proof (write_event_same db EventSoDPolicyCreated false fs1). by destruct (write_event _ _ _ _). }
  set (policy := mkPolicy _ _ _ _ _ _ _). set (body := fun db => _).
  assert (match (withAuditedMutation body EventSoDPolicyCreated db fs1).1 with Ok db' => same_rows db db' | Err _ => True end) as Hb
    by (apply audited_policies; intros e fs2; by apply stmt_inv).
  destruct (withAuditedMutation _ _ _ _) as [[db1|?] fs2]; [|done]. cbn in Hb.
  destruct (scanPolicyViolations db1 now policy fs2) as [[[rep|]|?] fs3]; [|done..]. destruct (is_nil _); [done|].
  pose proof (write_event_same db1 EventSoDPreExistingViolations true fs3). destruct (write_event _ _ _ _). by eapply same_trans.
Qed.
Lemma DeleteSoDPolicy_same db now actor id fs : same_rows db (DeleteSoDPolicy db now actor id fs).1.2.
Proof.
  unfold DeleteSoDPolicy. destruct (isGlobalAdminRoleNameOn db now actor fs) as [[adm|?] fs1]; [|done]. cbv zeta.
  assert (forall fs (e : sod_err), same_rows db (let '(db, fs) := write_event db EventSoDPolicyDeleted false fs in (@Err sod_err () e, db, fs)).1.2) as Hd.
  { intros fs2 e. pose proof (write_event_same db EventSoDPolicyDeleted false fs2). by destruct (write_event _ _ _ _). }
  destruct (GetSoDPolicy db id fs1) as [[policy|e] fs2].
  - destruct (negb _ && _); [apply Hd|].
    assert (match (withAuditedMutation (store_DeleteSoDPolicy id) EventSoDPolicyDeleted db fs2).1 with Ok db' => same_rows db db' | Err _ => True end) as Hb.
    { apply audited_policies. intros d fs3. apply stmt_inv. cbn. by destruct (_ =? _)%nat. }
    by destruct (withAuditedMutation _ _ _ _) as [[db1|?] fs3].
  - destruct e; try done. destruct (negb _); [done|apply Hd].
Qed.

Lemma sub_user_rows db now rows' : (forall a, a ∈ rows' -> a ∈ rb_user_roles (sd_rbac db)) -> adds db (with_rbac db (with_user_roles (sd_rbac db) rows')) now no_ids no_ids.
Proof.
  intros H. destruct (adds_user_rows db now 0 [] rows') as [h1 h2 h3 h4 h5 h6 h7]; [intros a Ha; left; by apply H|].
  assert (forall w, only 0 [] w = []) as Ho by (intros w; unfold only; by destruct (_ =? _)).
  constructor; try done; intros u y Hy; [apply h3 in Hy|apply h4 in Hy]; by rewrite Ho in Hy.
Qed.
Lemma sub_group_rows db now rows' : (forall a, a ∈ rows' -> a ∈ rb_group_roles (sd_rbac db)) -> adds db (with_rbac db (with_group_roles (sd_rbac db) rows')) now no_ids no_ids.
Proof.
  intros H. constructor; try done; unfold no_ids; intros u y; rewrite app_nil_r; [unfold held_ids|unfold user_ids|done]; rewrite !elem_of_app; intros [Hy|Hy]; try (by left); right; revert Hy.
  - rewrite !elem_via_group. intros (g & m & Hg & Hrest). exists g, m. split; [by apply H|done].
  - rewrite !elem_group_role_ids. intros (g & m & Hg & Hrest). exists g, m. split; [by apply H|done].
Qed.
Lemma remove_post {A} (gone : A -> bool) rows : post false (remove_rows gone rows) (fun rows' => forall a, a ∈ rows' -> a ∈ rows) (fun _ => True).
Proof. unfold remove_rows. apply post_stmt; [|done]. destruct (existsb _ _); [|done]. intros a Ha. by apply elem_of_filter_bool in Ha as [? _]. Qed.
Lemma sweep_post {A} (exp : A -> option Z) cutoff rows : post false (sweep exp cutoff rows) (fun rows' => forall a, a ∈ rows' -> a ∈ rows) (fun _ => True).
Proof.
  unfold sweep. assert (forall a, a ∈ List.filter (fun x => negb (expired_by cutoff (exp x))) rows -> a ∈ rows) as H
    by (intros a Ha; by apply elem_of_filter_bool in Ha as [? _]).
  destruct (existsb _ _); [by apply post_read|by apply post_ret].
Qed.
Lemma adds_none_trans db1 db2 db3 now : adds db1 db2 now no_ids no_ids -> adds db2 db3 now no_ids no_ids -> adds db1 db3 now no_ids no_ids.
Proof.
  intros [a1 a2 a3 a4 a5 a6 a7] [b1 b2 b3 b4 b5 b6 b7]. constructor; try congruence; try (by auto); unfold no_ids in *; setoid_rewrite app_nil_r in a3; setoid_rewrite app_nil_r in a4;
    setoid_rewrite app_nil_r in a5; setoid_rewrite app_nil_r in b3; setoid_rewrite app_nil_r in b4; setoid_rewrite app_nil_r in b5; setoid_rewrite app_nil_r; auto.
Qed.
Lemma step_safe now db exempt db' x pol : step now db exempt db' -> perms_have_roles db -> pol ∈ listed_policies db -> safe now db x pol (exempt x) db'.
Proof.
  intros Hs Hw Hp. destruct Hs as [c u r scope db0 fs db' Hr|c u r scope e db0 fs db' Hr|u r scope db0 fs db' Hr|u r db0 fs db' Hr|u r scope e db0 fs db' Hr
    |c g r scope db0 fs db' Hagree Hr|c g r scope e db0 fs db' Hagree Hr|c u g p db0 fs db' Hr|c m r scope db0 fs db' Hr|c user sr l db0 fs db' Hagree Hf Hr
    |actor id name d pa pb fs|actor id fs|u r scope fs db' Hr|g r scope fs db' Hr|m r scope fs db' Hr|u g p fs db' Hr|before fs db' Hr].
  - eapply post_run; [|exact Hr]. apply post_then. intros _. by apply gated_user_post.
  - eapply post_run; [|exact Hr]. apply post_then. intros _. by apply gated_user_post.
  - eapply post_run; [|exact Hr]. by apply gated_user_post.
  - eapply post_run; [|exact Hr]. by apply gated_user_post.
  - eapply post_run; [|exact Hr]. apply break_glass_post.
  - eapply post_run; [|exact Hr]. do 3 (apply post_then; intros ?). by apply gated_group_post.
  - eapply post_run; [|exact Hr]. do 2 (apply post_then; intros ?). by apply gated_group_post.
  - eapply post_run; [|exact Hr]. by apply join_post.
  - eapply post_run; [|exact Hr]. by apply machine_post.
  - exact (post_run _ _ _ _ _ (create_post now c user sr l db0 db x pol Hagree Hf Hp) Hr).
  - by apply policy_step_rbac; apply CreateSoDPolicy_same.
  - by apply policy_step_rbac; apply DeleteSoDPolicy_same.
  - eapply post_run; [|exact Hr]. eapply post_bind; [apply remove_post|]. intros rows H. by apply post_ret, safe_none, sub_user_rows.
  - eapply post_run; [|exact Hr]. eapply post_bind; [apply remove_post|]. intros rows H. by apply post_ret, safe_none, sub_group_rows.
  - eapply post_run; [|exact Hr]. eapply post_bind; [apply remove_post|]. intros rows H. apply post_ret, safe_none.
    constructor; try done; unfold no_ids; intros w y; rewrite app_nil_r; [done..|]. rewrite !elem_machine_role. intros (ro & a & H1 & H2 & H3). exists ro, a. split_and!; [done|by apply H|apply H3..].
  - eapply post_run; [|exact Hr]. apply (post_read _ _ _ (fun _ => True)); [|done]. apply safe_none.
    assert (forall a, a ∈ List.filter (fun y => negb (membership_at u g p y)) (rb_user_groups (sd_rbac db)) -> a ∈ rb_user_groups (sd_rbac db)) as H
      by (intros a Ha; by apply elem_of_filter_bool in Ha as [? _]).
    constructor; try done; unfold no_ids; intros w y; rewrite app_nil_r; [unfold held_ids|unfold user_ids|done]; rewrite !elem_of_app; intros [Hy|Hy]; try (by left); right; revert Hy.
    + rewrite !elem_via_group. intros (a & b & H1 & H2 & H3). exists a, b. split_and!; [done|by apply H|apply H3..].
    + rewrite !elem_group_role_ids. intros (a & b & H1 & H2 & H3). exists a, b. split_and!; [done|by apply H|apply H3..].
  - eapply post_run; [|exact Hr]. do 2 (apply post_then; intros ?). eapply post_bind; [apply sweep_post|]. intros users Hu.
    eapply post_bind; [apply sweep_post|]. intros groups Hg. apply post_ret, safe_none.
    eapply adds_none_trans; [by apply (sub_user_rows db now users)|]. by apply (sub_group_rows (with_rbac db (with_user_roles (sd_rbac db) users)) now groups).
Qed.
Lemma perms_have_roles_same db db' : rb_roles (sd_rbac db') = rb_roles (sd_rbac db) -> rb_perms (sd_rbac db') = rb_perms (sd_rbac db) -> perms_have_roles db -> perms_have_roles db'.
Proof. intros Hr Hp H. unfold perms_have_roles. by rewrite Hr, Hp. Qed.

(** C14. Grants of roles to users, groups and machines, joins of groups, new accounts, removals, sweeps and changes of policies follow one another in any order, each transaction as one step. For a policy that is listed throughout: a principal the scan reports for it at the end was reported at the beginning, unless some step granted it, directly or through a group, an administrator's role, or was a break-glass grant to it or its join on behalf of the system. The check before the transaction of a grant to a user or a machine or of a join may have seen any other state. Of a grant to a group and of a new account it must have seen the policies, the roles and their permissions the transaction runs on, because the code does not look at them again there (otherwise the claim fails: [SoDExample.group_grant_misses_new_policy]). A new account has no grants or memberships yet, and every permission row names an existing role. *)
Theorem no_new_violation x pol now db now' db' : perms_have_roles db -> history x pol now db now' db' ->
  violates db' now' x pol = true -> violates db now x pol = true.
Proof.
  intros Hw H. induction H as [now db now' Hn|now db now1 exempt db1 now2 db2 Hn Hp Hs Hx Hh IH]; intros Hv; [by eapply violates_earlier|].
  destruct (step_safe _ _ _ _ x pol Hs Hw Hp) as (Hr & Hpm & Hsafe). destruct Hsafe as [Hb|Hb]; [|by eapply violates_earlier|done].
  apply IH; [by eapply perms_have_roles_same|done].
Qed.
End steps.
