(* ===== verification/SoDExact.v ===== *)
(** The separation-of-duties gates against the scan: a gate refuses exactly the grants after
    which the scan would report a policy it does not report now; and what the exceptions of the
    gates let through. *)
From Stdlib Require Import ZArith Lia.
From stdpp Require Import base numbers tactics sets list.
From S2P Require Import Prelude GoStr Rbac Authz SoD SoDGrant SoDScan SoDGate SoDSafe.

(** * The state after a grant without end date *)

Definition user_granted (db : sodDB) (u r : Z) (scope : Scope) : sodDB :=
  with_rbac db (with_user_roles (sd_rbac db) (rb_user_roles (sd_rbac db) ++ [mkUserRole u r (sc_ProjectID scope) (sc_EnvironmentID scope) None])).
Definition group_granted (db : sodDB) (g r : Z) (scope : Scope) : sodDB :=
  with_rbac db (with_group_roles (sd_rbac db) (rb_group_roles (sd_rbac db) ++ [mkGroupRole g r (sc_ProjectID scope) (sc_EnvironmentID scope) None])).
Definition member_added (db : sodDB) (u g p : Z) : sodDB :=
  with_rbac db (with_user_groups (sd_rbac db) (rb_user_groups (sd_rbac db) ++ [mkUserGroup u g p])).
Definition machine_granted (db : sodDB) (m r : Z) (scope : Scope) : sodDB :=
  with_rbac db (with_machine_roles (sd_rbac db) (rb_machine_roles (sd_rbac db) ++ [mkMachineRole m r (sc_ProjectID scope) (sc_EnvironmentID scope)])).

(** The answer [r] of a gate for a change from [db] to [db'] that concerns [who]. *)
Definition decides (db db' : sodDB) (now : Z) (exempt : Prop) (who : principal -> Prop) (r : res sod_err ()) : Prop :=
  match r with
  | Ok _ => exempt \/ forall x pol, who x -> pol ∈ listed_policies db -> violates db' now x pol = true -> violates db now x pol = true
  | Err (SoDBlocked pol) => ~ exempt /\ pol ∈ listed_policies db /\ exists x, who x /\ violates db' now x pol = true /\ violates db now x pol = false
  | Err _ => False
  end.

Lemma newly_both held adding pol : newly held adding pol = true -> both held pol = false /\ both (fun p => held p || adding p) pol = true.
Proof. intros [H1 H2]%andb_prop. split; [by apply negb_true_iff|done]. Qed.
Lemma newly_user db db' now u ids pol : newly (user_holds db now u) (perms_of db ids) pol = true -> active_user db u = true -> active_user db' u = true ->
  global_admin db now u = false -> rb_perms (sd_rbac db') = rb_perms (sd_rbac db) ->
  (forall y, y ∈ held_ids (sd_rbac db) now u ++ ids -> y ∈ held_ids (sd_rbac db') now u) ->
  violates db' now (PUser u) pol = true /\ violates db now (PUser u) pol = false.
Proof.
  intros [Hb Hn]%newly_both Ha Ha' Hg Hp Hsub. cbn. rewrite Ha, Ha', Hg, Hb. cbn. split; [|done]. apply orb_true_iff. right.
  eapply both_mono; [|exact Hn]. intros p. unfold user_holds. rewrite <- set_grants_app, Hp. by apply set_grants_mono.
Qed.
Lemma find_some_exists db r : List.find (fun y => role_ID y =? r) (rb_roles (sd_rbac db)) <> None -> forall id, id ∈ [r] ->
  List.find (fun y => role_ID y =? id) (rb_roles (sd_rbac db)) <> None.
Proof. intros H id Hid. by apply list_elem_of_singleton in Hid as ->. Qed.

Section exact.
Context (db : sodDB) (now : Z) (fs : list bool) (Hfs : no_fault fs).

(** A gate without failing statements. *)
Lemma run_clean {A} (m : R A) Q X : post true m Q X -> match (m fs).1 with Ok a => Q a | Err e => X e end.
Proof. intros H. by apply (H fs). Qed.
Lemma gate_err_clean roles ex held adding e : gate_err db true roles ex held adding e ->
  (forall id, id ∈ roles -> List.find (fun y => role_ID y =? id) (rb_roles (sd_rbac db)) <> None) ->
  exists pol, e = SoDBlocked pol /\ ex = false /\ pol ∈ listed_policies db /\ newly held adding pol = true.
Proof. intros [[_ ?]|[[_ (id & Hid & Hf)]|H]] Hr; [done|by apply Hr in Hf|done]. Qed.

Lemma user_decides u r scope : List.find (fun y => role_ID y =? r) (rb_roles (sd_rbac db)) <> None -> active_user db u = true ->
  decides db (user_granted db u r scope) now (admin_id db r = true) (eq (PUser u)) (requireNoSoDViolation db now u r fs).1.
Proof.
  intros Hrole Hact. pose proof (run_clean _ _ _ (user_gate_post db now true u [r] global)) as H. unfold requireNoSoDViolation.
  assert (adds db (user_granted db u r scope) now (only u [r]) no_ids) as Ha.
  { apply adds_user_rows. intros a [?|Ha]%elem_of_app; [by left|]. apply list_elem_of_singleton in Ha as ->. right. cbn. split; [done|by left]. }
  destruct (requireNoSoDViolationOn _ _ _ _ _ _).1 as [[]|e]; cbn.
  - destruct (admin_id db r) eqn:Er; [by left|]. right. intros x pol <- Hp Hv.
    destruct (only_safe db _ now u [r] (PUser u) pol Ha) with (2 := Hv) as [?|[_ Hr]]; [|done|cbn in Hr; by rewrite Er in Hr].
    intros Hadm Hga. rewrite <- (plain_all db [r] Hadm). destruct H as [H|H]; [|by apply H]. unfold user_exempt in H. by rewrite Hga, Hadm in H.
  - apply gate_err_clean in H as (pol & -> & Hex & Hp & Hn); [|by apply find_some_exists]. unfold user_exempt in Hex.
    apply orb_false_iff in Hex as [Hga Hadm]. rewrite bool_decide_eq_true_2 in Hadm by done. cbn [andb] in Hadm. rewrite plain_all in Hn by done.
    cbn in Hadm. rewrite orb_false_r in Hadm. rewrite Hadm. split; [done|]. split; [done|]. exists (PUser u). split; [done|].
    eapply newly_user; [exact Hn|done..|]. intros y. unfold held_ids. rewrite !elem_of_app, !elem_direct, !elem_via_group. cbn.
    setoid_rewrite elem_of_app. intros [[(a & H1 & H2)|Hy]|Hy]; [left; eauto|by right|]. left. apply list_elem_of_singleton in Hy as ->.
    eexists. split; [right; by left|]. done.
Qed.
Lemma group_decides g r scope : List.find (fun y => role_ID y =? r) (rb_roles (sd_rbac db)) <> None -> live (rb_groups (sd_rbac db)) g = true ->
  decides db (group_granted db g r scope) now (admin_id db r = true) (fun x => exists w, x = PUser w /\ member_any (sd_rbac db) w g = true) (sodGroupGrantFence now g r db fs).1.
Proof.
  intros Hrole Hl. pose proof (run_clean _ _ _ (group_fence_post db now true g r)) as H.
  assert (adds db (group_granted db g r scope) now (fun w => if member_any (sd_rbac db) w g then [r] else []) no_ids) as Ha.
  { apply adds_group_rows. intros a [?|Ha]%elem_of_app; [by left|]. apply list_elem_of_singleton in Ha as ->. by right. }
  destruct (sodGroupGrantFence _ _ _ _ _).1 as [[]|e]; cbn.
  - destruct H as [_ H]. destruct (admin_id db r) eqn:Er; [by left|]. right. intros x pol _ Hp Hv.
    destruct (group_safe db _ now g r x pol Hp Ha H) as (_ & _ & Hs). destruct (Hs Hv) as [?|(u & _ & _ & ?)]; [done|congruence].
  - destruct H as [[_ H]|[[_ ?]|[[_ (id & Hid & Hf)]|(m & pol & -> & Hm & Hma & Hga & Hr & Hp & Hn)]]]; [congruence|done|by eapply find_some_exists in Hf|].
    rewrite Hr. split; [done|]. split; [done|]. unfold group_members in Hm. apply list_elem_of_In, in_concat in Hm as (l & Hl1 & Hl2).
    apply in_map_iff in Hl1 as (u & <- & Hu). apply in_map_iff in Hl2 as (a & <- & [Hin Hc]%filter_In). breflect.
    assert (member_any (sd_rbac db) (u_ID u) g = true) as Hmem.
    { apply existsb_elem. exists a. split; [by apply list_elem_of_In|]. apply andb_true_iff. by rewrite !Z.eqb_eq. }
    exists (PUser (u_ID u)). split; [eauto|]. assert (active_user db (u_ID u) = true) as Hact by (apply live_users_active; [by apply list_elem_of_In|done]).
    eapply newly_user; [exact Hn|done..|]. intros y. unfold held_ids. rewrite !elem_of_app, !elem_direct, !elem_via_group. cbn.
    setoid_rewrite elem_of_app. intros [[Hy|(b & m & H1 & H2)]|Hy]; [by left|right; eauto 10|]. right. apply list_elem_of_singleton in Hy as ->.
    eexists _, a. split; [right; by left|]. cbn. split_and!; [by apply list_elem_of_In|done..].
Qed.
Lemma join_decides u g p : perms_have_roles db -> active_user db u = true -> live (rb_groups (sd_rbac db)) g = true ->
  decides db (member_added db u g p) now (existsb (admin_id db) (map gr_RoleID (group_grants now (sd_rbac db) g)) = true) (eq (PUser u))
    (requireGroupJoinNoSoDViolationOn db now u (group_grants now (sd_rbac db) g) fs).1.
Proof.
  intros Hw Hact Hl. pose proof (run_clean _ _ _ (join_gate_post db now true u (group_grants now (sd_rbac db) g) Hw)) as H. set (ids := map gr_RoleID _) in *.
  assert (adds db (member_added db u g p) now (only u ids) no_ids) as Ha.
  { apply adds_membership. intros a [?|Ha]%elem_of_app; [by left|]. apply list_elem_of_singleton in Ha as ->. by right. }
  destruct (requireGroupJoinNoSoDViolationOn _ _ _ _ _).1 as [[]|e]; cbn.
  - destruct (existsb (admin_id db) ids) eqn:Er; [by left|]. right. intros x pol <- Hp Hv.
    destruct (only_safe db _ now u ids (PUser u) pol Ha) with (2 := Hv) as [?|[_ Hr]]; [|done|congruence].
    intros Hadm Hga. destruct H as [H|H]; [|by apply H]. unfold join_exempt in H. fold ids in H. by rewrite Hga, Hadm in H.
  - apply gate_err_clean in H as (pol & -> & Hex & Hp & Hn); [|intros id Hid; by apply elem_of_nil in Hid]. unfold join_exempt in Hex. fold ids in Hex.
    apply orb_false_iff in Hex as [Hga Hadm]. rewrite Hadm. split; [done|]. split; [done|]. exists (PUser u). split; [done|].
    eapply newly_user; [exact Hn|done..|]. intros y. unfold held_ids. rewrite !elem_of_app, !elem_direct, !elem_via_group. cbn.
    setoid_rewrite elem_of_app. intros [[Hy|(b & m & H1 & H2 & H3)]|Hy]; [by left|right; eauto 10|]. right.
    unfold ids, group_grants in Hy. apply elem_of_map in Hy as (b & -> & [Hb Hc]%elem_of_filter_bool). breflect. subst.
    exists b. eexists. split; [done|]. split; [right; by left|]. done.
Qed.
Lemma machine_decides m r scope : List.find (fun y => role_ID y =? r) (rb_roles (sd_rbac db)) <> None -> active_machine db m = true ->
  decides db (machine_granted db m r scope) now (admin_id db r = true) (eq (PMachine m)) (requireMachineGrantNoSoDViolationOn db m r fs).1.
Proof.
  intros Hrole Hact. pose proof (run_clean _ _ _ (machine_gate_post db true m r)) as H.
  assert (adds db (machine_granted db m r scope) now no_ids (only m [r])) as Ha.
  { apply adds_machine_rows. intros a [?|Ha]%elem_of_app; [by left|]. apply list_elem_of_singleton in Ha as ->. by right. }
  destruct (requireMachineGrantNoSoDViolationOn _ _ _ _).1 as [[]|e]; cbn.
  - destruct H as [H|H]; [by left|]. right. intros x pol <- Hp Hv. destruct (adds_violation _ _ _ _ _ _ _ Ha Hv) as [?|Hx]; [done|].
    rewrite only_same in Hx. by rewrite (H pol Hp) in Hx.
  - apply gate_err_clean in H as (pol & -> & Hex & Hp & Hn); [|by apply find_some_exists]. rewrite Hex. split; [done|]. split; [done|].
    exists (PMachine m). split; [done|]. apply newly_both in Hn as [Hb Hn]. cbn [violates].
    change (active_machine (machine_granted db m r scope) m) with (active_machine db m). rewrite Hact, Hb. cbn [andb]. split; [|done].
    eapply both_mono; [|exact Hn]. intros q. unfold machine_holds. rewrite <- set_grants_app. apply set_grants_mono. intros y.
    rewrite elem_of_app, !elem_machine_role. cbn. setoid_rewrite elem_of_app. intros [(ro & a & H1 & H2 & H3)|Hy]; [eauto 10|].
    apply list_elem_of_singleton in Hy as ->. destruct (List.find _ _) as [ro|] eqn:Ef; [|done]. apply find_some in Ef as [Hin He]. breflect.
    exists ro. eexists. split; [by apply list_elem_of_In|]. split; [right; by left|]. done.
Qed.
End exact.

