(* ===== verification/SoDExample.v ===== *)
(** Separation of duties on a small install: witnesses of the theorems, and what the
    exceptions of the gates let through. *)
From Stdlib Require Import ZArith Lia.
From stdpp Require Import base numbers tactics sets list.
From S2P Require Import Prelude GoStr Rbac Authz SoD SoDGrant SoDScan SoDGate SoDSafe SoDExact.

(** Roles 10 and 11 have one side each of policy 1, role 12 neither; role 13 is named like an
    administrator's and has the second side.  User 1 and machine 7 have role 10; group 5 has
    role 11, group 6 role 11 and, in project 3, role 13; user 2 is in group 5. *)
Definition permissions : permTables :=
  mkPermTables [mkPermission 1 (go "access.approve"); mkPermission 2 (go "secrets.delete"); mkPermission 3 (go "audit.read")]
    [mkRolePermission 10 1; mkRolePermission 11 2; mkRolePermission 12 3; mkRolePermission 13 2] None true.
Definition tables : rbacDB :=
  mkRbac [mkSoft 3 false] [] [mkSoft 5 false; mkSoft 6 false] [mkUserRole 1 10 0 0 None]
    [mkGroupRole 5 11 0 0 None; mkGroupRole 6 11 0 0 None; mkGroupRole 6 13 3 0 None] [mkUserGroup 2 5 0] [mkMachineRole 7 10 3 0]
    [mkRole 10 (go "approver") false; mkRole 11 (go "remover") false; mkRole 12 (go "reader") false; mkRole 13 (go "project_admin") true] permissions.
Definition policy : SoDPolicy := mkPolicy 1 (go "approve and delete") [] (go "access.approve") (go "secrets.delete") 9 0.
Definition install : sodDB :=
  mkSoD tables [mkUser 1 (go "ann") (go "ann") (go "ann@example.org") (go "ann@example.org") true false; mkUser 2 (go "bob") (go "bob") (go "bob@example.org") (go "bob@example.org") true false]
    [mkMachine 7 3 (go "ci") (go "active") 0] [policy] [] (fun _ => RoleAssignableAny) (fun _ => ([], [])) [].
Definition no_policies : sodDB := with_policies install [].
Definition no_store : AuthzStore () :=
  mkAuthzStore () (fun _ _ _ => Err ()) (fun _ _ _ => Err ()) (fun _ => Err ()) (fun _ _ => Err ()) (fun _ => Err ()) (fun _ _ => Err ()) (fun _ _ => Err ()) (fun _ _ => Err ()).

(** The state an operation leaves. *)
Definition after (m : R sodDB) (db : sodDB) : sodDB := match (m []).1 with Ok db => db | Err _ => db end.

Lemma DetectSoDViolations_exact_witness :
  let db := user_granted install 1 11 global in
  Z.of_nat (length (live_users db)) <= 5000000 /\ r_Violations <$> (match (DetectSoDViolations db 0 [false; true]).1 with Ok o => o | Err _ => None end) = None /\
  match (DetectSoDViolations db 0 []).1 with
  | Err e => e = ErrStorage /\ ~ no_fault []
  | Ok None => False
  | Ok (Some rep) =>
      (forall v, v ∈ r_Violations rep -> exists x pol, pol ∈ listed_policies db /\ violates db 0 x pol = true /\ names v x pol) /\
      (forall x pol, pol ∈ listed_policies db -> violates db 0 x pol = true -> covered rep x pol) /\
      r_Degraded rep = negb (is_nil (r_DegradedReasons rep)) /\ (no_fault [] -> r_Degraded rep = false)
  end.
Proof.
  intros db. assert (Z.of_nat (length (live_users db)) <= 5000000) as H by (vm_compute; discriminate).
  split; [exact H|]. split; [reflexivity|]. exact (DetectSoDViolations_exact db 0 [] H).
Defined.

Lemma perms_have_roles_install : perms_have_roles install.
Proof. intros rp Hrp. cbn in Hrp. repeat (apply elem_of_cons in Hrp as [-> |Hrp]; [by vm_compute|]). by apply elem_of_nil in Hrp. Qed.

(** A reader's role for user 1. *)
Definition read_too : sodDB := after (assignUserRoleSystemGrant 0 1 12 global install install) install.
Lemma no_new_violation_witness :
  perms_have_roles install /\ history no_store (fun b => b) [] (PUser 1) policy 0 install 5 read_too /\
  (violates read_too 5 (PUser 1) policy = true -> violates install 0 (PUser 1) policy = true).
Proof.
  assert (history no_store (fun b => b) [] (PUser 1) policy 0 install 5 read_too) as Hh.
  { assert (policy ∈ listed_policies install) as Hp by (replace (listed_policies install) with [policy] by (by vm_compute); by left).
    eapply (H_step _ _ _ _ _ 0 install 0 (fun x => x = PUser 1 /\ admin_id install 12 = true) read_too);
      [lia|exact Hp| |intros [_ H]; vm_compute in H; discriminate H|by apply H_nil].
    apply (S_assignUserRoleSystemGrant _ _ _ 0 install 1 12 global install []). by vm_compute. }
  split; [exact perms_have_roles_install|]. split; [exact Hh|].
  exact (no_new_violation no_store (fun b => b) [] (PUser 1) policy 0 install 5 read_too perms_have_roles_install Hh).
Defined.


(** * What is refused *)

Example grants_are_refused :
  (requireNoSoDViolation install 0 1 11 []).1 = Err (SoDBlocked policy) /\
  (sodGroupGrantFence 0 5 10 install []).1 = Err (SoDBlocked policy) /\
  (requireGroupJoinNoSoDViolationOn install 0 1 (group_grants 0 tables 5) []).1 = Err (SoDBlocked policy) /\
  (requireMachineGrantNoSoDViolationOn install 7 11 []).1 = Err (SoDBlocked policy) /\
  (requireGrantSetNoSoDViolation install [10; 11] []).1 = Err (SoDBlocked policy).
Proof. by vm_compute. Qed.

(** * What is let through *)

(** A machine never has an administrator's bypass, so only what role 13 lists counts, and the
    scan reports it; the gate waves it through for its name. *)
Example machine_exempt_by_name :
  (requireMachineGrantNoSoDViolationOn install 7 13 []).1 = Ok () /\ violates install 0 (PMachine 7) policy = false /\
  violates (machine_granted install 7 13 (mkScope 3 0)) 0 (PMachine 7) policy = true.
Proof. by vm_compute. Qed.

(** An administrator's role in one project exempts the whole of a join, and of a new
    account, although its holder does not become a global administrator. *)
Example project_admin_exempts_the_set :
  (requireGroupJoinNoSoDViolationOn install 0 1 (group_grants 0 tables 6) []).1 = Ok () /\
  global_admin (member_added install 1 6 0) 0 1 = false /\
  violates install 0 (PUser 1) policy = false /\ violates (member_added install 1 6 0) 0 (PUser 1) policy = true /\
  (requireGrantSetNoSoDViolation install [12; 13; 10; 11] []).1 = Ok () /\
  (requireNoSoDViolationOn install 0 4 [12; 13; 10; 11] (mkScope 3 0) []).1 = Err (SoDBlocked policy).
Proof. by vm_compute. Qed.

(** A grant to a group that saw no policy does not look again in its transaction. *)
Example group_grant_misses_new_policy :
  let db' := after (gated_group_grant 0 5 10 global None no_policies install) install in
  violates install 0 (PUser 2) policy = false /\ violates db' 0 (PUser 2) policy = true /\
  (gated_group_grant 0 5 10 global None install install []).1 = Err (SoDBlocked policy).
Proof. by vm_compute. Qed.

(** A join on behalf of the system is not checked; a grant on its behalf is. *)
Example system_join_unchecked :
  let db' := after (AddUserToGroup no_store 0 (fun b => b) [] (mkCall 0 false None false (mkCtx None false false false)) 1 5 0 install install) install in
  violates install 0 (PUser 1) policy = false /\ violates db' 0 (PUser 1) policy = true /\
  (AssignUserRole no_store 0 (mkCall 0 false None false (mkCtx None false false false)) 1 11 global install install []).1 = Err (SoDBlocked policy).
Proof. by vm_compute. Qed.

(** From page 10001 on the scan is given page 10000 again. *)
Example pages_are_capped db fs : ListUsers db 10001 scanPageSize fs = ListUsers db 10000 scanPageSize fs.
Proof. done. Qed.
